(* ===== verification/_CoqProject ===== *)
-Q . S2P
Prelude.v
StdList.v
Box.v
DestructGraph.v
DestructOrder.v
DestructEmit.v
DestructBuild.v
GcMark.v
GcMarkSpec.v
GcMarkInv.v
GcCollect.v
GcCollectSpec.v
GcExamples.v
Overload.v
Closure.v
GcThreads.v
GcThreadsInv.v
GcThreadsSafe.v
GcThreadsLive.v
WsFrame.v
WsState.v
WsMessages.v
IntOps.v
BitField.v
StructLayout.v
StructLayoutSpec.v
StructLayoutProps.v
ClassVtable.v
ClassVtableSpec.v
ClassVtableInv.v
ClassVtableLayout.v
ClassVtableInvariant.v
ClassVtableDispatch.v
ClassCreate.v
ClassVtableProps.v
Multicast.v
MulticastProps.v
Reactor.v
ReactorInv.v
ReactorRun.v
ReactorLoop.v
ReactorEvents.v
ReactorProps.v
Memory.v
DataPtr.v
DataPtrInv.v
DataPtrPool.v
DataString.v
DataStringSpec.v
DataPtrProps.v
ControlFlow.v
ControlFlowRun.v
ControlFlowInv.v
ControlFlowOps.v
ControlFlowScope.v
ControlFlowRoute.v
ControlFlowLabels.v
ControlFlowSim.v
ControlFlowLeaf.v
ControlFlowStmt.v
ControlFlowLoop.v
ControlFlowTry.v
ControlFlowFinally.v
ControlFlowCatch.v
ControlFlowTryFinally.v
ControlFlowProps.v
