(* ===== verification/Prelude.v ===== *)
(** * Jancy runtime and compiler core: a verification library

    Jancy is a scripting language with C-like syntax whose compiler ([src/src/jnc_ct]) translates modules to LLVM IR and whose
    runtime ([src/src/jnc_rt], [src/src/jnc_ext/jnc_rtl_core]) runs the code that comes out of it, with a precise, stop-the-world garbage
    collector, data pointers that carry the range they may access, exceptions, virtual methods, events and reactors. This library models
    parts of the compiler, of the runtime and of the extension libraries as functions, and proves what they guarantee, and in some cases
    what they do not.

    ** How it is laid out

    A component has a file with its data and operations, named as in the source, files with its invariant and its lemmas, and a
    file with its properties. State is passed explicitly: an operation is a function from a state to a state, in an option or error
    monad where the code dereferences pointers, asserts or throws. Memory that is shared is a finite map from addresses, so that
    aliasing is that of the code. What the code takes from elsewhere (the AXL library, LLVM, [malloc], types of a module where only
    their size matters) is a class with laws; each set of laws has an instance, and the examples run.

    - [Prelude]: machine words of 64 bits, lists, tactics. [Box]: headers of objects ([src/include/jnc_RuntimeStructs.h]).
    - [StdList]: [src/src/jnc_ext/jnc_std/jnc_std_List.cpp]. A refinement of lists of entries.
    - [DestructGraph], [DestructOrder], [DestructEmit], [DestructBuild]: [src/src/jnc_rt/jnc_rt_DestructGraph.cpp]: the order in which
      unreachable objects are destructed, by an iterative Tarjan. It computes the strongly connected components in as many steps as the
      graph is large, and the order is topological.
    - [GcMark], [GcMarkSpec], [GcMarkInv], [GcCollect], [GcCollectSpec], [GcExamples]: marking and [collect_l] of
      [src/src/jnc_rt/jnc_rt_GcHeap.cpp], with the [markGcRoots] methods of the types under [src/src/jnc_ct/jnc_ct_TypeMgr]. A collection keeps
      exactly what the roots, and the objects it is about to destruct, refer to. It calls [DestructGraph].
    - [GcThreads], [GcThreadsInv], [GcThreadsSafe], [GcThreadsLive]: the threads of the heap as a transition system with one step per access
      to the shared state, and the call sites of [src/src/jnc_rt/jnc_rt_Runtime.cpp]. The world is stopped while [GcCollect] works, and it
      can always be resumed.
    - [Overload], [Closure]: [jnc_ct_FunctionTypeOverload.cpp] and [jnc_ct_Closure.cpp]: overload resolution, partial application.
    - [IntOps], [BitField]: integer operators on constants and the words their instructions compute; loading and storing bit fields.
    - [StructLayout], [StructLayoutSpec], [StructLayoutProps]: [calcLayout] of structs, unions and arrays.
    - [ClassVtable], [ClassVtableSpec], [ClassVtableInv], [ClassVtableLayout], [ClassVtableInvariant], [ClassVtableDispatch], [ClassCreate],
      [ClassVtableProps]: [jnc_ct_ClassType.cpp] and virtual calls. A virtual call of a method that is not ambiguous reaches the
      override, by name and signature, of the most derived class. It uses [StructLayout].
    - [ControlFlow], [ControlFlowRun], [ControlFlowInv], [ControlFlowOps], [ControlFlowScope], [ControlFlowRoute], [ControlFlowLabels], [ControlFlowSim],
      [ControlFlowLeaf], [ControlFlowStmt], [ControlFlowLoop], [ControlFlowTry], [ControlFlowFinally], [ControlFlowCatch], [ControlFlowTryFinally],
      [ControlFlowProps]: [src/src/jnc_ct/jnc_ct_ControlFlowMgr] and the scopes of [jnc_ct_NamespaceMgr.cpp]: how statements become basic blocks.
      [ControlFlow] has the compiler, with its state; [ControlFlowRun] a machine for the blocks, with [setjmp] and [longjmp], and the meaning of statements; the
      next four files what holds of the state of the compiler, and what each operation adds to it; the others a simulation, statement by statement.
      [ControlFlowProps.compile_correct]: a compiled function does what its statements mean, if no labels are in the parts behind labels;
      [ControlFlowProps.nested_labels_lost] shows what happens otherwise. Actions and conditions are numbers that a class of effects interprets. Not modelled
      are [switch], [for], [once] and [assert], variables that are disposed of, nested scopes, [try] expressions, async functions, reactors and
      dynamic layouts, and the block that saves a signal before a [catch].
    - [Multicast], [MulticastProps], [Reactor], [ReactorInv], [ReactorRun], [ReactorLoop], [ReactorEvents], [ReactorProps]:
      [jnc_rtl_Multicast.cpp] and [jnc_rtl_Reactor.cpp]. Reactors are proved against a class of events; [ReactorEvents] shows that multicasts are an instance.
    - [Memory], [DataPtr], [DataPtrInv], [DataPtrPool], [DataString], [DataStringSpec], [DataPtrProps]: data pointers, validators and their pools
      ([jnc_rt_GcHeap.cpp], [jnc_rtl_CoreLib.cpp]), strings ([jnc_api/jnc_Runtime.cpp], [jnc_String.cpp]) and the memory functions of [jnc_std_StdLib.cpp], over
      a memory of bytes.
    - [WsFrame], [WsState], [WsMessages]: [src/src/jnc_ext/jnc_io_websocket]: frames, the incremental parser, the state machine of a
      connection, messages in fragments.

    ** What is shown

    Refinements: [StdList.run_op_refines], [GcCollectSpec.collect_exact], [DestructBuild.destruct_order], [ClassVtableProps.virtual_dispatch],
    [MulticastProps.multicast_refines], [DataPtrProps.string_concatenation] relate operations to a specification that does not have their data. Safety and liveness: [GcThreadsSafe.world_stopped],
    [GcThreadsLive.world_resumes], [ReactorProps.reactor_safe], [ReactorProps.reactor_reacts], [DataPtrProps.data_ptr_safe]. Round trips: frames and messages of a
    connection, bit fields. Equivalences: parsing in chunks, constant folding against instructions, the LLVM struct against the fields, statements against the blocks they are compiled to.
    Types and bounds: closures, virtual tables, layouts. Errors: what each part does not survive is a theorem too,
    or an example of a concrete run; where a property has an exception, its comment says which, and why.

    ** Bounds and fuel

    Where the recursion of the code is not on its data, a function takes fuel, and a theorem says how much is enough: the number of nodes and edges
    for [DestructGraph], the number of rounds in which marks can be added for [GcMark], the size of the input for the parser, the number of pending reactions
    for the loop of a reactor. [size_t] has 64 bits and wraps around.

    ** What is not modelled

    The parser and the lexer, which are generated from grammars (their actions are composed by hand where statements are modelled); the builders of LLVM IR
    and debug information and the JIT; most of the operator manager, whose functions emit instructions; names, namespaces, imports, templates and
    attributes, on which layouts and calls are given results; floating point; properties, promises and async functions, regular expressions,
    variants, dynamic layouts; the I/O extensions apart from the protocol of WebSockets, which are wrappers of system calls; the editor and
    the applications. AXL, LLVM, re2 and other libraries are not in the repository, or are not its own. *)

From stdpp Require Export base gmap list strings fin_maps fin_sets sorting.
From Stdlib Require Export NArith ZArith Lia.

(** ** Tactics of the development *)

(** Case analysis on the [match] or [if] that blocks the goal. *)
Ltac dmatch :=
  match goal with
  | |- context [match ?x with _ => _ end] => destruct x eqn:?
  end.

(** The same in a hypothesis. *)
Ltac dmatch_in H :=
  match type of H with
  | context [match ?x with _ => _ end] => destruct x eqn:?
  end.

(** Boolean comparisons of the code turned into propositions. *)
Ltac to_prop :=
  repeat match goal with
  | H : (_ <? _)%N = true |- _ => apply N.ltb_lt in H
  | H : (_ <? _)%N = false |- _ => apply N.ltb_ge in H
  | H : (_ <=? _)%N = true |- _ => apply N.leb_le in H
  | H : (_ <=? _)%N = false |- _ => apply N.leb_gt in H
  | H : (_ =? _)%N = true |- _ => apply N.eqb_eq in H
  | H : (_ =? _)%N = false |- _ => apply N.eqb_neq in H
  | H : (_ <? _)%nat = true |- _ => apply Nat.ltb_lt in H
  | H : (_ <? _)%nat = false |- _ => apply Nat.ltb_ge in H
  | H : (_ <=? _)%nat = true |- _ => apply Nat.leb_le in H
  | H : (_ <=? _)%nat = false |- _ => apply Nat.leb_gt in H
  | H : (_ =? _)%nat = true |- _ => apply Nat.eqb_eq in H
  | H : (_ =? _)%nat = false |- _ => apply Nat.eqb_neq in H
  | H : _ && _ = true |- _ => apply andb_true_iff in H; destruct H
  | H : _ || _ = false |- _ => apply orb_false_iff in H; destruct H
  | H : negb _ = true |- _ => apply negb_true_iff in H
  | H : negb _ = false |- _ => apply negb_false_iff in H
  | H : bool_decide _ = true |- _ => apply bool_decide_eq_true in H
  | H : bool_decide _ = false |- _ => apply bool_decide_eq_false in H
  end.

(** Inversion of the option binds an operation is made of. *)
Ltac opt_inv :=
  repeat match goal with
  | H : mbind _ _ = Some _ |- _ => apply bind_Some in H; destruct H as (? & ? & H)
  | H : Some _ = Some _ |- _ => injection H as H; subst
  | H : None = Some _ |- _ => discriminate H
  end.

(** ** Addresses *)

(** A machine address of an object; [None] of type [option loc] is the null
    pointer. *)
Abbreviation loc := N.

(** ** [size_t] arithmetic

    [size_t] is 64 bits wide on the targets the code base supports first; a
    value is an [N] below [2^64] and every operation wraps. *)

Definition size_mod : N := 18446744073709551616.

(** [(size_t)-1] *)
Definition size_max : N := 18446744073709551615.

Definition wrap64 (n : N) : N := (n mod size_mod)%N.
Definition add64 (a b : N) : N := wrap64 (a + b).
Definition sub64 (a b : N) : N := wrap64 (a + (size_mod - b)).
Definition mul64 (a b : N) : N := wrap64 (a * b).

Lemma size_mod_pos : (0 < size_mod)%N.
Proof. reflexivity. Qed.

Lemma size_max_lt : (size_max < size_mod)%N.
Proof. reflexivity. Qed.

Lemma wrap64_small n : (n < size_mod)%N → wrap64 n = n.
Proof. intros. by apply N.mod_small. Qed.

Lemma wrap64_lt n : (wrap64 n < size_mod)%N.
Proof. apply N.mod_lt. done. Qed.

Lemma add64_small a b : (a + b < size_mod)%N → add64 a b = (a + b)%N.
Proof. apply wrap64_small. Qed.

Lemma mul64_small a b : (a * b < size_mod)%N → mul64 a b = (a * b)%N.
Proof. apply wrap64_small. Qed.

Lemma sub64_ge a b : (b ≤ a)%N → (a < size_mod)%N → sub64 a b = (a - b)%N.
Proof.
  intros Hle Hlt. unfold sub64, wrap64.
  replace (a + (size_mod - b))%N with ((a - b) + 1 * size_mod)%N by lia.
  rewrite N.Div0.mod_add. apply N.mod_small. lia.
Qed.

Lemma sub64_one_zero : sub64 0 1 = size_max.
Proof. reflexivity. Qed.

Create HintDb jancy discriminated.
#[export] Hint Resolve size_mod_pos size_max_lt wrap64_lt : jancy.
#[export] Hint Rewrite wrap64_small add64_small mul64_small sub64_ge using lia : jancy.

(** ** Lists *)

Section list_ends.
Context {A : Type}.

(** The first element, or a default that continues the list. *)
Definition hd_or (l : list A) (d : option A) : option A :=
  match l with [] => d | x :: _ => Some x end.

(** The last element, or a default that precedes the list. *)
Fixpoint last_or (d : option A) (l : list A) : option A :=
  match l with [] => d | x :: l' => last_or (Some x) l' end.

Lemma hd_or_app l1 l2 d : hd_or (l1 ++ l2) d = hd_or l1 (hd_or l2 d).
Proof. by destruct l1. Qed.

Lemma last_or_app d l1 l2 : last_or d (l1 ++ l2) = last_or (last_or d l1) l2.
Proof. revert d. induction l1; simpl; auto. Qed.

Lemma last_or_snoc d l x : last_or d (l ++ [x]) = Some x.
Proof. by rewrite last_or_app. Qed.

Lemma hd_or_None l : hd_or l None = None → l = [].
Proof. by destruct l. Qed.

Lemma last_or_Some d l x : last_or (Some d) l = Some x → x ∈ d :: l.
Proof.
  revert d. induction l as [|y l IH]; intros d; simpl.
  - intros [= ->]. left.
  - intros H. right. by apply IH.
Qed.

Lemma last_or_elem l x : last_or None l = Some x → x ∈ l.
Proof. destruct l as [|y l]; simpl; [done|]. apply last_or_Some. Qed.

Lemma last_or_None l : last_or None l = None → l = [].
Proof.
  destruct l as [|y l]; [done|]. simpl. intros H. exfalso. revert y H.
  induction l as [|z l IH]; intros y; simpl; [done|]. apply IH.
Qed.

Lemma hd_or_elem l x : hd_or l None = Some x → x ∈ l.
Proof. destruct l; simpl; [done|]. intros [= ->]. left. Qed.
End list_ends.

#[export] Hint Rewrite @hd_or_app @last_or_app @last_or_snoc : jancy.

(** ** Sorted lists *)

Section sorted.
Context {A : Type} (R R' : A → A → Prop).

Lemma SSorted_impl l :
  (∀ a b, a ∈ l → b ∈ l → R a b → R' a b) → StronglySorted R l → StronglySorted R' l.
Proof.
  intros Himp Hs. induction Hs as [|x l Hs IH Hf]; constructor.
  - apply IH. intros a b Ha Hb. apply Himp; by right.
  - rewrite Forall_forall in *. intros b Hb. apply Himp; [left|by right|by apply Hf].
Qed.

Lemma SSorted_app_between l1 l2 a b :
  StronglySorted R (l1 ++ l2) → a ∈ l1 → b ∈ l2 → R a b.
Proof.
  induction l1 as [|x l1 IH]; simpl; intros Hs Ha Hb; [by apply not_elem_of_nil in Ha|].
  apply StronglySorted_inv in Hs as [Hs Hf]. apply elem_of_cons in Ha as [->|Ha]; [|by apply IH].
  rewrite Forall_forall in Hf. apply Hf. apply elem_of_app. by right.
Qed.

Lemma SSorted_app_r l1 l2 : StronglySorted R (l1 ++ l2) → StronglySorted R l2.
Proof.
  induction l1 as [|x l1 IH]; simpl; intros Hs; [done|].
  apply StronglySorted_inv in Hs as [Hs _]. by apply IH.
Qed.

End sorted.

(** ** Lengths of filtered lists *)

Lemma filter_length_le {A} (P Q : A → Prop) `{∀ x, Decision (P x), ∀ x, Decision (Q x)} (l : list A) :
  (∀ x, x ∈ l → P x → Q x) → length (filter P l) ≤ length (filter Q l).
Proof.
  induction l as [|x l IH]; intros HPQ; [done|]. rewrite !filter_cons.
  assert (IH' := IH (λ y Hy, HPQ y (list_elem_of_further _ _ _ Hy))).
  repeat case_decide; simpl; try lia. exfalso. by apply H2, HPQ; [left|].
Qed.

Lemma filter_length_lt {A} (P Q : A → Prop) `{∀ x, Decision (P x), ∀ x, Decision (Q x)} (l : list A) x :
  (∀ x, x ∈ l → P x → Q x) → x ∈ l → Q x → ¬ P x → length (filter P l) < length (filter Q l).
Proof.
  induction l as [|y l IH]; intros HPQ Hx HQ HP; [by apply not_elem_of_nil in Hx|].
  assert (HPQ' : ∀ z, z ∈ l → P z → Q z) by (intros; apply HPQ; [by right|done]).
  pose proof (filter_length_le P Q l HPQ') as Hle. rewrite !filter_cons.
  apply elem_of_cons in Hx as [->|Hx].
  - rewrite decide_False, decide_True by done. simpl. lia.
  - specialize (IH HPQ' Hx HQ HP). repeat case_decide; simpl; try lia.
    exfalso. by apply H2, HPQ; [left|].
Qed.
