(* ===== verification/StdList.v ===== *)
(** * [std.List]: the doubly linked list of the standard extension library

    Models [src/src/jnc_ext/jnc_std/jnc_std_List.cpp] and its header: list
    objects and list entries are objects of a store, linked by fat data
    pointers, so that aliasing between an entry, its neighbours and the list it
    belongs to is the code's own.  A dereference of a null or unknown address
    makes an operation return [None]; [ASSERT]s are compiled out and are not
    part of the operations. *)

From S2P Require Import Prelude.

Section StdList.
  Context {V : Type} (g_nullVariant : V).

(** ** Data *)

(** [DataPtr]: a target address and the address of its validator. *)
Record DataPtr := mkDataPtr { m_p : option loc; m_validator : option loc }.

Definition g_nullDataPtr : DataPtr := mkDataPtr None None.

Record ListEntry := mkListEntry {
  m_nextPtr : DataPtr;
  m_prevPtr : DataPtr;
  m_list : option loc;
  m_data : V
}.

Record ListObj := mkList {
  m_headPtr : DataPtr;
  m_tailPtr : DataPtr;
  m_count : N
}.

Record store := mkStore {
  entries : gmap loc ListEntry;
  lists : gmap loc ListObj
}.

(** ** Field assignments *)

Definition with_next (q : DataPtr) (e : ListEntry) : ListEntry :=
  mkListEntry q (m_prevPtr e) (m_list e) (m_data e).
Definition with_prev (q : DataPtr) (e : ListEntry) : ListEntry :=
  mkListEntry (m_nextPtr e) q (m_list e) (m_data e).
Definition with_list (q : option loc) (e : ListEntry) : ListEntry :=
  mkListEntry (m_nextPtr e) (m_prevPtr e) q (m_data e).
Definition with_data (d : V) (e : ListEntry) : ListEntry :=
  mkListEntry (m_nextPtr e) (m_prevPtr e) (m_list e) d.

Definition with_head (q : DataPtr) (l : ListObj) : ListObj :=
  mkList q (m_tailPtr l) (m_count l).
Definition with_tail (q : DataPtr) (l : ListObj) : ListObj :=
  mkList (m_headPtr l) q (m_count l).
Definition with_count (n : N) (l : ListObj) : ListObj :=
  mkList (m_headPtr l) (m_tailPtr l) n.

(** [p->field] and [p->field = v] through a possibly null pointer. *)
Definition rd (st : store) (p : option loc) : option ListEntry :=
  a ← p; entries st !! a.

Definition wr (st : store) (p : option loc) (f : ListEntry → ListEntry) : option store :=
  a ← p; _ ← entries st !! a;
  Some (mkStore (alter f a (entries st)) (lists st)).

Definition rdl (st : store) (self : loc) : option ListObj := lists st !! self.

Definition wrl (st : store) (self : loc) (f : ListObj → ListObj) : option store :=
  _ ← lists st !! self;
  Some (mkStore (entries st) (alter f self (lists st))).

#[local] Arguments rd : simpl never.
#[local] Arguments wr : simpl never.
#[local] Arguments rdl : simpl never.
#[local] Arguments wrl : simpl never.

Definition incr_count (l : ListObj) : ListObj := with_count (add64 (m_count l) 1) l.
Definition decr_count (l : ListObj) : ListObj := with_count (sub64 (m_count l) 1) l.

(** ** The [Impl] operations *)

Definition insertHeadImpl (st : store) (self : loc) (entryPtr : DataPtr) : option store :=
  st ← wr st (m_p entryPtr) (with_prev g_nullDataPtr);
  l ← rdl st self;
  st ← wr st (m_p entryPtr) (with_next (m_headPtr l));
  st ← (if m_p (m_headPtr l) then wr st (m_p (m_headPtr l)) (with_prev entryPtr)
        else wrl st self (with_tail entryPtr));
  st ← wrl st self (with_head entryPtr);
  wrl st self incr_count.

Definition insertTailImpl (st : store) (self : loc) (entryPtr : DataPtr) : option store :=
  l ← rdl st self;
  st ← wr st (m_p entryPtr) (with_prev (m_tailPtr l));
  st ← wr st (m_p entryPtr) (with_next g_nullDataPtr);
  st ← (if m_p (m_tailPtr l) then wr st (m_p (m_tailPtr l)) (with_next entryPtr)
        else wrl st self (with_head entryPtr));
  st ← wrl st self (with_tail entryPtr);
  wrl st self incr_count.

Definition insertBeforeImpl (st : store) (self : loc) (entryPtr beforePtr : DataPtr)
    : option store :=
  if m_p beforePtr then
    before ← rd st (m_p beforePtr);
    let prev := m_p (m_prevPtr before) in
    st ← wr st (m_p entryPtr) (with_prev (m_prevPtr before));
    st ← wr st (m_p entryPtr) (with_next beforePtr);
    st ← wr st (m_p beforePtr) (with_prev entryPtr);
    st ← (if prev then wr st prev (with_next entryPtr)
          else wrl st self (with_head entryPtr));
    wrl st self incr_count
  else insertTailImpl st self entryPtr.

Definition insertAfterImpl (st : store) (self : loc) (entryPtr afterPtr : DataPtr)
    : option store :=
  if m_p afterPtr then
    after ← rd st (m_p afterPtr);
    let next := m_p (m_nextPtr after) in
    st ← wr st (m_p entryPtr) (with_prev afterPtr);
    after ← rd st (m_p afterPtr);
    st ← wr st (m_p entryPtr) (with_next (m_nextPtr after));
    st ← wr st (m_p afterPtr) (with_next entryPtr);
    st ← (if next then wr st next (with_prev entryPtr)
          else wrl st self (with_tail entryPtr));
    wrl st self incr_count
  else insertHeadImpl st self entryPtr.

Definition removeImpl (st : store) (self : loc) (entry : option loc) : option store :=
  e ← rd st entry;
  let next := m_p (m_nextPtr e) in
  let prev := m_p (m_prevPtr e) in
  st ← (if prev then wr st prev (with_next (m_nextPtr e))
        else wrl st self (with_head (m_nextPtr e)));
  e ← rd st entry;
  st ← (if next then wr st next (with_prev (m_prevPtr e))
        else wrl st self (with_tail (m_prevPtr e)));
  wrl st self decr_count.

(** ** The exported methods *)

(** [createData<ListEntry>]: a zeroed entry at an unused address.  The entry's
    validator is a part of the same box, named here by the same address. *)
Definition allocateListEntry (st : store) : DataPtr * store :=
  let a := fresh (dom (entries st)) in
  (mkDataPtr (Some a) (Some a),
   mkStore (<[a := mkListEntry g_nullDataPtr g_nullDataPtr None g_nullVariant]> (entries st))
           (lists st)).

Definition newEntry (st : store) (self : loc) (data : V) : option (DataPtr * store) :=
  let '(entryPtr, st) := allocateListEntry st in
  st ← wr st (m_p entryPtr) (with_list (Some self));
  st ← wr st (m_p entryPtr) (with_data data);
  Some (entryPtr, st).

Definition insertHead (st : store) (self : loc) (data : V) : option (DataPtr * store) :=
  '(entryPtr, st) ← newEntry st self data;
  st ← insertHeadImpl st self entryPtr;
  Some (entryPtr, st).

Definition insertTail (st : store) (self : loc) (data : V) : option (DataPtr * store) :=
  '(entryPtr, st) ← newEntry st self data;
  st ← insertTailImpl st self entryPtr;
  Some (entryPtr, st).

Definition insertBefore (st : store) (self : loc) (data : V) (beforePtr : DataPtr)
    : option (DataPtr * store) :=
  '(entryPtr, st) ← newEntry st self data;
  st ← insertBeforeImpl st self entryPtr beforePtr;
  Some (entryPtr, st).

Definition insertAfter (st : store) (self : loc) (data : V) (afterPtr : DataPtr)
    : option (DataPtr * store) :=
  '(entryPtr, st) ← newEntry st self data;
  st ← insertAfterImpl st self entryPtr afterPtr;
  Some (entryPtr, st).

(** The guard [!entry || entry->m_list != this] of the moves and of [remove]:
    [Some true] when the operation returns early. *)
Definition foreignEntry (st : store) (self : loc) (entryPtr : DataPtr) : option bool :=
  if m_p entryPtr then
    e ← rd st (m_p entryPtr);
    Some (bool_decide (m_list e ≠ Some self))
  else Some true.

Definition moveToHead (st : store) (self : loc) (entryPtr : DataPtr) : option store :=
  skip ← foreignEntry st self entryPtr;
  if skip : bool then Some st else
    st ← removeImpl st self (m_p entryPtr);
    insertHeadImpl st self entryPtr.

Definition moveToTail (st : store) (self : loc) (entryPtr : DataPtr) : option store :=
  skip ← foreignEntry st self entryPtr;
  if skip : bool then Some st else
    st ← removeImpl st self (m_p entryPtr);
    insertTailImpl st self entryPtr.

Definition moveBefore (st : store) (self : loc) (entryPtr beforePtr : DataPtr) : option store :=
  skip ← foreignEntry st self entryPtr;
  if skip : bool then Some st else
    st ← removeImpl st self (m_p entryPtr);
    insertBeforeImpl st self entryPtr beforePtr.

Definition moveAfter (st : store) (self : loc) (entryPtr afterPtr : DataPtr) : option store :=
  skip ← foreignEntry st self entryPtr;
  if skip : bool then Some st else
    st ← removeImpl st self (m_p entryPtr);
    insertAfterImpl st self entryPtr afterPtr.

Definition remove (st : store) (self : loc) (entryPtr : DataPtr) : option (V * store) :=
  skip ← foreignEntry st self entryPtr;
  if skip : bool then Some (g_nullVariant, st) else
    st ← removeImpl st self (m_p entryPtr);
    st ← wr st (m_p entryPtr) (with_prev g_nullDataPtr);
    st ← wr st (m_p entryPtr) (with_next g_nullDataPtr);
    st ← wr st (m_p entryPtr) (with_list None);
    e ← rd st (m_p entryPtr);
    Some (m_data e, st).

Definition removeHead (st : store) (self : loc) : option (V * store) :=
  l ← rdl st self; remove st self (m_headPtr l).

Definition removeTail (st : store) (self : loc) : option (V * store) :=
  l ← rdl st self; remove st self (m_tailPtr l).

(** The loop of [clear] and [takeOver] over the entries from [entry]: out of
    fuel when the chain is longer than the fuel or has a cycle. *)
Fixpoint relabel (fuel : nat) (st : store) (entry : option loc) (owner : option loc)
    : option store :=
  match fuel with
  | O => None
  | S fuel =>
    if entry then
      st ← wr st entry (with_list owner);
      e ← rd st entry;
      relabel fuel st (m_p (m_nextPtr e)) owner
    else Some st
  end.

Definition clear (fuel : nat) (st : store) (self : loc) : option store :=
  l ← rdl st self;
  st ← relabel fuel st (m_p (m_headPtr l)) None;
  st ← wrl st self (with_head g_nullDataPtr);
  st ← wrl st self (with_tail g_nullDataPtr);
  wrl st self (with_count 0).

Definition takeOver (fuel : nat) (st : store) (self : loc) (list : option loc) : option store :=
  match list with
  | None => clear fuel st self
  | Some src =>
    l ← rdl st src;
    st ← relabel fuel st (m_p (m_headPtr l)) (Some self);
    l ← rdl st src;
    st ← wrl st self (with_head (m_headPtr l));
    l ← rdl st src;
    st ← wrl st self (with_tail (m_tailPtr l));
    l ← rdl st src;
    st ← wrl st self (with_count (m_count l));
    st ← wrl st src (with_head g_nullDataPtr);
    st ← wrl st src (with_tail g_nullDataPtr);
    wrl st src (with_count 0)
  end.

(** ** The representation invariant

    [chain E self p l n]: the entries [l] are linked in order in [E], belong to
    [self], the first one points back to [p] and the last one on to [n]. *)
Fixpoint chain (E : gmap loc ListEntry) (self : loc) (p : option loc) (l : list loc)
    (n : option loc) : Prop :=
  match l with
  | [] => True
  | x :: l' =>
    (∃ e, E !! x = Some e ∧ m_list e = Some self ∧ m_p (m_prevPtr e) = p
          ∧ m_p (m_nextPtr e) = hd_or l' n)
    ∧ chain E self (Some x) l' n
  end.

(** The list object [self] represents the entries [l].  Entries other than
    [skip] that claim to belong to [self] are among them. *)
Record wf_list (skip : option loc) (st : store) (self : loc) (l : list loc) : Prop := {
  wl_obj : ∃ lo, lists st !! self = Some lo ∧ m_p (m_headPtr lo) = hd_or l None
             ∧ m_p (m_tailPtr lo) = last_or None l
             ∧ m_count lo = wrap64 (N.of_nat (length l));
  wl_chain : chain (entries st) self None l None;
  wl_nodup : NoDup l;
  wl_owned : ∀ a e, entries st !! a = Some e → m_list e = Some self →
             Some a ≠ skip → a ∈ l
}.

(** The abstract state: the sequence of entries of every list. *)
Definition wf_skip (skip : option loc) (st : store) (A : gmap loc (list loc)) : Prop :=
  ∀ self l, A !! self = Some l → wf_list skip st self l.

Definition wf (st : store) (A : gmap loc (list loc)) : Prop := wf_skip None st A.

(** An entry that already names its owner but is not linked yet. *)
Record pending (st : store) (A : gmap loc (list loc)) (self x : loc) : Prop := {
  pd_wf : wf_skip (Some x) st A;
  pd_entry : ∃ e, entries st !! x = Some e ∧ m_list e = Some self;
  pd_fresh : ∀ l, A !! self = Some l → x ∉ l
}.

Definition same_data (st st' : store) : Prop :=
  ∀ a, m_data <$> entries st' !! a = m_data <$> entries st !! a.

(** *** Chains *)

Lemma chain_app E self p l1 l2 n :
  chain E self p (l1 ++ l2) n ↔
  chain E self p l1 (hd_or l2 n) ∧ chain E self (last_or p l1) l2 n.
Proof.
  revert p. induction l1 as [|x l1 IH]; intros p; simpl; [tauto|].
  rewrite IH, hd_or_app. tauto.
Qed.

Lemma chain_elem E self p l n x :
  chain E self p l n → x ∈ l → ∃ e, E !! x = Some e ∧ m_list e = Some self.
Proof.
  revert p. induction l as [|y l IH]; intros p Hch Hx.
  - by apply not_elem_of_nil in Hx.
  - destruct Hch as [(e & He & Hs & _) Hc]. apply elem_of_cons in Hx as [->|Hx]; eauto.
Qed.

Lemma chain_frame E E' self p l n :
  (∀ a, a ∈ l → E' !! a = E !! a) → chain E self p l n → chain E' self p l n.
Proof.
  revert p. induction l as [|x l IH]; intros p Hf; simpl; [done|].
  intros [(e & He & Hr) Hc]. split.
  - exists e. rewrite Hf by set_solver. done.
  - apply IH; [|done]. intros a Ha. apply Hf. set_solver.
Qed.

(** The effect of a link operation on an entry [a] other than the one linked or
    unlinked: the predecessor gets a new [m_nextPtr], the successor a new
    [m_prevPtr]. *)
Definition touch (oN : option loc) (qN : DataPtr) (oP : option loc) (qP : DataPtr)
    (a : loc) (e : ListEntry) : ListEntry :=
  let e := if decide (oN = Some a) then with_next qN e else e in
  if decide (oP = Some a) then with_prev qP e else e.

Definition touched (E E' : gmap loc ListEntry) (x : loc) oN qN oP qP : Prop :=
  ∀ a, a ≠ x → E' !! a = touch oN qN oP qP a <$> E !! a.

Lemma touch_list oN qN oP qP a e : m_list (touch oN qN oP qP a e) = m_list e.
Proof. unfold touch. by repeat case_decide. Qed.

Lemma touch_data oN qN oP qP a e : m_data (touch oN qN oP qP a e) = m_data e.
Proof. unfold touch. by repeat case_decide. Qed.

Lemma touch_id oN qN oP qP a e : oN ≠ Some a → oP ≠ Some a → touch oN qN oP qP a e = e.
Proof. intros. unfold touch. by rewrite !decide_False. Qed.

Lemma touched_other E E' x oN qN oP qP a :
  touched E E' x oN qN oP qP → a ≠ x → oN ≠ Some a → oP ≠ Some a → E' !! a = E !! a.
Proof.
  intros Ht Hx HN HP. rewrite Ht by done.
  destruct (E !! a); simpl; [|done]. by rewrite touch_id.
Qed.

Lemma chain_touch_l E E' self x p l n oN qN oP qP :
  touched E E' x oN qN oP qP → NoDup l → x ∉ l → (∀ a, a ∈ l → oP ≠ Some a) →
  oN = last_or None l → chain E self p l n → chain E' self p l (m_p qN).
Proof.
  intros Ht. revert p. induction l as [|y l IH]; intros p Hnd Hx HP HN; simpl; [done|].
  intros [(e & He & Hl & Hp & Hn) Hc].
  apply NoDup_cons in Hnd as [Hy Hnd].
  assert (Hyx : y ≠ x) by set_solver.
  split.
  - exists (touch oN qN oP qP y e). rewrite Ht, He by done. split; [done|].
    rewrite touch_list. split; [done|].
    unfold touch. rewrite (decide_False (P := oP = Some y)) by (apply HP; set_solver).
    destruct l as [|z l]; simpl in *.
    + subst oN. by rewrite decide_True.
    + rewrite decide_False; [done|]. intros ->.
      symmetry in HN. apply last_or_Some in HN. set_solver.
  - destruct l as [|z l]; [done|]. apply IH; [done|set_solver|set_solver| |done].
    by rewrite HN.
Qed.

Lemma chain_touch_r E E' self x p l n oN qN oP qP :
  touched E E' x oN qN oP qP → NoDup l → x ∉ l → (∀ a, a ∈ l → oN ≠ Some a) →
  oP = hd_or l None → chain E self p l n → chain E' self (m_p qP) l n.
Proof.
  intros Ht Hnd Hx HN HP Hc. destruct l as [|y l]; simpl in *; [done|].
  destruct Hc as [(e & He & Hl & Hp & Hn) Hc].
  apply NoDup_cons in Hnd as [Hy Hnd].
  split.
  - exists (touch oN qN oP qP y e). rewrite Ht, He by set_solver. split; [done|].
    rewrite touch_list. split; [done|].
    unfold touch. rewrite (decide_False (P := oN = Some y)) by (apply HN; set_solver).
    by rewrite decide_True.
  - eapply chain_frame; [|exact Hc]. intros a Ha.
    eapply touched_other; [done|set_solver|apply HN; set_solver|set_solver].
Qed.

(** *** Linking and unlinking *)

(** [st'] is [st] with [x] linked between [l1] and [l2]. *)
Record linked (st st' : store) (self x : loc) (l1 l2 : list loc) (ptr : DataPtr) : Prop := {
  lk_touched : touched (entries st) (entries st') x (last_or None l1) ptr (hd_or l2 None) ptr;
  lk_entry : ∃ e e', entries st !! x = Some e ∧ entries st' !! x = Some e' ∧
    m_list e' = m_list e ∧ m_data e' = m_data e ∧
    m_p (m_prevPtr e') = last_or None l1 ∧ m_p (m_nextPtr e') = hd_or l2 None;
  lk_others : ∀ s, s ≠ self → lists st' !! s = lists st !! s;
  lk_obj : ∃ lo lo', lists st !! self = Some lo ∧ lists st' !! self = Some lo' ∧
    m_p (m_headPtr lo') = hd_or (l1 ++ x :: l2) None ∧
    m_p (m_tailPtr lo') = last_or None (l1 ++ x :: l2) ∧
    m_count lo' = add64 (m_count lo) 1
}.

(** [st'] is [st] with [x] unlinked from between [l1] and [l2]. *)
Record unlinked (st st' : store) (self x : loc) (l1 l2 : list loc) : Prop := {
  ul_entry : ∃ e, entries st !! x = Some e ∧ entries st' !! x = Some e ∧
    touched (entries st) (entries st') x
      (last_or None l1) (m_nextPtr e) (hd_or l2 None) (m_prevPtr e);
  ul_others : ∀ s, s ≠ self → lists st' !! s = lists st !! s;
  ul_obj : ∃ lo lo', lists st !! self = Some lo ∧ lists st' !! self = Some lo' ∧
    m_p (m_headPtr lo') = hd_or (l1 ++ l2) None ∧
    m_p (m_tailPtr lo') = last_or None (l1 ++ l2) ∧
    m_count lo' = sub64 (m_count lo) 1
}.

Lemma wf_entry_owner st A skip self l x :
  wf_skip skip st A → A !! self = Some l → x ∈ l →
  ∃ e, entries st !! x = Some e ∧ m_list e = Some self.
Proof. intros Hwf HA Hx. eapply chain_elem; [apply (wl_chain _ _ _ _ (Hwf _ _ HA))|done]. Qed.

Lemma touched_owner E E' x oN qN oP qP a e' :
  touched E E' x oN qN oP qP → a ≠ x → E' !! a = Some e' →
  ∃ e, E !! a = Some e ∧ m_list e = m_list e' ∧ m_data e = m_data e'.
Proof.
  intros Ht Ha He'. rewrite Ht in He' by done.
  apply fmap_Some in He' as (e & He & ->). exists e.
  by rewrite touch_list, touch_data.
Qed.

(** Lists other than the one operated on are not disturbed. *)
Lemma wf_other skip skip' st st' A self l x oN qN oP qP s ls :
  wf_skip skip st A → A !! self = Some l →
  touched (entries st) (entries st') x oN qN oP qP →
  (∀ a, oN = Some a → a ∈ l) → (∀ a, oP = Some a → a ∈ l) →
  (∀ s, s ≠ self → lists st' !! s = lists st !! s) →
  (∃ e e', entries st !! x = Some e ∧ entries st' !! x = Some e' ∧ m_list e' = m_list e
     ∧ m_list e = Some self) →
  (∀ a, Some a = skip → a = x) →
  s ≠ self → A !! s = Some ls → wf_list skip' st' s ls.
Proof.
  intros Hwf HA Ht HN HP Hother (ex & ex' & Hex & Hex' & Hll & Hls) Hsk Hs HAs.
  destruct (Hwf _ _ HAs) as [Hobj Hch Hnd Hown].
  assert (Hdis : ∀ a, a ∈ ls → a ∉ l ∧ a ≠ x).
  { intros a Ha. destruct (wf_entry_owner _ _ _ _ _ _ Hwf HAs Ha) as (e & He & Hle).
    split; [intros Hal|intros ->; congruence].
    destruct (wf_entry_owner _ _ _ _ _ _ Hwf HA Hal) as (e2 & He2 & Hle2). congruence. }
  split; [by rewrite Hother| |done|].
  - eapply chain_frame; [|exact Hch]. intros a Ha. destruct (Hdis a Ha) as [H1 H2].
    eapply touched_other; [done|done| |]; intros Heq; apply H1; [by apply HN|by apply HP].
  - intros a e He Hle _. destruct (decide (a = x)) as [->|Hax]; [congruence|].
    destruct (touched_owner _ _ _ _ _ _ _ _ _ Ht Hax He) as (e0 & He0 & Hl0 & _).
    apply (Hown a e0); [done|congruence|]. intros Heq. apply Hax. by apply Hsk.
Qed.

Lemma wrap64_succ n : wrap64 (N.of_nat (S n)) = add64 (wrap64 (N.of_nat n)) 1.
Proof.
  unfold add64, wrap64. rewrite Nat2N.inj_succ, <- N.add_1_r.
  by rewrite N.Div0.add_mod_idemp_l.
Qed.

Lemma wrap64_pred n : sub64 (wrap64 (N.of_nat (S n))) 1 = wrap64 (N.of_nat n).
Proof.
  unfold sub64, wrap64. rewrite N.Div0.add_mod_idemp_l.
  replace (N.of_nat (S n) + (size_mod - 1))%N with (N.of_nat n + 1 * size_mod)%N
    by (unfold size_mod; lia).
  by rewrite N.Div0.mod_add.
Qed.

Lemma linked_same_data st st' self x l1 l2 ptr :
  linked st st' self x l1 l2 ptr → same_data st st'.
Proof.
  intros [Ht (e & e' & He & He' & _ & Hd & _) _ _] a.
  destruct (decide (a = x)) as [->|Ha].
  - rewrite He, He'. simpl. by rewrite Hd.
  - rewrite Ht by done. destruct (entries st !! a); simpl; [|done]. by rewrite touch_data.
Qed.

Lemma unlinked_same_data st st' self x l1 l2 :
  unlinked st st' self x l1 l2 → same_data st st'.
Proof.
  intros [(e & He & He' & Ht) _ _] a.
  destruct (decide (a = x)) as [->|Ha]; [by rewrite He, He'|].
  rewrite Ht by done. destruct (entries st !! a); simpl; [|done]. by rewrite touch_data.
Qed.

Lemma NoDup_insert (l1 l2 : list loc) x :
  NoDup (l1 ++ l2) → x ∉ l1 ++ l2 → NoDup (l1 ++ x :: l2).
Proof.
  intros Hnd Hx. rewrite <- Permutation_middle. by apply NoDup_cons.
Qed.

Lemma ends_in (l1 l2 : list loc) :
  (∀ a, last_or None l1 = Some a → a ∈ l1 ++ l2) ∧
  (∀ a, hd_or l2 None = Some a → a ∈ l1 ++ l2).
Proof.
  split; intros a Ha; apply elem_of_app; [left; by apply last_or_elem|right; by apply hd_or_elem].
Qed.

Lemma ends_apart (l1 l2 : list loc) :
  NoDup (l1 ++ l2) →
  (∀ a, a ∈ l1 → hd_or l2 None ≠ Some a) ∧ (∀ a, a ∈ l2 → last_or None l1 ≠ Some a).
Proof.
  intros (_ & Hdis & _)%NoDup_app. split; intros a Ha Heq.
  - apply hd_or_elem in Heq. by apply (Hdis a).
  - apply last_or_elem in Heq. by apply (Hdis a).
Qed.

Lemma link_wf st st' A self x l1 l2 ptr :
  pending st A self x → A !! self = Some (l1 ++ l2) → m_p ptr = Some x →
  linked st st' self x l1 l2 ptr → wf st' (<[self := l1 ++ x :: l2]> A).
Proof.
  intros [Hwf (ex & Hex & Hlx) Hfresh] HA Hptr
    [Ht (e & e' & He & He' & Hll & Hdd & Hpp & Hnn) Hoth (lo & lo' & Hlo & Hlo' & Hh & Htl & Hcnt)].
  specialize (Hfresh _ HA). destruct (Hwf _ _ HA) as [Hobj Hch Hnd Hown].
  destruct (ends_in l1 l2) as [HinN HinP]. destruct (ends_apart _ _ Hnd) as [HapP HapN].
  apply chain_app in Hch as [Hc1 Hc2]. pose proof Hnd as (Hnd1 & _ & Hnd2)%NoDup_app.
  assert (Hx1 : x ∉ l1 ∧ x ∉ l2) by set_solver. destruct Hx1 as [Hx1 Hx2].
  assert (e = ex) as -> by congruence.
  intros s ls Hs. destruct (decide (s = self)) as [->|Hne].
  - rewrite lookup_insert_eq in Hs. injection Hs as <-. split.
    + destruct Hobj as (lo0 & Hlo0 & _ & _ & Hc0). exists lo'.
      assert (lo0 = lo) as -> by congruence.
      split_and!; [done|done|done|]. rewrite Hcnt, Hc0.
      rewrite !length_app. simpl. rewrite Nat.add_succ_r. by rewrite wrap64_succ.
    + rewrite chain_app. simpl. rewrite <- Hptr at 1. split; [|split].
      * by eapply chain_touch_l.
      * exists e'. rewrite He', Hll. done.
      * rewrite <- Hptr. by eapply chain_touch_r.
    + by apply NoDup_insert.
    + intros a ea Ha Hla _. destruct (decide (a = x)) as [->|Hax]; [set_solver|].
      destruct (touched_owner _ _ _ _ _ _ _ _ _ Ht Hax Ha) as (e0 & He0 & Hl0 & _).
      enough (a ∈ l1 ++ l2) by set_solver.
      apply (Hown a e0); congruence.
  - rewrite lookup_insert_ne in Hs by done.
    eapply (wf_other (Some x) None st st' A self (l1 ++ l2) x); eauto 10. congruence.
Qed.

Lemma unlink_pending st st' A self x l1 l2 :
  wf st A → A !! self = Some (l1 ++ x :: l2) → unlinked st st' self x l1 l2 →
  pending st' (<[self := l1 ++ l2]> A) self x.
Proof.
  intros Hwf HA [(e & He & He' & Ht) Hoth (lo & lo' & Hlo & Hlo' & Hh & Htl & Hcnt)].
  destruct (Hwf _ _ HA) as [Hobj Hch Hnd Hown].
  pose proof Hnd as Hnd'. rewrite <- Permutation_middle in Hnd'.
  apply NoDup_cons in Hnd' as [Hx Hnd'].
  destruct (ends_in l1 l2) as [HinN HinP]. destruct (ends_apart _ _ Hnd') as [HapP HapN].
  apply chain_app in Hch as [Hc1 Hc2]. simpl in Hc1, Hc2.
  destruct Hc2 as [(ex & Hex & Hlx & Hpx & Hnx) Hc2].
  assert (ex = e) as -> by congruence.
  pose proof Hnd' as (Hnd1 & _ & Hnd2)%NoDup_app.
  assert (Hx1 : x ∉ l1 ∧ x ∉ l2) by set_solver. destruct Hx1 as [Hx1 Hx2].
  split.
  - intros s ls Hs. destruct (decide (s = self)) as [->|Hne].
    + rewrite lookup_insert_eq in Hs. injection Hs as <-. split.
      * destruct Hobj as (lo0 & Hlo0 & _ & _ & Hc0). exists lo'.
        assert (lo0 = lo) as -> by congruence.
        split_and!; [done|done|done|]. rewrite Hcnt, Hc0.
        rewrite !length_app. simpl. rewrite Nat.add_succ_r. by rewrite wrap64_pred.
      * rewrite chain_app. rewrite <- Hpx, <- Hnx. split.
        -- by eapply chain_touch_l.
        -- by eapply chain_touch_r.
      * done.
      * intros a ea Ha Hla Hax. assert (Hax' : a ≠ x) by congruence.
        destruct (touched_owner _ _ _ _ _ _ _ _ _ Ht Hax' Ha) as (e0 & He0 & Hl0 & _).
        assert (a ∈ l1 ++ x :: l2) by (apply (Hown a e0); congruence). set_solver.
    + rewrite lookup_insert_ne in Hs by done.
      eapply (wf_other None (Some x) st st' A self (l1 ++ x :: l2) x); eauto 10; try done.
      * intros a Ha. apply HinN in Ha. set_solver.
      * intros a Ha. apply HinP in Ha. set_solver.
  - eauto.
  - intros l. rewrite lookup_insert_eq. intros [= <-]. done.
Qed.

(** *** The [Impl] operations link and unlink *)

Lemma wr_ok st a f e :
  entries st !! a = Some e → wr st (Some a) f = Some (mkStore (alter f a (entries st)) (lists st)).
Proof. intros He. unfold wr. simpl. by rewrite He. Qed.

Lemma wrl_ok st a f l :
  lists st !! a = Some l → wrl st a f = Some (mkStore (entries st) (alter f a (lists st))).
Proof. intros He. unfold wrl. by rewrite He. Qed.

(** Executes the next field assignment, whose target is known to exist. *)
Local Ltac lookup_known :=
  simpl; repeat first [ rewrite lookup_alter_eq | rewrite lookup_alter_ne by congruence ];
  simplify_option_eq; eauto.
Local Ltac exec1 :=
  first
    [ erewrite wr_ok by lookup_known
    | erewrite wrl_ok by lookup_known ]; simpl.
Local Ltac exec := repeat exec1.

(** Pointwise effect of a sequence of field assignments. *)
Local Ltac solve_touched :=
  let y := fresh "y" in intros y ?; simpl; rewrite ?lookup_alter; unfold touch;
  repeat case_decide; simplify_eq; try done;
  match goal with |- context [?E !! y] => destruct (E !! y); simpl; try done end.

(** An entry or list after the assignments, and its fields. *)
Local Ltac solve_cell He :=
  do 2 eexists; split; [exact He|];
  simpl; rewrite ?lookup_alter_eq, ?lookup_alter_ne by congruence;
  rewrite ?lookup_alter_eq, ?lookup_alter_ne by congruence;
  rewrite ?He; simpl; split_and!; [reflexivity|simpl; congruence..].
Local Ltac solve_linked He Hlo :=
  eexists; split; [reflexivity|]; split;
  [ solve_touched | solve_cell He
  | intros; simpl; by rewrite !lookup_alter_ne by congruence
  | solve_cell Hlo ].

Lemma insertHeadImpl_linked st A self x ls ptr :
  pending st A self x → A !! self = Some ls → m_p ptr = Some x →
  ∃ st', insertHeadImpl st self ptr = Some st' ∧ linked st st' self x [] ls ptr.
Proof.
  intros [Hwf (e & He & Hle) Hx] HA Hptr. specialize (Hx _ HA).
  destruct (Hwf _ _ HA) as [(lo & Hlo & Hh & Ht & _) Hch _ _].
  unfold insertHeadImpl, rdl. rewrite Hptr. exec1. rewrite Hlo. simpl. exec1. rewrite Hh.
  destruct ls as [|h ls]; simpl in *.
  - exec. solve_linked He Hlo.
  - destruct Hch as [(eh & Heh & Hlh & Hph & Hnh) Hch]. assert (h ≠ x) by set_solver.
    exec. solve_linked He Hlo.
Qed.

Lemma insertTailImpl_linked st A self x ls ptr :
  pending st A self x → A !! self = Some ls → m_p ptr = Some x →
  ∃ st', insertTailImpl st self ptr = Some st' ∧ linked st st' self x ls [] ptr.
Proof.
  intros [Hwf (e & He & Hle) Hx] HA Hptr. specialize (Hx _ HA).
  destruct (Hwf _ _ HA) as [(lo & Hlo & Hh & Ht & _) Hch _ _].
  unfold insertTailImpl, rdl. rewrite Hptr, Hlo. simpl. exec1. exec1. rewrite Ht.
  destruct ls as [|t ls _] using rev_ind.
  - simpl in *. exec. solve_linked He Hlo.
  - rewrite last_or_snoc in *. apply chain_app in Hch as [_ [(et & Het & _) _]].
    assert (t ≠ x) by set_solver.
    exec. eexists; split; [reflexivity|]. split.
    + rewrite last_or_snoc. solve_touched.
    + rewrite last_or_snoc. solve_cell He.
    + intros; simpl; by rewrite !lookup_alter_ne by congruence.
    + do 2 eexists. split; [exact Hlo|]. simpl. rewrite !lookup_alter_eq, Hlo. simpl.
      split_and!; [reflexivity| |by rewrite last_or_snoc|done].
      simpl. rewrite Hh, !hd_or_app. by destruct ls.
Qed.

Lemma insertBeforeImpl_linked st A self x l1 b l2 ptr beforePtr :
  pending st A self x → A !! self = Some (l1 ++ b :: l2) → m_p ptr = Some x →
  m_p beforePtr = Some b →
  ∃ st', insertBeforeImpl st self ptr beforePtr = Some st' ∧
         linked st st' self x l1 (b :: l2) ptr.
Proof.
  intros [Hwf (e & He & Hle) Hx] HA Hptr Hbptr. specialize (Hx _ HA).
  destruct (Hwf _ _ HA) as [(lo & Hlo & Hh & Ht & _) Hch Hnd _].
  apply chain_app in Hch as [Hch1 [(eb & Heb & Hlb & Hpb & Hnb) Hch2]].
  assert (b ≠ x) by set_solver.
  unfold insertBeforeImpl, rd. rewrite Hptr, Hbptr. simpl. rewrite Heb. simpl.
  exec1. exec1. exec1. rewrite Hpb.
  destruct l1 as [|p l1 _] using rev_ind.
  - simpl in *. exec. solve_linked He Hlo.
  - rewrite last_or_snoc in *. apply chain_app in Hch1 as [_ [(ep & Hep & _) _]].
    assert (p ≠ x) by set_solver.
    assert (p ≠ b).
    { intros ->. apply NoDup_app in Hnd as (_ & Hnd & _). apply (Hnd b); set_solver. }
    exec. eexists; split; [reflexivity|]. split.
    + rewrite last_or_snoc. solve_touched.
    + rewrite last_or_snoc. solve_cell He.
    + intros; simpl; by rewrite !lookup_alter_ne by congruence.
    + do 2 eexists. split; [exact Hlo|]. simpl. rewrite !lookup_alter_eq, Hlo. simpl.
      split_and!; [reflexivity| | |done]; simpl.
      * rewrite Hh, !hd_or_app. by destruct l1.
      * rewrite Ht, !last_or_app. done.
Qed.

Lemma insertAfterImpl_linked st A self x l1 a l2 ptr afterPtr :
  pending st A self x → A !! self = Some (l1 ++ a :: l2) → m_p ptr = Some x →
  m_p afterPtr = Some a →
  ∃ st', insertAfterImpl st self ptr afterPtr = Some st' ∧
         linked st st' self x (l1 ++ [a]) l2 ptr.
Proof.
  intros [Hwf (e & He & Hle) Hx] HA Hptr Haptr. specialize (Hx _ HA).
  destruct (Hwf _ _ HA) as [(lo & Hlo & Hh & Ht & _) Hch Hnd _].
  apply chain_app in Hch as [_ [(ea & Hea & Hla & Hpa & Hna) Hch2]].
  assert (a ≠ x) by set_solver.
  unfold insertAfterImpl, rd. rewrite Hptr, Haptr. simpl. rewrite Hea. simpl.
  exec1. rewrite lookup_alter_ne, Hea by done. simpl. exec1. exec1. rewrite Hna.
  destruct l2 as [|n l2]; simpl in *.
  - exec. eexists; split; [reflexivity|]. split.
    + rewrite last_or_snoc. solve_touched.
    + rewrite last_or_snoc. solve_cell He.
    + intros; simpl; by rewrite !lookup_alter_ne by congruence.
    + do 2 eexists. split; [exact Hlo|]. simpl. rewrite !lookup_alter_eq, Hlo. simpl.
      split_and!; [reflexivity| | |done]; simpl.
      * rewrite Hh, !hd_or_app. by destruct l1.
      * rewrite !last_or_app. done.
  - destruct Hch2 as [(en & Hen & _) _].
    assert (n ≠ x) by set_solver.
    assert (n ≠ a).
    { intros ->. apply NoDup_app in Hnd as (_ & _ & Hnd). apply NoDup_cons in Hnd. set_solver. }
    exec. eexists; split; [reflexivity|]. split.
    + rewrite last_or_snoc. solve_touched.
    + rewrite last_or_snoc. solve_cell He.
    + intros; simpl; by rewrite !lookup_alter_ne by congruence.
    + do 2 eexists. split; [exact Hlo|]. simpl. rewrite !lookup_alter_eq, Hlo. simpl.
      split_and!; [reflexivity| | |done]; simpl.
      * rewrite Hh, !hd_or_app. by destruct l1.
      * rewrite Ht, !last_or_app. done.
Qed.

Lemma removeImpl_unlinked st A self l1 x l2 :
  wf st A → A !! self = Some (l1 ++ x :: l2) →
  ∃ st', removeImpl st self (Some x) = Some st' ∧ unlinked st st' self x l1 l2.
Proof.
  intros Hwf HA.
  destruct (Hwf _ _ HA) as [(lo & Hlo & Hh & Ht & _) Hch Hnd _].
  pose proof Hnd as Hnd'. rewrite <- Permutation_middle in Hnd'.
  apply NoDup_cons in Hnd' as [Hx Hnd'].
  apply chain_app in Hch as [Hch1 [(e & He & Hle & Hpe & Hne) Hch2]].
  unfold removeImpl, rd. simpl. rewrite He. simpl. rewrite Hpe, Hne.
  destruct (ends_apart _ _ Hnd') as [HapP HapN].
  assert (Hp : ∀ p, last_or None l1 = Some p → p ≠ x ∧ hd_or l2 None ≠ Some p ∧
            ∃ ep, entries st !! p = Some ep).
  { intros p Hp%last_or_elem. split_and!; [set_solver|by apply HapP|].
    destruct (chain_elem _ _ _ _ _ _ Hch1 Hp) as (ep & ? & _). eauto. }
  assert (Hn : ∀ n, hd_or l2 None = Some n → n ≠ x ∧ ∃ en, entries st !! n = Some en).
  { intros n Hn%hd_or_elem. split; [set_solver|].
    destruct (chain_elem _ _ _ _ _ _ Hch2 Hn) as (en & ? & _). eauto. }
  assert (Hhd : l1 = [] ∨ hd_or (l1 ++ l2) None = hd_or (l1 ++ x :: l2) None)
    by (destruct l1; auto).
  assert (Htl : l2 = [] ∨ last_or None (l1 ++ l2) = last_or None (l1 ++ x :: l2))
    by (rewrite !last_or_app; destruct l2; auto).
  destruct (last_or None l1) as [p|] eqn:Hlast;
    destruct (hd_or l2 None) as [n|] eqn:Hhead;
    try (destruct (Hp _ eq_refl) as (Hpx & Hpn & ep & Hep));
    try (destruct (Hn _ eq_refl) as (Hnx & en & Hen));
    try (apply last_or_None in Hlast as ->); try (apply hd_or_None in Hhead as ->);
    exec; rewrite ?lookup_alter_ne, He by done; simpl; exec;
    (eexists; split; [reflexivity|]; split;
      [ exists e; rewrite ?Hlast, ?Hhead; split_and!;
        [done | simpl; rewrite ?lookup_alter_ne by done; done | solve_touched]
      | intros; simpl; by rewrite ?lookup_alter_ne by congruence
      | do 2 eexists; split; [exact Hlo|]; simpl; rewrite ?lookup_alter_eq, Hlo; simpl;
        split_and!; [reflexivity|simpl; rewrite ?app_nil_r in *; simpl in *..|done] ]);
    rewrite ?last_or_snoc, ?last_or_app in *; simpl in *; destruct_or?; subst; simpl in *;
    try congruence.
Qed.

(** *** New entries and the relabelling loop *)

Definition dataOf (st : store) (a : loc) : option V := m_data <$> entries st !! a.

Lemma wf_entry_dom st A skip self l x :
  wf_skip skip st A → A !! self = Some l → x ∈ l → x ∈ dom (entries st).
Proof.
  intros Hwf HA Hx. destruct (wf_entry_owner _ _ _ _ _ _ Hwf HA Hx) as (e & He & _).
  by apply elem_of_dom.
Qed.

Lemma newEntry_pending st A self d :
  wf st A →
  ∃ x ptr st', newEntry st self d = Some (ptr, st') ∧ m_p ptr = Some x ∧
    x ∉ dom (entries st) ∧ pending st' A self x ∧ lists st' = lists st ∧
    dataOf st' x = Some d ∧ (∀ a, a ≠ x → entries st' !! a = entries st !! a).
Proof.
  intros Hwf. unfold newEntry, allocateListEntry. simpl.
  set (x := fresh (dom (entries st))). assert (Hx : x ∉ dom (entries st)) by apply is_fresh.
  exists x. do 2 eexists.
  erewrite wr_ok by (simpl; apply lookup_insert_eq). simpl.
  erewrite wr_ok by (simpl; rewrite lookup_alter_eq, lookup_insert_eq; reflexivity). simpl.
  split; [reflexivity|]. simpl.
  assert (Hoth : ∀ a, a ≠ x → alter (with_data d) x (alter (with_list (Some self)) x
    (<[x:=mkListEntry g_nullDataPtr g_nullDataPtr None g_nullVariant]> (entries st))) !! a
    = entries st !! a).
  { intros a Ha. by rewrite !lookup_alter_ne, lookup_insert_ne by done. }
  split_and!; [done|done| |done| |done].
  - split.
    + intros s ls Hs. destruct (Hwf _ _ Hs) as [Hobj Hch Hnd Hown]. split; simpl; [done| |done|].
      * eapply chain_frame; [|exact Hch]. intros a Ha. apply Hoth. intros ->.
        apply Hx. by eapply wf_entry_dom.
      * intros a e. destruct (decide (a = x)) as [->|Hax]; [done|].
        rewrite Hoth by done. intros. by apply (Hown a e).
    + simpl. rewrite !lookup_alter_eq, lookup_insert_eq. simpl. eauto.
    + intros l Hl Hxl. apply Hx. by eapply wf_entry_dom.
  - unfold dataOf. simpl. by rewrite !lookup_alter_eq, lookup_insert_eq.
Qed.

Lemma relabel_ok fuel st self p l owner :
  chain (entries st) self p l None → NoDup l → length l < fuel →
  ∃ st', relabel fuel st (hd_or l None) owner = Some st' ∧ lists st' = lists st ∧
    ∀ a, entries st' !! a = (if decide (a ∈ l) then with_list owner else id) <$> entries st !! a.
Proof.
  revert fuel st p. induction l as [|x l IH]; intros [|fuel] st p Hch Hnd Hf;
    try (simpl in Hf; lia); cbn [relabel hd_or chain length] in *.
  - exists st. split_and!; [done|done|]. intros a.
    case_decide; [set_solver|]. by destruct (entries st !! a).
  - destruct Hch as [(e & He & Hle & Hpe & Hne) Hch].
    apply NoDup_cons in Hnd as [Hx Hnd].
    erewrite wr_ok by done. simpl. unfold rd. simpl. rewrite lookup_alter_eq, He. simpl.
    rewrite Hne.
    edestruct (IH fuel (mkStore (alter (with_list owner) x (entries st)) (lists st)) (Some x))
      as (st' & Hr & Hl & HE); [|done|lia|].
    { eapply chain_frame; [|exact Hch]. intros a Ha. simpl. apply lookup_alter_ne.
      intros ->. done. }
    exists st'. split_and!; [done|done|]. intros a. rewrite HE. simpl. rewrite lookup_alter.
    repeat case_decide; simplify_eq; try set_solver; by destruct (entries st !! _).
Qed.

(** A chain that runs into an entry whose [m_nextPtr] is itself is never left. *)
Lemma relabel_cycle fuel st self p l x owner e :
  chain (entries st) self p l (Some x) → NoDup (x :: l) →
  entries st !! x = Some e → m_p (m_nextPtr e) = Some x →
  relabel fuel st (hd_or l (Some x)) owner = None.
Proof.
  revert st p l e. induction fuel as [|fuel IH]; intros st p l e Hch Hnd Hx Hn; [done|].
  apply NoDup_cons in Hnd as [Hxl Hnd]. destruct l as [|y l]; simpl in *.
  - erewrite wr_ok by done. simpl. unfold rd. simpl. rewrite lookup_alter_eq, Hx. simpl.
    rewrite Hn. apply (IH _ None [] (with_list owner e)); simpl.
    + done.
    + by apply NoDup_singleton.
    + by rewrite lookup_alter_eq, Hx.
    + done.
  - destruct Hch as [(ey & Hy & Hly & Hpy & Hny) Hch].
    apply NoDup_cons in Hnd as [Hyl Hnd].
    erewrite wr_ok by done. simpl. unfold rd. simpl. rewrite lookup_alter_eq, Hy. simpl.
    rewrite Hny. apply (IH _ (Some y) l e); simpl.
    + eapply chain_frame; [|exact Hch]. intros a Ha. apply lookup_alter_ne. by intros ->.
    + apply NoDup_cons. split; [set_solver|done].
    + rewrite lookup_alter_ne by set_solver. done.
    + done.
Qed.

(** ** The abstract list machine *)

Inductive op :=
| InsertHead (self : loc) (d : V)
| InsertTail (self : loc) (d : V)
| InsertBefore (self : loc) (d : V) (before : DataPtr)
| InsertAfter (self : loc) (d : V) (after : DataPtr)
| MoveToHead (self : loc) (entry : DataPtr)
| MoveToTail (self : loc) (entry : DataPtr)
| MoveBefore (self : loc) (entry before : DataPtr)
| MoveAfter (self : loc) (entry after : DataPtr)
| Remove (self : loc) (entry : DataPtr)
| RemoveHead (self : loc)
| RemoveTail (self : loc)
| Clear (self : loc)
| TakeOver (self : loc) (src : option loc).

Inductive result := RPtr (q : DataPtr) | RData (d : V) | RUnit.

Definition run_op (fuel : nat) (st : store) (o : op) : option (result * store) :=
  match o with
  | InsertHead self d => '(q, st) ← insertHead st self d; Some (RPtr q, st)
  | InsertTail self d => '(q, st) ← insertTail st self d; Some (RPtr q, st)
  | InsertBefore self d b => '(q, st) ← insertBefore st self d b; Some (RPtr q, st)
  | InsertAfter self d a => '(q, st) ← insertAfter st self d a; Some (RPtr q, st)
  | MoveToHead self e => st ← moveToHead st self e; Some (RUnit, st)
  | MoveToTail self e => st ← moveToTail st self e; Some (RUnit, st)
  | MoveBefore self e b => st ← moveBefore st self e b; Some (RUnit, st)
  | MoveAfter self e a => st ← moveAfter st self e a; Some (RUnit, st)
  | Remove self e => '(d, st) ← remove st self e; Some (RData d, st)
  | RemoveHead self => '(d, st) ← removeHead st self; Some (RData d, st)
  | RemoveTail self => '(d, st) ← removeTail st self; Some (RData d, st)
  | Clear self => st ← clear fuel st self; Some (RUnit, st)
  | TakeOver self src => st ← takeOver fuel st self src; Some (RUnit, st)
  end.

(** Positions in a sequence, by the neighbour's address. *)
Fixpoint before_in (b x : loc) (l : list loc) : list loc :=
  match l with
  | [] => []
  | y :: l' => if decide (y = b) then x :: y :: l' else y :: before_in b x l'
  end.

Fixpoint after_in (a x : loc) (l : list loc) : list loc :=
  match l with
  | [] => []
  | y :: l' => if decide (y = a) then y :: x :: l' else y :: after_in a x l'
  end.

Definition placed_before (b : DataPtr) (x : loc) (l : list loc) : list loc :=
  match m_p b with Some b => before_in b x l | None => l ++ [x] end.
Definition placed_after (a : DataPtr) (x : loc) (l : list loc) : list loc :=
  match m_p a with Some a => after_in a x l | None => x :: l end.

Definition del (x : loc) (l : list loc) : list loc := filter (λ y, y ≠ x) l.

(** A move of the entry [e] of the sequence [l]; nothing for an entry that is
    not one of them. *)
Definition moved (e : DataPtr) (place : loc → list loc → list loc) (l : list loc) : list loc :=
  match m_p e with
  | Some x => if decide (x ∈ l) then place x (del x l) else l
  | None => l
  end.

Definition removed (o : option loc) (l : list loc) : list loc :=
  match o with Some x => del x l | None => l end.

(** What each operation does to the sequences; [x] is the entry an insertion
    allocated. *)
Definition spec_op (A : gmap loc (list loc)) (o : op) (x : loc) : gmap loc (list loc) :=
  match o with
  | InsertHead self _ => alter (λ l, x :: l) self A
  | InsertTail self _ => alter (λ l, l ++ [x]) self A
  | InsertBefore self _ b => alter (placed_before b x) self A
  | InsertAfter self _ a => alter (placed_after a x) self A
  | MoveToHead self e => alter (moved e (λ x l, x :: l)) self A
  | MoveToTail self e => alter (moved e (λ x l, l ++ [x])) self A
  | MoveBefore self e b => alter (moved e (placed_before b)) self A
  | MoveAfter self e a => alter (moved e (placed_after a)) self A
  | Remove self e => alter (removed (m_p e)) self A
  | RemoveHead self => alter (λ l, removed (hd_or l None) l) self A
  | RemoveTail self => alter (λ l, removed (last_or None l) l) self A
  | Clear self => <[self := []]> A
  | TakeOver self None => <[self := []]> A
  | TakeOver self (Some src) => <[src := []]> (<[self := A !!! src]> A)
  end.

Definition op_self (o : op) : loc :=
  match o with
  | InsertHead s _ | InsertTail s _ | InsertBefore s _ _ | InsertAfter s _ _
  | MoveToHead s _ | MoveToTail s _ | MoveBefore s _ _ | MoveAfter s _ _
  | Remove s _ | RemoveHead s | RemoveTail s | Clear s | TakeOver s _ => s
  end.

(** What the callers must respect: anchors belong to the list and differ from
    the entry being moved, entry pointers refer to entries, and [takeOver] is
    applied to an empty list and a different source. *)
Definition anchor_ok (l : list loc) (q : DataPtr) : Prop :=
  ∀ b, m_p q = Some b → b ∈ l.
Definition entry_ok (st : store) (q : DataPtr) : Prop :=
  ∀ x, m_p q = Some x → x ∈ dom (entries st).

Definition op_ok (st : store) (A : gmap loc (list loc)) (o : op) : Prop :=
  match o with
  | InsertBefore self _ q | InsertAfter self _ q => anchor_ok (A !!! self) q
  | MoveToHead _ e | MoveToTail _ e | Remove _ e => entry_ok st e
  | MoveBefore self e q | MoveAfter self e q =>
      entry_ok st e ∧ anchor_ok (A !!! self) q ∧ (m_p q = None ∨ m_p q ≠ m_p e)
  | TakeOver self (Some src) => self ≠ src ∧ A !! self = Some [] ∧ is_Some (A !! src)
  | _ => True
  end.

(** The entry an operation returns, when it allocated one. *)
Definition new_entry (r : result) : loc :=
  match r with RPtr q => default 0%N (m_p q) | _ => 0%N end.

Definition removed_data (st : store) (A : gmap loc (list loc)) (self : loc) (o : option loc) : V :=
  match o with
  | Some x => if decide (x ∈ A !!! self) then default g_nullVariant (dataOf st x)
              else g_nullVariant
  | None => g_nullVariant
  end.

(** The result of an operation and what it does to the data of the entries. *)
Definition result_ok (st st' : store) (A : gmap loc (list loc)) (o : op) (r : result) : Prop :=
  match o with
  | InsertHead _ d | InsertTail _ d | InsertBefore _ d _ | InsertAfter _ d _ =>
      ∃ q x, r = RPtr q ∧ m_p q = Some x ∧ x ∉ dom (entries st) ∧ dataOf st' x = Some d ∧
        ∀ a, a ≠ x → dataOf st' a = dataOf st a
  | Remove self e => r = RData (removed_data st A self (m_p e)) ∧ same_data st st'
  | RemoveHead self => r = RData (removed_data st A self (hd_or (A !!! self) None)) ∧ same_data st st'
  | RemoveTail self => r = RData (removed_data st A self (last_or None (A !!! self))) ∧ same_data st st'
  | _ => r = RUnit ∧ same_data st st'
  end.

(** *** Positions *)

Lemma before_in_split b x l1 l2 :
  b ∉ l1 → before_in b x (l1 ++ b :: l2) = l1 ++ x :: b :: l2.
Proof.
  induction l1 as [|y l1 IH]; intros Hb; simpl; [by rewrite decide_True|].
  rewrite decide_False, IH by set_solver. done.
Qed.

Lemma after_in_split a x l1 l2 :
  a ∉ l1 → after_in a x (l1 ++ a :: l2) = l1 ++ a :: x :: l2.
Proof.
  induction l1 as [|y l1 IH]; intros Hb; simpl; [by rewrite decide_True|].
  rewrite decide_False, IH by set_solver. done.
Qed.

Lemma del_notin x l : x ∉ l → del x l = l.
Proof.
  induction l as [|y l IH]; intros Hx; [done|]. unfold del. rewrite filter_cons_True by set_solver.
  f_equal. apply IH. set_solver.
Qed.

Lemma del_split x l1 l2 : x ∉ l1 → x ∉ l2 → del x (l1 ++ x :: l2) = l1 ++ l2.
Proof.
  intros H1 H2. unfold del. rewrite filter_app, filter_cons_False by (intros H; by apply H).
  f_equal; by apply del_notin.
Qed.

Lemma alter_Some {B} (f : B → B) (k : loc) (m : gmap loc B) v :
  m !! k = Some v → alter f k m = <[k := f v]> m.
Proof.
  intros Hk. apply map_eq. intros j. destruct (decide (k = j)) as [<-|Hne].
  - by rewrite lookup_alter_eq, Hk, lookup_insert_eq.
  - by rewrite lookup_alter_ne, lookup_insert_ne.
Qed.

Lemma elem_split (x : loc) l : x ∈ l → NoDup l →
  ∃ l1 l2, l = l1 ++ x :: l2 ∧ x ∉ l1 ∧ x ∉ l2.
Proof.
  intros Hx Hnd. apply list_elem_of_split in Hx as (l1 & l2 & ->).
  apply NoDup_app in Hnd as (_ & Hd & Hnd). apply NoDup_cons in Hnd as [Hx2 _].
  exists l1, l2. split_and!; [done| |done]. intros Hx1. apply (Hd x Hx1). set_solver.
Qed.

(** *** Generic insertion and move *)

(** [impl] links a pending entry where [place] says, for lists satisfying [P]. *)
Definition impl_places (self : loc) (impl : store → DataPtr → option store)
    (place : loc → list loc → list loc) (P : list loc → Prop) : Prop :=
  ∀ st A x ptr l, pending st A self x → A !! self = Some l → m_p ptr = Some x → P l →
    ∃ st' l1 l2, impl st ptr = Some st' ∧ linked st st' self x l1 l2 ptr ∧
      l = l1 ++ l2 ∧ place x l = l1 ++ x :: l2.

Lemma places_head self :
  impl_places self (λ st q, insertHeadImpl st self q) (λ x l, x :: l) (λ _, True).
Proof.
  intros st A x ptr l Hp HA Hq _.
  destruct (insertHeadImpl_linked _ _ _ _ _ _ Hp HA Hq) as (st' & ? & ?).
  exists st', [], l. done.
Qed.

Lemma places_tail self :
  impl_places self (λ st q, insertTailImpl st self q) (λ x l, l ++ [x]) (λ _, True).
Proof.
  intros st A x ptr l Hp HA Hq _.
  destruct (insertTailImpl_linked _ _ _ _ _ _ Hp HA Hq) as (st' & ? & ?).
  exists st', l, []. by rewrite app_nil_r.
Qed.

Lemma places_before self b :
  impl_places self (λ st q, insertBeforeImpl st self q b) (placed_before b)
    (λ l, anchor_ok l b).
Proof.
  intros st A x ptr l Hp HA Hq Hb. unfold placed_before, anchor_ok in *.
  destruct (m_p b) as [b'|] eqn:Hbp.
  - specialize (Hb _ eq_refl).
    destruct (elem_split _ _ Hb (wl_nodup _ _ _ _ (pd_wf _ _ _ _ Hp _ _ HA)))
      as (l1 & l2 & -> & H1 & H2).
    destruct (insertBeforeImpl_linked _ _ _ _ _ _ _ _ _ Hp HA Hq Hbp) as (st' & ? & ?).
    exists st', l1, (b' :: l2). by rewrite before_in_split.
  - unfold insertBeforeImpl. rewrite Hbp. by eapply places_tail.
Qed.

Lemma places_after self a :
  impl_places self (λ st q, insertAfterImpl st self q a) (placed_after a)
    (λ l, anchor_ok l a).
Proof.
  intros st A x ptr l Hp HA Hq Hb. unfold placed_after, anchor_ok in *.
  destruct (m_p a) as [a'|] eqn:Hap.
  - specialize (Hb _ eq_refl).
    destruct (elem_split _ _ Hb (wl_nodup _ _ _ _ (pd_wf _ _ _ _ Hp _ _ HA)))
      as (l1 & l2 & -> & H1 & H2).
    destruct (insertAfterImpl_linked _ _ _ _ _ _ _ _ _ Hp HA Hq Hap) as (st' & ? & ?).
    exists st', (l1 ++ [a']), l2. by rewrite after_in_split, <- !app_assoc.
  - unfold insertAfterImpl. rewrite Hap. by eapply places_head.
Qed.

Lemma insert_generic self impl place P st A d l :
  impl_places self impl place P → wf st A → A !! self = Some l → P l →
  ∃ q x st', ('(q, st) ← newEntry st self d; st ← impl st q; Some (q, st)) = Some (q, st') ∧
    m_p q = Some x ∧ wf st' (alter (place x) self A) ∧
    x ∉ dom (entries st) ∧ dataOf st' x = Some d ∧ ∀ a, a ≠ x → dataOf st' a = dataOf st a.
Proof.
  intros Himpl Hwf HA HP.
  destruct (newEntry_pending _ _ self d Hwf) as (x & q & st1 & -> & Hq & Hx & Hp & _ & Hd & Ho).
  destruct (Himpl _ _ _ _ _ Hp HA Hq HP) as (st' & l1 & l2 & Hi & Hl & -> & Hpl).
  exists q, x, st'. simpl. rewrite Hi. simpl.
  rewrite (alter_Some _ _ _ _ HA), Hpl.
  pose proof (linked_same_data _ _ _ _ _ _ _ Hl) as Hsd.
  split_and!; [done|done|by eapply link_wf|done|by rewrite <- Hd; apply Hsd|].
  intros a Ha. unfold dataOf. rewrite Hsd. by rewrite Ho.
Qed.

Lemma foreignEntry_ok st A self e l :
  wf st A → A !! self = Some l → entry_ok st e →
  foreignEntry st self e =
    Some (match m_p e with Some x => bool_decide (x ∉ l) | None => true end).
Proof.
  intros Hwf HA He. unfold foreignEntry, rd, entry_ok in *.
  destruct (m_p e) as [x|]; [|done]. specialize (He _ eq_refl).
  apply elem_of_dom in He as [ex Hex]. simpl. rewrite Hex. simpl. f_equal.
  apply bool_decide_ext. split; intros Hn Hc; apply Hn.
  - destruct (wf_entry_owner _ _ _ _ _ _ Hwf HA Hc) as (e2 & ? & ?). congruence.
  - apply (wl_owned _ _ _ _ (Hwf _ _ HA) x ex); done.
Qed.

Lemma same_data_trans st1 st2 st3 : same_data st1 st2 → same_data st2 st3 → same_data st1 st3.
Proof. intros H1 H2 a. by rewrite H2, H1. Qed.

Lemma move_generic self impl place P st A e l :
  impl_places self impl place P → wf st A → A !! self = Some l → entry_ok st e →
  (∀ x, m_p e = Some x → x ∈ l → P (del x l)) →
  ∃ st', (skip ← foreignEntry st self e;
          if skip : bool then Some st else st ← removeImpl st self (m_p e); impl st e) = Some st' ∧
    wf st' (alter (moved e place) self A) ∧ same_data st st'.
Proof.
  intros Himpl Hwf HA He HP. rewrite (foreignEntry_ok _ _ _ _ _ Hwf HA He). simpl.
  rewrite (alter_Some _ _ _ _ HA). unfold moved.
  destruct (m_p e) as [x|] eqn:Hx.
  - case_bool_decide as Hin.
    + exists st. rewrite decide_False, insert_id by done. done.
    + rewrite decide_True by done.
      destruct (elem_split _ _ Hin (wl_nodup _ _ _ _ (Hwf _ _ HA))) as (l1 & l2 & -> & H1 & H2).
      destruct (removeImpl_unlinked _ _ _ _ _ _ Hwf HA) as (st1 & -> & Hu). simpl.
      pose proof (unlink_pending _ _ _ _ _ _ _ Hwf HA Hu) as Hp.
      specialize (HP _ eq_refl Hin). rewrite del_split in * by done.
      destruct (Himpl _ _ _ _ (l1 ++ l2) Hp (lookup_insert_eq _ _ _) Hx HP)
        as (st' & l1' & l2' & Hi & Hl & Hsp & Hpl).
      exists st'. rewrite Hi, Hpl. split_and!; [done| |].
      * rewrite <- (insert_insert_eq A self (l1' ++ x :: l2') (l1 ++ l2)).
        eapply link_wf; eauto. by rewrite lookup_insert_eq, Hsp.
      * eapply same_data_trans; [by eapply unlinked_same_data|by eapply linked_same_data].
  - exists st. rewrite insert_id by done. done.
Qed.

(** *** Removal, clearing and taking over *)

(** A pending entry is out of every list, whatever its owner claims. *)
Lemma pending_out st A self x s ls :
  pending st A self x → A !! s = Some ls → x ∉ ls.
Proof.
  intros [Hwf (e & He & Hle) Hf] Hs Hx. destruct (decide (s = self)) as [->|Hne].
  - by apply (Hf _ Hs).
  - destruct (wf_entry_owner _ _ _ _ _ _ Hwf Hs Hx) as (e' & ? & ?). congruence.
Qed.

(** Disowning a pending entry leaves a well-formed store. *)
Lemma pending_release st st' A self x :
  pending st A self x → lists st' = lists st →
  (∀ a, a ≠ x → entries st' !! a = entries st !! a) →
  (∀ e, entries st' !! x = Some e → m_list e = None) → wf st' A.
Proof.
  intros Hp Hl Ho Hx s ls Hs. pose proof (pending_out _ _ _ _ _ _ Hp Hs) as Hout.
  destruct (pd_wf _ _ _ _ Hp _ _ Hs) as [Hobj Hch Hnd Hown]. split; [by rewrite Hl| |done|].
  - eapply chain_frame; [|exact Hch]. intros a Ha. apply Ho. by intros ->.
  - intros a e He Hle _. destruct (decide (a = x)) as [->|Hax].
    + by rewrite (Hx _ He) in Hle.
    + rewrite Ho in He by done. apply (Hown a e He Hle). congruence.
Qed.

Lemma remove_ok st A self e l :
  wf st A → A !! self = Some l → entry_ok st e →
  ∃ st', remove st self e = Some (removed_data st A self (m_p e), st') ∧
    wf st' (alter (removed (m_p e)) self A) ∧ same_data st st'.
Proof.
  intros Hwf HA He. unfold remove. rewrite (foreignEntry_ok _ _ _ _ _ Hwf HA He). simpl.
  rewrite (alter_Some _ _ _ _ HA). unfold removed, removed_data.
  rewrite (lookup_total_correct _ _ _ HA).
  destruct (m_p e) as [x|] eqn:Hx; [|exists st; by rewrite insert_id].
  case_bool_decide as Hin.
  { exists st. by rewrite decide_False, del_notin, insert_id by done. }
  rewrite decide_True by done.
  destruct (elem_split _ _ Hin (wl_nodup _ _ _ _ (Hwf _ _ HA))) as (l1 & l2 & -> & H1 & H2).
  destruct (removeImpl_unlinked _ _ _ _ _ _ Hwf HA) as (st1 & -> & Hu). simpl.
  pose proof (unlink_pending _ _ _ _ _ _ _ Hwf HA Hu) as Hp.
  rewrite del_split by done.
  destruct (pd_entry _ _ _ _ Hp) as (ex & Hex & _).
  pose proof (unlinked_same_data _ _ _ _ _ _ Hu) as Hsd.
  exec. unfold rd. simpl. rewrite !lookup_alter_eq, Hex. simpl.
  eexists. split; [|split].
  - do 2 f_equal. specialize (Hsd x). unfold dataOf. rewrite <- Hsd, Hex. done.
  - eapply pending_release; [done|done| |]; simpl.
    + intros a Ha. by rewrite !lookup_alter_ne.
    + intros e'. rewrite !lookup_alter_eq, Hex. by intros [= <-].
  - eapply same_data_trans; [done|]. intros a. simpl. rewrite !lookup_alter.
    repeat case_decide; simplify_eq; destruct (entries st1 !! _); done.
Qed.

(** The store after relabelling [l] with [owner], whatever happens to the
    objects of [self] and its source. *)
Lemma wf_relabelled st st' A self (l : list loc) owner s ls :
  wf st A → A !! self = Some l → A !! s = Some ls → s ≠ self → owner ≠ Some s →
  (∀ a, entries st' !! a = (if decide (a ∈ l) then with_list owner else id) <$> entries st !! a) →
  lists st' !! s = lists st !! s → wf_list None st' s ls.
Proof.
  intros Hwf HA Hs Hne Hown' HE Hl. destruct (Hwf _ _ Hs) as [Hobj Hch Hnd Hown].
  split; [by rewrite Hl| |done|].
  - eapply chain_frame; [|exact Hch]. intros a Ha. rewrite HE.
    rewrite decide_False; [by destruct (entries st !! a)|].
    intros Hal. destruct (wf_entry_owner _ _ _ _ _ _ Hwf HA Hal) as (e1 & ? & ?).
    destruct (wf_entry_owner _ _ _ _ _ _ Hwf Hs Ha) as (e2 & ? & ?). congruence.
  - intros a e He Hle _. rewrite HE in He. apply fmap_Some in He as (e0 & He0 & ->).
    case_decide; simpl in Hle; [congruence|]. by apply (Hown a e0).
Qed.

Lemma relabelled_same_data st st' (l : list loc) owner :
  (∀ a, entries st' !! a = (if decide (a ∈ l) then with_list owner else id) <$> entries st !! a) →
  same_data st st'.
Proof. intros HE a. rewrite HE. case_decide; by destruct (entries st !! a). Qed.

Lemma clear_ok fuel st A self l :
  wf st A → A !! self = Some l → length l < fuel →
  ∃ st', clear fuel st self = Some st' ∧ wf st' (<[self := []]> A) ∧ same_data st st'.
Proof.
  intros Hwf HA Hf. destruct (Hwf _ _ HA) as [(lo & Hlo & Hh & _ & _) Hch Hnd Hown].
  destruct (relabel_ok fuel st self None l None Hch Hnd Hf) as (st1 & Hr & Hl & HE).
  unfold clear, rdl. rewrite Hlo. simpl. rewrite Hh, Hr. simpl.
  assert (Hlo1 : lists st1 !! self = Some lo) by (by rewrite Hl). exec.
  eexists. split; [done|split].
  - intros s ls Hs. destruct (decide (s = self)) as [->|Hne].
    + rewrite lookup_insert_eq in Hs. injection Hs as <-. split; simpl; [|done|constructor|].
      * rewrite !lookup_alter_eq, Hlo1. simpl. eexists. split; [done|]. done.
      * intros a e He Hle _. rewrite HE in He. apply fmap_Some in He as (e0 & He0 & ->).
        case_decide as Ha; [done|]. exfalso. apply Ha. by apply (Hown a e0).
    + rewrite lookup_insert_ne in Hs by done.
      eapply (wf_relabelled st _ A self l None); eauto. simpl.
      by rewrite !lookup_alter_ne, Hl by done.
  - by apply (relabelled_same_data _ _ l None).
Qed.

Lemma chain_owner E E' self self' p l n :
  (∀ a, a ∈ l → E' !! a = with_list (Some self') <$> E !! a) →
  chain E self p l n → chain E' self' p l n.
Proof.
  revert p. induction l as [|x l IH]; intros p Hf; simpl; [done|].
  intros [(e & He & Hr) Hc]. split.
  - exists (with_list (Some self') e). rewrite Hf, He by set_solver. tauto.
  - apply IH; [|done]. intros a Ha. apply Hf. set_solver.
Qed.

Lemma takeOver_ok fuel st A self src l :
  wf st A → A !! self = Some [] → A !! src = Some l → self ≠ src → length l < fuel →
  ∃ st', takeOver fuel st self (Some src) = Some st' ∧
    wf st' (<[src := []]> (<[self := l]> A)) ∧ same_data st st'.
Proof.
  intros Hwf HA HAs Hne Hf. destruct (Hwf _ _ HAs) as [(lo & Hlo & Hh & Ht & Hc) Hch Hnd Hown].
  destruct (Hwf _ _ HA) as [(lo' & Hlo' & _) _ _ Hown'].
  destruct (relabel_ok fuel st src None l (Some self) Hch Hnd Hf) as (st1 & Hr & Hl & HE).
  assert (Hlo1 : lists st1 !! src = Some lo) by (by rewrite Hl).
  assert (Hlo1' : lists st1 !! self = Some lo') by (by rewrite Hl).
  unfold takeOver, rdl. rewrite Hlo. simpl. rewrite Hh, Hr. simpl. rewrite Hlo1. simpl.
  exec1. rewrite lookup_alter_ne, Hlo1 by done. simpl.
  exec1. rewrite !lookup_alter_ne, Hlo1 by done. simpl. exec.
  eexists. split; [done|split].
  - intros s ls Hs. destruct (decide (s = src)) as [->|Hns]; [|destruct (decide (s = self)) as [->|Hns']].
    + rewrite lookup_insert_eq in Hs. injection Hs as <-. split; simpl; [|done|constructor|].
      * rewrite !lookup_alter. repeat case_decide; simplify_eq. rewrite Hlo1. simpl. eauto.
      * intros a e He Hle _. rewrite HE in He. apply fmap_Some in He as (e0 & He0 & ->).
        case_decide as Ha; [simpl in Hle; congruence|]. exfalso. apply Ha. by apply (Hown a e0).
    + rewrite lookup_insert_ne, lookup_insert_eq in Hs by done. injection Hs as <-.
      split; simpl; [| |done|].
      * rewrite !lookup_alter. repeat case_decide; simplify_eq. rewrite Hlo1'. simpl. eauto 10.
      * eapply chain_owner; [|exact Hch]. intros a Ha. rewrite HE. by rewrite decide_True.
      * intros a e He Hle _. rewrite HE in He. apply fmap_Some in He as (e0 & He0 & ->).
        case_decide as Ha; [done|]. simpl in Hle.
        exfalso. specialize (Hown' a e0 He0 Hle). set_solver.
    + rewrite !lookup_insert_ne in Hs by done.
      eapply (wf_relabelled st _ A src l (Some self)); eauto; [congruence|].
      simpl. by rewrite !lookup_alter_ne, Hl by done.
  - by apply (relabelled_same_data _ _ l (Some self)).
Qed.

(** ** Properties *)

(** The operands of [o] are list objects of the store, and [fuel] covers the
    chains the loops of [clear] and [takeOver] walk. *)
Definition op_lists (fuel : nat) (A : gmap loc (list loc)) (o : op) : Prop :=
  is_Some (A !! op_self o) ∧ ∀ s l, A !! s = Some l → length l < fuel.

Lemma entry_ok_member st A self l (q : DataPtr) :
  wf st A → A !! self = Some l → (∀ x, m_p q = Some x → x ∈ l) → entry_ok st q.
Proof. intros Hwf HA Hq x Hx. eapply wf_entry_dom; eauto. Qed.

Lemma anchor_survives l q e :
  anchor_ok l q → (m_p q = None ∨ m_p q ≠ m_p e) →
  ∀ x, m_p e = Some x → x ∈ l → anchor_ok (del x l) q.
Proof.
  intros Ha Hne x Hx _ b Hb. apply list_elem_of_filter. split; [|by apply Ha].
  destruct Hne; congruence.
Qed.

Local Ltac from_insert H :=
  destruct H as (q & x & st' & Hr & Hq & Hwf' & Hx & Hd & Ho);
  exists (RPtr q), st'; cbn [run_op];
  unfold insertHead, insertTail, insertBefore, insertAfter; rewrite Hr;
  simpl; unfold new_entry; rewrite Hq;
  split_and!; [done|done|by exists q, x].
Local Ltac from_move H :=
  destruct H as (st' & Hr & Hwf' & Hsd);
  exists RUnit, st'; cbn [run_op]; unfold moveToHead, moveToTail, moveBefore, moveAfter;
  rewrite Hr; done.

Lemma run_op_correct fuel st A o :
  wf st A → op_lists fuel A o → op_ok st A o →
  ∃ r st', run_op fuel st o = Some (r, st') ∧
    wf st' (spec_op A o (new_entry r)) ∧ result_ok st st' A o r.
Proof.
  intros Hwf [[l HA] Hfuel] Hok. pose proof (Hfuel _ _ HA) as Hf.
  pose proof (lookup_total_correct _ _ _ HA) as HT.
  destruct o; simpl in HA, HT, Hok.
  - from_insert (insert_generic _ _ _ _ _ _ d l (places_head self) Hwf HA I).
  - from_insert (insert_generic _ _ _ _ _ _ d l (places_tail self) Hwf HA I).
  - rewrite HT in Hok.
    from_insert (insert_generic _ _ _ _ _ _ d l (places_before self before) Hwf HA Hok).
  - rewrite HT in Hok.
    from_insert (insert_generic _ _ _ _ _ _ d l (places_after self after) Hwf HA Hok).
  - from_move (move_generic _ _ _ _ _ _ entry l (places_head self) Hwf HA Hok (λ _ _ _, I)).
  - from_move (move_generic _ _ _ _ _ _ entry l (places_tail self) Hwf HA Hok (λ _ _ _, I)).
  - destruct Hok as (He & Ha & Hne). rewrite HT in Ha.
    from_move (move_generic _ _ _ _ _ _ entry l (places_before self before) Hwf HA He
                 (anchor_survives _ _ _ Ha Hne)).
  - destruct Hok as (He & Ha & Hne). rewrite HT in Ha.
    from_move (move_generic _ _ _ _ _ _ entry l (places_after self after) Hwf HA He
                 (anchor_survives _ _ _ Ha Hne)).
  - destruct (remove_ok _ _ _ _ _ Hwf HA Hok) as (st' & Hr & ? & ?).
    eexists _, st'. cbn [run_op]. rewrite Hr. split; [reflexivity|]. done.
  - destruct (Hwf _ _ HA) as [(lo & Hlo & Hh & _) _ _ _].
    edestruct (remove_ok st A self (m_headPtr lo) l Hwf HA) as (st' & Hr & Hw & ?).
    { eapply entry_ok_member; eauto. intros x. rewrite Hh. apply hd_or_elem. }
    eexists _, st'. cbn [run_op]. unfold removeHead, rdl. rewrite Hlo. simpl. rewrite Hr.
    split; [reflexivity|]. rewrite Hh in *. simpl. rewrite HT. split; [|done].
    rewrite (alter_Some _ _ _ _ HA) in Hw. by rewrite (alter_Some _ _ _ _ HA).
  - destruct (Hwf _ _ HA) as [(lo & Hlo & Hh & Ht & _) _ _ _].
    edestruct (remove_ok st A self (m_tailPtr lo) l Hwf HA) as (st' & Hr & Hw & ?).
    { eapply entry_ok_member; eauto. intros x. rewrite Ht. apply last_or_elem. }
    eexists _, st'. cbn [run_op]. unfold removeTail, rdl. rewrite Hlo. simpl. rewrite Hr.
    split; [reflexivity|]. rewrite Ht in *. simpl. rewrite HT. split; [|done].
    rewrite (alter_Some _ _ _ _ HA) in Hw. by rewrite (alter_Some _ _ _ _ HA).
  - destruct (clear_ok _ _ _ _ _ Hwf HA Hf) as (st' & Hr & ? & ?).
    exists RUnit, st'. cbn [run_op]. rewrite Hr. done.
  - destruct src as [src|].
    + destruct Hok as (Hne & HA0 & [ls HAs]).
      destruct (takeOver_ok fuel _ _ _ _ _ Hwf HA0 HAs Hne) as (st' & Hr & ? & ?); [eauto|].
      exists RUnit, st'. cbn [run_op]. rewrite Hr. simpl.
      by rewrite (lookup_total_correct _ _ _ HAs).
    + destruct (clear_ok _ _ _ _ _ Hwf HA Hf) as (st' & Hr & ? & ?).
      exists RUnit, st'. cbn [run_op takeOver]. rewrite Hr. done.
Qed.

(** C10: every operation of a list, called within its contract on well-formed
    lists, terminates without touching memory that is not an entry, turns the
    sequence of entries of each list into the one of the abstract list machine,
    returns the specified pointer or datum and keeps the data of all other
    entries. *)
Theorem run_op_refines fuel st A o :
  wf st A → op_lists fuel A o → op_ok st A o →
  ∃ r st', run_op fuel st o = Some (r, st') ∧
    wf st' (spec_op A o (new_entry r)) ∧ result_ok st st' A o r.
Proof. apply run_op_correct. Qed.

(** Re-inserting a pending entry before itself leaves a chain that runs into it
    and never leaves it again. *)
Lemma insertBefore_self_cycle st A self x l1 l2 q e :
  pending st A self x → A !! self = Some (l1 ++ l2) → m_p q = Some x →
  entries st !! x = Some e → m_p (m_prevPtr e) = last_or None l1 →
  ∃ st' lo, insertBeforeImpl st self q q = Some st' ∧ lists st' !! self = Some lo ∧
    m_p (m_headPtr lo) = hd_or l1 (Some x) ∧
    chain (entries st') self None l1 (Some x) ∧
    ∃ e', entries st' !! x = Some e' ∧ m_p (m_nextPtr e') = Some x.
Proof.
  intros Hp HA Hq He Hpe. destruct (pd_wf _ _ _ _ Hp _ _ HA) as [(lo & Hlo & Hh & _) Hch Hnd _].
  pose proof (pd_fresh _ _ _ _ Hp _ HA) as Hx.
  apply chain_app in Hch as [Hch1 _]. pose proof Hnd as (Hnd1 & _ & _)%NoDup_app.
  unfold insertBeforeImpl, rd. rewrite Hq. simpl. rewrite He. simpl. exec1. exec1. exec1.
  rewrite Hpe.
  destruct l1 as [|p l1 _] using rev_ind.
  - simpl. exec. eexists _, _. split; [reflexivity|]. simpl. rewrite !lookup_alter_eq, Hlo, He.
    simpl. split_and!; [reflexivity|done|done|]. eexists. split; [reflexivity|done].
  - rewrite last_or_snoc in *. pose proof Hch1 as Hch1'.
    apply chain_app in Hch1' as [_ [(ep & Hep & _) _]].
    assert (p ≠ x) by set_solver. exec. eexists _, _. split; [reflexivity|]. simpl.
    rewrite lookup_alter_eq, Hlo. simpl. split_and!; [reflexivity| | |].
    + simpl. rewrite Hh, !hd_or_app. by destruct l1.
    + rewrite <- Hq. eapply (chain_touch_l (entries st) _ self x None _ _ (Some p) q None q).
      * solve_touched.
      * done.
      * set_solver.
      * done.
      * by rewrite last_or_snoc.
      * done.
    + rewrite lookup_alter_ne, !lookup_alter_eq, He by done. simpl. eauto.
Qed.

(** [moveBefore] of an entry before itself, which the guards of the method let
    through, makes the list cyclic: the traversal of [clear] never ends. *)
Theorem moveBefore_self_diverges st A self l1 x l2 q :
  wf st A → A !! self = Some (l1 ++ x :: l2) → m_p q = Some x →
  ∃ st', moveBefore st self q q = Some st' ∧ ∀ fuel, clear fuel st' self = None.
Proof.
  intros Hwf HA Hq. unfold moveBefore.
  erewrite foreignEntry_ok; [|done|done|].
  2:{ eapply entry_ok_member; eauto. intros y. rewrite Hq. intros [= <-]. set_solver. }
  rewrite Hq. simpl. rewrite bool_decide_eq_false_2 by set_solver.
  destruct (removeImpl_unlinked _ _ _ _ _ _ Hwf HA) as (st1 & -> & Hu). simpl.
  pose proof (unlink_pending _ _ _ _ _ _ _ Hwf HA Hu) as Hp.
  destruct (ul_entry _ _ _ _ _ _ Hu) as (e & He0 & He & _).
  pose proof (wl_chain _ _ _ _ (Hwf _ _ HA)) as Hch.
  apply chain_app in Hch as [_ [(e0 & ? & _ & Hpe & _) _]].
  assert (e0 = e) as -> by congruence.
  destruct (insertBefore_self_cycle _ _ _ _ l1 l2 q e Hp (lookup_insert_eq _ _ _) Hq He Hpe)
    as (st' & lo & Hr & Hlo & Hh & Hc & e' & He' & Hn).
  exists st'. split; [done|]. intros fuel. unfold clear, rdl. rewrite Hlo. simpl. rewrite Hh.
  erewrite relabel_cycle; eauto.
  pose proof (wl_nodup _ _ _ _ (Hwf _ _ HA)) as (Hd & Hd2 & _)%NoDup_app.
  apply NoDup_cons. split; [|done]. intros Hx. apply (Hd2 x Hx). set_solver.
Qed.

(** [takeOver] does not detach the entries the receiving list had: they keep
    naming it as their owner, and a later [remove] of one of them passes the
    ownership guard and drives the count of a list below zero. *)
Theorem takeOver_stale_entry fuel st A self src x q :
  wf st A → A !! self = Some [x] → A !! src = Some [] → self ≠ src → m_p q = Some x →
  0 < fuel →
  ∃ st' d st'' lo, takeOver fuel st self (Some src) = Some st' ∧
    remove st' self q = Some (d, st'') ∧ rdl st'' self = Some lo ∧ m_count lo = size_max.
Proof.
  intros Hwf HA HAs Hne Hq Hf. destruct fuel as [|fuel]; [lia|].
  destruct (Hwf _ _ HA) as [(lo & Hlo & _) [(e & He & Hle & Hpe & Hn) _] _ _].
  destruct (Hwf _ _ HAs) as [(ls & Hls & Hhs & Hts & Hcs) _ _ _]. simpl in *.
  unfold takeOver, rdl. rewrite Hls. simpl. rewrite Hhs. simpl. rewrite Hls. simpl.
  exec1. rewrite lookup_alter_ne, Hls by done. simpl.
  exec1. rewrite !lookup_alter_ne, Hls by done. simpl. exec.
  eexists _, _, _, _. split; [reflexivity|].
  unfold remove, foreignEntry, removeImpl, rd. rewrite Hq. simpl. rewrite He. simpl.
  rewrite bool_decide_eq_false_2 by (rewrite Hle; intros ?; done). simpl.
  rewrite Hpe. exec. rewrite He. simpl. rewrite Hn. exec.
  rewrite !lookup_alter_eq, He. simpl.
  split; [reflexivity|]. unfold rdl. simpl. rewrite !lookup_alter. repeat case_decide; try done.
  rewrite Hlo. simpl. split; [reflexivity|]. simpl. by rewrite Hcs.
Qed.

(** [takeOver] applied to the list itself empties it, while its entries still
    name it as their owner. *)
Theorem takeOver_self_loses fuel st A self l :
  wf st A → A !! self = Some l → length l < fuel →
  ∃ st' lo, takeOver fuel st self (Some self) = Some st' ∧ rdl st' self = Some lo ∧
    m_p (m_headPtr lo) = None ∧ m_count lo = 0%N ∧
    ∀ a, a ∈ l → ∃ e, entries st' !! a = Some e ∧ m_list e = Some self.
Proof.
  intros Hwf HA Hf. destruct (Hwf _ _ HA) as [(lo & Hlo & Hh & _) Hch Hnd _].
  destruct (relabel_ok fuel st self None l (Some self) Hch Hnd Hf) as (st1 & Hr & Hl & HE).
  assert (Hlo1 : lists st1 !! self = Some lo) by (by rewrite Hl).
  unfold takeOver, rdl. rewrite Hlo. simpl. rewrite Hh, Hr. simpl. rewrite Hlo1. simpl.
  exec1. rewrite !lookup_alter_eq, Hlo1. simpl.
  exec1. rewrite !lookup_alter_eq, Hlo1. simpl. exec.
  eexists _, _. split; [reflexivity|]. unfold rdl. simpl. rewrite !lookup_alter_eq, Hlo1. simpl.
  split_and!; [reflexivity|done|done|]. intros a Ha.
  destruct (wf_entry_owner _ _ _ _ _ _ Hwf HA Ha) as (e & He & Hle).
  rewrite HE, He, decide_True by done. simpl. eauto.
Qed.

(** States reached from empty lists by operations within their contract. *)
Inductive reach (fuel : nat) : store → gmap loc (list loc) → Prop :=
| reach_new st A :
    (∀ s l, A !! s = Some l → l = [] ∧ lists st !! s = Some (mkList g_nullDataPtr g_nullDataPtr 0)) →
    (∀ a e, entries st !! a = Some e → m_list e = None) → reach fuel st A
| reach_op st A o r st' :
    reach fuel st A → op_lists fuel A o → op_ok st A o →
    run_op fuel st o = Some (r, st') → reach fuel st' (spec_op A o (new_entry r)).

(** the links, ends, counts and owners of all lists agree in every reachable
    state; in particular the count of a list is its length modulo [2^64]. *)
Theorem reach_wf fuel st A self l :
  reach fuel st A → A !! self = Some l → wf_list None st self l.
Proof.
  intros Hr. revert self l. change (wf st A). induction Hr as [st A Hl He|st A o r st' _ IH Hl Ho Hrun].
  - intros s l Hs. destruct (Hl _ _ Hs) as [-> Hlo]. split; simpl; [|done|constructor|].
    + eexists. split; [exact Hlo|]. done.
    + intros a e Ha Hle _. rewrite (He _ _ Ha) in Hle. done.
  - destruct (run_op_correct _ _ _ _ IH Hl Ho) as (r' & st'' & Hrun' & Hwf & _).
    rewrite Hrun in Hrun'. by injection Hrun' as <- <-.
Qed.

End StdList.

(** ** Concrete lists *)

(** Two lists at 100 and 200; entries 1, 2 and 3 belong to the first one. *)
Definition demo_ptr (a : loc) : DataPtr := mkDataPtr (Some a) (Some a).

Definition demo_store : store :=
  mkStore
    {[ 1%N := mkListEntry (demo_ptr 2) g_nullDataPtr (Some 100%N) 11;
       2%N := mkListEntry (demo_ptr 3) (demo_ptr 1) (Some 100%N) 12;
       3%N := mkListEntry g_nullDataPtr (demo_ptr 2) (Some 100%N) 13 ]}
    {[ 100%N := mkList (demo_ptr 1) (demo_ptr 3) 3;
       200%N := mkList g_nullDataPtr g_nullDataPtr 0 ]}.

Definition demo_lists : gmap loc (list loc) := {[ 100%N := [1; 2; 3]%N; 200%N := [] ]}.

(** The same with a single entry. *)
Definition demo_store1 : store :=
  mkStore {[ 1%N := mkListEntry g_nullDataPtr g_nullDataPtr (Some 100%N) 11 ]}
    {[ 100%N := mkList (demo_ptr 1) (demo_ptr 1) 1;
       200%N := mkList g_nullDataPtr g_nullDataPtr 0 ]}.

Definition demo_lists1 : gmap loc (list loc) := {[ 100%N := [1]%N; 200%N := [] ]}.

Ltac demo_lookup H :=
  unfold demo_lists, demo_lists1, demo_store, demo_store1 in H; cbn [entries] in H;
  repeat (apply lookup_insert_Some in H as [[<- <-]|[? H]]);
  try (apply lookup_singleton_Some in H as [<- <-]);
  try (by apply lookup_empty_Some in H).

Ltac demo_wf :=
  intros s l Hs; demo_lookup Hs; (split; simpl;
  [ eexists; split; [reflexivity|done]
  | repeat (split; [eexists; split; [reflexivity|done]|]); done
  | apply (bool_decide_unpack _); vm_compute; exact I
  | let a := fresh "a" in let e := fresh "e" in let He := fresh "He" in
    intros a e He; demo_lookup He; simpl; intros; first [done|set_solver] ]).

Lemma demo_store_wf : wf demo_store demo_lists.
Proof. demo_wf. Qed.

Lemma demo_store1_wf : wf demo_store1 demo_lists1.
Proof. demo_wf. Qed.

Lemma run_op_refines_witness :
  ∃ r st', run_op 0 4 demo_store (MoveBefore 100%N (demo_ptr 3) (demo_ptr 1)) = Some (r, st') ∧
    wf st' (spec_op demo_lists (MoveBefore (V := nat) 100%N (demo_ptr 3) (demo_ptr 1)) (new_entry r)) ∧
    result_ok 0 demo_store st' demo_lists (MoveBefore 100%N (demo_ptr 3) (demo_ptr 1)) r.
Proof.
  apply (run_op_refines 0 4 demo_store demo_lists).
  - exact demo_store_wf.
  - split; [by eexists|]. intros s l H. demo_lookup H; simpl; lia.
  - split_and!.
    + intros x [= <-]. apply elem_of_dom. by eexists.
    + intros b [= <-]. vm_compute. left.
    + right. done.
Defined.

Lemma moveBefore_self_diverges_witness :
  ∃ st', moveBefore demo_store 100%N (demo_ptr 2) (demo_ptr 2) = Some st' ∧
    ∀ fuel, clear fuel st' 100%N = None.
Proof.
  apply (moveBefore_self_diverges demo_store demo_lists 100%N [1%N] 2%N [3%N]);
    [exact demo_store_wf|reflexivity|reflexivity].
Defined.

Lemma takeOver_stale_entry_witness :
  ∃ st' d st'' lo, takeOver 1 demo_store1 100%N (Some 200%N) = Some st' ∧
    remove 0 st' 100%N (demo_ptr 1) = Some (d, st'') ∧ rdl st'' 100%N = Some lo ∧
    m_count lo = size_max.
Proof.
  apply (takeOver_stale_entry 0 1 demo_store1 demo_lists1 100%N 200%N 1%N);
    [exact demo_store1_wf|reflexivity|reflexivity|done|reflexivity|lia].
Defined.

Lemma takeOver_self_loses_witness :
  ∃ st' lo, takeOver 4 demo_store 100%N (Some 100%N) = Some st' ∧ rdl st' 100%N = Some lo ∧
    m_p (m_headPtr lo) = None ∧ m_count lo = 0%N ∧
    ∀ a, a ∈ [1; 2; 3]%N → ∃ e, entries st' !! a = Some e ∧ m_list e = Some 100%N.
Proof.
  apply (takeOver_self_loses 4 demo_store demo_lists 100%N [1; 2; 3]%N);
    [exact demo_store_wf|reflexivity|simpl; lia].
Defined.

Lemma reach_wf_witness :
  wf_list None (mkStore (V := nat) ∅ {[ 100%N := mkList g_nullDataPtr g_nullDataPtr 0 ]}) 100%N [].
Proof.
  apply (reach_wf 0 1 _ {[ 100%N := [] ]}); [|reflexivity].
  apply reach_new.
  - intros s l H. demo_lookup H. done.
  - simpl. intros a e H. by apply lookup_empty_Some in H.
Defined.
