(* ===== verification/Box.v ===== *)
(** * Boxes: the headers of garbage-collected objects

    Models [jnc_Box] and its flags ([src/include/jnc_RuntimeStructs.h]).  A box
    sits in front of every class instance and every allocated block; its flag
    word carries the mark bits of the collector and the index bits of the
    destruct graph. *)

From S2P Require Import Prelude.

(** ** Flags *)

Definition BoxFlag_WeakMark        : N := 0x0001.
Definition BoxFlag_DataMark        : N := 0x0002.
Definition BoxFlag_ClassMark       : N := 0x0004.
Definition BoxFlag_ClosureWeakMark : N := 0x0008.
Definition BoxFlag_Destructing     : N := 0x0010.
Definition BoxFlag_Invalid         : N := 0x0020.
Definition BoxFlag_Static          : N := 0x0040.
Definition BoxFlag_DynamicArray    : N := 0x0080.
Definition BoxFlag_Detached        : N := 0x0100.
Definition BoxFlag_CallSiteLocal   : N := 0x0200.
Definition BoxFlag_Index           : N := 0x0400.
Definition BoxFlag_Map             : N := 0x0800.
Definition BoxFlag_MarkMask        : N := 0x000f.

(** [1 << 20]: the largest index the 20-bit field of a box cannot hold. *)
Definition BoxIndexLimit : N := 0x100000.

(** [flags & f], [flags | f] and [flags & ~f]. *)
Definition test_flag (f flags : N) : bool := negb (N.land flags f =? 0)%N.
Definition set_flag (f flags : N) : N := N.lor flags f.
Definition clear_flag (f flags : N) : N := N.ldiff flags f.

(** ** Boxes *)

(** [m_type] is the address of the type object; [m_rootOffset] is the distance
    back to the enclosing allocated box, 0 for an allocated box. *)
Record Box := mkBox {
  m_type : loc;
  m_flags : N;
  m_index : N;
  m_rootOffset : N
}.

Definition with_flags (f : N → N) (b : Box) : Box :=
  mkBox (m_type b) (f (m_flags b)) (m_index b) (m_rootOffset b).
Definition with_index (i : N) (b : Box) : Box :=
  mkBox (m_type b) (m_flags b) (i mod BoxIndexLimit) (m_rootOffset b).

(** [sizeof(Box)] on a 64-bit target: [box + 1] is the interface header or the
    data that follows. *)
Definition sizeof_Box : N := 16.
Definition iface_of (box : loc) : loc := (box + sizeof_Box)%N.
Definition box_of (iface : loc) : loc := (iface - sizeof_Box)%N.

Lemma box_of_iface box : box_of (iface_of box) = box.
Proof. unfold box_of, iface_of. lia. Qed.

Lemma iface_of_inj a b : iface_of a = iface_of b → a = b.
Proof. unfold iface_of. lia. Qed.

(** ** Reading flags after writing them *)

(** Two flag masks that share no bit. *)
Definition disjoint_flags (f g : N) : bool := (N.land f g =? 0)%N.

Lemma test_set_flag f g x :
  test_flag f (set_flag g x) = test_flag f x || test_flag f g.
Proof.
  unfold test_flag, set_flag. rewrite N.land_lor_distr_l.
  destruct (N.eqb_spec (N.lor (N.land x f) (N.land g f)) 0) as [H|H].
  - apply N.lor_eq_0_iff in H as [-> ->]. done.
  - destruct (N.eqb_spec (N.land x f) 0) as [H1|]; [|done].
    destruct (N.eqb_spec (N.land g f) 0) as [H2|]; [|done].
    rewrite H1, H2 in H. done.
Qed.

Lemma test_clear_flag_disjoint f g x :
  disjoint_flags f g = true → test_flag f (clear_flag g x) = test_flag f x.
Proof.
  unfold disjoint_flags, test_flag, clear_flag. intros Hd%N.eqb_eq. do 2 f_equal.
  apply N.bits_inj. intros i. rewrite !N.land_spec, N.ldiff_spec.
  assert (Hi : N.testbit (N.land f g) i = false) by (rewrite Hd; apply N.bits_0).
  rewrite N.land_spec in Hi. destruct (N.testbit x i), (N.testbit f i), (N.testbit g i); done.
Qed.

Lemma test_clear_flag_sub f g x :
  N.ldiff f g = 0%N → test_flag f (clear_flag g x) = false.
Proof.
  unfold test_flag, clear_flag. intros Hs. apply negb_false_iff, N.eqb_eq.
  apply N.bits_inj. intros i. rewrite N.land_spec, N.ldiff_spec, N.bits_0.
  assert (Hi : N.testbit (N.ldiff f g) i = false) by (rewrite Hs; apply N.bits_0).
  rewrite N.ldiff_spec in Hi. destruct (N.testbit x i), (N.testbit f i), (N.testbit g i); done.
Qed.

Lemma set_flag_noop f x : N.land x f = f → set_flag f x = x.
Proof.
  unfold set_flag. intros H. apply N.bits_inj. intros i. rewrite N.lor_spec.
  assert (Hi : N.testbit (N.land x f) i = N.testbit f i) by (by rewrite H).
  rewrite N.land_spec in Hi. destruct (N.testbit x i), (N.testbit f i); done.
Qed.

#[export] Hint Rewrite test_set_flag : jancy.
