(* ===== verification/DestructGraph.v ===== *)
(** * The destruct graph: ordering the destructors of a collection

    Models [src/src/jnc_rt/jnc_rt_DestructGraph.cpp] and its header: the graph of
    unreachable objects that marking discovers, its strongly connected
    components (an iterative Tarjan over the edge array sorted by source, with
    an explicit stack of frames) and the emission of the destructible objects
    in topological order.

    Pointers to nodes are positions in [m_nodeArray], which owns the nodes;
    [(size_t)-1] is [None].  The back of the Tarjan stack and of the frame stack
    is the head of the list. *)

From stdpp Require Import sorting.
From S2P Require Import Prelude Box.

(** ** Data *)

Record DestructGraphNode := mkNode {
  m_box : loc;
  m_nodeIndex : nat;
  m_tarjanIdx : option nat;
  m_tarjanLowlinkIdx : option nat;
  m_tarjanSccIdx : option nat
}.

Definition newNode (box : loc) (index : nat) : DestructGraphNode :=
  mkNode box index None None None.

Record Edge := mkEdge { m_srcIdx : nat; m_dstIdx : nat }.

Record TarjanDfsFrame := mkFrame { m_nodeIdx : nat; m_edgeIdx : nat; m_edgeEndIdx : nat }.

Record DestructGraph := mkGraph {
  m_nodeArray : list DestructGraphNode;
  m_nodeMap : gmap loc nat;
  m_unsortedEdgeArray : list Edge;
  m_sortedEdgeArray : list Edge;
  m_edgeBaseArray : list nat;
  m_destructCount : nat;
  m_currentNode : option nat
}.

(** ** Building: [getNode], [addEdge], [cleanup] *)

Definition with_nodes (ns : list DestructGraphNode) (g : DestructGraph) : DestructGraph :=
  mkGraph ns (m_nodeMap g) (m_unsortedEdgeArray g) (m_sortedEdgeArray g)
          (m_edgeBaseArray g) (m_destructCount g) (m_currentNode g).
Definition with_nodeMap (nm : gmap loc nat) (g : DestructGraph) : DestructGraph :=
  mkGraph (m_nodeArray g) nm (m_unsortedEdgeArray g) (m_sortedEdgeArray g)
          (m_edgeBaseArray g) (m_destructCount g) (m_currentNode g).
Definition with_unsorted (es : list Edge) (g : DestructGraph) : DestructGraph :=
  mkGraph (m_nodeArray g) (m_nodeMap g) es (m_sortedEdgeArray g)
          (m_edgeBaseArray g) (m_destructCount g) (m_currentNode g).

(** Marks a box as the node with index [i]: in the box while the index fits its
    20 bits, in the map from there on. *)
Definition index_box (boxes : gmap loc Box) (box : loc) (i : nat) (g : DestructGraph)
    : gmap loc Box * DestructGraph :=
  if (N.of_nat i <? BoxIndexLimit)%N then
    (alter (λ b, with_index (N.of_nat i) (with_flags (set_flag BoxFlag_Index) b)) box boxes, g)
  else
    (alter (with_flags (set_flag BoxFlag_Map)) box boxes,
     with_nodeMap (<[box := i]> (m_nodeMap g)) g).

Definition getNode (boxes : gmap loc Box) (g : DestructGraph) (box : loc)
    : option (nat * gmap loc Box * DestructGraph) :=
  b ← boxes !! box;
  if test_flag BoxFlag_Index (m_flags b) then
    let i := N.to_nat (m_index b) in
    _ ← m_nodeArray g !! i; Some (i, boxes, g)
  else if test_flag BoxFlag_Map (m_flags b) then
    i ← m_nodeMap g !! box; Some (i, boxes, g)
  else
    let i := length (m_nodeArray g) in
    let g := with_nodes (m_nodeArray g ++ [newNode box i]) g in
    let '(boxes, g) := index_box boxes box i g in
    Some (i, boxes, g).

(** [addEdge(srcNode, dstNode)] *)
Definition addEdgeNodes (g : DestructGraph) (srcNode dstNode : nat) : option DestructGraph :=
  if decide (srcNode = dstNode) then Some g
  else
    s ← m_nodeArray g !! srcNode; d ← m_nodeArray g !! dstNode;
    Some (with_unsorted (m_unsortedEdgeArray g ++ [mkEdge (m_nodeIndex s) (m_nodeIndex d)]) g).

(** [addEdge(parent, box)]: the node of the box, created on first sight. *)
Definition addEdge (boxes : gmap loc Box) (g : DestructGraph) (parent : nat) (box : loc)
    : option (nat * gmap loc Box * DestructGraph) :=
  '(node, boxes, g) ← getNode boxes g box;
  g ← addEdgeNodes g parent node;
  Some (node, boxes, g).

Definition cleanup (boxes : gmap loc Box) (g : DestructGraph) : gmap loc Box * DestructGraph :=
  (foldl (λ boxes n, alter (with_flags (clear_flag (N.lor BoxFlag_Index BoxFlag_Map))) (m_box n) boxes)
         boxes (m_nodeArray g),
   mkGraph [] ∅ (m_unsortedEdgeArray g) (m_sortedEdgeArray g) (m_edgeBaseArray g)
           (m_destructCount g) None).

(** The two loops at the start of [build]: a node per candidate, in order. The
    interface header's [m_box] field is [ifaceBox]. *)
Fixpoint build_nodes (ifaceBox : loc → loc) (destructArray : list loc) (boxes : gmap loc Box)
    (g : DestructGraph) : gmap loc Box * DestructGraph :=
  match destructArray with
  | [] => (boxes, g)
  | iface :: rest =>
    let box := ifaceBox iface in
    let i := length (m_nodeArray g) in
    let g := with_nodes (m_nodeArray g ++ [newNode box i]) g in
    let '(boxes, g) := index_box boxes box i g in
    build_nodes ifaceBox rest boxes g
  end.

(** The start of [build]: what an earlier collection left is dropped. *)
Definition build_begin (ifaceBox : loc → loc) (destructArray : list loc) (boxes : gmap loc Box)
    (g : DestructGraph) : gmap loc Box * DestructGraph :=
  build_nodes ifaceBox destructArray boxes
    (mkGraph [] ∅ [] (m_sortedEdgeArray g) (m_edgeBaseArray g) (m_destructCount g) (m_currentNode g)).

(** The end of [build], after marking: the edges sorted by source and indexed.
    [countSort edges maxKey] is the library's counting sort: the sorted edges and,
    per key, the position its edges start at. *)
Definition build_finish (countSort : list Edge → nat → list Edge * list nat) (count : nat)
    (g : DestructGraph) : DestructGraph :=
  let nodeCount := length (m_nodeArray g) in
  let edgeCount := length (m_unsortedEdgeArray g) in
  let '(sorted, bases) := countSort (m_unsortedEdgeArray g) (nodeCount - 1) in
  mkGraph (m_nodeArray g) (m_nodeMap g) (m_unsortedEdgeArray g) sorted (bases ++ [edgeCount])
          count (m_currentNode g).

(** ** Tarjan *)

Record tarjan_state := mkTarjan {
  t_nodes : list DestructGraphNode;
  m_tarjanStack : list nat;
  m_tarjanDfsStack : list TarjanDfsFrame;
  m_tarjanSccNodeArray : list nat;
  m_tarjanSccBaseArray : list nat;
  dfsCounter : nat
}.

(** [AXL_MIN] on [size_t] values of which [None], i.e. [-1], is the largest. *)
Definition min_idx (a b : option nat) : option nat :=
  match a, b with
  | Some x, Some y => Some (Nat.min x y)
  | Some x, None => Some x
  | None, _ => b
  end.

Definition with_low (l : option nat) (n : DestructGraphNode) : DestructGraphNode :=
  mkNode (m_box n) (m_nodeIndex n) (m_tarjanIdx n) l (m_tarjanSccIdx n).
Definition with_scc (k : nat) (n : DestructGraphNode) : DestructGraphNode :=
  mkNode (m_box n) (m_nodeIndex n) (m_tarjanIdx n) (m_tarjanLowlinkIdx n) (Some k).
Definition with_visit (c : nat) (n : DestructGraphNode) : DestructGraphNode :=
  mkNode (m_box n) (m_nodeIndex n) (Some c) (Some c) (m_tarjanSccIdx n).

Section tarjan.
  Context (edges : list Edge) (base : list nat).

(** Numbers the node [i] and pushes it and its frame. *)
Definition visit (s : tarjan_state) (i : nat) : option tarjan_state :=
  b ← base !! i; e ← base !! (S i);
  Some (mkTarjan (alter (with_visit (dfsCounter s)) i (t_nodes s))
                 (i :: m_tarjanStack s) (mkFrame i b e :: m_tarjanDfsStack s)
                 (m_tarjanSccNodeArray s) (m_tarjanSccBaseArray s) (S (dfsCounter s))).

(** The loop that pops a component off the Tarjan stack, down to [root]. *)
Fixpoint pop_scc (stack : list nat) (nodes : list DestructGraphNode) (sccNodes : list nat)
    (sccIdx root : nat) : option (list nat * list DestructGraphNode * list nat) :=
  match stack with
  | [] => None
  | j :: stack =>
    let nodes := alter (with_scc sccIdx) j nodes in
    let sccNodes := sccNodes ++ [j] in
    if decide (j = root) then Some (stack, nodes, sccNodes)
    else pop_scc stack nodes sccNodes sccIdx root
  end.

(** One edge of the top frame. *)
Definition edge_step (s : tarjan_state) (f : TarjanDfsFrame) (rest : list TarjanDfsFrame)
    : option tarjan_state :=
  e ← edges !! m_edgeIdx f;
  let dstIdx := m_dstIdx e in
  let f := mkFrame (m_nodeIdx f) (S (m_edgeIdx f)) (m_edgeEndIdx f) in
  let s := mkTarjan (t_nodes s) (m_tarjanStack s) (f :: rest) (m_tarjanSccNodeArray s)
                    (m_tarjanSccBaseArray s) (dfsCounter s) in
  dstNode ← t_nodes s !! dstIdx;
  if m_tarjanIdx dstNode then
    if m_tarjanSccIdx dstNode then Some s
    else
      node ← t_nodes s !! m_nodeIdx f;
      Some (mkTarjan
        (alter (with_low (min_idx (m_tarjanLowlinkIdx node) (m_tarjanIdx dstNode)))
               (m_nodeIdx f) (t_nodes s))
        (m_tarjanStack s) (m_tarjanDfsStack s) (m_tarjanSccNodeArray s)
        (m_tarjanSccBaseArray s) (dfsCounter s))
  else visit s dstIdx.

(** The component of a finished root. *)
Definition scc_step (s : tarjan_state) (node : DestructGraphNode) : option tarjan_state :=
  if decide (m_tarjanLowlinkIdx node = m_tarjanIdx node) then
    let sccIdx := length (m_tarjanSccBaseArray s) in
    let bases := m_tarjanSccBaseArray s ++ [length (m_tarjanSccNodeArray s)] in
    '(stack, nodes, sccNodes) ←
      pop_scc (m_tarjanStack s) (t_nodes s) (m_tarjanSccNodeArray s) sccIdx (m_nodeIndex node);
    Some (mkTarjan nodes stack (m_tarjanDfsStack s) sccNodes bases (dfsCounter s))
  else Some s.

(** The top frame has no edges left: emit its component, return to the parent. *)
Definition leave_step (s : tarjan_state) (f : TarjanDfsFrame) (rest : list TarjanDfsFrame)
    : option tarjan_state :=
  node ← t_nodes s !! m_nodeIdx f;
  s ← scc_step s node;
  let s := mkTarjan (t_nodes s) (m_tarjanStack s) rest (m_tarjanSccNodeArray s)
                    (m_tarjanSccBaseArray s) (dfsCounter s) in
  match rest with
  | [] => Some s
  | p :: _ =>
    parent ← t_nodes s !! m_nodeIdx p;
    Some (mkTarjan
      (alter (with_low (min_idx (m_tarjanLowlinkIdx parent) (m_tarjanLowlinkIdx node)))
             (m_nodeIdx p) (t_nodes s))
      (m_tarjanStack s) (m_tarjanDfsStack s) (m_tarjanSccNodeArray s)
      (m_tarjanSccBaseArray s) (dfsCounter s))
  end.

Definition dfs_step (s : tarjan_state) (f : TarjanDfsFrame) (rest : list TarjanDfsFrame)
    : option tarjan_state :=
  if m_edgeIdx f <? m_edgeEndIdx f then edge_step s f rest else leave_step s f rest.

(** [while (!m_tarjanDfsStack.isEmpty())] *)
Fixpoint dfs_run (fuel : nat) (s : tarjan_state) : option tarjan_state :=
  match m_tarjanDfsStack s with
  | [] => Some s
  | f :: rest =>
    match fuel with
    | O => None
    | S fuel => s ← dfs_step s f rest; dfs_run fuel s
    end
  end.

(** [for (size_t i = 0; i < m_destructCount; i++)], from [i] on, [count] times. *)
Fixpoint seed_run (fuel : nat) (i count : nat) (s : tarjan_state) : option tarjan_state :=
  match count with
  | O => Some s
  | S count =>
    rootNode ← t_nodes s !! i;
    if m_tarjanIdx rootNode then seed_run fuel (S i) count s
    else s ← visit s i; s ← dfs_run fuel s; seed_run fuel (S i) count s
  end.

End tarjan.

Definition tarjan (fuel : nat) (g : DestructGraph) : option tarjan_state :=
  s ← seed_run (m_sortedEdgeArray g) (m_edgeBaseArray g) fuel 0 (m_destructCount g)
        (mkTarjan (m_nodeArray g) [] [] [] [] 0);
  Some (mkTarjan (t_nodes s) (m_tarjanStack s) (m_tarjanDfsStack s) (m_tarjanSccNodeArray s)
          (m_tarjanSccBaseArray s ++ [length (m_tarjanSccNodeArray s)]) (dfsCounter s)).

(** ** Emission *)

(** The compaction loop: [*p++ = k] for the candidates among the positions from
    [j] on, [n] of them, in place. *)
Fixpoint compact (destructCount : nat) (arr : list nat) (p j n : nat) : option (list nat * nat) :=
  match n with
  | O => Some (arr, p)
  | S n =>
    k ← arr !! j;
    if k <? destructCount then compact destructCount (<[p := k]> arr) (S p) (S j) n
    else compact destructCount arr p (S j) n
  end.

(** The interface pointers of the nodes [ks]. *)
Definition emit_nodes (nodes : list DestructGraphNode) (ks : list nat) : option (list loc) :=
  mapM (λ k, n ← nodes !! k; Some (iface_of (m_box n))) ks.

(** [std::sort] with [sl::Gt]. *)
Definition desc (a b : nat) : Prop := b ≤ a.
#[export] Instance desc_dec : RelDecision desc := λ a b, decide (b ≤ a).
Definition sort_desc (ks : list nat) : list nat := merge_sort desc ks.

(** The body of the loop for the component between [base] and [end_]. *)
Definition emit_scc (nodes : list DestructGraphNode) (destructCount : nat) (arr : list nat)
    (base end_ : nat) : option (list nat * list loc) :=
  '(arr, p) ← compact destructCount arr base base (end_ - base);
  let loopLength := p - base in
  match loopLength with
  | 0 => Some (arr, [])
  | 1 => k ← arr !! base; out ← emit_nodes nodes [k]; Some (arr, out)
  | _ =>
    let sorted := sort_desc (take loopLength (drop base arr)) in
    out ← emit_nodes nodes sorted;
    Some (take base arr ++ sorted ++ drop p arr, out)
  end.

(** [for (i = count - 2; i >= 0; i--)] over the components, from the last one. *)
Fixpoint emit_from (nodes : list DestructGraphNode) (destructCount : nat) (bases : list nat)
    (i : nat) (arr : list nat) : option (list loc) :=
  match i with
  | O => Some []
  | S i =>
    base ← bases !! i; end_ ← bases !! (S i);
    '(arr, out) ← emit_scc nodes destructCount arr base end_;
    rest ← emit_from nodes destructCount bases i arr;
    Some (out ++ rest)
  end.

(** Appends to [destructArray], whose size grows by [m_destructCount] first:
    fewer emitted objects leave zeroed elements, more would overrun it. *)
Definition emit (g : DestructGraph) (s : tarjan_state) (destructArray : list loc)
    : option (list loc) :=
  out ← emit_from (t_nodes s) (m_destructCount g) (m_tarjanSccBaseArray s)
          (length (m_tarjanSccBaseArray s) - 1) (m_tarjanSccNodeArray s);
  if length out <=? m_destructCount g then
    Some (destructArray ++ out ++ replicate (m_destructCount g - length out) 0%N)
  else None.

(** A diamond with a loop: candidates 0 -> 1 <-> 2, 3 reached from 1. *)
Example tarjan_demo :
  let nodes := imap (λ i (_ : nat), newNode (N.of_nat (100 * (i + 1))) i) [0;0;0;0] in
  let es := [mkEdge 0 1; mkEdge 1 2; mkEdge 1 3; mkEdge 2 1] in
  let g := mkGraph nodes ∅ [] es [0;1;3;4;4] 3 None in
  (s ← tarjan 20 g; emit g s []) = Some [116; 316; 216]%N.
Proof. vm_compute. reflexivity. Qed.
