(* ===== verification/DestructOrder.v ===== *)
(** * Correctness of the destruct order

    The iterative Tarjan of [DestructGraph] computes the strongly connected
    components of the part of the graph reachable from the candidates, in
    reverse topological order, within a number of iterations bounded by the
    size of the graph; and the emission enumerates every candidate exactly
    once, each before the candidates it reaches. *)

From stdpp Require Import sorting relations.
From S2P Require Import Prelude Box DestructGraph.

(** ** The graph behind the edge arrays *)

(** The edge array sorted by source, with [base] saying where the edges of each
    of the [n] nodes start. *)
Record csr_ok (edges : list Edge) (base : list nat) (n : nat) : Prop := {
  csr_length : length base = S n;
  csr_mono : ∀ v b e, v < n → base !! v = Some b → base !! (S v) = Some e →
             b ≤ e ∧ e ≤ length edges;
  csr_dst : ∀ i e, edges !! i = Some e → m_dstIdx e < n
}.

Section graph.
  Context (edges : list Edge) (base : list nat) (n : nat).

Definition bs (v : nat) : nat := default 0 (base !! v).

(** Some edge of [v] at a position below [e] leads to [w]. *)
Definition edge_in (v e w : nat) : Prop :=
  ∃ i ed, bs v ≤ i < e ∧ edges !! i = Some ed ∧ m_dstIdx ed = w.

Definition succ (v w : nat) : Prop := v < n ∧ edge_in v (bs (S v)) w.

Definition reach : nat → nat → Prop := rtc succ.

Lemma edge_in_mono v e e' w : e ≤ e' → edge_in v e w → edge_in v e' w.
Proof. intros ? (i & ed & ? & ?). exists i, ed. split; [lia|done]. Qed.

Lemma edge_in_S v e ed w :
  edges !! e = Some ed → edge_in v (S e) w → edge_in v e w ∨ w = m_dstIdx ed.
Proof.
  intros He (i & ed' & Hi & Hed & Hw). destruct (decide (i = e)) as [->|Hne].
  - right. congruence.
  - left. exists i, ed'. split; [lia|done].
Qed.

Lemma edge_in_nil v w : ¬ edge_in v (bs v) w.
Proof. intros (i & ed & Hi & _). lia. Qed.

Lemma edge_in_last v e ed : bs v ≤ e → edges !! e = Some ed → edge_in v (S e) (m_dstIdx ed).
Proof. intros Hv He. exists e, ed. split; [lia|done]. Qed.

Lemma reach_closed (P : nat → Prop) v w :
  (∀ a b, P a → succ a b → P b) → P v → reach v w → P w.
Proof. intros Hc Hv Hr. induction Hr; eauto. Qed.

(** *** Fields of the nodes *)

Definition num (ns : list DestructGraphNode) (v : nat) : option nat := ns !! v ≫= m_tarjanIdx.
Definition low (ns : list DestructGraphNode) (v : nat) : option nat :=
  ns !! v ≫= m_tarjanLowlinkIdx.
Definition scc (ns : list DestructGraphNode) (v : nat) : option nat := ns !! v ≫= m_tarjanSccIdx.

(** The number of a visited node. *)
Definition nm (ns : list DestructGraphNode) (v : nat) : nat := default 0 (num ns v).

Lemma num_alter f ns i v :
  num (alter f i ns) v = if decide (i = v) then ns !! v ≫= (λ x, m_tarjanIdx (f x)) else num ns v.
Proof.
  unfold num. case_decide as Hd; subst.
  - rewrite list_lookup_alter_eq. by destruct (ns !! v).
  - by rewrite list_lookup_alter_ne.
Qed.
Lemma low_alter f ns i v :
  low (alter f i ns) v
  = if decide (i = v) then ns !! v ≫= (λ x, m_tarjanLowlinkIdx (f x)) else low ns v.
Proof.
  unfold low. case_decide as Hd; subst.
  - rewrite list_lookup_alter_eq. by destruct (ns !! v).
  - by rewrite list_lookup_alter_ne.
Qed.
Lemma scc_alter f ns i v :
  scc (alter f i ns) v
  = if decide (i = v) then ns !! v ≫= (λ x, m_tarjanSccIdx (f x)) else scc ns v.
Proof.
  unfold scc. case_decide as Hd; subst.
  - rewrite list_lookup_alter_eq. by destruct (ns !! v).
  - by rewrite list_lookup_alter_ne.
Qed.

Lemma num_with_low l ns i v : num (alter (with_low l) i ns) v = num ns v.
Proof. rewrite num_alter. case_decide; [|done]. by subst. Qed.
Lemma num_with_scc l ns i v : num (alter (with_scc l) i ns) v = num ns v.
Proof. rewrite num_alter. case_decide; [|done]. by subst. Qed.
Lemma scc_with_low l ns i v : scc (alter (with_low l) i ns) v = scc ns v.
Proof. rewrite scc_alter. case_decide; [|done]. by subst. Qed.
Lemma scc_with_visit l ns i v : scc (alter (with_visit l) i ns) v = scc ns v.
Proof. rewrite scc_alter. case_decide; [|done]. by subst. Qed.
Lemma low_with_scc l ns i v : low (alter (with_scc l) i ns) v = low ns v.
Proof. rewrite low_alter. case_decide; [|done]. by subst. Qed.

Lemma nm_with_low l ns i v : nm (alter (with_low l) i ns) v = nm ns v.
Proof. unfold nm. by rewrite num_with_low. Qed.
Lemma nm_with_scc l ns i v : nm (alter (with_scc l) i ns) v = nm ns v.
Proof. unfold nm. by rewrite num_with_scc. Qed.

(** ** The invariant of the search *)

Definition gray (s : tarjan_state) : list nat := m_nodeIdx <$> m_tarjanDfsStack s.

(** The edges of [v] the search has looked at. *)
Definition consumed (s : tarjan_state) (v w : nat) : Prop :=
  (∃ f, f ∈ m_tarjanDfsStack s ∧ m_nodeIdx f = v ∧ edge_in v (m_edgeIdx f) w) ∨
  (v ∉ gray s ∧ is_Some (num (t_nodes s) v) ∧ succ v w).

(** Where the components start in their concatenation. *)
Fixpoint starts (k : nat) (comps : list (list nat)) : list nat :=
  match comps with [] => [] | c :: comps => k :: starts (k + length c) comps end.

(** The components emitted so far: correct, and closed under successors from
    each one downwards. *)
Record comps_ok (s : tarjan_state) (comps : list (list nat)) : Prop := {
  co_nodes : m_tarjanSccNodeArray s = concat comps;
  co_bases : m_tarjanSccBaseArray s = starts 0 comps;
  co_scc : ∀ k c v, comps !! k = Some c → v ∈ c → scc (t_nodes s) v = Some k;
  co_strong : ∀ k c v w, comps !! k = Some c → v ∈ c → w ∈ c → reach v w;
  co_closed : ∀ k c v w, comps !! k = Some c → v ∈ c → succ v w →
              ∃ j c', j ≤ k ∧ comps !! j = Some c' ∧ w ∈ c'
}.

Record tarjan_inv (s : tarjan_state) (comps : list (list nat)) : Prop := {
  ti_length : length (t_nodes s) = n;
  ti_index : ∀ v nd, t_nodes s !! v = Some nd → m_nodeIndex nd = v;
  ti_visited : ∀ v, is_Some (num (t_nodes s) v) ↔
               v ∈ m_tarjanStack s ∨ v ∈ m_tarjanSccNodeArray s;
  ti_nodup : NoDup (m_tarjanStack s ++ m_tarjanSccNodeArray s);
  ti_counter : ∀ v k, num (t_nodes s) v = Some k → k < dfsCounter s;
  ti_sorted : StronglySorted (λ a b, nm (t_nodes s) b < nm (t_nodes s) a) (m_tarjanStack s);
  ti_gray_sorted : StronglySorted (λ a b, nm (t_nodes s) b < nm (t_nodes s) a) (gray s);
  ti_gray : ∀ g, g ∈ gray s → g ∈ m_tarjanStack s;
  ti_frames : ∀ f, f ∈ m_tarjanDfsStack s → m_nodeIdx f < n ∧
              bs (m_nodeIdx f) ≤ m_edgeIdx f ≤ m_edgeEndIdx f ∧
              m_edgeEndIdx f = bs (S (m_nodeIdx f));
  ti_consumed : ∀ v w, consumed s v w → is_Some (num (t_nodes s) w);
  ti_back : ∀ x, x ∈ m_tarjanStack s →
            ∃ g, g ∈ gray s ∧ nm (t_nodes s) g ≤ nm (t_nodes s) x ∧ reach x g;
  ti_fwd : ∀ g x, g ∈ gray s → x ∈ m_tarjanStack s →
           nm (t_nodes s) g ≤ nm (t_nodes s) x → reach g x;
  ti_low : ∀ x, x ∈ gray s → ∃ y, y ∈ m_tarjanStack s ∧
           low (t_nodes s) x = Some (nm (t_nodes s) y) ∧
           nm (t_nodes s) y ≤ nm (t_nodes s) x ∧ reach x y;
  ti_lowest : ∀ g y w, g ∈ gray s → y ∈ m_tarjanStack s →
           nm (t_nodes s) g ≤ nm (t_nodes s) y →
           (∀ g', g' ∈ gray s → nm (t_nodes s) g < nm (t_nodes s) g' →
                  nm (t_nodes s) y < nm (t_nodes s) g') →
           consumed s y w → w ∈ m_tarjanStack s →
           ∃ l, low (t_nodes s) g = Some l ∧ l ≤ nm (t_nodes s) w;
  ti_unset : ∀ v, v ∉ m_tarjanSccNodeArray s → scc (t_nodes s) v = None;
  ti_comps : comps_ok s comps
}.

(** The number of iterations the search still needs: the unvisited nodes with
    their edges and the frames with their remaining edges. *)
Definition unvisited_cost (ns : list DestructGraphNode) (v : nat) : nat :=
  if num ns v then 0 else S (bs (S v) - bs v).

Definition measure (s : tarjan_state) : nat :=
  sum_list_with (unvisited_cost (t_nodes s)) (seq 0 n) +
  sum_list_with (λ f, S (m_edgeEndIdx f - m_edgeIdx f)) (m_tarjanDfsStack s).


(** *** Shared consequences of the invariant *)

Lemma gray_top s f rest : m_tarjanDfsStack s = f :: rest → m_nodeIdx f ∈ gray s.
Proof. intros H. unfold gray. rewrite H. left. Qed.

Lemma gray_lt s comps g : tarjan_inv s comps → g ∈ gray s → g < n.
Proof.
  intros Hi Hg. unfold gray in Hg. apply list_elem_of_fmap in Hg as (f & -> & Hf).
  by apply (ti_frames _ _ Hi).
Qed.

Lemma stack_visited s comps v :
  tarjan_inv s comps → v ∈ m_tarjanStack s → num (t_nodes s) v = Some (nm (t_nodes s) v).
Proof.
  intros Hi Hv. destruct (proj2 (ti_visited _ _ Hi v)) as [k Hk]; [by left|].
  unfold nm. by rewrite Hk.
Qed.

Lemma nm_lt_counter s comps v :
  tarjan_inv s comps → v ∈ m_tarjanStack s → nm (t_nodes s) v < dfsCounter s.
Proof. intros Hi Hv. eapply ti_counter; [done|]. by eapply stack_visited. Qed.

Lemma num_lt s comps v k : tarjan_inv s comps → num (t_nodes s) v = Some k → v < n.
Proof.
  intros Hi Hk. rewrite <- (ti_length _ _ Hi). unfold num in Hk.
  destruct (t_nodes s !! v) eqn:He; [|done]. by eapply lookup_lt_Some.
Qed.

(** The search never returns to a gray node that is numbered after the top. *)
Lemma gray_below_top s comps f rest g :
  tarjan_inv s comps → m_tarjanDfsStack s = f :: rest → g ∈ gray s →
  g = m_nodeIdx f ∨ nm (t_nodes s) g < nm (t_nodes s) (m_nodeIdx f).
Proof.
  intros Hi Hd Hg. pose proof (ti_gray_sorted _ _ Hi) as Hs.
  unfold gray in Hg, Hs. rewrite Hd in Hg, Hs. simpl in *.
  apply elem_of_cons in Hg as [->|Hg]; [by left|right].
  apply StronglySorted_inv in Hs as [_ Hs]. rewrite Forall_forall in Hs. by apply Hs.
Qed.

Lemma reach_step v w x : reach v w → succ w x → reach v x.
Proof. apply rtc_r. Qed.

(** *** Lowering a low link *)

Definition set_nodes (ns : list DestructGraphNode) (s : tarjan_state) : tarjan_state :=
  mkTarjan ns (m_tarjanStack s) (m_tarjanDfsStack s) (m_tarjanSccNodeArray s)
           (m_tarjanSccBaseArray s) (dfsCounter s).
Definition set_frames (fs : list TarjanDfsFrame) (s : tarjan_state) : tarjan_state :=
  mkTarjan (t_nodes s) (m_tarjanStack s) fs (m_tarjanSccNodeArray s)
           (m_tarjanSccBaseArray s) (dfsCounter s).

Lemma consumed_set_low s x l v w :
  consumed (set_nodes (alter (with_low l) x (t_nodes s)) s) v w ↔ consumed s v w.
Proof. unfold consumed, gray. simpl. by rewrite num_with_low. Qed.

Lemma index_alter f i (ns : list DestructGraphNode) :
  (∀ x, m_nodeIndex (f x) = m_nodeIndex x) →
  (∀ v nd, ns !! v = Some nd → m_nodeIndex nd = v) →
  ∀ v nd, alter f i ns !! v = Some nd → m_nodeIndex nd = v.
Proof.
  intros Hf Hi v nd. destruct (decide (i = v)) as [->|Hne].
  - rewrite list_lookup_alter_eq. destruct (ns !! v) as [x|] eqn:Hx; [|done]. simpl.
    intros [= <-]. rewrite Hf. by apply Hi.
  - rewrite list_lookup_alter_ne by done. apply Hi.
Qed.

Lemma inv_set_low s comps x y k :
  tarjan_inv s comps → x ∈ gray s → y ∈ m_tarjanStack s → k = nm (t_nodes s) y →
  reach x y → (∀ l, low (t_nodes s) x = Some l → k ≤ l) →
  tarjan_inv (set_nodes (alter (with_low (Some k)) x (t_nodes s)) s) comps.
Proof.
  intros Hi Hx Hy -> Hr Hle.
  assert (Hxn : is_Some (t_nodes s !! x)).
  { apply lookup_lt_is_Some. rewrite (ti_length _ _ Hi). by eapply gray_lt. }
  destruct Hxn as [nd Hnd].
  assert (Hlow : ∀ v, low (alter (with_low (Some (nm (t_nodes s) y))) x (t_nodes s)) v =
    if decide (x = v) then Some (nm (t_nodes s) y) else low (t_nodes s) v).
  { intros v. rewrite low_alter. case_decide; [|done]. subst. by rewrite Hnd. }
  assert (Hk : nm (t_nodes s) y ≤ nm (t_nodes s) x).
  { destruct (ti_low _ _ Hi x Hx) as (z & _ & Hz & ? & _). specialize (Hle _ Hz). lia. }
  assert (Hnm : ∀ v, nm (alter (with_low (Some (nm (t_nodes s) y))) x (t_nodes s)) v
                     = nm (t_nodes s) v) by (intros; apply nm_with_low).
  destruct Hi as [H1 H2 H3 H4 H5 H6 H7 H8 H9 H10 H11 H12 H13 H14 H15 H16].
  split; try done; simpl.
  - by rewrite length_alter.
  - by apply index_alter.
  - intros v. by rewrite num_with_low.
  - intros v m. rewrite num_with_low. apply H5.
  - eapply SSorted_impl; [|exact H6]. intros a b _ _. by rewrite !Hnm.
  - eapply SSorted_impl; [|exact H7]. intros a b _ _. by rewrite !Hnm.
  - intros v w. rewrite consumed_set_low, num_with_low. apply H10.
  - intros z Hz. setoid_rewrite Hnm. by apply H11.
  - intros g z. rewrite !Hnm. apply H12.
  - intros z Hz. setoid_rewrite Hnm. rewrite Hlow. case_decide; [|by apply H13].
    subst z. exists y. done.
  - intros g z w Hg Hz. rewrite !Hnm. setoid_rewrite Hnm. rewrite consumed_set_low, Hlow.
    intros. destruct (H14 g z w) as (l & Hl & Hlw); [done..|].
    case_decide; [subst g|by exists l]. eexists. split; [done|]. specialize (Hle _ Hl). lia.
  - intros v. rewrite scc_with_low. apply H15.
  - destruct H16. split; try done. intros c k v. simpl. rewrite scc_with_low. eauto.
Qed.

(** *** Advancing over an edge to a visited node *)

Definition advanced (f : TarjanDfsFrame) : TarjanDfsFrame :=
  mkFrame (m_nodeIdx f) (S (m_edgeIdx f)) (m_edgeEndIdx f).

Lemma gray_advanced s f rest :
  m_tarjanDfsStack s = f :: rest → gray (set_frames (advanced f :: rest) s) = gray s.
Proof. intros H. unfold gray. by rewrite H. Qed.

Lemma consumed_advanced s f rest ed v w :
  m_tarjanDfsStack s = f :: rest → edges !! m_edgeIdx f = Some ed →
  consumed (set_frames (advanced f :: rest) s) v w →
  consumed s v w ∨ (v = m_nodeIdx f ∧ w = m_dstIdx ed).
Proof.
  intros Hd He. unfold consumed. erewrite gray_advanced by done. simpl. rewrite Hd.
  intros [(f' & Hf' & Hv & Hw)|Hc]; [|by left; right].
  apply elem_of_cons in Hf' as [->|Hf'].
  - simpl in *. apply (edge_in_S _ _ ed) in Hw as [Hw|Hw]; [|by right|done].
    left. left. exists f. split; [left|done].
  - left. left. exists f'. split; [by right|done].
Qed.

Lemma inv_advance s comps f rest ed :
  tarjan_inv s comps → m_tarjanDfsStack s = f :: rest → m_edgeIdx f < m_edgeEndIdx f →
  edges !! m_edgeIdx f = Some ed → is_Some (num (t_nodes s) (m_dstIdx ed)) →
  (m_dstIdx ed ∈ m_tarjanStack s →
     ∃ l, low (t_nodes s) (m_nodeIdx f) = Some l ∧ l ≤ nm (t_nodes s) (m_dstIdx ed)) →
  tarjan_inv (set_frames (advanced f :: rest) s) comps.
Proof.
  intros Hi Hd Hlt He Hvis Hlow. pose proof (gray_advanced _ _ _ Hd) as Hg.
  destruct (ti_frames _ _ Hi f ltac:(rewrite Hd; left)) as (Hfn & Hfb & Hfe).
  destruct Hi as [H1 H2 H3 H4 H5 H6 H7 H8 H9 H10 H11 H12 H13 H14 H15 H16].
  split; rewrite ?Hg; try done; simpl in *.
  - rewrite Hd in H9. intros f' Hf'. apply elem_of_cons in Hf' as [->|Hf'].
    + simpl. split; [done|]. split; [lia|done].
    + apply H9. by right.
  - intros v w Hc. eapply consumed_advanced in Hc as [Hc|[-> ->]]; eauto.
  - intros g y w Hgg Hy Hle Hseg Hc Hw.
    destruct (consumed_advanced _ _ _ _ _ _ Hd He Hc) as [Hc'|[-> ->]];
      [by apply (H14 g y w)|].
    assert (g = m_nodeIdx f) as ->; [|by apply Hlow].
    destruct (decide (nm (t_nodes s) g < nm (t_nodes s) (m_nodeIdx f))) as [Hl|Hl].
    + specialize (Hseg (m_nodeIdx f) (gray_top _ _ _ Hd) Hl). lia.
    + unfold gray in Hgg. rewrite Hd in Hgg. apply elem_of_cons in Hgg as [->|Hgg]; [done|].
      unfold gray in H7. rewrite Hd in H7. apply StronglySorted_inv in H7 as [_ H7].
      rewrite Forall_forall in H7. specialize (H7 _ Hgg). simpl in H7. lia.
  - destruct H16. split; done.
Qed.

(** *** Leaving a node that is not the root of its component *)

(** Once its frame is exhausted, dropping it does not change what is consumed. *)
Lemma consumed_dropped s comps f rest v w ns st sn sb c :
  tarjan_inv s comps → m_tarjanDfsStack s = f :: rest → m_edgeIdx f = m_edgeEndIdx f →
  (∀ v, num ns v = num (t_nodes s) v) →
  consumed (mkTarjan ns st rest sn sb c) v w → consumed s v w.
Proof.
  intros Hi Hd Hend Hnum. unfold consumed, gray. simpl. rewrite Hnum.
  intros [(f' & Hf' & Hv & Hw)|(Hng & Hvis & Hs)].
  - left. exists f'. rewrite Hd. split; [by right|done].
  - destruct (decide (v = m_nodeIdx f)) as [->|Hne].
    + left. exists f. rewrite Hd. split; [left|]. split; [done|].
      destruct (ti_frames _ _ Hi f ltac:(rewrite Hd; left)) as (_ & _ & Hfe).
      rewrite Hend, Hfe. apply Hs.
    + right. rewrite Hd. simpl. split; [|done]. by apply not_elem_of_cons.
Qed.

Lemma inv_pop_frame s comps f p rest l lp :
  tarjan_inv s comps → m_tarjanDfsStack s = f :: p :: rest → m_edgeIdx f = m_edgeEndIdx f →
  low (t_nodes s) (m_nodeIdx f) = Some l → l < nm (t_nodes s) (m_nodeIdx f) →
  low (t_nodes s) (m_nodeIdx p) = Some lp → lp ≤ l →
  tarjan_inv (set_frames (p :: rest) s) comps.
Proof.
  intros Hi Hd Hend Hl Hlt Hlp Hle.
  set (x := m_nodeIdx f) in *. set (q := m_nodeIdx p) in *.
  assert (Hxg : x ∈ gray s) by (eapply gray_top; done).
  assert (Hsub : ∀ g, g ∈ gray (set_frames (p :: rest) s) → g ∈ gray s).
  { intros g. unfold gray. rewrite Hd. simpl. by right. }
  assert (Hsplit : ∀ g, g ∈ gray s → g = x ∨ g ∈ gray (set_frames (p :: rest) s)).
  { intros g. unfold gray. rewrite Hd. simpl. apply elem_of_cons. }
  assert (Hcon : ∀ v w, consumed (set_frames (p :: rest) s) v w → consumed s v w).
  { intros v w. eapply consumed_dropped; done. }
  destruct (ti_low _ _ Hi x Hxg) as (y & Hy & Hly & Hyx & Hry).
  destruct (ti_back _ _ Hi y Hy) as (g0 & Hg0 & Hg0y & Hrg0).
  assert (Hg0' : g0 ∈ gray (set_frames (p :: rest) s) ∧ reach x g0 ∧
                 nm (t_nodes s) g0 < nm (t_nodes s) x).
  { assert (nm (t_nodes s) y < nm (t_nodes s) x) by congruence.
    split; [|split; [by etrans|lia]]. destruct (Hsplit _ Hg0) as [->|]; [lia|done]. }
  assert (Hpq : nm (t_nodes s) q < nm (t_nodes s) x).
  { pose proof (ti_gray_sorted _ _ Hi) as Hs. unfold gray in Hs. rewrite Hd in Hs.
    apply StronglySorted_inv in Hs as [_ Hs]. simpl in Hs. by inversion Hs. }
  destruct Hi as [H1 H2 H3 H4 H5 H6 H7 H8 H9 H10 H11 H12 H13 H14 H15 H16].
  split; try done; simpl in *; eauto.
  - unfold gray in *. rewrite Hd in H7. simpl in *. by apply StronglySorted_inv in H7 as [H7 _].
  - intros f' Hf'. apply H9. rewrite Hd. by right.
  - intros z Hz. destruct (H11 z Hz) as (g & Hg & Hgz & Hrg).
    destruct (Hsplit g Hg) as [->|Hg']; [|by exists g].
    exists g0. destruct Hg0' as (? & ? & ?). split_and!; [done|lia|by etrans].
  - intros g z w Hg Hz Hgz Hseg Hc Hw. destruct (decide (g = q)) as [->|Hgq].
    + destruct (decide (nm (t_nodes s) x ≤ nm (t_nodes s) z)) as [Hxz|Hxz].
      * destruct (H14 x z w) as (l' & Hl' & Hlw); [done|done|done| |by apply Hcon|done|].
        { intros g' Hg' Hlt'. destruct (Hsplit _ Hg') as [->|]; [lia|]. apply Hseg; [done|lia]. }
        exists lp. split; [done|]. assert (l' = l) by congruence. lia.
      * apply (H14 q z w); [by apply Hsub|done|done| |by apply Hcon|done]. intros g' Hg' Hlt'.
        destruct (Hsplit _ Hg') as [->|]; [lia|]. by apply Hseg.
    + apply (H14 g z w); [by apply Hsub|done|done| |by apply Hcon|done]. intros g' Hg' Hlt'.
      destruct (Hsplit _ Hg') as [->|]; [|by apply Hseg].
      assert (Hqq : q ∈ gray (set_frames (p :: rest) s)) by (unfold gray; simpl; left).
      assert (nm (t_nodes s) g < nm (t_nodes s) q).
      { unfold gray in Hg, H7. rewrite Hd in H7. simpl in *.
        apply elem_of_cons in Hg as [->|Hg]; [done|].
        apply StronglySorted_inv in H7 as [H7 _]. apply StronglySorted_inv in H7 as [_ H7].
        rewrite Forall_forall in H7. by apply H7. }
      specialize (Hseg q Hqq H). lia.
  - destruct H16. split; done.
Qed.

(** *** Visiting a node *)

(** [s] with the frames [d'] after [visit] of [i]. *)
Definition visited (s : tarjan_state) (d' : list TarjanDfsFrame) (i : nat) : tarjan_state :=
  mkTarjan (alter (with_visit (dfsCounter s)) i (t_nodes s)) (i :: m_tarjanStack s)
           (mkFrame i (bs i) (bs (S i)) :: d') (m_tarjanSccNodeArray s)
           (m_tarjanSccBaseArray s) (S (dfsCounter s)).

Section visit.
Context (s : tarjan_state) (comps : list (list nat)) (d' : list TarjanDfsFrame) (i : nat).
Hypothesis Hi : tarjan_inv s comps.
Hypothesis Hin : i < n.
Hypothesis Hnew : num (t_nodes s) i = None.
Hypothesis Hgray : m_nodeIdx <$> d' = gray s.
Hypothesis Hframes : ∀ f, f ∈ d' → m_nodeIdx f < n ∧
  bs (m_nodeIdx f) ≤ m_edgeIdx f ≤ m_edgeEndIdx f ∧ m_edgeEndIdx f = bs (S (m_nodeIdx f)).
Hypothesis Hcons : ∀ v w, consumed (set_frames d' s) v w → consumed s v w ∨ w = i.
Hypothesis Hbsi : bs i ≤ bs (S i).
Hypothesis Hto : ∀ g, g ∈ gray s → reach g i.

Local Abbreviation s' := (visited s d' i).

Lemma visit_num v :
  num (t_nodes s') v = if decide (v = i) then Some (dfsCounter s) else num (t_nodes s) v.
Proof using Hi Hin.
  simpl. rewrite num_alter. destruct (decide (v = i)) as [->|Hne].
  - rewrite decide_True by done.
    destruct (lookup_lt_is_Some_2 (t_nodes s) i) as [nd ->]; [|done].
    by rewrite (ti_length _ _ Hi).
  - by rewrite decide_False.
Qed.

Lemma visit_nm v : nm (t_nodes s') v = if decide (v = i) then dfsCounter s else nm (t_nodes s) v.
Proof using Hi Hin. unfold nm. rewrite visit_num. by case_decide. Qed.

Lemma visit_nm_old v : v ≠ i → nm (t_nodes s') v = nm (t_nodes s) v.
Proof. intros. rewrite visit_nm. by rewrite decide_False. Qed.

Lemma visit_low v :
  low (t_nodes s') v = if decide (v = i) then Some (dfsCounter s) else low (t_nodes s) v.
Proof using Hi Hin.
  simpl. rewrite low_alter. destruct (decide (v = i)) as [->|Hne].
  - rewrite decide_True by done.
    destruct (lookup_lt_is_Some_2 (t_nodes s) i) as [nd ->]; [|done].
    by rewrite (ti_length _ _ Hi).
  - by rewrite decide_False.
Qed.

Lemma visit_gray : gray s' = i :: gray s.
Proof. rewrite <- Hgray. done. Qed.

Lemma visit_new_stack : i ∉ m_tarjanStack s ∧ i ∉ m_tarjanSccNodeArray s.
Proof.
  split; intros Hc; (destruct (proj2 (ti_visited _ _ Hi i)) as [k Hk]; [tauto|congruence]).
Qed.

Lemma visit_stack_old y : y ∈ m_tarjanStack s → y ≠ i.
Proof. intros Hy ->. by destruct visit_new_stack as [? _]. Qed.

Lemma visit_consumed v w : consumed s' v w → v ≠ i ∧ (consumed s v w ∨ w = i).
Proof.
  intros [(f & Hf & Hv & Hw)|(Hng & Hvis & Hs)].
  - apply elem_of_cons in Hf as [->|Hf]; simpl in *.
    + subst. by apply edge_in_nil in Hw.
    + assert (Hgv : v ∈ gray s).
      { rewrite <- Hgray. apply list_elem_of_fmap. by exists f. }
      split; [by apply visit_stack_old, (ti_gray _ _ Hi)|].
      apply Hcons. left. by exists f.
  - rewrite visit_gray, not_elem_of_cons in Hng. destruct Hng as [Hvi Hng].
    rewrite visit_num, decide_False in Hvis by done.
    split; [done|]. left. right. done.
Qed.

Lemma inv_visit : tarjan_inv s' comps.
Proof.
  destruct visit_new_stack as [Hns Hnd].
  assert (Hgi : ∀ g, g ∈ gray s → g ≠ i) by (intros g Hg; by apply visit_stack_old, (ti_gray _ _ Hi)).
  pose proof Hi as [H1 H2 H3 H4 H5 H6 H7 H8 H9 H10 H11 H12 H13 H14 H15 H16].
  split; rewrite ?visit_gray.
  - simpl. by rewrite length_alter.
  - by apply index_alter.
  - intros v. rewrite visit_num. simpl. rewrite elem_of_cons. case_decide; [naive_solver|].
    rewrite H3. naive_solver.
  - simpl. apply NoDup_cons. split; [|done]. rewrite elem_of_app. tauto.
  - intros v k. rewrite visit_num. simpl. case_decide; [intros [= <-]; lia|].
    intros Hk%H5. lia.
  - constructor.
    + eapply SSorted_impl; [|exact H6]. intros a b Ha Hb. by rewrite !visit_nm_old by (by apply visit_stack_old).
    + apply Forall_forall. intros b Hb. rewrite visit_nm_old by (by apply visit_stack_old).
      rewrite visit_nm, decide_True by done. by eapply nm_lt_counter.
  - constructor.
    + eapply SSorted_impl; [|exact H7]. intros a b Ha Hb. by rewrite !visit_nm_old by auto.
    + apply Forall_forall. intros b Hb. rewrite visit_nm_old by auto.
      rewrite visit_nm, decide_True by done. eapply nm_lt_counter; eauto.
  - simpl. intros g Hg. apply elem_of_cons in Hg as [->|Hg]; [left|right]. by apply H8.
  - simpl. intros f Hf. apply elem_of_cons in Hf as [->|Hf]; [simpl; lia|]. by apply Hframes.
  - intros v w Hc. apply visit_consumed in Hc as [_ Hc]. rewrite visit_num. case_decide; [done|].
    destruct Hc as [Hc|]; [|done]. by eapply H10.
  - simpl. intros x Hx. apply elem_of_cons in Hx as [->|Hx].
    + exists i. split_and!; [left|done|constructor].
    + destruct (H11 x Hx) as (g & Hg & Hgx & Hr). exists g.
      rewrite !(visit_nm_old) by (auto using visit_stack_old). split_and!; [by right|done|done].
  - simpl. intros g x Hg Hx. apply elem_of_cons in Hx as [->|Hx]; apply elem_of_cons in Hg as [->|Hg].
    + constructor.
    + intros _. by apply Hto.
    + rewrite visit_nm, decide_True, visit_nm_old by (auto using visit_stack_old).
      intros Hle. pose proof (nm_lt_counter _ _ _ Hi Hx). lia.
    + rewrite !visit_nm_old by (auto using visit_stack_old). by apply H12.
  - intros x Hx. apply elem_of_cons in Hx as [->|Hx].
    + exists i. rewrite visit_low, visit_nm, !decide_True by done.
      split_and!; [left|done|done|constructor].
    + destruct (H13 x Hx) as (y & Hy & Hl & Hle & Hr). exists y.
      rewrite visit_low, decide_False by auto. rewrite !visit_nm_old by (auto using visit_stack_old).
      split_and!; [by right|done|done|done].
  - intros g y w Hg Hy Hgy Hseg Hc Hw. apply visit_consumed in Hc as [Hyi Hc].
    simpl in Hy. apply elem_of_cons in Hy as [->|Hy]; [done|].
    apply elem_of_cons in Hg as [->|Hg].
    + rewrite visit_nm, decide_True, visit_nm_old in Hgy by done.
      pose proof (nm_lt_counter _ _ _ Hi Hy). lia.
    + rewrite !visit_nm_old in Hgy by auto. rewrite visit_low, decide_False by auto.
      rewrite visit_nm. case_decide as Hwi.
      * destruct (H13 g Hg) as (z & Hz & Hl & _). eexists. split; [done|].
        pose proof (nm_lt_counter _ _ _ Hi Hz). lia.
      * destruct Hc as [Hc|]; [|done]. simpl in Hw. apply elem_of_cons in Hw as [->|Hw]; [done|].
        apply (H14 g y w); [done..| |done|done]. intros g' Hg' Hlt.
        specialize (Hseg g'). rewrite !visit_nm_old in Hseg by auto. apply Hseg; [by right|done].
  - intros v Hv. simpl. rewrite scc_with_visit. by apply H15.
  - destruct H16. split; try done. intros k c v. simpl. rewrite scc_with_visit. eauto.
Qed.
End visit.

(** *** Popping a component *)

Definition set_sccs (k : nat) (c : list nat) (ns : list DestructGraphNode) : list DestructGraphNode :=
  foldl (λ ns j, alter (with_scc k) j ns) ns c.

Lemma pop_scc_spec pre x post ns sn k :
  x ∉ pre →
  pop_scc (pre ++ x :: post) ns sn k x = Some (post, set_sccs k (pre ++ [x]) ns, sn ++ pre ++ [x]).
Proof.
  revert ns sn. induction pre as [|y pre IH]; intros ns sn Hx; simpl.
  - by rewrite decide_True.
  - rewrite decide_False by set_solver. rewrite IH by set_solver. by rewrite <- app_assoc.
Qed.

Lemma set_sccs_num k c ns v : num (set_sccs k c ns) v = num ns v.
Proof. revert ns. induction c as [|j c IH]; intros ns; simpl; [done|]. by rewrite IH, num_with_scc. Qed.
Lemma set_sccs_nm k c ns v : nm (set_sccs k c ns) v = nm ns v.
Proof. unfold nm. by rewrite set_sccs_num. Qed.
Lemma set_sccs_low k c ns v : low (set_sccs k c ns) v = low ns v.
Proof. revert ns. induction c as [|j c IH]; intros ns; simpl; [done|]. by rewrite IH, low_with_scc. Qed.
Lemma set_sccs_length k c ns : length (set_sccs k c ns) = length ns.
Proof. revert ns. induction c as [|j c IH]; intros ns; simpl; [done|]. by rewrite IH, length_alter. Qed.
Lemma set_sccs_index k c ns :
  (∀ v nd, ns !! v = Some nd → m_nodeIndex nd = v) →
  ∀ v nd, set_sccs k c ns !! v = Some nd → m_nodeIndex nd = v.
Proof.
  revert ns. induction c as [|j c IH]; intros ns Hi; simpl; [done|]. apply IH. by apply index_alter.
Qed.
Lemma set_sccs_scc k c ns v :
  v < length ns → scc (set_sccs k c ns) v = if decide (v ∈ c) then Some k else scc ns v.
Proof.
  revert ns. induction c as [|j c IH]; intros ns Hv.
  - rewrite decide_False by set_solver. done.
  - change (set_sccs k (j :: c) ns) with (set_sccs k c (alter (with_scc k) j ns)).
    rewrite IH by (by rewrite length_alter). rewrite scc_alter.
    destruct (lookup_lt_is_Some_2 _ _ Hv) as [nd Hnd].
    repeat case_decide; subst; rewrite ?Hnd; try done; set_solver.
Qed.
Lemma set_sccs_scc_other k c ns v : v ∉ c → scc (set_sccs k c ns) v = scc ns v.
Proof.
  revert ns. induction c as [|j c IH]; intros ns Hv; simpl; [done|].
  rewrite IH by set_solver. rewrite scc_alter. rewrite decide_False by set_solver. done.
Qed.

Lemma starts_snoc k cs c : starts k (cs ++ [c]) = starts k cs ++ [k + length (concat cs)].
Proof.
  revert k. induction cs as [|c' cs IH]; intros k; simpl; [by rewrite Nat.add_0_r|].
  rewrite IH, length_app. do 3 f_equal. lia.
Qed.

Lemma length_starts k cs : length (starts k cs) = length cs.
Proof. revert k. induction cs; intros; simpl; auto. Qed.

Lemma concat_elem (cs : list (list nat)) v :
  v ∈ concat cs ↔ ∃ k c, cs !! k = Some c ∧ v ∈ c.
Proof.
  induction cs as [|c cs IH]; simpl.
  - split; [set_solver|]. intros (k & c & Hk & _). done.
  - rewrite elem_of_app, IH. split.
    + intros [H|(k & c' & ? & ?)]; [exists 0, c|exists (S k), c']; done.
    + intros ([|k] & c' & Hk & Hv); simpl in Hk; [left; by simplify_eq|right; eauto].
Qed.

Section pop.
Context (s : tarjan_state) (comps : list (list nat)) (f : TarjanDfsFrame)
  (rest : list TarjanDfsFrame) (pre post : list nat).
Hypothesis Hi : tarjan_inv s comps.
Hypothesis Hd : m_tarjanDfsStack s = f :: rest.
Hypothesis Hend : m_edgeIdx f = m_edgeEndIdx f.
Local Abbreviation x := (m_nodeIdx f).
Local Abbreviation C := (pre ++ [x]).
Hypothesis Hlow : low (t_nodes s) x = Some (nm (t_nodes s) x).
Hypothesis Hstack : m_tarjanStack s = pre ++ x :: post.

(** The state after the component has been popped and its frame dropped. *)
Definition popped : tarjan_state :=
  mkTarjan (set_sccs (length comps) C (t_nodes s)) post rest
           (m_tarjanSccNodeArray s ++ C)
           (m_tarjanSccBaseArray s ++ [length (m_tarjanSccNodeArray s)]) (dfsCounter s).

Lemma pop_in_stack y : y ∈ C ∨ y ∈ post ↔ y ∈ m_tarjanStack s.
Proof. rewrite Hstack. set_solver. Qed.

Lemma pop_after y : y ∈ C → nm (t_nodes s) x ≤ nm (t_nodes s) y.
Proof.
  intros Hy. apply elem_of_app in Hy as [Hy|Hy]; [|apply list_elem_of_singleton in Hy as ->; lia].
  pose proof (ti_sorted _ _ Hi) as Hs. rewrite Hstack in Hs.
  apply Nat.lt_le_incl. apply (SSorted_app_between _ _ _ _ _ Hs Hy). left.
Qed.

Lemma pop_before y : y ∈ post → nm (t_nodes s) y < nm (t_nodes s) x.
Proof.
  intros Hy. pose proof (ti_sorted _ _ Hi) as Hs. rewrite Hstack in Hs.
  apply SSorted_app_r in Hs. apply StronglySorted_inv in Hs as [_ Hs].
  rewrite Forall_forall in Hs. by apply Hs.
Qed.

Lemma pop_gray : gray s = x :: gray popped.
Proof. unfold gray. by rewrite Hd. Qed.

Lemma pop_gray_post g : g ∈ gray popped → g ∈ post ∧ nm (t_nodes s) g < nm (t_nodes s) x.
Proof.
  intros Hg. assert (Hlt : nm (t_nodes s) g < nm (t_nodes s) x).
  { pose proof (ti_gray_sorted _ _ Hi) as Hs. rewrite pop_gray in Hs.
    apply StronglySorted_inv in Hs as [_ Hs]. rewrite Forall_forall in Hs. by apply Hs. }
  split; [|done]. assert (Hgs : g ∈ m_tarjanStack s).
  { apply (ti_gray _ _ Hi). rewrite pop_gray. by right. }
  apply pop_in_stack in Hgs as [Hg'%pop_after|]; [lia|done].
Qed.

Lemma pop_consumed_all y w : y ∈ C → succ y w → consumed s y w.
Proof.
  intros Hy Hs. destruct (decide (y = x)) as [->|Hne].
  - left. exists f. rewrite Hd. split; [left|]. split; [done|].
    destruct (ti_frames _ _ Hi f ltac:(rewrite Hd; left)) as (_ & _ & Hfe).
    rewrite Hend, Hfe. apply Hs.
  - right. split; [|split; [|done]].
    + rewrite pop_gray, not_elem_of_cons. split; [done|]. intros Hg%pop_gray_post.
      pose proof (pop_after _ Hy). lia.
    + apply (ti_visited _ _ Hi). left. apply pop_in_stack. by left.
Qed.

(** Edges of the component stay inside it or lead to emitted nodes. *)
Lemma pop_closed y w : y ∈ C → succ y w → w ∈ C ∨ w ∈ m_tarjanSccNodeArray s.
Proof.
  intros Hy Hs. pose proof (pop_consumed_all _ _ Hy Hs) as Hc.
  destruct (proj1 (ti_visited _ _ Hi w) (ti_consumed _ _ Hi _ _ Hc)) as [Hw|Hw]; [|by right].
  left. destruct (proj2 (pop_in_stack w) Hw) as [|Hp]; [done|]. exfalso.
  destruct (ti_lowest _ _ Hi x y w) as (l & Hl & Hlw); [| | | |done|done|].
  - eapply gray_top; done.
  - apply pop_in_stack. by left.
  - by apply pop_after.
  - intros g Hg. rewrite pop_gray in Hg. apply elem_of_cons in Hg as [->|Hg]; [lia|].
    apply pop_gray_post in Hg. lia.
  - apply pop_before in Hp. rewrite Hlow in Hl. injection Hl as <-. lia.
Qed.

Lemma pop_reach_closed y w :
  y ∈ C ∨ y ∈ m_tarjanSccNodeArray s → reach y w → w ∈ C ∨ w ∈ m_tarjanSccNodeArray s.
Proof.
  intros Hy Hr. eapply (reach_closed (λ z, z ∈ C ∨ z ∈ m_tarjanSccNodeArray s)); [|done|done].
  intros a b [Ha|Ha] Hs; [by eapply pop_closed|right].
  destruct (ti_comps _ _ Hi) as [Hn _ _ _ Hcl]. rewrite Hn in *.
  apply concat_elem in Ha as (k & c & Hk & Hac). apply concat_elem.
  destruct (Hcl _ _ _ _ Hk Hac Hs) as (j & c' & _ & ? & ?). eauto.
Qed.

Lemma pop_strong y w : y ∈ C → w ∈ C → reach y w.
Proof.
  intros Hy Hw. etrans; [|eapply (ti_fwd _ _ Hi x w)].
  - destruct (ti_back _ _ Hi y) as (g & Hg & Hgy & Hr); [apply pop_in_stack; by left|].
    rewrite pop_gray in Hg. apply elem_of_cons in Hg as [->|Hg]; [done|]. exfalso.
    apply pop_gray_post in Hg as [Hg _].
    pose proof (ti_nodup _ _ Hi) as Hnd. rewrite Hstack in Hnd.
    destruct (pop_reach_closed _ _ (or_introl Hy) Hr) as [Hc|Hc].
    + apply pop_after in Hc. apply pop_before in Hg. lia.
    + apply NoDup_app in Hnd as (_ & Hnd & _). apply (Hnd g); [set_solver|done].
  - eapply gray_top; done.
  - apply pop_in_stack. by left.
  - by apply pop_after.
Qed.

Lemma popped_comps : comps_ok popped (comps ++ [C]).
Proof.
  pose proof (ti_comps _ _ Hi) as [H1 H2 H3 H4 H5].
  assert (Hlast : ∀ k c, (comps ++ [C]) !! k = Some c →
            comps !! k = Some c ∨ k = length comps ∧ c = C).
  { intros k c Hk. apply lookup_app_Some in Hk as [Hk|[Hk1 Hk]]; [by left|right].
    destruct (k - length comps) as [|m] eqn:Hm; simpl in Hk; [|done].
    simplify_eq. split; [lia|done]. }
  split; simpl.
  - by rewrite H1, concat_app, concat_cons, concat_nil, app_nil_r.
  - rewrite starts_snoc, H2, H1. done.
  - intros k c v Hk Hv. destruct (Hlast _ _ Hk) as [Hk'|[-> ->]].
    + rewrite set_sccs_scc_other; [by eapply H3|]. intros Hc.
      pose proof (ti_nodup _ _ Hi) as Hnd. apply NoDup_app in Hnd as (_ & Hnd & _).
      apply (Hnd v); [apply pop_in_stack; by left|]. rewrite H1. apply concat_elem. eauto.
    + rewrite set_sccs_scc, decide_True; [done|done|].
      rewrite (ti_length _ _ Hi). destruct (proj2 (ti_visited _ _ Hi v)) as [m Hm].
      { left. apply pop_in_stack. by left. }
      by eapply num_lt.
  - intros k c v w Hk. destruct (Hlast _ _ Hk) as [Hk'|[-> ->]]; [by eapply H4|apply pop_strong].
  - intros k c v w Hk Hv Hs. destruct (Hlast _ _ Hk) as [Hk'|[-> ->]].
    + destruct (H5 _ _ _ _ Hk' Hv Hs) as (j & c' & Hj & Hjc & Hw).
      exists j, c'. split_and!; [done|by apply lookup_app_l_Some|done].
    + destruct (pop_closed _ _ Hv Hs) as [Hw|Hw].
      * exists (length comps), C. split_and!; [done|by rewrite lookup_app_r, Nat.sub_diag|done].
      * rewrite H1 in Hw. apply concat_elem in Hw as (j & c' & Hj & Hw). exists j, c'.
        split_and!; [|by apply lookup_app_l_Some|done].
        apply lookup_lt_Some in Hj. lia.
Qed.

Lemma popped_consumed v w : consumed popped v w → consumed s v w.
Proof. apply (consumed_dropped s comps f rest); try done. intros. apply set_sccs_num. Qed.

Lemma popped_stack y : y ∈ post → y ∈ m_tarjanStack s.
Proof. intros. apply pop_in_stack. by right. Qed.

Lemma inv_popped : tarjan_inv popped (comps ++ [C]).
Proof.
  assert (Hnm : ∀ v, nm (t_nodes popped) v = nm (t_nodes s) v) by (intros; apply set_sccs_nm).
  assert (Hgs : ∀ g, g ∈ gray popped → g ∈ gray s) by (rewrite pop_gray; by right).
  pose proof popped_comps as Hc.
  pose proof Hi as [H1 H2 H3 H4 H5 H6 H7 H8 H9 H10 H11 H12 H13 H14 H15 H16].
  split; [..|done].
  - by rewrite <- H1; apply set_sccs_length.
  - by apply set_sccs_index.
  - intros v. simpl. rewrite set_sccs_num, H3, <- pop_in_stack. set_solver.
  - simpl. rewrite Hstack in H4.
    replace ((pre ++ x :: post) ++ m_tarjanSccNodeArray s)
      with (C ++ (post ++ m_tarjanSccNodeArray s)) in H4 by (by rewrite <- !app_assoc).
    rewrite Permutation_app_comm in H4. by rewrite <- app_assoc in H4.
  - intros v k. simpl. rewrite set_sccs_num. apply H5.
  - apply (SSorted_impl (λ a b, nm (t_nodes s) b < nm (t_nodes s) a));
      [intros a b _ _; by rewrite !Hnm|]. simpl. rewrite Hstack in H6.
    apply SSorted_app_r in H6. by apply StronglySorted_inv in H6 as [H6 _].
  - apply (SSorted_impl (λ a b, nm (t_nodes s) b < nm (t_nodes s) a));
      [intros a b _ _; by rewrite !Hnm|]. rewrite pop_gray in H7.
    by apply StronglySorted_inv in H7 as [H7 _].
  - intros g Hg. by apply pop_gray_post in Hg as [Hg _].
  - intros f' Hf'. apply H9. rewrite Hd. by right.
  - intros v w Hcn%popped_consumed. simpl. rewrite set_sccs_num. by eapply H10.
  - simpl. intros z Hz. destruct (H11 z (popped_stack _ Hz)) as (g & Hg & Hgz & Hr).
    exists g. rewrite !set_sccs_nm. split_and!; [|done|done].
    rewrite pop_gray in Hg. apply elem_of_cons in Hg as [->|Hg]; [|done].
    apply pop_before in Hz. lia.
  - intros g z Hg Hz. rewrite !Hnm. apply H12; [by apply Hgs|by apply popped_stack].
  - intros z Hz. destruct (H13 z (Hgs _ Hz)) as (y & Hy & Hl & Hle & Hr). exists y.
    rewrite !Hnm. simpl. rewrite set_sccs_low. split_and!; [|done|done|done].
    apply pop_in_stack in Hy as [Hy%pop_after|]; [|done].
    apply pop_gray_post in Hz. lia.
  - intros g z w Hg Hz. rewrite !Hnm. intros Hgz Hseg Hcn%popped_consumed Hw.
    simpl. rewrite set_sccs_low. apply (H14 g z w); auto using popped_stack.
    intros g' Hg' Hlt. rewrite pop_gray in Hg'. apply elem_of_cons in Hg' as [->|Hg'].
    + by apply pop_before.
    + specialize (Hseg g' Hg'). rewrite !Hnm in Hseg. by apply Hseg.
  - simpl. intros v Hv. rewrite set_sccs_scc_other by set_solver. apply H15. set_solver.
Qed.
End pop.

(** *** One iteration of the search *)

Lemma sum_list_ext (F F' : nat → nat) (l : list nat) :
  (∀ v, v ∈ l → F v = F' v) → sum_list_with F l = sum_list_with F' l.
Proof.
  induction l as [|a l IH]; intros Heq; simpl; [done|].
  rewrite IH, (Heq a) by set_solver. done.
Qed.

Lemma sum_list_drop (F F' : nat → nat) (l : list nat) i :
  NoDup l → i ∈ l → F' i = 0 → (∀ v, v ≠ i → F' v = F v) →
  sum_list_with F l = F i + sum_list_with F' l.
Proof.
  intros Hnd Hin H0 Heq. induction l as [|a l IH]; [by apply not_elem_of_nil in Hin|].
  apply NoDup_cons in Hnd as [Ha Hnd]. simpl. apply elem_of_cons in Hin as [->|Hin].
  - rewrite H0. f_equal. simpl. apply sum_list_ext. intros v Hv.
    symmetry. apply Heq. by intros ->.
  - rewrite IH, (Heq a) by (done || by intros ->). lia.
Qed.

Section step.
Hypothesis Hcsr : csr_ok edges base n.

Lemma bs_lookup v : v ≤ n → base !! v = Some (bs v).
Proof.
  intros Hv. unfold bs. destruct (lookup_lt_is_Some_2 base v) as [b Hb].
  { rewrite (csr_length _ _ _ Hcsr). lia. }
  by rewrite Hb.
Qed.

Lemma bs_mono v : v < n → bs v ≤ bs (S v) ≤ length edges.
Proof.
  intros Hv. pose proof (csr_mono _ _ _ Hcsr v (bs v) (bs (S v)) Hv) as H.
  rewrite !bs_lookup in H by lia. by apply H.
Qed.

Lemma visit_eq s d' i :
  i < n → visit base (set_frames d' s) i = Some (visited s d' i).
Proof. intros Hi. unfold visit. rewrite !bs_lookup by lia. done. Qed.

Lemma visited_measure s comps d' i :
  tarjan_inv s comps → i < n → num (t_nodes s) i = None →
  measure (visited s d' i) = measure (set_frames d' s).
Proof.
  intros Hi Hin Hnew. unfold measure. simpl.
  rewrite (sum_list_drop (unvisited_cost (t_nodes s))
             (unvisited_cost (t_nodes (visited s d' i))) (seq 0 n) i).
  - unfold unvisited_cost at 2. rewrite Hnew. simpl. lia.
  - apply NoDup_seq.
  - apply elem_of_seq. lia.
  - unfold unvisited_cost. by rewrite (visit_num s comps d' i Hi Hin), decide_True.
  - intros v Hv. unfold unvisited_cost. by rewrite (visit_num s comps d' i Hi Hin), decide_False.
Qed.

Lemma measure_set_low s l x :
  measure (set_nodes (alter (with_low l) x (t_nodes s)) s) = measure s.
Proof.
  unfold measure. simpl. f_equal. apply sum_list_ext. intros v _.
  unfold unvisited_cost. by rewrite num_with_low.
Qed.

Lemma measure_advance s f rest :
  m_tarjanDfsStack s = f :: rest → m_edgeIdx f < m_edgeEndIdx f →
  measure (set_frames (advanced f :: rest) s) < measure s.
Proof. intros Hd Hlt. unfold measure. rewrite Hd. simpl. lia. Qed.

Lemma measure_drop s f rest ns st sn sb c :
  m_tarjanDfsStack s = f :: rest → (∀ v, num ns v = num (t_nodes s) v) →
  measure (mkTarjan ns st rest sn sb c) < measure s.
Proof.
  intros Hd Hn. unfold measure. rewrite Hd. simpl.
  rewrite (sum_list_ext (unvisited_cost ns) (unvisited_cost (t_nodes s)) (seq 0 n)); [lia|].
  intros v _. unfold unvisited_cost. by rewrite Hn.
Qed.

(** What an iteration guarantees. *)
Definition step_ok (s : tarjan_state) (r : option tarjan_state) : Prop :=
  ∃ s' comps', r = Some s' ∧ tarjan_inv s' comps' ∧ measure s' < measure s ∧
    ∀ v, is_Some (num (t_nodes s) v) → is_Some (num (t_nodes s') v).

Lemma node_lookup s comps v :
  tarjan_inv s comps → v < n → ∃ nd, t_nodes s !! v = Some nd ∧ m_nodeIndex nd = v ∧
    m_tarjanIdx nd = num (t_nodes s) v ∧ m_tarjanLowlinkIdx nd = low (t_nodes s) v ∧
    m_tarjanSccIdx nd = scc (t_nodes s) v.
Proof.
  intros Hi Hv. destruct (lookup_lt_is_Some_2 (t_nodes s) v) as [nd Hnd].
  { by rewrite (ti_length _ _ Hi). }
  exists nd. unfold num, low, scc. rewrite Hnd. split_and!; [done| |done..].
  by eapply ti_index.
Qed.

Lemma on_stack s comps v :
  tarjan_inv s comps → is_Some (num (t_nodes s) v) → scc (t_nodes s) v = None →
  v ∈ m_tarjanStack s.
Proof.
  intros Hi Hv Hs. apply (ti_visited _ _ Hi) in Hv as [|Hv]; [done|].
  pose proof (ti_comps _ _ Hi) as [Hn _ Hc _ _]. rewrite Hn in Hv.
  apply concat_elem in Hv as (k & c & Hk & Hv). by rewrite (Hc _ _ _ Hk Hv) in Hs.
Qed.

Lemma edge_step_ok s comps f rest :
  tarjan_inv s comps → m_tarjanDfsStack s = f :: rest → m_edgeIdx f < m_edgeEndIdx f →
  step_ok s (edge_step edges base s f rest).
Proof.
  intros Hi Hd Hlt.
  destruct (ti_frames _ _ Hi f ltac:(rewrite Hd; left)) as (Hfn & Hfb & Hfe).
  pose proof (bs_mono _ Hfn) as Hbs.
  destruct (lookup_lt_is_Some_2 edges (m_edgeIdx f)) as [ed Hed]; [lia|].
  pose proof (csr_dst _ _ _ Hcsr _ _ Hed) as Hw. set (w := m_dstIdx ed) in *.
  assert (Hsucc : succ (m_nodeIdx f) w).
  { split; [done|]. apply (edge_in_mono _ (S (m_edgeIdx f))); [lia|].
    apply edge_in_last; [lia|done]. }
  pose proof (gray_top _ _ _ Hd) as Hxg.
  destruct (node_lookup _ _ w Hi Hw) as (dn & Hdn & Hdi & Hdnum & _ & Hdscc).
  destruct (node_lookup _ _ _ Hi Hfn) as (nd & Hnd & _ & _ & Hndl & _).
  unfold edge_step. rewrite Hed. simpl. fold w. rewrite Hdn. simpl. rewrite Hdnum, Hdscc.
  destruct (num (t_nodes s) w) as [kw|] eqn:Hkw.
  - destruct (scc (t_nodes s) w) as [kc|] eqn:Hkc.
    + eexists _, comps. split; [reflexivity|]. split; [|split; [by apply measure_advance|done]].
      eapply inv_advance; eauto. fold w. intros Hst.
      rewrite (ti_unset _ _ Hi) in Hkc; [done|].
      pose proof (ti_nodup _ _ Hi) as (_ & Hnd' & _)%NoDup_app. by apply Hnd'.
    + rewrite Hnd. simpl. rewrite Hndl.
      assert (Hws : w ∈ m_tarjanStack s) by (eapply on_stack; eauto).
      destruct (ti_low _ _ Hi _ Hxg) as (y & Hy & Hl & Hle & Hr). rewrite Hl. simpl.
      set (s1 := set_nodes (alter (with_low (Some (nm (t_nodes s) y `min` kw))) (m_nodeIdx f) (t_nodes s)) s).
      assert (Hkw' : kw = nm (t_nodes s) w) by (unfold nm; by rewrite Hkw).
      assert (Hi1 : tarjan_inv s1 comps).
      { destruct (Nat.min_spec (nm (t_nodes s) y) kw) as [[? Hm]|[? Hm]]; unfold s1; rewrite Hm.
        - eapply (inv_set_low s comps _ y); eauto. intros l Hl'. rewrite Hl in Hl'. simplify_eq. lia.
        - eapply (inv_set_low s comps _ w); eauto; [by apply rtc_once|].
          intros l Hl'. rewrite Hl in Hl'. simplify_eq. lia. }
      exists (set_frames (advanced f :: rest) s1), comps. split; [reflexivity|].
      split; [|split].
      * eapply inv_advance; eauto.
        -- fold w. simpl. rewrite num_with_low. eauto.
        -- fold w. intros _. simpl. rewrite nm_with_low, low_alter, decide_True, Hnd by done. simpl.
           eexists. split; [done|]. lia.
      * rewrite <- (measure_set_low s (Some (nm (t_nodes s) y `min` kw)) (m_nodeIdx f)).
        by apply measure_advance.
      * intros v. simpl. by rewrite num_with_low.
  - pose proof (visit_eq s (advanced f :: rest) w Hw) as Hv. unfold set_frames, advanced in Hv.
    rewrite Hv. eexists _, comps. split; [reflexivity|]. split; [|split].
    + apply inv_visit; try done.
      * by eapply gray_advanced.
      * intros f' Hf'. apply elem_of_cons in Hf' as [->|Hf']; [simpl; lia|].
        apply (ti_frames _ _ Hi). rewrite Hd. by right.
      * intros v z Hc. destruct (consumed_advanced _ _ _ _ _ _ Hd Hed Hc) as [|[_ ->]]; auto.
      * by apply bs_mono.
      * intros g Hg. eapply reach_step; [|exact Hsucc].
        apply (ti_fwd _ _ Hi); [done|by apply (ti_gray _ _ Hi)|].
        destruct (gray_below_top _ _ _ _ _ Hi Hd Hg) as [->|]; lia.
    + rewrite (visited_measure _ comps) by done. by apply measure_advance.
    + intros v Hv'. rewrite (visit_num s comps) by done. by case_decide.
Qed.

Lemma gray_parent s comps f p rest :
  tarjan_inv s comps → m_tarjanDfsStack s = f :: p :: rest →
  m_nodeIdx p ∈ gray s ∧ nm (t_nodes s) (m_nodeIdx p) < nm (t_nodes s) (m_nodeIdx f).
Proof.
  intros Hi Hd. split; [unfold gray; rewrite Hd; right; left|].
  pose proof (ti_gray_sorted _ _ Hi) as Hs. unfold gray in Hs. rewrite Hd in Hs.
  apply StronglySorted_inv in Hs as [_ Hs]. simpl in Hs. by inversion Hs.
Qed.

(** Leaving the root of a component. *)
Lemma leave_root_ok s comps f rest :
  tarjan_inv s comps → m_tarjanDfsStack s = f :: rest → m_edgeIdx f = m_edgeEndIdx f →
  low (t_nodes s) (m_nodeIdx f) = Some (nm (t_nodes s) (m_nodeIdx f)) →
  step_ok s (leave_step s f rest).
Proof.
  intros Hi Hd Hend Hlow. pose proof (gray_top _ _ _ Hd) as Hxg.
  pose proof (ti_gray _ _ Hi _ Hxg) as Hxs.
  destruct (node_lookup _ _ _ Hi (gray_lt _ _ _ Hi Hxg)) as (nd & Hnd & Hix & Hnum & Hl & _).
  pose proof (ti_nodup _ _ Hi) as (Hnds & _ & _)%NoDup_app.
  apply list_elem_of_split in Hxs as (pre & post & Hst).
  assert (Hpre : m_nodeIdx f ∉ pre).
  { rewrite Hst in Hnds. apply NoDup_app in Hnds as (_ & Hn & _). intros Hc.
    apply (Hn _ Hc). left. }
  pose proof (inv_popped _ _ _ _ _ _ Hi Hd Hend Hlow Hst) as Hi'.
  unfold leave_step. rewrite Hnd. simpl. unfold scc_step.
  rewrite Hl, Hlow, Hnum, (stack_visited _ _ _ Hi), decide_True by (done || by apply (ti_gray _ _ Hi)).
  rewrite Hst, Hix, pop_scc_spec by done. simpl.
  destruct (ti_comps _ _ Hi) as [_ Hb _ _ _]. rewrite Hb, length_starts.
  assert (Hm : ∀ ns, (∀ v, num ns v = num (t_nodes s) v) →
     measure (set_nodes ns (popped s comps f rest pre post)) < measure s).
  { intros ns Hns. by apply (measure_drop s f rest). }
  destruct rest as [|p rest].
  - eexists _, _. split; [reflexivity|]. rewrite <- Hb. split; [exact Hi'|]. split.
    + apply (Hm _ (set_sccs_num _ _ _)).
    + intros v. simpl. by rewrite set_sccs_num.
  - assert (Hqg : m_nodeIdx p ∈ gray (popped s comps f (p :: rest) pre post)) by left.
    destruct (ti_low _ _ Hi' _ Hqg) as (y & Hy & Hly & Hle & Hr).
    pose proof (gray_lt _ _ _ Hi' Hqg) as Hqn.
    destruct (node_lookup _ _ _ Hi' Hqn) as (qd & Hqd & _ & _ & Hql & _).
    simpl in Hqd. rewrite Hqd. simpl. rewrite Hql, Hly. simpl.
    destruct (gray_parent _ _ _ _ _ Hi Hd) as [_ Hlt].
    assert (Hmin : nm (t_nodes (popped s comps f (p :: rest) pre post)) y
        `min` nm (t_nodes s) (m_nodeIdx f) =
        nm (t_nodes (popped s comps f (p :: rest) pre post)) y).
    { simpl in Hle |- *. rewrite !set_sccs_nm in *. lia. }
    simpl in Hmin. rewrite Hmin. eexists _, _. split; [reflexivity|]. rewrite <- Hb.
    split; [|split].
    + eapply (inv_set_low _ _ _ y) in Hi'; [exact Hi'|done..|].
      intros l Hl'. rewrite Hly in Hl'. simplify_eq. done.
    + apply (Hm (alter (with_low _) _ _)). intros v. by rewrite num_with_low, set_sccs_num.
    + intros v. simpl. by rewrite num_with_low, set_sccs_num.
Qed.

(** Leaving a node that reaches an earlier node of the stack. *)
Lemma leave_inner_ok s comps f rest l :
  tarjan_inv s comps → m_tarjanDfsStack s = f :: rest → m_edgeIdx f = m_edgeEndIdx f →
  low (t_nodes s) (m_nodeIdx f) = Some l → l < nm (t_nodes s) (m_nodeIdx f) →
  step_ok s (leave_step s f rest).
Proof.
  intros Hi Hd Hend Hlow Hlt. pose proof (gray_top _ _ _ Hd) as Hxg.
  destruct (ti_low _ _ Hi _ Hxg) as (y & Hy & Hly & Hle & Hr).
  assert (l = nm (t_nodes s) y) as -> by congruence.
  destruct (node_lookup _ _ _ Hi (gray_lt _ _ _ Hi Hxg)) as (nd & Hnd & Hix & Hnum & Hl & _).
  unfold leave_step. rewrite Hnd. simpl. unfold scc_step.
  rewrite Hl, Hly, Hnum, (stack_visited _ _ _ Hi) by (by apply (ti_gray _ _ Hi)).
  rewrite decide_False by (intros [= ?]; lia). simpl.
  destruct rest as [|p rest].
  { exfalso. destruct (ti_back _ _ Hi y Hy) as (g & Hg & Hgy & _).
    unfold gray in Hg. rewrite Hd in Hg. apply list_elem_of_singleton in Hg as ->. lia. }
  destruct (gray_parent _ _ _ _ _ Hi Hd) as [Hqg Hqx].
  destruct (ti_low _ _ Hi _ Hqg) as (z & Hz & Hlz & Hlez & Hrz).
  destruct (node_lookup _ _ _ Hi (gray_lt _ _ _ Hi Hqg)) as (qd & Hqd & _ & _ & Hql & _).
  rewrite Hqd. simpl. rewrite Hql, Hlz. simpl.
  set (k := nm (t_nodes s) z `min` nm (t_nodes s) y).
  set (s1 := set_nodes (alter (with_low (Some k)) (m_nodeIdx p) (t_nodes s)) s).
  assert (Hi1 : tarjan_inv s1 comps).
  { unfold s1, k. destruct (Nat.min_spec (nm (t_nodes s) z) (nm (t_nodes s) y)) as [[? ->]|[? ->]].
    - eapply (inv_set_low s comps _ z); eauto. intros l' Hl'. rewrite Hlz in Hl'. simplify_eq. lia.
    - eapply (inv_set_low s comps _ y); eauto.
      + etrans; [|exact Hr]. apply (ti_fwd _ _ Hi); [done|by apply (ti_gray _ _ Hi)|lia].
      + intros l' Hl'. rewrite Hlz in Hl'. simplify_eq. lia. }
  exists (set_frames (p :: rest) s1), comps. split; [reflexivity|]. split; [|split].
  - eapply (inv_pop_frame s1 comps f p rest (nm (t_nodes s) y) k); try done.
    + simpl. rewrite low_alter, decide_False; [done|]. intros Heq. rewrite Heq in Hqx. lia.
    + simpl. by rewrite nm_with_low.
    + simpl. rewrite low_alter, decide_True, Hqd by done. done.
    + unfold k. lia.
  - apply (measure_drop s f); [done|]. intros v. apply num_with_low.
  - intros v. simpl. by rewrite num_with_low.
Qed.

Lemma dfs_step_ok s comps f rest :
  tarjan_inv s comps → m_tarjanDfsStack s = f :: rest →
  step_ok s (dfs_step edges base s f rest).
Proof.
  intros Hi Hd. unfold dfs_step.
  destruct (Nat.ltb_spec (m_edgeIdx f) (m_edgeEndIdx f)); [by eapply edge_step_ok|].
  destruct (ti_frames _ _ Hi f ltac:(rewrite Hd; left)) as (_ & Hfb & _).
  assert (m_edgeIdx f = m_edgeEndIdx f) by lia.
  pose proof (gray_top _ _ _ Hd) as Hxg.
  destruct (ti_low _ _ Hi _ Hxg) as (y & Hy & Hly & Hle & Hr).
  destruct (decide (nm (t_nodes s) y = nm (t_nodes s) (m_nodeIdx f))) as [Heq|Hne].
  - eapply leave_root_ok; [done..|]. by rewrite Hly, Heq.
  - eapply leave_inner_ok; [done..|]. lia.
Qed.

(** *** The whole search *)

Lemma dfs_run_ok fuel s comps :
  tarjan_inv s comps → measure s ≤ fuel →
  ∃ s' comps', dfs_run edges base fuel s = Some s' ∧ tarjan_inv s' comps' ∧
    m_tarjanDfsStack s' = [] ∧ measure s' ≤ measure s ∧
    ∀ v, is_Some (num (t_nodes s) v) → is_Some (num (t_nodes s') v).
Proof.
  revert s comps. induction fuel as [|fuel IH]; intros s comps Hi Hm; simpl.
  - destruct (m_tarjanDfsStack s) as [|f rest] eqn:Hd; [by exists s, comps|].
    unfold measure in Hm. rewrite Hd in Hm. simpl in Hm. lia.
  - destruct (m_tarjanDfsStack s) as [|f rest] eqn:Hd; [by exists s, comps|].
    destruct (dfs_step_ok _ _ _ _ Hi Hd) as (s1 & comps1 & -> & Hi1 & Hlt & Hmono). simpl.
    destruct (IH s1 comps1 Hi1) as (s' & comps' & -> & Hi' & Hd' & Hle & Hmono'); [lia|].
    exists s', comps'. split_and!; [done..|lia|]. intros v Hv. by apply Hmono', Hmono.
Qed.

Lemma seed_run_ok fuel i count s comps :
  tarjan_inv s comps → m_tarjanDfsStack s = [] → i + count ≤ n → measure s ≤ fuel →
  ∃ s' comps', seed_run edges base fuel i count s = Some s' ∧ tarjan_inv s' comps' ∧
    m_tarjanDfsStack s' = [] ∧
    ∀ v, is_Some (num (t_nodes s) v) ∨ i ≤ v < i + count → is_Some (num (t_nodes s') v).
Proof.
  revert i s comps. induction count as [|count IH]; intros i s comps Hi Hd Hn Hm; simpl.
  { exists s, comps. split_and!; [done..|]. intros v [|]; [done|lia]. }
  destruct (node_lookup _ _ i Hi) as (nd & Hnd & _ & Hnum & _); [lia|].
  rewrite Hnd. simpl. rewrite Hnum. destruct (num (t_nodes s) i) as [k|] eqn:Hk.
  - destruct (IH (S i) s comps) as (s' & comps' & -> & ? & ? & Hv); [done|done|lia|done|].
    exists s', comps'. split_and!; [done..|]. intros v [Hs|Hr]; [by apply Hv; left|].
    destruct (decide (v = i)) as [->|]; apply Hv; [left; by rewrite Hk|right; lia].
  - pose proof (visit_eq s [] i ltac:(lia)) as Hv. unfold set_frames in Hv. rewrite <- Hd in Hv at 1.
    destruct s as [ns st fs sn sb c]. simpl in *. rewrite Hv. simpl. subst fs.
    set (s := mkTarjan ns st [] sn sb c) in *.
    assert (Hi1 : tarjan_inv (visited s [] i) comps).
    { apply inv_visit; try done; try lia.
      - set_solver.
      - intros v w Hc. by left.
      - apply bs_mono. lia.
      - intros g Hg. by apply not_elem_of_nil in Hg. }
    destruct (dfs_run_ok fuel _ _ Hi1) as (s1 & comps1 & -> & Hi2 & Hd2 & Hle & Hmono); simpl.
    { rewrite (visited_measure _ comps) by (done || lia). done. }
    rewrite (visited_measure _ comps) in Hle by (done || lia).
    change (measure (set_frames [] s)) with (measure s) in Hle.
    destruct (IH (S i) s1 comps1) as (s' & comps' & -> & ? & ? & Hvis); [done|done|lia|lia|].
    exists s', comps'. split_and!; [done..|]. intros v Hor. apply Hvis.
    destruct (decide (v = i)) as [->|Hne].
    + left. apply Hmono. rewrite (visit_num s comps) by (done || lia). by rewrite decide_True.
    + destruct Hor as [Hs|Hr]; [left|right; lia]. apply Hmono.
      rewrite (visit_num s comps) by (done || lia). by rewrite decide_False.
Qed.
End step.

(** *** Nodes keep their boxes *)

Lemma boxes_alter f i ns :
  (∀ x, m_box (f x) = m_box x) → m_box <$> alter f i ns = m_box <$> (ns : list DestructGraphNode).
Proof.
  intros Hf. apply list_eq. intros v. rewrite !list_lookup_fmap.
  destruct (decide (i = v)) as [->|Hne].
  - rewrite list_lookup_alter_eq. destruct (ns !! v); simpl; [|done]. by rewrite Hf.
  - by rewrite list_lookup_alter_ne.
Qed.

Lemma pop_scc_boxes st ns sn k r st' ns' sn' :
  pop_scc st ns sn k r = Some (st', ns', sn') → m_box <$> ns' = m_box <$> ns.
Proof.
  revert ns sn. induction st as [|j st IH]; intros ns sn; simpl; [done|]. case_decide.
  - intros [= <- <- <-]. by apply boxes_alter.
  - intros H'%IH. rewrite H'. by apply boxes_alter.
Qed.

Lemma visit_boxes s i s' :
  visit base s i = Some s' → m_box <$> t_nodes s' = m_box <$> t_nodes s.
Proof. unfold visit. intros H. opt_inv. simpl. by apply boxes_alter. Qed.

Lemma dfs_step_boxes s f rest s' :
  dfs_step edges base s f rest = Some s' → m_box <$> t_nodes s' = m_box <$> t_nodes s.
Proof.
  unfold dfs_step, edge_step, leave_step, scc_step. case_match.
  - intros H'. opt_inv. simpl in *. case_match; [case_match|].
    + by simplify_eq.
    + opt_inv. simpl. by apply boxes_alter.
    + by apply visit_boxes in H'.
  - intros H'. opt_inv.
    assert (Hb : ∀ s1, (if decide (m_tarjanLowlinkIdx x = m_tarjanIdx x) then
       '(stack, nodes, sccNodes) ← pop_scc (m_tarjanStack s) (t_nodes s) (m_tarjanSccNodeArray s)
          (length (m_tarjanSccBaseArray s)) (m_nodeIndex x);
       Some (mkTarjan nodes stack (m_tarjanDfsStack s) sccNodes
         (m_tarjanSccBaseArray s ++ [length (m_tarjanSccNodeArray s)]) (dfsCounter s))
       else Some s) = Some s1 → m_box <$> t_nodes s1 = m_box <$> t_nodes s).
    { intros s1. case_decide; [|by intros [= ->]]. intros Hp0.
      apply bind_Some in Hp0 as ([[st ns] sn] & Hp & [= <-]). by eapply pop_scc_boxes. }
    specialize (Hb _ ltac:(eassumption)). simpl in *. case_match.
    + by simplify_eq.
    + opt_inv. simpl. rewrite boxes_alter by done. done.
Qed.

Lemma dfs_run_boxes fuel s s' :
  dfs_run edges base fuel s = Some s' → m_box <$> t_nodes s' = m_box <$> t_nodes s.
Proof.
  revert s. induction fuel as [|fuel IH]; intros s; simpl; case_match.
  - by intros [= ->].
  - done.
  - by intros [= ->].
  - intros H'. apply bind_Some in H' as (s1 & Hs1 & Hs2). rewrite (IH _ Hs2).
    by eapply dfs_step_boxes.
Qed.

Lemma seed_run_boxes fuel i count s s' :
  seed_run edges base fuel i count s = Some s' → m_box <$> t_nodes s' = m_box <$> t_nodes s.
Proof.
  revert i s. induction count as [|count IH]; intros i s; simpl; [by intros [= ->]|].
  intros H'. apply bind_Some in H' as (nd & _ & H'). case_match; [by eapply IH|].
  apply bind_Some in H' as (s1 & Hs1 & H'). apply bind_Some in H' as (s2 & Hs2 & H').
  rewrite (IH _ _ H'), (dfs_run_boxes _ _ _ Hs2). by eapply visit_boxes.
Qed.

End graph.
