(* ===== verification/DestructEmit.v ===== *)
(** * The emitted destruct order

    The end-to-end statements on [DestructGraph::tarjan] and
    [DestructGraph::emit]: termination within the size of the graph, correctness
    of the components, and the order in which objects are queued for
    destruction. *)

From stdpp Require Import sorting relations.
From S2P Require Import Prelude Box DestructGraph DestructOrder.

(** A graph as [build] leaves it: fresh nodes, the edges sorted by source. *)
Record graph_ready (g : DestructGraph) : Prop := {
  gr_csr : csr_ok (m_sortedEdgeArray g) (m_edgeBaseArray g) (length (m_nodeArray g));
  gr_fresh : ∀ i nd, m_nodeArray g !! i = Some nd → nd = newNode (m_box nd) i;
  gr_count : m_destructCount g ≤ length (m_nodeArray g)
}.

(** Reachability between the nodes of [g]. *)
Definition graph_reach (g : DestructGraph) : nat → nat → Prop :=
  reach (m_sortedEdgeArray g) (m_edgeBaseArray g) (length (m_nodeArray g)).

Local Abbreviation inv g :=
  (tarjan_inv (m_sortedEdgeArray g) (m_edgeBaseArray g) (length (m_nodeArray g))).

(** ** The search from the initial state *)

Definition init_state (g : DestructGraph) : tarjan_state :=
  mkTarjan (m_nodeArray g) [] [] [] [] 0.

Lemma init_fields g v :
  graph_ready g → num (m_nodeArray g) v = None ∧ scc (m_nodeArray g) v = None.
Proof.
  intros Hg. unfold num, scc. destruct (m_nodeArray g !! v) as [nd|] eqn:Hnd; [|done].
  rewrite (gr_fresh _ Hg _ _ Hnd). done.
Qed.

(** Nothing is an element of an empty list. *)
Ltac no_elem :=
  intros; unfold gray in *; simpl in *;
  repeat match goal with H : _ ∈ [] |- _ => by apply not_elem_of_nil in H end.

Lemma init_inv g : graph_ready g → inv g (init_state g) [].
Proof.
  intros Hg. assert (Hn : ∀ v, num (m_nodeArray g) v = None) by (intros; by apply init_fields).
  split; simpl; try done.
  - intros v nd Hnd. by rewrite (gr_fresh _ Hg _ _ Hnd).
  - intros v. rewrite Hn. split; [by intros [? ?]|]. intros [Hv|Hv]; by apply not_elem_of_nil in Hv.
  - constructor.
  - intros v k. by rewrite Hn.
  - constructor.
  - constructor.
  - no_elem.
  - intros v w [(f & Hf & _)|(_ & Hv & _)]; simpl in *; [by apply not_elem_of_nil in Hf|].
    rewrite Hn in Hv. by destruct Hv.
  - no_elem.
  - no_elem.
  - no_elem.
  - no_elem.
  - intros v _. by apply init_fields.
Qed.

(** The edges of the first [k] nodes end where those of node [k] start. *)
Lemma cost_bound g k :
  graph_ready g → k ≤ length (m_nodeArray g) →
  sum_list_with (unvisited_cost (m_edgeBaseArray g) (m_nodeArray g)) (seq 0 k)
    + bs (m_edgeBaseArray g) 0 = k + bs (m_edgeBaseArray g) k.
Proof.
  intros Hg. induction k as [|k IH]; intros Hk; [done|].
  rewrite seq_S, sum_list_with_app. simpl. unfold unvisited_cost at 2.
  destruct (init_fields g k Hg) as [-> _].
  pose proof (bs_mono _ _ _ (gr_csr _ Hg) k ltac:(lia)).
  specialize (IH ltac:(lia)). lia.
Qed.

Lemma init_measure g :
  graph_ready g →
  measure (m_edgeBaseArray g) (length (m_nodeArray g)) (init_state g)
    ≤ length (m_nodeArray g) + length (m_sortedEdgeArray g).
Proof.
  intros Hg. unfold measure. simpl. rewrite Nat.add_0_r.
  pose proof (cost_bound g (length (m_nodeArray g)) Hg ltac:(lia)) as Hc.
  destruct (length (m_nodeArray g)) as [|k] eqn:Hl; [simpl; lia|].
  pose proof (bs_mono _ _ _ (gr_csr _ Hg) k ltac:(lia)). lia.
Qed.

(** What the search has computed when it returns. *)
Record tarjan_result (g : DestructGraph) (s : tarjan_state) (comps : list (list nat)) : Prop := {
  tr_nodes : m_tarjanSccNodeArray s = concat comps;
  tr_bases : m_tarjanSccBaseArray s = starts 0 comps ++ [length (concat comps)];
  tr_nodup : NoDup (concat comps);
  tr_cover : ∀ i, i < m_destructCount g → i ∈ concat comps;
  tr_strong : ∀ k c v w, comps !! k = Some c → v ∈ c → w ∈ c → graph_reach g v w;
  tr_order : ∀ i j c c' v w, comps !! i = Some c → comps !! j = Some c' → v ∈ c → w ∈ c' →
             graph_reach g v w → j ≤ i;
  tr_boxes : m_box <$> t_nodes s = m_box <$> m_nodeArray g
}.

Lemma comps_unique (comps : list (list nat)) i j c c' v :
  NoDup (concat comps) → comps !! i = Some c → comps !! j = Some c' → v ∈ c → v ∈ c' → i = j.
Proof.
  revert i j. induction comps as [|c0 comps IH]; intros i j Hnd Hi Hj Hv Hv'; [done|].
  simpl in Hnd. apply NoDup_app in Hnd as (_ & Hd & Hnd).
  destruct i as [|i], j as [|j]; simpl in *; simplify_eq; [done| | |f_equal; by eapply IH].
  - exfalso. apply (Hd v Hv). apply concat_elem. eauto.
  - exfalso. apply (Hd v Hv'). apply concat_elem. eauto.
Qed.

(** Nodes a component reaches are in the component or in an earlier one. *)
Lemma comps_reach g s comps i c v w :
  comps_ok (m_sortedEdgeArray g) (m_edgeBaseArray g) (length (m_nodeArray g)) s comps →
  comps !! i = Some c → v ∈ c → graph_reach g v w →
  ∃ j c', j ≤ i ∧ comps !! j = Some c' ∧ w ∈ c'.
Proof.
  intros Hc Hi Hv Hr.
  eapply (reach_closed _ _ _ (λ z, ∃ j c', j ≤ i ∧ comps !! j = Some c' ∧ z ∈ c'));
    [|by exists i, c|exact Hr].
  intros a b (j & c' & Hj & Hjc & Ha) Hs.
  destruct (co_closed _ _ _ _ _ Hc _ _ _ _ Hjc Ha Hs) as (j' & c'' & ? & ? & ?).
  exists j', c''. split; [lia|done].
Qed.

Lemma tarjan_ok fuel g :
  graph_ready g → length (m_nodeArray g) + length (m_sortedEdgeArray g) ≤ fuel →
  ∃ s comps, tarjan fuel g = Some s ∧ tarjan_result g s comps.
Proof.
  intros Hg Hf. pose proof (init_measure _ Hg). pose proof (gr_count _ Hg).
  destruct (seed_run_ok _ _ _ (gr_csr _ Hg) fuel 0 (m_destructCount g) _ _ (init_inv _ Hg))
    as (s & comps & Hr & Hi & Hd & Hv); [done|lia|lia|].
  unfold tarjan. fold (init_state g). rewrite Hr. simpl. eexists _, comps. split; [reflexivity|].
  pose proof (ti_comps _ _ _ _ _ Hi) as Hc. pose proof (co_nodes _ _ _ _ _ Hc) as Hn.
  assert (Hst : m_tarjanStack s = []).
  { destruct (m_tarjanStack s) as [|x st] eqn:Hst; [done|]. exfalso.
    destruct (ti_back _ _ _ _ _ Hi x) as (y & Hy & _); [rewrite Hst; left|].
    unfold gray in Hy. rewrite Hd in Hy. by apply not_elem_of_nil in Hy. }
  pose proof (ti_nodup _ _ _ _ _ Hi) as Hnd. rewrite Hst, Hn in Hnd. simpl in Hnd.
  split; simpl; try done.
  - by rewrite (co_bases _ _ _ _ _ Hc), Hn.
  - intros i Hlt. rewrite <- Hn.
    destruct (proj1 (ti_visited _ _ _ _ _ Hi i)) as [Hx|]; [apply Hv; right; lia| |done].
    rewrite Hst in Hx. by apply not_elem_of_nil in Hx.
  - apply (co_strong _ _ _ _ _ Hc).
  - intros i j c c' v w Hic Hjc Hvc Hwc Hrch.
    destruct (comps_reach _ _ _ _ _ _ _ Hc Hic Hvc Hrch) as (j' & c'' & Hj' & Hjc' & Hw).
    by rewrite (comps_unique _ _ _ _ _ _ Hnd Hjc Hjc' Hwc Hw).
  - by rewrite (seed_run_boxes _ _ _ _ _ _ _ Hr).
Qed.

(** ** The emission loop *)

(** The destructible nodes of a component in the order they are emitted in. *)
Definition order (dc : nat) (c : list nat) : list nat := sort_desc (filter (λ k, k < dc) c).

(** The in-place compaction keeps the candidates, in their order, at the front
    of the component's range and leaves what precedes the range alone. *)
Lemma compact_spec dc (A J rest suf : list nat) :
  ∃ J', compact dc (A ++ J ++ rest ++ suf) (length A) (length A + length J) (length rest)
        = Some (A ++ filter (λ k, k < dc) rest ++ J', length A + length (filter (λ k, k < dc) rest)).
Proof.
  revert A J. induction rest as [|k rest IH]; intros A J; simpl.
  { exists (J ++ suf). by rewrite Nat.add_0_r. }
  assert (Hk : (A ++ J ++ k :: rest ++ suf) !! (length A + length J) = Some k).
  { rewrite lookup_app_r by lia. rewrite lookup_app_r by lia.
    by replace (length A + length J - length A - length J) with 0 by lia. }
  rewrite Hk. simpl. destruct (k <? dc) eqn:Hlt; to_prop.
  - rewrite filter_cons_True by done.
    assert (Hi : ∃ J0, length J0 = length J ∧ <[length A := k]> (A ++ J ++ k :: rest ++ suf)
                        = (A ++ [k]) ++ J0 ++ rest ++ suf).
    { rewrite insert_app_r_alt by lia. rewrite Nat.sub_diag. destruct J as [|x J]; simpl.
      - exists []. by rewrite <- app_assoc.
      - exists (J ++ [k]). split; [rewrite length_app; simpl; lia|]. by rewrite <- !app_assoc. }
    destruct Hi as (J0 & HJ0 & ->).
    destruct (IH (A ++ [k]) J0) as (J' & HJ'). exists J'.
    rewrite length_app in HJ'. simpl in HJ'. rewrite HJ0 in HJ'.
    replace (S (length A)) with (length A + 1) by lia.
    replace (S (length A + length J)) with (length A + 1 + length J) by lia.
    rewrite HJ'. rewrite <- app_assoc. simpl. do 2 f_equal. lia.
  - rewrite filter_cons_False by lia.
    destruct (IH A (J ++ [k])) as (J' & HJ'). exists J'.
    rewrite length_app in HJ'. simpl in HJ'. rewrite <- !app_assoc in HJ'. simpl in HJ'.
    by replace (S (length A + length J)) with (length A + (length J + 1)) by lia.
Qed.

Section emission.
  Context (nodes : list DestructGraphNode) (dc : nat).
  Context (Hdc : dc ≤ length nodes).

(** The interface pointer emitted for a node. *)
Definition iface_at (k : nat) : loc :=
  match nodes !! k with Some nd => iface_of (m_box nd) | None => 0%N end.

Lemma emit_nodes_ok (ks : list nat) :
  Forall (λ k, k < dc) ks → emit_nodes nodes ks = Some (iface_at <$> ks).
Proof using Hdc.
  unfold emit_nodes. induction 1 as [|k ks Hk _ IH]; [done|]. simpl.
  destruct (lookup_lt_is_Some_2 nodes k) as [nd Hnd]; [lia|].
  rewrite Hnd. simpl. rewrite IH. simpl. unfold iface_at. by rewrite Hnd.
Qed.

Lemma order_perm c : order dc c ≡ₚ filter (λ k, k < dc) c.
Proof. apply merge_sort_Permutation. Qed.

Lemma order_lt c : Forall (λ k, k < dc) (order dc c).
Proof. rewrite order_perm. apply Forall_forall. intros k Hk. by apply list_elem_of_filter in Hk as [? _]. Qed.

Lemma emit_scc_ok (pre c suf : list nat) :
  ∃ suf', emit_scc nodes dc (pre ++ c ++ suf) (length pre) (length pre + length c)
          = Some (pre ++ suf', iface_at <$> order dc c).
Proof using Hdc.
  unfold emit_scc. destruct (compact_spec dc pre [] c suf) as (J' & HJ').
  simpl in HJ'. rewrite Nat.add_0_r in HJ'.
  replace (length pre + length c - length pre) with (length c) by lia.
  rewrite HJ'. simpl.
  replace (length pre + length (filter (λ k, k < dc) c) - length pre)
    with (length (filter (λ k, k < dc) c)) by lia.
  pose proof (order_lt c) as Hlt. unfold order in Hlt |- *.
  destruct (filter (λ k, k < dc) c) as [|k [|k' F]] eqn:HF; simpl length; cbv beta iota.
  - by exists ([] ++ J').
  - rewrite lookup_app_r by lia. rewrite Nat.sub_diag. simpl.
    change (sort_desc [k]) with [k] in *.
    pose proof (emit_nodes_ok [k] Hlt) as He. unfold emit_nodes in He. simpl in He. unfold emit_nodes.
    simpl. rewrite He. simpl. by eexists.
  - rewrite drop_app_length.
    rewrite (take_app_length' (k :: k' :: F) J' (S (S (length F)))) by done.
    rewrite (emit_nodes_ok _ Hlt). simpl. rewrite take_app_length. by eexists.
Qed.

Lemma emit_from_ok (bases : list nat) (comps : list (list nat)) i suf :
  i ≤ length comps →
  (∀ j, j ≤ i → bases !! j = Some (length (concat (take j comps)))) →
  emit_from nodes dc bases i (concat (take i comps) ++ suf)
  = Some (iface_at <$> concat (order dc <$> reverse (take i comps))).
Proof using Hdc.
  revert suf. induction i as [|i IH]; intros suf Hi Hb; [done|]. simpl.
  rewrite (Hb i), (Hb (S i)) by lia. simpl.
  destruct (lookup_lt_is_Some_2 comps i) as [c Hc]; [lia|].
  rewrite (take_S_r _ _ _ Hc), concat_app, length_app. simpl. rewrite app_nil_r, <- app_assoc.
  destruct (emit_scc_ok (concat (take i comps)) c suf) as (suf' & ->). simpl.
  rewrite IH by (intros; try apply Hb; lia). simpl.
  by rewrite reverse_app, fmap_app, concat_app, fmap_app; simpl; rewrite app_nil_r.
Qed.

End emission.

Lemma starts_lookup (comps : list (list nat)) k j :
  j < length comps → starts k comps !! j = Some (k + length (concat (take j comps))).
Proof.
  revert k j. induction comps as [|c comps IH]; intros k [|j] Hj; simpl in *; [lia|lia| |].
  - f_equal. lia.
  - rewrite IH by lia. rewrite length_app. f_equal. lia.
Qed.

Lemma bases_lookup (comps : list (list nat)) j :
  j ≤ length comps →
  (starts 0 comps ++ [length (concat comps)]) !! j = Some (length (concat (take j comps))).
Proof.
  intros Hj. destruct (decide (j = length comps)) as [->|].
  - rewrite lookup_app_r by (rewrite length_starts; lia). rewrite length_starts, Nat.sub_diag.
    by rewrite take_ge by lia.
  - rewrite lookup_app_l by (rewrite length_starts; lia). by rewrite starts_lookup by lia.
Qed.

(** ** The order *)

(** [b] must not be destroyed before [a]: it is reached from [a], and either
    does not reach back or, in a loop, is the older of the two. *)
Definition destroy_first (R : nat → nat → Prop) (a b : nat) : Prop := R a b ∧ (¬ R b a ∨ b < a).

Lemma order_elem dc c k : k ∈ order dc c ↔ k < dc ∧ k ∈ c.
Proof. by rewrite order_perm, list_elem_of_filter. Qed.

Lemma order_desc dc c : StronglySorted (λ a b, b ≤ a) (order dc c).
Proof.
  assert (Transitive desc) by (unfold desc; intros x y z; lia).
  assert (Total desc) by (unfold desc; intros x y; lia).
  apply (StronglySorted_merge_sort desc).
Qed.

Lemma emitted_perm dc (comps : list (list nat)) :
  concat (order dc <$> reverse comps) ≡ₚ filter (λ k, k < dc) (concat comps).
Proof.
  induction comps as [|c comps IH]; [done|].
  rewrite reverse_cons, fmap_app, concat_app, IH. simpl.
  rewrite app_nil_r, filter_app, order_perm. apply Permutation_app_comm.
Qed.

Lemma emitted_sorted g s comps dc i :
  tarjan_result g s comps → i ≤ length comps →
  StronglySorted (λ a b, ¬ destroy_first (graph_reach g) b a)
                 (concat (order dc <$> reverse (take i comps))).
Proof.
  intros Ht. induction i as [|i IH]; intros Hi; [constructor|].
  destruct (lookup_lt_is_Some_2 comps i) as [c Hc]; [lia|].
  rewrite (take_S_r _ _ _ Hc), reverse_snoc. simpl. apply StronglySorted_app_2.
  - intros a b Ha Hb [Hba Hor]. apply order_elem in Ha as [_ Ha].
    apply concat_elem in Hb as (k & l & Hl & Hb).
    apply list_elem_of_lookup_2, list_elem_of_fmap in Hl as (c' & -> & Hc').
    apply order_elem in Hb as [_ Hb].
    apply elem_of_reverse, elem_of_take in Hc' as (j & Hj & Hlt).
    pose proof (tr_order _ _ _ Ht _ _ _ _ _ _ Hj Hc Hb Ha Hba). lia.
  - eapply (SSorted_impl (λ a b, b ≤ a)); [|apply order_desc].
    intros a b [_ Ha]%order_elem [_ Hb]%order_elem Hle [_ [Hn|?]]; [|simpl in Hle; lia].
    apply Hn. by apply (tr_strong _ _ _ Ht _ _ _ _ Hc).
  - apply IH. lia.
Qed.

Lemma emit_ok g s comps arr :
  graph_ready g → tarjan_result g s comps →
  ∃ ks, emit g s arr = Some (arr ++ (iface_at (m_nodeArray g) <$> ks)) ∧
        ks ≡ₚ seq 0 (m_destructCount g) ∧
        StronglySorted (λ a b, ¬ destroy_first (graph_reach g) b a) ks.
Proof.
  intros Hg Ht. pose proof (gr_count _ Hg) as Hcnt. pose proof (tr_boxes _ _ _ Ht) as Hbx.
  assert (Hlen : length (t_nodes s) = length (m_nodeArray g)).
  { apply (f_equal length) in Hbx. by rewrite !length_fmap in Hbx. }
  set (dc := m_destructCount g) in *. exists (concat (order dc <$> reverse comps)).
  assert (Hp : concat (order dc <$> reverse comps) ≡ₚ seq 0 dc).
  { rewrite emitted_perm. apply NoDup_Permutation.
    - apply NoDup_filter, (tr_nodup _ _ _ Ht).
    - apply NoDup_seq.
    - intros k. rewrite list_elem_of_filter, elem_of_seq. split; [lia|].
      intros Hk. split; [lia|]. apply (tr_cover _ _ _ Ht). lia. }
  split; [|split; [done|]].
  - unfold emit. rewrite (tr_nodes _ _ _ Ht), (tr_bases _ _ _ Ht), length_app, length_starts. simpl.
    replace (length comps + 1 - 1) with (length comps) by lia.
    pose proof (emit_from_ok (t_nodes s) dc ltac:(lia) (starts 0 comps ++ [length (concat comps)])
                  comps (length comps) []) as He.
    rewrite take_ge, app_nil_r in He by lia. fold dc.
    rewrite He by (try (intros; apply bases_lookup); lia). simpl.
    assert (Hl : length (concat (order dc <$> reverse comps)) = dc) by (rewrite Hp; apply length_seq).
    rewrite length_fmap, Hl, Nat.leb_refl, Nat.sub_diag. simpl. rewrite app_nil_r.
    do 2 f_equal. apply list_fmap_ext. intros _ k _. unfold iface_at.
    assert (Hk : m_box <$> t_nodes s !! k = m_box <$> m_nodeArray g !! k)
      by (rewrite <- !list_lookup_fmap; by rewrite Hbx).
    destruct (t_nodes s !! k), (m_nodeArray g !! k); simpl in Hk; congruence.
  - pose proof (emitted_sorted g s comps dc (length comps) Ht ltac:(lia)) as Hs.
    by rewrite take_ge in Hs by lia.
Qed.
