(* ===== verification/DestructBuild.v ===== *)
(** * The destruct graph from candidates to the destruct queue

    The nodes and edges that marking adds to the graph, the counting sort that
    indexes the edges, and the order in which the candidates of a collection are
    finally queued. *)

From stdpp Require Import sorting relations.
From S2P Require Import Prelude Box DestructGraph DestructOrder DestructEmit.

(** The [addEdge(box)] calls of one marking pass, each with the index of the
    node [m_currentNode] is at. *)
Fixpoint addEdges (calls : list (nat * loc)) (boxes : gmap loc Box) (g : DestructGraph)
    : option (gmap loc Box * DestructGraph) :=
  match calls with
  | [] => Some (boxes, g)
  | (parent, box) :: calls =>
    '(_, boxes, g) ← addEdge boxes g parent box; addEdges calls boxes g
  end.

Definition indexed (b : Box) : bool :=
  test_flag BoxFlag_Index (m_flags b) || test_flag BoxFlag_Map (m_flags b).

(** How a box names its node. *)
Definition names_node (g : DestructGraph) (l : loc) (b : Box) (i : nat) : Prop :=
  if (N.of_nat i <? BoxIndexLimit)%N
  then test_flag BoxFlag_Index (m_flags b) = true ∧ m_index b = N.of_nat i
  else test_flag BoxFlag_Index (m_flags b) = false ∧ test_flag BoxFlag_Map (m_flags b) = true ∧
       m_nodeMap g !! l = Some i.

Record graph_wf (boxes : gmap loc Box) (g : DestructGraph) : Prop := {
  gw_fresh : ∀ i nd, m_nodeArray g !! i = Some nd → nd = newNode (m_box nd) i;
  gw_named : ∀ i nd, m_nodeArray g !! i = Some nd →
             ∃ b, boxes !! m_box nd = Some b ∧ names_node g (m_box nd) b i;
  gw_only : ∀ l b, boxes !! l = Some b → indexed b = true →
            ∃ i nd, m_nodeArray g !! i = Some nd ∧ m_box nd = l;
  gw_edges : ∀ e, e ∈ m_unsortedEdgeArray g →
             m_srcIdx e < length (m_nodeArray g) ∧ m_dstIdx e < length (m_nodeArray g)
}.

(** ** Nodes *)

(** The node appended for a box that has none. *)
Definition append_node (boxes : gmap loc Box) (g : DestructGraph) (box : loc)
    : gmap loc Box * DestructGraph :=
  index_box boxes box (length (m_nodeArray g))
    (with_nodes (m_nodeArray g ++ [newNode box (length (m_nodeArray g))]) g).

Lemma index_box_graph boxes box i g :
  m_nodeArray (index_box boxes box i g).2 = m_nodeArray g ∧
  m_unsortedEdgeArray (index_box boxes box i g).2 = m_unsortedEdgeArray g.
Proof. unfold index_box. by destruct (N.of_nat i <? BoxIndexLimit)%N. Qed.

Lemma index_box_other boxes box i g l :
  l ≠ box → (index_box boxes box i g).1 !! l = boxes !! l ∧
            m_nodeMap (index_box boxes box i g).2 !! l = m_nodeMap g !! l.
Proof.
  intros Hl. unfold index_box. destruct (N.of_nat i <? BoxIndexLimit)%N; simpl.
  - by rewrite lookup_alter_ne.
  - by rewrite lookup_alter_ne, lookup_insert_ne.
Qed.

Lemma index_box_named boxes box i g b :
  boxes !! box = Some b → test_flag BoxFlag_Index (m_flags b) = false →
  ∃ b', (index_box boxes box i g).1 !! box = Some b' ∧
        names_node (index_box boxes box i g).2 box b' i.
Proof.
  intros Hb Hf. unfold index_box, names_node.
  destruct (N.of_nat i <? BoxIndexLimit)%N eqn:Hi; to_prop; simpl;
    rewrite lookup_alter_eq, Hb; simpl; eexists; (split; [reflexivity|]); simpl.
  - split; [|by rewrite N.mod_small].
    rewrite test_set_flag. apply orb_true_iff. by right.
  - rewrite lookup_insert_eq, !test_set_flag, Hf. split; [done|]. split; [|done].
    apply orb_true_iff. by right.
Qed.

Lemma named_indexed g l b i : names_node g l b i → indexed b = true.
Proof.
  unfold names_node, indexed. destruct (N.of_nat i <? BoxIndexLimit)%N.
  - by intros [-> _].
  - intros (_ & -> & _). apply orb_true_r.
Qed.

Lemma node_unindexed boxes g l b i nd :
  graph_wf boxes g → boxes !! l = Some b → indexed b = false →
  m_nodeArray g !! i = Some nd → m_box nd ≠ l.
Proof.
  intros Hw Hb Hf Hnd Heq. destruct (gw_named _ _ Hw _ _ Hnd) as (b' & Hb' & Hn).
  rewrite Heq, Hb in Hb'. apply named_indexed in Hn. congruence.
Qed.

Lemma append_node_wf boxes g box b :
  graph_wf boxes g → boxes !! box = Some b → indexed b = false →
  graph_wf (append_node boxes g box).1 (append_node boxes g box).2.
Proof.
  intros Hw Hb Hf. unfold append_node. set (n := length (m_nodeArray g)).
  set (g1 := with_nodes _ g). destruct (index_box_graph boxes box n g1) as [Hns Hes].
  assert (Hi : test_flag BoxFlag_Index (m_flags b) = false)
    by (unfold indexed in Hf; by apply orb_false_iff in Hf as [? _]).
  split.
  - rewrite Hns. simpl. intros i nd [Hnd|[Hge Hnd]]%lookup_app_Some.
    + by apply (gw_fresh _ _ Hw).
    + apply list_lookup_singleton_Some in Hnd as [Hz <-]. simpl. f_equal. lia.
  - rewrite Hns. simpl. intros i nd [Hnd|[Hge Hnd]]%lookup_app_Some.
    + pose proof (node_unindexed _ _ _ _ _ _ Hw Hb Hf Hnd) as Hne.
      destruct (gw_named _ _ Hw _ _ Hnd) as (b' & Hb' & Hnm).
      destruct (index_box_other boxes box n g1 _ Hne) as [Hl Hm].
      exists b'. split; [by rewrite Hl|]. unfold names_node in *. by rewrite Hm.
    + apply list_lookup_singleton_Some in Hnd as [Hz <-]. simpl.
      replace i with n by lia. by eapply index_box_named.
  - rewrite Hns. simpl. intros l b' Hl Hx. destruct (decide (l = box)) as [->|Hne].
    + exists n, (newNode box n). split; [|done]. by apply list_lookup_middle.
    + rewrite (proj1 (index_box_other _ _ _ _ _ Hne)) in Hl.
      destruct (gw_only _ _ Hw _ _ Hl Hx) as (i & nd & Hnd & Hbx).
      exists i, nd. split; [|done]. apply lookup_app_Some. by left.
  - rewrite Hns, Hes. simpl. intros e He. rewrite length_app. simpl.
    apply (gw_edges _ _ Hw) in He. lia.
Qed.

(** [getNode] on a box: its node, appended if the box has none yet. *)
Lemma getNode_ok boxes g box b :
  graph_wf boxes g → boxes !! box = Some b →
  ∃ i boxes' g', getNode boxes g box = Some (i, boxes', g') ∧ graph_wf boxes' g' ∧
    m_box <$> m_nodeArray g' !! i = Some box ∧
    m_unsortedEdgeArray g' = m_unsortedEdgeArray g ∧ dom boxes' = dom boxes ∧
    (if indexed b then boxes' = boxes ∧ g' = g
     else m_nodeArray g' = m_nodeArray g ++ [newNode box (length (m_nodeArray g))]).
Proof.
  intros Hw Hb. unfold getNode. rewrite Hb. simpl. destruct (indexed b) eqn:Hx.
  - destruct (gw_only _ _ Hw _ _ Hb Hx) as (i & nd & Hnd & Hbx).
    destruct (gw_named _ _ Hw _ _ Hnd) as (b' & Hb' & Hnm). rewrite Hbx, Hb in Hb'.
    injection Hb' as <-. unfold names_node in Hnm.
    exists i, boxes, g. destruct (N.of_nat i <? BoxIndexLimit)%N.
    + destruct Hnm as [-> ->]. rewrite Nat2N.id, Hnd. simpl. by rewrite Hbx.
    + destruct Hnm as (-> & -> & Hm). rewrite Hbx in Hm. rewrite Hm. simpl. by rewrite Hnd; simpl; rewrite Hbx.
  - assert (Hfl := Hx). apply orb_false_iff in Hfl as [-> ->].
    pose proof (append_node_wf _ _ _ _ Hw Hb Hx) as Hw'. unfold append_node in Hw'.
    destruct (index_box_graph boxes box (length (m_nodeArray g))
                (with_nodes (m_nodeArray g ++ [newNode box (length (m_nodeArray g))]) g)) as [Hns Hes].
    assert (Hdom : dom (index_box boxes box (length (m_nodeArray g))
                (with_nodes (m_nodeArray g ++ [newNode box (length (m_nodeArray g))]) g)).1 = dom boxes).
    { unfold index_box. destruct (N.of_nat _ <? BoxIndexLimit)%N; simpl; apply dom_alter_L. }
    destruct (index_box _ _ _ _) as [boxes' g'] eqn:He. simpl in *.
    eexists _, _, _. split; [reflexivity|]. split; [done|].
    rewrite Hns. by rewrite list_lookup_middle.
Qed.

(** ** Edges *)

Lemma with_unsorted_wf boxes g es :
  graph_wf boxes g →
  (∀ e, e ∈ es → m_srcIdx e < length (m_nodeArray g) ∧ m_dstIdx e < length (m_nodeArray g)) →
  graph_wf boxes (with_unsorted es g).
Proof. intros [H1 H2 H3 H4] He. by split. Qed.

Lemma addEdge_ok boxes g parent box b :
  graph_wf boxes g → boxes !! box = Some b → parent < length (m_nodeArray g) →
  ∃ i boxes' g' ns, addEdge boxes g parent box = Some (i, boxes', g') ∧ graph_wf boxes' g' ∧
    m_nodeArray g' = m_nodeArray g ++ ns ∧ m_box <$> m_nodeArray g' !! i = Some box ∧
    dom boxes' = dom boxes ∧
    m_unsortedEdgeArray g' = m_unsortedEdgeArray g ++
                             (if decide (parent = i) then [] else [mkEdge parent i]).
Proof.
  intros Hw Hb Hp. unfold addEdge.
  destruct (getNode_ok _ _ _ _ Hw Hb) as (i & boxes' & g' & -> & Hw' & Hi & Hes & Hdom & Hns).
  assert (∃ ns, m_nodeArray g' = m_nodeArray g ++ ns) as [ns Hn].
  { destruct (indexed b); [exists []; destruct Hns as [_ ->]; by rewrite app_nil_r|by eexists]. }
  simpl. unfold addEdgeNodes. destruct (decide (parent = i)) as [->|Hne].
  { simpl. exists i, boxes', g', ns. by rewrite decide_True, app_nil_r. }
  destruct (lookup_lt_is_Some_2 (m_nodeArray g') parent) as [s Hs]; [rewrite Hn, length_app; lia|].
  destruct (m_nodeArray g' !! i) as [d|] eqn:Hd; [|done]. rewrite Hs. simpl.
  rewrite (gw_fresh _ _ Hw' _ _ Hs), (gw_fresh _ _ Hw' _ _ Hd), Hes. simpl.
  exists i. eexists _, _, ns. split; [reflexivity|]. simpl. rewrite Hd.
  rewrite decide_False by done. split; [|by repeat split]. apply with_unsorted_wf; [done|].
  apply lookup_lt_Some in Hs, Hd. intros e [He|He]%elem_of_app.
  - apply (gw_edges _ _ Hw'). by rewrite Hes.
  - apply list_elem_of_singleton in He as ->. by simpl.
Qed.

(** Calls that marking may make: from a node to an existing box. *)
Fixpoint calls_ok (calls : list (nat * loc)) (boxes : gmap loc Box) (g : DestructGraph) : Prop :=
  match calls with
  | [] => True
  | (parent, box) :: calls =>
    parent < length (m_nodeArray g) ∧ box ∈ dom boxes ∧
    ∀ i boxes' g', addEdge boxes g parent box = Some (i, boxes', g') → calls_ok calls boxes' g'
  end.

Lemma addEdges_ok calls boxes g :
  graph_wf boxes g → calls_ok calls boxes g →
  ∃ boxes' g' ns, addEdges calls boxes g = Some (boxes', g') ∧ graph_wf boxes' g' ∧
    m_nodeArray g' = m_nodeArray g ++ ns.
Proof.
  revert boxes g. induction calls as [|[parent box] calls IH]; intros boxes g Hw Hc; simpl.
  { exists boxes, g, []. by rewrite app_nil_r. }
  destruct Hc as (Hp & Hbx & Hc). apply elem_of_dom in Hbx as [b Hb].
  destruct (addEdge_ok _ _ _ _ _ Hw Hb Hp) as (i & boxes1 & g1 & ns & He & Hw1 & Hn1 & _).
  rewrite He. simpl. destruct (IH _ _ Hw1 (Hc _ _ _ He)) as (boxes' & g' & ns' & -> & Hw' & Hn').
  exists boxes', g', (ns ++ ns'). by rewrite Hn', Hn1, app_assoc.
Qed.

(** ** Candidates *)

Lemma build_nodes_ok ifaceBox ds boxes g :
  graph_wf boxes g → NoDup (ifaceBox <$> ds) →
  (∀ d, d ∈ ds → ∃ b, boxes !! ifaceBox d = Some b ∧ indexed b = false) →
  ∃ boxes' g', build_nodes ifaceBox ds boxes g = (boxes', g') ∧ graph_wf boxes' g' ∧
    m_box <$> m_nodeArray g' = (m_box <$> m_nodeArray g) ++ (ifaceBox <$> ds) ∧
    m_unsortedEdgeArray g' = m_unsortedEdgeArray g.
Proof.
  revert boxes g. induction ds as [|d ds IH]; intros boxes g Hw Hnd Hb.
  { exists boxes, g. by rewrite app_nil_r. }
  rewrite fmap_cons in *. simpl build_nodes. apply NoDup_cons in Hnd as [Hd Hnd].
  destruct (Hb d) as (b & Hl & Hx); [left|].
  pose proof (append_node_wf _ _ _ _ Hw Hl Hx) as Hw'. unfold append_node in Hw'.
  set (g1 := with_nodes _ g) in *.
  destruct (index_box_graph boxes (ifaceBox d) (length (m_nodeArray g)) g1) as [Hns Hes].
  pose proof (λ l, index_box_other boxes (ifaceBox d) (length (m_nodeArray g)) g1 l) as Ho.
  destruct (index_box _ _ _ _) as [boxes1 g2]. simpl in *.
  destruct (IH boxes1 g2 Hw' Hnd) as (boxes' & g' & -> & Hw2 & Hn & Hu).
  { intros d' Hd'. destruct (Hb d') as (b' & ? & ?); [by right|]. exists b'. split; [|done].
    destruct (Ho (ifaceBox d')) as [Heq _]; [|by rewrite Heq].
    intros Heq. apply Hd. rewrite <- Heq. by apply list_elem_of_fmap_2. }
  exists boxes', g'. split; [done|]. split; [done|].
  rewrite Hn, Hns, Hu, Hes, fmap_app, <- app_assoc. done.
Qed.

Lemma empty_wf boxes sorted bases count cur :
  (∀ l b, boxes !! l = Some b → indexed b = false) →
  graph_wf boxes (mkGraph [] ∅ [] sorted bases count cur).
Proof.
  intros Hb. split; simpl; try done.
  - intros l b Hl Hx. by rewrite (Hb _ _ Hl) in Hx.
  - intros e He. by apply not_elem_of_nil in He.
Qed.

(** The candidates of a collection are the first nodes, in order. *)
Lemma build_begin_ok ifaceBox ds boxes g :
  (∀ l b, boxes !! l = Some b → indexed b = false) → NoDup (ifaceBox <$> ds) →
  (∀ d, d ∈ ds → ifaceBox d ∈ dom boxes) →
  ∃ boxes' g', build_begin ifaceBox ds boxes g = (boxes', g') ∧ graph_wf boxes' g' ∧
    m_box <$> m_nodeArray g' = ifaceBox <$> ds ∧ m_unsortedEdgeArray g' = [].
Proof.
  intros Hb Hnd Hd. unfold build_begin.
  destruct (build_nodes_ok ifaceBox ds boxes _
              (empty_wf boxes (m_sortedEdgeArray g) (m_edgeBaseArray g) (m_destructCount g)
                 (m_currentNode g) Hb) Hnd) as (boxes' & g' & ? & ? & ? & ?).
  { intros d Hin. destruct (proj1 (elem_of_dom boxes (ifaceBox d)) (Hd _ Hin)) as [b Hl].
    exists b. split; [done|by eapply Hb]. }
  by exists boxes', g'.
Qed.

(** ** Sorting the edges *)

(** The contract of the library's counting sort. *)
Record countSort_laws (countSort : list Edge → nat → list Edge * list nat) : Prop := {
  cs_perm : ∀ es k, (countSort es k).1 ≡ₚ es;
  cs_length : ∀ es k, length (countSort es k).2 = S k;
  cs_base : ∀ es k v b, (∀ e, e ∈ es → m_srcIdx e ≤ k) → (countSort es k).2 !! v = Some b →
            b ≤ length es ∧
            ∀ i e, (countSort es k).1 !! i = Some e → (b ≤ i ↔ v ≤ m_srcIdx e)
}.

Definition edge_rel (es : list Edge) (v w : nat) : Prop :=
  ∃ e, e ∈ es ∧ m_srcIdx e = v ∧ m_dstIdx e = w.

Section sorted_edges.
  Context (countSort : list Edge → nat → list Edge * list nat) (Hcs : countSort_laws countSort).
  Context (boxes : gmap loc Box) (g : DestructGraph) (count : nat).
  Context (Hw : graph_wf boxes g) (Hpos : 0 < length (m_nodeArray g)).

Let es := m_unsortedEdgeArray g.
Let n := length (m_nodeArray g).
Let sorted := (countSort es (n - 1)).1.
Let base := (countSort es (n - 1)).2 ++ [length es].

Lemma build_finish_eq :
  build_finish countSort count g =
  mkGraph (m_nodeArray g) (m_nodeMap g) es sorted base count (m_currentNode g).
Proof.
  unfold build_finish, sorted, base, es, n. by destruct (countSort _ _).
Qed.

Lemma sorted_length : length sorted = length es.
Proof using Hcs. by apply Permutation_length, (cs_perm _ Hcs). Qed.

Lemma edge_src e : e ∈ es → m_srcIdx e ≤ n - 1.
Proof using Hw Hpos. intros He. apply (gw_edges _ _ Hw) in He. unfold n. lia. Qed.

(** The base of [v] separates the edges of the nodes below [v] from the rest. *)
Lemma base_split v b i e :
  base !! v = Some b → sorted !! i = Some e → b ≤ length es ∧ (b ≤ i ↔ v ≤ m_srcIdx e).
Proof using Hcs Hw Hpos.
  intros [Hb|[Hge Hb]]%lookup_app_Some He.
  - destruct (cs_base _ Hcs _ _ _ _ edge_src Hb) as [? Hi]. split; [done|by apply Hi].
  - apply list_lookup_singleton_Some in Hb as [Hz <-]. rewrite (cs_length _ Hcs) in Hz, Hge.
    split; [done|]. assert (e ∈ es) as Hin
      by (rewrite <- (cs_perm _ Hcs es (n - 1)); by eapply list_elem_of_lookup_2).
    apply edge_src in Hin. apply lookup_lt_Some in He. rewrite sorted_length in He. lia.
Qed.

Lemma base_le v b : base !! v = Some b → b ≤ length es.
Proof using Hcs Hw Hpos.
  intros [Hb|[Hge Hb]]%lookup_app_Some.
  - by apply (cs_base _ Hcs _ _ _ _ edge_src Hb).
  - by apply list_lookup_singleton_Some in Hb as [_ <-].
Qed.

Lemma base_length : length base = S n.
Proof using Hcs Hpos. unfold base. rewrite length_app, (cs_length _ Hcs). simpl. fold n in Hpos. lia. Qed.

Lemma sorted_csr : csr_ok sorted base n.
Proof using Hcs Hw Hpos.
  split; [apply base_length| |].
  - intros v b e Hv Hb He. rewrite sorted_length. split; [|by eapply base_le].
    destruct (decide (b ≤ e)) as [|Hlt]; [done|]. exfalso. pose proof (base_le _ _ Hb).
    destruct (lookup_lt_is_Some_2 sorted e) as [x Hx]; [rewrite sorted_length; lia|].
    pose proof (proj2 (base_split _ _ _ _ Hb Hx)). pose proof (proj2 (base_split _ _ _ _ He Hx)). lia.
  - intros i e He%list_elem_of_lookup_2. unfold sorted in He. rewrite (cs_perm _ Hcs) in He.
    by apply (gw_edges _ _ Hw).
Qed.

Lemma succ_edge v w : succ sorted base n v w ↔ edge_rel es v w.
Proof using Hcs Hw Hpos.
  assert (Hin : ∀ e, e ∈ es ↔ ∃ i, sorted !! i = Some e).
  { intros e. unfold sorted. rewrite <- list_elem_of_lookup. by rewrite (cs_perm _ Hcs). }
  unfold succ, edge_in, edge_rel, bs. split.
  - intros (Hv & i & e & [Hb He] & Hi & Hd).
    destruct (lookup_lt_is_Some_2 base v) as [b Hbv]; [rewrite base_length; lia|].
    destruct (lookup_lt_is_Some_2 base (S v)) as [b' Hbv']; [rewrite base_length; lia|].
    rewrite Hbv in Hb. rewrite Hbv' in He. simpl in *.
    pose proof (proj2 (base_split _ _ _ _ Hbv Hi)). pose proof (proj2 (base_split _ _ _ _ Hbv' Hi)).
    exists e. split; [apply Hin; eauto|]. split; [lia|done].
  - intros (e & He & Hs & Hd). pose proof (edge_src _ He) as Hle. fold n in Hpos.
    apply Hin in He as [i Hi].
    destruct (lookup_lt_is_Some_2 base v) as [b Hbv]; [rewrite base_length; lia|].
    destruct (lookup_lt_is_Some_2 base (S v)) as [b' Hbv']; [rewrite base_length; lia|].
    pose proof (proj2 (base_split _ _ _ _ Hbv Hi)). pose proof (proj2 (base_split _ _ _ _ Hbv' Hi)).
    split; [lia|]. exists i, e. rewrite Hbv, Hbv'. simpl. split; [lia|done].
Qed.

Lemma build_finish_ready :
  count ≤ n → graph_ready (build_finish countSort count g).
Proof using Hcs Hw Hpos.
  intros Hc. rewrite build_finish_eq. split; simpl; [apply sorted_csr|apply (gw_fresh _ _ Hw)|done].
Qed.

Lemma build_finish_reach v w :
  graph_reach (build_finish countSort count g) v w ↔ rtc (edge_rel es) v w.
Proof using Hcs Hw Hpos.
  rewrite build_finish_eq. unfold graph_reach, reach. simpl.
  split; apply rtc_subrel; intros a b; apply succ_edge.
Qed.

End sorted_edges.

(** A sort that meets the contract. *)
Definition by_src (a b : Edge) : Prop := m_srcIdx a ≤ m_srcIdx b.
#[export] Instance by_src_dec : RelDecision by_src := λ a b, decide (m_srcIdx a ≤ m_srcIdx b).

Definition countSortRef (es : list Edge) (maxKey : nat) : list Edge * list nat :=
  (merge_sort by_src es,
   (λ v, length (filter (λ e, m_srcIdx e < v) es)) <$> seq 0 (S maxKey)).

Lemma sorted_split v es i e :
  StronglySorted by_src es → es !! i = Some e →
  (length (filter (λ e, m_srcIdx e < v) es) ≤ i ↔ v ≤ m_srcIdx e).
Proof.
  intros Hs. revert i. induction Hs as [|x es Hs IH Hx]; intros i Hi; [done|].
  destruct (decide (m_srcIdx x < v)) as [Hlt|Hge].
  - rewrite filter_cons_True by done. destruct i as [|i]; simpl in *; simplify_eq; [lia|].
    rewrite <- (IH _ Hi). lia.
  - rewrite filter_cons_False by done.
    assert (Hall : ∀ y, y ∈ x :: es → v ≤ m_srcIdx y).
    { intros y [->|Hy]%elem_of_cons; [lia|]. rewrite Forall_forall in Hx.
      pose proof (Hx _ Hy) as Hxy. unfold by_src in Hxy. lia. }
    assert (filter (λ e, m_srcIdx e < v) es = []) as ->.
    { apply elem_of_nil_inv. intros y [Hy Hin]%list_elem_of_filter.
      specialize (Hall y (list_elem_of_further _ _ _ Hin)). lia. }
    apply list_elem_of_lookup_2, Hall in Hi. simpl. lia.
Qed.

Lemma countSortRef_laws : countSort_laws countSortRef.
Proof.
  assert (Ht : Transitive by_src) by (unfold by_src; intros x y z; lia).
  assert (Hto : Total by_src) by (unfold by_src; intros x y; lia).
  split; unfold countSortRef; cbn [fst snd].
  - intros es k. apply merge_sort_Permutation.
  - intros es k. by rewrite length_fmap, length_seq.
  - intros es k v b _ Hb. change (0 :: seq 1 k) with (seq 0 (S k)) in Hb.
    apply list_lookup_fmap_Some in Hb as (v' & -> & Hv). apply lookup_seq in Hv as [-> _]. simpl.
    split; [apply length_filter|]. intros i e He.
    rewrite <- (sorted_split v _ _ _ (StronglySorted_merge_sort by_src es) He).
    by rewrite (merge_sort_Permutation by_src es).
Qed.

(** ** The theorems *)

Lemma ready_of_build cs boxes g count :
  countSort_laws cs → graph_wf boxes g → 0 < length (m_nodeArray g) →
  count ≤ length (m_nodeArray g) → graph_ready (build_finish cs count g).
Proof. intros. by eapply build_finish_ready. Qed.

Lemma SSorted_before {A} (R : A → A → Prop) l i j a b :
  StronglySorted R l → l !! i = Some a → l !! j = Some b → i < j → R a b.
Proof.
  intros Hs. revert i j. induction Hs as [|x l Hs IH Hx]; intros i j Hi Hj Hlt; [done|].
  destruct j as [|j]; [lia|]. destruct i as [|i]; simpl in *.
  - simplify_eq. rewrite Forall_forall in Hx. apply Hx. by eapply list_elem_of_lookup_2.
  - eapply IH; eauto. lia.
Qed.

(** C9: [DestructGraph::tarjan] terminates within one iteration per node and
    edge, and computes the strongly connected components of the edges that
    marking recorded: every candidate is in exactly one component, two nodes
    share a component exactly when each reaches the other, and a component is
    listed after the components it reaches. *)
Theorem tarjan_correct cs boxes g count fuel :
  countSort_laws cs → graph_wf boxes g → 0 < length (m_nodeArray g) →
  count ≤ length (m_nodeArray g) →
  length (m_nodeArray g) + length (m_unsortedEdgeArray g) ≤ fuel →
  let R := rtc (edge_rel (m_unsortedEdgeArray g)) in
  ∃ s comps, tarjan fuel (build_finish cs count g) = Some s ∧
    m_tarjanSccNodeArray s = concat comps ∧ NoDup (concat comps) ∧
    m_tarjanSccBaseArray s = starts 0 comps ++ [length (concat comps)] ∧
    (∀ i, i < count → i ∈ concat comps) ∧
    (∀ i j c c' v w, comps !! i = Some c → comps !! j = Some c' → v ∈ c → w ∈ c' →
       (i = j ↔ R v w ∧ R w v) ∧ (R v w → j ≤ i)).
Proof.
  intros Hcs Hw Hpos Hc Hf R. pose proof (ready_of_build _ _ _ _ Hcs Hw Hpos Hc) as Hr.
  destruct (tarjan_ok fuel _ Hr) as (s & comps & Hs & Ht).
  { rewrite build_finish_eq. simpl. by rewrite (sorted_length _ Hcs). }
  pose proof (build_finish_reach _ Hcs _ _ count Hw Hpos) as HR.
  destruct Ht as [Hn Hb Hnd Hcov Hstr Hord _].
  exists s, comps. do 4 (split; [done|]). split.
  { intros i Hi. apply Hcov. rewrite build_finish_eq. done. }
  intros i j c c' v w Hi Hj Hv Hw'. unfold R. rewrite <- !HR. split; [split|].
  - intros <-. rewrite Hi in Hj. injection Hj as <-. split; by eapply Hstr.
  - intros [H1 H2]. pose proof (Hord _ _ _ _ _ _ Hi Hj Hv Hw' H1).
    pose proof (Hord _ _ _ _ _ _ Hj Hi Hw' Hv H2). lia.
  - by eapply Hord.
Qed.

(** C4: from candidates to queue: marking that adds edges through
    [addEdge], the sort, [tarjan] and [emit] append exactly the interfaces of
    the candidates to the destruct array, each once, such that an object comes
    before every other candidate reachable from it through the recorded edges,
    unless that one reaches back (a destruct loop), when the later-listed of
    the two comes first. *)
Theorem destruct_order cs ifaceBox ds boxes g calls fuel arr :
  countSort_laws cs → (∀ l b, boxes !! l = Some b → indexed b = false) →
  NoDup (ifaceBox <$> ds) → (∀ d, d ∈ ds → ifaceBox d ∈ dom boxes) → ds ≠ [] →
  let '(boxes1, g1) := build_begin ifaceBox ds boxes g in
  calls_ok calls boxes1 g1 →
  ∃ boxes2 g2, addEdges calls boxes1 g1 = Some (boxes2, g2) ∧
    (length (m_nodeArray g2) + length (m_unsortedEdgeArray g2) ≤ fuel →
     let g3 := build_finish cs (length ds) g2 in
     ∃ s ks, tarjan fuel g3 = Some s ∧ ks ≡ₚ seq 0 (length ds) ∧
       emit g3 s arr = Some (arr ++ ((λ k, iface_of (default 0%N (ifaceBox <$> ds !! k))) <$> ks)) ∧
       ∀ i j a b, ks !! i = Some a → ks !! j = Some b →
         destroy_first (rtc (edge_rel (m_unsortedEdgeArray g2))) a b → i < j).
Proof.
  intros Hcs Hb Hnd Hd Hne.
  destruct (build_begin_ok ifaceBox ds boxes g Hb Hnd Hd) as (boxes1 & g1 & -> & Hw1 & Hn1 & _).
  intros Hcalls. destruct (addEdges_ok _ _ _ Hw1 Hcalls) as (boxes2 & g2 & ns & Ha & Hw2 & Hn2).
  exists boxes2, g2. split; [done|]. intros Hf g3.
  assert (Hl1 : length (m_nodeArray g1) = length ds).
  { apply (f_equal length) in Hn1. by rewrite !length_fmap in Hn1. }
  assert (Hl : length ds ≤ length (m_nodeArray g2)) by (rewrite Hn2, length_app; lia).
  assert (Hpos : 0 < length (m_nodeArray g2)) by (destruct ds; simpl in *; [done|lia]).
  pose proof (ready_of_build _ _ _ _ Hcs Hw2 Hpos Hl) as Hr. fold g3 in Hr.
  destruct (tarjan_ok fuel g3 Hr) as (s & comps & Hs & Ht).
  { unfold g3. rewrite build_finish_eq. simpl. by rewrite (sorted_length _ Hcs). }
  destruct (emit_ok g3 s comps arr Hr Ht) as (ks & He & Hp & Hso).
  assert (Hg3 : m_destructCount g3 = length ds ∧ m_nodeArray g3 = m_nodeArray g2)
    by (unfold g3; rewrite build_finish_eq; done).
  destruct Hg3 as [Hcnt Hns]. rewrite Hcnt in Hp.
  exists s, ks. split; [done|]. split; [done|]. split.
  - rewrite He, Hns. do 2 f_equal. apply list_fmap_ext. intros i k Hk.
    apply list_elem_of_lookup_2 in Hk. rewrite Hp in Hk. apply elem_of_seq in Hk.
    unfold iface_at. rewrite Hn2, lookup_app_l by lia.
    assert (Hbk : m_box <$> m_nodeArray g1 !! k = ifaceBox <$> ds !! k)
      by (rewrite <- !list_lookup_fmap; by rewrite Hn1).
    rewrite <- Hbk. destruct (m_nodeArray g1 !! k) eqn:Hk'; [done|].
    apply lookup_ge_None in Hk'. lia.
  - intros i j a b Hi Hj [Hab Hor].
    pose proof (build_finish_reach _ Hcs _ _ (length ds) Hw2 Hpos) as HR. fold g3 in HR.
    assert (Hdf : destroy_first (graph_reach g3) a b).
    { split; [by apply HR|]. destruct Hor as [Hn|]; [left|by right]. by rewrite HR. }
    destruct (lt_eq_lt_dec i j) as [ [Hij| -> ] | Hlt]; [done| |].
    + rewrite Hi in Hj. injection Hj as <-. destruct Hor as [Hn|]; [by destruct Hn|lia].
    + exfalso. by apply (SSorted_before _ _ _ _ _ _ Hso Hj Hi Hlt).
Qed.

(** [addEdge] keeps the graph and the boxes in agreement: it returns the one
    node of the box, appending it only on first sight, keeps every node already
    there, and records exactly the edge from the parent unless it is a
    self-reference. *)
Theorem addEdge_wf boxes g parent box b :
  graph_wf boxes g → boxes !! box = Some b → parent < length (m_nodeArray g) →
  ∃ i boxes' g' ns, addEdge boxes g parent box = Some (i, boxes', g') ∧ graph_wf boxes' g' ∧
    m_nodeArray g' = m_nodeArray g ++ ns ∧ m_box <$> m_nodeArray g' !! i = Some box ∧
    dom boxes' = dom boxes ∧
    m_unsortedEdgeArray g' = m_unsortedEdgeArray g ++
                             (if decide (parent = i) then [] else [mkEdge parent i]).
Proof. apply addEdge_ok. Qed.

Lemma foldl_alter_lookup (f : Box → Box) (ns : list DestructGraphNode) (boxes : gmap loc Box) l :
  (∀ b, f (f b) = f b) →
  foldl (λ boxes n, alter f (m_box n) boxes) boxes ns !! l
  = (if decide (l ∈ m_box <$> ns) then f <$> boxes !! l else boxes !! l).
Proof.
  intros Hf. revert boxes. induction ns as [|n ns IH]; intros boxes.
  { simpl. by destruct (boxes !! l). }
  simpl foldl. rewrite IH, fmap_cons. destruct (decide (l = m_box n)) as [->|Hne].
  - rewrite lookup_alter_eq.
    destruct (decide (m_box n ∈ m_box n :: _)) as [_|Hn]; [|destruct Hn; left].
    case_decide; [|done]. destruct (boxes !! m_box n); simpl; [by rewrite Hf|done].
  - rewrite lookup_alter_ne by done.
    destruct (decide (l ∈ m_box <$> ns)) as [Hin|Hni], (decide (l ∈ m_box n :: _)) as [Hi|Hi];
      try done.
    + destruct Hi. by right.
    + by apply elem_of_cons in Hi as [?|?].
Qed.

Lemma clear_flag_idem f x : clear_flag f (clear_flag f x) = clear_flag f x.
Proof.
  unfold clear_flag. apply N.bits_inj. intros i. rewrite !N.ldiff_spec.
  by destruct (N.testbit x i), (N.testbit f i).
Qed.

Lemma cleanup_ok boxes g :
  graph_wf boxes g →
  let '(boxes', g') := cleanup boxes g in
  m_nodeArray g' = [] ∧ m_nodeMap g' = ∅ ∧ m_currentNode g' = None ∧
  (∀ l b, boxes' !! l = Some b → indexed b = false) ∧
  ∀ l b, boxes !! l = Some b →
    boxes' !! l = Some (if indexed b
                        then with_flags (clear_flag (N.lor BoxFlag_Index BoxFlag_Map)) b else b).
Proof.
  intros Hw. unfold cleanup. do 3 (split; [done|]).
  set (fl := clear_flag (N.lor BoxFlag_Index BoxFlag_Map)).
  assert (Hidem : ∀ b, with_flags fl (with_flags fl b) = with_flags fl b).
  { intros b. unfold with_flags. simpl. f_equal. apply clear_flag_idem. }
  assert (Hin : ∀ l b, boxes !! l = Some b →
                (l ∈ m_box <$> m_nodeArray g ↔ indexed b = true)).
  { intros l b Hb. rewrite list_elem_of_fmap. split.
    - intros (nd & -> & [i Hnd]%list_elem_of_lookup). destruct (gw_named _ _ Hw _ _ Hnd) as (b' & Hb' & Hn).
      rewrite Hb in Hb'. injection Hb' as <-. by eapply named_indexed.
    - intros Hx. destruct (gw_only _ _ Hw _ _ Hb Hx) as (i & nd & Hnd & <-).
      exists nd. split; [done|]. by eapply list_elem_of_lookup_2. }
  assert (Hl : ∀ l b, boxes !! l = Some b →
    foldl (λ boxes n, alter (with_flags fl) (m_box n) boxes) boxes (m_nodeArray g) !! l
    = Some (if indexed b then with_flags fl b else b)).
  { intros l b Hb. rewrite (foldl_alter_lookup _ _ _ _ Hidem), Hb. simpl.
    destruct (indexed b) eqn:Hx.
    - by rewrite decide_True by (by apply (Hin _ _ Hb)).
    - rewrite decide_False; [done|]. intros He%(Hin _ _ Hb). congruence. }
  split; [|exact Hl].
  intros l b' Hb'. destruct (boxes !! l) as [b|] eqn:Hb.
  - rewrite (Hl _ _ Hb) in Hb'. injection Hb' as <-. destruct (indexed b) eqn:Hx; [|done].
    unfold indexed. simpl. unfold fl. by rewrite !test_clear_flag_sub.
  - rewrite (foldl_alter_lookup _ _ _ _ Hidem), Hb in Hb'. by case_decide.
Qed.

(** [cleanup] leaves no trace of the graph: it empties the node array and the
    map, clears the index flags of exactly the boxes that have nodes, and no box
    of the heap is indexed any more, so that the next collection starts from the
    state [build] expects. *)
Theorem cleanup_restores boxes g :
  graph_wf boxes g →
  let '(boxes', g') := cleanup boxes g in
  m_nodeArray g' = [] ∧ m_nodeMap g' = ∅ ∧ m_currentNode g' = None ∧
  (∀ l b, boxes' !! l = Some b → indexed b = false) ∧
  ∀ l b, boxes !! l = Some b →
    boxes' !! l = Some (if indexed b
                        then with_flags (clear_flag (N.lor BoxFlag_Index BoxFlag_Map)) b else b).
Proof. apply cleanup_ok. Qed.

(** ** Witnesses

    Three candidates at 100, 200, 300 and another object at 400:
    100 -> 200 <-> 400, 200 -> 300. *)
Definition demo_boxes : gmap loc Box :=
  list_to_map ((λ l, (l, mkBox 1 BoxFlag_ClassMark 0 0)) <$> [100; 200; 300; 400]%N).
Definition demo_empty : DestructGraph := mkGraph [] ∅ [] [] [] 0 None.
Definition demo_ds : list loc := [216; 116; 316]%N.
Definition demo_calls : list (nat * loc) :=
  [(0, 400%N); (0, 300%N); (1, 200%N); (3, 200%N); (3, 400%N)].

Lemma demo_unindexed l b : demo_boxes !! l = Some b → indexed b = false.
Proof.
  intros Hb%elem_of_list_to_map_2. vm_compute in Hb.
  repeat (apply elem_of_cons in Hb as [Hb|Hb]; [injection Hb as -> ->; reflexivity|]).
  by apply not_elem_of_nil in Hb.
Qed.

Ltac demo_call :=
  split; [simpl; lia|]; split; [apply elem_of_dom; eexists; vm_compute; reflexivity|];
  let H := fresh in intros ? ? ? H; vm_compute in H; injection H as <- <- <-.

Lemma demo_calls_ok :
  let '(boxes1, g1) := build_begin box_of demo_ds demo_boxes demo_empty in
  calls_ok demo_calls boxes1 g1.
Proof. vm_compute build_begin. cbv beta iota zeta. unfold demo_calls. do 5 demo_call. exact I. Qed.

Lemma demo_built :
  let '(boxes1, g1) := build_begin box_of demo_ds demo_boxes demo_empty in graph_wf boxes1 g1.
Proof.
  destruct (build_begin_ok box_of demo_ds demo_boxes demo_empty demo_unindexed)
    as (b1 & g1 & -> & Hw & _); [| |done].
  - vm_compute. repeat (constructor; [set_solver|]). constructor.
  - intros d Hd. repeat (apply elem_of_cons in Hd as [->|Hd];
      [apply elem_of_dom; eexists; vm_compute; reflexivity|]). by apply not_elem_of_nil in Hd.
Qed.

Lemma demo_nodup : NoDup (box_of <$> demo_ds).
Proof. vm_compute. repeat (constructor; [set_solver|]). constructor. Qed.

Lemma demo_present d : d ∈ demo_ds → box_of d ∈ dom demo_boxes.
Proof.
  intros Hd. repeat (apply elem_of_cons in Hd as [->|Hd];
    [apply elem_of_dom; eexists; vm_compute; reflexivity|]). by apply not_elem_of_nil in Hd.
Qed.

(** The graph of the demonstration after marking. *)
Definition demo_marked : gmap loc Box * DestructGraph :=
  let '(boxes1, g1) := build_begin box_of demo_ds demo_boxes demo_empty in
  default (∅, demo_empty) (addEdges demo_calls boxes1 g1).

Lemma demo_marked_wf : graph_wf demo_marked.1 demo_marked.2.
Proof.
  unfold demo_marked. pose proof demo_built as Hw. pose proof demo_calls_ok as Hc.
  destruct (build_begin _ _ _ _) as [boxes1 g1].
  destruct (addEdges_ok _ _ _ Hw Hc) as (boxes2 & g2 & ns & -> & Hw2 & _). exact Hw2.
Qed.

Lemma destruct_order_witness :
  ∃ s ks, tarjan 20 (build_finish countSortRef 3 demo_marked.2) = Some s ∧ ks ≡ₚ seq 0 3 ∧
    emit (build_finish countSortRef 3 demo_marked.2) s [7%N]
    = Some ([7%N] ++ ((λ k, iface_of (default 0%N (box_of <$> demo_ds !! k))) <$> ks)).
Proof.
  unfold demo_marked. pose proof demo_calls_ok as Hc.
  pose proof (destruct_order countSortRef box_of demo_ds demo_boxes demo_empty demo_calls 20 [7%N]
                countSortRef_laws demo_unindexed demo_nodup demo_present ltac:(discriminate)) as H.
  destruct (build_begin _ _ _ _) as [boxes1 g1] eqn:Hb.
  destruct (H Hc) as (boxes2 & g2 & Ha & Hrest). clear H. rewrite Ha. simpl.
  destruct Hrest as (s & ks & Hs & Hp & He & _).
  - vm_compute in Hb. injection Hb as <- <-. vm_compute in Ha. injection Ha as <- <-.
    simpl. lia.
  - exists s, ks. split; [exact Hs|]. split; [exact Hp|exact He].
Defined.

Lemma tarjan_correct_witness :
  ∃ s comps, tarjan 20 (build_finish countSortRef 3 demo_marked.2) = Some s ∧
    m_tarjanSccNodeArray s = concat comps ∧ NoDup (concat comps).
Proof.
  destruct (tarjan_correct countSortRef demo_marked.1 demo_marked.2 3 20 countSortRef_laws
              demo_marked_wf) as (s & comps & Hs & Hn & Hd & _); [vm_compute; lia..|].
  exists s, comps. split; [exact Hs|]. split; [exact Hn|exact Hd].
Defined.

Lemma addEdge_wf_witness :
  ∃ i boxes' g', addEdge demo_marked.1 demo_marked.2 2 400%N = Some (i, boxes', g') ∧
    graph_wf boxes' g' ∧ m_box <$> m_nodeArray g' !! i = Some 400%N.
Proof.
  destruct (demo_marked.1 !! 400%N) as [b|] eqn:Hb; [|by vm_compute in Hb].
  destruct (addEdge_wf demo_marked.1 demo_marked.2 2 400%N b demo_marked_wf Hb)
    as (i & boxes' & g' & ns & He & Hw & _ & Hi & _); [vm_compute; lia|].
  exists i, boxes', g'. split; [exact He|]. split; [exact Hw|exact Hi].
Defined.

Lemma cleanup_restores_witness :
  m_nodeArray (cleanup demo_marked.1 demo_marked.2).2 = [] ∧
  ∀ l b, (cleanup demo_marked.1 demo_marked.2).1 !! l = Some b → indexed b = false.
Proof.
  pose proof (cleanup_restores _ _ demo_marked_wf) as H.
  destruct (cleanup _ _) as [boxes' g']. destruct H as (Hn & _ & _ & Hi & _).
  split; [exact Hn|exact Hi].
Defined.
