(* ===== verification/GcMark.v ===== *)
(** * The garbage collector: marking

    Models the marking half of [src/src/jnc_rt/jnc_rt_GcHeap.cpp] together with
    the [markGcRoots] methods of the types under
    [src/src/jnc_ct/jnc_ct_TypeMgr/].  The world is stopped while marking runs,
    so the contents of memory and the types are fixed parameters and the state
    is the box flags, the queue of roots and the destruct graph. *)

From S2P Require Import Prelude Box DestructGraph.

(** ** Types, as far as marking reads them *)

Record Slot := mkSlot { s_offset : N; s_type : loc }.

Inductive ClassTypeKind := ClassTypeKind_Normal | ClassTypeKind_FunctionClosure
  | ClassTypeKind_PropertyClosure.

(** The calls the [m_markOpaqueGcRootsFunc] of an opaque class makes. *)
Inductive OpaqueCall := Opaque_markClassPtr (iface : loc) | Opaque_markDataPtr (validator : loc).

Record ClassInfo := mkClass {
  m_classBaseTypeArray : list Slot;
  m_classFieldArray : list Slot;
  m_classGcRootBaseTypeArray : list Slot;
  m_classGcRootFieldArray : list Slot;
  m_classTypeKind : ClassTypeKind;
  m_thisArgField : option (nat * Slot);  (* with its position among the root fields *)
  m_destructor : bool;
  m_markOpaqueGcRoots : option (loc → list OpaqueCall)
}.

Inductive TypeKind :=
  | TypeKind_Variant
  | TypeKind_String
  | TypeKind_DataPtr (thin : bool) (targetType : loc)
  | TypeKind_ClassPtr (weak : bool) (weakPtrType : loc)
  | TypeKind_FunctionPtr (weak : bool)
  | TypeKind_PropertyPtr (weak : bool)
  | TypeKind_Array (elementType : loc) (elementCount : nat)
  | TypeKind_Struct (adapterOriginType : option loc) (gcRootBaseTypeArray gcRootFieldArray : list Slot)
  | TypeKind_Class (info : ClassInfo)
  | TypeKind_Other.

Record Type_ := mkType {
  t_kind : TypeKind;
  t_gcRoot : bool;       (* TypeFlag_GcRoot *)
  t_size : N;
  t_validator : bool     (* StdType_DataPtrValidator *)
}.

Definition class_info (t : Type_) : option ClassInfo :=
  match t_kind t with TypeKind_Class c => Some c | _ => None end.

Definition is_class (t : Type_) : bool := if class_info t then true else false.

(** [isClassType(type, kind)] *)
Definition isClassType (t : Type_) (k : ClassTypeKind) : bool :=
  match class_info t with
  | Some c =>
    match m_classTypeKind c, k with
    | ClassTypeKind_FunctionClosure, ClassTypeKind_FunctionClosure
    | ClassTypeKind_PropertyClosure, ClassTypeKind_PropertyClosure
    | ClassTypeKind_Normal, ClassTypeKind_Normal => true
    | _, _ => false
    end
  | None => false
  end.

(** ** State *)

Record Root := mkRoot { r_parent : option nat; r_p : loc; r_type : loc }.

Inductive State := State_Mark | State_BuildDestructGraph.

(** [m_markRoots] is the array [m_currentMarkRootArrayIdx] selects. *)
Record GcState := mkGc {
  m_boxes : gmap loc Box;
  m_markRoots : list Root;
  m_destructGraph : DestructGraph;
  m_state : State
}.

(** Computations on the state that may run into a failing assertion, a null
    pointer or an address without a box. *)
Definition M (A : Type) : Type := GcState → option (A * GcState).

#[global] Instance M_ret : MRet M := λ A x st, Some (x, st).
#[global] Instance M_bind : MBind M := λ A B f m st, '(x, st) ← m st; f x st.

Definition fail {A} : M A := λ _, None.
Definition lift {A} (o : option A) : M A := λ st, x ← o; Some (x, st).
Definition when (b : bool) (m : M unit) : M unit := if b then m else mret tt.

Fixpoint for_each {A} (l : list A) (f : A → M unit) : M unit :=
  match l with [] => mret tt | x :: l => _ ← f x; for_each l f end.

Definition get_box (box : loc) : M Box := λ st, b ← m_boxes st !! box; Some (b, st).

Definition with_boxes (bs : gmap loc Box) (st : GcState) : GcState :=
  mkGc bs (m_markRoots st) (m_destructGraph st) (m_state st).
Definition with_roots (rs : list Root) (st : GcState) : GcState :=
  mkGc (m_boxes st) rs (m_destructGraph st) (m_state st).
Definition with_graph (g : DestructGraph) (st : GcState) : GcState :=
  mkGc (m_boxes st) (m_markRoots st) g (m_state st).

(** [box->m_flags |= f] *)
Definition set_flags (f : N) (box : loc) : M unit := λ st,
  b ← m_boxes st !! box;
  Some (tt, with_boxes (<[box := with_flags (set_flag f) b]> (m_boxes st)) st).

Definition append_roots (rs : list Root) : M unit := λ st,
  Some (tt, with_roots (m_markRoots st ++ rs) st).

(** [m_destructGraph.addEdge(parent, box)] while the destruct graph is built, no
    node otherwise.  A null parent is a null pointer access. *)
Definition graph_edge (parent : option nat) (box : loc) : M (option nat) := λ st,
  match m_state st with
  | State_Mark => Some (None, st)
  | State_BuildDestructGraph =>
    p ← parent;
    '(node, boxes, g) ← DestructGraph.addEdge (m_boxes st) (m_destructGraph st) p box;
    Some (Some node, with_graph g (with_boxes boxes st))
  end.

Definition currentNode : M (option nat) := λ st, Some (m_currentNode (m_destructGraph st), st).

Definition setCurrentNode (n : option nat) : M unit := λ st,
  let g := m_destructGraph st in
  Some (tt, with_graph (mkGraph (m_nodeArray g) (m_nodeMap g) (m_unsortedEdgeArray g)
                          (m_sortedEdgeArray g) (m_edgeBaseArray g) (m_destructCount g) n) st).

Section mark.
  Context (mem : loc → loc) (types : gmap loc Type_).
  (** A bound on how deep types nest in types, by value. *)
  Context (depth : nat).

Definition sizeof_DataBox : N := 48.
Definition sizeof_DataPtr : N := 16.

(** [iface->m_box], [validator->m_validatorBox], [validator->m_targetBox],
    [ptr->m_validator], [ptr->m_closure] and [variant->m_type]. *)
Definition iface_box (iface : loc) : loc := mem (iface + 8)%N.
Definition validatorBox (v : loc) : loc := mem v.
Definition targetBox (v : loc) : loc := mem (v + 8)%N.
Definition ptr_validator (p : loc) : loc := mem (p + 8)%N.
Definition ptr_closure (p : loc) : loc := mem (p + 8)%N.
Definition variant_type (p : loc) : loc := mem (p + 56)%N.

Definition getDynamicArrayElementCount (box : loc) (size : N) : nat :=
  N.to_nat (sub64 (mem (box + 40)%N) (mem (box + 32)%N) / size).

(** ** Marking operations *)

Definition weakMark (box : loc) : M unit :=
  b ← get_box box;
  _ ← set_flags BoxFlag_WeakMark box;
  when (negb (m_rootOffset b =? 0)%N) (set_flags BoxFlag_WeakMark (box - m_rootOffset b)%N).

(** [addRoot] of a type with [TypeFlag_GcRoot]. *)
Definition pushRoot (parent : option nat) (p type : loc) : M unit :=
  t ← lift (types !! type);
  if t_gcRoot t then append_roots [mkRoot parent p type] else fail.

Definition addRootArray (parent : option nat) (p type : loc) (count : nat) : M unit :=
  t ← lift (types !! type);
  if is_class t || negb (t_gcRoot t) then fail
  else append_roots ((λ i, mkRoot parent (p + N.of_nat i * t_size t)%N type) <$> seq 0 count).

Definition markData (box : loc) : M unit :=
  _ ← weakMark box;
  cur ← currentNode;
  node ← graph_edge cur box;
  b ← get_box box;
  if test_flag BoxFlag_DataMark (m_flags b) then mret tt
  else
    _ ← set_flags BoxFlag_DataMark box;
    t ← lift (types !! m_type b);
    if negb (t_gcRoot t) || test_flag BoxFlag_Invalid (m_flags b) then mret tt
    else if is_class t then pushRoot node box (m_type b)
    else if negb (test_flag BoxFlag_DynamicArray (m_flags b)) then
      pushRoot node (box + sizeof_DataBox)%N (m_type b)
    else
      addRootArray node (box + sizeof_DataBox)%N (m_type b)
                   (getDynamicArrayElementCount box (t_size t)).

Definition markDataPtr (validator : loc) : M unit :=
  if (validator =? 0)%N then mret tt
  else
    _ ← weakMark (validatorBox validator);
    markData (targetBox validator).

(** [markClassFields]: base classes first, then the class fields. *)
Fixpoint markClassFields (fuel : nat) (parent : option nat) (type iface : loc) : M unit :=
  match fuel with
  | O => fail
  | S fuel =>
    t ← lift (types !! type);
    c ← lift (class_info t);
    _ ← for_each (m_classBaseTypeArray c) (λ s,
          markClassFields fuel parent (s_type s) (iface + s_offset s)%N);
    for_each (m_classFieldArray c) (λ s,
      let fieldBox := (iface + s_offset s)%N in
      fieldNode ← graph_edge parent fieldBox;
      b ← get_box fieldBox;
      if test_flag BoxFlag_ClassMark (m_flags b) then mret tt
      else
        _ ← set_flags (N.lor BoxFlag_ClassMark (N.lor BoxFlag_DataMark BoxFlag_WeakMark)) fieldBox;
        markClassFields fuel fieldNode (m_type b) (iface_of fieldBox))
  end.

Definition markClass (box : loc) : M unit :=
  cur ← currentNode;
  node ← graph_edge cur box;
  b ← get_box box;
  if test_flag BoxFlag_ClassMark (m_flags b) then mret tt
  else
    _ ← weakMark box;
    _ ← markClassFields depth node (m_type b) (iface_of box);
    _ ← set_flags (N.lor BoxFlag_ClassMark BoxFlag_DataMark) box;
    t ← lift (types !! m_type b);
    when (t_gcRoot t && negb (test_flag BoxFlag_Invalid (m_flags b))) (pushRoot node box (m_type b)).

Definition weakMarkClosureClass (box : loc) : M unit :=
  b ← get_box box;
  if test_flag (N.lor BoxFlag_ClassMark BoxFlag_ClosureWeakMark) (m_flags b) then mret tt
  else
    t ← lift (types !! m_type b);
    c ← lift (class_info t);
    match m_thisArgField c with
    | None => markClass box
    | Some (thisArgFieldIdx, thisArgField) =>
      _ ← weakMark box;
      _ ← set_flags BoxFlag_ClosureWeakMark box;
      ft ← lift (types !! s_type thisArgField);
      weakPtrType ← lift (match t_kind ft with TypeKind_ClassPtr _ w => Some w | _ => None end);
      cur ← currentNode;
      _ ← pushRoot cur (iface_of box + s_offset thisArgField)%N weakPtrType;
      for_each (imap pair (m_classGcRootFieldArray c)) (λ '(i, s),
        if decide (i = thisArgFieldIdx) then mret tt
        else pushRoot cur (iface_of box + s_offset s)%N (s_type s))
    end.

Definition addRoot (parent : option nat) (p type : loc) : M unit :=
  t ← lift (types !! type);
  if t_gcRoot t then pushRoot parent p type
  else
    match t_kind t with
    | TypeKind_DataPtr true targetType =>
      tt_ ← lift (types !! targetType);
      if t_validator tt_ then weakMark (validatorBox p)
      else if is_class tt_ then markClass (p - sizeof_Box)%N
      else markData (p - sizeof_DataBox)%N
    | _ => fail
    end.

(** ** The [markGcRoots] methods *)

Definition markString (p : loc) : M unit :=
  _ ← markDataPtr (ptr_validator p);
  markDataPtr (ptr_validator (p + sizeof_DataPtr)%N).

(** A function or property pointer of the given closure class kind. *)
Definition markClosure (weak : bool) (kind : ClassTypeKind) (p : loc) : M unit :=
  if (ptr_closure p =? 0)%N then mret tt
  else
    let box := iface_box (ptr_closure p) in
    if weak then
      b ← get_box box;
      t ← lift (types !! m_type b);
      if isClassType t kind then weakMarkClosureClass box else weakMark box
    else markClass box.

Definition markOpaque (c : OpaqueCall) : M unit :=
  match c with
  | Opaque_markClassPtr iface =>
    if (iface =? 0)%N then mret tt else markClass (iface_box iface)
  | Opaque_markDataPtr v => markDataPtr v
  end.

Definition DataPtrType_markGcRoots (thin : bool) (p : loc) : M unit :=
  if thin then fail else markDataPtr (ptr_validator p).

Definition ClassPtrType_markGcRoots (weak : bool) (p : loc) : M unit :=
  let iface := mem p in
  if (iface =? 0)%N then mret tt
  else if weak then weakMark (iface_box iface) else markClass (iface_box iface).

Definition FunctionPtrType_markGcRoots (weak : bool) (p : loc) : M unit :=
  markClosure weak ClassTypeKind_FunctionClosure p.

Definition PropertyPtrType_markGcRoots (weak : bool) (p : loc) : M unit :=
  markClosure weak ClassTypeKind_PropertyClosure p.

Definition ArrayType_markGcRoots (elementType : loc) (elementCount : nat) (p : loc) : M unit :=
  cur ← currentNode; addRootArray cur p elementType elementCount.

Section markGcRoots_parts.
  (** [markGcRoots] and [markGcRootsImpl] of the parts. *)
  Context (markGcRoots markGcRootsImpl : loc → loc → M unit).

Definition markVariant (p : loc) : M unit :=
  let vt := variant_type p in
  if (vt =? 0)%N then mret tt
  else t ← lift (types !! vt); when (t_gcRoot t) (markGcRoots vt p).

Definition StructType_markGcRoots (adapterOriginType : option loc) (bases fields : list Slot) (p : loc)
    : M unit :=
  match adapterOriginType with
  | Some origin => markGcRoots origin p
  | None =>
    _ ← for_each bases (λ s, markGcRoots (s_type s) (p + s_offset s)%N);
    for_each fields (λ s, markGcRoots (s_type s) (p + s_offset s)%N)
  end.

Definition ClassType_markGcRoots (type p : loc) : M unit :=
  let box := p in
  let iface := iface_of box in
  if (iface_box iface =? 0)%N then mret tt
  else
    b ← get_box (iface_box iface);
    if test_flag BoxFlag_Invalid (m_flags b) then mret tt
    else if decide (iface_box iface = box ∧ m_type b = type) then markGcRootsImpl type iface
    else fail.

Definition ClassType_markGcRootsImpl (type iface : loc) : M unit :=
  t ← lift (types !! type);
  c ← lift (class_info t);
  _ ← for_each (m_classGcRootBaseTypeArray c) (λ s,
        bt ← lift (types !! s_type s);
        if is_class bt then markGcRootsImpl (s_type s) (iface + s_offset s)%N
        else markGcRoots (s_type s) (iface + s_offset s)%N);
  _ ← for_each (m_classGcRootFieldArray c) (λ s, markGcRoots (s_type s) (iface + s_offset s)%N);
  match m_markOpaqueGcRoots c with
  | Some f => for_each (f iface) markOpaque
  | None => mret tt
  end.

(** The virtual call, with the table of [Type::markGcRoots] for variants and
    strings. *)
Definition Type_markGcRoots (type p : loc) : M unit :=
  t ← lift (types !! type);
  match t_kind t with
  | TypeKind_Variant => markVariant p
  | TypeKind_String => markString p
  | TypeKind_DataPtr thin _ => DataPtrType_markGcRoots thin p
  | TypeKind_ClassPtr weak _ => ClassPtrType_markGcRoots weak p
  | TypeKind_FunctionPtr weak => FunctionPtrType_markGcRoots weak p
  | TypeKind_PropertyPtr weak => PropertyPtrType_markGcRoots weak p
  | TypeKind_Array elementType elementCount => ArrayType_markGcRoots elementType elementCount p
  | TypeKind_Struct adapterOriginType bases fields =>
    StructType_markGcRoots adapterOriginType bases fields p
  | TypeKind_Class _ => ClassType_markGcRoots type p
  | TypeKind_Other => fail
  end.

End markGcRoots_parts.

Fixpoint markGcRoots (fuel : nat) : loc → loc → M unit :=
  match fuel with
  | O => λ _ _, fail
  | S fuel => Type_markGcRoots (markGcRoots fuel) (markGcRootsImpl fuel)
  end
with markGcRootsImpl (fuel : nat) : loc → loc → M unit :=
  match fuel with
  | O => λ _ _, fail
  | S fuel => ClassType_markGcRootsImpl (markGcRoots fuel) (markGcRootsImpl fuel)
  end.

(** ** The mark cycle *)

(** The roots of one array, in order. *)
Definition mark_round (roots : list Root) : M unit :=
  for_each roots (λ r, _ ← setCurrentNode (r_parent r); markGcRoots depth (r_type r) (r_p r)).

(** [runMarkCycle]: breadth first, the two arrays swapped on every round. *)
Fixpoint runMarkCycle (rounds : nat) (st : GcState) : option GcState :=
  match m_markRoots st with
  | [] => Some st
  | roots =>
    match rounds with
    | O => None
    | S rounds =>
      '(_, st) ← mark_round roots (with_roots [] st);
      runMarkCycle rounds st
    end
  end.

End mark.
