(* ===== verification/GcMarkSpec.v ===== *)
(** * What marking computes

    The references of the heap as a closure over mark events, executable per
    object, and the invariant that relates a state of the mark cycle to it. *)

From stdpp Require Import sorting.
From S2P Require Import Prelude Box DestructGraph DestructOrder DestructEmit DestructBuild GcMark.

(** What a reference asks of a box: to keep its memory, to keep and scan its
    data, to keep it as an object, to scan it as a weak closure, or to keep it as
    a class field of an object that is kept. *)
Inductive event :=
  | EWeak (box : loc) | EData (box : loc) | EClass (box : loc) | EClosure (box : loc)
  | EField (box : loc).

(** The results of [f] on all elements, in order. *)
Fixpoint flat_mapM {A B} (f : A → option (list B)) (l : list A) : option (list B) :=
  match l with
  | [] => Some []
  | x :: l => ys ← f x; zs ← flat_mapM f l; Some (ys ++ zs)
  end.

Lemma flat_mapM_mono {A B} (f g : A → option (list B)) l ys :
  (∀ x ys, x ∈ l → f x = Some ys → g x = Some ys) → flat_mapM f l = Some ys →
  flat_mapM g l = Some ys.
Proof.
  revert ys. induction l as [|x l IH]; intros ys Hfg; simpl; [done|].
  destruct (f x) as [y|] eqn:Hx; simpl; [|done].
  rewrite (Hfg x y ltac:(left) Hx). simpl.
  destruct (flat_mapM f l) as [zs|]; simpl; [|done].
  rewrite (IH zs); [done| |done]. intros. apply Hfg; [by right|done].
Qed.

Lemma flat_mapM_Some {A B} (f : A → option (list B)) l ys :
  flat_mapM f l = Some ys →
  (∀ x, x ∈ l → ∃ y, f x = Some y ∧ ∀ e, e ∈ y → e ∈ ys) ∧
  (∀ e, e ∈ ys → ∃ x y, x ∈ l ∧ f x = Some y ∧ e ∈ y).
Proof.
  revert ys. induction l as [|x l IH]; intros ys; simpl.
  { intros [= <-]. split; intros e He; by apply not_elem_of_nil in He. }
  destruct (f x) as [y|] eqn:Hx; simpl; [|done].
  destruct (flat_mapM f l) as [zs|]; simpl; [|done]. intros [= <-].
  destruct (IH zs eq_refl) as [IH1 IH2]. split.
  - intros z [->|Hz]%elem_of_cons.
    + exists y. split; [done|]. intros e He. apply elem_of_app. by left.
    + destruct (IH1 z Hz) as (y' & ? & ?). exists y'. split; [done|].
      intros e He. apply elem_of_app. right. auto.
  - intros e [He|He]%elem_of_app.
    + exists x, y. split; [left|done].
    + destruct (IH2 e He) as (x' & y' & ? & ? & ?). exists x', y'. split; [by right|done].
Qed.

Section spec.
  Context (mem : loc → loc) (types : gmap loc Type_) (depth : nat).
  (** The boxes when marking starts: types, offsets and validity do not change. *)
  Context (B0 : gmap loc Box).

(** ** The references of a value *)

Definition data_ptr_events (validator : loc) : list event :=
  if (validator =? 0)%N then []
  else [EWeak (validatorBox mem validator); EData (targetBox mem validator)].

Definition closure_events (weak : bool) (kind : ClassTypeKind) (p : loc) : option (list event) :=
  if (ptr_closure mem p =? 0)%N then Some []
  else
    let box := iface_box mem (ptr_closure mem p) in
    if weak then
      b ← B0 !! box; t ← types !! m_type b;
      Some [if isClassType t kind then EClosure box else EWeak box]
    else Some [EClass box].

Definition opaque_events (c : OpaqueCall) : list event :=
  match c with
  | Opaque_markClassPtr iface => if (iface =? 0)%N then [] else [EClass (iface_box mem iface)]
  | Opaque_markDataPtr v => data_ptr_events v
  end.

(** The references a value of the type at [p] holds, in terms of those of the
    parts, and those of a class instance from its interface on. *)
Definition scan_body (scan scanImpl : loc → loc → option (list event)) (type p : loc)
    : option (list event) :=
  t ← types !! type;
  match t_kind t with
  | TypeKind_Variant =>
    let vt := variant_type mem p in
    if (vt =? 0)%N then Some []
    else t ← types !! vt; if t_gcRoot t then scan vt p else Some []
  | TypeKind_String =>
    Some (data_ptr_events (ptr_validator mem p) ++
          data_ptr_events (ptr_validator mem (p + sizeof_DataPtr)%N))
  | TypeKind_DataPtr thin _ =>
    if thin then None else Some (data_ptr_events (ptr_validator mem p))
  | TypeKind_ClassPtr weak _ =>
    if (mem p =? 0)%N then Some []
    else Some [if weak then EWeak (iface_box mem (mem p)) else EClass (iface_box mem (mem p))]
  | TypeKind_FunctionPtr weak => closure_events weak ClassTypeKind_FunctionClosure p
  | TypeKind_PropertyPtr weak => closure_events weak ClassTypeKind_PropertyClosure p
  | TypeKind_Array et n =>
    t ← types !! et;
    if is_class t || negb (t_gcRoot t) then None
    else flat_mapM (λ i, scan et (p + N.of_nat i * t_size t)%N) (seq 0 n)
  | TypeKind_Struct (Some adapter) _ _ => scan adapter p
  | TypeKind_Struct None bases fields =>
    es1 ← flat_mapM (λ s, scan (s_type s) (p + s_offset s)%N) bases;
    es2 ← flat_mapM (λ s, scan (s_type s) (p + s_offset s)%N) fields;
    Some (es1 ++ es2)
  | TypeKind_Class _ =>
    let iface := iface_of p in
    if (iface_box mem iface =? 0)%N then Some []
    else
      b ← B0 !! iface_box mem iface;
      if test_flag BoxFlag_Invalid (m_flags b) then Some []
      else if decide (iface_box mem iface = p ∧ m_type b = type) then scanImpl type iface
      else None
  | TypeKind_Other => None
  end.

Definition base_scan (scan scanImpl : loc → loc → option (list event)) (iface : loc) (s : Slot)
    : option (list event) :=
  bt ← types !! s_type s;
  if is_class bt then scanImpl (s_type s) (iface + s_offset s)%N
  else scan (s_type s) (iface + s_offset s)%N.

Definition scanImpl_body (scan scanImpl : loc → loc → option (list event)) (type iface : loc)
    : option (list event) :=
  t ← types !! type;
  c ← class_info t;
  es1 ← flat_mapM (base_scan scan scanImpl iface) (m_classGcRootBaseTypeArray c);
  es2 ← flat_mapM (λ s, scan (s_type s) (iface + s_offset s)%N) (m_classGcRootFieldArray c);
  Some (es1 ++ es2 ++
        match m_markOpaqueGcRoots c with Some f => concat (opaque_events <$> f iface) | None => [] end).

(** [None] also if the value nests deeper than [fuel]. *)
Fixpoint scan (fuel : nat) : loc → loc → option (list event) :=
  match fuel with O => λ _ _, None | S fuel => scan_body (scan fuel) (scanImpl fuel) end
with scanImpl (fuel : nat) : loc → loc → option (list event) :=
  match fuel with O => λ _ _, None | S fuel => scanImpl_body (scan fuel) (scanImpl fuel) end.

Section mono.
  Context (f g f' g' : loc → loc → option (list event)).
  Context (Hf : ∀ ty p es, f ty p = Some es → f' ty p = Some es).
  Context (Hg : ∀ ty p es, g ty p = Some es → g' ty p = Some es).

Lemma scan_body_mono ty p es : scan_body f g ty p = Some es → scan_body f' g' ty p = Some es.
Proof using Hf Hg.
  unfold scan_body. destruct (types !! ty) as [t|]; simpl; [|done].
  destruct (t_kind t) as [| | | | | |et m|[a|] bs fs|c|]; try done.
  - destruct (_ =? 0)%N; [done|]. destruct (types !! variant_type mem p) as [vt|]; simpl; [|done].
    destruct (t_gcRoot vt); [apply Hf|done].
  - destruct (types !! et) as [et'|]; simpl; [|done]. destruct (is_class et' || _); [done|].
    apply flat_mapM_mono. auto.
  - apply Hf.
  - destruct (flat_mapM _ bs) as [es1|] eqn:H1; simpl; [|done].
    destruct (flat_mapM _ fs) as [es2|] eqn:H2; simpl; [|done]. intros Hes.
    apply (flat_mapM_mono _ (λ s, f' (s_type s) (p + s_offset s)%N)) in H1; [|auto].
    apply (flat_mapM_mono _ (λ s, f' (s_type s) (p + s_offset s)%N)) in H2; [|auto].
    by rewrite H1, H2.
  - destruct (_ =? 0)%N; [done|]. destruct (B0 !! _) as [b|]; simpl; [|done].
    destruct (test_flag _ _); [done|]. case_decide; [apply Hg|done].
Qed.

Lemma scanImpl_body_mono ty p es :
  scanImpl_body f g ty p = Some es → scanImpl_body f' g' ty p = Some es.
Proof using Hf Hg.
  unfold scanImpl_body. destruct (types !! ty) as [t|]; simpl; [|done].
  destruct (class_info t) as [c|]; simpl; [|done].
  destruct (flat_mapM _ (m_classGcRootBaseTypeArray c)) as [es1|] eqn:H1; simpl; [|done].
  destruct (flat_mapM _ (m_classGcRootFieldArray c)) as [es2|] eqn:H2; simpl; [|done]. intros Hes.
  apply (flat_mapM_mono _ (base_scan f' g' p)) in H1.
  - apply (flat_mapM_mono _ (λ s, f' (s_type s) (p + s_offset s)%N)) in H2; [|auto].
    by rewrite H1; simpl; rewrite H2.
  - intros s y _. unfold base_scan. destruct (types !! s_type s) as [bt|]; simpl; [|done].
    destruct (is_class bt); auto.
Qed.

End mono.

Lemma scan_S n :
  (∀ ty p es, scan n ty p = Some es → scan (S n) ty p = Some es) ∧
  (∀ ty p es, scanImpl n ty p = Some es → scanImpl (S n) ty p = Some es).
Proof.
  induction n as [|n [IH1 IH2]]; [done|].
  split; intros ty p es; [by apply scan_body_mono|by apply scanImpl_body_mono].
Qed.

Lemma scan_le n m ty p es : n ≤ m → scan n ty p = Some es → scan m ty p = Some es.
Proof. induction 1 as [|m _ IH]; [done|]. intros Hs. apply scan_S. auto. Qed.

(** ** The references of an object *)

(** What scanning the box's data demands, once it is marked. *)
Definition contents (box : loc) : option (list event) :=
  b ← B0 !! box; t ← types !! m_type b;
  if negb (t_gcRoot t) || test_flag BoxFlag_Invalid (m_flags b) then Some []
  else if is_class t then scan depth (m_type b) box
  else if negb (test_flag BoxFlag_DynamicArray (m_flags b)) then
    scan depth (m_type b) (box + sizeof_DataBox)%N
  else
    flat_mapM (λ i, scan depth (m_type b) (box + sizeof_DataBox + N.of_nat i * t_size t)%N)
              (seq 0 (getDynamicArrayElementCount mem box (t_size t))).

(** The boxes of the class fields of a class and of its bases, and of theirs. *)
Definition class_fields_body (class_fields : loc → loc → option (list loc)) (type iface : loc)
    : option (list loc) :=
  t ← types !! type;
  c ← class_info t;
  fs1 ← flat_mapM (λ s, class_fields (s_type s) (iface + s_offset s)%N) (m_classBaseTypeArray c);
  fs2 ← flat_mapM (λ s,
          b ← B0 !! (iface + s_offset s)%N;
          fs ← class_fields (m_type b) (iface_of (iface + s_offset s)%N);
          Some ((iface + s_offset s)%N :: fs)) (m_classFieldArray c);
  Some (fs1 ++ fs2).

Fixpoint class_fields (fuel : nat) : loc → loc → option (list loc) :=
  match fuel with O => λ _ _, None | S fuel => class_fields_body (class_fields fuel) end.

Definition root_events (type p : loc) : option (list event) :=
  t ← types !! type; if t_gcRoot t then scan depth type p else None.

(** A weak closure keeps what it has captured, but its [this] only weakly. *)
Definition closure_contents (box : loc) (c : ClassInfo) (i : nat) (this : Slot)
    : option (list event) :=
  ft ← types !! s_type this;
  weakPtrType ← match t_kind ft with TypeKind_ClassPtr _ w => Some w | _ => None end;
  es1 ← root_events weakPtrType (iface_of box + s_offset this)%N;
  es2 ← flat_mapM (λ '(j, s),
          if decide (j = i) then Some []
          else root_events (s_type s) (iface_of box + s_offset s)%N)
        (imap pair (m_classGcRootFieldArray c));
  Some (es1 ++ es2).

(** The box a class field is embedded in, the box itself if it is allocated. *)
Definition root_of (box : loc) (b : Box) : loc :=
  if (m_rootOffset b =? 0)%N then box else (box - m_rootOffset b)%N.

Definition class_of (box : loc) : option (Box * ClassInfo) :=
  b ← B0 !! box; t ← types !! m_type b; c ← class_info t; Some (b, c).

(** What an event demands in turn; [None] if the box is malformed. *)
Definition implied (e : event) : option (list event) :=
  match e with
  | EWeak box =>
    b ← B0 !! box; r ← B0 !! root_of box b;
    if (m_rootOffset b =? 0)%N then Some []
    else if (m_rootOffset r =? 0)%N then Some [EWeak (root_of box b)] else None
  | EData box => es ← contents box; Some (EWeak box :: es)
  | EClass box =>
    '(b, _) ← class_of box;
    fs ← class_fields depth (m_type b) (iface_of box);
    Some (EWeak box :: EData box :: (EField <$> fs))
  | EClosure box =>
    '(b, c) ← class_of box;
    match m_thisArgField c with
    | None => Some [EClass box]
    | Some (i, this) => es ← closure_contents box c i this; Some (EWeak box :: es)
    end
  | EField box => _ ← B0 !! box; Some []
  end.

(** Everything a set of events demands. *)
Inductive demanded (init : event → Prop) : event → Prop :=
  | demanded_init e : init e → demanded init e
  | demanded_step e es e' :
      demanded init e → implied e = Some es → e' ∈ es → demanded init e'.

(** A class field lies in the allocated box of its object, and scanning the
    object covers the field. *)
Definition field_ok (box : loc) (b : Box) (f : loc) : Prop :=
  ∃ bf, B0 !! f = Some bf ∧ m_rootOffset bf ≠ 0%N ∧ root_of f bf = root_of box b ∧
    ∃ ef el, contents f = Some ef ∧ contents box = Some el ∧ ∀ e, e ∈ ef → e ∈ el.

Definition fields_ok (box : loc) : Prop :=
  ∀ b fs f, B0 !! box = Some b → class_fields depth (m_type b) (iface_of box) = Some fs →
    f ∈ fs → field_ok box b f.

(** A closure that is scanned as an object has all it would keep as a weak one. *)
Definition closure_ok (box : loc) : Prop :=
  ∀ es, implied (EClosure box) = Some es → ∀ e, e ∈ es →
    e = EClass box ∨ e = EWeak box ∨
    ∃ el, contents box = Some el ∧ (e ∈ el ∨ ∃ x, e = EWeak x ∧ EClass x ∈ el).

(** Every reference that is followed leads to well-formed boxes. *)
Definition heap_ok (D : event → Prop) : Prop :=
  ∀ e, D e → is_Some (implied e) ∧
    match e with EClass box => fields_ok box | EClosure box => closure_ok box | _ => True end.

Lemma class_fields_body_mono (f g : loc → loc → option (list loc)) ty p fs :
  (∀ ty p fs, f ty p = Some fs → g ty p = Some fs) →
  class_fields_body f ty p = Some fs → class_fields_body g ty p = Some fs.
Proof.
  intros Hfg. unfold class_fields_body. destruct (types !! ty) as [t|]; simpl; [|done].
  destruct (class_info t) as [c|]; simpl; [|done].
  destruct (flat_mapM _ (m_classBaseTypeArray c)) as [fs1|] eqn:H1; simpl; [|done].
  destruct (flat_mapM _ (m_classFieldArray c)) as [fs2|] eqn:H2; simpl; [|done]. intros Hes.
  apply (flat_mapM_mono _ (λ s, g (s_type s) (p + s_offset s)%N)) in H1; [|auto].
  rewrite H1. simpl.
  apply (flat_mapM_mono _ (λ s, b ← B0 !! (p + s_offset s)%N;
    fs ← g (m_type b) (iface_of (p + s_offset s)%N);
    Some ((p + s_offset s)%N :: fs))) in H2; [by rewrite H2|].
  intros s y _. destruct (B0 !! _) as [b|]; simpl; [|done].
  destruct (f _ _) as [z|] eqn:Hz; simpl; [|done].
  by rewrite (Hfg _ _ _ Hz).
Qed.

Lemma class_fields_S n ty p fs :
  class_fields n ty p = Some fs → class_fields (S n) ty p = Some fs.
Proof.
  revert ty p fs. induction n as [|n IH]; intros ty p fs; [done|].
  by apply class_fields_body_mono.
Qed.

Lemma class_fields_le n m ty p fs :
  n ≤ m → class_fields n ty p = Some fs → class_fields m ty p = Some fs.
Proof. induction 1 as [|m _ IH]; [done|]. intros Hs. apply class_fields_S. auto. Qed.

Lemma demanded_mono (init init' : event → Prop) e :
  (∀ e, init e → init' e) → demanded init e → demanded init' e.
Proof. intros Hi. induction 1; [by apply demanded_init, Hi|by eapply demanded_step]. Qed.

End spec.
