(* ===== verification/GcMarkInv.v ===== *)
(** * The invariant of marking

    Marks are demanded, what the marks demand is marked or still queued, and the
    destruct graph, while it is built, agrees with the boxes. *)

From stdpp Require Import sorting.
From S2P Require Import Prelude Box DestructGraph DestructOrder DestructEmit DestructBuild GcMark GcMarkSpec.

(** ** Flags of boxes *)

Definition has (f : N) (l : loc) (st : GcState) : bool :=
  match m_boxes st !! l with Some b => test_flag f (m_flags b) | None => false end.

(** What marking never changes in a box. *)
Definition same_box (b b' : Box) : Prop :=
  m_type b' = m_type b ∧ m_rootOffset b' = m_rootOffset b ∧
  test_flag BoxFlag_Invalid (m_flags b') = test_flag BoxFlag_Invalid (m_flags b) ∧
  test_flag BoxFlag_DynamicArray (m_flags b') = test_flag BoxFlag_DynamicArray (m_flags b).

Definition same_static (B B' : gmap loc Box) : Prop :=
  ∀ l, match B !! l, B' !! l with
       | Some b, Some b' => same_box b b' | None, None => True | _, _ => False
       end.

Lemma same_static_trans B1 B2 B3 : same_static B1 B2 → same_static B2 B3 → same_static B1 B3.
Proof.
  intros H1 H2 l. specialize (H1 l). specialize (H2 l).
  destruct (B1 !! l), (B2 !! l), (B3 !! l); try done.
  destruct H1 as (?&?&?&?), H2 as (?&?&?&?). repeat split; congruence.
Qed.

Definition mark_flag (f : N) : Prop :=
  f = BoxFlag_WeakMark ∨ f = BoxFlag_DataMark ∨ f = BoxFlag_ClassMark ∨ f = BoxFlag_ClosureWeakMark.

(** ** Setting flags *)

Lemma set_flags_ok f box st b :
  m_boxes st !! box = Some b → N.land f BoxFlag_MarkMask = f →
  ∃ st', set_flags f box st = Some (tt, st') ∧ same_static (m_boxes st) (m_boxes st') ∧
    m_markRoots st' = m_markRoots st ∧ m_destructGraph st' = m_destructGraph st ∧
    m_state st' = m_state st ∧
    (∀ g l, has g l st' = has g l st || (bool_decide (l = box) && test_flag g f)) ∧
    m_boxes st' = <[box := with_flags (set_flag f) b]> (m_boxes st).
Proof.
  intros Hb Hf. unfold set_flags. rewrite Hb. eexists. split; [reflexivity|]. simpl.
  assert (Hd : ∀ g, N.land g BoxFlag_MarkMask = 0%N → test_flag g f = false).
  { intros g Hg. unfold test_flag. apply negb_false_iff, N.eqb_eq.
    rewrite <- Hf, <- N.land_assoc, (N.land_comm BoxFlag_MarkMask g), Hg. apply N.land_0_r. }
  split; [|split; [done|split; [done|split; [done|split; [|done]]]]].
  - intros l. destruct (decide (l = box)) as [->|Hne].
    + rewrite lookup_insert_eq, Hb. unfold same_box. simpl. rewrite !test_set_flag.
      rewrite (Hd BoxFlag_Invalid eq_refl), (Hd BoxFlag_DynamicArray eq_refl), !orb_false_r. done.
    + rewrite lookup_insert_ne by done. destruct (m_boxes st !! l); done.
  - intros g l. unfold has. simpl. destruct (decide (l = box)) as [->|Hne].
    + rewrite lookup_insert_eq, Hb, bool_decide_true by done. simpl. by rewrite test_set_flag.
    + rewrite lookup_insert_ne, bool_decide_false by done. by rewrite orb_false_r.
Qed.

Lemma indexed_set f b :
  N.land f BoxFlag_MarkMask = f → indexed (with_flags (set_flag f) b) = indexed b.
Proof.
  intros Hf.
  assert (Hd : ∀ h x, N.land h BoxFlag_MarkMask = 0%N → test_flag h (set_flag f x) = test_flag h x).
  { intros h x Hh. rewrite test_set_flag. unfold test_flag at 2.
    rewrite <- Hf, <- N.land_assoc, (N.land_comm BoxFlag_MarkMask h), Hh, N.land_0_r.
    by rewrite orb_false_r. }
  unfold indexed. simpl. by rewrite !Hd.
Qed.

Lemma graph_wf_set boxes g box b f :
  boxes !! box = Some b → N.land f BoxFlag_MarkMask = f → graph_wf boxes g →
  graph_wf (<[box := with_flags (set_flag f) b]> boxes) g.
Proof.
  intros Hb Hf [G1 G2 G3 G4].
  assert (Hd : ∀ h x, N.land h BoxFlag_MarkMask = 0%N → test_flag h (set_flag f x) = test_flag h x).
  { intros h x Hh. rewrite test_set_flag. unfold test_flag at 2.
    rewrite <- Hf, <- N.land_assoc, (N.land_comm BoxFlag_MarkMask h), Hh, N.land_0_r.
    by rewrite orb_false_r. }
  assert (Hix : ∀ x, indexed (with_flags (set_flag f) x) = indexed x)
    by (intros x; by apply indexed_set).
  split; try done.
  - intros i nd Hnd. destruct (G2 i nd Hnd) as (b' & Hb' & Hn).
    destruct (decide (m_box nd = box)) as [Heq|Hne].
    + rewrite Heq, lookup_insert_eq in *. rewrite Hb in Hb'. injection Hb' as <-.
      eexists. split; [reflexivity|]. unfold names_node in *. simpl. by rewrite !Hd.
    + rewrite lookup_insert_ne by done. eauto.
  - intros l b' Hl Hx. destruct (decide (l = box)) as [->|Hne].
    + rewrite lookup_insert_eq in Hl. injection Hl as <-. rewrite Hix in Hx. eauto.
    + rewrite lookup_insert_ne in Hl by done. eauto.
Qed.

(** ** The edges of the destruct graph do not touch marks *)

Lemma index_box_static boxes box i g :
  same_static boxes (index_box boxes box i g).1 ∧
  (∀ f l, N.land f (N.lor BoxFlag_Index BoxFlag_Map) = 0%N →
     (test_flag f <$> (m_flags <$> (index_box boxes box i g).1 !! l))
     = (test_flag f <$> (m_flags <$> boxes !! l))) ∧
  m_currentNode (index_box boxes box i g).2 = m_currentNode g.
Proof.
  assert (Hd : ∀ f h, N.land f (N.lor BoxFlag_Index BoxFlag_Map) = 0%N →
               h = BoxFlag_Index ∨ h = BoxFlag_Map → test_flag f h = false).
  { intros f h Hf Hh. unfold test_flag. apply negb_false_iff, N.eqb_eq.
    rewrite N.land_lor_distr_r in Hf. apply N.lor_eq_0_iff in Hf as [H1 H2].
    rewrite N.land_comm. destruct Hh as [->| ->]; done. }
  assert (Hs : ∀ h k, h = BoxFlag_Index ∨ h = BoxFlag_Map →
    let B' := alter (λ b, k (with_flags (set_flag h) b)) box boxes in
    (∀ b, m_type (k b) = m_type b ∧ m_flags (k b) = m_flags b ∧ m_rootOffset (k b) = m_rootOffset b) →
    same_static boxes B' ∧
    (∀ f l, N.land f (N.lor BoxFlag_Index BoxFlag_Map) = 0%N →
     (test_flag f <$> (m_flags <$> B' !! l)) = (test_flag f <$> (m_flags <$> boxes !! l)))).
  { intros h k Hh B' Hk. unfold B'. split.
    - intros l. destruct (decide (l = box)) as [->|Hne].
      + rewrite lookup_alter_eq. destruct (boxes !! box) as [b|]; [|done]. simpl.
        destruct (Hk (with_flags (set_flag h) b)) as (H1 & H2 & H3).
        unfold same_box. rewrite H1, H2, H3. simpl. rewrite !test_set_flag.
        rewrite (Hd BoxFlag_Invalid h), (Hd BoxFlag_DynamicArray h) by done. by rewrite !orb_false_r.
      + rewrite lookup_alter_ne by done. by destruct (boxes !! l).
    - intros f l Hf. destruct (decide (l = box)) as [->|Hne].
      + rewrite lookup_alter_eq. destruct (boxes !! box) as [b|]; [|done]. simpl.
        destruct (Hk (with_flags (set_flag h) b)) as (_ & H2 & _). rewrite H2. simpl.
        rewrite test_set_flag, (Hd f h) by done. by rewrite orb_false_r.
      + by rewrite lookup_alter_ne. }
  unfold index_box. destruct (N.of_nat i <? BoxIndexLimit)%N; simpl.
  - destruct (Hs BoxFlag_Index (with_index (N.of_nat i))) as [H1 H2]; [by left|done|]. done.
  - destruct (Hs BoxFlag_Map (λ b, b)) as [H1 H2]; [by right|done|]. done.
Qed.

Lemma addEdge_static boxes g p box i boxes' g' :
  DestructGraph.addEdge boxes g p box = Some (i, boxes', g') →
  same_static boxes boxes' ∧
  (∀ f l, N.land f (N.lor BoxFlag_Index BoxFlag_Map) = 0%N →
     (test_flag f <$> (m_flags <$> boxes' !! l)) = (test_flag f <$> (m_flags <$> boxes !! l))) ∧
  m_currentNode g' = m_currentNode g.
Proof.
  assert (Hr : same_static boxes boxes) by (intros l; by destruct (boxes !! l)).
  unfold DestructGraph.addEdge, getNode. intros H.
  apply bind_Some in H as ([[i1 b1] g1] & H1 & H).
  apply bind_Some in H as (g2 & H2 & H). injection H as <- <- <-.
  assert (Hc : m_currentNode g2 = m_currentNode g1).
  { unfold addEdgeNodes in H2. case_decide; [by injection H2 as <-|].
    apply bind_Some in H2 as (? & _ & H2). apply bind_Some in H2 as (? & _ & H2).
    by injection H2 as <-. }
  rewrite Hc. clear H2 Hc.
  apply bind_Some in H1 as (b & Hb & H1). destruct (test_flag BoxFlag_Index _).
  { apply bind_Some in H1 as (? & _ & H1). by injection H1 as <- <- <-. }
  destruct (test_flag BoxFlag_Map _).
  { apply bind_Some in H1 as (? & _ & H1). by injection H1 as <- <- <-. }
  destruct (index_box_static boxes box (length (m_nodeArray g))
    (with_nodes (m_nodeArray g ++ [newNode box (length (m_nodeArray g))]) g)) as (H2 & H3 & H4).
  destruct (index_box _ _ _ _) as [b' g']. injection H1 as <- <- <-. done.
Qed.

(** ** The invariant *)

#[local] Set Default Proof Using "Type".

Section inv.
  Context (mem : loc → loc) (types : gmap loc Type_) (depth : nat) (B0 : gmap loc Box).
  Context (D : event → Prop).
  Context (D_closed : ∀ e es e', D e → implied mem types depth B0 e = Some es → e' ∈ es → D e').
  Context (D_ok : heap_ok mem types depth B0 D).

(** The mark that answers an event is set. *)
Definition sat (st : GcState) (e : event) : Prop :=
  match e with
  | EWeak l => has BoxFlag_WeakMark l st = true
  | EData l => has BoxFlag_DataMark l st = true
  | EClass l => has BoxFlag_ClassMark l st = true
  | EClosure l => has BoxFlag_ClassMark l st = true ∨ has BoxFlag_ClosureWeakMark l st = true
  | EField l => has BoxFlag_ClassMark l st = true
  end.

(** Some queued root still brings it about. *)
Definition queued (rs : list Root) (e : event) : Prop :=
  ∃ r es, r ∈ rs ∧ scan mem types B0 depth (r_type r) (r_p r) = Some es ∧ e ∈ es.

Definition done_or_queued (st : GcState) (e : event) : Prop := sat st e ∨ queued (m_markRoots st) e.

Definition parent_ok (st : GcState) (n : option nat) : Prop :=
  match m_state st with
  | State_Mark => True
  | State_BuildDestructGraph => ∃ i, n = Some i ∧ i < length (m_nodeArray (m_destructGraph st))
  end.

Definition graph_inv (todo : list Root) (st : GcState) : Prop :=
  match m_state st with
  | State_Mark => ∀ l b, m_boxes st !! l = Some b → indexed b = false
  | State_BuildDestructGraph => graph_wf (m_boxes st) (m_destructGraph st)
  end ∧ ∀ r, r ∈ m_markRoots st ++ todo → parent_ok st (r_parent r).

(** The marks of a box. *)
Definition marked (st : GcState) (e : event) : Prop :=
  match e with
  | EWeak l => has BoxFlag_WeakMark l st = true
  | EData l => has BoxFlag_DataMark l st = true
  | EClass l => has BoxFlag_ClassMark l st = true
  | EClosure l => has BoxFlag_ClosureWeakMark l st = true
  | EField _ => False
  end.

#[global] Instance marked_dec st e : Decision (marked st e).
Proof. destruct e; simpl; apply _. Defined.

(** What justifies a mark. *)
Definition justified (e : event) : Prop :=
  D e ∨ match e with EWeak l | EData l | EClass l => D (EField l) | _ => False end.

(** What a mark promises: the references behind it are marked, queued, or among
    those of the roots [todo] of the round that have not been scanned yet. *)
Definition promise (todo : list Root) (st : GcState) (e : event) : Prop :=
  match e with
  | EWeak l => ∀ b, B0 !! l = Some b → has BoxFlag_WeakMark (root_of l b) st = true
  | EData l => ∀ es e, contents mem types depth B0 l = Some es → e ∈ es →
               done_or_queued st e ∨ queued todo e
  | EClass l => ∀ b n fs f, B0 !! l = Some b →
                class_fields types B0 n (m_type b) (iface_of l) = Some fs → f ∈ fs →
                has BoxFlag_ClassMark f st = true
  | EClosure l => ∀ es e, implied mem types depth B0 (EClosure l) = Some es → e ∈ es →
                  done_or_queued st e ∨ queued todo e
  | EField _ => True
  end.

(** [E] are the marks whose promises are being fulfilled. *)
Record inv (E : event → Prop) (todo : list Root) (st : GcState) : Prop := {
  i_static : same_static B0 (m_boxes st);
  i_justified : ∀ e, marked st e → justified e;
  i_promise : ∀ e, marked st e → E e ∨ promise todo st e;
  i_data_weak : ∀ l, has BoxFlag_DataMark l st = true → has BoxFlag_WeakMark l st = true;
  i_class_data : ∀ l, has BoxFlag_ClassMark l st = true → has BoxFlag_DataMark l st = true;
  i_roots : ∀ r, r ∈ m_markRoots st ++ todo →
            ∃ es, scan mem types B0 depth (r_type r) (r_p r) = Some es ∧ ∀ e, e ∈ es → D e;
  i_graph : graph_inv todo st
}.

(** ** Progress *)

Definition marks_to_set : list (loc * N) :=
  l ← elements (dom B0);
  [(l, BoxFlag_DataMark); (l, BoxFlag_ClassMark); (l, BoxFlag_ClosureWeakMark)].

Definition unset (st : GcState) : nat :=
  length (filter (λ lf, has lf.2 lf.1 st = false) marks_to_set).

(** The root scans without running deeper than [k]. *)
Definition level (k : nat) (r : Root) : Prop :=
  is_Some (scan mem types B0 k (r_type r) (r_p r)).

Record step (k : nat) (st st' : GcState) : Prop := {
  s_flags : ∀ f l, mark_flag f → has f l st = true → has f l st' = true;
  s_roots : ∃ rs, m_markRoots st' = m_markRoots st ++ rs ∧
                  (unset st' < unset st ∨ Forall (level k) rs);
  s_current : m_currentNode (m_destructGraph st') = m_currentNode (m_destructGraph st);
  s_state : m_state st' = m_state st;
  s_nodes : m_nodeArray (m_destructGraph st) `prefix_of` m_nodeArray (m_destructGraph st')
}.

Lemma mark_flag_to_set l f : (l, f) ∈ marks_to_set → mark_flag f.
Proof.
  unfold marks_to_set, mark_flag. intros (l' & Hlf & _)%list_elem_of_bind.
  repeat (apply elem_of_cons in Hlf as [Hlf|Hlf]; [injection Hlf as _ ->; auto|]).
  by apply not_elem_of_nil in Hlf.
Qed.

Lemma to_set_elem l f :
  l ∈ dom B0 → f = BoxFlag_DataMark ∨ f = BoxFlag_ClassMark ∨ f = BoxFlag_ClosureWeakMark →
  (l, f) ∈ marks_to_set.
Proof.
  intros Hl Hf. unfold marks_to_set. apply list_elem_of_bind. exists l.
  split; [|by apply elem_of_elements].
  destruct Hf as [->|[->| ->]]; [left|right; left|right; right; left].
Qed.

Lemma unset_le st st' :
  (∀ f l, mark_flag f → has f l st = true → has f l st' = true) → unset st' ≤ unset st.
Proof.
  intros Hm. apply filter_length_le. intros [l f] Hin%mark_flag_to_set. simpl.
  destruct (has f l st) eqn:Hh; [|done]. by rewrite (Hm _ _ Hin Hh).
Qed.

Lemma unset_lt st st' l f :
  (∀ f l, mark_flag f → has f l st = true → has f l st' = true) →
  l ∈ dom B0 → f = BoxFlag_DataMark ∨ f = BoxFlag_ClassMark ∨ f = BoxFlag_ClosureWeakMark →
  has f l st = false → has f l st' = true → unset st' < unset st.
Proof.
  intros Hm Hl Hf H0 H1. apply (filter_length_lt _ _ _ (l, f)); [|by apply to_set_elem|done|].
  - intros [l' f'] Hin%mark_flag_to_set. simpl.
    destruct (has f' l' st) eqn:Hh; [|done]. by rewrite (Hm _ _ Hin Hh).
  - simpl. by rewrite H1.
Qed.

Lemma step_refl k st : step k st st.
Proof. split; try done. exists []. split; [by rewrite app_nil_r|]. right. constructor. Qed.

Lemma step_trans k st1 st2 st3 : step k st1 st2 → step k st2 st3 → step k st1 st3.
Proof.
  intros [F1 (rs1 & R1 & P1) C1 S1 N1] [F2 (rs2 & R2 & P2) C2 S2 N2].
  pose proof (unset_le _ _ F1). pose proof (unset_le _ _ F2).
  split; [by eauto| |congruence|congruence|by etrans].
  exists (rs1 ++ rs2). split; [by rewrite R2, R1, app_assoc|].
  destruct P1 as [P1|P1]; [left; lia|]. destruct P2 as [P2|P2]; [left; lia|].
  right. by apply Forall_app.
Qed.

Lemma step_weaken k k' st st' : k ≤ k' → step k st st' → step k' st st'.
Proof.
  intros Hk [F1 (rs1 & R1 & P1) C1 S1 N1]. split; try done.
  exists rs1. split; [done|]. destruct P1 as [P1|P1]; [by left|right].
  eapply Forall_impl; [exact P1|]. intros r [es Hes]. exists es. by eapply scan_le.
Qed.

Lemma sat_step k st st' e : step k st st' → sat st e → sat st' e.
Proof.
  intros [F _ _ _ _]. unfold sat. destruct e; try apply F; unfold mark_flag; try tauto.
  intros [H|H]; [left|right]; apply F; unfold mark_flag; tauto.
Qed.

Lemma queued_app rs rs' e : queued (rs ++ rs') e ↔ queued rs e ∨ queued rs' e.
Proof.
  unfold queued. split.
  - intros (r & es & [Hr|Hr]%elem_of_app & H); [left|right]; eauto.
  - intros [(r & es & Hr & H)|(r & es & Hr & H)]; exists r, es; rewrite elem_of_app; tauto.
Qed.

Lemma done_step k st st' e : step k st st' → done_or_queued st e → done_or_queued st' e.
Proof.
  intros Hs [H|H]; [left; by eapply sat_step|right].
  destruct (s_roots _ _ _ Hs) as (rs & -> & _). apply queued_app. by left.
Qed.

Lemma parent_step k st st' n : step k st st' → parent_ok st n → parent_ok st' n.
Proof.
  intros Hs. unfold parent_ok. rewrite (s_state _ _ _ Hs). destruct (m_state st); [done|].
  intros (i & -> & Hi). exists i. split; [done|]. pose proof (prefix_length _ _ (s_nodes _ _ _ Hs)). lia.
Qed.

Lemma has_step k st st' f l : step k st st' → mark_flag f → has f l st = true → has f l st' = true.
Proof. intros Hs. apply (s_flags _ _ _ Hs). Qed.

Lemma promise_step k todo st st' e : step k st st' → promise todo st e → promise todo st' e.
Proof.
  intros Hs. unfold promise. destruct e as [l|l|l|l|l]; try done.
  - intros Hp b Hb. apply (has_step _ _ _ _ _ Hs); [left; done|by apply Hp].
  - intros Hp es e Hes He. destruct (Hp _ _ Hes He) as [H|H]; [left|by right]. by eapply done_step.
  - intros Hp b n fs f Hb Hfs Hf.
    apply (has_step _ _ _ _ _ Hs); [right; right; left; done|by eapply Hp].
  - intros Hp es e Hes He. destruct (Hp _ _ Hes He) as [H|H]; [left|by right]. by eapply done_step.
Qed.

(** Promises that have been fulfilled leave the list of exceptions. *)
Lemma inv_fulfil (E E' : event → Prop) todo st :
  inv E todo st → (∀ e, marked st e → E e → E' e ∨ promise todo st e) → inv E' todo st.
Proof.
  intros [H1 H2 H3 H4 H5 H6 H7] He. split; try done.
  intros e Hm. destruct (H3 e Hm) as [HE|]; [by apply He|by right].
Qed.

Lemma box_of_static st l b :
  same_static B0 (m_boxes st) → B0 !! l = Some b →
  ∃ b', m_boxes st !! l = Some b' ∧ same_box b b'.
Proof.
  intros Hs Hb. specialize (Hs l). rewrite Hb in Hs. destruct (m_boxes st !! l); [eauto|done].
Qed.

(** The marks a flag word stands for. *)
Definition flag_mark (f : N) (box : loc) (e : event) : Prop :=
  match e with
  | EWeak l => l = box ∧ test_flag BoxFlag_WeakMark f = true
  | EData l => l = box ∧ test_flag BoxFlag_DataMark f = true
  | EClass l => l = box ∧ test_flag BoxFlag_ClassMark f = true
  | EClosure l => l = box ∧ test_flag BoxFlag_ClosureWeakMark f = true
  | EField _ => False
  end.

(** Setting marks that are justified: their promises become exceptions. *)
Lemma inv_set k E todo st box f b :
  inv E todo st → B0 !! box = Some b → N.land f BoxFlag_MarkMask = f →
  (∀ e, flag_mark f box e → justified e) →
  (test_flag BoxFlag_DataMark f = true →
   has BoxFlag_WeakMark box st = true ∨ test_flag BoxFlag_WeakMark f = true) →
  (test_flag BoxFlag_ClassMark f = true →
   has BoxFlag_DataMark box st = true ∨ test_flag BoxFlag_DataMark f = true) →
  ∃ st', set_flags f box st = Some (tt, st') ∧
    inv (λ e, E e ∨ (flag_mark f box e ∧ ¬ marked st e)) todo st' ∧ step k st st' ∧
    (∀ e, flag_mark f box e → marked st' e) ∧
    m_markRoots st' = m_markRoots st ∧ m_destructGraph st' = m_destructGraph st ∧
    m_state st' = m_state st ∧ (∀ g l, l ≠ box → has g l st' = has g l st).
Proof.
  intros Hi Hb Hf Hj Hdw Hcd.
  destruct (box_of_static _ _ _ (i_static _ _ _ Hi) Hb) as (b' & Hb' & _).
  destruct (set_flags_ok f box st b' Hb' Hf)
    as (st' & Hset & Hst & Hr & Hg & Hs & Hh & Hbox).
  assert (Hstep : step k st st').
  { split; try congruence.
    - intros g l _ Hgl. by rewrite Hh, Hgl.
    - exists []. split; [by rewrite app_nil_r|]. right. constructor.
    - by rewrite Hg. }
  assert (Hm : ∀ e, marked st' e ↔ marked st e ∨ flag_mark f box e).
  { intros [l|l|l|l|l]; simpl; rewrite ?Hh, ?orb_true_iff, ?andb_true_iff, ?bool_decide_eq_true;
      tauto. }
  exists st'. split; [done|]. split; [|split; [done|split; [|split; [done|split; [done|split; [done|]]]]]].
  - destruct Hi as [H1 H2 H3 H4 H5 H6 H7]. split.
    + by eapply same_static_trans.
    + intros e [He|He]%Hm; auto.
    + intros e He. apply Hm in He as [He|He].
      * destruct (H3 e He) as [HE|HE]; [left; by left|right]. by eapply promise_step.
      * destruct (decide (marked st e)) as [He'|He'].
        -- destruct (H3 e He') as [HE|HE]; [left; by left|right]. by eapply promise_step.
        -- left. by right.
    + intros l. rewrite !Hh, !orb_true_iff, !andb_true_iff, !bool_decide_eq_true.
      intros [Hl|[-> Hl]]; [left; auto|]. destruct (Hdw Hl); tauto.
    + intros l. rewrite !Hh, !orb_true_iff, !andb_true_iff, !bool_decide_eq_true.
      intros [Hl|[-> Hl]]; [left; auto|]. destruct (Hcd Hl); tauto.
    + by rewrite Hr.
    + unfold graph_inv in *. rewrite Hs, Hr, Hg. destruct H7 as [H7 H7']. split.
      * rewrite Hbox. destruct (m_state st); [|by apply graph_wf_set].
        intros l b2. destruct (decide (l = box)) as [->|Hne].
        -- rewrite lookup_insert_eq. intros [= <-]. rewrite indexed_set by done. by eapply H7.
        -- rewrite lookup_insert_ne by done. apply H7.
      * intros r Hr'. by eapply parent_step, H7'.
  - intros e He. apply Hm. by right.
  - intros g l Hne. by rewrite Hh, bool_decide_false, orb_false_r.
Qed.

(** ** The operations *)

Lemma run_bind {A B} (m : M A) (f : A → M B) st x st1 :
  m st = Some (x, st1) → (m ≫= f) st = f x st1.
Proof. intros Hm. unfold mbind, M_bind. by rewrite Hm. Qed.

Lemma get_box_run st l b : m_boxes st !! l = Some b → get_box l st = Some (b, st).
Proof. intros Hb. unfold get_box. by rewrite Hb. Qed.

Lemma get_type_run st (ty : loc) (t : Type_) :
  types !! ty = Some t → lift (types !! ty) st = Some (t, st).
Proof. intros Ht. unfold lift. by rewrite Ht. Qed.

Lemma marked_has_box st f l : has f l st = true → is_Some (m_boxes st !! l).
Proof. unfold has. destruct (m_boxes st !! l); [eauto|done]. Qed.

Lemma has_box st l b f : m_boxes st !! l = Some b → has f l st = test_flag f (m_flags b).
Proof. unfold has. by intros ->. Qed.

(** The box of an event that marking follows. *)
Lemma implied_box e :
  D e → match e with EWeak l | EData l | EClass l | EClosure l | EField l => is_Some (B0 !! l) end.
Proof using D_ok.
  intros He. destruct (D_ok e He) as [[es Hes] _]. destruct e as [l|l|l|l|l]; simpl in Hes;
    unfold contents, class_of in Hes; destruct (B0 !! l); simpl in Hes; done || eauto.
Qed.

Lemma weakMark_ok k E todo st l :
  inv E todo st → D (EWeak l) →
  ∃ st', weakMark l st = Some (tt, st') ∧ inv E todo st' ∧ step k st st' ∧
    has BoxFlag_WeakMark l st' = true ∧
    (∀ b, B0 !! l = Some b → has BoxFlag_WeakMark (root_of l b) st' = true) ∧
    m_markRoots st' = m_markRoots st ∧ m_destructGraph st' = m_destructGraph st ∧
    m_state st' = m_state st.
Proof using D_ok D_closed.
  intros Hi Hl. destruct (implied_box _ Hl) as [b Hb].
  destruct (D_ok _ Hl) as [[es Hes] _]. simpl in Hes. rewrite Hb in Hes. simpl in Hes.
  destruct (B0 !! root_of l b) as [r|] eqn:Hr; simpl in Hes; [|done].
  destruct (box_of_static _ _ _ (i_static _ _ _ Hi) Hb) as (b' & Hb' & Hsb).
  destruct (inv_set k E todo st l BoxFlag_WeakMark b Hi Hb eq_refl) as
    (st1 & Hset & Hi1 & Hs1 & Hm1 & Hr1 & Hg1 & Hst1 & _); [| |done|].
  { intros [x|x|x|x|x]; simpl; try done; intros [-> ?]; try done. by left. }
  { intros; by right. }
  assert (Hw1 : has BoxFlag_WeakMark l st1 = true) by (by apply (Hm1 (EWeak l))).
  unfold weakMark. rewrite (run_bind _ _ _ _ _ (get_box_run _ _ _ Hb')), (run_bind _ _ _ _ _ Hset).
  destruct Hsb as (_ & -> & _ & _). unfold when, root_of in *.
  destruct (m_rootOffset b =? 0)%N eqn:Hz; simpl.
  - exists st1. split; [done|]. split; [|split; [done|split; [done|split; [|done]]]].
    + eapply inv_fulfil; [exact Hi1|]. intros e He [HE|[Hf _]]; [by left|]. right.
      destruct e as [x|x|x|x|x]; simpl in Hf; try done; destruct Hf as [-> Hf]; try done.
      intros b2 Hb2. rewrite Hb in Hb2. injection Hb2 as <-. unfold root_of. by rewrite Hz.
    + intros b2 Hb2. rewrite Hb in Hb2. injection Hb2 as <-. by rewrite Hz.
  - destruct (m_rootOffset r =? 0)%N eqn:Hrz; [|done]. injection Hes as <-.
    assert (Hdr : D (EWeak (l - m_rootOffset b)%N)).
    { eapply (D_closed (EWeak l)); [exact Hl| |left]. simpl. rewrite Hb. simpl.
      unfold root_of. rewrite Hz, Hr. simpl. by rewrite Hrz. }
    destruct (inv_set k _ todo st1 _ BoxFlag_WeakMark r Hi1 Hr eq_refl) as
      (st2 & Hset2 & Hi2 & Hs2 & Hm2 & Hr2 & Hg2 & Hst2 & _); [| |done|].
    { intros [x|x|x|x|x]; simpl; try done; intros [-> ?]; try done. by left. }
    { intros; by right. }
    assert (Hw2 : has BoxFlag_WeakMark (l - m_rootOffset b)%N st2 = true) by (by apply (Hm2 (EWeak _))).
    exists st2. split; [done|]. split; [|split; [by eapply step_trans|split; [|split; [|split; [|split]]]]];
      [| |intros b2 Hb2; rewrite Hb in Hb2; injection Hb2 as <-; by rewrite Hz|congruence..].
    + eapply inv_fulfil; [exact Hi2|]. intros e He [[HE|[Hf _]]|[Hf _]]; [by left|right|right];
        destruct e as [x|x|x|x|x]; simpl in Hf; try done; destruct Hf as [-> Hf]; try done;
        intros b2 Hb2; unfold root_of.
      * rewrite Hb in Hb2. injection Hb2 as <-. by rewrite Hz.
      * rewrite Hr in Hb2. injection Hb2 as <-. by rewrite Hrz.
    + apply (has_step _ _ _ _ _ Hs2); [by left|done].
Qed.

(** Changes that leave the marks and the queue alone. *)
Lemma inv_same_marks k E todo st st' :
  inv E todo st → step k st st' → same_static (m_boxes st) (m_boxes st') →
  (∀ f l, mark_flag f → has f l st' = has f l st) → m_markRoots st' = m_markRoots st →
  graph_inv todo st' → inv E todo st'.
Proof.
  intros [H1 H2 H3 H4 H5 H6 H7] Hs Hb Hh Hr Hg.
  assert (Hm : ∀ e, marked st' e → marked st e).
  { intros [l|l|l|l|l]; simpl; rewrite ?Hh; unfold mark_flag; tauto. }
  split; try done.
  - by eapply same_static_trans.
  - auto.
  - intros e He. destruct (H3 e (Hm _ He)) as [|HP]; [by left|right]. by eapply promise_step.
  - intros l. rewrite !Hh by (unfold mark_flag; tauto). auto.
  - intros l. rewrite !Hh by (unfold mark_flag; tauto). auto.
  - by rewrite Hr.
Qed.

Lemma graph_edge_ok k E todo st p l :
  inv E todo st → is_Some (B0 !! l) → parent_ok st p →
  ∃ n st', graph_edge p l st = Some (n, st') ∧ inv E todo st' ∧ step k st st' ∧ parent_ok st' n ∧
    (∀ f l', mark_flag f → has f l' st' = has f l' st) ∧ m_markRoots st' = m_markRoots st.
Proof.
  intros Hi [b Hb] Hp. unfold graph_edge, parent_ok in *.
  pose proof (i_graph _ _ _ Hi) as [Hg Hrs]. destruct (m_state st) eqn:Hst.
  { exists None, st. rewrite Hst. repeat split; try done; try apply step_refl; apply Hi. }
  destruct Hp as (i & -> & Hlt). simpl.
  destruct (box_of_static _ _ _ (i_static _ _ _ Hi) Hb) as (b' & Hb' & _).
  destruct (addEdge_ok _ _ _ _ _ Hg Hb' Hlt) as (j & boxes' & g' & ns & He & Hw & Hn & Hj & _).
  rewrite He. simpl. destruct (addEdge_static _ _ _ _ _ _ _ He) as (Hss & Hfl & Hcur).
  set (st' := with_graph g' (with_boxes boxes' st)).
  assert (Hh : ∀ f l', mark_flag f → has f l' st' = has f l' st).
  { intros f l' Hf. unfold has. simpl.
    assert (Hd : N.land f (N.lor BoxFlag_Index BoxFlag_Map) = 0%N)
      by (destruct Hf as [->|[->|[->| ->]]]; reflexivity).
    specialize (Hfl f l' Hd). destruct (boxes' !! l'), (m_boxes st !! l'); simpl in Hfl; congruence. }
  assert (Hstep : step k st st').
  { split; simpl; try done.
    - intros f l' Hf Hl. by rewrite Hh.
    - exists []. split; [by rewrite app_nil_r|]. right. constructor.
    - rewrite Hn. by apply prefix_app_r. }
  exists (Some j), st'. split; [done|]. split; [|split; [done|split; [|split; [done|done]]]].
  - eapply inv_same_marks; try done. split.
    + unfold st'. simpl. by rewrite Hst.
    + intros r Hr. eapply parent_step; [exact Hstep|]. by apply Hrs.
  - unfold st'. simpl. rewrite Hst. exists j. split; [done|].
    destruct (m_nodeArray g' !! j) eqn:Hj'; [|done]. by eapply lookup_lt_Some.
Qed.

(** Queueing roots whose references are demanded. *)
Lemma inv_push k E todo st rs :
  inv E todo st →
  (∀ r, r ∈ rs → parent_ok st (r_parent r) ∧
     ∃ es, scan mem types B0 depth (r_type r) (r_p r) = Some es ∧ ∀ e, e ∈ es → D e) →
  ∃ st', append_roots rs st = Some (tt, st') ∧ inv E todo st' ∧
    m_markRoots st' = m_markRoots st ++ rs ∧ (∀ f l, has f l st' = has f l st) ∧
    m_destructGraph st' = m_destructGraph st ∧ m_state st' = m_state st ∧
    (Forall (level k) rs → step k st st').
Proof.
  intros Hi Hrs. eexists. split; [reflexivity|].
  set (st' := with_roots _ st). assert (Hh : ∀ f l, has f l st' = has f l st) by done.
  assert (Hpr : ∀ e, promise todo st e → promise todo st' e).
  { assert (Hd : ∀ e, done_or_queued st e → done_or_queued st' e).
    { intros e [He|He]; [by left|right]. simpl. apply queued_app. by left. }
    intros [l|l|l|l|l]; simpl; try done.
    - intros Hp es e Hes He. destruct (Hp es e Hes He); auto.
    - intros Hp es e Hes He. destruct (Hp es e Hes He); auto. }
  split; [|split; [done|split; [done|split; [done|split; [done|]]]]].
  - destruct Hi as [H1 H2 H3 H4 H5 H6 H7]. split; try done.
    + intros e He. destruct (H3 e He); auto.
    + intros r Hr. simpl in Hr. rewrite <- app_assoc in Hr.
      rewrite !elem_of_app in Hr. destruct Hr as [Hr|[Hr|Hr]].
      * apply H6, elem_of_app. by left.
      * by apply Hrs.
      * apply H6, elem_of_app. by right.
    + destruct H7 as [H7 H7']. split; [done|]. intros r Hr. simpl in Hr.
      rewrite !elem_of_app in Hr. destruct Hr as [[Hr|Hr]|Hr].
      * apply (H7' r), elem_of_app. by left.
      * by apply Hrs.
      * apply (H7' r), elem_of_app. by right.
  - intros Hl. split; try done. exists rs. split; [done|by right].
Qed.

Definition none : event → Prop := λ _, False.
Definition current_ok (st : GcState) : Prop := parent_ok st (m_currentNode (m_destructGraph st)).

(** Roots queued for a box whose mark is new may run as deep as they like. *)
Lemma step_push k st st3 st' rs :
  step k st st3 → unset st3 < unset st → (∀ f l, has f l st' = has f l st3) →
  m_markRoots st' = m_markRoots st3 ++ rs → m_destructGraph st' = m_destructGraph st3 →
  m_state st' = m_state st3 → step k st st'.
Proof.
  intros [F (rs1 & R & _) C S N] Hu Hh Hr Hg Hs. split; try congruence.
  - intros f l Hf Hl. rewrite Hh. by apply F.
  - exists (rs1 ++ rs). split; [by rewrite Hr, R, app_assoc|]. left.
    assert (unset st' ≤ unset st3); [|lia]. apply unset_le. intros f l _. by rewrite Hh.
Qed.

Lemma current_step k st st' : step k st st' → current_ok st → current_ok st'.
Proof.
  intros Hs Hc. unfold current_ok. rewrite (s_current _ _ _ Hs). by eapply parent_step.
Qed.

(** The end of the operations that mark a box: the roots [rs] of its contents
    are queued, which fulfils the promises of the marks set just before. *)
Lemma push_contents k E todo st st3 rs :
  inv E todo st3 → step k st st3 → unset st3 < unset st →
  (∀ r, r ∈ rs → parent_ok st3 (r_parent r) ∧
     ∃ es, scan mem types B0 depth (r_type r) (r_p r) = Some es ∧ ∀ e, e ∈ es → D e) →
  (∀ st', (∀ f l, has f l st' = has f l st3) → (∀ e, queued rs e → queued (m_markRoots st') e) →
          (∀ e, promise todo st3 e → promise todo st' e) →
          ∀ e, marked st' e → E e → promise todo st' e) →
  ∃ st', append_roots rs st3 = Some (tt, st') ∧ inv none todo st' ∧ step k st st' ∧
    (∀ f l, has f l st' = has f l st3).
Proof.
  intros Hi Hs Hu Hrs HE.
  destruct (inv_push k E todo st3 rs Hi Hrs) as (st' & Ha & Hi' & Hr & Hh & Hg & Hst & _).
  exists st'. split; [done|]. split; [|split; [by eapply step_push|done]].
  eapply inv_fulfil; [exact Hi'|]. intros e Hm He. right. apply HE; try done.
  - intros e' He'. rewrite Hr. apply queued_app. by right.
  - intros e' Hp. destruct e' as [l|l|l|l|l]; simpl in *; try done.
    + intros b Hb. rewrite Hh. auto.
    + intros es e' Hes He'. destruct (Hp es e' Hes He') as [[H|H]|H]; [left; left|left; right|by right].
      * destruct e'; simpl in *; by rewrite ?Hh.
      * rewrite Hr. apply queued_app. by left.
    + intros. rewrite Hh. eauto.
    + intros es e' Hes He'. destruct (Hp es e' Hes He') as [[H|H]|H]; [left; left|left; right|by right].
      * destruct e'; simpl in *; by rewrite ?Hh.
      * rewrite Hr. apply queued_app. by left.
Qed.

Lemma pushRoot_run st t n p ty :
  types !! ty = Some t → t_gcRoot t = true →
  pushRoot types n p ty st = append_roots [mkRoot n p ty] st.
Proof. intros Ht Hg. unfold pushRoot. rewrite (run_bind _ _ _ _ _ (get_type_run _ _ _ Ht)). by rewrite Hg. Qed.

Lemma addRootArray_run st t n p ty count :
  types !! ty = Some t → t_gcRoot t = true → is_class t = false →
  addRootArray types n p ty count st =
  append_roots ((λ i, mkRoot n (p + N.of_nat i * t_size t)%N ty) <$> seq 0 count) st.
Proof.
  intros Ht Hg Hc. unfold addRootArray. rewrite (run_bind _ _ _ _ _ (get_type_run _ _ _ Ht)).
  by rewrite Hg, Hc.
Qed.

(** The roots that scanning the contents of a box amounts to. *)
Definition content_roots (n : option nat) (box : loc) (b : Box) (t : Type_) : list Root :=
  if negb (t_gcRoot t) || test_flag BoxFlag_Invalid (m_flags b) then []
  else if is_class t then [mkRoot n box (m_type b)]
  else if negb (test_flag BoxFlag_DynamicArray (m_flags b)) then
    [mkRoot n (box + sizeof_DataBox)%N (m_type b)]
  else (λ i, mkRoot n (box + sizeof_DataBox + N.of_nat i * t_size t)%N (m_type b))
         <$> seq 0 (getDynamicArrayElementCount mem box (t_size t)).

Lemma content_roots_spec n box b t es :
  B0 !! box = Some b → types !! m_type b = Some t → contents mem types depth B0 box = Some es →
  (∀ e, e ∈ es → queued (content_roots n box b t) e) ∧
  (∀ r, r ∈ content_roots n box b t → r_parent r = n ∧
     ∃ es', scan mem types B0 depth (r_type r) (r_p r) = Some es' ∧ ∀ e, e ∈ es' → e ∈ es).
Proof.
  intros Hb Ht. unfold contents, content_roots. rewrite Hb. simpl. rewrite Ht. simpl.
  assert (Hone : ∀ p, scan mem types B0 depth (m_type b) p = Some es →
    (∀ e, e ∈ es → queued [mkRoot n p (m_type b)] e) ∧
    ∀ r, r ∈ [mkRoot n p (m_type b)] → r_parent r = n ∧
     ∃ es', scan mem types B0 depth (r_type r) (r_p r) = Some es' ∧ ∀ e, e ∈ es' → e ∈ es).
  { intros p Hp. split.
    - intros e He. exists (mkRoot n p (m_type b)), es. split; [left|done].
    - intros r ->%list_elem_of_singleton. split; [done|]. by exists es. }
  destruct (_ || _).
  { intros [= <-]. split; [intros e He|intros r He]; by apply not_elem_of_nil in He. }
  destruct (is_class t); [apply Hone|]. destruct (negb _); [apply Hone|].
  intros [H1 H2]%flat_mapM_Some. split.
  - intros e (i & es' & Hi & Hs & He)%H2.
    exists (mkRoot n (box + sizeof_DataBox + N.of_nat i * t_size t)%N (m_type b)), es'.
    split; [|by split]. apply list_elem_of_fmap. by exists i.
  - intros r (i & -> & Hi)%list_elem_of_fmap. split; [done|]. by apply H1.
Qed.

Lemma markData_ok k todo st l :
  inv none todo st → D (EData l) → current_ok st →
  ∃ st', markData mem types l st = Some (tt, st') ∧ inv none todo st' ∧ step k st st' ∧
         has BoxFlag_DataMark l st' = true.
Proof using D_closed D_ok.
  intros Hi Hl Hcur. destruct (implied_box _ Hl) as [b Hb]. destruct (D_ok _ Hl) as [[es0 Hes0] _].
  assert (Himp := Hes0). simpl in Hes0.
  destruct (contents mem types depth B0 l) as [es|] eqn:Hes; simpl in Hes0; [|done].
  injection Hes0 as <-.
  assert (HDw : D (EWeak l)) by (eapply D_closed; [exact Hl|exact Himp|left]).
  assert (HDs : ∀ e, e ∈ es → D e) by (intros; eapply D_closed; [exact Hl|exact Himp|by right]).
  destruct (weakMark_ok k _ _ _ _ Hi HDw) as (st1 & Hw & Hi1 & Hs1 & Hw1 & _ & _ & Hg1 & _).
  pose proof (current_step _ _ _ Hs1 Hcur) as Hcur1.
  destruct (graph_edge_ok k _ _ _ _ l Hi1 (ex_intro _ b Hb) Hcur1)
    as (n & st2 & Hge & Hi2 & Hs2 & Hn & Hh2 & _).
  destruct (box_of_static _ _ _ (i_static _ _ _ Hi2) Hb) as (b2 & Hb2 & Hsb).
  unfold markData. rewrite (run_bind _ _ _ _ _ Hw). rewrite (run_bind currentNode _ _ _ st1 eq_refl).
  rewrite (run_bind _ _ _ _ _ Hge), (run_bind _ _ _ _ _ (get_box_run _ _ _ Hb2)).
  pose proof (step_trans _ _ _ _ Hs1 Hs2) as Hs12.
  destruct (test_flag BoxFlag_DataMark (m_flags b2)) eqn:Hdm.
  { exists st2. split; [done|]. split; [done|split; [done|]]. by rewrite (has_box _ _ _ _ Hb2). }
  assert (Hw2 : has BoxFlag_WeakMark l st2 = true)
    by (apply (has_step _ _ _ _ _ Hs2); [by left|done]).
  destruct (inv_set k none todo st2 l BoxFlag_DataMark b Hi2 Hb eq_refl) as
    (st3 & Hset & Hi3 & Hs3 & Hm3 & Hr3 & Hg3 & Hst3 & _); [|by left|done|].
  { intros [x|x|x|x|x]; simpl; try done; intros [-> ?]; try done. by left. }
  assert (Hd3 : has BoxFlag_DataMark l st3 = true) by (by apply (Hm3 (EData l))).
  rewrite (run_bind _ _ _ _ _ Hset).
  pose proof (step_trans _ _ _ _ Hs12 Hs3) as Hs13.
  assert (Hlt : unset st3 < unset st).
  { pose proof (unset_le _ _ (s_flags _ _ _ Hs12)).
    assert (unset st3 < unset st2); [|lia].
    apply (unset_lt _ _ l BoxFlag_DataMark (s_flags _ _ _ Hs3)); [|by left| |done].
    - apply elem_of_dom. by exists b.
    - by rewrite (has_box _ _ _ _ Hb2). }
  destruct Hsb as (Hty & _ & Hinv & Hdyn).
  assert (is_Some (types !! m_type b)) as [t Ht].
  { unfold contents in Hes. rewrite Hb in Hes. simpl in Hes. destruct (types !! m_type b); [eauto|done]. }
  destruct (content_roots_spec n l b t es Hb Ht Hes) as [Hq Hcr].
  destruct (push_contents k _ todo st st3 (content_roots n l b t) Hi3 Hs13 Hlt) as
    (st' & Ha & Hi' & Hs' & Hh').
  { intros r Hr. destruct (Hcr r Hr) as (-> & es' & Hes' & Hin). split.
    - by eapply parent_step; [exact Hs3|].
    - exists es'. split; [done|]. auto. }
  { intros st' Hh Hqq _ e Hm [[]|[Hf _]]. destruct e as [x|x|x|x|x]; simpl in Hf; try done;
      destruct Hf as [-> Hf]; try done.
    intros es' e Hes' He. rewrite Hes in Hes'. injection Hes' as <-. left. right. auto. }
  rewrite Hty. rewrite (run_bind _ _ _ _ _ (get_type_run _ _ _ Ht)).
  rewrite Hinv, Hdyn. exists st'. split; [|split; [done|split; [done|by rewrite Hh']]].
  rewrite <- Ha. unfold content_roots. destruct (t_gcRoot t) eqn:Hgc; simpl;
    [|unfold append_roots; rewrite app_nil_r; by destruct st3].
  destruct (test_flag BoxFlag_Invalid (m_flags b));
    [unfold append_roots; rewrite app_nil_r; by destruct st3|].
  destruct (is_class t) eqn:Hc; [by rewrite (pushRoot_run _ t)|].
  destruct (test_flag BoxFlag_DynamicArray (m_flags b)); cbn [negb].
  - by rewrite (addRootArray_run _ t).
  - by rewrite (pushRoot_run _ t).
Qed.

(** ** Class fields *)

Lemma class_fields_above n ty p fs f :
  class_fields types B0 n ty p = Some fs → f ∈ fs → (p ≤ f)%N.
Proof.
  revert ty p fs f. induction n as [|n IH]; intros ty p fs f; [done|].
  change (class_fields types B0 (S n)) with (class_fields_body types B0 (class_fields types B0 n)).
  unfold class_fields_body. intros H.
  apply bind_Some in H as (t & _ & H). apply bind_Some in H as (c & _ & H).
  apply bind_Some in H as (fs1 & [_ H1]%flat_mapM_Some & H).
  apply bind_Some in H as (fs2 & [_ H2]%flat_mapM_Some & [= <-]).
  intros [Hf|Hf]%elem_of_app.
  - destruct (H1 f Hf) as (s & y & _ & Hy & Hin). pose proof (IH _ _ _ _ Hy Hin). lia.
  - destruct (H2 f Hf) as (s & y & _ & Hy & Hin).
    apply bind_Some in Hy as (b & _ & Hy). apply bind_Some in Hy as (fs & Hfs & [= <-]).
    apply elem_of_cons in Hin as [->|Hin]; [lia|]. pose proof (IH _ _ _ _ Hfs Hin).
    unfold iface_of, sizeof_Box in *. lia.
Qed.

Lemma class_fields_det n n' ty p fs fs' :
  class_fields types B0 n ty p = Some fs → class_fields types B0 n' ty p = Some fs' → fs = fs'.
Proof.
  intros H1 H2. destruct (decide (n ≤ n')).
  - apply (class_fields_le _ _ n n') in H1; [congruence|done].
  - apply (class_fields_le _ _ n' n) in H2; [congruence|lia].
Qed.

(** A field whose object is being marked. *)
Definition field_ready (st : GcState) (f : loc) : Prop :=
  D (EField f) ∧ ∃ bf, B0 !! f = Some bf ∧ has BoxFlag_WeakMark (root_of f bf) st = true.

Definition or_data (E : event → Prop) (fs : list loc) (e : event) : Prop :=
  E e ∨ ∃ f, f ∈ fs ∧ e = EData f.

(** [m] marks the fields [fs], all of them at or above [iface]. *)
Definition marks_fields (p : option nat) (iface : loc) (m : M unit) (fs : list loc) : Prop :=
  ∀ k E todo st, inv E todo st → parent_ok st p → (∀ x, E (EClass x) → (x < iface)%N) →
    (∀ f, f ∈ fs → field_ready st f) →
    ∃ st', m st = Some (tt, st') ∧ inv (or_data E fs) todo st' ∧ step k st st' ∧
      (∀ f, f ∈ fs → has BoxFlag_ClassMark f st' = true) ∧ m_markRoots st' = m_markRoots st.

Lemma field_ready_step k st st' f : step k st st' → field_ready st f → field_ready st' f.
Proof.
  intros Hs (H1 & bf & H2 & H3). split; [done|]. exists bf. split; [done|].
  apply (has_step _ _ _ _ _ Hs); [by left|done].
Qed.

Lemma inv_weaken (E E' : event → Prop) todo st : (∀ e, E e → E' e) → inv E todo st → inv E' todo st.
Proof. intros He Hi. eapply inv_fulfil; [exact Hi|]. auto. Qed.

Lemma marks_fields_ret p iface : marks_fields p iface (mret tt) [].
Proof.
  intros k E todo st Hi _ _ _. exists st. split; [done|]. split; [|split; [apply step_refl|split; [|done]]].
  - eapply inv_weaken; [|exact Hi]. by left.
  - intros f Hf. by apply not_elem_of_nil in Hf.
Qed.

Lemma marks_fields_bind p iface m1 m2 fs1 fs2 :
  marks_fields p iface m1 fs1 → marks_fields p iface m2 fs2 →
  marks_fields p iface (_ ← m1; m2) (fs1 ++ fs2).
Proof.
  intros H1 H2 k E todo st Hi Hp HE Hf.
  destruct (H1 k E todo st Hi Hp HE) as (st1 & Hm1 & Hi1 & Hs1 & Hc1 & Hr1).
  { intros f Hin. apply Hf, elem_of_app. by left. }
  destruct (H2 k (or_data E fs1) todo st1 Hi1) as (st2 & Hm2 & Hi2 & Hs2 & Hc2 & Hr2).
  { by eapply parent_step. }
  { intros x [Hx|(f & _ & Hx)]; [by apply HE|done]. }
  { intros f Hin. eapply field_ready_step; [exact Hs1|]. apply Hf, elem_of_app. by right. }
  exists st2. split; [by rewrite (run_bind _ _ _ _ _ Hm1)|].
  split; [|split; [by eapply step_trans|split; [|congruence]]].
  - eapply inv_weaken; [|exact Hi2]. intros e [[He|(f & Hin & ->)]|(f & Hin & ->)]; [by left|right..];
      exists f; rewrite elem_of_app; tauto.
  - intros f [Hin|Hin]%elem_of_app; [|by apply Hc2].
    apply (has_step _ _ _ _ _ Hs2); [right; right; by left|]. by apply Hc1.
Qed.

Lemma marks_fields_each {A} p iface (l : list A) (m : A → M unit) (g : A → option (list loc)) fs :
  (∀ x fs, x ∈ l → g x = Some fs → marks_fields p iface (m x) fs) →
  flat_mapM g l = Some fs → marks_fields p iface (for_each l m) fs.
Proof.
  revert fs. induction l as [|x l IH]; intros fs Hg; simpl.
  { intros [= <-]. apply marks_fields_ret. }
  destruct (g x) as [y|] eqn:Hx; simpl; [|done]. destruct (flat_mapM g l) as [z|]; simpl; [|done].
  intros [= <-]. apply marks_fields_bind; [by apply Hg; [left|]|].
  apply IH; [|done]. intros. apply Hg; [by right|done].
Qed.

Lemma marks_fields_iface p iface iface' m fs :
  (iface ≤ iface')%N → marks_fields p iface' m fs → marks_fields p iface m fs.
Proof.
  intros Hle Hm k E todo st Hi Hp HE. apply Hm; try done. intros x Hx. specialize (HE x Hx). lia.
Qed.

(** One class field: skipped if it is marked, or else marked with its fields. *)
Lemma marks_one_field n p f b fs :
  B0 !! f = Some b → class_fields types B0 n (m_type b) (iface_of f) = Some fs →
  (∀ p', marks_fields p' (iface_of f) (markClassFields types n p' (m_type b) (iface_of f)) fs) →
  marks_fields p f
    (fieldNode ← graph_edge p f;
     b ← get_box f;
     if test_flag BoxFlag_ClassMark (m_flags b) then mret tt
     else
       _ ← set_flags (N.lor BoxFlag_ClassMark (N.lor BoxFlag_DataMark BoxFlag_WeakMark)) f;
       markClassFields types n fieldNode (m_type b) (iface_of f)) (f :: fs).
Proof.
  intros Hb Hfs IH k E todo st Hi Hp HE Hf.
  destruct (graph_edge_ok k _ _ _ _ f Hi (ex_intro _ b Hb) Hp)
    as (nd & st2 & Hge & Hi2 & Hs2 & Hn & _ & Hr2).
  destruct (box_of_static _ _ _ (i_static _ _ _ Hi2) Hb) as (b2 & Hb2 & Hty & _).
  rewrite (run_bind _ _ _ _ _ Hge), (run_bind _ _ _ _ _ (get_box_run _ _ _ Hb2)).
  destruct (test_flag BoxFlag_ClassMark (m_flags b2)) eqn:Hcm.
  - rewrite <- (has_box _ _ _ _ Hb2) in Hcm. exists st2. split; [done|].
    split; [|split; [done|split; [|done]]]; [eapply inv_weaken; [|exact Hi2]; by left|].
    intros x [->|Hx]%elem_of_cons; [done|].
    destruct (i_promise _ _ _ Hi2 (EClass f) Hcm) as [Hx'|Hpr]; [apply HE in Hx'; lia|].
    by eapply Hpr.
  - destruct (Hf f ltac:(left)) as (HDf & bf & Hbf & Hroot). rewrite Hb in Hbf. injection Hbf as <-.
    destruct (inv_set k E todo st2 f (N.lor BoxFlag_ClassMark (N.lor BoxFlag_DataMark BoxFlag_WeakMark))
                b Hi2 Hb eq_refl) as (st3 & Hset & Hi3 & Hs3 & Hm3 & Hr3 & Hg3 & Hst3 & _).
    { intros [x|x|x|x|x]; simpl; try done; intros [-> ?]; try done; right; done. }
    { intros _; by right. }
    { intros _; by right. }
    rewrite (run_bind _ _ _ _ _ Hset), Hty.
    assert (Hi3' : inv (λ e, E e ∨ e = EData f ∨ e = EClass f) todo st3).
    { eapply inv_fulfil; [exact Hi3|]. intros e He [HE'|[Hfm _]]; [by left; left|].
      destruct e as [x|x|x|x|x]; simpl in Hfm; try done; destruct Hfm as [-> Hfm]; try done.
      - right. intros b' Hb'. rewrite Hb in Hb'. injection Hb' as <-.
        apply (has_step _ _ _ _ _ Hs3); [by left|]. by apply (has_step _ _ _ _ _ Hs2); [left|].
      - left. tauto.
      - left. tauto. }
    pose proof (step_trans _ _ _ _ Hs2 Hs3) as Hs23.
    destruct (IH nd k _ todo st3 Hi3') as (st4 & Hm4 & Hi4 & Hs4 & Hc4 & Hr4).
    { eapply parent_step; [exact Hs3|done]. }
    { intros x [Hx|[Hx|[= ->]]]; [|done|unfold iface_of, sizeof_Box; lia].
      apply HE in Hx. unfold iface_of, sizeof_Box. lia. }
    { intros x Hx. eapply field_ready_step; [exact Hs23|]. apply Hf. by right. }
    exists st4. split; [done|]. split; [|split; [by eapply step_trans|split; [|congruence]]].
    + eapply inv_fulfil; [exact Hi4|]. intros e He [[HE'|[->| ->]]|(x & Hx & ->)].
      * left. by left.
      * left. right. exists f. split; [left|done].
      * right. intros b' m fs' x Hb' Hfs' Hx. rewrite Hb in Hb'. injection Hb' as <-.
        rewrite <- (class_fields_det _ _ _ _ _ _ Hfs Hfs') in Hx. by apply Hc4.
      * left. right. exists x. split; [by right|done].
    + intros x [->|Hx]%elem_of_cons; [|by apply Hc4].
      apply (has_step _ _ _ _ _ Hs4); [right; right; by left|]. by apply (Hm3 (EClass f)).
Qed.

Lemma markClassFields_ok n p ty iface fs :
  class_fields types B0 n ty iface = Some fs →
  marks_fields p iface (markClassFields types n p ty iface) fs.
Proof.
  revert p ty iface fs. induction n as [|n IH]; intros p ty iface fs; [done|].
  change (class_fields types B0 (S n)) with (class_fields_body types B0 (class_fields types B0 n)).
  unfold class_fields_body. intros H.
  apply bind_Some in H as (t & Ht & H). apply bind_Some in H as (c & Hc & H).
  apply bind_Some in H as (fs1 & H1 & H). apply bind_Some in H as (fs2 & H2 & [= <-]).
  intros k E todo st. cbn [markClassFields].
  rewrite (run_bind _ _ _ _ _ (get_type_run _ _ _ Ht)). rewrite Hc.
  rewrite (run_bind (lift (Some c)) _ _ c st eq_refl).
  apply (marks_fields_bind p iface).
  - eapply marks_fields_each; [|exact H1]. intros s fs _ Hfs. simpl in Hfs.
    eapply marks_fields_iface; [|by apply IH]. lia.
  - eapply marks_fields_each; [|exact H2]. intros s fs _ Hfs. simpl in Hfs.
    apply bind_Some in Hfs as (b & Hb & Hfs). apply bind_Some in Hfs as (fs' & Hfs' & [= <-]).
    eapply marks_fields_iface; [|eapply marks_one_field; [exact Hb|exact Hfs'|]]; [lia|].
    intros p'. by apply IH.
Qed.

(** ** Objects and weak closures *)

Lemma contents_of l es0 :
  implied mem types depth B0 (EData l) = Some es0 → D (EData l) →
  ∃ es, contents mem types depth B0 l = Some es ∧ ∀ e, e ∈ es → D e.
Proof using D_closed.
  intros Himp Hl. assert (Hi := Himp). simpl in Hi.
  destruct (contents mem types depth B0 l) as [es|]; simpl in Hi; [|done]. injection Hi as <-.
  exists es. split; [done|]. intros e He. eapply D_closed; [exact Hl|exact Himp|by right].
Qed.

(** What the demand of an object comes with. *)
Lemma class_demand l :
  D (EClass l) →
  ∃ b t c fs es, B0 !! l = Some b ∧ types !! m_type b = Some t ∧ class_info t = Some c ∧
    class_fields types B0 depth (m_type b) (iface_of l) = Some fs ∧
    contents mem types depth B0 l = Some es ∧ (∀ e, e ∈ es → D e) ∧ D (EWeak l) ∧ D (EData l) ∧
    (∀ f, f ∈ fs → D (EField f)) ∧ fields_ok mem types depth B0 l.
Proof using D_closed D_ok.
  intros Hl. destruct (D_ok _ Hl) as [[es0 Himp] Hfok]. assert (Hi := Himp). simpl in Hi.
  apply bind_Some in Hi as ([b c] & Hcl & Hi). apply bind_Some in Hi as (fs & Hfs & [= <-]).
  unfold class_of in Hcl. apply bind_Some in Hcl as (b' & Hb & Hcl).
  apply bind_Some in Hcl as (t & Ht & Hcl). apply bind_Some in Hcl as (c' & Hc & [= <- <-]).
  assert (HDd : D (EData l)) by (eapply D_closed; [exact Hl|exact Himp|right; left]).
  destruct (D_ok _ HDd) as [[es1 Himp1] _].
  destruct (contents_of _ _ Himp1 HDd) as (es & Hes & HDs).
  exists b', t, c', fs, es. do 6 (split; [done|]). split; [|split; [done|split; [|done]]].
  - eapply D_closed; [exact Hl|exact Himp|left].
  - intros f Hf. eapply D_closed; [exact Hl|exact Himp|]. do 2 right.
    by apply list_elem_of_fmap_2.
Qed.

Lemma class_contents_when st n l b t :
  class_info t ≠ None → types !! m_type b = Some t →
  when (t_gcRoot t && negb (test_flag BoxFlag_Invalid (m_flags b))) (pushRoot types n l (m_type b)) st
  = append_roots (content_roots n l b t) st.
Proof.
  intros Hc Ht. unfold content_roots, is_class. destruct (class_info t); [|done].
  destruct (t_gcRoot t) eqn:Hg, (test_flag BoxFlag_Invalid (m_flags b)); simpl;
    try (unfold append_roots; rewrite app_nil_r; by destruct st).
  by rewrite (pushRoot_run _ t).
Qed.

Lemma markClass_ok k todo st l :
  inv none todo st → D (EClass l) → current_ok st →
  ∃ st', markClass types depth l st = Some (tt, st') ∧ inv none todo st' ∧ step k st st' ∧
         has BoxFlag_ClassMark l st' = true.
Proof using D_closed D_ok.
  intros Hi Hl Hcur.
  destruct (class_demand l Hl) as (b & t & c & fs & es & Hb & Ht & Hc & Hfs & Hes & HDs & HDw & HDd & HDf & Hfok).
  destruct (graph_edge_ok k _ _ _ _ l Hi (ex_intro _ b Hb) Hcur)
    as (n & st1 & Hge & Hi1 & Hs1 & Hn & Hh1 & _).
  destruct (box_of_static _ _ _ (i_static _ _ _ Hi1) Hb) as (b1 & Hb1 & Hty & _ & Hinv & _).
  unfold markClass. rewrite (run_bind currentNode _ _ _ st eq_refl).
  rewrite (run_bind _ _ _ _ _ Hge), (run_bind _ _ _ _ _ (get_box_run _ _ _ Hb1)).
  destruct (test_flag BoxFlag_ClassMark (m_flags b1)) eqn:Hcm.
  { exists st1. split; [done|]. split; [done|split; [done|]]. by rewrite (has_box _ _ _ _ Hb1). }
  destruct (weakMark_ok k _ _ _ _ Hi1 HDw) as (st2 & Hw & Hi2 & Hs2 & Hw2 & Hroot & _).
  rewrite (run_bind _ _ _ _ _ Hw), Hty.
  destruct (markClassFields_ok depth n (m_type b) (iface_of l) fs Hfs k none todo st2 Hi2)
    as (st3 & Hmf & Hi3 & Hs3 & Hc3 & _).
  { eapply parent_step; [exact Hs2|done]. }
  { done. }
  { intros f Hf. split; [by apply HDf|]. destruct (Hfok b fs f Hb Hfs Hf) as (bf & Hbf & _ & Hrt & _).
    exists bf. split; [done|]. rewrite Hrt. by apply Hroot. }
  rewrite (run_bind _ _ _ _ _ Hmf).
  assert (Hw3 : has BoxFlag_WeakMark l st3 = true)
    by (apply (has_step _ _ _ _ _ Hs3); [by left|done]).
  destruct (inv_set k _ todo st3 l (N.lor BoxFlag_ClassMark BoxFlag_DataMark) b Hi3 Hb eq_refl) as
    (st4 & Hset & Hi4 & Hs4 & Hm4 & _).
  { intros [x|x|x|x|x]; simpl; try done; intros [-> ?]; try done; by left. }
  { intros _; by left. }
  { intros _; by right. }
  rewrite (run_bind _ _ _ _ _ Hset), (run_bind _ _ _ _ _ (get_type_run _ _ _ Ht)), Hinv.
  rewrite (class_contents_when _ n l b t) by (congruence || done).
  pose proof (step_trans _ _ _ _ Hs1 (step_trans _ _ _ _ Hs2 Hs3)) as Hs13.
  pose proof (step_trans _ _ _ _ Hs13 Hs4) as Hs14.
  assert (Hlt : unset st4 < unset st).
  { apply (unset_lt _ _ l BoxFlag_ClassMark (s_flags _ _ _ Hs14)); [|by right; left| |].
    - apply elem_of_dom. by exists b.
    - rewrite <- Hh1 by (right; right; by left). by rewrite (has_box _ _ _ _ Hb1).
    - by apply (Hm4 (EClass l)). }
  destruct (content_roots_spec n l b t es Hb Ht Hes) as [Hq Hcr].
  destruct (push_contents k _ todo st st4 (content_roots n l b t) Hi4 Hs14 Hlt) as
    (st' & Ha & Hi' & Hs' & Hh').
  { intros r Hr. destruct (Hcr r Hr) as (-> & es' & Hes' & Hin). split.
    - eapply parent_step; [exact Hs4|]. eapply parent_step; [exact Hs3|].
      by eapply parent_step; [exact Hs2|].
    - exists es'. split; [done|]. auto. }
  { intros st' Hh Hqq _ e Hm [[[]|(f & Hf & ->)]|[Hf _]].
    - intros es' e Hes' He. destruct (Hfok b fs f Hb Hfs Hf) as (bf & _ & _ & _ & ef & el & Hef & Hel & Hin).
      rewrite Hef in Hes'. injection Hes' as <-. rewrite Hes in Hel. injection Hel as <-.
      left. right. auto.
    - destruct e as [x|x|x|x|x]; simpl in Hf; try done; destruct Hf as [-> Hf]; try done.
      + intros es' e Hes' He. rewrite Hes in Hes'. injection Hes' as <-. left. right. auto.
      + intros b' m fs' x Hb' Hfs' Hx. rewrite Hb in Hb'. injection Hb' as <-.
        rewrite <- (class_fields_det _ _ _ _ _ _ Hfs Hfs') in Hx. rewrite Hh.
        apply (has_step _ _ _ _ _ Hs4); [right; right; by left|]. by apply Hc3. }
  exists st'. split; [done|]. split; [done|split; [done|]]. rewrite Hh'. by apply (Hm4 (EClass l)).
Qed.

(** The roots a weak closure queues. *)
Definition closure_roots (n : option nat) (l : loc) (c : ClassInfo) (i : nat) (this : Slot) (w : loc)
    : list Root :=
  mkRoot n (iface_of l + s_offset this)%N w ::
  concat ((λ '(j, s), if decide (j = i) then []
                      else [mkRoot n (iface_of l + s_offset s)%N (s_type s)])
          <$> imap pair (m_classGcRootFieldArray c)).

Lemma append_append rs1 rs2 st :
  (_ ← append_roots rs1; append_roots rs2) st = append_roots (rs1 ++ rs2) st.
Proof. unfold append_roots, mbind, M_bind. simpl. by rewrite app_assoc. Qed.

Lemma root_events_run n p ty es st :
  root_events mem types depth B0 ty p = Some es →
  pushRoot types n p ty st = append_roots [mkRoot n p ty] st ∧
  scan mem types B0 depth ty p = Some es.
Proof.
  unfold root_events. intros H. apply bind_Some in H as (t & Ht & H).
  destruct (t_gcRoot t) eqn:Hg; [|done]. split; [by rewrite (pushRoot_run _ t)|done].
Qed.

Lemma push_fields_run n l i (fs : list (nat * Slot)) es st :
  flat_mapM (λ '(j, s), if decide (j = i) then Some []
    else root_events mem types depth B0 (s_type s) (iface_of l + s_offset s)%N) fs = Some es →
  for_each fs (λ '(j, s), if decide (j = i) then mret tt
    else pushRoot types n (iface_of l + s_offset s)%N (s_type s)) st =
  append_roots (concat ((λ '(j, s), if decide (j = i) then []
    else [mkRoot n (iface_of l + s_offset s)%N (s_type s)]) <$> fs)) st.
Proof.
  revert es st. induction fs as [|[j s] fs IH]; intros es st.
  { intros _. simpl. unfold append_roots. rewrite app_nil_r. by destruct st. }
  cbn [flat_mapM]. intros H. apply bind_Some in H as (y & Hy & H).
  apply bind_Some in H as (z & Hz & _). rewrite fmap_cons. cbn [for_each concat].
  destruct (decide (j = i)).
  - rewrite (run_bind (mret tt) _ _ tt st eq_refl). by eapply IH.
  - destruct (root_events_run n _ _ _ st Hy) as [Hp _]. rewrite <- append_append.
    unfold mbind, M_bind. rewrite Hp. unfold append_roots at 1 2. simpl. by eapply IH.
Qed.

Lemma closure_roots_spec n l c i this es :
  closure_contents mem types depth B0 l c i this = Some es →
  ∃ ft w, types !! s_type this = Some ft ∧
    match t_kind ft with TypeKind_ClassPtr _ w => Some w | _ => None end = Some w ∧
    (∀ st, (_ ← pushRoot types n (iface_of l + s_offset this)%N w;
            for_each (imap pair (m_classGcRootFieldArray c)) (λ '(j, s),
              if decide (j = i) then mret tt
              else pushRoot types n (iface_of l + s_offset s)%N (s_type s))) st
           = append_roots (closure_roots n l c i this w) st) ∧
    (∀ e, e ∈ es → queued (closure_roots n l c i this w) e) ∧
    (∀ r, r ∈ closure_roots n l c i this w → r_parent r = n ∧
     ∃ es', scan mem types B0 depth (r_type r) (r_p r) = Some es' ∧ ∀ e, e ∈ es' → e ∈ es).
Proof.
  unfold closure_contents. intros H. apply bind_Some in H as (ft & Hft & H).
  apply bind_Some in H as (w & Hw & H). apply bind_Some in H as (es1 & H1 & H).
  apply bind_Some in H as (es2 & H2 & [= <-]). exists ft, w. do 2 (split; [done|]).
  pose proof (λ st, root_events_run n _ _ _ st H1) as Hr1.
  destruct (flat_mapM_Some _ _ _ H2) as [H3 H4]. unfold closure_roots. split; [|split].
  - intros st. change (mkRoot ?a ?b ?c :: ?l) with ([mkRoot a b c] ++ l). rewrite <- append_append.
    unfold mbind, M_bind. rewrite (proj1 (Hr1 st)). unfold append_roots at 1 2. simpl.
    by eapply push_fields_run.
  - intros e [He|He]%elem_of_app.
    + exists (mkRoot n (iface_of l + s_offset this)%N w), es1. split; [left|].
      split; [by apply (Hr1 (mkGc ∅ [] (mkGraph [] ∅ [] [] [] 0 None) State_Mark))|done].
    + destruct (H4 e He) as ([j s] & y & Hin & Hy & Hey). destruct (decide (j = i)).
      { injection Hy as <-. by apply not_elem_of_nil in Hey. }
      destruct (root_events_run n _ _ _ (mkGc ∅ [] (mkGraph [] ∅ [] [] [] 0 None) State_Mark) Hy)
        as [_ Hsc].
      exists (mkRoot n (iface_of l + s_offset s)%N (s_type s)), y. split; [|done]. right.
      apply list_elem_of_In, in_concat.
      exists [mkRoot n (iface_of l + s_offset s)%N (s_type s)]. split; [|by left].
      apply list_elem_of_In, list_elem_of_fmap. exists (j, s). split; [|done].
      by rewrite decide_False.
  - intros r [->|Hr]%elem_of_cons.
    + split; [done|]. exists es1. split; [by apply (Hr1 (mkGc ∅ [] (mkGraph [] ∅ [] [] [] 0 None) State_Mark))|].
      intros e He. apply elem_of_app. by left.
    + apply list_elem_of_In, in_concat in Hr as (rs & Hrs & Hr).
      apply list_elem_of_In in Hrs, Hr. apply list_elem_of_fmap in Hrs as ([j s] & -> & Hin).
      destruct (decide (j = i)); [by apply not_elem_of_nil in Hr|].
      apply list_elem_of_singleton in Hr as ->. split; [done|].
      destruct (H3 _ Hin) as (y & Hy & Hsub). rewrite decide_False in Hy by done.
      exists y. split.
      * by apply (root_events_run n _ _ _ (mkGc ∅ [] (mkGraph [] ∅ [] [] [] 0 None) State_Mark) Hy).
      * intros e He. apply elem_of_app. right. auto.
Qed.

Lemma test_flag_lor f g x : test_flag (N.lor f g) x = test_flag f x || test_flag g x.
Proof.
  unfold test_flag. rewrite N.land_lor_distr_r.
  destruct (N.eqb_spec (N.lor (N.land x f) (N.land x g)) 0) as [H|H].
  - by apply N.lor_eq_0_iff in H as [-> ->].
  - destruct (N.eqb_spec (N.land x f) 0) as [H1|]; [|done].
    destruct (N.eqb_spec (N.land x g) 0) as [H2|]; [|done]. by rewrite H1, H2 in H.
Qed.

Lemma weakMarkClosureClass_ok k todo st l :
  inv none todo st → D (EClosure l) → current_ok st →
  ∃ st', weakMarkClosureClass types depth l st = Some (tt, st') ∧ inv none todo st' ∧
         step k st st' ∧ sat st' (EClosure l).
Proof using D_closed D_ok.
  intros Hi Hl Hcur. destruct (D_ok _ Hl) as [[es0 Himp] _]. assert (Hi0 := Himp). simpl in Hi0.
  apply bind_Some in Hi0 as ([b c] & Hcl & Hi0).
  unfold class_of in Hcl. apply bind_Some in Hcl as (b' & Hb & Hcl).
  apply bind_Some in Hcl as (t & Ht & Hcl). apply bind_Some in Hcl as (c' & Hc & [= -> ->]).
  destruct (box_of_static _ _ _ (i_static _ _ _ Hi) Hb) as (b1 & Hb1 & Hty & _).
  unfold weakMarkClosureClass. rewrite (run_bind _ _ _ _ _ (get_box_run _ _ _ Hb1)).
  rewrite test_flag_lor. rewrite <- !(has_box _ _ _ _ Hb1).
  destruct (has BoxFlag_ClassMark l st || has BoxFlag_ClosureWeakMark l st) eqn:Hm.
  { exists st. split; [done|]. split; [done|split; [apply step_refl|]].
    by apply orb_true_iff in Hm. }
  apply orb_false_iff in Hm as [_ Hcw].
  rewrite Hty, (run_bind _ _ _ _ _ (get_type_run _ _ _ Ht)), Hc.
  rewrite (run_bind (lift (Some c)) _ _ c st eq_refl).
  destruct (m_thisArgField c) as [[i this]|] eqn:Hthis.
  - apply bind_Some in Hi0 as (es & Hes & [= <-]).
    assert (HDs : ∀ e, e ∈ es → D e) by (intros; eapply D_closed; [exact Hl|exact Himp|by right]).
    assert (HDw : D (EWeak l)) by (eapply D_closed; [exact Hl|exact Himp|left]).
    destruct (weakMark_ok k _ _ _ _ Hi HDw) as (st1 & Hw & Hi1 & Hs1 & Hw1 & _).
    destruct (inv_set k none todo st1 l BoxFlag_ClosureWeakMark b Hi1 Hb eq_refl) as
      (st2 & Hset & Hi2 & Hs2 & Hm2 & _); [|done|done|].
    { intros [x|x|x|x|x]; simpl; try done; intros [-> ?]; try done. by left. }
    rewrite (run_bind _ _ _ _ _ Hw), (run_bind _ _ _ _ _ Hset).
    set (n := m_currentNode (m_destructGraph st2)).
    destruct (closure_roots_spec n l c i this es Hes) as (ft & w & Hft & Hwk & Hrun & Hq & Hcr).
    rewrite (run_bind _ _ _ _ _ (get_type_run _ _ _ Hft)), Hwk.
    rewrite (run_bind (lift (Some w)) _ _ w st2 eq_refl).
    rewrite (run_bind currentNode _ _ n st2 eq_refl), Hrun.
    pose proof (step_trans _ _ _ _ Hs1 Hs2) as Hs12.
    assert (Hcm : has BoxFlag_ClosureWeakMark l st2 = true) by (by apply (Hm2 (EClosure l))).
    assert (Hlt : unset st2 < unset st).
    { apply (unset_lt _ _ l BoxFlag_ClosureWeakMark (s_flags _ _ _ Hs12)); [|by right; right|done|done].
      apply elem_of_dom. by exists b. }
    destruct (push_contents k _ todo st st2 (closure_roots n l c i this w) Hi2 Hs12 Hlt) as
      (st' & Ha & Hi' & Hs' & Hh').
    { intros r Hr. destruct (Hcr r Hr) as (-> & es' & Hes' & Hin). split.
      - eapply current_step; [exact Hs12|exact Hcur].
      - exists es'. split; [done|]. auto. }
    { intros st' Hh Hqq Hpr e Hm [[]|[Hf _]]. destruct e as [x|x|x|x|x]; simpl in Hf; try done;
        destruct Hf as [-> Hf]; try done.
      intros es' e Hes' He. rewrite Himp in Hes'. injection Hes' as <-. left.
      apply elem_of_cons in He as [->|He]; [left|right; auto].
      simpl. rewrite Hh. apply (has_step _ _ _ _ _ Hs2); [by left|done]. }
    exists st'. split; [done|]. split; [done|split; [done|]]. right. by rewrite Hh'.
  - injection Hi0 as <-.
    assert (HDc : D (EClass l)) by (eapply D_closed; [exact Hl|exact Himp|left]).
    destruct (markClass_ok k _ _ _ Hi HDc Hcur) as (st' & Hm' & Hi' & Hs' & Hc').
    exists st'. split; [done|]. split; [done|split; [done|]]. by left.
Qed.

(** ** Scanning a value *)

(** The computation succeeds, keeps the invariant and answers the events. *)
Definition runs (k : nat) (todo : list Root) (m : M unit) (es : list event) : Prop :=
  ∀ st, inv none todo st → current_ok st →
    ∃ st', m st = Some (tt, st') ∧ inv none todo st' ∧ step k st st' ∧
           ∀ e, e ∈ es → done_or_queued st' e.

Lemma runs_weaken k k' todo m es : k ≤ k' → runs k todo m es → runs k' todo m es.
Proof.
  intros Hk Hm st Hi Hc. destruct (Hm st Hi Hc) as (st' & ? & ? & ? & ?).
  exists st'. eauto using step_weaken.
Qed.

Lemma runs_ret k todo : runs k todo (mret tt) [].
Proof.
  intros st Hi _. exists st. split; [done|]. split; [done|split; [apply step_refl|]].
  intros e He. by apply not_elem_of_nil in He.
Qed.

Lemma runs_bind k todo m1 m2 es1 es2 :
  runs k todo m1 es1 → runs k todo m2 es2 → runs k todo (_ ← m1; m2) (es1 ++ es2).
Proof.
  intros H1 H2 st Hi Hc. destruct (H1 st Hi Hc) as (st1 & Hm1 & Hi1 & Hs1 & He1).
  destruct (H2 st1 Hi1 (current_step _ _ _ Hs1 Hc)) as (st2 & Hm2 & Hi2 & Hs2 & He2).
  exists st2. split; [by rewrite (run_bind _ _ _ _ _ Hm1)|]. split; [done|].
  split; [by eapply step_trans|]. intros e [He|He]%elem_of_app; [|by apply He2].
  eapply done_step; [exact Hs2|]. by apply He1.
Qed.

Lemma runs_each {A} k todo (l : list A) (m : A → M unit) (g : A → option (list event)) es :
  (∀ x es', x ∈ l → g x = Some es' → (∀ e, e ∈ es' → e ∈ es) → runs k todo (m x) es') →
  flat_mapM g l = Some es → runs k todo (for_each l m) es.
Proof.
  assert (Hgen : ∀ es0, (∀ x es', x ∈ l → g x = Some es' → (∀ e, e ∈ es' → e ∈ es) →
    runs k todo (m x) es') → flat_mapM g l = Some es0 → (∀ e, e ∈ es0 → e ∈ es) →
    runs k todo (for_each l m) es0); [|intros H1 H2; by eapply Hgen].
  induction l as [|x l IH]; intros es0 Hg; simpl.
  { intros [= <-] _. apply runs_ret. }
  destruct (g x) as [y|] eqn:Hx; simpl; [|done]. destruct (flat_mapM g l) as [z|]; simpl; [|done].
  intros [= <-] Hsub. apply runs_bind.
  - apply Hg; [left|done|]. intros e He. apply Hsub, elem_of_app. by left.
  - apply IH; [|done|]; [intros; apply Hg; [by right|done|done]|].
    intros e He. apply Hsub, elem_of_app. by right.
Qed.

Lemma runs_lift {A} k todo (o : option A) (f : A → M unit) x es :
  o = Some x → runs k todo (f x) es → runs k todo (y ← lift o; f y) es.
Proof. intros -> Hf st Hi Hc. rewrite (run_bind (lift (Some x)) _ _ x st eq_refl). by apply Hf. Qed.

Lemma runs_get_box k todo l b (f : Box → M unit) es :
  B0 !! l = Some b → (∀ b', same_box b b' → runs k todo (f b') es) →
  runs k todo (y ← get_box l; f y) es.
Proof.
  intros Hb Hf st Hi Hc. destruct (box_of_static _ _ _ (i_static _ _ _ Hi) Hb) as (b1 & Hb1 & Hs).
  rewrite (run_bind _ _ _ _ _ (get_box_run _ _ _ Hb1)). by apply Hf.
Qed.

Lemma runs_weakMark k todo l : D (EWeak l) → runs k todo (weakMark l) [EWeak l].
Proof using D_closed D_ok.
  intros Hl st Hi _. destruct (weakMark_ok k _ _ _ _ Hi Hl) as (st' & ? & ? & ? & Hw & _).
  exists st'. split; [done|]. split; [done|split; [done|]].
  intros e ->%list_elem_of_singleton. by left.
Qed.

Lemma runs_markData k todo l : D (EData l) → runs k todo (markData mem types l) [EData l].
Proof using D_closed D_ok.
  intros Hl st Hi Hc. destruct (markData_ok k _ _ _ Hi Hl Hc) as (st' & ? & ? & ? & Hw).
  exists st'. split; [done|]. split; [done|split; [done|]].
  intros e ->%list_elem_of_singleton. by left.
Qed.

Lemma runs_markClass k todo l : D (EClass l) → runs k todo (markClass types depth l) [EClass l].
Proof using D_closed D_ok.
  intros Hl st Hi Hc. destruct (markClass_ok k _ _ _ Hi Hl Hc) as (st' & ? & ? & ? & Hw).
  exists st'. split; [done|]. split; [done|split; [done|]].
  intros e ->%list_elem_of_singleton. by left.
Qed.

Lemma runs_weakMarkClosureClass k todo l :
  D (EClosure l) → runs k todo (weakMarkClosureClass types depth l) [EClosure l].
Proof using D_closed D_ok.
  intros Hl st Hi Hc. destruct (weakMarkClosureClass_ok k _ _ _ Hi Hl Hc) as (st' & ? & ? & ? & Hw).
  exists st'. split; [done|]. split; [done|split; [done|]].
  intros e ->%list_elem_of_singleton. by left.
Qed.

Lemma runs_markDataPtr k todo v :
  (∀ e, e ∈ data_ptr_events mem v → D e) →
  runs k todo (markDataPtr mem types v) (data_ptr_events mem v).
Proof using D_closed D_ok.
  unfold data_ptr_events, markDataPtr. destruct (v =? 0)%N; [intros _; apply runs_ret|].
  intros HD. apply (runs_bind _ _ _ _ [EWeak _] [EData _]).
  - apply runs_weakMark, HD. left.
  - apply runs_markData, HD. right. left.
Qed.

Lemma runs_markClosure k todo weak kind p es :
  closure_events mem types B0 weak kind p = Some es → (∀ e, e ∈ es → D e) →
  runs k todo (markClosure mem types depth weak kind p) es.
Proof using D_closed D_ok.
  unfold closure_events, markClosure. destruct (_ =? 0)%N; [intros [= <-] _; apply runs_ret|].
  set (box := iface_box mem _). destruct weak.
  - intros H HD. apply bind_Some in H as (b & Hb & H). apply bind_Some in H as (t & Ht & [= <-]).
    intros st Hi Hc. destruct (box_of_static _ _ _ (i_static _ _ _ Hi) Hb) as (b1 & Hb1 & Hty & _).
    rewrite (run_bind _ _ _ _ _ (get_box_run _ _ _ Hb1)), Hty.
    rewrite (run_bind _ _ _ _ _ (get_type_run _ _ _ Ht)).
    destruct (isClassType t kind).
    + apply runs_weakMarkClosureClass; [apply HD; left|done|done].
    + apply runs_weakMark; [apply HD; left|done|done].
  - intros [= <-] HD. apply runs_markClass, HD. left.
Qed.

Lemma runs_opaque k todo (cs : list OpaqueCall) :
  (∀ e, e ∈ concat (opaque_events mem <$> cs) → D e) →
  runs k todo (for_each cs (markOpaque mem types depth)) (concat (opaque_events mem <$> cs)).
Proof using D_closed D_ok.
  induction cs as [|c cs IH]; [intros _; apply runs_ret|]. rewrite fmap_cons. cbn [concat for_each].
  intros HD. apply runs_bind; [|apply IH; intros e He; apply HD, elem_of_app; by right].
  assert (HD1 : ∀ e, e ∈ opaque_events mem c → D e) by (intros e He; apply HD, elem_of_app; by left).
  destruct c as [iface|v]; simpl in *; [|by apply runs_markDataPtr].
  destruct (iface =? 0)%N; [apply runs_ret|]. apply runs_markClass, HD1. left.
Qed.

(** The elements of an array are queued, one level down. *)
Lemma runs_array k todo n p et t es :
  k ≤ depth → types !! et = Some t → is_class t || negb (t_gcRoot t) = false →
  flat_mapM (λ i, scan mem types B0 k et (p + N.of_nat i * t_size t)%N) (seq 0 n) = Some es →
  (∀ e, e ∈ es → D e) →
  runs k todo (cur ← currentNode; addRootArray types cur p et n) es.
Proof.
  intros Hk Ht Hg [H1 H2]%flat_mapM_Some HD st Hi Hc. apply orb_false_iff in Hg as [Hcl Hg].
  set (cur := m_currentNode (m_destructGraph st)).
  rewrite (run_bind currentNode _ _ cur st eq_refl).
  rewrite (addRootArray_run _ t) by (done || by apply negb_false_iff).
  set (rs := _ <$> seq 0 n).
  assert (Hrs : ∀ r, r ∈ rs → r_parent r = cur ∧ ∃ es', scan mem types B0 k (r_type r) (r_p r) = Some es' ∧
                     ∀ e, e ∈ es' → e ∈ es).
  { intros r (i & -> & Hin)%list_elem_of_fmap. split; [done|]. by apply H1. }
  destruct (inv_push k none todo st rs Hi) as (st' & Ha & Hi' & Hr & Hh & Hgr & Hs & Hstep).
  { intros r Hr. destruct (Hrs r Hr) as (-> & es' & Hes' & Hsub). split; [done|].
    exists es'. split; [by eapply scan_le|]. auto. }
  exists st'. split; [done|]. split; [done|]. split.
  - apply Hstep, Forall_forall. intros r Hr'. destruct (Hrs r Hr') as (_ & es' & Hes' & _). by exists es'.
  - intros e (i & es' & Hin & Hes' & He)%H2. right. rewrite Hr. apply queued_app. right.
    exists (mkRoot cur (p + N.of_nat i * t_size t)%N et), es'. split; [|split; [by eapply scan_le|done]].
    apply list_elem_of_fmap. by exists i.
Qed.

Lemma markGcRoots_ok todo k :
  (∀ n ty p es, k ≤ n → k ≤ depth → scan mem types B0 k ty p = Some es → (∀ e, e ∈ es → D e) →
     runs (k - 1) todo (markGcRoots mem types depth n ty p) es) ∧
  (∀ n ty p es, k ≤ n → k ≤ depth → scanImpl mem types B0 k ty p = Some es → (∀ e, e ∈ es → D e) →
     runs (k - 1) todo (markGcRootsImpl mem types depth n ty p) es).
Proof using D_closed D_ok.
  induction k as [|k [IH1 IH2]]; [done|].
  assert (IH1' : ∀ n ty p es, k ≤ n → k ≤ depth → scan mem types B0 k ty p = Some es →
     (∀ e, e ∈ es → D e) → runs k todo (markGcRoots mem types depth n ty p) es)
    by (intros; eapply runs_weaken; [|by apply IH1]; lia).
  assert (IH2' : ∀ n ty p es, k ≤ n → k ≤ depth → scanImpl mem types B0 k ty p = Some es →
     (∀ e, e ∈ es → D e) → runs k todo (markGcRootsImpl mem types depth n ty p) es)
    by (intros; eapply runs_weaken; [|by apply IH2]; lia).
  clear IH1 IH2. simpl Nat.sub. rewrite Nat.sub_0_r.
  change (scan mem types B0 (S k)) with
    (scan_body mem types B0 (scan mem types B0 k) (scanImpl mem types B0 k)).
  change (scanImpl mem types B0 (S k)) with
    (scanImpl_body mem types (scan mem types B0 k) (scanImpl mem types B0 k)).
  split; intros [|n] ty p es Hn Hk Hsc HD; [lia| |lia|].
  - unfold scan_body in Hsc. apply bind_Some in Hsc as (t & Ht & Hsc).
    cbn [markGcRoots]. unfold Type_markGcRoots. eapply runs_lift; [exact Ht|].
    destruct (t_kind t) as [| |thin tg|weak wp|weak|weak|et m|[a|] bs fs|c|]; try done.
    + unfold markVariant. destruct (_ =? 0)%N; [injection Hsc as <-; apply runs_ret|].
      apply bind_Some in Hsc as (vt & Hvt & Hsc). eapply runs_lift; [exact Hvt|].
      destruct (t_gcRoot vt); [|injection Hsc as <-; apply runs_ret]. apply IH1'; [lia..|done|done].
    + injection Hsc as <-. unfold markString.
      apply runs_bind; apply runs_markDataPtr; intros e He; apply HD, elem_of_app; auto.
    + unfold DataPtrType_markGcRoots. destruct thin; [done|]. injection Hsc as <-.
      by apply runs_markDataPtr.
    + unfold ClassPtrType_markGcRoots. destruct (_ =? 0)%N; [injection Hsc as <-; apply runs_ret|]. injection Hsc as <-.
      destruct weak; [apply runs_weakMark|apply runs_markClass]; apply HD; left.
    + by apply runs_markClosure.
    + by apply runs_markClosure.
    + apply bind_Some in Hsc as (et' & Het & Hsc). destruct (_ || _) eqn:Hg; [done|].
      eapply runs_array; try done. lia.
    + apply IH1'; [lia..|done|done].
    + apply bind_Some in Hsc as (es1 & H1 & Hsc). apply bind_Some in Hsc as (es2 & H2 & [= <-]).
      apply runs_bind; (eapply runs_each; [|done]); intros s es' _ Hs Hsub;
        (apply IH1'; [lia..|done|]); intros e He; apply HD, elem_of_app; auto.
    + unfold ClassType_markGcRoots. destruct (_ =? 0)%N; [injection Hsc as <-; apply runs_ret|].
      apply bind_Some in Hsc as (b & Hb & Hsc). eapply runs_get_box; [exact Hb|].
      intros b' (Hty & _ & Hinv & _). rewrite Hinv, Hty.
      destruct (test_flag _ _); [injection Hsc as <-; apply runs_ret|].
      case_decide; [|done]. apply IH2'; [lia..|done|done].
  - unfold scanImpl_body in Hsc. apply bind_Some in Hsc as (t & Ht & Hsc).
    apply bind_Some in Hsc as (c & Hcl & Hsc). cbn [markGcRootsImpl]. unfold ClassType_markGcRootsImpl.
    eapply runs_lift; [exact Ht|]. eapply runs_lift; [exact Hcl|].
    apply bind_Some in Hsc as (es1 & H1 & Hsc). apply bind_Some in Hsc as (es2 & H2 & [= <-]).
    apply runs_bind; [|apply runs_bind].
    + eapply runs_each; [|exact H1]. intros s es' _ Hs Hsub. unfold base_scan in Hs.
      apply bind_Some in Hs as (bt & Hbt & Hs). eapply runs_lift; [exact Hbt|].
      assert (HD' : ∀ e, e ∈ es' → D e) by (intros e He; apply HD, elem_of_app; auto).
      destruct (is_class bt); [apply IH2'|apply IH1']; try done; lia.
    + eapply runs_each; [|exact H2]. intros s es' _ Hs Hsub.
      apply IH1'; [lia..|done|]. intros e He. apply HD. rewrite !elem_of_app. auto.
    + destruct (m_markOpaqueGcRoots c) as [f|]; [|apply runs_ret].
      apply runs_opaque. intros e He. apply HD. rewrite !elem_of_app. auto.
Qed.

(** ** Rounds *)

(** What a whole round may change. *)
Record advance (k : nat) (st st' : GcState) : Prop := {
  a_flags : ∀ f l, mark_flag f → has f l st = true → has f l st' = true;
  a_roots : ∃ rs, m_markRoots st' = m_markRoots st ++ rs ∧
                  (unset st' < unset st ∨ Forall (level k) rs);
  a_state : m_state st' = m_state st;
  a_nodes : m_nodeArray (m_destructGraph st) `prefix_of` m_nodeArray (m_destructGraph st')
}.

Lemma advance_trans k st1 st2 st3 : advance k st1 st2 → advance k st2 st3 → advance k st1 st3.
Proof.
  intros [F1 (rs1 & R1 & P1) S1 N1] [F2 (rs2 & R2 & P2) S2 N2].
  pose proof (unset_le _ _ F1). pose proof (unset_le _ _ F2).
  split; [by eauto| |congruence|by etrans].
  exists (rs1 ++ rs2). split; [by rewrite R2, R1, app_assoc|].
  destruct P1 as [P1|P1]; [left; lia|]. destruct P2 as [P2|P2]; [left; lia|].
  right. by apply Forall_app.
Qed.

Lemma advance_refl k st : advance k st st.
Proof. split; try done. exists []. split; [by rewrite app_nil_r|]. right. constructor. Qed.

Lemma step_advance k st st' : step k st st' → advance k st st'.
Proof. intros [F R _ S N]. by split. Qed.

Definition at_node (n : option nat) (st : GcState) : GcState :=
  let g := m_destructGraph st in
  with_graph (mkGraph (m_nodeArray g) (m_nodeMap g) (m_unsortedEdgeArray g)
                (m_sortedEdgeArray g) (m_edgeBaseArray g) (m_destructCount g) n) st.

Lemma at_node_inv n todo st :
  inv none todo st → inv none todo (at_node n st).
Proof.
  intros [H1 H2 H3 H4 H5 H6 [H7 H8]]. split; try done. split; [|done].
  change (m_state (at_node n st)) with (m_state st). destruct (m_state st); [done|].
  destruct H7 as [G1 G2 G3 G4]. by split.
Qed.

(** A root that has been scanned leaves the round. *)
Lemma inv_scanned todo st r es :
  inv none (r :: todo) st → scan mem types B0 depth (r_type r) (r_p r) = Some es →
  (∀ e, e ∈ es → done_or_queued st e) → inv none todo st.
Proof.
  intros [H1 H2 H3 H4 H5 H6 [H7 H8]] Hes Hdone.
  assert (Hq : ∀ e, queued (r :: todo) e → done_or_queued st e ∨ queued todo e).
  { intros e (r' & es' & [->|Hr]%elem_of_cons & Hes' & He).
    - left. apply Hdone. congruence.
    - right. by exists r', es'. }
  assert (Hsub : ∀ r', r' ∈ m_markRoots st ++ todo → r' ∈ m_markRoots st ++ r :: todo)
    by (intros r'; rewrite !elem_of_app, elem_of_cons; tauto).
  split; try done; [|auto|split; auto].
  intros e He. destruct (H3 e He) as [[]|Hp]. right. destruct e as [l|l|l|l|l]; simpl in *; try done.
  - intros es' e Hes' Hin. destruct (Hp es' e Hes' Hin) as [|Hx]; auto.
  - intros es' e Hes' Hin. destruct (Hp es' e Hes' Hin) as [|Hx]; auto.
Qed.

Lemma done_advance k st st' e : advance k st st' → done_or_queued st e → done_or_queued st' e.
Proof.
  intros [F (rs & R & _) _ _] [He|He]; [left|right; rewrite R; apply queued_app; by left].
  revert He. destruct e; simpl; try (apply F; unfold mark_flag; tauto).
  intros [H|H]; [left|right]; (apply F; [unfold mark_flag; tauto|done]).
Qed.

Lemma round_ok k roots st :
  inv none roots st → S k ≤ depth → Forall (level (S k)) roots →
  ∃ st', mark_round mem types depth roots st = Some (tt, st') ∧ inv none [] st' ∧ advance k st st' ∧
         ∀ e, queued roots e → done_or_queued st' e.
Proof using D_closed D_ok.
  intros Hi Hk Hl. revert st Hi. induction Hl as [|r roots [es Hes] Hl IH]; intros st Hi.
  { exists st. split; [done|]. split; [done|split; [apply advance_refl|]].
    intros e (r & ? & Hr & _). by apply not_elem_of_nil in Hr. }
  assert (Hes' : scan mem types B0 depth (r_type r) (r_p r) = Some es)
    by (by eapply scan_le; [|exact Hes]).
  destruct (i_roots _ _ _ Hi r) as (es1 & Hes1 & HD); [apply elem_of_app; right; left|].
  rewrite Hes' in Hes1. injection Hes1 as <-.
  pose proof (at_node_inv (r_parent r) _ _ Hi) as Hi0.
  destruct (proj1 (markGcRoots_ok (r :: roots) (S k)) depth _ _ _ Hk Hk Hes HD _ Hi0)
    as (st1 & Hm & Hi1 & Hs1 & Hd1).
  { unfold current_ok, at_node. simpl. apply (i_graph _ _ _ Hi). apply elem_of_app. right. left. }
  simpl in Hs1. rewrite Nat.sub_0_r in Hs1.
  destruct (IH st1 (inv_scanned _ _ _ _ Hi1 Hes' Hd1)) as (st' & Hm' & Hi' & Ha' & Hq').
  exists st'. split; [|split; [done|split]].
  - unfold mark_round in *. cbn [for_each].
    rewrite (run_bind _ _ st tt st1); [exact Hm'|].
    rewrite (run_bind (setCurrentNode _) _ st tt (at_node (r_parent r) st) eq_refl). exact Hm.
  - eapply advance_trans; [|exact Ha']. destruct (step_advance _ _ _ Hs1) as [F R S N]. by split.
  - intros e (r' & es1 & [->|Hr]%elem_of_cons & Hs & He); [|apply Hq'; by exists r', es1].
    eapply done_advance; [exact Ha'|]. apply Hd1. congruence.
Qed.

Lemma start_round st :
  inv none [] st → inv none (m_markRoots st) (with_roots [] st).
Proof.
  intros [H1 H2 H3 H4 H5 H6 [H7 H8]].
  assert (Hd : ∀ e, done_or_queued st e ∨ queued [] e →
               done_or_queued (with_roots [] st) e ∨ queued (m_markRoots st) e).
  { intros e [[He|He]|(r & ? & Hr & _)]; [left; by left|by right|by apply not_elem_of_nil in Hr]. }
  split; try done.
  - intros e He. destruct (H3 e He) as [[]|Hp]. right. destruct e as [l|l|l|l|l]; simpl in *; try done.
    + intros es' e Hes' Hin. apply Hd. by eapply Hp.
    + intros es' e Hes' Hin. apply Hd. by eapply Hp.
  - simpl. intros r Hr. apply H6. by rewrite app_nil_r.
  - split; [done|]. intros r Hr. apply (H8 r). by rewrite app_nil_r.
Qed.

(** The mark cycle terminates within this many rounds. *)
Lemma cycle_ok rounds k st :
  inv none [] st → k ≤ depth → Forall (level k) (m_markRoots st) →
  unset st * S depth + k ≤ rounds →
  ∃ st', runMarkCycle mem types depth rounds st = Some st' ∧ inv none [] st' ∧
    m_markRoots st' = [] ∧ (∀ f l, mark_flag f → has f l st = true → has f l st' = true) ∧
    m_state st' = m_state st ∧
    m_nodeArray (m_destructGraph st) `prefix_of` m_nodeArray (m_destructGraph st') ∧
    ∀ e, done_or_queued st e → sat st' e.
Proof using D_closed D_ok.
  revert k st. induction rounds as [|rounds IH]; intros k st Hi Hk Hl Hb;
    (destruct (m_markRoots st) as [|r roots] eqn:Hr;
     [exists st; simpl; rewrite Hr; do 6 (split; [done|]);
      intros e [He|(x & ? & Hx & _)]; [done|rewrite Hr in Hx; by apply not_elem_of_nil in Hx]|]);
    (assert (Hk0 : k ≠ 0)
       by (intros ->; apply Forall_cons in Hl as [[es Hes] _]; simpl in Hes; discriminate));
    [lia|].
  destruct k as [|k]; [done|]. simpl. rewrite Hr.
  pose proof (start_round _ Hi) as Hi0. rewrite Hr in Hi0.
  destruct (round_ok k (r :: roots) (with_roots [] st) Hi0 Hk Hl) as (st1 & Hm & Hi1 & Ha & Hq).
  assert (Hdone : ∀ e, done_or_queued st e → done_or_queued st1 e).
  { intros e [He|He]; [eapply done_advance; [exact Ha|by left]|apply Hq; by rewrite <- Hr]. }
  rewrite Hm. simpl. destruct Ha as [F (rs & Hrs & Hp) Sst N]. simpl in Hrs, Sst.
  change (unset (with_roots [] st)) with (unset st) in Hp.
  assert (Hnext : ∃ k', k' ≤ depth ∧ Forall (level k') (m_markRoots st1) ∧
                        unset st1 * S depth + k' ≤ rounds).
  { pose proof (unset_le (with_roots [] st) st1 F) as Hle.
    change (unset (with_roots [] st)) with (unset st) in Hle. destruct Hp as [Hp|Hp].
    - exists depth. split; [done|]. split; [|nia].
      apply Forall_forall. intros x Hx. destruct (i_roots _ _ _ Hi1 x) as (es & Hes & _);
        [by rewrite app_nil_r|]. by exists es.
    - exists k. rewrite Hrs. split; [lia|]. split; [done|nia]. }
  destruct Hnext as (k' & Hk' & Hl' & Hb').
  destruct (IH k' st1 Hi1 Hk' Hl' Hb') as (st' & Hrun & Hi' & Hr' & F' & S' & N' & Q').
  exists st'. split; [done|]. split; [done|]. split; [done|].
  split; [intros f l Hf Hh; apply F'; [done|]; apply F; [done|]; exact Hh|].
  split; [congruence|]. split; [etrans; [exact N|exact N']|]. auto.
Qed.

(** ** When the queue is empty *)

(** All that is demanded is marked. *)
Lemma all_marked (init : event → Prop) st :
  inv none [] st → m_markRoots st = [] → (∀ e, D e ↔ demanded mem types depth B0 init e) →
  (∀ e, init e → sat st e) → ∀ e, D e → sat st e.
Proof using D_ok.
  intros Hi Hr HD Hinit.
  assert (Hdone : ∀ e, done_or_queued st e ∨ queued [] e → sat st e).
  { intros e [[He|(r & ? & Hx & _)]|(r & ? & Hx & _)]; [done|rewrite Hr in Hx|];
      by apply not_elem_of_nil in Hx. }
  assert (Hpr : ∀ e, marked st e → promise [] st e).
  { intros e He. by destruct (i_promise _ _ _ Hi e He) as [[]|]. }
  assert (Hdata : ∀ l es e, has BoxFlag_DataMark l st = true →
    contents mem types depth B0 l = Some es → e ∈ es → sat st e).
  { intros l es e Hl Hes He. apply Hdone. by apply (Hpr (EData l) Hl es e). }
  intros e0 He0. apply HD in He0. induction He0 as [e He|e es e' He IH Himp Hin]; [by apply Hinit|].
  apply HD in He. destruct e as [l|l|l|l|l]; simpl in IH.
  - simpl in Himp. apply bind_Some in Himp as (b & Hb & Himp). apply bind_Some in Himp as (r & Hrb & Himp).
    destruct (m_rootOffset b =? 0)%N; [injection Himp as <-; by apply not_elem_of_nil in Hin|].
    destruct (m_rootOffset r =? 0)%N; [|done]. injection Himp as <-.
    apply list_elem_of_singleton in Hin as ->. by apply (Hpr (EWeak l) IH).
  - simpl in Himp. apply bind_Some in Himp as (es' & Hes & [= <-]).
    apply elem_of_cons in Hin as [->|Hin]; [by apply (i_data_weak _ _ _ Hi)|by eapply Hdata].
  - simpl in Himp. apply bind_Some in Himp as ([b c] & Hcl & Himp).
    apply bind_Some in Himp as (fs & Hfs & [= <-]).
    pose proof (i_class_data _ _ _ Hi _ IH) as Hd.
    apply elem_of_cons in Hin as [->|Hin]; [by apply (i_data_weak _ _ _ Hi)|].
    apply elem_of_cons in Hin as [->|Hin]; [done|].
    apply list_elem_of_fmap in Hin as (f & -> & Hf). simpl.
    unfold class_of in Hcl. apply bind_Some in Hcl as (b' & Hb & Hcl).
    apply bind_Some in Hcl as (t & _ & Hcl). apply bind_Some in Hcl as (c' & _ & [= -> ->]).
    by eapply (Hpr (EClass l) IH).
  - destruct IH as [IH|IH]; [|by apply Hdone, (Hpr (EClosure l) IH es e')].
    pose proof (i_class_data _ _ _ Hi _ IH) as Hd.
    destruct (D_ok _ He) as [_ Hok]. destruct (Hok es Himp e' Hin) as [->|[->|(el & Hel & Hx)]].
    + done.
    + by apply (i_data_weak _ _ _ Hi).
    + destruct Hx as [Hx|(x & -> & Hx)]; [by eapply Hdata|].
      apply (i_data_weak _ _ _ Hi), (i_class_data _ _ _ Hi). by apply (Hdata l el (EClass x)).
  - simpl in Himp. apply bind_Some in Himp as (? & _ & [= <-]). by apply not_elem_of_nil in Hin.
Qed.

(** The marks are exactly what is demanded. *)
Record exact_marks (st : GcState) : Prop := {
  em_weak : ∀ l, has BoxFlag_WeakMark l st = true ↔ D (EWeak l) ∨ D (EField l);
  em_data : ∀ l, has BoxFlag_DataMark l st = true ↔ D (EData l) ∨ D (EField l);
  em_class : ∀ l, has BoxFlag_ClassMark l st = true ↔ D (EClass l) ∨ D (EField l);
  em_object : ∀ l, has BoxFlag_ClassMark l st = true ∨ has BoxFlag_ClosureWeakMark l st = true ↔
              D (EClass l) ∨ D (EField l) ∨ D (EClosure l)
}.

Lemma exact_of_sat st :
  inv none [] st → (∀ e, D e → sat st e) → exact_marks st.
Proof.
  intros Hi Hs. pose proof (i_justified _ _ _ Hi) as Hj.
  assert (Hf : ∀ l, D (EField l) → has BoxFlag_ClassMark l st = true) by (intros l; apply (Hs (EField l))).
  assert (Hcd := i_class_data _ _ _ Hi). assert (Hdw := i_data_weak _ _ _ Hi).
  split; intros l.
  - split; [apply (Hj (EWeak l))|]. intros [H|H]; [by apply (Hs (EWeak l))|auto].
  - split; [apply (Hj (EData l))|]. intros [H|H]; [by apply (Hs (EData l))|auto].
  - split; [apply (Hj (EClass l))|]. intros [H|H]; [by apply (Hs (EClass l))|auto].
  - split.
    + intros [H|H]; [destruct (Hj (EClass l) H); tauto|]. destruct (Hj (EClosure l) H); tauto.
    + intros [H|[H|H]]; [left; by apply (Hs (EClass l))|left; auto|by apply (Hs (EClosure l))].
Qed.

End inv.
