(* ===== verification/GcCollect.v ===== *)
(** * The garbage collector: a collection

    Models [GcHeap::collect_l] between stopping and resuming the world: the
    marks are cleared, the roots are added, marking runs, the unreachable
    destructible objects are scheduled through the destruct graph (which marks
    what they still need), and the arrays of boxes are swept. *)

From stdpp Require Import sorting.
From S2P Require Import Prelude Box DestructGraph DestructOrder DestructEmit DestructBuild GcMark GcMarkSpec GcMarkInv.

(** ** Mutator threads *)

(** One frame map: the boxes of a dynamic frame, or the types and the indices of
    the roots of a static one. *)
Inductive FrameMap :=
  | FrameMap_Dynamic (boxArray : list loc)
  | FrameMap_Static (gcRoots : list (loc * nat)).

(** [f_maps] is the chain of maps from the innermost scope outwards. *)
Record ShadowStackFrame := mkShadowFrame { f_maps : list FrameMap; f_gcRootArray : list loc }.

Record MutatorThread := mkThread {
  m_tlsVariableTable : loc;
  m_gcShadowStack : list ShadowStackFrame;
  m_dataPtrValidatorPoolBegin : loc;
  m_foreignDataBoxPoolBegin : loc
}.

(** ** The heap *)

Record GcHeap := mkHeap {
  h_boxes : gmap loc Box;
  m_allocBoxArray : list loc;
  m_classBoxArray : list loc;
  m_destructibleClassBoxArray : list loc;
  m_postponeFreeBoxArray : list loc;
  m_staticRootArray : list (loc * loc);
  m_mutatorThreadList : list MutatorThread;
  m_destructArray : list loc;
  h_destructGraph : DestructGraph;
  m_currentAllocSize : N;
  m_lastCollectFreeSize : N;
  h_freed : list loc              (* handed to [mem::deallocate] *)
}.

Section collect.
  Context (mem : loc → loc) (types : gmap loc Type_) (depth : nat).
  Context (tlsGcRootFieldArray : list Slot).
  Context (countSort : list Edge → nat → list Edge * list nat).

(** ** Roots *)

Definition addRootHere (p type : loc) : M unit :=
  cur ← currentNode; addRoot mem types depth cur p type.

Definition addFrameMap (gcRootArray : list loc) (map : FrameMap) : M unit :=
  match map with
  | FrameMap_Dynamic boxArray =>
    for_each boxArray (λ box,
      b ← get_box box; t ← lift (types !! m_type b);
      if is_class t then markClass types depth box else markData mem types box)
  | FrameMap_Static gcRoots =>
    for_each gcRoots (λ '(type, j),
      p ← lift (gcRootArray !! j);
      if (p =? 0)%N then mret tt else addRootHere p type)
  end.

Definition addShadowStackFrame (frame : ShadowStackFrame) : M unit :=
  for_each (f_maps frame) (addFrameMap (f_gcRootArray frame)).

Definition addThread (t : MutatorThread) : M unit :=
  _ ← for_each (m_gcShadowStack t) addShadowStackFrame;
  _ ← for_each tlsGcRootFieldArray (λ s,
        addRootHere (m_tlsVariableTable t + s_offset s)%N (s_type s));
  _ ← when (negb (m_dataPtrValidatorPoolBegin t =? 0)%N)
        (weakMark (validatorBox mem (m_dataPtrValidatorPoolBegin t)));
  when (negb (m_foreignDataBoxPoolBegin t =? 0)%N)
    (weakMark (validatorBox mem (m_foreignDataBoxPoolBegin t + sizeof_Box)%N)).

(** All roots: statics, stacks and thread locals, the destruct queue. *)
Definition addRoots (h : GcHeap) : M unit :=
  _ ← for_each (m_staticRootArray h) (λ '(p, type), addRootHere p type);
  _ ← for_each (m_mutatorThreadList h) addThread;
  for_each (m_destructArray h) (λ iface, markClass types depth (iface_box mem iface)).

(** [flags &= ~BoxFlag_MarkMask] on the boxes of an array. *)
Definition unmark (arr : list loc) (boxes : gmap loc Box) : gmap loc Box :=
  foldl (λ boxes l, alter (with_flags (clear_flag BoxFlag_MarkMask)) l boxes) boxes arr.

(** ** Scheduling destructors *)

Definition kept_object (boxes : gmap loc Box) (l : loc) : bool :=
  match boxes !! l with
  | Some b => test_flag (N.lor BoxFlag_ClassMark BoxFlag_ClosureWeakMark) (m_flags b)
  | None => false
  end.

Definition kept_memory (boxes : gmap loc Box) (l : loc) : bool :=
  match boxes !! l with Some b => test_flag BoxFlag_WeakMark (m_flags b) | None => false end.

Definition set_destructing (arr : list loc) (boxes : gmap loc Box) : gmap loc Box :=
  foldl (λ boxes l, alter (with_flags (set_flag BoxFlag_Destructing)) l boxes) boxes arr.

(** [DestructGraph::build]: a node per candidate, then marking from each. *)
Definition build (rounds : nat) (destructArray : list loc) (st : GcState) : option GcState :=
  let '(boxes, g) := build_begin (iface_box mem) destructArray (m_boxes st) (m_destructGraph st) in
  '(_, st) ← for_each (seq 0 (length destructArray)) (λ i,
      _ ← setCurrentNode (Some i);
      node ← (λ st, n ← m_nodeArray (m_destructGraph st) !! i; Some (n, st));
      markClass types depth (m_box node))
    (mkGc boxes (m_markRoots st) g State_BuildDestructGraph);
  st ← runMarkCycle mem types depth rounds st;
  Some (with_graph (build_finish countSort (length destructArray) (m_destructGraph st)) st).

(** The state after scheduling, and the destruct queue. *)
Definition schedule (rounds fuel : nat) (candidates : list loc) (queue : list loc) (st : GcState)
    : option (GcState * list loc) :=
  match candidates with
  | [] => Some (st, queue)
  | _ =>
    st ← build rounds (iface_of <$> candidates)
           (with_boxes (set_destructing candidates (m_boxes st)) st);
    s ← tarjan fuel (m_destructGraph st);
    queue ← emit (m_destructGraph st) s queue;
    let '(boxes, g) := cleanup (m_boxes st) (m_destructGraph st) in
    Some (with_graph g (with_boxes boxes st), queue)
  end.

(** ** Sweeping *)

Definition box_size (boxes : gmap loc Box) (l : loc) : N :=
  match boxes !! l with
  | Some b =>
    match types !! m_type b with
    | Some t =>
      if test_flag BoxFlag_DynamicArray (m_flags b)
      then mul64 (t_size t) (N.of_nat (getDynamicArrayElementCount mem l (t_size t)))
      else t_size t
    | None => 0%N
    end
  | None => 0%N
  end.

Definition total_size (boxes : gmap loc Box) (ls : list loc) : N :=
  foldl (λ n l, add64 n (box_size boxes l)) 0%N ls.

(** The sweep of the allocated boxes: those kept, and the garbage. *)
Definition sweep (boxes : gmap loc Box) (arr : list loc) : list loc * list loc :=
  (filter (λ l, kept_memory boxes l = true) arr, filter (λ l, kept_memory boxes l = false) arr).

(** [collect_l] on the stopped world. *)
Definition collect (rounds fuel : nat) (isShuttingDown : bool) (h : GcHeap) : option GcHeap :=
  let boxes := unmark (m_classBoxArray h) (unmark (m_allocBoxArray h) (h_boxes h)) in
  '(_, st) ← addRoots h (mkGc boxes [] (h_destructGraph h) State_Mark);
  st ← runMarkCycle mem types depth rounds st;
  let destructible := filter (λ l, kept_object (m_boxes st) l = true) (m_destructibleClassBoxArray h) in
  let candidates := filter (λ l, kept_object (m_boxes st) l = false) (m_destructibleClassBoxArray h) in
  '(st, queue) ← schedule rounds fuel candidates (m_destructArray h) st;
  let bs := m_boxes st in
  let '(kept, garbage) := sweep bs (m_allocBoxArray h) in
  Some (mkHeap bs kept
          (filter (λ l, kept_object bs l = true) (m_classBoxArray h))
          destructible
          (m_postponeFreeBoxArray h ++ (if isShuttingDown then garbage else []))
          (m_staticRootArray h) (m_mutatorThreadList h) queue (m_destructGraph st)
          (total_size bs kept) (total_size bs garbage)
          (h_freed h ++ (if isShuttingDown then [] else garbage))).

(** ** What the roots demand *)

Context (B0 : gmap loc Box).

Definition addRoot_events (p type : loc) : option (list event) :=
  t ← types !! type;
  if t_gcRoot t then scan mem types B0 depth type p
  else
    match t_kind t with
    | TypeKind_DataPtr true targetType =>
      t' ← types !! targetType;
      Some [if t_validator t' then EWeak (validatorBox mem p)
            else if is_class t' then EClass (p - sizeof_Box)%N
            else EData (p - sizeof_DataBox)%N]
    | _ => None
    end.

Definition map_events (gcRootArray : list loc) (map : FrameMap) : option (list event) :=
  match map with
  | FrameMap_Dynamic boxArray =>
    flat_mapM (λ box,
      b ← B0 !! box; t ← types !! m_type b;
      Some [if is_class t then EClass box else EData box]) boxArray
  | FrameMap_Static gcRoots =>
    flat_mapM (λ '(type, j),
      p ← gcRootArray !! j; if (p =? 0)%N then Some [] else addRoot_events p type) gcRoots
  end.

Definition frame_events (frame : ShadowStackFrame) : option (list event) :=
  flat_mapM (map_events (f_gcRootArray frame)) (f_maps frame).

Definition thread_events (t : MutatorThread) : option (list event) :=
  es1 ← flat_mapM frame_events (m_gcShadowStack t);
  es2 ← flat_mapM (λ s, addRoot_events (m_tlsVariableTable t + s_offset s)%N (s_type s))
          tlsGcRootFieldArray;
  Some (es1 ++ es2 ++
    (if negb (m_dataPtrValidatorPoolBegin t =? 0)%N
     then [EWeak (validatorBox mem (m_dataPtrValidatorPoolBegin t))] else []) ++
    (if negb (m_foreignDataBoxPoolBegin t =? 0)%N
     then [EWeak (validatorBox mem (m_foreignDataBoxPoolBegin t + sizeof_Box)%N)] else [])).

(** The references the roots of a heap hold. *)
Definition root_events_of (h : GcHeap) : option (list event) :=
  es1 ← flat_mapM (λ '(p, type), addRoot_events p type) (m_staticRootArray h);
  es2 ← flat_mapM thread_events (m_mutatorThreadList h);
  Some (es1 ++ es2 ++ ((λ iface, EClass (iface_box mem iface)) <$> m_destructArray h)).

End collect.
