(* ===== verification/GcCollectSpec.v ===== *)
(** * What a collection keeps and frees *)

From stdpp Require Import sorting.
From S2P Require Import Prelude Box DestructGraph DestructOrder DestructEmit DestructBuild GcMark GcMarkSpec GcMarkInv GcCollect.

Section roots.
  Context (mem : loc → loc) (types : gmap loc Type_) (depth : nat).
  Context (tlsGcRootFieldArray : list Slot) (B0 : gmap loc Box) (D : event → Prop).
  Context (D_closed : ∀ e es e', D e → implied mem types depth B0 e = Some es → e' ∈ es → D e').
  Context (D_ok : heap_ok mem types depth B0 D).

Local Abbreviation runs := (runs mem types depth B0 D depth).
Local Abbreviation inv := (inv mem types depth B0 D).

Lemma runs_addRootHere todo p ty es :
  addRoot_events mem types depth B0 p ty = Some es → (∀ e, e ∈ es → D e) →
  runs todo (addRootHere mem types depth p ty) es.
Proof using D_closed D_ok.
  unfold addRoot_events. intros H HD. apply bind_Some in H as (t & Ht & H).
  destruct (t_gcRoot t) eqn:Hg.
  - intros st Hi Hc. unfold addRootHere.
    set (cur := m_currentNode (m_destructGraph st)).
    rewrite (run_bind currentNode _ _ cur st eq_refl). unfold addRoot.
    rewrite (run_bind _ _ _ _ _ (get_type_run _ _ _ _ Ht)), Hg.
    rewrite (pushRoot_run _ _ t) by done.
    destruct (inv_push mem types depth B0 D depth none todo st [mkRoot cur p ty] Hi)
      as (st' & Ha & Hi' & Hr & _ & _ & _ & Hs).
    { intros r ->%list_elem_of_singleton. split; [exact Hc|]. by exists es. }
    exists st'. split; [done|]. split; [done|]. split.
    + apply Hs. constructor; [by exists es|constructor].
    + intros e He. right. rewrite Hr. apply queued_app. right.
      exists (mkRoot cur p ty), es. split; [left|done].
  - destruct (t_kind t) as [| |thin tg| | | | | | |] eqn:Hk; try done. destruct thin; [|done].
    apply bind_Some in H as (t' & Ht' & [= <-]).
    assert (Hrun : ∀ m, (∀ e, e ∈ [if t_validator t' then EWeak (validatorBox mem p)
        else if is_class t' then EClass (p - sizeof_Box)%N else EData (p - sizeof_DataBox)%N] → D e) →
      m = (if t_validator t' then weakMark (validatorBox mem p)
           else if is_class t' then markClass types depth (p - sizeof_Box)%N
           else markData mem types (p - sizeof_DataBox)%N) →
      runs todo m [if t_validator t' then EWeak (validatorBox mem p)
        else if is_class t' then EClass (p - sizeof_Box)%N else EData (p - sizeof_DataBox)%N]).
    { intros m HDe ->. destruct (t_validator t'); [apply runs_weakMark; try done; apply HDe; left|].
      destruct (is_class t'); [apply runs_markClass|apply runs_markData]; try done; apply HDe; left. }
    intros st Hi Hc. unfold addRootHere.
    rewrite (run_bind currentNode _ _ (m_currentNode (m_destructGraph st)) st eq_refl). unfold addRoot.
    rewrite (run_bind _ _ _ _ _ (get_type_run _ _ _ _ Ht)), Hg, Hk.
    rewrite (run_bind _ _ _ _ _ (get_type_run _ _ _ _ Ht')).
    by apply (Hrun _ HD eq_refl).
Qed.

Lemma runs_addFrameMap todo ga map es :
  map_events mem types depth B0 ga map = Some es → (∀ e, e ∈ es → D e) →
  runs todo (addFrameMap mem types depth ga map) es.
Proof using D_closed D_ok.
  destruct map as [boxes|roots]; intros H HD; simpl in H; (eapply runs_each; [|exact H]).
  - intros box es' _ Hb Hsub. apply bind_Some in Hb as (b & Hb & H').
    apply bind_Some in H' as (t & Ht & [= <-]).
    eapply runs_get_box; [exact Hb|]. intros b' (Hty & _). rewrite Hty.
    eapply runs_lift; [exact Ht|].
    destruct (is_class t); [apply runs_markClass|apply runs_markData]; try done; apply HD, Hsub; left.
  - intros [ty j] es' _ Hb Hsub. apply bind_Some in Hb as (p & Hp & H').
    eapply runs_lift; [exact Hp|]. destruct (p =? 0)%N; [injection H' as <-; apply runs_ret|].
    apply runs_addRootHere; [done|]. auto.
Qed.

Lemma runs_when todo (c : bool) m es :
  (c = true → runs todo m es) → runs todo (when c m) (if c then es else []).
Proof. destruct c; [auto|]. intros _. apply runs_ret. Qed.

Lemma runs_addThread todo t es :
  thread_events mem types depth tlsGcRootFieldArray B0 t = Some es → (∀ e, e ∈ es → D e) →
  runs todo (addThread mem types depth tlsGcRootFieldArray t) es.
Proof using D_closed D_ok.
  unfold thread_events. intros H HD. apply bind_Some in H as (es1 & H1 & H).
  apply bind_Some in H as (es2 & H2 & [= <-]).
  apply runs_bind; [|apply runs_bind; [|apply runs_bind]].
  - eapply runs_each; [|exact H1]. intros f es' _ Hf Hsub.
    eapply runs_each; [|exact Hf]. intros map es'' _ Hm Hsub'.
    apply runs_addFrameMap; [done|]. intros e He. apply HD, elem_of_app. auto.
  - eapply runs_each; [|exact H2]. intros s es' _ Hs Hsub.
    apply runs_addRootHere; [done|]. intros e He. apply HD. rewrite !elem_of_app. auto.
  - apply runs_when. intros Hc. rewrite Hc in HD. apply runs_weakMark; [done..|].
    apply HD. rewrite !elem_of_app. right; right; left; left.
  - apply runs_when. intros Hc. rewrite Hc in HD. apply runs_weakMark; [done..|].
    apply HD. rewrite !elem_of_app. right; right; right; left.
Qed.

Lemma runs_addRoots todo h es :
  root_events_of mem types depth tlsGcRootFieldArray B0 h = Some es → (∀ e, e ∈ es → D e) →
  runs todo (addRoots mem types depth tlsGcRootFieldArray h) es.
Proof using D_closed D_ok.
  unfold root_events_of. intros H HD. apply bind_Some in H as (es1 & H1 & H).
  apply bind_Some in H as (es2 & H2 & [= <-]). apply runs_bind; [|apply runs_bind].
  - eapply runs_each; [|exact H1]. intros [p ty] es' _ Hs Hsub.
    apply runs_addRootHere; [done|]. intros e He. apply HD, elem_of_app. auto.
  - eapply runs_each; [|exact H2]. intros t es' _ Ht Hsub.
    apply runs_addThread; [done|]. intros e He. apply HD. rewrite !elem_of_app. auto.
  - assert (HDa : ∀ i, i ∈ m_destructArray h → D (EClass (iface_box mem i))).
    { intros i Hin. apply HD. rewrite !elem_of_app. right; right. apply list_elem_of_fmap. by exists i. }
    clear HD H1 H2. revert HDa. generalize (m_destructArray h). intros l HDa.
    induction l as [|i l IH]; [apply runs_ret|]. rewrite fmap_cons.
    apply (runs_bind _ _ _ _ _ _ _ _ _ [_]); [apply runs_markClass; [done..|]; apply HDa; left|].
    apply IH. intros. apply HDa. by right.
Qed.

End roots.

(** ** Moving the invariant *)

Section move.
  Context (mem : loc → loc) (types : gmap loc Type_) (depth : nat) (B0 : gmap loc Box).

Lemma inv_demand (D D' : event → Prop) E todo st :
  (∀ e, D e → D' e) → inv mem types depth B0 D E todo st → inv mem types depth B0 D' E todo st.
Proof.
  intros HD [H1 H2 H3 H4 H5 H6 H7]. split; try done.
  - intros e He. destruct (H2 e He) as [Hj|Hj]; [left; auto|right]. destruct e; auto.
  - intros r Hr. destruct (H6 r Hr) as (es & Hes & Hs). exists es. auto.
Qed.

Lemma sat_same st st' e :
  (∀ f l, mark_flag f → has f l st' = has f l st) → sat st e → sat st' e.
Proof. intros Hh. destruct e; simpl; rewrite !Hh; unfold mark_flag; tauto. Qed.

Lemma marked_same st st' e :
  (∀ f l, mark_flag f → has f l st' = has f l st) → marked st e → marked st' e.
Proof. intros Hh. destruct e; simpl; rewrite ?Hh; unfold mark_flag; tauto. Qed.

(** A change of the state that leaves marks and queue alone. *)
Lemma inv_transfer D E todo st st' :
  inv mem types depth B0 D E todo st → same_static (m_boxes st) (m_boxes st') →
  (∀ f l, mark_flag f → has f l st' = has f l st) → m_markRoots st' = m_markRoots st →
  graph_inv todo st' → inv mem types depth B0 D E todo st'.
Proof.
  intros [H1 H2 H3 H4 H5 H6 H7] Hb Hh Hr Hg.
  assert (Hh' : ∀ f l, mark_flag f → has f l st = has f l st') by (intros; by rewrite Hh).
  assert (Hd : ∀ e, done_or_queued mem types depth B0 st e ∨ queued mem types depth B0 todo e →
               done_or_queued mem types depth B0 st' e ∨ queued mem types depth B0 todo e).
  { intros e [[He|He]|He]; [left; left|left; right|by right]; [by eapply sat_same|by rewrite Hr]. }
  split; try done.
  - by eapply same_static_trans.
  - intros e He. apply H2. by eapply marked_same.
  - intros e He. destruct (H3 e) as [|Hp]; [by eapply marked_same|by left|right].
    destruct e as [l|l|l|l|l]; simpl in *; try done.
    + intros b Hlb. rewrite Hh by (unfold mark_flag; tauto). auto.
    + intros es e Hes Hin. by eapply Hd, Hp.
    + intros. rewrite Hh by (unfold mark_flag; tauto). eauto.
    + intros es e Hes Hin. by eapply Hd, Hp.
  - intros l. rewrite !Hh by (unfold mark_flag; tauto). auto.
  - intros l. rewrite !Hh by (unfold mark_flag; tauto). auto.
  - by rewrite Hr.
Qed.

(** Roots whose references are all done or queued need not be remembered. *)
Lemma inv_drop_todo D todo st :
  inv mem types depth B0 D none todo st →
  (∀ e, queued mem types depth B0 todo e → done_or_queued mem types depth B0 st e) →
  inv mem types depth B0 D none [] st.
Proof.
  intros [H1 H2 H3 H4 H5 H6 [H7 H8]] Hq.
  assert (Hd : ∀ e, done_or_queued mem types depth B0 st e ∨ queued mem types depth B0 todo e →
               done_or_queued mem types depth B0 st e ∨ queued mem types depth B0 [] e).
  { intros e [He|He]; auto. }
  split; try done.
  - intros e He. destruct (H3 e He) as [[]|Hp]. right. destruct e as [l|l|l|l|l]; simpl in *; try done.
    + intros es e Hes Hin. by eapply Hd, Hp.
    + intros es e Hes Hin. by eapply Hd, Hp.
  - intros r Hr. rewrite app_nil_r in Hr. apply H6, elem_of_app. by left.
  - split; [done|]. intros r Hr. rewrite app_nil_r in Hr. apply (H8 r), elem_of_app. by left.
Qed.

Lemma demanded_closed (init : event → Prop) e es e' :
  demanded mem types depth B0 init e → implied mem types depth B0 e = Some es → e' ∈ es →
  demanded mem types depth B0 init e'.
Proof. intros. by eapply demanded_step. Qed.

Lemma heap_ok_sub (D D' : event → Prop) :
  (∀ e, D e → D' e) → heap_ok mem types depth B0 D' → heap_ok mem types depth B0 D.
Proof. intros HD Hok e He. apply Hok. auto. Qed.

End move.

(** ** Flag changes outside marking *)

Lemma alter_flags_has g f (l x : loc) (boxes : gmap loc Box) :
  (∀ y, test_flag f (g y) = test_flag f y) →
  match alter (with_flags g) l boxes !! x with Some b => test_flag f (m_flags b) | None => false end
  = match boxes !! x with Some b => test_flag f (m_flags b) | None => false end.
Proof.
  intros Hg. destruct (decide (x = l)) as [->|Hne]; [|by rewrite lookup_alter_ne].
  rewrite lookup_alter_eq. destruct (boxes !! l); simpl; [apply Hg|done].
Qed.

Lemma alter_flags_static g (l : loc) (boxes : gmap loc Box) :
  (∀ y, test_flag BoxFlag_Invalid (g y) = test_flag BoxFlag_Invalid y) →
  (∀ y, test_flag BoxFlag_DynamicArray (g y) = test_flag BoxFlag_DynamicArray y) →
  same_static boxes (alter (with_flags g) l boxes).
Proof.
  intros H1 H2 x. destruct (decide (x = l)) as [->|Hne].
  - rewrite lookup_alter_eq. destruct (boxes !! l); simpl; [|done]. by repeat split; simpl.
  - rewrite lookup_alter_ne by done. by destruct (boxes !! x).
Qed.

Lemma same_static_refl boxes : same_static boxes boxes.
Proof. intros l. by destruct (boxes !! l). Qed.

Lemma test_set_disjoint f g x : N.land f g = 0%N → test_flag f (set_flag g x) = test_flag f x.
Proof.
  intros Hfg. rewrite test_set_flag. unfold test_flag at 2. rewrite N.land_comm, Hfg.
  apply orb_false_r.
Qed.

Lemma set_destructing_spec arr boxes :
  same_static boxes (set_destructing arr boxes) ∧
  (∀ f, N.land f BoxFlag_Destructing = 0%N → ∀ l,
    match set_destructing arr boxes !! l with Some b => test_flag f (m_flags b) | None => false end
    = match boxes !! l with Some b => test_flag f (m_flags b) | None => false end).
Proof.
  revert boxes. induction arr as [|x arr IH]; intros boxes; [split; [apply same_static_refl|done]|].
  destruct (IH (alter (with_flags (set_flag BoxFlag_Destructing)) x boxes)) as [H1 H2]. split.
  - eapply same_static_trans; [|exact H1].
    by apply alter_flags_static; intros y; apply test_set_disjoint.
  - intros f Hf l. simpl. unfold set_destructing in H2. rewrite (H2 f Hf).
    apply alter_flags_has. intros y. by apply test_set_disjoint.
Qed.

Lemma build_nodes_static ifaceBox ds boxes g :
  same_static boxes (build_nodes ifaceBox ds boxes g).1 ∧
  (∀ f l, N.land f (N.lor BoxFlag_Index BoxFlag_Map) = 0%N →
     (test_flag f <$> (m_flags <$> (build_nodes ifaceBox ds boxes g).1 !! l))
     = (test_flag f <$> (m_flags <$> boxes !! l))).
Proof.
  revert boxes g. induction ds as [|d ds IH]; intros boxes g; [split; [apply same_static_refl|done]|].
  simpl. set (g1 := with_nodes _ g).
  destruct (index_box_static boxes (ifaceBox d) (length (m_nodeArray g)) g1) as (H1 & H2 & _).
  destruct (index_box _ _ _ _) as [boxes1 g2]. destruct (IH boxes1 g2) as [H3 H4]. simpl in *. split.
  - by eapply same_static_trans.
  - intros f l Hf. by rewrite H4, H2.
Qed.

Lemma has_of_flags st boxes' rs g s f l :
  (test_flag f <$> (m_flags <$> boxes' !! l)) = (test_flag f <$> (m_flags <$> m_boxes st !! l)) →
  has f l (mkGc boxes' rs g s) = has f l st.
Proof.
  unfold has. simpl. destruct (boxes' !! l), (m_boxes st !! l); simpl; congruence.
Qed.

Lemma indexed_flags (b b' : Box) :
  (∀ f, f = BoxFlag_Index ∨ f = BoxFlag_Map → test_flag f (m_flags b') = test_flag f (m_flags b)) →
  indexed b' = indexed b.
Proof. intros H. unfold indexed. by rewrite !H by tauto. Qed.

(** ** The phases of a collection *)

Section phases.
  Context (mem : loc → loc) (types : gmap loc Type_) (depth : nat).
  Context (tls : list Slot) (countSort : list Edge → nat → list Edge * list nat).

(** The state marking starts from. *)
Definition start_state (h : GcHeap) : GcState :=
  mkGc (unmark (m_classBoxArray h) (unmark (m_allocBoxArray h) (h_boxes h))) []
       (h_destructGraph h) State_Mark.

Definition static_roots (h : GcHeap) : list Root :=
  (λ r, mkRoot None r.1 r.2) <$> m_staticRootArray h.

(** The references that are given: those of the roots, and the marks that are
    never cleared because their boxes are static. *)
Definition given (h : GcHeap) (es : list event) (e : event) : Prop :=
  e ∈ es ∨ marked (start_state h) e.

Definition with_candidates (init : event → Prop) (cs : list loc) (e : event) : Prop :=
  init e ∨ ∃ l, l ∈ cs ∧ e = EClass l.

Local Abbreviation B0 h := (m_boxes (start_state h)).
Local Abbreviation dem h := (demanded mem types depth (B0 h)).

(** A heap the collector may be run on. *)
Record heap_ready (h : GcHeap) (es : list event) : Prop := {
  hr_roots : root_events_of mem types depth tls (B0 h) h = Some es;
  hr_static_roots : ∀ p ty, (p, ty) ∈ m_staticRootArray h →
                    ∃ t, types !! ty = Some t ∧ t_gcRoot t = true;
  hr_unindexed : ∀ l b, B0 h !! l = Some b → indexed b = false;
  hr_static : ∀ e, marked (start_state h) e →
              promise mem types depth (B0 h) (static_roots h) (start_state h) e;
  hr_data_weak : ∀ l, has BoxFlag_DataMark l (start_state h) = true →
                 has BoxFlag_WeakMark l (start_state h) = true;
  hr_class_data : ∀ l, has BoxFlag_ClassMark l (start_state h) = true →
                  has BoxFlag_DataMark l (start_state h) = true;
  hr_nodup : NoDup (m_destructibleClassBoxArray h);
  hr_iface : ∀ l, l ∈ m_destructibleClassBoxArray h → iface_box mem (iface_of l) = l;
  hr_heap : heap_ok mem types depth (B0 h)
              (dem h (with_candidates (given h es) (m_destructibleClassBoxArray h)))
}.

(** Enough rounds for the number of boxes and the nesting of the types. *)
Definition enough_rounds (h : GcHeap) : nat :=
  length (marks_to_set (B0 h)) * S depth + depth.

Lemma unset_bound (B : gmap loc Box) st : unset B st ≤ length (marks_to_set B).
Proof. apply length_filter. Qed.

Lemma levels D E B st :
  inv mem types depth B D E [] st → Forall (level mem types B depth) (m_markRoots st).
Proof.
  intros Hi. apply Forall_forall. intros r Hr.
  destruct (i_roots _ _ _ _ _ _ _ _ Hi r) as (es & Hes & _); [by rewrite app_nil_r|]. by exists es.
Qed.

Section run.
  Context (h : GcHeap) (es : list event) (Hh : heap_ready h es).

Let D1 := dem h (given h es).

Lemma D1_closed e ess e' : D1 e → implied mem types depth (B0 h) e = Some ess → e' ∈ ess → D1 e'.
Proof. apply demanded_closed. Qed.

Lemma sub_candidates cs e :
  (∀ l, l ∈ cs → l ∈ m_destructibleClassBoxArray h) →
  dem h (with_candidates (given h es) cs) e →
  dem h (with_candidates (given h es) (m_destructibleClassBoxArray h)) e.
Proof.
  intros Hcs. apply demanded_mono. intros e' [He|(l & Hl & ->)]; [by left|]. right. eauto.
Qed.

Lemma D1_sub cs e : D1 e → dem h (with_candidates (given h es) cs) e.
Proof. apply demanded_mono. by left. Qed.

Lemma D1_ok : heap_ok mem types depth (B0 h) D1.
Proof using Hh.
  eapply heap_ok_sub; [|exact (hr_heap _ _ Hh)]. intros e He. by apply D1_sub.
Qed.

Lemma start_inv : inv mem types depth (B0 h) D1 none (static_roots h) (start_state h).
Proof using Hh.
  split.
  - apply same_static_refl.
  - intros e He. left. apply demanded_init. by right.
  - intros e He. right. by apply (hr_static _ _ Hh).
  - apply (hr_data_weak _ _ Hh).
  - apply (hr_class_data _ _ Hh).
  - simpl. intros r ([p ty] & -> & Hr)%list_elem_of_fmap. simpl.
    pose proof (hr_roots _ _ Hh) as Hes. unfold root_events_of in Hes.
    apply bind_Some in Hes as (es1 & [H1 _]%flat_mapM_Some & Hes).
    apply bind_Some in Hes as (es2 & _ & [= Hes]).
    destruct (H1 (p, ty) Hr) as (y & Hy & Hsub). simpl in Hy.
    destruct (hr_static_roots _ _ Hh p ty Hr) as (t & Ht & Hg).
    unfold addRoot_events in Hy. rewrite Ht in Hy. simpl in Hy. rewrite Hg in Hy.
    exists y. split; [done|]. intros e He. apply demanded_init. left. rewrite <- Hes.
    apply elem_of_app. left. auto.
  - split; [exact (hr_unindexed _ _ Hh)|]. done.
Qed.

(** Marking from the roots. *)
Lemma mark_phase rounds :
  enough_rounds h ≤ rounds →
  ∃ st1 st, addRoots mem types depth tls h (start_state h) = Some (tt, st1) ∧
    runMarkCycle mem types depth rounds st1 = Some st ∧
    inv mem types depth (B0 h) D1 none [] st ∧ m_markRoots st = [] ∧ m_state st = State_Mark ∧
    ∀ e, D1 e → sat st e.
Proof using Hh.
  intros Hr.
  destruct (runs_addRoots mem types depth tls (B0 h) D1 D1_closed D1_ok (static_roots h) h es
              (hr_roots _ _ Hh) ltac:(intros; apply demanded_init; by left) _ start_inv)
    as (st1 & Ha & Hi1 & Hs1 & Hd1); [done|].
  assert (Hst1 : m_state st1 = State_Mark) by (by rewrite (s_state _ _ _ _ _ _ Hs1)).
  apply inv_drop_todo in Hi1.
  2:{ intros e (r & ess & Hin & Hsc & He). apply Hd1.
      apply list_elem_of_fmap in Hin as ([p ty] & -> & Hin). simpl in Hsc.
      pose proof (hr_roots _ _ Hh) as Hes. unfold root_events_of in Hes.
      apply bind_Some in Hes as (es1 & [H1 _]%flat_mapM_Some & Hes).
      apply bind_Some in Hes as (es2 & _ & [= Hes]).
      destruct (H1 (p, ty) Hin) as (y & Hy & Hsub). simpl in Hy.
      destruct (hr_static_roots _ _ Hh p ty Hin) as (t & Ht & Hg).
      unfold addRoot_events in Hy. rewrite Ht in Hy. simpl in Hy. rewrite Hg, Hsc in Hy.
      injection Hy as <-. rewrite <- Hes. apply elem_of_app. left. auto. }
  destruct (cycle_ok mem types depth (B0 h) D1 D1_closed D1_ok rounds depth st1 Hi1)
    as (st & Hrun & Hi & Hq & Hf & Hst & _ & Hd); [done|by eapply levels| |].
  { pose proof (unset_bound (B0 h) st1). unfold enough_rounds in Hr. nia. }
  exists st1, st. split; [done|]. split; [done|]. split; [done|]. split; [done|].
  split; [congruence|].
  apply (all_marked mem types depth (B0 h) D1 D1_ok (given h es) st Hi Hq); [done|].
  intros e [He|He]; [by apply Hd, Hd1|]. apply Hd. eapply done_step; [exact Hs1|].
  left. destruct e; simpl in *; try done. by right.
Qed.

(** What the boxes to be destructed are. *)
Definition object_live (D : event → Prop) (l : loc) : Prop :=
  D (EClass l) ∨ D (EField l) ∨ D (EClosure l).

Definition memory_live (D : event → Prop) (l : loc) : Prop := D (EWeak l) ∨ D (EField l).

Lemma kept_object_has st l :
  kept_object (m_boxes st) l = has BoxFlag_ClassMark l st || has BoxFlag_ClosureWeakMark l st.
Proof.
  unfold kept_object, has. destruct (m_boxes st !! l); [|done]. apply test_flag_lor.
Qed.

Lemma kept_object_live D st l :
  inv mem types depth (B0 h) D none [] st → (∀ e, D e → sat st e) →
  kept_object (m_boxes st) l = true ↔ object_live D l.
Proof.
  intros Hi Hs. rewrite kept_object_has, orb_true_iff.
  apply (em_object _ _ (exact_of_sat mem types depth (B0 h) D st Hi Hs)).
Qed.

Lemma kept_memory_live D st l :
  inv mem types depth (B0 h) D none [] st → (∀ e, D e → sat st e) →
  kept_memory (m_boxes st) l = true ↔ memory_live D l.
Proof. intros Hi Hs. apply (em_weak _ _ (exact_of_sat mem types depth (B0 h) D st Hi Hs)). Qed.

(** *** The destruct graph *)

Section candidates.
  Context (cs : list loc) (Hsub : ∀ l, l ∈ cs → l ∈ m_destructibleClassBoxArray h).
  Context (Hnd : NoDup cs) (Hne : cs ≠ []).

Let D2 := dem h (with_candidates (given h es) cs).

Lemma D2_closed e ess e' : D2 e → implied mem types depth (B0 h) e = Some ess → e' ∈ ess → D2 e'.
Proof. apply demanded_closed. Qed.

Lemma D2_ok : heap_ok mem types depth (B0 h) D2.
Proof using Hh Hsub.
  eapply heap_ok_sub; [|exact (hr_heap _ _ Hh)]. intros e He. by apply (sub_candidates cs).
Qed.

Lemma candidate_box l : l ∈ cs → D2 (EClass l) ∧ is_Some (B0 h !! l).
Proof using Hh Hsub.
  intros Hl. assert (HD : D2 (EClass l)) by (apply demanded_init; right; eauto).
  split; [done|]. by apply (implied_box mem types depth (B0 h) D2 D2_ok (EClass l)).
Qed.

Lemma candidate_boxes : iface_box mem <$> (iface_of <$> cs) = cs.
Proof using Hh Hsub.
  rewrite <- list_fmap_compose. rewrite <- (list_fmap_id cs) at 2.
  apply list_fmap_ext. intros i l Hl. apply (hr_iface _ _ Hh), Hsub. by eapply list_elem_of_lookup_2.
Qed.

(** The state of the graph when marking for it begins. *)
Lemma build_start st :
  inv mem types depth (B0 h) D1 none [] st → m_markRoots st = [] → m_state st = State_Mark →
  ∃ boxes g, build_begin (iface_box mem) (iface_of <$> cs) (set_destructing cs (m_boxes st))
               (m_destructGraph st) = (boxes, g) ∧
    m_box <$> m_nodeArray g = cs ∧ m_unsortedEdgeArray g = [] ∧
    let st' := mkGc boxes (m_markRoots st) g State_BuildDestructGraph in
    inv mem types depth (B0 h) D2 none [] st' ∧ (∀ f l, mark_flag f → has f l st' = has f l st).
Proof using Hh Hsub Hnd.
  intros Hi Hq Hm.
  destruct (set_destructing_spec cs (m_boxes st)) as [Hs1 Hf1].
  pose proof (i_static _ _ _ _ _ _ _ _ Hi) as Hs0.
  pose proof (proj1 (i_graph _ _ _ _ _ _ _ _ Hi)) as Hun. rewrite Hm in Hun.
  assert (Hun1 : ∀ l b, set_destructing cs (m_boxes st) !! l = Some b → indexed b = false).
  { intros l b Hb. specialize (Hs1 l). rewrite Hb in Hs1.
    destruct (m_boxes st !! l) as [b0|] eqn:Hb0; [|done]. rewrite <- (Hun _ _ Hb0).
    apply indexed_flags. intros f Hf.
    assert (Hd : N.land f BoxFlag_Destructing = 0%N) by (destruct Hf as [->| ->]; done).
    specialize (Hf1 f Hd l). by rewrite Hb, Hb0 in Hf1. }
  destruct (build_begin_ok (iface_box mem) (iface_of <$> cs) _ (m_destructGraph st) Hun1)
    as (boxes & g & Hb & Hw & Hn & He).
  { by rewrite candidate_boxes. }
  { intros d (l & -> & Hl)%list_elem_of_fmap. rewrite (hr_iface _ _ Hh) by auto.
    destruct (candidate_box l Hl) as [_ [b Hlb]].
    destruct (box_of_static _ _ _ _ Hs0 Hlb) as (b1 & Hb1 & _).
    destruct (box_of_static _ (with_boxes (set_destructing cs (m_boxes st)) st) _ _ Hs1 Hb1)
      as (b2 & Hb2 & _). apply elem_of_dom. by exists b2. }
  rewrite candidate_boxes in Hn.
  pose proof (build_nodes_static (iface_box mem) (iface_of <$> cs) (set_destructing cs (m_boxes st))
    (mkGraph [] ∅ [] (m_sortedEdgeArray (m_destructGraph st)) (m_edgeBaseArray (m_destructGraph st))
       (m_destructCount (m_destructGraph st)) (m_currentNode (m_destructGraph st)))) as [Hs2 Hf2].
  unfold build_begin in Hb. rewrite Hb in Hs2, Hf2. simpl in Hs2, Hf2.
  exists boxes, g. split; [done|]. split; [done|]. split; [done|]. simpl.
  assert (Hhas : ∀ f l, mark_flag f →
    has f l (mkGc boxes (m_markRoots st) g State_BuildDestructGraph) = has f l st).
  { intros f l Hf.
    assert (Hd1 : N.land f (N.lor BoxFlag_Index BoxFlag_Map) = 0%N)
      by (destruct Hf as [->|[->|[->| ->]]]; done).
    assert (Hd2 : N.land f BoxFlag_Destructing = 0%N)
      by (destruct Hf as [->|[->|[->| ->]]]; done).
    transitivity (has f l (with_boxes (set_destructing cs (m_boxes st)) st)); [|by apply Hf1].
    apply (has_of_flags (with_boxes (set_destructing cs (m_boxes st)) st)). by apply Hf2. }
  split; [|done]. apply (inv_transfer _ _ _ _ D2 none [] st); [| |done|done|].
  - eapply inv_demand; [|exact Hi]. apply D1_sub.
  - by eapply same_static_trans.
  - split; [done|]. simpl. rewrite Hq. intros r Hr. by apply not_elem_of_nil in Hr.
Qed.

(** Marking from the candidates [ixs]. *)
Lemma mark_candidates ixs st :
  inv mem types depth (B0 h) D2 none [] st → m_state st = State_BuildDestructGraph →
  cs `prefix_of` (m_box <$> m_nodeArray (m_destructGraph st)) → (∀ i, i ∈ ixs → i < length cs) →
  ∃ st', for_each ixs (λ i,
      _ ← setCurrentNode (Some i);
      node ← (λ st, n ← m_nodeArray (m_destructGraph st) !! i; Some (n, st));
      markClass types depth (m_box node)) st = Some (tt, st') ∧
    inv mem types depth (B0 h) D2 none [] st' ∧ advance mem types (B0 h) depth st st' ∧
    ∀ i l, i ∈ ixs → cs !! i = Some l → sat st' (EClass l).
Proof using Hh Hsub.
  revert st. induction ixs as [|i ixs IH]; intros st Hi Hm Hp His.
  { exists st. split; [done|]. split; [done|split; [apply advance_refl|]].
    intros i l Hin. by apply not_elem_of_nil in Hin. }
  destruct (lookup_lt_is_Some_2 cs i) as [l Hl]; [apply His; left|].
  assert (Hnode : ∃ nd, m_nodeArray (m_destructGraph st) !! i = Some nd ∧ m_box nd = l).
  { pose proof (prefix_lookup_Some _ _ _ _ Hl Hp) as H. rewrite list_lookup_fmap in H.
    destruct (m_nodeArray _ !! i) as [nd|]; [|done]. injection H as H. by exists nd. }
  destruct Hnode as (nd & Hnode & Hbx).
  destruct (candidate_box l) as [HDl _]; [by eapply list_elem_of_lookup_2|].
  pose proof (at_node_inv mem types depth (B0 h) D2 (Some i) _ _ Hi) as Hi0.
  destruct (markClass_ok mem types depth (B0 h) D2 D2_closed D2_ok depth [] _ l Hi0 HDl)
    as (st1 & Hrun & Hi1 & Hs1 & Hc1).
  { unfold current_ok, parent_ok. simpl. rewrite Hm. exists i. split; [done|].
    by eapply lookup_lt_Some. }
  assert (Ha1 : advance mem types (B0 h) depth st st1)
    by (destruct (step_advance _ _ _ _ _ _ Hs1) as [F R S N]; by split).
  destruct (IH st1 Hi1) as (st' & Hrun' & Hi' & Ha' & Hc').
  { by rewrite (a_state _ _ _ _ _ _ Ha1). }
  { etrans; [exact Hp|]. destruct (a_nodes _ _ _ _ _ _ Ha1) as [ns ->]. rewrite fmap_app.
    by apply prefix_app_r. }
  { intros j Hj. apply His. by right. }
  exists st'. split; [|split; [done|split; [by eapply advance_trans|]]].
  - cbn [for_each]. rewrite (run_bind _ _ st tt st1); [exact Hrun'|].
    rewrite (run_bind (setCurrentNode _) _ st tt (at_node (Some i) st) eq_refl).
    rewrite (run_bind _ _ _ nd (at_node (Some i) st)); [by rewrite Hbx|].
    simpl. by rewrite Hnode.
  - intros j l' [->|Hj]%elem_of_cons Hl'.
    + rewrite Hl in Hl'. injection Hl' as <-. simpl. apply (a_flags _ _ _ _ _ _ Ha'); [|done].
      right; right; by left.
    + by eapply Hc'.
Qed.

(** [DestructGraph::build]: afterwards everything the candidates need is marked
    too, and the graph is well formed with the candidates as its first nodes. *)
Lemma build_ok rounds st :
  enough_rounds h ≤ rounds →
  inv mem types depth (B0 h) D1 none [] st → m_markRoots st = [] → m_state st = State_Mark →
  (∀ e, D1 e → sat st e) →
  ∃ st2, build mem types depth countSort rounds (iface_of <$> cs)
           (with_boxes (set_destructing cs (m_boxes st)) st)
         = Some (with_graph (build_finish countSort (length cs) (m_destructGraph st2)) st2) ∧
    inv mem types depth (B0 h) D2 none [] st2 ∧ (∀ e, D2 e → sat st2 e) ∧
    graph_wf (m_boxes st2) (m_destructGraph st2) ∧
    cs `prefix_of` (m_box <$> m_nodeArray (m_destructGraph st2)).
Proof using Hh Hsub Hnd.
  intros Hr Hi Hq Hm Hsat.
  destruct (build_start st Hi Hq Hm) as (boxes & g & Hb & Hn & _ & Hi1 & Hhas).
  set (st1 := mkGc boxes (m_markRoots st) g State_BuildDestructGraph) in *.
  destruct (mark_candidates (seq 0 (length cs)) st1 Hi1 eq_refl) as (st2 & Hrun & Hi2 & Ha2 & Hc2).
  { simpl. by rewrite Hn. }
  { intros i Hin. apply elem_of_seq in Hin. lia. }
  destruct (cycle_ok mem types depth (B0 h) D2 D2_closed D2_ok rounds depth st2 Hi2)
    as (st3 & Hcyc & Hi3 & Hq3 & Hf3 & Hst3 & Hn3 & Hd3); [done|by eapply levels| |].
  { pose proof (unset_bound (B0 h) st2). unfold enough_rounds in Hr. nia. }
  exists st3. split; [|split; [done|split; [|split]]].
  - unfold build. simpl. rewrite Hb, length_fmap. fold st1. rewrite Hrun. simpl. by rewrite Hcyc.
  - apply (all_marked mem types depth (B0 h) D2 D2_ok (with_candidates (given h es) cs) st3 Hi3 Hq3);
      [done|]. intros e [He|(l & Hl & ->)].
    + apply Hd3. eapply done_advance; [exact Ha2|]. left. eapply (sat_same mem st); [exact Hhas|].
      apply Hsat. by apply demanded_init.
    + apply list_elem_of_lookup in Hl as [i Hl]. apply Hd3. left. apply (Hc2 i l); [|done].
      apply elem_of_seq. apply lookup_lt_Some in Hl. lia.
  - pose proof (proj1 (i_graph _ _ _ _ _ _ _ _ Hi3)) as Hw.
    by rewrite Hst3, (a_state _ _ _ _ _ _ Ha2) in Hw.
  - destruct Hn3 as [ns ->]. destruct (a_nodes _ _ _ _ _ _ Ha2) as [ns' ->].
    rewrite !fmap_app. simpl. rewrite Hn, <- app_assoc. by apply prefix_app_r.
Qed.

End candidates.

Lemma cleanup_has boxes g f l :
  N.land f (N.lor BoxFlag_Index BoxFlag_Map) = 0%N →
  match (cleanup boxes g).1 !! l with Some b => test_flag f (m_flags b) | None => false end
  = match boxes !! l with Some b => test_flag f (m_flags b) | None => false end.
Proof.
  intros Hf. unfold cleanup. simpl. rewrite foldl_alter_lookup.
  - case_decide; [|done]. destruct (boxes !! l); simpl; [|done].
    apply test_clear_flag_disjoint. unfold disjoint_flags. by apply N.eqb_eq.
  - intros b. unfold with_flags. simpl. f_equal. apply clear_flag_idem.
Qed.

Lemma exact_same D st st' :
  (∀ f l, mark_flag f → has f l st' = has f l st) → exact_marks D st → exact_marks D st'.
Proof.
  intros Hs [E1 E2 E3 E4].
  split; intros l; rewrite !Hs by (unfold mark_flag; tauto); [apply E1|apply E2|apply E3|apply E4].
Qed.

(** Scheduling the unreachable destructible objects. *)
Lemma schedule_ok rounds st cs queue :
  countSort_laws countSort → enough_rounds h ≤ rounds →
  (∀ l, l ∈ cs → l ∈ m_destructibleClassBoxArray h) → NoDup cs →
  inv mem types depth (B0 h) D1 none [] st → m_markRoots st = [] → m_state st = State_Mark →
  (∀ e, D1 e → sat st e) →
  ∃ fuel0, ∀ fuel, fuel0 ≤ fuel → ∃ st' ks,
    schedule mem types depth countSort rounds fuel cs queue st
    = Some (st', queue ++ ((λ k, iface_of (default 0%N (cs !! k))) <$> ks)) ∧
    ks ≡ₚ seq 0 (length cs) ∧
    exact_marks (dem h (with_candidates (given h es) cs)) st' ∧
    ∀ l b, m_boxes st' !! l = Some b → indexed b = false.
Proof using Hh.
  intros Hcs Hr Hsub Hnd Hi Hq Hm Hsat. destruct cs as [|c0 cs'] eqn:Hcs0.
  { exists 0. intros fuel _. exists st, []. simpl. rewrite app_nil_r. split; [done|].
    split; [done|]. split.
    - assert (HDe : ∀ e, dem h (with_candidates (given h es) []) e → D1 e).
      { intros e. apply demanded_mono. intros e' [He|(l & Hl & _)]; [done|].
        by apply not_elem_of_nil in Hl. }
      apply (exact_of_sat mem types depth (B0 h)); [|auto].
      eapply inv_demand; [|exact Hi]. apply D1_sub.
    - pose proof (proj1 (i_graph _ _ _ _ _ _ _ _ Hi)) as Hun. by rewrite Hm in Hun. }
  rewrite <- Hcs0 in *. assert (Hne : cs ≠ []) by (by rewrite Hcs0).
  destruct (build_ok cs Hsub Hnd rounds st Hr Hi Hq Hm Hsat) as (st2 & Hb & Hi2 & Hs2 & Hw & Hp).
  set (g2 := m_destructGraph st2) in *. set (g3 := build_finish countSort (length cs) g2) in *.
  assert (Hlen : length cs ≤ length (m_nodeArray g2)).
  { apply prefix_length in Hp. by rewrite length_fmap in Hp. }
  assert (Hpos : 0 < length (m_nodeArray g2)) by (rewrite Hcs0 in Hlen; simpl in Hlen; lia).
  pose proof (ready_of_build _ _ _ (length cs) Hcs Hw Hpos Hlen) as Hg. fold g3 in Hg.
  exists (length (m_nodeArray g3) + length (m_sortedEdgeArray g3)). intros fuel Hf.
  destruct (tarjan_ok fuel g3 Hg Hf) as (s & comps & Hs & Ht).
  destruct (emit_ok g3 s comps queue Hg Ht) as (ks & He & Hk & _).
  assert (Hg3 : m_destructCount g3 = length cs ∧ m_nodeArray g3 = m_nodeArray g2)
    by (unfold g3; rewrite build_finish_eq; done). destruct Hg3 as [Hcnt Hns]. rewrite Hcnt in Hk.
  assert (Hw3 : graph_wf (m_boxes st2) g3).
  { destruct Hw as [W1 W2 W3 W4]. split.
    - rewrite Hns. exact W1.
    - rewrite Hns. intros i nd Hnd'. destruct (W2 i nd Hnd') as (b & Hbb & Hn).
      exists b. split; [done|]. unfold names_node in *. unfold g3. by rewrite build_finish_eq.
    - rewrite Hns. exact W3.
    - rewrite Hns. unfold g3. by rewrite build_finish_eq. }
  pose proof (cleanup_ok _ _ Hw3) as Hcl. pose proof (cleanup_has (m_boxes st2) g3) as Hch.
  destruct (cleanup (m_boxes st2) g3) as [boxes' g'] eqn:Hclean.
  destruct Hcl as (_ & _ & _ & Hun & _). simpl in Hch.
  exists (with_graph g' (with_boxes boxes' (with_graph g3 st2))), ks.
  split; [|split; [done|split; [|done]]].
  - unfold schedule. rewrite Hcs0. rewrite <- Hcs0. rewrite Hb.
    cbn -[cleanup emit tarjan]. fold g2 g3. rewrite Hs. cbn -[cleanup emit].
    rewrite He. cbn -[cleanup]. rewrite Hclean. do 3 f_equal. apply list_fmap_ext. intros i k Hik.
    apply list_elem_of_lookup_2 in Hik. rewrite Hk in Hik. apply elem_of_seq in Hik.
    destruct (lookup_lt_is_Some_2 cs k) as [l Hl]; [lia|]. rewrite Hl. simpl.
    pose proof (prefix_lookup_Some _ _ _ _ Hl Hp) as Hx. rewrite list_lookup_fmap in Hx.
    unfold iface_at. rewrite Hns. destruct (m_nodeArray g2 !! k); [|done].
    simpl in Hx. injection Hx as ->. done.
  - apply (exact_same _ st2); [|by apply (exact_of_sat mem types depth (B0 h))].
    intros f l Hf'. unfold has. simpl. apply Hch. destruct Hf' as [->|[->|[->| ->]]]; done.
Qed.

End run.

(** C1: a collection runs to completion and is exact: the destructible objects
    that the roots do not reach are queued for destruction, each once and with the
    rest of the queue kept; of the allocated boxes exactly those are kept that the
    roots or the queued objects reach through the references of the heap, weak
    references and the enclosing objects of class fields included; all others are
    freed (or postponed while shutting down); and the boxes carry no trace of the
    destruct graph. *)
Theorem collect_exact h es rounds isShuttingDown :
  heap_ready h es → countSort_laws countSort → enough_rounds h ≤ rounds →
  ∃ cs fuel0,
    (∀ l, l ∈ cs ↔ l ∈ m_destructibleClassBoxArray h ∧ ¬ object_live (dem h (given h es)) l) ∧
    ∀ fuel, fuel0 ≤ fuel → ∃ h' ks,
      collect mem types depth tls countSort rounds fuel isShuttingDown h = Some h' ∧
      ks ≡ₚ seq 0 (length cs) ∧
      m_destructArray h' = m_destructArray h ++ ((λ k, iface_of (default 0%N (cs !! k))) <$> ks) ∧
      let D2 := dem h (with_candidates (given h es) cs) in
      (∀ l, l ∈ m_allocBoxArray h' ↔ l ∈ m_allocBoxArray h ∧ memory_live D2 l) ∧
      (∀ l, l ∈ m_classBoxArray h' ↔ l ∈ m_classBoxArray h ∧ object_live D2 l) ∧
      (∀ l, l ∈ m_destructibleClassBoxArray h' ↔
            l ∈ m_destructibleClassBoxArray h ∧ object_live (dem h (given h es)) l) ∧
      (∀ l, l ∈ h_freed h' ↔ l ∈ h_freed h ∨
            (isShuttingDown = false ∧ l ∈ m_allocBoxArray h ∧ ¬ memory_live D2 l)) ∧
      (∀ l, l ∈ m_postponeFreeBoxArray h' ↔ l ∈ m_postponeFreeBoxArray h ∨
            (isShuttingDown = true ∧ l ∈ m_allocBoxArray h ∧ ¬ memory_live D2 l)) ∧
      (∀ l b, h_boxes h' !! l = Some b → indexed b = false).
Proof.
  intros Hh Hcs Hr.
  destruct (mark_phase h es Hh rounds Hr) as (st1 & st & Ha & Hrun & Hi & Hq & Hm & Hs).
  set (cs := filter (λ l, kept_object (m_boxes st) l = false) (m_destructibleClassBoxArray h)).
  assert (Hlive : ∀ l, kept_object (m_boxes st) l = true ↔ object_live (dem h (given h es)) l)
    by (intros l; by apply (kept_object_live h)).
  assert (Hcs' : ∀ l, l ∈ cs ↔ l ∈ m_destructibleClassBoxArray h ∧
                               ¬ object_live (dem h (given h es)) l).
  { intros l. unfold cs. rewrite list_elem_of_filter, <- Hlive, not_true_iff_false. tauto. }
  destruct (schedule_ok h es Hh rounds st cs (m_destructArray h) Hcs Hr) as (fuel0 & Hsch); try done.
  { intros l Hl. by apply Hcs'. }
  { apply NoDup_filter, (hr_nodup _ _ Hh). }
  exists cs, fuel0. split; [done|]. intros fuel Hf.
  destruct (Hsch fuel Hf) as (st' & ks & Hsc & Hk & Hex & Hun).
  unfold collect. fold (start_state h). rewrite Ha. simpl. rewrite Hrun. simpl. fold cs.
  rewrite Hsc. simpl. eexists _, ks. split; [reflexivity|]. simpl.
  split; [done|]. split; [done|].
  assert (Hmem : ∀ l, kept_memory (m_boxes st') l = true ↔
                 memory_live (dem h (with_candidates (given h es) cs)) l) by apply (em_weak _ _ Hex).
  assert (Hobj : ∀ l, kept_object (m_boxes st') l = true ↔
                 object_live (dem h (with_candidates (given h es) cs)) l).
  { intros l. rewrite kept_object_has, orb_true_iff. apply (em_object _ _ Hex). }
  split; [|split; [|split; [|split; [|split; [|done]]]]]; intros l.
  - rewrite list_elem_of_filter, Hmem. tauto.
  - rewrite list_elem_of_filter, Hobj. tauto.
  - rewrite list_elem_of_filter, Hlive. tauto.
  - rewrite elem_of_app. destruct isShuttingDown.
    + rewrite elem_of_nil. naive_solver.
    + rewrite list_elem_of_filter, <- Hmem, not_true_iff_false. tauto.
  - rewrite elem_of_app. destruct isShuttingDown.
    + rewrite list_elem_of_filter, <- Hmem, not_true_iff_false. tauto.
    + rewrite elem_of_nil. naive_solver.
Qed.

End phases.
