(* ===== verification/GcExamples.v ===== *)
(** * Collections of concrete heaps

    A heap on which the assumptions of the collection theorem hold, and one on
    which an object that was destructed hides a field that is still in use. *)

From S2P Require Import Prelude Box DestructGraph DestructOrder DestructEmit DestructBuild GcMark GcMarkSpec GcMarkInv GcCollect GcCollectSpec.

(** ** Deciding the assumptions *)

Ltac decide_now := match goal with |- ?P => refine (bool_decide_unpack P _); vm_compute; exact I end.

#[export] Instance event_eq_dec : EqDecision event.
Proof. solve_decision. Defined.

Section decide.
  Context (mem : loc → loc) (types : gmap loc Type_) (depth : nat) (B0 : gmap loc Box).

(** The list contains all that its elements demand. *)
Definition closed_list (L : list event) : bool :=
  forallb (λ e, match implied mem types depth B0 e with
                | Some es => forallb (λ e', bool_decide (e' ∈ L)) es
                | None => false
                end) L.

Lemma closed_list_demanded L init e :
  closed_list L = true → (∀ e, init e → e ∈ L) → demanded mem types depth B0 init e →
  e ∈ L ∧ is_Some (implied mem types depth B0 e).
Proof.
  intros Hc Hi He. unfold closed_list in Hc. rewrite forallb_forall in Hc.
  assert (HL : ∀ e, e ∈ L → is_Some (implied mem types depth B0 e)).
  { intros e' He'%list_elem_of_In. specialize (Hc e' He'). destruct (implied _ _ _ _ e'); [eauto|done]. }
  split; [|apply HL]; induction He as [e He|e es e' He IH Himp Hin]; try by apply Hi.
  all: assert (Hx : e ∈ L) by (apply IH || (by apply Hi)); apply list_elem_of_In in Hx;
    specialize (Hc e Hx); rewrite Himp in Hc; rewrite forallb_forall in Hc;
    apply list_elem_of_In in Hin; specialize (Hc e' Hin); by apply bool_decide_eq_true in Hc.
Qed.

(** Field boxes of an object, checked. *)
Definition check_field (box : loc) (b : Box) (f : loc) : bool :=
  match B0 !! f, contents mem types depth B0 f, contents mem types depth B0 box with
  | Some bf, Some ef, Some el =>
    negb (m_rootOffset bf =? 0)%N && (root_of f bf =? root_of box b)%N &&
    forallb (λ e, bool_decide (e ∈ el)) ef
  | _, _, _ => false
  end.

Definition check_fields (box : loc) : bool :=
  match B0 !! box with
  | Some b => match class_fields types B0 depth (m_type b) (iface_of box) with
              | Some fs => forallb (check_field box b) fs | None => true end
  | None => true
  end.

Lemma check_fields_ok box : check_fields box = true → fields_ok mem types depth B0 box.
Proof.
  unfold check_fields. intros H b fs f Hb Hfs Hf. rewrite Hb, Hfs, forallb_forall in H.
  apply list_elem_of_In in Hf. specialize (H f Hf). unfold check_field in H. unfold field_ok.
  destruct (B0 !! f) as [bf|]; [|done]. destruct (contents _ _ _ _ f) as [ef|]; [|done].
  destruct (contents _ _ _ _ box) as [el|]; [|done].
  apply andb_true_iff in H as [H H3]. apply andb_true_iff in H as [H1 H2].
  exists bf. split; [done|]. split; [by apply N.eqb_neq, negb_true_iff|].
  split; [by apply N.eqb_eq|]. exists ef, el. do 2 (split; [done|]).
  intros e He%list_elem_of_In. rewrite forallb_forall in H3.
  specialize (H3 e He). by apply bool_decide_eq_true in H3.
Qed.

Definition check_event (e : event) : bool :=
  match e with
  | EClass box => check_fields box
  | EClosure _ => false
  | _ => true
  end.

Lemma closed_list_heap_ok L init :
  closed_list L = true → forallb check_event L = true → (∀ e, init e → e ∈ L) →
  heap_ok mem types depth B0 (demanded mem types depth B0 init).
Proof.
  intros Hc Hk Hi e He. destruct (closed_list_demanded L init e Hc Hi He) as [HL Hs].
  split; [done|]. rewrite forallb_forall in Hk. apply list_elem_of_In in HL. specialize (Hk e HL).
  destruct e; try done. by apply check_fields_ok.
Qed.

End decide.

Lemma no_marks st :
  map_Forall (λ _ b, N.land (m_flags b) BoxFlag_MarkMask = 0%N) (m_boxes st) →
  ∀ f l, mark_flag f → has f l st = false.
Proof.
  intros Hb f l Hf. unfold has. destruct (m_boxes st !! l) as [b|] eqn:Hl; [|done].
  specialize (Hb l b Hl). simpl in Hb.
  assert (Hfm : N.land f BoxFlag_MarkMask = f) by (destruct Hf as [->|[->|[->| ->]]]; done).
  unfold test_flag. apply negb_false_iff, N.eqb_eq.
  rewrite <- Hfm, (N.land_comm f), N.land_assoc, Hb. done.
Qed.

Lemma not_marked st e : (∀ f l, mark_flag f → has f l st = false) → ¬ marked st e.
Proof. intros H. destruct e; simpl; rewrite ?H; unfold mark_flag; auto. Qed.

(** ** A heap

    A static variable refers to object 1000, which refers to object 2000 with a
    class field at 2048; 3000 has a destructor and is not reached, it refers to
    4000; the data at 5000 is garbage. *)
Definition no_class : ClassInfo := mkClass [] [] [] [] ClassTypeKind_Normal None false None.

Definition demo_types : gmap loc Type_ := list_to_map
  [(1, mkType (TypeKind_Class (mkClass [] [] [] [mkSlot 16 2] ClassTypeKind_Normal None true None)) true 40 false);
   (2, mkType (TypeKind_ClassPtr false 3) true 8 false);
   (3, mkType (TypeKind_ClassPtr true 3) true 8 false);
   (4, mkType TypeKind_Other false 8 false);
   (5, mkType (TypeKind_Class (mkClass [] [] [] [mkSlot 16 2] ClassTypeKind_Normal None false None)) true 40 false);
   (6, mkType (TypeKind_Class (mkClass [] [mkSlot 32 5] [] [mkSlot 16 2; mkSlot 32 5]
                                 ClassTypeKind_Normal None true None)) true 88 false)]%N.

Definition demo_heap_boxes : gmap loc Box := list_to_map
  [(1000, mkBox 1 0 0 0); (2000, mkBox 6 0 0 0); (2048, mkBox 5 0 0 48);
   (3000, mkBox 1 BoxFlag_ClassMark 0 0); (4000, mkBox 5 0 0 0); (5000, mkBox 4 BoxFlag_WeakMark 0 0)]%N.

Definition words (l : list (loc * loc)) (a : loc) : loc := default 0%N (list_to_map (M := gmap loc loc) l !! a).

Definition demo_mem : loc → loc := words
  [(100, 1016); (1024, 1000); (1032, 2016); (2024, 2000); (2072, 2048); (2080, 1016);
   (3024, 3000); (3032, 4016); (4024, 4000)]%N.

Definition demo_heap : GcHeap :=
  mkHeap demo_heap_boxes [1000; 2000; 3000; 4000; 5000]%N [1000; 2048; 2000; 3000; 4000]%N
    [1000; 2000; 3000]%N [] [(100, 2)]%N [mkThread 200 [] 0 0] [] demo_empty 0 0 [].

Definition demo_list : list event :=
  EClass 1000 :: EWeak 1000 :: EData 1000 :: EClass 2000 :: EWeak 2000 :: EData 2000 :: EField 2048 ::
  EClass 3000 :: EWeak 3000 :: EData 3000 :: EClass 4000 :: EWeak 4000 :: EData 4000 :: [].

Lemma demo_ready : heap_ready demo_mem demo_types 6 [] demo_heap [EClass 1000].
Proof.
  assert (Hnm : ∀ e, ¬ marked (start_state demo_heap) e).
  { intros e. apply not_marked, no_marks. decide_now. }
  split.
  - vm_compute. reflexivity.
  - intros p ty Hp. apply list_elem_of_singleton in Hp. injection Hp as -> ->. eexists. split; [vm_compute; reflexivity|reflexivity].
  - intros l b Hb. change (m_boxes (start_state demo_heap)) with
      (unmark [1000; 2048; 2000; 3000; 4000]%N (unmark [1000; 2000; 3000; 4000; 5000]%N demo_heap_boxes)) in Hb.
    assert (HF : map_Forall (λ _ b, indexed b = false) (m_boxes (start_state demo_heap)))
      by (decide_now).
    by apply (HF l b).
  - intros e He. by apply Hnm in He.
  - intros l Hl. by apply (Hnm (EData l)) in Hl.
  - intros l Hl. by apply (Hnm (EClass l)) in Hl.
  - decide_now.
  - intros l Hl. repeat (apply elem_of_cons in Hl as [->|Hl]; [reflexivity|]).
    by apply not_elem_of_nil in Hl.
  - apply (closed_list_heap_ok _ _ _ _ demo_list); [vm_compute; reflexivity..|].
    intros e [[He|He]|(l & Hl & ->)].
    + apply list_elem_of_singleton in He as ->. left.
    + by apply Hnm in He.
    + repeat (apply elem_of_cons in Hl as [->|Hl]; [decide_now|]).
      by apply not_elem_of_nil in Hl.
Qed.

Lemma collect_exact_witness :
  ∃ cs fuel0, ∀ fuel, fuel0 ≤ fuel → ∃ h' ks,
    collect demo_mem demo_types 6 [] countSortRef 200 fuel false demo_heap = Some h' ∧
    ks ≡ₚ seq 0 (length cs) ∧
    m_destructArray h' = [] ++ ((λ k, iface_of (default 0%N (cs !! k))) <$> ks).
Proof.
  destruct (collect_exact demo_mem demo_types 6 [] countSortRef demo_heap [EClass 1000%N] 200 false
              demo_ready countSortRef_laws) as (cs & fuel0 & _ & H); [vm_compute; lia|].
  exists cs, fuel0. intros fuel Hf. destruct (H fuel Hf) as (h' & ks & Hc & Hk & Hq & _).
  exists h', ks. split; [exact Hc|]. split; [exact Hk|exact Hq].
Defined.

(** The same collection, run: 3000 is queued, 4000 kept for it, 5000 freed. *)
Example collect_demo :
  (λ h, (m_allocBoxArray h, m_destructArray h, h_freed h))
    <$> collect demo_mem demo_types 6 [] countSortRef 100 100 false demo_heap
  = Some ([1000; 2000; 3000; 4000], [3016], [5000])%N.
Proof. vm_compute. reflexivity. Qed.

(** ** A destructed object hides its field

    Object 2000 has been destructed and is still in the destruct queue; its class
    field at 2048 is referred to by a static variable and refers to 4000. *)
Definition hidden_boxes : gmap loc Box := list_to_map
  [(2000, mkBox 6 (N.lor BoxFlag_Invalid BoxFlag_Destructing) 0 0); (2048, mkBox 5 0 0 48);
   (4000, mkBox 5 0 0 0)]%N.

Definition hidden_mem : loc → loc := words
  [(100, 2064); (2024, 2000); (2072, 2048); (2080, 4016); (4024, 4000)]%N.

Definition hidden_heap : GcHeap :=
  mkHeap hidden_boxes [2000; 4000]%N [2048; 4000]%N [] [] [(100, 2)]%N [] [2016%N] demo_empty 0 0 [].

(** while a destructed object waits in the destruct queue, a class field of
    it that is still referred to is marked with the object but never scanned: what
    the field refers to is freed although the roots reach it. *)
Theorem destructed_parent_hides_field :
  (∃ es, root_events_of hidden_mem demo_types 6 [] (m_boxes (start_state hidden_heap)) hidden_heap = Some es ∧
         demanded hidden_mem demo_types 6 (m_boxes (start_state hidden_heap)) (given hidden_heap es)
                  (EClass 4000)) ∧
  ∃ h', collect hidden_mem demo_types 6 [] countSortRef 100 100 false hidden_heap = Some h' ∧
        4000%N ∈ h_freed h'.
Proof.
  split.
  - eexists. split; [vm_compute; reflexivity|].
    apply (demanded_step _ _ _ _ _ (EData 2048) [EWeak 2048; EClass 4000]);
      [|vm_compute; reflexivity|right; left].
    apply (demanded_step _ _ _ _ _ (EClass 2048) [EWeak 2048; EData 2048]);
      [|vm_compute; reflexivity|right; left].
    apply demanded_init. left. left.
  - eexists. split; [vm_compute; reflexivity|]. decide_now.
Qed.
