(* ===== verification/Overload.v ===== *)
(** * Overloaded function types

    Models [src/src/jnc_ct/jnc_ct_TypeMgr/jnc_ct_FunctionTypeOverload.cpp] and its
    header: the set of the types of an overloaded function, adding and finding
    overloads, and the choice of the best one for a call.

    How well arguments fit a type is [getArgCastKind] of the operator manager, a
    number that is 0 when they do not fit; layout and import resolution of a
    single function type are computations on the state [L] of the types. *)

From S2P Require Import Prelude.

Section overload.
  Context {FT L Sig : Type} `{EqDecision Sig}.
  (** [type->getArgSignature()] and [type->isEqual(type2)]. *)
  Context (argSignature : FT → Sig) (isEqual : FT → FT → bool).
  (** [type->ensureLayout()] and [type->ensureNoImports()]. *)
  Context (ensureLayoutT ensureNoImportsT : FT → L → bool * L).

Record FunctionTypeOverload := mkOverload {
  o_layoutReady : bool;   (* TypeFlag_LayoutReady *)
  o_noImports : bool;     (* TypeFlag_NoImports *)
  o_type : option FT;
  o_overloadArray : list FT
}.

Definition emptyOverload : FunctionTypeOverload := mkOverload false false None [].

(** All the types, by overload index. *)
Definition overloads (o : FunctionTypeOverload) : list FT :=
  match o_type o with Some t => t :: o_overloadArray o | None => [] end.

Definition getOverloadCount (o : FunctionTypeOverload) : nat :=
  match o_type o with Some _ => length (o_overloadArray o) + 1 | None => 0 end.

Definition getOverload (o : FunctionTypeOverload) (overloadIdx : nat) : option FT :=
  match overloadIdx with
  | O => o_type o
  | S i => if overloadIdx <=? length (o_overloadArray o) then o_overloadArray o !! i else None
  end.

(** [operator =] *)
Definition assign (type : FT) (o : FunctionTypeOverload) : FunctionTypeOverload :=
  mkOverload (o_layoutReady o) (o_noImports o) (Some type) [].

Definition copy (types : list FT) (o : FunctionTypeOverload) : FunctionTypeOverload :=
  match types with
  | t :: rest => mkOverload (o_layoutReady o) (o_noImports o) (Some t) rest
  | [] => mkOverload (o_layoutReady o) (o_noImports o) None []
  end.

(** ** Layout *)

(** The loop over the types, up to the first failure. *)
Fixpoint ensure_each (f : FT → L → bool * L) (ts : list FT) (l : L) : bool * L :=
  match ts with
  | [] => (true, l)
  | t :: ts => let '(ok, l) := f t l in if ok then ensure_each f ts l else (false, l)
  end.

Definition prepareLayout (o : FunctionTypeOverload) (l : L) : bool * FunctionTypeOverload * L :=
  let '(ok, l) := ensure_each ensureLayoutT (overloads o) l in
  if ok then (true, mkOverload true (o_noImports o) (o_type o) (o_overloadArray o), l)
  else (false, o, l).

Definition ensureLayout (o : FunctionTypeOverload) (l : L) : bool * FunctionTypeOverload * L :=
  if o_layoutReady o then (true, o, l) else prepareLayout o l.

Definition prepareImports (o : FunctionTypeOverload) (l : L) : bool * FunctionTypeOverload * L :=
  let '(ok, l) := ensure_each ensureNoImportsT (overloads o) l in
  if ok then (true, mkOverload (o_layoutReady o) true (o_type o) (o_overloadArray o), l)
  else (false, o, l).

Definition ensureNoImports (o : FunctionTypeOverload) (l : L) : bool * FunctionTypeOverload * L :=
  if o_layoutReady o || o_noImports o then (true, o, l) else prepareImports o l.

(** ** Adding and finding *)

Inductive OverloadError :=
  | DuplicateSignature | NoneAccepts (count : nat) | AmbiguousCall | LayoutFailed.

(** [(size_t)-1] with an error, or the index. *)
Definition addOverload (type : FT) (o : FunctionTypeOverload)
    : (nat + OverloadError) * FunctionTypeOverload :=
  match o_type o with
  | None => (inl 0, mkOverload (o_layoutReady o) (o_noImports o) (Some type) (o_overloadArray o))
  | Some t =>
    if decide (argSignature type = argSignature t) then (inr DuplicateSignature, o)
    else if existsb (λ u, bool_decide (argSignature type = argSignature u)) (o_overloadArray o)
    then (inr DuplicateSignature, o)
    else
      let arr := o_overloadArray o ++ [type] in
      (inl (length arr), mkOverload (o_layoutReady o) (o_noImports o) (o_type o) arr)
  end.

Definition forceAddOverload (type : FT) (o : FunctionTypeOverload) : nat * FunctionTypeOverload :=
  match o_type o with
  | None => (0, mkOverload (o_layoutReady o) (o_noImports o) (Some type) (o_overloadArray o))
  | Some _ =>
    let arr := o_overloadArray o ++ [type] in
    (length arr, mkOverload (o_layoutReady o) (o_noImports o) (o_type o) arr)
  end.

Fixpoint find_from (type : FT) (ts : list FT) (i : nat) : option nat :=
  match ts with
  | [] => None
  | t :: ts => if isEqual type t then Some i else find_from type ts (S i)
  end.

Definition findOverload (type : FT) (o : FunctionTypeOverload) (l : L)
    : option nat * FunctionTypeOverload * L :=
  match o_type o with
  | None => (None, o, l)
  | Some t =>
    let '(ok, o, l) := ensureLayout o l in
    if negb ok then (None, o, l)
    else if isEqual type t then (Some 0, o, l)
    else (find_from type (o_overloadArray o) 1, o, l)
  end.

(** ** Choosing *)

(** The variables of the loop: the best overload, its cast kind, ambiguity. *)
Record choice := mkChoice { bestOverload : option nat; bestCastKind : nat; isAmbiguous : bool }.

Definition first_choice (castKind : nat) : choice :=
  mkChoice (if castKind =? 0 then None else Some 0) castKind false.

(** One iteration, for the overload with index [i]. *)
Definition choose_step (c : choice) (i : nat) (castKind : nat) : choice :=
  if castKind =? 0 then c
  else
    let c := if castKind =? bestCastKind c
             then mkChoice (bestOverload c) (bestCastKind c) true else c in
    if bestCastKind c <? castKind then mkChoice (Some i) castKind false else c.

Fixpoint choose_loop (c : choice) (i : nat) (castKinds : list nat) : choice :=
  match castKinds with
  | [] => c
  | k :: ks => choose_loop (choose_step c i k) (S i) ks
  end.

Definition choose_result (count : nat) (c : choice) : (nat * nat) + OverloadError :=
  match bestOverload c with
  | None => inr (NoneAccepts (count + 1))
  | Some i => if isAmbiguous c then inr AmbiguousCall else inl (i, bestCastKind c)
  end.

(** The body the three forms of [chooseOverload] share: the forms differ in how
    [getArgCastKind] is given the arguments. The index comes with [*castKind]. *)
Definition choose (getArgCastKind : FT → nat) (o : FunctionTypeOverload) (l : L)
    : ((nat * nat) + OverloadError) * FunctionTypeOverload * L :=
  match o_type o with
  | None => (inr LayoutFailed, o, l)
  | Some t =>
    let '(ok, o, l) := ensureLayout o l in
    if negb ok then (inr LayoutFailed, o, l)
    else
      let c := choose_loop (first_choice (getArgCastKind t)) 1 (getArgCastKind <$> o_overloadArray o) in
      (choose_result (length (o_overloadArray o)) c, o, l)
  end.

Definition chooseOverload {Closure Arg} (getArgCastKind : Closure → FT → list Arg → nat)
    (closure : Closure) (argArray : list Arg) :=
  choose (λ t, getArgCastKind closure t argArray).

Definition chooseOverload_values {Value} (getArgCastKind : FT → list Value → nat)
    (argValueArray : list Value) :=
  choose (λ t, getArgCastKind t argValueArray).

Definition chooseOverload_list {Value} (getArgCastKind : FT → list Value → nat)
    (argList : list Value) :=
  choose (λ t, getArgCastKind t argList).

(** The value argument of a setter is the last one of the first overload. *)
Definition chooseSetterOverload {Value Ty} (getArgTypes : FT → list Ty) (getCastKind : Value → Ty → nat)
    (value : Value) (o : FunctionTypeOverload) (l : L)
    : option (((nat * nat) + OverloadError) * FunctionTypeOverload * L) :=
  t ← o_type o;
  let '(ok, o, l) := ensureLayout o l in
  if negb ok then Some (inr LayoutFailed, o, l)
  else
    let setterValueIdx := length (getArgTypes t) - 1 in
    ty ← getArgTypes t !! setterValueIdx;
    tys ← mapM (λ u, getArgTypes u !! setterValueIdx) (o_overloadArray o);
    let c := choose_loop (first_choice (getCastKind value ty)) 1 (getCastKind value <$> tys) in
    Some (choose_result (length (o_overloadArray o)) c, o, l).

(** ** The choice is the unique best *)

(** [i] fits, and no other overload fits as well. *)
Definition unique_best (ks : list nat) (i k : nat) : Prop :=
  ks !! i = Some k ∧ k ≠ 0 ∧ ∀ j k', ks !! j = Some k' → j ≠ i → k' < k.

Definition tied_best (ks : list nat) : Prop :=
  ∃ i j k, ks !! i = Some k ∧ ks !! j = Some k ∧ i ≠ j ∧ k ≠ 0 ∧ ∀ m k', ks !! m = Some k' → k' ≤ k.

(** What the loop knows about the overloads it has seen. *)
Definition choice_of (ks : list nat) (c : choice) : Prop :=
  (∀ j k, ks !! j = Some k → k ≤ bestCastKind c) ∧
  match bestOverload c with
  | None => bestCastKind c = 0 ∧ isAmbiguous c = false
  | Some i => ks !! i = Some (bestCastKind c) ∧ bestCastKind c ≠ 0 ∧
              (isAmbiguous c = true ↔ ∃ j, ks !! j = Some (bestCastKind c) ∧ j ≠ i)
  end.

Lemma first_choice_of k : choice_of [k] (first_choice k).
Proof.
  unfold choice_of, first_choice. split; simpl.
  - intros [|j] x Hx; simplify_eq/=. done.
  - destruct (k =? 0) eqn:Hk; to_prop; [done|]. split; [done|]. split; [done|].
    split; [done|]. intros ([|j] & Hj & Hne); done.
Qed.

Lemma choose_step_of ks c k :
  choice_of ks c → choice_of (ks ++ [k]) (choose_step c (length ks) k).
Proof.
  intros [Hle Hb]. unfold choose_step.
  assert (Hl : ∀ j x, (ks ++ [k]) !! j = Some x → ks !! j = Some x ∨ (j = length ks ∧ x = k)).
  { intros j x [Hj|[Hge Hj]]%lookup_app_Some; [by left|right].
    apply list_lookup_singleton_Some in Hj as [Hz <-]. split; [lia|done]. }
  assert (Hold : ∀ j x, ks !! j = Some x → (ks ++ [k]) !! j = Some x)
    by (intros j x Hj; apply lookup_app_Some; by left).
  assert (Hnew : (ks ++ [k]) !! length ks = Some k) by (by apply list_lookup_middle).
  destruct (k =? 0) eqn:Hk0; to_prop.
  { subst k. split.
    - intros j x [Hj|[-> ->]]%Hl; [by eapply Hle|lia].
    - destruct (bestOverload c) as [i|]; [|done]. destruct Hb as (Hi & Hne & Ha).
      split; [auto|]. split; [done|]. rewrite Ha. split; intros (j & Hj & Hji).
      + exists j. auto.
      + apply Hl in Hj as [Hj|[-> Hj]]; [eauto|congruence]. }
  destruct (k =? bestCastKind c) eqn:Hkb; to_prop; cbn [bestCastKind bestOverload isAmbiguous].
  - rewrite (proj2 (Nat.ltb_ge (bestCastKind c) k)) by lia. split; cbn.
    + intros j x [Hj|[-> ->]]%Hl; [by eapply Hle|lia].
    + destruct (bestOverload c) as [i|]; [|lia]. destruct Hb as (Hi & Hne & Ha).
      split; [auto|]. split; [done|]. split; [|done]. intros _. exists (length ks).
      split; [by rewrite <- Hkb|]. apply lookup_lt_Some in Hi. lia.
  - destruct (bestCastKind c <? k) eqn:Hlt; to_prop; split; cbn.
    + intros j x [Hj|[-> ->]]%Hl; [specialize (Hle j x Hj); lia|lia].
    + split; [done|]. split; [done|]. split; [done|]. intros (j & Hj & Hji).
      apply Hl in Hj as [Hj|[-> _]]; [specialize (Hle j k Hj); lia|done].
    + intros j x [Hj|[-> ->]]%Hl; [by eapply Hle|lia].
    + destruct (bestOverload c) as [i|]; [|lia]. destruct Hb as (Hi & Hne & Ha).
      split; [auto|]. split; [done|]. rewrite Ha. split; intros (j & Hj & Hji).
      * exists j. auto.
      * apply Hl in Hj as [Hj|[-> Hj]]; [eauto|congruence].
Qed.

Lemma choose_loop_of ks ks' c :
  choice_of ks c → choice_of (ks ++ ks') (choose_loop c (length ks) ks').
Proof.
  revert ks c. induction ks' as [|k ks' IH]; intros ks c Hc; simpl.
  - by rewrite app_nil_r.
  - replace (ks ++ k :: ks') with ((ks ++ [k]) ++ ks') by (by rewrite <- app_assoc).
    replace (S (length ks)) with (length (ks ++ [k])) by (rewrite length_app; simpl; lia).
    apply IH. by apply choose_step_of.
Qed.

Lemma choose_result_spec ks n c :
  choice_of ks c →
  (∀ i k, choose_result n c = inl (i, k) ↔ unique_best ks i k) ∧
  (choose_result n c = inr AmbiguousCall ↔ tied_best ks) ∧
  (choose_result n c = inr (NoneAccepts (n + 1)) ↔ ∀ j k, ks !! j = Some k → k = 0).
Proof.
  intros [Hle Hb]. unfold choose_result, unique_best, tied_best.
  destruct (bestOverload c) as [b|].
  - destruct Hb as (Hi & Hne & Ha). destruct (isAmbiguous c).
    + destruct (proj1 Ha eq_refl) as (j & Hj & Hji). split; [|split].
      * intros i k. split; [done|]. intros (Hik & Hk & Hmax). exfalso.
        assert (Hkb : k ≤ bestCastKind c) by (by eapply Hle).
        destruct (decide (i = b)) as [->|Hib]; [specialize (Hmax j _ Hj Hji)|specialize (Hmax b _ Hi)];
          [rewrite Hi in Hik; injection Hik as Hik; lia|lia].
      * split; [|done]. intros _. exists b, j, (bestCastKind c). eauto.
      * split; [done|]. intros Hz. by specialize (Hz _ _ Hi).
    + assert (Hun : ∀ j, ks !! j = Some (bestCastKind c) → j = b).
      { intros j Hj. destruct (decide (j = b)); [done|]. assert (false = true); [|done].
        apply Ha. eauto. }
      split; [|split].
      * intros i k. split.
        -- intros [= <- <-]. split; [done|]. split; [done|]. intros j k' Hj Hji.
           assert (k' ≤ bestCastKind c) by (by eapply Hle).
           destruct (decide (k' = bestCastKind c)) as [->|]; [by apply Hun in Hj|lia].
        -- intros (Hik & Hk & Hmax). destruct (decide (i = b)) as [->|Hib]; [congruence|].
           assert (k ≤ bestCastKind c) by (by eapply Hle). specialize (Hmax b _ Hi). lia.
      * split; [done|]. intros (i & j & k & Hik & Hjk & Hij & _ & Hmax). exfalso.
        assert (k ≤ bestCastKind c) by (by eapply Hle). specialize (Hmax _ _ Hi).
        replace k with (bestCastKind c) in * by lia.
        apply Hun in Hik as ->. apply Hun in Hjk as ->. done.
      * split; [done|]. intros Hz. by specialize (Hz _ _ Hi).
  - destruct Hb as [Hb0 Hamb].
    assert (Hz : ∀ j k, ks !! j = Some k → k = 0) by (intros j k Hj; specialize (Hle _ _ Hj); lia).
    split; [|split].
    + intros i k. split; [done|]. intros (Hik & Hk & _). by apply Hz in Hik.
    + split; [done|]. intros (i & j & k & Hik & _ & _ & Hk & _). by apply Hz in Hik.
    + done.
Qed.

(** C19: the choice of an overload is sound and complete: it returns an index and
    its cast kind exactly when that overload accepts the arguments strictly better
    than every other one; it reports an ambiguous call exactly when the best cast
    kind is shared; and that none accepts them exactly when all cast kinds are
    none. *)
Theorem choose_correct (getArgCastKind : FT → nat) o l t o' l' :
  o_type o = Some t → ensureLayout o l = (true, o', l') →
  let ks := getArgCastKind <$> overloads o in
  ∃ r, choose getArgCastKind o l = (r, o', l') ∧
    (∀ i k, r = inl (i, k) ↔ unique_best ks i k) ∧
    (r = inr AmbiguousCall ↔ tied_best ks) ∧
    (r = inr (NoneAccepts (getOverloadCount o)) ↔ ∀ j k, ks !! j = Some k → k = 0).
Proof.
  intros Ht Hl ks. unfold choose. rewrite Ht, Hl. simpl.
  assert (Ho : o_type o' = o_type o ∧ o_overloadArray o' = o_overloadArray o).
  { unfold ensureLayout, prepareLayout in Hl. destruct (o_layoutReady o); [by simplify_eq|].
    destruct (ensure_each _ _ _) as [[] ?]; by simplify_eq. }
  destruct Ho as [_ Harr]. rewrite Harr. eexists. split; [reflexivity|].
  unfold ks, overloads, getOverloadCount. rewrite Ht. rewrite fmap_cons.
  apply (choose_result_spec (getArgCastKind t :: (getArgCastKind <$> o_overloadArray o))).
  apply (choose_loop_of [getArgCastKind t]). apply first_choice_of.
Qed.

(** ** Adding *)

(** No two overloads have the same argument signature. *)
Definition overloads_ok (o : FunctionTypeOverload) : Prop :=
  NoDup (argSignature <$> overloads o) ∧ (o_type o = None → o_overloadArray o = []).

Lemma getOverload_lookup o i :
  (o_type o = None → o_overloadArray o = []) → getOverload o i = overloads o !! i.
Proof.
  intros He. unfold getOverload, overloads. destruct i as [|i]; destruct (o_type o) as [t|]; try done.
  - simpl. destruct (length (o_overloadArray o)) as [|n] eqn:Hl.
    + by rewrite (nil_length_inv _ Hl).
    + destruct (i <=? n) eqn:Hi; to_prop; [done|]. symmetry. apply lookup_ge_None. lia.
  - by rewrite He.
Qed.

Lemma addOverload_ok type o :
  overloads_ok o →
  let '(r, o') := addOverload type o in
  overloads_ok o' ∧
  match r with
  | inl i => argSignature type ∉ argSignature <$> overloads o ∧
             overloads o' = overloads o ++ [type] ∧ i = getOverloadCount o ∧
             getOverload o' i = Some type ∧
             ∀ j, j < getOverloadCount o → getOverload o' j = getOverload o j
  | inr e => e = DuplicateSignature ∧ o' = o ∧ argSignature type ∈ argSignature <$> overloads o
  end.
Proof.
  intros [Hnd He]. unfold addOverload. destruct (o_type o) as [t|] eqn:Ht.
  - assert (Hov : overloads o = t :: o_overloadArray o) by (unfold overloads; by rewrite Ht).
    assert (Hex : existsb (λ u, bool_decide (argSignature type = argSignature u)) (o_overloadArray o) = true
                  ↔ argSignature type ∈ argSignature <$> o_overloadArray o).
    { rewrite existsb_exists, list_elem_of_fmap. split.
      - intros (u & Hu%list_elem_of_In & Heq%bool_decide_eq_true). eauto.
      - intros (u & Heq & Hu%list_elem_of_In). exists u. split; [done|]. by apply bool_decide_eq_true. }
    assert (Hok : overloads_ok o) by (split; [done|by rewrite Ht]).
    destruct (decide _) as [Heq|Hne].
    { split; [done|]. split; [done|]. split; [done|]. rewrite Hov, fmap_cons, Heq. left. }
    destruct (existsb _ _) eqn:Hx.
    { split; [done|]. do 2 (split; [done|]). rewrite Hov, fmap_cons. right. by apply Hex. }
    set (o' := mkOverload _ _ (Some t) _).
    assert (Hov' : overloads o' = overloads o ++ [type]) by (unfold overloads; simpl; by rewrite Ht).
    assert (Hnew : argSignature type ∉ argSignature <$> overloads o).
    { rewrite Hov, fmap_cons. intros [?|Hin]%elem_of_cons; [done|]. apply Hex in Hin. congruence. }
    assert (Hok' : overloads_ok o').
    { split; [|done]. rewrite Hov', fmap_app. apply NoDup_app. split; [done|].
      split; [|apply NoDup_singleton]. intros x Hx' ->%list_elem_of_singleton. done. }
    split; [done|]. split; [done|]. split; [done|].
    assert (Hc : getOverloadCount o = length (overloads o))
      by (unfold getOverloadCount; rewrite Ht, Hov; simpl; lia).
    split; [rewrite length_app, Hc, Hov; simpl; lia|].
    rewrite (getOverload_lookup o') by apply Hok'. rewrite Hov'. split.
    + rewrite length_app. simpl.
      replace (length (o_overloadArray o) + 1) with (length (overloads o)) by (rewrite Hov; simpl; lia).
      by apply list_lookup_middle.
    + intros j Hj. rewrite !getOverload_lookup by (by rewrite ?Ht). rewrite Hov'.
      apply lookup_app_l. lia.
  - assert (Hov : overloads o = []) by (unfold overloads; by rewrite Ht). rewrite Hov.
    rewrite (He eq_refl). split.
    + split; [|done]. simpl. apply NoDup_singleton.
    + split; [apply not_elem_of_nil|]. split; [done|]. unfold getOverloadCount. rewrite Ht.
      split; [done|]. split; [done|]. intros j Hj. lia.
Qed.

(** adding an overload keeps the argument signatures distinct; it is
    refused, without a change, exactly when the signature is already there, and
    otherwise returns the index under which the type is found from then on, the
    indices of the others staying as they are. *)
Theorem addOverload_correct type o :
  overloads_ok o →
  let '(r, o') := addOverload type o in
  overloads_ok o' ∧
  match r with
  | inl i => argSignature type ∉ argSignature <$> overloads o ∧
             overloads o' = overloads o ++ [type] ∧ i = getOverloadCount o ∧
             getOverload o' i = Some type ∧
             ∀ j, j < getOverloadCount o → getOverload o' j = getOverload o j
  | inr e => e = DuplicateSignature ∧ o' = o ∧ argSignature type ∈ argSignature <$> overloads o
  end.
Proof. apply addOverload_ok. Qed.

End overload.

(** ** Stale layout *)

(** the set remembers that its types are laid out but adding to it does not
    forget: after [ensureLayout] and [addOverload], [ensureLayout] succeeds
    without touching the layout of the added type, even if that cannot be laid
    out. *)
Theorem addOverload_stale_layout {FT L Sig} `{EqDecision Sig} (argSignature : FT → Sig)
    (ensureLayoutT : FT → L → bool * L) o l o1 l1 t type :
  o_type o = Some t → ensureLayout ensureLayoutT o l = (true, o1, l1) →
  argSignature type ∉ argSignature <$> overloads o →
  ∃ i o2, addOverload argSignature type o1 = (inl i, o2) ∧ type ∈ overloads o2 ∧
    ensureLayout ensureLayoutT o2 l1 = (true, o2, l1).
Proof.
  intros Ht Hl Hn.
  assert (Ho : o_layoutReady o1 = true ∧ o_type o1 = Some t ∧ o_overloadArray o1 = o_overloadArray o).
  { unfold ensureLayout, prepareLayout in Hl. destruct (o_layoutReady o) eqn:Hr; [by simplify_eq|].
    destruct (ensure_each _ _ _) as [[] ?]; by simplify_eq. }
  destruct Ho as (Hr & Ht1 & Ha). unfold overloads in Hn. rewrite Ht, fmap_cons in Hn.
  unfold addOverload. rewrite Ht1, decide_False by (intros Heq; apply Hn; rewrite Heq; left).
  destruct (existsb _ _) eqn:Hx.
  { exfalso. apply existsb_exists in Hx as (u & Hu%list_elem_of_In & Heq%bool_decide_eq_true).
    apply Hn. right. rewrite Heq. apply list_elem_of_fmap_2. by rewrite <- Ha. }
  eexists _, _. split; [reflexivity|]. split.
  - unfold overloads. simpl. rewrite elem_of_cons, elem_of_app. right; right. left.
  - unfold ensureLayout. simpl. by rewrite Hr.
Qed.

(** ** Witnesses: function types as numbers, their signatures modulo 10 *)

Definition demo_overloads : FunctionTypeOverload (FT := nat) := mkOverload true true (Some 11) [22; 33].

Lemma choose_correct_witness :
  ∃ r, choose (λ (t : nat) (l : unit), (true, l)) (λ t, t / 11) demo_overloads tt
       = (r, demo_overloads, tt) ∧ r = inl (2, 3).
Proof.
  destruct (choose_correct (λ (t : nat) (l : unit), (true, l)) (λ t, t / 11) demo_overloads tt 11
              demo_overloads tt eq_refl eq_refl) as (r & Hr & Hi & _).
  exists r. split; [exact Hr|]. apply Hi. split; [reflexivity|]. split; [discriminate|].
  intros [|[|[|j]]] k Hj Hne; vm_compute in Hj; try (injection Hj as <-); lia || discriminate.
Defined.

Lemma addOverload_correct_witness :
  let '(r, o') := addOverload (λ t, t mod 10) 44 demo_overloads in
  overloads_ok (λ t, t mod 10) o' ∧ r = inl 3.
Proof.
  assert (Hok : overloads_ok (λ t, t mod 10) demo_overloads).
  { split; [|done]. vm_compute. repeat (constructor; [set_solver|]). constructor. }
  pose proof (addOverload_correct (λ t, t mod 10) 44 demo_overloads Hok) as H.
  vm_compute addOverload in *. destruct H as [H1 _]. split; [exact H1|reflexivity].
Defined.

Lemma addOverload_stale_layout_witness :
  ∃ i o2, addOverload (λ t, t mod 10) 44 demo_overloads = (inl i, o2) ∧ 44 ∈ overloads o2 ∧
    ensureLayout (λ (t : nat) (l : unit), (bool_decide (t < 40), l)) o2 tt = (true, o2, tt).
Proof.
  apply (addOverload_stale_layout (λ t, t mod 10) (λ (t : nat) (l : unit), (bool_decide (t < 40), l))
           demo_overloads tt demo_overloads tt 11 44 eq_refl eq_refl).
  vm_compute. set_solver.
Defined.
