(* ===== verification/Closure.v ===== *)
(** * Closures of the compiler

    Models [src/src/jnc_ct/jnc_ct_Value/jnc_ct_Closure.cpp] and its header: the
    list of captured arguments, some of them left empty, that a function or
    property value carries; extending it, weaving it into the arguments of a
    call, and computing the type of what remains to be called.

    Values and their [isEmpty] are parameters, as is [checkCastKind] of the
    operator manager. Function types are used through the interface
    [FunctionTypes]. An [sl::BoxList] is a list, an iterator into it a position
    or the rest of the list. *)

From S2P Require Import Prelude Overload.

(** ** Lists with empty slots *)

(** How the inner loop of [prepend] ends. It has no [break], so only the
    [return] in it is ever produced. *)
Inductive skip_exit := Returned | Broke (i : nat).

Section prepend.
  Context {A : Type} (isEmpty : A → bool).

(** The inner loop: a non-empty slot is skipped; at an empty one the loop goes
    on without moving. *)
Fixpoint skip_loop (fuel : nat) (slots : list A) (i : nat) : option skip_exit :=
  match fuel with
  | O => None
  | S fuel =>
    match slots !! i with
    | None => Some Returned
    | Some v => if negb (isEmpty v) then skip_loop fuel slots (S i) else skip_loop fuel slots i
    end
  end.

(** The outer loop: the slots and the position of the next external argument. *)
Fixpoint prepend_loop (fuel : nat) (slots external : list A) (i j : nat) : option (list A * nat) :=
  match fuel with
  | O => None
  | S fuel' =>
    e ← skip_loop fuel slots i;
    match e with
    | Returned => Some (slots, j)
    | Broke i =>
      v ← external !! j;
      let slots := <[i := v]> slots in
      if length external <=? S j then Some (slots, S j)
      else prepend_loop fuel' slots external (S i) (S j)
    end
  end.

Definition has_empty (slots : list A) : Prop := Exists (λ v, isEmpty v = true) slots.

Lemma skip_loop_full slots : ¬ has_empty slots →
  ∀ n i, length slots - i < n → skip_loop n slots i = Some Returned.
Proof.
  intros Hf n. induction n as [|n IH]; intros i Hn; [lia|]. simpl.
  destruct (slots !! i) as [v|] eqn:Hi; [|done].
  destruct (isEmpty v) eqn:He.
  - exfalso. apply Hf, Exists_exists. exists v. split; [|done]. by eapply list_elem_of_lookup_2.
  - simpl. apply IH. apply lookup_lt_Some in Hi. lia.
Qed.

Lemma skip_loop_stuck slots k v : slots !! k = Some v → isEmpty v = true →
  ∀ n i, i ≤ k → skip_loop n slots i = None.
Proof.
  intros Hk Hv n. induction n as [|n IH]; intros i Hi; [done|]. simpl.
  destruct (lookup_lt_is_Some_2 slots i) as [w Hw]; [apply lookup_lt_Some in Hk; lia|].
  rewrite Hw. destruct (isEmpty w) eqn:He; simpl.
  - by apply IH.
  - apply IH. destruct (decide (i = k)) as [->|]; [congruence|lia].
Qed.

Lemma prepend_loop_full slots external n : ¬ has_empty slots → length slots < n →
  prepend_loop n slots external 0 0 = Some (slots, 0).
Proof.
  intros Hf Hn. destruct n as [|n]; [lia|]. cbn [prepend_loop].
  rewrite (skip_loop_full slots Hf) by lia. done.
Qed.

Lemma prepend_loop_stuck slots external n : has_empty slots →
  prepend_loop n slots external 0 0 = None.
Proof.
  intros (v & (k & Hk)%list_elem_of_lookup_1 & He)%Exists_exists.
  destruct n as [|n]; [done|]. cbn [prepend_loop].
  by rewrite (skip_loop_stuck slots k v Hk He) by lia.
Qed.

End prepend.

(** ** The closure *)

Section closure.
  Context {V Ty : Type}.
  (** [Value::isEmpty] *)
  Context (isEmpty : V → bool).
  #[local] Set Default Proof Using "Type".

(** A template argument is a type or null; the cached pointer to the [this]
    value is the position of its entry, entries never move. *)
Record Closure := mkClosure {
  m_templateArgArray : list (option Ty);
  m_argValueList : list V;
  m_thisArgValue : option nat;
  m_thisArgIdx : option nat
}.

Definition newClosure : Closure := mkClosure [] [] None None.

Definition isMemberClosure (c : Closure) : bool := bool_decide (is_Some (m_thisArgIdx c)).

Definition isSimpleClosure (c : Closure) : bool :=
  isMemberClosure c && (length (m_argValueList c) =? 1).

Definition countNonEmptyTemplateArgs (c : Closure) : nat :=
  length (filter is_Some (m_templateArgArray c)).

Definition countNonEmptyArgs (c : Closure) : nat :=
  length (filter (λ v, isEmpty v = false) (m_argValueList c)).

Definition set_args (args : list V) (c : Closure) : Closure :=
  mkClosure (m_templateArgArray c) args (m_thisArgValue c) (m_thisArgIdx c).

(** [None]: a failed assertion or a null dereference. *)
Definition getThisArgValue (c : Closure) : option (V * Closure) :=
  idx ← m_thisArgIdx c;
  match m_thisArgValue c with
  | Some p => v ← m_argValueList c !! p; Some (v, c)
  | None =>
    v ← m_argValueList c !! idx;
    Some (v, mkClosure (m_templateArgArray c) (m_argValueList c) (Some idx) (m_thisArgIdx c))
  end.

Definition setThisArgIdx (thisArgIdx : nat) (c : Closure) : option Closure :=
  match m_thisArgIdx c, m_thisArgValue c with
  | None, None =>
    if thisArgIdx <? length (m_argValueList c)
    then Some (mkClosure (m_templateArgArray c) (m_argValueList c) None (Some thisArgIdx))
    else None
  | _, _ => None
  end.

Definition insertThisArgValue (value : V) (c : Closure) : option Closure :=
  match m_thisArgIdx c, m_thisArgValue c with
  | None, None =>
    Some (mkClosure (m_templateArgArray c) (value :: m_argValueList c) (Some 0) (Some 0))
  | _, _ => None
  end.

(** ** Extending *)

(** The search of [append]: the first empty slot, or a new tail. *)
Fixpoint fill_first (argValue : V) (slots : list V) : list V :=
  match slots with
  | [] => [argValue]
  | v :: slots => if isEmpty v then argValue :: slots else v :: fill_first argValue slots
  end.

Definition append (argValue : V) (c : Closure) : nat * Closure :=
  let args := fill_first argValue (m_argValueList c) in
  (length args, set_args args c).

Definition prepend (fuel : nat) (argValueList : list V) (c : Closure) : option (Closure * nat) :=
  '(slots, j) ← prepend_loop isEmpty fuel (m_argValueList c) argValueList 0 0;
  Some (set_args slots c, j).

(** [append(const sl::ConstBoxList<Value>&)] *)
Definition append_list (fuel : nat) (argValueList : list V) (c : Closure) : option (nat * Closure) :=
  if decide (argValueList = []) then None
  else
    '(c, j) ← prepend fuel argValueList c;
    let args := m_argValueList c ++ drop j argValueList in
    Some (length args, set_args args c).

(** [append] of a mutable [sl::BoxList<Value>]: the entries are moved; the second component
    is what is left of the argument list. *)
Definition append_move (fuel : nat) (argValueList : list V) (c : Closure)
    : option (nat * Closure * list V) :=
  if decide (argValueList = []) then None
  else
    '(c, j) ← prepend fuel argValueList c;
    let args := m_argValueList c ++ drop j argValueList in
    Some (length args, set_args args c, take j argValueList).

Definition prependTemplateArgs (fuel : nat) (argTypeArray : list (option Ty)) (c : Closure)
    : option (Closure * nat) :=
  '(slots, j) ← prepend_loop (λ t, bool_decide (t = None)) fuel (m_templateArgArray c) argTypeArray 0 0;
  Some (mkClosure slots (m_argValueList c) (m_thisArgValue c) (m_thisArgIdx c), j).

Definition appendTemplateArgs (fuel : nat) (argTypeArray : list (option Ty)) (c : Closure)
    : option (nat * Closure) :=
  '(c, i) ← prependTemplateArgs fuel argTypeArray c;
  let args := if i <? length argTypeArray
              then m_templateArgArray c ++ drop i argTypeArray else m_templateArgArray c in
  Some (length args, mkClosure args (m_argValueList c) (m_thisArgValue c) (m_thisArgIdx c)).

(** ** Applying *)

(** The loop over the captured arguments; [pre] are the target arguments before
    the iterator, [rest] those from it on. The second component is the number of
    the missing argument. *)
Fixpoint apply_loop (captured : list V) (i : nat) (pre rest : list V) : list V * option nat :=
  match captured with
  | [] => (pre ++ rest, None)
  | c :: captured =>
    if negb (isEmpty c) then apply_loop captured (S i) (pre ++ [c]) rest
    else
      match rest with
      | t :: rest => apply_loop captured (S i) (pre ++ [t]) rest
      | [] => (pre ++ rest, Some (i + 1))
      end
  end.

Definition apply (c : Closure) (argValueList : list V) : list V * option nat :=
  if decide (m_argValueList c = []) then (argValueList, None)
  else apply_loop (m_argValueList c) 0 [] argValueList.

End closure.

Arguments Closure : clear implicits.

(** ** Types *)

Definition PtrTypeFlag_All : N := 0x7fff0000.
Definition PtrTypeFlag_PtrKindMask : N := 0x00300000.
Definition FunctionPtrKind_Thin : N := 0x200000.
Definition FunctionTypeFlag_VarArg : N := 0x010000.
Definition PropertyTypeFlag_All : N := 0x030000.

(** What the closures use of the function types of the type manager. *)
Class FunctionTypes (CC RT Arg FT Sig : Type) := {
  getCallConv : FT → CC;
  getReturnType : FT → RT;
  getArgArray : FT → list Arg;
  getFlags : FT → N;
  getArgSignature : FT → Sig;
  getFunctionType : CC → RT → list Arg → FT;
}.

(** What is promised of [getFunctionType]: the types are shared, so the
    arguments of the result are those asked for up to their names. *)
Class FunctionTypesLaws {CC RT Arg FT Sig} (Ty : Type) (argType : Arg → Ty)
    (F : FunctionTypes CC RT Arg FT Sig) : Prop := {
  getFunctionType_args cc rt args :
    argType <$> getArgArray (getFunctionType cc rt args) = argType <$> args;
  getFunctionType_ret cc rt args : getReturnType (getFunctionType cc rt args) = rt;
  getFunctionType_cc cc rt args : getCallConv (getFunctionType cc rt args) = cc;
  getArgSignature_eq t u :
    getArgSignature t = getArgSignature u ↔ argType <$> getArgArray t = argType <$> getArgArray u
}.

Inductive PtrOrRef := Ptr | Ref.

(** [FunctionPtrType] and [PropertyPtrType] *)
Record PtrType (T : Type) := mkPtrType { p_typeKind : PtrOrRef; p_flags : N; p_targetType : T }.
Arguments mkPtrType {_} _ _ _.
Arguments p_typeKind {_} _.
Arguments p_flags {_} _.
Arguments p_targetType {_} _.

Record PropertyType (FT : Type) := mkPropertyType {
  y_getterType : FT; y_setterType : FunctionTypeOverload (FT := FT); y_flags : N
}.
Arguments mkPropertyType {_} _ _ _.
Arguments y_getterType {_} _.
Arguments y_setterType {_} _.
Arguments y_flags {_} _.

(** The types [getClosureType] distinguishes. *)
Inductive AnyType (FT : Type) :=
  | TFunction (p : PtrType FT)
  | TProperty (p : PtrType (PropertyType FT))
  | TOther (n : nat).
Arguments TFunction {_} _.
Arguments TProperty {_} _.
Arguments TOther {_} _.

Inductive ClosureError :=
  | TooManyArgs (closureArgCount argCount : nat)
  | CastFailed
  | NoVarArg
  | LayoutError
  | DuplicateSetter.

Section types.
  Context {V Ty TArg CC RT Arg FT Sig L : Type} `{EqDecision Sig} (isEmpty : V → bool).
  Context {F : FunctionTypes CC RT Arg FT Sig}.
  (** [FunctionArg::getType], [OperatorMgr::checkCastKind], [Type::ensureLayout] *)
  Context (argType : Arg → Ty) (checkCastKind : V → Ty → bool) (ensureLayoutT : FT → L → bool * L).
  #[local] Set Default Proof Using "Type".

(** The loop: the formal arguments that are left and the index [i] of the next
    one. [None]: [ASSERT(i < argCount)] fails. *)
Fixpoint argtype_loop (captured : list V) (argArray : list Arg) (i : nat)
    : option (list Arg * option ClosureError) :=
  match captured with
  | [] => Some (argArray, None)
  | c :: captured =>
    if isEmpty c then argtype_loop captured argArray (S i)
    else
      a ← argArray !! i;
      if negb (checkCastKind c (argType a)) then Some (argArray, Some CastFailed)
      else argtype_loop captured (delete i argArray) i
  end.

Definition getArgTypeArray (c : Closure V TArg) (argArray : list Arg)
    : option (list Arg * option ClosureError) :=
  let closureArgCount := length (m_argValueList c) in
  let argCount := length argArray in
  if argCount <? closureArgCount then Some (argArray, Some (TooManyArgs closureArgCount argCount))
  else argtype_loop (m_argValueList c) argArray 0.

(** The flags of the pointer to a closure: they are always fat. *)
Definition closure_ptr_flags (flags ptrTypeFlagMask : N) : N :=
  N.ldiff (N.land flags ptrTypeFlagMask) PtrTypeFlag_PtrKindMask.

Definition getFunctionClosureType (c : Closure V TArg) (ptrType : PtrType FT) (ptrTypeFlagMask : N)
    : option (PtrType FT + ClosureError) :=
  let type := p_targetType ptrType in
  if negb (N.land (getFlags type) FunctionTypeFlag_VarArg =? 0)%N then Some (inr NoVarArg)
  else
    '(argArray, e) ← getArgTypeArray c (getArgArray type);
    match e with
    | Some e => Some (inr e)
    | None =>
      let closureType := getFunctionType (getCallConv type) (getReturnType type) argArray in
      Some (inl (mkPtrType (p_typeKind ptrType)
                           (closure_ptr_flags (p_flags ptrType) ptrTypeFlagMask) closureType))
    end.

(** [getFunctionClosureType] of a function, given the type of the function. *)
Definition getFunctionClosureType_function (c : Closure V TArg) (type : FT)
    : option (PtrType FT + ClosureError) :=
  getFunctionClosureType c (mkPtrType Ref FunctionPtrKind_Thin type) PtrTypeFlag_All.

(** The loop over the setters: each keeps the arguments the getter has left and
    its own value argument. *)
Fixpoint setter_loop (setters : list FT) (argArray : list Arg)
    (closureSetterType : FunctionTypeOverload (FT := FT)) (l : L)
    : option ((FunctionTypeOverload (FT := FT) + ClosureError) * L) :=
  match setters with
  | [] => Some (inl closureSetterType, l)
  | overloadType :: setters =>
    value ← last (getArgArray overloadType);
    let '(ok, l) := ensureLayoutT overloadType l in
    if negb ok then Some (inr LayoutError, l)
    else
      let closureOverloadType := getFunctionType (getCallConv overloadType)
                                   (getReturnType overloadType) (argArray ++ [value]) in
      match addOverload getArgSignature closureOverloadType closureSetterType with
      | (inr _, _) => Some (inr DuplicateSetter, l)
      | (inl _, closureSetterType) => setter_loop setters argArray closureSetterType l
      end
  end.

Definition getPropertyClosureType (c : Closure V TArg) (ptrType : PtrType (PropertyType FT))
    (ptrTypeFlagMask : N) (l : L) : option ((PtrType (PropertyType FT) + ClosureError) * L) :=
  let type := p_targetType ptrType in
  let getterType := y_getterType type in
  let '(ok, l) := ensureLayoutT getterType l in
  if negb ok then Some (inr LayoutError, l)
  else
    '(argArray, e) ← getArgTypeArray c (getArgArray getterType);
    match e with
    | Some e => Some (inr e, l)
    | None =>
      let closureGetterType := getFunctionType (getCallConv getterType) (getReturnType getterType) argArray in
      '(r, l) ← setter_loop (overloads (y_setterType type)) argArray emptyOverload l;
      match r with
      | inr e => Some (inr e, l)
      | inl closureSetterType =>
        let closureType := mkPropertyType closureGetterType closureSetterType
                             (N.land (y_flags type) PropertyTypeFlag_All) in
        Some (inl (mkPtrType (p_typeKind ptrType)
                             (closure_ptr_flags (p_flags ptrType) ptrTypeFlagMask) closureType), l)
      end
    end.

Definition getClosureType (c : Closure V TArg) (type : AnyType FT) (ptrTypeFlagMask : N) (l : L)
    : option ((AnyType FT + ClosureError) * L) :=
  match type with
  | TFunction p =>
    r ← getFunctionClosureType c p ptrTypeFlagMask;
    Some (match r with inl p => inl (TFunction p) | inr e => inr e end, l)
  | TProperty p =>
    '(r, l) ← getPropertyClosureType c p ptrTypeFlagMask l;
    Some (match r with inl p => inl (TProperty p) | inr e => inr e end, l)
  | TOther _ => Some (inl type, l)
  end.

End types.

(** ** Extending a closure *)

Section extend_facts.
  Context {V Ty : Type} (isEmpty : V → bool).
  #[local] Set Default Proof Using "Type".
  Notation Closure := (Closure V Ty).

(** C31: appending a list of arguments returns exactly when no captured slot is
    empty, and then the arguments go behind the captured ones; with an empty slot
    the search loop of [prepend] does not move and the call never returns. The
    destructive form does the same and leaves its argument list empty. *)
Theorem append_list_returns (c : Closure) (argValueList : list V) :
  argValueList ≠ [] →
  (¬ has_empty isEmpty (m_argValueList c) → ∀ n, length (m_argValueList c) < n →
     let args := m_argValueList c ++ argValueList in
     append_list isEmpty n argValueList c = Some (length args, set_args args c) ∧
     append_move isEmpty n argValueList c = Some (length args, set_args args c, [])) ∧
  (has_empty isEmpty (m_argValueList c) →
     ∀ n, append_list isEmpty n argValueList c = None ∧ append_move isEmpty n argValueList c = None).
Proof.
  intros Hne. unfold append_list, append_move, prepend.
  split; intros Hf n; rewrite !decide_False by done.
  - intros Hn. rewrite prepend_loop_full by done. done.
  - by rewrite prepend_loop_stuck.
Qed.

(** template arguments behave the same way: they are appended exactly when
    no slot is null, and otherwise the call never returns. *)
Theorem appendTemplateArgs_returns (c : Closure) (argTypeArray : list (option Ty)) :
  (None ∉ m_templateArgArray c → ∀ n, length (m_templateArgArray c) < n →
     let args := m_templateArgArray c ++ argTypeArray in
     appendTemplateArgs n argTypeArray c =
     Some (length args, mkClosure args (m_argValueList c) (m_thisArgValue c) (m_thisArgIdx c))) ∧
  (None ∈ m_templateArgArray c → ∀ n, appendTemplateArgs n argTypeArray c = None).
Proof.
  assert (He : has_empty (λ t, bool_decide (t = None)) (m_templateArgArray c) ↔
               None ∈ m_templateArgArray c).
  { unfold has_empty. rewrite Exists_exists. split.
    - intros (t & Ht & ->%bool_decide_eq_true). done.
    - intros Ht. exists None. split; [done|]. by apply bool_decide_eq_true. }
  unfold appendTemplateArgs, prependTemplateArgs. split; intros Hn n.
  - intros Hlt. rewrite prepend_loop_full; [|by rewrite He|done]. simpl.
    destruct argTypeArray as [|t ts]; [|done]. simpl. by rewrite app_nil_r.
  - rewrite prepend_loop_stuck by (by apply He). done.
Qed.

Lemma fill_first_app (argValue : V) slots :
  ¬ has_empty isEmpty slots → fill_first isEmpty argValue slots = slots ++ [argValue].
Proof.
  induction slots as [|v slots IH]; intros Hf; [done|]. simpl.
  destruct (isEmpty v) eqn:He; [destruct Hf; by left|]. f_equal. apply IH. intros ?. apply Hf. by right.
Qed.

Lemma apply_loop_full (slots rest : list V) i pre :
  ¬ has_empty isEmpty slots → apply_loop isEmpty slots i pre rest = (pre ++ slots ++ rest, None).
Proof.
  revert i pre. induction slots as [|v slots IH]; intros i pre Hf; [done|]. simpl.
  destruct (isEmpty v) eqn:He; simpl; [destruct Hf; by left|].
  rewrite IH by (intros ?; apply Hf; by right). by rewrite <- app_assoc.
Qed.

Lemma apply_loop_nil (rest : list V) i pre : apply_loop isEmpty [] i pre rest = (pre ++ rest, None).
Proof. done. Qed.

Lemma apply_unfold (c : Closure) args :
  apply isEmpty c args = apply_loop isEmpty (m_argValueList c) 0 [] args.
Proof. unfold apply. case_decide as Hd; [by rewrite Hd|done]. Qed.

Lemma apply_loop_fill (argValue : V) slots i pre rest : isEmpty argValue = false →
  apply_loop isEmpty (fill_first isEmpty argValue slots) i pre rest =
  apply_loop isEmpty slots i pre (argValue :: rest).
Proof.
  intros Hv. revert i pre rest. induction slots as [|v slots IH]; intros i pre rest; simpl.
  - by rewrite Hv, <- app_assoc.
  - destruct (isEmpty v) eqn:He; simpl; rewrite ?Hv, ?He; simpl; [done|apply IH].
Qed.

(** partial application is currying: applying a closure extended with an
    argument to a list is applying the closure to that argument in front of the
    list, errors included; and so for a list of arguments where the extension
    returns. *)
Theorem apply_append (c : Closure) :
  (∀ argValue args, isEmpty argValue = false →
     apply isEmpty (append isEmpty argValue c).2 args = apply isEmpty c (argValue :: args)) ∧
  (∀ n argValueList k c' args, Forall (λ v, isEmpty v = false) argValueList →
     append_list isEmpty n argValueList c = Some (k, c') →
     apply isEmpty c' args = apply isEmpty c (argValueList ++ args)).
Proof.
  split.
  - intros v args Hv. rewrite !apply_unfold. simpl. by apply apply_loop_fill.
  - intros n vs k c' args Hvs. unfold append_list. case_decide; [done|].
    unfold prepend. destruct (prepend_loop _ _ _ _ _ _) as [[slots j]|] eqn:Hp; [|done]. simpl.
    intros [= <- <-].
    assert (Hf : ¬ has_empty isEmpty (m_argValueList c)) by
      (intros He; by rewrite prepend_loop_stuck in Hp).
    assert (Hs : slots = m_argValueList c ∧ j = 0).
    { assert (Hx := prepend_loop_full isEmpty (m_argValueList c) vs (S (n + length (m_argValueList c))) Hf).
      destruct n as [|n]; [done|]. cbn [prepend_loop] in Hp.
      destruct (skip_loop isEmpty (S n) (m_argValueList c) 0) as [e|] eqn:Hsk; [|done].
      assert (He : e = Returned).
      { clear -Hsk. revert Hsk. generalize (S n) 0. intros m. induction m as [|m IH]; intros i; [done|].
        simpl. destruct (_ !! i); [|by intros [= <-]]. destruct (negb _); apply IH. }
      subst e. simpl in Hp. by injection Hp as <- <-. }
    destruct Hs as [-> ->]. rewrite !apply_unfold. simpl.
    rewrite !apply_loop_full; [by rewrite <- app_assoc|done|].
    unfold has_empty. rewrite Exists_app. intros [?|Hx]; [by apply Hf|].
    apply Exists_exists in Hx as (v & Hin & Hv). rewrite Forall_forall in Hvs.
    rewrite Hvs in Hv by done. done.
Qed.

End extend_facts.

(** ** Weaving the captured arguments into a call *)

Section apply_facts.
  Context {V Ty : Type} (isEmpty : V → bool).
  #[local] Set Default Proof Using "Type".

(** The number of empty slots. *)
Definition empties (slots : list V) : nat := length (filter (λ v, isEmpty v = true) slots).

Lemma empties_cons v slots : empties (v :: slots) = (if isEmpty v then 1 else 0) + empties slots.
Proof.
  unfold empties. rewrite filter_cons. destruct (isEmpty v) eqn:He; case_decide; try done; simpl; lia.
Qed.

(** The call's arguments, as a list equation. *)
Fixpoint weave (slots args : list V) : list V :=
  match slots with
  | [] => args
  | v :: slots =>
    if isEmpty v then match args with a :: args => a :: weave slots args | [] => [] end
    else v :: weave slots args
  end.

Lemma apply_loop_weave slots i pre rest : empties slots ≤ length rest →
  apply_loop isEmpty slots i pre rest = (pre ++ weave slots rest, None).
Proof.
  revert i pre rest. induction slots as [|v slots IH]; intros i pre rest; simpl; [done|].
  rewrite empties_cons. destruct (isEmpty v) eqn:He; simpl.
  - destruct rest as [|a rest]; simpl; [lia|]. intros Hle. rewrite IH by lia. by rewrite <- app_assoc.
  - intros Hle. rewrite IH by done. by rewrite <- app_assoc.
Qed.

(** The first slot no argument is left for. *)
Lemma apply_loop_misses slots i pre rest : length rest < empties slots →
  ∃ k v out, slots !! k = Some v ∧ isEmpty v = true ∧ empties (take k slots) = length rest ∧
    apply_loop isEmpty slots i pre rest = (out, Some (i + k + 1)).
Proof.
  revert i pre rest. induction slots as [|v slots IH]; intros i pre rest; simpl.
  - unfold empties. simpl. lia.
  - rewrite empties_cons. destruct (isEmpty v) eqn:He; simpl.
    + destruct rest as [|a rest]; simpl.
      * intros _. exists 0, v, pre. rewrite app_nil_r. by replace (i + 0 + 1) with (i + 1) by lia.
      * intros Hlt. destruct (IH (S i) (pre ++ [a]) rest) as (k & w & out & Hk & Hw & Hek & Heq); [lia|].
        exists (S k), w, out. split; [done|]. split; [done|]. simpl. rewrite empties_cons, He, Hek.
        split; [done|]. rewrite Heq. f_equal. f_equal. lia.
    + intros Hlt. destruct (IH (S i) (pre ++ [v]) rest) as (k & w & out & Hk & Hw & Hek & Heq); [lia|].
      exists (S k), w, out. split; [done|]. split; [done|]. simpl. rewrite empties_cons, He, Hek.
      split; [done|]. rewrite Heq. f_equal. f_equal. lia.
Qed.

Lemma weave_lookup slots args i v : empties slots ≤ length args → slots !! i = Some v →
  weave slots args !! i = if isEmpty v then args !! empties (take i slots) else Some v.
Proof.
  revert args i. induction slots as [|w slots IH]; intros args i; [done|].
  rewrite empties_cons. intros Hle Hi. destruct i as [|i]; simpl in *.
  - injection Hi as ->. destruct (isEmpty v) eqn:He; [|done]. by destruct args; [simpl in Hle; lia|].
  - destruct (isEmpty w) eqn:He.
    + destruct args as [|a args]; simpl in *; [lia|]. rewrite IH by (done || lia).
      by rewrite empties_cons, He.
    + simpl. rewrite IH by done. by rewrite empties_cons, He.
Qed.

Lemma weave_drop slots args : empties slots ≤ length args →
  drop (length slots) (weave slots args) = drop (empties slots) args.
Proof.
  revert args. induction slots as [|w slots IH]; intros args; [done|].
  rewrite empties_cons. simpl. destruct (isEmpty w) eqn:He; simpl; intros Hle.
  - destruct args as [|a args]; simpl in *; [lia|]. apply IH. lia.
  - by apply IH.
Qed.

(** C30: applying a closure to the arguments of a call: it succeeds exactly when
    there is an argument for each empty slot; the result then holds each captured
    value at its own position, the call's arguments in order at the empty ones and
    the rest of them behind; otherwise the error names the first slot without an
    argument. *)
Theorem apply_correct (c : Closure V Ty) (args : list V) :
  let slots := m_argValueList c in
  (empties slots ≤ length args →
     ∃ res, apply isEmpty c args = (res, None) ∧
       (∀ i v, slots !! i = Some v →
          res !! i = if isEmpty v then args !! empties (take i slots) else Some v) ∧
       drop (length slots) res = drop (empties slots) args) ∧
  (length args < empties slots →
     ∃ out k v, apply isEmpty c args = (out, Some (k + 1)) ∧ slots !! k = Some v ∧
       isEmpty v = true ∧ empties (take k slots) = length args).
Proof.
  rewrite apply_unfold. generalize (m_argValueList c) as slots. simpl. intros slots. split; intros H.
  - exists (weave slots args). rewrite apply_loop_weave by done. split; [done|].
    split; [intros; by apply weave_lookup|by apply weave_drop].
  - destruct (apply_loop_misses slots 0 [] args H) as (k & v & out & Hk & Hv & He & Heq).
    exists out, k, v. by rewrite Heq.
Qed.

End apply_facts.

(** ** The type of a closure *)

Section type_facts.
  Context {V Ty TArg CC RT Arg FT Sig L : Type} `{EqDecision Sig} (isEmpty : V → bool).
  Context {F : FunctionTypes CC RT Arg FT Sig}.
  Context (argType : Arg → Ty) (checkCastKind : V → Ty → bool) (ensureLayoutT : FT → L → bool * L).
  Context `{HF : !FunctionTypesLaws Ty argType F}.
  #[local] Set Default Proof Using "Type HF".
  Notation passes := (λ v a, checkCastKind v (argType a) = true).

(** The formal arguments at the empty slots and those beyond the slots. *)
Fixpoint open_args (slots : list V) (formal : list Arg) : list Arg :=
  match slots, formal with
  | v :: slots, a :: formal => if isEmpty v then a :: open_args slots formal else open_args slots formal
  | _, _ => formal
  end.

(** Each captured value passes for the formal argument at its position. *)
Definition fits (slots : list V) (formal : list Arg) : Prop :=
  ∀ i v a, slots !! i = Some v → isEmpty v = false → formal !! i = Some a →
    checkCastKind v (argType a) = true.

Lemma fits_cons v slots a formal : fits (v :: slots) (a :: formal) ↔
  (isEmpty v = false → checkCastKind v (argType a) = true) ∧ fits slots formal.
Proof.
  split.
  - intros Hf. split; [intros; by apply (Hf 0 v a)|]. intros i w b Hi Hw Hb. by apply (Hf (S i) w b).
  - intros [Hv Hf] [|i] w b Hi Hw Hb; simplify_eq/=; [auto|by apply (Hf i w b)].
Qed.

Lemma argtype_loop_spec slots kept formal : length slots ≤ length formal →
  ∃ left e, argtype_loop isEmpty argType checkCastKind slots (kept ++ formal) (length kept) = Some (left, e) ∧
    ((e = None ∧ left = kept ++ open_args slots formal ∧ fits slots formal) ∨
     (e = Some CastFailed ∧ ¬ fits slots formal)).
Proof.
  revert kept formal. induction slots as [|v slots IH]; intros kept formal Hle.
  - eexists _, _. split; [reflexivity|]. left. split; [done|]. split; [done|]. by intros ???.
  - destruct formal as [|a formal]; simpl in Hle; [lia|]. simpl.
    pose proof (fits_cons v slots a formal) as Hfc. destruct (isEmpty v) eqn:He.
    + destruct (IH (kept ++ [a]) formal) as (lft & e & Heq & Hr); [lia|].
      rewrite <- app_assoc, length_app, Nat.add_1_r in Heq. simpl in Heq.
      exists lft, e. split; [done|].
      destruct Hr as [(-> & -> & Hf)|[-> Hf]]; [left|right; tauto].
      split; [done|]. rewrite <- app_assoc. split; [done|]. apply Hfc. by split.
    + rewrite list_lookup_middle by done. simpl.
      destruct (checkCastKind v (argType a)) eqn:Hc; simpl.
      * rewrite delete_middle. destruct (IH kept formal) as (lft & e & Heq & Hr); [lia|].
        exists lft, e. split; [done|]. destruct Hr as [(-> & -> & Hf)|[-> Hf]]; [left; tauto|right; tauto].
      * eexists _, _. split; [reflexivity|]. right. split; [done|].
        intros [Hx _]%Hfc. by specialize (Hx eq_refl).
Qed.

Lemma getArgTypeArray_spec (c : Closure V TArg) formal :
  ∃ left e, getArgTypeArray isEmpty argType checkCastKind c formal = Some (left, e) ∧
    (e = None ↔ length (m_argValueList c) ≤ length formal ∧ fits (m_argValueList c) formal) ∧
    (e = None → left = open_args (m_argValueList c) formal).
Proof.
  unfold getArgTypeArray. destruct (_ <? _) eqn:Hl; to_prop.
  - eexists _, _. split; [reflexivity|]. split; [|done]. split; [done|]. intros [? _]. lia.
  - destruct (argtype_loop_spec (m_argValueList c) [] formal Hl) as (lft & e & Heq & Hr). simpl in Heq.
    exists lft, e. split; [done|]. destruct Hr as [(-> & -> & Hf)|[-> Hf]]; [done|].
    split; [|done]. split; [done|]. tauto.
Qed.

Lemma open_args_typed slots formal args : length slots ≤ length formal → fits slots formal →
  (Forall2 passes args (open_args slots formal) ↔
   empties isEmpty slots ≤ length args ∧ Forall2 passes (weave isEmpty slots args) formal).
Proof.
  revert formal args. induction slots as [|v slots IH]; intros formal args Hle Hf.
  - simpl. unfold empties. simpl. split; [split; [lia|done]|tauto].
  - destruct formal as [|a formal]; simpl in Hle; [lia|]. apply fits_cons in Hf as [Hv Hf]. simpl.
    rewrite empties_cons. destruct (isEmpty v) eqn:He.
    + destruct args as [|x args]; simpl.
      * split; [intros Hx; inversion Hx|intros [? _]; lia].
      * rewrite !Forall2_cons, IH by (done || lia). assert (1 + empties isEmpty slots ≤ S (length args) ↔
          empties isEmpty slots ≤ length args) as -> by lia. tauto.
    + rewrite Forall2_cons, IH by (done || lia). simpl. rewrite Hv by done. tauto.
Qed.

(** C13: the typing of closures. Computing the argument types of a closure
    never runs past the formal arguments; it succeeds exactly when the captured
    values pass for the formal arguments at their positions; and then the
    arguments of a call pass for the types it leaves exactly when applying the
    closure to them succeeds and all the arguments pass for the formal ones. *)
Theorem closure_call_typed (c : Closure V TArg) (formal : list Arg) :
  ∃ left e, getArgTypeArray isEmpty argType checkCastKind c formal = Some (left, e) ∧
    (e = None ↔ length (m_argValueList c) ≤ length formal ∧ fits (m_argValueList c) formal) ∧
    (e = None → ∀ args, Forall2 passes args left ↔
       ∃ all, apply isEmpty c args = (all, None) ∧ Forall2 passes all formal).
Proof.
  destruct (getArgTypeArray_spec c formal) as (lft & e & Heq & He & Hl).
  exists lft, e. split; [done|]. split; [done|]. intros Hn args. rewrite (Hl Hn).
  destruct (proj1 He Hn) as [Hlen Hf]. rewrite open_args_typed by done. rewrite apply_unfold. split.
  - intros [Hle Hall]. rewrite apply_loop_weave by done. eauto.
  - intros (all & Ha & Hall). destruct (decide (empties isEmpty (m_argValueList c) ≤ length args)) as [Hle|Hgt].
    + rewrite apply_loop_weave in Ha by done. injection Ha as <-. done.
    + destruct (apply_loop_misses isEmpty (m_argValueList c) 0 [] args) as (k & v & out & _ & _ & _ & Hm); [lia|].
      rewrite Hm in Ha. done.
Qed.

(** ** Properties *)

(** [u] is what the closure makes of the setter [t]. *)
Definition setter_of (args : list Arg) (u t : FT) : Prop :=
  getReturnType u = getReturnType t ∧ getCallConv u = getCallConv t ∧
  ∃ value, last (getArgArray t) = Some value ∧
    argType <$> getArgArray u = (argType <$> args) ++ [argType value].

(** The type of the value argument of a setter. *)
Definition value_type (t : FT) : option Ty := argType <$> last (getArgArray t).

Lemma setter_of_signature args u t u' t' : setter_of args u t → setter_of args u' t' →
  getArgSignature u = getArgSignature u' ↔ value_type t = value_type t'.
Proof.
  intros (_ & _ & v & Hv & Ha) (_ & _ & v' & Hv' & Ha'). rewrite (getArgSignature_eq (argType := argType)).
  unfold value_type. rewrite Hv, Hv', Ha, Ha'. simpl. split.
  - intros [_ [= ->]]%app_inj_2; done.
  - by intros [= ->].
Qed.

Lemma setter_of_elem args us ts u t : Forall2 (setter_of args) us ts → setter_of args u t →
  getArgSignature u ∈ getArgSignature <$> us ↔ value_type t ∈ value_type <$> ts.
Proof.
  intros HF2 Hu. induction HF2 as [|u' t' us ts Hu' HF2 IH]; simpl.
  - by rewrite !elem_of_nil.
  - by rewrite !elem_of_cons, IH, (setter_of_signature _ _ _ _ _ Hu Hu').
Qed.

Lemma setter_loop_spec args ts : Forall (λ t, getArgArray t ≠ []) ts →
  (∀ t l, (ensureLayoutT t l).1 = true) →
  ∀ ds acc l, overloads_ok getArgSignature acc → Forall2 (setter_of args) (overloads acc) ds →
  NoDup (value_type <$> ds) →
  ∃ r l', setter_loop ensureLayoutT ts args acc l = Some (r, l') ∧
    ((∃ o, r = inl o) ↔ NoDup (value_type <$> ds ++ ts)) ∧
    ∀ o, r = inl o → Forall2 (setter_of args) (overloads o) (ds ++ ts).
Proof.
  intros Hne Hlay. induction Hne as [|t ts Ht Hne IH]; intros ds acc l Hok HF2 Hnd.
  - rewrite app_nil_r. eexists _, _. split; [reflexivity|]. split; [split; eauto|]. by intros o [= <-].
  - simpl. destruct (last (getArgArray t)) as [v|] eqn:Hv; [|by apply last_None in Hv]. simpl.
    specialize (Hlay t l) as Hl. destruct (ensureLayoutT t l) as [ok l1]. simpl in Hl. subst ok. simpl.
    set (u := getFunctionType _ _ _).
    assert (Hu : setter_of args u t).
    { split; [apply getFunctionType_ret|]. split; [apply getFunctionType_cc|]. exists v.
      split; [done|]. unfold u. by rewrite getFunctionType_args, fmap_app. }
    pose proof (setter_of_elem _ _ _ _ _ HF2 Hu) as Hin.
    pose proof (addOverload_ok getArgSignature u acc Hok) as Hadd.
    destruct (addOverload getArgSignature u acc) as [[i|e] acc'].
    + destruct Hadd as (Hok' & Hnin & Hov & _).
      destruct (IH (ds ++ [t]) acc' l1) as (r & l' & Heq & Hr); [done| | |].
      * rewrite Hov. apply Forall2_app; [done|]. by constructor.
      * rewrite fmap_app. apply NoDup_app. split; [done|]. split; [|apply NoDup_singleton].
        intros x Hx Hxt. apply Hnin, Hin. simpl in Hxt. apply list_elem_of_singleton in Hxt. by subst x.
      * exists r, l'. split; [done|]. by rewrite <- app_assoc in Hr.
    + destruct Hadd as (_ & -> & -> & Hdup). eexists _, _. split; [reflexivity|]. split; [|done].
      split; [by intros []|]. rewrite fmap_app, fmap_cons. intros (_ & Hdisj & _)%NoDup_app. exfalso.
      apply (Hdisj (value_type t)); [by apply Hin|]. left.
Qed.

Lemma closure_ptr_flags_fat flags mask : N.land (closure_ptr_flags flags mask) PtrTypeFlag_PtrKindMask = 0%N.
Proof.
  unfold closure_ptr_flags. apply N.bits_inj. intros n. rewrite N.land_spec, N.ldiff_spec, N.bits_0.
  destruct (N.testbit _ _), (N.testbit PtrTypeFlag_PtrKindMask n); done.
Qed.

(** the closure of a property. With the layouts done, it exists exactly
    when the captured values pass for the getter's arguments and no two setters
    have the same value type; it is a fat pointer whose getter takes the arguments
    left open and whose setters take those and their own value, in order. *)
Theorem property_closure_type (c : Closure V TArg) (p : PtrType (PropertyType FT)) mask l :
  let getter := y_getterType (p_targetType p) in
  let setters := overloads (y_setterType (p_targetType p)) in
  Forall (λ t, getArgArray t ≠ []) setters → (∀ t l, (ensureLayoutT t l).1 = true) →
  ∃ r l', getPropertyClosureType isEmpty argType checkCastKind ensureLayoutT c p mask l = Some (r, l') ∧
    ((∃ p', r = inl p') ↔
       length (m_argValueList c) ≤ length (getArgArray getter) ∧
       fits (m_argValueList c) (getArgArray getter) ∧ NoDup (value_type <$> setters)) ∧
    ∀ p', r = inl p' →
      p_typeKind p' = p_typeKind p ∧ N.land (p_flags p') PtrTypeFlag_PtrKindMask = 0%N ∧
      let left := open_args (m_argValueList c) (getArgArray getter) in
      argType <$> getArgArray (y_getterType (p_targetType p')) = argType <$> left ∧
      getReturnType (y_getterType (p_targetType p')) = getReturnType getter ∧
      Forall2 (setter_of left) (overloads (y_setterType (p_targetType p'))) setters.
Proof.
  intros getter setters Hne Hlay. unfold getPropertyClosureType. fold getter setters.
  specialize (Hlay getter l) as Hl. destruct (ensureLayoutT getter l) as [ok l1]. simpl in Hl. subst ok.
  destruct (getArgTypeArray_spec c (getArgArray getter)) as (lft & e & Heq & He & Hleft).
  simpl. rewrite Heq. simpl. destruct e as [e|].
  - eexists _, _. split; [reflexivity|]. split; [|done]. split; [by intros []|].
    intros (H1 & H2 & _). by discriminate (proj2 He (conj H1 H2)).
  - rewrite (Hleft eq_refl) in *. destruct (proj1 He eq_refl) as [Hlen Hfit].
    set (lf := open_args _ _) in *.
    destruct (setter_loop_spec lf setters Hne Hlay [] emptyOverload l1) as (r & l' & Hs & Hr & Hov);
      [split; [constructor|done]|constructor|constructor|]. rewrite Hs. simpl.
    simpl in Hr, Hov. destruct r as [o|e].
    + eexists _, _. split; [reflexivity|]. split.
      * rewrite <- Hr. split; [|eauto]. intros _. split; [done|]. split; eauto.
      * intros p' [= <-]. simpl. split; [done|]. split; [apply closure_ptr_flags_fat|].
        split; [apply getFunctionType_args|]. split; [apply getFunctionType_ret|]. by apply Hov.
    + eexists _, _. split; [reflexivity|]. split; [|done]. rewrite <- Hr.
      split; [by intros []|]. by intros (_ & _ & []).
Qed.

(** the closure of a function. It is refused for a function with variable
    arguments and when the captured values do not pass; otherwise it is a fat
    pointer to a function of the arguments left open, with the same return type
    and calling convention. *)
Theorem function_closure_type (c : Closure V TArg) (p : PtrType FT) mask :
  let type := p_targetType p in
  ∃ r, getFunctionClosureType isEmpty argType checkCastKind c p mask = Some r ∧
    ((∃ p', r = inl p') ↔ N.land (getFlags type) FunctionTypeFlag_VarArg = 0%N ∧
       length (m_argValueList c) ≤ length (getArgArray type) ∧ fits (m_argValueList c) (getArgArray type)) ∧
    ∀ p', r = inl p' →
      p_typeKind p' = p_typeKind p ∧ N.land (p_flags p') PtrTypeFlag_PtrKindMask = 0%N ∧
      argType <$> getArgArray (p_targetType p') =
        argType <$> open_args (m_argValueList c) (getArgArray type) ∧
      getReturnType (p_targetType p') = getReturnType type ∧
      getCallConv (p_targetType p') = getCallConv type.
Proof.
  intros type. unfold getFunctionClosureType. fold type. destruct (N.land _ _ =? 0)%N eqn:Hf; to_prop; simpl.
  - destruct (getArgTypeArray_spec c (getArgArray type)) as (lft & e & Heq & He & Hleft).
    rewrite Heq. simpl. destruct e as [e|].
    + eexists. split; [reflexivity|]. split; [|done]. split; [by intros []|].
      intros (_ & H). by discriminate (proj2 He H).
    + eexists. split; [reflexivity|]. split; [split; [intros _; split; [done|by apply He]|eauto]|].
      intros p' [= <-]. simpl. split; [done|]. split; [apply closure_ptr_flags_fat|].
      rewrite (Hleft eq_refl). split; [apply getFunctionType_args|].
      split; [apply getFunctionType_ret|apply getFunctionType_cc].
  - eexists. split; [reflexivity|]. split; [|done]. split; [by intros []|]. by intros (? & _).
Qed.

End type_facts.

(** ** Concrete instance

    Types are numbers, a value is its type or empty, function types are records
    of their contents. *)

Record SimpleFunctionType := mkSimple {
  s_cc : nat; s_ret : nat; s_args : list nat; s_flags : N
}.

#[export] Instance simple_types : FunctionTypes nat nat nat SimpleFunctionType (list nat) := {
  getCallConv := s_cc; getReturnType := s_ret; getArgArray := s_args; getFlags := s_flags;
  getArgSignature := s_args; getFunctionType := λ cc ret args, mkSimple cc ret args 0
}.

#[export] Instance simple_laws : FunctionTypesLaws nat (λ a : nat, a) simple_types.
Proof. split; simpl; try done. intros t u. by rewrite !list_fmap_id. Qed.

Definition v_isEmpty (v : option nat) : bool := bool_decide (v = None).
Definition v_check (v : option nat) (t : nat) : bool := bool_decide (v = Some t).

(** Captured: [5], a gap, [7]. *)
Definition demo_closure : Closure (option nat) unit :=
  mkClosure [Some tt] [Some 5; None; Some 7] None None.
Definition full_closure : Closure (option nat) unit := mkClosure [] [Some 5; Some 6] None None.

Lemma demo_has_empty : has_empty v_isEmpty (m_argValueList demo_closure).
Proof. apply Exists_exists. exists None. split; [|done]. simpl. right. left. Defined.

Lemma append_list_returns_witness :
  append_list v_isEmpty 3 [Some 8] full_closure = Some (3, set_args [Some 5; Some 6; Some 8] full_closure) ∧
  ∀ n, append_list v_isEmpty n [Some 6] demo_closure = None.
Proof.
  split.
  - apply (append_list_returns v_isEmpty full_closure [Some 8]); [discriminate| |simpl; lia].
    intros Hx. apply Exists_exists in Hx as (v & Hin & Hv).
    simpl in Hin. repeat (apply elem_of_cons in Hin as [->|Hin]; [discriminate|]).
    by apply elem_of_nil in Hin.
  - intros n. apply (append_list_returns v_isEmpty demo_closure [Some 6]); [discriminate|].
    exact demo_has_empty.
Defined.

Lemma appendTemplateArgs_returns_witness :
  appendTemplateArgs 2 [Some tt] demo_closure =
    Some (2, mkClosure [Some tt; Some tt] [Some 5; None; Some 7] None None) ∧
  ∀ n, appendTemplateArgs n [Some tt] (mkClosure (V := nat) [None] [] None None) = None.
Proof.
  split.
  - apply (appendTemplateArgs_returns demo_closure [Some tt]); [|simpl; lia].
    simpl. intros H. apply elem_of_cons in H as [H|H]; [discriminate|]. by apply elem_of_nil in H.
  - apply (appendTemplateArgs_returns (mkClosure (V := nat) [None] [] None None) [Some tt]).
    simpl. left.
Defined.

Lemma apply_append_witness :
  apply v_isEmpty (append v_isEmpty (Some 6) demo_closure).2 [Some 9] =
    apply v_isEmpty demo_closure [Some 6; Some 9] ∧
  apply v_isEmpty demo_closure [Some 6; Some 9] = ([Some 5; Some 6; Some 7; Some 9], None).
Proof. split; [apply apply_append; reflexivity|reflexivity]. Defined.

Lemma apply_correct_witness :
  (∃ res, apply v_isEmpty demo_closure [Some 6; Some 9] = (res, None) ∧ res !! 1 = Some (Some 6)) ∧
  ∃ out, apply v_isEmpty demo_closure [] = (out, Some 2).
Proof.
  split.
  - destruct (apply_correct v_isEmpty demo_closure [Some 6; Some 9]) as [H _].
    destruct H as (res & Hr & Hl & _); [vm_compute; lia|].
    exists res. split; [exact Hr|]. exact (Hl 1 None eq_refl).
  - destruct (apply_correct v_isEmpty demo_closure []) as [_ H].
    destruct H as (out & k & v & Hr & _); [vm_compute; lia|].
    exists out. vm_compute in Hr |- *. congruence.
Defined.

Lemma closure_call_typed_witness :
  ∃ left, getArgTypeArray v_isEmpty (λ a : nat, a) v_check demo_closure [5; 6; 7; 8] = Some (left, None) ∧
    ∃ all, apply v_isEmpty demo_closure [Some 6; Some 8] = (all, None) ∧
      Forall2 (λ v a, v_check v a = true) all [5; 6; 7; 8].
Proof.
  destruct (closure_call_typed v_isEmpty (λ a : nat, a) v_check demo_closure [5; 6; 7; 8])
    as (lft & e & Heq & _ & Hcall).
  vm_compute in Heq. injection Heq as <- <-. exists [6; 8]. split; [reflexivity|].
  apply (Hcall eq_refl [Some 6; Some 8]). repeat constructor.
Defined.

Definition demo_property : PtrType (PropertyType SimpleFunctionType) :=
  mkPtrType Ref 0x200000 (mkPropertyType (mkSimple 0 1 [5; 6; 7] 0)
    (mkOverload false false (Some (mkSimple 0 0 [5; 6; 7; 1] 0)) [mkSimple 0 0 [5; 6; 7; 2] 0]) 0x10000).

Lemma property_closure_type_witness :
  ∃ p' l, getPropertyClosureType v_isEmpty (λ a : nat, a) v_check (λ _ (u : unit), (true, u))
            demo_closure demo_property PtrTypeFlag_All tt = Some (inl p', l) ∧
    s_args (y_getterType (p_targetType p')) = [6] ∧ N.land (p_flags p') PtrTypeFlag_PtrKindMask = 0%N.
Proof.
  destruct (property_closure_type v_isEmpty (λ a : nat, a) v_check (λ _ (u : unit), (true, u))
              demo_closure demo_property PtrTypeFlag_All tt) as (r & l & Heq & Hr & Hp).
  - repeat constructor; discriminate.
  - reflexivity.
  - vm_compute in Heq. injection Heq as <- <-. eexists _, _. split; [vm_compute; reflexivity|].
    destruct (Hp _ eq_refl) as (_ & Hfat & Hargs & _). split; [reflexivity|exact Hfat].
Defined.

Lemma function_closure_type_witness :
  ∃ p', getFunctionClosureType v_isEmpty (λ a : nat, a) v_check demo_closure
          (mkPtrType Ptr 0x200000 (mkSimple 3 1 [5; 6; 7; 8] 0)) PtrTypeFlag_All = Some (inl p') ∧
    getCallConv (p_targetType p') = 3.
Proof.
  destruct (function_closure_type v_isEmpty (λ a : nat, a) v_check demo_closure
              (mkPtrType Ptr 0x200000 (mkSimple 3 1 [5; 6; 7; 8] 0)) PtrTypeFlag_All) as (r & Heq & _ & Hp).
  vm_compute in Heq. injection Heq as <-. eexists. split; [vm_compute; reflexivity|].
  apply (Hp _ eq_refl).
Defined.
