(* ===== verification/GcThreads.v ===== *)
(** * Threads and the heap: waiting, parking, stopping the world

    Models the synchronization of [src/src/jnc_rt/jnc_rt_GcHeap.cpp] (waiting for
    the idle state, registering threads, wait and no-collect regions, safe points,
    stopping and resuming the world, [collect], [abort], the collection triggers)
    and the call sites of [src/src/jnc_rt/jnc_rt_Runtime.cpp].

    The state is shared; each thread has a program counter [pc] at the next
    access to it, and [exec] performs that access. What the collector does while
    the world is stopped is in [GcCollect]; here it is a change of the phase
    [m_state]. The three ways of stopping a thread the code has are the [mode].
    Blocked system calls that [abort] interrupts, and the retried signals that
    wake a suspended POSIX thread, have no effect on the state; such a thread may
    look at [m_state] at any time. *)

From S2P Require Import Prelude.

Abbreviation tid := N.

(** [GcHeap::State] *)
Inductive State :=
  | State_Idle | State_StopTheWorld | State_Mark | State_BuildDestructGraph | State_Sweep
  | State_ResumeTheWorld.

#[export] Instance State_eq_dec : EqDecision State.
Proof. solve_decision. Defined.

(** [Flag_SimpleSafePoint], or the guard page of Windows or POSIX. *)
Inductive mode := SimpleSafePoint | GuardPageWin | GuardPagePosix.

#[export] Instance mode_eq_dec : EqDecision mode.
Proof. solve_decision. Defined.

Record GcMutatorThread := mkMutator {
  m_isSafePoint : bool; m_waitRegionLevel : nat; m_noCollectRegionLevel : nat
}.

(** The exception recovery snapshot of a call site. *)
Record CallSite := mkCallSite {
  c_nestLevel : nat; c_noCollectRegionLevel : nat; c_waitRegionLevel : nat
}.

(** What a thread does once [waitIdleAndLock] returns. *)
Inductive op :=
  | KRegister | KUnregister | KEnterWait | KLeaveWait | KEnterNoCollect
  | KLeaveNoCollect (canCollectNow : bool)
  | KSetSizeTriggers (allocSizeTrigger periodSizeTrigger : N)
  | KCollect | KAbort | KAlloc (size : N) | KAllocCollected (size : N).

(** Where a thread goes on when it leaves a safe point. *)
Inductive resume_point := ToUser | ToLoop (k : op).

(** What the world is stopped for; an allocation goes on after its collection. *)
Inductive job := JCollect (alloc : option N) | JAbort.

Inductive pc :=
  | Run
  (* waitIdleAndLock of a thread that is not a running mutator *)
  | NLock (k : op) | NCheck (k : op) | NWait (k : op)
  (* waitIdleAndLock of a running mutator *)
  | MLock (k : op) | MCheck (k : op) | MSafe (k : op)
  | MWait (k : op) | MRelock (k : op) | MRecheck (k : op)
  (* it has returned *)
  | Locked (k : op) (isMutatorThread : bool)
  (* parkAtSafePoint, handleGuardPageHit *)
  | Park (r : resume_point) | ParkDec (r : resume_point) | ParkWait (r : resume_point)
  | ParkLeave (r : resume_point) | ParkDec2 (r : resume_point) (isAbort : bool)
  (* stopTheWorld_l *)
  | SReset (j : job) (n : nat) | SCount (j : job) (n : nat) | SState (j : job) (n : nat)
  | SIdle (j : job) (n : nat) | SUnlock (j : job) (n : nat) | SProtect (j : job) (n : nat)
  | SWait (j : job) (n : nat)
  (* the world is stopped *)
  | GMark (a : option N) (n : nat) | GBuild (a : option N) (n : nat) | GSweep (a : option N) (n : nat)
  | GAbort (n : nat)
  (* resumeTheWorld *)
  | RProtect (j : job) (alive : N) (n : nat) | RCount (j : job) (alive : N) (n : nat)
  | RState (j : job) (alive : N) (n : nat) | RSignal (j : job) (alive : N) (n : nat)
  | RWait (j : job) (alive : N) (n : nat)
  (* going to the idle state *)
  | FLock (j : job) (alive : N) | FIdle (j : job) (alive : N) | FSignal (j : job) | FUnlock (j : job).

Record thread := mkThread {
  t_pc : pc;
  t_gc : option GcMutatorThread;   (* on m_mutatorThreadList *)
  t_callSites : list CallSite      (* of this runtime, innermost first *)
}.

Record GcStats := mkStats {
  m_totalCollectCount : N; m_totalAllocSize : N; m_currentAllocSize : N; m_currentPeriodSize : N;
  m_peakAllocSize : N
}.

Record heap := mkHeap {
  m_mode : mode;
  m_state : State;
  m_abort : bool;            (* Flag_Abort *)
  m_lock : option tid;
  m_idleEvent : bool;
  m_resumeEvent : bool;
  m_handshakeSignal : nat;   (* m_handshakeEvent: 0 or 1; m_handshakeSem in GuardPagePosix *)
  m_guardPage : bool;        (* protected *)
  m_waitingMutatorThreadCount : nat;
  m_noCollectMutatorThreadCount : nat;
  m_handshakeCount : nat;
  m_stats : GcStats;
  m_allocSizeTrigger : N;
  m_periodSizeTrigger : N
}.

(** [GcHeap::GcHeap] and [GcHeap::startup] *)
Definition newHeap (md : mode) (allocTrigger periodTrigger : N) : heap :=
  mkHeap md State_Idle false None true false 0 false 0 0 0 (mkStats 0 0 0 0 0) allocTrigger periodTrigger.

Abbreviation threads := (gmap tid thread).

(** ** Field updates *)

Definition set_state v h := mkHeap (m_mode h) v (m_abort h) (m_lock h) (m_idleEvent h)
  (m_resumeEvent h) (m_handshakeSignal h) (m_guardPage h) (m_waitingMutatorThreadCount h)
  (m_noCollectMutatorThreadCount h) (m_handshakeCount h) (m_stats h) (m_allocSizeTrigger h)
  (m_periodSizeTrigger h).
Definition set_abort v h := mkHeap (m_mode h) (m_state h) v (m_lock h) (m_idleEvent h)
  (m_resumeEvent h) (m_handshakeSignal h) (m_guardPage h) (m_waitingMutatorThreadCount h)
  (m_noCollectMutatorThreadCount h) (m_handshakeCount h) (m_stats h) (m_allocSizeTrigger h)
  (m_periodSizeTrigger h).
Definition set_lock v h := mkHeap (m_mode h) (m_state h) (m_abort h) v (m_idleEvent h)
  (m_resumeEvent h) (m_handshakeSignal h) (m_guardPage h) (m_waitingMutatorThreadCount h)
  (m_noCollectMutatorThreadCount h) (m_handshakeCount h) (m_stats h) (m_allocSizeTrigger h)
  (m_periodSizeTrigger h).
Definition set_idleEvent v h := mkHeap (m_mode h) (m_state h) (m_abort h) (m_lock h) v
  (m_resumeEvent h) (m_handshakeSignal h) (m_guardPage h) (m_waitingMutatorThreadCount h)
  (m_noCollectMutatorThreadCount h) (m_handshakeCount h) (m_stats h) (m_allocSizeTrigger h)
  (m_periodSizeTrigger h).
Definition set_resumeEvent v h := mkHeap (m_mode h) (m_state h) (m_abort h) (m_lock h) (m_idleEvent h)
  v (m_handshakeSignal h) (m_guardPage h) (m_waitingMutatorThreadCount h)
  (m_noCollectMutatorThreadCount h) (m_handshakeCount h) (m_stats h) (m_allocSizeTrigger h)
  (m_periodSizeTrigger h).
Definition set_handshakeSignal v h := mkHeap (m_mode h) (m_state h) (m_abort h) (m_lock h) (m_idleEvent h)
  (m_resumeEvent h) v (m_guardPage h) (m_waitingMutatorThreadCount h)
  (m_noCollectMutatorThreadCount h) (m_handshakeCount h) (m_stats h) (m_allocSizeTrigger h)
  (m_periodSizeTrigger h).
Definition set_guardPage v h := mkHeap (m_mode h) (m_state h) (m_abort h) (m_lock h) (m_idleEvent h)
  (m_resumeEvent h) (m_handshakeSignal h) v (m_waitingMutatorThreadCount h)
  (m_noCollectMutatorThreadCount h) (m_handshakeCount h) (m_stats h) (m_allocSizeTrigger h)
  (m_periodSizeTrigger h).
Definition set_waiting v h := mkHeap (m_mode h) (m_state h) (m_abort h) (m_lock h) (m_idleEvent h)
  (m_resumeEvent h) (m_handshakeSignal h) (m_guardPage h) v
  (m_noCollectMutatorThreadCount h) (m_handshakeCount h) (m_stats h) (m_allocSizeTrigger h)
  (m_periodSizeTrigger h).
Definition set_noCollect v h := mkHeap (m_mode h) (m_state h) (m_abort h) (m_lock h) (m_idleEvent h)
  (m_resumeEvent h) (m_handshakeSignal h) (m_guardPage h) (m_waitingMutatorThreadCount h)
  v (m_handshakeCount h) (m_stats h) (m_allocSizeTrigger h) (m_periodSizeTrigger h).
Definition set_handshakeCount v h := mkHeap (m_mode h) (m_state h) (m_abort h) (m_lock h) (m_idleEvent h)
  (m_resumeEvent h) (m_handshakeSignal h) (m_guardPage h) (m_waitingMutatorThreadCount h)
  (m_noCollectMutatorThreadCount h) v (m_stats h) (m_allocSizeTrigger h) (m_periodSizeTrigger h).
Definition set_stats v h := mkHeap (m_mode h) (m_state h) (m_abort h) (m_lock h) (m_idleEvent h)
  (m_resumeEvent h) (m_handshakeSignal h) (m_guardPage h) (m_waitingMutatorThreadCount h)
  (m_noCollectMutatorThreadCount h) (m_handshakeCount h) v (m_allocSizeTrigger h) (m_periodSizeTrigger h).
Definition set_triggers a p h := mkHeap (m_mode h) (m_state h) (m_abort h) (m_lock h) (m_idleEvent h)
  (m_resumeEvent h) (m_handshakeSignal h) (m_guardPage h) (m_waitingMutatorThreadCount h)
  (m_noCollectMutatorThreadCount h) (m_handshakeCount h) (m_stats h) a p.

Definition with_pc (p : pc) (th : thread) : thread := mkThread p (t_gc th) (t_callSites th).
Definition with_gc (g : option GcMutatorThread) (th : thread) : thread :=
  mkThread (t_pc th) g (t_callSites th).

Definition set_wait (n : nat) (g : GcMutatorThread) : GcMutatorThread :=
  mkMutator (m_isSafePoint g) n (m_noCollectRegionLevel g).
Definition set_nocoll (n : nat) (g : GcMutatorThread) : GcMutatorThread :=
  mkMutator (m_isSafePoint g) (m_waitRegionLevel g) n.
Definition set_safe (b : bool) (g : GcMutatorThread) : GcMutatorThread :=
  mkMutator b (m_waitRegionLevel g) (m_noCollectRegionLevel g).

(** ** The steps *)

(** What the user code of a thread does next. *)
Inductive user_op :=
  | UInit                        (* Runtime::initializeCallSite *)
  | UUninit (result : bool)      (* Runtime::uninitializeCallSite *)
  | UEnterWait | ULeaveWait | UEnterNoCollect | ULeaveNoCollect (canCollectNow : bool)
  | USetSizeTriggers (allocSizeTrigger periodSizeTrigger : N)
  | UCollect | UAbort | UAlloc (size : N) | USafePoint.

(** Which step: a call of the user code, or the next access of a running
    operation; then [alive] is the size a collection leaves and [flag] tells
    whether the thread has a frame to throw to, or whether there is an object to
    destruct. *)
Inductive action := ACall (u : user_op) | AGo (alive : N) (flag : bool).

(** [Blocked]: the thread has to wait. [Failed]: an assertion does not hold. *)
Inductive outcome := Blocked | Failed | Next (th : thread) (h : heap).

Definition check (b : bool) (o : outcome) : outcome := if b then o else Failed.

Definition getCurrentGcMutatorThread (th : thread) : option GcMutatorThread :=
  match t_callSites th with [] => None | _ => t_gc th end.

Definition isMutatorThread (th : thread) : bool :=
  match getCurrentGcMutatorThread th with Some g => m_waitRegionLevel g =? 0 | None => false end.

(** Calling [waitIdleAndLock]. *)
Definition enter (k : op) (th : thread) (h : heap) : outcome :=
  Next (with_pc (if isMutatorThread th then MLock k else NLock k) th) h.

Definition go (p : pc) (th : thread) (h : heap) : outcome := Next (with_pc p th) h.

Definition lock (t : tid) (p : pc) (th : thread) (h : heap) : outcome :=
  match m_lock h with None => go p th (set_lock (Some t) h) | Some _ => Blocked end.

Definition unlock (p : pc) (th : thread) (h : heap) : outcome := go p th (set_lock None h).

(** [counter--] of a counter that is not to go below zero. *)
Definition dec (n : nat) (f : nat → outcome) : outcome :=
  match n with S n => f n | O => Failed end.

Definition update_gc (th : thread) (f : GcMutatorThread → GcMutatorThread) : thread :=
  with_gc (f <$> t_gc th) th.

(** *** Safe points *)

Definition resume_pc (r : resume_point) : pc := match r with ToUser => Run | ToLoop k => MLock k end.

(** Whether a safe point stops the thread: the check of the flag, or the access
    to the guard page faults. *)
Definition isHit (h : heap) : bool :=
  match m_mode h with
  | SimpleSafePoint => bool_decide (m_state h = State_StopTheWorld)
  | _ => m_guardPage h
  end.

Definition safePoint (r : resume_point) (th : thread) (h : heap) : outcome :=
  go (if isHit h then Park r else resume_pc r) th h.

Definition signal_handshake (h : heap) : heap :=
  set_handshakeSignal (match m_mode h with GuardPagePosix => S (m_handshakeSignal h) | _ => 1 end) h.

Definition atomicDec_handshake (h : heap) (f : heap → outcome) : outcome :=
  dec (m_handshakeCount h) (λ count,
    let h := set_handshakeCount count h in f (if count =? 0 then signal_handshake h else h)).

(** [parkAtSafePoint] and [handleGuardPageHit] *)
Definition park_step (flag : bool) (th : thread) (h : heap) : outcome :=
  match t_pc th with
  | Park r =>
    match t_gc th with
    | None => Failed
    | Some g =>
      check (bool_decide (m_state h = State_StopTheWorld) && (m_waitRegionLevel g =? 0) && negb (m_isSafePoint g))
        (go (ParkDec r) (update_gc th (set_safe true)) h)
    end
  | ParkDec r => atomicDec_handshake h (go (ParkWait r) th)
  | ParkWait r =>
    match m_mode h with
    | GuardPagePosix =>
      if decide (m_state h = State_ResumeTheWorld) then go (ParkLeave r) th h else Blocked
    | _ =>
      if m_resumeEvent h
      then check (bool_decide (m_state h = State_ResumeTheWorld)) (go (ParkLeave r) th h)
      else Blocked
    end
  | ParkLeave r => go (ParkDec2 r (m_abort h)) (update_gc th (set_safe false)) h
  | ParkDec2 r isAbort =>
    atomicDec_handshake h (go (if isAbort && flag then Run else resume_pc r) th)
  | _ => Blocked
  end.

(** *** Waiting for the idle state *)

Definition waitIdleAndLock_step (t : tid) (th : thread) (h : heap) : outcome :=
  match t_pc th with
  | NLock k => lock t (NCheck k) th h
  | NCheck k =>
    if decide (m_state h = State_Idle) then go (Locked k false) th h else unlock (NWait k) th h
  | NWait k => if m_idleEvent h then go (NLock k) th h else Blocked
  | MLock k => lock t (MCheck k) th h
  | MCheck k =>
    if decide (m_state h = State_StopTheWorld) then unlock (MSafe k) th h
    else if decide (m_state h = State_Idle) then go (Locked k true) th h
    else unlock (MWait k) (update_gc th (set_wait 1)) (set_waiting (S (m_waitingMutatorThreadCount h)) h)
  | MSafe k => safePoint (ToLoop k) th h
  | MWait k => if m_idleEvent h then go (MRelock k) th h else Blocked
  | MRelock k => lock t (MRecheck k) th h
  | MRecheck k =>
    if decide (m_state h = State_Idle)
    then dec (m_waitingMutatorThreadCount h) (λ n,
           go (Locked k true) (update_gc th (set_wait 0)) (set_waiting n h))
    else unlock (MWait k) th h
  | _ => Blocked
  end.

(** *** Stopping and resuming the world *)

Definition stopTheWorld_l (mutators : nat) (j : job) (isMutator : bool) (th : thread) (h : heap) : outcome :=
  check (m_waitingMutatorThreadCount h <=? mutators)
    (let n := mutators - m_waitingMutatorThreadCount h in
     if isMutator then dec n (λ n, go (SReset j n) th h) else go (SReset j n) th h).

(** Where [stopTheWorld_l] returns to. *)
Definition stopped (j : job) (n : nat) : pc :=
  match j with JCollect a => GMark a n | JAbort => GAbort n end.

Definition stopTheWorld_step (th : thread) (h : heap) : outcome :=
  match t_pc th with
  | SReset j n =>
    if n =? 0 then go (SState j n) th h
    else go (SCount j n) th (if decide (m_mode h = GuardPagePosix) then h else set_resumeEvent false h)
  | SCount j n => go (SState j n) th (set_handshakeCount n h)
  | SState j n => go (SIdle j n) th (set_state State_StopTheWorld h)
  | SIdle j n => go (SUnlock j n) th (set_idleEvent false h)
  | SUnlock j n =>
    unlock (if n =? 0 then stopped j n
            else if decide (m_mode h = SimpleSafePoint) then SWait j n else SProtect j n) th h
  | SProtect j n => go (SWait j n) th (set_guardPage true h)
  | SWait j n =>
    match m_handshakeSignal h with
    | S m => go (stopped j n) th (set_handshakeSignal m h)
    | O => Blocked
    end
  | _ => Blocked
  end.

Definition resumeTheWorld_step (th : thread) (h : heap) : outcome :=
  match t_pc th with
  | RProtect j alive n =>
    if n =? 0 then go (FLock j alive) th h
    else go (RCount j alive n) th (if decide (m_mode h = SimpleSafePoint) then h else set_guardPage false h)
  | RCount j alive n => go (RState j alive n) th (set_handshakeCount n h)
  | RState j alive n =>
    go (if decide (m_mode h = GuardPagePosix) then RWait j alive n else RSignal j alive n) th
      (set_state State_ResumeTheWorld h)
  | RSignal j alive n => go (RWait j alive n) th (set_resumeEvent true h)
  | RWait j alive n =>
    match m_handshakeSignal h with
    | S m => go (FLock j alive) th (set_handshakeSignal m h)
    | O => Blocked
    end
  | _ => Blocked
  end.

(** *** Collecting and aborting *)

Definition isCollectionTriggered_l (h : heap) : bool :=
  (m_noCollectMutatorThreadCount h =? 0) &&
  ((m_periodSizeTrigger h <? m_currentPeriodSize (m_stats h))%N ||
   (m_allocSizeTrigger h <? m_currentAllocSize (m_stats h))%N).

Definition collect_l (mutators : nat) (a : option N) (isMutator : bool) (th : thread) (h : heap) : outcome :=
  check ((m_noCollectMutatorThreadCount h =? 0) && (m_waitingMutatorThreadCount h <=? mutators))
    (let st := m_stats h in
     stopTheWorld_l mutators (JCollect a) isMutator th
       (set_stats (mkStats (add64 (m_totalCollectCount st) 1) (m_totalAllocSize st)
                           (m_currentAllocSize st) (m_currentPeriodSize st) (m_peakAllocSize st)) h)).

Definition collect_stats (alive : N) (st : GcStats) : GcStats :=
  mkStats (m_totalCollectCount st) (m_totalAllocSize st) alive 0 (m_peakAllocSize st).

(** [abort] with the world stopped. *)
Definition abort_body (n : nat) (th : thread) (h : heap) : outcome :=
  go (RProtect JAbort 0 n) th (set_abort true h).

(** The phases of [collect_l] and of [abort] between stopping and resuming, and
    the way back to the idle state. *)
Definition phase_step (t : tid) (alive : N) (flag : bool) (th : thread) (h : heap) : outcome :=
  match t_pc th with
  | GMark a n => go (GBuild a n) th (set_state State_Mark h)
  | GBuild a n => go (GSweep a n) th (if flag then set_state State_BuildDestructGraph h else h)
  | GSweep a n => go (RProtect (JCollect a) alive n) th (set_state State_Sweep h)
  | GAbort n => abort_body n th h
  | FLock j alive => lock t (FIdle j alive) th h
  | FIdle j alive =>
    let h := set_state State_Idle h in
    go (FSignal j) th
      (match j with JCollect _ => set_stats (collect_stats alive (m_stats h)) h | JAbort => h end)
  | FSignal j => go (FUnlock j) th (set_idleEvent true h)
  | FUnlock j =>
    let h := set_lock None h in
    match j with
    | JCollect (Some size) => enter (KAllocCollected size) th h   (* waitIdleAndLockForAlloc *)
    | _ => go Run th h
    end
  | _ => Blocked
  end.

(** [addAllocBox_l] and the unlocking after it. *)
Definition addAllocBox_l (size : N) (st : GcStats) : GcStats :=
  let current := add64 (m_currentAllocSize st) size in
  mkStats (m_totalCollectCount st) (add64 (m_totalAllocSize st) size) current
    (add64 (m_currentPeriodSize st) size)
    (if (m_peakAllocSize st <? current)%N then current else m_peakAllocSize st).

Definition alloc_body (size : N) (th : thread) (h : heap) : outcome :=
  unlock Run th (set_stats (addAllocBox_l size (m_stats h)) h).

(** [setSizeTriggers] and [collect] *)
Definition setSizeTriggers (mutators : nat) (allocSizeTrigger periodSizeTrigger : N) (im : bool)
    (th : thread) (h : heap) : outcome :=
  let h := set_triggers allocSizeTrigger periodSizeTrigger h in
  if isCollectionTriggered_l h then collect_l mutators None im th h else unlock Run th h.

Definition collect (mutators : nat) (im : bool) (th : thread) (h : heap) : outcome :=
  if m_noCollectMutatorThreadCount h =? 0 then collect_l mutators None im th h else unlock Run th h.

(** What each operation does when [waitIdleAndLock] has returned [im]. *)
Definition op_body (mutators : nat) (k : op) (im : bool) (th : thread) (h : heap) : outcome :=
  match k with
  | KRegister =>
    check (negb im) (unlock Run (mkThread Run (Some (mkMutator false 0 0)) [mkCallSite 0 0 0]) h)
  | KUnregister =>
    match t_gc th with
    | None => Failed
    | Some g =>
      check im
        ((if m_waitRegionLevel g =? 0 then λ f, f h
          else λ f, dec (m_waitingMutatorThreadCount h) (λ n, f (set_waiting n h))) (λ h,
         (if m_noCollectRegionLevel g =? 0 then λ f, f h
          else λ f, dec (m_noCollectMutatorThreadCount h) (λ n, f (set_noCollect n h))) (λ h,
         unlock Run (mkThread Run None []) h)))
    end
  | KEnterWait =>
    check im (check (S (m_waitingMutatorThreadCount h) <=? mutators)
      (unlock Run (update_gc th (set_wait 1)) (set_waiting (S (m_waitingMutatorThreadCount h)) h)))
  | KLeaveWait =>
    check (negb im) (dec (m_waitingMutatorThreadCount h) (λ n,
      unlock Run (update_gc th (set_wait 0)) (set_waiting n h)))
  | KEnterNoCollect =>
    check im (check (m_waitingMutatorThreadCount h <=? mutators)
      (unlock Run (update_gc th (set_nocoll 1)) (set_noCollect (S (m_noCollectMutatorThreadCount h)) h)))
  | KLeaveNoCollect canCollectNow =>
    check im (dec (m_noCollectMutatorThreadCount h) (λ n,
      let th := update_gc th (set_nocoll 0) in
      let h := set_noCollect n h in
      if canCollectNow && isCollectionTriggered_l h then collect_l mutators None im th h
      else unlock Run th h))
  | KSetSizeTriggers a p => setSizeTriggers mutators a p im th h
  | KCollect => collect mutators im th h
  | KAbort => stopTheWorld_l mutators JAbort im th h
  | KAlloc size =>
    check im (if isCollectionTriggered_l h then collect_l mutators (Some size) im th h
              else alloc_body size th h)
  | KAllocCollected size => alloc_body size th h
  end.

(** *** User code *)

(** [uninitializeCallSite]: the levels are set back to the snapshot; the
    outermost call site unregisters the thread. *)
Definition uninitializeCallSite (result : bool) (th : thread) (h : heap) : outcome :=
  match t_callSites th, t_gc th with
  | callSite :: callSites, Some g =>
    check (c_waitRegionLevel callSite =? m_waitRegionLevel g)
    (check ((c_noCollectRegionLevel callSite =? m_noCollectRegionLevel g) ||
            (negb result && (c_noCollectRegionLevel callSite <? m_noCollectRegionLevel g)))
      (let g := mkMutator (m_isSafePoint g) (c_waitRegionLevel callSite) (c_noCollectRegionLevel callSite) in
       if negb (c_nestLevel callSite =? 0) then Next (mkThread Run (Some g) callSites) h
       else check ((c_waitRegionLevel callSite =? 0) && (c_noCollectRegionLevel callSite =? 0))
              (enter KUnregister (with_gc (Some g) th) h)))
  | _, _ => Failed
  end.

Definition user_call (u : user_op) (th : thread) (h : heap) : outcome :=
  match u with
  | UInit =>
    match t_callSites th, t_gc th with
    | prev :: _, Some g =>
      Next (mkThread Run (t_gc th)
        (mkCallSite (S (c_nestLevel prev)) (m_noCollectRegionLevel g) (m_waitRegionLevel g) :: t_callSites th)) h
    | _, _ => enter KRegister th h
    end
  | UUninit result => uninitializeCallSite result th h
  | USetSizeTriggers a p => enter (KSetSizeTriggers a p) th h
  | UCollect => enter KCollect th h
  | UAbort => enter KAbort th h
  | UAlloc size => enter (KAlloc size) th h
  | UEnterWait | ULeaveWait | UEnterNoCollect | ULeaveNoCollect _ | USafePoint =>
    match getCurrentGcMutatorThread th with
    | None => Failed
    | Some g =>
      match u with
      | UEnterWait =>
        if m_waitRegionLevel g =? 0 then enter KEnterWait th h
        else Next (update_gc th (set_wait (S (m_waitRegionLevel g)))) h
      | ULeaveWait =>
        check (negb (m_waitRegionLevel g =? 0))
          (if 1 <? m_waitRegionLevel g then Next (update_gc th (set_wait (m_waitRegionLevel g - 1))) h
           else enter KLeaveWait th h)
      | UEnterNoCollect =>
        check (m_waitRegionLevel g =? 0)
          (if m_noCollectRegionLevel g =? 0 then enter KEnterNoCollect th h
           else Next (update_gc th (set_nocoll (S (m_noCollectRegionLevel g)))) h)
      | ULeaveNoCollect canCollectNow =>
        check ((m_waitRegionLevel g =? 0) && negb (m_noCollectRegionLevel g =? 0))
          (if 1 <? m_noCollectRegionLevel g
           then Next (update_gc th (set_nocoll (m_noCollectRegionLevel g - 1))) h
           else enter (KLeaveNoCollect canCollectNow) th h)
      | _ => check (m_waitRegionLevel g =? 0) (safePoint ToUser th h)
      end
    end
  end.

(** *** One step of a thread *)

Definition exec (mutators : nat) (t : tid) (a : action) (th : thread) (h : heap) : outcome :=
  match a, t_pc th with
  | ACall u, Run => user_call u th h
  | ACall _, _ => Blocked
  | AGo _ _, Run => Blocked
  | AGo _ _, Locked k im => op_body mutators k im th h
  | AGo _ flag, (Park _ | ParkDec _ | ParkWait _ | ParkLeave _ | ParkDec2 _ _) => park_step flag th h
  | AGo _ _, (NLock _ | NCheck _ | NWait _ | MLock _ | MCheck _ | MSafe _ | MWait _ | MRelock _ | MRecheck _) =>
    waitIdleAndLock_step t th h
  | AGo _ _, (SReset _ _ | SCount _ _ | SState _ _ | SIdle _ _ | SUnlock _ _ | SProtect _ _ | SWait _ _) =>
    stopTheWorld_step th h
  | AGo _ _, (RProtect _ _ _ | RCount _ _ _ | RState _ _ _ | RSignal _ _ _ | RWait _ _ _) =>
    resumeTheWorld_step th h
  | AGo alive flag, _ => phase_step t alive flag th h
  end.

(** *** The system *)

Record system := mkSystem { s_threads : threads; s_heap : heap }.

Definition count (P : thread → bool) (ths : threads) : nat :=
  length (filter (λ '(_, th), P th = true) (map_to_list ths)).

Definition isRegistered (th : thread) : bool := bool_decide (is_Some (t_gc th)).

(** [m_mutatorThreadList.getCount()] *)
Definition mutatorCount (ths : threads) : nat := count isRegistered ths.

Inductive sys_outcome := SysBlocked | SysFailed | SysNext (s : system).

Definition sys_exec (t : tid) (a : action) (s : system) : sys_outcome :=
  match s_threads s !! t with
  | None => SysBlocked
  | Some th =>
    match exec (mutatorCount (s_threads s)) t a th (s_heap s) with
    | Blocked => SysBlocked
    | Failed => SysFailed
    | Next th' h' => SysNext (mkSystem (<[t := th']> (s_threads s)) h')
    end
  end.

(** The threads of the process, not registered yet. *)
Definition initial (md : mode) (allocTrigger periodTrigger : N) (ts : list tid) : system :=
  mkSystem (list_to_map ((λ t, (t, mkThread Run None [])) <$> ts)) (newHeap md allocTrigger periodTrigger).

Definition step (s s' : system) : Prop := ∃ t a, sys_exec t a s = SysNext s'.

Definition reachable (s : system) : Prop :=
  ∃ md at_ pt ts, rtc step (initial md at_ pt ts) s.

(** A schedule, as a list of steps. *)
Fixpoint run (sched : list (tid * action)) (s : system) : sys_outcome :=
  match sched with
  | [] => SysNext s
  | (t, a) :: sched =>
    match sys_exec t a s with SysNext s' => run sched s' | o => o end
  end.
