(* ===== verification/GcThreadsInv.v ===== *)
(** * Threads and the heap: the invariant

    The invariant of the transition system of [GcThreads] and its consequences:
    the counters are exact, there is one collector, no internal assertion fails,
    the world is stopped while the collector marks, and no wakeup is lost. *)

From S2P Require Import Prelude GcThreads.

(** ** Counting threads *)

Section counting.
Implicit Types (P Q R : thread → bool) (ths : threads).

Lemma count_delete P ths t th : ths !! t = Some th →
  count P ths = Nat.b2n (P th) + count P (delete t ths).
Proof.
  intros Ht. unfold count. rewrite <- (insert_delete_id ths t th Ht) at 1.
  rewrite (map_to_list_insert (delete t ths) t th) by apply lookup_delete_eq.
  rewrite filter_cons. case_decide as Hd; simpl; destruct (P th); simpl; congruence || lia.
Qed.

Lemma count_insert P ths t th th' : ths !! t = Some th →
  count P (<[t := th']> ths) + Nat.b2n (P th) = count P ths + Nat.b2n (P th').
Proof.
  intros Ht. rewrite (count_delete P ths t th Ht).
  rewrite (count_delete P (<[t := th']> ths) t th') by apply lookup_insert_eq.
  rewrite delete_insert_eq. lia.
Qed.

Lemma count_pos P ths t th : ths !! t = Some th → P th = true → 1 ≤ count P ths.
Proof.
  intros Ht HP. unfold count. apply elem_of_map_to_list in Ht.
  assert (Hin : (t, th) ∈ filter (λ '(_, th), P th = true) (map_to_list ths))
    by (by apply list_elem_of_filter).
  destruct (filter _ _); [by apply elem_of_nil in Hin|simpl; lia].
Qed.

Lemma count_zero P ths t th : count P ths = 0 → ths !! t = Some th → P th = false.
Proof.
  intros Hc Ht. destruct (P th) eqn:HP; [|done]. pose proof (count_pos P ths t th Ht HP). lia.
Qed.

Lemma count_sum P Q R ths :
  (∀ t th, ths !! t = Some th → Nat.b2n (P th) = Nat.b2n (Q th) + Nat.b2n (R th)) →
  count P ths = count Q ths + count R ths.
Proof.
  intros Hs. unfold count.
  assert (Hl : ∀ x, x ∈ map_to_list ths → Nat.b2n (P x.2) = Nat.b2n (Q x.2) + Nat.b2n (R x.2)).
  { intros [t th] Hx%elem_of_map_to_list. by apply (Hs t). }
  clear Hs. induction (map_to_list ths) as [|[t th] l IH]; [done|].
  rewrite !filter_cons. specialize (Hl (t, th) (list_elem_of_here _ _)) as Hx. simpl in Hx.
  rename IH into IH'. assert (IH := IH' (λ x Hin, Hl x (list_elem_of_further _ _ _ Hin))).
  repeat case_decide; destruct (P th), (Q th), (R th); simpl in *; congruence || lia.
Qed.

Lemma count_le P Q ths : (∀ t th, ths !! t = Some th → P th = true → Q th = true) →
  count P ths ≤ count Q ths.
Proof.
  intros Hs. unfold count. apply filter_length_le. intros [t th] Hx%elem_of_map_to_list. by apply (Hs t).
Qed.

Lemma count_none P ths : (∀ t th, ths !! t = Some th → P th = false) → count P ths = 0.
Proof.
  intros Hs. unfold count. destruct (filter _ _) as [|[t th] l] eqn:Hf; [done|]. exfalso.
  assert (Hin : (t, th) ∈ filter (λ '(_, th), P th = true) (map_to_list ths)) by (rewrite Hf; left).
  apply list_elem_of_filter in Hin as [HP Hx%elem_of_map_to_list]. rewrite (Hs t th Hx) in HP. done.
Qed.
End counting.

(** ** The invariant *)

(** The levels of a thread; 0 when it is not registered. *)
Definition wl (th : thread) : nat := match t_gc th with Some g => m_waitRegionLevel g | None => 0 end.
Definition nl (th : thread) : nat := match t_gc th with Some g => m_noCollectRegionLevel g | None => 0 end.
Definition sf (th : thread) : bool := match t_gc th with Some g => m_isSafePoint g | None => false end.

Definition is_owner (p : pc) : bool :=
  match p with
  | SReset _ _ | SCount _ _ | SState _ _ | SIdle _ _ | SUnlock _ _ | SProtect _ _ | SWait _ _
  | GMark _ _ | GBuild _ _ | GSweep _ _ | GAbort _
  | RProtect _ _ _ | RCount _ _ _ | RState _ _ _ | RSignal _ _ _ | RWait _ _ _
  | FLock _ _ | FIdle _ _ | FSignal _ | FUnlock _ => true
  | _ => false
  end.

Definition holds (p : pc) : bool :=
  match p with
  | NCheck _ | MCheck _ | MRecheck _ | Locked _ _
  | SReset _ _ | SCount _ _ | SState _ _ | SIdle _ _ | SUnlock _ _
  | FIdle _ _ | FSignal _ | FUnlock _ => true
  | _ => false
  end.

Definition waits (th : thread) : bool := negb (wl th =? 0).
Definition nocollects (th : thread) : bool := negb (nl th =? 0).

Definition parked (th : thread) : bool :=
  match t_pc th with ParkWait _ | ParkLeave _ | ParkDec2 _ _ => true | _ => false end.

(** A mutator the collector waits for: running, not the collector, not parked. *)
Definition pend (th : thread) : bool :=
  isRegistered th && (wl th =? 0) && negb (is_owner (t_pc th)) &&
  match t_pc th with ParkWait _ => false | _ => true end.

(** What an operation needs of a thread that is not, or is, a running mutator. *)
Definition op_other (k : op) (th : thread) : Prop :=
  match k with
  | KRegister => t_gc th = None
  | KLeaveWait => wl th = 1
  | KSetSizeTriggers _ _ | KCollect | KAbort | KAlloc _ => True
  | _ => False
  end.

Definition op_mutator (k : op) (th : thread) : Prop :=
  match k with
  | KRegister | KLeaveWait => False
  | KEnterNoCollect | KUnregister => nl th = 0
  | KLeaveNoCollect _ => nl th = 1
  | _ => True
  end.

Definition resume_ok (r : resume_point) (th : thread) : Prop :=
  match r with ToUser => True | ToLoop k => op_mutator k th end.

Definition job_ok (j : job) (th : thread) : Prop :=
  match j with JCollect (Some _) => isMutatorThread th = true | _ => True end.

Definition pc_ok (th : thread) : Prop :=
  match t_pc th with
  | Run => sf th = false
  | NLock k | NCheck k | NWait k | Locked k false =>
    sf th = false ∧ isMutatorThread th = false ∧ op_other k th
  | MLock k | MCheck k | MSafe k | Locked k true =>
    sf th = false ∧ isMutatorThread th = true ∧ op_mutator k th
  | MWait k | MRelock k | MRecheck k =>
    sf th = false ∧ isRegistered th = true ∧ wl th = 1 ∧ op_mutator k th
  | Park r | ParkDec2 r _ => sf th = false ∧ isMutatorThread th = true ∧ resume_ok r th
  | ParkDec r | ParkWait r | ParkLeave r => sf th = true ∧ isMutatorThread th = true ∧ resume_ok r th
  | SReset j _ | SCount j _ | SState j _ | SIdle j _ | SUnlock j _ | SProtect j _ | SWait j _
  | RProtect j _ _ | RCount j _ _ | RState j _ _ | RSignal j _ _ | RWait j _ _
  | FLock j _ | FIdle j _ | FSignal j | FUnlock j => sf th = false ∧ job_ok j th
  | GMark a _ | GBuild a _ | GSweep a _ => sf th = false ∧ job_ok (JCollect a) th
  | GAbort _ => sf th = false
  end.

(** The nest levels of the call sites of a thread count down to 0. *)
Fixpoint sites_ok (l : list CallSite) : Prop :=
  match l with [] => True | c :: l => c_nestLevel c = length l ∧ sites_ok l end.

Definition local_ok (th : thread) : Prop :=
  (t_callSites th = [] ↔ t_gc th = None) ∧ sites_ok (t_callSites th) ∧ pc_ok th.

(** What a thread other than the collector knows of the phase. *)
Definition st_ok (p : pc) (st : State) : Prop :=
  match p with
  | Locked _ _ => st = State_Idle
  | Park _ | ParkDec _ => st = State_StopTheWorld
  | ParkLeave _ | ParkDec2 _ _ => st = State_ResumeTheWorld
  | _ => True
  end.

Definition thread_ok (h : heap) (t : tid) (th : thread) : Prop :=
  local_ok th ∧ (holds (t_pc th) = true ↔ m_lock h = Some t) ∧ st_ok (t_pc th) (m_state h).

(** The resume event is not signalled while someone may wait for it. *)
Definition no_resume (n : nat) (h : heap) : Prop :=
  n ≠ 0 → m_mode h ≠ GuardPagePosix → m_resumeEvent h = false.

Definition guards (h : heap) : bool := bool_decide (m_mode h ≠ SimpleSafePoint).

(** Nothing is going on: no handshake, nobody parked. *)
Definition quiet (h : heap) (pk : nat) : Prop :=
  m_handshakeCount h = 0 ∧ pk = 0 ∧ m_handshakeSignal h = 0 ∧ m_guardPage h = false.

(** The world is stopping: [pd] threads have not parked yet, [pk] have. *)
Definition stopping (h : heap) (n pd pk : nat) : Prop :=
  m_handshakeCount h = pd ∧ n = pd + pk ∧
  m_handshakeSignal h = (if (pd =? 0) && negb (n =? 0) then 1 else 0) ∧ no_resume n h.

(** The world is stopped. *)
Definition stopped_world (h : heap) (n pd pk : nat) : Prop :=
  m_handshakeCount h = 0 ∧ pd = 0 ∧ pk = n ∧ m_handshakeSignal h = 0 ∧ no_resume n h.

Definition resuming (h : heap) (n pk : nat) : Prop :=
  m_handshakeCount h = pk ∧ n ≠ 0 ∧
  m_handshakeSignal h = (if pk =? 0 then 1 else 0) ∧ m_guardPage h = false.

Definition guard_at (n : nat) (h : heap) : Prop := m_guardPage h = negb (n =? 0) && guards h.

(** The phase after stopping: [State_StopTheWorld] of an [abort]. *)
Definition stopped_state (j : job) : State :=
  match j with JCollect _ => State_Sweep | JAbort => State_StopTheWorld end.

(** What holds of the heap when the collector, if there is one, is at [p]. *)
Definition phase_ok (p : option pc) (h : heap) (pd pk : nat) : Prop :=
  match p with
  | None => m_state h = State_Idle ∧ quiet h pk
  | Some p =>
    match p with
    | SReset _ n => m_state h = State_Idle ∧ quiet h pk ∧ n = pd
    | SCount _ n => m_state h = State_Idle ∧ quiet h pk ∧ n = pd ∧ n ≠ 0 ∧ no_resume n h
    | SState _ n => m_state h = State_Idle ∧ stopping h n pd pk ∧ pk = 0 ∧ m_guardPage h = false
    | SIdle _ n | SUnlock _ n =>
      m_state h = State_StopTheWorld ∧ stopping h n pd pk ∧ m_guardPage h = false
    | SProtect _ n =>
      m_state h = State_StopTheWorld ∧ stopping h n pd pk ∧ m_guardPage h = false ∧ n ≠ 0 ∧ guards h = true
    | SWait _ n => m_state h = State_StopTheWorld ∧ stopping h n pd pk ∧ guard_at n h ∧ n ≠ 0
    | GMark _ n | GAbort n => m_state h = State_StopTheWorld ∧ stopped_world h n pd pk ∧ guard_at n h
    | GBuild _ n => m_state h = State_Mark ∧ stopped_world h n pd pk ∧ guard_at n h
    | GSweep _ n =>
      (m_state h = State_Mark ∨ m_state h = State_BuildDestructGraph) ∧ stopped_world h n pd pk ∧ guard_at n h
    | RProtect j _ n => m_state h = stopped_state j ∧ stopped_world h n pd pk ∧ guard_at n h
    | RCount j _ n => m_state h = stopped_state j ∧ stopped_world h n pd pk ∧ n ≠ 0 ∧ m_guardPage h = false
    | RState j _ n => m_state h = stopped_state j ∧ pd = 0 ∧ pk = n ∧ resuming h n pk ∧ no_resume n h
    | RSignal _ _ n => m_state h = State_ResumeTheWorld ∧ resuming h n pk ∧ m_mode h ≠ GuardPagePosix
    | RWait _ _ n =>
      m_state h = State_ResumeTheWorld ∧ resuming h n pk ∧
      (m_mode h ≠ GuardPagePosix → m_resumeEvent h = true)
    | FLock j _ | FIdle j _ =>
      (m_state h = State_ResumeTheWorld ∨ (m_state h = stopped_state j ∧ pd = 0)) ∧ quiet h pk
    | FSignal _ | FUnlock _ => m_state h = State_Idle ∧ quiet h pk
    | _ => False
    end
  end.

(** [o] is the collector. *)
Record inv (o : option (tid * pc)) (s : system) : Prop := mkInv {
  inv_thread t th : s_threads s !! t = Some th → thread_ok (s_heap s) t th;
  inv_owner t th : s_threads s !! t = Some th → is_owner (t_pc th) = true → o = Some (t, t_pc th);
  inv_owner_inv t p : o = Some (t, p) →
    ∃ th, s_threads s !! t = Some th ∧ t_pc th = p ∧ is_owner p = true;
  inv_waiting : m_waitingMutatorThreadCount (s_heap s) = count waits (s_threads s);
  inv_noCollect : count nocollects (s_threads s) ≤ m_noCollectMutatorThreadCount (s_heap s);
  inv_phase : phase_ok (snd <$> o) (s_heap s) (count pend (s_threads s)) (count parked (s_threads s))
}.

(** ** One step of one thread *)

Definition next_owner (o : option (tid * pc)) (t : tid) (p p' : pc) : option (tid * pc) :=
  if is_owner p' then Some (t, p') else if is_owner p then None else o.

Lemma inv_update o ths h t th th' h' :
  inv o (mkSystem ths h) → ths !! t = Some th →
  local_ok th' → (holds (t_pc th') = true ↔ m_lock h' = Some t) → st_ok (t_pc th') (m_state h') →
  (∀ t', t' ≠ t → m_lock h = Some t' ↔ m_lock h' = Some t') →
  (m_state h' = m_state h ∨
   ∀ t2 th2, t2 ≠ t → ths !! t2 = Some th2 → st_ok (t_pc th2) (m_state h')) →
  (is_owner (t_pc th') = true → is_owner (t_pc th) = true ∨ o = None) →
  m_waitingMutatorThreadCount h' + Nat.b2n (waits th) =
    m_waitingMutatorThreadCount h + Nat.b2n (waits th') →
  m_noCollectMutatorThreadCount h + Nat.b2n (nocollects th') ≤
    m_noCollectMutatorThreadCount h' + Nat.b2n (nocollects th) →
  (∀ pd pk, pd + Nat.b2n (pend th) = count pend ths + Nat.b2n (pend th') →
     pk + Nat.b2n (parked th) = count parked ths + Nat.b2n (parked th') →
     phase_ok (snd <$> next_owner o t (t_pc th) (t_pc th')) h' pd pk) →
  inv (next_owner o t (t_pc th) (t_pc th')) (mkSystem (<[t := th']> ths) h').
Proof.
  intros [Hth Hown Hoi Hw Hnc Hph] Ht Hloc Hhold Hst Hlock Hstate Howner Hw' Hnc' Hph'. simpl in *.
  split; simpl.
  - intros t2 th2 [[<- <-]|[Hne H2]]%lookup_insert_Some; [done|].
    destruct (Hth t2 th2 H2) as (Hl2 & Hh2 & Hs2). split; [done|]. split.
    + rewrite Hh2. by apply Hlock.
    + destruct Hstate as [->|Hs]; [done|]. by apply (Hs t2).
  - intros t2 th2 [[<- <-]|[Hne H2]]%lookup_insert_Some Ho2; unfold next_owner.
    + by rewrite Ho2.
    + pose proof (Hown t2 th2 H2 Ho2) as Ho. rewrite Ho in *.
      assert (Hno : is_owner (t_pc th) = true → False) by (intros H1; by injection (Hown t th Ht H1)).
      destruct (is_owner (t_pc th')) eqn:H'; [by destruct (Howner eq_refl)|].
      by destruct (is_owner (t_pc th)).
  - intros t2 p. unfold next_owner. destruct (is_owner (t_pc th')) eqn:H'.
    + intros [= <- <-]. exists th'. by rewrite lookup_insert_eq.
    + destruct (is_owner (t_pc th)) eqn:Ho; [done|]. intros ->.
      destruct (Hoi t2 p eq_refl) as (th2 & H2 & Hp & Ho2). exists th2.
      rewrite lookup_insert_ne; [done|]. intros <-. simplify_eq. congruence.
  - pose proof (count_insert waits ths t th th' Ht). lia.
  - pose proof (count_insert nocollects ths t th th' Ht). lia.
  - apply Hph'; by apply count_insert.
Qed.

(** *** Facts of the phase *)

Lemma phase_ext p h h' pd pk :
  m_state h' = m_state h → m_mode h' = m_mode h → m_resumeEvent h' = m_resumeEvent h →
  m_handshakeCount h' = m_handshakeCount h → m_handshakeSignal h' = m_handshakeSignal h →
  m_guardPage h' = m_guardPage h → phase_ok p h pd pk → phase_ok p h' pd pk.
Proof.
  intros Hs Hm Hr Hc Hg Hp. unfold phase_ok, quiet, stopping, stopped_world, resuming, guard_at, guards, no_resume.
  by rewrite Hs, Hm, Hr, Hc, Hg, Hp.
Qed.

Ltac open_phase Hp :=
  unfold phase_ok, quiet, stopping, stopped_world, resuming, guard_at, guards, no_resume, stopped_state in *;
  simpl in *; destruct_and?; destruct_or?; destruct_and?.

(** The phase does not fit the state. *)
Ltac bad_state :=
  repeat match goal with
  | H : _ ∨ _ |- _ => destruct H
  | H : _ = match ?j with JCollect _ => _ | JAbort => _ end |- _ => destruct j
  end; congruence.

(** While a mutator runs, the world is being stopped or resumed. *)
Lemma running_phase p h pd pk pd' :
  phase_ok p h pd pk → 1 ≤ pd → m_state h ≠ State_StopTheWorld → m_state h ≠ State_Idle →
  phase_ok p h pd' pk.
Proof.
  intros Hp Hpd Hst Hid. destruct p as [ [] |]; open_phase Hp; try done; try lia; try congruence.
  all: try (destruct j; congruence || lia).
  all: split; [by left|done].
Qed.

(** A guard page is hit while the world is being stopped. *)
Lemma guard_state p h pd pk :
  phase_ok p h pd pk → 1 ≤ pd → m_guardPage h = true → m_state h = State_StopTheWorld.
Proof.
  intros Hp Hpd Hg. destruct p as [ [] |]; open_phase Hp; congruence || lia.
Qed.

(** A thread parks, and the last one signals. *)
Lemma park_phase p h pd pk n :
  phase_ok p h (S pd) pk → m_state h = State_StopTheWorld → m_handshakeCount h = S n →
  let h' := set_handshakeCount n h in
  phase_ok p (if n =? 0 then signal_handshake h' else h') pd (S pk).
Proof.
  intros Hp Hst Hc h'. unfold h', signal_handshake. destruct p as [ [] |]; open_phase Hp; try congruence.
  all: assert (n = pd) as -> by lia; subst; simpl in *.
  all: destruct (pd =? 0) eqn:Hpd; to_prop; simpl; repeat split; try done; try lia; try congruence.
  all: try (by apply bool_decide_eq_true).
  all: destruct (m_mode h); congruence.
Qed.

(** A thread leaves the safe point, and the last one signals. *)
Lemma leave_phase p h pd pk n :
  phase_ok p h pd (S pk) → m_state h = State_ResumeTheWorld → m_handshakeCount h = S n →
  let h' := set_handshakeCount n h in
  phase_ok p (if n =? 0 then signal_handshake h' else h') pd pk.
Proof.
  intros Hp Hst Hc h'. unfold h', signal_handshake. destruct p as [ [] |]; open_phase Hp; try congruence; try bad_state.
  all: assert (n = pk) as -> by lia; subst; simpl in *.
  all: destruct (pk =? 0) eqn:Hpd; to_prop; simpl; repeat split; try done; try lia; try congruence.
  all: destruct (m_mode h); congruence.
Qed.

(** Where threads leave safe points, the number of running ones does not matter. *)
Lemma resume_phase p h pd pd' pk :
  phase_ok p h pd pk → m_state h = State_ResumeTheWorld → phase_ok p h pd' pk.
Proof.
  intros Hp Hst. destruct p as [ [] |]; open_phase Hp; try congruence; try (by repeat split);
    try (split; [by left|done]).
  all: bad_state.
Qed.

(** A parked thread is let go only when the world is being resumed. *)
Lemma parked_phase p h pd pk :
  phase_ok p h pd pk → 1 ≤ pk → m_mode h ≠ GuardPagePosix → m_resumeEvent h = true →
  m_state h = State_ResumeTheWorld.
Proof.
  intros Hp Hpk Hm Hr. destruct p as [ [] |]; open_phase Hp; try congruence; try lia.
  all: try (match goal with
            | H : ?n ≠ 0 → m_mode _ ≠ _ → _ |- _ => rewrite H in Hr by (done || lia); discriminate
            end).
Qed.

Section facts.
Context (o : option (tid * pc)) (ths : threads) (h : heap) (t : tid) (th : thread).
Context (Hinv : inv o (mkSystem ths h)) (Ht : ths !! t = Some th).
#[local] Set Default Proof Using "All".
Notation pd := (count pend ths).
Notation pk := (count parked ths).

Lemma owner_phase : is_owner (t_pc th) = true →
  o = Some (t, t_pc th) ∧ phase_ok (Some (t_pc th)) h pd pk.
Proof.
  intros Ho. pose proof (inv_owner o _ Hinv t th Ht Ho) as Heq. split; [done|].
  pose proof (inv_phase o _ Hinv) as Hp. by rewrite Heq in Hp.
Qed.

Lemma idle_holder : holds (t_pc th) = true → is_owner (t_pc th) = false → m_state h = State_Idle → o = None.
Proof.
  intros Hh Hno Hidle. destruct o as [ [t2 p]|] eqn:Heq; [exfalso|done].
  destruct (inv_owner_inv _ _ Hinv t2 p eq_refl) as (th2 & H2 & Hp & Ho2). simpl in H2.
  destruct (inv_thread _ _ Hinv t th Ht) as (_ & Hl & _).
  destruct (inv_thread _ _ Hinv t2 th2 H2) as (_ & Hl2 & _). simpl in *.
  pose proof (proj1 Hl Hh) as Hlt. rewrite Hlt, Hp in Hl2.
  pose proof (inv_phase _ _ Hinv) as Hph. simpl in Hph. rewrite Hidle in Hph.
  assert (t2 = t) as ->.
  { destruct p; simpl in *; try discriminate; try (symmetry; assert (Some t = Some t2) as [= ->];
      [by apply Hl2|done]); destruct_and?; try discriminate; try done;
      destruct_or?; destruct_and?; try discriminate; destruct j; discriminate. }
  congruence.
Qed.

Lemma pend_pos : pend th = true → 1 ≤ pd.
Proof. intros. by eapply count_pos. Qed.

Lemma parked_pos : parked th = true → 1 ≤ pk.
Proof. intros. by eapply count_pos. Qed.
End facts.

(** *** Preservation *)

Ltac open_thread th Hcs Hpc :=
  let p := fresh "p" in let c := fresh "c" in let cs := fresh "cs" in
  let safe := fresh "safe" in let w := fresh "w" in let n := fresh "n" in
  destruct th as [p [ [safe w n]|] [|c cs] ]; simpl in Hcs;
  [by discriminate (proj1 Hcs eq_refl)| |clear Hcs|by discriminate (proj2 Hcs eq_refl)]; try clear Hcs;
  destruct p; try discriminate; unfold pc_ok in Hpc; simpl in Hpc;
  unfold sf, wl, nl, isRegistered, isMutatorThread, getCurrentGcMutatorThread, resume_ok, job_ok,
    op_mutator, op_other in Hpc; simpl in Hpc; destruct_and?; try discriminate; to_prop; subst.

Ltac side_simpl := unfold isMutatorThread, getCurrentGcMutatorThread in *; simpl in *.

Ltac local_tac :=
  unfold local_ok, pc_ok; simpl; split; [split; discriminate || done|];
  split; [done || by split|];
  unfold sf, wl, nl, isRegistered, isMutatorThread, getCurrentGcMutatorThread, resume_ok, job_ok,
    op_mutator, op_other; simpl; repeat split; try done; try assumption; try (apply Nat.eqb_neq; done).

Ltac count_tac :=
  unfold waits, nocollects, pend, parked, isRegistered, wl, nl in *; simpl in *; lia.

(** The conditions of [inv_update] but for the phase. *)
Ltac side :=
  match goal with
  | |- local_ok _ => local_tac
  | Hl : _ = true ↔ _ |- _ = true ↔ _ => first [exact Hl | simpl; split; done]
  | |- st_ok _ _ => simpl in *; congruence || done
  | |- ∀ t', _ → _ ↔ _ => intros; reflexivity
  | Hl : true = true ↔ _ |- ∀ t', _ → _ ↔ _ =>
    let Hx := fresh "Hx" in
    pose proof (proj1 Hl eq_refl) as Hx; simpl in Hx |- *; rewrite Hx; clear; intros; split; congruence
  | Hx : m_lock _ = None |- ∀ t', _ → _ ↔ _ => simpl; rewrite Hx; clear; intros; split; congruence
  | |- _ ∨ _ => left; reflexivity
  | |- _ → _ ∨ _ => simpl; first [done | left; reflexivity | right; reflexivity]
  | |- _ = _ => count_tac
  | |- _ ≤ _ => count_tac
  end.

(** A step of a thread that is not the collector and that changes nothing the
    phase depends on. *)
Ltac same_phase Hph :=
  match goal with
  | |- ∀ pd pk, _ → _ → phase_ok _ _ _ _ =>
    let pd := fresh "pd" in let pk := fresh "pk" in
    intros pd pk ? ?; unfold next_owner; simpl;
    match type of Hph with
    | phase_ok _ _ ?x ?y =>
      replace pd with x by count_tac; replace pk with y by count_tac;
      eapply phase_ext; [..|exact Hph]; reflexivity
    end
  end.

(** A step to or from the idle state of a thread that holds the lock. *)
Ltac idle_phase Hidle Hph :=
  let pd := fresh "pd" in let pk := fresh "pk" in
  intros pd pk ? ?; unfold next_owner; simpl;
  let Hn := fresh "Hn" in pose proof (Hidle eq_refl eq_refl ltac:(assumption)) as Hn;
  match type of Hph with
  | phase_ok _ _ _ ?y => replace pk with y by count_tac
  end; rewrite Hn in Hph |- *; eapply (phase_ext None); [..|exact Hph]; reflexivity.

Lemma safePoint_inv o ths h t th r th' h' :
  inv o (mkSystem ths h) → ths !! t = Some th → safePoint r th h = Next th' h' →
  match t_pc th with Run => r = ToUser | MSafe k => r = ToLoop k | _ => False end →
  isMutatorThread th = true →
  ∃ o', inv o' (mkSystem (<[t := th']> ths) h').
Proof.
  intros Hinv Ht Hs Hr Hm. destruct (inv_thread _ _ Hinv t th Ht) as ((Hcs & Hsites & Hpc) & Hl & Hst).
  pose proof (inv_phase _ _ Hinv) as Hph. simpl in Hph.
  pose proof (pend_pos o ths h t th Hinv Ht) as Hpend.
  unfold safePoint, go in Hs.
  assert (Hhit : isHit h = true → 1 ≤ count pend ths → m_state h = State_StopTheWorld).
  { unfold isHit. intros Hx Hp1. destruct (m_mode h); [by apply bool_decide_eq_true in Hx|..];
      by eapply guard_state. }
  unfold isMutatorThread, getCurrentGcMutatorThread in Hm.
  destruct (isHit h);
    open_thread th Hcs Hpc; simpl in Hr, Hm; try done; try discriminate Hm; to_prop; subst;
    injection Hs as <- <-; eexists; eapply (inv_update _ _ _ _ _ _ _ Hinv Ht).
  all: try side.
  all: try same_phase Hph.
  all: try (apply Hhit; [done|]; by apply Hpend).
Qed.

Lemma wait_step_inv o ths h t th th' h' :
  inv o (mkSystem ths h) → ths !! t = Some th → waitIdleAndLock_step t th h = Next th' h' →
  ∃ o', inv o' (mkSystem (<[t := th']> ths) h').
Proof.
  intros Hinv Ht Hs. destruct (inv_thread _ _ Hinv t th Ht) as ((Hcs & Hsites & Hpc) & Hl & Hst).
  pose proof (inv_phase _ _ Hinv) as Hph. simpl in Hph.
  pose proof (idle_holder o ths h t th Hinv Ht) as Hidle.
  pose proof (pend_pos o ths h t th Hinv Ht) as Hpend.
  unfold waitIdleAndLock_step in Hs. destruct (t_pc th) eqn:Hp; try discriminate Hs.
  6: { apply (safePoint_inv _ _ _ _ _ _ _ _ Hinv Ht Hs); [by rewrite Hp|].
       unfold pc_ok in Hpc. rewrite Hp in Hpc. apply Hpc. }
  all: open_thread th Hcs Hpc; simpl in Hp; simplify_eq; unfold lock, unlock, go, dec in Hs; simpl in Hs.
  all: repeat dmatch_in Hs; simplify_eq/=.
  all: eexists; eapply (inv_update _ _ _ _ _ _ _ Hinv Ht).
  all: try side.
  all: try same_phase Hph.
  all: try idle_phase Hidle Hph.
  - intros pd pk Hpd Hpk. unfold next_owner. simpl.
    replace pk with (count parked ths) by count_tac.
    eapply phase_ext; [..|eapply (running_phase _ _ _ _ pd Hph); [by apply Hpend|done..]]; reflexivity.
Qed.

(** The atomic decrement of the handshake count, parking and leaving. *)
Ltac decrement Hx :=
  match goal with E : (?n =? 0) = _ |- _ => simpl in Hx; rewrite E in Hx end; apply Hx; [|done|done].

Ltac park_tac Hph :=
  let pd := fresh "pd" in let pk := fresh "pk" in let Hx := fresh "Hx" in
  intros pd pk ? ?; unfold next_owner; simpl;
  match type of Hph with
  | phase_ok ?p ?h ?x ?y =>
    match goal with Hn : m_handshakeCount h = S ?n |- _ =>
      replace pk with (S y) by count_tac; pose proof (park_phase p h pd y n) as Hx; decrement Hx;
      replace (S pd) with x by count_tac; exact Hph
    end
  end.

Ltac leave_tac Hph :=
  let pd := fresh "pd" in let pk := fresh "pk" in let Hx := fresh "Hx" in
  intros pd pk ? ?; unfold next_owner; simpl;
  match type of Hph with
  | phase_ok ?p ?h ?x ?y =>
    match goal with Hn : m_handshakeCount h = S ?n |- _ =>
      pose proof (leave_phase p h pd pk n) as Hx; decrement Hx;
      replace pd with x by count_tac; replace (S pk) with y by count_tac; exact Hph
    end
  end.

Lemma park_step_inv flag o ths h t th th' h' :
  inv o (mkSystem ths h) → ths !! t = Some th → park_step flag th h = Next th' h' →
  ∃ o', inv o' (mkSystem (<[t := th']> ths) h').
Proof.
  intros Hinv Ht Hs. destruct (inv_thread _ _ Hinv t th Ht) as ((Hcs & Hsites & Hpc) & Hl & Hst).
  pose proof (inv_phase _ _ Hinv) as Hph. simpl in Hph.
  pose proof (parked_pos o ths h t th Hinv Ht) as Hpark.
  unfold park_step, atomicDec_handshake, go, dec, check in Hs.
  open_thread th Hcs Hpc; simpl in Hs; simpl in Hst; try discriminate Hs.
  3: assert (Hres : m_state h = State_ResumeTheWorld) by
       (repeat (dmatch_in Hs; try discriminate Hs); try done;
        (eapply parked_phase; [exact Hph|by apply Hpark|congruence|done])).
  all: try (destruct r); repeat (dmatch_in Hs; try discriminate Hs); simplify_eq/=.
  all: eexists; eapply (inv_update _ _ _ _ _ _ _ Hinv Ht).
  all: try side; try same_phase Hph.
  all: try park_tac Hph.
  all: try leave_tac Hph.
  all: intros pd pk Hpd Hpk; unfold next_owner; simpl;
       replace pk with (count parked ths) by count_tac;
       by eapply resume_phase.
Qed.

(** The collector changes the phase: nobody else depends on it. *)
Lemma state_change o ths h t th :
  inv o (mkSystem ths h) → ths !! t = Some th →
  holds (t_pc th) = true ∨ m_state h ≠ State_Idle →
  count pend ths = 0 ∨ m_state h ≠ State_StopTheWorld →
  count parked ths = 0 ∨ m_state h ≠ State_ResumeTheWorld →
  ∀ st t2 th2, t2 ≠ t → ths !! t2 = Some th2 → st_ok (t_pc th2) st.
Proof.
  intros Hinv Ht Hh Hp Hk st t2 th2 Hne H2.
  destruct (inv_thread _ _ Hinv t th Ht) as (_ & Hl & _).
  destruct (inv_thread _ _ Hinv t2 th2 H2) as ((Hcs & Hsites & Hpc) & Hl2 & Hst2). simpl in *.
  pose proof (pend_pos o ths h t2 th2 Hinv H2) as Hpend.
  pose proof (parked_pos o ths h t2 th2 Hinv H2) as Hpark.
  open_thread th2 Hcs Hpc; simpl in *; try done; exfalso.
  all: try (destruct Hp as [Hp|Hp]; [rewrite Hp in Hpend; by apply (Nat.nle_succ_0 0), Hpend|congruence]).
  all: try (destruct Hk as [Hk|Hk]; [rewrite Hk in Hpark; by apply (Nat.nle_succ_0 0), Hpark|congruence]).
  all: destruct Hh as [Hh|Hh]; [|congruence];
    pose proof (proj1 Hl Hh); pose proof (proj1 Hl2 eq_refl); congruence.
Qed.

(** The phase after a step of the collector. *)
Ltac owner_tac Hph :=
  let pd := fresh "pd" in let pk := fresh "pk" in let Hpd := fresh "Hpd" in let Hpk := fresh "Hpk" in
  intros pd pk Hpd Hpk; unfold next_owner; simpl;
  match goal with |- context [count pend ?ths] => idtac | _ => idtac end;
  match type of Hpd with _ = count ?P ?ths + _ => replace pd with (count P ths) by count_tac end;
  match type of Hpk with _ = count ?P ?ths + _ => replace pk with (count P ths) by count_tac end;
  clear Hpd Hpk; open_phase Hph; to_prop; repeat split; try done; try lia; try congruence;
  try (by right); try (by left);
  repeat match goal with
  | |- context [?x =? 0] => destruct (x =? 0) eqn:?; to_prop; simpl in *
  | H : context [?x =? 0] |- _ => destruct (x =? 0) eqn:?; to_prop; simpl in *
  end; repeat case_bool_decide; simpl in *; try lia; try congruence.

(** The others after the collector has changed [m_state]. *)
Ltac change_tac Hch Hph :=
  right; apply Hch; open_phase Hph;
  first [by left | right; bad_state | left; congruence | left; solve [auto] ].

(** The phase when the collector becomes an ordinary thread again. *)
Ltac done_tac Hph :=
  let pd := fresh "pd" in let pk := fresh "pk" in let Hpd := fresh "Hpd" in let Hpk := fresh "Hpk" in
  intros pd pk Hpd Hpk; unfold next_owner; simpl;
  match type of Hpk with _ = count ?P ?ths + _ => replace pk with (count P ths) by count_tac end;
  clear Hpd Hpk; open_phase Hph; repeat split; done.

Lemma stop_step_inv o ths h t th th' h' :
  inv o (mkSystem ths h) → ths !! t = Some th → stopTheWorld_step th h = Next th' h' →
  ∃ o', inv o' (mkSystem (<[t := th']> ths) h').
Proof.
  intros Hinv Ht Hs. destruct (inv_thread _ _ Hinv t th Ht) as ((Hcs & Hsites & Hpc) & Hl & Hst).
  pose proof (owner_phase o ths h t th Hinv Ht) as Hown.
  pose proof (state_change o ths h t th Hinv Ht) as Hch.
  unfold stopTheWorld_step, unlock, go in Hs.
  open_thread th Hcs Hpc; simpl in Hs; try discriminate Hs; simpl in Hst.
  all: destruct (Hown eq_refl) as [-> Hph]; clear Hown.
  all: try match goal with j : job |- _ => destruct j as [a|] end.
  all: repeat (dmatch_in Hs; try discriminate Hs); simplify_eq/=.
  all: eexists; eapply (inv_update _ _ _ _ _ _ _ Hinv Ht).
  all: try side.
  all: try owner_tac Hph.
  all: change_tac Hch Hph.
Qed.

Lemma resume_step_inv o ths h t th th' h' :
  inv o (mkSystem ths h) → ths !! t = Some th → resumeTheWorld_step th h = Next th' h' →
  ∃ o', inv o' (mkSystem (<[t := th']> ths) h').
Proof.
  intros Hinv Ht Hs. destruct (inv_thread _ _ Hinv t th Ht) as ((Hcs & Hsites & Hpc) & Hl & Hst).
  pose proof (owner_phase o ths h t th Hinv Ht) as Hown.
  pose proof (state_change o ths h t th Hinv Ht) as Hch.
  unfold resumeTheWorld_step, unlock, go in Hs.
  open_thread th Hcs Hpc; simpl in Hs; try discriminate Hs; simpl in Hst.
  all: destruct (Hown eq_refl) as [-> Hph]; clear Hown.
  all: try match goal with j : job |- _ => destruct j as [a|] end.
  all: repeat (dmatch_in Hs; try discriminate Hs); simplify_eq/=.
  all: eexists; eapply (inv_update _ _ _ _ _ _ _ Hinv Ht).
  all: try side.
  all: try owner_tac Hph.
  all: change_tac Hch Hph.
Qed.

Lemma phase_step_inv alive flag o ths h t th th' h' :
  inv o (mkSystem ths h) → ths !! t = Some th → phase_step t alive flag th h = Next th' h' →
  ∃ o', inv o' (mkSystem (<[t := th']> ths) h').
Proof.
  intros Hinv Ht Hs. destruct (inv_thread _ _ Hinv t th Ht) as ((Hcs & Hsites & Hpc) & Hl & Hst).
  pose proof (owner_phase o ths h t th Hinv Ht) as Hown.
  pose proof (state_change o ths h t th Hinv Ht) as Hch.
  unfold phase_step, abort_body, enter, lock, unlock, go in Hs.
  open_thread th Hcs Hpc; simpl in Hs; try discriminate Hs; simpl in Hst.
  all: destruct (Hown eq_refl) as [-> Hph]; clear Hown.
  all: try match goal with j : job |- _ => destruct j as [ [a|] |] end.
  all: repeat (dmatch_in Hs; try discriminate Hs); simplify_eq/=.
  all: eexists; eapply (inv_update _ _ _ _ _ _ _ Hinv Ht).
  all: try side.
  all: try owner_tac Hph.
  all: try done_tac Hph.
  all: change_tac Hch Hph.
Qed.

(** In the idle state every registered thread waits or runs. *)
Lemma idle_count ths h : inv None (mkSystem ths h) →
  mutatorCount ths = count waits ths + count pend ths.
Proof.
  intros Hinv. apply count_sum. intros t th Ht.
  pose proof (inv_owner _ _ Hinv t th Ht) as Ho.
  destruct (inv_phase _ _ Hinv) as (_ & _ & Hk & _). simpl in Ho, Hk.
  pose proof (count_zero parked ths t th Hk Ht) as Hp.
  unfold pend, waits, isRegistered, wl, parked in *.
  destruct (is_owner (t_pc th)); [by discriminate Ho|].
  destruct (t_gc th) as [g|]; simpl; [|done].
  destruct (m_waitRegionLevel g =? 0); simpl; [|done]. by destruct (t_pc th).
Qed.

Ltac quiet_tac Hph :=
  let pd := fresh "pd" in let pk := fresh "pk" in let Hpd := fresh "Hpd" in let Hpk := fresh "Hpk" in
  intros pd pk Hpd Hpk; unfold next_owner; simpl;
  match type of Hpk with _ = count ?P ?ths + _ => replace pk with (count P ths) by count_tac end;
  unfold pend, wl, isRegistered in Hpd; simpl in Hpd;
  try match goal with
  | H : ?w ≠ 0 |- _ => rewrite (proj2 (Nat.eqb_neq w 0) H) in Hpd; simpl in Hpd
  end;
  open_phase Hph; repeat split; try done; count_tac.

Lemma op_body_inv k im o ths h t th th' h' :
  inv o (mkSystem ths h) → ths !! t = Some th → t_pc th = Locked k im →
  op_body (mutatorCount ths) k im th h = Next th' h' →
  ∃ o', inv o' (mkSystem (<[t := th']> ths) h').
Proof.
  intros Hinv Ht Hp Hs. destruct (inv_thread _ _ Hinv t th Ht) as ((Hcs & Hsites & Hpc) & Hl & Hst).
  pose proof (idle_holder o ths h t th Hinv Ht) as Hidle. rewrite Hp in Hidle, Hst. simpl in Hst.
  specialize (Hidle eq_refl eq_refl Hst) as ->.
  pose proof (inv_phase _ _ Hinv) as Hph. simpl in Hph.
  pose proof (inv_waiting _ _ Hinv) as Hw. simpl in Hw.
  rewrite (idle_count ths h Hinv) in Hs.
  unfold op_body, collect, setSizeTriggers, collect_l, stopTheWorld_l, alloc_body, unlock, go, dec, check in Hs.
  destruct im; open_thread th Hcs Hpc; simpl in Hp; try discriminate Hp; simplify_eq; destruct k;
    simpl in Hs; unfold nl, wl in *; simpl in *; destruct_and?; try done; to_prop; subst.
  all: repeat (dmatch_in Hs; try discriminate Hs); simplify_eq/=.
  all: eexists; eapply (inv_update _ _ _ _ _ _ _ Hinv Ht).
  all: try side.
  all: quiet_tac Hph.
Qed.

(** Case analysis on the levels. *)
Ltac level_tac :=
  unfold waits, nocollects, wl, nl; simpl; to_prop;
  repeat match goal with
  | |- context [?x =? 0] => destruct (x =? 0) eqn:?; to_prop; simpl
  | H : _ || _ = true |- _ => apply orb_true_iff in H as [H|H]; to_prop
  | H : (_ =? _) = true |- _ => apply Nat.eqb_eq in H
  | H : (_ <? _) = true |- _ => apply Nat.ltb_lt in H
  end; lia.

Lemma user_call_inv u o ths h t th th' h' :
  inv o (mkSystem ths h) → ths !! t = Some th → t_pc th = Run → user_call u th h = Next th' h' →
  ∃ o', inv o' (mkSystem (<[t := th']> ths) h').
Proof.
  intros Hinv Ht Hp Hs.
  assert (Hu : u = USafePoint ∨ u ≠ USafePoint) by (destruct u; auto).
  destruct Hu as [->|Hu].
  { simpl in Hs. unfold check in Hs. destruct (getCurrentGcMutatorThread th) as [g|] eqn:Hg; [|done].
    destruct (m_waitRegionLevel g =? 0) eqn:Hw; [|done].
    apply (safePoint_inv _ _ _ _ _ ToUser _ _ Hinv Ht Hs); [by rewrite Hp|].
    unfold isMutatorThread. by rewrite Hg. }
  destruct (inv_thread _ _ Hinv t th Ht) as ((Hcs & Hsites & Hpc) & Hl & Hst).
  pose proof (inv_phase _ _ Hinv) as Hph. simpl in Hph.
  unfold user_call, uninitializeCallSite, getCurrentGcMutatorThread, enter, check in Hs.
  open_thread th Hcs Hpc; simpl in Hp; try discriminate Hp; destruct u; simpl in Hs; try done; to_prop; subst.
  all: repeat (dmatch_in Hs; try discriminate Hs); simplify_eq/=; side_simpl; try congruence; to_prop; subst.
  all: eexists; eapply (inv_update _ _ _ _ _ _ _ Hinv Ht).
  all: try side.
  all: try same_phase Hph.
  all: try (unfold local_ok, pc_ok; simpl; split; [|by destruct_and?; repeat split; lia || done];
            destruct cs; [by (split; discriminate) || (simpl in Hsites; lia)|by split; discriminate]).
  all: try level_tac.
  all: match goal with w : nat |- _ => destruct w as [|[|w]]; try lia; same_phase Hph end.
Qed.

(** ** The system *)

Lemma exec_inv o ths h t a th th' h' :
  inv o (mkSystem ths h) → ths !! t = Some th → exec (mutatorCount ths) t a th h = Next th' h' →
  ∃ o', inv o' (mkSystem (<[t := th']> ths) h').
Proof.
  intros Hinv Ht Hs. unfold exec in Hs. destruct a as [u|alive flag].
  - destruct (t_pc th) eqn:Hp; try discriminate Hs. by eapply user_call_inv.
  - destruct (t_pc th) eqn:Hp; try discriminate Hs;
      first [by eapply wait_step_inv | by eapply op_body_inv | by eapply park_step_inv
            |by eapply stop_step_inv | by eapply resume_step_inv | by eapply phase_step_inv].
Qed.

Lemma step_inv o s s' : inv o s → step s s' → ∃ o', inv o' s'.
Proof.
  intros Hinv (t & a & Hs). destruct s as [ths h]. unfold sys_exec in Hs. simpl in Hs.
  destruct (ths !! t) as [th|] eqn:Ht; [|done].
  destruct (exec (mutatorCount ths) t a th h) as [| |th' h'] eqn:He; try done.
  injection Hs as <-. by eapply exec_inv.
Qed.

Lemma initial_lookup md at_ pt ts t th :
  s_threads (initial md at_ pt ts) !! t = Some th → th = mkThread Run None [].
Proof.
  simpl. intros (x & Hx & Heq)%elem_of_list_to_map_2%list_elem_of_fmap. by injection Hx.
Qed.

Lemma initial_inv md at_ pt ts : inv None (initial md at_ pt ts).
Proof.
  assert (Hc : ∀ P, P (mkThread Run None []) = false → count P (s_threads (initial md at_ pt ts)) = 0).
  { intros P HP. apply count_none. by intros t th ->%initial_lookup. }
  split.
  - intros t th ->%initial_lookup. split; [|split; [by split|done]]. split; [done|]. by split.
  - by intros t th ->%initial_lookup.
  - done.
  - by rewrite Hc.
  - rewrite Hc by done. lia.
  - simpl. split; [done|]. by rewrite Hc.
Qed.

Lemma reachable_inv s : reachable s → ∃ o, inv o s.
Proof.
  intros (md & at_ & pt & ts & Hr). remember (initial md at_ pt ts) as s0.
  assert (H0 : ∃ o, inv o s0) by (subst; eexists; apply initial_inv). clear Heqs0.
  induction Hr as [|x y z Hxy _ IH]; [done|]. apply IH. destruct H0 as [o Ho]. by eapply step_inv.
Qed.
