(* ===== verification/GcThreadsSafe.v ===== *)
(** * Threads and the heap: safety and progress

    What the invariant of [GcThreadsInv] gives: the world is stopped while the
    collector works, internal assertions hold, the region counters are exact
    unless an exception leaves a no-collect region, and a stop or resume of the
    world never gets stuck. *)

From S2P Require Import Prelude GcThreads GcThreadsInv.

(** ** No-collect regions *)

(** The points of [collect_l], from its assertion to the idle state. *)
Definition collects (p : pc) : bool :=
  match p with
  | SReset (JCollect _) _ | SCount (JCollect _) _ | SState (JCollect _) _ | SIdle (JCollect _) _
  | SUnlock (JCollect _) _ | SProtect (JCollect _) _ | SWait (JCollect _) _
  | GMark _ _ | GBuild _ _ | GSweep _ _
  | RProtect (JCollect _) _ _ | RCount (JCollect _) _ _ | RState (JCollect _) _ _
  | RSignal (JCollect _) _ _ | RWait (JCollect _) _ _ | FLock (JCollect _) _ | FIdle (JCollect _) _ => true
  | _ => false
  end.

Lemma collects_owner p : collects p = true → is_owner p = true.
Proof. by destruct p. Qed.

(** The exit of a call site by an exception. *)
Definition exceptional (a : action) : bool := match a with ACall (UUninit false) => true | _ => false end.

(** A step changes the counter with the thread's level, except that an exception
    may reset the level alone; and collecting begins with the counter at 0. *)
Definition counter_step (a : action) (th th' : thread) (h h' : heap) : Prop :=
  m_noCollectMutatorThreadCount h + Nat.b2n (nocollects th') ≤
    m_noCollectMutatorThreadCount h' + Nat.b2n (nocollects th) ∧
  (exceptional a = false → m_noCollectMutatorThreadCount h' + Nat.b2n (nocollects th) ≤
     m_noCollectMutatorThreadCount h + Nat.b2n (nocollects th')) ∧
  (m_noCollectMutatorThreadCount h' = m_noCollectMutatorThreadCount h ∨ ∃ k im, t_pc th = Locked k im) ∧
  (collects (t_pc th') = true → m_noCollectMutatorThreadCount h' = 0 ∨ collects (t_pc th) = true).

Ltac counter_tac :=
  unfold counter_step; simpl; split; [|split; [|split] ];
  [try level_tac|intros; try discriminate; try level_tac
  |first [left; reflexivity|right; eexists _, _; reflexivity]
  |intros; first [discriminate|left; reflexivity|right; reflexivity|right; assumption|left; to_prop; assumption|idtac] ].

Lemma user_counter u th h th' h' :
  local_ok th → t_pc th = Run → user_call u th h = Next th' h' → counter_step (ACall u) th th' h h'.
Proof.
  intros (Hcs & Hsites & Hpc) Hp Hs.
  unfold user_call, uninitializeCallSite, getCurrentGcMutatorThread, enter, check, safePoint, go in Hs.
  open_thread th Hcs Hpc; simpl in Hp; try discriminate Hp; destruct u; simpl in Hs; try done; to_prop; subst.
  all: try destruct result; simpl in Hs.
  all: repeat (dmatch_in Hs; try discriminate Hs); simplify_eq/=; to_prop; subst.
  all: counter_tac.
Qed.

Lemma op_counter mutators k im alive flag th h th' h' :
  local_ok th → t_pc th = Locked k im → op_body mutators k im th h = Next th' h' →
  counter_step (AGo alive flag) th th' h h'.
Proof.
  intros (Hcs & Hsites & Hpc) Hp Hs.
  unfold op_body, collect, setSizeTriggers, collect_l, stopTheWorld_l, alloc_body, unlock, go, dec, check in Hs.
  destruct im; open_thread th Hcs Hpc; simpl in Hp; try discriminate Hp; simplify_eq; destruct k;
    simpl in Hs; unfold nl, wl in *; simpl in *; destruct_and?; try done; to_prop; subst.
  all: repeat (dmatch_in Hs; try discriminate Hs); simplify_eq/=; to_prop; subst.
  all: counter_tac.
Qed.

(** The other steps leave the counter and the level alone, and do not begin to
    collect. *)
Lemma plain_counter mutators t alive flag th h th' h' :
  (∀ k im, t_pc th ≠ Locked k im) → exec mutators t (AGo alive flag) th h = Next th' h' →
  m_noCollectMutatorThreadCount h' = m_noCollectMutatorThreadCount h ∧
  nocollects th' = nocollects th ∧ (collects (t_pc th') = true → collects (t_pc th) = true).
Proof.
  intros Hl Hs. destruct th as [p g cs]. unfold exec, waitIdleAndLock_step, park_step, stopTheWorld_step,
    resumeTheWorld_step, phase_step, abort_body, atomicDec_handshake, safePoint, enter, check, lock, unlock, go, dec in Hs.
  simpl in Hs, Hl. destruct p; try discriminate Hs; try (by destruct (Hl k isMutatorThread)).
  all: try match goal with r : resume_point |- _ => destruct r end.
  all: try match goal with j : job |- _ => destruct j as [ [a|] |] end.
  all: repeat (dmatch_in Hs; try discriminate Hs); simplify_eq/=.
  all: unfold nocollects, nl; simpl; try (by destruct g); try done.
  all: unfold signal_handshake, stopped; repeat case_match; simplify_eq/=; done.
Qed.

Lemma exec_counter mutators t a th h th' h' :
  local_ok th → exec mutators t a th h = Next th' h' → counter_step a th th' h h'.
Proof.
  intros Hok Hs. destruct a as [u|alive flag].
  - simpl in Hs. destruct (t_pc th) eqn:Hp; try discriminate Hs. by apply user_counter.
  - assert (Hl : (∃ k im, t_pc th = Locked k im) ∨ ∀ k im, t_pc th ≠ Locked k im)
      by (destruct (t_pc th); eauto; by right).
    destruct Hl as [(k & im & Hp)|Hl].
    + simpl in Hs. rewrite Hp in Hs. by eapply op_counter.
    + destruct (plain_counter mutators t alive flag th h th' h' Hl Hs) as (H1 & H2 & H3).
      unfold counter_step. rewrite H1, H2.
      split; [lia|]. split; [lia|]. split; [by left|]. intros; right; auto.
Qed.

(** While the collector works no thread is in a no-collect region. *)
Definition collect_ok (s : system) : Prop :=
  ∀ t th, s_threads s !! t = Some th → collects (t_pc th) = true →
    m_noCollectMutatorThreadCount (s_heap s) = 0.

(** A step of the system, taken apart. *)
Lemma step_exec t a s s' : sys_exec t a s = SysNext s' →
  ∃ th th', s_threads s !! t = Some th ∧
    exec (mutatorCount (s_threads s)) t a th (s_heap s) = Next th' (s_heap s') ∧
    s_threads s' = <[t := th']> (s_threads s).
Proof.
  unfold sys_exec. destruct (s_threads s !! t) as [th|] eqn:Ht; [|done].
  destruct (exec _ _ _ _ _) as [| |th' h'] eqn:He; try done. intros [= <-]. exists th, th'. by simpl.
Qed.

Lemma collect_ok_step o s s' : inv o s → collect_ok s → step s s' → collect_ok s'.
Proof.
  intros Hinv Hok (t & a & Hs). destruct (step_exec _ _ _ _ Hs) as (th & th' & Ht & He & Hths).
  destruct s as [ths h]. simpl in *.
  destruct (inv_thread _ _ Hinv t th Ht) as (Hloc & Hl & Hst).
  destruct (exec_counter _ _ _ _ _ _ _ Hloc He) as (_ & _ & Hsame & Hcol).
  intros t2 th2. rewrite Hths. intros [[<- <-]|[Hne H2]]%lookup_insert_Some Hc.
  - destruct (Hcol Hc) as [H0|Hc']; [done|]. pose proof (Hok t th Ht Hc') as H0. simpl in H0.
    destruct Hsame as [->|(k & im & Hp)]; [done|]. by rewrite Hp in Hc'.
  - pose proof (Hok t2 th2 H2 Hc) as H0. simpl in H0.
    destruct Hsame as [->|(k & im & Hp)]; [done|]. exfalso. rewrite Hp in Hst. simpl in Hst.
    pose proof (idle_holder o ths h t th Hinv Ht) as Hn. rewrite Hp in Hn.
    pose proof (inv_owner _ _ Hinv t2 th2 H2 (collects_owner _ Hc)) as Ho.
    rewrite (Hn eq_refl eq_refl Hst) in Ho. done.
Qed.

Lemma reachable_from o s s' : inv o s → collect_ok s → rtc step s s' → (∃ o', inv o' s') ∧ collect_ok s'.
Proof.
  intros Hinv Hok Hr. revert o Hinv Hok. induction Hr as [s|s s1 s' Hs _ IH]; intros o Hinv Hok; [eauto|].
  destruct (step_inv _ _ _ Hinv Hs) as [o1 H1]. apply (IH o1 H1). by apply (collect_ok_step o s).
Qed.

Lemma reachable_ok s : reachable s → (∃ o, inv o s) ∧ collect_ok s.
Proof.
  intros (md & at_ & pt & ts & Hr). eapply reachable_from; [apply initial_inv| |done].
  by intros t th ->%initial_lookup.
Qed.

(** ** The stopped world *)

(** The phases in which the collector touches the objects. *)
Definition working (st : State) : Prop :=
  st = State_Mark ∨ st = State_BuildDestructGraph ∨ st = State_Sweep.

(** A thread in a wait region stays there while the collector is not idle. *)
Lemma wait_kept mutators t a th h th' h' :
  thread_ok h t th → isRegistered th = true → wl th ≠ 0 → is_owner (t_pc th) = false →
  m_state h ≠ State_Idle → exec mutators t a th h = Next th' h' →
  isRegistered th' = true ∧ wl th' ≠ 0.
Proof.
  intros ((Hcs & Hsites & Hpc) & _ & Hst) Hr Hw Ho Hid Hs.
  open_thread th Hcs Hpc; simpl in Ho, Hst; try discriminate; try congruence;
    unfold wl, isRegistered in *; simpl in *; try done.
  all: destruct a as [u|alive flag]; simpl in Hs; try discriminate Hs.
  all: try (destruct u; simpl in Hs).
  all: unfold uninitializeCallSite, waitIdleAndLock_step, enter, check, lock, unlock, go, safePoint, dec in Hs;
       simpl in Hs.
  all: repeat (dmatch_in Hs; try discriminate Hs); simplify_eq/=; to_prop; split; try done; try lia.
Qed.

Lemma parked_blocked o ths h t th a mutators :
  inv o (mkSystem ths h) → ths !! t = Some th → m_state h ≠ State_ResumeTheWorld →
  (∃ r, t_pc th = ParkWait r) → exec mutators t a th h = Blocked.
Proof.
  intros Hinv Ht Hst [r Hp]. unfold exec. rewrite Hp. destruct a; [done|]. unfold park_step. rewrite Hp.
  pose proof (inv_phase _ _ Hinv) as Hph. simpl in Hph.
  pose proof (parked_pos o ths h t th Hinv Ht) as Hpk. unfold parked in Hpk. rewrite Hp in Hpk.
  specialize (Hpk eq_refl).
  destruct (m_mode h) eqn:Hm; [destruct (m_resumeEvent h) eqn:Hr|destruct (m_resumeEvent h) eqn:Hr|]; try done.
  - exfalso. apply Hst. eapply parked_phase; [exact Hph|exact Hpk|by rewrite Hm|done].
  - exfalso. apply Hst. eapply parked_phase; [exact Hph|exact Hpk|by rewrite Hm|done].
  - by rewrite decide_False.
Qed.

(** C3: the world is stopped while the collector works: in every reachable state
    of the marking, destruction graph and sweeping phases there is one thread that
    collects; every other registered thread is outside no-collect regions, and
    either is in a wait region that no step of it can leave, or is parked at a safe
    point where no step of it is possible. *)
Theorem world_stopped s : reachable s → working (m_state (s_heap s)) →
  ∃ c thc, s_threads s !! c = Some thc ∧ collects (t_pc thc) = true ∧
    ∀ t th, s_threads s !! t = Some th → t ≠ c → isRegistered th = true →
      nl th = 0 ∧
      ((wl th ≠ 0 ∧ ∀ a s', sys_exec t a s = SysNext s' →
          ∃ th', s_threads s' !! t = Some th' ∧ isRegistered th' = true ∧ wl th' ≠ 0) ∨
       (sf th = true ∧ ∀ a, sys_exec t a s = SysBlocked)).
Proof.
  intros Hreach Hwork. destruct (reachable_ok s Hreach) as [ [o Hinv] Hok]. destruct s as [ths h]. simpl in *.
  pose proof (inv_phase _ _ Hinv) as Hph. simpl in Hph.
  assert (Hst : m_state h ≠ State_Idle ∧ m_state h ≠ State_ResumeTheWorld ∧ m_state h ≠ State_StopTheWorld)
    by (destruct Hwork as [->|[-> | ->] ]; done).
  destruct Hst as (Hid & Hres & Hstop).
  destruct o as [ [c p]|]; [|by destruct Hph].
  destruct (inv_owner_inv _ _ Hinv c p eq_refl) as (thc & Hc & Hp & Ho). simpl in Hc.
  assert (Hx : collects p = true ∧ count pend ths = 0).
  { destruct p; simpl in Ho; try discriminate Ho; open_phase Hph; try congruence;
      try (destruct j; simpl; congruence || done); done. }
  destruct Hx as [Hcol Hpd]. exists c, thc. rewrite Hp. split; [done|]. split; [done|].
  intros t th Ht Hne Hreg. pose proof (inv_noCollect _ _ Hinv) as Hnc. simpl in Hnc.
  assert (Hz : m_noCollectMutatorThreadCount h = 0) by (apply (Hok c thc Hc); by rewrite Hp).
  rewrite Hz in Hnc.
  assert (Hnl : nocollects th = false) by (apply (count_zero nocollects ths t); [lia|done]).
  split; [by apply negb_false_iff, Nat.eqb_eq in Hnl|].
  pose proof (count_zero pend ths t th Hpd Ht) as Hpend. unfold pend in Hpend. rewrite Hreg in Hpend.
  assert (Hno : is_owner (t_pc th) = false).
  { destruct (is_owner (t_pc th)) eqn:H1; [|done].
    pose proof (inv_owner _ _ Hinv t th Ht H1) as H2. congruence. }
  rewrite Hno in Hpend. destruct (wl th =? 0) eqn:Hw; to_prop.
  - right. destruct (t_pc th) eqn:Hpc; try discriminate Hpend. split.
    + destruct (inv_thread _ _ Hinv t th Ht) as ((_ & _ & Hl) & _). unfold pc_ok in Hl.
      rewrite Hpc in Hl. apply Hl.
    + intros a. unfold sys_exec. simpl. rewrite Ht.
      rewrite (parked_blocked _ _ _ _ _ a _ Hinv Ht Hres); [done|by exists r].
  - left. split; [done|]. intros a s' Hs. destruct (step_exec _ _ _ _ Hs) as (th0 & th' & Ht0 & He & Hths).
    simpl in *. simplify_eq. exists th'. rewrite Hths, lookup_insert_eq. split; [done|].
    eapply wait_kept; [by apply (inv_thread _ _ Hinv t)|done..|exact He].
Qed.

(** ** Assertions *)

Lemma stop_count p h pd pk : phase_ok p h pd pk → m_state h = State_StopTheWorld → 1 ≤ pd →
  m_handshakeCount h = pd.
Proof.
  intros Hp Hst Hpd. destruct p as [ [] |]; open_phase Hp; try congruence; try lia.
Qed.

Lemma resume_count p h pd pk : phase_ok p h pd pk → m_state h = State_ResumeTheWorld → 1 ≤ pk →
  m_handshakeCount h = pk.
Proof.
  intros Hp Hst Hpk. destruct p as [ [] |]; open_phase Hp; try congruence; try lia; bad_state.
Qed.

Lemma park_not_failed o ths h t th flag :
  inv o (mkSystem ths h) → ths !! t = Some th → park_step flag th h ≠ Failed.
Proof.
  intros Hinv Ht Hs. destruct (inv_thread _ _ Hinv t th Ht) as ((Hcs & Hsites & Hpc) & _ & Hst).
  pose proof (inv_phase _ _ Hinv) as Hph. simpl in Hph, Hst.
  pose proof (parked_pos o ths h t th Hinv Ht) as Hpark.
  pose proof (pend_pos o ths h t th Hinv Ht) as Hpend.
  unfold park_step, atomicDec_handshake, go, dec, check in Hs.
  open_thread th Hcs Hpc; simpl in Hs, Hst; try discriminate Hs; try rewrite Hst in Hs; try discriminate Hs.
  - rewrite (stop_count _ _ _ _ Hph Hst) in Hs by (by apply Hpend).
    destruct (count pend ths) eqn:Hc; [|discriminate Hs]. specialize (Hpend eq_refl). lia.
  - assert (Hres : m_mode h ≠ GuardPagePosix → m_resumeEvent h = true → m_state h = State_ResumeTheWorld)
      by (intros; eapply parked_phase; [exact Hph|by apply Hpark|done..]).
    repeat (dmatch_in Hs; try discriminate Hs); rewrite Hres in * by done; discriminate.
  - rewrite (resume_count _ _ _ _ Hph Hst) in Hs by (by apply Hpark).
    destruct (count parked ths) eqn:Hc; [|discriminate Hs]. specialize (Hpark eq_refl). lia.
Qed.

Lemma wait_not_failed o ths h t th :
  inv o (mkSystem ths h) → ths !! t = Some th → waitIdleAndLock_step t th h ≠ Failed.
Proof.
  intros Hinv Ht Hs. destruct (inv_thread _ _ Hinv t th Ht) as ((Hcs & Hsites & Hpc) & _ & Hst).
  pose proof (inv_waiting _ _ Hinv) as Hw. simpl in Hw.
  pose proof (count_pos waits ths t th Ht) as Hpos.
  unfold waitIdleAndLock_step, lock, unlock, go, safePoint, dec in Hs.
  open_thread th Hcs Hpc; simpl in Hs; repeat (dmatch_in Hs; try discriminate Hs).
  specialize (Hpos eq_refl). lia.
Qed.

Lemma op_not_failed k im o ths h t th :
  inv o (mkSystem ths h) → ths !! t = Some th → t_pc th = Locked k im →
  op_body (mutatorCount ths) k im th h = Failed → ∃ size, k = KAlloc size ∧ im = false.
Proof.
  intros Hinv Ht Hp Hs. destruct (inv_thread _ _ Hinv t th Ht) as ((Hcs & Hsites & Hpc) & Hl & Hst).
  pose proof (idle_holder o ths h t th Hinv Ht) as Hidle. rewrite Hp in Hidle, Hst. simpl in Hst.
  specialize (Hidle eq_refl eq_refl Hst) as ->.
  pose proof (inv_waiting _ _ Hinv) as Hw. pose proof (inv_noCollect _ _ Hinv) as Hnc. simpl in Hw, Hnc.
  pose proof (count_pos waits ths t th Ht) as Hpw. pose proof (count_pos nocollects ths t th Ht) as Hpn.
  pose proof (count_pos pend ths t th Ht) as Hpp.
  rewrite (idle_count ths h Hinv) in Hs.
  unfold op_body, collect, setSizeTriggers, collect_l, stopTheWorld_l, alloc_body, unlock, go, dec, check in Hs.
  assert (Htrig : ∀ h, isCollectionTriggered_l h = true → m_noCollectMutatorThreadCount h = 0).
  { intros h0 Hh. unfold isCollectionTriggered_l in Hh. by to_prop. }
  destruct im; open_thread th Hcs Hpc; simpl in Hp; try discriminate Hp; simplify_eq; destruct k;
    simpl in Hs; unfold nl, wl in *; simpl in *; destruct_and?; try done; to_prop; subst; try (by eauto);
    exfalso;
    repeat match type of Hs with context [isCollectionTriggered_l ?x] =>
      destruct (isCollectionTriggered_l x) eqn:? end;
    try match goal with Hx : isCollectionTriggered_l _ = true |- _ =>
      apply Htrig in Hx; simpl in Hx; rewrite ?Hx in * end;
    try specialize (Hpp eq_refl); try specialize (Hpw eq_refl); try specialize (Hpn eq_refl);
    rewrite ?Hw in Hs; destruct (count waits ths + count pend ths) eqn:Hsum; try lia;
    repeat (dmatch_in Hs; try discriminate Hs); to_prop;
    repeat match goal with H : _ && _ = false |- _ => apply andb_false_iff in H as [H|H] end;
    to_prop; simpl in *; try lia; try discriminate;
    match goal with Hx : isCollectionTriggered_l _ = true |- _ => apply Htrig in Hx; simpl in Hx; lia end.
Qed.

Lemma exec_not_failed o ths h t th alive flag :
  inv o (mkSystem ths h) → ths !! t = Some th →
  exec (mutatorCount ths) t (AGo alive flag) th h = Failed → ∃ size, t_pc th = Locked (KAlloc size) false.
Proof.
  intros Hinv Ht Hs. simpl in Hs. destruct (t_pc th) eqn:Hp; try discriminate Hs.
  all: try (by destruct (wait_not_failed o ths h t th Hinv Ht)).
  all: try (by destruct (park_not_failed o ths h t th flag Hinv Ht)).
  all: try (destruct (op_not_failed _ _ o ths h t th Hinv Ht Hp Hs) as (size & -> & ->); by exists size).
  all: exfalso; unfold stopTheWorld_step, resumeTheWorld_step, phase_step, abort_body, enter, lock, unlock, go in Hs;
       rewrite Hp in Hs; simpl in Hs; try discriminate Hs; repeat (dmatch_in Hs; try discriminate Hs).
Qed.

(** C32: no assertion inside the heap fails: in a reachable state the next
    access of a running operation is possible or has to wait; the only assertion
    that can fail is that of an allocation by a thread that is not a running
    mutator, which is up to its caller. *)
Theorem assertions_hold s t alive flag : reachable s →
  sys_exec t (AGo alive flag) s = SysFailed →
  ∃ th size, s_threads s !! t = Some th ∧ t_pc th = Locked (KAlloc size) false ∧ isMutatorThread th = false.
Proof.
  intros Hreach Hs. destruct (reachable_inv s Hreach) as [o Hinv]. destruct s as [ths h].
  unfold sys_exec in Hs. cbn [s_threads s_heap] in *. destruct (ths !! t) as [th|] eqn:Ht; [|done].
  destruct (exec (mutatorCount ths) t (AGo alive flag) th h) eqn:He; try discriminate Hs.
  destruct (exec_not_failed o ths h t th alive flag Hinv Ht He) as [size Hp]. exists th, size. split; [done|]. split; [done|].
  destruct (inv_thread _ _ Hinv t th Ht) as ((_ & _ & Hpc) & _). unfold pc_ok in Hpc. rewrite Hp in Hpc. apply Hpc.
Qed.

(** ** The counters *)

Definition plain_step (s s' : system) : Prop :=
  ∃ t a, exceptional a = false ∧ sys_exec t a s = SysNext s'.

Lemma plain_step_step s s' : plain_step s s' → step s s'.
Proof. intros (t & a & _ & Hs). by exists t, a. Qed.

Lemma plain_exact o s s' : inv o s → plain_step s s' →
  m_noCollectMutatorThreadCount (s_heap s) = count nocollects (s_threads s) →
  m_noCollectMutatorThreadCount (s_heap s') = count nocollects (s_threads s').
Proof.
  intros Hinv (t & a & Ha & Hs) Heq. destruct (step_exec _ _ _ _ Hs) as (th & th' & Ht & He & Hths).
  destruct s as [ths h]. simpl in *. destruct (inv_thread _ _ Hinv t th Ht) as (Hloc & _).
  destruct (exec_counter _ _ _ _ _ _ _ Hloc He) as (H1 & H2 & _). specialize (H2 Ha).
  pose proof (count_insert nocollects ths t th th' Ht) as Hc. rewrite Hths. lia.
Qed.

Lemma plain_nocollect md at_ pt ts s : rtc plain_step (initial md at_ pt ts) s →
  m_noCollectMutatorThreadCount (s_heap s) = count nocollects (s_threads s).
Proof.
  intros Hr. remember (initial md at_ pt ts) as s0 eqn:Hs0.
  assert (H0 : inv None s0 ∧ m_noCollectMutatorThreadCount (s_heap s0) = count nocollects (s_threads s0)).
  { subst. split; [apply initial_inv|]. rewrite count_none; [done|]. by intros t th ->%initial_lookup. }
  clear Hs0. revert H0. generalize (@None (tid * pc)).
  induction Hr as [s|s s1 s2 Hs _ IH]; intros o [Hinv Heq]; [done|].
  destruct (step_inv _ _ _ Hinv (plain_step_step _ _ Hs)) as [o1 H1].
  apply (IH o1). split; [done|]. by apply (plain_exact o s s1).
Qed.

(** C33: The counters that guard collection. In every reachable state, exceptions included, the number of waiting
    mutators is the number of registered threads inside a wait region, and the number of no-collect mutators is at least
    that of the threads inside a no-collect region; it is exactly that in the runs in which no call site is left by an exception. *)
Theorem counters_exact s : reachable s →
  m_waitingMutatorThreadCount (s_heap s) = count waits (s_threads s) ∧
  count nocollects (s_threads s) ≤ m_noCollectMutatorThreadCount (s_heap s) ∧
  ∀ md at_ pt ts, rtc plain_step (initial md at_ pt ts) s →
    m_noCollectMutatorThreadCount (s_heap s) = count nocollects (s_threads s).
Proof.
  intros Hr. destruct (reachable_inv s Hr) as [o Hinv]. split; [apply (inv_waiting _ _ Hinv)|]. split; [apply (inv_noCollect _ _ Hinv)|].
  intros md at_ pt ts. apply plain_nocollect.
Qed.

(** ** Leaving a no-collect region by an exception *)

Lemma excess_step o s s' : inv o s → step s s' →
  count nocollects (s_threads s) < m_noCollectMutatorThreadCount (s_heap s) →
  count nocollects (s_threads s') < m_noCollectMutatorThreadCount (s_heap s').
Proof.
  intros Hinv (t & a & Hs) Hlt. destruct (step_exec _ _ _ _ Hs) as (th & th' & Ht & He & Hths).
  destruct s as [ths h]. simpl in *. destruct (inv_thread _ _ Hinv t th Ht) as (Hloc & _).
  destruct (exec_counter _ _ _ _ _ _ _ Hloc He) as (H1 & _).
  pose proof (count_insert nocollects ths t th th' Ht) as Hc. rewrite Hths. lia.
Qed.

(** a leaked no-collect region disables the collector for good. An
    exception that leaves a call site inside a no-collect region resets the
    level of the thread but not the counter of the heap; from then on, whatever
    the threads do, nothing ever collects. *)
Theorem leaked_region_disables_gc s t th s1 : reachable s →
  s_threads s !! t = Some th → nl th ≠ 0 →
  sys_exec t (ACall (UUninit false)) s = SysNext s1 →
  (∀ th1, s_threads s1 !! t = Some th1 → nl th1 = 0) →
  ∀ s2, rtc step s1 s2 →
    0 < m_noCollectMutatorThreadCount (s_heap s2) ∧
    ∀ t2 th2, s_threads s2 !! t2 = Some th2 → collects (t_pc th2) = false.
Proof.
  intros Hreach Ht Hn Hs Hn1 s2 Hr. destruct (reachable_ok s Hreach) as [ [o Hinv] Hok].
  assert (Hst : step s s1) by (by exists t, (ACall (UUninit false))).
  destruct (step_inv _ _ _ Hinv Hst) as [o1 Hinv1].
  pose proof (collect_ok_step _ _ _ Hinv Hok Hst) as Hok1.
  assert (Hex : count nocollects (s_threads s1) < m_noCollectMutatorThreadCount (s_heap s1)).
  { destruct (step_exec _ _ _ _ Hs) as (th0 & th1 & Ht0 & He & Hths).
    pose proof (inv_noCollect _ _ Hinv) as Hle.
    pose proof (count_insert nocollects _ t th0 th1 Ht0) as Hc. rewrite Hths in Hn1 |- *.
    specialize (Hn1 th1 (lookup_insert_eq _ _ _)). simplify_eq.
    destruct (inv_thread _ _ Hinv t th Ht) as (Hloc & _).
    destruct (exec_counter _ _ _ _ _ _ _ Hloc He) as (_ & _ & [Heq|(k & im & Hp)] & _).
    - unfold nocollects in Hc at 2 4. rewrite Hn1 in Hc. destruct (nl th); [done|]. simpl in Hc. lia.
    - simpl in He. by rewrite Hp in He. }
  clear Hs Hst Hn1 Ht Hinv Hok. revert o1 Hinv1 Hok1 Hex.
  induction Hr as [s1|s1 s3 s2 Hs _ IH]; intros o1 Hinv1 Hok1 Hex.
  - split; [lia|]. intros t2 th2 H2. destruct (collects (t_pc th2)) eqn:Hc; [|done].
    pose proof (Hok1 t2 th2 H2 Hc). lia.
  - destruct (step_inv _ _ _ Hinv1 Hs) as [o3 H3].
    apply (IH o3 H3); [exact (collect_ok_step _ _ _ Hinv1 Hok1 Hs)|exact (excess_step _ _ _ Hinv1 Hs Hex)].
Qed.

(** ** Schedules *)

Lemma run_rtc sched s s' : run sched s = SysNext s' → rtc step s s'.
Proof.
  revert s. induction sched as [|[t a] sched IH]; intros s; simpl; [by intros [= ->]|].
  destruct (sys_exec t a s) as [| |s1] eqn:Hs; try done. intros Hr.
  apply (rtc_l _ _ s1); [by exists t, a|by apply IH].
Qed.

Lemma run_plain sched s s' : forallb (λ x, negb (exceptional x.2)) sched = true →
  run sched s = SysNext s' → rtc plain_step s s'.
Proof.
  revert s. induction sched as [|[t a] sched IH]; intros s; simpl; [by intros _ [= ->]|].
  intros [Ha Hf]%andb_true_iff. destruct (sys_exec t a s) as [| |s1] eqn:Hs; try done. intros Hr.
  apply (rtc_l _ _ s1); [|by apply IH]. exists t, a. split; [|done]. by apply negb_true_iff.
Qed.

(** The system after a schedule. *)
Definition after (md : mode) (sched : list (tid * action)) : system :=
  match run sched (initial md 1000 1000 [1; 2; 3]%N) with
  | SysNext s => s
  | _ => initial md 1000 1000 []
  end.

Lemma after_reachable md sched : reachable (after md sched).
Proof.
  unfold after. destruct (run _ _) as [| |s] eqn:Hr;
    [by exists md, 1000%N, 1000%N, []..|].
  exists md, 1000%N, 1000%N, [1; 2; 3]%N. by eapply run_rtc.
Qed.

(** Thread [t] goes on [n] times. *)
Definition goes (t : tid) (n : nat) : list (tid * action) := replicate n (t, AGo 0 false).

Definition call (t : tid) (u : user_op) (n : nat) : list (tid * action) := (t, ACall u) :: goes t n.

(** Three threads enter the runtime, the third waits in a wait region, the first
    collects, and the second parks at a safe point. *)
Definition collecting : list (tid * action) :=
  call 1 UInit 3 ++ call 2 UInit 3 ++ call 3 UInit 3 ++ call 3 UEnterWait 3 ++
  call 1 UCollect 8 ++ call 2 USafePoint 2 ++ goes 1 2.

Lemma world_stopped_witness : working (m_state (s_heap (after SimpleSafePoint collecting))) ∧
  ∃ c thc, s_threads (after SimpleSafePoint collecting) !! c = Some thc ∧ collects (t_pc thc) = true ∧
    ∀ t th, s_threads (after SimpleSafePoint collecting) !! t = Some th → t ≠ c → isRegistered th = true →
      nl th = 0 ∧
      ((wl th ≠ 0 ∧ ∀ a s', sys_exec t a (after SimpleSafePoint collecting) = SysNext s' →
          ∃ th', s_threads s' !! t = Some th' ∧ isRegistered th' = true ∧ wl th' ≠ 0) ∨
       (sf th = true ∧ ∀ a, sys_exec t a (after SimpleSafePoint collecting) = SysBlocked)).
Proof.
  assert (Hw : working (m_state (s_heap (after SimpleSafePoint collecting)))) by (left; vm_compute; reflexivity).
  split; [exact Hw|]. exact (world_stopped _ (after_reachable _ _) Hw).
Defined.

(** An allocation by a thread that has not entered the runtime. *)
Lemma assertions_hold_witness :
  ∃ th size, s_threads (after GuardPagePosix (call 1 (UAlloc 16) 2)) !! 1%N = Some th ∧
    t_pc th = Locked (KAlloc size) false ∧ isMutatorThread th = false.
Proof.
  apply (assertions_hold _ 1%N 0%N false (after_reachable GuardPagePosix (call 1 (UAlloc 16) 2))).
  vm_compute. reflexivity.
Defined.

Definition in_regions : list (tid * action) :=
  call 1 UInit 3 ++ call 2 UInit 3 ++ call 2 UEnterNoCollect 3 ++ call 1 UEnterWait 3.

Lemma counters_exact_witness :
  m_waitingMutatorThreadCount (s_heap (after GuardPageWin in_regions)) = 1 ∧
  m_noCollectMutatorThreadCount (s_heap (after GuardPageWin in_regions)) = 1 ∧
  m_waitingMutatorThreadCount (s_heap (after GuardPageWin in_regions)) =
    count waits (s_threads (after GuardPageWin in_regions)) ∧
  m_noCollectMutatorThreadCount (s_heap (after GuardPageWin in_regions)) =
    count nocollects (s_threads (after GuardPageWin in_regions)).
Proof.
  split; [vm_compute; reflexivity|]. split; [vm_compute; reflexivity|].
  destruct (counters_exact (after GuardPageWin in_regions) (after_reachable _ _)) as (H1 & _ & H2). split; [exact H1|].
  apply (H2 GuardPageWin 1000%N 1000%N [1; 2; 3]%N). apply (run_plain in_regions); vm_compute; reflexivity.
Defined.

(** A thread is inside a no-collect region when an exception leaves its inner
    call site. *)
Definition leaking : list (tid * action) :=
  call 1 UInit 3 ++ call 1 UInit 0 ++ call 1 UEnterNoCollect 3.

Definition leaked : system := after SimpleSafePoint (leaking ++ [(1%N, ACall (UUninit false))]).

Lemma leaked_region_disables_gc_witness :
  m_noCollectMutatorThreadCount (s_heap leaked) = 1 ∧ ∀ s2, rtc step leaked s2 →
    0 < m_noCollectMutatorThreadCount (s_heap s2) ∧
    ∀ t2 th2, s_threads s2 !! t2 = Some th2 → collects (t_pc th2) = false.
Proof.
  split; [vm_compute; reflexivity|].
  eapply (leaked_region_disables_gc (after SimpleSafePoint leaking) 1%N);
    [apply after_reachable|vm_compute; reflexivity|vm_compute; discriminate|vm_compute; reflexivity|].
  intros th1 Hth1. vm_compute in Hth1. injection Hth1 as <-. vm_compute. reflexivity.
Defined.
