(* ===== verification/GcThreadsLive.v ===== *)
(** * Threads and the heap: progress

    A stop or resume of the world never gets stuck: from every reachable state
    there is a way back to the idle state on which the threads only go on with
    what they are doing, and running mutators only come to a safe point. *)

From S2P Require Import Prelude GcThreads GcThreadsInv GcThreadsSafe.

(** ** The holder of the lock exists *)

Definition lock_ok (s : system) : Prop :=
  ∀ u, m_lock (s_heap s) = Some u → is_Some (s_threads s !! u).

Lemma exec_lock mutators t a th h th' h' : exec mutators t a th h = Next th' h' →
  m_lock h' = m_lock h ∨ m_lock h' = None ∨ m_lock h' = Some t.
Proof.
  intros Hs. destruct a as [u|alive flag]; unfold exec in Hs.
  - destruct (t_pc th); try discriminate Hs.
    unfold user_call, uninitializeCallSite, enter, check, safePoint, go in Hs.
    repeat (dmatch_in Hs; try discriminate Hs); simplify_eq/=; by left.
  - destruct (t_pc th) eqn:Hp; try discriminate Hs; unfold waitIdleAndLock_step, park_step,
      stopTheWorld_step, resumeTheWorld_step, phase_step, abort_body, op_body in Hs; try rewrite Hp in Hs;
      unfold collect, setSizeTriggers, collect_l, stopTheWorld_l, alloc_body,
      atomicDec_handshake, safePoint, enter, check, lock, unlock, go, dec, signal_handshake in Hs; simpl in Hs.
    all: repeat (dmatch_in Hs; try discriminate Hs); simplify_eq/=; auto.
Qed.

Lemma lock_ok_step s s' : lock_ok s → step s s' → lock_ok s'.
Proof.
  intros Hok (t & a & Hs) u Hu. destruct (step_exec _ _ _ _ Hs) as (th & th' & Ht & He & Hths).
  rewrite Hths. destruct (exec_lock _ _ _ _ _ _ _ He) as [H1|[H1|H1] ]; rewrite H1 in Hu; try discriminate Hu.
  - destruct (decide (t = u)) as [<-|Hne]; [by rewrite lookup_insert_eq|].
    rewrite lookup_insert_ne by done. by apply Hok.
  - injection Hu as <-. by rewrite lookup_insert_eq.
Qed.

Lemma reachable_lock s : reachable s → lock_ok s.
Proof.
  intros (md & at_ & pt & ts & Hr). remember (initial md at_ pt ts) as s0.
  assert (H0 : lock_ok s0) by (subst; by intros u Hu). clear Heqs0.
  induction Hr as [|x y z Hxy _ IH]; [done|]. apply IH. by eapply lock_ok_step.
Qed.

(** ** A measure *)

(** How far the collector is from the idle state. *)
Definition rank (p : pc) : nat :=
  match p with
  | SReset _ _ => 20 | SCount _ _ => 19 | SState _ _ => 18 | SIdle _ _ => 17 | SUnlock _ _ => 16
  | SProtect _ _ => 15 | SWait _ _ => 14 | GMark _ _ => 13 | GBuild _ _ => 12 | GSweep _ _ => 11
  | GAbort _ => 11 | RProtect _ _ _ => 10 | RCount _ _ _ => 9 | RState _ _ _ => 8
  | RSignal _ _ _ => 7 | RWait _ _ _ => 6 | FLock _ _ => 5 | FIdle _ _ => 4 | FSignal _ => 3
  | FUnlock _ => 2 | _ => 0
  end.

(** How far another thread is from what the collector waits for: parking, when
    the world is being stopped, leaving the safe point and the lock otherwise. *)
Definition weight (stop : bool) (th : thread) : nat :=
  match t_pc th with
  | Run => if stop then 6 else 0
  | MLock _ => if stop then 5 else 0
  | MCheck _ => 4
  | MSafe _ => if stop then 3 else 0
  | Park _ => if stop then 2 else 0
  | ParkDec _ => if stop then 1 else 0
  | ParkWait _ => if stop then 0 else 3
  | ParkLeave _ => if stop then 0 else 2
  | ParkDec2 _ _ => if stop then 0 else 1
  | NCheck _ | MRecheck _ => 1
  | _ => 0
  end.

Definition total (f : thread → nat) (ths : threads) : nat := sum_list_with (f ∘ snd) (map_to_list ths).

Lemma total_insert f ths t th th' : ths !! t = Some th → f th' < f th →
  total f (<[t := th']> ths) < total f ths.
Proof.
  intros Ht Hlt. assert (Hd : ∀ x m, m !! t = Some x → total f m = f x + total f (delete t m)).
  { intros x m Hm. unfold total. rewrite <- (insert_delete_id m t x Hm) at 1.
    by rewrite (map_to_list_insert (delete t m) t x (lookup_delete_eq _ _)). }
  rewrite (Hd th ths Ht), (Hd th' (<[t := th']> ths)) by apply lookup_insert_eq.
  rewrite delete_insert_eq. lia.
Qed.

(** ** The next step *)

(** The threads go on, and mutators come to a safe point. *)
Definition coop_step (s s' : system) : Prop :=
  ∃ t a, match a with AGo _ _ => True | ACall u => u = USafePoint end ∧ sys_exec t a s = SysNext s'.

Lemma coop_step_step s s' : coop_step s s' → step s s'.
Proof. intros (t & a & _ & Hs). by exists t, a. Qed.

Lemma count_ex P ths : 1 ≤ count P ths → ∃ t th, ths !! t = Some th ∧ P th = true.
Proof.
  unfold count. intros Hc. destruct (filter _ _) as [|[t th] l] eqn:Hf; [simpl in Hc; lia|].
  assert (Hin : (t, th) ∈ filter (λ '(_, th), P th = true) (map_to_list ths)) by (rewrite Hf; left).
  apply list_elem_of_filter in Hin as [HP Hx%elem_of_map_to_list]. by exists t, th.
Qed.

Definition stopping_pc (p : pc) : bool := match p with SWait _ _ => true | _ => false end.

(** The collector goes on, or it has to wait for the others. *)
Lemma owner_exec mutators t th h : is_owner (t_pc th) = true →
  (∃ th' h', exec mutators t (AGo 0 false) th h = Next th' h' ∧ rank (t_pc th') < rank (t_pc th)) ∨
  (m_handshakeSignal h = 0 ∧ ∃ j n, t_pc th = SWait j n) ∨
  (m_handshakeSignal h = 0 ∧ ∃ j alive n, t_pc th = RWait j alive n) ∨
  (∃ j alive u, t_pc th = FLock j alive ∧ m_lock h = Some u).
Proof.
  intros Ho. unfold exec, stopTheWorld_step, resumeTheWorld_step, phase_step, abort_body, enter, lock, unlock, go, stopped.
  destruct (t_pc th) eqn:Hp; try discriminate Ho.
  all: repeat (case_match; simplify_eq; try (right; eauto 8; fail)).
  all: try (right; right; eauto 8; fail).
  all: left; eexists _, _; split; [reflexivity|simpl; lia].
Qed.

Section next.
Context (c : tid) (p : pc) (ths : threads) (h : heap).
Context (Hinv : inv (Some (c, p)) (mkSystem ths h)) (Hlock : lock_ok (mkSystem ths h)).

(** A step of another thread that brings it closer. *)
Definition helps (stop : bool) : Prop :=
  ∃ t a th th' h', ths !! t = Some th ∧ t ≠ c ∧
    match a with AGo _ _ => True | ACall u => u = USafePoint end ∧
    exec (mutatorCount ths) t a th h = Next th' h' ∧
    weight stop th' < weight stop th ∧ is_owner (t_pc th') = false.

Lemma helps_intro stop t a th th' h' : ths !! t = Some th → is_owner (t_pc th) = false →
  match a with AGo _ _ => True | ACall u => u = USafePoint end →
  exec (mutatorCount ths) t a th h = Next th' h' →
  weight stop th' < weight stop th → is_owner (t_pc th') = false → helps stop.
Proof.
  intros Ht Ho Ha He Hw Ho'. exists t, a, th, th', h'. split; [done|]. split; [|done].
  intros ->. destruct (inv_owner_inv _ _ Hinv c p eq_refl) as (th2 & H2 & Hp & Ho2). simpl in H2. congruence.
Qed.

(** Whoever holds the lock, not being the collector, lets it go. *)
Lemma holder_helps stop u : m_lock h = Some u → holds p = false → m_state h ≠ State_Idle → helps stop.
Proof.
  intros Hu Hnp Hid. destruct (Hlock u Hu) as [th Ht]. simpl in Ht.
  destruct (inv_thread _ _ Hinv u th Ht) as (Hloc & Hl & Hst). simpl in Hl, Hst.
  pose proof (proj2 Hl Hu) as Hh.
  assert (Ho : is_owner (t_pc th) = false).
  { destruct (is_owner (t_pc th)) eqn:H1; [|done].
    pose proof (inv_owner _ _ Hinv u th Ht H1) as [= _ ->]. congruence. }
  destruct (t_pc th) eqn:Hp; try discriminate Hh; try discriminate Ho; simpl in Hst; try congruence.
  all: destruct (decide (m_state h = State_StopTheWorld)) as [Hstop|Hstop].
  all: eapply (helps_intro stop u (AGo 0 false) th); [done|by rewrite Hp|done|..].
  all: try (unfold exec, waitIdleAndLock_step, unlock, go; rewrite ?Hp, ?(decide_False _ _ Hid);
            first [rewrite (decide_True _ _ Hstop)|rewrite (decide_False _ _ Hstop)|idtac]; reflexivity).
  all: unfold weight; simpl; rewrite ?Hp; destruct stop; lia || done.
Qed.

(** A mutator the collector waits for comes closer to parking. *)
Lemma mutator_helps : m_state h = State_StopTheWorld → isHit h = true → holds p = false →
  1 ≤ count pend ths → helps true.
Proof.
  intros Hstop Hhit Hnp (t & th & Ht & Hpend)%count_ex.
  destruct (inv_thread _ _ Hinv t th Ht) as ((Hcs & Hsites & Hpc) & Hl & Hst). simpl in Hst.
  assert (Hid : m_state h ≠ State_Idle) by congruence.
  destruct (m_lock h) as [u|] eqn:Hlk; [by apply (holder_helps true u)|].
  pose proof (park_not_failed _ _ _ _ _ false Hinv Ht) as Hnf.
  unfold pend in Hpend. apply andb_true_iff in Hpend as [Hpend Hpw]. apply andb_true_iff in Hpend as [Hpend Ho].
  apply negb_true_iff in Ho. apply andb_true_iff in Hpend as [Hreg Hwl%Nat.eqb_eq].
  assert (Hx : ∃ a th' h', match a with AGo _ _ => True | ACall u => u = USafePoint end ∧
    exec (mutatorCount ths) t a th h = Next th' h' ∧ weight true th' < weight true th ∧
    is_owner (t_pc th') = false).
  { open_thread th Hcs Hpc; unfold wl in Hwl; simpl in Ho, Hst, Hpw, Hwl, Hnf, Hl;
      try discriminate Ho; try discriminate Hpw; try congruence; try discriminate Hwl; subst.
    - exists (ACall USafePoint). eexists _, _. unfold exec, user_call, getCurrentGcMutatorThread, check, safePoint, go.
      simpl. rewrite Hhit.
      split; [done|]. split; [reflexivity|]. simpl. unfold weight. simpl. by split; [lia|].
    - exists (AGo 0 false). eexists _, _. split; [done|].
      unfold exec, waitIdleAndLock_step, lock, go. simpl. rewrite Hlk.
      split; [reflexivity|]. unfold weight; simpl. by split; [lia|].
    - pose proof (proj1 Hl eq_refl) as H1. rewrite Hlk in H1. discriminate.
    - exists (AGo 0 false). eexists _, _. split; [done|].
      unfold exec, waitIdleAndLock_step, safePoint, go. simpl. rewrite Hhit.
      split; [reflexivity|]. unfold weight; simpl. by split; [lia|].
    - exists (AGo 0 false). eexists _, _. split; [done|].
      unfold exec, park_step, go. simpl. rewrite Hst. simpl.
      split; [reflexivity|]. unfold weight; simpl. by split; [lia|].
    - unfold park_step, atomicDec_handshake, dec, go in Hnf. simpl in Hnf.
      exists (AGo 0 false). unfold exec, park_step, atomicDec_handshake, dec, go. simpl.
      destruct (m_handshakeCount h); [done|]. eexists _, _. split; [done|].
      split; [reflexivity|]. unfold weight; simpl. by split; [lia|]. }
  destruct Hx as (a & th' & h' & Ha & He & Hw & Ho'). by eapply helps_intro.
Qed.

(** A parked mutator leaves its safe point. *)
Lemma parked_helps : m_state h = State_ResumeTheWorld →
  (m_mode h ≠ GuardPagePosix → m_resumeEvent h = true) → 1 ≤ count parked ths → helps false.
Proof.
  intros Hres Hev (t & th & Ht & Hparked)%count_ex.
  pose proof (park_not_failed _ _ _ _ _ false Hinv Ht) as Hnf.
  assert (Hx : ∃ th' h', exec (mutatorCount ths) t (AGo 0 false) th h = Next th' h' ∧
    weight false th' < weight false th ∧ is_owner (t_pc th') = false ∧ is_owner (t_pc th) = false).
  { unfold parked in Hparked. unfold exec. destruct (t_pc th) eqn:Hp; try discriminate Hparked;
      unfold park_step, atomicDec_handshake, dec, go in Hnf |- *; rewrite Hp in Hnf |- *;
      rewrite ?Hres in Hnf |- *.
    - exists (with_pc (ParkLeave r) th), h. unfold weight. rewrite Hp. simpl. split; [|lia || by split; [lia|] ].
      destruct (m_mode h); try reflexivity; by rewrite Hev.
    - eexists _, _. split; [reflexivity|]. unfold weight. rewrite Hp. simpl. by split; [lia|].
    - destruct (m_handshakeCount h); [done|]. eexists _, _. split; [reflexivity|].
      unfold weight. rewrite Hp. simpl. destruct isAbort, r; simpl; by split; [lia|]. }
  destruct Hx as (th' & h' & He & Hw & Ho' & Ho). by eapply (helps_intro false t (AGo 0 false) th).
Qed.
End next.

(** ** Back to the idle state *)

(** One step towards the idle state: the collector is closer to it, or it is
    where it was and the threads are closer to what it waits for. *)
Lemma next_step c p ths h : inv (Some (c, p)) (mkSystem ths h) → lock_ok (mkSystem ths h) →
  ∃ s', coop_step (mkSystem ths h) s' ∧ ∀ c' p', inv (Some (c', p')) s' →
    rank p' < rank p ∨
    (p' = p ∧ total (weight (stopping_pc p)) (s_threads s') < total (weight (stopping_pc p)) ths).
Proof.
  intros Hinv Hlock. destruct (inv_owner_inv _ _ Hinv c p eq_refl) as (th & Ht & Hp & Ho). simpl in Ht.
  assert (Hhelp : helps c ths h (stopping_pc p) →
    ∃ s', coop_step (mkSystem ths h) s' ∧ ∀ c' p', inv (Some (c', p')) s' → rank p' < rank p ∨
    (p' = p ∧ total (weight (stopping_pc p)) (s_threads s') < total (weight (stopping_pc p)) ths)).
  { intros (t & a & th1 & th' & h' & Ht1 & Hne & Ha & He & Hw & Ho').
    exists (mkSystem (<[t := th']> ths) h'). split.
    - exists t, a. split; [done|]. unfold sys_exec. simpl. by rewrite Ht1, He.
    - intros c' p' Hi. right. split; [|by eapply total_insert].
      assert (H1 : <[t := th']> ths !! c = Some th) by by rewrite lookup_insert_ne.
      assert (H2 := inv_owner _ _ Hi c th H1). rewrite Hp in H2. by injection (H2 Ho). }
  pose proof (inv_phase _ _ Hinv) as Hph. simpl in Hph.
  assert (Hop : is_owner (t_pc th) = true) by congruence.
  destruct (owner_exec (mutatorCount ths) c th h Hop)
    as [(th' & h' & He & Hr)|[(Hs & j & n & Heq)|[(Hs & j & alive & n & Heq)|(j & alive & u & Heq & Hu)] ] ].
  - exists (mkSystem (<[c := th']> ths) h'). split.
    + exists c, (AGo 0 false). split; [done|]. unfold sys_exec. cbn [s_threads s_heap]. by rewrite Ht, He.
    + intros c' p' Hi. left. destruct (inv_owner_inv _ _ Hi c' p' eq_refl) as (th2 & H2 & Hp2 & Ho2).
      simpl in H2. apply lookup_insert_Some in H2 as [ [<- <-]|[Hne H2] ]; [congruence|].
      rewrite <- Hp2 in Ho2. pose proof (inv_owner _ _ Hinv c' th2 H2 Ho2) as [= -> _]. done.
  - apply Hhelp. rewrite Hp in Heq. subst p. rewrite Heq in *. simpl.
    open_phase Hph. apply (mutator_helps c (SWait j n)); try done.
    + unfold isHit. destruct (m_mode h); [by apply bool_decide_eq_true|..];
        match goal with H : m_guardPage h = _ |- _ => rewrite H end; by destruct n.
    + destruct (count pend ths); [|lia]. destruct n; [done|].
      match goal with H : m_handshakeSignal h = _ |- _ => rewrite H in Hs; discriminate Hs end.
  - apply Hhelp. rewrite Hp in Heq. subst p. rewrite Heq in *. simpl.
    open_phase Hph. apply (parked_helps c (RWait j alive n)); try done.
    destruct (count parked ths); [|lia].
    match goal with H : m_handshakeSignal h = _ |- _ => rewrite H in Hs; discriminate Hs end.
  - apply Hhelp. rewrite Hp in Heq. subst p. rewrite Heq in *. simpl.
    apply (holder_helps c (FLock j alive) ths h Hinv Hlock false u Hu); [done|].
    open_phase Hph; bad_state.
Qed.

Lemma back_to_idle r : ∀ m c p s, inv (Some (c, p)) s → lock_ok s → rank p ≤ r →
  total (weight (stopping_pc p)) (s_threads s) ≤ m →
  ∃ s', rtc coop_step s s' ∧ inv None s'.
Proof.
  induction r as [r IHr] using lt_wf_ind. intros m. induction m as [m IHm] using lt_wf_ind.
  intros c p [ths h] Hinv Hlock Hr Hm.
  destruct (next_step c p ths h Hinv Hlock) as (s1 & Hs & Hnext).
  pose proof (coop_step_step _ _ Hs) as Hst.
  destruct (step_inv _ _ _ Hinv Hst) as [ [ [c' p']|] H1];
    [|exists s1; split; [by apply rtc_once|done] ].
  pose proof (lock_ok_step _ _ Hlock Hst) as Hl1.
  assert (Hx : ∃ s', rtc coop_step s1 s' ∧ inv None s').
  { destruct (Hnext c' p' H1) as [Hlt|[-> Hlt] ].
    - eapply (IHr (rank p')); [lia|done|done|lia|done].
    - eapply (IHm (total (weight (stopping_pc p)) (s_threads s1))); [simpl in *; lia|done|done|lia|done]. }
  destruct Hx as (s' & Hr' & Hn). exists s'. split; [by eapply rtc_l|done].
Qed.

(** C14: the heap never gets stuck while it stops or resumes the world: from
    every reachable state, whatever phase the collector is in and whoever holds
    the lock, a schedule in which threads only go on with their operations and
    running mutators only reach a safe point leads back to the idle state, with no
    collector, nobody parked, and no handshake pending. *)
Theorem world_resumes s : reachable s → ∃ s', rtc coop_step s s' ∧
  m_state (s_heap s') = State_Idle ∧ m_handshakeCount (s_heap s') = 0 ∧
  m_guardPage (s_heap s') = false ∧
  ∀ t th, s_threads s' !! t = Some th → parked th = false ∧ is_owner (t_pc th) = false.
Proof.
  intros Hreach. destruct (reachable_inv s Hreach) as [o Hinv]. pose proof (reachable_lock s Hreach) as Hlock.
  assert (Hx : ∃ s', rtc coop_step s s' ∧ inv None s').
  { destruct o as [ [c p]|]; [|by exists s]. by eapply (back_to_idle (rank p)). }
  destruct Hx as (s' & Hr & Hn). exists s'. split; [done|].
  pose proof (inv_phase _ _ Hn) as Hph. simpl in Hph. unfold quiet in Hph. destruct_and?.
  split; [done|]. split; [done|]. split; [done|]. intros t th Ht. split; [by eapply count_zero|].
  destruct (is_owner (t_pc th)) eqn:Ho; [|done]. by pose proof (inv_owner _ _ Hn t th Ht Ho).
Qed.

(** From the marking phase, with a mutator parked and another waiting. *)
Lemma world_resumes_witness : ∃ s', rtc coop_step (after GuardPagePosix collecting) s' ∧
  m_state (s_heap s') = State_Idle ∧ m_handshakeCount (s_heap s') = 0 ∧
  m_guardPage (s_heap s') = false ∧
  ∀ t th, s_threads s' !! t = Some th → parked th = false ∧ is_owner (t_pc th) = false.
Proof. exact (world_resumes _ (after_reachable GuardPagePosix collecting)). Defined.
