(* ===== verification/WsFrame.v ===== *)
(** * WebSocket frames

    Models [src/src/jnc_ext/jnc_io_websocket/jnc_io_WebSocketFrame.cpp] and
    [jnc_io_WebSocketFrameParser.cpp]: frames, masking, building a frame and the
    incremental parser.

    Memory is a list of bytes, and an access outside of a buffer has no result.
    Words are stored little-endian, as on the targets of the code base. Alignment,
    the swapping of byte orders and the allocation of buffers are the library's:
    they are an interface. *)

From S2P Require Import Prelude.
From coqutil Require Import Byte.
From coqutil.Word Require Import LittleEndianList.

(** ** What the library promises *)

Class AxlMemory := {
  align4 : nat → nat;                 (* sl::align<4> *)
  swapByteOrder16 : Z → Z;
  swapByteOrder64 : Z → Z;
  allocates : nat → bool;             (* a buffer can have this size *)
  slack : nat → list byte             (* unused memory at the end of a buffer *)
}.

Class AxlMemoryLaws (X : AxlMemory) : Prop := {
  align4_ge n : n ≤ align4 n;
  align4_divide n : Nat.divide 4 (align4 n);
  align4_lt n : align4 n < n + 4;
  swapByteOrder16_rev z : swapByteOrder16 z = le_combine (rev (le_split 2 z));
  swapByteOrder64_rev z : swapByteOrder64 z = le_combine (rev (le_split 8 z));
  slack_length n : length (slack n) = n
}.

(** An access to memory: [n] bytes at [pos]. *)
Definition write (buffer : list byte) (pos : nat) (bytes : list byte) : option (list byte) :=
  if pos + length bytes <=? length buffer
  then Some (take pos buffer ++ bytes ++ drop (pos + length bytes) buffer)
  else None.

(** ** Frames *)

Definition WebSocketFrameOpcode_Continuation : Z := 0.
Definition WebSocketFrameOpcode_Text : Z := 1.
Definition WebSocketFrameOpcode_Binary : Z := 2.
Definition WebSocketFrameOpcode_Close : Z := 8.
Definition WebSocketFrameOpcode_Ping : Z := 9.
Definition WebSocketFrameOpcode_Pong : Z := 10.
Definition WebSocketFrameOpcode_FirstControl : Z := WebSocketFrameOpcode_Close.
Definition WebSocketFrameOpcode_Undefined : Z := -1.

(** The bit fields of the header, from the low bits of each byte. *)
Record WebSocketFrameHdr := mkHdr {
  m_opcode : Z; m_reserved : Z; m_fin : bool; m_lengthCode : Z; m_mask : bool
}.

Definition hdr_bytes (h : WebSocketFrameHdr) : list byte :=
  [byte.of_Z (Z.lor (Z.land (m_opcode h) 15)
     (Z.lor (Z.shiftl (Z.land (m_reserved h) 7) 4) (Z.shiftl (Z.b2z (m_fin h)) 7)));
   byte.of_Z (Z.lor (Z.land (m_lengthCode h) 127) (Z.shiftl (Z.b2z (m_mask h)) 7))].

Definition hdr_of_bytes (bs : list byte) : WebSocketFrameHdr :=
  match bs with
  | b0 :: b1 :: _ =>
    let x := byte.unsigned b0 in let y := byte.unsigned b1 in
    mkHdr (Z.land x 15) (Z.land (Z.shiftr x 4) 7) (Z.testbit x 7) (Z.land y 127) (Z.testbit y 7)
  | _ => mkHdr 0 0 false 0 false
  end.

Record WebSocketFrame := mkFrame {
  f_hdr : WebSocketFrameHdr;
  m_payloadLength : Z;
  m_maskKey : Z;
  m_payload : list byte
}.

(** [WebSocketFrame::clear] *)
Definition clear_frame : WebSocketFrame := mkFrame (mkHdr 0 0 false 0 false) 0 0 [].

Definition set_hdr (h : WebSocketFrameHdr) (f : WebSocketFrame) : WebSocketFrame :=
  mkFrame h (m_payloadLength f) (m_maskKey f) (m_payload f).
Definition set_payloadLength (n : Z) (f : WebSocketFrame) : WebSocketFrame :=
  mkFrame (f_hdr f) n (m_maskKey f) (m_payload f).
Definition set_maskKey (k : Z) (f : WebSocketFrame) : WebSocketFrame :=
  mkFrame (f_hdr f) (m_payloadLength f) k (m_payload f).
Definition set_payload (p : list byte) (f : WebSocketFrame) : WebSocketFrame :=
  mkFrame (f_hdr f) (m_payloadLength f) (m_maskKey f) p.

(** ** Masking *)

(** One word of the loop of [mask]. *)
Definition mask_word (buffer : list byte) (key : Z) : option (list byte) :=
  if length buffer <? 4 then None else Some (le_split 4 (Z.lxor (le_combine (take 4 buffer)) key)).

(** The loop of [mask]: whole words while there is a byte left before [size]. *)
Fixpoint mask (buffer : list byte) (size : nat) (key : Z) {struct size} : option (list byte) :=
  match size with
  | O => Some buffer
  | S size =>
    word ← mask_word buffer key;
    rest ← match size with S (S (S size)) => mask (drop 4 buffer) size key | _ => Some (drop 4 buffer) end;
    Some (word ++ rest)
  end.

(** Masking as RFC 6455 states it: octet [i] with octet [i mod 4] of the key. *)
Definition mask_octet (key : Z) (i : nat) (b : byte) : byte :=
  byte.of_Z (Z.lxor (byte.unsigned b) (Z.shiftr key (8 * Z.of_nat (i mod 4)))).

Definition mask_spec (key : Z) (payload : list byte) : list byte := imap (mask_octet key) payload.

(** ** Building *)

Section build.
Context `{X : AxlMemory}.

(** The length code, and the bytes of the extended length. *)
Definition length_bytes (payloadSize : Z) : Z * list byte :=
  if (payloadSize <? 126)%Z then (payloadSize, [])
  else if (payloadSize <? 65536)%Z then (126%Z, le_split 2 (swapByteOrder16 (Z.land payloadSize 65535)))
  else (127%Z, le_split 8 (swapByteOrder64 payloadSize)).

Inductive build_result := BuildFailed | BuildOutOfBounds | Built (frame : list byte).

(** [RAND_bytes] is the bytes of [RAND_bytes]. *)
Definition buildWebSocketFrame (RAND_bytes : list byte) (opcode : Z) (isFinal isMasked : bool)
    (payload : list byte) : build_result :=
  let payloadSize := length payload in
  let reserveSize := 2 + 8 + 4 + align4 payloadSize in
  if negb (allocates reserveSize) then BuildFailed
  else
    let buffer := replicate reserveSize Byte.x00 in
    let '(lengthCode, lengthBytes) := length_bytes (Z.of_nat payloadSize) in
    let p := 2 + length lengthBytes in
    match
      buffer ← write buffer 0 (hdr_bytes (mkHdr opcode 0 isFinal lengthCode isMasked));
      buffer ← write buffer 2 lengthBytes;
      if negb isMasked then
        buffer ← write buffer p payload;
        Some (buffer, p + payloadSize)
      else
        buffer ← write buffer p RAND_bytes;
        let key := le_combine (take 4 (drop p buffer)) in
        let p := p + 4 in
        buffer ← write buffer p payload;
        masked ← mask (drop p buffer) payloadSize key;
        Some (take p buffer ++ masked, p + payloadSize)
    with
    | None => BuildOutOfBounds
    | Some (buffer, frameSize) => Built (take frameSize buffer)
    end.
End build.

(** ** Parsing *)

(** [WebSocketFrameParser::State] *)
Inductive State :=
  | State_Header | State_PayloadLength16 | State_PayloadLength64 | State_MaskKey | State_Payload
  | State_Completed.

#[export] Instance State_eq_dec : EqDecision State.
Proof. solve_decision. Defined.

Record WebSocketFrameParser := mkParser {
  m_state : State; m_buffer : list byte; m_frame : WebSocketFrame
}.

Definition MaxPayloadLength : Z := 0x7fffffffffffffff.

Definition reset (ps : WebSocketFrameParser) : WebSocketFrameParser := mkParser State_Header [] (m_frame ps).

Definition isCompleted (ps : WebSocketFrameParser) : bool := bool_decide (m_state ps = State_Completed).

Definition getPayloadState (f : WebSocketFrame) : State :=
  if (m_payloadLength f =? 0)%Z then State_Completed else State_Payload.

Definition getMaskState (f : WebSocketFrame) : State :=
  if m_mask (f_hdr f) then State_MaskKey else getPayloadState f.

(** [None]: the assertion fails. *)
Definition bufferUntil (buffer : list byte) (targetSize : Z) (p : list byte) : option (list byte * nat) :=
  let bufferSize := Z.of_nat (length buffer) in
  if (bufferSize <? targetSize)%Z then
    let copySize := Z.to_nat (Z.min (targetSize - bufferSize) (Z.of_nat (length p))) in
    Some (buffer ++ take copySize p, copySize)
  else None.

Inductive parse_error :=
  | FragmentedControlFrame | UnknownOpcode | PayloadTooLarge.

(** What a pass of the loop does: an error, a failed assertion, a piece of a part
    that takes all the input, or a whole part and the number of its bytes. *)
Inductive step_result :=
  | StepError (e : parse_error) | StepAssert | StepPart (ps : WebSocketFrameParser)
  | StepDone (ps : WebSocketFrameParser) (n : nat).

Section parse.
Context `{X : AxlMemory}.

(** The static [mask] of the parser. *)
Definition mask_buffer (buffer : list byte) (key : Z) : option (list byte) :=
  let size := length buffer in
  masked ← mask (buffer ++ slack (align4 size - size)) size key;
  Some (take size masked).

(** The switch on the opcode of a header. *)
Definition check_opcode (h : WebSocketFrameHdr) : option parse_error :=
  let o := m_opcode h in
  if (o =? WebSocketFrameOpcode_Continuation)%Z || (o =? WebSocketFrameOpcode_Text)%Z ||
     (o =? WebSocketFrameOpcode_Binary)%Z then None
  else if (o =? WebSocketFrameOpcode_Close)%Z || (o =? WebSocketFrameOpcode_Ping)%Z ||
     (o =? WebSocketFrameOpcode_Pong)%Z then (if m_fin h then None else Some FragmentedControlFrame)
  else Some UnknownOpcode.

(** The switch on the length code of a header. *)
Definition length_state (h : WebSocketFrameHdr) (f : WebSocketFrame) : WebSocketFrameParser :=
  if (m_lengthCode h =? 126)%Z then mkParser State_PayloadLength16 [] f
  else if (m_lengthCode h =? 127)%Z then mkParser State_PayloadLength64 [] f
  else let f := set_payloadLength (m_lengthCode h) f in mkParser (getMaskState f) [] f.

Definition parse_step (ps : WebSocketFrameParser) (p : list byte) : step_result :=
  let f := m_frame ps in
  match m_state ps with
  | State_Header =>
    match bufferUntil (m_buffer ps) 2 p with
    | None => StepAssert
    | Some (buffer, n) =>
      if length buffer <? 2 then StepPart (mkParser State_Header buffer f)
      else
        let h := hdr_of_bytes buffer in
        match check_opcode h with
        | Some e => StepError e
        | None => StepDone (length_state h (set_hdr h clear_frame)) n
        end
    end
  | State_PayloadLength16 =>
    match bufferUntil (m_buffer ps) 2 p with
    | None => StepAssert
    | Some (buffer, n) =>
      if length buffer <? 2 then StepPart (mkParser State_PayloadLength16 buffer f)
      else
        let f := set_payloadLength (swapByteOrder16 (le_combine (take 2 buffer))) f in
        StepDone (mkParser (getMaskState f) [] f) n
    end
  | State_PayloadLength64 =>
    match bufferUntil (m_buffer ps) 8 p with
    | None => StepAssert
    | Some (buffer, n) =>
      if length buffer <? 8 then StepPart (mkParser State_PayloadLength64 buffer f)
      else
        let payloadLength := swapByteOrder64 (le_combine (take 8 buffer)) in
        if (MaxPayloadLength <? payloadLength)%Z then StepError PayloadTooLarge
        else
          let f := set_payloadLength payloadLength f in
          StepDone (mkParser (getMaskState f) [] f) n
    end
  | State_MaskKey =>
    match bufferUntil (m_buffer ps) 4 p with
    | None => StepAssert
    | Some (buffer, n) =>
      if length buffer <? 4 then StepPart (mkParser State_MaskKey buffer f)
      else
        let f := set_maskKey (le_combine (take 4 buffer)) f in
        StepDone (mkParser (getPayloadState f) [] f) n
    end
  | State_Payload =>
    match bufferUntil (m_payload f) (m_payloadLength f) p with
    | None => StepAssert
    | Some (payload, n) =>
      let f := set_payload payload f in
      if (Z.of_nat (length payload) <? m_payloadLength f)%Z
      then StepPart (mkParser State_Payload (m_buffer ps) f)
      else if m_mask (f_hdr f) then
        match mask_buffer payload (m_maskKey f) with
        | None => StepAssert
        | Some payload => StepDone (mkParser State_Completed (m_buffer ps) (set_payload payload f)) n
        end
      else StepDone (mkParser State_Completed (m_buffer ps) f) n
    end
  | State_Completed => StepAssert
  end.

Inductive parse_result :=
  | ParseError (e : parse_error) | ParseAssert | Parsed (ps : WebSocketFrameParser) (n : nat).

(** The loop of [parse]; [None]: it has not returned within [fuel] passes. *)
Fixpoint parse_loop (fuel : nat) (ps : WebSocketFrameParser) (p : list byte) (n : nat) : option parse_result :=
  if bool_decide (p = []) || isCompleted ps then Some (Parsed ps n)
  else
    match fuel with
    | O => None
    | S fuel =>
      match parse_step ps p with
      | StepError e => Some (ParseError e)
      | StepAssert => Some ParseAssert
      | StepPart ps => Some (Parsed ps (n + length p))
      | StepDone ps k => parse_loop fuel ps (drop k p) (n + k)
      end
    end.

(** Each pass takes a byte, so that the size of the input is fuel enough. *)
Definition parse (ps : WebSocketFrameParser) (p : list byte) : option parse_result :=
  parse_loop (length p) ps p 0.
End parse.

(** ** Masking is what the protocol states *)

Section masking.
Open Scope Z_scope.

Lemma of_Z_mod z : byte.of_Z (z mod 2 ^ 8) = byte.of_Z z.
Proof.
  apply byte.unsigned_inj. rewrite !byte.unsigned_of_Z. unfold byte.wrap. by rewrite Zmod_mod.
Qed.

Lemma of_Z_low a b : Z.land a 255 = Z.land b 255 → byte.of_Z a = byte.of_Z b.
Proof.
  intros H. change 255 with (Z.ones 8) in H. rewrite !Z.land_ones in H by lia.
  by rewrite <- (of_Z_mod a), <- (of_Z_mod b), H.
Qed.

Lemma unsigned_shift b n : 8 ≤ n → Z.shiftr (byte.unsigned b) n = 0.
Proof.
  intros Hn. pose proof (byte.unsigned_range b). rewrite Z.shiftr_div_pow2 by lia. apply Z.div_small.
  split; [lia|]. assert (2 ^ 8 ≤ 2 ^ n) by (apply Z.pow_le_mono_r; lia). lia.
Qed.

Lemma le_split_S n w : le_split (S n) w = byte.of_Z w :: le_split n (Z.shiftr w 8).
Proof. done. Qed.

Lemma le_combine_cons b bs : le_combine (b :: bs) = Z.lor (byte.unsigned b) (Z.shiftl (le_combine bs) 8).
Proof. done. Qed.

(** The bytes of a word exclusive-or a key. *)
Lemma split_lxor bs key :
  le_split (length bs) (Z.lxor (le_combine bs) key) =
  imap (λ i b, byte.of_Z (Z.lxor (byte.unsigned b) (Z.shiftr key (8 * Z.of_nat i)))) bs.
Proof.
  revert key. induction bs as [|b bs IH]; intros key; [done|].
  simpl length. rewrite le_split_S, le_combine_cons, imap_cons. f_equal.
  - apply of_Z_low. rewrite Z.mul_0_r, Z.shiftr_0_r. apply Z.bits_inj'. intros i Hi.
    rewrite !Z.land_spec, !Z.lxor_spec, Z.lor_spec.
    change 255 with (Z.ones 8). destruct (decide (i < 8)).
    + rewrite Z.shiftl_spec by lia. rewrite (Z.testbit_neg_r _ (i - 8)) by lia. by rewrite orb_false_r.
    + by rewrite Z.ones_spec_high, !andb_false_r by lia.
  - rewrite Z.shiftr_lxor, Z.shiftr_lor, unsigned_shift, Z.shiftr_shiftl_l, Z.shiftl_0_r, Z.lor_0_l by lia.
    rewrite IH. apply imap_ext. intros i x _. simpl. rewrite Z.shiftr_shiftr by lia.
    do 2 f_equal. f_equal. lia.
Qed.

Lemma mask_octet_involutive key i b : mask_octet key i (mask_octet key i b) = b.
Proof.
  unfold mask_octet. apply byte.unsigned_inj. rewrite !byte.unsigned_of_Z. unfold byte.wrap.
  change (2 ^ 8) with (2 ^ 8). rewrite <- !Z.land_ones by lia.
  transitivity (Z.land (byte.unsigned b) (Z.ones 8)).
  - apply Z.bits_inj'. intros j Hj. rewrite !Z.land_spec, !Z.lxor_spec, Z.land_spec, Z.lxor_spec.
    destruct (Z.testbit (Z.ones 8) j); [|by rewrite !andb_false_r]. rewrite !andb_true_r.
    by rewrite xorb_assoc, xorb_nilpotent, xorb_false_r.
  - rewrite Z.land_ones by lia. apply Z.mod_small. apply byte.unsigned_range.
Qed.
End masking.

Lemma mask_spec_length key p : length (mask_spec key p) = length p.
Proof. apply length_imap. Qed.

Lemma mask_spec_involutive key p : mask_spec key (mask_spec key p) = p.
Proof.
  unfold mask_spec. apply list_eq. intros i. rewrite !list_lookup_imap. destruct (p !! i); [|done]. simpl.
  by rewrite mask_octet_involutive.
Qed.

Lemma mask_octet_4 key i b : mask_octet key (4 + i) b = mask_octet key i b.
Proof.
  unfold mask_octet. assert (H : (4 + i) mod 4 = i mod 4); [|by rewrite H].
  rewrite <- (Nat.Div0.mod_add i 1 4). f_equal. lia.
Qed.

Lemma mask_spec_app key p q : length p = 4 → mask_spec key (p ++ q) = mask_spec key p ++ mask_spec key q.
Proof.
  intros Hp. unfold mask_spec. rewrite imap_app. f_equal. apply imap_ext. intros i x _.
  rewrite Hp. apply mask_octet_4.
Qed.

Lemma mask_word_spec buffer key : 4 ≤ length buffer →
  mask_word buffer key = Some (mask_spec key (take 4 buffer)).
Proof.
  intros Hl. unfold mask_word. rewrite (proj2 (Nat.ltb_ge _ _) Hl). f_equal.
  assert (H4 : length (take 4 buffer) = 4) by (rewrite length_take; lia).
  rewrite <- H4 at 1. rewrite split_lxor. unfold mask_spec. apply imap_ext. intros i x Hi.
  apply lookup_lt_Some in Hi. unfold mask_octet. by rewrite Nat.mod_small by lia.
Qed.

(** The mask stays inside of the memory up to the next word boundary, and masks
    the octets it is to mask. *)
Lemma mask_ok size : ∀ buffer key m, size ≤ m → m < size + 4 → Nat.divide 4 m → m ≤ length buffer →
  ∃ r, mask buffer size key = Some r ∧ length r = length buffer ∧
       take size r = mask_spec key (take size buffer).
Proof.
  induction size as [size IH] using lt_wf_ind. intros buffer key m Hm1 Hm2 [q Hq] Hl.
  destruct size as [|size]; [by exists buffer|].
  assert (H4 : 4 ≤ m) by lia. cbn [mask]. rewrite mask_word_spec by lia. simpl.
  assert (Hshort : size < 3 → ∃ r, Some (mask_spec key (take 4 buffer) ++ drop 4 buffer) = Some r ∧
    length r = length buffer ∧ take (S size) r = mask_spec key (take (S size) buffer)).
  { intros Hs. eexists. split; [done|]. rewrite length_app, mask_spec_length, length_take, length_drop.
    split; [lia|]. rewrite take_app_le by (rewrite mask_spec_length, length_take; lia).
    apply list_eq. intros i. unfold mask_spec. destruct (decide (i < S size)).
    - rewrite lookup_take_lt, !list_lookup_imap, !lookup_take_lt by lia. done.
    - rewrite lookup_take_ge by lia. rewrite list_lookup_imap, lookup_take_ge by lia. done. }
  destruct size as [|[|[|size] ] ]; try (apply Hshort; lia).
  destruct (IH size ltac:(lia) (drop 4 buffer) key (m - 4)) as (r & Hr & Hlen & Htake).
  - lia.
  - lia.
  - exists (q - 1). lia.
  - rewrite length_drop. lia.
  - rewrite Hr. simpl. eexists. split; [done|].
    assert (Ht : length (take 4 buffer) = 4) by (rewrite length_take; lia).
    rewrite length_app, mask_spec_length, Hlen, length_drop, Ht. split; [lia|].
    rewrite take_app, mask_spec_length, Ht. replace (S (S (S (S size))) - 4) with size by lia.
    rewrite Htake. rewrite take_ge by (rewrite mask_spec_length, Ht; lia).
    rewrite <- mask_spec_app by done. f_equal.
    rewrite <- (take_drop 4 buffer) at 3. rewrite take_app, Ht.
    rewrite (take_ge (take 4 buffer)) by lia. by replace (S (S (S (S size))) - 4) with size by lia.
Qed.

(** masking a buffer that reaches to the next word boundary is the masking
    of RFC 6455: octet [i] of the payload is combined with octet [i mod 4] of the
    key; nothing outside of the buffer is touched. *)
Theorem mask_correct size buffer key m : size ≤ m → m < size + 4 → Nat.divide 4 m → m ≤ length buffer →
  ∃ r, mask buffer size key = Some r ∧ length r = length buffer ∧
       take size r = mask_spec key (take size buffer).
Proof. apply mask_ok. Qed.

(** ** The parser: parts and passes *)

Section parser.
Context `{X : AxlMemory, XL : !AxlMemoryLaws X}.

(** The size of the part the parser reads, and what it has of it. *)
Definition target (ps : WebSocketFrameParser) : Z :=
  match m_state ps with
  | State_Header | State_PayloadLength16 => 2
  | State_PayloadLength64 => 8
  | State_MaskKey => 4
  | State_Payload => m_payloadLength (m_frame ps)
  | State_Completed => 0
  end.

Definition buffered (ps : WebSocketFrameParser) : list byte :=
  match m_state ps with State_Payload => m_payload (m_frame ps) | _ => m_buffer ps end.

Definition with_buffered (b : list byte) (ps : WebSocketFrameParser) : WebSocketFrameParser :=
  match m_state ps with
  | State_Payload => mkParser State_Payload (m_buffer ps) (set_payload b (m_frame ps))
  | st => mkParser st b (m_frame ps)
  end.

(** What happens when the part is complete. *)
Definition finish (ps : WebSocketFrameParser) (b : list byte) (n : nat) : step_result :=
  let f := m_frame ps in
  match m_state ps with
  | State_Header =>
    let h := hdr_of_bytes b in
    match check_opcode h with
    | Some e => StepError e
    | None => StepDone (length_state h (set_hdr h clear_frame)) n
    end
  | State_PayloadLength16 =>
    let f := set_payloadLength (swapByteOrder16 (le_combine (take 2 b))) f in
    StepDone (mkParser (getMaskState f) [] f) n
  | State_PayloadLength64 =>
    let payloadLength := swapByteOrder64 (le_combine (take 8 b)) in
    if (MaxPayloadLength <? payloadLength)%Z then StepError PayloadTooLarge
    else let f := set_payloadLength payloadLength f in StepDone (mkParser (getMaskState f) [] f) n
  | State_MaskKey =>
    let f := set_maskKey (le_combine (take 4 b)) f in
    StepDone (mkParser (getPayloadState f) [] f) n
  | State_Payload =>
    StepDone (mkParser State_Completed (m_buffer ps)
      (set_payload (if m_mask (f_hdr f) then mask_spec (m_maskKey f) b else b) f)) n
  | State_Completed => StepAssert
  end.

Lemma mask_buffer_spec b key : mask_buffer b key = Some (mask_spec key b).
Proof.
  unfold mask_buffer.
  destruct (mask_ok (length b) (b ++ slack (align4 (length b) - length b)) key (align4 (length b)))
    as (r & Hr & _ & Ht).
  - apply align4_ge.
  - apply align4_lt.
  - apply align4_divide.
  - rewrite length_app, slack_length. pose proof (align4_ge (length b)). lia.
  - rewrite Hr. simpl. by rewrite Ht, take_app_length.
Qed.

Lemma bufferUntil_part b t p : (Z.of_nat (length b) < t)%Z →
  (Z.of_nat (length p) < t - Z.of_nat (length b))%Z → bufferUntil b t p = Some (b ++ p, length p).
Proof.
  intros Hb Hp. unfold bufferUntil. rewrite (proj2 (Z.ltb_lt _ _) Hb).
  by rewrite Z.min_r, Nat2Z.id, (take_ge p) by lia.
Qed.

Lemma bufferUntil_whole b t p : (Z.of_nat (length b) < t)%Z →
  (t - Z.of_nat (length b) ≤ Z.of_nat (length p))%Z →
  bufferUntil b t p = Some (b ++ take (Z.to_nat (t - Z.of_nat (length b))) p, Z.to_nat (t - Z.of_nat (length b))).
Proof.
  intros Hb Hp. unfold bufferUntil. rewrite (proj2 (Z.ltb_lt _ _) Hb). by rewrite Z.min_l by lia.
Qed.

(** A pass takes what is missing of the part, or all of the input. *)
Lemma parse_step_view ps p : m_state ps ≠ State_Completed →
  (Z.of_nat (length (buffered ps)) < target ps)%Z →
  parse_step ps p =
    let need := (target ps - Z.of_nat (length (buffered ps)))%Z in
    if (Z.of_nat (length p) <? need)%Z then StepPart (with_buffered (buffered ps ++ p) ps)
    else finish ps (buffered ps ++ take (Z.to_nat need) p) (Z.to_nat need).
Proof.
  intros Hst Hlt. cbv zeta.
  destruct (Z.ltb_spec (Z.of_nat (length p)) (target ps - Z.of_nat (length (buffered ps)))) as [Hn|Hn];
    unfold parse_step, finish, with_buffered; unfold target, buffered in *; destruct ps as [st b f];
    destruct st; cbn [m_state m_buffer m_frame] in *; try done.
  1-4: rewrite bufferUntil_part by lia; rewrite (proj2 (Nat.ltb_lt _ _)) by (rewrite length_app; lia); done.
  2-5: rewrite bufferUntil_whole by lia; rewrite (proj2 (Nat.ltb_ge _ _)) by (rewrite length_app, length_take; lia); done.
  - rewrite bufferUntil_part by lia. cbn [m_payloadLength set_payload].
    by rewrite (proj2 (Z.ltb_lt _ _)) by (rewrite length_app; lia).
  - rewrite bufferUntil_whole by lia. cbn [m_payloadLength set_payload f_hdr m_maskKey].
    rewrite (proj2 (Z.ltb_ge _ _)) by (rewrite length_app, length_take; lia).
    destruct (m_mask (f_hdr f)); [|done]. by rewrite mask_buffer_spec.
Qed.

(** The invariant of the parser. *)
Definition parser_ok (ps : WebSocketFrameParser) : Prop :=
  (m_state ps ≠ State_Completed → (Z.of_nat (length (buffered ps)) < target ps)%Z) ∧
  match m_state ps with
  | State_PayloadLength16 | State_PayloadLength64 => m_payload (m_frame ps) = []
  | State_MaskKey => m_payload (m_frame ps) = [] ∧ (0 ≤ m_payloadLength (m_frame ps))%Z
  | _ => True
  end.

Lemma getPayloadState_ok f : m_payload f = [] → (0 ≤ m_payloadLength f)%Z →
  parser_ok (mkParser (getPayloadState f) [] f).
Proof.
  intros Hp Hl. unfold getPayloadState, parser_ok. destruct (Z.eqb_spec (m_payloadLength f) 0); [done|].
  simpl. split; [|done]. intros _. unfold buffered, target. simpl. rewrite Hp. simpl. lia.
Qed.

Lemma getMaskState_ok f : m_payload f = [] → (0 ≤ m_payloadLength f)%Z →
  parser_ok (mkParser (getMaskState f) [] f).
Proof.
  intros Hp Hl. unfold getMaskState. destruct (m_mask (f_hdr f)); [|by apply getPayloadState_ok].
  split; [|done]. intros _. done.
Qed.

Lemma swap16_nonneg z : (0 ≤ swapByteOrder16 z)%Z.
Proof. rewrite swapByteOrder16_rev. apply le_combine_bound. Qed.

Lemma swap64_nonneg z : (0 ≤ swapByteOrder64 z)%Z.
Proof. rewrite swapByteOrder64_rev. apply le_combine_bound. Qed.

Lemma length_code_nonneg b : (0 ≤ m_lengthCode (hdr_of_bytes b))%Z.
Proof. destruct b as [|b0 [|b1 b] ]; simpl; try done. apply Z.land_nonneg. lia. Qed.

Lemma finish_ok ps b n ps' k : parser_ok ps → finish ps b n = StepDone ps' k → k = n ∧ parser_ok ps'.
Proof.
  intros Hok. unfold finish. destruct ps as [st bf f]. destruct Hok as [_ Hok]. simpl in *. destruct st; simpl.
  - destruct (check_opcode (hdr_of_bytes b)); [done|]. intros [= <- <-]. split; [done|].
    unfold length_state. repeat case_match; [done..|]. apply getMaskState_ok; [done|]. apply length_code_nonneg.
  - intros [= <- <-]. split; [done|]. apply getMaskState_ok; [done|apply swap16_nonneg].
  - destruct (_ <? _)%Z; [done|]. intros [= <- <-]. split; [done|]. apply getMaskState_ok; [done|apply swap64_nonneg].
  - destruct Hok as [Hp Hl]. intros [= <- <-]. split; [done|]. by apply getPayloadState_ok.
  - intros [= <- <-]. done.
  - done.
Qed.

Lemma with_buffered_ok ps b : parser_ok ps → m_state ps ≠ State_Completed →
  (Z.of_nat (length b) < target ps)%Z →
  parser_ok (with_buffered b ps) ∧ m_state (with_buffered b ps) = m_state ps ∧
  buffered (with_buffered b ps) = b ∧ target (with_buffered b ps) = target ps.
Proof.
  intros [_ Hok] Hst Hb. destruct ps as [st bf f]. unfold with_buffered, parser_ok, target, buffered in *.
  destruct st; simpl in *; try done; split; try done; try split; done || lia.
Qed.

Lemma finish_with_buffered ps b b' n : finish (with_buffered b ps) b' n = finish ps b' n.
Proof. by destruct ps as [ [] bf [h l k p] ]. Qed.

Lemma with_buffered_twice ps b b' : with_buffered b' (with_buffered b ps) = with_buffered b' ps.
Proof. by destruct ps as [ [] bf [h l k p] ]. Qed.

Lemma finish_shift ps b n k : finish ps b (n + k) =
  match finish ps b n with StepDone ps' _ => StepDone ps' (n + k) | r => r end.
Proof. unfold finish. destruct ps as [ [] bf f]; simpl; repeat case_match; done. Qed.

(** A pass, whatever the input: it takes at least a byte and at most the input. *)
Lemma parse_step_ok ps p : parser_ok ps → m_state ps ≠ State_Completed → p ≠ [] →
  match parse_step ps p with
  | StepError _ => True
  | StepAssert => False
  | StepPart ps' => parser_ok ps' ∧ m_state ps' ≠ State_Completed
  | StepDone ps' k => parser_ok ps' ∧ 1 ≤ k ∧ k ≤ length p
  end.
Proof.
  intros Hok Hst Hp. pose proof (proj1 Hok Hst) as Hlt. rewrite (parse_step_view _ _ Hst Hlt). cbv zeta.
  destruct (Z.ltb_spec (Z.of_nat (length p)) (target ps - Z.of_nat (length (buffered ps)))).
  - destruct (with_buffered_ok ps (buffered ps ++ p) Hok Hst) as (H1 & H2 & _); [rewrite length_app; lia|].
    by rewrite H2.
  - destruct (finish _ _ _) as [e| |ps'|ps' k] eqn:Hf; [done|..].
    + unfold finish in Hf. destruct ps as [ [] bf f]; simpl in Hf; repeat case_match; done.
    + unfold finish in Hf. destruct ps as [ [] bf f]; simpl in Hf; repeat case_match; done.
    + apply finish_ok in Hf as [-> Hok']; [|done]. split; [done|]. lia.
Qed.

(** Splitting the input of a pass. *)
Lemma parse_step_app ps a b : parser_ok ps → m_state ps ≠ State_Completed → a ≠ [] →
  parse_step ps (a ++ b) =
  match parse_step ps a with
  | StepPart ps1 =>
    if bool_decide (b = []) then StepPart ps1
    else match parse_step ps1 b with
         | StepDone ps2 k => StepDone ps2 (length a + k)
         | r => r
         end
  | r => r
  end.
Proof.
  intros Hok Hst Ha. pose proof (proj1 Hok Hst) as Hlt.
  rewrite (parse_step_view _ (a ++ b) Hst Hlt), (parse_step_view _ a Hst Hlt). cbv zeta.
  destruct (Z.ltb_spec (Z.of_nat (length a)) (target ps - Z.of_nat (length (buffered ps)))) as [Hs|Hs].
  - destruct (with_buffered_ok ps (buffered ps ++ a) Hok Hst) as (H1 & H2 & H3 & H4); [rewrite length_app; lia|].
    case_bool_decide as Hb.
    { subst b. rewrite app_nil_r. by rewrite (proj2 (Z.ltb_lt _ _) Hs). }
    rewrite (parse_step_view (with_buffered _ ps) b) by
      first [by rewrite H2|rewrite H3, H4, length_app; lia].
    cbv zeta. rewrite H3, H4, !length_app, with_buffered_twice.
    destruct (Z.ltb_spec (Z.of_nat (length b)) (target ps - Z.of_nat (length (buffered ps) + length a))) as [Hs2|Hs2].
    + rewrite (proj2 (Z.ltb_lt _ _)) by lia. by rewrite app_assoc.
    + rewrite (proj2 (Z.ltb_ge _ _)) by lia. rewrite finish_with_buffered, <- app_assoc.
      rewrite take_app, (take_ge a) by lia.
      replace (Z.to_nat (target ps - Z.of_nat (length (buffered ps))) - length a)
        with (Z.to_nat (target ps - Z.of_nat (length (buffered ps) + length a))) by lia.
      set (k := Z.to_nat (target ps - Z.of_nat (length (buffered ps) + length a))).
      replace (Z.to_nat (target ps - Z.of_nat (length (buffered ps)))) with (k + length a) by lia.
      rewrite finish_shift. destruct (finish ps _ k) as [| | |ps2 k2] eqn:Hf; try done.
      apply finish_ok in Hf as [-> _]; [|done]. f_equal. lia.
  - rewrite (proj2 (Z.ltb_ge _ _)) by (rewrite length_app; lia). rewrite take_app_le by lia. done || idtac.
    by destruct (finish ps _ _) eqn:Hf; try (unfold finish in Hf; destruct ps as [ [] bf f]; simpl in Hf; repeat case_match; done).
Qed.

(** *** The loop *)

Lemma parse_loop_ok fuel : ∀ ps p n, parser_ok ps → length p ≤ fuel →
  ∃ r, parse_loop fuel ps p n = Some r ∧
    match r with
    | ParseError _ => True
    | ParseAssert => False
    | Parsed ps' n' => parser_ok ps' ∧ n' ≤ n + length p ∧ (isCompleted ps' = false → n' = n + length p)
    end.
Proof.
  induction fuel as [|fuel IH]; intros ps p n Hok Hl.
  - destruct p; [|simpl in Hl; lia]. eexists. split; [done|]. simpl. split; [done|]. lia.
  - cbn [parse_loop]. case_bool_decide as Hp; simpl.
    { subst p. eexists. split; [done|]. simpl. split; [done|]. lia. }
    destruct (isCompleted ps) eqn:Hc.
    { eexists. split; [done|]. simpl. split; [done|]. rewrite Hc. split; [lia|done]. }
    unfold isCompleted in Hc. apply bool_decide_eq_false in Hc.
    pose proof (parse_step_ok ps p Hok Hc Hp) as Hs.
    destruct (parse_step ps p) as [e| |ps'|ps' k]; [by eexists|done|..].
    + eexists. split; [done|]. simpl. destruct Hs as [Hs _]. split; [done|]. lia.
    + destruct Hs as (Hok' & Hk1 & Hk2).
      destruct (IH ps' (drop k p) (n + k) Hok') as (r & Hr & Hres); [rewrite length_drop; lia|].
      exists r. split; [done|]. destruct r; try done. rewrite length_drop in Hres.
      destruct Hres as (H1 & H2 & H3). split; [done|]. split; [lia|]. intros H. specialize (H3 H). lia.
Qed.

Lemma parse_loop_fuel f1 : ∀ f2 ps p n, parser_ok ps → length p ≤ f1 → length p ≤ f2 →
  parse_loop f1 ps p n = parse_loop f2 ps p n.
Proof.
  induction f1 as [|f1 IH]; intros f2 ps p n Hok H1 H2.
  - destruct p; [|simpl in H1; lia]. by destruct f2.
  - destruct f2 as [|f2]; [destruct p; [done|simpl in H2; lia]|]. cbn [parse_loop].
    case_bool_decide as Hp; [done|]. simpl. destruct (isCompleted ps) eqn:Hc; [done|].
    unfold isCompleted in Hc. apply bool_decide_eq_false in Hc.
    pose proof (parse_step_ok ps p Hok Hc Hp) as Hs.
    destruct (parse_step ps p) as [e| |ps'|ps' k]; try done.
    destruct Hs as (Hok' & Hk1 & Hk2). apply IH; [done|rewrite length_drop; lia..].
Qed.

Lemma parse_loop_nil f ps n : parse_loop f ps [] n = Some (Parsed ps n).
Proof. by destruct f. Qed.

Lemma parse_loop_completed f ps p n : isCompleted ps = true → parse_loop f ps p n = Some (Parsed ps n).
Proof. intros Hc. destruct f; simpl; by rewrite Hc, orb_true_r. Qed.

(** More input for a parser that has taken [n] bytes. *)
Definition and_then (r : option parse_result) (k : WebSocketFrameParser → nat → option parse_result) :
    option parse_result :=
  match r with
  | Some (Parsed ps n) => if isCompleted ps then Some (Parsed ps n) else k ps n
  | r => r
  end.

Lemma parse_loop_app f : ∀ f1 f2 ps a b n, parser_ok ps →
  length (a ++ b) ≤ f → length a ≤ f1 → length b ≤ f2 →
  parse_loop f ps (a ++ b) n = and_then (parse_loop f1 ps a n) (λ ps n, parse_loop f2 ps b n).
Proof.
  induction f as [|f IH]; intros f1 f2 ps a b n Hok Hf Hf1 Hf2.
  { rewrite length_app in Hf. destruct a, b; simpl in Hf; try lia. simpl app. rewrite !parse_loop_nil. simpl.
    rewrite parse_loop_nil. by destruct (isCompleted ps). }
  destruct a as [|x a].
  { rewrite parse_loop_nil. unfold and_then. simpl app. destruct (isCompleted ps) eqn:Hc; [by apply parse_loop_completed|].
    apply parse_loop_fuel; [done|simpl in *; lia..]. }
  destruct f1 as [|f1]; [simpl in Hf1; lia|]. cbn [parse_loop].
  rewrite (bool_decide_eq_false_2 ((x :: a) ++ b = [])) by done.
  rewrite (bool_decide_eq_false_2 (x :: a = [])) by done. cbn [orb].
  destruct (isCompleted ps) eqn:Hc; [by simpl; rewrite Hc|].
  pose proof Hc as Hc'. unfold isCompleted in Hc'. apply bool_decide_eq_false in Hc'.
  rewrite parse_step_app by done.
  pose proof (parse_step_ok ps (x :: a) Hok Hc') as Hs. specialize (Hs ltac:(done)).
  destruct (parse_step ps (x :: a)) as [e| |ps1|ps1 k]; [done|done|..].
  - destruct Hs as [Hok1 Hst1]. simpl.
    assert (Hc1 : isCompleted ps1 = false) by (by apply bool_decide_eq_false).
    rewrite Hc1. case_bool_decide as Hb.
    { subst b. rewrite length_app. simpl. rewrite Nat.add_0_r. destruct f2; simpl; done. }
    destruct f2 as [|f2]; [destruct b; [done|simpl in Hf2; lia]|]. cbn [parse_loop].
    rewrite (bool_decide_eq_false_2 (b = [])) by done. rewrite Hc1. cbn [orb].
    pose proof (parse_step_ok ps1 b Hok1 Hst1 Hb) as Hs2.
    destruct (parse_step ps1 b) as [e| |ps2|ps2 k2]; try done.
    + f_equal. f_equal. rewrite length_app. simpl. lia.
    + destruct Hs2 as (Hok2 & Hk1 & Hk2). simpl length in *.
      simpl. rewrite drop_app_add.
      rewrite length_app in Hf. simpl in Hf.
      replace (n + S (length a + k2)) with (n + S (length a) + k2) by lia.
      apply parse_loop_fuel; [done|rewrite length_drop; simpl in *; lia..].
  - destruct Hs as (Hok1 & Hk1 & Hk2). rewrite drop_app_le by done.
    apply IH; [done|..]; rewrite ?length_app, ?length_drop; rewrite length_app in Hf; simpl in *; lia.
Qed.

(** *** The theorems about parsing *)

(** C34: parsing returns on every input: no assertion fails, nothing outside of a
    buffer is accessed, no more than the input is taken, and all of it unless the
    frame is complete. *)
Theorem parse_total ps p : parser_ok ps →
  ∃ r, parse ps p = Some r ∧
    match r with
    | ParseError _ => True
    | ParseAssert => False
    | Parsed ps' n => parser_ok ps' ∧ n ≤ length p ∧ (isCompleted ps' = false → n = length p)
    end.
Proof. intros Hok. by apply (parse_loop_ok (length p) ps p 0 Hok). Qed.

Lemma parse_chunks_lemma ps a b : parser_ok ps →
  parse ps (a ++ b) = and_then (parse ps a) (λ ps n,
    match parse ps b with
    | Some (Parsed ps' k) => Some (Parsed ps' (n + k))
    | r => r
    end).
Proof.
  intros Hok. unfold parse. rewrite (parse_loop_app _ (length a) (length b)) by done.
  destruct (parse_loop_ok (length a) ps a 0 Hok) as (r & -> & Hr); [done|]. destruct r as [e| |ps1 n1]; try done.
  simpl. destruct (isCompleted ps1) eqn:Hc; [done|].
  assert (Hshift : ∀ f p ps n, parse_loop f ps p n =
    match parse_loop f ps p 0 with Some (Parsed ps' k) => Some (Parsed ps' (n + k)) | r => r end).
  { clear. induction f as [|f IH]; intros p ps n; simpl.
    - destruct (bool_decide (p = []) || isCompleted ps); [by rewrite Nat.add_0_r|done].
    - destruct (bool_decide (p = []) || isCompleted ps); [by rewrite Nat.add_0_r|].
      destruct (parse_step ps p) as [| |ps'|ps' k]; try done.
      rewrite (IH _ _ (n + k)), (IH _ _ k). destruct (parse_loop f ps' (drop k p) 0) as [ [ | |ps2 k2]|]; try done.
      by rewrite Nat.add_assoc. }
  apply Hshift.
Qed.

(** C20: the parser is incremental: however the input is cut into pieces, the
    result is that of the whole, frame, position and error alike. *)
Theorem parse_chunks ps a b : parser_ok ps →
  parse ps (a ++ b) = and_then (parse ps a) (λ ps n,
    match parse ps b with
    | Some (Parsed ps' k) => Some (Parsed ps' (n + k))
    | r => r
    end).
Proof. apply parse_chunks_lemma. Qed.
End parser.

(** ** A frame that is built is parsed back *)

Section roundtrip.
Context `{X : AxlMemory, XL : !AxlMemoryLaws X}.

Lemma write_app a b c pos : pos = length a → length c ≤ length b →
  write (a ++ b) pos c = Some ((a ++ c) ++ drop (length c) b).
Proof.
  intros -> Hl. unfold write. rewrite (proj2 (Nat.leb_le _ _)) by (rewrite length_app; lia).
  by rewrite take_app_length, drop_app_add, <- app_assoc.
Qed.

Lemma length_bytes_length n : length (length_bytes n).2 ≤ 8.
Proof. unfold length_bytes. repeat case_match; simpl; rewrite ?length_le_split; lia. Qed.

(** The bytes of a frame. *)
Definition frame_bytes (key : list byte) (opcode : Z) (isFinal isMasked : bool) (payload : list byte) : list byte :=
  let '(lengthCode, lengthBytes) := length_bytes (Z.of_nat (length payload)) in
  hdr_bytes (mkHdr opcode 0 isFinal lengthCode isMasked) ++ lengthBytes ++
  (if isMasked then key ++ mask_spec (le_combine key) payload else payload).

Lemma build_spec key opcode isFinal isMasked payload : length key = 4 →
  allocates (2 + 8 + 4 + align4 (length payload)) = true →
  buildWebSocketFrame key opcode isFinal isMasked payload = Built (frame_bytes key opcode isFinal isMasked payload).
Proof.
  intros Hkey Hal. unfold buildWebSocketFrame, frame_bytes. rewrite Hal. cbn [negb].
  pose proof (length_bytes_length (Z.of_nat (length payload))) as Hlb.
  pose proof (align4_ge (length payload)) as Hge. pose proof (align4_lt (length payload)) as Hlt.
  destruct (length_bytes (Z.of_nat (length payload))) as [lc lb]. simpl in Hlb.
  set (hdr := hdr_bytes _). assert (Hh : length hdr = 2) by done.
  change (replicate (2 + 8 + 4 + align4 (length payload)) Byte.x00)
    with ([] ++ replicate (2 + 8 + 4 + align4 (length payload)) Byte.x00).
  rewrite write_app by (rewrite ?length_replicate; simpl; lia).
  change ([] ++ hdr) with hdr. rewrite Hh.
  cbn [mbind option_bind].
  rewrite write_app by (rewrite ?length_drop, ?length_replicate, ?Hkey; lia). cbn [mbind option_bind].
  assert (Hp : 2 + length lb = length (hdr ++ lb)) by (rewrite length_app; lia). rewrite Hp.
  destruct isMasked; cbn [negb].
  - rewrite write_app by (rewrite ?length_drop, ?length_replicate; lia). cbn [mbind option_bind].
    rewrite <- !app_assoc. rewrite (app_assoc hdr lb), drop_app_length, (take_app_le key) by lia.
    rewrite (take_ge key) by lia. rewrite (app_assoc _ key).
    rewrite write_app by (rewrite ?length_app, ?length_drop, ?length_replicate, ?Hkey; lia).
    cbn [mbind option_bind].
    set (rest := drop (length payload) _).
    assert (Hpos : length (hdr ++ lb) + 4 = length ((hdr ++ lb) ++ key)) by (rewrite !length_app, Hkey; lia).
    rewrite Hpos, <- (app_assoc _ payload), drop_app_length.
    destruct (mask_ok (length payload) (payload ++ rest) (le_combine key) (align4 (length payload)))
      as (r & Hr & Hlen & Ht); [done|done|apply align4_divide| |].
    { unfold rest. rewrite length_app, !length_drop, length_replicate, Hkey. lia. }
    rewrite Hr. cbn [mbind option_bind]. rewrite take_app_length, take_app_add, Ht, take_app_length.
    by rewrite <- !app_assoc.
  - rewrite write_app by (rewrite ?length_drop, ?length_replicate; lia). cbn [mbind option_bind].
    rewrite <- length_app, take_app_length. by rewrite <- app_assoc.
Qed.

(** *** The header *)

Lemma hdr_first_byte o f : (0 ≤ o < 16)%Z →
  let x := byte.unsigned (byte.of_Z (Z.lor (Z.land o 15) (Z.lor (Z.shiftl (Z.land 0 7) 4) (Z.shiftl (Z.b2z f) 7)))) in
  Z.land x 15 = o ∧ Z.land (Z.shiftr x 4) 7 = 0%Z ∧ Z.testbit x 7 = f.
Proof.
  intros Ho. assert (Hall : forallb (λ o, forallb (λ f : bool,
    let x := byte.unsigned (byte.of_Z (Z.lor (Z.land o 15) (Z.lor (Z.shiftl (Z.land 0 7) 4) (Z.shiftl (Z.b2z f) 7)))) in
    (Z.land x 15 =? o)%Z && (Z.land (Z.shiftr x 4) 7 =? 0)%Z && eqb (Z.testbit x 7) f) [true; false])
    (seqZ 0 16) = true) by (vm_compute; done).
  rewrite forallb_forall in Hall. specialize (Hall o ltac:(apply list_elem_of_In, elem_of_seqZ; lia)).
  rewrite forallb_forall in Hall. assert (Hf : In f [true; false]) by (destruct f; simpl; auto).
  specialize (Hall f Hf). apply andb_true_iff in Hall as [Hall H3]. apply andb_true_iff in Hall as [H1 H2].
  apply Z.eqb_eq in H1, H2. apply eqb_prop in H3. done.
Qed.

Lemma hdr_second_byte l f : (0 ≤ l < 128)%Z →
  let x := byte.unsigned (byte.of_Z (Z.lor (Z.land l 127) (Z.shiftl (Z.b2z f) 7))) in
  Z.land x 127 = l ∧ Z.testbit x 7 = f.
Proof.
  intros Hl. assert (Hall : forallb (λ l, forallb (λ f : bool,
    let x := byte.unsigned (byte.of_Z (Z.lor (Z.land l 127) (Z.shiftl (Z.b2z f) 7))) in
    (Z.land x 127 =? l)%Z && eqb (Z.testbit x 7) f) [true; false]) (seqZ 0 128) = true) by (vm_compute; done).
  rewrite forallb_forall in Hall. specialize (Hall l ltac:(apply list_elem_of_In, elem_of_seqZ; lia)).
  rewrite forallb_forall in Hall. assert (Hf : In f [true; false]) by (destruct f; simpl; auto).
  specialize (Hall f Hf). apply andb_true_iff in Hall as [H1 H2].
  apply Z.eqb_eq in H1. apply eqb_prop in H2. done.
Qed.

Lemma hdr_roundtrip o f l k : (0 ≤ o < 16)%Z → (0 ≤ l < 128)%Z →
  hdr_of_bytes (hdr_bytes (mkHdr o 0 f l k)) = mkHdr o 0 f l k.
Proof.
  intros Ho Hl. unfold hdr_of_bytes, hdr_bytes. cbn [m_opcode m_reserved m_fin m_lengthCode m_mask].
  destruct (hdr_first_byte o f Ho) as (H1 & H2 & H3). destruct (hdr_second_byte l k Hl) as (H4 & H5).
  by rewrite H1, H2, H3, H4, H5.
Qed.

(** *** The extended length *)

Lemma swap16_roundtrip n : (0 ≤ n < 65536)%Z →
  swapByteOrder16 (le_combine (le_split 2 (swapByteOrder16 n))) = n.
Proof.
  intros Hn. rewrite (swapByteOrder16_rev n), (split_le_combine' (rev (le_split 2 n)) 2) by (rewrite length_rev; apply length_le_split).
  rewrite swapByteOrder16_rev. rewrite (split_le_combine' (rev (le_split 2 n)) 2) by (rewrite length_rev; apply length_le_split).
  rewrite rev_involutive, le_combine_split. by apply Z.mod_small.
Qed.

Lemma swap64_roundtrip n : (0 ≤ n < 2 ^ 64)%Z →
  swapByteOrder64 (le_combine (le_split 8 (swapByteOrder64 n))) = n.
Proof.
  intros Hn. rewrite (swapByteOrder64_rev n), (split_le_combine' (rev (le_split 8 n)) 8) by (rewrite length_rev; apply length_le_split).
  rewrite swapByteOrder64_rev. rewrite (split_le_combine' (rev (le_split 8 n)) 8) by (rewrite length_rev; apply length_le_split).
  rewrite rev_involutive, le_combine_split. by apply Z.mod_small.
Qed.

(** *** The parts of a frame *)

(** A parser that has nothing of its part reads the whole part. *)
Lemma parse_part ps part rest n f : m_state ps ≠ State_Completed → buffered ps = [] → part ≠ [] →
  Z.of_nat (length part) = target ps → length (part ++ rest) ≤ f →
  parse_loop f ps (part ++ rest) n =
  match finish ps part (length part) with
  | StepError e => Some (ParseError e)
  | StepAssert => Some ParseAssert
  | StepPart ps' => Some (Parsed ps' (n + length (part ++ rest)))
  | StepDone ps' k => parse_loop (f - 1) ps' (drop k (part ++ rest)) (n + k)
  end.
Proof.
  intros Hst Hb Hp Ht Hf. destruct f as [|f]; [destruct part; [done|simpl in Hf; lia]|].
  cbn [parse_loop]. rewrite bool_decide_eq_false_2 by (by destruct part).
  unfold isCompleted. rewrite bool_decide_eq_false_2 by done. cbn [orb].
  assert (Hlen : length part ≠ 0) by (by destruct part).
  rewrite parse_step_view; [|done|rewrite Hb; simpl; lia]. cbv zeta. rewrite Hb. simpl length.
  rewrite (proj2 (Z.ltb_ge _ _)) by (rewrite length_app; lia).
  replace (Z.to_nat (target ps - Z.of_nat 0)) with (length part) by lia.
  rewrite take_app_length. simpl app. replace (S f - 1) with f by lia. done.
Qed.

Lemma parse_payload f p rest fuel n : m_payload f = [] → m_payloadLength f = Z.of_nat (length p) →
  length (p ++ rest) ≤ fuel →
  parse_loop fuel (mkParser (getPayloadState f) [] f) (p ++ rest) n =
  Some (Parsed (mkParser State_Completed []
    (set_payload (if m_mask (f_hdr f) then mask_spec (m_maskKey f) p else p) f)) (n + length p)).
Proof.
  intros Hp Hl Hf. unfold getPayloadState. destruct (Z.eqb_spec (m_payloadLength f) 0) as [H0|H0].
  - assert (p = []) as -> by (destruct p; [done|simpl in *; lia]). rewrite parse_loop_completed by done.
    destruct f as [h l k pl]. simpl in *. subst. rewrite Nat.add_0_r. by destruct (m_mask h).
  - rewrite parse_part; try done; [|by intros ->].
    cbn [finish m_state m_frame m_buffer]. by rewrite parse_loop_completed.
Qed.

Lemma parse_body f key p rest fuel n : m_payload f = [] → m_payloadLength f = Z.of_nat (length p) →
  length key = 4 →
  length ((if m_mask (f_hdr f) then key ++ mask_spec (le_combine key) p else p) ++ rest) ≤ fuel →
  parse_loop fuel (mkParser (getMaskState f) [] f)
    ((if m_mask (f_hdr f) then key ++ mask_spec (le_combine key) p else p) ++ rest) n =
  Some (Parsed (mkParser State_Completed []
    (set_payload p (if m_mask (f_hdr f) then set_maskKey (le_combine key) f else f)))
    (n + length (if m_mask (f_hdr f) then key ++ mask_spec (le_combine key) p else p))).
Proof.
  intros Hp Hl Hk Hf. unfold getMaskState. destruct (m_mask (f_hdr f)) eqn:Hm.
  - rewrite <- app_assoc in Hf |- *. rewrite parse_part; try done; [|by destruct key|by rewrite Hk].
    cbn [finish m_state m_frame]. rewrite drop_app_length, (take_ge key) by lia.
    rewrite parse_payload; [|done|by rewrite mask_spec_length|rewrite length_app, Hk in Hf; lia].
    simpl. rewrite Hm, mask_spec_involutive, length_app, Nat.add_assoc. done.
  - rewrite parse_payload by done. by rewrite Hm.
Qed.

(** The headers the parser takes. *)
Definition valid_header (opcode : Z) (isFinal : bool) : Prop :=
  opcode ∈ [0; 1; 2]%Z ∨ (opcode ∈ [8; 9; 10]%Z ∧ isFinal = true).

Lemma valid_header_range o f : valid_header o f → (0 ≤ o < 16)%Z.
Proof. unfold valid_header. set_unfold. lia. Qed.

Lemma valid_header_check o r f l k : valid_header o f → check_opcode (mkHdr o r f l k) = None.
Proof.
  unfold valid_header, check_opcode. simpl. set_unfold. intros Ho.
  destruct Ho as [Ho|[Ho ->] ]; repeat destruct Ho as [->|Ho]; try done; by subst.
Qed.

(** The frame the parser has at the end. *)
Definition parsed_frame (key : list byte) (opcode : Z) (isFinal isMasked : bool) (payload : list byte) :
    WebSocketFrame :=
  mkFrame (mkHdr opcode 0 isFinal (length_bytes (Z.of_nat (length payload))).1 isMasked)
    (Z.of_nat (length payload)) (if isMasked then le_combine key else 0%Z) payload.

Lemma parse_frame_lemma key o fin msk payload rest f : length key = 4 → valid_header o fin →
  (Z.of_nat (length payload) ≤ MaxPayloadLength)%Z →
  parse (mkParser State_Header [] f) (frame_bytes key o fin msk payload ++ rest) =
  Some (Parsed (mkParser State_Completed [] (parsed_frame key o fin msk payload))
    (length (frame_bytes key o fin msk payload))).
Proof.
  intros Hk Hv Hmax. pose proof (valid_header_range _ _ Hv) as Ho.
  unfold parse, frame_bytes, parsed_frame, MaxPayloadLength in *.
  set (n := Z.of_nat (length payload)) in *.
  assert (Hn : (0 ≤ n)%Z) by lia.
  assert (Hlc : (0 ≤ (length_bytes n).1 < 128)%Z).
  { unfold length_bytes. destruct (Z.ltb_spec n 126); simpl; [lia|]. by destruct (n <? 65536)%Z; simpl. }
  destruct (length_bytes n) as [lc lb] eqn:Hlb. cbn [fst] in *.
  set (body := if msk then _ else _). rewrite <- !app_assoc.
  rewrite parse_part; try done. cbn [finish m_state m_frame].
  rewrite hdr_roundtrip by done. rewrite valid_header_check by done.
  change (length (hdr_bytes _)) with 2. rewrite drop_app_length' by done.
  rewrite !length_app. change (length (hdr_bytes _)) with 2.
  set (h := mkHdr o 0 fin lc msk). set (f0 := set_hdr h clear_frame).
  unfold length_bytes in Hlb. unfold length_state. cbn [m_lengthCode h].
  destruct (Z.ltb_spec n 126) as [H1|H1]; [|destruct (Z.ltb_spec n 65536) as [H2|H2] ]; injection Hlb as <- <-.
  - rewrite !(proj2 (Z.eqb_neq _ _)) by lia.
    change body with (if m_mask (f_hdr (set_payloadLength n f0)) then key ++ mask_spec (le_combine key) payload else payload).
    rewrite app_nil_l. rewrite parse_body; [|done..|rewrite !length_app; simpl; lia].
    simpl. unfold body. by destruct msk.
  - assert (Hland : Z.land n 65535 = n).
    { change 65535%Z with (Z.ones 16). rewrite Z.land_ones by lia. apply Z.mod_small. lia. }
    rewrite Hland. rewrite Z.eqb_refl.
    rewrite parse_part; try done; [|rewrite !length_app; simpl; lia].
    cbn [finish m_state m_frame]. rewrite (take_ge (le_split 2 _)) by (rewrite length_le_split; lia).
    rewrite swap16_roundtrip by lia. rewrite drop_app_length.
    change body with (if m_mask (f_hdr (set_payloadLength n f0)) then key ++ mask_spec (le_combine key) payload else payload).
    rewrite parse_body; [|done..|rewrite !length_app, ?length_le_split; simpl; lia].
    rewrite !length_le_split. unfold body. simpl. by destruct msk.
  - assert (Hmod : (n < 2 ^ 64)%Z) by (eapply Z.le_lt_trans; [exact Hmax|done]).
    rewrite (proj2 (Z.eqb_neq 127 126)), Z.eqb_refl by done.
    rewrite parse_part; try done; [|rewrite !length_app; simpl; lia].
    cbn [finish m_state m_frame]. rewrite (take_ge (le_split 8 _)) by (rewrite length_le_split; lia).
    rewrite swap64_roundtrip by lia. unfold MaxPayloadLength. rewrite (proj2 (Z.ltb_ge _ _) Hmax).
    rewrite drop_app_length.
    change body with (if m_mask (f_hdr (set_payloadLength n f0)) then key ++ mask_spec (le_combine key) payload else payload).
    rewrite parse_body; [|done..|rewrite !length_app, ?length_le_split; simpl; lia].
    rewrite !length_le_split. unfold body. simpl. by destruct msk.
Qed.

(** C8: a frame that is built is parsed back: for every payload up to the limit,
    masked or not, with any of the three encodings of the length, the parser takes
    exactly the bytes of the frame and has its opcode, its final flag and its
    payload. *)
Theorem frame_roundtrip key o fin msk payload rest f frame : length key = 4 → valid_header o fin →
  (Z.of_nat (length payload) ≤ MaxPayloadLength)%Z →
  buildWebSocketFrame key o fin msk payload = Built frame →
  ∃ f', parse (mkParser State_Header [] f) (frame ++ rest) =
    Some (Parsed (mkParser State_Completed [] f') (length frame)) ∧
    m_payload f' = payload ∧ m_opcode (f_hdr f') = o ∧ m_fin (f_hdr f') = fin ∧ m_mask (f_hdr f') = msk ∧
    m_payloadLength f' = Z.of_nat (length payload).
Proof.
  intros Hk Hv Hmax Hb. exists (parsed_frame key o fin msk payload).
  assert (Hal : allocates (2 + 8 + 4 + align4 (length payload)) = true).
  { unfold buildWebSocketFrame in Hb. by destruct (allocates _). }
  rewrite build_spec in Hb by done. injection Hb as <-. split; [by apply parse_frame_lemma|done].
Qed.
End roundtrip.

(** ** A library *)

Definition axl : AxlMemory :=
  {| align4 n := 4 * ((n + 3) / 4);
     swapByteOrder16 z := le_combine (rev (le_split 2 z));
     swapByteOrder64 z := le_combine (rev (le_split 8 z));
     allocates _ := true;
     slack n := replicate n Byte.xcc |}.

Lemma axl_laws : AxlMemoryLaws axl.
Proof.
  split; cbn [align4 swapByteOrder16 swapByteOrder64 slack axl].
  - intros n. pose proof (Nat.div_mod_eq (n + 3) 4). pose proof (Nat.mod_upper_bound (n + 3) 4 ltac:(done)). lia.
  - intros n. exists ((n + 3) / 4). lia.
  - intros n. pose proof (Nat.div_mod_eq (n + 3) 4). lia.
  - done.
  - done.
  - intros n. apply length_replicate.
Qed.

Definition hello : list byte := byte.of_Z <$> [72; 101; 108; 108; 111]%Z.
Definition demo_key : list byte := byte.of_Z <$> [0x37; 0xfa; 0x21; 0x3d]%Z.
Definition start : WebSocketFrameParser := mkParser State_Header [] clear_frame.

(** The masked text frame of RFC 6455, section 5.7. *)
Definition hello_frame : list byte :=
  byte.of_Z <$> [0x81; 0x85; 0x37; 0xfa; 0x21; 0x3d; 0x7f; 0x9f; 0x4d; 0x51; 0x58]%Z.

Example hello_built : @buildWebSocketFrame axl demo_key 1 true true hello = Built hello_frame.
Proof. vm_compute. reflexivity. Qed.

Lemma mask_correct_witness :
  ∃ r, mask (hello ++ replicate 3 Byte.xcc) 5 0x3d21fa37 = Some r ∧ length r = 8 ∧
       take 5 r = mask_spec 0x3d21fa37 (take 5 (hello ++ replicate 3 Byte.xcc)).
Proof. apply (mask_correct 5 (hello ++ replicate 3 Byte.xcc) 0x3d21fa37 8); [lia|lia|exists 2; lia|simpl; lia]. Defined.

Lemma start_ok : parser_ok start.
Proof. split; [intros _; vm_compute; reflexivity|exact I]. Qed.

Lemma parse_total_witness :
  ∃ r, @parse axl start (take 3 hello_frame) = Some r ∧
    match r with
    | ParseError _ => True
    | ParseAssert => False
    | Parsed ps' n => parser_ok ps' ∧ n ≤ length (take 3 hello_frame) ∧
        (isCompleted ps' = false → n = length (take 3 hello_frame))
    end.
Proof. exact (@parse_total axl axl_laws start (take 3 hello_frame) start_ok). Defined.

Lemma parse_chunks_witness :
  @parse axl start (take 4 hello_frame ++ drop 4 hello_frame) =
  and_then (@parse axl start (take 4 hello_frame)) (λ ps n,
    match @parse axl ps (drop 4 hello_frame) with
    | Some (Parsed ps' k) => Some (Parsed ps' (n + k))
    | r => r
    end).
Proof. exact (@parse_chunks axl axl_laws start (take 4 hello_frame) (drop 4 hello_frame) start_ok). Defined.

Lemma frame_roundtrip_witness :
  ∃ f', @parse axl start (hello_frame ++ [Byte.x01]) =
    Some (Parsed (mkParser State_Completed [] f') (length hello_frame)) ∧
    m_payload f' = hello ∧ m_opcode (f_hdr f') = 1%Z ∧ m_fin (f_hdr f') = true ∧ m_mask (f_hdr f') = true ∧
    m_payloadLength f' = Z.of_nat (length hello).
Proof.
  apply (@frame_roundtrip axl axl_laws demo_key 1 true true hello [Byte.x01] clear_frame hello_frame).
  - reflexivity.
  - left. right. left.
  - vm_compute. discriminate.
  - vm_compute. reflexivity.
Defined.
