(* ===== verification/WsState.v ===== *)
(** * WebSocket messages

    Models [src/src/jnc_ext/jnc_io_websocket/jnc_io_WebSocketState.cpp] and
    [WebSocket::processIncomingData] of [jnc_io_WebSocket.cpp]: the state machine
    of a connection, the assembly of messages from frames, and the handling of
    control frames.

    The parser of frames is that of [WsFrame]. The parser of handshakes is an
    interface. The buffers of the socket are seen through a log of what is added
    to them. *)

From S2P Require Import Prelude WsFrame.
From coqutil Require Import Byte.

(** ** Interfaces *)

(** A handshake parser with the handshake it fills. *)
Class WebSocketHandshakeParser := {
  hs : Type;
  (** the constructor: an empty key is that of a server *)
  hs_new : list byte → hs;
  (** [None]: an error; else the parser and the number of bytes taken *)
  hs_parse : hs → list byte → option (hs * nat);
  hs_isCompleted : hs → bool;
  (** [buildResponse] *)
  hs_response : hs → list byte
}.

(** The rest of the socket. *)
Inductive action :=
  | AddToReadBuffer (payload : list byte) (opcode : Z)
  | AddToWriteBuffer (bytes : list byte)
  | SetEvents (events : N).

Class Socket := {
  (** how much of a block there is room for in the write buffer, after the actions so far *)
  so_room : list action → list byte → nat;
  (** [RAND_bytes] *)
  so_rand : list action → list byte
}.

(** ** The state machine *)

Inductive WebSocketState :=
  | WebSocketState_Idle | WebSocketState_WaitingHandshake | WebSocketState_WaitingHandshakeResponse
  | WebSocketState_HandshakeReady | WebSocketState_HandshakeResponseReady | WebSocketState_Connected
  | WebSocketState_ControlFrameReady | WebSocketState_MessageReady.

#[export] Instance WebSocketState_eq_dec : EqDecision WebSocketState.
Proof. solve_decision. Defined.

Record WebSocketMessage := mkMessage { g_opcode : Z; g_frameCount : nat; g_payload : list byte }.

(** [WebSocketMessage::clear] *)
Definition clear_message : WebSocketMessage := mkMessage WebSocketFrameOpcode_Undefined 0 [].

Inductive ws_error := HandshakeError | FrameError (e : parse_error) | NoInitialFrame | IncompleteMessage.

Section machine.
Context `{X : AxlMemory, H : WebSocketHandshakeParser}.

(** The parser of frames works on the frame of the machine, which is kept here
    without it. *)
Record WebSocketStateMachine := mkMachine {
  sm_state : WebSocketState;
  sm_handshakeParser : bool;
  sm_handshake : hs;
  sm_frameParser : option (State * list byte);
  sm_frame : WebSocketFrame;
  sm_message : WebSocketMessage;
  sm_handshakeKey : list byte
}.

Definition setHandshake (handshake : hs) (handshakeKey : list byte) : WebSocketStateMachine :=
  mkMachine
    (if decide (handshakeKey = []) then WebSocketState_WaitingHandshake else WebSocketState_WaitingHandshakeResponse)
    false handshake None clear_frame clear_message handshakeKey.

(** [None]: the assertion fails. *)
Definition setConnectedState (sm : WebSocketStateMachine) : option WebSocketStateMachine :=
  match sm_state sm with
  | WebSocketState_HandshakeReady | WebSocketState_HandshakeResponseReady
  | WebSocketState_ControlFrameReady | WebSocketState_MessageReady =>
    Some (mkMachine WebSocketState_Connected (sm_handshakeParser sm) (sm_handshake sm)
            ((λ _, (State_Header, [])) <$> sm_frameParser sm) clear_frame clear_message (sm_handshakeKey sm))
  | _ => None
  end.

Definition processFrame (sm : WebSocketStateMachine) : WebSocketStateMachine + ws_error :=
  let set_state st sm :=
    mkMachine st (sm_handshakeParser sm) (sm_handshake sm) (sm_frameParser sm) (sm_frame sm) (sm_message sm)
      (sm_handshakeKey sm) in
  let set_message m sm :=
    mkMachine (sm_state sm) (sm_handshakeParser sm) (sm_handshake sm) (sm_frameParser sm) (sm_frame sm) m
      (sm_handshakeKey sm) in
  let frame := sm_frame sm in
  let message := sm_message sm in
  let opcode := m_opcode (f_hdr frame) in
  if (WebSocketFrameOpcode_FirstControl <=? opcode)%Z then inl (set_state WebSocketState_ControlFrameReady sm)
  else
    match
      (if (opcode =? WebSocketFrameOpcode_Continuation)%Z then
         if (g_opcode message =? WebSocketFrameOpcode_Undefined)%Z then inr NoInitialFrame
         else inl (mkMessage (g_opcode message) (S (g_frameCount message)) (g_payload message ++ m_payload frame))
       else if negb (g_opcode message =? WebSocketFrameOpcode_Undefined)%Z then inr IncompleteMessage
       else inl (mkMessage opcode 1 (m_payload frame)))
    with
    | inr e => inr e
    | inl message =>
      let sm := set_message message sm in
      inl (if m_fin (f_hdr frame) then set_state WebSocketState_MessageReady sm else sm)
    end.

Inductive sm_result := SmError (e : ws_error) | SmAssert | SmParsed (sm : WebSocketStateMachine) (n : nat).

(** The frame parser of the machine, created when there is none. *)
Definition frame_parser (sm : WebSocketStateMachine) : WebSocketFrameParser :=
  match sm_frameParser sm with
  | Some (st, buffer) => mkParser st buffer (sm_frame sm)
  | None => mkParser State_Header [] (sm_frame sm)
  end.

Definition with_parser (ps : WebSocketFrameParser) (sm : WebSocketStateMachine) : WebSocketStateMachine :=
  mkMachine (sm_state sm) (sm_handshakeParser sm) (sm_handshake sm) (Some (m_state ps, m_buffer ps)) (m_frame ps)
    (sm_message sm) (sm_handshakeKey sm).

(** The loop over the frames; [None]: it has not returned within [fuel] passes.
    [n] is the number of bytes before [p]. *)
Fixpoint frame_loop (fuel : nat) (sm : WebSocketStateMachine) (p : list byte) (n : nat) : option sm_result :=
  if bool_decide (p = []) || negb (bool_decide (sm_state sm = WebSocketState_Connected)) then Some (SmParsed sm n)
  else
    match fuel with
    | O => None
    | S fuel =>
      r ← parse (frame_parser sm) p;
      match r with
      | ParseError e => Some (SmError (FrameError e))
      | ParseAssert => Some SmAssert
      | Parsed ps k =>
        if negb (isCompleted ps) then Some (SmParsed (with_parser ps sm) (n + length p))
        else
          match processFrame (with_parser (reset ps) sm) with
          | inr e => Some (SmError e)
          | inl sm => frame_loop fuel sm (drop k p) (n + k)
          end
      end
    end.

Definition sm_parse (sm : WebSocketStateMachine) (p : list byte) : option sm_result :=
  match sm_state sm with
  | WebSocketState_WaitingHandshake | WebSocketState_WaitingHandshakeResponse =>
    let parser := if sm_handshakeParser sm then sm_handshake sm else hs_new (sm_handshakeKey sm) in
    match hs_parse parser p with
    | None => Some (SmError HandshakeError)
    | Some (parser, n) =>
      let completed := hs_isCompleted parser in
      let state :=
        if completed then
          match sm_state sm with
          | WebSocketState_WaitingHandshake => WebSocketState_HandshakeReady
          | _ => WebSocketState_HandshakeResponseReady
          end
        else sm_state sm in
      Some (SmParsed (mkMachine state (negb completed) parser (sm_frameParser sm) (sm_frame sm) (sm_message sm)
        (sm_handshakeKey sm)) n)
    end
  | WebSocketState_Connected => frame_loop (length p) sm p 0
  | _ => Some SmAssert
  end.

(** ** The socket *)

Context `{SO : Socket}.

Definition WebSocketOption_IncludeControlFrames : N := 0x0400.
Definition WebSocketOption_DisableServerHandshakeResponse : N := 0x0800.
Definition WebSocketOption_DisableCloseResponse : N := 0x1000.
Definition WebSocketOption_DisablePongResponse : N := 0x2000.
Definition WebSocketEvent_WebSocketHandshakeRequested : N := 0x0400.
Definition WebSocketEvent_WebSocketHandshakeCompleted : N := 0x0800.
Definition WebSocketEvent_WebSocketCloseRequested : N := 0x1000.
Definition WebSocketEvent_WebSocketCloseCompleted : N := 0x2000.
Definition AsyncIoDeviceEvent_IncomingData : N := 0x0002.
Definition IoThreadFlag_Connecting : N := 0x0100.
Definition IoThreadFlag_WebSocketCloseAdded : N := 0x0800.

Definition flag_set (flag flags : N) : bool := negb (N.land flags flag =? 0)%N.

(** [ws_log] is what was added to the buffers, in order. *)
Record WebSocket := mkSocket {
  ws_machine : WebSocketStateMachine; ws_options : N; ws_ioThreadFlags : N; ws_log : list action
}.

Definition log (a : action) (ws : WebSocket) : WebSocket :=
  mkSocket (ws_machine ws) (ws_options ws) (ws_ioThreadFlags ws) (ws_log ws ++ [a]).
Definition set_machine (sm : WebSocketStateMachine) (ws : WebSocket) : WebSocket :=
  mkSocket sm (ws_options ws) (ws_ioThreadFlags ws) (ws_log ws).
Definition or_ioThreadFlags (f : N) (ws : WebSocket) : WebSocket :=
  mkSocket (ws_machine ws) (ws_options ws) (N.lor (ws_ioThreadFlags ws) f) (ws_log ws).

(** [addToWriteBuffer]: what there is room for is added. *)
Definition addToWriteBuffer (bytes : list byte) (ws : WebSocket) : nat * WebSocket :=
  let n := so_room (ws_log ws) bytes in
  (n, log (AddToWriteBuffer (take n bytes)) ws).

Definition setEvents (events : N) (ws : WebSocket) : WebSocket := log (SetEvents events) ws.

(** A reply: nothing when there is no memory for it; [None]: out of bounds. *)
Definition replyFrame (ws : WebSocket) (opcode : Z) (isMasked : bool) (payload : list byte) : option (list byte) :=
  match buildWebSocketFrame (so_rand (ws_log ws)) opcode true isMasked payload with
  | Built frame => Some frame
  | BuildFailed => Some []
  | BuildOutOfBounds => None
  end.

(** The first [m_payloadLength] bytes of the payload; [None]: out of bounds. *)
Definition read_payload (frame : WebSocketFrame) : option (list byte) :=
  let n := Z.to_nat (m_payloadLength frame) in
  if n <=? length (m_payload frame) then Some (take n (m_payload frame)) else None.

(** [case WebSocketState_ControlFrameReady]: the frame is delivered when it is asked
    for; *)
Definition control_read (ws : WebSocket) : N * WebSocket :=
  let frame := sm_frame (ws_machine ws) in
  if flag_set WebSocketOption_IncludeControlFrames (ws_options ws)
  then (AsyncIoDeviceEvent_IncomingData, log (AddToReadBuffer (m_payload frame) (m_opcode (f_hdr frame))) ws)
  else (0%N, ws).

(** and answered. *)
Definition control_reply (events : N) (ws : WebSocket) : option (N * WebSocket) :=
  let frame := sm_frame (ws_machine ws) in
  let opcode := m_opcode (f_hdr frame) in
  if (opcode =? WebSocketFrameOpcode_Close)%Z then
    if flag_set IoThreadFlag_WebSocketCloseAdded (ws_ioThreadFlags ws)
    then Some (N.lor events WebSocketEvent_WebSocketCloseCompleted, ws)
    else
      let events := N.lor events WebSocketEvent_WebSocketCloseRequested in
      if flag_set WebSocketOption_DisableCloseResponse (ws_options ws) then Some (events, ws)
      else
        reply ← replyFrame ws WebSocketFrameOpcode_Close false [];
        let '(n, ws) := addToWriteBuffer reply ws in
        Some (events, if (n =? 0)%nat then ws else or_ioThreadFlags IoThreadFlag_WebSocketCloseAdded ws)
  else if (opcode =? WebSocketFrameOpcode_Ping)%Z then
    if flag_set WebSocketOption_DisablePongResponse (ws_options ws) then Some (events, ws)
    else
      payload ← read_payload frame;
      reply ← replyFrame ws WebSocketFrameOpcode_Pong (flag_set IoThreadFlag_Connecting (ws_ioThreadFlags ws)) payload;
      Some (events, (addToWriteBuffer reply ws).2)
  else Some (events, ws).

Definition control_frame (ws : WebSocket) : option WebSocket :=
  let '(events, ws) := control_read ws in
  '(events, ws) ← control_reply events ws;
  Some (if (events =? 0)%N then ws else setEvents events ws).

(** The switch on the new state. *)
Definition new_state (ws : WebSocket) : option WebSocket :=
  let sm := ws_machine ws in
  ws ←
    match sm_state sm with
    | WebSocketState_HandshakeReady =>
      Some (if flag_set WebSocketOption_DisableServerHandshakeResponse (ws_options ws)
            then setEvents WebSocketEvent_WebSocketHandshakeRequested ws
            else
              setEvents (N.lor WebSocketEvent_WebSocketHandshakeRequested WebSocketEvent_WebSocketHandshakeCompleted)
                (addToWriteBuffer (hs_response (sm_handshake sm)) ws).2)
    | WebSocketState_HandshakeResponseReady => Some (setEvents WebSocketEvent_WebSocketHandshakeCompleted ws)
    | WebSocketState_ControlFrameReady => control_frame ws
    | WebSocketState_MessageReady =>
      let message := sm_message sm in
      Some (setEvents AsyncIoDeviceEvent_IncomingData (log (AddToReadBuffer (g_payload message) (g_opcode message)) ws))
    | _ => None
    end;
  sm ← setConnectedState (ws_machine ws);
  Some (set_machine sm ws).

(** An error comes with the log. *)
Inductive ws_result := WsError (e : ws_error) (l : list action) | WsAssert | WsOk (ws : WebSocket).

(** The loop of [processIncomingData]. *)
Fixpoint incoming_loop (fuel : nat) (ws : WebSocket) (p : list byte) : option ws_result :=
  if decide (p = []) then Some (WsOk ws)
  else
    match fuel with
    | O => None
    | S fuel =>
      let prevState := sm_state (ws_machine ws) in
      r ← sm_parse (ws_machine ws) p;
      match r with
      | SmError e => Some (WsError e (ws_log ws))
      | SmAssert => Some WsAssert
      | SmParsed sm n =>
        let p := drop n p in
        let ws := set_machine sm ws in
        let state := sm_state sm in
        if decide (state = prevState) then incoming_loop fuel ws p
        else if decide (state = WebSocketState_Connected) then incoming_loop fuel ws p
        else
          match new_state ws with
          | None => Some WsAssert
          | Some ws => incoming_loop fuel ws p
          end
      end
    end.

Definition processIncomingData (ws : WebSocket) (p : list byte) : option ws_result :=
  incoming_loop (length p) ws p.
End machine.

(** ** One frame at a time *)

Section stream.
Context `{X : AxlMemory, XL : !AxlMemoryLaws X, H : WebSocketHandshakeParser, SO : Socket}.

(** What is done once a frame is complete. *)
Definition frame_done (ws : WebSocket) (sm : WebSocketStateMachine) : option WebSocket :=
  let ws := set_machine sm ws in
  if decide (sm_state sm = WebSocketState_Connected) then Some ws else new_state ws.

(** The bytes of a connection, frame by frame. *)
Fixpoint stream (fuel : nat) (ws : WebSocket) (p : list byte) : option ws_result :=
  if decide (p = []) then Some (WsOk ws)
  else
    match fuel with
    | O => None
    | S fuel =>
      let sm := ws_machine ws in
      r ← parse (frame_parser sm) p;
      match r with
      | ParseError e => Some (WsError (FrameError e) (ws_log ws))
      | ParseAssert => Some WsAssert
      | Parsed ps k =>
        if negb (isCompleted ps) then Some (WsOk (set_machine (with_parser ps sm) ws))
        else
          match processFrame (with_parser (reset ps) sm) with
          | inr e => Some (WsError e (ws_log ws))
          | inl sm =>
            match frame_done ws sm with
            | None => Some WsAssert
            | Some ws => stream fuel ws (drop k p)
            end
          end
      end
    end.

(** A connection between calls. *)
Definition connected (ws : WebSocket) : Prop :=
  sm_state (ws_machine ws) = WebSocketState_Connected ∧ parser_ok (frame_parser (ws_machine ws)) ∧
  isCompleted (frame_parser (ws_machine ws)) = false.

Lemma parse_loop_ge f : ∀ ps p n ps' n', parse_loop f ps p n = Some (Parsed ps' n') → n ≤ n'.
Proof.
  induction f as [|f IH]; intros ps p n ps' n' Hp; cbn [parse_loop] in Hp.
  - destruct (_ || _); [|done]. injection Hp as <- <-. done.
  - destruct (_ || _); [by injection Hp as <- <-|]. destruct (parse_step ps p); try done.
    + injection Hp as <- <-. lia.
    + apply IH in Hp. lia.
Qed.

Lemma parse_progress ps p ps' n : parser_ok ps → isCompleted ps = false → parse ps p = Some (Parsed ps' n) →
  isCompleted ps' = true → 1 ≤ n ∧ n ≤ length p.
Proof.
  intros Hok Hc Hp Hc'. destruct (parse_loop_ok (length p) ps p 0 Hok) as (r & Hr & Hres); [done|].
  unfold parse in Hp. rewrite Hp in Hr. injection Hr as <-. destruct Hres as (_ & Hn & _). split; [|done].
  destruct p as [|b p]; [simpl in Hp; injection Hp as <- <-; congruence|]. cbn [length parse_loop] in Hp.
  rewrite bool_decide_false in Hp by done. rewrite Hc in Hp. cbn [orb] in Hp.
  unfold isCompleted in Hc. apply bool_decide_eq_false in Hc.
  pose proof (parse_step_ok ps (b :: p) Hok Hc ltac:(done)) as Hs.
  destruct (parse_step ps (b :: p)) as [e| |ps1|ps1 k] eqn:Hst; try done.
  - injection Hp as <- <-. simpl. lia.
  - destruct Hs as (Hok1 & Hk1 & Hk2). apply parse_loop_ge in Hp. lia.
Qed.

(** The parser of a machine. *)
Lemma frame_parser_with ps sm : frame_parser (with_parser ps sm) = ps.
Proof. by destruct ps. Qed.

Lemma with_parser_state ps sm : sm_state (with_parser ps sm) = sm_state sm.
Proof. done. Qed.

(** A new frame begins with an idle parser. *)
Lemma processFrame_ok sm sm' : processFrame sm = inl sm' →
  sm_frameParser sm' = sm_frameParser sm ∧ sm_frame sm' = sm_frame sm ∧
  (sm_state sm' = sm_state sm ∨ sm_state sm' = WebSocketState_ControlFrameReady ∨ sm_state sm' = WebSocketState_MessageReady).
Proof.
  unfold processFrame. intros Hp. destruct (_ <=? _)%Z; [injection Hp as <-; auto|].
  destruct (_ =? _)%Z; [destruct (_ =? _)%Z; [done|]|destruct (negb _); [done|] ];
    destruct (m_fin _); injection Hp as <-; cbn; auto.
Qed.

(** ** What is received *)

(** The blocks of the read buffer, with their opcodes. *)
Definition received (l : list action) : list (Z * list byte) :=
  omap (λ a, match a with AddToReadBuffer payload opcode => Some (opcode, payload) | _ => None end) l.

Lemma received_app l1 l2 : received (l1 ++ l2) = received l1 ++ received l2.
Proof. apply omap_app. Qed.

(** A change that is neither to the machine nor to what is received. *)
Definition quiet (ws ws' : WebSocket) : Prop :=
  ws_machine ws' = ws_machine ws ∧ ws_options ws' = ws_options ws ∧ received (ws_log ws') = received (ws_log ws).

Lemma quiet_trans ws1 ws2 ws3 : quiet ws1 ws2 → quiet ws2 ws3 → quiet ws1 ws3.
Proof. intros (H1 & H2 & H3) (K1 & K2 & K3). unfold quiet. by rewrite K1, K2, K3. Qed.

Lemma quiet_events e ws : quiet ws (setEvents e ws).
Proof. split; [done|]. split; [done|]. cbn. rewrite received_app. apply app_nil_r. Qed.

Lemma quiet_write bytes ws : quiet ws (addToWriteBuffer bytes ws).2.
Proof. split; [done|]. split; [done|]. cbn. rewrite received_app. apply app_nil_r. Qed.

Lemma quiet_flags f ws : quiet ws (or_ioThreadFlags f ws).
Proof. done. Qed.

Lemma quiet_refl ws : quiet ws ws.
Proof. done. Qed.

Lemma control_reply_quiet events ws events' ws' : control_reply events ws = Some (events', ws') → quiet ws ws'.
Proof.
  unfold control_reply. intros Hc. destruct (_ =? WebSocketFrameOpcode_Close)%Z.
  - destruct (flag_set _ _); [by simplify_eq|]. destruct (flag_set _ _); [by simplify_eq|]. opt_inv.
    pose proof (quiet_write x ws) as Hw. destruct (addToWriteBuffer x ws) as [n ws1]. cbn in Hw.
    destruct (n =? 0)%nat; simplify_eq; [done|]. eapply quiet_trans; [exact Hw|apply quiet_flags].
  - destruct (_ =? WebSocketFrameOpcode_Ping)%Z; [|by simplify_eq]. destruct (flag_set _ _); [by simplify_eq|].
    opt_inv. simplify_eq. apply quiet_write.
Qed.

(** What a control frame adds to what is received. *)
Definition control_received (options : N) (opcode : Z) (payload : list byte) : list (Z * list byte) :=
  if flag_set WebSocketOption_IncludeControlFrames options then [(opcode, payload)] else [].

Lemma control_frame_received ws ws' : control_frame ws = Some ws' →
  ws_machine ws' = ws_machine ws ∧ ws_options ws' = ws_options ws ∧
  received (ws_log ws') = received (ws_log ws) ++
    control_received (ws_options ws) (m_opcode (f_hdr (sm_frame (ws_machine ws)))) (m_payload (sm_frame (ws_machine ws))).
Proof.
  unfold control_frame. intros Hc. destruct (control_read ws) as [events ws1] eqn:Hr.
  assert (H1 : ws_machine ws1 = ws_machine ws ∧ ws_options ws1 = ws_options ws ∧
    received (ws_log ws1) = received (ws_log ws) ++
    control_received (ws_options ws) (m_opcode (f_hdr (sm_frame (ws_machine ws)))) (m_payload (sm_frame (ws_machine ws)))).
  { unfold control_read, control_received in *. destruct (flag_set _ _); injection Hr as <- <-; cbn.
    - split; [done|]. split; [done|]. by rewrite received_app.
    - by rewrite app_nil_r. }
  opt_inv. destruct x as [events' ws2]. opt_inv.
  assert (Hq : quiet ws1 (if (events' =? 0)%N then ws2 else setEvents events' ws2)).
  { apply control_reply_quiet in H0. destruct (events' =? 0)%N; [done|]. eapply quiet_trans; [exact H0|apply quiet_events]. }
  destruct H1 as (A1 & A2 & A3), Hq as (B1 & B2 & B3). rewrite B1, B2, B3, A1, A2, A3. done.
Qed.

(** ** The loops are the stream *)

(** Between frames the machine is connected and its parser idle. *)
Definition idle (ws : WebSocket) : Prop :=
  sm_state (ws_machine ws) = WebSocketState_Connected ∧
  (sm_frameParser (ws_machine ws) = None ∨ sm_frameParser (ws_machine ws) = Some (State_Header, [])).

Lemma idle_connected ws : idle ws → connected ws.
Proof.
  intros [H1 H2]. split; [done|]. unfold frame_parser. destruct H2 as [-> | ->]; (split; [|done]); done.
Qed.

Lemma setConnected_idle sm sm' : setConnectedState sm = Some sm' →
  sm_frameParser sm = Some (State_Header, []) →
  sm_state sm' = WebSocketState_Connected ∧ sm_frameParser sm' = Some (State_Header, []) ∧ sm_message sm' = clear_message.
Proof. unfold setConnectedState. intros Hs Hp. rewrite Hp in Hs. destruct (sm_state sm); simplify_eq; done. Qed.

Lemma new_state_received ws ws' : new_state ws = Some ws' →
  sm_frameParser (ws_machine ws) = Some (State_Header, []) →
  sm_state (ws_machine ws) = WebSocketState_ControlFrameReady ∨ sm_state (ws_machine ws) = WebSocketState_MessageReady →
  idle ws' ∧ sm_message (ws_machine ws') = clear_message ∧ ws_options ws' = ws_options ws ∧
  received (ws_log ws') = received (ws_log ws) ++
    (if decide (sm_state (ws_machine ws) = WebSocketState_MessageReady)
     then [(g_opcode (sm_message (ws_machine ws)), g_payload (sm_message (ws_machine ws)))]
     else control_received (ws_options ws) (m_opcode (f_hdr (sm_frame (ws_machine ws)))) (m_payload (sm_frame (ws_machine ws)))).
Proof.
  unfold new_state. intros Hn Hp Hst. destruct Hst as [Hst|Hst]; rewrite Hst in Hn |- *.
  - rewrite decide_False by done. apply bind_Some in Hn as (ws1 & Hc & Hn). apply bind_Some in Hn as (sm & Hs & [= <-]).
    destruct (control_frame_received ws ws1 Hc) as (A1 & A2 & A3). rewrite A1 in Hs.
    destruct (setConnected_idle _ _ Hs Hp) as (B1 & B2 & B3). unfold idle. cbn. rewrite A2. auto.
  - rewrite decide_True by done. apply bind_Some in Hn as (ws1 & [= <-] & Hn). apply bind_Some in Hn as (sm & Hs & [= <-]).
    cbn in Hs. destruct (setConnected_idle _ _ Hs Hp) as (B1 & B2 & B3). unfold idle. cbn.
    rewrite !received_app. cbn. rewrite app_nil_r. auto.
Qed.

(** After a frame the connection is idle. *)
Lemma frame_done_idle ws ps sm ws' : sm_state (ws_machine ws) = WebSocketState_Connected →
  processFrame (with_parser (reset ps) (ws_machine ws)) = inl sm → frame_done ws sm = Some ws' → idle ws'.
Proof.
  intros Hc Hp Hd. destruct (processFrame_ok _ _ Hp) as (P1 & P2 & P3). cbn in P1.
  unfold frame_done in Hd. case_decide as Hst; [simplify_eq; by split; [|right] |].
  destruct P3 as [P3|P3]; [cbn in P3; congruence|]. by eapply new_state_received in Hd as [? _].
Qed.

Lemma stream_fuel n : ∀ p F1 F2 ws, length p < n → length p ≤ F1 → length p ≤ F2 → connected ws →
  stream F1 ws p = stream F2 ws p.
Proof.
  induction n as [|n IH]; intros p F1 F2 ws Hn H1 H2 Hc; [lia|].
  destruct p as [|b p]; [by destruct F1, F2|]. destruct F1 as [|F1], F2 as [|F2]; try (simpl in H1, H2; lia).
  cbn [stream]. rewrite !decide_False by done. cbv zeta. destruct Hc as (C1 & C2 & C3).
  destruct (parse (frame_parser (ws_machine ws)) (b :: p)) as [ [e| |ps k]|] eqn:Hp; try done. cbn [mbind option_bind].
  destruct (isCompleted ps) eqn:Hcp; [|done]. cbn [negb].
  destruct (parse_progress _ _ _ _ C2 C3 Hp Hcp) as [K1 K2].
  destruct (processFrame _) as [sm|e] eqn:Hpf; [|done]. destruct (frame_done ws sm) as [ws'|] eqn:Hd; [|done].
  simpl in *. apply IH; [rewrite length_drop; simpl; lia..|]. apply idle_connected. by eapply frame_done_idle.
Qed.

(** What [incoming_loop] does with the result of the machine. *)
Definition after (fuel : nat) (ws : WebSocket) (p : list byte) (r : option sm_result) : option ws_result :=
  match r with
  | None => None
  | Some (SmError e) => Some (WsError e (ws_log ws))
  | Some SmAssert => Some WsAssert
  | Some (SmParsed sm n) =>
    match frame_done ws sm with
    | None => Some WsAssert
    | Some ws => incoming_loop fuel ws (drop n p)
    end
  end.

Lemma incoming_step fuel ws b p : sm_state (ws_machine ws) = WebSocketState_Connected →
  incoming_loop (S fuel) ws (b :: p) = after fuel ws (b :: p) (frame_loop (length (b :: p)) (ws_machine ws) (b :: p) 0).
Proof.
  intros Hc. cbn [incoming_loop]. rewrite decide_False by done. unfold sm_parse. rewrite Hc.
  destruct (frame_loop _ _ _ _) as [ [e| |sm n]|]; try done. cbn [mbind option_bind after]. unfold frame_done.
  case_decide; [done|]. done.
Qed.

Lemma set_machine_set sm sm' ws : set_machine sm (set_machine sm' ws) = set_machine sm ws.
Proof. done. Qed.

Lemma frame_done_set ws sm sm' : frame_done (set_machine sm' ws) sm = frame_done ws sm.
Proof. done. Qed.

Lemma frame_loop_stop f sm p n : sm_state sm ≠ WebSocketState_Connected → frame_loop f sm p n = Some (SmParsed sm n).
Proof. intros Hs. destruct f; cbn [frame_loop]; by rewrite (bool_decide_false _ Hs), orb_true_r. Qed.

Lemma frame_loop_nil f sm n : frame_loop f sm [] n = Some (SmParsed sm n).
Proof. by destruct f. Qed.

Lemma frame_done_connected ws : sm_state (ws_machine ws) = WebSocketState_Connected →
  frame_done ws (ws_machine ws) = Some ws.
Proof. intros Hc. unfold frame_done. rewrite decide_True by done. by destruct ws. Qed.

Lemma after_set G sm ws p r : after G (set_machine sm ws) p r = after G ws p r.
Proof. by destruct r as [ [e| |sm' n]|]. Qed.

(** From inside of the loop over the frames: [pre] is the bytes before. *)
Lemma frame_loop_stream N : (∀ p g F ws, length p < N → connected ws → length p ≤ g → length p ≤ F →
    incoming_loop g ws p = stream F ws p) →
  ∀ f p pre G F ws, length p ≤ N → connected ws → length p ≤ f → length p ≤ F → length p ≤ S G →
  after G ws (pre ++ p) (frame_loop f (ws_machine ws) p (length pre)) = stream F ws p.
Proof.
  intros IH. induction f as [|f IHf]; intros p pre G F ws HN Hc Hf HF HG.
  { destruct p; [|simpl in Hf; lia]. rewrite frame_loop_nil. cbn [after].
    rewrite frame_done_connected by apply Hc. rewrite drop_app_length. by destruct G, F. }
  destruct p as [|b p].
  { rewrite frame_loop_nil. cbn [after]. rewrite frame_done_connected by apply Hc.
    rewrite drop_app_length. by destruct G, F. }
  destruct F as [|F]; [simpl in HF; lia|]. cbn [frame_loop stream]. rewrite decide_False by done.
  destruct Hc as (C1 & C2 & C3). rewrite (bool_decide_false (_ = [])), (bool_decide_true _ C1) by done. cbn [orb negb].
  cbv zeta. destruct (parse (frame_parser (ws_machine ws)) (b :: p)) as [ [e| |ps k]|] eqn:Hp; try done.
  cbn [mbind option_bind]. destruct (isCompleted ps) eqn:Hcp; cbn [negb].
  - destruct (parse_progress _ _ _ _ C2 C3 Hp Hcp) as [K1 K2].
    destruct (processFrame _) as [sm|e] eqn:Hpf; [|done].
    assert (Hlen : length (drop k (b :: p)) < length (b :: p)) by (rewrite length_drop; lia).
    assert (Hsplit : pre ++ b :: p = (pre ++ take k (b :: p)) ++ drop k (b :: p)) by (by rewrite <- app_assoc, take_drop).
    assert (Hpre : length pre + k = length (pre ++ take k (b :: p))) by (rewrite length_app, length_take; lia).
    destruct (decide (sm_state sm = WebSocketState_Connected)) as [Hs|Hs].
    + assert (Hd : frame_done ws sm = Some (set_machine sm ws)) by (unfold frame_done; by rewrite decide_True).
      rewrite Hd, Hsplit, Hpre. rewrite <- (after_set G sm). apply (IHf _ _ _ F (set_machine sm ws)); try lia.
      apply idle_connected. by eapply frame_done_idle.
    + rewrite frame_loop_stop by done. cbn [after]. destruct (frame_done ws sm) as [ws'|] eqn:Hd; [|done].
      rewrite Hsplit, Hpre, drop_app_length. simpl in HN, HG, HF, Hlen. apply IH; try lia.
      apply idle_connected. by eapply frame_done_idle.
  - cbn [after]. unfold frame_done. rewrite decide_True by done.
    rewrite drop_ge by (rewrite length_app; done). by destruct G.
Qed.

(** The loops handle the bytes frame by frame. *)
Lemma incoming_stream N : ∀ p g F ws, length p < N → connected ws → length p ≤ g → length p ≤ F →
  incoming_loop g ws p = stream F ws p.
Proof.
  induction N as [|N IH]; intros p g F ws HN Hc Hg HF; [lia|].
  destruct p as [|b p]; [by destruct g, F|]. destruct g as [|g]; [simpl in Hg; lia|].
  rewrite incoming_step by apply Hc.
  apply (frame_loop_stream N IH (length (b :: p)) (b :: p) [] g F ws); [lia|done|done|done|done].
Qed.

Lemma process_stream ws p F : connected ws → length p ≤ F → processIncomingData ws p = stream F ws p.
Proof. intros Hc HF. by apply (incoming_stream (S (length p))); [lia| | |]. Qed.

(** *** Chunks *)

(** More bytes for a connection. *)
Definition ws_then (r : option ws_result) (k : WebSocket → option ws_result) : option ws_result :=
  match r with Some (WsOk ws) => k ws | r => r end.

Lemma with_parser_twice ps ps' sm : with_parser ps (with_parser ps' sm) = with_parser ps sm.
Proof. done. Qed.

Lemma stream_app N : ∀ a b F F1 F2 ws, length a < N → connected ws → length (a ++ b) ≤ F → length a ≤ F1 → length b ≤ F2 →
  stream F ws (a ++ b) = ws_then (stream F1 ws a) (λ ws, stream F2 ws b).
Proof.
  induction N as [|N IH]; intros a b F F1 F2 ws HN Hc HF H1 H2; [lia|].
  destruct a as [|x a].
  { assert (Hs : stream F1 ws [] = Some (WsOk ws)) by (by destruct F1). rewrite Hs. cbn [ws_then].
    by apply (stream_fuel (S (length b))); [lia| | |]. }
  rewrite length_app in HF. destruct F as [|F]; [simpl in HF; lia|]. destruct F1 as [|F1]; [simpl in H1; lia|].
  cbn [stream]. rewrite !decide_False by done. cbv zeta. destruct Hc as (C1 & C2 & C3).
  rewrite parse_chunks_lemma by done.
  destruct (parse_loop_ok (length (x :: a)) (frame_parser (ws_machine ws)) (x :: a) 0 C2) as (r & Hr & Hres); [done|].
  unfold parse at 1 3. rewrite Hr. destruct r as [e| |ps k]; [done|done|]. destruct Hres as (R1 & R2 & R3). cbn [and_then mbind option_bind].
  destruct (isCompleted ps) eqn:Hcp; cbn [negb].
  - cbn [mbind option_bind]. rewrite Hcp. cbn [negb]. destruct (parse_progress _ _ ps k C2 C3 Hr Hcp) as [K1 K2].
    destruct (processFrame _) as [sm|e] eqn:Hpf; [|done]. destruct (frame_done ws sm) as [ws'|] eqn:Hd; [|done].
    rewrite drop_app_le by done. apply IH.
    + rewrite length_drop. lia.
    + apply idle_connected. by eapply frame_done_idle.
    + rewrite length_app, length_drop. simpl in *. lia.
    + rewrite length_drop. simpl in *. lia.
    + done.
  - specialize (R3 eq_refl). cbn [ws_then]. set (ws1 := set_machine (with_parser ps (ws_machine ws)) ws).
    assert (Hc1 : connected ws1).
    { unfold connected, ws1. cbn [ws_machine set_machine]. rewrite frame_parser_with. done. }
    destruct b as [|y b].
    { assert (Hn : parse ps [] = Some (Parsed ps 0)) by done. rewrite Hn. cbn [mbind option_bind]. rewrite Hcp. cbn [negb].
      by destruct F2. }
    destruct F2 as [|F2]; [simpl in H2; lia|]. cbn [stream]. rewrite decide_False by done. cbv zeta.
    assert (Hfp : frame_parser (ws_machine ws1) = ps) by apply frame_parser_with. rewrite Hfp.
    destruct (parse ps (y :: b)) as [ [e| |ps' k']|] eqn:Hpb; try done. cbn [mbind option_bind].
    destruct (isCompleted ps') eqn:Hcp'; cbn [negb]; [|done].
    destruct (parse_progress _ _ ps' k' R1 Hcp Hpb Hcp') as [K1 K2].
    change (with_parser (reset ps') (ws_machine ws1)) with (with_parser (reset ps') (ws_machine ws)).
    destruct (processFrame _) as [sm|e] eqn:Hpf; [|done].
    change (frame_done ws1 sm) with (frame_done ws sm). destruct (frame_done ws sm) as [ws'|] eqn:Hd; [|done].
    replace (drop (k + k') ((x :: a) ++ y :: b)) with (drop k' (y :: b)).
    2:{ rewrite R3. cbn [Nat.add]. rewrite drop_app_add. done. }
    apply (stream_fuel (S (length (y :: b)))); [rewrite length_drop; simpl in *; lia..|].
    apply idle_connected. by eapply frame_done_idle.
Qed.

(** A call after another. *)
Fixpoint process_all (ws : WebSocket) (chunks : list (list byte)) : option ws_result :=
  match chunks with
  | [] => Some (WsOk ws)
  | c :: chunks => ws_then (processIncomingData ws c) (λ ws, process_all ws chunks)
  end.
End stream.
