(* ===== verification/WsMessages.v ===== *)
(** * WebSocket messages of a connection

    What a connected socket receives: the theorems about [WsState], against the
    messages of RFC 6455. *)

From S2P Require Import Prelude WsFrame WsState.
From coqutil Require Import Byte.

(** ** Chunks of a stream *)

Class SocketLaws (SO : Socket) : Prop := {
  so_rand_length l : length (so_rand l) = 4
}.

Section messages.
Context `{X : AxlMemory, XL : !AxlMemoryLaws X, H : WebSocketHandshakeParser, SO : Socket, SL : !SocketLaws SO}.

Lemma stream_connected n : ∀ p F ws ws', length p < n → connected ws → length p ≤ F →
  stream F ws p = Some (WsOk ws') → connected ws'.
Proof.
  induction n as [|n IH]; intros p F ws ws' Hn Hc HF Hs; [lia|].
  destruct p as [|b p]; [destruct F; by simplify_eq/=|]. destruct F as [|F]; [simpl in HF; lia|].
  cbn [stream] in Hs. rewrite decide_False in Hs by done. cbv zeta in Hs. destruct Hc as (C1 & C2 & C3).
  destruct (parse_loop_ok (length (b :: p)) (frame_parser (ws_machine ws)) (b :: p) 0 C2) as (r & Hr & Hres); [done|].
  unfold parse in Hs. rewrite Hr in Hs. destruct r as [e| |ps k]; [done|done|]. destruct Hres as (R1 & R2 & R3).
  cbn [mbind option_bind] in Hs. destruct (isCompleted ps) eqn:Hcp; cbn [negb] in Hs.
  - destruct (parse_progress _ _ ps k C2 C3 Hr Hcp) as [K1 K2].
    destruct (processFrame _) as [sm|e] eqn:Hpf; [|done]. destruct (frame_done ws sm) as [ws1|] eqn:Hd; [|done].
    eapply IH; [| | |exact Hs]; [rewrite length_drop; simpl in *; lia| |rewrite length_drop; simpl in *; lia].
    apply idle_connected. by eapply frame_done_idle.
  - injection Hs as <-. unfold connected. cbn [ws_machine set_machine]. by rewrite frame_parser_with.
Qed.

(** However a stream is cut, it is handled as a whole. *)
Lemma process_all_stream chunks : ∀ ws F, connected ws → length (concat chunks) ≤ F →
  process_all ws chunks = stream F ws (concat chunks).
Proof.
  induction chunks as [|c chunks IH]; intros ws F Hc HF; [by destruct F|]. cbn [process_all concat] in *.
  rewrite (stream_app (S (length c)) c (concat chunks) F (length c) (length (concat chunks)) ws) by first [done|lia].
  rewrite (process_stream ws c (length c)) by done.
  destruct (stream (length c) ws c) as [ [e l| |ws']|] eqn:Hs; try done. cbn [ws_then].
  apply IH; [|done]. by eapply (stream_connected (S (length c)) c (length c) ws ws'); [lia|..].
Qed.

(** ** Frames *)

Record input := mkInput {
  i_key : list byte; i_opcode : Z; i_fin : bool; i_masked : bool; i_payload : list byte
}.

Definition input_bytes (i : input) : list byte :=
  frame_bytes (i_key i) (i_opcode i) (i_fin i) (i_masked i) (i_payload i).

Definition valid_input (i : input) : Prop :=
  length (i_key i) = 4 ∧ valid_header (i_opcode i) (i_fin i) ∧ (Z.of_nat (length (i_payload i)) ≤ MaxPayloadLength)%Z.

(** A message that is not complete: its opcode and its payload so far. *)
Definition partial : Type := option (Z * list byte).

Inductive event := Message (opcode : Z) (payload : list byte) | Control (opcode : Z) (payload : list byte).

(** What a frame means after a partial message. *)
Definition assemble (acc : partial) (i : input) : option event * partial + ws_error :=
  if (WebSocketFrameOpcode_FirstControl <=? i_opcode i)%Z then inl (Some (Control (i_opcode i) (i_payload i)), None)
  else if (i_opcode i =? WebSocketFrameOpcode_Continuation)%Z then
    match acc with
    | None => inr NoInitialFrame
    | Some (o, p) =>
      let p := p ++ i_payload i in
      inl (if i_fin i then (Some (Message o p), None) else (None, Some (o, p)))
    end
  else
    match acc with
    | Some _ => inr IncompleteMessage
    | None =>
      inl (if i_fin i then (Some (Message (i_opcode i) (i_payload i)), None)
           else (None, Some (i_opcode i, i_payload i)))
    end.

Fixpoint assemble_all (acc : partial) (l : list input) : list event * (partial + ws_error) :=
  match l with
  | [] => ([], inl acc)
  | i :: l =>
    match assemble acc i with
    | inr e => ([], inr e)
    | inl (ev, acc) => let '(evs, r) := assemble_all acc l in (option_list ev ++ evs, r)
    end
  end.

Definition event_received (options : N) (ev : event) : list (Z * list byte) :=
  match ev with
  | Message o p => [(o, p)]
  | Control o p => control_received options o p
  end.

(** The messages that match a partial message. *)
Definition partial_message (acc : partial) (m : WebSocketMessage) : Prop :=
  match acc with
  | None => m = clear_message
  | Some (o, p) => (o = 1 ∨ o = 2)%Z ∧ g_opcode m = o ∧ g_payload m = p
  end.

(** The machine between frames. *)
Definition assembling (acc : partial) (ws : WebSocket) : Prop :=
  idle ws ∧ partial_message acc (sm_message (ws_machine ws)).

Lemma flag_reply ws opcode msk payload : ∃ bytes, replyFrame ws opcode msk payload = Some bytes.
Proof.
  unfold replyFrame. destruct (allocates (2 + 8 + 4 + align4 (length payload))) eqn:Hal.
  - rewrite build_spec by (done || apply so_rand_length). eauto.
  - unfold buildWebSocketFrame. rewrite Hal. cbn [negb]. eauto.
Qed.

(** Replies are built inside of their buffers. *)
Lemma control_frame_some ws : m_payloadLength (sm_frame (ws_machine ws)) = Z.of_nat (length (m_payload (sm_frame (ws_machine ws)))) →
  is_Some (control_frame ws).
Proof.
  intros Hl. unfold control_frame. destruct (control_read ws) as [events ws1] eqn:Hr.
  assert (Hm : ws_machine ws1 = ws_machine ws) by (unfold control_read in Hr; by destruct (flag_set _ _); simplify_eq).
  assert (Hc : is_Some (control_reply events ws1)).
  { unfold control_reply. rewrite Hm. destruct (_ =? WebSocketFrameOpcode_Close)%Z.
    - destruct (flag_set _ _); [by eexists|]. destruct (flag_set _ _); [by eexists|].
      destruct (flag_reply ws1 WebSocketFrameOpcode_Close false []) as [bytes ->]. cbn [mbind option_bind].
      destruct (addToWriteBuffer bytes ws1). by eexists.
    - destruct (_ =? WebSocketFrameOpcode_Ping)%Z; [|by eexists]. destruct (flag_set _ _); [by eexists|].
      unfold read_payload. rewrite Hl, Nat2Z.id, Nat.leb_refl. cbn [mbind option_bind].
      edestruct flag_reply as [bytes ->]. by eexists. }
  destruct Hc as [ [events' ws2] ->]. by eexists.
Qed.

Lemma setConnected_some sm : sm_state sm = WebSocketState_ControlFrameReady ∨ sm_state sm = WebSocketState_MessageReady →
  is_Some (setConnectedState sm).
Proof. unfold setConnectedState. intros [-> | ->]; by eexists. Qed.

Lemma new_state_some ws : m_payloadLength (sm_frame (ws_machine ws)) = Z.of_nat (length (m_payload (sm_frame (ws_machine ws)))) →
  sm_state (ws_machine ws) = WebSocketState_ControlFrameReady ∨ sm_state (ws_machine ws) = WebSocketState_MessageReady →
  is_Some (new_state ws).
Proof.
  intros Hl Hst. destruct (setConnected_some _ Hst) as [sm Hsm]. unfold new_state. destruct Hst as [Hst|Hst]; rewrite Hst.
  - destruct (control_frame_some ws Hl) as [ws1 Hc]. rewrite Hc. cbn [mbind option_bind].
    destruct (control_frame_received _ _ Hc) as (-> & _ & _). rewrite Hsm. by eexists.
  - cbn [mbind option_bind]. cbn [ws_machine setEvents log]. rewrite Hsm. by eexists.
Qed.

Lemma processFrame_assemble sm acc i : sm_state sm = WebSocketState_Connected →
  m_opcode (f_hdr (sm_frame sm)) = i_opcode i → m_fin (f_hdr (sm_frame sm)) = i_fin i →
  m_payload (sm_frame sm) = i_payload i → valid_header (i_opcode i) (i_fin i) →
  partial_message acc (sm_message sm) →
  match assemble acc i with
  | inr e => processFrame sm = inr e
  | inl (ev, acc') => ∃ sm', processFrame sm = inl sm' ∧
      match ev with
      | Some (Message o p) => sm_state sm' = WebSocketState_MessageReady ∧
          g_opcode (sm_message sm') = o ∧ g_payload (sm_message sm') = p ∧ acc' = None
      | Some (Control o p) => sm_state sm' = WebSocketState_ControlFrameReady ∧
          o = i_opcode i ∧ p = i_payload i ∧ acc' = None
      | None => sm_state sm' = WebSocketState_Connected ∧ partial_message acc' (sm_message sm')
      end
  end.
Proof.
  intros Hst Ho Hf Hp Hv Hacc. unfold assemble, processFrame. rewrite Ho, Hf, Hp.
  destruct (WebSocketFrameOpcode_FirstControl <=? i_opcode i)%Z eqn:H1; [by eexists|].
  destruct (i_opcode i =? WebSocketFrameOpcode_Continuation)%Z eqn:H2.
  - destruct acc as [ [o p]|]; [|by rewrite Hacc]. destruct Hacc as (Hop & Hgo & Hgp). rewrite Hgo.
    rewrite (proj2 (Z.eqb_neq _ _)) by (unfold WebSocketFrameOpcode_Undefined; lia).
    destruct (i_fin i); eexists; (split; [reflexivity|]); cbn; by rewrite ?Hgp.
  - destruct acc as [ [o p]|].
    + destruct Hacc as (Hop & Hgo & Hgp). rewrite Hgo.
      by rewrite (proj2 (Z.eqb_neq _ _)) by (unfold WebSocketFrameOpcode_Undefined; lia).
    + rewrite Hacc. cbn [g_opcode clear_message]. rewrite Z.eqb_refl. cbn [negb].
      assert (i_opcode i = 1 ∨ i_opcode i = 2)%Z.
      { unfold valid_header, WebSocketFrameOpcode_FirstControl, WebSocketFrameOpcode_Close, WebSocketFrameOpcode_Continuation in *.
        set_unfold. lia. }
      destruct (i_fin i); eexists; (split; [reflexivity|]); cbn; auto.
Qed.

(** A frame that is complete, on a machine between frames. *)
Lemma stream_frame acc ws i rest F : assembling acc ws → valid_input i →
  match assemble acc i with
  | inr e => stream (S F) ws (input_bytes i ++ rest) = Some (WsError e (ws_log ws))
  | inl (ev, acc') => ∃ ws', stream (S F) ws (input_bytes i ++ rest) = stream F ws' rest ∧
      assembling acc' ws' ∧ ws_options ws' = ws_options ws ∧
      received (ws_log ws') = received (ws_log ws) ++ flat_map (event_received (ws_options ws)) (option_list ev)
  end.
Proof.
  intros [ [Hst Hps] Hacc] (Hk & Hv & Hmax).
  assert (Hne : input_bytes i ++ rest ≠ []) by (unfold input_bytes, frame_bytes; by destruct (length_bytes _)).
  assert (Hs : stream (S F) ws (input_bytes i ++ rest) =
    match processFrame (with_parser (mkParser State_Header [] (parsed_frame (i_key i) (i_opcode i) (i_fin i) (i_masked i) (i_payload i))) (ws_machine ws)) with
    | inr e => Some (WsError e (ws_log ws))
    | inl sm => match frame_done ws sm with None => Some WsAssert | Some ws => stream F ws rest end
    end).
  { cbn [stream]. rewrite decide_False by done. cbv zeta.
    assert (Hfp : frame_parser (ws_machine ws) = mkParser State_Header [] (sm_frame (ws_machine ws)))
      by (unfold frame_parser; by destruct Hps as [-> | ->]).
    rewrite Hfp. unfold input_bytes. rewrite parse_frame_lemma by done. cbn [mbind option_bind isCompleted m_state].
    change (isCompleted (mkParser State_Completed [] ?f)) with true. cbn [negb reset m_frame]. rewrite drop_app_length. done. }
  rewrite Hs. clear Hs Hne.
  set (sm := with_parser _ _).
  assert (Hsm : sm_state sm = WebSocketState_Connected ∧ sm_frameParser sm = Some (State_Header, []) ∧
    sm_frame sm = parsed_frame (i_key i) (i_opcode i) (i_fin i) (i_masked i) (i_payload i) ∧
    sm_message sm = sm_message (ws_machine ws)) by done.
  clearbody sm. destruct Hsm as (S1 & S2 & S3 & S4).
  assert (Hpf := processFrame_assemble sm acc i S1). rewrite S3, S4 in Hpf.
  specialize (Hpf eq_refl eq_refl eq_refl Hv Hacc). destruct (assemble acc i) as [ [ev acc']|e]; [|by rewrite Hpf].
  destruct Hpf as (sm' & Hpf & Hev). rewrite Hpf. destruct (processFrame_ok _ _ Hpf) as (P1 & P2 & _).
  rewrite S2 in P1. rewrite S3 in P2. unfold frame_done.
  destruct ev as [ev|].
  2:{ destruct Hev as [E1 E2]. rewrite decide_True by done. eexists. split; [reflexivity|].
      split; [by split; [split; [|right]|]|]. cbn. by rewrite app_nil_r. }
  assert (Hready : sm_state sm' = WebSocketState_ControlFrameReady ∨ sm_state sm' = WebSocketState_MessageReady)
    by (destruct ev; naive_solver).
  rewrite decide_False by (destruct Hready; congruence).
  destruct (new_state_some (set_machine sm' ws)) as [ws' Hn]; [cbn; by rewrite P2|done|]. rewrite Hn.
  destruct (new_state_received _ _ Hn P1 Hready) as (N1 & N2 & N3 & N4). exists ws'. split; [done|].
  assert (acc' = None) as -> by (destruct ev; naive_solver). split; [done|]. split; [done|]. rewrite N4.
  cbn. rewrite app_nil_r. f_equal. destruct ev as [o p|o p]; destruct Hev as (E1 & E2 & E3 & _); rewrite E1.
  - rewrite decide_True by done. cbn. by rewrite E2, E3.
  - rewrite decide_False by done. cbn. rewrite P2. cbn. by rewrite E2, E3.
Qed.

Lemma input_bytes_length i : 2 ≤ length (input_bytes i).
Proof.
  unfold input_bytes, frame_bytes. destruct (length_bytes _) as [c l]. rewrite length_app.
  change (length (hdr_bytes _)) with 2. lia.
Qed.

(** Frame after frame. *)
Lemma stream_frames l : ∀ acc ws rest F, assembling acc ws → Forall valid_input l →
  length (concat (map input_bytes l) ++ rest) ≤ F →
  match assemble_all acc l with
  | (evs, inr e) => ∃ log, stream F ws (concat (map input_bytes l) ++ rest) = Some (WsError e log) ∧
      received log = received (ws_log ws) ++ flat_map (event_received (ws_options ws)) evs
  | (evs, inl acc') => ∃ ws', stream F ws (concat (map input_bytes l) ++ rest) = stream (length rest) ws' rest ∧
      assembling acc' ws' ∧ ws_options ws' = ws_options ws ∧
      received (ws_log ws') = received (ws_log ws) ++ flat_map (event_received (ws_options ws)) evs
  end.
Proof.
  induction l as [|i l IH]; intros acc ws rest F Hacc Hv HF.
  { cbn. exists ws. rewrite app_nil_r. split; [|done].
    apply (stream_fuel (S (length rest))); [lia|done|done|]. apply idle_connected, Hacc. }
  apply Forall_cons in Hv as [Hi Hv]. cbn [map concat assemble_all] in *. rewrite <- app_assoc in HF |- *.
  pose proof (input_bytes_length i) as Hlen. rewrite length_app in HF. destruct F as [|F]; [lia|].
  pose proof (stream_frame acc ws i (concat (map input_bytes l) ++ rest) F Hacc Hi) as Hf.
  destruct (assemble acc i) as [ [ev acc1]|e].
  2:{ rewrite Hf. eexists. split; [done|]. by rewrite app_nil_r. }
  destruct Hf as (ws1 & -> & Hacc1 & Ho1 & Hr1). specialize (IH acc1 ws1 rest F Hacc1 Hv ltac:(lia)).
  destruct (assemble_all acc1 l) as [evs [acc'|e] ].
  - destruct IH as (ws2 & -> & H2 & Ho2 & Hr2). exists ws2. split; [done|]. split; [done|]. split; [congruence|].
    by rewrite Hr2, Hr1, Ho1, flat_map_app, app_assoc.
  - destruct IH as (log' & -> & Hr2). exists log'. split; [done|]. by rewrite Hr2, Hr1, Ho1, flat_map_app, app_assoc.
Qed.

(** ** Messages as they are sent *)

(** A fragment: the key, whether it is masked, and the payload. *)
Record fragment := mkFragment { fr_key : list byte; fr_masked : bool; fr_payload : list byte }.

Definition fragment_frame (opcode : Z) (fin : bool) (f : fragment) : input :=
  mkInput (fr_key f) opcode fin (fr_masked f) (fr_payload f).

(** What a peer sends: a message in one or more fragments, or a control frame. *)
Inductive item :=
  | SendMessage (opcode : Z) (f : fragment) (fs : list fragment)
  | SendControl (opcode : Z) (f : fragment).

(** The continuation frames of a message, the last one is final (RFC 6455, section 5.4). *)
Fixpoint continuations (fs : list fragment) : list input :=
  match fs with
  | [] => []
  | f :: fs => fragment_frame WebSocketFrameOpcode_Continuation (bool_decide (fs = [])) f :: continuations fs
  end.

Definition item_frames (it : item) : list input :=
  match it with
  | SendMessage opcode f fs => fragment_frame opcode (bool_decide (fs = [])) f :: continuations fs
  | SendControl opcode f => [fragment_frame opcode true f]
  end.

Definition valid_fragment (f : fragment) : Prop :=
  length (fr_key f) = 4 ∧ (Z.of_nat (length (fr_payload f)) ≤ MaxPayloadLength)%Z.

Definition valid_item (it : item) : Prop :=
  match it with
  | SendMessage opcode f fs => opcode ∈ [1; 2]%Z ∧ Forall valid_fragment (f :: fs)
  | SendControl opcode f => opcode ∈ [8; 9; 10]%Z ∧ valid_fragment f
  end.

Definition item_event (it : item) : event :=
  match it with
  | SendMessage opcode f fs => Message opcode (concat (map fr_payload (f :: fs)))
  | SendControl opcode f => Control opcode (fr_payload f)
  end.

Definition frames_bytes (l : list input) : list byte := concat (map input_bytes l).

(** The bytes of what is sent. *)
Definition items_bytes (items : list item) : list byte := frames_bytes (flat_map item_frames items).

Lemma assemble_app acc l1 l2 acc1 evs1 : assemble_all acc l1 = (evs1, inl acc1) →
  assemble_all acc (l1 ++ l2) = let '(evs, r) := assemble_all acc1 l2 in (evs1 ++ evs, r).
Proof.
  revert acc evs1. induction l1 as [|i l1 IH]; intros acc evs1 Ha; cbn [assemble_all app] in *.
  { injection Ha as <- <-. by destruct (assemble_all acc l2). }
  destruct (assemble acc i) as [ [ev acc']|]; [|done]. destruct (assemble_all acc' l1) as [evs r] eqn:H1.
  injection Ha as <- ->. rewrite (IH _ _ H1). destruct (assemble_all acc1 l2). by rewrite app_assoc.
Qed.

Lemma assemble_continuations o fs : ∀ p, fs ≠ [] →
  assemble_all (Some (o, p)) (continuations fs) = ([Message o (p ++ concat (map fr_payload fs))], inl None).
Proof.
  induction fs as [|f fs IH]; intros p Hne; [done|]. cbn [continuations assemble_all]. unfold assemble. cbn [fragment_frame i_opcode i_fin i_payload].
  change (_ <=? _)%Z with false. change (_ =? _)%Z with true. cbn iota.
  case_bool_decide as Hfs.
  - subst fs. cbn. by rewrite app_nil_r.
  - rewrite IH by done. cbn. by rewrite app_assoc.
Qed.

Lemma assemble_item it : valid_item it → assemble_all None (item_frames it) = ([item_event it], inl None).
Proof.
  destruct it as [o f fs|o f]; intros [Ho Hf]; cbn [item_frames assemble_all].
  - assert (Ha : assemble None (fragment_frame o (bool_decide (fs = [])) f) =
      inl (if bool_decide (fs = []) then (Some (Message o (fr_payload f)), None) else (None, Some (o, fr_payload f)))).
    { unfold assemble. cbn [fragment_frame i_opcode i_fin i_payload]. set_unfold. destruct Ho as [->|[->|[] ] ]; done. }
    rewrite Ha. case_bool_decide as Hfs.
    + subst fs. cbn. by rewrite app_nil_r.
    + by rewrite assemble_continuations.
  - assert (Ha : assemble None (fragment_frame o true f) = inl (Some (Control o (fr_payload f)), None)).
    { unfold assemble. cbn [fragment_frame i_opcode i_payload]. set_unfold. destruct Ho as [->|[->|[->|[] ] ] ]; done. }
    by rewrite Ha.
Qed.

Lemma assemble_items items : Forall valid_item items →
  assemble_all None (flat_map item_frames items) = (map item_event items, inl None).
Proof.
  induction 1 as [|it items Hit _ IH]; [done|]. cbn [flat_map map].
  rewrite (assemble_app _ _ _ _ _ (assemble_item it Hit)), IH. done.
Qed.

Lemma continuations_valid fs : Forall valid_fragment fs → Forall valid_input (continuations fs).
Proof.
  induction 1 as [|f fs [Hk Hl] _ IH]; [constructor|]. cbn [continuations]. constructor; [|done].
  split; [done|]. split; [|done]. left. unfold fragment_frame, i_opcode, WebSocketFrameOpcode_Continuation. set_solver.
Qed.

Lemma items_valid items : Forall valid_item items → Forall valid_input (flat_map item_frames items).
Proof.
  induction 1 as [|it items Hit _ IH]; [constructor|]. cbn [flat_map]. apply Forall_app. split; [|done].
  destruct it as [o f fs|o f]; destruct Hit as [Ho Hf].
  - apply Forall_cons in Hf as [ [Hk Hl] Hfs]. cbn [item_frames]. constructor; [|by apply continuations_valid].
    split; [done|]. split; [|done]. left. cbn. set_solver.
  - destruct Hf as [Hk Hl]. apply Forall_singleton. split; [done|]. split; [|done]. right. by split.
Qed.

(** C12: What a peer sends is what is received: for every sequence of messages, each in
    any number of fragments, masked or not, and of control frames between messages,
    and however the bytes are cut into calls, no assertion fails, no access is out
    of bounds, and the read buffer is given exactly the messages, whole and in order,
    with the control frames when the options ask for them. *)
Theorem ws_messages ws items chunks : assembling None ws → Forall valid_item items →
  concat chunks = items_bytes items →
  ∃ ws', process_all ws chunks = Some (WsOk ws') ∧ assembling None ws' ∧
    received (ws_log ws') = received (ws_log ws) ++ flat_map (λ it, event_received (ws_options ws) (item_event it)) items.
Proof.
  intros Hacc Hv Hc. rewrite (process_all_stream chunks ws (length (items_bytes items)))
    by first [by rewrite Hc|apply idle_connected, Hacc].
  pose proof (stream_frames (flat_map item_frames items) None ws [] (length (items_bytes items)) Hacc (items_valid _ Hv)) as Hs.
  rewrite assemble_items, app_nil_r in Hs by done. destruct (Hs ltac:(done)) as (ws' & Hst & Ha & _ & Hr).
  exists ws'. rewrite Hc. split; [exact Hst|]. split; [done|]. rewrite Hr. f_equal. by rewrite !flat_map_concat_map, map_map.
Qed.

(** A control frame inside of a fragmented message, which RFC 6455 allows, loses the
    fragments before it: the next fragment is refused as one without an initial
    frame, and the connection ends with an error. *)
Theorem ws_fragment_lost ws o f oc c g fin rest chunks : assembling None ws → o ∈ [1; 2]%Z → oc ∈ [8; 9; 10]%Z →
  valid_fragment f → valid_fragment c → valid_fragment g →
  concat chunks = frames_bytes [fragment_frame o false f; fragment_frame oc true c;
    fragment_frame WebSocketFrameOpcode_Continuation fin g] ++ rest →
  ∃ log, process_all ws chunks = Some (WsError NoInitialFrame log) ∧
    received log = received (ws_log ws) ++ control_received (ws_options ws) oc (fr_payload c).
Proof.
  intros Hacc Ho Hoc [F1 F2] [C1 C2] [G1 G2] Hc.
  set (l := [fragment_frame o false f; fragment_frame oc true c; fragment_frame WebSocketFrameOpcode_Continuation fin g]) in *.
  rewrite (process_all_stream chunks ws (length (concat chunks))) by first [done|apply idle_connected, Hacc].
  assert (Hv : Forall valid_input l).
  { repeat apply Forall_cons_2; [| | |apply Forall_nil_2]; split; try done; (split; [|done]).
    - left. cbn. set_solver.
    - right. by split.
    - left. cbn. unfold WebSocketFrameOpcode_Continuation. set_solver. }
  pose proof (stream_frames l None ws rest (length (concat chunks)) Hacc Hv) as Hs.
  assert (Ha : assemble_all None l = ([Control oc (fr_payload c)], inr NoInitialFrame)).
  { unfold l. cbn [assemble_all]. unfold assemble. cbn [fragment_frame i_opcode i_fin i_payload]. set_unfold.
    destruct Ho as [->|[->|[] ] ], Hoc as [->|[->|[->|[] ] ] ]; done. }
  rewrite Ha in Hs. rewrite Hc in Hs |- *. destruct (Hs ltac:(done)) as (lg & Hst & Hr). exists lg. split; [done|].
  rewrite Hr. cbn. by rewrite app_nil_r.
Qed.
End messages.

(** ** A connection *)

Definition no_handshake : WebSocketHandshakeParser :=
  {| hs := unit; hs_new _ := tt; hs_parse h p := Some (h, length p); hs_isCompleted _ := true; hs_response _ := [] |}.

Definition wide_socket : Socket := {| so_room _ bytes := length bytes; so_rand _ := demo_key |}.

Lemma wide_socket_laws : SocketLaws wide_socket.
Proof. by split. Qed.

Definition fresh_machine : @WebSocketStateMachine no_handshake :=
  @mkMachine no_handshake WebSocketState_Connected false tt None clear_frame clear_message [].

Definition fresh_socket : @WebSocket no_handshake := @mkSocket no_handshake fresh_machine WebSocketOption_IncludeControlFrames 0 [].

Lemma fresh_assembling : @assembling no_handshake None fresh_socket.
Proof. split; [split; [reflexivity|by left]|reflexivity]. Qed.

Definition part (p : list byte) : fragment := mkFragment demo_key true p.

(** "He", "llo", a ping, and "Hello" again. *)
Definition conversation : list item :=
  [SendMessage 1 (part (take 2 hello)) [part (drop 2 hello)]; SendControl 9 (part []); SendMessage 2 (part hello) [] ].

Lemma part_valid p : (Z.of_nat (length p) ≤ MaxPayloadLength)%Z → valid_fragment (part p).
Proof. by split. Qed.

Lemma ws_messages_witness :
  ∃ ws', @process_all axl no_handshake wide_socket fresh_socket
      [take 5 (@items_bytes axl conversation); drop 5 (@items_bytes axl conversation)] = Some (WsOk ws') ∧
    assembling None ws' ∧ received (ws_log ws') = [(1%Z, hello); (9%Z, []); (2%Z, hello)].
Proof.
  apply (@ws_messages axl axl_laws no_handshake wide_socket wide_socket_laws fresh_socket conversation).
  - exact fresh_assembling.
  - apply Forall_cons_2; [|apply Forall_cons_2; [|apply Forall_cons_2; [|apply Forall_nil_2] ] ].
    + split; [by left|]. apply Forall_cons_2; [|apply Forall_cons_2; [|apply Forall_nil_2] ]; by apply part_valid.
    + split; [by right; left|by apply part_valid].
    + split; [by right; left|]. apply Forall_cons_2; [by apply part_valid|apply Forall_nil_2].
  - vm_compute. reflexivity.
Defined.

Lemma ws_fragment_lost_witness :
  ∃ log, @process_all axl no_handshake wide_socket fresh_socket
      [@frames_bytes axl [fragment_frame 1 false (part (take 2 hello)); fragment_frame 9 true (part []);
         fragment_frame WebSocketFrameOpcode_Continuation true (part (drop 2 hello))] ++ [] ] =
      Some (WsError NoInitialFrame log) ∧
    received log = [(9%Z, [])].
Proof.
  apply (@ws_fragment_lost axl axl_laws no_handshake wide_socket wide_socket_laws fresh_socket 1
    (part (take 2 hello)) 9 (part []) (part (drop 2 hello)) true []).
  - exact fresh_assembling.
  - left.
  - right. left.
  - by apply part_valid.
  - by apply part_valid.
  - by apply part_valid.
  - vm_compute. reflexivity.
Defined.
