(* ===== verification/IntOps.v ===== *)
(** * Integer operators

    Models the integer part of the operators of the compiler: the arithmetic
    conversions and the folding of constants in
    [src/src/jnc_ct/jnc_ct_OperatorMgr/jnc_ct_BinOp_Arithmetic.h],
    [jnc_ct_UnOp_Arithmetic.h] and [.cpp], [jnc_ct_CastOp_Int.cpp], the type
    kinds of integer literals of [jnc_ct_Type.cpp], and the instructions the
    operators are compiled to.

    A constant is a type kind and its bytes, the low byte first. Arithmetic in
    the compiler wraps around; an operation of C++ without a defined result
    (division by zero, a quotient that does not fit, a shift by the width or
    more) has no result. Floating point is not modelled. *)

From S2P Require Import Prelude.
From coqutil Require Import Byte.
From coqutil.Word Require Import LittleEndianList.

Open Scope Z_scope.

(** ** Type kinds *)

Inductive TypeKind :=
  | TypeKind_Bool1 | TypeKind_Bool8
  | TypeKind_Int8 | TypeKind_Int8_u | TypeKind_Int16 | TypeKind_Int16_u
  | TypeKind_Int32 | TypeKind_Int32_u | TypeKind_Int64 | TypeKind_Int64_u
  | TypeKind_Float | TypeKind_Double.

#[export] Instance TypeKind_eq_dec : EqDecision TypeKind.
Proof. solve_decision. Defined.

(** The position in the enumeration, from [TypeKind_Bool1]. *)
Definition kind_index (k : TypeKind) : Z :=
  match k with
  | TypeKind_Bool1 => 0 | TypeKind_Bool8 => 1
  | TypeKind_Int8 => 2 | TypeKind_Int8_u => 3 | TypeKind_Int16 => 4 | TypeKind_Int16_u => 5
  | TypeKind_Int32 => 6 | TypeKind_Int32_u => 7 | TypeKind_Int64 => 8 | TypeKind_Int64_u => 9
  | TypeKind_Float => 10 | TypeKind_Double => 11
  end.

(** [setupAllPrimitiveTypes] *)
Definition typeSize (k : TypeKind) : nat :=
  match k with
  | TypeKind_Bool1 | TypeKind_Bool8 | TypeKind_Int8 | TypeKind_Int8_u => 1
  | TypeKind_Int16 | TypeKind_Int16_u => 2
  | TypeKind_Int32 | TypeKind_Int32_u | TypeKind_Float => 4
  | TypeKind_Int64 | TypeKind_Int64_u | TypeKind_Double => 8
  end%nat.

(** [TypeKindFlag_Unsigned] and [TypeKindFlag_Integer] of [jnc_getTypeKindFlags] *)
Definition isUnsigned (k : TypeKind) : bool :=
  match k with TypeKind_Int8_u | TypeKind_Int16_u | TypeKind_Int32_u | TypeKind_Int64_u => true | _ => false end.

Definition isInteger (k : TypeKind) : bool :=
  match k with TypeKind_Float | TypeKind_Double => false | _ => true end.

(** The type kinds of literals. *)
Definition getInt32TypeKind (integer : Z) : TypeKind :=
  if (-128 <=? integer) && (integer <=? 127) then TypeKind_Int8
  else if integer mod 2 ^ 32 <=? 255 then TypeKind_Int8_u
  else if (-32768 <=? integer) && (integer <=? 32767) then TypeKind_Int16
  else if integer mod 2 ^ 32 <=? 65535 then TypeKind_Int16_u
  else TypeKind_Int32.

Definition getInt32TypeKind_u (integer : Z) : TypeKind :=
  if integer <=? 127 then TypeKind_Int8
  else if integer <=? 255 then TypeKind_Int8_u
  else if integer <=? 32767 then TypeKind_Int16
  else if integer <=? 65535 then TypeKind_Int16_u
  else if integer <=? 2147483647 then TypeKind_Int32
  else TypeKind_Int32_u.

Definition getInt64TypeKind (integer : Z) : TypeKind :=
  if (-128 <=? integer) && (integer <=? 127) then TypeKind_Int8
  else if integer mod 2 ^ 64 <=? 255 then TypeKind_Int8_u
  else if (-32768 <=? integer) && (integer <=? 32767) then TypeKind_Int16
  else if integer mod 2 ^ 64 <=? 65535 then TypeKind_Int16_u
  else if (-2147483648 <=? integer) && (integer <=? 2147483647) then TypeKind_Int32
  else if integer mod 2 ^ 64 <=? 4294967295 then TypeKind_Int32_u
  else TypeKind_Int64.

Definition getInt64TypeKind_u (integer : Z) : TypeKind :=
  if integer <=? 127 then TypeKind_Int8
  else if integer <=? 255 then TypeKind_Int8_u
  else if integer <=? 32767 then TypeKind_Int16
  else if integer <=? 65535 then TypeKind_Int16_u
  else if integer <=? 2147483647 then TypeKind_Int32
  else if integer <=? 4294967295 then TypeKind_Int32_u
  else if integer <=? 9223372036854775807 then TypeKind_Int64
  else TypeKind_Int64_u.

(** [getArithmeticOperatorResultType], of one operand and of two *)
Definition getArithmeticOperatorResultType1 (k : TypeKind) : TypeKind :=
  match k with
  | TypeKind_Bool1 | TypeKind_Bool8 | TypeKind_Int8 | TypeKind_Int8_u | TypeKind_Int16 | TypeKind_Int16_u
  | TypeKind_Int32 => TypeKind_Int32
  | TypeKind_Int32_u => TypeKind_Int32_u
  | TypeKind_Int64 => TypeKind_Int64
  | TypeKind_Int64_u => TypeKind_Int64_u
  | TypeKind_Float => TypeKind_Float
  | TypeKind_Double => TypeKind_Double
  end.

Definition getArithmeticOperatorResultType (k1 k2 : TypeKind) : TypeKind :=
  getArithmeticOperatorResultType1 (if kind_index k2 <? kind_index k1 then k1 else k2).

(** ** Constants *)

Record Value := mkValue { v_kind : TypeKind; m_constData : list byte }.

(** [createConst], [setConstInt32], [setConstInt64]: the low bytes of an integer. *)
Definition createConst (value : Z) (k : TypeKind) : Value := mkValue k (le_split (typeSize k) value).

(** A word of [n] bytes as a signed integer. *)
Definition signed (n : nat) (z : Z) : Z :=
  if Z.testbit z (8 * Z.of_nat n - 1) then z - 2 ^ (8 * Z.of_nat n) else z.

Definition getInt32 (v : Value) : Z := signed 4 (le_combine (take 4 (m_constData v))).
Definition getInt64 (v : Value) : Z := signed 8 (le_combine (take 8 (m_constData v))).

(** *** Casts *)

Definition Cast_Copy (v : Value) (k : TypeKind) : Value := mkValue k (take (typeSize k) (m_constData v)).

Definition Cast_IntTrunc (v : Value) (k : TypeKind) : Value := mkValue k (take (typeSize k) (m_constData v)).

(** [src[srcSize - 1] & 0x80] *)
Definition high_bit (data : list byte) (srcSize : nat) : bool :=
  match data !! (srcSize - 1)%nat with Some b => Z.testbit (byte.unsigned b) 7 | None => false end.

Definition Cast_IntExt (v : Value) (k : TypeKind) : Value :=
  let srcSize := typeSize (v_kind v) in
  let fill := if high_bit (m_constData v) srcSize then Byte.xff else Byte.x00 in
  mkValue k (take srcSize (m_constData v) ++ drop srcSize (replicate (typeSize k) fill)).

Definition Cast_IntExt_u (v : Value) (k : TypeKind) : Value :=
  let srcSize := typeSize (v_kind v) in
  mkValue k (take srcSize (m_constData v) ++ drop srcSize (replicate (typeSize k) Byte.x00)).

(** [Cast_Int::getCastOperator], for integers *)
Definition Cast_Int (v : Value) (k : TypeKind) : Value :=
  let srcSize := typeSize (v_kind v) in
  let dstSize := typeSize k in
  match v_kind v with
  | TypeKind_Bool1 => Cast_IntExt_u v k
  | src =>
    if (srcSize =? dstSize)%nat then Cast_Copy v k
    else if (dstSize <? srcSize)%nat then Cast_IntTrunc v k
    else if isUnsigned src then Cast_IntExt_u v k
    else Cast_IntExt v k
  end.

(** [castOperator] between integers: a value of the type is left as it is. *)
Definition castOperator (v : Value) (k : TypeKind) : Value :=
  if decide (v_kind v = k) then v else Cast_Int v k.

(** ** Folding *)

Inductive BinOpKind :=
  | BinOpKind_Add | BinOpKind_Sub | BinOpKind_Mul | BinOpKind_Div | BinOpKind_Mod
  | BinOpKind_Shl | BinOpKind_Shr | BinOpKind_BwAnd | BinOpKind_BwXor | BinOpKind_BwOr.

#[export] Instance BinOpKind_eq_dec : EqDecision BinOpKind.
Proof. solve_decision. Defined.

(** [constOpInt32] and [constOpInt64] of each operator, [w] being the width: the
    operands are signed. *)
Definition BinOp_Add_constOpInt (w opValue1 opValue2 : Z) (isUnsigned : bool) : option Z :=
  Some (opValue1 + opValue2).

Definition BinOp_Sub_constOpInt (w opValue1 opValue2 : Z) (isUnsigned : bool) : option Z :=
  Some (opValue1 - opValue2).

Definition BinOp_Mul_constOpInt (w opValue1 opValue2 : Z) (isUnsigned : bool) : option Z :=
  Some (opValue1 * opValue2).

Definition BinOp_Div_constOpInt (w opValue1 opValue2 : Z) (isUnsigned : bool) : option Z :=
  if opValue2 =? 0 then None
  else if isUnsigned then Some ((opValue1 mod 2 ^ w) / (opValue2 mod 2 ^ w))
  else if (opValue1 =? - 2 ^ (w - 1)) && (opValue2 =? -1) then None
  else Some (Z.quot opValue1 opValue2).

Definition BinOp_Mod_constOpInt (w opValue1 opValue2 : Z) (isUnsigned : bool) : option Z :=
  if opValue2 =? 0 then None
  else if isUnsigned then Some ((opValue1 mod 2 ^ w) mod (opValue2 mod 2 ^ w))
  else if (opValue1 =? - 2 ^ (w - 1)) && (opValue2 =? -1) then None
  else Some (Z.rem opValue1 opValue2).

Definition BinOp_Shl_constOpInt (w opValue1 opValue2 : Z) (isUnsigned : bool) : option Z :=
  if (0 <=? opValue2) && (opValue2 <? w) then Some (Z.shiftl opValue1 opValue2) else None.

Definition BinOp_Shr_constOpInt (w opValue1 opValue2 : Z) (isUnsigned : bool) : option Z :=
  if (0 <=? opValue2) && (opValue2 <? w) then Some (Z.shiftr opValue1 opValue2) else None.

Definition BinOp_BwAnd_constOpInt (w opValue1 opValue2 : Z) (isUnsigned : bool) : option Z :=
  Some (Z.land opValue1 opValue2).

Definition BinOp_BwXor_constOpInt (w opValue1 opValue2 : Z) (isUnsigned : bool) : option Z :=
  Some (Z.lxor opValue1 opValue2).

Definition BinOp_BwOr_constOpInt (w opValue1 opValue2 : Z) (isUnsigned : bool) : option Z :=
  Some (Z.lor opValue1 opValue2).

#[global] Arguments BinOp_Add_constOpInt w opValue1 opValue2 isUnsigned /.
#[global] Arguments BinOp_Sub_constOpInt w opValue1 opValue2 isUnsigned /.
#[global] Arguments BinOp_Mul_constOpInt w opValue1 opValue2 isUnsigned /.
#[global] Arguments BinOp_Div_constOpInt w opValue1 opValue2 isUnsigned /.
#[global] Arguments BinOp_Mod_constOpInt w opValue1 opValue2 isUnsigned /.
#[global] Arguments BinOp_Shl_constOpInt w opValue1 opValue2 isUnsigned /.
#[global] Arguments BinOp_Shr_constOpInt w opValue1 opValue2 isUnsigned /.
#[global] Arguments BinOp_BwAnd_constOpInt w opValue1 opValue2 isUnsigned /.
#[global] Arguments BinOp_BwXor_constOpInt w opValue1 opValue2 isUnsigned /.
#[global] Arguments BinOp_BwOr_constOpInt w opValue1 opValue2 isUnsigned /.

(** [T::constOpInt32] and [T::constOpInt64] *)
Definition constOpInt (w : Z) (op : BinOpKind) : Z → Z → bool → option Z :=
  match op with
  | BinOpKind_Add => BinOp_Add_constOpInt w
  | BinOpKind_Sub => BinOp_Sub_constOpInt w
  | BinOpKind_Mul => BinOp_Mul_constOpInt w
  | BinOpKind_Div => BinOp_Div_constOpInt w
  | BinOpKind_Mod => BinOp_Mod_constOpInt w
  | BinOpKind_Shl => BinOp_Shl_constOpInt w
  | BinOpKind_Shr => BinOp_Shr_constOpInt w
  | BinOpKind_BwAnd => BinOp_BwAnd_constOpInt w
  | BinOpKind_BwXor => BinOp_BwXor_constOpInt w
  | BinOpKind_BwOr => BinOp_BwOr_constOpInt w
  end.

(** [BinOp_Arithmetic::op] of two integer constants *)
Definition binaryOperator (op : BinOpKind) (rawOpValue1 rawOpValue2 : Value) : option Value :=
  let type := getArithmeticOperatorResultType (v_kind rawOpValue1) (v_kind rawOpValue2) in
  let opValue1 := castOperator rawOpValue1 type in
  let opValue2 := castOperator rawOpValue2 type in
  match type with
  | TypeKind_Int32 | TypeKind_Int32_u =>
    z ← constOpInt 32 op (getInt32 opValue1) (getInt32 opValue2) (isUnsigned type);
    Some (createConst z type)
  | TypeKind_Int64 | TypeKind_Int64_u =>
    z ← constOpInt 64 op (getInt64 opValue1) (getInt64 opValue2) (isUnsigned type);
    Some (createConst z type)
  | _ => None
  end.

Inductive UnOpKind := UnOpKind_Plus | UnOpKind_Minus | UnOpKind_BwNot.

Definition UnOp_Plus_constOpInt (opValue : Z) : Z := opValue.
Definition UnOp_Minus_constOpInt (opValue : Z) : Z := - opValue.
Definition UnOp_BwNot_constOpInt (opValue : Z) : Z := Z.lnot opValue.

Definition constUnOpInt (op : UnOpKind) : Z → Z :=
  match op with
  | UnOpKind_Plus => UnOp_Plus_constOpInt
  | UnOpKind_Minus => UnOp_Minus_constOpInt
  | UnOpKind_BwNot => UnOp_BwNot_constOpInt
  end.

(** [UnOp_Arithmetic::op] of an integer constant *)
Definition unaryOperator (op : UnOpKind) (rawOpValue : Value) : option Value :=
  let type := getArithmeticOperatorResultType1 (v_kind rawOpValue) in
  let opValue := castOperator rawOpValue type in
  match type with
  | TypeKind_Int32 | TypeKind_Int32_u => Some (createConst (constUnOpInt op (getInt32 opValue)) type)
  | TypeKind_Int64 | TypeKind_Int64_u => Some (createConst (constUnOpInt op (getInt64 opValue)) type)
  | _ => None
  end.

(** ** Compiled code *)

(** The integer instructions of LLVM, of a width, on unsigned words. *)
Class LlvmInstructions := {
  CreateAdd : Z → Z → Z → Z; CreateSub : Z → Z → Z → Z; CreateMul : Z → Z → Z → Z;
  CreateSDiv : Z → Z → Z → Z; CreateUDiv : Z → Z → Z → Z;
  CreateSRem : Z → Z → Z → Z; CreateURem : Z → Z → Z → Z;
  CreateShl : Z → Z → Z → Z; CreateLShr : Z → Z → Z → Z;
  CreateAnd : Z → Z → Z → Z; CreateOr : Z → Z → Z → Z; CreateXor : Z → Z → Z → Z
}.

(** A word of [w] bits as a signed integer. *)
Definition signed_word (w z : Z) : Z := if Z.testbit z (w - 1) then z - 2 ^ w else z.

(** The language reference of LLVM, where it defines a result. *)
Class LlvmLaws (L : LlvmInstructions) : Prop := {
  CreateAdd_law w a b : CreateAdd w a b = (a + b) mod 2 ^ w;
  CreateSub_law w a b : CreateSub w a b = (a - b) mod 2 ^ w;
  CreateMul_law w a b : CreateMul w a b = (a * b) mod 2 ^ w;
  CreateSDiv_law w a b : b ≠ 0 →
    ¬ (signed_word w a = - 2 ^ (w - 1) ∧ signed_word w b = -1) →
    CreateSDiv w a b = Z.quot (signed_word w a) (signed_word w b) mod 2 ^ w;
  CreateUDiv_law w a b : b ≠ 0 → CreateUDiv w a b = a / b;
  CreateSRem_law w a b : b ≠ 0 →
    ¬ (signed_word w a = - 2 ^ (w - 1) ∧ signed_word w b = -1) →
    CreateSRem w a b = Z.rem (signed_word w a) (signed_word w b) mod 2 ^ w;
  CreateURem_law w a b : b ≠ 0 → CreateURem w a b = a mod b;
  CreateShl_law w a b : 0 ≤ b < w → CreateShl w a b = Z.shiftl a b mod 2 ^ w;
  CreateLShr_law w a b : 0 ≤ b < w → CreateLShr w a b = Z.shiftr a b;
  CreateAnd_law w a b : CreateAnd w a b = Z.land a b;
  CreateOr_law w a b : CreateOr w a b = Z.lor a b;
  CreateXor_law w a b : CreateXor w a b = Z.lxor a b
}.

(** [llvmOpInt] of each operator *)
Definition BinOp_Add_llvmOpInt `{LlvmInstructions} (w opValue1 opValue2 : Z) (isUnsigned : bool) : Z :=
  CreateAdd w opValue1 opValue2.

Definition BinOp_Sub_llvmOpInt `{LlvmInstructions} (w opValue1 opValue2 : Z) (isUnsigned : bool) : Z :=
  CreateSub w opValue1 opValue2.

Definition BinOp_Mul_llvmOpInt `{LlvmInstructions} (w opValue1 opValue2 : Z) (isUnsigned : bool) : Z :=
  CreateMul w opValue1 opValue2.

Definition BinOp_Div_llvmOpInt `{LlvmInstructions} (w opValue1 opValue2 : Z) (isUnsigned : bool) : Z :=
  if isUnsigned then CreateUDiv w opValue1 opValue2 else CreateSDiv w opValue1 opValue2.

Definition BinOp_Mod_llvmOpInt `{LlvmInstructions} (w opValue1 opValue2 : Z) (isUnsigned : bool) : Z :=
  if isUnsigned then CreateURem w opValue1 opValue2 else CreateSRem w opValue1 opValue2.

Definition BinOp_Shl_llvmOpInt `{LlvmInstructions} (w opValue1 opValue2 : Z) (isUnsigned : bool) : Z :=
  CreateShl w opValue1 opValue2.

Definition BinOp_Shr_llvmOpInt `{LlvmInstructions} (w opValue1 opValue2 : Z) (isUnsigned : bool) : Z :=
  CreateLShr w opValue1 opValue2.

Definition BinOp_BwAnd_llvmOpInt `{LlvmInstructions} (w opValue1 opValue2 : Z) (isUnsigned : bool) : Z :=
  CreateAnd w opValue1 opValue2.

Definition BinOp_BwXor_llvmOpInt `{LlvmInstructions} (w opValue1 opValue2 : Z) (isUnsigned : bool) : Z :=
  CreateXor w opValue1 opValue2.

Definition BinOp_BwOr_llvmOpInt `{LlvmInstructions} (w opValue1 opValue2 : Z) (isUnsigned : bool) : Z :=
  CreateOr w opValue1 opValue2.

#[global] Arguments BinOp_Add_llvmOpInt {_} w opValue1 opValue2 isUnsigned /.
#[global] Arguments BinOp_Sub_llvmOpInt {_} w opValue1 opValue2 isUnsigned /.
#[global] Arguments BinOp_Mul_llvmOpInt {_} w opValue1 opValue2 isUnsigned /.
#[global] Arguments BinOp_Div_llvmOpInt {_} w opValue1 opValue2 isUnsigned /.
#[global] Arguments BinOp_Mod_llvmOpInt {_} w opValue1 opValue2 isUnsigned /.
#[global] Arguments BinOp_Shl_llvmOpInt {_} w opValue1 opValue2 isUnsigned /.
#[global] Arguments BinOp_Shr_llvmOpInt {_} w opValue1 opValue2 isUnsigned /.
#[global] Arguments BinOp_BwAnd_llvmOpInt {_} w opValue1 opValue2 isUnsigned /.
#[global] Arguments BinOp_BwXor_llvmOpInt {_} w opValue1 opValue2 isUnsigned /.
#[global] Arguments BinOp_BwOr_llvmOpInt {_} w opValue1 opValue2 isUnsigned /.

(** [T::llvmOpInt] *)
Definition llvmOpInt `{LlvmInstructions} (w : Z) (op : BinOpKind) : Z → Z → bool → Z :=
  match op with
  | BinOpKind_Add => BinOp_Add_llvmOpInt w
  | BinOpKind_Sub => BinOp_Sub_llvmOpInt w
  | BinOpKind_Mul => BinOp_Mul_llvmOpInt w
  | BinOpKind_Div => BinOp_Div_llvmOpInt w
  | BinOpKind_Mod => BinOp_Mod_llvmOpInt w
  | BinOpKind_Shl => BinOp_Shl_llvmOpInt w
  | BinOpKind_Shr => BinOp_Shr_llvmOpInt w
  | BinOpKind_BwAnd => BinOp_BwAnd_llvmOpInt w
  | BinOpKind_BwXor => BinOp_BwXor_llvmOpInt w
  | BinOpKind_BwOr => BinOp_BwOr_llvmOpInt w
  end.

(** ** The values of constants *)

Definition bits (k : TypeKind) : Z := 8 * Z.of_nat (typeSize k).

(** The unsigned word of a constant. *)
Definition word (v : Value) : Z := le_combine (m_constData v).

(** [Bool1] and the unsigned kinds are extended with zeros. *)
Definition zero_extends (k : TypeKind) : bool := isUnsigned k || bool_decide (k = TypeKind_Bool1).

(** The integer of type [k] that [z] wraps around to. *)
Definition wrap (k : TypeKind) (z : Z) : Z :=
  let u := z mod 2 ^ bits k in if zero_extends k then u else signed (typeSize k) u.

Definition intValue (v : Value) : Z :=
  if zero_extends (v_kind v) then word v else signed (typeSize (v_kind v)) (word v).

Definition value_ok (v : Value) : Prop :=
  length (m_constData v) = typeSize (v_kind v) ∧ isInteger (v_kind v) = true.

(** The integer types proper. *)
Definition isIntKind (k : TypeKind) : bool := isInteger k && negb (bool_decide (k = TypeKind_Bool1 ∨ k = TypeKind_Bool8)).

Lemma bits_pos k : 0 < bits k.
Proof. by destruct k. Qed.

Lemma pow_bits_pos k : 0 < 2 ^ bits k.
Proof. apply Z.pow_pos_nonneg; [lia|]. pose proof (bits_pos k). lia. Qed.

Lemma word_range v : value_ok v → 0 ≤ word v < 2 ^ bits (v_kind v).
Proof. intros [Hl _]. unfold word, bits. rewrite <- Hl. apply le_combine_bound. Qed.

Lemma signed_mod n z m : 0 ≤ m ≤ 8 * Z.of_nat n → signed n z mod 2 ^ m = z mod 2 ^ m.
Proof.
  intros Hm. unfold signed. destruct (Z.testbit _ _); [|done].
  replace (8 * Z.of_nat n) with ((8 * Z.of_nat n - m) + m) by lia. rewrite Z.pow_add_r by lia.
  replace (z - 2 ^ (8 * Z.of_nat n - m) * 2 ^ m) with (z + (- 2 ^ (8 * Z.of_nat n - m)) * 2 ^ m) by lia.
  by rewrite Z_mod_plus_full.
Qed.

Lemma intValue_mod v m : 0 ≤ m ≤ bits (v_kind v) → intValue v mod 2 ^ m = word v mod 2 ^ m.
Proof. intros Hm. unfold intValue. destruct (zero_extends _); [done|]. by apply signed_mod. Qed.

Lemma intValue_wrap v : value_ok v → intValue v = wrap (v_kind v) (word v).
Proof. intros Hok. unfold intValue, wrap. by rewrite Z.mod_small by by apply word_range. Qed.

Lemma createConst_ok z k : isInteger k = true → value_ok (createConst z k).
Proof. intros Hk. split; [apply length_le_split|done]. Qed.

Lemma createConst_word z k : word (createConst z k) = z mod 2 ^ bits k.
Proof. unfold word, createConst, bits. simpl. rewrite le_combine_split. f_equal. f_equal. lia. Qed.

Lemma createConst_value z k : isInteger k = true → intValue (createConst z k) = wrap k z.
Proof.
  intros Hk. rewrite intValue_wrap by by apply createConst_ok. simpl. rewrite createConst_word.
  unfold wrap. by rewrite Z.mod_mod by (pose proof (pow_bits_pos k); lia).
Qed.

Lemma createConst_ext z z' k : z mod 2 ^ bits k = z' mod 2 ^ bits k → createConst z k = createConst z' k.
Proof.
  intros H. unfold createConst. f_equal. rewrite le_split_mod, (le_split_mod z').
  unfold bits in H. by rewrite (Z.mul_comm (Z.of_nat _) 8), H.
Qed.

(** *** Casts keep the value modulo the size *)

Lemma le_combine_take n bs : le_combine (take n bs) = le_combine bs mod 2 ^ (8 * Z.of_nat n).
Proof. apply le_combine_firstn. Qed.

Lemma le_combine_zeros n : le_combine (replicate n Byte.x00) = 0.
Proof. rewrite <- (le_combine_0 n). f_equal. induction n; simpl; [done|]. by f_equal. Qed.

Lemma le_combine_ones n : le_combine (replicate n Byte.xff) = 2 ^ (8 * Z.of_nat n) - 1.
Proof.
  induction n as [|n IH]; [done|]. simpl replicate.
  change (le_combine (Byte.xff :: replicate n Byte.xff))
    with (Z.lor (byte.unsigned Byte.xff) (Z.shiftl (le_combine (replicate n Byte.xff)) 8)).
  rewrite IH. change (byte.unsigned Byte.xff) with (Z.ones 8).
  replace (2 ^ (8 * Z.of_nat n) - 1) with (Z.ones (8 * Z.of_nat n)) by (rewrite Z.ones_equiv; lia).
  replace (2 ^ (8 * Z.of_nat (S n)) - 1) with (Z.ones (8 * Z.of_nat (S n))) by (rewrite Z.ones_equiv; lia).
  apply Z.bits_inj'. intros i Hi. rewrite Z.lor_spec, Z.shiftl_spec by lia.
  destruct (decide (i < 8)) as [H8|H8].
  - rewrite !(Z.ones_spec_low _ i) by lia. done.
  - rewrite (Z.ones_spec_high 8) by lia. simpl. destruct (decide (i < 8 * Z.of_nat (S n))) as [Hn|Hn].
    + rewrite !Z.ones_spec_low by lia. done.
    + rewrite !Z.ones_spec_high by lia. done.
Qed.

Lemma le_combine_append bs bs' :
  le_combine (bs ++ bs') = le_combine bs + le_combine bs' * 2 ^ (8 * Z.of_nat (length bs)).
Proof.
  rewrite le_combine_app, <- Z.shiftl_mul_pow2 by lia. rewrite (Z.mul_comm _ 8).
  assert (Hd : Z.land (le_combine bs) (Z.shiftl (le_combine bs') (8 * Z.of_nat (length bs))) = 0).
  { apply Z.bits_inj'. intros i Hi. rewrite Z.land_spec, Z.shiftl_spec, Z.bits_0 by lia.
    pose proof (le_combine_bound bs) as Hb.
    destruct (decide (i < 8 * Z.of_nat (length bs))) as [Hi'|Hi'];
      [rewrite (Z.testbit_neg_r _ (i - _)) by lia; apply andb_false_r|].
    by rewrite <- (Z.mod_small _ _ Hb), Z.mod_pow2_bits_high by lia. }
  by rewrite Z.add_nocarry_lxor, Z.lxor_lor.
Qed.

Lemma high_bit_testbit data n : length data = n → (0 < n)%nat →
  high_bit data n = Z.testbit (le_combine data) (8 * Z.of_nat n - 1).
Proof.
  intros Hl Hn. unfold high_bit. destruct (lookup_lt_is_Some_2 data (n - 1)) as [b Hb]; [lia|]. rewrite Hb.
  apply list_elem_of_split_length in Hb as (l1 & l2 & -> & Hlen).
  assert (l2 = []) as -> by (destruct l2; [done|rewrite length_app in Hl; simpl in Hl; lia]).
  rewrite length_app in Hl. simpl in Hl.
  rewrite le_combine_app. rewrite Z.lor_spec, Z.shiftl_spec by lia.
  pose proof (le_combine_bound l1) as Hb.
  rewrite <- (Z.mod_small _ _ Hb), Z.mod_pow2_bits_high by lia.
  rewrite orb_false_l, le_combine_1. f_equal. lia.
Qed.

Lemma cast_word v k : value_ok v → isIntKind k = true →
  (v_kind v = TypeKind_Bool1 → (1 < typeSize k)%nat) →
  word (castOperator v k) = intValue v mod 2 ^ bits k ∧ length (m_constData (castOperator v k)) = typeSize k ∧
  v_kind (castOperator v k) = k.
Proof.
  intros Hok Hk Hb1. pose proof (word_range v Hok) as Hw. pose proof (proj1 Hok) as Hl.
  unfold castOperator. destruct (decide (v_kind v = k)) as [<-|Hne].
  { split; [|done]. rewrite intValue_mod by (pose proof (bits_pos (v_kind v)); lia). by rewrite Z.mod_small. }
  assert (Hzext : zero_extends (v_kind v) = true → (typeSize (v_kind v) <= typeSize k)%nat →
    word (Cast_IntExt_u v k) = intValue v mod 2 ^ bits k ∧
    length (m_constData (Cast_IntExt_u v k)) = typeSize k ∧ v_kind (Cast_IntExt_u v k) = k).
  { intros Hz Hs. unfold Cast_IntExt_u, word, intValue. simpl. rewrite Hz.
    rewrite <- Hl, take_ge by lia. rewrite drop_replicate. split; [|split; [rewrite length_app, length_replicate; lia|done] ].
    rewrite le_combine_append, le_combine_zeros, Z.mul_0_l, Z.add_0_r. unfold word in *. rewrite Z.mod_small; [done|].
    split; [lia|]. eapply Z.lt_le_trans; [apply Hw|]. apply Z.pow_le_mono_r; [lia|]. unfold bits. lia. }
  assert (Htrunc : (typeSize k <= typeSize (v_kind v))%nat →
    le_combine (take (typeSize k) (m_constData v)) = intValue v mod 2 ^ bits k ∧
    length (take (typeSize k) (m_constData v)) = typeSize k).
  { intros Hs. split; [|rewrite length_take; lia]. rewrite le_combine_take, intValue_mod by (unfold bits; lia). done. }
  assert (Hsext : zero_extends (v_kind v) = false → (typeSize (v_kind v) < typeSize k)%nat →
    word (Cast_IntExt v k) = intValue v mod 2 ^ bits k ∧
    length (m_constData (Cast_IntExt v k)) = typeSize k ∧ v_kind (Cast_IntExt v k) = k).
  { intros Hz Hs. unfold Cast_IntExt, word, intValue. simpl. rewrite Hz.
    rewrite high_bit_testbit by (done || (destruct (v_kind v); simpl; lia)).
    rewrite <- Hl, take_ge by lia. rewrite drop_replicate. split; [|split; [rewrite length_app, length_replicate; lia|done] ].
    rewrite le_combine_append. unfold signed. fold (word v). rewrite Hl in *. fold (bits (v_kind v)).
    assert (Hle : bits (v_kind v) ≤ bits k) by (unfold bits; lia).
    assert (Hpow : 2 ^ bits (v_kind v) ≤ 2 ^ bits k) by (apply Z.pow_le_mono_r; lia).
    destruct (Z.testbit (word v) (bits (v_kind v) - 1)) eqn:Ht.
    - pose proof (bits_pos (v_kind v)) as Hpos. rewrite le_combine_ones, Z.mul_sub_distr_r, <- Z.pow_add_r by lia.
      replace (8 * Z.of_nat (typeSize k - typeSize (v_kind v)) + bits (v_kind v)) with (bits k) by (unfold bits; lia).
      rewrite <- (Z_mod_plus_full (word v - 2 ^ bits (v_kind v)) 1 (2 ^ bits k)), Z.mod_small; lia.
    - rewrite le_combine_zeros, Z.mul_0_l, Z.add_0_r. rewrite Z.mod_small; lia. }
  unfold Cast_Int, Cast_Copy, Cast_IntTrunc, word. fold (word v).
  destruct (v_kind v) eqn:Hv; try (by destruct Hok as [_ Hok]; rewrite Hv in Hok).
  1: by apply Hzext; [done|specialize (Hb1 eq_refl); simpl; lia].
  all: destruct (Nat.eqb_spec (typeSize (v_kind v)) (typeSize k)) as [He|He]; rewrite Hv in He.
  all: try (rewrite (proj2 (Nat.eqb_eq _ _) He); destruct Htrunc as [H1 H2]; [lia|]; done).
  all: rewrite (proj2 (Nat.eqb_neq _ _) He).
  all: destruct (Nat.ltb_spec (typeSize k) (typeSize (v_kind v))) as [Hlt|Hlt]; rewrite Hv in Hlt.
  all: try (rewrite (proj2 (Nat.ltb_lt _ _) Hlt); destruct Htrunc as [H1 H2]; [lia|]; done).
  all: rewrite (proj2 (Nat.ltb_ge _ _) Hlt); simpl isUnsigned; cbv iota.
  all: first [apply Hzext; [done|lia]|apply Hsext; [done|lia] ].
Qed.

(** ** Folding computes *)

(** The operators on the converted operands, where they have a result in a type of
    the width. *)
Definition arith (k : TypeKind) (op : BinOpKind) (a b : Z) : option Z :=
  match op with
  | BinOpKind_Add => Some (a + b)
  | BinOpKind_Sub => Some (a - b)
  | BinOpKind_Mul => Some (a * b)
  | BinOpKind_Div =>
    if (b =? 0) || (negb (isUnsigned k) && (a =? - 2 ^ (bits k - 1)) && (b =? -1)) then None else Some (Z.quot a b)
  | BinOpKind_Mod =>
    if (b =? 0) || (negb (isUnsigned k) && (a =? - 2 ^ (bits k - 1)) && (b =? -1)) then None else Some (Z.rem a b)
  | BinOpKind_Shl => if (0 <=? b) && (b <? bits k) then Some (a * 2 ^ b) else None
  | BinOpKind_Shr => if (0 <=? b) && (b <? bits k) then Some (a / 2 ^ b) else None
  | BinOpKind_BwAnd => Some (Z.land a b)
  | BinOpKind_BwXor => Some (Z.lxor a b)
  | BinOpKind_BwOr => Some (Z.lor a b)
  end.

(** The types operators compute in. *)
Definition isOpKind (k : TypeKind) : bool :=
  match k with TypeKind_Int32 | TypeKind_Int32_u | TypeKind_Int64 | TypeKind_Int64_u => true | _ => false end.

Lemma result_isOpKind k1 k2 : isInteger k1 = true → isInteger k2 = true →
  isOpKind (getArithmeticOperatorResultType k1 k2) = true.
Proof. by destruct k1, k2. Qed.

Lemma isOpKind_int k : isOpKind k = true → isIntKind k = true ∧ isInteger k = true ∧ (1 < typeSize k)%nat ∧
  zero_extends k = isUnsigned k.
Proof. destruct k; intros; try done; repeat split; simpl; lia || done. Qed.

(** The operand of an operator that computes in type [k], and its word. *)
Definition operand (v : Value) (k : TypeKind) : Z := wrap k (intValue v).
Definition operand_word (v : Value) (k : TypeKind) : Z := intValue v mod 2 ^ bits k.

Lemma operand_word_range v k : 0 ≤ operand_word v k < 2 ^ bits k.
Proof. apply Z.mod_pos_bound, pow_bits_pos. Qed.

Lemma operand_unsigned v k : isOpKind k = true → isUnsigned k = true → operand v k = operand_word v k.
Proof. intros Ho Hu. unfold operand, wrap. destruct (isOpKind_int k Ho) as (_ & _ & _ & ->). by rewrite Hu. Qed.

Lemma operand_signed v k : isOpKind k = true → isUnsigned k = false →
  operand v k = signed (typeSize k) (operand_word v k).
Proof. intros Ho Hu. unfold operand, wrap. destruct (isOpKind_int k Ho) as (_ & _ & _ & ->). by rewrite Hu. Qed.

Lemma cast_get v k : value_ok v → isOpKind k = true →
  signed (typeSize k) (le_combine (take (typeSize k) (m_constData (castOperator v k)))) =
  signed (typeSize k) (operand_word v k).
Proof.
  intros Hok Hk. destruct (isOpKind_int k Hk) as (Hi & _ & Hs & _).
  destruct (cast_word v k Hok Hi) as (Hw & Hl & _); [done|]. rewrite <- Hl at 2. rewrite take_ge by lia.
  unfold word in Hw. by rewrite Hw.
Qed.

Lemma binaryOperator_const op v1 v2 : value_ok v1 → value_ok v2 →
  let k := getArithmeticOperatorResultType (v_kind v1) (v_kind v2) in
  binaryOperator op v1 v2 =
    (λ z, createConst z k) <$>
      constOpInt (bits k) op (signed (typeSize k) (operand_word v1 k)) (signed (typeSize k) (operand_word v2 k)) (isUnsigned k).
Proof.
  intros H1 H2 k. pose proof (result_isOpKind _ _ (proj2 H1) (proj2 H2)) as Hk. fold k in Hk.
  unfold binaryOperator. fold k. rewrite <- (cast_get v1 k H1 Hk), <- (cast_get v2 k H2 Hk).
  unfold getInt32, getInt64. destruct k; try discriminate Hk; reflexivity.
Qed.

(** *** Unsigned words and signed operands *)

Section words.
Context (n : nat) (Hn : (0 < n)%nat).
Let w := 8 * Z.of_nat n.

Lemma signed_cases a : 0 ≤ a < 2 ^ w →
  (a < 2 ^ (w - 1) ∧ signed n a = a) ∨ (2 ^ (w - 1) ≤ a ∧ signed n a = a - 2 ^ w).
Proof.
  intros Ha. unfold signed. fold w. assert (Hw : 2 ^ w = 2 * 2 ^ (w - 1)).
  { replace w with (1 + (w - 1)) at 1 by lia. rewrite Z.pow_add_r by (unfold w; lia). lia. }
  destruct (Z.testbit a (w - 1)) eqn:Ht.
  - right. split; [|done]. destruct (decide (2 ^ (w - 1) ≤ a)) as [|Hlt]; [done|exfalso].
    rewrite <- (Z.mod_small a (2 ^ (w - 1))), Z.mod_pow2_bits_high in Ht by (unfold w in *; lia). done.
  - left. split; [|done]. destruct (decide (a < 2 ^ (w - 1))) as [|Hge]; [done|exfalso].
    assert (Hb : Z.testbit a (w - 1) = true); [|congruence].
    rewrite Z.testbit_true by (unfold w; lia).
    assert (a / 2 ^ (w - 1) = 1) as ->; [|done].
    symmetry. apply (Z.div_unique _ _ _ (a - 2 ^ (w - 1))); [left; lia|lia].
Qed.

Lemma signed_range a : 0 ≤ a < 2 ^ w → - 2 ^ (w - 1) ≤ signed n a < 2 ^ (w - 1).
Proof.
  intros Ha. assert (Hw : 2 ^ w = 2 * 2 ^ (w - 1)).
  { replace w with (1 + (w - 1)) at 1 by lia. rewrite Z.pow_add_r by (unfold w; lia). lia. }
  destruct (signed_cases a Ha) as [ [H ->]|[H ->] ]; lia.
Qed.

Lemma signed_congr a : signed n a mod 2 ^ w = a mod 2 ^ w.
Proof. apply signed_mod. unfold w. lia. Qed.

Lemma signed_zero a : 0 ≤ a < 2 ^ w → (signed n a =? 0) = (a =? 0).
Proof.
  intros Ha. destruct (signed_cases a Ha) as [ [H ->]|[H ->] ]; [done|].
  assert (0 < 2 ^ (w - 1)) by (apply Z.pow_pos_nonneg; unfold w; lia).
  rewrite !(proj2 (Z.eqb_neq _ _)) by lia. done.
Qed.

Lemma signed_shift_count b : 0 ≤ b < 2 ^ w → (0 <=? signed n b) && (signed n b <? w) = (b <? w).
Proof.
  intros Hb. assert (Hww : w ≤ 2 ^ (w - 1)).
  { assert (H8 : 8 ≤ w) by (unfold w; lia). clearbody w. clear Hn Hb.
    pose proof (Z.pow_gt_lin_r 2 (w - 1)). lia. }
  destruct (signed_cases b Hb) as [ [H ->]|[H ->] ].
  - rewrite (proj2 (Z.leb_le _ _)) by lia. done.
  - rewrite (proj2 (Z.leb_gt _ _)) by lia. symmetry. simpl. apply Z.ltb_ge. lia.
Qed.
End words.

Lemma mod_op2 (f : Z → Z → Z) (g : bool → bool → bool) w a b a' b' : 0 ≤ w →
  (∀ x y i, Z.testbit (f x y) i = g (Z.testbit x i) (Z.testbit y i)) →
  a mod 2 ^ w = a' mod 2 ^ w → b mod 2 ^ w = b' mod 2 ^ w → f a b mod 2 ^ w = f a' b' mod 2 ^ w.
Proof.
  intros Hw Hf Ha Hb. apply Z.bits_inj'. intros i Hi. destruct (decide (i < w)).
  - rewrite !Z.mod_pow2_bits_low, !Hf by lia.
    rewrite <- (Z.mod_pow2_bits_low a w), <- (Z.mod_pow2_bits_low b w), Ha, Hb by lia.
    by rewrite !Z.mod_pow2_bits_low by lia.
  - by rewrite !Z.mod_pow2_bits_high by lia.
Qed.

Lemma small_op (f : Z → Z → Z) (g : bool → bool → bool) w a b :
  (∀ x y i, Z.testbit (f x y) i = g (Z.testbit x i) (Z.testbit y i)) → g false false = false →
  0 ≤ w → 0 ≤ a < 2 ^ w → 0 ≤ b < 2 ^ w → f a b mod 2 ^ w = f a b.
Proof.
  intros Hf Hg Hw Ha Hb. apply Z.bits_inj'. intros i Hi. destruct (decide (i < w)).
  - by rewrite Z.mod_pow2_bits_low by lia.
  - rewrite Z.mod_pow2_bits_high, Hf by lia. rewrite <- (Z.mod_small a (2 ^ w)), <- (Z.mod_small b (2 ^ w)) by done.
    by rewrite !Z.mod_pow2_bits_high by lia.
Qed.

(** Folding with the signed words agrees with the operator on the operands, except
    that a right shift of an unsigned operand with the high bit set does not. *)
Lemma const_arith k op a b : isOpKind k = true → isUnsigned k = true →
  0 ≤ a < 2 ^ bits k → 0 ≤ b < 2 ^ bits k →
  (op = BinOpKind_Shr → a < 2 ^ (bits k - 1)) →
  (λ z, createConst z k) <$> constOpInt (bits k) op (signed (typeSize k) a) (signed (typeSize k) b) true =
  (λ z, createConst z k) <$> arith k op a b.
Proof.
  intros Hk Hu Ha Hb Hshr. pose proof (bits_pos k) as Hw. destruct (isOpKind_int k Hk) as (_ & _ & Hs & _).
  assert (Hn : (0 < typeSize k)%nat) by lia.
  pose proof (signed_congr (typeSize k) Hn a) as Hca. pose proof (signed_congr (typeSize k) Hn b) as Hcb.
  fold (bits k) in Hca, Hcb.
  assert (Hm1 : a mod 2 ^ bits k = a) by (by apply Z.mod_small).
  assert (Hm2 : b mod 2 ^ bits k = b) by (by apply Z.mod_small).
  unfold constOpInt, arith. rewrite Hu. simpl negb.
  assert (Hz : (signed (typeSize k) b =? 0) = (b =? 0)) by (by apply signed_zero).
  assert (Hsh : (0 <=? signed (typeSize k) b) && (signed (typeSize k) b <? bits k) = (0 <=? b) && (b <? bits k)).
  { unfold bits. rewrite signed_shift_count by done. by rewrite (proj2 (Z.leb_le 0 b)) by lia. }
  destruct op; simpl; rewrite ?Hz, ?Hsh, ?Hca, ?Hcb, ?Hm1, ?Hm2, ?orb_false_r.
  - f_equal. apply createConst_ext. by rewrite Z.add_mod, Hca, Hcb, <- Z.add_mod by lia.
  - f_equal. apply createConst_ext. by rewrite Zminus_mod, Hca, Hcb, <- Zminus_mod.
  - f_equal. apply createConst_ext. by rewrite Z.mul_mod, Hca, Hcb, <- Z.mul_mod by lia.
  - destruct (b =? 0) eqn:H0; [done|]. simpl. apply Z.eqb_neq in H0. by rewrite Z.quot_div_nonneg by lia.
  - destruct (b =? 0) eqn:H0; [done|]. simpl. apply Z.eqb_neq in H0. by rewrite Z.rem_mod_nonneg by lia.
  - destruct (Z.leb_spec 0 b) as [Hb0|Hb0]; [|lia]. destruct (Z.ltb_spec b (bits k)) as [Hbw|Hbw]; [|done]. simpl.
    f_equal. apply createConst_ext.
    assert (Hb' : signed (typeSize k) b = b).
    { destruct (signed_cases (typeSize k) Hn b Hb) as [ [_ ->]|[Hge He] ]; [done|exfalso].
      rewrite He in Hsh. rewrite (proj2 (Z.leb_gt _ _)) in Hsh by (fold (bits k) in *; lia). done. }
    rewrite Hb', Z.shiftl_mul_pow2 by lia. by rewrite Z.mul_mod, Hca, <- Z.mul_mod by lia.
  - destruct (Z.leb_spec 0 b) as [Hb0|Hb0]; [|lia]. destruct (Z.ltb_spec b (bits k)) as [Hbw|Hbw]; [|done]. simpl.
    specialize (Hshr eq_refl).
    assert (Ha' : signed (typeSize k) a = a).
    { destruct (signed_cases (typeSize k) Hn a Ha) as [ [_ ->]|[Hge _] ]; [done|fold (bits k) in Hge; lia]. }
    assert (Hb' : signed (typeSize k) b = b).
    { destruct (signed_cases (typeSize k) Hn b Hb) as [ [_ ->]|[Hge He] ]; [done|exfalso].
      rewrite He in Hsh. rewrite (proj2 (Z.leb_gt _ _)) in Hsh by (fold (bits k) in *; lia). done. }
    by rewrite Ha', Hb', Z.shiftr_div_pow2 by lia.
  - f_equal. apply createConst_ext. apply (mod_op2 Z.land andb); [lia|apply Z.land_spec|done|done].
  - f_equal. apply createConst_ext. apply (mod_op2 Z.lxor xorb); [lia|apply Z.lxor_spec|done|done].
  - f_equal. apply createConst_ext. apply (mod_op2 Z.lor orb); [lia|apply Z.lor_spec|done|done].
Qed.

Lemma const_arith_signed k op a b : isOpKind k = true → isUnsigned k = false →
  constOpInt (bits k) op a b false = arith k op a b.
Proof.
  intros Hk Hu. unfold constOpInt, arith. rewrite Hu. simpl negb.
  destruct op; simpl; try done.
  - destruct (b =? 0); [done|]. simpl. by destruct (_ && _).
  - destruct (b =? 0); [done|]. simpl. by destruct (_ && _).
  - destruct (Z.leb_spec 0 b); [|done]. simpl. destruct (b <? bits k); [|done]. by rewrite Z.shiftl_mul_pow2.
  - destruct (Z.leb_spec 0 b); [|done]. simpl. destruct (b <? bits k); [|done]. by rewrite Z.shiftr_div_pow2.
Qed.

Lemma binaryOperator_arith op v1 v2 : value_ok v1 → value_ok v2 →
  let k := getArithmeticOperatorResultType (v_kind v1) (v_kind v2) in
  (op = BinOpKind_Shr → isUnsigned k = true → operand v1 k < 2 ^ (bits k - 1)) →
  binaryOperator op v1 v2 = (λ z, createConst z k) <$> arith k op (operand v1 k) (operand v2 k).
Proof.
  intros H1 H2 k Hshr. rewrite binaryOperator_const by done. fold k.
  pose proof (result_isOpKind _ _ (proj2 H1) (proj2 H2)) as Hk. fold k in Hk.
  destruct (isUnsigned k) eqn:Hu.
  - rewrite (operand_unsigned v1) in * by done. rewrite (operand_unsigned v2) by done.
    apply const_arith; [done|done|apply operand_word_range|apply operand_word_range|intros; by apply Hshr].
  - rewrite !operand_signed by done. by rewrite const_arith_signed.
Qed.

(** C18: folding a binary operator computes the operator: the operands are
    converted to the common type, and the result is the exact result of the
    operator, wrapped around to the width of the type; where the operator has no
    result (division by zero, a quotient or a shift count out of range) folding has
    none. Excepted is the right shift of an unsigned operand with its high bit set,
    which folding shifts as a signed one. *)
Theorem folding_computes op v1 v2 : value_ok v1 → value_ok v2 →
  let k := getArithmeticOperatorResultType (v_kind v1) (v_kind v2) in
  (op = BinOpKind_Shr → isUnsigned k = true → operand v1 k < 2 ^ (bits k - 1)) →
  match arith k op (operand v1 k) (operand v2 k) with
  | Some z => ∃ r, binaryOperator op v1 v2 = Some r ∧ value_ok r ∧ v_kind r = k ∧ intValue r = wrap k z
  | None => binaryOperator op v1 v2 = None
  end.
Proof.
  intros H1 H2 k Hshr. rewrite (binaryOperator_arith op v1 v2 H1 H2 Hshr). fold k.
  destruct (arith k op (operand v1 k) (operand v2 k)) as [z|]; [|done]. simpl.
  pose proof (result_isOpKind _ _ (proj2 H1) (proj2 H2)) as Hk. fold k in Hk.
  destruct (isOpKind_int k Hk) as (_ & Hi & _).
  exists (createConst z k). split; [done|]. split; [by apply createConst_ok|]. split; [done|].
  by apply createConst_value.
Qed.

Lemma folding_computes_witness :
  (value_ok (createConst (-7) TypeKind_Int8) ∧ value_ok (createConst 2 TypeKind_Int64)) ∧
  (∃ r, binaryOperator BinOpKind_Div (createConst (-7) TypeKind_Int8) (createConst 2 TypeKind_Int64) = Some r ∧
    value_ok r ∧ v_kind r = TypeKind_Int64 ∧ intValue r = -3).
Proof.
  assert (H1 : value_ok (createConst (-7) TypeKind_Int8)) by by apply createConst_ok.
  assert (H2 : value_ok (createConst 2 TypeKind_Int64)) by by apply createConst_ok.
  split; [done|]. destruct (folding_computes BinOpKind_Div _ _ H1 H2) as (r & Hr & Hok & Hk & Hi); [done|].
  exists r. split; [exact Hr|]. split; [done|]. split; [exact Hk|]. rewrite Hi. by vm_compute.
Defined.

(** ** Literals *)

(** The type kinds in the order of the enumeration and their ranges. *)
Lemma wrap_signed k z : isIntKind k = true → isUnsigned k = false →
  wrap k z = z ↔ - 2 ^ (bits k - 1) ≤ z < 2 ^ (bits k - 1).
Proof.
  intros Hk Hu. assert (Hn : (0 < typeSize k)%nat) by (by destruct k; simpl; lia).
  assert (Hz : zero_extends k = false) by (by destruct k). unfold wrap. rewrite Hz.
  pose proof (bits_pos k) as Hb. assert (Hw : 2 ^ bits k = 2 * 2 ^ (bits k - 1)).
  { replace (bits k) with (1 + (bits k - 1)) at 1 by lia. rewrite Z.pow_add_r by lia. lia. }
  assert (Hp : 0 < 2 ^ (bits k - 1)) by (apply Z.pow_pos_nonneg; lia).
  assert (Hm : 0 ≤ z mod 2 ^ bits k < 2 ^ bits k) by (apply Z.mod_pos_bound; lia).
  destruct (signed_cases (typeSize k) Hn (z mod 2 ^ bits k) Hm) as [ [Hlt ->]|[Hge ->] ];
    fold (bits k) in *; split.
  - intros He. lia.
  - intros Hr. destruct (decide (0 ≤ z)); [by apply Z.mod_small; lia|].
    rewrite <- (Z_mod_plus_full z 1), Z.mod_small in Hlt by lia. lia.
  - intros He. lia.
  - intros Hr. destruct (decide (0 ≤ z)); [by rewrite Z.mod_small in Hge by lia; lia|].
    rewrite <- (Z_mod_plus_full z 1), Z.mod_small by lia. lia.
Qed.

Lemma wrap_unsigned k z : isUnsigned k = true → wrap k z = z ↔ 0 ≤ z < 2 ^ bits k.
Proof.
  intros Hu. unfold wrap, zero_extends. rewrite Hu. simpl. pose proof (pow_bits_pos k).
  split; [intros <-; by apply Z.mod_pos_bound|by apply Z.mod_small].
Qed.

(** The range of a type, decidable. *)
Definition in_range (k : TypeKind) (z : Z) : Prop :=
  if isUnsigned k then 0 ≤ z < 2 ^ bits k else - 2 ^ (bits k - 1) ≤ z < 2 ^ (bits k - 1).

Lemma wrap_in_range k z : isIntKind k = true → wrap k z = z ↔ in_range k z.
Proof. intros Hk. unfold in_range. destruct (isUnsigned k) eqn:Hu; [by apply wrap_unsigned|by apply wrap_signed]. Qed.

(** [k] is the first of the integer types whose range holds [z]. *)
Definition first_type (k : TypeKind) (z : Z) : Prop :=
  isIntKind k = true ∧ in_range k z ∧ ∀ k', isIntKind k' = true → in_range k' z → kind_index k ≤ kind_index k'.

(** The ranges in numbers. *)
Lemma in_range_numbers k z : isIntKind k = true → in_range k z ↔
  match k with
  | TypeKind_Int8 => -128 ≤ z ≤ 127 | TypeKind_Int8_u => 0 ≤ z ≤ 255
  | TypeKind_Int16 => -32768 ≤ z ≤ 32767 | TypeKind_Int16_u => 0 ≤ z ≤ 65535
  | TypeKind_Int32 => -2147483648 ≤ z ≤ 2147483647 | TypeKind_Int32_u => 0 ≤ z ≤ 4294967295
  | TypeKind_Int64 => -9223372036854775808 ≤ z ≤ 9223372036854775807
  | _ => 0 ≤ z ≤ 18446744073709551615
  end.
Proof.
  intros Hk. destruct k; try discriminate Hk; unfold in_range; cbn [isUnsigned]; unfold bits; cbn [typeSize];
    match goal with |- context [2 ^ ?e] => let v := eval vm_compute in (2 ^ e) in change (2 ^ e) with v end; lia.
Qed.

Ltac solve_first :=
  split; [done|]; split;
  [ rewrite in_range_numbers by done; lia
  | let k' := fresh in let H := fresh in
    intros k' H; rewrite in_range_numbers by done; destruct k'; try discriminate H; cbn [kind_index]; lia ].

(** A word read back as unsigned. *)
Lemma mod_pow_cases z m : - m ≤ z < m → z mod m = z ∧ 0 ≤ z ∨ z mod m = z + m ∧ z < 0.
Proof.
  intros Hz. destruct (decide (0 ≤ z)); [left; rewrite Z.mod_small by lia; done|right].
  rewrite <- (Z_mod_plus_full z 1), Z.mod_small by lia. lia.
Qed.

Lemma first_type_32 z : in_range TypeKind_Int32 z → first_type (getInt32TypeKind z) z.
Proof.
  rewrite in_range_numbers by done. intros Hz. unfold getInt32TypeKind. change (2 ^ 32) with 4294967296.
  pose proof (mod_pow_cases z 4294967296 ltac:(lia)). repeat case_match; try solve_first; lia.
Qed.

Lemma first_type_32_u z : in_range TypeKind_Int32_u z → first_type (getInt32TypeKind_u z) z.
Proof. rewrite in_range_numbers by done. intros Hz. unfold getInt32TypeKind_u. repeat case_match; solve_first. Qed.

Lemma first_type_64 z : in_range TypeKind_Int64 z → first_type (getInt64TypeKind z) z.
Proof.
  rewrite in_range_numbers by done. intros Hz. unfold getInt64TypeKind. change (2 ^ 64) with 18446744073709551616.
  pose proof (mod_pow_cases z 18446744073709551616 ltac:(lia)). repeat case_match; try solve_first; lia.
Qed.

Lemma first_type_64_u z : in_range TypeKind_Int64_u z → first_type (getInt64TypeKind_u z) z.
Proof. rewrite in_range_numbers by done. intros Hz. unfold getInt64TypeKind_u. repeat case_match; solve_first. Qed.

Lemma first_type_exact k z : first_type k z → intValue (createConst z k) = z.
Proof.
  intros (Hk & Hr & _). rewrite createConst_value; [by apply wrap_in_range|]. by destruct k.
Qed.

(** the type given to an integer literal is the first of the integer types, in the
    order in which operands are promoted, that holds the integer, and a constant of
    that type has the value of the literal. *)
Theorem literal_type z :
  (in_range TypeKind_Int32 z → first_type (getInt32TypeKind z) z ∧ intValue (createConst z (getInt32TypeKind z)) = z) ∧
  (in_range TypeKind_Int32_u z →
    first_type (getInt32TypeKind_u z) z ∧ intValue (createConst z (getInt32TypeKind_u z)) = z) ∧
  (in_range TypeKind_Int64 z → first_type (getInt64TypeKind z) z ∧ intValue (createConst z (getInt64TypeKind z)) = z) ∧
  (in_range TypeKind_Int64_u z →
    first_type (getInt64TypeKind_u z) z ∧ intValue (createConst z (getInt64TypeKind_u z)) = z).
Proof.
  split; [|split; [|split] ]; intros Hz.
  - pose proof (first_type_32 z Hz). split; [done|by apply first_type_exact].
  - pose proof (first_type_32_u z Hz). split; [done|by apply first_type_exact].
  - pose proof (first_type_64 z Hz). split; [done|by apply first_type_exact].
  - pose proof (first_type_64_u z Hz). split; [done|by apply first_type_exact].
Qed.

Lemma literal_type_witness :
  in_range TypeKind_Int64 (-40000) ∧ first_type TypeKind_Int32 (-40000) ∧
  intValue (createConst (-40000) TypeKind_Int32) = -40000.
Proof.
  assert (H : in_range TypeKind_Int64 (-40000)) by (apply in_range_numbers; [done|lia]).
  split; [done|]. exact (proj1 (proj2 (proj2 (literal_type (-40000)))) H).
Defined.

(** ** Folding and compiled code *)

Lemma signed_word_signed n z : signed_word (8 * Z.of_nat n) z = signed n z.
Proof. done. Qed.

(** A shift count in range is the same signed and unsigned. *)
Lemma count_signed k b : isOpKind k = true → 0 ≤ b < 2 ^ bits k →
  0 ≤ signed (typeSize k) b < bits k → signed (typeSize k) b = b ∧ 0 ≤ b < bits k.
Proof.
  intros Hk Hb Hs. destruct (isOpKind_int k Hk) as (_ & _ & Hn & _).
  destruct (signed_cases (typeSize k) ltac:(lia) b Hb) as [ [_ He]|[Hge He] ]; [split; lia|].
  fold (bits k) in *. lia.
Qed.

Lemma shr_folded k a b : isOpKind k = true → 0 ≤ a < 2 ^ bits k → 0 ≤ b < bits k →
  Z.shiftr a b = Z.shiftr (signed (typeSize k) a) b mod 2 ^ bits k ↔ b = 0 ∨ a < 2 ^ (bits k - 1).
Proof.
  intros Hk Ha Hb. destruct (isOpKind_int k Hk) as (_ & _ & Hn & _).
  assert (Hq : 0 ≤ Z.shiftr a b ≤ a).
  { rewrite Z.shiftr_div_pow2 by lia. split; [apply Z.div_pos; [lia|apply Z.pow_pos_nonneg; lia]|].
    apply Z.div_le_upper_bound; [apply Z.pow_pos_nonneg; lia|]. assert (1 ≤ 2 ^ b) by (apply (Z.pow_le_mono_r 2 0); lia). nia. }
  destruct (decide (b = 0)) as [->|Hb0].
  { rewrite !Z.shiftr_0_r. split; [by left|intros _].
    pose proof (signed_congr (typeSize k) ltac:(lia) a) as Hc. fold (bits k) in Hc. rewrite Hc.
    symmetry. by apply Z.mod_small. }
  destruct (signed_cases (typeSize k) ltac:(lia) a Ha) as [ [Hlt ->]|[Hge ->] ]; fold (bits k) in *.
  - rewrite Z.mod_small by lia. split; [by right|done].
  - assert (Hsplit : 2 ^ bits k = 2 ^ (bits k - b) * 2 ^ b).
    { rewrite <- Z.pow_add_r by lia. f_equal. lia. }
    assert (Hs : Z.shiftr (a - 2 ^ bits k) b = Z.shiftr a b - 2 ^ (bits k - b)).
    { rewrite !Z.shiftr_div_pow2 by lia. rewrite Hsplit.
      replace (a - 2 ^ (bits k - b) * 2 ^ b) with (a + (- 2 ^ (bits k - b)) * 2 ^ b) by lia.
      rewrite Z.div_add by (pose proof (Z.pow_pos_nonneg 2 b); lia). lia. }
    rewrite Hs. assert (Hp : 0 < 2 ^ (bits k - b) < 2 ^ bits k).
    { split; [apply Z.pow_pos_nonneg; lia|]. apply Z.pow_lt_mono_r; lia. }
    split; [intros He; exfalso|intros [?|?]; [done|lia] ].
    assert (Hq2 : Z.shiftr a b < 2 ^ (bits k - b)).
    { rewrite Z.shiftr_div_pow2 by lia. apply Z.div_lt_upper_bound; [apply Z.pow_pos_nonneg; lia|].
      rewrite (Z.mul_comm _ (2 ^ (bits k - b))), <- Hsplit. lia. }
    rewrite <- (Z_mod_plus_full _ 1 (2 ^ bits k)), Z.mod_small in He by lia. lia.
Qed.

Lemma runtime_unsigned `{L : LlvmInstructions, !LlvmLaws L} k op a b z :
  isOpKind k = true → isUnsigned k = true → 0 ≤ a < 2 ^ bits k → 0 ≤ b < 2 ^ bits k →
  op ≠ BinOpKind_Shr → arith k op a b = Some z → llvmOpInt (bits k) op a b true = z mod 2 ^ bits k.
Proof.
  intros Hk Hu Ha Hb Hne Hz. pose proof (bits_pos k) as Hw. unfold arith in Hz. rewrite Hu in Hz. simpl negb in Hz.
  unfold llvmOpInt. destruct op; try done; simpl in Hz; simpl.
  1-3: injection Hz as <-; first [apply CreateAdd_law|apply CreateSub_law|apply CreateMul_law].
  1,2: rewrite orb_false_r in Hz; destruct (Z.eqb_spec b 0) as [H0|H0]; [done|]; injection Hz as <-.
  - rewrite CreateUDiv_law, Z.quot_div_nonneg by lia. symmetry. apply Z.mod_small.
    split; [apply Z.div_pos; lia|]. apply Z.div_lt_upper_bound; nia.
  - rewrite CreateURem_law, Z.rem_mod_nonneg by lia. symmetry. apply Z.mod_small.
    pose proof (Z.mod_pos_bound a b). lia.
  - destruct (Z.leb_spec 0 b); [|done]. destruct (Z.ltb_spec b (bits k)); [|done]. simpl in Hz. injection Hz as <-.
    by rewrite CreateShl_law, Z.shiftl_mul_pow2 by lia.
  - injection Hz as <-. rewrite CreateAnd_law. symmetry. apply (small_op Z.land andb); first [apply Z.land_spec|done|lia].
  - injection Hz as <-. rewrite CreateXor_law. symmetry. apply (small_op Z.lxor xorb); first [apply Z.lxor_spec|done|lia].
  - injection Hz as <-. rewrite CreateOr_law. symmetry. apply (small_op Z.lor orb); first [apply Z.lor_spec|done|lia].
Qed.

Lemma runtime_signed `{L : LlvmInstructions, !LlvmLaws L} k op a b z :
  isOpKind k = true → isUnsigned k = false → 0 ≤ a < 2 ^ bits k → 0 ≤ b < 2 ^ bits k →
  op ≠ BinOpKind_Shr → arith k op (signed (typeSize k) a) (signed (typeSize k) b) = Some z →
  llvmOpInt (bits k) op a b false = z mod 2 ^ bits k.
Proof.
  intros Hk Hu Ha Hb Hne Hz. pose proof (bits_pos k) as Hw. destruct (isOpKind_int k Hk) as (_ & _ & Hn & _).
  pose proof (signed_congr (typeSize k) ltac:(lia) a) as Hca.
  pose proof (signed_congr (typeSize k) ltac:(lia) b) as Hcb. fold (bits k) in Hca, Hcb.
  pose proof (Z.mod_small a (2 ^ bits k) Ha) as Hma. pose proof (Z.mod_small b (2 ^ bits k) Hb) as Hmb.
  unfold arith in Hz. rewrite Hu in Hz. simpl negb in Hz. unfold llvmOpInt. destruct op; try done; simpl in Hz; simpl.
  - injection Hz as <-. rewrite CreateAdd_law. by rewrite Z.add_mod, <- Hca, <- Hcb, <- Z.add_mod by lia.
  - injection Hz as <-. rewrite CreateSub_law. by rewrite Zminus_mod, <- Hca, <- Hcb, <- Zminus_mod.
  - injection Hz as <-. rewrite CreateMul_law. by rewrite Z.mul_mod, <- Hca, <- Hcb, <- Z.mul_mod by lia.
  - rewrite signed_zero in Hz by (done || lia). destruct (Z.eqb_spec b 0) as [H0|H0]; [done|]. simpl in Hz.
    destruct ((signed (typeSize k) a =? _) && _) eqn:Hov; [done|]. injection Hz as <-.
    rewrite CreateSDiv_law; [done|done|]. intros [H1 H2]. unfold bits in *.
    rewrite signed_word_signed in H1, H2. rewrite H1, H2 in Hov. by rewrite !Z.eqb_refl in Hov.
  - rewrite signed_zero in Hz by (done || lia). destruct (Z.eqb_spec b 0) as [H0|H0]; [done|]. simpl in Hz.
    destruct ((signed (typeSize k) a =? _) && _) eqn:Hov; [done|]. injection Hz as <-.
    rewrite CreateSRem_law; [done|done|]. intros [H1 H2]. unfold bits in *.
    rewrite signed_word_signed in H1, H2. rewrite H1, H2 in Hov. by rewrite !Z.eqb_refl in Hov.
  - destruct (Z.leb_spec 0 (signed (typeSize k) b)); [|done].
    destruct (Z.ltb_spec (signed (typeSize k) b) (bits k)); [|done]. simpl in Hz. injection Hz as <-.
    destruct (count_signed k b Hk Hb) as [He Hr]; [lia|]. rewrite He, CreateShl_law, Z.shiftl_mul_pow2 by lia.
    by rewrite Z.mul_mod, <- Hca, <- Z.mul_mod by lia.
  - injection Hz as <-. rewrite CreateAnd_law, (mod_op2 Z.land andb _ _ _ a b) by first [apply Z.land_spec|done|lia].
    symmetry. apply (small_op Z.land andb); first [apply Z.land_spec|done|lia].
  - injection Hz as <-. rewrite CreateXor_law, (mod_op2 Z.lxor xorb _ _ _ a b) by first [apply Z.lxor_spec|done|lia].
    symmetry. apply (small_op Z.lxor xorb); first [apply Z.lxor_spec|done|lia].
  - injection Hz as <-. rewrite CreateOr_law, (mod_op2 Z.lor orb _ _ _ a b) by first [apply Z.lor_spec|done|lia].
    symmetry. apply (small_op Z.lor orb); first [apply Z.lor_spec|done|lia].
Qed.

(** C27: folding agrees with compiled code: whenever folding a binary operator has
    a result, the instruction the operator is compiled to gives the same word,
    except for a right shift: folding shifts in the sign bit and compiled code
    shifts in zeros, whatever the type, so that they agree just when the shift
    count is 0 or the high bit is clear. *)
Theorem folding_agrees `{L : LlvmInstructions, !LlvmLaws L} op v1 v2 r : value_ok v1 → value_ok v2 →
  binaryOperator op v1 v2 = Some r →
  let k := getArithmeticOperatorResultType (v_kind v1) (v_kind v2) in
  let a := operand_word v1 k in
  let b := operand_word v2 k in
  llvmOpInt (bits k) op a b (isUnsigned k) = word r ↔
  (op = BinOpKind_Shr → b = 0 ∨ a < 2 ^ (bits k - 1)).
Proof.
  intros H1 H2 Hr k a b. pose proof (result_isOpKind _ _ (proj2 H1) (proj2 H2)) as Hk. fold k in Hk.
  pose proof (operand_word_range v1 k) as Ha. pose proof (operand_word_range v2 k) as Hb. fold a in Ha. fold b in Hb.
  destruct (decide (op = BinOpKind_Shr)) as [->|Hne].
  - rewrite binaryOperator_const in Hr by done. fold k a b in Hr. apply fmap_Some in Hr as (z & Hz & ->).
    rewrite createConst_word. simpl in Hz. destruct (Z.leb_spec 0 (signed (typeSize k) b)); [|done].
    destruct (Z.ltb_spec (signed (typeSize k) b) (bits k)); [|done]. simpl in Hz. injection Hz as <-.
    destruct (count_signed k b Hk Hb) as [He Hrange]; [lia|]. rewrite He. simpl llvmOpInt.
    rewrite CreateLShr_law, shr_folded by done. tauto.
  - split; [done|intros _].
    rewrite (binaryOperator_arith op v1 v2 H1 H2) in Hr by done. fold k in Hr.
    apply fmap_Some in Hr as (z & Hz & ->). rewrite createConst_word. destruct (isUnsigned k) eqn:Hu.
    + rewrite !operand_unsigned in Hz by done. by apply runtime_unsigned.
    + rewrite !operand_signed in Hz by done. by apply runtime_signed.
Qed.

(** *** An instance of the instructions *)

#[local] Instance machine : LlvmInstructions := {|
  CreateAdd w a b := (a + b) mod 2 ^ w; CreateSub w a b := (a - b) mod 2 ^ w; CreateMul w a b := (a * b) mod 2 ^ w;
  CreateSDiv w a b := Z.quot (signed_word w a) (signed_word w b) mod 2 ^ w; CreateUDiv w a b := a / b;
  CreateSRem w a b := Z.rem (signed_word w a) (signed_word w b) mod 2 ^ w; CreateURem w a b := a mod b;
  CreateShl w a b := Z.shiftl a b mod 2 ^ w; CreateLShr w a b := Z.shiftr a b;
  CreateAnd w a b := Z.land a b; CreateOr w a b := Z.lor a b; CreateXor w a b := Z.lxor a b
|}.

#[local] Instance machine_laws : LlvmLaws machine.
Proof. by split. Qed.

(** -8 >> 1 is -4 when it is folded and 2147483644 when it is compiled. *)
Lemma folding_agrees_witness :
  ∃ r, binaryOperator BinOpKind_Shr (createConst (-8) TypeKind_Int32) (createConst 1 TypeKind_Int32) = Some r ∧
    intValue r = -4 ∧
    ¬ llvmOpInt 32 BinOpKind_Shr (operand_word (createConst (-8) TypeKind_Int32) TypeKind_Int32)
        (operand_word (createConst 1 TypeKind_Int32) TypeKind_Int32) false = word r.
Proof.
  assert (H1 : value_ok (createConst (-8) TypeKind_Int32)) by by apply createConst_ok.
  assert (H2 : value_ok (createConst 1 TypeKind_Int32)) by by apply createConst_ok.
  eexists. split; [reflexivity|]. split; [by vm_compute|]. intros He.
  destruct (proj1 (folding_agrees BinOpKind_Shr _ _ _ H1 H2 eq_refl) He eq_refl) as [H|H]; vm_compute in H; discriminate H.
Defined.
