(* ===== verification/BitField.v ===== *)
(** * Bit fields

    Models [OperatorMgr::extractBitField] and [OperatorMgr::mergeBitField] of
    [src/src/jnc_ct/jnc_ct_OperatorMgr/jnc_ct_OperatorMgr_DataRef.cpp] on constants:
    loading and storing a bit field, with the operators of [IntOps]. *)

From S2P Require Import Prelude IntOps.
From coqutil Require Import Byte.
From coqutil.Word Require Import LittleEndianList.

Open Scope Z_scope.

(** The type the operators compute in. *)
Definition bitfield_type (baseType : TypeKind) : TypeKind :=
  if (typeSize baseType <=? 4)%nat then TypeKind_Int32_u else TypeKind_Int64_u.

(** [(int64_t)1 << n] *)
Definition shl1_64 (n : Z) : option Z := if (0 <=? n) && (n <? 64) then Some (Z.shiftl 1 n) else None.

Definition extractBitField (rawValue : Value) (baseType : TypeKind) (bitOffset bitCount : Z) : option Value :=
  let type := bitfield_type baseType in
  let bitOffsetValue := createConst bitOffset type in
  top ← shl1_64 bitCount;
  let mask := top - 1 in
  let value := mkValue baseType (m_constData rawValue) in
  let maskValue := createConst mask type in
  value ← binaryOperator BinOpKind_Shr value bitOffsetValue;
  value ← binaryOperator BinOpKind_BwAnd value maskValue;
  value ←
    (if negb (isUnsigned baseType) then
       signBit ← shl1_64 (bitCount - 1);
       let signBitValue := createConst signBit type in
       let oneValue := createConst 1 type in
       signBitValue ← binaryOperator BinOpKind_BwAnd signBitValue value;
       signExtValue ← binaryOperator BinOpKind_Sub signBitValue oneValue;
       signExtValue ← unaryOperator UnOpKind_BwNot signExtValue;
       binaryOperator BinOpKind_BwOr value signExtValue
     else Some value);
  Some (castOperator value baseType).

(** The second operator puts its result into [resultValue], which the last cast
    overwrites. *)
Definition mergeBitField (rawValue rawShadowValue : Value) (baseType : TypeKind) (bitOffset bitCount : Z) :
    option Value :=
  let type := bitfield_type baseType in
  top ← shl1_64 bitCount;
  let mask := Z.shiftl (top - 1) bitOffset in
  let value := mkValue baseType (m_constData rawValue) in
  let shadowValue := mkValue baseType (m_constData rawShadowValue) in
  let maskValue := createConst mask type in
  let offsetValue := createConst bitOffset type in
  value ← binaryOperator BinOpKind_Shl value offsetValue;
  resultValue ← binaryOperator BinOpKind_BwAnd value maskValue;
  let mask := Z.lnot (Z.shiftl (top - 1) bitOffset) in
  let maskValue := createConst mask type in
  shadowValue ← binaryOperator BinOpKind_BwAnd shadowValue maskValue;
  value ← binaryOperator BinOpKind_BwOr value shadowValue;
  Some (castOperator value baseType).

(** ** Operators on words *)

(** The types a bit field can have. *)
Definition isFieldKind (k : TypeKind) : bool := isIntKind k.

Lemma lnot_sub z : Z.lnot z = -1 - z.
Proof. unfold Z.lnot. lia. Qed.

Lemma unaryOperator_same op v : value_ok v → isOpKind (v_kind v) = true →
  unaryOperator op v = Some (createConst (constUnOpInt op (signed (typeSize (v_kind v)) (word v))) (v_kind v)).
Proof.
  intros [Hl _] Hk. unfold unaryOperator, castOperator, getInt32, getInt64, word. destruct v as [k d]. simpl in *.
  destruct k; try discriminate Hk; simpl in *; by rewrite take_ge by lia.
Qed.

Section field.
Context (base : TypeKind) (Hbase : isFieldKind base = true).
Let type := bitfield_type base.

Lemma type_op : isOpKind type = true ∧ isUnsigned type = true.
Proof. unfold type, bitfield_type. by destruct (_ <=? _)%nat. Qed.

Lemma base_type : getArithmeticOperatorResultType base type = type ∧
  getArithmeticOperatorResultType type base = type ∧ getArithmeticOperatorResultType type type = type.
Proof. unfold type. by destruct base. Qed.

Lemma base_bits : bits base ≤ bits type.
Proof. unfold type. by destruct base. Qed.

(** A value of one of the two types. *)
Definition operand_ok (v : Value) : Prop := value_ok v ∧ (v_kind v = base ∨ v_kind v = type).

Lemma result_type v1 v2 : operand_ok v1 → operand_ok v2 → v_kind v1 = type ∨ v_kind v2 = type →
  getArithmeticOperatorResultType (v_kind v1) (v_kind v2) = type.
Proof. destruct base_type as (H1 & H2 & H3). intros [_ [K1|K1] ] [_ [K2|K2] ] [K|K]; congruence. Qed.

Lemma const_operand z : operand_ok (createConst z type).
Proof. split; [|by right]. apply createConst_ok. unfold type. by destruct base. Qed.

Lemma word_of_type v : value_ok v → v_kind v = type → operand_word v type = word v.
Proof.
  intros Hv Hk. unfold operand_word. rewrite intValue_mod by (rewrite Hk; pose proof (bits_pos type); lia).
  rewrite <- Hk. apply Z.mod_small. by apply word_range.
Qed.

Lemma operand_word_const z : operand_word (createConst z type) type = z mod 2 ^ bits type.
Proof. rewrite word_of_type, createConst_word; [done|apply const_operand|done]. Qed.

(** An operator between values of the two types: the word of the result. *)
Lemma op_word op v1 v2 z : operand_ok v1 → operand_ok v2 → v_kind v1 = type ∨ v_kind v2 = type →
  constOpInt (bits type) op (signed (typeSize type) (operand_word v1 type)) (signed (typeSize type) (operand_word v2 type)) true
    = Some z →
  ∃ r, binaryOperator op v1 v2 = Some r ∧ operand_ok r ∧ v_kind r = type ∧ word r = z mod 2 ^ bits type.
Proof.
  intros H1 H2 Hk Hz. rewrite binaryOperator_const by apply H1 || apply H2. rewrite (result_type v1 v2 H1 H2 Hk).
  destruct type_op as [_ Hu]. rewrite Hu, Hz. simpl. eexists. split; [done|].
  split; [apply const_operand|]. split; [done|]. apply createConst_word.
Qed.

Lemma land_word v1 v2 : operand_ok v1 → operand_ok v2 → v_kind v1 = type ∨ v_kind v2 = type →
  ∃ r, binaryOperator BinOpKind_BwAnd v1 v2 = Some r ∧ operand_ok r ∧ v_kind r = type ∧
    word r = Z.land (operand_word v1 type) (operand_word v2 type).
Proof.
  intros H1 H2 Hk. destruct (op_word BinOpKind_BwAnd v1 v2 _ H1 H2 Hk eq_refl) as (r & Hr & Ho & Hkr & Hw).
  exists r. split; [done|]. split; [done|]. split; [done|]. rewrite Hw. destruct type_op as [Hop _].
  destruct (isOpKind_int type Hop) as (_ & _ & Hn & _). pose proof (bits_pos type).
  rewrite (mod_op2 Z.land andb _ _ _ (operand_word v1 type) (operand_word v2 type));
    [|lia|apply Z.land_spec|apply signed_congr; lia|apply signed_congr; lia].
  apply (small_op Z.land andb); [apply Z.land_spec|done|lia|apply operand_word_range..].
Qed.

Lemma lor_word v1 v2 : operand_ok v1 → operand_ok v2 → v_kind v1 = type ∨ v_kind v2 = type →
  ∃ r, binaryOperator BinOpKind_BwOr v1 v2 = Some r ∧ operand_ok r ∧ v_kind r = type ∧
    word r = Z.lor (operand_word v1 type) (operand_word v2 type).
Proof.
  intros H1 H2 Hk. destruct (op_word BinOpKind_BwOr v1 v2 _ H1 H2 Hk eq_refl) as (r & Hr & Ho & Hkr & Hw).
  exists r. split; [done|]. split; [done|]. split; [done|]. rewrite Hw. destruct type_op as [Hop _].
  destruct (isOpKind_int type Hop) as (_ & _ & Hn & _). pose proof (bits_pos type).
  rewrite (mod_op2 Z.lor orb _ _ _ (operand_word v1 type) (operand_word v2 type));
    [|lia|apply Z.lor_spec|apply signed_congr; lia|apply signed_congr; lia].
  apply (small_op Z.lor orb); [apply Z.lor_spec|done|lia|apply operand_word_range..].
Qed.

Lemma sub_word v1 v2 : operand_ok v1 → operand_ok v2 → v_kind v1 = type ∨ v_kind v2 = type →
  ∃ r, binaryOperator BinOpKind_Sub v1 v2 = Some r ∧ operand_ok r ∧ v_kind r = type ∧
    word r = (operand_word v1 type - operand_word v2 type) mod 2 ^ bits type.
Proof.
  intros H1 H2 Hk. destruct (op_word BinOpKind_Sub v1 v2 _ H1 H2 Hk eq_refl) as (r & Hr & Ho & Hkr & Hw).
  exists r. split; [done|]. split; [done|]. split; [done|]. rewrite Hw. destruct type_op as [Hop _].
  destruct (isOpKind_int type Hop) as (_ & _ & Hn & _).
  pose proof (signed_congr (typeSize type) ltac:(lia) (operand_word v1 type)) as Hc1.
  pose proof (signed_congr (typeSize type) ltac:(lia) (operand_word v2 type)) as Hc2.
  fold (bits type) in Hc1, Hc2. by rewrite Zminus_mod, Hc1, Hc2, <- Zminus_mod.
Qed.

Lemma not_word v : operand_ok v → v_kind v = type →
  ∃ r, unaryOperator UnOpKind_BwNot v = Some r ∧ operand_ok r ∧ v_kind r = type ∧
    word r = Z.lnot (word v) mod 2 ^ bits type.
Proof.
  intros [Hv _] Hk. destruct type_op as [Hop Hu]. destruct (isOpKind_int type Hop) as (_ & _ & Hn & _).
  exists (createConst (Z.lnot (signed (typeSize type) (word v))) type). split.
  - rewrite unaryOperator_same by (done || by rewrite Hk). by rewrite Hk.
  - split; [apply const_operand|]. split; [done|]. rewrite createConst_word.
    pose proof (signed_congr (typeSize type) ltac:(lia) (word v)) as Hc. fold (bits type) in Hc.
    rewrite !lnot_sub. by rewrite Zminus_mod, Hc, <- Zminus_mod.
Qed.

Lemma count_operand off : 0 ≤ off < bits type →
  signed (typeSize type) (operand_word (createConst off type) type) = off.
Proof.
  intros Hoff. destruct type_op as [Hop Hu]. destruct (isOpKind_int type Hop) as (_ & _ & Hn & _).
  pose proof (Z.pow_gt_lin_r 2 (bits type)) as Hp.
  assert (Hlt : bits type ≤ 2 ^ (bits type - 1)) by (unfold type; by destruct base).
  rewrite operand_word_const, Z.mod_small by lia.
  destruct (signed_cases (typeSize type) ltac:(lia) off) as [ [_ H]|[Hge _] ]; [change (0 ≤ off < 2 ^ bits type); lia|done|].
  change (2 ^ (bits type - 1) ≤ off) in Hge. lia.
Qed.

Lemma shl_word v off : operand_ok v → 0 ≤ off < bits type →
  ∃ r, binaryOperator BinOpKind_Shl v (createConst off type) = Some r ∧ operand_ok r ∧ v_kind r = type ∧
    word r = Z.shiftl (operand_word v type) off mod 2 ^ bits type.
Proof.
  intros Hv Hoff. destruct type_op as [Hop Hu]. destruct (isOpKind_int type Hop) as (_ & _ & Hn & _).
  pose proof (count_operand off Hoff) as Ho.
  destruct (op_word BinOpKind_Shl v (createConst off type) (Z.shiftl (signed (typeSize type) (operand_word v type)) off) Hv)
    as (r & Hr & Hok & Hk & Hw); [apply const_operand|by right| |].
  { rewrite Ho. simpl. rewrite (proj2 (Z.leb_le _ _)), (proj2 (Z.ltb_lt _ _)) by lia. done. }
  exists r. split; [done|]. split; [done|]. split; [done|]. rewrite Hw, !Z.shiftl_mul_pow2 by lia.
  pose proof (signed_congr (typeSize type) ltac:(lia) (operand_word v type)) as Hc. fold (bits type) in Hc.
  pose proof (pow_bits_pos type). by rewrite Z.mul_mod, Hc, <- Z.mul_mod by lia.
Qed.

Lemma shr_word v off : operand_ok v → 0 ≤ off < bits type →
  ∃ r, binaryOperator BinOpKind_Shr v (createConst off type) = Some r ∧ operand_ok r ∧ v_kind r = type ∧
    ∀ i, 0 ≤ i → i + off < bits type → Z.testbit (word r) i = Z.testbit (operand_word v type) (i + off).
Proof.
  intros Hv Hoff. destruct type_op as [Hop Hu]. destruct (isOpKind_int type Hop) as (_ & _ & Hn & _).
  pose proof (count_operand off Hoff) as Ho.
  destruct (op_word BinOpKind_Shr v (createConst off type) (Z.shiftr (signed (typeSize type) (operand_word v type)) off) Hv)
    as (r & Hr & Hok & Hk & Hw); [apply const_operand|by right| |].
  { rewrite Ho. simpl. rewrite (proj2 (Z.leb_le _ _)), (proj2 (Z.ltb_lt _ _)) by lia. done. }
  exists r. split; [done|]. split; [done|]. split; [done|]. intros i Hi Hio. rewrite Hw.
  rewrite Z.mod_pow2_bits_low, Z.shiftr_spec by lia.
  pose proof (signed_congr (typeSize type) ltac:(lia) (operand_word v type)) as Hc. fold (bits type) in Hc.
  rewrite <- (Z.mod_pow2_bits_low _ (bits type)), Hc by lia. by rewrite Z.mod_pow2_bits_low by lia.
Qed.

(** ** Loading *)

(** The integer in the low [count] bits of [z]. *)
Definition field_value (count z : Z) : Z :=
  let u := z mod 2 ^ count in
  if negb (isUnsigned base) && Z.testbit u (count - 1) then u - 2 ^ count else u.

Lemma signed_small z : isUnsigned base = false → - 2 ^ (bits base - 1) ≤ z < 2 ^ (bits base - 1) → wrap base z = z.
Proof.
  intros Hu Hz. assert (Hzx : zero_extends base = false) by (by destruct base).
  assert (Hn : (0 < typeSize base)%nat) by (destruct base; simpl; lia).
  unfold wrap. rewrite Hzx. assert (Hw : 2 ^ bits base = 2 * 2 ^ (bits base - 1)).
  { replace (bits base) with (1 + (bits base - 1)) at 1 by lia. rewrite Z.pow_add_r by (pose proof (bits_pos base); lia). lia. }
  destruct (decide (0 ≤ z)).
  - rewrite Z.mod_small by lia. destruct (signed_cases (typeSize base) Hn z) as [ [_ H]|[Hge _] ];
      [change (0 ≤ z < 2 ^ bits base); lia|done|change (2 ^ (bits base - 1) ≤ z) in Hge; lia].
  - rewrite <- (Z_mod_plus_full _ 1), Z.mod_small by lia.
    destruct (signed_cases (typeSize base) Hn (z + 1 * 2 ^ bits base)) as [ [Hlt _]|[_ H] ].
    + change (0 ≤ z + 1 * 2 ^ bits base < 2 ^ bits base). lia.
    + change (z + 1 * 2 ^ bits base < 2 ^ (bits base - 1)) in Hlt. lia.
    + rewrite H. change (2 ^ (8 * Z.of_nat (typeSize base))) with (2 ^ bits base). lia.
Qed.

Lemma unsigned_small z : isUnsigned base = true → 0 ≤ z < 2 ^ bits base → wrap base z = z.
Proof.
  intros Hu Hz. unfold wrap, zero_extends. rewrite Hu. simpl. by apply Z.mod_small.
Qed.

Lemma cast_back v : operand_ok v → v_kind v = type →
  value_ok (castOperator v base) ∧ v_kind (castOperator v base) = base ∧
  word (castOperator v base) = word v mod 2 ^ bits base ∧ intValue (castOperator v base) = wrap base (word v).
Proof.
  intros [Hv _] Hk. assert (Hz : zero_extends (v_kind v) = true) by (rewrite Hk; unfold type; by destruct base).
  destruct (cast_word v base Hv Hbase) as (Hw & Hl & Hkk); [rewrite Hk; unfold type; by destruct base|].
  assert (Hok : value_ok (castOperator v base)).
  { split; [by rewrite Hkk|]. rewrite Hkk. by destruct base. }
  split; [done|]. split; [done|]. unfold intValue at 1 in Hw. rewrite Hz in Hw. split; [done|].
  rewrite intValue_wrap by done. rewrite Hkk, Hw. unfold wrap.
  by rewrite Z.mod_mod by (pose proof (pow_bits_pos base); lia).
Qed.

(** A value of the type of the field. *)
Definition base_value (v : Value) : Prop := value_ok v ∧ v_kind v = base.

Lemma base_operand v : base_value v → operand_ok v.
Proof. intros [Hv Hk]. split; [done|by left]. Qed.

Lemma base_operand_bit v i : base_value v → 0 ≤ i < bits base →
  Z.testbit (operand_word v type) i = Z.testbit (word v) i.
Proof.
  intros [Hv Hk] Hi. pose proof base_bits as Hbb. unfold operand_word. rewrite Z.mod_pow2_bits_low by lia.
  rewrite <- (Z.mod_pow2_bits_low _ (bits base)) by lia.
  rewrite <- Hk, intValue_mod by (pose proof (bits_pos (v_kind v)); lia). rewrite Hk.
  by rewrite Z.mod_pow2_bits_low by lia.
Qed.

Lemma shl1_64_some n : 0 ≤ n < 64 → shl1_64 n = Some (2 ^ n).
Proof.
  intros Hn. unfold shl1_64. rewrite (proj2 (Z.leb_le _ _)), (proj2 (Z.ltb_lt _ _)) by lia. simpl.
  by rewrite Z.shiftl_1_l.
Qed.

Lemma mask_word_const count : 0 < count ≤ bits type → operand_word (createConst (2 ^ count - 1) type) type = Z.ones count.
Proof.
  intros Hc. rewrite operand_word_const, Z.ones_equiv. apply Z.mod_small.
  assert (0 < 2 ^ count) by (apply Z.pow_pos_nonneg; lia).
  assert (2 ^ count ≤ 2 ^ bits type) by (apply Z.pow_le_mono_r; lia). lia.
Qed.

(** The sign extension: what is or-ed to the field. *)
Lemma sign_extension u count : 0 < count ≤ bits type → 0 ≤ u < 2 ^ count →
  let s := Z.land (2 ^ (count - 1)) u in
  Z.lor u (Z.lnot ((s - 1) mod 2 ^ bits type) mod 2 ^ bits type) =
  (if Z.testbit u (count - 1) then u - 2 ^ count else u) mod 2 ^ bits type.
Proof.
  intros Hc Hu s. pose proof (bits_pos type) as HW.
  assert (Hp : 0 < 2 ^ (count - 1)) by (apply Z.pow_pos_nonneg; lia).
  assert (Hle : 2 ^ count ≤ 2 ^ bits type) by (apply Z.pow_le_mono_r; lia).
  assert (Hpc : 2 ^ count = 2 * 2 ^ (count - 1)).
  { replace count with (1 + (count - 1)) at 1 by lia. rewrite Z.pow_add_r by lia. lia. }
  destruct (Z.testbit u (count - 1)) eqn:Ht.
  - assert (Hs : s = 2 ^ (count - 1)).
    { apply Z.bits_inj'. intros i Hi. unfold s. rewrite Z.land_spec, Z.pow2_bits_eqb by lia.
      destruct (Z.eqb_spec (count - 1) i) as [<-|]; [by rewrite Ht|done]. }
    rewrite Hs. rewrite (Z.mod_small (2 ^ (count - 1) - 1)) by lia.
    apply Z.bits_inj'. intros i Hi. rewrite Z.lor_spec. destruct (decide (i < bits type)) as [Hiw|Hiw].
    + rewrite !Z.mod_pow2_bits_low by lia. rewrite Z.lnot_spec by lia.
      replace (2 ^ (count - 1) - 1) with (Z.ones (count - 1)) by (rewrite Z.ones_equiv; lia).
      assert (Hsub : u - 2 ^ count = Z.lor u (Z.shiftl (-1) count)).
      { rewrite <- Z.lxor_lor, <- Z.add_nocarry_lxor.
        - rewrite Z.shiftl_mul_pow2 by lia. lia.
        - apply Z.bits_inj'. intros j Hj. rewrite Z.land_spec, Z.shiftl_spec, Z.bits_0 by lia.
          destruct (decide (j < count)); [rewrite (Z.testbit_neg_r _ (j - count)) by lia; apply andb_false_r|].
          by rewrite <- (Z.mod_small u (2 ^ count)), Z.mod_pow2_bits_high by lia.
        - apply Z.bits_inj'. intros j Hj. rewrite Z.land_spec, Z.shiftl_spec, Z.bits_0 by lia.
          destruct (decide (j < count)); [rewrite (Z.testbit_neg_r _ (j - count)) by lia; apply andb_false_r|].
          by rewrite <- (Z.mod_small u (2 ^ count)), Z.mod_pow2_bits_high by lia. }
      rewrite Hsub, Z.lor_spec, Z.shiftl_spec by lia.
      destruct (decide (i < count - 1)) as [H1|H1].
      * rewrite Z.ones_spec_low, (Z.testbit_neg_r _ (i - count)) by lia. done.
      * rewrite Z.ones_spec_high by lia. simpl negb. rewrite orb_true_r.
        destruct (decide (i = count - 1)) as [->|]; [by rewrite Ht|]. change (-1) with (Z.opp 1) || idtac. rewrite (Z.bits_opp 1) by lia. simpl Z.pred. rewrite Z.bits_0. by rewrite orb_true_r.
    + rewrite !Z.mod_pow2_bits_high by lia. rewrite orb_false_r.
      by rewrite <- (Z.mod_small u (2 ^ count)), Z.mod_pow2_bits_high by lia.
  - assert (Hs : s = 0).
    { apply Z.bits_inj'. intros i Hi. unfold s. rewrite Z.land_spec, Z.pow2_bits_eqb, Z.bits_0 by lia.
      destruct (Z.eqb_spec (count - 1) i) as [<-|]; [by rewrite Ht|done]. }
    rewrite Hs. rewrite <- (Z_mod_plus_full (0 - 1) 1 (2 ^ bits type)), (Z.mod_small (0 - 1 + 1 * _)) by lia.
    rewrite lnot_sub. replace (-1 - (0 - 1 + 1 * 2 ^ bits type)) with (0 + (-1) * 2 ^ bits type) by lia.
    rewrite Z_mod_plus_full, Z.mod_0_l, Z.lor_0_r by lia. symmetry. apply Z.mod_small. lia.
Qed.

Lemma extract_lemma v off count : base_value v → 0 ≤ off → 0 < count → count < 64 → off + count ≤ bits base →
  ∃ r, extractBitField v base off count = Some r ∧ base_value r ∧
    intValue r = field_value count (Z.shiftr (word v) off).
Proof.
  intros Hv Hoff Hc Hc64 Hr. pose proof base_bits as Hbb. pose proof (base_operand v Hv) as Hvo.
  destruct v as [kv d]. assert (kv = base) as -> by apply Hv.
  unfold extractBitField. fold type. rewrite (shl1_64_some count), (shl1_64_some (count - 1)) by lia. cbn [mbind option_bind m_constData].
  destruct (shr_word (mkValue base d) off Hvo) as (v1 & H1 & Ho1 & Hk1 & Hw1); [lia|]. rewrite H1. cbn [mbind option_bind].
  destruct (land_word v1 (createConst (2 ^ count - 1) type) Ho1 (const_operand _)) as (v2 & H2 & Ho2 & Hk2 & Hw2); [by left|].
  rewrite H2. cbn [mbind option_bind].
  set (u := Z.shiftr (word (mkValue base d)) off mod 2 ^ count).
  assert (Hu : 0 ≤ u < 2 ^ count) by (apply Z.mod_pos_bound, Z.pow_pos_nonneg; lia).
  assert (Hw2' : word v2 = u).
  { rewrite Hw2, mask_word_const by lia. apply Z.bits_inj'. intros i Hi. rewrite Z.land_spec.
    unfold u. destruct (decide (i < count)).
    - rewrite Z.ones_spec_low, andb_true_r, Z.mod_pow2_bits_low, Z.shiftr_spec by lia.
      rewrite word_of_type by (done || apply Ho1). rewrite Hw1 by lia. by rewrite base_operand_bit by (done || lia).
    - by rewrite Z.ones_spec_high, andb_false_r, Z.mod_pow2_bits_high by lia. }
  unfold field_value. fold u. destruct (isUnsigned base) eqn:Hun; cbn [negb andb].
  - cbn [mbind option_bind]. destruct (cast_back v2 Ho2 Hk2) as (Hok & Hkk & _ & Hi). eexists. split; [done|].
    split; [done|]. rewrite Hi, Hw2'. apply unsigned_small; [done|].
    assert (2 ^ count ≤ 2 ^ bits base) by (apply Z.pow_le_mono_r; lia). lia.
  - cbn [mbind option_bind].
    destruct (land_word (createConst (2 ^ (count - 1)) type) v2 (const_operand _) Ho2) as (v3 & H3 & Ho3 & Hk3 & Hw3); [by left|].
    rewrite H3. cbn [mbind option_bind].
    destruct (sub_word v3 (createConst 1 type) Ho3 (const_operand _)) as (v4 & H4 & Ho4 & Hk4 & Hw4); [by left|].
    rewrite H4. cbn [mbind option_bind].
    destruct (not_word v4 Ho4 Hk4) as (v5 & H5 & Ho5 & Hk5 & Hw5). rewrite H5. cbn [mbind option_bind].
    destruct (lor_word v2 v5 Ho2 Ho5) as (v6 & H6 & Ho6 & Hk6 & Hw6); [by left|]. rewrite H6. cbn [mbind option_bind].
    destruct (cast_back v6 Ho6 Hk6) as (Hok & Hkk & _ & Hi). eexists. split; [done|]. split; [done|].
    rewrite !word_of_type in Hw6 by (done || apply Ho2 || apply Ho5).
    rewrite Hw5, Hw4, !word_of_type in Hw6 by (done || apply Ho3 || apply const_operand).
    rewrite createConst_word, (Z.mod_small 1) in Hw6 by (assert (2 ^ 1 ≤ 2 ^ bits type) by (apply Z.pow_le_mono_r; pose proof (bits_pos type); lia); lia).
    rewrite Hw3, operand_word_const, word_of_type in Hw6 by (done || apply Ho2).
    assert (Hle : 2 ^ count ≤ 2 ^ bits type) by (apply Z.pow_le_mono_r; lia).
    assert (Hpc : 2 ^ count = 2 * 2 ^ (count - 1)).
    { replace count with (1 + (count - 1)) at 1 by lia. rewrite Z.pow_add_r by lia. lia. }
    rewrite (Z.mod_small (2 ^ (count - 1))) in Hw6 by lia. rewrite Hw2', sign_extension in Hw6 by lia.
    rewrite Hi, Hw6. simpl.
    set (z := if Z.testbit u (count - 1) then u - 2 ^ count else u).
    assert (Hz : - 2 ^ (bits base - 1) ≤ z < 2 ^ (bits base - 1)).
    { assert (2 ^ (count - 1) ≤ 2 ^ (bits base - 1)) by (apply Z.pow_le_mono_r; lia).
      unfold z. destruct (Z.testbit u (count - 1)) eqn:Ht.
      - assert (2 ^ (count - 1) ≤ u); [|lia]. destruct (decide (2 ^ (count - 1) ≤ u)); [done|exfalso].
        by rewrite <- (Z.mod_small u (2 ^ (count - 1))), Z.mod_pow2_bits_high in Ht by lia.
      - assert (u < 2 ^ (count - 1)); [|lia]. destruct (decide (u < 2 ^ (count - 1))); [done|exfalso].
        assert (Htt : Z.testbit u (count - 1) = true); [|congruence].
        rewrite Z.testbit_true by lia. assert (u / 2 ^ (count - 1) = 1) as ->; [|done].
        symmetry. apply (Z.div_unique _ _ _ (u - 2 ^ (count - 1))); [left; lia|lia]. }
    rewrite <- (signed_small z Hun Hz) at 2. unfold wrap.
    assert (Hmm : (z mod 2 ^ bits type) mod 2 ^ bits base = z mod 2 ^ bits base).
    { rewrite <- !Z.land_ones by (pose proof (bits_pos base); lia). rewrite <- Z.land_assoc. f_equal.
      apply Z.bits_inj'. intros i Hi'. rewrite Z.land_spec. destruct (decide (i < bits base)).
      - by rewrite !Z.ones_spec_low by lia.
      - by rewrite (Z.ones_spec_high (bits base)), andb_false_r by (pose proof (bits_pos base); lia). }
    by rewrite Hmm.
Qed.

(** ** Storing *)

Lemma base_operand_word v : base_value v → operand_word v type mod 2 ^ bits base = word v.
Proof.
  intros Hv. pose proof (bits_pos base). apply Z.bits_inj'. intros i Hi. destruct (decide (i < bits base)).
  - rewrite Z.mod_pow2_bits_low by lia. by rewrite base_operand_bit by (done || lia).
  - rewrite Z.mod_pow2_bits_high by lia. destruct Hv as [Hv Hk]. pose proof (word_range v Hv) as Hr. rewrite Hk in Hr.
    by rewrite <- (Z.mod_small _ _ Hr), Z.mod_pow2_bits_high by lia.
Qed.

(** Whether bit [j] is one of the field's. *)
Definition in_field (off count j : Z) : bool := (off <=? j) && (j <? off + count).

Lemma mask_bit off count j : 0 ≤ off → 0 < count → 0 ≤ j → Z.testbit (Z.shiftl (2 ^ count - 1) off) j = in_field off count j.
Proof.
  intros Hoff Hc Hj. replace (2 ^ count - 1) with (Z.ones count) by (rewrite Z.ones_equiv; lia).
  rewrite Z.shiftl_spec by lia. unfold in_field. destruct (Z.leb_spec off j) as [H1|H1]; cbn [andb].
  - destruct (Z.ltb_spec j (off + count)); [by rewrite Z.ones_spec_low by lia|by rewrite Z.ones_spec_high by lia].
  - by apply Z.testbit_neg_r; lia.
Qed.

(** What a store leaves: the value, unmasked, or-ed to the rest of the old word. *)
Definition merged_bit (raw shadow off count j : Z) : bool :=
  (off <=? j) && Z.testbit raw (j - off) || negb (in_field off count j) && Z.testbit shadow j.

Lemma merge_lemma v s off count : base_value v → base_value s →
  0 ≤ off → 0 < count → count < 64 → off + count ≤ bits base →
  ∃ r, mergeBitField v s base off count = Some r ∧ base_value r ∧
    ∀ j, 0 ≤ j < bits base → Z.testbit (word r) j = merged_bit (word v) (word s) off count j.
Proof.
  intros Hv Hs Hoff Hc Hc64 Hr. pose proof base_bits as Hbb.
  pose proof (base_operand v Hv) as Hvo. pose proof (base_operand s Hs) as Hso.
  destruct v as [kv d], s as [ks e]. assert (kv = base) as -> by apply Hv. assert (ks = base) as -> by apply Hs.
  unfold mergeBitField. fold type. rewrite shl1_64_some by lia. cbn [mbind option_bind m_constData].
  destruct (shl_word (mkValue base d) off Hvo) as (v1 & H1 & Ho1 & Hk1 & Hw1); [lia|]. rewrite H1. cbn [mbind option_bind].
  destruct (land_word v1 (createConst (Z.shiftl (2 ^ count - 1) off) type) Ho1 (const_operand _)) as (v2 & H2 & _); [by left|].
  rewrite H2. cbn [mbind option_bind].
  destruct (land_word (mkValue base e) (createConst (Z.lnot (Z.shiftl (2 ^ count - 1) off)) type) Hso (const_operand _))
    as (v3 & H3 & Ho3 & Hk3 & Hw3); [by right|]. rewrite H3. cbn [mbind option_bind].
  destruct (lor_word v1 v3 Ho1 Ho3) as (v4 & H4 & Ho4 & Hk4 & Hw4); [by left|]. rewrite H4. cbn [mbind option_bind].
  destruct (cast_back v4 Ho4 Hk4) as (Hok & Hkk & Hw & _). eexists. split; [done|]. split; [done|].
  intros j Hj. rewrite Hw, Z.mod_pow2_bits_low, Hw4, Z.lor_spec by lia.
  rewrite !word_of_type by (done || apply Ho1 || apply Ho3). rewrite Hw1, Hw3, Z.land_spec, operand_word_const.
  rewrite !Z.mod_pow2_bits_low, Z.lnot_spec, mask_bit, Z.shiftl_spec by lia. unfold merged_bit.
  rewrite (base_operand_bit _ j) by done. rewrite (andb_comm (Z.testbit _ j)). f_equal.
  destruct (Z.leb_spec off j) as [H|H]; cbn [andb]; [by rewrite base_operand_bit by (done || lia)|].
  by apply Z.testbit_neg_r; lia.
Qed.

(** Loading a field depends on its bits only. *)
Lemma field_value_ext count a b : 0 < count → (∀ i, 0 ≤ i < count → Z.testbit a i = Z.testbit b i) →
  field_value count a = field_value count b.
Proof.
  intros Hc H. unfold field_value. assert (a mod 2 ^ count = b mod 2 ^ count) as ->; [|done].
  apply Z.bits_inj'. intros i Hi. destruct (decide (i < count)).
  - rewrite !Z.mod_pow2_bits_low by lia. by apply H.
  - by rewrite !Z.mod_pow2_bits_high by lia.
Qed.

(** The integers a field of [count] bits can hold. *)
Definition field_fits (count z : Z) : Prop :=
  if isUnsigned base then 0 ≤ z < 2 ^ count else - 2 ^ (count - 1) ≤ z < 2 ^ (count - 1).

Lemma field_value_fits count z : 0 < count → field_fits count z → field_value count z = z.
Proof.
  intros Hc. unfold field_fits, field_value. destruct (isUnsigned base); cbn [negb andb]; [apply Z.mod_small|].
  intros Hz. assert (Hpc : 2 ^ count = 2 * 2 ^ (count - 1)).
  { replace count with (1 + (count - 1)) at 1 by lia. rewrite Z.pow_add_r by lia. lia. }
  assert (Htop : ∀ u, 0 ≤ u < 2 ^ count → Z.testbit u (count - 1) = (2 ^ (count - 1) <=? u)).
  { intros u Hu. apply eq_true_iff_eq. rewrite Z.testbit_true, Z.leb_le by lia.
    assert (Hd : 0 ≤ u / 2 ^ (count - 1) < 2).
    { split; [apply Z.div_pos; lia|]. apply Z.div_lt_upper_bound; lia. }
    pose proof (Z.div_mod u (2 ^ (count - 1)) ltac:(lia)) as Hdm.
    pose proof (Z.mod_pos_bound u (2 ^ (count - 1)) ltac:(lia)) as Hm.
    assert (u / 2 ^ (count - 1) = 0 ∨ u / 2 ^ (count - 1) = 1) as [He|He] by lia; rewrite He in Hdm |- *; (split; intros H; [try discriminate H|]); try reflexivity; lia. }
  rewrite Htop by (apply Z.mod_pos_bound; lia). destruct (decide (0 ≤ z)).
  - rewrite Z.mod_small by lia. by rewrite (proj2 (Z.leb_gt _ _)) by lia.
  - rewrite <- (Z_mod_plus_full z 1), Z.mod_small by lia. rewrite (proj2 (Z.leb_le _ _)) by lia. lia.
Qed.

Lemma field_value_word v count : base_value v → 0 < count ≤ bits base →
  field_value count (word v) = field_value count (intValue v).
Proof.
  intros [Hv Hk] Hc. unfold field_value. by rewrite <- (intValue_mod v) by (rewrite Hk; lia).
Qed.
End field.

(** ** The properties *)

(** C21: A bit field that is stored is loaded back. For every field the layout can give, of at most the bits of its type:
    if it has less than 64 bits, the integer loaded is the low bits of the one stored, extended by the type, so that an
    integer that fits the field comes back unchanged, wherever the field is in its word and whatever the word was. A field
    of 64 bits, which the layout of a struct accepts, can neither be stored nor loaded: its mask is 1 shifted by 64, which is
    not defined. *)
Theorem bitfield_roundtrip base v s off count : isFieldKind base = true →
  base_value base v → base_value base s → 0 ≤ off → 0 < count → off + count ≤ bits base →
  (count < 64 → ∃ m r, mergeBitField v s base off count = Some m ∧ extractBitField m base off count = Some r ∧
    base_value base r ∧ intValue r = field_value base count (intValue v) ∧
    (field_fits base count (intValue v) → intValue r = intValue v)) ∧
  (count = 64 → mergeBitField v s base off count = None ∧ extractBitField s base off count = None).
Proof.
  intros Hb Hv Hs Hoff Hc Hr. split; [intros Hc64|intros ->; split; [|done]].
  2:{ unfold mergeBitField. by destruct v, s. }
  destruct (merge_lemma base Hb v s off count Hv Hs Hoff Hc Hc64 Hr) as (m & Hm & Hmv & Hbit).
  destruct (extract_lemma base Hb m off count Hmv Hoff Hc Hc64 Hr) as (r & He & Hrv & Hi).
  assert (Heq : intValue r = field_value base count (intValue v)).
  { rewrite Hi, <- field_value_word by (done || lia). apply field_value_ext; [done|]. intros i Hii.
    rewrite Z.shiftr_spec, Hbit by lia. unfold merged_bit, in_field.
    rewrite (proj2 (Z.leb_le off (i + off))), (proj2 (Z.ltb_lt (i + off) _)) by lia. cbn [andb negb].
    rewrite orb_false_r. f_equal. lia. }
  exists m, r. split; [done|]. split; [done|]. split; [done|]. split; [done|].
  intros Hf. rewrite Heq. by apply field_value_fits.
Qed.

(** Six bits of a 16-bit word; all the bits of a 64-bit one. *)
Lemma bitfield_roundtrip_witness :
  (∃ m r, mergeBitField (createConst (-5) TypeKind_Int16) (createConst 12345 TypeKind_Int16) TypeKind_Int16 3 6 = Some m ∧
    extractBitField m TypeKind_Int16 3 6 = Some r ∧ intValue r = -5) ∧
  mergeBitField (createConst (-5) TypeKind_Int64) (createConst 0 TypeKind_Int64) TypeKind_Int64 0 64 = None.
Proof.
  split.
  - destruct (bitfield_roundtrip TypeKind_Int16 (createConst (-5) TypeKind_Int16) (createConst 12345 TypeKind_Int16) 3 6)
      as [ (m & r & Hm & He & _ & _ & Hf) _]; try done.
    exists m, r. split; [done|]. split; [done|]. rewrite Hf; [done|]. by vm_compute.
  - by apply (bitfield_roundtrip TypeKind_Int64 (createConst (-5) TypeKind_Int64) (createConst 0 TypeKind_Int64) 0 64).
Defined.

(** what a store does to another field of the same word: a field below is left
    unchanged; a field above has the bits of the stored integer beyond the field
    or-ed to it, for the store does not use the masked integer, and is unchanged
    when there are none. *)
Theorem bitfield_neighbours base v s off count off2 count2 : isFieldKind base = true →
  base_value base v → base_value base s → 0 ≤ off → 0 < count → count < 64 → off + count ≤ bits base →
  0 ≤ off2 → 0 < count2 → count2 < 64 → off2 + count2 ≤ bits base →
  ∃ m r r0, mergeBitField v s base off count = Some m ∧
    extractBitField m base off2 count2 = Some r ∧ extractBitField s base off2 count2 = Some r0 ∧
    (off2 + count2 ≤ off → intValue r = intValue r0) ∧
    (off + count ≤ off2 →
      intValue r = field_value base count2 (Z.lor (Z.shiftr (word v) (off2 - off)) (Z.shiftr (word s) off2)) ∧
      (word v < 2 ^ count → intValue r = intValue r0)).
Proof.
  intros Hb Hv Hs Hoff Hc Hc64 Hr Hoff2 Hc2 Hc264 Hr2.
  destruct (merge_lemma base Hb v s off count Hv Hs Hoff Hc Hc64 Hr) as (m & Hm & Hmv & Hbit).
  destruct (extract_lemma base Hb m off2 count2 Hmv Hoff2 Hc2 Hc264 Hr2) as (r & He & _ & Hi).
  destruct (extract_lemma base Hb s off2 count2 Hs Hoff2 Hc2 Hc264 Hr2) as (r0 & He0 & _ & Hi0).
  exists m, r, r0. split; [done|]. split; [done|]. split; [done|]. rewrite Hi, Hi0. split.
  - intros Hlow. apply field_value_ext; [done|]. intros i Hii. rewrite !Z.shiftr_spec, Hbit by lia.
    unfold merged_bit, in_field. by rewrite (proj2 (Z.leb_gt off (i + off2))) by lia.
  - intros Hhigh.
    assert (Heq : ∀ i, 0 ≤ i < count2 → Z.testbit (Z.shiftr (word m) off2) i =
        Z.testbit (Z.lor (Z.shiftr (word v) (off2 - off)) (Z.shiftr (word s) off2)) i).
    { intros i Hii. rewrite Z.lor_spec, !Z.shiftr_spec, Hbit by lia. unfold merged_bit, in_field.
      rewrite (proj2 (Z.leb_le off (i + off2))), (proj2 (Z.ltb_ge (i + off2) _)) by lia. cbn [andb negb].
      f_equal. f_equal. lia. }
    split; [by apply field_value_ext|]. intros Hlt. apply field_value_ext; [done|]. intros i Hii.
    rewrite Heq, Z.lor_spec by done. destruct Hv as [Hv Hk]. pose proof (word_range v Hv).
    rewrite (Z.shiftr_spec (word v)) by lia.
    by rewrite <- (Z.mod_small (word v) (2 ^ count)), Z.mod_pow2_bits_high by lia.
Qed.

(** Storing -1 in the low half of a byte makes the high half, which held 5, -1. *)
Lemma bitfield_neighbours_witness :
  ∃ m r r0, mergeBitField (createConst (-1) TypeKind_Int8) (createConst 80 TypeKind_Int8) TypeKind_Int8 0 4 = Some m ∧
    extractBitField m TypeKind_Int8 4 4 = Some r ∧
    extractBitField (createConst 80 TypeKind_Int8) TypeKind_Int8 4 4 = Some r0 ∧ intValue r = -1 ∧ intValue r0 = 5.
Proof.
  destruct (bitfield_neighbours TypeKind_Int8 (createConst (-1) TypeKind_Int8) (createConst 80 TypeKind_Int8) 0 4 4 4)
    as (m & r & r0 & Hm & He & He0 & _ & Hh); try done.
  exists m, r, r0. split; [done|]. split; [done|]. split; [done|]. destruct Hh as [Hh _]; [lia|].
  split; [rewrite Hh; by vm_compute|].
  vm_compute in He0. injection He0 as <-. by vm_compute.
Defined.
