(* ===== verification/StructLayout.v ===== *)
(** * Layout of structs, unions and arrays

    Models [StructType::calcLayoutTo] and what it calls
    ([src/src/jnc_ct/jnc_ct_TypeMgr/jnc_ct_StructType.cpp]), [UnionType::calcLayout]
    ([jnc_ct_UnionType.cpp]) and [ArrayType::calcLayout] ([jnc_ct_ArrayType.cpp]):
    the offsets of base types and fields, the packing of bit fields, the elements
    of the packed LLVM struct, and the sets of fields to construct and to mark.

    Sizes are [size_t], arithmetic wraps. The lookup of names, attributes, default
    methods, operator tables and static variables are results the layout is
    given. *)

From S2P Require Import Prelude.

Open Scope N_scope.

(** [sl::align] of the library axl. *)
Class Axl := { sl_align : N → N → N }.

(** It rounds up to a multiple of a power of two. *)
Definition isPowerOf2 (a : N) : Prop := ∃ k, a = 2 ^ k.

Class AxlLaws (A : Axl) : Prop := {
  sl_align_law n a : isPowerOf2 a → n + a ≤ size_mod → sl_align n a = (n + a - 1) / a * a
}.

(** ** Types *)

Definition TypeFlag_LayoutReady : N := 0x80.
Definition TypeFlag_Pod : N := 0x100.
Definition TypeFlag_GcRoot : N := 0x200.
Definition TypeFlag_StructRet : N := 0x400.
Definition TypeFlag_NoStack : N := 0x1000.
Definition PtrTypeFlag_BigEndian : N := 0x10000000.
Definition PtrTypeFlag_BitField : N := 0x20000000.
Definition PtrTypeFlag_ThinThis : N := 0x40000000.
Definition TypeSizeLimit_StackAllocSize : N := 128.

(** Whether a flag is set. *)
Definition has_flag (flag flags : N) : bool := negb (N.land flags flag =? 0).

(** What the layout asks of the type of a field or of a base type; two types are
    equal when their signatures are. *)
Record type := mkType {
  t_signature : N; t_size : N; t_alignment : N; t_flags : N;
  t_isClass : bool; t_isDerivable : bool; t_isConstructible : bool; t_hasConstructor : bool;
  t_constructorThinThisFlag : N;
  (** the result of [ensureLayout] *)
  t_ensureLayout : bool
}.

Definition isEqual (t1 t2 : type) : bool := t_signature t1 =? t_signature t2.

Inductive StructTypeKind :=
  | StructTypeKind_Normal | StructTypeKind_Adapter | StructTypeKind_AbstractData
  | StructTypeKind_IfaceStruct | StructTypeKind_ClassStruct | StructTypeKind_UnionStruct.

#[export] Instance StructTypeKind_eq_dec : EqDecision StructTypeKind.
Proof. solve_decision. Defined.

(** An element of the LLVM struct: a field or padding. *)
Inductive LlvmType := LlvmOf (t : type) | LlvmCharArray (size : N).

(** [Field]; [f_isOwn]: its namespace is the struct, so it is not a field of a property. *)
Record Field := mkField {
  f_type : type;
  f_offset : N;
  f_bitOffset : N;
  f_bitCount : N;
  f_ptrTypeFlags : N;
  f_llvmIndex : option nat;
  f_layoutReady : bool;
  f_isOwn : bool;
  f_hasInitializer : bool;
  f_ensureAttributeValuesReady : bool
}.

Definition set_fieldType (v : type) (s : Field) : Field :=
  mkField v (f_offset s) (f_bitOffset s) (f_bitCount s) (f_ptrTypeFlags s) (f_llvmIndex s) (f_layoutReady s) (f_isOwn s) (f_hasInitializer s) (f_ensureAttributeValuesReady s).
Definition set_offset (v : N) (s : Field) : Field :=
  mkField (f_type s) v (f_bitOffset s) (f_bitCount s) (f_ptrTypeFlags s) (f_llvmIndex s) (f_layoutReady s) (f_isOwn s) (f_hasInitializer s) (f_ensureAttributeValuesReady s).
Definition set_bitOffset (v : N) (s : Field) : Field :=
  mkField (f_type s) (f_offset s) v (f_bitCount s) (f_ptrTypeFlags s) (f_llvmIndex s) (f_layoutReady s) (f_isOwn s) (f_hasInitializer s) (f_ensureAttributeValuesReady s).
Definition set_bitCount (v : N) (s : Field) : Field :=
  mkField (f_type s) (f_offset s) (f_bitOffset s) v (f_ptrTypeFlags s) (f_llvmIndex s) (f_layoutReady s) (f_isOwn s) (f_hasInitializer s) (f_ensureAttributeValuesReady s).
Definition set_ptrTypeFlags (v : N) (s : Field) : Field :=
  mkField (f_type s) (f_offset s) (f_bitOffset s) (f_bitCount s) v (f_llvmIndex s) (f_layoutReady s) (f_isOwn s) (f_hasInitializer s) (f_ensureAttributeValuesReady s).
Definition set_llvmIndex (v : option nat) (s : Field) : Field :=
  mkField (f_type s) (f_offset s) (f_bitOffset s) (f_bitCount s) (f_ptrTypeFlags s) v (f_layoutReady s) (f_isOwn s) (f_hasInitializer s) (f_ensureAttributeValuesReady s).
Definition set_layoutReady (v : bool) (s : Field) : Field :=
  mkField (f_type s) (f_offset s) (f_bitOffset s) (f_bitCount s) (f_ptrTypeFlags s) (f_llvmIndex s) v (f_isOwn s) (f_hasInitializer s) (f_ensureAttributeValuesReady s).
Definition set_isOwn (v : bool) (s : Field) : Field :=
  mkField (f_type s) (f_offset s) (f_bitOffset s) (f_bitCount s) (f_ptrTypeFlags s) (f_llvmIndex s) (f_layoutReady s) v (f_hasInitializer s) (f_ensureAttributeValuesReady s).
Definition set_hasInitializer (v : bool) (s : Field) : Field :=
  mkField (f_type s) (f_offset s) (f_bitOffset s) (f_bitCount s) (f_ptrTypeFlags s) (f_llvmIndex s) (f_layoutReady s) (f_isOwn s) v (f_ensureAttributeValuesReady s).
Definition set_ensureAttributeValuesReady (v : bool) (s : Field) : Field :=
  mkField (f_type s) (f_offset s) (f_bitOffset s) (f_bitCount s) (f_ptrTypeFlags s) (f_llvmIndex s) (f_layoutReady s) (f_isOwn s) (f_hasInitializer s) v.

(** [BaseTypeSlot] *)
Record BaseTypeSlot := mkSlot {
  b_type : type;
  b_slotOffset : N;
  b_slotLlvmIndex : option nat
}.

Definition set_slotType (v : type) (s : BaseTypeSlot) : BaseTypeSlot :=
  mkSlot v (b_slotOffset s) (b_slotLlvmIndex s).
Definition set_slotOffset (v : N) (s : BaseTypeSlot) : BaseTypeSlot :=
  mkSlot (b_type s) v (b_slotLlvmIndex s).
Definition set_slotLlvmIndex (v : option nat) (s : BaseTypeSlot) : BaseTypeSlot :=
  mkSlot (b_type s) (b_slotOffset s) v.

(** What a module knows of an opaque class. *)
Record OpaqueClassTypeInfo := mkOpaque { i_size : N; i_markOpaqueGcRootsFunc : bool; i_isNonCreatable : bool }.

(** [StructType]; [m_baseTypeMap] is the signatures of the base types, indexes stand
    for pointers to fields and slots, [m_llvmBody] is what [setBody] gets, and
    [m_parentClass] the flags and the opaque type info of the class of an interface struct. *)
Record StructType := mkStruct {
  m_structTypeKind : StructTypeKind;
  m_fieldAlignment : N;
  m_fieldSize : N;
  m_size : N;
  m_alignment : N;
  m_flags : N;
  m_laidOutFieldCount : nat;
  m_fieldArray : list Field;
  m_baseTypeList : list BaseTypeSlot;
  m_baseTypeMap : list N;
  m_llvmFieldTypeArray : list LlvmType;
  m_lastBitField : option nat;
  m_gcRootBaseTypeArray : list nat;
  m_baseTypeConstructArray : list nat;
  m_gcRootFieldArray : list nat;
  m_fieldInitializeArray : list nat;
  m_constructorThinThisFlag : N;
  m_llvmBody : option (list LlvmType);
  m_parentClass : option (N * option OpaqueClassTypeInfo)
}.

Definition set_structTypeKind (v : StructTypeKind) (s : StructType) : StructType :=
  mkStruct v (m_fieldAlignment s) (m_fieldSize s) (m_size s) (m_alignment s) (m_flags s) (m_laidOutFieldCount s) (m_fieldArray s) (m_baseTypeList s) (m_baseTypeMap s) (m_llvmFieldTypeArray s) (m_lastBitField s) (m_gcRootBaseTypeArray s) (m_baseTypeConstructArray s) (m_gcRootFieldArray s) (m_fieldInitializeArray s) (m_constructorThinThisFlag s) (m_llvmBody s) (m_parentClass s).
Definition set_fieldAlignment (v : N) (s : StructType) : StructType :=
  mkStruct (m_structTypeKind s) v (m_fieldSize s) (m_size s) (m_alignment s) (m_flags s) (m_laidOutFieldCount s) (m_fieldArray s) (m_baseTypeList s) (m_baseTypeMap s) (m_llvmFieldTypeArray s) (m_lastBitField s) (m_gcRootBaseTypeArray s) (m_baseTypeConstructArray s) (m_gcRootFieldArray s) (m_fieldInitializeArray s) (m_constructorThinThisFlag s) (m_llvmBody s) (m_parentClass s).
Definition set_fieldSize (v : N) (s : StructType) : StructType :=
  mkStruct (m_structTypeKind s) (m_fieldAlignment s) v (m_size s) (m_alignment s) (m_flags s) (m_laidOutFieldCount s) (m_fieldArray s) (m_baseTypeList s) (m_baseTypeMap s) (m_llvmFieldTypeArray s) (m_lastBitField s) (m_gcRootBaseTypeArray s) (m_baseTypeConstructArray s) (m_gcRootFieldArray s) (m_fieldInitializeArray s) (m_constructorThinThisFlag s) (m_llvmBody s) (m_parentClass s).
Definition set_size (v : N) (s : StructType) : StructType :=
  mkStruct (m_structTypeKind s) (m_fieldAlignment s) (m_fieldSize s) v (m_alignment s) (m_flags s) (m_laidOutFieldCount s) (m_fieldArray s) (m_baseTypeList s) (m_baseTypeMap s) (m_llvmFieldTypeArray s) (m_lastBitField s) (m_gcRootBaseTypeArray s) (m_baseTypeConstructArray s) (m_gcRootFieldArray s) (m_fieldInitializeArray s) (m_constructorThinThisFlag s) (m_llvmBody s) (m_parentClass s).
Definition set_alignment (v : N) (s : StructType) : StructType :=
  mkStruct (m_structTypeKind s) (m_fieldAlignment s) (m_fieldSize s) (m_size s) v (m_flags s) (m_laidOutFieldCount s) (m_fieldArray s) (m_baseTypeList s) (m_baseTypeMap s) (m_llvmFieldTypeArray s) (m_lastBitField s) (m_gcRootBaseTypeArray s) (m_baseTypeConstructArray s) (m_gcRootFieldArray s) (m_fieldInitializeArray s) (m_constructorThinThisFlag s) (m_llvmBody s) (m_parentClass s).
Definition set_flags (v : N) (s : StructType) : StructType :=
  mkStruct (m_structTypeKind s) (m_fieldAlignment s) (m_fieldSize s) (m_size s) (m_alignment s) v (m_laidOutFieldCount s) (m_fieldArray s) (m_baseTypeList s) (m_baseTypeMap s) (m_llvmFieldTypeArray s) (m_lastBitField s) (m_gcRootBaseTypeArray s) (m_baseTypeConstructArray s) (m_gcRootFieldArray s) (m_fieldInitializeArray s) (m_constructorThinThisFlag s) (m_llvmBody s) (m_parentClass s).
Definition set_laidOutFieldCount (v : nat) (s : StructType) : StructType :=
  mkStruct (m_structTypeKind s) (m_fieldAlignment s) (m_fieldSize s) (m_size s) (m_alignment s) (m_flags s) v (m_fieldArray s) (m_baseTypeList s) (m_baseTypeMap s) (m_llvmFieldTypeArray s) (m_lastBitField s) (m_gcRootBaseTypeArray s) (m_baseTypeConstructArray s) (m_gcRootFieldArray s) (m_fieldInitializeArray s) (m_constructorThinThisFlag s) (m_llvmBody s) (m_parentClass s).
Definition set_fieldArray (v : list Field) (s : StructType) : StructType :=
  mkStruct (m_structTypeKind s) (m_fieldAlignment s) (m_fieldSize s) (m_size s) (m_alignment s) (m_flags s) (m_laidOutFieldCount s) v (m_baseTypeList s) (m_baseTypeMap s) (m_llvmFieldTypeArray s) (m_lastBitField s) (m_gcRootBaseTypeArray s) (m_baseTypeConstructArray s) (m_gcRootFieldArray s) (m_fieldInitializeArray s) (m_constructorThinThisFlag s) (m_llvmBody s) (m_parentClass s).
Definition set_baseTypeList (v : list BaseTypeSlot) (s : StructType) : StructType :=
  mkStruct (m_structTypeKind s) (m_fieldAlignment s) (m_fieldSize s) (m_size s) (m_alignment s) (m_flags s) (m_laidOutFieldCount s) (m_fieldArray s) v (m_baseTypeMap s) (m_llvmFieldTypeArray s) (m_lastBitField s) (m_gcRootBaseTypeArray s) (m_baseTypeConstructArray s) (m_gcRootFieldArray s) (m_fieldInitializeArray s) (m_constructorThinThisFlag s) (m_llvmBody s) (m_parentClass s).
Definition set_baseTypeMap (v : list N) (s : StructType) : StructType :=
  mkStruct (m_structTypeKind s) (m_fieldAlignment s) (m_fieldSize s) (m_size s) (m_alignment s) (m_flags s) (m_laidOutFieldCount s) (m_fieldArray s) (m_baseTypeList s) v (m_llvmFieldTypeArray s) (m_lastBitField s) (m_gcRootBaseTypeArray s) (m_baseTypeConstructArray s) (m_gcRootFieldArray s) (m_fieldInitializeArray s) (m_constructorThinThisFlag s) (m_llvmBody s) (m_parentClass s).
Definition set_llvmFieldTypeArray (v : list LlvmType) (s : StructType) : StructType :=
  mkStruct (m_structTypeKind s) (m_fieldAlignment s) (m_fieldSize s) (m_size s) (m_alignment s) (m_flags s) (m_laidOutFieldCount s) (m_fieldArray s) (m_baseTypeList s) (m_baseTypeMap s) v (m_lastBitField s) (m_gcRootBaseTypeArray s) (m_baseTypeConstructArray s) (m_gcRootFieldArray s) (m_fieldInitializeArray s) (m_constructorThinThisFlag s) (m_llvmBody s) (m_parentClass s).
Definition set_lastBitField (v : option nat) (s : StructType) : StructType :=
  mkStruct (m_structTypeKind s) (m_fieldAlignment s) (m_fieldSize s) (m_size s) (m_alignment s) (m_flags s) (m_laidOutFieldCount s) (m_fieldArray s) (m_baseTypeList s) (m_baseTypeMap s) (m_llvmFieldTypeArray s) v (m_gcRootBaseTypeArray s) (m_baseTypeConstructArray s) (m_gcRootFieldArray s) (m_fieldInitializeArray s) (m_constructorThinThisFlag s) (m_llvmBody s) (m_parentClass s).
Definition set_gcRootBaseTypeArray (v : list nat) (s : StructType) : StructType :=
  mkStruct (m_structTypeKind s) (m_fieldAlignment s) (m_fieldSize s) (m_size s) (m_alignment s) (m_flags s) (m_laidOutFieldCount s) (m_fieldArray s) (m_baseTypeList s) (m_baseTypeMap s) (m_llvmFieldTypeArray s) (m_lastBitField s) v (m_baseTypeConstructArray s) (m_gcRootFieldArray s) (m_fieldInitializeArray s) (m_constructorThinThisFlag s) (m_llvmBody s) (m_parentClass s).
Definition set_baseTypeConstructArray (v : list nat) (s : StructType) : StructType :=
  mkStruct (m_structTypeKind s) (m_fieldAlignment s) (m_fieldSize s) (m_size s) (m_alignment s) (m_flags s) (m_laidOutFieldCount s) (m_fieldArray s) (m_baseTypeList s) (m_baseTypeMap s) (m_llvmFieldTypeArray s) (m_lastBitField s) (m_gcRootBaseTypeArray s) v (m_gcRootFieldArray s) (m_fieldInitializeArray s) (m_constructorThinThisFlag s) (m_llvmBody s) (m_parentClass s).
Definition set_gcRootFieldArray (v : list nat) (s : StructType) : StructType :=
  mkStruct (m_structTypeKind s) (m_fieldAlignment s) (m_fieldSize s) (m_size s) (m_alignment s) (m_flags s) (m_laidOutFieldCount s) (m_fieldArray s) (m_baseTypeList s) (m_baseTypeMap s) (m_llvmFieldTypeArray s) (m_lastBitField s) (m_gcRootBaseTypeArray s) (m_baseTypeConstructArray s) v (m_fieldInitializeArray s) (m_constructorThinThisFlag s) (m_llvmBody s) (m_parentClass s).
Definition set_fieldInitializeArray (v : list nat) (s : StructType) : StructType :=
  mkStruct (m_structTypeKind s) (m_fieldAlignment s) (m_fieldSize s) (m_size s) (m_alignment s) (m_flags s) (m_laidOutFieldCount s) (m_fieldArray s) (m_baseTypeList s) (m_baseTypeMap s) (m_llvmFieldTypeArray s) (m_lastBitField s) (m_gcRootBaseTypeArray s) (m_baseTypeConstructArray s) (m_gcRootFieldArray s) v (m_constructorThinThisFlag s) (m_llvmBody s) (m_parentClass s).
Definition set_constructorThinThisFlag (v : N) (s : StructType) : StructType :=
  mkStruct (m_structTypeKind s) (m_fieldAlignment s) (m_fieldSize s) (m_size s) (m_alignment s) (m_flags s) (m_laidOutFieldCount s) (m_fieldArray s) (m_baseTypeList s) (m_baseTypeMap s) (m_llvmFieldTypeArray s) (m_lastBitField s) (m_gcRootBaseTypeArray s) (m_baseTypeConstructArray s) (m_gcRootFieldArray s) (m_fieldInitializeArray s) v (m_llvmBody s) (m_parentClass s).
Definition set_llvmBody (v : option (list LlvmType)) (s : StructType) : StructType :=
  mkStruct (m_structTypeKind s) (m_fieldAlignment s) (m_fieldSize s) (m_size s) (m_alignment s) (m_flags s) (m_laidOutFieldCount s) (m_fieldArray s) (m_baseTypeList s) (m_baseTypeMap s) (m_llvmFieldTypeArray s) (m_lastBitField s) (m_gcRootBaseTypeArray s) (m_baseTypeConstructArray s) (m_gcRootFieldArray s) (m_fieldInitializeArray s) (m_constructorThinThisFlag s) v (m_parentClass s).
Definition set_parentClass (v : option (N * option OpaqueClassTypeInfo)) (s : StructType) : StructType :=
  mkStruct (m_structTypeKind s) (m_fieldAlignment s) (m_fieldSize s) (m_size s) (m_alignment s) (m_flags s) (m_laidOutFieldCount s) (m_fieldArray s) (m_baseTypeList s) (m_baseTypeMap s) (m_llvmFieldTypeArray s) (m_lastBitField s) (m_gcRootBaseTypeArray s) (m_baseTypeConstructArray s) (m_gcRootFieldArray s) (m_fieldInitializeArray s) (m_constructorThinThisFlag s) (m_llvmBody s) v.

(** ** Errors and state *)

Inductive LayoutError :=
  | NotReady | NotABaseType | AlreadyABaseType | ClassMember | BitFieldTooSmall
  | PropertyDestructor | DefaultMethods | OpaqueInfoMissing | OpaqueSize | AssertFailed.

(** An operation on the struct: it may fail, and leaves a struct when it does. *)
Definition M (A : Type) : Type := StructType → (A + LayoutError) * StructType.

#[export] Instance M_ret : MRet M := λ A x s, (inl x, s).
#[export] Instance M_bind : MBind M := λ A B f m s,
  match m s with
  | (inl x, s) => f x s
  | (inr e, s) => (inr e, s)
  end.

Definition fail {A} (e : LayoutError) : M A := λ s, (inr e, s).
Definition get {A} (f : StructType → A) : M A := λ s, (inl (f s), s).
Definition modify (f : StructType → StructType) : M unit := λ s, (inl tt, f s).
Definition when (b : bool) (m : M unit) : M unit := if b then m else mret tt.
Definition check (b : bool) (e : LayoutError) : M unit := if b then mret tt else fail e.

Definition get_field (i : nat) : M Field := λ s,
  match m_fieldArray s !! i with Some f => (inl f, s) | None => (inr AssertFailed, s) end.
Definition get_slot (i : nat) : M BaseTypeSlot := λ s,
  match m_baseTypeList s !! i with Some b => (inl b, s) | None => (inr AssertFailed, s) end.

Definition upd_field (i : nat) (f : Field → Field) : M unit :=
  modify (λ s, set_fieldArray (alter f i (m_fieldArray s)) s).
Definition upd_slot (i : nat) (f : BaseTypeSlot → BaseTypeSlot) : M unit :=
  modify (λ s, set_baseTypeList (alter f i (m_baseTypeList s)) s).
Definition or_flags (flags : N) : M unit := modify (λ s, set_flags (N.lor (m_flags s) flags) s).
Definition and_thin (flag : N) : M unit :=
  modify (λ s, set_constructorThinThisFlag (N.land (m_constructorThinThisFlag s) flag) s).

(** What the rest of the compiler answers. *)
Record env := mkEnv {
  e_hasCodeGen : bool;
  e_ensureNamespaceReady : bool;
  e_ensureAttributeValuesReady : bool;
  (** [m_propertyDestructArray] is empty, [createDefaultMethods] succeeds *)
  e_noPropertyDestruct : bool;
  e_createDefaultMethods : bool;
  e_adapterOriginType : option type;
  e_ignoreOpaque : bool
}.

Section layout.
Context `{Axl} (E : env).

(** ** Fields *)

Definition getFieldOffset (t : type) : M N :=
  fieldAlignment ← get m_fieldAlignment;
  let alignment := if fieldAlignment <? t_alignment t then fieldAlignment else t_alignment t in
  old ← get m_alignment;
  _ ← when (old <? alignment) (modify (set_alignment alignment));
  fieldSize ← get m_fieldSize;
  mret (sl_align fieldSize alignment).

Definition append_llvm (t : LlvmType) : M unit :=
  modify (λ s, set_llvmFieldTypeArray (m_llvmFieldTypeArray s ++ [t]) s).

Definition addLlvmPadding (size : N) : M unit := append_llvm (LlvmCharArray size).

(** The part that places a unit of type [t] at [offset], shared by
    [layoutFieldImpl] and [layoutBitField]: the LLVM index, if there is one. *)
Definition place (t : type) (offset : N) : M (option nat) :=
  llvmIndex ←
    (if e_hasCodeGen E then
       fieldSize ← get m_fieldSize;
       _ ← when (fieldSize <? offset) (addLlvmPadding (sub64 offset fieldSize));
       count ← get (λ s, length (m_llvmFieldTypeArray s));
       _ ← append_llvm (LlvmOf t);
       mret (Some count)
     else mret None);
  _ ← modify (set_fieldSize (add64 offset (t_size t)));
  mret llvmIndex.

(** An index is stored when there is one. *)
Definition or_index (new old : option nat) : option nat := match new with Some i => Some i | None => old end.

Definition layoutFieldImpl (t : type) : M (N * option nat) :=
  offset ← getFieldOffset t;
  llvmIndex ← place t offset;
  _ ← modify (set_lastBitField None);
  mret (offset, llvmIndex).

(** The bit offset, and whether the field goes to the unit of the last one. *)
Definition bit_place (last : option Field) (field : Field) : N * bool :=
  let baseBitCount := mul64 (t_size (f_type field)) 8 in
  let bitCount := f_bitCount field in
  let isMerged := match last with Some l => isEqual (f_type l) (f_type field) | None => false end in
  if has_flag PtrTypeFlag_BigEndian (f_ptrTypeFlags field) then
    match last, isMerged with
    | Some l, true =>
      let lastBitOffset := f_bitOffset l in
      let isMerged := bitCount <=? lastBitOffset in
      (if isMerged then sub64 lastBitOffset bitCount else sub64 baseBitCount bitCount, isMerged)
    | _, _ => (sub64 baseBitCount bitCount, false)
    end
  else
    match last, isMerged with
    | Some l, true =>
      let lastBitOffset := (f_bitOffset l + f_bitCount l) mod 2 ^ 32 in
      let isMerged := add64 lastBitOffset bitCount <=? baseBitCount in
      (if isMerged then lastBitOffset else 0, isMerged)
    | _, _ => (0, false)
    end.

Definition layoutBitField (i : nat) : M unit :=
  field ← get_field i;
  let baseBitCount := mul64 (t_size (f_type field)) 8 in
  _ ← check (negb (baseBitCount <? f_bitCount field)) BitFieldTooSmall;
  last ← get (λ s, k ← m_lastBitField s; m_fieldArray s !! k);
  let '(bitOffset, isMerged) := bit_place last field in
  _ ← upd_field i (set_bitOffset (bitOffset mod 2 ^ 32));
  _ ← upd_field i (λ f, set_ptrTypeFlags (N.lor (f_ptrTypeFlags f) PtrTypeFlag_BitField) f);
  match last, isMerged with
  | Some l, true =>
    _ ← upd_field i (set_offset (f_offset l));
    _ ← upd_field i (set_llvmIndex (f_llvmIndex l));
    modify (set_lastBitField (Some i))
  | _, _ =>
    offset ← getFieldOffset (f_type field);
    _ ← upd_field i (set_offset offset);
    llvmIndex ← place (f_type field) offset;
    _ ← upd_field i (λ f, set_llvmIndex (or_index llvmIndex (f_llvmIndex f)) f);
    modify (set_lastBitField (Some i))
  end.

Definition layoutField (i : nat) : M unit :=
  field ← get_field i;
  _ ← check (negb (f_layoutReady field)) AssertFailed;
  _ ← check (f_ensureAttributeValuesReady field && t_ensureLayout (f_type field)) NotReady;
  kind ← get m_structTypeKind;
  _ ← check (bool_decide (kind = StructTypeKind_IfaceStruct) || negb (t_isClass (f_type field))) ClassMember;
  _ ← (if negb (f_bitCount field =? 0) then layoutBitField i
       else
         '(offset, llvmIndex) ← layoutFieldImpl (f_type field);
         _ ← upd_field i (set_offset offset);
         upd_field i (λ f, set_llvmIndex (or_index llvmIndex (f_llvmIndex f)) f));
  upd_field i (set_layoutReady true).

Definition layoutBaseType (i : nat) : M unit :=
  slot ← get_slot i;
  let t := b_type slot in
  _ ← check (t_ensureLayout t) NotReady;
  _ ← check (t_isDerivable t && negb (t_isClass t)) NotABaseType;
  map ← get m_baseTypeMap;
  _ ← check (negb (bool_decide (t_signature t ∈ map))) AlreadyABaseType;
  _ ← modify (set_baseTypeMap (t_signature t :: map));
  _ ← when (has_flag TypeFlag_GcRoot (t_flags t))
        (_ ← modify (λ s, set_gcRootBaseTypeArray (m_gcRootBaseTypeArray s ++ [i]) s);
         or_flags TypeFlag_GcRoot);
  _ ← when (t_hasConstructor t)
        (_ ← modify (λ s, set_baseTypeConstructArray (m_baseTypeConstructArray s ++ [i]) s);
         and_thin (t_constructorThinThisFlag t));
  '(offset, llvmIndex) ← layoutFieldImpl t;
  _ ← upd_slot i (set_slotOffset offset);
  upd_slot i (λ b, set_slotLlvmIndex (or_index llvmIndex (b_slotLlvmIndex b)) b).

(** ** The whole layout *)

Fixpoint layout_base_loop (i n : nat) : M unit :=
  match n with
  | O => mret tt
  | S n => _ ← layoutBaseType i; layout_base_loop (S i) n
  end.

(** A failed field is not counted as laid out. *)
Fixpoint layout_field_loop (i n : nat) : M unit :=
  match n with
  | O => mret tt
  | S n => λ s,
    match layoutField i s with
    | (inl _, s) => layout_field_loop (S i) n s
    | (inr e, s) => (inr e, set_laidOutFieldCount i s)
    end
  end.

Definition append_init (i : nat) : M unit :=
  modify (λ s, set_fieldInitializeArray (m_fieldInitializeArray s ++ [i]) s).

(** The members of a plain struct that are to be marked and constructed. *)
Definition scan_field (i : nat) : M unit :=
  field ← get_field i;
  let t := f_type field in
  _ ← when (negb (has_flag TypeFlag_Pod (t_flags t))) (modify (λ s, set_flags (N.ldiff (m_flags s) TypeFlag_Pod) s));
  _ ← when (has_flag TypeFlag_GcRoot (t_flags t))
        (_ ← modify (λ s, set_gcRootFieldArray (m_gcRootFieldArray s ++ [i]) s);
         or_flags TypeFlag_GcRoot);
  when (f_isOwn field)
    (if t_isConstructible t then _ ← append_init i; and_thin (t_constructorThinThisFlag t)
     else when (f_hasInitializer field) (append_init i)).

Fixpoint scan_loop (i n : nat) : M unit :=
  match n with
  | O => mret tt
  | S n => _ ← scan_field i; scan_loop (S i) n
  end.

Definition ClassTypeFlag_Opaque : N := 0x040000.
Definition ClassTypeFlag_OpaqueNonCreatable : N := 0x080000.

Definition or_class_flags (flags : N) : M unit :=
  modify (λ s, set_parentClass ((λ '(f, i), (N.lor f flags, i)) <$> m_parentClass s) s).

(** The size an opaque class declares has to hold its fields. *)
Definition opaque_size : M unit :=
  c ← get m_parentClass;
  match c with
  | Some (flags, info) =>
    when (has_flag ClassTypeFlag_Opaque flags && negb (e_ignoreOpaque E))
      (match info with
       | None => fail OpaqueInfoMissing
       | Some info =>
         size ← get m_size;
         _ ← check (negb (i_size info <? size)) OpaqueSize;
         _ ← modify (set_size (i_size info));
         _ ← when (i_markOpaqueGcRootsFunc info) (or_class_flags TypeFlag_GcRoot);
         when (i_isNonCreatable info) (or_class_flags ClassTypeFlag_OpaqueNonCreatable)
       end)
  | None => fail AssertFailed
  end.

Definition adapter_layout : M unit :=
  match e_adapterOriginType E with
  | None => fail AssertFailed
  | Some origin =>
    _ ← check (t_ensureLayout origin) NotReady;
    _ ← or_flags (N.land (t_flags origin) (N.lor TypeFlag_Pod (N.lor TypeFlag_GcRoot TypeFlag_NoStack)));
    _ ← modify (set_size (t_size origin));
    _ ← modify (set_alignment (t_alignment origin));
    _ ← modify (set_fieldSize (t_size origin));
    modify (set_fieldAlignment (t_alignment origin))
  end.

(** What follows the layout of the fields. *)
Definition finish_layout : M unit :=
  kind ← get m_structTypeKind;
  if decide (kind = StructTypeKind_Adapter) then adapter_layout
  else
    _ ← modify (λ s, set_size (sl_align (m_fieldSize s) (m_alignment s)) s);
    _ ← (if decide (kind = StructTypeKind_Normal) then
           count ← get (λ s, length (m_fieldArray s));
           _ ← scan_loop 0 count;
           _ ← check (e_noPropertyDestruct E) PropertyDestructor;
           check (e_createDefaultMethods E) DefaultMethods
         else when (bool_decide (kind = StructTypeKind_IfaceStruct)) opaque_size);
    size ← get m_size;
    fieldSize ← get m_fieldSize;
    _ ← when (e_hasCodeGen E)
          (_ ← when (fieldSize <? size) (addLlvmPadding (sub64 size fieldSize));
           modify (λ s, set_llvmBody (Some (m_llvmFieldTypeArray s)) s));
    when (TypeSizeLimit_StackAllocSize <? size) (or_flags TypeFlag_NoStack).

(** The base types, if no field is laid out, and the fields that are not. *)
Definition layout_fields : M unit :=
  laidOut ← get m_laidOutFieldCount;
  _ ← (if (laidOut =? 0)%nat then
         _ ← check (e_ensureNamespaceReady E && e_ensureAttributeValuesReady E) NotReady;
         n ← get (λ s, length (m_baseTypeList s));
         layout_base_loop 0 n
       else mret tt);
  count ← get (λ s, length (m_fieldArray s));
  _ ← layout_field_loop laidOut (count - laidOut);
  modify (set_laidOutFieldCount count).

Definition calcLayoutTo (targetField : option nat) : M unit :=
  flags ← get m_flags;
  _ ← check (negb (has_flag TypeFlag_LayoutReady flags)) AssertFailed;
  match targetField with
  | Some k =>
    field ← get_field k;
    _ ← check (negb (f_layoutReady field)) AssertFailed;
    _ ← layout_fields;
    field ← get_field k;
    check (f_layoutReady field) AssertFailed
  | None => _ ← layout_fields; finish_layout
  end.

(** [ensureLayoutTo] *)
Definition ensureLayoutTo (k : nat) : M unit :=
  field ← get_field k;
  if f_layoutReady field then mret tt else calcLayoutTo (Some k).
End layout.

(** ** Making structs *)

Definition newField (t : type) (bitCount ptrTypeFlags : N) : Field :=
  mkField t 0 0 bitCount ptrTypeFlags None false true false true.

(** [createFieldImpl], the registration of the name apart *)
Definition createField (f : Field) (s : StructType) : StructType := set_fieldArray (m_fieldArray s ++ [f]) s.

Definition addBaseType (t : type) (s : StructType) : StructType :=
  set_baseTypeList (m_baseTypeList s ++ [mkSlot t 0 None]) s.

(** The constructor, and [createStructType]. *)
Definition newStruct (kind : StructTypeKind) (fieldAlignment : N) : StructType :=
  mkStruct kind fieldAlignment 0 0 1 (N.lor TypeFlag_Pod TypeFlag_StructRet) 0 [] [] [] [] None [] [] [] [] PtrTypeFlag_ThinThis None None.

(** [StructType::append] *)
Definition append (src : StructType) (s : StructType) : StructType :=
  foldl (λ s f, createField (newField (f_type f) (f_bitCount f) (f_ptrTypeFlags f)) s)
    (foldl (λ s b, addBaseType (b_type b) s) s (m_baseTypeList src)) (m_fieldArray src).

(** ** Arrays *)

Record ArrayType := mkArray {
  a_elementType : type; a_elementCount : N; a_size : N; a_alignment : N; a_flags : N
}.

(** [rootTypeFlags] is the flags of the element type of the innermost array. *)
Definition array_calcLayout (rootTypeFlags : N) (a : ArrayType) : ArrayType + LayoutError :=
  let elementType := a_elementType a in
  if negb (t_ensureLayout elementType) then inr NotReady
  else if t_isClass elementType then inr ClassMember
  else
    let flags :=
      if has_flag TypeFlag_Pod rootTypeFlags then N.lor (a_flags a) TypeFlag_Pod
      else if has_flag TypeFlag_GcRoot rootTypeFlags then N.lor (a_flags a) TypeFlag_GcRoot
      else a_flags a in
    let size := mul64 (t_size elementType) (a_elementCount a) in
    let flags := if TypeSizeLimit_StackAllocSize <? size then N.lor flags TypeFlag_NoStack else flags in
    inl (mkArray elementType (a_elementCount a) size (t_alignment elementType) flags).

Inductive ArrayError := ArrayLayout (e : LayoutError) | ArrayExpression | InvalidArraySize (value : Z).

(** [UserArrayType::calcLayout]: [initializer] is [None] when there is none, else what
    the expression evaluates to, if it does. *)
Definition user_array_calcLayout (rootTypeFlags : N) (initializer : option (option Z)) (a : ArrayType) :
    ArrayType + ArrayError :=
  match initializer with
  | None => match array_calcLayout rootTypeFlags a with inl a => inl a | inr e => inr (ArrayLayout e) end
  | Some None => inr ArrayExpression
  | Some (Some value) =>
    if (value <=? 0)%Z then inr (InvalidArraySize value)
    else
      let a := mkArray (a_elementType a) (Z.to_N value) (a_size a) (a_alignment a) (a_flags a) in
      match array_calcLayout rootTypeFlags a with inl a => inl a | inr e => inr (ArrayLayout e) end
  end.

(** ** Unions *)

Record UnionType := mkUnion {
  u_fieldArray : list Field; u_structType : StructType; u_fieldInitializeArray : list nat;
  u_constructorThinThisFlag : N; u_size : N; u_alignment : N; u_flags : N
}.

Inductive UnionError :=
  | UnionNotReady | NonPodMember (i : nat) | EmptyUnion | UnionStruct (e : LayoutError)
  | UnionPropertyDestructor | UnionDefaultMethods.

Record union_scan := mkScan {
  sc_largestFieldType : option type; sc_largestAlignment : N;
  sc_fields : list Field; sc_fieldInitializeArray : list nat; sc_thinThis : N
}.

(** The loop over the fields; the fields before are in [sc_fields]. *)
Fixpoint union_loop (fields : list Field) (sc : union_scan) : union_scan + UnionError :=
  match fields with
  | [] => inl sc
  | field :: fields =>
    let t := f_type field in
    let i := length (sc_fields sc) in
    if negb (t_ensureLayout t) then inr UnionNotReady
    else if negb (has_flag TypeFlag_Pod (t_flags t)) then inr (NonPodMember i)
    else
      let largestFieldType :=
        match sc_largestFieldType sc with
        | Some l => if t_size l <? t_size t then Some t else Some l
        | None => Some t
        end in
      let largestAlignment :=
        if sc_largestAlignment sc <? t_alignment t then t_alignment t else sc_largestAlignment sc in
      let field := set_llvmIndex (Some i) field in
      let '(init, thin) :=
        if f_isOwn field then
          if t_isConstructible t then
            (sc_fieldInitializeArray sc ++ [i], N.land (sc_thinThis sc) (t_constructorThinThisFlag t))
          else if f_hasInitializer field then (sc_fieldInitializeArray sc ++ [i], sc_thinThis sc)
          else (sc_fieldInitializeArray sc, sc_thinThis sc)
        else (sc_fieldInitializeArray sc, sc_thinThis sc) in
      union_loop fields (mkScan largestFieldType largestAlignment (sc_fields sc ++ [field]) init thin)
  end.

Definition union_calcLayout `{Axl} (E : env) (u : UnionType) : UnionType + UnionError :=
  if negb (e_ensureNamespaceReady E && e_ensureAttributeValuesReady E) then inr UnionNotReady
  else
    match union_loop (u_fieldArray u) (mkScan None 1 [] (u_fieldInitializeArray u) (u_constructorThinThisFlag u)) with
    | inr e => inr e
    | inl sc =>
      match sc_largestFieldType sc with
      | None => inr EmptyUnion
      | Some largestFieldType =>
        let s := createField (newField largestFieldType 0 0) (u_structType u) in
        let s := set_alignment (N.min (sc_largestAlignment sc) (m_fieldAlignment s)) s in
        match calcLayoutTo E None s with
        | (inr e, _) => inr (UnionStruct e)
        | (inl _, s) =>
          if negb (e_noPropertyDestruct E) then inr UnionPropertyDestructor
          else if negb (e_createDefaultMethods E) then inr UnionDefaultMethods
          else
            let flags :=
              if TypeSizeLimit_StackAllocSize <? m_size s then N.lor (u_flags u) TypeFlag_NoStack else u_flags u in
            inl (mkUnion (sc_fields sc) s (sc_fieldInitializeArray sc) (sc_thinThis sc) (m_size s) (m_alignment s) flags)
        end
      end
    end.
