(* ===== verification/StructLayoutSpec.v ===== *)
(** * The layout of structs: correctness

    The fields that [StructLayout.calcLayoutTo] lays out are inside the struct, aligned
    and apart from each other, and the elements of the packed LLVM struct are where
    the fields are. *)

From S2P Require Import Prelude StructLayout.

Open Scope N_scope.

(** ** Rounding up *)

Lemma pow2_pos a : isPowerOf2 a → 0 < a.
Proof. intros [k ->]. apply N.neq_0_lt_0, N.pow_nonzero. done. Qed.

Lemma pow2_divide a b : isPowerOf2 a → isPowerOf2 b → a ≤ b → (a | b).
Proof.
  intros [k ->] [l ->] Hle. assert (k ≤ l).
  { destruct (decide (k ≤ l)); [done|exfalso]. assert (2 ^ l < 2 ^ k) by (apply N.pow_lt_mono_r; lia). lia. }
  exists (2 ^ (l - k)). rewrite <- N.pow_add_r. f_equal. lia.
Qed.

Lemma pow2_max a b : isPowerOf2 a → isPowerOf2 b → isPowerOf2 (N.max a b).
Proof. intros. destruct (N.max_spec a b) as [ [_ ->]|[_ ->] ]; done. Qed.

Lemma pow2_min a b : isPowerOf2 a → isPowerOf2 b → isPowerOf2 (N.min a b).
Proof. intros. destruct (N.min_spec a b) as [ [_ ->]|[_ ->] ]; done. Qed.

Lemma align_spec `{AxlLaws} n a : isPowerOf2 a → n + a ≤ size_mod →
  n ≤ sl_align n a ∧ sl_align n a < n + a ∧ (a | sl_align n a).
Proof.
  intros Ha Hn. rewrite sl_align_law by done. pose proof (pow2_pos a Ha) as Hp.
  pose proof (N.div_mod (n + a - 1) a ltac:(lia)) as Hdm. pose proof (N.mod_lt (n + a - 1) a ltac:(lia)) as Hm.
  revert Hdm Hm. generalize ((n + a - 1) mod a). generalize ((n + a - 1) / a). intros q r Hdm Hm.
  rewrite (N.mul_comm a) in Hdm. split; [lia|]. split; [lia|].
  by exists q.
Qed.

(** ** The operations as functions *)

(** The alignment a field is placed at. *)
Definition field_alignment (fieldAlignment : N) (t : type) : N := N.min fieldAlignment (t_alignment t).

Section layout.
Context `{HA : Axl} (E : env).

Lemma set_alignment_id s : set_alignment (m_alignment s) s = s.
Proof. by destruct s. Qed.

Lemma getFieldOffset_eq t s :
  let a := field_alignment (m_fieldAlignment s) t in
  getFieldOffset t s = (inl (sl_align (m_fieldSize s) a), set_alignment (N.max (m_alignment s) a) s).
Proof.
  cbv zeta. unfold getFieldOffset, field_alignment, get, when, modify, mbind, M_bind, mret, M_ret.
  assert (Ha : (if m_fieldAlignment s <? t_alignment t then m_fieldAlignment s else t_alignment t) =
    N.min (m_fieldAlignment s) (t_alignment t)) by (destruct (N.ltb_spec (m_fieldAlignment s) (t_alignment t)); lia).
  rewrite Ha. destruct (N.ltb_spec (m_alignment s) (N.min (m_fieldAlignment s) (t_alignment t))).
  - by rewrite N.max_r by lia.
  - rewrite N.max_l by lia. by rewrite set_alignment_id.
Qed.

(** The padding before an element at [offset]. *)
Definition padding (fieldSize offset : N) : list LlvmType :=
  if fieldSize <? offset then [LlvmCharArray (sub64 offset fieldSize)] else [].

Definition placed (t : type) (offset : N) (s : StructType) : StructType :=
  let s := if e_hasCodeGen E then
             set_llvmFieldTypeArray (m_llvmFieldTypeArray s ++ padding (m_fieldSize s) offset ++ [LlvmOf t]) s
           else s in
  set_fieldSize (add64 offset (t_size t)) s.

Definition placed_index (offset : N) (s : StructType) : option nat :=
  if e_hasCodeGen E then
    Some (length (m_llvmFieldTypeArray s ++ padding (m_fieldSize s) offset))
  else None.

Lemma place_eq t offset s : place E t offset s = (inl (placed_index offset s), placed t offset s).
Proof.
  unfold place, placed, placed_index, get, when, addLlvmPadding, append_llvm, modify, padding, mbind, M_bind, mret, M_ret.
  destruct (e_hasCodeGen E); [|done]. destruct (m_fieldSize s <? offset) eqn:Hp; destruct s; cbn; by rewrite <- ?app_assoc, ?app_nil_r.
Qed.

Definition impl_offset (t : type) (s : StructType) : N :=
  sl_align (m_fieldSize s) (field_alignment (m_fieldAlignment s) t).

(** The struct after a unit of type [t] is placed. *)
Definition unit_placed (t : type) (s : StructType) : StructType :=
  placed t (impl_offset t s) (set_alignment (N.max (m_alignment s) (field_alignment (m_fieldAlignment s) t)) s).

Lemma layoutFieldImpl_eq t s :
  layoutFieldImpl E t s =
  (inl (impl_offset t s, placed_index (impl_offset t s) s), set_lastBitField None (unit_placed t s)).
Proof.
  unfold layoutFieldImpl, unit_placed, mbind, M_bind. rewrite getFieldOffset_eq. rewrite place_eq.
  unfold modify, mret, M_ret, placed_index. f_equal.
Qed.

(** ** Successful runs *)

Lemma bind_inv {A B} (m : M A) (k : A → M B) s y s' : (m ≫= k) s = (inl y, s') →
  ∃ x s1, m s = (inl x, s1) ∧ k x s1 = (inl y, s').
Proof. unfold mbind, M_bind. destruct (m s) as [ [x|e] s1] eqn:Hm; [|done]. intros Hk. by exists x, s1. Qed.

Lemma get_bind {A B} (f : StructType → A) (k : A → M B) s : (get f ≫= k) s = k (f s) s.
Proof. done. Qed.

Lemma modify_bind {B} f (k : unit → M B) s : (modify f ≫= k) s = k tt (f s).
Proof. done. Qed.

Lemma check_bind_inv {B} b e (k : unit → M B) s y s' : (check b e ≫= k) s = (inl y, s') →
  b = true ∧ k tt s = (inl y, s').
Proof. unfold check. by destruct b. Qed.

Lemma get_field_bind_inv {B} i (k : Field → M B) s y s' : (get_field i ≫= k) s = (inl y, s') →
  ∃ f, m_fieldArray s !! i = Some f ∧ k f s = (inl y, s').
Proof. unfold get_field, mbind, M_bind. destruct (m_fieldArray s !! i) as [f|]; [|done]. intros Hk. by exists f. Qed.

Lemma get_slot_bind_inv {B} i (k : BaseTypeSlot → M B) s y s' : (get_slot i ≫= k) s = (inl y, s') →
  ∃ b, m_baseTypeList s !! i = Some b ∧ k b s = (inl y, s').
Proof. unfold get_slot, mbind, M_bind. destruct (m_baseTypeList s !! i) as [b|]; [|done]. intros Hk. by exists b. Qed.

Lemma alter_insert {A} (f : A → A) (i : nat) (l : list A) x : l !! i = Some x → alter f i l = <[i := f x]> l.
Proof.
  intros Hi. apply list_eq. intros j. destruct (decide (i = j)) as [<-|Hne].
  - rewrite list_lookup_alter_eq, list_lookup_insert_eq by (eapply lookup_lt_Some; eassumption). by rewrite Hi.
  - by rewrite list_lookup_alter_ne, list_lookup_insert_ne.
Qed.

Lemma upd_field_eq i g s f : m_fieldArray s !! i = Some f →
  upd_field i g s = (inl tt, set_fieldArray (<[i := g f]> (m_fieldArray s)) s).
Proof. intros Hf. unfold upd_field, modify. by rewrite (alter_insert _ _ _ f). Qed.

Lemma upd_field_bind {B} i g (k : unit → M B) s f : m_fieldArray s !! i = Some f →
  (upd_field i g ≫= k) s = k tt (set_fieldArray (<[i := g f]> (m_fieldArray s)) s).
Proof. intros Hf. unfold mbind, M_bind. by rewrite (upd_field_eq _ _ _ f). Qed.

Lemma upd_slot_eq i g s b : m_baseTypeList s !! i = Some b →
  upd_slot i g s = (inl tt, set_baseTypeList (<[i := g b]> (m_baseTypeList s)) s).
Proof. intros Hf. unfold upd_slot, modify. by rewrite (alter_insert _ _ _ b). Qed.

(** What stays as it is. *)
Definition kept (s s' : StructType) : Prop :=
  m_structTypeKind s' = m_structTypeKind s ∧ m_fieldAlignment s' = m_fieldAlignment s ∧
  m_laidOutFieldCount s' = m_laidOutFieldCount s ∧ m_parentClass s' = m_parentClass s.

(** A unit of type [t] was placed at [offset]. *)
Definition unit_effect (t : type) (offset : N) (llvmIndex : option nat) (s s' : StructType) : Prop :=
  offset = impl_offset t s ∧ m_fieldSize s' = add64 offset (t_size t) ∧
  m_alignment s' = N.max (m_alignment s) (field_alignment (m_fieldAlignment s) t) ∧
  (e_hasCodeGen E = true →
    m_llvmFieldTypeArray s' = m_llvmFieldTypeArray s ++ padding (m_fieldSize s) offset ++ [LlvmOf t] ∧
    llvmIndex = Some (length (m_llvmFieldTypeArray s ++ padding (m_fieldSize s) offset))).

Definition isBitField (f : Field) : bool := negb (f_bitCount f =? 0).
Definition isBigEndian (f : Field) : bool := has_flag PtrTypeFlag_BigEndian (f_ptrTypeFlags f).

(** What the layout does not change in a field. *)
Definition same_field (f f' : Field) : Prop :=
  f_type f' = f_type f ∧ f_bitCount f' = f_bitCount f ∧ isBigEndian f' = isBigEndian f.

Definition last_field (s : StructType) : option Field := k ← m_lastBitField s; m_fieldArray s !! k.

Lemma has_flag_lor flag flags x : N.land x flag = 0 → has_flag flag (N.lor flags x) = has_flag flag flags.
Proof. intros Hx. unfold has_flag. by rewrite N.land_lor_distr_l, Hx, N.lor_0_r. Qed.

Lemma bit_place_merged last f : (bit_place last f).2 = true →
  ∃ l, last = Some l ∧ isEqual (f_type l) (f_type f) = true.
Proof.
  unfold bit_place. destruct last as [l|]; [|by destruct (has_flag _ _)].
  destruct (isEqual (f_type l) (f_type f)) eqn:He; [by exists l|]. by destruct (has_flag _ _).
Qed.

Lemma kept_refl s : kept s s.
Proof. done. Qed.

(** The steps that begin a new unit for bit field [i]. *)
Lemma new_unit_ok i s s' f : m_fieldArray s !! i = Some f →
  (offset ← getFieldOffset (f_type f);
   _ ← upd_field i (set_offset offset);
   llvmIndex ← place E (f_type f) offset;
   _ ← upd_field i (λ f, set_llvmIndex (or_index llvmIndex (f_llvmIndex f)) f);
   modify (set_lastBitField (Some i))) s = (inl tt, s') →
  ∃ f', m_fieldArray s' = <[i := f']> (m_fieldArray s) ∧
    f' = set_llvmIndex (f_llvmIndex f') (set_offset (f_offset f') f) ∧ kept s s' ∧
    m_baseTypeList s' = m_baseTypeList s ∧ m_lastBitField s' = Some i ∧
    unit_effect (f_type f) (f_offset f') (f_llvmIndex f') s s'.
Proof.
  intros Hf H. assert (Hi : (i < length (m_fieldArray s))%nat) by (eapply lookup_lt_Some; eassumption).
  unfold mbind at 1, M_bind at 1 in H. rewrite getFieldOffset_eq in H.
  erewrite upd_field_bind in H by done. unfold mbind at 1, M_bind at 1 in H. rewrite place_eq in H.
  erewrite upd_field_bind in H.
  2:{ unfold placed. destruct (e_hasCodeGen E); cbn; by apply list_lookup_insert_eq. }
  unfold modify in H. injection H as <-. eexists. split.
  { unfold placed. destruct (e_hasCodeGen E); cbn; by rewrite list_insert_insert_eq. }
  split; [done|]. unfold kept, unit_effect, placed, placed_index, impl_offset.
  destruct (e_hasCodeGen E); cbn; repeat split; try done.
Qed.

Lemma unit_placed_effect t s : let s0 := set_lastBitField None (unit_placed t s) in
  m_fieldArray s0 = m_fieldArray s ∧ m_baseTypeList s0 = m_baseTypeList s ∧ kept s s0 ∧ m_lastBitField s0 = None ∧
  unit_effect t (impl_offset t s) (placed_index (impl_offset t s) s) s s0.
Proof.
  unfold kept, unit_effect, unit_placed, placed, placed_index.
  destruct (e_hasCodeGen E); cbn; repeat split; try done.
Qed.

(** The index that is stored is the new one when there is code to generate. *)
Lemma unit_effect_or t offset new old s s' : unit_effect t offset new s s' → unit_effect t offset (or_index new old) s s'.
Proof.
  intros (H1 & H2 & H3 & H4). split; [done|]. split; [done|]. split; [done|]. intros He.
  destruct (H4 He) as [H5 ->]. done.
Qed.

Lemma layoutBitField_ok i s s' f : m_fieldArray s !! i = Some f → layoutBitField E i s = (inl tt, s') →
  ∃ f', m_fieldArray s' = <[i := f']> (m_fieldArray s) ∧ same_field f f' ∧ kept s s' ∧
    m_baseTypeList s' = m_baseTypeList s ∧ m_lastBitField s' = Some i ∧
    f_bitCount f ≤ mul64 (t_size (f_type f)) 8 ∧
    f_bitOffset f' = (bit_place (last_field s) f).1 mod 2 ^ 32 ∧
    ((∃ l, last_field s = Some l ∧ (bit_place (last_field s) f).2 = true ∧
        f_offset f' = f_offset l ∧ f_llvmIndex f' = f_llvmIndex l ∧ m_fieldSize s' = m_fieldSize s ∧
        m_alignment s' = m_alignment s ∧ m_llvmFieldTypeArray s' = m_llvmFieldTypeArray s) ∨
     ((bit_place (last_field s) f).2 = false ∧ unit_effect (f_type f) (f_offset f') (f_llvmIndex f') s s')).
Proof.
  intros Hf H. unfold layoutBitField in H. apply get_field_bind_inv in H as (f0 & Hf0 & H).
  rewrite Hf in Hf0. injection Hf0 as <-. apply check_bind_inv in H as [Hc H]. to_prop. rewrite get_bind in H.
  fold (last_field s) in H. assert (Hi : (i < length (m_fieldArray s))%nat) by (eapply lookup_lt_Some; eassumption).
  destruct (bit_place (last_field s) f) as [bitOffset isMerged] eqn:Hb. cbn [fst snd].
  rewrite (upd_field_bind _ _ _ s f Hf) in H.
  erewrite upd_field_bind in H by (cbn; by apply list_lookup_insert_eq). cbn in H. rewrite list_insert_insert_eq in H.
  set (f2 := set_ptrTypeFlags _ _) in H. assert (Hsame : same_field f f2).
  { split; [done|]. split; [done|]. by apply has_flag_lor. }
  change (set_fieldArray _ (set_fieldArray _ s)) with (set_fieldArray (<[i := f2]> (m_fieldArray s)) s) in H.
  set (s2 := set_fieldArray _ s) in H. assert (Hf2 : m_fieldArray s2 !! i = Some f2) by (by apply list_lookup_insert_eq).
  assert (Hcase : (∃ l, last_field s = Some l ∧ isMerged = true ∧ s' = set_lastBitField (Some i)
      (set_fieldArray (<[i := set_llvmIndex (f_llvmIndex l) (set_offset (f_offset l) f2)]> (m_fieldArray s)) s)) ∨
    isMerged = false ∧ ∃ f', m_fieldArray s' = <[i := f']> (m_fieldArray s2) ∧
      f' = set_llvmIndex (f_llvmIndex f') (set_offset (f_offset f') f2) ∧ kept s2 s' ∧
      m_baseTypeList s' = m_baseTypeList s2 ∧ m_lastBitField s' = Some i ∧
      unit_effect (f_type f2) (f_offset f') (f_llvmIndex f') s2 s').
  { destruct (last_field s) as [l|] eqn:Hl; [destruct isMerged|].
    - left. exists l. split; [done|]. split; [done|].
      rewrite (upd_field_bind _ _ _ s2 f2 Hf2) in H.
      erewrite upd_field_bind in H by (cbn; apply list_lookup_insert_eq; by rewrite length_insert).
      unfold modify in H. injection H as <-. cbn. by rewrite !list_insert_insert_eq.
    - right. split; [done|]. by apply (new_unit_ok i s2 s' f2 Hf2).
    - right. split; [|by apply (new_unit_ok i s2 s' f2 Hf2)].
      destruct isMerged; [|done]. destruct (bit_place_merged None f) as (l & Hl' & _); [by rewrite Hb|done]. }
  destruct Hcase as [(l & Hl & -> & ->)|(-> & f' & Ha & Hf' & Hk & Hbl & Hla & Hu)].
  - eexists. split; [reflexivity|]. split; [exact Hsame|]. split; [done|]. split; [done|]. split; [done|]. split; [done|].
    split; [done|]. left. by exists l.
  - exists f'. split; [cbn in Ha; by rewrite list_insert_insert_eq in Ha|].
    split; [rewrite Hf'; exact Hsame|]. split; [exact Hk|]. split; [exact Hbl|]. split; [done|]. split; [done|].
    split; [by rewrite Hf'|]. right. split; [done|]. exact Hu.
Qed.

Lemma layoutField_ok i s s' : layoutField E i s = (inl tt, s') →
  ∃ f f', m_fieldArray s !! i = Some f ∧ m_fieldArray s' = <[i := f']> (m_fieldArray s) ∧ same_field f f' ∧
    kept s s' ∧ m_baseTypeList s' = m_baseTypeList s ∧ f_layoutReady f' = true ∧
    ((isBitField f = false ∧ m_lastBitField s' = None ∧ unit_effect (f_type f) (f_offset f') (f_llvmIndex f') s s') ∨
     (isBitField f = true ∧ m_lastBitField s' = Some i ∧ f_bitCount f ≤ mul64 (t_size (f_type f)) 8 ∧
      f_bitOffset f' = (bit_place (last_field s) f).1 mod 2 ^ 32 ∧
      ((∃ l, last_field s = Some l ∧ (bit_place (last_field s) f).2 = true ∧
          f_offset f' = f_offset l ∧ f_llvmIndex f' = f_llvmIndex l ∧ m_fieldSize s' = m_fieldSize s ∧
          m_alignment s' = m_alignment s ∧ m_llvmFieldTypeArray s' = m_llvmFieldTypeArray s) ∨
       ((bit_place (last_field s) f).2 = false ∧ unit_effect (f_type f) (f_offset f') (f_llvmIndex f') s s')))).
Proof.
  intros H. unfold layoutField in H. apply get_field_bind_inv in H as (f & Hf & H).
  assert (Hi : (i < length (m_fieldArray s))%nat) by (eapply lookup_lt_Some; eassumption).
  apply check_bind_inv in H as [_ H]. apply check_bind_inv in H as [_ H]. rewrite get_bind in H.
  apply check_bind_inv in H as [_ H]. apply bind_inv in H as ([] & s1 & H1 & H). fold (isBitField f) in H1.
  destruct (isBitField f) eqn:Hb.
  - destruct (layoutBitField_ok i s s1 f Hf H1) as (f1 & Ha & Hs & Hk & Hbl & Hla & Hc & Ho & Hcase).
    rewrite (upd_field_eq i _ s1 f1) in H by (rewrite Ha; by apply list_lookup_insert_eq). injection H as <-.
    exists f, (set_layoutReady true f1). split; [done|]. split; [cbn; by rewrite Ha, list_insert_insert_eq|].
    split; [exact Hs|]. split; [exact Hk|]. split; [exact Hbl|]. split; [done|]. right. split; [done|]. split; [exact Hla|].
    split; [done|]. split; [exact Ho|]. exact Hcase.
  - unfold mbind at 1, M_bind at 1 in H1. rewrite layoutFieldImpl_eq in H1. cbv beta iota in H1. set (s0 := set_lastBitField None _) in H1.
    destruct (unit_placed_effect (f_type f) s) as (H0 & Hbl & Hk & Hla & Hu). fold s0 in H0, Hbl, Hk, Hla, Hu. clearbody s0.
    erewrite upd_field_bind in H1 by (by rewrite H0).
    erewrite upd_field_eq in H1 by (cbn; rewrite H0; by apply list_lookup_insert_eq). injection H1 as <-.
    erewrite upd_field_eq in H by (cbn; rewrite H0, list_insert_insert_eq; by apply list_lookup_insert_eq).
    injection H as <-. eexists f, _. split; [done|]. split; [cbn; by rewrite H0, !list_insert_insert_eq|].
    split; [done|]. split; [exact Hk|]. split; [exact Hbl|]. split; [done|]. left.
    split; [done|]. split; [exact Hla|]. apply (unit_effect_or _ _ _ (f_llvmIndex f)) in Hu. exact Hu.
Qed.

Lemma layoutBaseType_ok i s s' : layoutBaseType E i s = (inl tt, s') →
  ∃ b b', m_baseTypeList s !! i = Some b ∧ m_baseTypeList s' = <[i := b']> (m_baseTypeList s) ∧
    b_type b' = b_type b ∧ kept s s' ∧ m_fieldArray s' = m_fieldArray s ∧ m_lastBitField s' = None ∧
    unit_effect (b_type b) (b_slotOffset b') (b_slotLlvmIndex b') s s' ∧
    m_baseTypeMap s' = t_signature (b_type b) :: m_baseTypeMap s.
Proof.
  intros H. unfold layoutBaseType in H. apply get_slot_bind_inv in H as (b & Hb & H).
  assert (Hi : (i < length (m_baseTypeList s))%nat) by (eapply lookup_lt_Some; eassumption).
  apply check_bind_inv in H as [_ H]. apply check_bind_inv in H as [_ H]. rewrite get_bind in H.
  apply check_bind_inv in H as [_ H]. rewrite modify_bind in H.
  apply bind_inv in H as ([] & s1 & H1 & H). apply bind_inv in H as ([] & s2 & H2 & H).
  assert (Hs1 : kept s s1 ∧ m_baseTypeList s1 = m_baseTypeList s ∧ m_fieldArray s1 = m_fieldArray s ∧
    m_fieldSize s1 = m_fieldSize s ∧ m_alignment s1 = m_alignment s ∧
    m_llvmFieldTypeArray s1 = m_llvmFieldTypeArray s ∧ m_baseTypeMap s1 = t_signature (b_type b) :: m_baseTypeMap s).
  { unfold when in H1. destruct (has_flag _ _); injection H1 as <-; done. }
  assert (Hs2 : kept s s2 ∧ m_baseTypeList s2 = m_baseTypeList s ∧ m_fieldArray s2 = m_fieldArray s ∧
    m_fieldSize s2 = m_fieldSize s ∧ m_alignment s2 = m_alignment s ∧
    m_llvmFieldTypeArray s2 = m_llvmFieldTypeArray s ∧ m_baseTypeMap s2 = t_signature (b_type b) :: m_baseTypeMap s).
  { unfold when in H2. destruct (t_hasConstructor _); injection H2 as <-; done. }
  clear H1 Hs1. destruct Hs2 as (Hk & Hbl & Hfa & Hfs & Hal & Hll & Hmp).
  unfold mbind at 1, M_bind at 1 in H. rewrite layoutFieldImpl_eq in H. cbv beta iota in H. set (s0 := set_lastBitField None _) in H.
  destruct (unit_placed_effect (b_type b) s2) as (H0 & Hbl0 & Hk0 & Hla & Hu). fold s0 in H0, Hbl0, Hk0, Hla, Hu.
  assert (Hmp0 : m_baseTypeMap s0 = m_baseTypeMap s2) by (unfold s0, unit_placed, placed; by destruct (e_hasCodeGen E)).
  clearbody s0.
  unfold mbind at 1, M_bind at 1 in H. erewrite upd_slot_eq in H by (by rewrite Hbl0, Hbl).
  erewrite upd_slot_eq in H by (cbn; rewrite Hbl0, Hbl; by apply list_lookup_insert_eq). injection H as <-.
  assert (Hu' : unit_effect (b_type b) (impl_offset (b_type b) s2) (placed_index (impl_offset (b_type b) s2) s2) s s0).
  { revert Hu. destruct Hk as (_ & K & _). unfold unit_effect, impl_offset. by rewrite Hfs, Hal, Hll, K. }
  eexists b, _. split; [done|]. split; [cbn; by rewrite Hbl0, Hbl, !list_insert_insert_eq|]. split; [done|].
  split. { destruct Hk as (K1 & K2 & K3 & K4), Hk0 as (L1 & L2 & L3 & L4). unfold kept. cbn. by rewrite L1, L2, L3, L4. }
  split; [cbn; by rewrite H0|]. split; [exact Hla|].
  split; [|cbn; by rewrite Hmp0]. apply (unit_effect_or _ _ _ (b_slotLlvmIndex b)) in Hu'. exact Hu'.
Qed.
End layout.

(** ** Placed items *)

(** A base type or a field that has its place: the bits are the offset and the
    number of those of a bit field. *)
Record item := mkItem { it_offset : N; it_type : type; it_bits : option (N * N); it_llvmIndex : option nat }.

Definition slot_item (b : BaseTypeSlot) : item := mkItem (b_slotOffset b) (b_type b) None (b_slotLlvmIndex b).
Definition field_item (f : Field) : item :=
  mkItem (f_offset f) (f_type f) (if isBitField f then Some (f_bitOffset f, f_bitCount f) else None) (f_llvmIndex f).

(** Base types first, then fields. *)
Definition items (s : StructType) (b k : nat) : list item :=
  (slot_item <$> take b (m_baseTypeList s)) ++ (field_item <$> take k (m_fieldArray s)).

(** [a] ends before [c] begins, or they are bit fields of one unit and have no bit
    in common. *)
Definition before (a c : item) : Prop :=
  it_offset a + t_size (it_type a) ≤ it_offset c ∨
  (it_offset a = it_offset c ∧ it_type a = it_type c ∧
   ∃ o1 c1 o2 c2, it_bits a = Some (o1, c1) ∧ it_bits c = Some (o2, c2) ∧ (o1 + c1 ≤ o2 ∨ o2 + c2 ≤ o1)).

(** The bits are those of the type. *)
Definition bits_ok (it : item) : Prop :=
  match it_bits it with Some (o, c) => 0 < c ∧ o + c ≤ 8 * t_size (it_type it) | None => True end.

Definition fits (s : StructType) (it : item) : Prop :=
  let a := field_alignment (m_fieldAlignment s) (it_type it) in
  it_offset it + t_size (it_type it) ≤ m_fieldSize s ∧ (a | it_offset it) ∧ (isPowerOf2 a ∧ a ≤ m_alignment s) ∧ bits_ok it.

(** A packed LLVM struct: the size of an element is that of its type. *)
Definition llvmSize (t : LlvmType) : N := match t with LlvmOf t => t_size t | LlvmCharArray n => n end.
Definition packed (l : list LlvmType) : N := foldr (λ t n, llvmSize t + n) 0 l.

(** The element of the item is where the item is. *)
Definition llvm_item (l : list LlvmType) (it : item) : Prop :=
  ∃ idx, it_llvmIndex it = Some idx ∧ l !! idx = Some (LlvmOf (it_type it)) ∧ packed (take idx l) = it_offset it.

Lemma packed_app l1 l2 : packed (l1 ++ l2) = packed l1 + packed l2.
Proof.
  induction l1 as [|t l1 IH]; [done|].
  change (packed ((t :: l1) ++ l2)) with (llvmSize t + packed (l1 ++ l2)).
  change (packed (t :: l1)) with (llvmSize t + packed l1). rewrite IH. lia.
Qed.

Lemma llvm_item_app l l' it : llvm_item l it → llvm_item (l ++ l') it.
Proof.
  intros (idx & Hi & Hl & Hp). exists idx. split; [done|].
  assert (idx < length l)%nat by (eapply lookup_lt_Some; eassumption).
  split; [by rewrite lookup_app_l|]. by rewrite take_app_le by lia.
Qed.

Section inv.
Context `{HA : Axl, !AxlLaws HA} (E : env).

Definition pow2_alignment (s : StructType) : Prop :=
  isPowerOf2 (m_fieldAlignment s) ∧ isPowerOf2 (m_alignment s) ∧ m_alignment s ≤ m_fieldAlignment s.

Record Inv (s : StructType) (its : list item) (need : N) : Prop := {
  inv_sorted : StronglySorted before its;
  inv_fits : Forall (fits s) its;
  inv_align : pow2_alignment s;
  inv_need : m_fieldSize s ≤ need;
  inv_llvm : e_hasCodeGen E = true →
    packed (m_llvmFieldTypeArray s) = m_fieldSize s ∧ Forall (llvm_item (m_llvmFieldTypeArray s)) its
}.

(** The last bit field is the last item, and its unit is filled up to it. *)
Definition LastInv (s : StructType) (its : list item) : Prop :=
  match last_field s with
  | None => True
  | Some l => isBitField l = true ∧ ∃ its0, its = its0 ++ [field_item l] ∧
      ∀ it o c, it ∈ its → it_offset it = f_offset l → it_bits it = Some (o, c) →
        if isBigEndian l then f_bitOffset l ≤ o else o + c ≤ f_bitOffset l + f_bitCount l
  end.

Lemma SSorted_snoc (R : item → item → Prop) l x : StronglySorted R l → (∀ y, y ∈ l → R y x) → StronglySorted R (l ++ [x]).
Proof.
  induction l as [|z l IH]; simpl; intros Hs Hx; [by repeat constructor|].
  apply StronglySorted_inv in Hs as [Hs Hf]. constructor.
  - apply IH; [done|]. intros y Hy. apply Hx. by right.
  - rewrite Forall_app. split; [done|]. constructor; [|done]. apply Hx. left.
Qed.

Lemma packed_padding fs off : fs ≤ off → off < size_mod → packed (padding fs off) = off - fs.
Proof.
  intros Hle Hlt. unfold padding. destruct (N.ltb_spec fs off); cbn; [|lia]. rewrite sub64_ge by lia. lia.
Qed.

(** A unit is placed after all items. *)
Lemma inv_unit s s' its need t it : Inv s its need → unit_effect E t (it_offset it) (it_llvmIndex it) s s' → kept s s' →
  it_type it = t → bits_ok it → isPowerOf2 (t_alignment t) → need + t_size t + t_alignment t < size_mod →
  Inv s' (its ++ [it]) (need + t_size t + t_alignment t) ∧ m_fieldSize s ≤ it_offset it ∧
  it_offset it + t_size t = m_fieldSize s'.
Proof.
  intros HI (Hoff & Hfs & Hal & Hll) (_ & Hfa & _) Ht Hb Hp Hroom. destruct HI as [Hs Hf (P1 & P2 & P3) Hn Hl].
  set (a := field_alignment (m_fieldAlignment s) t) in *. assert (Ha : isPowerOf2 a) by by apply pow2_min.
  assert (Hat : a ≤ t_alignment t) by apply N.le_min_r.
  destruct (align_spec (m_fieldSize s) a Ha) as (H1 & H2 & H3); [lia|].
  unfold impl_offset in Hoff. fold a in Hoff. rewrite <- Hoff in H1, H2, H3.
  rewrite add64_small in Hfs by lia.
  assert (Hfit : fits s' it).
  { unfold fits. rewrite Ht, Hfs, Hfa, Hal. fold a. split; [done|]. split; [done|]. split; [split; [done|lia]|done]. }
  split; [|split; [done|by rewrite Hfs] ]. split.
  - apply SSorted_snoc; [done|]. intros y Hy. left. rewrite Forall_forall in Hf. destruct (Hf y Hy) as [? _]. lia.
  - apply Forall_app. split; [|by apply Forall_singleton]. eapply Forall_impl; [exact Hf|].
    intros y (F1 & F2 & F3 & F4). unfold fits. rewrite Hfs, Hfa, Hal. split; [lia|]. split; [done|]. split; [split; [apply F3|lia]|done].
  - unfold pow2_alignment. rewrite Hfa, Hal. split; [done|]. split; [by apply pow2_max|].
    assert (a ≤ m_fieldAlignment s) by apply N.le_min_l. lia.
  - lia.
  - intros He. destruct (Hll He) as [-> Hidx]. destruct (Hl He) as [Hpk Hits].
    assert (Hpp : packed (m_llvmFieldTypeArray s ++ padding (m_fieldSize s) (it_offset it)) = it_offset it).
    { rewrite packed_app, packed_padding, Hpk by lia. lia. }
    rewrite app_assoc. split.
    + rewrite packed_app, Hpp, Hfs. cbn. lia.
    + apply Forall_app. split.
      * eapply Forall_impl; [exact Hits|]. intros y Hy. rewrite <- app_assoc. by apply llvm_item_app.
      * apply Forall_singleton. eexists. split; [exact Hidx|]. rewrite Ht. split; [by rewrite lookup_app_r, Nat.sub_diag by lia|].
        by rewrite take_app_length.
Qed.

(** A bit field goes to the unit of the last one. *)
Lemma inv_merge s s' its need l it o c : Inv s its need → isBitField l = true →
  (∃ its0, its = its0 ++ [field_item l]) →
  (∀ y o' c', y ∈ its → it_offset y = f_offset l → it_bits y = Some (o', c') → o' + c' ≤ o ∨ o + c ≤ o') →
  it_offset it = f_offset l → it_type it = f_type l → it_llvmIndex it = f_llvmIndex l → it_bits it = Some (o, c) →
  bits_ok it → kept s s' → m_fieldSize s' = m_fieldSize s → m_alignment s' = m_alignment s →
  m_llvmFieldTypeArray s' = m_llvmFieldTypeArray s → Inv s' (its ++ [it]) need.
Proof.
  intros HI Hbl (its0 & Hits) Hdis Hoff Ht Hidx Hbits Hok (_ & Hfa & _) Hfs Hal Hll. destruct HI as [Hs Hf Hp Hn Hl].
  assert (Hlast : field_item l ∈ its) by (rewrite Hits; apply elem_of_app; right; by left).
  assert (Hlbits : it_bits (field_item l) = Some (f_bitOffset l, f_bitCount l)) by (cbn; by rewrite Hbl).
  split.
  - apply SSorted_snoc; [done|]. intros y Hy.
    assert (Hyl : y = field_item l ∨ before y (field_item l)).
    { rewrite Hits in Hy. apply elem_of_app in Hy as [Hy|Hy]; [|left; by apply list_elem_of_singleton].
      right. rewrite Hits in Hs. eapply SSorted_app_between; [exact Hs|done|by left]. }
    destruct Hyl as [->|[Hb|(B1 & B2 & o1 & c1 & o2 & c2 & B3 & B4 & B5)] ].
    + right. split; [done|]. split; [done|]. exists (f_bitOffset l), (f_bitCount l), o, c.
      split; [done|]. split; [done|]. by apply (Hdis (field_item l)).
    + left. rewrite Hoff. exact Hb.
    + right. cbn in B1, B2. split; [by rewrite Hoff|]. split; [by rewrite Ht|]. exists o1, c1, o, c.
      split; [done|]. split; [done|]. by apply (Hdis y).
  - assert (Hsame : ∀ y, fits s y → fits s' y) by (intros y; unfold fits; by rewrite Hfs, Hfa, Hal).
    apply Forall_app. split; [eapply Forall_impl; [exact Hf|exact Hsame]|]. constructor; [|done]. apply Hsame.
    rewrite Forall_forall in Hf. destruct (Hf _ Hlast) as (F1 & F2 & F3 & _). cbn in F1, F2, F3.
    unfold fits. rewrite Hoff, Ht. done.
  - unfold pow2_alignment. by rewrite Hfa, Hal.
  - by rewrite Hfs.
  - intros He. destruct (Hl He) as [Hpk Hits']. rewrite Hll, Hfs. split; [done|]. apply Forall_app. split; [done|].
    apply Forall_singleton. rewrite Forall_forall in Hits'. destruct (Hits' _ Hlast) as (idx & I1 & I2 & I3).
    exists idx. rewrite Hidx, Ht, Hoff. done.
Qed.

Lemma layout_inv_weaken s its need need' : Inv s its need → need ≤ need' → Inv s its need'.
Proof. intros [H1 H2 H3 H4 H5] Hle. split; try done. lia. Qed.

(** The place of the bits. *)
Lemma bit_place_spec last f : 8 * t_size (f_type f) < 2 ^ 32 → 0 < f_bitCount f →
  f_bitCount f ≤ mul64 (t_size (f_type f)) 8 →
  (∀ l, last = Some l → isEqual (f_type l) (f_type f) = true →
    f_bitOffset l + f_bitCount l ≤ 8 * t_size (f_type f)) →
  let o := (bit_place last f).1 in
  o mod 2 ^ 32 = o ∧ o + f_bitCount f ≤ 8 * t_size (f_type f) ∧
  ((bit_place last f).2 = true → ∃ l, last = Some l ∧ isEqual (f_type l) (f_type f) = true ∧
    if isBigEndian f then o + f_bitCount f = f_bitOffset l else o = f_bitOffset l + f_bitCount l).
Proof.
  intros Hsz Hc Hle Hl. assert (Hm : mul64 (t_size (f_type f)) 8 = 8 * t_size (f_type f)).
  { rewrite mul64_small; [lia|]. unfold size_mod. lia. }
  rewrite Hm in Hle. unfold bit_place, isBigEndian. rewrite Hm.
  assert (Hsmall : ∀ o, o + f_bitCount f ≤ 8 * t_size (f_type f) → o mod 2 ^ 32 = o).
  { intros o Ho. apply N.mod_small. lia. }
  assert (Hsub : sub64 (8 * t_size (f_type f)) (f_bitCount f) = 8 * t_size (f_type f) - f_bitCount f).
  { apply sub64_ge; [lia|unfold size_mod; lia]. }
  destruct (has_flag _ _); destruct last as [l|]; cbn [fst snd].
  - destruct (isEqual (f_type l) (f_type f)) eqn:He; cbn [fst snd].
    + specialize (Hl l eq_refl He). destruct (N.leb_spec (f_bitCount f) (f_bitOffset l)).
      * rewrite sub64_ge by (unfold size_mod; lia). split; [apply Hsmall; lia|]. split; [lia|]. intros _. exists l.
        split; [done|]. split; [done|]. lia.
      * rewrite Hsub. split; [apply Hsmall; lia|]. split; [lia|done].
    + rewrite Hsub. split; [apply Hsmall; lia|]. split; [lia|done].
  - rewrite Hsub. split; [apply Hsmall; lia|]. split; [lia|done].
  - destruct (isEqual (f_type l) (f_type f)) eqn:He; cbn [fst snd].
    + specialize (Hl l eq_refl He). rewrite (N.mod_small (_ + _)) by lia.
      rewrite (add64_small (f_bitOffset l + f_bitCount l)) by (unfold size_mod; lia). destruct (N.leb_spec (f_bitOffset l + f_bitCount l + f_bitCount f) (8 * t_size (f_type f))).
      * split; [apply Hsmall; lia|]. split; [lia|]. intros _. by exists l.
      * split; [done|]. split; [lia|done].
    + split; [done|]. split; [lia|done].
  - split; [done|]. split; [lia|done].
Qed.

(** The items grow by the field. *)
Lemma items_insert s s' b k f' : m_baseTypeList s' = m_baseTypeList s → m_fieldArray s' = <[k := f']> (m_fieldArray s) →
  (k < length (m_fieldArray s))%nat → items s' b (S k) = items s b k ++ [field_item f'].
Proof.
  intros Hb Hf Hk. unfold items. rewrite Hb, Hf. rewrite (take_S_r _ _ f') by by apply list_lookup_insert_eq.
  rewrite fmap_app, take_insert_ge by lia. by rewrite app_assoc.
Qed.

Lemma field_step b k s s' need : Inv s (items s b k) need → LastInv s (items s b k) →
  layoutField E k s = (inl tt, s') →
  (∀ f, m_fieldArray s !! k = Some f → isPowerOf2 (t_alignment (f_type f)) ∧
    need + t_size (f_type f) + t_alignment (f_type f) < size_mod ∧
    (isBitField f = true → 8 * t_size (f_type f) < 2 ^ 32 ∧ ∀ l, last_field s = Some l →
      isEqual (f_type l) (f_type f) = true → f_type l = f_type f ∧ isBigEndian l = isBigEndian f)) →
  ∃ f f', m_fieldArray s !! k = Some f ∧ m_fieldArray s' = <[k := f']> (m_fieldArray s) ∧ same_field f f' ∧
    kept s s' ∧ m_baseTypeList s' = m_baseTypeList s ∧ f_layoutReady f' = true ∧
    Inv s' (items s' b (S k)) (need + t_size (f_type f) + t_alignment (f_type f)) ∧ LastInv s' (items s' b (S k)) ∧
    (last_field s' = None ∨ last_field s' = Some f').
Proof.
  intros HI HL H Hwf. destruct (layoutField_ok E k s s' H) as (f & f' & Hf & Hf' & Hsame & Hk & Hbl & Hrd & Hcase).
  destruct (Hwf f Hf) as (Hp & Hroom & Hbit). pose proof (lookup_lt_Some _ _ _ Hf) as Hlt.
  exists f, f'. split; [done|]. split; [done|]. split; [done|]. split; [done|]. split; [done|]. split; [done|].
  rewrite (items_insert s s' b k f') by done. destruct Hsame as (S1 & S2 & S3).
  assert (Sb : isBitField f' = isBitField f) by (unfold isBitField; by rewrite S2).
  destruct Hcase as [(Hnb & Hla & Hu)|(Hb & Hla & Hc & Ho & Hcase)].
  { split; [|split; [unfold LastInv, last_field; by rewrite Hla|left; unfold last_field; by rewrite Hla] ].
    apply (inv_unit s s' _ need (f_type f) (field_item f')); try done. unfold bits_ok, field_item. cbn. by rewrite Sb, Hnb. }
  destruct (Hbit Hb) as [Hsz Hl]. assert (Hc0 : 0 < f_bitCount f).
  { unfold isBitField in Hb. destruct (N.eqb_spec (f_bitCount f) 0); [done|lia]. }
  assert (Hlf : last_field s' = Some f').
  { unfold last_field. rewrite Hla. cbn. rewrite Hf'. by apply list_lookup_insert_eq. }
  assert (Hlbits : ∀ l, last_field s = Some l → isEqual (f_type l) (f_type f) = true →
    f_bitOffset l + f_bitCount l ≤ 8 * t_size (f_type f)).
  { intros l Hls He. unfold LastInv in HL. rewrite Hls in HL. destruct HL as (Hlb & its0 & Hits & _).
    destruct HI as [_ Hfits _ _ _]. rewrite Hits, Forall_app in Hfits. destruct Hfits as [_ Hfits].
    apply Forall_singleton in Hfits as (_ & _ & _ & Hok). unfold bits_ok in Hok. cbn in Hok. rewrite Hlb in Hok.
    destruct (Hl l Hls He) as [<- _]. apply Hok. }
  destruct (bit_place_spec (last_field s) f Hsz Hc0 Hc Hlbits) as (Hmod & Hin & Hmerge). rewrite Hmod in Ho.
  rewrite <- Ho in Hin, Hmerge. assert (Hok : bits_ok (field_item f')).
  { unfold bits_ok, field_item. cbn. rewrite Sb, Hb, S1, S2. done. }
  assert (Hbits : it_bits (field_item f') = Some (f_bitOffset f', f_bitCount f')) by (cbn; by rewrite Sb, Hb).
  destruct Hcase as [(l & Hls & Hm & C1 & C2 & C3 & C4 & C5)|(Hm & Hu)].
  - destruct (Hmerge Hm) as (l0 & Hls' & He & Hpos). rewrite Hls in Hls'. injection Hls' as <-.
    destruct (Hl l Hls He) as [Hty Hbe]. pose proof HL as HL0. unfold LastInv in HL. rewrite Hls in HL.
    destruct HL as (Hlb & its0 & Hits & Hrun). split; [|split; [|by right] ].
    + eapply layout_inv_weaken; [|instantiate (1 := need); lia].
      apply (inv_merge s s' _ need l (field_item f') (f_bitOffset f') (f_bitCount f')); try done.
      * by exists its0.
      * intros y o c Hy Hyo Hyb. specialize (Hrun y o c Hy Hyo Hyb). rewrite Hbe in Hrun. rewrite S2.
        destruct (isBigEndian f); lia.
      * by rewrite Hty.
    + unfold LastInv. rewrite Hlf. split; [by rewrite Sb|]. exists (items s b k). split; [done|].
      intros y o c Hy Hyo Hyb. rewrite S3. apply elem_of_app in Hy as [Hy|Hy%list_elem_of_singleton].
      * rewrite C1 in Hyo. specialize (Hrun y o c Hy Hyo Hyb). rewrite Hbe in Hrun. rewrite S2.
        destruct (isBigEndian f); lia.
      * subst y. rewrite Hbits in Hyb. injection Hyb as <- <-. destruct (isBigEndian f); lia.
  - destruct (inv_unit s s' (items s b k) need (f_type f) (field_item f') HI Hu Hk S1 Hok Hp Hroom) as (HI' & Hoff & _).
    split; [done|]. split; [|by right]. unfold LastInv. rewrite Hlf. split; [by rewrite Sb|].
    exists (items s b k). split; [done|]. intros y o c Hy Hyo Hyb. rewrite S3.
    apply elem_of_app in Hy as [Hy|Hy%list_elem_of_singleton].
    + exfalso. destruct HI as [_ Hfits _ _ _]. rewrite Forall_forall in Hfits. destruct (Hfits y Hy) as (F1 & _ & _ & F4).
      unfold bits_ok in F4. rewrite Hyb in F4. cbn in Hoff. lia.
    + subst y. rewrite Hbits in Hyb. injection Hyb as <- <-. destruct (isBigEndian f); lia.
Qed.

(** ** The loops *)

(** What is given of a field: its type, its bits, its byte order. *)
Definition decl : Type := type * N * bool.
Definition field_decl (f : Field) : decl := (f_type f, f_bitCount f, isBigEndian f).
Definition decls (s : StructType) : list decl := field_decl <$> m_fieldArray s.
Definition bases (s : StructType) : list type := b_type <$> m_baseTypeList s.

(** The room a unit can take. *)
Definition type_need (t : type) : N := t_size t + t_alignment t.
Definition needs (l : list type) : N := foldr (λ t n, type_need t + n) 0 l.

(** Fields that can be laid out: alignments are powers of two, types with one
    signature are one type, and bit fields of one type that follow each other
    have one byte order. *)
Record decls_ok (l : list decl) : Prop := {
  do_align : ∀ i t c e, l !! i = Some (t, c, e) → isPowerOf2 (t_alignment t);
  do_size : ∀ i t c e, l !! i = Some (t, c, e) → c ≠ 0 → 8 * t_size t < 2 ^ 32;
  do_signature : ∀ i j t c e t' c' e', l !! i = Some (t, c, e) → l !! j = Some (t', c', e') →
    isEqual t t' = true → t = t';
  do_order : ∀ i t c e t' c' e', l !! i = Some (t, c, e) → l !! S i = Some (t', c', e') →
    c ≠ 0 → c' ≠ 0 → isEqual t t' = true → e = e'
}.

Lemma decls_insert s s' k f f' : m_fieldArray s !! k = Some f → m_fieldArray s' = <[k := f']> (m_fieldArray s) →
  same_field f f' → decls s' = decls s.
Proof.
  intros Hf Hf' (S1 & S2 & S3). unfold decls. rewrite Hf', list_fmap_insert. apply list_insert_id.
  rewrite list_lookup_fmap, Hf. cbn. unfold field_decl. by rewrite S1, S2, S3.
Qed.

Lemma decls_lookup s k f : m_fieldArray s !! k = Some f → decls s !! k = Some (f_type f, f_bitCount f, isBigEndian f).
Proof. intros Hf. unfold decls. by rewrite list_lookup_fmap, Hf. Qed.

Lemma isBitField_true f : isBitField f = true ↔ f_bitCount f ≠ 0.
Proof. unfold isBitField. destruct (N.eqb_spec (f_bitCount f) 0); cbn; split; congruence. Qed.

(** The last bit field is the field before. *)
Definition last_is (s : StructType) (k : nat) : Prop :=
  last_field s = None ∨ ∃ j, k = S j ∧ last_field s = m_fieldArray s !! j.

Lemma needs_app l1 l2 : needs (l1 ++ l2) = needs l1 + needs l2.
Proof.
  induction l1 as [|t l1 IH]; [done|]. change (needs ((t :: l1) ++ l2)) with (type_need t + needs (l1 ++ l2)).
  change (needs (t :: l1)) with (type_need t + needs l1). rewrite IH. lia.
Qed.

Definition decl_types (l : list decl) : list type := (λ d, d.1.1) <$> l.

(** Whether the field that is in a list is ready. *)
Definition ready_to (s : StructType) (k : nat) : Prop :=
  ∀ i f, (i < k)%nat → m_fieldArray s !! i = Some f → f_layoutReady f = true.

Lemma field_loop n : ∀ k b s s' need, layout_field_loop E k n s = (inl tt, s') →
  Inv s (items s b k) need → LastInv s (items s b k) → last_is s k → decls_ok (decls s) →
  need + needs (decl_types (take n (drop k (decls s)))) < size_mod → ready_to s k →
  Inv s' (items s' b (k + n)) (need + needs (decl_types (take n (drop k (decls s))))) ∧
  LastInv s' (items s' b (k + n)) ∧ last_is s' (k + n) ∧ decls s' = decls s ∧ bases s' = bases s ∧
  m_baseTypeList s' = m_baseTypeList s ∧ kept s s' ∧ ready_to s' (k + n).
Proof.
  induction n as [|n IH]; intros k b s s' need H HI HL Hlast Hok Hroom Hready; cbn [layout_field_loop] in H.
  { injection H as <-. rewrite Nat.add_0_r. cbn in *. rewrite N.add_0_r. done. }
  destruct (layoutField E k s) as [ [ [] |e] s1] eqn:H1; [|done].
  assert (Hstep : ∀ f, m_fieldArray s !! k = Some f → isPowerOf2 (t_alignment (f_type f)) ∧
    need + t_size (f_type f) + t_alignment (f_type f) < size_mod ∧
    (isBitField f = true → 8 * t_size (f_type f) < 2 ^ 32 ∧ ∀ l, last_field s = Some l →
      isEqual (f_type l) (f_type f) = true → f_type l = f_type f ∧ isBigEndian l = isBigEndian f)).
  { intros f Hf. pose proof (decls_lookup _ _ _ Hf) as Hd. split; [by eapply do_align|]. split.
    - erewrite drop_S in Hroom by done. cbn in Hroom. unfold type_need in Hroom. cbn in Hroom. lia.
    - intros Hb%isBitField_true. split; [by eapply do_size|]. intros l Hl He.
      destruct Hlast as [Hn|(j & -> & Hj)]; [congruence|]. rewrite Hl in Hj. symmetry in Hj.
      pose proof (decls_lookup _ _ _ Hj) as Hdl. split; [by eapply do_signature|].
      unfold LastInv in HL. rewrite Hl in HL. destruct HL as [Hlb%isBitField_true _]. by eapply do_order. }
  destruct (field_step b k s s1 need HI HL H1 Hstep) as (f & f' & Hf & Hf' & Hsame & Hk1 & Hbl & Hrd & HI1 & HL1 & Hla).
  pose proof (decls_insert s s1 k f f' Hf Hf' Hsame) as Hd1. pose proof (lookup_lt_Some _ _ _ Hf) as Hlt.
  assert (Hneed : needs (decl_types (take (S n) (drop k (decls s)))) =
    t_size (f_type f) + t_alignment (f_type f) + needs (decl_types (take n (drop (S k) (decls s))))).
  { erewrite drop_S by by apply decls_lookup. done. }
  destruct (IH (S k) b s1 s' (need + t_size (f_type f) + t_alignment (f_type f)) H HI1 HL1)
    as (R1 & R2 & R3 & R4 & R5 & R6 & R7 & R8).
  - destruct Hla as [Hla|Hla]; [by left|]. right. exists k. split; [done|]. rewrite Hla, Hf'.
    symmetry. by apply list_lookup_insert_eq.
  - by rewrite Hd1.
  - rewrite Hd1. lia.
  - intros i g Hi Hg. rewrite Hf' in Hg. destruct (decide (i = k)) as [->|Hne].
    + rewrite list_lookup_insert_eq in Hg by done. by injection Hg as <-.
    + rewrite list_lookup_insert_ne in Hg by done. apply (Hready i); [lia|done].
  - rewrite Hd1 in R1. replace (S k + n)%nat with (k + S n)%nat in * by lia.
    split; [eapply layout_inv_weaken; [exact R1|lia]|]. split; [done|]. split; [done|]. split; [congruence|].
    split; [unfold bases in *; by rewrite R5, Hbl|]. split; [congruence|]. split; [|done].
    destruct Hk1 as (K1 & K2 & K3 & K4), R7 as (L1 & L2 & L3 & L4). unfold kept. by rewrite L1, L2, L3, L4.
Qed.

Lemma items_slot s s' i b' : m_baseTypeList s' = <[i := b']> (m_baseTypeList s) → (i < length (m_baseTypeList s))%nat →
  items s' (S i) 0 = items s i 0 ++ [slot_item b'].
Proof.
  intros Hb Hi. unfold items. rewrite Hb, !take_0. cbn. rewrite !app_nil_r.
  rewrite (take_S_r _ _ b') by by apply list_lookup_insert_eq. by rewrite fmap_app, take_insert_ge by lia.
Qed.

Lemma base_loop n : ∀ i s s' need, layout_base_loop E i n s = (inl tt, s') → Inv s (items s i 0) need →
  (∀ t, t ∈ bases s → isPowerOf2 (t_alignment t)) → need + needs (take n (drop i (bases s))) < size_mod →
  last_field s = None →
  Inv s' (items s' (i + n) 0) (need + needs (take n (drop i (bases s)))) ∧ bases s' = bases s ∧
  m_fieldArray s' = m_fieldArray s ∧ kept s s' ∧ last_field s' = None.
Proof.
  induction n as [|n IH]; intros i s s' need H HI Hp Hroom Hla; cbn [layout_base_loop] in H.
  { injection H as <-. rewrite Nat.add_0_r. cbn in *. rewrite N.add_0_r. done. }
  apply bind_inv in H as ([] & s1 & H1 & H).
  destruct (layoutBaseType_ok E i s s1 H1) as (b & b' & Hb & Hb' & Hty & Hk1 & Hfa & Hla1 & Hu & _).
  pose proof (lookup_lt_Some _ _ _ Hb) as Hlt.
  assert (Hbs : bases s !! i = Some (b_type b)) by (unfold bases; by rewrite list_lookup_fmap, Hb).
  assert (Hbases : bases s1 = bases s).
  { unfold bases. rewrite Hb', list_fmap_insert, Hty. apply list_insert_id. done. }
  assert (Hneed : needs (take (S n) (drop i (bases s))) =
    t_size (b_type b) + t_alignment (b_type b) + needs (take n (drop (S i) (bases s)))).
  { by erewrite drop_S by done. }
  destruct (inv_unit s s1 (items s i 0) need (b_type b) (slot_item b') HI Hu Hk1 Hty I) as (HI1 & _).
  { apply Hp. by eapply list_elem_of_lookup_2. }
  { lia. }
  rewrite <- (items_slot s s1 i b' Hb' Hlt) in HI1.
  destruct (IH (S i) s1 s' _ H HI1) as (R1 & R2 & R3 & R4 & R5).
  - by rewrite Hbases.
  - rewrite Hbases. lia.
  - unfold last_field. by rewrite Hla1.
  - rewrite Hbases in R1. replace (S i + n)%nat with (i + S n)%nat in * by lia.
    split; [eapply layout_inv_weaken; [exact R1|lia]|]. split; [congruence|]. split; [congruence|]. split; [|done].
    destruct Hk1 as (K1 & K2 & K3 & K4), R4 as (L1 & L2 & L3 & L4). unfold kept. by rewrite L1, L2, L3, L4.
Qed.
End inv.

(** ** The end of the layout *)

Section finish.
Context `{HA : Axl, !AxlLaws HA} (E : env).

(** The parts the scan of the members does not change. *)
Definition placed_same (s s' : StructType) : Prop :=
  m_fieldArray s' = m_fieldArray s ∧ m_baseTypeList s' = m_baseTypeList s ∧ m_fieldSize s' = m_fieldSize s ∧
  m_alignment s' = m_alignment s ∧ m_llvmFieldTypeArray s' = m_llvmFieldTypeArray s ∧
  m_fieldAlignment s' = m_fieldAlignment s.

Lemma placed_same_trans s1 s2 s3 : placed_same s1 s2 → placed_same s2 s3 → placed_same s1 s3.
Proof.
  intros (A1 & A2 & A3 & A4 & A5 & A6) (B1 & B2 & B3 & B4 & B5 & B6). unfold placed_same.
  by rewrite B1, B2, B3, B4, B5, B6.
Qed.

Lemma scan_field_same i s s' : scan_field i s = (inl tt, s') →
  placed_same s s' ∧ m_size s' = m_size s ∧ m_structTypeKind s' = m_structTypeKind s.
Proof.
  intros H. unfold scan_field in H. apply get_field_bind_inv in H as (f & _ & H).
  unfold when, append_init, and_thin, or_flags, modify, mbind, M_bind, mret, M_ret in H.
  repeat match type of H with context [if ?b then _ else _] => destruct b end; injection H as <-; done.
Qed.

Lemma scan_loop_same n : ∀ i s s', scan_loop i n s = (inl tt, s') →
  placed_same s s' ∧ m_size s' = m_size s ∧ m_structTypeKind s' = m_structTypeKind s.
Proof.
  induction n as [|n IH]; intros i s s' H; cbn [scan_loop] in H; [by injection H as <-|].
  apply bind_inv in H as ([] & s1 & H1 & H). destruct (scan_field_same _ _ _ H1) as (P1 & Q1 & K1).
  destruct (IH _ _ _ H) as (P2 & Q2 & K2). split; [by eapply placed_same_trans|]. split; congruence.
Qed.

Lemma opaque_size_same s s' : opaque_size E s = (inl tt, s') → placed_same s s' ∧ m_size s ≤ m_size s'.
Proof.
  intros H. unfold opaque_size in H. rewrite get_bind in H. destruct (m_parentClass s) as [ [flags info]|]; [|done].
  unfold when in H. destruct (has_flag _ _ && _); [|by injection H as <-; split; [|lia] ].
  destruct info as [info|]; [|done]. rewrite get_bind in H. apply check_bind_inv in H as [Hc H]. to_prop.
  rewrite modify_bind in H. unfold or_class_flags, modify, mbind, M_bind, mret, M_ret in H.
  repeat match type of H with context [if ?b then _ else _] => destruct b end; injection H as <-; done.
Qed.

(** What the end of the layout adds: the size, and the padding to it. *)
Lemma finish_layout_ok s s' : finish_layout E s = (inl tt, s') → m_structTypeKind s ≠ StructTypeKind_Adapter →
  m_fieldArray s' = m_fieldArray s ∧ m_baseTypeList s' = m_baseTypeList s ∧ m_fieldSize s' = m_fieldSize s ∧
  m_alignment s' = m_alignment s ∧ m_fieldAlignment s' = m_fieldAlignment s ∧
  sl_align (m_fieldSize s) (m_alignment s) ≤ m_size s' ∧
  (m_structTypeKind s ≠ StructTypeKind_IfaceStruct → m_size s' = sl_align (m_fieldSize s) (m_alignment s)) ∧
  (e_hasCodeGen E = true →
    m_llvmBody s' = Some (m_llvmFieldTypeArray s ++ padding (m_fieldSize s) (m_size s'))).
Proof.
  intros H Hkind. unfold finish_layout in H. rewrite get_bind in H. rewrite decide_False in H by done.
  rewrite modify_bind in H. set (s1 := set_size _ s) in H. apply bind_inv in H as ([] & s2 & H1 & H).
  assert (Hs2 : placed_same s s2 ∧ m_size s1 ≤ m_size s2 ∧
    (m_structTypeKind s ≠ StructTypeKind_IfaceStruct → m_size s2 = m_size s1)).
  { destruct (decide (m_structTypeKind s = StructTypeKind_Normal)) as [Hn|Hn].
    - rewrite get_bind in H1. apply bind_inv in H1 as ([] & s3 & H2 & H1).
      destruct (scan_loop_same _ _ _ _ H2) as (P & Q & _). apply check_bind_inv in H1 as [_ H1].
      unfold check in H1. destruct (e_createDefaultMethods E); [|done]. injection H1 as <-.
      split; [exact P|]. rewrite Q. split; [lia|done].
    - unfold when in H1. case_bool_decide as Hi.
      + destruct (opaque_size_same _ _ H1) as [P Q]. split; [exact P|]. split; [exact Q|done].
      + injection H1 as <-. split; [done|]. split; [lia|done]. }
  destruct Hs2 as ((P1 & P2 & P3 & P4 & P5 & P6) & Hle & Heq). rewrite !get_bind in H.
  assert (Hs' : m_fieldArray s' = m_fieldArray s2 ∧ m_baseTypeList s' = m_baseTypeList s2 ∧ m_fieldSize s' = m_fieldSize s2 ∧
    m_alignment s' = m_alignment s2 ∧ m_fieldAlignment s' = m_fieldAlignment s2 ∧ m_size s' = m_size s2 ∧
    (e_hasCodeGen E = true →
      m_llvmBody s' = Some (m_llvmFieldTypeArray s2 ++ padding (m_fieldSize s2) (m_size s2)))).
  { unfold padding. unfold when, addLlvmPadding, append_llvm, or_flags, modify, mbind, M_bind, mret, M_ret in H.
    destruct (e_hasCodeGen E); [destruct (m_fieldSize s2 <? m_size s2)|];
      destruct (TypeSizeLimit_StackAllocSize <? m_size s2); injection H as <-; cbn; rewrite ?app_nil_r; done. }
  destruct Hs' as (Q1 & Q2 & Q3 & Q4 & Q5 & Q6 & Q7).
  rewrite Q1, Q2, Q3, Q4, Q5, Q6, P1, P2, P3, P4, P6. rewrite P3, P5 in Q7. cbn in Hle, Heq.
  repeat split; try done.
Qed.

(** ** The whole *)

(** A struct none of whose fields are laid out. *)
Record fresh_struct (s : StructType) : Prop := {
  fs_size : m_fieldSize s = 0;
  fs_count : m_laidOutFieldCount s = 0%nat;
  fs_llvm : m_llvmFieldTypeArray s = [];
  fs_last : m_lastBitField s = None;
  fs_align : pow2_alignment s;
  fs_kind : m_structTypeKind s ≠ StructTypeKind_Adapter
}.

(** Its base types and fields can be laid out in the address space. *)
Record layout_ok (s : StructType) : Prop := {
  lo_decls : decls_ok (decls s);
  lo_bases : ∀ t, t ∈ bases s → isPowerOf2 (t_alignment t);
  lo_room : needs (bases s ++ decl_types (decls s)) + m_fieldAlignment s < size_mod
}.

Definition all_items (s : StructType) : list item := items s (length (m_baseTypeList s)) (length (m_fieldArray s)).

Lemma decls_length s s' : decls s' = decls s → length (m_fieldArray s') = length (m_fieldArray s).
Proof. intros H. apply (f_equal length) in H. unfold decls in H. by rewrite !length_fmap in H. Qed.

Lemma bases_length s s' : bases s' = bases s → length (m_baseTypeList s') = length (m_baseTypeList s).
Proof. intros H. apply (f_equal length) in H. unfold bases in H. by rewrite !length_fmap in H. Qed.

Lemma layout_fields_ok s s' : fresh_struct s → layout_ok s → layout_fields E s = (inl tt, s') →
  Inv E s' (all_items s') (needs (bases s ++ decl_types (decls s))) ∧ decls s' = decls s ∧ bases s' = bases s ∧
  m_structTypeKind s' = m_structTypeKind s ∧ m_fieldAlignment s' = m_fieldAlignment s ∧
  ready_to s' (length (m_fieldArray s')) ∧ m_parentClass s' = m_parentClass s.
Proof.
  intros [F1 F2 F3 F4 F5 F6] [O1 O2 O3] H. unfold layout_fields in H. rewrite get_bind, F2 in H.
  apply bind_inv in H as ([] & s1 & H1 & H). cbn in H1. apply check_bind_inv in H1 as [_ H1]. rewrite get_bind in H1.
  rewrite get_bind in H. apply bind_inv in H as ([] & s2 & H2 & H). injection H as <-.
  rewrite needs_app in *. assert (HI0 : Inv E s (items s 0 0) 0).
  { split; [constructor|constructor|done|lia|]. intros _. rewrite F1, F3. split; [done|constructor]. }
  assert (Hall : take (length (m_baseTypeList s)) (drop 0 (bases s)) = bases s).
  { rewrite drop_0. apply take_ge. unfold bases. by rewrite length_fmap. }
  destruct (base_loop E _ 0%nat s s1 0 H1 HI0 O2) as (R1 & R2 & R3 & R4 & R5).
  { rewrite Hall. lia. }
  { unfold last_field. by rewrite F4. }
  rewrite Hall in R1. cbn [Nat.add] in R1. rewrite N.add_0_l in R1.
  assert (Hd1 : decls s1 = decls s) by (unfold decls; by rewrite R3).
  assert (Hall2 : take (length (m_fieldArray s1)) (drop 0 (decls s1)) = decls s1).
  { rewrite drop_0. apply take_ge. unfold decls. by rewrite length_fmap. }
  rewrite Nat.sub_0_r in H2.
  destruct (field_loop E (length (m_fieldArray s1)) 0%nat (length (m_baseTypeList s)) s1 s2 _ H2 R1)
    as (T1 & T2 & T3 & T4 & T5 & T6 & T7 & T8).
  - unfold LastInv. by rewrite R5.
  - by left.
  - by rewrite Hd1.
  - rewrite Hall2, Hd1. lia.
  - intros i f Hi. lia.
  - rewrite Hall2, Hd1 in T1. rewrite Nat.add_0_l in *. destruct R4 as (K1 & K2 & _ & K4), T7 as (L1 & L2 & _ & L4).
    pose proof (decls_length _ _ T4) as Hlen. pose proof (bases_length _ _ R2) as Hlb.
    set (c := length (m_fieldArray s1)). change (decls (set_laidOutFieldCount c s2)) with (decls s2).
    change (bases (set_laidOutFieldCount c s2)) with (bases s2).
    split; [|split; [congruence|split; [congruence|] ] ].
    + destruct T1 as [V1 V2 V3 V4 V5]. unfold all_items. cbn [m_baseTypeList m_fieldArray set_laidOutFieldCount].
      rewrite T6, Hlb, Hlen. split; done.
    + cbn. split; [congruence|]. split; [congruence|]. split; [by rewrite Hlen|congruence].
Qed.
End finish.
