(* ===== verification/StructLayoutProps.v ===== *)
(** * The layout of structs: properties

    When the layout succeeds and what it guarantees, on [StructLayoutSpec]. *)

From S2P Require Import Prelude StructLayout StructLayoutSpec.

Open Scope N_scope.

(** ** Success *)

(** The operation succeeds. *)
Definition ok {A} (m : M A) (s : StructType) : Prop := ∃ x s', m s = (inl x, s').

Lemma ok_bind {A B} (m : M A) (k : A → M B) s : ok m s → (∀ x s', m s = (inl x, s') → ok (k x) s') → ok (m ≫= k) s.
Proof. intros (x & s1 & Hm) Hk. destruct (Hk x s1 Hm) as (y & s2 & Hy). exists y, s2. unfold mbind, M_bind. by rewrite Hm. Qed.

Lemma ok_mret {A} (x : A) s : ok (mret x) s.
Proof. by exists x, s. Qed.

Lemma ok_get {A} (f : StructType → A) s : ok (get f) s.
Proof. by eexists _, _. Qed.

Lemma ok_modify f s : ok (modify f) s.
Proof. by eexists _, _. Qed.

Lemma ok_upd_field i f s : ok (upd_field i f) s.
Proof. apply ok_modify. Qed.

Lemma ok_upd_slot i f s : ok (upd_slot i f) s.
Proof. apply ok_modify. Qed.

Lemma ok_when b m s : (b = true → ok m s) → ok (when b m) s.
Proof. unfold when. destruct b; [auto|]. intros _. apply ok_mret. Qed.

Lemma ok_check b e s : b = true → ok (check b e) s.
Proof. intros ->. apply ok_mret. Qed.

Lemma ok_get_field i s f : m_fieldArray s !! i = Some f → ok (get_field i) s.
Proof. intros Hf. exists f, s. unfold get_field. by rewrite Hf. Qed.

Lemma ok_get_slot i s b : m_baseTypeList s !! i = Some b → ok (get_slot i) s.
Proof. intros Hf. exists b, s. unfold get_slot. by rewrite Hf. Qed.

(** Operations that do not fail. *)
Ltac ok_step :=
  match goal with
  | |- ok (mbind _ _) _ => apply ok_bind; [|intros ? ? ?]
  | |- ok (mret _) _ => apply ok_mret
  | |- ok (get _) _ => apply ok_get
  | |- ok (modify _) _ => apply ok_modify
  | |- ok (upd_field _ _) _ => apply ok_upd_field
  | |- ok (upd_slot _ _) _ => apply ok_upd_slot
  | |- ok (when _ _) _ => apply ok_when; intros ?
  | |- ok (let '(_, _) := ?p in _) _ => destruct p
  | |- ok (if ?b then _ else _) _ => destruct b
  | |- ok (match ?x with _ => _ end) _ => destruct x
  end.

Section success.
Context `{HA : Axl, !AxlLaws HA} (E : env).

Lemma ok_getFieldOffset t s : ok (getFieldOffset t) s.
Proof. unfold getFieldOffset. repeat ok_step. Qed.

Lemma ok_place t off s : ok (place E t off) s.
Proof. unfold place, addLlvmPadding, append_llvm. repeat ok_step. Qed.

Lemma ok_layoutFieldImpl t s : ok (layoutFieldImpl E t) s.
Proof. unfold layoutFieldImpl. repeat first [apply ok_getFieldOffset|apply ok_place|ok_step]. Qed.

Lemma ok_get_bind {A B} (f : StructType → A) (k : A → M B) s : ok (k (f s)) s → ok (get f ≫= k) s.
Proof. done. Qed.

Lemma ok_check_bind {B} b e (k : unit → M B) s : b = true → ok (k tt) s → ok (check b e ≫= k) s.
Proof. by intros ->. Qed.

Lemma ok_get_field_bind {B} i (k : Field → M B) s f : m_fieldArray s !! i = Some f → ok (k f) s → ok (get_field i ≫= k) s.
Proof. intros Hf Hk. unfold ok, mbind, M_bind, get_field. by rewrite Hf. Qed.

Lemma ok_get_slot_bind {B} i (k : BaseTypeSlot → M B) s b :
  m_baseTypeList s !! i = Some b → ok (k b) s → ok (get_slot i ≫= k) s.
Proof. intros Hf Hk. unfold ok, mbind, M_bind, get_slot. by rewrite Hf. Qed.

(** What a field needs for its layout. *)
Definition field_ready (kind : StructTypeKind) (f : Field) : Prop :=
  f_layoutReady f = false ∧ f_ensureAttributeValuesReady f = true ∧ t_ensureLayout (f_type f) = true ∧
  (kind = StructTypeKind_IfaceStruct ∨ t_isClass (f_type f) = false) ∧
  f_bitCount f ≤ mul64 (t_size (f_type f)) 8.

Lemma ok_layoutField i s f : m_fieldArray s !! i = Some f → field_ready (m_structTypeKind s) f → ok (layoutField E i) s.
Proof.
  intros Hf (R1 & R2 & R3 & R4 & R5). unfold layoutField. apply (ok_get_field_bind _ _ _ f Hf).
  apply ok_check_bind; [by rewrite R1|]. apply ok_check_bind; [by rewrite R2, R3|]. apply ok_get_bind.
  apply ok_check_bind.
  { destruct R4 as [->| ->]; [by rewrite bool_decide_true|]. apply orb_true_r. }
  apply ok_bind; [|intros; apply ok_upd_field]. destruct (negb (f_bitCount f =? 0)).
  - unfold layoutBitField. apply (ok_get_field_bind _ _ _ f Hf). apply ok_check_bind.
    { apply negb_true_iff, N.ltb_ge. done. }
    apply ok_get_bind. destruct (bit_place _ f) as [bitOffset isMerged].
    repeat first [apply ok_getFieldOffset|apply ok_place|ok_step].
  - repeat first [apply ok_layoutFieldImpl|ok_step].
Qed.

Lemma ok_field_loop n : ∀ k s, (k + n ≤ length (m_fieldArray s))%nat →
  (∀ i f, (k ≤ i)%nat → m_fieldArray s !! i = Some f → field_ready (m_structTypeKind s) f) →
  ok (layout_field_loop E k n) s.
Proof.
  induction n as [|n IH]; intros k s Hn Hr; [apply ok_mret|].
  destruct (lookup_lt_is_Some_2 (m_fieldArray s) k) as [f Hf]; [lia|].
  destruct (ok_layoutField k s f Hf) as ([] & s1 & H1); [by apply (Hr k)|].
  unfold ok. cbn [layout_field_loop]. rewrite H1.
  destruct (layoutField_ok E k s s1 H1) as (f0 & f' & _ & Hf' & _ & (K1 & _) & _).
  apply IH.
  - rewrite Hf', length_insert. lia.
  - intros i g Hi Hg. rewrite Hf', list_lookup_insert_ne in Hg by lia. rewrite K1. apply (Hr i); [lia|done].
Qed.

(** What a base type needs. *)
Definition base_ready (t : type) : Prop := t_ensureLayout t = true ∧ t_isDerivable t = true ∧ t_isClass t = false.

Lemma ok_layoutBaseType i s b : m_baseTypeList s !! i = Some b → base_ready (b_type b) →
  t_signature (b_type b) ∉ m_baseTypeMap s → ok (layoutBaseType E i) s.
Proof.
  intros Hb (R1 & R2 & R3) Hm. unfold layoutBaseType. apply (ok_get_slot_bind _ _ _ b Hb).
  apply ok_check_bind; [done|]. apply ok_check_bind; [by rewrite R2, R3|]. apply ok_get_bind.
  apply ok_check_bind; [by rewrite bool_decide_false|]. unfold or_flags, and_thin.
  repeat first [apply ok_layoutFieldImpl|ok_step].
Qed.

Lemma ok_base_loop n : ∀ i s, (i + n ≤ length (m_baseTypeList s))%nat →
  (∀ t, t ∈ bases s → base_ready t) → NoDup (t_signature <$> bases s) →
  (∀ sig, sig ∈ m_baseTypeMap s → ∃ j t, (j < i)%nat ∧ bases s !! j = Some t ∧ t_signature t = sig) →
  ok (layout_base_loop E i n) s.
Proof.
  induction n as [|n IH]; intros i s Hn Hr Hnd Hmap; [apply ok_mret|]. cbn [layout_base_loop].
  destruct (lookup_lt_is_Some_2 (m_baseTypeList s) i) as [b Hb]; [lia|].
  assert (Hbi : bases s !! i = Some (b_type b)) by (unfold bases; by rewrite list_lookup_fmap, Hb).
  destruct (ok_layoutBaseType i s b Hb) as ([] & s1 & H1).
  { apply Hr. by eapply list_elem_of_lookup_2. }
  { intros (j & t & Hj & Ht & He)%Hmap. assert (j = i); [|lia].
    eapply NoDup_lookup; [exact Hnd| |]; rewrite list_lookup_fmap; [rewrite Ht|rewrite Hbi]; cbn; by f_equal. }
  unfold ok, mbind, M_bind. rewrite H1.
  destruct (layoutBaseType_ok E i s s1 H1) as (b0 & b' & Hb0 & Hb' & Hty & _ & _ & _ & _ & Hmp).
  rewrite Hb in Hb0. injection Hb0 as <-.
  assert (Hbases : bases s1 = bases s).
  { unfold bases. rewrite Hb', list_fmap_insert, Hty. by apply list_insert_id. }
  apply IH.
  - rewrite Hb', length_insert. lia.
  - by rewrite Hbases.
  - by rewrite Hbases.
  - rewrite Hbases, Hmp. intros sig [->|Hs]%elem_of_cons; [by exists i, (b_type b); split; [lia|] |].
    destruct (Hmap sig Hs) as (j & t & Hj & ?). exists j, t. split; [lia|done].
Qed.

Lemma ok_scan n : ∀ i s, (i + n ≤ length (m_fieldArray s))%nat → ok (scan_loop i n) s.
Proof.
  induction n as [|n IH]; intros i s Hn; [apply ok_mret|]. cbn [scan_loop].
  destruct (lookup_lt_is_Some_2 (m_fieldArray s) i) as [f Hf]; [lia|]. apply ok_bind.
  - unfold scan_field. apply (ok_get_field_bind _ _ _ f Hf). unfold append_init, and_thin, or_flags. repeat ok_step.
  - intros [] s1 H1. destruct (scan_field_same _ _ _ H1) as ((P & _) & _). apply IH. rewrite P. lia.
Qed.

(** A struct the layout accepts; an interface struct is that of a class that is
    not opaque. *)
Record accepted (s : StructType) : Prop := {
  ac_flags : has_flag TypeFlag_LayoutReady (m_flags s) = false;
  ac_names : e_ensureNamespaceReady E = true ∧ e_ensureAttributeValuesReady E = true;
  ac_methods : e_noPropertyDestruct E = true ∧ e_createDefaultMethods E = true;
  ac_bases : ∀ t, t ∈ bases s → base_ready t;
  ac_distinct : NoDup (t_signature <$> bases s);
  ac_map : m_baseTypeMap s = [];
  ac_fields : ∀ f, f ∈ m_fieldArray s → field_ready (m_structTypeKind s) f;
  ac_class : m_structTypeKind s = StructTypeKind_IfaceStruct →
    ∃ flags info, m_parentClass s = Some (flags, info) ∧ has_flag ClassTypeFlag_Opaque flags = false
}.

Lemma ok_finish s : m_structTypeKind s ≠ StructTypeKind_Adapter → e_noPropertyDestruct E = true →
  e_createDefaultMethods E = true →
  (m_structTypeKind s = StructTypeKind_IfaceStruct →
    ∃ flags info, m_parentClass s = Some (flags, info) ∧ has_flag ClassTypeFlag_Opaque flags = false) →
  ok (finish_layout E) s.
Proof.
  intros Hk H1 H2 Hc. unfold finish_layout. apply ok_get_bind. rewrite decide_False by done.
  apply ok_bind; [apply ok_modify|]. intros [] s1 Hs1. injection Hs1 as <-. apply ok_bind.
  - destruct (decide (m_structTypeKind s = StructTypeKind_Normal)).
    + apply ok_get_bind. apply ok_bind; [apply ok_scan; lia|]. intros. apply ok_check_bind; [done|]. by apply ok_check.
    + apply ok_when. intros Hi%bool_decide_eq_true. destruct (Hc Hi) as (flags & info & Hp & Hf).
      unfold opaque_size. apply ok_get_bind. cbn. rewrite Hp. unfold when. rewrite Hf. apply ok_mret.
  - intros. unfold addLlvmPadding, append_llvm, or_flags. repeat ok_step.
Qed.

Lemma ok_calcLayout s : fresh_struct s → layout_ok s → accepted s → ok (calcLayoutTo E None) s.
Proof.
  intros Hfr Hlo [A1 [A2 A3] [A4 A5] A6 A7 A8 A9 A10]. unfold calcLayoutTo. apply ok_get_bind.
  apply ok_check_bind; [by rewrite A1|].
  assert (Hok : ok (layout_fields E) s).
  { unfold layout_fields. apply ok_get_bind. rewrite (fs_count s Hfr). cbn [Nat.eqb].
    apply ok_bind.
    - apply ok_check_bind; [by rewrite A2, A3|]. apply ok_get_bind. apply ok_base_loop; [lia|done|done|].
      intros sig. rewrite A8. intros []%not_elem_of_nil.
    - intros [] s1 H1. apply check_bind_inv in H1 as [_ H1]. rewrite get_bind in H1.
      assert (Hs1 : bases s1 = bases s ∧ m_fieldArray s1 = m_fieldArray s ∧ kept s s1).
      { destruct Hlo as [O1 O2 O3]. destruct Hfr as [F1 F2 F3 F4 F5 F6]. rewrite needs_app in O3.
        assert (HI0 : Inv E s (items s 0 0) 0).
        { split; [constructor|constructor|done|lia|]. intros _. rewrite F1, F3. split; [done|constructor]. }
        destruct (base_loop E _ 0%nat s s1 0 H1 HI0 O2) as (R1 & R2 & R3 & R4 & R5); [|unfold last_field; by rewrite F4|done].
        rewrite drop_0, take_ge by (unfold bases; by rewrite length_fmap). lia. }
      destruct Hs1 as (_ & Hfa & (K1 & _)). apply ok_get_bind. apply ok_bind; [|intros; apply ok_modify].
      rewrite Nat.sub_0_r. apply ok_field_loop; [lia|]. intros i f _ Hf. rewrite K1. apply A9.
      rewrite <- Hfa. by eapply list_elem_of_lookup_2. }
  apply ok_bind; [done|]. intros [] s1 H1.
  destruct (layout_fields_ok E s s1 Hfr Hlo H1) as (_ & _ & _ & K1 & _ & _ & K2).
  apply ok_finish; [by rewrite K1; apply Hfr|done|done|]. by rewrite K1, K2.
Qed.

(** ** Soundness *)

(** The field or base type is inside the struct, at a multiple of its alignment,
    which divides that of the struct. *)
Definition inside (s : StructType) (it : item) : Prop :=
  let a := field_alignment (m_fieldAlignment s) (it_type it) in
  it_offset it + t_size (it_type it) ≤ m_size s ∧ (a | it_offset it) ∧ (a | m_alignment s) ∧ bits_ok it.

Lemma layout_none s s' : calcLayoutTo E None s = (inl tt, s') →
  ∃ s1, layout_fields E s = (inl tt, s1) ∧ finish_layout E s1 = (inl tt, s').
Proof.
  intros H. unfold calcLayoutTo in H. rewrite get_bind in H. apply check_bind_inv in H as [_ H].
  apply bind_inv in H as ([] & s1 & H1 & H2). by exists s1.
Qed.

Lemma calcLayout_sound s s' : fresh_struct s → layout_ok s → calcLayoutTo E None s = (inl tt, s') →
  decls s' = decls s ∧ bases s' = bases s ∧ ready_to s' (length (m_fieldArray s')) ∧
  StronglySorted before (all_items s') ∧ Forall (inside s') (all_items s') ∧
  m_fieldSize s' ≤ m_size s' ∧ isPowerOf2 (m_alignment s') ∧
  (m_structTypeKind s ≠ StructTypeKind_IfaceStruct →
    (m_alignment s' | m_size s') ∧ m_size s' < m_fieldSize s' + m_alignment s') ∧
  (e_hasCodeGen E = true → m_size s' < size_mod →
    ∃ body, m_llvmBody s' = Some body ∧ packed body = m_size s' ∧ Forall (llvm_item body) (all_items s')).
Proof.
  intros Hfr Hlo H. apply layout_none in H as (s1 & H1 & H2).
  destruct (layout_fields_ok E s s1 Hfr Hlo H1) as ([I1 I2 (I3 & I3' & I3'') I4 I5] & Hd & Hb & K1 & K2 & Hrd & _).
  assert (Hk : m_structTypeKind s1 ≠ StructTypeKind_Adapter) by (rewrite K1; apply Hfr).
  destruct (finish_layout_ok E s1 s' H2 Hk) as (F1 & F2 & F3 & F4 & F5 & F6 & F7 & F8).
  assert (Hroom : m_fieldSize s1 + m_alignment s1 ≤ size_mod).
  { pose proof (lo_room s Hlo). lia. }
  destruct (align_spec (m_fieldSize s1) (m_alignment s1) I3' Hroom) as (L1 & L2 & L3).
  assert (Hall : all_items s' = all_items s1) by (unfold all_items, items; by rewrite F1, F2).
  split; [unfold decls in *; congruence|]. split; [unfold bases in *; congruence|].
  split; [unfold ready_to; by rewrite F1|]. rewrite Hall. split; [done|]. split; [|split; [|split; [|split] ] ].
  - eapply Forall_impl; [exact I2|]. intros it (G1 & G2 & G3 & G4). unfold inside. rewrite F4, F5.
    split; [lia|]. split; [done|]. split; [|done]. rewrite Forall_forall in I2.
    destruct G3 as [G5 G3]. by apply pow2_divide.
  - rewrite F3. lia.
  - by rewrite F4.
  - rewrite <- K1. intros Hi. rewrite F3, F4, (F7 Hi). done.
  - intros He Hsz. destruct (I5 He) as [P1 P2]. eexists. split; [by apply F8|]. split.
    + rewrite packed_app, P1, packed_padding by lia. lia.
    + eapply Forall_impl; [exact P2|]. intros it. apply llvm_item_app.
Qed.

(** C11: the layout of a struct succeeds whenever its base types and fields are ready
    and fit, and then every base type and every field is inside the struct at a
    multiple of its alignment, no two of them have a byte in common, bit fields of
    one unit have no bit in common, and the size of the struct is its fields
    rounded up to its alignment. This is for types whose alignments are powers of two,
    whose signatures tell them apart, and whose sizes and alignments add up to less than
    2^64 bytes. Excepted are structs in which two bit fields of one
    type and of different byte orders follow each other ([do_order] of [layout_ok]):
    the layout accepts them, and puts them on the same bits ([mixed_order_overlap]). *)
Theorem struct_layout s : fresh_struct s → layout_ok s →
  (accepted s → ∃ s', calcLayoutTo E None s = (inl tt, s')) ∧
  (∀ s', calcLayoutTo E None s = (inl tt, s') →
    decls s' = decls s ∧ bases s' = bases s ∧ ready_to s' (length (m_fieldArray s')) ∧
    StronglySorted before (all_items s') ∧ Forall (inside s') (all_items s') ∧
    (m_structTypeKind s ≠ StructTypeKind_IfaceStruct →
      (m_alignment s' | m_size s') ∧ m_size s' < m_fieldSize s' + m_alignment s')).
Proof.
  intros Hfr Hlo. split.
  - intros Ha. destruct (ok_calcLayout s Hfr Hlo Ha) as ([] & s' & H). by exists s'.
  - intros s' H. destruct (calcLayout_sound s s' Hfr Hlo H) as (R1 & R2 & R3 & R4 & R5 & _ & _ & R7 & _). done.
Qed.

(** C26: the packed LLVM struct agrees with the layout: it has the size of the struct,
    and the element at the index of a field has the type of the field and begins
    at its offset. *)
Theorem llvm_layout s s' : fresh_struct s → layout_ok s → calcLayoutTo E None s = (inl tt, s') →
  e_hasCodeGen E = true → m_size s' < size_mod →
  ∃ body, m_llvmBody s' = Some body ∧ packed body = m_size s' ∧ Forall (llvm_item body) (all_items s').
Proof.
  intros Hfr Hlo H. destruct (calcLayout_sound s s' Hfr Hlo H) as (_ & _ & _ & _ & _ & _ & _ & _ & R8). done.
Qed.
End success.

(** ** Arrays *)

(** an array has the alignment of its element type, and its elements are inside
    it just when their total size is below 2^64: the size wraps around, with no
    error. *)
Theorem array_layout rootTypeFlags value a a' : 0 < t_size (a_elementType a) → (0 < value < 2 ^ 64)%Z →
  user_array_calcLayout rootTypeFlags (Some (Some value)) a = inl a' →
  a_alignment a' = t_alignment (a_elementType a) ∧ a_elementCount a' = Z.to_N value ∧
  ((∀ i, i < a_elementCount a' → (i + 1) * t_size (a_elementType a') ≤ a_size a') ↔
   t_size (a_elementType a) * Z.to_N value < size_mod) ∧
  (t_size (a_elementType a) * Z.to_N value < size_mod → a_size a' = t_size (a_elementType a) * Z.to_N value).
Proof.
  intros Hs Hv H. unfold user_array_calcLayout in H. destruct (Z.leb_spec value 0); [lia|].
  unfold array_calcLayout in H. cbn in H. destruct (t_ensureLayout _); [|done]. destruct (t_isClass _); [done|].
  cbn in H. injection H as <-. cbn. split; [done|]. split; [done|].
  assert (Hw : ∀ n, mul64 (t_size (a_elementType a)) n < size_mod) by (intros; apply wrap64_lt). split.
  - split; intros Hi.
    + specialize (Hi (Z.to_N value - 1)). specialize (Hw (Z.to_N value)).
      assert (t_size (a_elementType a) * Z.to_N value ≤ mul64 (t_size (a_elementType a)) (Z.to_N value)); [|lia].
      etrans; [|apply Hi; lia]. replace (Z.to_N value - 1 + 1) with (Z.to_N value) by lia. lia.
    + intros i Hlt. rewrite mul64_small by done. rewrite (N.mul_comm (t_size _)). apply N.mul_le_mono_r. lia.
  - intros Hi. by apply mul64_small.
Qed.

Section alignment.
Context `{HA : Axl, !AxlLaws HA} (E : env).

Lemma layoutField_mono i s s' : layoutField E i s = (inl tt, s') → m_alignment s ≤ m_alignment s'.
Proof.
  intros H. destruct (layoutField_ok E i s s' H) as (f & f' & _ & _ & _ & _ & _ & _ & Hcase).
  destruct Hcase as [(_ & _ & (_ & _ & -> & _))|(_ & _ & _ & _ & [(l & _ & _ & _ & _ & _ & -> & _)|(_ & (_ & _ & -> & _))])]; lia.
Qed.

Lemma field_loop_mono n : ∀ k s s', layout_field_loop E k n s = (inl tt, s') → m_alignment s ≤ m_alignment s'.
Proof.
  induction n as [|n IH]; intros k s s' H; cbn [layout_field_loop] in H; [by injection H as <-|].
  destruct (layoutField E k s) as [ [ [] |e] s1] eqn:H1; [|done].
  etrans; [by eapply layoutField_mono|by eapply IH].
Qed.

Lemma base_loop_mono n : ∀ i s s', layout_base_loop E i n s = (inl tt, s') → m_alignment s ≤ m_alignment s'.
Proof.
  induction n as [|n IH]; intros i s s' H; cbn [layout_base_loop] in H; [by injection H as <-|].
  apply bind_inv in H as ([] & s1 & H1 & H).
  destruct (layoutBaseType_ok E i s s1 H1) as (b & b' & _ & _ & _ & _ & _ & _ & (_ & _ & Ha & _) & _).
  etrans; [|by eapply IH]. lia.
Qed.

Lemma layout_fields_mono s s' : layout_fields E s = (inl tt, s') → m_alignment s ≤ m_alignment s'.
Proof.
  intros H. unfold layout_fields in H. rewrite get_bind in H. apply bind_inv in H as ([] & s1 & H1 & H).
  rewrite get_bind in H. apply bind_inv in H as ([] & s2 & H2 & H). injection H as <-.
  etrans; [|exact (field_loop_mono _ _ _ _ H2)]. destruct (_ =? _)%nat; [|by injection H1 as <-].
  apply check_bind_inv in H1 as [_ H1]. rewrite get_bind in H1. by eapply base_loop_mono.
Qed.

(** ** Unions *)

(** What the loop over the members finds. *)
Record scanned (fields : list Field) (sc : union_scan) : Prop := {
  sn_types : f_type <$> sc_fields sc = f_type <$> fields;
  sn_pow2 : isPowerOf2 (sc_largestAlignment sc);
  sn_size : ∀ f, f ∈ fields → ∃ l, sc_largestFieldType sc = Some l ∧ t_size (f_type f) ≤ t_size l;
  sn_align : ∀ f, f ∈ fields → t_alignment (f_type f) ≤ sc_largestAlignment sc;
  sn_member : ∀ l, sc_largestFieldType sc = Some l → l ∈ f_type <$> fields
}.

Lemma union_loop_ok todo : ∀ sc sc' done, union_loop todo sc = inl sc' → scanned done sc →
  (∀ f, f ∈ todo → isPowerOf2 (t_alignment (f_type f))) → scanned (done ++ todo) sc'.
Proof.
  induction todo as [|f todo IH]; intros sc sc' dn H Hsc Hp; cbn [union_loop] in H.
  { injection H as <-. by rewrite app_nil_r. }
  destruct (t_ensureLayout (f_type f)); [|done]. destruct (has_flag _ _); [|done]. cbn [negb] in H.
  match type of H with context [let '(a, b) := ?p in _] => destruct p as [init thin] end.
  replace (dn ++ f :: todo) with ((dn ++ [f]) ++ todo) by by rewrite <- app_assoc.
  eapply IH; [exact H| |intros g Hg; apply Hp; by right]. destruct Hsc as [N1 N2 N3 N4 N5].
  assert (Hpf : isPowerOf2 (t_alignment (f_type f))) by (apply Hp; by left).
  split; cbn [sc_fields sc_largestAlignment sc_largestFieldType].
  - rewrite !fmap_app, N1. done.
  - by destruct (_ <? _).
  - intros g [Hg|Hg%list_elem_of_singleton]%elem_of_app.
    + destruct (N3 g Hg) as (l & -> & Hl). destruct (N.ltb_spec (t_size l) (t_size (f_type f))); eexists; (split; [done|lia]).
    + subst g. destruct (sc_largestFieldType sc) as [l|]; [|by eexists].
      destruct (N.ltb_spec (t_size l) (t_size (f_type f))); eexists; (split; [done|lia]).
  - intros g [Hg|Hg%list_elem_of_singleton]%elem_of_app.
    + pose proof (N4 g Hg). destruct (N.ltb_spec (sc_largestAlignment sc) (t_alignment (f_type f))); lia.
    + subst g. destruct (N.ltb_spec (sc_largestAlignment sc) (t_alignment (f_type f))); lia.
  - intros l Hl. rewrite fmap_app, elem_of_app. destruct (sc_largestFieldType sc) as [l0|].
    + destruct (_ <? _); injection Hl as <-; [right; by left|left; by apply N5].
    + injection Hl as <-. right. by left.
Qed.

(** A struct of one plain field is as large as the field. *)
Lemma single_field s s' f : fresh_struct s → m_baseTypeList s = [] → m_fieldArray s = [f] → isBitField f = false →
  isPowerOf2 (t_alignment (f_type f)) → t_size (f_type f) + m_fieldAlignment s < size_mod →
  layout_fields E s = (inl tt, s') → m_fieldSize s' = t_size (f_type f).
Proof.
  intros [F1 F2 F3 F4 (F5 & F6 & F7) F8] Hb Hf Hbit Hp Hroom H. unfold layout_fields in H. rewrite get_bind, F2 in H.
  apply bind_inv in H as ([] & s1 & H1 & H). cbn in H1. apply check_bind_inv in H1 as [_ H1].
  rewrite get_bind, Hb in H1. injection H1 as <-. rewrite get_bind, Hf in H. cbn [length Nat.sub] in H.
  apply bind_inv in H as ([] & s2 & H2 & H). injection H as <-. cbn [layout_field_loop] in H2.
  destruct (layoutField E 0 s) as [ [ [] |e] s3] eqn:H3; [|done]. injection H2 as <-.
  destruct (layoutField_ok E _ _ _ H3) as (g & g' & Hg & _ & _ & _ & _ & _ & Hcase).
  rewrite Hf in Hg. injection Hg as <-. destruct Hcase as [(_ & _ & Hoff & Hfs & _)|(Hbad & _)]; [|congruence].
  unfold impl_offset in Hoff. rewrite F1 in Hoff. set (a := field_alignment _ _) in Hoff.
  assert (Ha : isPowerOf2 a) by by apply pow2_min.
  assert (Hle : a ≤ m_fieldAlignment s) by apply N.le_min_l.
  destruct (align_spec 0 a Ha) as (_ & Hlt & [q Hq]); [lia|].
  assert (Hz : f_offset g' = 0) by (rewrite Hoff, Hq in *; destruct (N.eq_dec q 0); [by subst|nia]).
  cbn. by rewrite Hfs, Hz, add64_small by lia.
Qed.

(** every member of a union is inside it, the union is aligned for every member,
    and it is no larger than its largest member rounded up. *)
Theorem union_layout u u' : fresh_struct (u_structType u) → m_structTypeKind (u_structType u) = StructTypeKind_UnionStruct →
  m_fieldArray (u_structType u) = [] → m_baseTypeList (u_structType u) = [] →
  (∀ f, f ∈ u_fieldArray u → isPowerOf2 (t_alignment (f_type f)) ∧
    t_size (f_type f) + t_alignment (f_type f) + m_fieldAlignment (u_structType u) < size_mod) →
  union_calcLayout E u = inl u' →
  f_type <$> u_fieldArray u' = f_type <$> u_fieldArray u ∧
  (∀ f, f ∈ u_fieldArray u → t_size (f_type f) ≤ u_size u' ∧
    (field_alignment (m_fieldAlignment (u_structType u)) (f_type f) | u_alignment u')) ∧
  (u_alignment u' | u_size u') ∧
  ∃ f, f ∈ u_fieldArray u ∧ u_size u' < t_size (f_type f) + u_alignment u'.
Proof.
  intros Hfr Hkind Hnf Hnb Hok H. unfold union_calcLayout in H. destruct (negb _); [done|].
  destruct (union_loop _ _) as [sc|] eqn:Hsc; [|done].
  apply (union_loop_ok _ _ _ []) in Hsc; [|split; cbn; [done|by exists 0|set_solver|set_solver|done]|intros f Hf; by apply Hok].
  cbn [app] in Hsc. destruct Hsc as [N1 N2 N3 N4 N5]. destruct (sc_largestFieldType sc) as [l|]; [|done].
  pose proof (N5 l eq_refl) as (fl & -> & Hfl)%list_elem_of_fmap. destruct (Hok fl Hfl) as [Hpl Hrl].
  set (s0 := set_alignment _ _) in H. destruct (calcLayoutTo E None s0) as [ [ [] |e] s1] eqn:Hc; [|done].
  destruct (e_noPropertyDestruct E); [|done]. destruct (e_createDefaultMethods E); [|done]. cbn in H.
  injection H as <-. cbn.
  assert (Hal0 : m_alignment s0 = N.min (sc_largestAlignment sc) (m_fieldAlignment (u_structType u))) by done.
  assert (Hdecls : decls s0 = [(f_type fl, 0, false)]) by (unfold decls, s0; cbn; by rewrite Hnf).
  assert (Hbases : bases s0 = []) by (unfold bases, s0; cbn; by rewrite Hnb).
  assert (Hfr0 : fresh_struct s0).
  { destruct Hfr as [F1 F2 F3 F4 (F5 & F6 & F7) F8]. split; try done. unfold pow2_alignment. rewrite Hal0.
    split; [done|]. split; [by apply pow2_min|]. apply N.le_min_r. }
  assert (Hlo : layout_ok s0).
  { split; rewrite ?Hdecls, ?Hbases.
    - split.
      + intros [|i] t c e Hi; [by injection Hi as <- <- <-|done].
      + intros [|i] t c e Hi; [by injection Hi as <- <- <-|done].
      + intros [|i] [|j] t c e t' c' e' Hi Hj; try done. injection Hi as <- <- <-. injection Hj as <- <- <-. done.
      + intros [|i] t c e t' c' e' Hi Hj; done.
    - set_solver.
    - cbn. unfold type_need. lia. }
  destruct (calcLayout_sound E s0 s1 Hfr0 Hlo Hc) as (Hd & Hb & _ & _ & Hin & Hfs & Hp1 & Hmul & _).
  destruct Hmul as [Hdiv Hlt]; [cbn; congruence|]. apply layout_none in Hc as (s2 & H1 & H2).
  destruct (layout_fields_ok E s0 s2 Hfr0 Hlo H1) as (_ & _ & _ & K1 & K2 & _).
  pose proof (layout_fields_mono s0 s2 H1) as Hmono.
  assert (Hk2 : m_structTypeKind s2 ≠ StructTypeKind_Adapter) by (rewrite K1; apply Hfr0).
  destruct (finish_layout_ok E s2 s1 H2 Hk2) as (_ & _ & F3 & F4 & F5 & _).
  assert (Hf0 : m_fieldArray s0 = [newField (f_type fl) 0 0]) by (unfold s0; cbn; by rewrite Hnf).
  pose proof (single_field s0 s2 _ Hfr0 Hnb Hf0 eq_refl Hpl ltac:(cbn; lia) H1) as Hsz. cbn in Hsz.
  split; [done|]. split; [|split; [done|] ].
  - intros f Hf. destruct (N3 f Hf) as (l & [= <-] & Hle). split; [rewrite F3 in Hfs; lia|].
    destruct (Hok f Hf) as [Hpf _]. apply pow2_divide; [apply pow2_min; [apply Hfr|done]|done|].
    rewrite F4. etrans; [|exact Hmono]. rewrite Hal0. unfold field_alignment. pose proof (N4 f Hf). lia.
  - exists fl. split; [done|]. rewrite F3 in Hlt. lia.
Qed.
End alignment.

(** ** A concrete struct *)

#[local] Instance axl : Axl := {| sl_align n a := (n + a - 1) / a * a |}.

#[local] Instance axl_laws : AxlLaws axl.
Proof. by split. Qed.

Definition compiler : env := mkEnv true true true true true None false.

Definition prim (signature size : N) : type :=
  mkType signature size size TypeFlag_Pod false false false false 0 true.

(** [struct Base { int m_a; char m_b[8]; }] *)
Definition base : type := mkType 100 12 4 TypeFlag_Pod false true false true PtrTypeFlag_ThinThis true.

(** [struct S: Base { char m_c; int m_d : 3; int m_e : 20; bigendian short m_f : 4;
    bigendian short m_g : 12; long m_h; char m_i; }] *)
Definition sample : StructType :=
  createField (newField (prim 1 1) 0 0)
    (createField (newField (prim 8 8) 0 0)
      (createField (newField (prim 2 2) 12 PtrTypeFlag_BigEndian)
        (createField (newField (prim 2 2) 4 PtrTypeFlag_BigEndian)
          (createField (newField (prim 4 4) 20 0)
            (createField (newField (prim 4 4) 3 0)
              (createField (newField (prim 1 1) 0 0) (addBaseType base (newStruct StructTypeKind_Normal 8)))))))).

Lemma sample_fresh : fresh_struct sample.
Proof. split; try done. split; [by exists 3|]. split; [by exists 0|done]. Qed.

Lemma sample_ok : layout_ok sample.
Proof.
  assert (H1 : isPowerOf2 1) by by exists 0. assert (H2 : isPowerOf2 2) by by exists 1.
  assert (H4 : isPowerOf2 4) by by exists 2. assert (H8 : isPowerOf2 8) by by exists 3.
  split.
  - split.
    + intros i t c e Hi. do 7 (destruct i as [|i]; [by injection Hi as <- <- <-|]). done.
    + intros i t c e Hi _. do 7 (destruct i as [|i]; [by injection Hi as <- <- <-|]). done.
    + intros i j t c e t' c' e' Hi Hj. do 7 (destruct i as [|i];
        [do 7 (destruct j as [|j]; [injection Hi as <- <- <-; injection Hj as <- <- <-; done|]); done|]). done.
    + intros i t c e t' c' e' Hi Hj. do 7 (destruct i as [|i]; [cbn in Hi, Hj; try discriminate Hj;
        injection Hi as <- <- <-; injection Hj as <- <- <-; done|]). done.
  - intros t Ht%list_elem_of_singleton. by subst t.
  - by vm_compute.
Qed.

Lemma sample_accepted : accepted compiler sample.
Proof.
  split; try done.
  - intros t Ht%list_elem_of_singleton. by subst t.
  - apply NoDup_singleton.
  - intros f Hf. repeat (apply elem_of_cons in Hf as [->|Hf]; [by repeat split; try (by right); vm_compute|]).
    by apply not_elem_of_nil in Hf.
Qed.

(** The offsets, the bit offsets and the LLVM indexes of the fields, and the size. *)
Definition layout_table (r : (unit + LayoutError) * StructType) : list (N * N * option nat) * N :=
  ((λ f, (f_offset f, f_bitOffset f, f_llvmIndex f)) <$> m_fieldArray r.2, m_size r.2).

Lemma struct_layout_witness :
  (∃ s', calcLayoutTo compiler None sample = (inl tt, s')) ∧
  layout_table (calcLayoutTo compiler None sample) =
    ([(12, 0, Some 1%nat); (16, 0, Some 3%nat); (16, 3, Some 3%nat); (20, 12, Some 4%nat); (20, 0, Some 4%nat);
      (24, 0, Some 6%nat); (32, 0, Some 7%nat)], 40) ∧
  ∃ s', calcLayoutTo compiler None sample = (inl tt, s') ∧ StronglySorted before (all_items s').
Proof.
  destruct (struct_layout compiler sample sample_fresh sample_ok) as [Hok Hsound].
  pose proof (Hok sample_accepted) as Hs. split; [done|]. split; [by vm_compute|].
  destruct Hs as (s' & Hs'). exists s'. split; [done|]. exact (proj1 (proj2 (proj2 (proj2 (Hsound s' Hs'))))).
Defined.

Lemma llvm_layout_witness : ∃ s' body, calcLayoutTo compiler None sample = (inl tt, s') ∧
  m_llvmBody s' = Some body ∧ packed body = 40 ∧ Forall (llvm_item body) (all_items s').
Proof.
  destruct (calcLayoutTo compiler None sample) as [r s'] eqn:H.
  assert (Hr : r = inl tt) by (vm_compute in H; by injection H as <- _).
  assert (Hsz : m_size s' = 40) by (vm_compute in H; by injection H as _ <-). subst r.
  destruct (llvm_layout compiler sample s' sample_fresh sample_ok H) as (body & Hb & Hp & Hi); [done|by rewrite Hsz|].
  exists s', body. split; [done|]. split; [done|]. split; [by rewrite Hp|done].
Defined.

(** The size of [int a[0x4000000000000001]] is 4 bytes. *)
Lemma array_layout_witness :
  ∃ a', user_array_calcLayout TypeFlag_Pod (Some (Some 4611686018427387905%Z)) (mkArray (prim 4 4) 0 0 1 0) = inl a' ∧
    a_size a' = 4 ∧ a_elementCount a' = 4611686018427387905 ∧
    ¬ ∀ i, i < a_elementCount a' → (i + 1) * t_size (a_elementType a') ≤ a_size a'.
Proof.
  destruct (user_array_calcLayout TypeFlag_Pod (Some (Some 4611686018427387905%Z)) (mkArray (prim 4 4) 0 0 1 0))
    as [a'|e] eqn:H; [|vm_compute in H; discriminate H].
  exists a'. split; [done|]. assert (Hsz : a_size a' = 4) by (vm_compute in H; by injection H as <-). split; [done|].
  destruct (array_layout TypeFlag_Pod 4611686018427387905 (mkArray (prim 4 4) 0 0 1 0) a') as (_ & Hc & Hi & _); [done|done|done|].
  split; [done|]. intros Hall. apply Hi in Hall. by vm_compute in Hall.
Defined.

(** [union { int m_a; char m_b; double m_c; }] *)
Definition sample_union : UnionType :=
  mkUnion [newField (prim 4 4) 0 0; newField (prim 1 1) 0 0; newField (prim 8 8) 0 0]
    (newStruct StructTypeKind_UnionStruct 8) [] 0 0 1 TypeFlag_Pod.

Lemma union_layout_witness : ∃ u', union_calcLayout compiler sample_union = inl u' ∧ u_size u' = 8 ∧
  ∀ f, f ∈ u_fieldArray sample_union → t_size (f_type f) ≤ u_size u'.
Proof.
  destruct (union_calcLayout compiler sample_union) as [u'|e] eqn:H; [|vm_compute in H; discriminate H].
  exists u'. split; [done|]. split; [vm_compute in H; by injection H as <-|].
  destruct (union_layout compiler sample_union u') as (_ & Hin & _); try done.
  - split; try done. split; [by exists 3|]. split; [by exists 0|done].
  - intros f Hf. cbv [u_fieldArray sample_union] in Hf.
    repeat (apply elem_of_cons in Hf as [->|Hf]; [split; [first [by exists 0|by exists 2|by exists 3]|by vm_compute]|]).
    by apply not_elem_of_nil in Hf.
  - intros f Hf. by apply Hin.
Defined.

(** The byte order of a bit field is not looked at when it is put next to one of the
    other order: of [uint8_t m_a : 3; uint8_t m_b : 5; bigendian uint8_t m_c : 2;]
    the last has bits 1 and 2 of the first. *)
Lemma mixed_order_overlap :
  layout_table (calcLayoutTo compiler None
    (createField (newField (prim 1 1) 2 PtrTypeFlag_BigEndian)
      (createField (newField (prim 1 1) 5 0) (createField (newField (prim 1 1) 3 0) (newStruct StructTypeKind_Normal 8)))))
  = ([(0, 0, Some 0%nat); (0, 3, Some 0%nat); (0, 1, Some 0%nat)], 1).
Proof. by vm_compute. Qed.
