(* ===== verification/ClassVtable.v ===== *)
(** * Class types: virtual tables

    Models [src/src/jnc_ct/jnc_ct_TypeMgr/jnc_ct_ClassType.cpp] ([calcLayout],
    [addVirtualFunction], [overrideVirtualFunction], [prepareForOperatorNew]), the
    lookup of base types and members of [jnc_ct_DerivableType.cpp], the virtual
    calls of [jnc_ct_OperatorMgr_Virtual.cpp], the [this] of a method
    ([FunctionMgr::createThisValue]) and the priming of objects
    ([jnc_api/jnc_Runtime.cpp]).

    Functions, properties and types are objects of a store, and numbers stand for
    pointers to them. The layout of the fields is that of [StructLayout].
    Attributes, namespaces, static variables and default methods are results the
    layout is given, as there. *)

From S2P Require Import Prelude Box StructLayout.

Open Scope nat_scope.

(** ** Functions and properties *)

Inductive StorageKind :=
  | StorageKind_Undefined | StorageKind_Typedef | StorageKind_Static | StorageKind_Tls | StorageKind_Stack
  | StorageKind_Heap | StorageKind_Alias | StorageKind_Member | StorageKind_Abstract | StorageKind_Virtual
  | StorageKind_Override | StorageKind_Mutable | StorageKind_Disposable | StorageKind_DynamicField
  | StorageKind_Reactor | StorageKind_This.

#[export] Instance StorageKind_eq_dec : EqDecision StorageKind.
Proof. solve_decision. Defined.

Inductive FunctionKind := FunctionKind_Normal | FunctionKind_Getter | FunctionKind_Setter | FunctionKind_Binder | FunctionKind_Other.

(** The type of a [this] argument: the class and the flags of the pointer. *)
Definition ThisArgType : Type := nat * N.

(** [Function]; [fn_shortType] is the signature of the type without [this], [fn_thisArgType] the
    first argument of the type and [m_thisArgType], [fn_typeLayout] the result of [getType()->ensureLayout()].
    No index is -1. *)
Record Function := mkFunction {
  fn_name : string;
  fn_functionKind : FunctionKind;
  fn_storageKind : StorageKind;
  fn_shortType : N;
  fn_thisArgTypeFlags : N;
  fn_typeLayout : bool;
  fn_thisArgType : ThisArgType;
  fn_thisType : ThisArgType;
  fn_thisArgDelta : Z;
  fn_virtualOriginClassType : option nat;
  fn_classVtableIndex : option nat
}.

Definition fn_set_name (v : string) (s : Function) : Function :=
  mkFunction v (fn_functionKind s) (fn_storageKind s) (fn_shortType s) (fn_thisArgTypeFlags s) (fn_typeLayout s) (fn_thisArgType s) (fn_thisType s) (fn_thisArgDelta s) (fn_virtualOriginClassType s) (fn_classVtableIndex s).
Definition fn_set_functionKind (v : FunctionKind) (s : Function) : Function :=
  mkFunction (fn_name s) v (fn_storageKind s) (fn_shortType s) (fn_thisArgTypeFlags s) (fn_typeLayout s) (fn_thisArgType s) (fn_thisType s) (fn_thisArgDelta s) (fn_virtualOriginClassType s) (fn_classVtableIndex s).
Definition fn_set_storageKind (v : StorageKind) (s : Function) : Function :=
  mkFunction (fn_name s) (fn_functionKind s) v (fn_shortType s) (fn_thisArgTypeFlags s) (fn_typeLayout s) (fn_thisArgType s) (fn_thisType s) (fn_thisArgDelta s) (fn_virtualOriginClassType s) (fn_classVtableIndex s).
Definition fn_set_shortType (v : N) (s : Function) : Function :=
  mkFunction (fn_name s) (fn_functionKind s) (fn_storageKind s) v (fn_thisArgTypeFlags s) (fn_typeLayout s) (fn_thisArgType s) (fn_thisType s) (fn_thisArgDelta s) (fn_virtualOriginClassType s) (fn_classVtableIndex s).
Definition fn_set_thisArgTypeFlags (v : N) (s : Function) : Function :=
  mkFunction (fn_name s) (fn_functionKind s) (fn_storageKind s) (fn_shortType s) v (fn_typeLayout s) (fn_thisArgType s) (fn_thisType s) (fn_thisArgDelta s) (fn_virtualOriginClassType s) (fn_classVtableIndex s).
Definition fn_set_typeLayout (v : bool) (s : Function) : Function :=
  mkFunction (fn_name s) (fn_functionKind s) (fn_storageKind s) (fn_shortType s) (fn_thisArgTypeFlags s) v (fn_thisArgType s) (fn_thisType s) (fn_thisArgDelta s) (fn_virtualOriginClassType s) (fn_classVtableIndex s).
Definition fn_set_thisArgType (v : ThisArgType) (s : Function) : Function :=
  mkFunction (fn_name s) (fn_functionKind s) (fn_storageKind s) (fn_shortType s) (fn_thisArgTypeFlags s) (fn_typeLayout s) v (fn_thisType s) (fn_thisArgDelta s) (fn_virtualOriginClassType s) (fn_classVtableIndex s).
Definition fn_set_thisType (v : ThisArgType) (s : Function) : Function :=
  mkFunction (fn_name s) (fn_functionKind s) (fn_storageKind s) (fn_shortType s) (fn_thisArgTypeFlags s) (fn_typeLayout s) (fn_thisArgType s) v (fn_thisArgDelta s) (fn_virtualOriginClassType s) (fn_classVtableIndex s).
Definition fn_set_thisArgDelta (v : Z) (s : Function) : Function :=
  mkFunction (fn_name s) (fn_functionKind s) (fn_storageKind s) (fn_shortType s) (fn_thisArgTypeFlags s) (fn_typeLayout s) (fn_thisArgType s) (fn_thisType s) v (fn_virtualOriginClassType s) (fn_classVtableIndex s).
Definition fn_set_virtualOriginClassType (v : option nat) (s : Function) : Function :=
  mkFunction (fn_name s) (fn_functionKind s) (fn_storageKind s) (fn_shortType s) (fn_thisArgTypeFlags s) (fn_typeLayout s) (fn_thisArgType s) (fn_thisType s) (fn_thisArgDelta s) v (fn_classVtableIndex s).
Definition fn_set_classVtableIndex (v : option nat) (s : Function) : Function :=
  mkFunction (fn_name s) (fn_functionKind s) (fn_storageKind s) (fn_shortType s) (fn_thisArgTypeFlags s) (fn_typeLayout s) (fn_thisArgType s) (fn_thisType s) (fn_thisArgDelta s) (fn_virtualOriginClassType s) v.

(** [isVirtual] of functions and properties. *)
Definition isVirtual (k : StorageKind) : bool :=
  match k with StorageKind_Abstract | StorageKind_Virtual | StorageKind_Override => true | _ => false end.

(** [OverloadableFunction] *)
Inductive OverloadableFunction := NoFunction | OneFunction (f : nat) | Overload (fs : list nat).

(** [Property] *)
Record Property := mkProperty {
  p_storageKind : StorageKind;
  p_parentType : nat;
  p_binder : option nat;
  p_getter : nat;
  p_setter : OverloadableFunction;
  p_vtable : list nat;
  p_parentClassVtableIndex : option nat
}.

Definition p_set_storageKind (v : StorageKind) (s : Property) : Property :=
  mkProperty v (p_parentType s) (p_binder s) (p_getter s) (p_setter s) (p_vtable s) (p_parentClassVtableIndex s).
Definition p_set_parentType (v : nat) (s : Property) : Property :=
  mkProperty (p_storageKind s) v (p_binder s) (p_getter s) (p_setter s) (p_vtable s) (p_parentClassVtableIndex s).
Definition p_set_binder (v : option nat) (s : Property) : Property :=
  mkProperty (p_storageKind s) (p_parentType s) v (p_getter s) (p_setter s) (p_vtable s) (p_parentClassVtableIndex s).
Definition p_set_getter (v : nat) (s : Property) : Property :=
  mkProperty (p_storageKind s) (p_parentType s) (p_binder s) v (p_setter s) (p_vtable s) (p_parentClassVtableIndex s).
Definition p_set_setter (v : OverloadableFunction) (s : Property) : Property :=
  mkProperty (p_storageKind s) (p_parentType s) (p_binder s) (p_getter s) v (p_vtable s) (p_parentClassVtableIndex s).
Definition p_set_vtable (v : list nat) (s : Property) : Property :=
  mkProperty (p_storageKind s) (p_parentType s) (p_binder s) (p_getter s) (p_setter s) v (p_parentClassVtableIndex s).
Definition p_set_parentClassVtableIndex (v : option nat) (s : Property) : Property :=
  mkProperty (p_storageKind s) (p_parentType s) (p_binder s) (p_getter s) (p_setter s) (p_vtable s) v.

(** What a name of a namespace stands for. *)
Inductive ModuleItem :=
  | ItemFunction (f : nat) | ItemFunctionOverload (fs : list nat) | ItemProperty (p : nat) | ItemOther.

(** ** Types *)

Inductive TypeKind := TypeKind_Class | TypeKind_Struct | TypeKind_Other.

#[export] Instance TypeKind_eq_dec : EqDecision TypeKind.
Proof. solve_decision. Defined.

(** The type of a field of a virtual table: that of a function and its [this]. *)
Definition SlotType : Type := N * ThisArgType.

(** [BaseTypeSlot]; no index of a virtual table is -1. *)
Record BaseSlot := mkBaseSlot {
  s_type : nat;
  s_offset : N;
  s_llvmIndex : option nat;
  s_vtableIndex : option nat
}.

Definition s_set_type (v : nat) (s : BaseSlot) : BaseSlot :=
  mkBaseSlot v (s_offset s) (s_llvmIndex s) (s_vtableIndex s).
Definition s_set_offset (v : N) (s : BaseSlot) : BaseSlot :=
  mkBaseSlot (s_type s) v (s_llvmIndex s) (s_vtableIndex s).
Definition s_set_llvmIndex (v : option nat) (s : BaseSlot) : BaseSlot :=
  mkBaseSlot (s_type s) (s_offset s) v (s_vtableIndex s).
Definition s_set_vtableIndex (v : option nat) (s : BaseSlot) : BaseSlot :=
  mkBaseSlot (s_type s) (s_offset s) (s_llvmIndex s) v.

(** [ClassType], and the [DerivableType] it is. [d_type] is what [StructLayout] asks of a
    type, of a struct as it is, of a class its signature and its constructor; [d_fieldClasses] tells the
    fields of class types, [d_unnamedFieldTypes] is the derivable types of the unnamed fields, and
    [d_vtableVariable] tells whether there is one. *)
Record DerivableType := mkDerivable {
  d_typeKind : TypeKind;
  d_name : string;
  d_flags : N;
  d_layoutReady : bool;
  d_type : type;
  d_items : gmap string ModuleItem;
  d_unnamedFieldTypes : list nat;
  d_baseTypeList : list BaseSlot;
  d_baseTypeMap : gmap nat nat;
  d_gcRootBaseTypeArray : list nat;
  d_baseTypeConstructArray : list nat;
  d_baseTypeDestructArray : list nat;
  d_hasDestructor : bool;
  d_unaryOperatorArray : list (option nat);
  d_binaryOperatorArray : list (option nat);
  d_castOperatorMap : gmap N nat;
  d_callOperator : option nat;
  d_indexerProperty : option nat;
  d_ifaceStructType : StructType;
  d_classStructType : StructType;
  d_fieldClasses : list (option nat);
  d_isReactor : bool;
  d_parentOffset : N;
  d_classBaseTypeArray : list nat;
  d_classFieldArray : list nat;
  d_gcRootFieldArray : list nat;
  d_fieldInitializeArray : list nat;
  d_virtualMethodArray : list nat;
  d_overrideMethodArray : list nat;
  d_virtualPropertyArray : list nat;
  d_vtable : list nat;
  d_vtableStructType : option (list SlotType);
  d_vtableVariable : bool
}.

Definition d_set_typeKind (v : TypeKind) (s : DerivableType) : DerivableType :=
  mkDerivable v (d_name s) (d_flags s) (d_layoutReady s) (d_type s) (d_items s) (d_unnamedFieldTypes s) (d_baseTypeList s) (d_baseTypeMap s) (d_gcRootBaseTypeArray s) (d_baseTypeConstructArray s) (d_baseTypeDestructArray s) (d_hasDestructor s) (d_unaryOperatorArray s) (d_binaryOperatorArray s) (d_castOperatorMap s) (d_callOperator s) (d_indexerProperty s) (d_ifaceStructType s) (d_classStructType s) (d_fieldClasses s) (d_isReactor s) (d_parentOffset s) (d_classBaseTypeArray s) (d_classFieldArray s) (d_gcRootFieldArray s) (d_fieldInitializeArray s) (d_virtualMethodArray s) (d_overrideMethodArray s) (d_virtualPropertyArray s) (d_vtable s) (d_vtableStructType s) (d_vtableVariable s).
Definition d_set_name (v : string) (s : DerivableType) : DerivableType :=
  mkDerivable (d_typeKind s) v (d_flags s) (d_layoutReady s) (d_type s) (d_items s) (d_unnamedFieldTypes s) (d_baseTypeList s) (d_baseTypeMap s) (d_gcRootBaseTypeArray s) (d_baseTypeConstructArray s) (d_baseTypeDestructArray s) (d_hasDestructor s) (d_unaryOperatorArray s) (d_binaryOperatorArray s) (d_castOperatorMap s) (d_callOperator s) (d_indexerProperty s) (d_ifaceStructType s) (d_classStructType s) (d_fieldClasses s) (d_isReactor s) (d_parentOffset s) (d_classBaseTypeArray s) (d_classFieldArray s) (d_gcRootFieldArray s) (d_fieldInitializeArray s) (d_virtualMethodArray s) (d_overrideMethodArray s) (d_virtualPropertyArray s) (d_vtable s) (d_vtableStructType s) (d_vtableVariable s).
Definition d_set_flags (v : N) (s : DerivableType) : DerivableType :=
  mkDerivable (d_typeKind s) (d_name s) v (d_layoutReady s) (d_type s) (d_items s) (d_unnamedFieldTypes s) (d_baseTypeList s) (d_baseTypeMap s) (d_gcRootBaseTypeArray s) (d_baseTypeConstructArray s) (d_baseTypeDestructArray s) (d_hasDestructor s) (d_unaryOperatorArray s) (d_binaryOperatorArray s) (d_castOperatorMap s) (d_callOperator s) (d_indexerProperty s) (d_ifaceStructType s) (d_classStructType s) (d_fieldClasses s) (d_isReactor s) (d_parentOffset s) (d_classBaseTypeArray s) (d_classFieldArray s) (d_gcRootFieldArray s) (d_fieldInitializeArray s) (d_virtualMethodArray s) (d_overrideMethodArray s) (d_virtualPropertyArray s) (d_vtable s) (d_vtableStructType s) (d_vtableVariable s).
Definition d_set_layoutReady (v : bool) (s : DerivableType) : DerivableType :=
  mkDerivable (d_typeKind s) (d_name s) (d_flags s) v (d_type s) (d_items s) (d_unnamedFieldTypes s) (d_baseTypeList s) (d_baseTypeMap s) (d_gcRootBaseTypeArray s) (d_baseTypeConstructArray s) (d_baseTypeDestructArray s) (d_hasDestructor s) (d_unaryOperatorArray s) (d_binaryOperatorArray s) (d_castOperatorMap s) (d_callOperator s) (d_indexerProperty s) (d_ifaceStructType s) (d_classStructType s) (d_fieldClasses s) (d_isReactor s) (d_parentOffset s) (d_classBaseTypeArray s) (d_classFieldArray s) (d_gcRootFieldArray s) (d_fieldInitializeArray s) (d_virtualMethodArray s) (d_overrideMethodArray s) (d_virtualPropertyArray s) (d_vtable s) (d_vtableStructType s) (d_vtableVariable s).
Definition d_set_type (v : type) (s : DerivableType) : DerivableType :=
  mkDerivable (d_typeKind s) (d_name s) (d_flags s) (d_layoutReady s) v (d_items s) (d_unnamedFieldTypes s) (d_baseTypeList s) (d_baseTypeMap s) (d_gcRootBaseTypeArray s) (d_baseTypeConstructArray s) (d_baseTypeDestructArray s) (d_hasDestructor s) (d_unaryOperatorArray s) (d_binaryOperatorArray s) (d_castOperatorMap s) (d_callOperator s) (d_indexerProperty s) (d_ifaceStructType s) (d_classStructType s) (d_fieldClasses s) (d_isReactor s) (d_parentOffset s) (d_classBaseTypeArray s) (d_classFieldArray s) (d_gcRootFieldArray s) (d_fieldInitializeArray s) (d_virtualMethodArray s) (d_overrideMethodArray s) (d_virtualPropertyArray s) (d_vtable s) (d_vtableStructType s) (d_vtableVariable s).
Definition d_set_items (v : gmap string ModuleItem) (s : DerivableType) : DerivableType :=
  mkDerivable (d_typeKind s) (d_name s) (d_flags s) (d_layoutReady s) (d_type s) v (d_unnamedFieldTypes s) (d_baseTypeList s) (d_baseTypeMap s) (d_gcRootBaseTypeArray s) (d_baseTypeConstructArray s) (d_baseTypeDestructArray s) (d_hasDestructor s) (d_unaryOperatorArray s) (d_binaryOperatorArray s) (d_castOperatorMap s) (d_callOperator s) (d_indexerProperty s) (d_ifaceStructType s) (d_classStructType s) (d_fieldClasses s) (d_isReactor s) (d_parentOffset s) (d_classBaseTypeArray s) (d_classFieldArray s) (d_gcRootFieldArray s) (d_fieldInitializeArray s) (d_virtualMethodArray s) (d_overrideMethodArray s) (d_virtualPropertyArray s) (d_vtable s) (d_vtableStructType s) (d_vtableVariable s).
Definition d_set_unnamedFieldTypes (v : list nat) (s : DerivableType) : DerivableType :=
  mkDerivable (d_typeKind s) (d_name s) (d_flags s) (d_layoutReady s) (d_type s) (d_items s) v (d_baseTypeList s) (d_baseTypeMap s) (d_gcRootBaseTypeArray s) (d_baseTypeConstructArray s) (d_baseTypeDestructArray s) (d_hasDestructor s) (d_unaryOperatorArray s) (d_binaryOperatorArray s) (d_castOperatorMap s) (d_callOperator s) (d_indexerProperty s) (d_ifaceStructType s) (d_classStructType s) (d_fieldClasses s) (d_isReactor s) (d_parentOffset s) (d_classBaseTypeArray s) (d_classFieldArray s) (d_gcRootFieldArray s) (d_fieldInitializeArray s) (d_virtualMethodArray s) (d_overrideMethodArray s) (d_virtualPropertyArray s) (d_vtable s) (d_vtableStructType s) (d_vtableVariable s).
Definition d_set_baseTypeList (v : list BaseSlot) (s : DerivableType) : DerivableType :=
  mkDerivable (d_typeKind s) (d_name s) (d_flags s) (d_layoutReady s) (d_type s) (d_items s) (d_unnamedFieldTypes s) v (d_baseTypeMap s) (d_gcRootBaseTypeArray s) (d_baseTypeConstructArray s) (d_baseTypeDestructArray s) (d_hasDestructor s) (d_unaryOperatorArray s) (d_binaryOperatorArray s) (d_castOperatorMap s) (d_callOperator s) (d_indexerProperty s) (d_ifaceStructType s) (d_classStructType s) (d_fieldClasses s) (d_isReactor s) (d_parentOffset s) (d_classBaseTypeArray s) (d_classFieldArray s) (d_gcRootFieldArray s) (d_fieldInitializeArray s) (d_virtualMethodArray s) (d_overrideMethodArray s) (d_virtualPropertyArray s) (d_vtable s) (d_vtableStructType s) (d_vtableVariable s).
Definition d_set_baseTypeMap (v : gmap nat nat) (s : DerivableType) : DerivableType :=
  mkDerivable (d_typeKind s) (d_name s) (d_flags s) (d_layoutReady s) (d_type s) (d_items s) (d_unnamedFieldTypes s) (d_baseTypeList s) v (d_gcRootBaseTypeArray s) (d_baseTypeConstructArray s) (d_baseTypeDestructArray s) (d_hasDestructor s) (d_unaryOperatorArray s) (d_binaryOperatorArray s) (d_castOperatorMap s) (d_callOperator s) (d_indexerProperty s) (d_ifaceStructType s) (d_classStructType s) (d_fieldClasses s) (d_isReactor s) (d_parentOffset s) (d_classBaseTypeArray s) (d_classFieldArray s) (d_gcRootFieldArray s) (d_fieldInitializeArray s) (d_virtualMethodArray s) (d_overrideMethodArray s) (d_virtualPropertyArray s) (d_vtable s) (d_vtableStructType s) (d_vtableVariable s).
Definition d_set_gcRootBaseTypeArray (v : list nat) (s : DerivableType) : DerivableType :=
  mkDerivable (d_typeKind s) (d_name s) (d_flags s) (d_layoutReady s) (d_type s) (d_items s) (d_unnamedFieldTypes s) (d_baseTypeList s) (d_baseTypeMap s) v (d_baseTypeConstructArray s) (d_baseTypeDestructArray s) (d_hasDestructor s) (d_unaryOperatorArray s) (d_binaryOperatorArray s) (d_castOperatorMap s) (d_callOperator s) (d_indexerProperty s) (d_ifaceStructType s) (d_classStructType s) (d_fieldClasses s) (d_isReactor s) (d_parentOffset s) (d_classBaseTypeArray s) (d_classFieldArray s) (d_gcRootFieldArray s) (d_fieldInitializeArray s) (d_virtualMethodArray s) (d_overrideMethodArray s) (d_virtualPropertyArray s) (d_vtable s) (d_vtableStructType s) (d_vtableVariable s).
Definition d_set_baseTypeConstructArray (v : list nat) (s : DerivableType) : DerivableType :=
  mkDerivable (d_typeKind s) (d_name s) (d_flags s) (d_layoutReady s) (d_type s) (d_items s) (d_unnamedFieldTypes s) (d_baseTypeList s) (d_baseTypeMap s) (d_gcRootBaseTypeArray s) v (d_baseTypeDestructArray s) (d_hasDestructor s) (d_unaryOperatorArray s) (d_binaryOperatorArray s) (d_castOperatorMap s) (d_callOperator s) (d_indexerProperty s) (d_ifaceStructType s) (d_classStructType s) (d_fieldClasses s) (d_isReactor s) (d_parentOffset s) (d_classBaseTypeArray s) (d_classFieldArray s) (d_gcRootFieldArray s) (d_fieldInitializeArray s) (d_virtualMethodArray s) (d_overrideMethodArray s) (d_virtualPropertyArray s) (d_vtable s) (d_vtableStructType s) (d_vtableVariable s).
Definition d_set_baseTypeDestructArray (v : list nat) (s : DerivableType) : DerivableType :=
  mkDerivable (d_typeKind s) (d_name s) (d_flags s) (d_layoutReady s) (d_type s) (d_items s) (d_unnamedFieldTypes s) (d_baseTypeList s) (d_baseTypeMap s) (d_gcRootBaseTypeArray s) (d_baseTypeConstructArray s) v (d_hasDestructor s) (d_unaryOperatorArray s) (d_binaryOperatorArray s) (d_castOperatorMap s) (d_callOperator s) (d_indexerProperty s) (d_ifaceStructType s) (d_classStructType s) (d_fieldClasses s) (d_isReactor s) (d_parentOffset s) (d_classBaseTypeArray s) (d_classFieldArray s) (d_gcRootFieldArray s) (d_fieldInitializeArray s) (d_virtualMethodArray s) (d_overrideMethodArray s) (d_virtualPropertyArray s) (d_vtable s) (d_vtableStructType s) (d_vtableVariable s).
Definition d_set_hasDestructor (v : bool) (s : DerivableType) : DerivableType :=
  mkDerivable (d_typeKind s) (d_name s) (d_flags s) (d_layoutReady s) (d_type s) (d_items s) (d_unnamedFieldTypes s) (d_baseTypeList s) (d_baseTypeMap s) (d_gcRootBaseTypeArray s) (d_baseTypeConstructArray s) (d_baseTypeDestructArray s) v (d_unaryOperatorArray s) (d_binaryOperatorArray s) (d_castOperatorMap s) (d_callOperator s) (d_indexerProperty s) (d_ifaceStructType s) (d_classStructType s) (d_fieldClasses s) (d_isReactor s) (d_parentOffset s) (d_classBaseTypeArray s) (d_classFieldArray s) (d_gcRootFieldArray s) (d_fieldInitializeArray s) (d_virtualMethodArray s) (d_overrideMethodArray s) (d_virtualPropertyArray s) (d_vtable s) (d_vtableStructType s) (d_vtableVariable s).
Definition d_set_unaryOperatorArray (v : list (option nat)) (s : DerivableType) : DerivableType :=
  mkDerivable (d_typeKind s) (d_name s) (d_flags s) (d_layoutReady s) (d_type s) (d_items s) (d_unnamedFieldTypes s) (d_baseTypeList s) (d_baseTypeMap s) (d_gcRootBaseTypeArray s) (d_baseTypeConstructArray s) (d_baseTypeDestructArray s) (d_hasDestructor s) v (d_binaryOperatorArray s) (d_castOperatorMap s) (d_callOperator s) (d_indexerProperty s) (d_ifaceStructType s) (d_classStructType s) (d_fieldClasses s) (d_isReactor s) (d_parentOffset s) (d_classBaseTypeArray s) (d_classFieldArray s) (d_gcRootFieldArray s) (d_fieldInitializeArray s) (d_virtualMethodArray s) (d_overrideMethodArray s) (d_virtualPropertyArray s) (d_vtable s) (d_vtableStructType s) (d_vtableVariable s).
Definition d_set_binaryOperatorArray (v : list (option nat)) (s : DerivableType) : DerivableType :=
  mkDerivable (d_typeKind s) (d_name s) (d_flags s) (d_layoutReady s) (d_type s) (d_items s) (d_unnamedFieldTypes s) (d_baseTypeList s) (d_baseTypeMap s) (d_gcRootBaseTypeArray s) (d_baseTypeConstructArray s) (d_baseTypeDestructArray s) (d_hasDestructor s) (d_unaryOperatorArray s) v (d_castOperatorMap s) (d_callOperator s) (d_indexerProperty s) (d_ifaceStructType s) (d_classStructType s) (d_fieldClasses s) (d_isReactor s) (d_parentOffset s) (d_classBaseTypeArray s) (d_classFieldArray s) (d_gcRootFieldArray s) (d_fieldInitializeArray s) (d_virtualMethodArray s) (d_overrideMethodArray s) (d_virtualPropertyArray s) (d_vtable s) (d_vtableStructType s) (d_vtableVariable s).
Definition d_set_castOperatorMap (v : gmap N nat) (s : DerivableType) : DerivableType :=
  mkDerivable (d_typeKind s) (d_name s) (d_flags s) (d_layoutReady s) (d_type s) (d_items s) (d_unnamedFieldTypes s) (d_baseTypeList s) (d_baseTypeMap s) (d_gcRootBaseTypeArray s) (d_baseTypeConstructArray s) (d_baseTypeDestructArray s) (d_hasDestructor s) (d_unaryOperatorArray s) (d_binaryOperatorArray s) v (d_callOperator s) (d_indexerProperty s) (d_ifaceStructType s) (d_classStructType s) (d_fieldClasses s) (d_isReactor s) (d_parentOffset s) (d_classBaseTypeArray s) (d_classFieldArray s) (d_gcRootFieldArray s) (d_fieldInitializeArray s) (d_virtualMethodArray s) (d_overrideMethodArray s) (d_virtualPropertyArray s) (d_vtable s) (d_vtableStructType s) (d_vtableVariable s).
Definition d_set_callOperator (v : option nat) (s : DerivableType) : DerivableType :=
  mkDerivable (d_typeKind s) (d_name s) (d_flags s) (d_layoutReady s) (d_type s) (d_items s) (d_unnamedFieldTypes s) (d_baseTypeList s) (d_baseTypeMap s) (d_gcRootBaseTypeArray s) (d_baseTypeConstructArray s) (d_baseTypeDestructArray s) (d_hasDestructor s) (d_unaryOperatorArray s) (d_binaryOperatorArray s) (d_castOperatorMap s) v (d_indexerProperty s) (d_ifaceStructType s) (d_classStructType s) (d_fieldClasses s) (d_isReactor s) (d_parentOffset s) (d_classBaseTypeArray s) (d_classFieldArray s) (d_gcRootFieldArray s) (d_fieldInitializeArray s) (d_virtualMethodArray s) (d_overrideMethodArray s) (d_virtualPropertyArray s) (d_vtable s) (d_vtableStructType s) (d_vtableVariable s).
Definition d_set_indexerProperty (v : option nat) (s : DerivableType) : DerivableType :=
  mkDerivable (d_typeKind s) (d_name s) (d_flags s) (d_layoutReady s) (d_type s) (d_items s) (d_unnamedFieldTypes s) (d_baseTypeList s) (d_baseTypeMap s) (d_gcRootBaseTypeArray s) (d_baseTypeConstructArray s) (d_baseTypeDestructArray s) (d_hasDestructor s) (d_unaryOperatorArray s) (d_binaryOperatorArray s) (d_castOperatorMap s) (d_callOperator s) v (d_ifaceStructType s) (d_classStructType s) (d_fieldClasses s) (d_isReactor s) (d_parentOffset s) (d_classBaseTypeArray s) (d_classFieldArray s) (d_gcRootFieldArray s) (d_fieldInitializeArray s) (d_virtualMethodArray s) (d_overrideMethodArray s) (d_virtualPropertyArray s) (d_vtable s) (d_vtableStructType s) (d_vtableVariable s).
Definition d_set_ifaceStructType (v : StructType) (s : DerivableType) : DerivableType :=
  mkDerivable (d_typeKind s) (d_name s) (d_flags s) (d_layoutReady s) (d_type s) (d_items s) (d_unnamedFieldTypes s) (d_baseTypeList s) (d_baseTypeMap s) (d_gcRootBaseTypeArray s) (d_baseTypeConstructArray s) (d_baseTypeDestructArray s) (d_hasDestructor s) (d_unaryOperatorArray s) (d_binaryOperatorArray s) (d_castOperatorMap s) (d_callOperator s) (d_indexerProperty s) v (d_classStructType s) (d_fieldClasses s) (d_isReactor s) (d_parentOffset s) (d_classBaseTypeArray s) (d_classFieldArray s) (d_gcRootFieldArray s) (d_fieldInitializeArray s) (d_virtualMethodArray s) (d_overrideMethodArray s) (d_virtualPropertyArray s) (d_vtable s) (d_vtableStructType s) (d_vtableVariable s).
Definition d_set_classStructType (v : StructType) (s : DerivableType) : DerivableType :=
  mkDerivable (d_typeKind s) (d_name s) (d_flags s) (d_layoutReady s) (d_type s) (d_items s) (d_unnamedFieldTypes s) (d_baseTypeList s) (d_baseTypeMap s) (d_gcRootBaseTypeArray s) (d_baseTypeConstructArray s) (d_baseTypeDestructArray s) (d_hasDestructor s) (d_unaryOperatorArray s) (d_binaryOperatorArray s) (d_castOperatorMap s) (d_callOperator s) (d_indexerProperty s) (d_ifaceStructType s) v (d_fieldClasses s) (d_isReactor s) (d_parentOffset s) (d_classBaseTypeArray s) (d_classFieldArray s) (d_gcRootFieldArray s) (d_fieldInitializeArray s) (d_virtualMethodArray s) (d_overrideMethodArray s) (d_virtualPropertyArray s) (d_vtable s) (d_vtableStructType s) (d_vtableVariable s).
Definition d_set_fieldClasses (v : list (option nat)) (s : DerivableType) : DerivableType :=
  mkDerivable (d_typeKind s) (d_name s) (d_flags s) (d_layoutReady s) (d_type s) (d_items s) (d_unnamedFieldTypes s) (d_baseTypeList s) (d_baseTypeMap s) (d_gcRootBaseTypeArray s) (d_baseTypeConstructArray s) (d_baseTypeDestructArray s) (d_hasDestructor s) (d_unaryOperatorArray s) (d_binaryOperatorArray s) (d_castOperatorMap s) (d_callOperator s) (d_indexerProperty s) (d_ifaceStructType s) (d_classStructType s) v (d_isReactor s) (d_parentOffset s) (d_classBaseTypeArray s) (d_classFieldArray s) (d_gcRootFieldArray s) (d_fieldInitializeArray s) (d_virtualMethodArray s) (d_overrideMethodArray s) (d_virtualPropertyArray s) (d_vtable s) (d_vtableStructType s) (d_vtableVariable s).
Definition d_set_isReactor (v : bool) (s : DerivableType) : DerivableType :=
  mkDerivable (d_typeKind s) (d_name s) (d_flags s) (d_layoutReady s) (d_type s) (d_items s) (d_unnamedFieldTypes s) (d_baseTypeList s) (d_baseTypeMap s) (d_gcRootBaseTypeArray s) (d_baseTypeConstructArray s) (d_baseTypeDestructArray s) (d_hasDestructor s) (d_unaryOperatorArray s) (d_binaryOperatorArray s) (d_castOperatorMap s) (d_callOperator s) (d_indexerProperty s) (d_ifaceStructType s) (d_classStructType s) (d_fieldClasses s) v (d_parentOffset s) (d_classBaseTypeArray s) (d_classFieldArray s) (d_gcRootFieldArray s) (d_fieldInitializeArray s) (d_virtualMethodArray s) (d_overrideMethodArray s) (d_virtualPropertyArray s) (d_vtable s) (d_vtableStructType s) (d_vtableVariable s).
Definition d_set_parentOffset (v : N) (s : DerivableType) : DerivableType :=
  mkDerivable (d_typeKind s) (d_name s) (d_flags s) (d_layoutReady s) (d_type s) (d_items s) (d_unnamedFieldTypes s) (d_baseTypeList s) (d_baseTypeMap s) (d_gcRootBaseTypeArray s) (d_baseTypeConstructArray s) (d_baseTypeDestructArray s) (d_hasDestructor s) (d_unaryOperatorArray s) (d_binaryOperatorArray s) (d_castOperatorMap s) (d_callOperator s) (d_indexerProperty s) (d_ifaceStructType s) (d_classStructType s) (d_fieldClasses s) (d_isReactor s) v (d_classBaseTypeArray s) (d_classFieldArray s) (d_gcRootFieldArray s) (d_fieldInitializeArray s) (d_virtualMethodArray s) (d_overrideMethodArray s) (d_virtualPropertyArray s) (d_vtable s) (d_vtableStructType s) (d_vtableVariable s).
Definition d_set_classBaseTypeArray (v : list nat) (s : DerivableType) : DerivableType :=
  mkDerivable (d_typeKind s) (d_name s) (d_flags s) (d_layoutReady s) (d_type s) (d_items s) (d_unnamedFieldTypes s) (d_baseTypeList s) (d_baseTypeMap s) (d_gcRootBaseTypeArray s) (d_baseTypeConstructArray s) (d_baseTypeDestructArray s) (d_hasDestructor s) (d_unaryOperatorArray s) (d_binaryOperatorArray s) (d_castOperatorMap s) (d_callOperator s) (d_indexerProperty s) (d_ifaceStructType s) (d_classStructType s) (d_fieldClasses s) (d_isReactor s) (d_parentOffset s) v (d_classFieldArray s) (d_gcRootFieldArray s) (d_fieldInitializeArray s) (d_virtualMethodArray s) (d_overrideMethodArray s) (d_virtualPropertyArray s) (d_vtable s) (d_vtableStructType s) (d_vtableVariable s).
Definition d_set_classFieldArray (v : list nat) (s : DerivableType) : DerivableType :=
  mkDerivable (d_typeKind s) (d_name s) (d_flags s) (d_layoutReady s) (d_type s) (d_items s) (d_unnamedFieldTypes s) (d_baseTypeList s) (d_baseTypeMap s) (d_gcRootBaseTypeArray s) (d_baseTypeConstructArray s) (d_baseTypeDestructArray s) (d_hasDestructor s) (d_unaryOperatorArray s) (d_binaryOperatorArray s) (d_castOperatorMap s) (d_callOperator s) (d_indexerProperty s) (d_ifaceStructType s) (d_classStructType s) (d_fieldClasses s) (d_isReactor s) (d_parentOffset s) (d_classBaseTypeArray s) v (d_gcRootFieldArray s) (d_fieldInitializeArray s) (d_virtualMethodArray s) (d_overrideMethodArray s) (d_virtualPropertyArray s) (d_vtable s) (d_vtableStructType s) (d_vtableVariable s).
Definition d_set_gcRootFieldArray (v : list nat) (s : DerivableType) : DerivableType :=
  mkDerivable (d_typeKind s) (d_name s) (d_flags s) (d_layoutReady s) (d_type s) (d_items s) (d_unnamedFieldTypes s) (d_baseTypeList s) (d_baseTypeMap s) (d_gcRootBaseTypeArray s) (d_baseTypeConstructArray s) (d_baseTypeDestructArray s) (d_hasDestructor s) (d_unaryOperatorArray s) (d_binaryOperatorArray s) (d_castOperatorMap s) (d_callOperator s) (d_indexerProperty s) (d_ifaceStructType s) (d_classStructType s) (d_fieldClasses s) (d_isReactor s) (d_parentOffset s) (d_classBaseTypeArray s) (d_classFieldArray s) v (d_fieldInitializeArray s) (d_virtualMethodArray s) (d_overrideMethodArray s) (d_virtualPropertyArray s) (d_vtable s) (d_vtableStructType s) (d_vtableVariable s).
Definition d_set_fieldInitializeArray (v : list nat) (s : DerivableType) : DerivableType :=
  mkDerivable (d_typeKind s) (d_name s) (d_flags s) (d_layoutReady s) (d_type s) (d_items s) (d_unnamedFieldTypes s) (d_baseTypeList s) (d_baseTypeMap s) (d_gcRootBaseTypeArray s) (d_baseTypeConstructArray s) (d_baseTypeDestructArray s) (d_hasDestructor s) (d_unaryOperatorArray s) (d_binaryOperatorArray s) (d_castOperatorMap s) (d_callOperator s) (d_indexerProperty s) (d_ifaceStructType s) (d_classStructType s) (d_fieldClasses s) (d_isReactor s) (d_parentOffset s) (d_classBaseTypeArray s) (d_classFieldArray s) (d_gcRootFieldArray s) v (d_virtualMethodArray s) (d_overrideMethodArray s) (d_virtualPropertyArray s) (d_vtable s) (d_vtableStructType s) (d_vtableVariable s).
Definition d_set_virtualMethodArray (v : list nat) (s : DerivableType) : DerivableType :=
  mkDerivable (d_typeKind s) (d_name s) (d_flags s) (d_layoutReady s) (d_type s) (d_items s) (d_unnamedFieldTypes s) (d_baseTypeList s) (d_baseTypeMap s) (d_gcRootBaseTypeArray s) (d_baseTypeConstructArray s) (d_baseTypeDestructArray s) (d_hasDestructor s) (d_unaryOperatorArray s) (d_binaryOperatorArray s) (d_castOperatorMap s) (d_callOperator s) (d_indexerProperty s) (d_ifaceStructType s) (d_classStructType s) (d_fieldClasses s) (d_isReactor s) (d_parentOffset s) (d_classBaseTypeArray s) (d_classFieldArray s) (d_gcRootFieldArray s) (d_fieldInitializeArray s) v (d_overrideMethodArray s) (d_virtualPropertyArray s) (d_vtable s) (d_vtableStructType s) (d_vtableVariable s).
Definition d_set_overrideMethodArray (v : list nat) (s : DerivableType) : DerivableType :=
  mkDerivable (d_typeKind s) (d_name s) (d_flags s) (d_layoutReady s) (d_type s) (d_items s) (d_unnamedFieldTypes s) (d_baseTypeList s) (d_baseTypeMap s) (d_gcRootBaseTypeArray s) (d_baseTypeConstructArray s) (d_baseTypeDestructArray s) (d_hasDestructor s) (d_unaryOperatorArray s) (d_binaryOperatorArray s) (d_castOperatorMap s) (d_callOperator s) (d_indexerProperty s) (d_ifaceStructType s) (d_classStructType s) (d_fieldClasses s) (d_isReactor s) (d_parentOffset s) (d_classBaseTypeArray s) (d_classFieldArray s) (d_gcRootFieldArray s) (d_fieldInitializeArray s) (d_virtualMethodArray s) v (d_virtualPropertyArray s) (d_vtable s) (d_vtableStructType s) (d_vtableVariable s).
Definition d_set_virtualPropertyArray (v : list nat) (s : DerivableType) : DerivableType :=
  mkDerivable (d_typeKind s) (d_name s) (d_flags s) (d_layoutReady s) (d_type s) (d_items s) (d_unnamedFieldTypes s) (d_baseTypeList s) (d_baseTypeMap s) (d_gcRootBaseTypeArray s) (d_baseTypeConstructArray s) (d_baseTypeDestructArray s) (d_hasDestructor s) (d_unaryOperatorArray s) (d_binaryOperatorArray s) (d_castOperatorMap s) (d_callOperator s) (d_indexerProperty s) (d_ifaceStructType s) (d_classStructType s) (d_fieldClasses s) (d_isReactor s) (d_parentOffset s) (d_classBaseTypeArray s) (d_classFieldArray s) (d_gcRootFieldArray s) (d_fieldInitializeArray s) (d_virtualMethodArray s) (d_overrideMethodArray s) v (d_vtable s) (d_vtableStructType s) (d_vtableVariable s).
Definition d_set_vtable (v : list nat) (s : DerivableType) : DerivableType :=
  mkDerivable (d_typeKind s) (d_name s) (d_flags s) (d_layoutReady s) (d_type s) (d_items s) (d_unnamedFieldTypes s) (d_baseTypeList s) (d_baseTypeMap s) (d_gcRootBaseTypeArray s) (d_baseTypeConstructArray s) (d_baseTypeDestructArray s) (d_hasDestructor s) (d_unaryOperatorArray s) (d_binaryOperatorArray s) (d_castOperatorMap s) (d_callOperator s) (d_indexerProperty s) (d_ifaceStructType s) (d_classStructType s) (d_fieldClasses s) (d_isReactor s) (d_parentOffset s) (d_classBaseTypeArray s) (d_classFieldArray s) (d_gcRootFieldArray s) (d_fieldInitializeArray s) (d_virtualMethodArray s) (d_overrideMethodArray s) (d_virtualPropertyArray s) v (d_vtableStructType s) (d_vtableVariable s).
Definition d_set_vtableStructType (v : option (list SlotType)) (s : DerivableType) : DerivableType :=
  mkDerivable (d_typeKind s) (d_name s) (d_flags s) (d_layoutReady s) (d_type s) (d_items s) (d_unnamedFieldTypes s) (d_baseTypeList s) (d_baseTypeMap s) (d_gcRootBaseTypeArray s) (d_baseTypeConstructArray s) (d_baseTypeDestructArray s) (d_hasDestructor s) (d_unaryOperatorArray s) (d_binaryOperatorArray s) (d_castOperatorMap s) (d_callOperator s) (d_indexerProperty s) (d_ifaceStructType s) (d_classStructType s) (d_fieldClasses s) (d_isReactor s) (d_parentOffset s) (d_classBaseTypeArray s) (d_classFieldArray s) (d_gcRootFieldArray s) (d_fieldInitializeArray s) (d_virtualMethodArray s) (d_overrideMethodArray s) (d_virtualPropertyArray s) (d_vtable s) v (d_vtableVariable s).
Definition d_set_vtableVariable (v : bool) (s : DerivableType) : DerivableType :=
  mkDerivable (d_typeKind s) (d_name s) (d_flags s) (d_layoutReady s) (d_type s) (d_items s) (d_unnamedFieldTypes s) (d_baseTypeList s) (d_baseTypeMap s) (d_gcRootBaseTypeArray s) (d_baseTypeConstructArray s) (d_baseTypeDestructArray s) (d_hasDestructor s) (d_unaryOperatorArray s) (d_binaryOperatorArray s) (d_castOperatorMap s) (d_callOperator s) (d_indexerProperty s) (d_ifaceStructType s) (d_classStructType s) (d_fieldClasses s) (d_isReactor s) (d_parentOffset s) (d_classBaseTypeArray s) (d_classFieldArray s) (d_gcRootFieldArray s) (d_fieldInitializeArray s) (d_virtualMethodArray s) (d_overrideMethodArray s) (d_virtualPropertyArray s) (d_vtable s) (d_vtableStructType s) v.

(** The store. *)
Record World := mkWorld { w_functions : gmap nat Function; w_properties : gmap nat Property; w_types : gmap nat DerivableType }.

(** ** Errors *)

Inductive ClassError :=
  | Class_NotReady | Class_CannotBeABaseType | Class_AlreadyABaseType | Class_NonCreatableBase
  | Class_Layout (e : LayoutError) | Class_CannotInstantiate | Class_TypeLayout | Class_MethodNotFound
  | Class_NoSetter | Class_FunctionKindMismatch | Class_NotAMethodOrProperty | Class_SignatureMismatch
  | Class_NotVirtual | Class_DefaultMethods | Class_Abstract | Class_AssertFailed.

(** An operation on the store. After an error the store is not used. *)
Definition C (A : Type) : Type := World → (A * World) + ClassError.

#[export] Instance C_ret : MRet C := λ A x w, inl (x, w).
#[export] Instance C_bind : MBind C := λ A B f m w,
  match m w with
  | inl (x, w) => f x w
  | inr e => inr e
  end.

Definition throw {A} (e : ClassError) : C A := λ w, inr e.
Definition require (b : bool) (e : ClassError) : C unit := if b then mret tt else throw e.
Definition on (b : bool) (m : C unit) : C unit := if b then m else mret tt.
Definition read {A} (f : World → A) : C A := λ w, inl (f w, w).

(** A null or stray pointer is a failed assertion. *)
Definition deref {A} (o : option A) : C A := match o with Some x => mret x | None => throw Class_AssertFailed end.

Definition get_function (f : nat) : C Function := λ w, deref (w_functions w !! f) w.
Definition get_property (p : nat) : C Property := λ w, deref (w_properties w !! p) w.
Definition get_type (t : nat) : C DerivableType := λ w, deref (w_types w !! t) w.
Definition upd_function (f : nat) (g : Function → Function) : C unit := λ w,
  inl (tt, mkWorld (alter g f (w_functions w)) (w_properties w) (w_types w)).
Definition upd_property (p : nat) (g : Property → Property) : C unit := λ w,
  inl (tt, mkWorld (w_functions w) (alter g p (w_properties w)) (w_types w)).
Definition upd_type (t : nat) (g : DerivableType → DerivableType) : C unit := λ w,
  inl (tt, mkWorld (w_functions w) (w_properties w) (alter g t (w_types w))).

Fixpoint for_each {A} (l : list A) (m : A → C unit) : C unit :=
  match l with
  | [] => mret tt
  | x :: l => _ ← m x; for_each l m
  end.

(** ** Looking up base types and members *)

Definition first_some {A B} (f : A → option B) : list A → option B :=
  fix go l := match l with
  | [] => None
  | x :: l => match f x with Some y => Some y | None => go l end
  end.

(** [BaseTypeCoord] *)
Record BaseTypeCoord := mkCoord { bc_offset : N; bc_vtableIndex : option nat; bc_llvmIndexArray : list (option nat) }.

Definition coord0 : BaseTypeCoord := mkCoord 0 (Some 0) [].

Definition add_index (a b : option nat) : option nat := a ← a; b ← b; Some (a + b).

Definition isAdapter (d : DerivableType) : bool :=
  bool_decide (d_typeKind d = TypeKind_Struct) &&
  bool_decide (m_structTypeKind (d_ifaceStructType d) = StructTypeKind_Adapter).

(** [findBaseTypeTraverseImpl]: the coordinates of the first base type [a] of [t]. *)
Fixpoint findBaseTypeTraverse (types : gmap nat DerivableType) (fuel : nat) (t a : nat) : option BaseTypeCoord :=
  match fuel with
  | O => None
  | S fuel =>
    d ← types !! t;
    match d_baseTypeMap d !! a with
    | Some i =>
      if isAdapter d then Some coord0
      else slot ← d_baseTypeList d !! i; Some (mkCoord (s_offset slot) (s_vtableIndex slot) [s_llvmIndex slot])
    | None =>
      first_some (λ slot,
        coord ← findBaseTypeTraverse types fuel (s_type slot) a;
        Some (mkCoord (add64 (bc_offset coord) (s_offset slot))
          (add_index (bc_vtableIndex coord) (s_vtableIndex slot)) (s_llvmIndex slot :: bc_llvmIndexArray coord)))
        (d_baseTypeList d)
    end
  end.

(** [findDirectChildItem]: a name of the type, or the type itself. *)
Definition findDirectChildItem (d : DerivableType) (name : string) : option ModuleItem :=
  match d_items d !! name with
  | Some item => Some item
  | None => if decide (name = d_name d) then Some ItemOther else None
  end.

(** [findDirectChildItemTraverse] without the parent and extension namespaces. *)
Fixpoint findDirectChildItemTraverse (types : gmap nat DerivableType) (fuel : nat) (noThis : bool) (t : nat)
    (name : string) : option ModuleItem :=
  match fuel with
  | O => None
  | S fuel =>
    d ← types !! t;
    let own :=
      if noThis then None
      else match findDirectChildItem d name with
           | Some item => Some item
           | None => first_some (λ u, findDirectChildItemTraverse types fuel false u name) (d_unnamedFieldTypes d)
           end in
    match own with
    | Some item => Some item
    | None => first_some (λ slot, findDirectChildItemTraverse types fuel false (s_type slot) name) (d_baseTypeList d)
    end
  end.

(** ** Operators of base types *)

(** [combineOperatorArrays] *)
Definition combineOperatorArrays (dst src : list (option nat)) : list (option nat) :=
  let dstCount := length dst in
  let srcCount := length src in
  let '(dst, cmnCount) :=
    if srcCount <=? dstCount then (dst, srcCount) else (dst ++ drop dstCount src, dstCount) in
  imap (λ i op, if i <? cmnCount then match op with Some f => Some f | None => src !! i ≫= id end else op) dst.

(** [combineOperatorMaps] *)
Definition combineOperatorMaps (dst src : gmap N nat) : gmap N nat := dst ∪ src.

(** [combineOperators] *)
Definition combineOperators (dst src : option nat) : option nat := match dst with Some f => Some f | None => src end.

Section class.
Context `{Axl} (E : env).

(** The standard types of the headers of interfaces and of boxes. *)
Variables (IfaceHdr BoxType : type).

Definition ClassTypeFlag_HasAbstractMethods : N := 0x010000.
Definition ClassTypeFlag_Creatable : N := 0x100000.

(** The interface struct of a class, as a base type or a field. *)
Definition struct_type (signature : N) (s : StructType) : type :=
  mkType signature (m_size s) (m_alignment s) (m_flags s) false true false false (m_constructorThinThisFlag s) true.

Definition iface_type (d : DerivableType) : type := struct_type (t_signature (d_type d)) (d_ifaceStructType d).

Definition run_layout (s : StructType) : C StructType :=
  match calcLayoutTo E None s with
  | (inl _, s) => mret s
  | (inr e, _) => throw (Class_Layout e)
  end.

(** [getVtableStructType] *)
Definition getVtableStructType (d : DerivableType) : DerivableType :=
  match d_vtableStructType d with
  | Some _ => d
  | None => d_set_vtableStructType (Some []) d
  end.

Definition append_vtable_struct (l : list SlotType) (d : DerivableType) : DerivableType :=
  d_set_vtableStructType ((λ l0, l0 ++ l) <$> d_vtableStructType d) d.

(** *** The base types *)

Definition upd_slot (c i : nat) (g : BaseSlot → BaseSlot) : C unit :=
  upd_type c (λ d, d_set_baseTypeList (alter g i (d_baseTypeList d)) d).

Definition iface_addBaseType (c : nat) (t : type) : C nat :=
  d ← get_type c;
  _ ← upd_type c (λ d, d_set_ifaceStructType (addBaseType t (d_ifaceStructType d)) d);
  mret (length (m_baseTypeList (d_ifaceStructType d))).

(** The first part of [calcLayout]: a header, unless the first base type has one. *)
Definition layout_ifaceHdr (c : nat) : C unit :=
  d ← get_type c;
  match d_baseTypeList d with
  | [] => _ ← iface_addBaseType c IfaceHdr; mret tt
  | slot :: _ =>
    t ← get_type (s_type slot);
    _ ← require (d_layoutReady t) Class_NotReady;
    if decide (d_typeKind t = TypeKind_Class) then mret tt
    else _ ← iface_addBaseType c IfaceHdr; mret tt
  end.

(** What a class takes from a base class. *)
Definition inherit (i : nat) (t : DerivableType) (d : DerivableType) : DerivableType :=
  let d := d_set_baseTypeList (alter (s_set_vtableIndex (Some (length (d_vtable d)))) i (d_baseTypeList d)) d in
  let d := d_set_vtable (d_vtable d ++ d_vtable t) d in
  let d := match d_vtableStructType t with
           | Some l => append_vtable_struct l (getVtableStructType d)
           | None => d
           end in
  let d := d_set_classBaseTypeArray (d_classBaseTypeArray d ++ [i]) d in
  let d := if d_hasDestructor t then d_set_baseTypeDestructArray (d_baseTypeDestructArray d ++ [i]) d else d in
  let d := d_set_unaryOperatorArray (combineOperatorArrays (d_unaryOperatorArray d) (d_unaryOperatorArray t)) d in
  let d := d_set_binaryOperatorArray (combineOperatorArrays (d_binaryOperatorArray d) (d_binaryOperatorArray t)) d in
  let d := d_set_castOperatorMap (combineOperatorMaps (d_castOperatorMap d) (d_castOperatorMap t)) d in
  let d := d_set_callOperator (combineOperators (d_callOperator d) (d_callOperator t)) d in
  d_set_indexerProperty (combineOperators (d_indexerProperty d) (d_indexerProperty t)) d.

(** A pass of the loop over the base types: the index of the slot of the interface struct. *)
Definition layout_base (c i : nat) : C nat :=
  d ← get_type c;
  slot ← deref (d_baseTypeList d !! i);
  t ← get_type (s_type slot);
  _ ← require (d_layoutReady t) Class_NotReady;
  _ ← require (negb (bool_decide (d_typeKind t = TypeKind_Other))) Class_CannotBeABaseType;
  _ ← require (bool_decide (d_baseTypeMap d !! s_type slot = None)) Class_AlreadyABaseType;
  _ ← upd_type c (λ d, d_set_baseTypeMap (<[s_type slot := i]> (d_baseTypeMap d)) d);
  _ ← on (has_flag TypeFlag_GcRoot (d_flags t))
        (upd_type c (λ d, d_set_flags (N.lor (d_flags d) TypeFlag_GcRoot)
          (d_set_gcRootBaseTypeArray (d_gcRootBaseTypeArray d ++ [i]) d)));
  _ ← on (t_hasConstructor (d_type t))
        (upd_type c (λ d, d_set_baseTypeConstructArray (d_baseTypeConstructArray d ++ [i]) d));
  if decide (d_typeKind t = TypeKind_Class) then
    _ ← require (negb (has_flag ClassTypeFlag_OpaqueNonCreatable (d_flags t))) Class_NonCreatableBase;
    k ← iface_addBaseType c (iface_type t);
    _ ← upd_type c (inherit i t);
    mret k
  else iface_addBaseType c (d_type t).

Fixpoint layout_bases (c i n : nat) : C (list nat) :=
  match n with
  | O => mret []
  | S n => k ← layout_base c i; ks ← layout_bases c (S i) n; mret (k :: ks)
  end.

(** *** The fields *)

(** The interface struct knows the flags of its class while it is laid out. *)
Definition layout_iface (c : nat) : C unit :=
  d ← get_type c;
  let info := m_parentClass (d_ifaceStructType d) ≫= snd in
  s ← run_layout (set_parentClass (Some (d_flags d, info)) (d_ifaceStructType d));
  upd_type c (λ d, d_set_ifaceStructType s
    (match m_parentClass s with Some (flags, _) => d_set_flags flags d | None => d end)).

(** A pass of the loop over the fields. *)
Definition scan_class_field (c i : nat) : C unit :=
  d ← get_type c;
  field ← deref (m_fieldArray (d_ifaceStructType d) !! i);
  let t := f_type field in
  _ ← on (has_flag TypeFlag_GcRoot (t_flags t))
        (upd_type c (λ d, d_set_flags (N.lor (d_flags d) TypeFlag_GcRoot)
          (d_set_gcRootFieldArray (d_gcRootFieldArray d ++ [i]) d)));
  _ ← match d_fieldClasses d !! i ≫= id with
      | Some u =>
        classType ← get_type u;
        _ ← require (negb (has_flag (N.lor ClassTypeFlag_HasAbstractMethods ClassTypeFlag_OpaqueNonCreatable) (d_flags classType)))
              Class_CannotInstantiate;
        _ ← on (d_isReactor classType) (upd_type u (d_set_parentOffset (add64 (f_offset field) (t_size BoxType))));
        upd_type c (λ d, d_set_classFieldArray (d_classFieldArray d ++ [i]) d)
      | None => mret tt
      end;
  on (f_isOwn field && (f_hasInitializer field || t_isConstructible t))
    (upd_type c (λ d, d_set_fieldInitializeArray (d_fieldInitializeArray d ++ [i]) d)).

(** The slots get the offsets of those of the interface struct. *)
Definition update_slot (c : nat) (ik : nat * nat) : C unit :=
  d ← get_type c;
  ifaceSlot ← deref (m_baseTypeList (d_ifaceStructType d) !! snd ik);
  upd_slot c (fst ik) (λ s, s_set_offset (b_slotOffset ifaceSlot) (s_set_llvmIndex (b_slotLlvmIndex ifaceSlot) s)).

(** The class struct: a box and the interface. *)
Definition layout_class (c : nat) : C unit :=
  d ← get_type c;
  s ← run_layout (createField (newField (iface_type d) 0 0)
        (createField (newField BoxType 0 0) (newStruct StructTypeKind_ClassStruct (m_fieldAlignment (d_ifaceStructType d)))));
  upd_type c (d_set_classStructType s).

(** *** The virtual table *)

Definition slot_type (f : Function) : SlotType := (fn_shortType f, fn_thisArgType f).

Definition setter_list (o : OverloadableFunction) : list nat :=
  match o with NoFunction => [] | OneFunction f => [f] | Overload fs => fs end.

(** [prepareVtable] of a property *)
Definition accessors (p : Property) : list nat := option_list (p_binder p) ++ p_getter p :: setter_list (p_setter p).

(** [appendVtableMethod] *)
Definition appendVtableMethod (p f : nat) : C unit :=
  fn ← get_function f;
  _ ← require (fn_typeLayout fn) Class_TypeLayout;
  upd_property p (λ pr, p_set_vtable (p_vtable pr ++ [f]) pr).

(** [ensureVtable] *)
Definition ensureVtable (p : nat) : C unit :=
  pr ← get_property p;
  match p_vtable pr with
  | [] => for_each (accessors pr) (appendVtableMethod p)
  | _ => mret tt
  end.

Definition set_origin (c index : nat) (f : Function) : Function :=
  fn_set_virtualOriginClassType (Some c) (fn_set_classVtableIndex (Some index) f).

Fixpoint get_functions (fs : list nat) : C (list Function) :=
  match fs with
  | [] => mret []
  | f :: fs => fn ← get_function f; fns ← get_functions fs; mret (fn :: fns)
  end.

(** The origin of the accessors of a property. *)
Fixpoint set_accessors (c index : nat) (fs : list nat) : C unit :=
  match fs with
  | [] => mret tt
  | f :: fs => _ ← upd_function f (set_origin c index); set_accessors c (S index) fs
  end.

(** A pass of the loop over virtual properties. The fields have the types of the accessors; the code takes
    them from the type of the property ([PropertyType::getVtableStructType]), which is made of these types. *)
Definition layout_property (c p : nat) : C unit :=
  pr ← get_property p;
  _ ← require (bool_decide (p_storageKind pr = StorageKind_Abstract) || bool_decide (p_storageKind pr = StorageKind_Virtual))
        Class_AssertFailed;
  _ ← ensureVtable p;
  pr ← get_property p;
  d ← get_type c;
  let vtableIndex := length (d_vtable d) in
  _ ← upd_property p (p_set_parentClassVtableIndex (Some vtableIndex));
  fns ← get_functions (p_vtable pr);
  _ ← upd_type c (λ d, append_vtable_struct (map slot_type fns) (d_set_vtable (d_vtable d ++ p_vtable pr) d));
  set_accessors c vtableIndex (p_vtable pr).

Definition addVirtualFunction (c f : nat) : C unit :=
  fn ← get_function f;
  _ ← require (bool_decide (fn_storageKind fn = StorageKind_Abstract) || bool_decide (fn_storageKind fn = StorageKind_Virtual))
        Class_AssertFailed;
  _ ← require (bool_decide (fn_virtualOriginClassType fn = None)) Class_AssertFailed;
  _ ← require (fn_typeLayout fn) Class_TypeLayout;
  _ ← on (bool_decide (fn_storageKind fn = StorageKind_Abstract))
        (upd_type c (λ d, d_set_flags (N.lor (d_flags d) ClassTypeFlag_HasAbstractMethods) d));
  d ← get_type c;
  _ ← upd_function f (set_origin c (length (d_vtable d)));
  upd_type c (λ d, d_set_vtable (d_vtable d ++ [f]) (append_vtable_struct [slot_type fn] (getVtableStructType d))).

(** [findShortOverload] *)
Definition findShortOverload (functions : gmap nat Function) (fs : list nat) (shortType flags : N) : option nat :=
  first_some (λ f, fn ← functions !! f;
    if (fn_shortType fn =? shortType)%N && (fn_thisArgTypeFlags fn =? flags)%N then Some f else None) fs.

(** The function an override overrides: what the name stands for in the base types. *)
Definition find_overridden (c : nat) (fn : Function) : C nat :=
  types ← read w_types;
  functions ← read w_functions;
  item ← match findDirectChildItemTraverse types (S c) true c (fn_name fn) with
         | Some item => mret item
         | None => throw Class_MethodNotFound
         end;
  found ←
    match item with
    | ItemFunctionOverload fs => mret (Overload fs)
    | ItemFunction f => mret (OneFunction f)
    | ItemProperty p =>
      pr ← get_property p;
      match fn_functionKind fn with
      | FunctionKind_Getter => mret (OneFunction (p_getter pr))
      | FunctionKind_Setter =>
        match p_setter pr with
        | NoFunction => throw Class_NoSetter
        | o => mret o
        end
      | _ => throw Class_FunctionKindMismatch
      end
    | ItemOther => throw Class_NotAMethodOrProperty
    end;
  match found with
  | OneFunction f =>
    fn' ← get_function f;
    if (fn_shortType fn' =? fn_shortType fn)%N then mret f else throw Class_SignatureMismatch
  | Overload fs =>
    match findShortOverload functions fs (fn_shortType fn) (fn_thisArgTypeFlags fn) with
    | Some f => mret f
    | None => throw Class_SignatureMismatch
    end
  | NoFunction => throw Class_AssertFailed
  end.

Definition overrideVirtualFunction (c f : nat) : C unit :=
  fn ← get_function f;
  _ ← require (bool_decide (fn_storageKind fn = StorageKind_Override)) Class_AssertFailed;
  _ ← require (bool_decide (fn_virtualOriginClassType fn = None)) Class_AssertFailed;
  _ ← require (fn_typeLayout fn) Class_TypeLayout;
  o ← find_overridden c fn;
  overridden ← get_function o;
  _ ← require (isVirtual (fn_storageKind overridden)) Class_NotVirtual;
  origin ← deref (fn_virtualOriginClassType overridden);
  index ← deref (fn_classVtableIndex overridden);
  types ← read w_types;
  coord ← deref (findBaseTypeTraverse types (S c) c origin);
  start ← deref (bc_vtableIndex coord);
  _ ← upd_function f (λ fn,
        fn_set_thisArgType (fn_thisArgType overridden)
        (fn_set_thisArgDelta (- Z.of_N (bc_offset coord))
        (set_origin origin index fn)));
  d ← get_type c;
  _ ← require (start + index <? length (d_vtable d)) Class_AssertFailed;
  upd_type c (λ d, d_set_vtable (<[start + index := f]> (d_vtable d)) d).

(** *** The whole *)

Definition calcLayout (c : nat) : C unit :=
  d ← get_type c;
  _ ← require (e_ensureNamespaceReady E && e_ensureAttributeValuesReady E) Class_NotReady;
  _ ← layout_ifaceHdr c;
  let baseTypeCount := length (d_baseTypeList d) in
  ifaceBaseTypeArray ← layout_bases c 0 baseTypeCount;
  _ ← layout_iface c;
  d ← get_type c;
  _ ← for_each (seq 0 (length (m_fieldArray (d_ifaceStructType d)))) (scan_class_field c);
  _ ← for_each (zip (seq 0 baseTypeCount) ifaceBaseTypeArray) (update_slot c);
  _ ← layout_class c;
  d ← get_type c;
  _ ← on (negb (bool_decide (d_virtualPropertyArray d = [])) || negb (bool_decide (d_virtualMethodArray d = [])))
        (upd_type c getVtableStructType);
  _ ← for_each (d_virtualPropertyArray d) (layout_property c);
  _ ← for_each (d_virtualMethodArray d) (addVirtualFunction c);
  _ ← for_each (d_overrideMethodArray d) (overrideVirtualFunction c);
  _ ← require (e_createDefaultMethods E) Class_DefaultMethods;
  upd_type c (d_set_layoutReady true).

(** [Type::ensureLayout] of a class *)
Definition ensureLayout (c : nat) : C unit :=
  d ← get_type c;
  if d_layoutReady d then mret tt else calcLayout c.
End class.

(** ** Creating objects *)

Section creatable.
Context (E : env).

(** [ensureClassFieldsCreatable] *)
Fixpoint fields_creatable (ensure : nat → World → option (bool * World)) (us : list nat) (w : World) :
    option (bool * World) :=
  match us with
  | [] => Some (true, w)
  | u :: us =>
    match ensure u w with
    | Some (true, w) => fields_creatable ensure us w
    | r => r
    end
  end.

(** The classes of the fields of class types. *)
Definition class_fields (d : DerivableType) : list nat := omap (λ i, d_fieldClasses d !! i ≫= id) (d_classFieldArray d).

(** The classes of the base classes. *)
Definition class_bases (d : DerivableType) : list nat := omap (λ i, s_type <$> d_baseTypeList d !! i) (d_classBaseTypeArray d).

(** The loop over the fields of the base classes in [prepareForOperatorNew]. *)
Fixpoint bases_creatable (ensure : nat → World → option (bool * World)) (bs : list nat) (w : World) :
    option (bool * World) :=
  match bs with
  | [] => Some (true, w)
  | b :: bs =>
    match d ← w_types w !! b; fields_creatable ensure (class_fields d) w with
    | Some (true, w) => bases_creatable ensure bs w
    | r => r
    end
  end.

Definition set_creatable (c : nat) (hasVariable : bool) (w : World) : World :=
  mkWorld (w_functions w) (w_properties w)
    (alter (λ d, d_set_flags (N.lor (d_flags d) ClassTypeFlag_Creatable) (d_set_vtableVariable (hasVariable || d_vtableVariable d) d))
       c (w_types w)).

Definition is_abstract (w : World) (f : nat) : bool :=
  match w_functions w !! f with
  | Some fn => bool_decide (fn_storageKind fn = StorageKind_Abstract)
  | None => false
  end.

(** [prepareForOperatorNew]; the result for the fields of the class itself is dropped. *)
Definition prepareForOperatorNew (ensure : nat → World → option (bool * World)) (c : nat) (w : World) :
    option (bool * World) :=
  d ← w_types w !! c;
  match bases_creatable ensure (class_bases d) w with
  | Some (true, w) =>
    match fields_creatable ensure (class_fields d) w with
    | Some (_, w) =>
      if negb (e_hasCodeGen E) || bool_decide (d_vtableStructType d = None) then Some (true, set_creatable c false w)
      else if existsb (is_abstract w) (d_vtable d) then Some (false, w)
      else Some (true, set_creatable c true w)
    | None => None
    end
  | r => r
  end.

(** [ensureCreatable]; [None]: it has not returned within [fuel] calls. *)
Fixpoint ensureCreatable (fuel : nat) (c : nat) (w : World) : option (bool * World) :=
  match fuel with
  | O => None
  | S fuel =>
    d ← w_types w !! c;
    if has_flag ClassTypeFlag_Creatable (d_flags d) then Some (true, w)
    else prepareForOperatorNew (ensureCreatable fuel) c w
  end.
End creatable.

(** ** Virtual calls *)

(** [getVirtualMethod]: the index in the virtual table of the class [c] of the pointer. *)
Definition getVirtualMethod (w : World) (c : nat) (fn : Function) : option nat :=
  vtableIndex ← fn_classVtableIndex fn;
  virtualOriginClassType ← fn_virtualOriginClassType fn;
  if decide (c = virtualOriginClassType) then Some vtableIndex
  else
    coord ← findBaseTypeTraverse (w_types w) (S c) c virtualOriginClassType;
    start ← bc_vtableIndex coord;
    Some (vtableIndex + start).

(** [(int32_t)] *)
Definition to_int32 (z : Z) : Z := ((z + 2 ^ 31) mod 2 ^ 32 - 2 ^ 31)%Z.

(** [createThisValue]: the address of [this] from that of the argument. *)
Definition createThisValue (fn : Function) (thisArgValue : N) : N :=
  if decide (fn_thisArgType fn = fn_thisType fn) then thisArgValue
  else if (fn_thisArgDelta fn =? 0)%Z then thisArgValue
  else Z.to_N ((Z.of_N thisArgValue + to_int32 (fn_thisArgDelta fn)) mod 2 ^ 64).

(** ** Priming *)

(** A virtual table, and an index in it; the header of an interface; that of a box. *)
Definition VtablePtr : Type := option (nat * nat).
Record IfaceHeader := mkIface { ih_vtable : VtablePtr; ih_box : N }.
Record BoxHeader := mkBoxHeader { bh_type : option nat; bh_flags : N; bh_rootOffset : N }.

(** The headers in memory. *)
Record Memory := mkMemory { mem_ifaces : N → IfaceHeader; mem_boxes : N → BoxHeader }.

Definition primed_flags : N := N.lor BoxFlag_ClassMark (N.lor BoxFlag_DataMark BoxFlag_WeakMark).

Definition set_iface (a : N) (h : IfaceHeader) (m : Memory) : Memory :=
  mkMemory (λ b, if (b =? a)%N then h else mem_ifaces m b) (mem_boxes m).
Definition set_box (a : N) (h : BoxHeader) (m : Memory) : Memory :=
  mkMemory (mem_ifaces m) (λ b, if (b =? a)%N then h else mem_boxes m b).
Definition memset0 (a size : N) (m : Memory) : Memory :=
  let inside b := (a <=? b)%N && (b <? a + size)%N in
  mkMemory (λ b, if inside b then mkIface None 0 else mem_ifaces m b)
    (λ b, if inside b then mkBoxHeader None 0 0 else mem_boxes m b).

Definition vtable_at (vtable : VtablePtr) (index : nat) : VtablePtr := (λ '(c, i), (c, i + index)) <$> vtable.

Section prime.
Variable w : World.

(** [primeIface] and [jnc_primeClass]; [None]: not within [fuel] calls. *)
Fixpoint primeIface (fuel : nat) (box root iface : N) (c : nat) (vtable : VtablePtr) (m : Memory) : option Memory :=
  match fuel with
  | O => None
  | S fuel =>
    d ← w_types w !! c;
    let m := set_iface iface (mkIface vtable box) m in
    m ←
      (fix bases (l : list nat) (m : Memory) : option Memory :=
         match l with
         | [] => Some m
         | i :: l =>
           slot ← d_baseTypeList d !! i;
           index ← s_vtableIndex slot;
           m ← primeIface fuel box root (add64 iface (s_offset slot)) (s_type slot) (vtable_at vtable index) m;
           bases l m
         end) (d_classBaseTypeArray d) m;
    (fix fields (l : list nat) (m : Memory) : option Memory :=
       match l with
       | [] => Some m
       | i :: l =>
         field ← m_fieldArray (d_ifaceStructType d) !! i;
         u ← d_fieldClasses d !! i ≫= id;
         du ← w_types w !! u;
         let fieldBox := add64 iface (f_offset field) in
         let vtable := if d_vtableVariable du then Some (u, 0) else None in
         let m := memset0 fieldBox (m_size (d_classStructType du)) m in
         let m := set_box fieldBox (mkBoxHeader (Some u) primed_flags
                    (sub64 fieldBox root)) m in
         m ← primeIface fuel fieldBox root (add64 fieldBox sizeof_Box) u vtable m;
         fields l m
       end) (d_classFieldArray d) m
  end.

Definition primeClass (fuel : nat) (box root : N) (c : nat) (vtable : VtablePtr) (m : Memory) : option Memory :=
  d ← w_types w !! c;
  let vtable := match vtable with Some _ => vtable | None => if d_vtableVariable d then Some (c, 0) else None end in
  let m := memset0 box (m_size (d_classStructType d)) m in
  let m := set_box box (mkBoxHeader (Some c) primed_flags (sub64 box root)) m in
  primeIface fuel box root (add64 box sizeof_Box) c vtable m.
End prime.
