(* ===== verification/ClassVtableSpec.v ===== *)
(** * Class types: what the operations do

    The steps of [ClassVtable.calcLayout] as relations between stores: what is
    changed, and what is not. *)

From S2P Require Import Prelude StructLayout ClassVtable.

Open Scope nat_scope.

(** ** Inversion of the operations *)

Lemma cbind_inv {A B} (m : C A) (k : A → C B) w y w' : (m ≫= k) w = inl (y, w') →
  ∃ x w1, m w = inl (x, w1) ∧ k x w1 = inl (y, w').
Proof. unfold mbind, C_bind. destruct (m w) as [ [x w1]|e]; [|done]. by exists x, w1. Qed.

Lemma mret_inv {A} (x y : A) w w' : (mret x : C A) w = inl (y, w') → x = y ∧ w = w'.
Proof. by intros [= -> ->]. Qed.

Lemma require_inv b e w y w' : require b e w = inl (y, w') → b = true ∧ w' = w.
Proof. destruct b; [|done]. by intros [= _ <-]. Qed.

Lemma deref_inv {A} (o : option A) w x w' : deref o w = inl (x, w') → o = Some x ∧ w' = w.
Proof. destruct o; [|done]. by intros [= -> ->]. Qed.

Lemma get_type_inv t w d w' : get_type t w = inl (d, w') → w_types w !! t = Some d ∧ w' = w.
Proof. apply deref_inv. Qed.

Lemma get_function_inv f w fn w' : get_function f w = inl (fn, w') → w_functions w !! f = Some fn ∧ w' = w.
Proof. apply deref_inv. Qed.

Lemma get_property_inv p w pr w' : get_property p w = inl (pr, w') → w_properties w !! p = Some pr ∧ w' = w.
Proof. apply deref_inv. Qed.

Lemma upd_type_inv t g w y w' : upd_type t g w = inl (y, w') →
  w' = mkWorld (w_functions w) (w_properties w) (alter g t (w_types w)).
Proof. by intros [= _ <-]. Qed.

Lemma upd_function_inv f g w y w' : upd_function f g w = inl (y, w') →
  w' = mkWorld (alter g f (w_functions w)) (w_properties w) (w_types w).
Proof. by intros [= _ <-]. Qed.

Lemma upd_property_inv p g w y w' : upd_property p g w = inl (y, w') →
  w' = mkWorld (w_functions w) (alter g p (w_properties w)) (w_types w).
Proof. by intros [= _ <-]. Qed.

Lemma on_inv b m w y w' : on b m w = inl (y, w') → (b = true ∧ m w = inl (y, w')) ∨ (b = false ∧ w' = w).
Proof. destruct b; [auto|]. intros [= _ <-]. auto. Qed.

(** Takes an operation apart. *)
Ltac cinv :=
  repeat match goal with
  | H : mbind _ _ _ = inl _ |- _ => apply cbind_inv in H; destruct H as (? & ? & ? & H)
  | H : mret _ _ = inl _ |- _ => apply mret_inv in H; destruct H; subst
  | H : require _ _ _ = inl _ |- _ => apply require_inv in H; destruct H as [? ->]
  | H : deref _ _ = inl _ |- _ => apply deref_inv in H; destruct H as [? ->]
  | H : get_type _ _ = inl _ |- _ => apply get_type_inv in H; destruct H as [? ->]
  | H : get_function _ _ = inl _ |- _ => apply get_function_inv in H; destruct H as [? ->]
  | H : get_property _ _ = inl _ |- _ => apply get_property_inv in H; destruct H as [? ->]
  | H : read _ _ = inl _ |- _ => injection H as <- <-
  | H : upd_type _ _ _ = inl _ |- _ => apply upd_type_inv in H; subst
  | H : upd_function _ _ _ = inl _ |- _ => apply upd_function_inv in H; subst
  | H : upd_property _ _ _ = inl _ |- _ => apply upd_property_inv in H; subst
  end; to_prop.

(** ** What stays *)

(** A type but for the offset of a reactor in its parent, which is that of the last
    class with a field of the type. *)
Definition core (d : DerivableType) : DerivableType := d_set_parentOffset 0%N d.

(** A function but for its place in virtual tables. *)
Definition static (fn : Function) : Function :=
  fn_set_thisArgType (0, 0%N) (fn_set_thisArgDelta 0 (fn_set_virtualOriginClassType None (fn_set_classVtableIndex None fn))).

Definition pstatic (p : Property) : Property := p_set_vtable [] (p_set_parentClassVtableIndex None p).

(** What a layout does not change of its own class. *)
Definition cstatic (d : DerivableType) : TypeKind * list nat * (list nat * list nat * list nat) * bool * string * gmap string ModuleItem * list nat :=
  (d_typeKind d, s_type <$> d_baseTypeList d, (d_virtualPropertyArray d, d_virtualMethodArray d, d_overrideMethodArray d),
   d_layoutReady d, d_name d, d_items d, d_unnamedFieldTypes d).

(** [w'] is [w] but for the class [c] and the functions [fs]. *)
Record frame (c : nat) (fs : list nat) (w w' : World) : Prop := {
  fr_types t : t ≠ c → core <$> w_types w' !! t = core <$> w_types w !! t;
  fr_class : cstatic <$> w_types w' !! c = cstatic <$> w_types w !! c;
  fr_functions f : f ∉ fs → w_functions w' !! f = w_functions w !! f;
  fr_static f : static <$> w_functions w' !! f = static <$> w_functions w !! f;
  fr_properties p : pstatic <$> w_properties w' !! p = pstatic <$> w_properties w !! p
}.

Lemma frame_refl c fs w : frame c fs w w.
Proof. by split. Qed.

Lemma frame_trans c fs w1 w2 w3 : frame c fs w1 w2 → frame c fs w2 w3 → frame c fs w1 w3.
Proof.
  intros [A1 A2 A3 A4 A5] [B1 B2 B3 B4 B5]. split.
  - intros t Ht. by rewrite B1, A1.
  - congruence.
  - intros f Hf. by rewrite B3, A3.
  - intros f. by rewrite B4, A4.
  - intros p. by rewrite B5, A5.
Qed.

Lemma frame_weaken c fs fs' w w' : fs ⊆ fs' → frame c fs w w' → frame c fs' w w'.
Proof. intros Hs [A1 A2 A3 A4 A5]. split; auto. Qed.

(** The store of the class, and the rest as it is. *)
Lemma frame_upd_type c g w : (∀ d, cstatic (g d) = cstatic d) →
  frame c [] w (mkWorld (w_functions w) (w_properties w) (alter g c (w_types w))).
Proof.
  intros Hg. split; cbn; try done.
  - intros t Ht. by rewrite lookup_alter_ne.
  - rewrite lookup_alter_eq. destruct (w_types w !! c) as [d|]; [|done]. cbn. by rewrite Hg.
Qed.

Lemma frame_upd_function c fs f g w : f ∈ fs → (∀ fn, static (g fn) = static fn) →
  frame c fs w (mkWorld (alter g f (w_functions w)) (w_properties w) (w_types w)).
Proof.
  intros Hf Hg. split; cbn; try done.
  - intros f' Hf'. rewrite lookup_alter_ne by congruence. done.
  - intros f'. destruct (decide (f = f')) as [<-|]; [|by rewrite lookup_alter_ne].
    rewrite lookup_alter_eq. destruct (w_functions w !! f); [|done]. cbn. by rewrite Hg.
Qed.

Lemma frame_upd_property c fs p g w : (∀ pr, pstatic (g pr) = pstatic pr) →
  frame c fs w (mkWorld (w_functions w) (alter g p (w_properties w)) (w_types w)).
Proof.
  intros Hg. split; cbn; try done.
  intros p'. destruct (decide (p = p')) as [<-|]; [|by rewrite lookup_alter_ne].
  rewrite lookup_alter_eq. destruct (w_properties w !! p); [|done]. cbn. by rewrite Hg.
Qed.

Lemma frame_parentOffset c v u w :
  frame c [] w (mkWorld (w_functions w) (w_properties w) (alter (d_set_parentOffset v) u (w_types w))).
Proof.
  split; cbn; try done.
  - intros t _. destruct (decide (t = u)) as [->|]; [|by rewrite lookup_alter_ne].
    rewrite lookup_alter_eq. by destruct (w_types w !! u).
  - destruct (decide (c = u)) as [->|]; [|by rewrite lookup_alter_ne].
    rewrite lookup_alter_eq. by destruct (w_types w !! u).
Qed.

(** A type of another class, before and after. *)
Lemma frame_type c fs w w' t d' : frame c fs w w' → t ≠ c → w_types w' !! t = Some d' →
  ∃ d, w_types w !! t = Some d ∧ core d' = core d.
Proof.
  intros Hf Ht Hd. pose proof (fr_types _ _ _ _ Hf t Ht) as H. rewrite Hd in H.
  destruct (w_types w !! t) as [d|]; [|done]. apply (inj Some) in H. eauto.
Qed.

Lemma frame_self c fs w w' d : frame c fs w w' → w_types w !! c = Some d →
  ∃ d', w_types w' !! c = Some d' ∧ cstatic d' = cstatic d.
Proof.
  intros Hf Hd. pose proof (fr_class _ _ _ _ Hf) as H. rewrite Hd in H. destruct (w_types w' !! c) as [d'|]; [|done].
  apply (inj Some) in H. eauto.
Qed.

(** ** The base types *)

Section bases.
Context `{Axl} (E : env) (IfaceHdr BoxType : type).

(** The part of the virtual table that comes from a base type, and from base types. *)
Definition base_vtable (types : gmap nat DerivableType) (t : nat) : list nat :=
  match types !! t with
  | Some d => if decide (d_typeKind d = TypeKind_Class) then d_vtable d else []
  | None => []
  end.

Definition base_vtables (types : gmap nat DerivableType) (ts : list nat) : list nat := concat (map (base_vtable types) ts).

(** The same of the types of the entries. *)
Definition base_slot_types (types : gmap nat DerivableType) (ts : list nat) : list SlotType :=
  concat (map (λ t, match types !! t with
    | Some d => if decide (d_typeKind d = TypeKind_Class) then default [] (d_vtableStructType d) else []
    | None => []
    end) ts).

Definition is_class (types : gmap nat DerivableType) (t : nat) : bool :=
  match types !! t with Some d => bool_decide (d_typeKind d = TypeKind_Class) | None => false end.

(** The types of the fields of a virtual table are those of its functions. *)
Definition vtable_typed (functions : gmap nat Function) (d : DerivableType) : Prop :=
  match d_vtableStructType d with
  | Some l => Forall2 (λ f ty, slot_type <$> functions !! f = Some ty) (d_vtable d) l
  | None => d_vtable d = []
  end.

(** After the first [i] base types [ts] of the class [c]. *)
Record bases_done (w0 : World) (c : nat) (ts : list nat) (i : nat) (w : World) : Prop := {
  bd_frame : frame c [] w0 w;
  bd_types t : t ≠ c → w_types w !! t = w_types w0 !! t;
  bd_functions : w_functions w = w_functions w0;
  bd_properties : w_properties w = w_properties w0;
  bd_ready t : t ∈ take i ts → ∃ d, w_types w0 !! t = Some d ∧ d_layoutReady d = true ∧ d_typeKind d ≠ TypeKind_Other;
  bd_class : ∃ d, w_types w !! c = Some d ∧
    d_vtable d = base_vtables (w_types w0) (take i ts) ∧
    vtable_typed (w_functions w0) d ∧
    default [] (d_vtableStructType d) = base_slot_types (w_types w0) (take i ts) ∧
    s_type <$> d_baseTypeList d = ts ∧
    (∀ j s, j < i → d_baseTypeList d !! j = Some s → is_class (w_types w0) (s_type s) = true →
      s_vtableIndex s = Some (length (base_vtables (w_types w0) (take j ts)))) ∧
    (∀ a j, d_baseTypeMap d !! a = Some j ↔ j < i ∧ ts !! j = Some a) ∧
    d_classBaseTypeArray d = filter (λ j, default false (is_class (w_types w0) <$> ts !! j) = true) (seq 0 i)
}.

Lemma base_vtables_app types l1 l2 : base_vtables types (l1 ++ l2) = base_vtables types l1 ++ base_vtables types l2.
Proof. unfold base_vtables. by rewrite map_app, concat_app. Qed.

(** The effect of a base type on the class. *)
Definition based (c i : nat) (t : DerivableType) (tid : nat) (d d' : DerivableType) : Prop :=
  cstatic d' = cstatic d ∧ d_baseTypeMap d' = <[tid := i]> (d_baseTypeMap d) ∧
  if decide (d_typeKind t = TypeKind_Class) then
    d_vtable d' = d_vtable d ++ d_vtable t ∧
    d_baseTypeList d' = alter (s_set_vtableIndex (Some (length (d_vtable d)))) i (d_baseTypeList d) ∧
    d_classBaseTypeArray d' = d_classBaseTypeArray d ++ [i] ∧
    d_vtableStructType d' = match d_vtableStructType t with
      | Some l => Some (default [] (d_vtableStructType d) ++ l)
      | None => d_vtableStructType d
      end
  else d_vtable d' = d_vtable d ∧ d_baseTypeList d' = d_baseTypeList d ∧
    d_classBaseTypeArray d' = d_classBaseTypeArray d ∧ d_vtableStructType d' = d_vtableStructType d.

Lemma alter_fmap_id {A B} (f : A → A) (g : A → B) (i : nat) (l : list A) : (∀ x, g (f x) = g x) → g <$> alter f i l = g <$> l.
Proof.
  intros Hg. apply list_eq. intros j. rewrite !list_lookup_fmap. destruct (decide (i = j)) as [->|].
  - rewrite list_lookup_alter_eq. destruct (l !! j); [|done]. cbn. by rewrite Hg.
  - by rewrite list_lookup_alter_ne.
Qed.

Lemma inherit_based i t d : let d' := inherit i t d in cstatic d' = cstatic d ∧ d_baseTypeMap d' = d_baseTypeMap d ∧
  d_vtable d' = d_vtable d ++ d_vtable t ∧
  d_baseTypeList d' = alter (s_set_vtableIndex (Some (length (d_vtable d)))) i (d_baseTypeList d) ∧
  d_classBaseTypeArray d' = d_classBaseTypeArray d ++ [i] ∧
  d_vtableStructType d' = match d_vtableStructType t with
    | Some l => Some (default [] (d_vtableStructType d) ++ l)
    | None => d_vtableStructType d
    end.
Proof.
  cbv zeta. unfold inherit, append_vtable_struct, getVtableStructType, cstatic.
  destruct (d_vtableStructType t) as [l|], (d_hasDestructor t); cbn; destruct (d_vtableStructType d) as [l'|] eqn:Hl; cbn.
  all: rewrite ?(alter_fmap_id _ s_type) by done. all: repeat split; try done; by rewrite Hl.
Qed.

(** The types of the other classes, functions and properties are as they were. *)
Definition only_class (c : nat) (w w' : World) : Prop :=
  w_functions w' = w_functions w ∧ w_properties w' = w_properties w ∧ ∀ t, t ≠ c → w_types w' !! t = w_types w !! t.

Lemma only_class_trans c w1 w2 w3 : only_class c w1 w2 → only_class c w2 w3 → only_class c w1 w3.
Proof. intros (A1 & A2 & A3) (B1 & B2 & B3). split; [congruence|]. split; [congruence|]. intros t Ht. by rewrite B3, A3. Qed.

(** An update of the class. *)
Lemma upd_class_inv c g w y w' d : upd_type c g w = inl (y, w') → w_types w !! c = Some d →
  only_class c w w' ∧ w_types w' !! c = Some (g d).
Proof.
  intros Hu Hd. apply upd_type_inv in Hu as ->. split.
  - split; [done|]. split; [done|]. intros t Ht. cbn. by rewrite lookup_alter_ne.
  - cbn. by rewrite lookup_alter_eq, Hd.
Qed.

Lemma on_upd_inv b c g w y w' d : on b (upd_type c g) w = inl (y, w') → w_types w !! c = Some d →
  only_class c w w' ∧ w_types w' !! c = Some (if b then g d else d).
Proof.
  intros Ho Hd. apply on_inv in Ho as [ [-> Ho]|[-> ->] ]; [exact (upd_class_inv _ _ _ _ _ _ Ho Hd)|done].
Qed.

Lemma iface_addBaseType_inv c t w k w' d : iface_addBaseType c t w = inl (k, w') → w_types w !! c = Some d →
  only_class c w w' ∧ w_types w' !! c = Some (d_set_ifaceStructType (addBaseType t (d_ifaceStructType d)) d).
Proof.
  unfold iface_addBaseType. intros Hi Hd. apply cbind_inv in Hi as (d1 & w1 & Hg & Hi).
  apply get_type_inv in Hg as [Hg ->]. apply cbind_inv in Hi as ([] & w1 & Hu & Hi).
  apply mret_inv in Hi as [_ <-]. exact (upd_class_inv _ _ _ _ _ _ Hu Hd).
Qed.

Lemma layout_base_ok c i w k w' d : layout_base c i w = inl (k, w') → w_types w !! c = Some d → d_layoutReady d = false →
  ∃ slot t d', d_baseTypeList d !! i = Some slot ∧ w_types w !! s_type slot = Some t ∧ s_type slot ≠ c ∧
    d_layoutReady t = true ∧ d_typeKind t ≠ TypeKind_Other ∧ d_baseTypeMap d !! s_type slot = None ∧
    only_class c w w' ∧ w_types w' !! c = Some d' ∧ based c i t (s_type slot) d d'.
Proof.
  unfold layout_base. intros Hl Hd Hnr.
  apply cbind_inv in Hl as (d1 & w1 & Hg & Hl). apply get_type_inv in Hg as [Hg ->].
  assert (d1 = d) as -> by congruence.
  apply cbind_inv in Hl as (slot & w1 & Hs & Hl). apply deref_inv in Hs as [Hs ->].
  apply cbind_inv in Hl as (t & w1 & Ht & Hl). apply get_type_inv in Ht as [Ht ->].
  apply cbind_inv in Hl as ([] & w1 & H1 & Hl). apply require_inv in H1 as [H1 ->].
  apply cbind_inv in Hl as ([] & w1 & H2 & Hl). apply require_inv in H2 as [H2 ->].
  apply cbind_inv in Hl as ([] & w1 & H3 & Hl). apply require_inv in H3 as [H3 ->]. to_prop.
  assert (Hne : s_type slot ≠ c) by congruence.
  apply cbind_inv in Hl as ([] & w1 & H4 & Hl). destruct (upd_class_inv _ _ _ _ _ _ H4 Hd) as [O1 D1].
  apply cbind_inv in Hl as ([] & w2 & H5 & Hl). destruct (on_upd_inv _ _ _ _ _ _ _ H5 D1) as [O2 D2].
  apply cbind_inv in Hl as ([] & w3 & H6 & Hl). destruct (on_upd_inv _ _ _ _ _ _ _ H6 D2) as [O3 D3].
  match type of D3 with _ = Some ?x => set (d3 := x) in * end.
  assert (Hd3 : cstatic d3 = cstatic d ∧ d_baseTypeMap d3 = <[s_type slot := i]> (d_baseTypeMap d) ∧
    d_vtable d3 = d_vtable d ∧ d_baseTypeList d3 = d_baseTypeList d ∧ d_classBaseTypeArray d3 = d_classBaseTypeArray d ∧
    d_vtableStructType d3 = d_vtableStructType d).
  { unfold d3. destruct (t_hasConstructor _), (has_flag _ _); by repeat split. }
  clearbody d3. destruct Hd3 as (S1 & S2 & S3 & S4 & S5 & S6).
  assert (O : only_class c w w3) by (eapply only_class_trans; [exact O1|]; eapply only_class_trans; eassumption).
  exists slot, t. destruct (decide (d_typeKind t = TypeKind_Class)) as [Hk|Hk].
  - apply cbind_inv in Hl as ([] & w4 & H7 & Hl). apply require_inv in H7 as [_ ->].
    apply cbind_inv in Hl as (k' & w4 & H7 & Hl). destruct (iface_addBaseType_inv _ _ _ _ _ _ H7 D3) as [O4 D4].
    apply cbind_inv in Hl as ([] & w5 & H8 & Hl). destruct (upd_class_inv _ _ _ _ _ _ H8 D4) as [O5 D5].
    apply mret_inv in Hl as [_ <-]. match type of D4 with _ = Some ?x => set (d4 := x) in * end.
    exists (inherit i t d4). repeat (split; [done|]).
    split; [eapply only_class_trans; [exact O|]; by eapply only_class_trans|]. split; [done|].
    unfold based. rewrite decide_True by done.
    destruct (inherit_based i t d4) as (I1 & I2 & I3 & I4 & I5 & I6). rewrite I1, I2, I3, I4, I5, I6.
    unfold d4. cbn. rewrite S2, S3, S4, S5, S6. repeat split. exact S1.
  - destruct (iface_addBaseType_inv _ _ _ _ _ _ Hl D3) as [O4 D4]. eexists. repeat (split; [done|]).
    split; [by eapply only_class_trans|]. split; [exact D4|]. unfold based. rewrite decide_False by done.
    cbn. rewrite S2, S3, S4, S5, S6. repeat split. exact S1.
Qed.

Lemma only_class_frame c w w' d d' : only_class c w w' → w_types w !! c = Some d → w_types w' !! c = Some d' →
  cstatic d' = cstatic d → frame c [] w w'.
Proof.
  intros (H1 & H2 & H3) Hd Hd' Hs. split.
  - intros t Ht. by rewrite H3.
  - rewrite Hd, Hd'. cbn. by rewrite Hs.
  - by rewrite H1.
  - by rewrite H1.
  - by rewrite H2.
Qed.

Lemma base_vtables_snoc types ts i t : ts !! i = Some t →
  base_vtables types (take (S i) ts) = base_vtables types (take i ts) ++ base_vtable types t.
Proof.
  intros Ht. rewrite (take_S_r _ _ _ Ht), base_vtables_app. unfold base_vtables at 2. cbn. by rewrite app_nil_r.
Qed.

Lemma base_slot_types_snoc types ts i t d : ts !! i = Some t → types !! t = Some d →
  base_slot_types types (take (S i) ts) = base_slot_types types (take i ts) ++
    (if decide (d_typeKind d = TypeKind_Class) then default [] (d_vtableStructType d) else []).
Proof.
  intros Ht Hd. rewrite (take_S_r _ _ _ Ht). unfold base_slot_types. rewrite map_app, concat_app. cbn.
  by rewrite Hd, app_nil_r.
Qed.

Lemma typed_app functions d d' t : vtable_typed functions d → vtable_typed functions t →
  d_vtable d' = d_vtable d ++ d_vtable t →
  d_vtableStructType d' = match d_vtableStructType t with
    | Some l => Some (default [] (d_vtableStructType d) ++ l)
    | None => d_vtableStructType d
    end → vtable_typed functions d'.
Proof.
  unfold vtable_typed. intros Hd Ht -> ->. destruct (d_vtableStructType t) as [l|].
  - destruct (d_vtableStructType d) as [l'|]; cbn; [by apply Forall2_app|]. by rewrite Hd.
  - rewrite Ht, app_nil_r. done.
Qed.

Section loop.
Variables (w0 : World) (c : nat) (ts : list nat).
Hypothesis typed0 : ∀ t d, w_types w0 !! t = Some d → d_layoutReady d = true → vtable_typed (w_functions w0) d.
Hypothesis not_ready : ∀ d, w_types w0 !! c = Some d → d_layoutReady d = false.

Lemma bases_step i w k w' : layout_base c i w = inl (k, w') → bases_done w0 c ts i w → bases_done w0 c ts (S i) w'.
Proof.
  intros Hl [B1 B2 B3 B4 B5 (d & Hd & C1 & C2 & C7 & C3 & C4 & C5 & C6)].
  assert (Hnr : d_layoutReady d = false).
  { pose proof (fr_class _ _ _ _ B1) as Hf. rewrite Hd in Hf. destruct (w_types w0 !! c) as [d0|] eqn:H0; [|done].
    apply (inj Some) in Hf. injection Hf as _ _ _ _ _ Hf _ _ _. rewrite Hf. by apply not_ready. }
  destruct (layout_base_ok c i w k w' d Hl Hd Hnr) as (slot & t & d' & Hs & Ht & Hne & Hr & Hk & Hm & O & Hd' & Hb).
  rewrite B2 in Ht by done.
  assert (Hts : ts !! i = Some (s_type slot)) by (rewrite <- C3, list_lookup_fmap, Hs; done).
  assert (Hcl : is_class (w_types w0) (s_type slot) = bool_decide (d_typeKind t = TypeKind_Class)).
  { unfold is_class. by rewrite Ht. }
  destruct Hb as (S1 & S2 & S3).
  assert (Hbv : base_vtable (w_types w0) (s_type slot) = if decide (d_typeKind t = TypeKind_Class) then d_vtable t else [])
    by (unfold base_vtable; by rewrite Ht).
  split.
  - eapply frame_trans; [exact B1|]. by eapply only_class_frame.
  - intros t' Ht'. destruct O as (_ & _ & O). by rewrite O, B2.
  - destruct O as (-> & _). done.
  - destruct O as (_ & -> & _). done.
  - intros t'. rewrite (take_S_r _ _ _ Hts), elem_of_app, list_elem_of_singleton. intros [Ht'| ->]; [auto|]. eauto.
  - exists d'. split; [done|]. rewrite (base_vtables_snoc _ _ _ _ Hts), Hbv, (base_slot_types_snoc _ _ _ _ _ Hts Ht).
    assert (Hst : s_type <$> d_baseTypeList d' = ts) by (injection S1 as _ -> _; done).
    assert (Hmap : ∀ a j, d_baseTypeMap d' !! a = Some j ↔ j < S i ∧ ts !! j = Some a).
    { intros a j. rewrite S2. destruct (decide (a = s_type slot)) as [->|Ha].
      - rewrite lookup_insert_eq. split; [intros [= <-]; auto|]. intros [Hj Hja].
        destruct (decide (j = i)) as [->|]; [done|]. assert (Hsome : d_baseTypeMap d !! s_type slot = Some j) by (apply C5; split; [lia|done]).
        congruence.
      - rewrite lookup_insert_ne by done. rewrite C5. split; intros [Hj Hja]; (split; [|done]); [lia|].
        destruct (decide (j = i)) as [->|]; [congruence|lia]. }
    destruct (decide (d_typeKind t = TypeKind_Class)) as [Hc|Hc].
    + destruct S3 as (V1 & V2 & V3 & V4). rewrite bool_decide_true in Hcl by done. split; [by rewrite V1, C1|].
      split; [eapply typed_app; [exact C2|by eapply typed0|done|done]|].
      split; [rewrite V4, <- C7; by destruct (d_vtableStructType t); cbn; rewrite ?app_nil_r|].
      split; [done|]. split; [|split; [done|] ].
      * intros j s Hj Hjs Hsc. rewrite V2 in Hjs. destruct (decide (i = j)) as [->|Hij].
        { rewrite list_lookup_alter_eq, Hs in Hjs. injection Hjs as <-. cbn. by rewrite C1. }
        rewrite list_lookup_alter_ne in Hjs by done. apply (C4 j s); [lia|done|done].
      * rewrite V3, C6, seq_S, filter_app. f_equal. change (0 + i) with i.
        rewrite filter_cons_True by (rewrite Hts; cbn; by rewrite Hcl). done.
    + destruct S3 as (V1 & V2 & V3 & V4). rewrite bool_decide_false in Hcl by done. split; [by rewrite V1, C1, app_nil_r|].
      split; [unfold vtable_typed in *; by rewrite V1, V4|].
      split; [by rewrite V4, app_nil_r|]. split; [done|]. split; [|split; [done|] ].
      * intros j s Hj Hjs Hsc. rewrite V2 in Hjs. destruct (decide (i = j)) as [->|Hij]; [congruence|].
        apply (C4 j s); [lia|done|done].
      * rewrite V3, C6, seq_S, filter_app. change (0 + i) with i. rewrite filter_cons_False; [cbn; by rewrite app_nil_r|].
        rewrite Hts. cbn. by rewrite Hcl.
Qed.

Lemma bases_loop n : ∀ i w ks w', layout_bases c i n w = inl (ks, w') → bases_done w0 c ts i w →
  bases_done w0 c ts (i + n) w' ∧ length ks = n.
Proof.
  induction n as [|n IH]; intros i w ks w' Hl Hb; cbn [layout_bases] in Hl.
  { apply mret_inv in Hl as [<- <-]. by rewrite Nat.add_0_r. }
  apply cbind_inv in Hl as (k & w1 & H1 & Hl). apply cbind_inv in Hl as (ks' & w2 & H2 & Hl).
  apply mret_inv in Hl as [<- <-]. destruct (IH _ _ _ _ H2 (bases_step _ _ _ _ H1 Hb)) as [H3 H4].
  split; [by rewrite <- Nat.add_succ_comm|]. cbn. by rewrite H4.
Qed.
End loop.
End bases.

(** ** The fields *)

(** What the layout of the fields does not change of the class. *)
Definition vt_part (d : DerivableType) :=
  (cstatic d, d_vtable d, d_vtableStructType d, d_baseTypeMap d, d_classBaseTypeArray d, s_vtableIndex <$> d_baseTypeList d).

(** A change of the class, or of the offset of a reactor, that the virtual tables do not see. *)
Record quiet (c : nat) (w w' : World) : Prop := {
  q_types t : t ≠ c → core <$> w_types w' !! t = core <$> w_types w !! t;
  q_class : vt_part <$> w_types w' !! c = vt_part <$> w_types w !! c;
  q_functions : w_functions w' = w_functions w;
  q_properties : w_properties w' = w_properties w
}.

Lemma vt_quiet_refl c w : quiet c w w.
Proof. done. Qed.

Lemma vt_quiet_trans c w1 w2 w3 : quiet c w1 w2 → quiet c w2 w3 → quiet c w1 w3.
Proof.
  intros [A1 A2 A3 A4] [B1 B2 B3 B4]. split; [|congruence..]. intros t Ht. by rewrite B1, A1.
Qed.

Lemma quiet_frame c w w' : quiet c w w' → frame c [] w w'.
Proof.
  intros [A1 A2 A3 A4]. split; [done| |by rewrite A3..|by rewrite A4].
  destruct (w_types w' !! c), (w_types w !! c); try done. apply (inj Some) in A2. cbn. f_equal.
  exact (f_equal (λ x, x.1.1.1.1.1) A2).
Qed.

Lemma quiet_upd c g w : (∀ d, vt_part (g d) = vt_part d) →
  quiet c w (mkWorld (w_functions w) (w_properties w) (alter g c (w_types w))).
Proof.
  intros Hg. split; cbn; try done.
  - intros t Ht. by rewrite lookup_alter_ne.
  - rewrite lookup_alter_eq. destruct (w_types w !! c); [|done]. cbn [fmap option_fmap option_map]. by rewrite Hg.
Qed.

Lemma quiet_parentOffset c v u w :
  quiet c w (mkWorld (w_functions w) (w_properties w) (alter (d_set_parentOffset v) u (w_types w))).
Proof.
  split; cbn; try done.
  - intros t _. destruct (decide (t = u)) as [->|]; [|by rewrite lookup_alter_ne].
    rewrite lookup_alter_eq. by destruct (w_types w !! u).
  - destruct (decide (c = u)) as [->|]; [|by rewrite lookup_alter_ne].
    rewrite lookup_alter_eq. by destruct (w_types w !! u).
Qed.

Lemma quiet_self c w w' d : quiet c w w' → w_types w !! c = Some d →
  ∃ d', w_types w' !! c = Some d' ∧ vt_part d' = vt_part d.
Proof.
  intros Hq Hd. pose proof (q_class _ _ _ Hq) as H. rewrite Hd in H. destruct (w_types w' !! c) as [d'|]; [|done].
  apply (inj Some) in H. eauto.
Qed.

(** The operations that only make such changes. *)
Definition is_quiet {A} (c : nat) (m : C A) : Prop := ∀ w x w', m w = inl (x, w') → quiet c w w'.

Lemma is_quiet_bind {A B} c (m : C A) (k : A → C B) : is_quiet c m → (∀ x, is_quiet c (k x)) → is_quiet c (m ≫= k).
Proof.
  intros Hm Hk w y w' H. apply cbind_inv in H as (x & w1 & H1 & H2). eapply vt_quiet_trans; [by eapply Hm|by eapply Hk].
Qed.

Lemma is_quiet_ret {A} c (x : A) : is_quiet c (mret x : C A).
Proof. intros w y w' H. by apply mret_inv in H as [_ <-]. Qed.

Lemma is_quiet_require c b e : is_quiet c (require b e).
Proof. intros w y w' H. by apply require_inv in H as [_ ->]. Qed.

Lemma is_quiet_deref {A} c (o : option A) : is_quiet c (deref o).
Proof. intros w y w' H. by apply deref_inv in H as [_ ->]. Qed.

Lemma is_quiet_get_type c t : is_quiet c (get_type t).
Proof. intros w y w' H. by apply get_type_inv in H as [_ ->]. Qed.

Lemma is_quiet_upd c g : (∀ d, vt_part (g d) = vt_part d) → is_quiet c (upd_type c g).
Proof. intros Hg w y w' H. apply upd_type_inv in H as ->. by apply quiet_upd. Qed.

Lemma is_quiet_parentOffset c v u : is_quiet c (upd_type u (d_set_parentOffset v)).
Proof. intros w y w' H. apply upd_type_inv in H as ->. apply quiet_parentOffset. Qed.

Lemma is_quiet_on c b m : is_quiet c m → is_quiet c (on b m).
Proof. intros Hm w y w' H. apply on_inv in H as [ [_ H]|[_ ->] ]; [by eapply Hm|done]. Qed.

Lemma is_quiet_for_each {A} c (l : list A) m : (∀ x, is_quiet c (m x)) → is_quiet c (for_each l m).
Proof. intros Hm. induction l as [|x l IH]; cbn [for_each]; [apply is_quiet_ret|]. by apply is_quiet_bind. Qed.

Create HintDb quiet discriminated.
#[export] Hint Resolve is_quiet_ret is_quiet_require is_quiet_deref is_quiet_get_type is_quiet_parentOffset : quiet.

Ltac quiet_step :=
  repeat first [apply is_quiet_bind; [|intros ?] | apply is_quiet_on | apply is_quiet_upd; [done|..] |
    progress eauto with quiet | case_match].

Section fields.
Context `{Axl} (E : env) (BoxType : type).

Lemma is_quiet_run_layout c s : is_quiet c (run_layout E s).
Proof. intros w x w' Hr. unfold run_layout in Hr. destruct (calcLayoutTo E None s) as [ [?|?] ?]; [|done]. by apply mret_inv in Hr as [_ <-]. Qed.
Hint Resolve is_quiet_run_layout : quiet.

Lemma quiet_layout_iface c : is_quiet c (layout_iface E c).
Proof.
  unfold layout_iface. quiet_step.
Qed.

Lemma quiet_scan c i : is_quiet c (scan_class_field BoxType c i).
Proof. unfold scan_class_field. quiet_step. Qed.

Lemma quiet_update_slot c ik : is_quiet c (update_slot c ik).
Proof.
  unfold update_slot, upd_slot. quiet_step. apply is_quiet_upd. intros d. unfold vt_part, cstatic. cbn.
  by rewrite (alter_fmap_id _ s_type), (alter_fmap_id _ s_vtableIndex).
Qed.

Lemma quiet_layout_class c : is_quiet c (layout_class E BoxType c).
Proof. unfold layout_class. quiet_step. Qed.
End fields.
