(* ===== verification/ClassVtableInv.v ===== *)
(** * Class types: the invariant of laid out classes

    The base classes of a class as paths, the invariant of the virtual tables of
    the classes of a store, and that [ClassVtable.calcLayout] keeps it. *)

From S2P Require Import Prelude StructLayout ClassVtable ClassVtableSpec.

Open Scope nat_scope.

(** ** Paths to base classes *)

(** A path is the indexes of the slots on the way to a base type. *)
Fixpoint subobject (types : gmap nat DerivableType) (c : nat) (π : list nat) : option nat :=
  match π with
  | [] => Some c
  | i :: π => d ← types !! c; s ← d_baseTypeList d !! i; subobject types (s_type s) π
  end.

(** The index of the virtual table of the base class at the end of a path in that of the class. *)
Fixpoint path_vtableIndex (types : gmap nat DerivableType) (c : nat) (π : list nat) : option nat :=
  match π with
  | [] => Some 0
  | i :: π =>
    d ← types !! c; s ← d_baseTypeList d !! i;
    add_index (path_vtableIndex types (s_type s) π) (s_vtableIndex s)
  end.

(** Its offset. *)
Fixpoint path_offset (types : gmap nat DerivableType) (c : nat) (π : list nat) : option N :=
  match π with
  | [] => Some 0%N
  | i :: π =>
    d ← types !! c; s ← d_baseTypeList d !! i;
    o ← path_offset types (s_type s) π;
    Some (add64 o (s_offset s))
  end.

Definition first_index {A B} (f : A → option B) : nat → list A → option (nat * B) :=
  fix go i l := match l with
  | [] => None
  | x :: l => match f x with Some y => Some (i, y) | None => go (S i) l end
  end.

(** The path to the first base type [a]: a direct one, else that of the first base
    type that has one. *)
Fixpoint find_path (types : gmap nat DerivableType) (fuel : nat) (t a : nat) : option (list nat) :=
  match fuel with
  | O => None
  | S fuel =>
    d ← types !! t;
    match d_baseTypeMap d !! a with
    | Some i => Some [i]
    | None => (λ '(i, π), i :: π) <$> first_index (λ s, find_path types fuel (s_type s) a) 0 (d_baseTypeList d)
    end
  end.

Lemma first_some_Some {A B} (f : A → option B) l y : first_some f l = Some y →
  ∃ i x, l !! i = Some x ∧ f x = Some y ∧ ∀ j z, j < i → l !! j = Some z → f z = None.
Proof.
  induction l as [|x l IH]; cbn [first_some]; [done|]. destruct (f x) as [y'|] eqn:Hx.
  - intros [= ->]. exists 0, x. split; [done|]. split; [done|]. lia.
  - intros Hs. destruct (IH Hs) as (i & x' & H1 & H2 & H3). exists (S i), x'. split; [done|]. split; [done|].
    intros [|j] z Hj Hz; cbn in Hz; [by simplify_eq|]. apply (H3 j); [lia|done].
Qed.

Lemma first_index_some {A B} (f : A → option B) l k i x y : l !! i = Some x → f x = Some y →
  (∀ j z, j < i → l !! j = Some z → f z = None) → first_index f k l = Some (k + i, y).
Proof.
  revert k i. induction l as [|x' l IH]; intros k i Hi Hx Hn; [done|]. cbn [first_index]. destruct i as [|i].
  - injection Hi as ->. rewrite Hx. by rewrite Nat.add_0_r.
  - rewrite (Hn 0 x') by (done || lia). rewrite (IH (S k) i); [by rewrite Nat.add_succ_comm|done|done|].
    intros j z Hj Hz. apply (Hn (S j)); [lia|done].
Qed.

Lemma first_some_None {A B} (f : A → option B) l : first_some f l = None → ∀ i x, l !! i = Some x → f x = None.
Proof.
  induction l as [|x l IH]; cbn [first_some]; intros Hs i x' Hi; [done|]. destruct (f x) eqn:Hx; [done|].
  destruct i; cbn in Hi; [by simplify_eq|]. eauto.
Qed.

Lemma first_some_ext {A B} (f g : A → option B) l : (∀ x, x ∈ l → f x = g x) → first_some f l = first_some g l.
Proof.
  induction l as [|x l IH]; intros Hfg; cbn [first_some]; [done|]. rewrite (Hfg x) by left.
  rewrite IH; [done|]. intros y Hy. apply Hfg. by right.
Qed.

Lemma first_index_ext {A B} (f g : A → option B) l : (∀ x, x ∈ l → f x = g x) → ∀ k, first_index f k l = first_index g k l.
Proof.
  induction l as [|x l IH]; intros Hfg k; cbn [first_index]; [done|]. rewrite (Hfg x) by left.
  rewrite IH; [done|]. intros y Hy. apply Hfg. by right.
Qed.

(** *** Stores with the same base types *)

Definition base_part (d : DerivableType) := (d_baseTypeMap d, d_baseTypeList d, isAdapter d).

Lemma base_part_core d d' : core d' = core d → base_part d' = base_part d.
Proof. intros H. exact (f_equal base_part H). Qed.

Section agree.
Variables (types types' : gmap nat DerivableType) (P : nat → Prop).
Hypothesis closed : ∀ t d s, P t → types !! t = Some d → s ∈ d_baseTypeList d → P (s_type s).
Hypothesis same : ∀ t, P t → base_part <$> types' !! t = base_part <$> types !! t.

Lemma same_type t : P t → match types !! t with
  | Some d => ∃ d', types' !! t = Some d' ∧ d_baseTypeMap d' = d_baseTypeMap d ∧ d_baseTypeList d' = d_baseTypeList d ∧
      isAdapter d' = isAdapter d
  | None => types' !! t = None
  end.
Proof.
  intros Ht. pose proof (same t Ht) as H. destruct (types !! t) as [d|], (types' !! t) as [d'|]; try done.
  apply (inj Some) in H. exists d'. split; [done|]. unfold base_part in H. by injection H.
Qed.

Lemma find_agree fuel a : ∀ t, P t → findBaseTypeTraverse types' fuel t a = findBaseTypeTraverse types fuel t a.
Proof.
  induction fuel as [|fuel IH]; intros t Ht; [done|]. cbn [findBaseTypeTraverse]. pose proof (same_type t Ht) as Hs.
  destruct (types !! t) as [d|] eqn:Hd; [|by rewrite Hs]. destruct Hs as (d' & -> & H1 & H2 & H3). cbn [mbind option_bind].
  rewrite H1, H2, H3. destruct (d_baseTypeMap d !! a); [done|]. apply first_some_ext. intros s Hs. rewrite IH; [done|].
  by eapply closed.
Qed.

Lemma find_path_agree fuel a : ∀ t, P t → find_path types' fuel t a = find_path types fuel t a.
Proof.
  induction fuel as [|fuel IH]; intros t Ht; [done|]. cbn [find_path]. pose proof (same_type t Ht) as Hs.
  destruct (types !! t) as [d|] eqn:Hd; [|by rewrite Hs]. destruct Hs as (d' & -> & H1 & H2 & H3). cbn [mbind option_bind].
  rewrite H1, H2. destruct (d_baseTypeMap d !! a); [done|]. f_equal. apply first_index_ext. intros s Hs. apply IH.
  by eapply closed.
Qed.

Lemma path_agree π : ∀ t, P t → subobject types' t π = subobject types t π ∧
  path_vtableIndex types' t π = path_vtableIndex types t π ∧ path_offset types' t π = path_offset types t π.
Proof.
  induction π as [|i π IH]; intros t Ht; [done|]. cbn. pose proof (same_type t Ht) as Hs.
  destruct (types !! t) as [d|] eqn:Hd; [|by rewrite Hs]. destruct Hs as (d' & -> & H1 & H2 & H3). cbn.
  rewrite H2. destruct (d_baseTypeList d !! i) as [s|] eqn:Hi; [|done]. cbn.
  assert (Hp : P (s_type s)) by (eapply closed; [done|done|by eapply list_elem_of_lookup_2]).
  destruct (IH _ Hp) as (-> & -> & ->). done.
Qed.
End agree.

(** *** The coordinates are those of the path *)

Section coords.
Variables (types : gmap nat DerivableType) (P : nat → Prop) (a : nat).
Hypothesis closed : ∀ t d s, P t → types !! t = Some d → s ∈ d_baseTypeList d → P (s_type s).
Hypothesis mapped : ∀ t d b i, P t → types !! t = Some d → d_baseTypeMap d !! b = Some i →
  ∃ s, d_baseTypeList d !! i = Some s ∧ s_type s = b.
Hypothesis structs : ∀ t d s, P t → types !! t = Some d → d_typeKind d ≠ TypeKind_Class → s ∈ d_baseTypeList d →
  is_class types (s_type s) = false.
Hypothesis a_class : is_class types a = true.

Lemma is_class_kind t d : types !! t = Some d → is_class types t = bool_decide (d_typeKind d = TypeKind_Class).
Proof. intros Hd. unfold is_class. by rewrite Hd. Qed.

Lemma find_struct fuel : ∀ t d, P t → types !! t = Some d → d_typeKind d ≠ TypeKind_Class →
  findBaseTypeTraverse types fuel t a = None.
Proof.
  induction fuel as [|fuel IH]; intros t d Ht Hd Hk; [done|]. cbn [findBaseTypeTraverse]. rewrite Hd. cbn [mbind option_bind].
  destruct (d_baseTypeMap d !! a) as [i|] eqn:Hm.
  { destruct (mapped _ _ _ _ Ht Hd Hm) as (s & Hs & <-).
    pose proof (structs t d s Ht Hd Hk ltac:(by eapply list_elem_of_lookup_2)). congruence. }
  destruct (first_some _ _) eqn:Hf; [|done]. apply first_some_Some in Hf as (i & s & Hs & Hf & _).
  apply list_elem_of_lookup_2 in Hs. pose proof (structs t d s Ht Hd Hk Hs) as Hsc.
  apply bind_Some in Hf as (coord & Hf & _). destruct (types !! s_type s) as [d'|] eqn:Hd'.
  - rewrite (is_class_kind _ _ Hd') in Hsc. to_prop. rewrite (IH (s_type s) d') in Hf; [done|by eapply closed|done|done].
  - destruct fuel; cbn in Hf; [done|]. by rewrite Hd' in Hf.
Qed.

Lemma isAdapter_class d : d_typeKind d = TypeKind_Class → isAdapter d = false.
Proof. intros Hk. unfold isAdapter. by rewrite Hk. Qed.

Lemma wrap64_add64 x y : wrap64 (add64 x y) = add64 (wrap64 x) y.
Proof. unfold add64, wrap64. rewrite N.Div0.mod_mod. by rewrite N.Div0.add_mod_idemp_l. Qed.

Lemma find_path_coord fuel : ∀ t π, P t → find_path types fuel t a = Some π → is_Some (findBaseTypeTraverse types fuel t a).
Proof.
  induction fuel as [|fuel IH]; intros t π Ht Hf; [done|]. cbn [findBaseTypeTraverse find_path] in *.
  destruct (types !! t) as [d|] eqn:Hd; [|done]. cbn [mbind option_bind] in *.
  destruct (d_baseTypeMap d !! a) as [i|] eqn:Hm.
  { destruct (isAdapter d); [by eexists|]. destruct (mapped _ _ _ _ Ht Hd Hm) as (s & Hs & _). rewrite Hs. by eexists. }
  destruct (first_some _ _) as [c|] eqn:Hn; [by eexists|]. exfalso. pose proof (first_some_None _ _ Hn) as Hall. clear Hn.
  assert (Hall2 : ∀ s, s ∈ d_baseTypeList d → find_path types fuel (s_type s) a = None).
  { intros s [j Hj]%list_elem_of_lookup. specialize (Hall j s Hj). apply bind_None in Hall as [Hall|(? & _ & ?)]; [|done].
    destruct (find_path types fuel (s_type s) a) as [π'|] eqn:Hp; [|done].
    destruct (IH (s_type s) π') as [? ?]; [|done|congruence]. apply (closed t d s); [done|done|by eapply list_elem_of_lookup_2]. }
  assert (Hnone : ∀ k, first_index (λ s, find_path types fuel (s_type s) a) k (d_baseTypeList d) = None).
  { clear -Hall2. induction (d_baseTypeList d) as [|s l IHl]; intros k; [done|]. cbn [first_index].
    rewrite Hall2 by left. apply IHl. intros s' Hs'. apply Hall2. by right. }
  by rewrite Hnone in Hf.
Qed.
Lemma find_coord fuel : ∀ t coord, P t → findBaseTypeTraverse types fuel t a = Some coord →
  ∃ π, find_path types fuel t a = Some π ∧ π ≠ [] ∧ subobject types t π = Some a ∧
    path_vtableIndex types t π = bc_vtableIndex coord ∧ path_offset types t π = Some (wrap64 (bc_offset coord)).
Proof.
  induction fuel as [|fuel IH]; intros t coord Ht Hf; [done|].
  destruct (types !! t) as [d|] eqn:Hd; [|by cbn in Hf; rewrite Hd in Hf].
  destruct (decide (d_typeKind d = TypeKind_Class)) as [Hk|Hk]; [|by rewrite (find_struct _ t d) in Hf].
  cbn [findBaseTypeTraverse find_path] in *. rewrite Hd in Hf |- *. cbn [mbind option_bind] in *.
  destruct (d_baseTypeMap d !! a) as [i|] eqn:Hm.
  - rewrite isAdapter_class in Hf by done. destruct (mapped _ _ _ _ Ht Hd Hm) as (s & Hs & Hsa).
    rewrite Hs in Hf. injection Hf as <-. exists [i]. split; [done|]. split; [done|].
    cbn. rewrite Hd. cbn. rewrite Hs. cbn. split; [by rewrite Hsa|]. unfold add_index. by destruct (s_vtableIndex s).
  - apply first_some_Some in Hf as (i & s & Hs & Hf & Hn). apply bind_Some in Hf as (coord' & Hf & [= <-]).
    assert (Hp : P (s_type s)) by (apply (closed t d s); [done|done|by eapply list_elem_of_lookup_2]).
    destruct (IH _ _ Hp Hf) as (π & H1 & H2 & H3 & H4 & H5). exists (i :: π).
    assert (Hfi : first_index (λ s, find_path types fuel (s_type s) a) 0 (d_baseTypeList d) = Some (0 + i, π)).
    { eapply first_index_some; [done|done|]. intros j z Hj Hz.
      specialize (Hn j z Hj Hz). apply bind_None in Hn as [Hn|(? & _ & ?)]; [|done].
      destruct (find_path types fuel (s_type z) a) as [π'|] eqn:Hπ; [|done].
      destruct (find_path_coord fuel (s_type z) π') as [? ?]; [|done|congruence].
      apply (closed t d z); [done|done|by eapply list_elem_of_lookup_2]. }
    rewrite Hfi. cbn [Nat.add fmap option_fmap option_map]. split; [done|]. split; [done|].
    cbn. rewrite Hd. cbn. rewrite Hs. cbn. split; [done|]. rewrite H4, H5. cbn. by rewrite wrap64_add64.
Qed.

End coords.

(** ** The invariant *)

(** The function [f] is the one that declares the entry [k] of the virtual table of [a]. *)
Definition declares (w : World) (a k f : nat) (fn : Function) : Prop :=
  w_functions w !! f = Some fn ∧ fn_virtualOriginClassType fn = Some a ∧ fn_classVtableIndex fn = Some k ∧
  fn_storageKind fn ≠ StorageKind_Override.

(** The function [g] overrides the entry [q] of the virtual table of [c]: that of the
    first base class that is the origin of [g]. *)
Definition override_ok (w : World) (c q g : nat) : Prop :=
  ∃ fn a k coord start, w_functions w !! g = Some fn ∧ fn_storageKind fn = StorageKind_Override ∧
    fn_virtualOriginClassType fn = Some a ∧ fn_classVtableIndex fn = Some k ∧
    findBaseTypeTraverse (w_types w) (S c) c a = Some coord ∧ bc_vtableIndex coord = Some start ∧
    q = start + k ∧ fn_thisArgDelta fn = (- Z.of_N (bc_offset coord))%Z.

(** A virtual table after overrides. *)
Definition overridden (v : list nat) (l : list (nat * nat)) : list nat := foldl (λ v qg, <[qg.1 := qg.2]> v) v l.

(** The base types of a laid out class. *)
Record bases_ok (w : World) (c : nat) (d : DerivableType) : Prop := {
  bo_ready s : s ∈ d_baseTypeList d → s_type s < c ∧
    ∃ t, w_types w !! s_type s = Some t ∧ d_layoutReady t = true ∧ d_typeKind t ≠ TypeKind_Other;
  bo_slots i s : d_baseTypeList d !! i = Some s → is_class (w_types w) (s_type s) = true →
    s_vtableIndex s = Some (length (base_vtables (w_types w) (take i (s_type <$> d_baseTypeList d))));
  bo_map a i : d_baseTypeMap d !! a = Some i ↔ (s_type <$> d_baseTypeList d) !! i = Some a;
  bo_classes : d_classBaseTypeArray d =
    filter (λ j, default false (is_class (w_types w) <$> (s_type <$> d_baseTypeList d) !! j) = true)
      (seq 0 (length (d_baseTypeList d)))
}.

(** The functions of the virtual table a class declares or overrides. *)
Definition property_accessors (w : World) (p : nat) : list nat := from_option accessors [] (w_properties w !! p).

Definition owned (w : World) (d : DerivableType) : list nat :=
  concat (map (property_accessors w) (d_virtualPropertyArray d)) ++ d_virtualMethodArray d ++ d_overrideMethodArray d.

(** A laid out class: its table is those of its base classes and its own functions
    [own], with overrides [ovs] at the entries [qs]. *)
Record class_ok (w : World) (c : nat) (d : DerivableType) (own qs ovs : list nat) : Prop := {
  ck_bases : bases_ok w c d;
  ck_vtable : d_vtable d = overridden (base_vtables (w_types w) (s_type <$> d_baseTypeList d) ++ own) (zip qs ovs);
  ck_overrides : Forall2 (override_ok w c) qs ovs;
  ck_own j f : own !! j = Some f →
    ∃ fn, declares w c (length (base_vtables (w_types w) (s_type <$> d_baseTypeList d)) + j) f fn;
  ck_declared k f fn : declares w c k f fn →
    let n := length (base_vtables (w_types w) (s_type <$> d_baseTypeList d)) in n ≤ k ∧ own !! (k - n) = Some f;
  ck_struct : ∃ l, default [] (d_vtableStructType d) = base_slot_types (w_types w) (s_type <$> d_baseTypeList d) ++ l ∧
    Forall2 (λ f ty, slot_type <$> w_functions w !! f = Some ty) own l;
  ck_typed : vtable_typed (w_functions w) d;
  ck_owned : own ++ ovs = owned w d
}.

(** A class that is not laid out. *)
Record fresh_class (w : World) (c : nat) (d : DerivableType) : Prop := {
  fc_kind : d_typeKind d = TypeKind_Class;
  fc_vtable : d_vtable d = [] ∧ d_vtableStructType d = None ∧ d_baseTypeMap d = ∅ ∧ d_classBaseTypeArray d = [];
  fc_bases s : s ∈ d_baseTypeList d → s_type s < c;
  fc_functions f : f ∈ owned w d → ∃ fn, w_functions w !! f = Some fn ∧ fn_virtualOriginClassType fn = None ∧
    fst (fn_thisArgType fn) = c;
  fc_accessors p f : p ∈ d_virtualPropertyArray d → f ∈ property_accessors w p →
    ∃ fn, w_functions w !! f = Some fn ∧ fn_storageKind fn ≠ StorageKind_Override;
  fc_properties p : p ∈ d_virtualPropertyArray d → ∃ pr, w_properties w !! p = Some pr ∧ p_vtable pr = []
}.

(** A type that is not a class: its base types are not classes. *)
Record struct_ok (w : World) (d : DerivableType) : Prop := {
  so_bases s : s ∈ d_baseTypeList d → is_class (w_types w) (s_type s) = false ∧
    ∃ t, w_types w !! s_type s = Some t ∧ d_layoutReady t = true;
  so_map a i : d_baseTypeMap d !! a = Some i → ∃ s, d_baseTypeList d !! i = Some s ∧ s_type s = a;
  so_ready : d_layoutReady d = true;
  so_vtable : d_vtable d = [] ∧ d_vtableStructType d = None
}.

Definition laid (w : World) (a : nat) : Prop :=
  ∃ d, w_types w !! a = Some d ∧ d_typeKind d = TypeKind_Class ∧ d_layoutReady d = true.

(** The names of a module, as the parser gives them ([Parser::declareFunction], [addFunction]): a function in
    a namespace has the name the namespace has it by, and getters, setters and the accessors of properties have none. *)
Definition named_as (w : World) (name : string) (f : nat) : Prop :=
  ∀ fn, w_functions w !! f = Some fn → fn_name fn = name.

Record named (w : World) : Prop := {
  nm_function t d name f : w_types w !! t = Some d → d_items d !! name = Some (ItemFunction f) → named_as w name f;
  nm_overload t d name fs f : w_types w !! t = Some d → d_items d !! name = Some (ItemFunctionOverload fs) → f ∈ fs →
    named_as w name f;
  nm_accessor p pr f : w_properties w !! p = Some pr → f ∈ accessors pr → named_as w "" f;
  nm_kind f fn : w_functions w !! f = Some fn → fn_functionKind fn = FunctionKind_Getter ∨ fn_functionKind fn = FunctionKind_Setter →
    fn_name fn = ""%string
}.

(** A function that is in virtual tables has the type of the one that declares its entry, and its
    name when functions have the names of their namespaces, and takes a pointer to the class that declares it. *)
Definition origin_ok (P : nat → Prop) (w : World) : Prop :=
  ∀ g fn a, w_functions w !! g = Some fn → fn_virtualOriginClassType fn = Some a →
    P a ∧ ∃ k f fnf, fn_classVtableIndex fn = Some k ∧ declares w a k f fnf ∧ slot_type fn = slot_type fnf ∧
      fst (fn_thisArgType fn) = a ∧ (named w → fn_name fn = fn_name fnf).

Record world_ok (w : World) : Prop := {
  wo_class c d : w_types w !! c = Some d → d_typeKind d = TypeKind_Class → d_layoutReady d = true →
    ∃ own qs, class_ok w c d own qs (d_overrideMethodArray d);
  wo_fresh c d : w_types w !! c = Some d → d_layoutReady d = false → fresh_class w c d;
  wo_struct t d : w_types w !! t = Some d → d_typeKind d ≠ TypeKind_Class → struct_ok w d;
  wo_origin : origin_ok (laid w) w;
  wo_owned c d : w_types w !! c = Some d → NoDup (owned w d);
  wo_disjoint c c' d d' f : w_types w !! c = Some d → w_types w !! c' = Some d' → c ≠ c' →
    f ∈ owned w d → f ∉ owned w d';
  wo_this c d f fn : w_types w !! c = Some d → f ∈ owned w d → w_functions w !! f = Some fn → fst (fn_thisType fn) = c
}.

(** *** Ready types *)

Definition ready (w : World) (t : nat) : Prop := ∃ d, w_types w !! t = Some d ∧ d_layoutReady d = true.

Lemma ready_closed w t d s : world_ok w → ready w t → w_types w !! t = Some d → s ∈ d_baseTypeList d → ready w (s_type s).
Proof.
  intros W (d' & Hd' & Hr) Hd Hs. assert (d' = d) as -> by congruence.
  destruct (decide (d_typeKind d = TypeKind_Class)) as [Hk|Hk].
  - destruct (wo_class w W t d Hd Hk Hr) as (own & qs & Hc). destruct (bo_ready _ _ _ (ck_bases _ _ _ _ _ _ Hc) s Hs) as (_ & t' & H1 & H2 & _).
    by exists t'.
  - destruct (so_bases _ _ (wo_struct w W t d Hd Hk) s Hs) as (_ & t' & H1 & H2). by exists t'.
Qed.

Lemma ready_mapped w t d b i : world_ok w → ready w t → w_types w !! t = Some d → d_baseTypeMap d !! b = Some i →
  ∃ s, d_baseTypeList d !! i = Some s ∧ s_type s = b.
Proof.
  intros W (d' & Hd' & Hr) Hd Hm. assert (d' = d) as -> by congruence.
  destruct (decide (d_typeKind d = TypeKind_Class)) as [Hk|Hk].
  - destruct (wo_class w W t d Hd Hk Hr) as (own & qs & Hc). apply (bo_map _ _ _ (ck_bases _ _ _ _ _ _ Hc)) in Hm.
    by apply list_lookup_fmap_Some in Hm as (s & -> & Hs); eauto.
  - by eapply (so_map _ _ (wo_struct w W t d Hd Hk)).
Qed.

Lemma ready_structs w t d s : world_ok w → ready w t → w_types w !! t = Some d → d_typeKind d ≠ TypeKind_Class →
  s ∈ d_baseTypeList d → is_class (w_types w) (s_type s) = false.
Proof. intros W _ Hd Hk Hs. by apply (so_bases _ _ (wo_struct w W t d Hd Hk)). Qed.
