(* ===== verification/ClassVtableLayout.v ===== *)
(** * Class types: the layout keeps the invariant

    The phases of [ClassVtable.calcLayout]: base types, virtual properties,
    virtual methods, overrides. *)

From S2P Require Import Prelude StructLayout ClassVtable ClassVtableSpec ClassVtableInv.

Open Scope nat_scope.

(** ** Blocks of a virtual table *)

(** The table of a type that is a class. *)
Definition vtable_of (types : gmap nat DerivableType) (t : nat) : list nat := base_vtable types t.

Lemma concat_block {A} (f : nat → list A) ts i t j x rest : ts !! i = Some t → f t !! j = Some x →
  (concat (map f ts) ++ rest) !! (length (concat (map f (take i ts))) + j) = Some x.
Proof.
  intros Ht Hx.
  assert (Hc : concat (map f ts) = concat (map f (take i ts)) ++ f t ++ concat (map f (drop (S i) ts))).
  { pose proof (f_equal (λ l, concat (map f l)) (take_drop_middle ts i t Ht)) as Hm. cbn beta in Hm.
    rewrite map_app, concat_app in Hm. by rewrite <- Hm. }
  rewrite Hc, <- !app_assoc, lookup_app_r, Nat.add_comm, Nat.add_sub by lia. by apply lookup_app_l_Some.
Qed.

Lemma vtable_typed_length functions d : vtable_typed functions d → length (default [] (d_vtableStructType d)) = length (d_vtable d).
Proof.
  unfold vtable_typed. destruct (d_vtableStructType d) as [l|]; cbn; [|by intros ->]. intros H. symmetry. by eapply Forall2_length.
Qed.

Lemma base_lengths w ts : (∀ t d, t ∈ ts → w_types w !! t = Some d → vtable_typed (w_functions w) d) →
  length (base_slot_types (w_types w) ts) = length (base_vtables (w_types w) ts).
Proof.
  intros Ht. unfold base_slot_types, base_vtables. induction ts as [|t ts IH]; [done|]. cbn. rewrite !length_app, IH
    by (intros t' d Ht' Hd; apply (Ht t' d); [by right|done]).
  f_equal. unfold base_vtable. destruct (w_types w !! t) as [d|] eqn:Hd; [|done]. case_decide; [|done].
  apply (vtable_typed_length (w_functions w)), (Ht t); [by left|done].
Qed.

Lemma ready_typed w t d : world_ok w → w_types w !! t = Some d → d_layoutReady d = true → vtable_typed (w_functions w) d.
Proof.
  intros W Hd Hr. destruct (decide (d_typeKind d = TypeKind_Class)) as [Hk|Hk].
  - destruct (wo_class w W t d Hd Hk Hr) as (own & qs & Hc). apply Hc.
  - destruct (so_vtable _ _ (wo_struct w W t d Hd Hk)) as [H1 H2]. unfold vtable_typed. by rewrite H2.
Qed.

(** ** Paths in a store *)

Section paths.
Variables (w : World).
Hypothesis W : world_ok w.

Lemma ready_bases_typed t d t' d' : ready w t → w_types w !! t = Some d → t' ∈ s_type <$> d_baseTypeList d →
  w_types w !! t' = Some d' → vtable_typed (w_functions w) d'.
Proof.
  intros Hr Hd Ht' Hd'. apply list_elem_of_fmap in Ht' as (s & -> & Hs).
  destruct (ready_closed w t d s W Hr Hd Hs) as (d'' & Hd'' & Hr''). assert (d'' = d') as -> by congruence.
  by eapply ready_typed.
Qed.

(** Only classes have base classes. *)
Lemma subobject_class π : ∀ t a, ready w t → subobject (w_types w) t π = Some a → is_class (w_types w) a = true →
  is_class (w_types w) t = true.
Proof.
  induction π as [|i π IH]; intros t a Hr Hs Ha; cbn in Hs; [by simplify_eq|].
  apply bind_Some in Hs as (d & Hd & Hs). apply bind_Some in Hs as (s & Hi & Hs). apply list_elem_of_lookup_2 in Hi.
  destruct (decide (d_typeKind d = TypeKind_Class)) as [Hk|Hk]; [by rewrite (is_class_kind _ _ _ Hd), bool_decide_true|].
  assert (Hsc : is_class (w_types w) (s_type s) = true) by (eapply IH; [by eapply ready_closed|done|done]).
  pose proof (so_bases _ _ (wo_struct w W t d Hd Hk) s Hi) as [? _]. congruence.
Qed.

(** The slot of a base class of a class. *)
Lemma slot_class t d i s : ready w t → w_types w !! t = Some d → is_class (w_types w) t = true → d_baseTypeList d !! i = Some s →
  is_class (w_types w) (s_type s) = true →
  s_vtableIndex s = Some (length (base_vtables (w_types w) (take i (s_type <$> d_baseTypeList d)))).
Proof.
  intros (d' & Hd' & Hr) Hd Hk Hi Hs. assert (d' = d) as -> by congruence.
  rewrite (is_class_kind _ _ _ Hd) in Hk. to_prop.
  destruct (wo_class w W t d Hd Hk Hr) as (own & qs & Hc). by apply (bo_slots _ _ _ (ck_bases _ _ _ _ _ _ Hc)).
Qed.

Lemma add_index_Some a b v : add_index a b = Some v → ∃ x y, a = Some x ∧ b = Some y ∧ v = x + y.
Proof. unfold add_index. destruct a, b; cbn; intros H; simplify_eq. eauto. Qed.

(** The type of the entry of a declared function, in the table of a derived class. *)
Lemma entry_type π : ∀ t d a v k f fn, ready w t → w_types w !! t = Some d → is_class (w_types w) t = true →
  subobject (w_types w) t π = Some a → path_vtableIndex (w_types w) t π = Some v → declares w a k f fn → is_class (w_types w) a = true →
  default [] (d_vtableStructType d) !! (v + k) = Some (slot_type fn).
Proof.
  induction π as [|i π IH]; intros t d a v k f fn Hr Hd Hk Hs Hv Hf Ha.
  - cbn in Hs, Hv. injection Hs as <-. injection Hv as <-. cbn [Nat.add].
    pose proof Hr as (d' & Hd' & Hrd). assert (d' = d) as -> by congruence. rewrite (is_class_kind _ _ _ Hd) in Hk. to_prop.
    destruct (wo_class w W t d Hd Hk Hrd) as (own & qs & Hc).
    destruct (ck_declared _ _ _ _ _ _ Hc k f fn Hf) as [Hn Ho]. destruct (ck_struct _ _ _ _ _ _ Hc) as (l & Hl & Ht).
    rewrite Hl, lookup_app_r; rewrite base_lengths; try done; try by (intros; eapply (ready_bases_typed t)).
    destruct (Forall2_lookup_l _ _ _ _ _ Ht Ho) as (ty & Hty & Hfn). destruct Hf as (Hf & _). rewrite Hf in Hfn.
    by injection Hfn as <-.
  - cbn in Hs, Hv. rewrite Hd in Hs, Hv. cbn in Hs, Hv. apply bind_Some in Hs as (s & Hi & Hs). rewrite Hi in Hv. cbn in Hv.
    apply add_index_Some in Hv as (v' & y & Hv & Hy & ->). pose proof (list_elem_of_lookup_2 _ _ _ Hi) as Hin.
    pose proof (ready_closed w t d s W Hr Hd Hin) as Hrs.
    assert (Hsc : is_class (w_types w) (s_type s) = true) by (by eapply subobject_class).
    rewrite (slot_class t d i s) in Hy by done. injection Hy as <-.
    pose proof Hrs as (ds & Hds & _). specialize (IH (s_type s) ds a v' k f fn Hrs Hds Hsc Hs Hv Hf Ha).
    pose proof Hr as (d' & Hd' & Hrd). assert (d' = d) as -> by congruence. rewrite (is_class_kind _ _ _ Hd) in Hk. to_prop.
    destruct (wo_class w W t d Hd Hk Hrd) as (own & qs & Hc). destruct (ck_struct _ _ _ _ _ _ Hc) as (l & -> & _).
    rewrite <- base_lengths.
    2:{ intros t' dt Ht' Hdt. eapply (ready_bases_typed t); [done|done| |done]. apply list_elem_of_lookup in Ht' as [j Hj].
        apply lookup_take_Some in Hj as [Hj _]. by eapply list_elem_of_lookup_2. }
    rewrite (Nat.add_comm v'), <- Nat.add_assoc.
    apply (concat_block _ _ i (s_type s)); [by rewrite list_lookup_fmap, Hi|]. rewrite Hds.
    rewrite (is_class_kind _ _ _ Hds) in Hsc. to_prop. by rewrite decide_True.
Qed.
End paths.

Lemma overridden_elem l : ∀ v f, f ∈ overridden v l → f ∈ v ∨ f ∈ l.*2.
Proof.
  induction l as [|[q g] l IH]; intros v f Hf; [by left|]. cbn in Hf. apply IH in Hf as [Hf|Hf]; [|right; by right].
  apply list_elem_of_lookup in Hf as [i Hi]. destruct (decide (i = q ∧ q < length v)) as [ [-> Hq]|Hn].
  - rewrite list_lookup_insert_eq in Hi by done. injection Hi as <-. right. left.
  - left. destruct (decide (i = q)) as [->|Hne].
    + rewrite list_insert_ge in Hi by lia. by eapply list_elem_of_lookup_2.
    + rewrite list_lookup_insert_ne in Hi by done. by eapply list_elem_of_lookup_2.
Qed.

Lemma zip_snd_elem {A B} (l : list A) (k : list B) x : x ∈ (zip l k).*2 → x ∈ k.
Proof.
  revert k. induction l as [|a l IH]; intros [|b k]; cbn; try (by intros ?%not_elem_of_nil).
  intros [->|H]%elem_of_cons; [left|right; by apply IH].
Qed.

Definition has_origin (w : World) (f : nat) : Prop := ∃ fn a, w_functions w !! f = Some fn ∧ fn_virtualOriginClassType fn = Some a.

(** Base tables have functions that have an origin when those of the base types have. *)
Lemma base_vtables_elem types ts f : f ∈ base_vtables types ts → ∃ t d, t ∈ ts ∧ types !! t = Some d ∧ f ∈ d_vtable d ∧ d_typeKind d = TypeKind_Class.
Proof.
  unfold base_vtables. intros Hf. apply list_elem_of_In, in_concat in Hf as (l & Hl & Hf). apply in_map_iff in Hl as (t & <- & Ht).
  apply list_elem_of_In in Hf, Ht. unfold base_vtable in Hf. destruct (types !! t) as [d|] eqn:Hd; [|by apply not_elem_of_nil in Hf].
  case_decide; [|by apply not_elem_of_nil in Hf]. by exists t, d.
Qed.

Lemma entries_origin w : world_ok w → ∀ c d f, w_types w !! c = Some d → d_layoutReady d = true → f ∈ d_vtable d → has_origin w f.
Proof.
  intros W c. induction c as [c IH] using lt_wf_ind. intros d f Hd Hr Hf.
  destruct (decide (d_typeKind d = TypeKind_Class)) as [Hk|Hk].
  2:{ destruct (so_vtable _ _ (wo_struct w W c d Hd Hk)) as [Hv _]. rewrite Hv in Hf. by apply not_elem_of_nil in Hf. }
  destruct (wo_class w W c d Hd Hk Hr) as (own & qs & Hc). rewrite (ck_vtable _ _ _ _ _ _ Hc) in Hf.
  apply overridden_elem in Hf as [ [Hf|Hf]%elem_of_app|Hf].
  - apply base_vtables_elem in Hf as (t & dt & Ht & Hdt & Hf & _). apply list_elem_of_fmap in Ht as (s & -> & Hs).
    destruct (bo_ready _ _ _ (ck_bases _ _ _ _ _ _ Hc) s Hs) as (Hlt & dt' & Hdt' & Hrt & _). assert (dt' = dt) as -> by congruence.
    by eapply IH.
  - apply list_elem_of_lookup in Hf as [j Hj]. destruct (ck_own _ _ _ _ _ _ Hc j f Hj) as (fn & H1 & H2 & _). by exists fn, c.
  - apply zip_snd_elem, list_elem_of_lookup in Hf as [j Hj].
    destruct (Forall2_lookup_r _ _ _ _ _ (ck_overrides _ _ _ _ _ _ Hc) Hj) as (q & _ & fn & a & k & co & st & H1 & H2 & H3 & _). by exists fn, a.
Qed.

Lemma subobject_ready w π : world_ok w → ∀ t a, ready w t → subobject (w_types w) t π = Some a → ready w a.
Proof.
  intros W. induction π as [|i π IH]; intros t a Hr Hs; cbn in Hs; [by simplify_eq|].
  apply bind_Some in Hs as (d & Hd & Hs). apply bind_Some in Hs as (s & Hi & Hs). apply list_elem_of_lookup_2 in Hi.
  eapply IH; [|done]. by eapply ready_closed.
Qed.

(** ** Names *)

(** What is found is what the name stands for in a type. *)
Lemma found_item types fuel name item : ∀ noThis t, findDirectChildItemTraverse types fuel noThis t name = Some item →
  item = ItemOther ∨ ∃ u d, types !! u = Some d ∧ d_items d !! name = Some item.
Proof.
  induction fuel as [|fuel IH]; intros noThis t Hf; [done|]. cbn [findDirectChildItemTraverse] in Hf.
  apply bind_Some in Hf as (d & Hd & Hf).
  assert (Hbases : first_some (λ slot, findDirectChildItemTraverse types fuel false (s_type slot) name) (d_baseTypeList d) = Some item →
    item = ItemOther ∨ ∃ u d, types !! u = Some d ∧ d_items d !! name = Some item).
  { intros (i & s & _ & Hs & _)%first_some_Some. by eapply IH. }
  destruct noThis; [by apply Hbases|]. unfold findDirectChildItem in Hf. destruct (d_items d !! name) as [it|] eqn:Hit.
  { injection Hf as ->. right. by exists t, d. }
  destruct (decide (name = d_name d)); [injection Hf as <-; by left|].
  destruct (first_some _ (d_unnamedFieldTypes d)) as [it|] eqn:Hu; [|by apply Hbases].
  injection Hf as ->. apply first_some_Some in Hu as (i & u & _ & Hu & _). by eapply IH.
Qed.

Lemma static_name fn fn' : static fn' = static fn → fn_name fn' = fn_name fn ∧ fn_functionKind fn' = fn_functionKind fn.
Proof. intros H. split; [exact (f_equal fn_name H)|exact (f_equal fn_functionKind H)]. Qed.

(** What a layout keeps of names. *)
Record same_names (w w' : World) : Prop := {
  sn_items t : d_items <$> w_types w' !! t = d_items <$> w_types w !! t;
  sn_functions f : static <$> w_functions w' !! f = static <$> w_functions w !! f;
  sn_properties p : pstatic <$> w_properties w' !! p = pstatic <$> w_properties w !! p
}.

#[export] Instance same_names_equivalence : Equivalence same_names.
Proof.
  split.
  - by split.
  - intros w w' [A1 A2 A3]. by split.
  - intros w1 w2 w3 [A1 A2 A3] [B1 B2 B3]. split; congruence.
Qed.

Lemma named_as_same w w' name f : same_names w w' → named_as w name f → named_as w' name f.
Proof.
  intros [_ Hs _] Hn fn Hfn. specialize (Hs f). rewrite Hfn in Hs. destruct (w_functions w !! f) as [fn1|] eqn:Hfn1; [|done].
  apply (inj Some) in Hs. rewrite (proj1 (static_name _ _ Hs)). by apply Hn.
Qed.

Lemma named_same w w' : same_names w w' → named w → named w'.
Proof.
  intros Hs [N1 N2 N3 N4]. pose proof Hs as [S1 S2 S3].
  assert (Ht : ∀ t d, w_types w' !! t = Some d → ∃ d1, w_types w !! t = Some d1 ∧ d_items d = d_items d1).
  { intros t d Hd. specialize (S1 t). rewrite Hd in S1. destruct (w_types w !! t) as [d1|]; [|done]. apply (inj Some) in S1. eauto. }
  split.
  - intros t d name f Hd Hi. destruct (Ht t d Hd) as (d1 & Hd1 & He). rewrite He in Hi. eapply named_as_same; [done|by eapply N1].
  - intros t d name fs f Hd Hi Hf. destruct (Ht t d Hd) as (d1 & Hd1 & He). rewrite He in Hi. eapply named_as_same; [done|by eapply N2].
  - intros p pr f Hp Hf. specialize (S3 p). rewrite Hp in S3. destruct (w_properties w !! p) as [pr1|] eqn:Hp1; [|done].
    apply (inj Some) in S3. eapply named_as_same; [done|]. eapply N3; [done|]. by rewrite <- (f_equal accessors S3 : accessors pr = accessors pr1).
  - intros f fn Hfn Hk. specialize (S2 f). rewrite Hfn in S2. destruct (w_functions w !! f) as [fn1|] eqn:Hfn1; [|done].
    apply (inj Some) in S2. destruct (static_name _ _ S2) as [E1 E2]. rewrite E1. apply (N4 f fn1 Hfn1). by rewrite <- E2.
Qed.

Lemma frame_names c fs w w' : frame c fs w w' → same_names w w'.
Proof.
  intros [F1 F2 _ F4 F5]. split; [|done|done]. intros t. destruct (decide (t = c)) as [->|Ht].
  - destruct (w_types w' !! c), (w_types w !! c); try done. apply (inj Some) in F2. cbn. f_equal. exact (f_equal (λ x, x.1.2) F2).
  - specialize (F1 t Ht). destruct (w_types w' !! t), (w_types w !! t); try done. apply (inj Some) in F1. cbn. f_equal.
    exact (f_equal d_items F1).
Qed.

Lemma frame_named c fs w w' : frame c fs w w' → named w' → named w.
Proof. intros Hf. apply named_same. symmetry. by eapply frame_names. Qed.

(** ** The phases *)

Section layout.
Variables (w0 : World) (c : nat) (d0 : DerivableType).
Hypothesis W : world_ok w0.
Hypothesis Hd0 : w_types w0 !! c = Some d0.
Hypothesis Hnr : d_layoutReady d0 = false.

Let ts := s_type <$> d_baseTypeList d0.
Let n := length (base_vtables (w_types w0) ts).

(** The tables of the class, with functions [own] and overrides [ovs] so far. *)
Record tables (own qs ovs : list nat) (w : World) (d : DerivableType) : Prop := {
  tb_vtable : d_vtable d = overridden (base_vtables (w_types w0) ts ++ own) (zip qs ovs);
  tb_typed : vtable_typed (w_functions w) d;
  tb_struct : ∃ l, default [] (d_vtableStructType d) = base_slot_types (w_types w0) ts ++ l ∧
    Forall2 (λ f ty, slot_type <$> w_functions w !! f = Some ty) own l;
  tb_slots j s : d_baseTypeList d !! j = Some s → is_class (w_types w0) (s_type s) = true →
    s_vtableIndex s = Some (length (base_vtables (w_types w0) (take j ts)));
  tb_map a j : d_baseTypeMap d !! a = Some j ↔ ts !! j = Some a;
  tb_classes : d_classBaseTypeArray d =
    filter (λ j, default false (is_class (w_types w0) <$> ts !! j) = true) (seq 0 (length ts))
}.

Record phase (props own qs ovs : list nat) (w : World) : Prop := {
  ph_frame : frame c (own ++ ovs) w0 w;
  ph_properties p : p ∉ props → w_properties w !! p = w_properties w0 !! p;
  ph_ready t : t ∈ ts → ∃ d, w_types w0 !! t = Some d ∧ d_layoutReady d = true ∧ d_typeKind d ≠ TypeKind_Other;
  ph_class : ∃ d, w_types w !! c = Some d ∧ tables own qs ovs w d;
  ph_overrides : Forall2 (override_ok w c) qs ovs;
  ph_own j f : own !! j = Some f → ∃ fn, declares w c (n + j) f fn;
  ph_declared k f fn : declares w c k f fn → n ≤ k ∧ own !! (k - n) = Some f;
  ph_origin : origin_ok (λ a, laid w0 a ∨ a = c) w
}.

Lemma ready_ne t : ready w0 t → t ≠ c.
Proof. intros (d & Hd & Hr) ->. congruence. Qed.

Lemma d0_kind : d_typeKind d0 = TypeKind_Class.
Proof. exact (fc_kind _ _ _ (wo_fresh w0 W c d0 Hd0 Hnr)). Qed.

Lemma not_laid : ¬ laid w0 c.
Proof. intros (d & Hd & _ & Hr). congruence. Qed.

Lemma phase_self props own qs ovs w : phase props own qs ovs w → ∃ d, w_types w !! c = Some d ∧ cstatic d = cstatic d0 ∧ tables own qs ovs w d.
Proof.
  intros Hp. destruct (ph_class _ _ _ _ _ Hp) as (d & Hd & Ht). exists d. split; [done|]. split; [|done].
  destruct (frame_self _ _ _ _ _ (ph_frame _ _ _ _ _ Hp) Hd0) as (d' & Hd' & Hs). congruence.
Qed.

Lemma cstatic_ts d : cstatic d = cstatic d0 → s_type <$> d_baseTypeList d = ts.
Proof. intros H. exact (f_equal (λ x, x.1.1.1.1.1.2) H). Qed.

Lemma cstatic_kind d : cstatic d = cstatic d0 → d_typeKind d = TypeKind_Class.
Proof. intros H. rewrite <- d0_kind. exact (f_equal (λ x, x.1.1.1.1.1.1) H). Qed.

(** The other types, in a phase. *)
Lemma phase_type props own qs ovs w t : phase props own qs ovs w → t ≠ c → core <$> w_types w !! t = core <$> w_types w0 !! t.
Proof. intros Hp. apply (fr_types _ _ _ _ (ph_frame _ _ _ _ _ Hp)). Qed.

Lemma phase_base_part props own qs ovs w t : phase props own qs ovs w → t ≠ c →
  base_part <$> w_types w !! t = base_part <$> w_types w0 !! t.
Proof.
  intros Hp Ht. pose proof (phase_type _ _ _ _ _ t Hp Ht) as H.
  destruct (w_types w !! t), (w_types w0 !! t); try done. apply (inj Some) in H. cbn. f_equal. by apply base_part_core.
Qed.

Lemma phase_is_class props own qs ovs w t : phase props own qs ovs w → is_class (w_types w) t = is_class (w_types w0) t.
Proof.
  intros Hp. unfold is_class. destruct (decide (t = c)) as [->|Ht].
  - destruct (phase_self _ _ _ _ _ Hp) as (d & -> & Hs & _). by rewrite Hd0, (cstatic_kind d Hs), d0_kind.
  - pose proof (phase_type _ _ _ _ _ t Hp Ht) as H. destruct (w_types w !! t) as [d|], (w_types w0 !! t) as [d'|]; try done.
    apply (inj Some) in H. by rewrite (f_equal d_typeKind H : d_typeKind d = d_typeKind d').
Qed.

Definition around (t : nat) : Prop := t = c ∨ ready w0 t.

Section phase.
Variables (props own qs ovs : list nat) (w : World).
Hypothesis Hp : phase props own qs ovs w.

Lemma around_type t d : around t → t ≠ c → w_types w !! t = Some d → ∃ d', w_types w0 !! t = Some d' ∧ core d = core d' ∧ ready w0 t.
Proof.
  intros [?|Hr] Hne Hd; [done|]. pose proof (phase_type _ _ _ _ _ t Hp Hne) as H. rewrite Hd in H.
  destruct (w_types w0 !! t) as [d'|]; [|done]. apply (inj Some) in H. eauto.
Qed.

Lemma base_ready i s d : w_types w !! c = Some d → cstatic d = cstatic d0 → d_baseTypeList d !! i = Some s → ready w0 (s_type s).
Proof.
  intros Hd Hs Hi. destruct (ph_ready _ _ _ _ _ Hp (s_type s)) as (dt & H1 & H2 & _); [|by exists dt].
  rewrite <- (cstatic_ts d Hs). apply list_elem_of_fmap. exists s. split; [done|]. by eapply list_elem_of_lookup_2.
Qed.

Lemma around_closed t d s : around t → w_types w !! t = Some d → s ∈ d_baseTypeList d → around (s_type s).
Proof.
  intros Ht Hd Hs. right. destruct (phase_self _ _ _ _ _ Hp) as (dc & Hdc & Hsc & _). destruct (decide (t = c)) as [->|Hne].
  - assert (dc = d) as -> by congruence. apply list_elem_of_lookup in Hs as [i Hi]. by eapply base_ready.
  - destruct (around_type t d Ht Hne Hd) as (d' & Hd' & Hc & Hr). rewrite (f_equal d_baseTypeList Hc : d_baseTypeList d = d_baseTypeList d') in Hs.
    by eapply ready_closed.
Qed.

Lemma around_mapped t d b i : around t → w_types w !! t = Some d → d_baseTypeMap d !! b = Some i →
  ∃ s, d_baseTypeList d !! i = Some s ∧ s_type s = b.
Proof.
  intros Ht Hd Hm. destruct (phase_self _ _ _ _ _ Hp) as (dc & Hdc & Hsc & Htb). destruct (decide (t = c)) as [->|Hne].
  - assert (dc = d) as -> by congruence. apply (tb_map _ _ _ _ _ Htb) in Hm. rewrite <- (cstatic_ts d Hsc) in Hm.
    apply list_lookup_fmap_Some in Hm as (s & -> & Hs). by exists s.
  - destruct (around_type t d Ht Hne Hd) as (d' & Hd' & Hc & Hr).
    rewrite (f_equal d_baseTypeMap Hc : d_baseTypeMap d = d_baseTypeMap d') in Hm.
    rewrite (f_equal d_baseTypeList Hc : d_baseTypeList d = d_baseTypeList d'). by eapply ready_mapped.
Qed.

Lemma around_structs t d s : around t → w_types w !! t = Some d → d_typeKind d ≠ TypeKind_Class → s ∈ d_baseTypeList d →
  is_class (w_types w) (s_type s) = false.
Proof.
  intros Ht Hd Hk Hs. destruct (phase_self _ _ _ _ _ Hp) as (dc & Hdc & Hsc & _). destruct (decide (t = c)) as [->|Hne].
  - assert (dc = d) as -> by congruence. by rewrite cstatic_kind in Hk.
  - destruct (around_type t d Ht Hne Hd) as (d' & Hd' & Hc & Hr). rewrite (phase_is_class _ _ _ _ _ _ Hp).
    rewrite (f_equal d_baseTypeList Hc : d_baseTypeList d = d_baseTypeList d') in Hs.
    rewrite (f_equal d_typeKind Hc : d_typeKind d = d_typeKind d') in Hk. by eapply ready_structs.
Qed.

(** A function of a laid out class that declares an entry is as it was. *)
Lemma declares_before a k f fn : declares w a k f fn → a ≠ c → declares w0 a k f fn.
Proof.
  intros (H1 & H2 & H3 & H4) Ha. assert (Hf : f ∉ own ++ ovs).
  { rewrite elem_of_app. intros [Hf|Hf].
    - apply list_elem_of_lookup in Hf as [j Hj]. destruct (ph_own _ _ _ _ _ Hp j f Hj) as (fn' & Hf' & Ho & _). congruence.
    - apply list_elem_of_lookup in Hf as [j Hj].
      destruct (Forall2_lookup_r _ _ _ _ _ (ph_overrides _ _ _ _ _ Hp) Hj) as (q & _ & fn' & a' & k' & co & st & Hf' & Hk & _). congruence. }
  split; [|done]. by rewrite <- (fr_functions _ _ _ _ (ph_frame _ _ _ _ _ Hp) f Hf).
Qed.

(** The base class an override finds, and the type of the entry. *)
Lemma override_entry a coord start k f fn : findBaseTypeTraverse (w_types w) (S c) c a = Some coord → bc_vtableIndex coord = Some start →
  is_class (w_types w) a = true → declares w a k f fn →
  a ≠ c ∧ ∃ d, w_types w !! c = Some d ∧ default [] (d_vtableStructType d) !! (start + k) = Some (slot_type fn).
Proof.
  intros Hf Hst Ha Hdec.
  destruct (find_coord (w_types w) around a around_closed around_mapped around_structs Ha (S c) c coord) as (π & _ & Hne & Hs & Hv & _);
    [by left|done|]. rewrite Hst in Hv.
  destruct (phase_self _ _ _ _ _ Hp) as (d & Hd & Hsd & Htb). destruct π as [|i π]; [done|].
  cbn in Hs, Hv. rewrite Hd in Hs, Hv. cbn in Hs, Hv. apply bind_Some in Hs as (s & Hi & Hs). rewrite Hi in Hv. cbn in Hv.
  apply add_index_Some in Hv as (v & y & Hv & Hy & ->). pose proof (base_ready i s d Hd Hsd Hi) as Hrs.
  destruct (path_agree (w_types w0) (w_types w) (ready w0)) with (π := π) (t := s_type s) as (A1 & A2 & _); [|..|done|].
  { intros t dt s' Hr Hdt Hs'. by eapply ready_closed. }
  { intros t Hr. eapply phase_base_part; [done|]. by apply ready_ne. }
  rewrite A1 in Hs. rewrite A2 in Hv. pose proof (subobject_ready w0 π W _ _ Hrs Hs) as Hra. pose proof (ready_ne a Hra) as Hac.
  split; [done|]. exists d. split; [done|]. rewrite (phase_is_class _ _ _ _ _ _ Hp) in Ha.
  assert (Hsc : is_class (w_types w0) (s_type s) = true) by (by eapply subobject_class).
  rewrite (tb_slots _ _ _ _ _ Htb i s Hi Hsc) in Hy. injection Hy as <-.
  pose proof Hrs as (ds & Hds & _).
  pose proof (entry_type w0 W π (s_type s) ds a v k f fn Hrs Hds Hsc Hs Hv (declares_before a k f fn Hdec Hac) Ha) as He.
  destruct (tb_struct _ _ _ _ _ Htb) as (l & -> & _). rewrite <- (base_lengths w0).
  2:{ intros t' dt Ht' Hdt. apply list_elem_of_lookup in Ht' as [j Hj]. apply lookup_take_Some in Hj as [Hj _].
      destruct (ph_ready _ _ _ _ _ Hp t') as (dt' & H1 & H2 & _); [by eapply list_elem_of_lookup_2|].
      assert (dt' = dt) as -> by congruence. by eapply ready_typed. }
  rewrite (Nat.add_comm v), <- Nat.add_assoc.
  apply (concat_block _ _ i (s_type s)); [rewrite <- (cstatic_ts d Hsd), list_lookup_fmap, Hi; done|]. rewrite Hds.
  rewrite (is_class_kind _ _ _ Hds) in Hsc. to_prop. by rewrite decide_True.
Qed.
End phase.

Lemma typed_mono functions functions' d d' : (∀ f, slot_type <$> functions' !! f = slot_type <$> functions !! f) →
  d_vtable d' = d_vtable d → d_vtableStructType d' = d_vtableStructType d → vtable_typed functions d → vtable_typed functions' d'.
Proof.
  intros Hf Hv Hs. unfold vtable_typed. rewrite Hv, Hs. destruct (d_vtableStructType d); [|done].
  intros H. eapply Forall2_impl; [exact H|]. intros f ty Hty. by rewrite Hf.
Qed.

Lemma cstatic_eq_frame w w' d d' fs : w_types w !! c = Some d → w_types w' !! c = Some d' → cstatic d' = cstatic d →
  (∀ t, t ≠ c → w_types w' !! t = w_types w !! t) → (∀ f, f ∉ fs → w_functions w' !! f = w_functions w !! f) →
  (∀ f, static <$> w_functions w' !! f = static <$> w_functions w !! f) →
  (∀ p, pstatic <$> w_properties w' !! p = pstatic <$> w_properties w !! p) → frame c fs w w'.
Proof.
  intros Hd Hd' Hs Ht Hf Hf' Hp. split; try done.
  - intros t Hne. by rewrite Ht.
  - rewrite Hd, Hd'. cbn. by rewrite Hs.
Qed.

(** The parts of the class a function does not change. *)
Definition same_bases (d d' : DerivableType) : Prop :=
  cstatic d' = cstatic d ∧ d_baseTypeMap d' = d_baseTypeMap d ∧ d_baseTypeList d' = d_baseTypeList d ∧
  d_classBaseTypeArray d' = d_classBaseTypeArray d.

(** Functions are added to the end of the virtual table. *)
Record added (fs : list nat) (w w' : World) (d d' : DerivableType) : Prop := {
  ad_nodup : NoDup fs;
  ad_fresh f : f ∈ fs → ∃ fn, w_functions w !! f = Some fn ∧ fn_virtualOriginClassType fn = None ∧
    fn_storageKind fn ≠ StorageKind_Override;
  ad_functions j f fn : fs !! j = Some f → w_functions w !! f = Some fn →
    w_functions w' !! f = Some (set_origin c (length (d_vtable d) + j) fn);
  ad_others f : f ∉ fs → w_functions w' !! f = w_functions w !! f;
  ad_types t : t ≠ c → w_types w' !! t = w_types w !! t;
  ad_class : w_types w !! c = Some d ∧ w_types w' !! c = Some d' ∧ same_bases d d';
  ad_vtable : d_vtable d' = d_vtable d ++ fs;
  ad_struct : ∃ l, d_vtableStructType d' = Some (default [] (d_vtableStructType d) ++ l) ∧
    Forall2 (λ f ty, slot_type <$> w_functions w !! f = Some ty) fs l;
  ad_properties p : pstatic <$> w_properties w' !! p = pstatic <$> w_properties w !! p
}.

Lemma added_function fs w w' d d' f fn' : added fs w w' d d' → w_functions w' !! f = Some fn' →
  (f ∉ fs ∧ w_functions w !! f = Some fn') ∨
  ∃ j fn, fs !! j = Some f ∧ w_functions w !! f = Some fn ∧ fn' = set_origin c (length (d_vtable d) + j) fn ∧
    fn_storageKind fn ≠ StorageKind_Override.
Proof.
  intros Ha Hf. destruct (decide (f ∈ fs)) as [Hin|Hin].
  - right. pose proof Hin as [j Hj]%list_elem_of_lookup. destruct (ad_fresh _ _ _ _ _ Ha f Hin) as (fn & Hfn & _ & Hk).
    rewrite (ad_functions _ _ _ _ _ Ha j f fn Hj Hfn) in Hf. injection Hf as <-. eauto 10.
  - left. by rewrite (ad_others _ _ _ _ _ Ha f Hin) in Hf.
Qed.

Lemma added_slot_type fs w w' d d' f : added fs w w' d d' → slot_type <$> w_functions w' !! f = slot_type <$> w_functions w !! f.
Proof.
  intros Ha. destruct (decide (f ∈ fs)) as [Hin|Hin]; [|by rewrite (ad_others _ _ _ _ _ Ha f Hin)].
  pose proof Hin as [j Hj]%list_elem_of_lookup. destruct (ad_fresh _ _ _ _ _ Ha f Hin) as (fn & Hfn & _).
  by rewrite (ad_functions _ _ _ _ _ Ha j f fn Hj Hfn), Hfn.
Qed.

Lemma added_static fs w w' d d' f : added fs w w' d d' → static <$> w_functions w' !! f = static <$> w_functions w !! f.
Proof.
  intros Ha. destruct (decide (f ∈ fs)) as [Hin|Hin]; [|by rewrite (ad_others _ _ _ _ _ Ha f Hin)].
  pose proof Hin as [j Hj]%list_elem_of_lookup. destruct (ad_fresh _ _ _ _ _ Ha f Hin) as (fn & Hfn & _).
  by rewrite (ad_functions _ _ _ _ _ Ha j f fn Hj Hfn), Hfn.
Qed.

Lemma added_declares fs w w' d d' a k f fn : added fs w w' d d' → declares w a k f fn → declares w' a k f fn.
Proof.
  intros Ha (H1 & H2 & H3 & H4). split; [|done]. rewrite (ad_others _ _ _ _ _ Ha); [done|].
  intros Hin. destruct (ad_fresh _ _ _ _ _ Ha f Hin) as (fn' & Hf' & Ho & _). congruence.
Qed.

Lemma phase_add props props' own fs w w' d d' : phase props own [] [] w → added fs w w' d d' →
  (∀ f fn, f ∈ fs → w_functions w !! f = Some fn → fst (fn_thisArgType fn) = c) → (∀ p, p ∉ props' → w_properties w' !! p = w_properties w0 !! p) → phase props' (own ++ fs) [] [] w'.
Proof.
  intros Hp Ha Hthis Hprops. destruct (ad_class _ _ _ _ _ Ha) as (Hd & Hd' & S1 & S2 & S3 & S4).
  destruct (ph_class _ _ _ _ _ Hp) as (dd & Hdd & Htb). assert (dd = d) as -> by congruence. clear Hdd.
  destruct Htb as [T1 T2 T3 T4 T5 T6]. cbn [zip zip_with overridden foldl] in T1. destruct (ad_struct _ _ _ _ _ Ha) as (l & Hl & Hlt).
  assert (Hlen : length (d_vtable d) = n + length own) by (rewrite T1, length_app; done).
  assert (Hframe : frame c fs w w').
  { eapply cstatic_eq_frame; [exact Hd|exact Hd'|done|apply Ha|apply Ha|intros f; by eapply added_static|apply Ha]. }
  split.
  - rewrite app_nil_r. pose proof (ph_frame _ _ _ _ _ Hp) as Hfr. rewrite app_nil_r in Hfr.
    eapply frame_trans; (eapply frame_weaken; [|eassumption]); set_solver.
  - exact Hprops.
  - apply Hp.
  - exists d'. split; [done|]. split.
    + cbn. by rewrite (ad_vtable _ _ _ _ _ Ha), T1, app_assoc.
    + assert (Hmono : vtable_typed (w_functions w') d).
      { eapply typed_mono; [|done|done|exact T2]. intros f. by eapply added_slot_type. }
      unfold vtable_typed in *. rewrite Hl, (ad_vtable _ _ _ _ _ Ha). apply Forall2_app.
      * destruct (d_vtableStructType d); [done|]. rewrite Hmono. constructor.
      * eapply Forall2_impl; [exact Hlt|]. intros f ty Hty. by rewrite (added_slot_type _ _ _ _ _ _ Ha).
    + destruct T3 as (l0 & Hl0 & Hf0). exists (l0 ++ l). rewrite Hl. cbn. split; [by rewrite Hl0, app_assoc|].
      apply Forall2_app; (eapply Forall2_impl; [eassumption|]); intros f ty Hty; by rewrite (added_slot_type _ _ _ _ _ _ Ha).
    + intros j s Hj. rewrite S3 in Hj. by apply T4.
    + intros a j. rewrite S2. apply T5.
    + by rewrite S4.
  - constructor.
  - intros j f Hj. apply lookup_app_Some in Hj as [Hj|[Hj1 Hj]].
    + destruct (ph_own _ _ _ _ _ Hp j f Hj) as (fn & Hdec). exists fn. by eapply added_declares.
    + destruct (ad_fresh _ _ _ _ _ Ha f ltac:(by eapply list_elem_of_lookup_2)) as (fn & Hfn & _ & Hk).
      eexists. split; [by eapply (ad_functions _ _ _ _ _ Ha)|]. cbn. split; [done|]. split; [|done]. f_equal. rewrite Hlen. lia.
  - intros k f fn (H1 & H2 & H3 & H4). destruct (added_function _ _ _ _ _ _ _ Ha H1) as [ [_ Hf]|(j & fn0 & Hj & Hf & -> & _)].
    + destruct (ph_declared _ _ _ _ _ Hp k f fn (conj Hf (conj H2 (conj H3 H4)))) as [Hk Ho]. split; [done|]. by apply lookup_app_l_Some.
    + cbn in H3. injection H3 as <-. split; [lia|]. rewrite lookup_app_r by lia. rewrite <- Hj. f_equal. lia.
  - intros g fn a Hg Ho. destruct (added_function _ _ _ _ _ _ _ Ha Hg) as [ [_ Hf]|(j & fn0 & Hj & Hf & -> & Hk)].
    + destruct (ph_origin _ _ _ _ _ Hp g fn a Hf Ho) as (H1 & k & f & fnf & H2 & H3 & H4). split; [done|].
      destruct H4 as (H4 & H5 & H6). exists k, f, fnf. split; [done|]. split; [by eapply added_declares|]. split; [done|]. split; [done|].
      intros N. by eapply H6, frame_named.
    + cbn in Ho. injection Ho as <-. split; [by right|]. exists (length (d_vtable d) + j), g, (set_origin c (length (d_vtable d) + j) fn0).
      split; [done|]. split; [by split|]. split; [done|]. split; [|done]. cbn. apply (Hthis g); [by eapply list_elem_of_lookup_2|done].
Qed.

(** *** Virtual methods *)

Definition has_struct (w : World) : Prop := ∃ d, w_types w !! c = Some d ∧ is_Some (d_vtableStructType d).

Lemma addVirtualFunction_ok f w w' d : addVirtualFunction c f w = inl (tt, w') → w_types w !! c = Some d →
  (∃ d', added [f] w w' d d') ∧ w_properties w' = w_properties w.
Proof.
  unfold addVirtualFunction. intros H Hd. apply cbind_inv in H as (fn & w1 & H1 & H). apply get_function_inv in H1 as [Hf ->].
  apply cbind_inv in H as ([] & w1 & H1 & H). apply require_inv in H1 as [Hk ->].
  apply cbind_inv in H as ([] & w1 & H1 & H). apply require_inv in H1 as [Ho ->]. to_prop.
  apply cbind_inv in H as ([] & w1 & H1 & H). apply require_inv in H1 as [_ ->].
  apply cbind_inv in H as ([] & w1 & H1 & H). destruct (on_upd_inv _ _ _ _ _ _ _ H1 Hd) as [(O1 & O2 & O3) D1].
  match type of D1 with _ = Some ?x => set (d1 := x) in * end.
  assert (Hd1 : same_bases d d1 ∧ d_vtable d1 = d_vtable d ∧ d_vtableStructType d1 = d_vtableStructType d)
    by (unfold d1; by destruct (bool_decide _)).
  clearbody d1. destruct Hd1 as ((S1 & S2 & S3 & S4) & S5 & S6).
  apply cbind_inv in H as (dd & w2 & H2 & H). apply get_type_inv in H2 as [Hdd ->]. assert (dd = d1) as -> by congruence.
  apply cbind_inv in H as ([] & w2 & H2 & H). apply upd_function_inv in H2 as ->. apply upd_type_inv in H as ->. cbn.
  split; [|by rewrite O2].
  eexists. split; cbn.
  - apply NoDup_singleton.
  - intros f' ->%list_elem_of_singleton. exists fn. split; [done|]. split; [done|].
    intros Hov. by rewrite Hov in Hk.
  - intros j f' fn' Hj Hf'. destruct j as [|j]; [|done]. injection Hj as <-. rewrite lookup_alter_eq, O1, Hf'. cbn.
    by rewrite S5, Nat.add_0_r.
  - intros f' Hf'. rewrite lookup_alter_ne by set_solver. by rewrite O1.
  - intros t Ht. rewrite lookup_alter_ne by done. by apply O3.
  - split; [done|]. split; [by rewrite lookup_alter_eq, D1|].
    assert (Hg : ∀ x, same_bases x (append_vtable_struct [slot_type fn] (getVtableStructType x))).
    { intros x. unfold append_vtable_struct, getVtableStructType. by destruct (d_vtableStructType x). }
    destruct (Hg d1) as (G1 & G2 & G3 & G4). split; [exact (eq_trans G1 S1)|]. split; [exact (eq_trans G2 S2)|].
    split; [exact (eq_trans G3 S3)|exact (eq_trans G4 S4)].
  - by rewrite S5.
  - exists [slot_type fn]. split.
    + unfold append_vtable_struct, getVtableStructType. rewrite <- S6. destruct (d_vtableStructType d1) as [l|] eqn:Hl; cbn; by rewrite ?Hl.
    + constructor; [by rewrite Hf|constructor].
  - intros p. by rewrite O2.
Qed.

Lemma added_has_struct fs w w' d d' : added fs w w' d d' → has_struct w'.
Proof.
  intros Ha. destruct (ad_class _ _ _ _ _ Ha) as (_ & Hd' & _). exists d'. split; [done|].
  destruct (ad_struct _ _ _ _ _ Ha) as (l & -> & _). by eexists.
Qed.

(** *** Virtual properties *)

Lemma append_loop p l : ∀ w w', for_each l (appendVtableMethod p) w = inl (tt, w') →
  w_functions w' = w_functions w ∧ w_types w' = w_types w ∧ (∀ p', p' ≠ p → w_properties w' !! p' = w_properties w !! p') ∧
  w_properties w' !! p = (λ pr, p_set_vtable (p_vtable pr ++ l) pr) <$> w_properties w !! p.
Proof.
  induction l as [|f l IH]; intros w w' H; cbn [for_each] in H.
  { apply mret_inv in H as [_ <-]. repeat split; try done. destruct (w_properties w !! p) as [ [] |]; [|done]. cbn. by rewrite app_nil_r. }
  apply cbind_inv in H as ([] & w1 & H1 & H). unfold appendVtableMethod in H1.
  apply cbind_inv in H1 as (fn & w2 & H2 & H1). apply get_function_inv in H2 as [_ ->].
  apply cbind_inv in H1 as ([] & w2 & H2 & H1). apply require_inv in H2 as [_ ->]. apply upd_property_inv in H1 as ->.
  destruct (IH _ _ H) as (A1 & A2 & A3 & A4). cbn in *. split; [done|]. split; [done|]. split.
  - intros p' Hp'. rewrite A3 by done. by rewrite lookup_alter_ne.
  - rewrite A4, lookup_alter_eq. destruct (w_properties w !! p) as [ [] |]; [|done]. cbn. by rewrite <- app_assoc.
Qed.

Lemma get_functions_inv fs : ∀ w fns w', get_functions fs w = inl (fns, w') → w' = w ∧ Forall2 (λ f fn, w_functions w !! f = Some fn) fs fns.
Proof.
  induction fs as [|f fs IH]; intros w fns w' H; cbn [get_functions] in H.
  { apply mret_inv in H as [<- <-]. by split. }
  apply cbind_inv in H as (fn & w1 & H1 & H). apply get_function_inv in H1 as [Hf ->].
  apply cbind_inv in H as (fns' & w1 & H1 & H). apply mret_inv in H as [<- <-]. destruct (IH _ _ _ H1) as [-> IH']. split; [done|].
  by constructor.
Qed.

Lemma set_accessors_ok index fs : ∀ k w w', set_accessors index k fs w = inl (tt, w') → NoDup fs →
  w_types w' = w_types w ∧ w_properties w' = w_properties w ∧
  (∀ j f, fs !! j = Some f → w_functions w' !! f = set_origin index (k + j) <$> w_functions w !! f) ∧
  ∀ f, f ∉ fs → w_functions w' !! f = w_functions w !! f.
Proof.
  induction fs as [|f fs IH]; intros k w w' H Hnd; cbn [set_accessors] in H.
  { apply mret_inv in H as [_ <-]. done. }
  apply cbind_inv in H as ([] & w1 & H1 & H). apply upd_function_inv in H1 as ->. apply NoDup_cons in Hnd as [Hf Hnd].
  destruct (IH _ _ _ H Hnd) as (A1 & A2 & A3 & A4). cbn in *. split; [done|]. split; [done|]. split.
  - intros [|j] f' Hj; cbn in Hj.
    + injection Hj as <-. rewrite A4 by done. by rewrite lookup_alter_eq, Nat.add_0_r.
    + replace (k + S j) with (S k + j) by lia. rewrite (A3 j f' Hj), lookup_alter_ne; [done|]. intros ->. apply Hf. by eapply list_elem_of_lookup_2.
  - intros f' Hf'. apply not_elem_of_cons in Hf' as [Hne Hf']. rewrite A4 by done. by rewrite lookup_alter_ne.
Qed.

Lemma layout_property_ok p w w' d pr : layout_property c p w = inl (tt, w') → w_types w !! c = Some d → is_Some (d_vtableStructType d) →
  w_properties w !! p = Some pr → p_vtable pr = [] → NoDup (accessors pr) →
  (∀ f, f ∈ accessors pr → ∃ fn, w_functions w !! f = Some fn ∧ fn_virtualOriginClassType fn = None ∧ fn_storageKind fn ≠ StorageKind_Override) →
  (∃ d', added (accessors pr) w w' d d') ∧ ∀ p', p' ≠ p → w_properties w' !! p' = w_properties w !! p'.
Proof.
  unfold layout_property. intros H Hd [st Hst] Hpr Hv Hnd Hfresh.
  apply cbind_inv in H as (pr0 & w1 & H1 & H). apply get_property_inv in H1 as [Hpr0 ->]. assert (pr0 = pr) as -> by congruence.
  apply cbind_inv in H as ([] & w1 & H1 & H). apply require_inv in H1 as [_ ->].
  apply cbind_inv in H as ([] & w1 & H1 & H). unfold ensureVtable in H1.
  apply cbind_inv in H1 as (pr0 & w2 & H2 & H1). apply get_property_inv in H2 as [Hpr2 ->]. assert (pr0 = pr) as -> by congruence.
  rewrite Hv in H1. destruct (append_loop _ _ _ _ H1) as (A1 & A2 & A3 & A4). rewrite Hpr in A4. cbn in A4. rewrite Hv in A4. cbn in A4.
  apply cbind_inv in H as (pr1 & w2 & H2 & H). apply get_property_inv in H2 as [Hpr1 ->]. rewrite A4 in Hpr1. injection Hpr1 as <-.
  apply cbind_inv in H as (d1 & w2 & H2 & H). apply get_type_inv in H2 as [Hd1 ->]. rewrite A2 in Hd1. assert (d1 = d) as -> by congruence.
  apply cbind_inv in H as ([] & w2 & H2 & H). apply upd_property_inv in H2 as ->. cbn [p_vtable p_set_vtable] in H.
  apply cbind_inv in H as (fns & w2 & H2 & H). apply get_functions_inv in H2 as [-> Hfns]. cbn [w_functions] in Hfns. rewrite A1 in Hfns.
  apply cbind_inv in H as ([] & w2 & H2 & H). apply upd_type_inv in H2 as ->.
  destruct (set_accessors_ok _ _ _ _ _ H Hnd) as (B1 & B2 & B3 & B4). cbn in *. rewrite A1, A2 in *.
  split.
  - eexists. split.
    + done.
    + done.
    + intros j f fn Hj Hf. rewrite (B3 j f Hj), Hf. done.
    + done.
    + intros t Ht. rewrite B1. by rewrite lookup_alter_ne.
    + split; [done|]. split; [by rewrite B1, lookup_alter_eq, Hd|]. done.
    + done.
    + exists (map slot_type fns). cbn. rewrite Hst. split; [done|].
      clear -Hfns. induction Hfns as [|f fn fs fns Hf _ IH]; [constructor|]. constructor; [by rewrite Hf|done].
    + intros p'. rewrite B2. destruct (decide (p' = p)) as [->|Hne].
      * rewrite lookup_alter_eq, A4, Hpr. done.
      * rewrite lookup_alter_ne by done. by rewrite A3.
  - intros p' Hne. rewrite B2, lookup_alter_ne by done. by apply A3.
Qed.

(** The functions of the class are as they were until they are laid out. *)
Lemma phase_pending props own qs ovs w f : phase props own qs ovs w → f ∈ owned w0 d0 → f ∉ own ++ ovs →
  ∃ fn, w_functions w !! f = Some fn ∧ w_functions w0 !! f = Some fn ∧ fn_virtualOriginClassType fn = None ∧ fst (fn_thisArgType fn) = c.
Proof.
  intros Hp Hf Hn. destruct (fc_functions _ _ _ (wo_fresh w0 W c d0 Hd0 Hnr) f Hf) as (fn & Hfn & Ho). exists fn.
  by rewrite (fr_functions _ _ _ _ (ph_frame _ _ _ _ _ Hp) f Hn).
Qed.

Lemma accessors_owned p f : p ∈ d_virtualPropertyArray d0 → f ∈ property_accessors w0 p → f ∈ owned w0 d0.
Proof.
  intros Hp Hf. unfold owned. apply elem_of_app. left. apply list_elem_of_In, in_concat. exists (property_accessors w0 p).
  split; [apply in_map; by apply list_elem_of_In|by apply list_elem_of_In].
Qed.

Lemma methods_ok l : ∀ props own w w', for_each l (addVirtualFunction c) w = inl (tt, w') → phase props own [] [] w →
  (∀ f, f ∈ l → f ∈ owned w0 d0) → NoDup (own ++ l) → phase props (own ++ l) [] [] w'.
Proof.
  induction l as [|f l IH]; intros props own w w' H Hp Hl Hnd; cbn [for_each] in H.
  { apply mret_inv in H as [_ <-]. by rewrite app_nil_r. }
  apply cbind_inv in H as ([] & w1 & H1 & H). destruct (ph_class _ _ _ _ _ Hp) as (d & Hd & _).
  destruct (addVirtualFunction_ok f w w1 d H1 Hd) as [ [d' Ha] Hpr].
  assert (Hp1 : phase props (own ++ [f]) [] [] w1).
  { eapply phase_add; [exact Hp|exact Ha| |].
    - intros f' fn ->%list_elem_of_singleton Hfn. apply NoDup_app in Hnd as (_ & Hnd & _).
      destruct (phase_pending _ _ _ _ _ f Hp) as (fn' & F1 & _ & _ & F2); [apply Hl; left| |congruence].
      rewrite app_nil_r. intros Hin. apply (Hnd f Hin). left.
    - intros p Hpn. rewrite Hpr. by apply Hp. }
  pose proof (IH _ _ _ _ H Hp1) as Hp2. rewrite <- app_assoc in Hp2. apply Hp2; [|done]. intros f' Hf'. apply Hl. by right.
Qed.

Lemma properties_ok ps : ∀ done own w w', for_each ps (layout_property c) w = inl (tt, w') → phase done own [] [] w → has_struct w →
  (∀ p, p ∈ ps → p ∈ d_virtualPropertyArray d0 ∧ p ∉ done) → NoDup (own ++ concat (map (property_accessors w0) ps)) →
  (∀ p, p ∈ done → p ∈ d_virtualPropertyArray d0) →
  ∃ done', phase done' (own ++ concat (map (property_accessors w0) ps)) [] [] w' ∧ (∀ p, p ∈ done' → p ∈ d_virtualPropertyArray d0).
Proof.
  induction ps as [|p ps IH]; intros done own w w' H Hp Hst Hps Hnd Hdone; cbn [for_each map concat] in *.
  { apply mret_inv in H as [_ <-]. rewrite app_nil_r. eauto. }
  apply cbind_inv in H as ([] & w1 & H1 & H). destruct (Hps p ltac:(left)) as [Hin Hnotin].
  destruct (fc_properties _ _ _ (wo_fresh w0 W c d0 Hd0 Hnr) p Hin) as (pr & Hpr & Hv).
  assert (Hacc : property_accessors w0 p = accessors pr) by (unfold property_accessors; by rewrite Hpr).
  rewrite Hacc in *. rewrite app_assoc in Hnd. pose proof Hnd as Hnd'. apply NoDup_app in Hnd' as (Hnd1 & _ & _).
  apply NoDup_app in Hnd1 as (_ & Hdisj & Hnda). destruct Hst as (d & Hd & Hs).
  assert (Hpend : ∀ f, f ∈ accessors pr → ∃ fn, w_functions w !! f = Some fn ∧ w_functions w0 !! f = Some fn ∧
    fn_virtualOriginClassType fn = None ∧ fst (fn_thisArgType fn) = c).
  { intros f Hf. apply (phase_pending _ _ _ _ _ f Hp); [apply (accessors_owned p); [done|by rewrite Hacc]|].
    rewrite app_nil_r. intros Hown. by apply (Hdisj f). }
  destruct (layout_property_ok p w w1 d pr H1 Hd Hs) as [ [d' Ha] Hother]; [|done|done|..].
  { by rewrite (ph_properties _ _ _ _ _ Hp). }
  { intros f Hf. destruct (Hpend f Hf) as (fn & F1 & F2 & F3 & _).
    destruct (fc_accessors _ _ _ (wo_fresh w0 W c d0 Hd0 Hnr) p f Hin) as (fn' & F4 & F5); [by rewrite Hacc|].
    exists fn. split; [done|]. split; [done|]. congruence. }
  assert (Hp1 : phase (p :: done) (own ++ accessors pr) [] [] w1).
  { eapply phase_add; [exact Hp|exact Ha| |].
    - intros f fn Hf Hfn. destruct (Hpend f Hf) as (fn' & F1 & _ & _ & F2). congruence.
    - intros p' Hp'. apply not_elem_of_cons in Hp' as [Hne Hp']. rewrite Hother by done. by apply Hp. }
  destruct (IH (p :: done) _ _ _ H Hp1) as (done' & Hp2 & Hs2); [by eapply added_has_struct| |done|by intros p' [->|Hp']%elem_of_cons; [|apply Hdone]|].
  - intros p' Hp'. destruct (Hps p' ltac:(by right)) as [Hin' Hnot']. split; [done|]. apply not_elem_of_cons. split; [|done].
    intros ->. apply NoDup_app in Hnd as (_ & Hd2 & _). apply (Hd2 (p_getter pr)).
    + apply elem_of_app. right. unfold accessors. apply elem_of_app. right. left.
    + apply list_elem_of_In, in_concat. exists (property_accessors w0 p). split; [apply in_map; by apply list_elem_of_In|].
      apply list_elem_of_In. rewrite Hacc. unfold accessors. apply elem_of_app. right. left.
  - exists done'. rewrite app_assoc. done.
Qed.

(** *** Overrides *)

Lemma find_overridden_inv fn w o w' f0 : w_functions w !! f0 = Some fn → find_overridden c fn w = inl (o, w') → w' = w ∧
  ∃ fo, w_functions w !! o = Some fo ∧ fn_shortType fo = fn_shortType fn ∧ (named w → fn_name fo = fn_name fn).
Proof.
  intros Hfn0. unfold find_overridden. intros H. apply cbind_inv in H as (types & w1 & H1 & H). injection H1 as <- <-.
  apply cbind_inv in H as (functions & w1 & H1 & H). injection H1 as <- <-.
  apply cbind_inv in H as (item & w1 & H1 & H).
  destruct (findDirectChildItemTraverse _ _ _ _ _) as [item'|] eqn:Hitem; [|done]. apply mret_inv in H1 as [<- <-].
  apply cbind_inv in H as (found & w1 & H1 & H).
  assert (Hfound : w1 = w ∧ (named w → Forall (named_as w (fn_name fn)) (setter_list found))).
  { apply found_item in Hitem as [->|(u & du & Hu & Hi)]; [done|]. destruct item' as [f|fs|p|]; [| | |done].
    - apply mret_inv in H1 as [<- <-]. split; [done|]. intros N. constructor; [|constructor]. by eapply nm_function.
    - apply mret_inv in H1 as [<- <-]. split; [done|]. intros N. apply Forall_forall. intros f Hf. by eapply nm_overload.
    - apply cbind_inv in H1 as (pr & w2 & H2 & H1). apply get_property_inv in H2 as [Hp ->].
      assert (Hacc : fn_functionKind fn = FunctionKind_Getter ∨ fn_functionKind fn = FunctionKind_Setter → named w → Forall (named_as w (fn_name fn)) (accessors pr)).
      { intros Hk N. apply Forall_forall. intros f Hf. rewrite (nm_kind w N f0 fn Hfn0 Hk). by eapply nm_accessor. }
      destruct (fn_functionKind fn) eqn:Hk; try done.
      + apply mret_inv in H1 as [<- <-]. split; [done|]. intros N. specialize (Hacc (or_introl eq_refl) N). unfold accessors in Hacc.
        apply Forall_app in Hacc as [_ Hacc]. apply Forall_cons in Hacc as [Hacc _]. by constructor.
      + destruct (p_setter pr) eqn:Hset; try done; apply mret_inv in H1 as [<- <-]; (split; [done|]); intros N;
          specialize (Hacc (or_intror eq_refl) N); unfold accessors in Hacc; rewrite Hset in Hacc;
          apply Forall_app in Hacc as [_ Hacc]; by apply Forall_cons in Hacc as [_ Hacc]. }
  destruct Hfound as [-> Hnames]. clear H1. destruct found as [|f|fs]; [done|..].
  - apply cbind_inv in H as (fo & w1 & H1 & H). apply get_function_inv in H1 as [Hf ->].
    destruct (N.eqb_spec (fn_shortType fo) (fn_shortType fn)); [|done]. apply mret_inv in H as [<- <-]. split; [done|].
    exists fo. split; [done|]. split; [done|]. intros N. specialize (Hnames N). apply Forall_cons in Hnames as [Hn _]. by apply Hn.
  - destruct (findShortOverload _ _ _ _) as [f|] eqn:Hf; [|done]. apply mret_inv in H as [<- <-]. split; [done|].
    unfold findShortOverload in Hf. apply first_some_Some in Hf as (i & x & Hx & Hf & _). apply bind_Some in Hf as (fo & Hfo & Hf).
    destruct (_ && _) eqn:Hb; [|done]. injection Hf as ->. to_prop. exists fo. split; [done|]. split; [done|]. intros N.
    specialize (Hnames N). cbn in Hnames. rewrite Forall_forall in Hnames. apply (Hnames f); [by eapply list_elem_of_lookup_2|done].
Qed.

Lemma typed_insert functions functions' d d' q g : vtable_typed functions d → q < length (d_vtable d) →
  (∀ f, f ≠ g → slot_type <$> functions' !! f = slot_type <$> functions !! f) → g ∉ d_vtable d →
  d_vtable d' = <[q := g]> (d_vtable d) → d_vtableStructType d' = d_vtableStructType d →
  (slot_type <$> functions' !! g = default [] (d_vtableStructType d) !! q) → vtable_typed functions' d'.
Proof.
  unfold vtable_typed. intros Ht Hq Hf Hg -> -> Hty. destruct (d_vtableStructType d) as [l|]; [|rewrite Ht in Hq; simpl in Hq; lia].
  apply Forall2_same_length_lookup_2; [rewrite length_insert; by eapply Forall2_length|].
  intros i x y Hx Hy. destruct (decide (i = q)) as [->|Hi].
  - rewrite list_lookup_insert_eq in Hx by done. injection Hx as <-. by rewrite Hty.
  - rewrite list_lookup_insert_ne in Hx by done. rewrite Hf.
    + exact (Forall2_lookup_lr _ _ _ _ _ _ Ht Hx Hy).
    + intros ->. apply Hg. by eapply list_elem_of_lookup_2.
Qed.

(** An override is written to the entry it overrides. *)
Lemma overrideVirtualFunction_ok props own qs ovs w w' f : overrideVirtualFunction c f w = inl (tt, w') → phase props own qs ovs w →
  f ∈ owned w0 d0 → f ∉ own ++ ovs → ∃ q, phase props own (qs ++ [q]) (ovs ++ [f]) w'.
Proof.
  unfold overrideVirtualFunction. intros H Hp Hf Hn.
  apply cbind_inv in H as (fn & w1 & H1 & H). apply get_function_inv in H1 as [Hfn ->].
  apply cbind_inv in H as ([] & w1 & H1 & H). apply require_inv in H1 as [Hk ->].
  apply cbind_inv in H as ([] & w1 & H1 & H). apply require_inv in H1 as [Ho ->].
  apply cbind_inv in H as ([] & w1 & H1 & H). apply require_inv in H1 as [_ ->]. to_prop.
  apply cbind_inv in H as (o & w1 & H1 & H). apply (find_overridden_inv _ _ _ _ f Hfn) in H1 as (-> & fo & Hfo & Hshort & Hname).
  apply cbind_inv in H as (fo' & w1 & H1 & H). apply get_function_inv in H1 as [Hfo' ->]. assert (fo' = fo) as -> by congruence.
  apply cbind_inv in H as ([] & w1 & H1 & H). apply require_inv in H1 as [_ ->].
  apply cbind_inv in H as (a & w1 & H1 & H). apply deref_inv in H1 as [Ha ->].
  apply cbind_inv in H as (k & w1 & H1 & H). apply deref_inv in H1 as [Hidx ->].
  apply cbind_inv in H as (types & w1 & H1 & H). injection H1 as <- <-.
  apply cbind_inv in H as (coord & w1 & H1 & H). apply deref_inv in H1 as [Hco ->].
  apply cbind_inv in H as (start & w1 & H1 & H). apply deref_inv in H1 as [Hst ->].
  apply cbind_inv in H as ([] & w1 & H1 & H). apply upd_function_inv in H1 as ->.
  apply cbind_inv in H as (d & w1 & H1 & H). apply get_type_inv in H1 as [Hd ->]. cbn [w_types] in Hd.
  apply cbind_inv in H as ([] & w1 & H1 & H). apply require_inv in H1 as [Hq ->]. to_prop.
  apply upd_type_inv in H as ->. cbn [w_types w_functions w_properties].
  exists (start + k). destruct (phase_self _ _ _ _ _ Hp) as (d' & Hd' & Hsd & Htb). assert (d' = d) as -> by congruence. clear Hd'.
  destruct (ph_origin _ _ _ _ _ Hp o fo a Hfo Ha) as (Hla & k' & fd & fnd & Hk' & Hdec & Hty & Htharg & Hlink).
  assert (k' = k) as -> by congruence.
  assert (Hac : is_class (w_types w) a = true).
  { rewrite (phase_is_class _ _ _ _ _ _ Hp). destruct Hla as [(da & H1 & H2 & _)| ->].
    - by rewrite (is_class_kind _ _ _ H1), bool_decide_true.
    - by rewrite (is_class_kind _ _ _ Hd0), bool_decide_true by apply d0_kind. }
  destruct (override_entry _ _ _ _ _ Hp a coord start k fd fnd Hco Hst Hac Hdec) as (Hne & d'' & Hd'' & Hentry).
  assert (d'' = d) as -> by congruence. clear Hd''.
  set (g := λ fn, fn_set_thisArgType (fn_thisArgType fo) (fn_set_thisArgDelta (- Z.of_N (bc_offset coord)) (set_origin a k fn))).
  set (g' := λ d, d_set_vtable (<[start + k := f]> (d_vtable d)) d).
  set (w' := mkWorld (alter g f (w_functions w)) (w_properties w) (alter g' c (w_types w))).
  assert (Hslot : slot_type (g fn) = slot_type fnd) by (rewrite <- Hty; unfold slot_type, g; cbn; by rewrite Hshort).
  assert (Hnov : f ∉ d_vtable d).
  { intros Hin. rewrite (tb_vtable _ _ _ _ _ Htb) in Hin. apply overridden_elem in Hin as [ [Hin|Hin]%elem_of_app|Hin].
    - apply base_vtables_elem in Hin as (t & dt & Ht & Hdt & Hin & _). destruct (ph_ready _ _ _ _ _ Hp t Ht) as (dt' & Hdt' & Hrt & _).
      assert (dt' = dt) as -> by congruence. destruct (entries_origin w0 W t dt f Hdt Hrt Hin) as (fx & ax & F1 & F2).
      destruct (phase_pending _ _ _ _ _ f Hp Hf Hn) as (fy & _ & F3 & F4 & _). congruence.
    - apply Hn, elem_of_app. by left.
    - apply Hn, elem_of_app. right. by eapply zip_snd_elem. }
  assert (Hfr : frame c (own ++ (ovs ++ [f])) w w').
  { split; cbn.
    - intros t Ht. by rewrite lookup_alter_ne.
    - rewrite lookup_alter_eq, Hd. done.
    - intros f' Hf'. rewrite lookup_alter_ne; [done|]. intros <-. apply Hf'. rewrite !elem_of_app. right. right. left.
    - intros f'. destruct (decide (f = f')) as [<-|Hne']; [|by rewrite lookup_alter_ne]. rewrite lookup_alter_eq, Hfn. done.
    - done. }
  assert (Hkeep : ∀ a k f' fn', declares w a k f' fn' → declares w' a k f' fn').
  { intros a' k' f' fn' (D1 & D2 & D3 & D4). split; [|done]. cbn. rewrite lookup_alter_ne; [done|]. congruence. }
  assert (Hback : ∀ a k f' fn', declares w' a k f' fn' → declares w a k f' fn').
  { intros a' k' f' fn' (D1 & D2 & D3 & D4). split; [|done]. cbn in D1. destruct (decide (f = f')) as [<-|Hne'].
    - rewrite lookup_alter_eq, Hfn in D1. injection D1 as <-. cbn in D4. congruence.
    - by rewrite lookup_alter_ne in D1. }
  assert (Hfind : ∀ a, findBaseTypeTraverse (w_types w') (S c) c a = findBaseTypeTraverse (w_types w) (S c) c a).
  { intros a'. apply (find_agree _ _ (λ _, True)); [done| |done]. intros t _. unfold w'. cbn [w_types].
    destruct (decide (t = c)) as [->|Ht]; [|by rewrite lookup_alter_ne]. by rewrite lookup_alter_eq, Hd. }
  assert (Hother : ∀ f', f' ≠ f → w_functions w' !! f' = w_functions w !! f').
  { intros f' Hf'. unfold w'. cbn [w_functions]. by rewrite lookup_alter_ne. }
  assert (Hself : w_functions w' !! f = Some (g fn)) by (unfold w'; cbn [w_functions]; by rewrite lookup_alter_eq, Hfn).
  assert (Hov : ∀ q g, override_ok w c q g → g ≠ f → override_ok w' c q g).
  { intros q0 g0 (fn0 & a0 & k0 & co0 & st0 & V1 & V2 & V3 & V4 & V5 & V6) Hgf. exists fn0, a0, k0, co0, st0.
    rewrite Hother, Hfind by done. done. }
  split.
  - eapply frame_trans; [|exact Hfr]. eapply frame_weaken; [|apply Hp]. set_solver.
  - apply Hp.
  - apply Hp.
  - exists (g' d). split; [cbn; by rewrite lookup_alter_eq, Hd|]. destruct Htb as [T1 T2 T3 T4 T5 T6]. split; try done.
    + cbn. rewrite T1, zip_with_app by (by eapply Forall2_length, ph_overrides). unfold overridden. by rewrite foldl_app.
    + eapply (typed_insert (w_functions w)); [exact T2|exact Hq| |exact Hnov|done|done|].
      * intros f' Hf'. cbn. by rewrite lookup_alter_ne.
      * cbn. rewrite lookup_alter_eq, Hfn, Hentry. cbn. by rewrite <- Hslot.
    + destruct T3 as (l & Hl & Hll). exists l. split; [done|]. apply Forall2_same_length_lookup_2; [by eapply Forall2_length|].
      intros i x y Hx Hy. pose proof (Forall2_lookup_lr _ _ _ _ _ _ Hll Hx Hy) as Hr. cbn. rewrite lookup_alter_ne; [exact Hr|].
      intros <-. apply Hn, elem_of_app. left. by eapply list_elem_of_lookup_2.
  - apply Forall2_app.
    + apply Forall2_same_length_lookup_2; [by eapply Forall2_length, Hp|]. intros i x y Hx Hy.
      apply Hov; [by eapply (Forall2_lookup_lr _ _ _ _ _ _ (ph_overrides _ _ _ _ _ Hp))|].
      intros ->. apply Hn, elem_of_app. right. by eapply list_elem_of_lookup_2.
    + constructor; [|constructor]. exists (g fn), a, k, coord, start. rewrite Hself, Hfind. done.
  - intros j f' Hj. destruct (ph_own _ _ _ _ _ Hp j f' Hj) as (fn' & Hd'). exists fn'. by apply Hkeep.
  - intros k' f' fn' Hd'. apply (ph_declared _ _ _ _ _ Hp k' f' fn'). by apply Hback.
  - intros g0 fn0 a0 Hg0 Ha0. cbn in Hg0. destruct (decide (f = g0)) as [<-|Hne'].
    + rewrite lookup_alter_eq, Hfn in Hg0. injection Hg0 as <-. cbn in Ha0. injection Ha0 as <-. split; [done|].
      exists k, fd, fnd. split; [done|]. split; [by apply Hkeep|split; [exact Hslot|split; [exact Htharg|]]].
      intros N. apply (frame_named _ _ _ _ Hfr) in N. cbn. by rewrite <- (Hlink N), (Hname N).
    + rewrite lookup_alter_ne in Hg0 by done. destruct (ph_origin _ _ _ _ _ Hp g0 fn0 a0 Hg0 Ha0) as (H1 & k1 & f1 & fn1 & H2 & H3 & H4 & H5 & H6).
      split; [done|]. exists k1, f1, fn1. split; [done|]. split; [by apply Hkeep|]. split; [done|]. split; [done|].
      intros N. by eapply H6, frame_named.
Qed.

Lemma overrides_ok l : ∀ props own qs ovs w w', for_each l (overrideVirtualFunction c) w = inl (tt, w') → phase props own qs ovs w →
  (∀ f, f ∈ l → f ∈ owned w0 d0) → NoDup (own ++ ovs ++ l) → ∃ qs', phase props own qs' (ovs ++ l) w'.
Proof.
  induction l as [|f l IH]; intros props own qs ovs w w' H Hp Hl Hnd; cbn [for_each] in H.
  { apply mret_inv in H as [_ <-]. rewrite app_nil_r. eauto. }
  apply cbind_inv in H as ([] & w1 & H1 & H).
  destruct (overrideVirtualFunction_ok _ _ _ _ _ _ _ H1 Hp) as (q & Hp1); [apply Hl; left| |].
  - intros Hin. rewrite app_assoc in Hnd. apply NoDup_app in Hnd as (_ & Hnd & _). apply (Hnd f Hin). left.
  - destruct (IH _ _ _ _ _ _ H Hp1) as (qs' & Hp2); [intros f' Hf'; apply Hl; by right|by rewrite <- !app_assoc|].
    exists qs'. by rewrite <- app_assoc in Hp2.
Qed.
End layout.
