(* ===== verification/ClassVtableInvariant.v ===== *)
(** * Class types: every layout keeps the invariant

    [ClassVtable.calcLayout] as a whole, on top of its phases. *)

From S2P Require Import Prelude StructLayout ClassVtable ClassVtableSpec ClassVtableInv ClassVtableLayout.

Open Scope nat_scope.

(** ** Stores that agree *)

Lemma base_vtables_agree types types' l : (∀ t, t ∈ l → core <$> types' !! t = core <$> types !! t) →
  base_vtables types' l = base_vtables types l ∧ base_slot_types types' l = base_slot_types types l.
Proof.
  unfold base_vtables, base_slot_types. induction l as [|t l IH]; intros Hl; [done|]. cbn.
  destruct IH as [-> ->]; [intros t' Ht'; apply Hl; by right|]. pose proof (Hl t ltac:(left)) as Ht. unfold base_vtable.
  destruct (types !! t) as [d|], (types' !! t) as [d'|]; try done. apply (inj Some) in Ht.
  rewrite (f_equal d_typeKind Ht : d_typeKind d' = d_typeKind d), (f_equal d_vtable Ht : d_vtable d' = d_vtable d),
    (f_equal d_vtableStructType Ht : d_vtableStructType d' = d_vtableStructType d). done.
Qed.

Lemma is_class_agree types types' t : core <$> types' !! t = core <$> types !! t → is_class types' t = is_class types t.
Proof.
  unfold is_class. intros Ht. destruct (types !! t) as [d|], (types' !! t) as [d'|]; try done. apply (inj Some) in Ht.
  by rewrite (f_equal d_typeKind Ht : d_typeKind d' = d_typeKind d).
Qed.

Lemma accessors_static p p' : pstatic p' = pstatic p → accessors p' = accessors p.
Proof. intros H. exact (f_equal accessors H). Qed.

Lemma owned_agree w w' d d' : (∀ p, pstatic <$> w_properties w' !! p = pstatic <$> w_properties w !! p) →
  d_virtualPropertyArray d' = d_virtualPropertyArray d → d_virtualMethodArray d' = d_virtualMethodArray d →
  d_overrideMethodArray d' = d_overrideMethodArray d → owned w' d' = owned w d.
Proof.
  intros Hp H1 H2 H3. unfold owned. rewrite H1, H2, H3. f_equal. f_equal. apply map_ext. intros p. unfold property_accessors.
  specialize (Hp p). destruct (w_properties w !! p), (w_properties w' !! p); try done. apply (inj Some) in Hp. by apply accessors_static.
Qed.

Lemma vt_part_cstatic d d' : vt_part d' = vt_part d → cstatic d' = cstatic d ∧ d_vtable d' = d_vtable d ∧
  d_vtableStructType d' = d_vtableStructType d ∧ d_baseTypeMap d' = d_baseTypeMap d ∧
  d_classBaseTypeArray d' = d_classBaseTypeArray d ∧ s_vtableIndex <$> d_baseTypeList d' = s_vtableIndex <$> d_baseTypeList d.
Proof.
  intros H. split; [exact (f_equal (λ x, x.1.1.1.1.1) H)|]. split; [exact (f_equal (λ x, x.1.1.1.1.2) H)|].
  split; [exact (f_equal (λ x, x.1.1.1.2) H)|]. split; [exact (f_equal (λ x, x.1.1.2) H)|].
  split; [exact (f_equal (λ x, x.1.2) H)|exact (f_equal (λ x, x.2) H)].
Qed.

Lemma cstatic_arrays d d' : cstatic d' = cstatic d → d_virtualPropertyArray d' = d_virtualPropertyArray d ∧
  d_virtualMethodArray d' = d_virtualMethodArray d ∧ d_overrideMethodArray d' = d_overrideMethodArray d ∧
  d_typeKind d' = d_typeKind d ∧ d_layoutReady d' = d_layoutReady d ∧ s_type <$> d_baseTypeList d' = s_type <$> d_baseTypeList d.
Proof.
  intros H. split; [exact (f_equal (λ x, x.1.1.1.1.2.1.1) H)|]. split; [exact (f_equal (λ x, x.1.1.1.1.2.1.2) H)|].
  split; [exact (f_equal (λ x, x.1.1.1.1.2.2) H)|]. split; [exact (f_equal (λ x, x.1.1.1.1.1.1) H)|].
  split; [exact (f_equal (λ x, x.1.1.1.2) H)|exact (f_equal (λ x, x.1.1.1.1.1.2) H)].
Qed.

(** ** The beginning *)

Section whole.
Context `{Axl} (E : env) (IfaceHdr BoxType : type).
Variables (w0 : World) (c : nat) (d0 : DerivableType).
Hypothesis W : world_ok w0.
Hypothesis Hd0 : w_types w0 !! c = Some d0.
Hypothesis Hnr : d_layoutReady d0 = false.

Let ts := s_type <$> d_baseTypeList d0.

Lemma ifaceHdr_ok w : layout_ifaceHdr IfaceHdr c w0 = inl (tt, w) → bases_done w0 c ts 0 w.
Proof.
  intros H0. assert (Hw : only_class c w0 w ∧ ∃ d, w_types w !! c = Some d ∧ vt_part d = vt_part d0).
  { unfold layout_ifaceHdr in H0. apply cbind_inv in H0 as (d & w1 & H1 & H0). apply get_type_inv in H1 as [Hd ->].
    assert (d = d0) as -> by congruence. destruct (d_baseTypeList d0) as [|slot l].
    - apply cbind_inv in H0 as (k & w1 & H1 & H0). apply mret_inv in H0 as [_ <-].
      destruct (iface_addBaseType_inv _ _ _ _ _ _ H1 Hd0) as [O D]. split; [done|]. by eexists.
    - apply cbind_inv in H0 as (t & w1 & H1 & H0). apply get_type_inv in H1 as [_ ->].
      apply cbind_inv in H0 as ([] & w1 & H1 & H0). apply require_inv in H1 as [_ ->]. case_decide as Hkind.
      + apply mret_inv in H0 as [_ <-]. split; [done|]. by eexists.
      + apply cbind_inv in H0 as (k & w1 & H1 & H0). apply mret_inv in H0 as [_ <-].
        destruct (iface_addBaseType_inv _ _ _ _ _ _ H1 Hd0) as [O D]. split; [done|]. by eexists. }
  destruct Hw as [(O1 & O2 & O3) (d & Hd & Hvt)]. destruct (vt_part_cstatic _ _ Hvt) as (V1 & V2 & V3 & V4 & V5 & V6).
  destruct (fc_vtable _ _ _ (wo_fresh w0 W c d0 Hd0 Hnr)) as (F1 & F2 & F3 & F4).
  split; [by eapply only_class_frame|done|done|done|by intros t Ht%not_elem_of_nil|].
  exists d. split; [done|]. rewrite V2, V4, V5, F1, F3, F4. split; [done|]. split; [unfold vtable_typed; by rewrite V3, F2, V2|].
  split; [by rewrite V3, F2|]. split; [apply (cstatic_arrays _ _ V1)|]. split; [lia|]. split; [|done].
  intros a j. rewrite lookup_empty. split; [done|lia].
Qed.

Lemma bases_phase w w' : bases_done w0 c ts (length ts) w → quiet c w w' → phase w0 c d0 [] [] [] [] w'.
Proof.
  intros [B1 B2 B3 B4 B5 (d & Hd & C1 & C2 & C3 & C4 & C5 & C6 & C7)] Q. destruct (quiet_self _ _ _ _ Q Hd) as (d' & Hd' & Hvt).
  destruct (vt_part_cstatic _ _ Hvt) as (V1 & V2 & V3 & V4 & V5 & V6).
  assert (Hfr : frame c [] w0 w') by (eapply frame_trans; [exact B1|by apply quiet_frame]).
  assert (Hts : s_type <$> d_baseTypeList d' = ts) by (rewrite <- C4; apply (cstatic_arrays _ _ V1)).
  rewrite take_ge in C1, C3, B5 by done.
  assert (Hdec : ∀ k f fn, ¬ declares w' c k f fn).
  { intros k f fn (D1 & D2 & _). rewrite (q_functions _ _ _ Q), B3 in D1.
    destruct (wo_origin w0 W f fn c D1 D2) as [Hl _]. by apply (not_laid w0 c d0). }
  split.
  - done.
  - intros p _. by rewrite (q_properties _ _ _ Q), B4.
  - exact B5.
  - exists d'. split; [done|]. split.
    + cbn. by rewrite V2, C1, app_nil_r.
    + rewrite (q_functions _ _ _ Q), B3. unfold vtable_typed in *. by rewrite V2, V3.
    + exists []. rewrite V3, C3, app_nil_r. split; [done|constructor].
    + intros j s Hj Hs. assert (Hlt : j < length ts) by (rewrite <- Hts, length_fmap; by eapply lookup_lt_Some).
      pose proof (f_equal (.!! j) V6) as Hv. cbn in Hv. rewrite !list_lookup_fmap, Hj in Hv. cbn in Hv.
      destruct (d_baseTypeList d !! j) as [s'|] eqn:Hj'; [|done]. cbn in Hv. injection Hv as ->. apply (C5 j s'); [done|done|].
      assert (Hss : s_type s' = s_type s).
      { pose proof (f_equal (.!! j) (eq_trans Hts (eq_sym C4))) as He. cbn in He. rewrite !list_lookup_fmap, Hj, Hj' in He. by injection He. }
      by rewrite Hss.
    + intros a j. rewrite V4, C6. split; [by intros [_ ?]|]. intros Hj. split; [by eapply lookup_lt_Some|done].
    + by rewrite V5, C7.
  - constructor.
  - done.
  - intros k f fn Hf. by apply Hdec in Hf.
  - intros g fn a Hg Ho. rewrite (q_functions _ _ _ Q), B3 in Hg.
    destruct (wo_origin w0 W g fn a Hg Ho) as (Hl & k & f & fnf & H1 & (D1 & D2) & H3 & H4 & H5). split; [by left|]. exists k, f, fnf. split; [done|].
    split; [split; [by rewrite (q_functions _ _ _ Q), B3|done]|]. split; [done|]. split; [done|]. intros N. by eapply H5, frame_named.
Qed.

Lemma phase_struct props own w : phase w0 c d0 props own [] [] w →
  phase w0 c d0 props own [] [] (mkWorld (w_functions w) (w_properties w) (alter getVtableStructType c (w_types w))).
Proof.
  intros Hp. destruct (ph_class _ _ _ _ _ _ _ _ Hp) as (d & Hd & [T1 T2 T3 T4 T5 T6]).
  assert (Hg : ∀ x, same_bases x (getVtableStructType x) ∧ d_vtable (getVtableStructType x) = d_vtable x ∧
    default [] (d_vtableStructType (getVtableStructType x)) = default [] (d_vtableStructType x)).
  { intros x. unfold getVtableStructType. destruct (d_vtableStructType x) eqn:Hx; [by rewrite Hx|done]. }
  destruct (Hg d) as ((S1 & S2 & S3 & S4) & S5 & S6). destruct Hp as [P1 P2 P3 P4 P5 P6 P7 P8]. split; cbn; try done.
  - eapply frame_trans; [exact P1|]. eapply frame_weaken; [|apply frame_upd_type; intros x; apply Hg]. set_solver.
  - exists (getVtableStructType d). split; [by rewrite lookup_alter_eq, Hd|]. split.
    + by rewrite S5.
    + unfold vtable_typed in *. unfold getVtableStructType. destruct (d_vtableStructType d) eqn:Hx; [by rewrite Hx|]. cbn. by rewrite T2.
    + destruct T3 as (l & Hl & Hf). exists l. by rewrite S6.
    + by rewrite S3.
    + by rewrite S2.
    + by rewrite S4.
  - intros g fn a Hg' Ha. destruct (P8 g fn a Hg' Ha) as (H1 & k & f & fnf & H2 & H3 & H4 & H5 & H6). split; [done|].
    exists k, f, fnf. repeat (split; [done|]). intros N. apply H6. eapply frame_named; [|exact N].
    apply frame_upd_type. intros x. apply Hg.
Qed.

(** ** The end *)

Section finish.
Variables (props own qs : list nat) (w : World).
Let ovs := d_overrideMethodArray d0.
Hypothesis Hp : phase w0 c d0 props own qs ovs w.
Hypothesis Hown : own ++ ovs = owned w0 d0.
Hypothesis Hprops : ∀ p, p ∈ props → p ∈ d_virtualPropertyArray d0.

Let w' := mkWorld (w_functions w) (w_properties w) (alter (d_set_layoutReady true) c (w_types w)).

Lemma fin_core t : t ≠ c → core <$> w_types w' !! t = core <$> w_types w0 !! t.
Proof. intros Ht. unfold w'. cbn [w_types]. rewrite lookup_alter_ne by done. by eapply phase_type. Qed.

Lemma fin_type t d : t ≠ c → w_types w' !! t = Some d → ∃ d1, w_types w0 !! t = Some d1 ∧ core d = core d1.
Proof.
  intros Ht Hd. pose proof (fin_core t Ht) as H0. rewrite Hd in H0. destruct (w_types w0 !! t) as [d1|]; [|done].
  apply (inj Some) in H0. eauto.
Qed.

Lemma fin_type_back t d1 : t ≠ c → w_types w0 !! t = Some d1 → ∃ d, w_types w' !! t = Some d ∧ core d = core d1.
Proof.
  intros Ht Hd. pose proof (fin_core t Ht) as H0. rewrite Hd in H0. destruct (w_types w' !! t) as [d|]; [|done].
  apply (inj Some) in H0. eauto.
Qed.

Lemma fin_self : ∃ d, w_types w !! c = Some d ∧ w_types w' !! c = Some (d_set_layoutReady true d) ∧ cstatic d = cstatic d0 ∧
  tables w0 d0 own qs ovs w d.
Proof.
  destruct (phase_self _ _ _ Hd0 _ _ _ _ _ Hp) as (d & Hd & Hs & Ht). exists d. split; [done|].
  split; [unfold w'; cbn [w_types]; by rewrite lookup_alter_eq, Hd|done].
Qed.

Lemma fin_pstatic p : pstatic <$> w_properties w' !! p = pstatic <$> w_properties w0 !! p.
Proof. apply (fr_properties _ _ _ _ (ph_frame _ _ _ _ _ _ _ _ Hp)). Qed.

Lemma fin_owned t d : w_types w' !! t = Some d → ∃ d1, w_types w0 !! t = Some d1 ∧ owned w' d = owned w0 d1.
Proof.
  intros Hd. destruct (decide (t = c)) as [->|Ht].
  - destruct fin_self as (dd & _ & Hdd & Hs & _). assert (d = d_set_layoutReady true dd) as -> by congruence.
    exists d0. split; [done|]. destruct (cstatic_arrays _ _ Hs) as (A1 & A2 & A3 & _). by apply owned_agree; [apply fin_pstatic|..].
  - destruct (fin_type t d Ht Hd) as (d1 & Hd1 & Hc). exists d1. split; [done|].
    apply owned_agree; [apply fin_pstatic|exact (f_equal d_virtualPropertyArray Hc)|exact (f_equal d_virtualMethodArray Hc)|
      exact (f_equal d_overrideMethodArray Hc)].
Qed.

(** A function that is not one of the class is as it was. *)
Lemma fin_names : same_names w w'.
Proof.
  split; [|done|done]. intros t. unfold w'. cbn [w_types]. destruct (decide (t = c)) as [->|Ht]; [|by rewrite lookup_alter_ne].
  rewrite lookup_alter_eq. by destruct (w_types w !! c).
Qed.

Lemma fin_function f : f ∉ owned w0 d0 → w_functions w' !! f = w_functions w0 !! f.
Proof. rewrite <- Hown. apply (fr_functions _ _ _ _ (ph_frame _ _ _ _ _ _ _ _ Hp)). Qed.

Lemma origin_not_owned f : has_origin w0 f → f ∉ owned w0 d0.
Proof.
  intros (fn & a & H1 & H2) Hf. destruct (fc_functions _ _ _ (wo_fresh w0 W c d0 Hd0 Hnr) f Hf) as (fn' & H3 & H4 & _). congruence.
Qed.

Lemma fin_declares a k f fn : a ≠ c → declares w' a k f fn ↔ declares w0 a k f fn.
Proof.
  intros Ha. split; [intros Hd; by eapply (declares_before w0 c d0)|]. intros (D1 & D2 & D3). split; [|done].
  rewrite fin_function; [done|]. apply origin_not_owned. by exists fn, a.
Qed.

Lemma fin_vtables l : c ∉ l → base_vtables (w_types w') l = base_vtables (w_types w0) l ∧
  base_slot_types (w_types w') l = base_slot_types (w_types w0) l.
Proof. intros Hc. apply base_vtables_agree. intros t Ht. apply fin_core. by intros ->. Qed.

Lemma fin_is_class t : is_class (w_types w') t = is_class (w_types w0) t.
Proof.
  destruct (decide (t = c)) as [->|Ht]; [|by apply is_class_agree, fin_core].
  destruct fin_self as (d & _ & Hd & Hs & _). rewrite (is_class_kind _ _ _ Hd), (is_class_kind _ _ _ Hd0). cbn.
  by rewrite (proj1 (proj2 (proj2 (proj2 (cstatic_arrays _ _ Hs))))).
Qed.

Lemma fin_find t a : ready w0 t → findBaseTypeTraverse (w_types w') (S t) t a = findBaseTypeTraverse (w_types w0) (S t) t a.
Proof.
  intros Hr. apply (find_agree (w_types w0) (w_types w') (ready w0)); [by intros; eapply ready_closed| |done].
  intros t' Hr'. assert (Ht : t' ≠ c) by (by eapply (ready_ne w0 c d0)). pose proof (fin_core t' Ht) as H0.
  destruct (w_types w' !! t'), (w_types w0 !! t'); try done. apply (inj Some) in H0. cbn. f_equal. by apply base_part_core.
Qed.

Lemma fin_base_ready t d : t < c ∨ t ≠ c → w_types w0 !! t = Some d → d_layoutReady d = true → d_typeKind d ≠ TypeKind_Other →
  ∃ d', w_types w' !! t = Some d' ∧ d_layoutReady d' = true ∧ d_typeKind d' ≠ TypeKind_Other.
Proof.
  intros Ht Hd Hr Hk. destruct (fin_type_back t d) as (d' & Hd' & Hc); [lia|done|]. exists d'. split; [done|].
  rewrite (f_equal d_layoutReady Hc : d_layoutReady d' = d_layoutReady d), (f_equal d_typeKind Hc : d_typeKind d' = d_typeKind d). done.
Qed.

(** The base types of a laid out type are not the class. *)
Lemma base_not_c t d : ready w0 t → w_types w0 !! t = Some d → c ∉ s_type <$> d_baseTypeList d.
Proof.
  intros Hr Hd Hc. apply list_elem_of_fmap in Hc as (s & Hs & Hin).
  by eapply (ready_ne w0 c d0 Hd0 Hnr (s_type s)); [by eapply ready_closed|].
Qed.

Lemma fin_class t d1 d : t ≠ c → w_types w0 !! t = Some d1 → w_types w' !! t = Some d → core d = core d1 →
  d_typeKind d = TypeKind_Class → d_layoutReady d = true → ∃ own qs, class_ok w' t d own qs (d_overrideMethodArray d).
Proof.
  intros Ht Hd1 Hd Hc Hk Hr. rewrite (f_equal d_typeKind Hc : d_typeKind d = d_typeKind d1) in Hk.
  rewrite (f_equal d_layoutReady Hc : d_layoutReady d = d_layoutReady d1) in Hr.
  destruct (wo_class w0 W t d1 Hd1 Hk Hr) as (own1 & qs1 & [[B1 B2 B3 B4] C2 C3 C4 C5 (l & C6 & C6') C7 C8]). exists own1, qs1.
  assert (Hrd : ready w0 t) by (by exists d1). pose proof (base_not_c t d1 Hrd Hd1) as Hnc.
  assert (Hnt : ∀ i, c ∉ take i (s_type <$> d_baseTypeList d1)).
  { intros i Hi. apply Hnc. apply list_elem_of_lookup in Hi as [j Hj]. apply lookup_take_Some in Hj as [Hj _].
    by eapply list_elem_of_lookup_2. }
  assert (El : d_baseTypeList d = d_baseTypeList d1) by exact (f_equal d_baseTypeList Hc).
  assert (Hfn : ∀ f, has_origin w0 f → w_functions w' !! f = w_functions w0 !! f) by (intros f Hf; by apply fin_function, origin_not_owned).
  rewrite (f_equal d_overrideMethodArray Hc : d_overrideMethodArray d = d_overrideMethodArray d1). split.
  - split; rewrite ?El.
    + intros s Hs. destruct (B1 s Hs) as (H1 & dt & H2 & H3 & H4). split; [done|]. apply (fin_base_ready _ dt); try done.
      right. intros Heq. apply Hnc, list_elem_of_fmap. by exists s.
    + intros i s Hs Hcl. rewrite fin_is_class in Hcl. rewrite (proj1 (fin_vtables _ (Hnt i))). by apply B2.
    + intros a i. rewrite (f_equal d_baseTypeMap Hc : d_baseTypeMap d = d_baseTypeMap d1). apply B3.
    + rewrite (f_equal d_classBaseTypeArray Hc : d_classBaseTypeArray d = d_classBaseTypeArray d1), B4. apply list_filter_iff.
      intros j. destruct (_ !! j) as [x|]; [|done]. cbn. by rewrite fin_is_class.
  - rewrite El, (proj1 (fin_vtables _ Hnc)). by rewrite (f_equal d_vtable Hc : d_vtable d = d_vtable d1).
  - eapply Forall2_impl; [exact C3|]. intros q g (fn & a & k & co & st & O1 & O2 & O3 & O4 & O5 & O6).
    exists fn, a, k, co, st. rewrite Hfn by (by exists fn, a). rewrite fin_find by done. done.
  - intros j f Hj. destruct (C4 j f Hj) as (fn & Hdec). exists fn. apply fin_declares; [done|].
    rewrite El, (proj1 (fin_vtables _ Hnc)). done.
  - intros k f fn Hdec. apply fin_declares in Hdec; [|done]. rewrite El, (proj1 (fin_vtables _ Hnc)). by eapply C5.
  - exists l. rewrite El, (proj2 (fin_vtables _ Hnc)), (f_equal d_vtableStructType Hc : d_vtableStructType d = d_vtableStructType d1).
    split; [done|]. apply Forall2_same_length_lookup_2; [by eapply Forall2_length|]. intros i x y Hx Hy.
    rewrite Hfn; [exact (Forall2_lookup_lr _ _ _ _ _ _ C6' Hx Hy)|]. destruct (C4 i x Hx) as (fn & D1 & D2 & _). by exists fn, t.
  - pose proof (entries_origin w0 W t d1) as He. unfold vtable_typed in *.
    rewrite (f_equal d_vtableStructType Hc : d_vtableStructType d = d_vtableStructType d1), (f_equal d_vtable Hc : d_vtable d = d_vtable d1).
    destruct (d_vtableStructType d1); [|done]. apply Forall2_same_length_lookup_2; [by eapply Forall2_length|]. intros i x y Hx Hy.
    rewrite Hfn; [exact (Forall2_lookup_lr _ _ _ _ _ _ C7 Hx Hy)|]. apply He; [done..|by eapply list_elem_of_lookup_2].
  - destruct (fin_owned t d Hd) as (d2 & Hd2 & ->). congruence.
Qed.

Lemma fin_class_self d : w_types w' !! c = Some d → ∃ own qs, class_ok w' c d own qs (d_overrideMethodArray d).
Proof.
  intros Hd. destruct fin_self as (dd & Hdd & Hd' & Hs & [T1 T2 (l & T3 & T3') T4 T5 T6]).
  assert (d = d_set_layoutReady true dd) as -> by congruence. exists own, qs. clear Hd'.
  destruct (cstatic_arrays _ _ Hs) as (_ & _ & A3 & _ & _ & A6).
  assert (Hlt : ∀ s, s ∈ d_baseTypeList dd → s_type s < c).
  { intros s Hs'. assert (Hin : s_type s ∈ ts) by (unfold ts; rewrite <- A6; apply list_elem_of_fmap; by exists s).
    apply list_elem_of_fmap in Hin as (s' & -> & Hs''). by apply (fc_bases _ _ _ (wo_fresh w0 W c d0 Hd0 Hnr)). }
  assert (Hnc : c ∉ s_type <$> d_baseTypeList dd).
  { intros (s & Heq & Hin)%list_elem_of_fmap. pose proof (Hlt s Hin). lia. }
  assert (Hnt : ∀ i, c ∉ take i (s_type <$> d_baseTypeList dd)).
  { intros i Hi. apply Hnc. apply list_elem_of_lookup in Hi as [j Hj]. apply lookup_take_Some in Hj as [Hj _].
    by eapply list_elem_of_lookup_2. }
  pose proof (fin_vtables _ Hnc) as [V1 V2]. rewrite A6 in V1, V2.
  cbn [d_overrideMethodArray d_set_layoutReady]. rewrite A3.
  split; cbn [d_baseTypeList d_set_layoutReady d_vtable d_vtableStructType]; rewrite ?A6, ?V1, ?V2; try done.
  - split; cbn [d_baseTypeList d_set_layoutReady d_baseTypeMap d_classBaseTypeArray]; rewrite ?A6.
    + intros s Hin. split; [by apply Hlt|]. destruct (ph_ready _ _ _ _ _ _ _ _ Hp (s_type s)) as (dt & H1 & H2 & H3).
      { rewrite <- A6. apply list_elem_of_fmap. by exists s. }
      eapply fin_base_ready; [left; by apply Hlt|done..].
    + intros i s Hi Hcl. rewrite fin_is_class in Hcl. specialize (Hnt i). rewrite A6 in Hnt.
      rewrite (proj1 (fin_vtables _ Hnt)). by apply T4.
    + done.
    + rewrite T6. rewrite <- (length_fmap s_type (d_baseTypeList dd)), A6. apply list_filter_iff.
      intros j. destruct (_ !! j) as [x|]; [|done]. cbn. by rewrite fin_is_class.
  - eapply Forall2_impl; [exact (ph_overrides _ _ _ _ _ _ _ _ Hp)|]. intros q g (fn & a & k & co & st & O1 & O2 & O3 & O4 & O5 & O6).
    exists fn, a, k, co, st. split; [done|]. split; [done|]. split; [done|]. split; [done|]. split; [|done].
    rewrite <- O5. apply (find_agree _ _ (λ _, True)); [done| |done]. intros t _. unfold w'. cbn [w_types].
    destruct (decide (t = c)) as [->|Ht]; [|by rewrite lookup_alter_ne]. by rewrite lookup_alter_eq, Hdd.
  - exact (ph_own _ _ _ _ _ _ _ _ Hp).
  - exact (ph_declared _ _ _ _ _ _ _ _ Hp).
  - eauto.
  - destruct (fin_owned c _ Hd) as (d2 & Hd2 & ->). assert (d2 = d0) as -> by congruence. done.
Qed.

Lemma fin_fresh t d1 d : t ≠ c → w_types w0 !! t = Some d1 → w_types w' !! t = Some d → core d = core d1 →
  d_layoutReady d = false → fresh_class w' t d.
Proof.
  intros Ht Hd1 Hd Hc Hr. rewrite (f_equal d_layoutReady Hc : d_layoutReady d = d_layoutReady d1) in Hr.
  destruct (wo_fresh w0 W t d1 Hd1 Hr) as [F1 (F2 & F3 & F4 & F5) F6 F7 F8 F9].
  assert (Hdisj : ∀ f, f ∈ owned w0 d1 → w_functions w' !! f = w_functions w0 !! f).
  { intros f Hf. apply fin_function. by apply (wo_disjoint w0 W t c d1 d0). }
  assert (Hacc : ∀ p, property_accessors w' p = property_accessors w0 p).
  { intros p. unfold property_accessors. pose proof (fin_pstatic p) as H0.
    destruct (w_properties w' !! p), (w_properties w0 !! p); try done. apply (inj Some) in H0. by apply accessors_static. }
  assert (Ep : d_virtualPropertyArray d = d_virtualPropertyArray d1) by exact (f_equal d_virtualPropertyArray Hc).
  assert (Hin : ∀ p f, p ∈ d_virtualPropertyArray d1 → f ∈ property_accessors w0 p → f ∈ owned w0 d1).
  { intros p f Hp' Hf. apply elem_of_app. left. apply list_elem_of_In, in_concat. exists (property_accessors w0 p).
    split; [apply in_map; by apply list_elem_of_In|by apply list_elem_of_In]. }
  split.
  - by rewrite (f_equal d_typeKind Hc : d_typeKind d = d_typeKind d1).
  - rewrite (f_equal d_vtable Hc : d_vtable d = d_vtable d1), (f_equal d_vtableStructType Hc : d_vtableStructType d = d_vtableStructType d1),
      (f_equal d_baseTypeMap Hc : d_baseTypeMap d = d_baseTypeMap d1),
      (f_equal d_classBaseTypeArray Hc : d_classBaseTypeArray d = d_classBaseTypeArray d1). done.
  - rewrite (f_equal d_baseTypeList Hc : d_baseTypeList d = d_baseTypeList d1). done.
  - intros f Hf. destruct (fin_owned t d Hd) as (d1' & Hd1' & Ho). assert (d1' = d1) as -> by congruence. rewrite Ho in Hf.
    rewrite Hdisj by done. by apply F7.
  - intros p f Hpa Hf. rewrite Ep in Hpa. rewrite Hacc in Hf. rewrite Hdisj by (by apply (Hin p)). by apply (F8 p).
  - intros p Hpa. rewrite Ep in Hpa. destruct (F9 p Hpa) as (pr & Hpr & Hv). exists pr. split; [|done].
    cbn [w' w_properties]. rewrite (ph_properties _ _ _ _ _ _ _ _ Hp); [done|]. intros Hp'. apply Hprops in Hp'.
    assert (Hg : p_getter pr ∈ property_accessors w0 p).
    { unfold property_accessors. rewrite Hpr. cbn. unfold accessors. apply elem_of_app. right. left. }
    apply (wo_disjoint w0 W t c d1 d0 (p_getter pr)); [done..|by apply (Hin p)|by apply (accessors_owned w0 d0 p)].
Qed.

Lemma fin_struct t d1 d : t ≠ c → w_types w0 !! t = Some d1 → core d = core d1 → d_typeKind d ≠ TypeKind_Class → struct_ok w' d.
Proof.
  intros Ht Hd1 Hc Hk. rewrite (f_equal d_typeKind Hc : d_typeKind d = d_typeKind d1) in Hk.
  destruct (wo_struct w0 W t d1 Hd1 Hk) as [S1 S2 S3 S4].
  assert (El : d_baseTypeList d = d_baseTypeList d1) by exact (f_equal d_baseTypeList Hc). split; rewrite ?El.
  - intros s Hs. destruct (S1 s Hs) as (H1 & dt & H2 & H3). rewrite fin_is_class. split; [done|].
    destruct (fin_type_back (s_type s) dt) as (dt' & Hdt' & Hct); [by eapply (ready_ne w0 c d0); [..|by exists dt]|done|].
    exists dt'. by rewrite (f_equal d_layoutReady Hct : d_layoutReady dt' = d_layoutReady dt).
  - rewrite (f_equal d_baseTypeMap Hc : d_baseTypeMap d = d_baseTypeMap d1). done.
  - by rewrite (f_equal d_layoutReady Hc : d_layoutReady d = d_layoutReady d1).
  - by rewrite (f_equal d_vtable Hc : d_vtable d = d_vtable d1), (f_equal d_vtableStructType Hc : d_vtableStructType d = d_vtableStructType d1).
Qed.

Lemma fin_laid a : laid w0 a ∨ a = c → laid w' a.
Proof.
  intros Ha. destruct (decide (a = c)) as [->|Hne].
  - destruct fin_self as (d & _ & Hd & Hs & _). exists (d_set_layoutReady true d). split; [done|]. split; [|done].
    cbn. by eapply cstatic_kind.
  - destruct Ha as [(d & H1 & H2 & H3)|?]; [|done]. destruct (fin_type_back a d Hne H1) as (d' & Hd' & Hc). exists d'. split; [done|].
    by rewrite (f_equal d_layoutReady Hc : d_layoutReady d' = d_layoutReady d), (f_equal d_typeKind Hc : d_typeKind d' = d_typeKind d).
Qed.

Lemma fin_ok : world_ok w'.
Proof.
  assert (Hself : ∀ d, w_types w' !! c = Some d → d_typeKind d = TypeKind_Class ∧ d_layoutReady d = true).
  { intros d Hd. destruct fin_self as (dd & _ & Hdd & Hs & _). assert (d = d_set_layoutReady true dd) as -> by congruence.
    split; [|done]. cbn. by eapply cstatic_kind. }
  split.
  - intros t d Hd Hk Hr. destruct (decide (t = c)) as [->|Ht]; [by apply fin_class_self|].
    destruct (fin_type t d Ht Hd) as (d1 & Hd1 & Hc). by eapply fin_class.
  - intros t d Hd Hr. destruct (decide (t = c)) as [->|Ht]; [destruct (Hself d Hd); congruence|].
    destruct (fin_type t d Ht Hd) as (d1 & Hd1 & Hc). by eapply fin_fresh.
  - intros t d Hd Hk. destruct (decide (t = c)) as [->|Ht]; [destruct (Hself d Hd); congruence|].
    destruct (fin_type t d Ht Hd) as (d1 & Hd1 & Hc). by eapply fin_struct.
  - intros g fn a Hg Ha. destruct (ph_origin _ _ _ _ _ _ _ _ Hp g fn a Hg Ha) as (H1 & k & f & fnf & H2 & H3 & H4 & H5 & H6).
    split; [by apply fin_laid|]. exists k, f, fnf. split; [done|]. split; [done|]. split; [done|]. split; [done|].
    intros N. apply H6. eapply named_same; [symmetry; apply fin_names|done].
  - intros t d Hd. destruct (fin_owned t d Hd) as (d1 & Hd1 & ->). by eapply wo_owned.
  - intros t t' d d' f Hd Hd' Hne. destruct (fin_owned t d Hd) as (d1 & Hd1 & ->). destruct (fin_owned t' d' Hd') as (d1' & Hd1' & ->).
    by eapply wo_disjoint.
  - intros t d f fn Hd Hf Hfn. destruct (fin_owned t d Hd) as (d1 & Hd1 & Ho). rewrite Ho in Hf.
    pose proof (fr_static _ _ _ _ (ph_frame _ _ _ _ _ _ _ _ Hp) f) as Hst. cbn [w' w_functions] in Hfn. rewrite Hfn in Hst.
    destruct (w_functions w0 !! f) as [fn1|] eqn:Hfn1; [|done]. apply (inj Some) in Hst.
    rewrite (f_equal fn_thisType Hst : fn_thisType fn = fn_thisType fn1). by eapply (wo_this w0 W).
Qed.
End finish.

(** A layout that succeeds keeps the invariant, and the class is laid out. *)
Lemma calcLayout_ok w' : calcLayout E IfaceHdr BoxType c w0 = inl (tt, w') → world_ok w' ∧ ready w' c ∧ same_names w0 w'.
Proof.
  unfold calcLayout. intros H0. apply cbind_inv in H0 as (d & w1 & H1 & H0). apply get_type_inv in H1 as [Hd ->].
  assert (d = d0) as -> by congruence.
  apply cbind_inv in H0 as ([] & w1 & H1 & H0). apply require_inv in H1 as [_ ->].
  apply cbind_inv in H0 as ([] & w1 & H1 & H0). apply ifaceHdr_ok in H1 as B0.
  apply cbind_inv in H0 as (ks & w2 & H2 & H0).
  assert (B1 : bases_done w0 c ts (0 + length (d_baseTypeList d0)) w2 ∧ length ks = length (d_baseTypeList d0)).
  { eapply bases_loop; [| |exact H2|exact B0]; [by intros; eapply ready_typed|by intros; congruence]. }
  destruct B1 as [B1 _]. cbn [Nat.add] in B1. rewrite <- (length_fmap s_type (d_baseTypeList d0)) in B1. clear H1 H2 B0.
  apply cbind_inv in H0 as ([] & w3 & H3 & H0). pose proof (quiet_layout_iface E c _ _ _ H3) as Q1.
  apply cbind_inv in H0 as (d3 & w4 & H4 & H0). apply get_type_inv in H4 as [_ ->].
  apply cbind_inv in H0 as ([] & w4 & H4 & H0). pose proof (is_quiet_for_each c _ _ (quiet_scan BoxType c) _ _ _ H4) as Q2.
  apply cbind_inv in H0 as ([] & w5 & H5 & H0). pose proof (is_quiet_for_each c _ _ (quiet_update_slot c) _ _ _ H5) as Q3.
  apply cbind_inv in H0 as ([] & w6 & H6 & H0). pose proof (quiet_layout_class E BoxType c _ _ _ H6) as Q4.
  pose proof (vt_quiet_trans _ _ _ _ (vt_quiet_trans _ _ _ _ (vt_quiet_trans _ _ _ _ Q1 Q2) Q3) Q4) as Q.
  pose proof (bases_phase _ _ B1 Q) as P6. clear H3 H4 H5 H6 Q1 Q2 Q3 Q4 Q B1 d3.
  apply cbind_inv in H0 as (d & w7 & H7 & H0). apply get_type_inv in H7 as [Hd6 ->].
  assert (Hs : cstatic d = cstatic d0).
  { destruct (phase_self _ _ _ Hd0 _ _ _ _ _ P6) as (d' & Hd' & Hs & _). congruence. }
  destruct (cstatic_arrays _ _ Hs) as (A1 & A2 & A3 & _). rewrite A1, A2, A3 in H0.
  apply cbind_inv in H0 as ([] & w7 & H7 & H0).
  assert (P7 : phase w0 c d0 [] [] [] [] w7 ∧ (d_virtualPropertyArray d0 ≠ [] → has_struct c w7)).
  { apply on_inv in H7 as [ [Hb H7]|[Hb ->] ].
    - apply upd_type_inv in H7 as ->. split; [by apply phase_struct|]. intros _. exists (getVtableStructType d).
      cbn. split; [by rewrite lookup_alter_eq, Hd6|]. unfold getVtableStructType. destruct (d_vtableStructType d) eqn:Hx; [by rewrite Hx|by eexists].
    - split; [done|]. intros Hne. apply orb_false_iff in Hb as [Hb _]. to_prop. done. }
  destruct P7 as [P7 Hst]. clear H7 P6.
  apply cbind_inv in H0 as ([] & w8 & H8 & H0).
  pose proof (wo_owned w0 W c d0 Hd0) as Hnd. unfold owned in Hnd.
  assert (P8 : ∃ props, phase w0 c d0 props (concat (map (property_accessors w0) (d_virtualPropertyArray d0))) [] [] w8 ∧
    ∀ p, p ∈ props → p ∈ d_virtualPropertyArray d0).
  { destruct (d_virtualPropertyArray d0) as [|p0 ps] eqn:Hps.
    - apply mret_inv in H8 as [_ <-]. exists []. split; [done|]. by intros p Hp%not_elem_of_nil.
    - rewrite <- Hps in *. destruct (properties_ok w0 c d0 W Hd0 Hnr (d_virtualPropertyArray d0) [] [] w7 w8) as (props & P8 & P8');
        [done|done|apply Hst; by rewrite Hps| | |by intros p Hp%not_elem_of_nil|].
      + intros p Hp. split; [done|apply not_elem_of_nil].
      + cbn. by apply NoDup_app in Hnd as (Hnd & _).
      + exists props. done. }
  destruct P8 as (props & P8 & Hprops). apply cbind_inv in H0 as ([] & w9 & H9 & H0).
  assert (P9 : phase w0 c d0 props (concat (map (property_accessors w0) (d_virtualPropertyArray d0)) ++ d_virtualMethodArray d0) [] [] w9).
  { apply (methods_ok w0 c d0 W Hd0 Hnr _ _ _ _ _ H9 P8).
    - intros f Hf. unfold owned. rewrite !elem_of_app. auto.
    - rewrite app_assoc in Hnd. by apply NoDup_app in Hnd as (Hnd & _). }
  apply cbind_inv in H0 as ([] & w10 & H10 & H0).
  destruct (overrides_ok w0 c d0 W Hd0 Hnr _ _ _ _ _ _ _ H10 P9) as (qs & P10).
  - intros f Hf. unfold owned. rewrite !elem_of_app. auto.
  - cbn. by rewrite <- app_assoc.
  - apply cbind_inv in H0 as ([] & w11 & H11 & H0). apply require_inv in H11 as [_ ->]. apply upd_type_inv in H0 as ->.
    split.
    + eapply fin_ok; [exact P10|by rewrite <- app_assoc|exact Hprops].
    + split.
      * destruct (phase_self _ _ _ Hd0 _ _ _ _ _ P10) as (dd & Hdd & _). exists (d_set_layoutReady true dd). cbn.
        by rewrite lookup_alter_eq, Hdd.
      * etransitivity; [exact (frame_names _ _ _ _ (ph_frame _ _ _ _ _ _ _ _ P10))|]. apply fin_names.
Qed.
End whole.
