(* ===== verification/ClassVtableDispatch.v ===== *)
(** * Class types: virtual calls

    What the entries of a virtual table are: for every base class of a class, and
    every function of that base class, the function of the most derived class on
    the way that overrides it, first by the entries that overrides were given, and then,
    for a method that is not ambiguous, by the names and signatures of the source. *)

From S2P Require Import Prelude StructLayout ClassVtable ClassVtableSpec ClassVtableInv ClassVtableLayout ClassVtableInvariant.

Open Scope nat_scope.

(** ** The specification

    Methods, their names and signatures, and the base classes, as they are declared. *)

(** [f] is a method the class [a] introduces: one declared virtual or abstract. *)
Definition introduces (w : World) (a f : nat) (fn : Function) : Prop :=
  ∃ d, w_types w !! a = Some d ∧ d_typeKind d = TypeKind_Class ∧ f ∈ d_virtualMethodArray d ∧ w_functions w !! f = Some fn.

(** [h] is a method the class [x] introduces or overrides. *)
Definition method_of (w : World) (x h : nat) (fn : Function) : Prop :=
  ∃ d, w_types w !! x = Some d ∧ d_typeKind d = TypeKind_Class ∧ h ∈ d_virtualMethodArray d ++ d_overrideMethodArray d ∧
    w_functions w !! h = Some fn.

(** [g] has the name and the signature. *)
Definition has_signature (w : World) (name : string) (signature : N) (g : nat) : bool :=
  match w_functions w !! g with
  | Some fn => bool_decide (fn_name fn = name) && (fn_shortType fn =? signature)%N
  | None => false
  end.

Fixpoint find_last {A} (P : A → bool) (l : list A) : option A :=
  match l with
  | [] => None
  | x :: l => match find_last P l with Some y => Some y | None => if P x then Some x else None end
  end.

(** The method of that name and signature of the most derived class on the path [π] from [c] to the class that
    introduces it as [f]: the override of [c], else that of the next class on the path, else [f]. *)
Fixpoint most_derived (w : World) (name : string) (signature : N) (c : nat) (π : list nat) (f : nat) : nat :=
  match w_types w !! c with
  | Some d =>
    match find_last (has_signature w name signature) (d_overrideMethodArray d) with
    | Some g => g
    | None =>
      match π with
      | [] => f
      | i :: π =>
        match d_baseTypeList d !! i with
        | Some s => most_derived w name signature (s_type s) π f
        | None => f
        end
      end
    end
  | None => f
  end.

(** In [c] the method [f] of its base class [a] is not ambiguous: [a] is a base class once, and no
    other method of the name and the signature is introduced by [c] and its base classes. *)
Record unambiguous (w : World) (c a f : nat) (fn : Function) : Prop := {
  ua_path π π' : subobject (w_types w) c π = Some a → subobject (w_types w) c π' = Some a → π = π';
  ua_method π x g fng : subobject (w_types w) c π = Some x → introduces w x g fng → fn_name fng = fn_name fn →
    fn_shortType fng = fn_shortType fn → x = a ∧ g = f
}.

(** ** By the entries of overrides *)

(** [g], of the class [c], overrides the entry [k] of the base class [a] at the end of the path [π]. *)
Definition overrides (w : World) (c : nat) (π : list nat) (a k g : nat) : bool :=
  match w_functions w !! g with
  | Some fn => bool_decide (fn_virtualOriginClassType fn = Some a) && bool_decide (fn_classVtableIndex fn = Some k) &&
      bool_decide (find_path (w_types w) (S c) c a = Some π)
  | None => false
  end.

(** The function an object of class [c] has for the function [f], the entry [k] of its
    base class [a] at the end of [π], and the length of the path to the class that has it. *)
Fixpoint final_overrider (w : World) (c : nat) (π : list nat) (a k f : nat) : nat * nat :=
  match w_types w !! c with
  | Some d =>
    match find_last (overrides w c π a k) (d_overrideMethodArray d) with
    | Some g => (0, g)
    | None =>
      match π with
      | [] => (0, f)
      | i :: π =>
        match d_baseTypeList d !! i with
        | Some s => (λ '(m, g), (S m, g)) (final_overrider w (s_type s) π a k f)
        | None => (0, f)
        end
      end
    end
  | None => (0, f)
  end.

(** ** Blocks *)

Lemma concat_block_inv {A} (f : nat → list A) ts : ∀ i j t t' x y, ts !! i = Some t → ts !! j = Some t' →
  x < length (f t) → y < length (f t') → length (concat (map f (take i ts))) + x = length (concat (map f (take j ts))) + y → i = j ∧ x = y.
Proof.
  induction ts as [|t0 ts IH]; intros i j t t' x y Hi Hj Hx Hy He; [done|].
  destruct i as [|i], j as [|j]; cbn in Hi, Hj, He; rewrite ?length_app in He; simplify_eq; try lia.
  destruct (IH i j t t' x y) as [-> ->]; [done..|lia|done].
Qed.

Lemma concat_block_lt {A} (f : nat → list A) ts i t x : ts !! i = Some t → x < length (f t) →
  length (concat (map f (take i ts))) + x < length (concat (map f ts)).
Proof.
  intros Hi Hx. destruct (lookup_lt_is_Some_2 (f t) x Hx) as [y Hy].
  pose proof (concat_block f ts i t x y [] Hi Hy) as Hc. rewrite app_nil_r in Hc. by eapply lookup_lt_Some.
Qed.

Lemma overridden_length l : ∀ v, length (overridden v l) = length v.
Proof. induction l as [|[q g] l IH]; intros v; [done|]. cbn. rewrite IH. apply length_insert. Qed.

(** An entry after overrides is the last one, when some are. *)
Lemma overridden_lookup (P : nat → bool) qs ovs p : Forall2 (λ q g, P g = true ↔ q = p) qs ovs → ∀ v, p < length v →
  overridden v (zip qs ovs) !! p = match find_last P ovs with Some g => Some g | None => v !! p end.
Proof.
  induction 1 as [|q g qs ovs Hqg _ IH]; intros v Hp; [done|]. cbn. rewrite IH by (by rewrite length_insert).
  destruct (find_last P ovs) as [g'|]; [done|]. destruct (P g) eqn:Hg.
  - assert (q = p) as -> by (by apply Hqg). by rewrite list_lookup_insert_eq.
  - rewrite list_lookup_insert_ne; [done|]. intros Heq. apply Hqg in Heq. congruence.
Qed.

(** ** The entries *)

Section dispatch.
Variables (w : World).
Hypothesis W : world_ok w.

Lemma ready_class c d : ready w c → is_class (w_types w) c = true → w_types w !! c = Some d →
  ∃ own qs, class_ok w c d own qs (d_overrideMethodArray d).
Proof.
  intros (d' & Hd' & Hr) Hk Hd. assert (d' = d) as -> by congruence. rewrite (is_class_kind _ _ _ Hd) in Hk. to_prop.
  by eapply wo_class.
Qed.

Lemma declares_class a k f fn : declares w a k f fn → is_class (w_types w) a = true ∧ ready w a.
Proof.
  intros (H1 & H2 & _). destruct (wo_origin w W f fn a H1 H2) as [(d & Hd & Hk & Hr) _].
  rewrite (is_class_kind _ _ _ Hd), bool_decide_true by done. split; [done|by exists d].
Qed.

(** An entry is in the table. *)
Lemma entry_lt π c d a v k f fn : ready w c → w_types w !! c = Some d → subobject (w_types w) c π = Some a →
  path_vtableIndex (w_types w) c π = Some v → declares w a k f fn → v + k < length (d_vtable d).
Proof.
  intros Hr Hd Hs Hv Hf. destruct (declares_class a k f fn Hf) as [Ha _].
  assert (Hc : is_class (w_types w) c = true) by (by eapply subobject_class).
  pose proof (entry_type w W π c d a v k f fn Hr Hd Hc Hs Hv Hf Ha) as He. apply lookup_lt_Some in He.
  rewrite (vtable_typed_length (w_functions w)) in He; [done|]. destruct Hr as (d' & Hd' & Hr). assert (d' = d) as -> by congruence.
  by eapply ready_typed.
Qed.

Lemma vtable_length c d own qs ovs : class_ok w c d own qs ovs →
  length (d_vtable d) = length (base_vtables (w_types w) (s_type <$> d_baseTypeList d)) + length own.
Proof. intros Hc. by rewrite (ck_vtable _ _ _ _ _ _ Hc), overridden_length, length_app. Qed.

(** A step of a path. *)
Lemma path_cons c d i π a v : ready w c → w_types w !! c = Some d → is_class (w_types w) a = true →
  subobject (w_types w) c (i :: π) = Some a → path_vtableIndex (w_types w) c (i :: π) = Some v →
  ∃ s v', d_baseTypeList d !! i = Some s ∧ ready w (s_type s) ∧ is_class (w_types w) (s_type s) = true ∧
    subobject (w_types w) (s_type s) π = Some a ∧ path_vtableIndex (w_types w) (s_type s) π = Some v' ∧
    v = length (base_vtables (w_types w) (take i (s_type <$> d_baseTypeList d))) + v'.
Proof.
  intros Hr Hd Ha Hs Hv. assert (Hc : is_class (w_types w) c = true) by (by eapply subobject_class).
  cbn in Hs, Hv. rewrite Hd in Hs, Hv. cbn in Hs, Hv. apply bind_Some in Hs as (s & Hi & Hs). rewrite Hi in Hv. cbn in Hv.
  apply add_index_Some in Hv as (v' & y & Hv & Hy & ->). pose proof (list_elem_of_lookup_2 _ _ _ Hi) as Hin.
  pose proof (ready_closed w c d s W Hr Hd Hin) as Hrs.
  assert (Hsc : is_class (w_types w) (s_type s) = true) by (by eapply subobject_class).
  rewrite (slot_class w W c d i s) in Hy by done. injection Hy as <-. exists s, v'. repeat (split; [done|]). lia.
Qed.

(** A base class and an index are found back from an index of the table. *)
Lemma entry_inj π : ∀ π' c a a' v v' k k' f f' fn fn', ready w c → 
  subobject (w_types w) c π = Some a → path_vtableIndex (w_types w) c π = Some v → declares w a k f fn →
  subobject (w_types w) c π' = Some a' → path_vtableIndex (w_types w) c π' = Some v' → declares w a' k' f' fn' →
  v + k = v' + k' → π = π' ∧ k = k'.
Proof.
  assert (Hmix : ∀ i π c a a' v k k' f f' fn fn', ready w c →
    subobject (w_types w) c (i :: π) = Some a → path_vtableIndex (w_types w) c (i :: π) = Some v → declares w a k f fn →
    a' = c → declares w a' k' f' fn' → v + k = k' → False).
  { intros i π0 c a a' v k k' f f' fn fn' Hr Hs Hv Hf -> Hf' He. destruct (declares_class _ _ _ _ Hf) as [Ha _].
    pose proof Hr as (d & Hd & _). destruct (path_cons c d i π0 a v Hr Hd Ha Hs Hv) as (s & v' & Hi & Hrs & Hsc & Hs' & Hv' & ->).
    destruct (declares_class _ _ _ _ Hf') as [Hc _]. destruct (ready_class c d Hr Hc Hd) as (own & qs & Hok).
    destruct (ck_declared _ _ _ _ _ _ Hok k' f' fn' Hf') as [Hn _]. pose proof Hrs as (ds & Hds & _).
    pose proof (entry_lt π0 (s_type s) ds a v' k f fn Hrs Hds Hs' Hv' Hf) as Hlt.
    assert (Hb : length (base_vtables (w_types w) (take i (s_type <$> d_baseTypeList d))) + (v' + k) <
      length (base_vtables (w_types w) (s_type <$> d_baseTypeList d))).
    { apply (concat_block_lt _ _ _ (s_type s)); [by rewrite list_lookup_fmap, Hi|]. unfold base_vtable. rewrite Hds.
      rewrite (is_class_kind _ _ _ Hds) in Hsc. to_prop. by rewrite decide_True. }
    lia. }
  induction π as [|i π IH]; intros [|i' π'] c a a' v v' k k' f f' fn fn' Hr Hs Hv Hf Hs' Hv' Hf' He.
  - cbn in Hv, Hv'. simplify_eq. split; [done|lia].
  - exfalso. cbn in Hs, Hv. simplify_eq. by eapply (Hmix i' π' a a' a v' k' k).
  - exfalso. cbn in Hs', Hv'. simplify_eq. by eapply (Hmix i π a' a a' v k k').
  - destruct (declares_class _ _ _ _ Hf) as [Ha _]. destruct (declares_class _ _ _ _ Hf') as [Ha' _]. pose proof Hr as (d & Hd & _).
    destruct (path_cons c d i π a v Hr Hd Ha Hs Hv) as (s & u & Hi & Hrs & Hsc & Hs1 & Hv1 & ->).
    destruct (path_cons c d i' π' a' v' Hr Hd Ha' Hs' Hv') as (s' & u' & Hi' & Hrs' & Hsc' & Hs1' & Hv1' & ->).
    pose proof Hrs as (ds & Hds & _). pose proof Hrs' as (ds' & Hds' & _).
    pose proof (entry_lt π (s_type s) ds a u k f fn Hrs Hds Hs1 Hv1 Hf) as Hlt.
    pose proof (entry_lt π' (s_type s') ds' a' u' k' f' fn' Hrs' Hds' Hs1' Hv1' Hf') as Hlt'.
    assert (Hb : ∀ t dt, is_class (w_types w) t = true → w_types w !! t = Some dt → base_vtable (w_types w) t = d_vtable dt).
    { intros t dt Hk Hdt. unfold base_vtable. rewrite Hdt. rewrite (is_class_kind _ _ _ Hdt) in Hk. to_prop. by rewrite decide_True. }
    destruct (concat_block_inv (base_vtable (w_types w)) (s_type <$> d_baseTypeList d) i i' (s_type s) (s_type s') (u + k) (u' + k')) as [<- Hu].
    + by rewrite list_lookup_fmap, Hi.
    + by rewrite list_lookup_fmap, Hi'.
    + by rewrite (Hb _ ds).
    + by rewrite (Hb _ ds').
    + unfold base_vtables in He. lia.
    + assert (s' = s) as -> by congruence. destruct (IH π' (s_type s) a a' u u' k k' f f' fn fn') as [-> ->]; [done..|lia|done].
Qed.

Lemma ready_path c a π : ready w c → is_class (w_types w) a = true → find_path (w_types w) (S c) c a = Some π → ∃ coord,
  findBaseTypeTraverse (w_types w) (S c) c a = Some coord ∧ π ≠ [] ∧ subobject (w_types w) c π = Some a ∧
  path_vtableIndex (w_types w) c π = bc_vtableIndex coord ∧ path_offset (w_types w) c π = Some (wrap64 (bc_offset coord)).
Proof.
  intros Hr Ha Hp. destruct (find_path_coord (w_types w) (ready w) a) with (fuel := S c) (t := c) (π := π) as [coord Hco]; try done.
  { intros t d s Hrt Hd Hs. by eapply ready_closed. }
  { intros t d b i Hrt Hd Hm. by eapply ready_mapped. }
  exists coord. split; [done|].
  destruct (find_coord (w_types w) (ready w) a) with (fuel := S c) (t := c) (coord := coord) as (π' & H1 & H2); try done.
  { intros t d s Hrt Hd Hs. by eapply ready_closed. }
  { intros t d b i Hrt Hd Hm. by eapply ready_mapped. }
  { intros t d s Hrt Hd Hk Hs. by eapply ready_structs. }
  assert (π' = π) as -> by congruence. done.
Qed.

(** The path of a base class that is found. *)
Lemma ready_coord c a coord : ready w c → is_class (w_types w) a = true → findBaseTypeTraverse (w_types w) (S c) c a = Some coord →
  ∃ π, find_path (w_types w) (S c) c a = Some π ∧ π ≠ [] ∧ subobject (w_types w) c π = Some a ∧
  path_vtableIndex (w_types w) c π = bc_vtableIndex coord ∧ path_offset (w_types w) c π = Some (wrap64 (bc_offset coord)).
Proof.
  intros Hr Ha Hco. apply (find_coord (w_types w) (ready w)); try done.
  - intros t d s Hrt Hd Hs. by eapply ready_closed.
  - intros t d b i Hrt Hd Hm. by eapply ready_mapped.
  - intros t d s Hrt Hd Hk Hs. by eapply ready_structs.
Qed.

(** Where an override is written. *)
Lemma override_at c π a v k f fn q g : ready w c → override_ok w c q g →
  subobject (w_types w) c π = Some a → path_vtableIndex (w_types w) c π = Some v → declares w a k f fn →
  overrides w c π a k g = true ↔ q = v + k.
Proof.
  intros Hr (fng & a' & k' & coord & start & H1 & H2 & H3 & H4 & H5 & H6 & -> & _) Hs Hv Hf.
  destruct (wo_origin w W g fng a' H1 H3) as (_ & k'' & f' & fn' & Hk'' & Hf' & _). assert (k'' = k') as -> by congruence.
  destruct (declares_class _ _ _ _ Hf') as [Ha' _].
  destruct (ready_coord c a' coord Hr Ha' H5) as (π' & Hp & _ & Hs' & Hv' & _). rewrite H6 in Hv'.
  unfold overrides. rewrite H1, H3, H4. split.
  - intros Hb. apply andb_true_iff in Hb as [ [Hb1%bool_decide_eq_true_1 Hb2%bool_decide_eq_true_1]%andb_true_iff Hb3%bool_decide_eq_true_1]. congruence.
  - intros He. destruct (entry_inj π' π c a' a start v k' k f' f fn' fn) as [-> ->]; [done..|].
    assert (a' = a) as -> by congruence. by rewrite !bool_decide_true.
Qed.

(** An entry of a class, before its own overrides. *)
Lemma entry_step c d π a v k f fn : ready w c → w_types w !! c = Some d → subobject (w_types w) c π = Some a →
  path_vtableIndex (w_types w) c π = Some v → declares w a k f fn → ∃ own qs, class_ok w c d own qs (d_overrideMethodArray d) ∧
  d_vtable d !! (v + k) = match find_last (overrides w c π a k) (d_overrideMethodArray d) with
    | Some g => Some g
    | None => (base_vtables (w_types w) (s_type <$> d_baseTypeList d) ++ own) !! (v + k)
    end.
Proof.
  intros Hr Hd Hs Hv Hf. destruct (declares_class _ _ _ _ Hf) as [Ha _].
  assert (Hc : is_class (w_types w) c = true) by (by eapply subobject_class).
  destruct (ready_class c d Hr Hc Hd) as (own & qs & Hok). exists own, qs. split; [done|].
  pose proof (entry_lt _ c d a v k f fn Hr Hd Hs Hv Hf) as Hlt.
  rewrite (ck_vtable _ _ _ _ _ _ Hok), overridden_length in Hlt. rewrite (ck_vtable _ _ _ _ _ _ Hok).
  apply overridden_lookup; [|done]. eapply Forall2_impl; [exact (ck_overrides _ _ _ _ _ _ Hok)|].
  intros q g Hg. by eapply override_at.
Qed.

Lemma entry_overrider π : ∀ c d a v k f fn, ready w c → w_types w !! c = Some d → subobject (w_types w) c π = Some a →
  path_vtableIndex (w_types w) c π = Some v → declares w a k f fn →
  d_vtable d !! (v + k) = Some (snd (final_overrider w c π a k f)).
Proof.
  induction π as [|i π IH]; intros c d a v k f fn Hr Hd Hs Hv Hf; destruct (declares_class _ _ _ _ Hf) as [Ha _];
    destruct (entry_step c d _ a v k f fn Hr Hd Hs Hv Hf) as (own & qs & Hok & ->).
  - cbn [final_overrider]. rewrite Hd. destruct (find_last _ _) as [g|]; [done|]. cbn in Hs, Hv. simplify_eq. cbn.
    destruct (ck_declared _ _ _ _ _ _ Hok k f fn Hf) as [Hn Ho]. by rewrite lookup_app_r.
  - cbn [final_overrider]. rewrite Hd. destruct (find_last _ _) as [g|]; [done|].
    destruct (path_cons c d i π a v Hr Hd Ha Hs Hv) as (s & u & Hi & Hrs & Hsc & Hs' & Hv' & ->). rewrite Hi.
    destruct (final_overrider w (s_type s) π a k f) as [m g] eqn:Hg. cbn [snd]. pose proof Hrs as (ds & Hds & _).
    pose proof (IH (s_type s) ds a u k f fn Hrs Hds Hs' Hv' Hf) as He. rewrite Hg in He. cbn in He.
    rewrite <- Nat.add_assoc. apply (concat_block _ _ i (s_type s)); [by rewrite list_lookup_fmap, Hi|].
    unfold base_vtable. rewrite Hds. rewrite (is_class_kind _ _ _ Hds) in Hsc. to_prop. by rewrite decide_True.
Qed.

(** ** The class that has the function *)

Lemma find_last_Some {A} (P : A → bool) l x : find_last P l = Some x → x ∈ l ∧ P x = true.
Proof.
  induction l as [|y l IH]; cbn [find_last]; [done|]. destruct (find_last P l) as [z|].
  - intros [= ->]. destruct IH as [? ?]; [done|]. split; [by right|done].
  - destruct (P y) eqn:Hy; [|done]. intros [= ->]. split; [left|done].
Qed.

Lemma declared_unique a k f f' fn fn' : declares w a k f fn → declares w a k f' fn' → f = f' ∧ fn = fn'.
Proof.
  intros Hf Hf'. destruct (declares_class _ _ _ _ Hf) as [Ha Hr]. pose proof Hr as (d & Hd & _).
  destruct (ready_class a d Hr Ha Hd) as (own & qs & Hok).
  destruct (ck_declared _ _ _ _ _ _ Hok k f fn Hf) as [_ H1]. destruct (ck_declared _ _ _ _ _ _ Hok k f' fn' Hf') as [_ H2].
  assert (f = f') as <- by congruence. split; [done|]. destruct Hf as [? _], Hf' as [? _]. congruence.
Qed.

(** The function [g] of the class at the end of the path [π] takes a pointer to the
    base class at the end of [ρ], and subtracts the offset of that. *)
Definition this_adjusted (x : nat) (ρ : list nat) (a : nat) (fng : Function) : Prop :=
  ∃ o, path_offset (w_types w) x ρ = Some (wrap64 o) ∧ fn_thisArgDelta fng = (- Z.of_N o)%Z ∧
    fst (fn_thisArgType fng) = a ∧ fst (fn_thisType fng) = x.

(** The base classes of a class come before it. *)
Lemma subobject_lt π : ∀ c a, ready w c → subobject (w_types w) c π = Some a → is_class (w_types w) a = true → a ≤ c ∧ (π ≠ [] → a < c).
Proof.
  induction π as [|i π IH]; intros c a Hr Hs Ha; [cbn in Hs; simplify_eq; done|].
  assert (Hc : is_class (w_types w) c = true) by (by eapply subobject_class). pose proof Hr as (d & Hd & _).
  cbn in Hs. rewrite Hd in Hs. cbn in Hs. apply bind_Some in Hs as (s & Hi & Hs). apply list_elem_of_lookup_2 in Hi.
  destruct (ready_class c d Hr Hc Hd) as (own & qs & Hok). destruct (bo_ready _ _ _ (ck_bases _ _ _ _ _ _ Hok) s Hi) as [Hlt _].
  destruct (IH (s_type s) a) as [Hle _]; [by eapply ready_closed|done|done|]. split; [lia|]. intros _. lia.
Qed.

Lemma override_adjusted c d π a k f fn g : ready w c → w_types w !! c = Some d → subobject (w_types w) c π = Some a →
  declares w a k f fn → g ∈ d_overrideMethodArray d → overrides w c π a k g = true → ∃ fng, w_functions w !! g = Some fng ∧
  slot_type fng = slot_type fn ∧ c ≠ a ∧ this_adjusted c π a fng.
Proof.
  intros Hr Hd Hs Hf Hin Hov. unfold overrides in Hov. destruct (w_functions w !! g) as [fng|] eqn:Hfng; [|done]. to_prop.
  destruct (declares_class _ _ _ _ Hf) as [Ha _].
  assert (Hc : is_class (w_types w) c = true) by (by eapply subobject_class).
  destruct (ready_class c d Hr Hc Hd) as (own & qs & Hok).
  destruct (ready_path c a π Hr Ha ltac:(done)) as (coord & P1 & P2 & P3 & P4 & P5). exists fng. split; [done|].
  destruct (wo_origin w W g fng a Hfng ltac:(done)) as (_ & k' & f' & fn' & O1 & O2 & O3 & O4 & _).
  assert (k' = k) as -> by congruence. destruct (declared_unique _ _ _ _ _ _ Hf O2) as [<- <-]. split; [done|].
  apply list_elem_of_lookup in Hin as [j Hj].
  destruct (Forall2_lookup_r _ _ _ _ _ (ck_overrides _ _ _ _ _ _ Hok) Hj) as (q & _ & fng' & a' & k' & coord' & st & V1 & V2 & V3 & V4 & V5 & V6 & V7 & V8).
  assert (fng' = fng) as -> by congruence. assert (a' = a) as -> by congruence. assert (coord' = coord) as -> by congruence.
  split.
  - destruct (subobject_lt π c a Hr Hs Ha) as [_ Hlt]. specialize (Hlt P2). lia.
  - exists (bc_offset coord). split; [done|]. split; [done|]. split; [done|]. apply (wo_this w W c d g); [done| |done].
    unfold owned. rewrite !elem_of_app. right. right. by eapply list_elem_of_lookup_2.
Qed.

Lemma overrider_class π : ∀ c a k f fn m g, ready w c → subobject (w_types w) c π = Some a → declares w a k f fn →
  final_overrider w c π a k f = (m, g) → ∃ x fng, subobject (w_types w) c (take m π) = Some x ∧
    subobject (w_types w) x (drop m π) = Some a ∧ w_functions w !! g = Some fng ∧ slot_type fng = slot_type fn ∧
    ((g = f ∧ drop m π = []) ∨ (x ≠ a ∧ this_adjusted x (drop m π) a fng)).
Proof.
  induction π as [|i π IH]; intros c a k f fn m g Hr Hs Hf Hg; cbn [final_overrider] in Hg; pose proof Hr as (d & Hd & _);
    rewrite Hd in Hg; destruct (find_last _ _) as [g'|] eqn:Hl.
  1, 3: injection Hg as <- <-; apply find_last_Some in Hl as [Hin Hov];
    destruct (override_adjusted _ _ _ _ _ _ _ _ Hr Hd Hs Hf Hin Hov) as (fng & H1 & H2 & H3); exists c, fng; eauto 10.
  - injection Hg as <- <-. cbn in Hs. simplify_eq. exists a, fn. split; [done|]. split; [done|]. split; [apply Hf|]. auto.
  - cbn in Hs. rewrite Hd in Hs. cbn in Hs. apply bind_Some in Hs as (s & Hi & Hs). rewrite Hi in Hg.
    destruct (final_overrider w (s_type s) π a k f) as [m' g'] eqn:Hg'. injection Hg as <- <-.
    destruct (IH (s_type s) a k f fn m' g') as (x & fng & H1 & H2 & H3); [|done..|].
    + eapply ready_closed; [done|done|done|by eapply list_elem_of_lookup_2].
    + exists x, fng. split; [|done]. cbn. rewrite Hd. cbn. by rewrite Hi.
Qed.

(** ** Names *)

Lemma find_last_ext {A} (P Q : A → bool) l : (∀ x, x ∈ l → P x = Q x) → find_last P l = find_last Q l.
Proof.
  induction l as [|x l IH]; intros H; [done|]. cbn [find_last]. rewrite (H x) by left. rewrite IH; [done|].
  intros y Hy. apply H. by right.
Qed.

Lemma introduces_class a f fn : introduces w a f fn → is_class (w_types w) a = true.
Proof. intros (d & Hd & Hk & _). rewrite (is_class_kind _ _ _ Hd). by apply bool_decide_eq_true. Qed.

Lemma introduces_declares a f fn : ready w a → introduces w a f fn → ∃ k, declares w a k f fn.
Proof.
  intros Hr Hi. pose proof (introduces_class a f fn Hi) as Ha. destruct Hi as (d & Hd & _ & Hf & Hfn). destruct (ready_class a d Hr Ha Hd) as (own & qs & Hok). pose proof (ck_owned _ _ _ _ _ _ Hok) as Ho.
  unfold owned in Ho. rewrite app_assoc in Ho. apply app_inv_tail in Ho. assert (Hin : f ∈ own) by (rewrite Ho; apply elem_of_app; by right).
  apply list_elem_of_lookup in Hin as [j Hj]. destruct (ck_own _ _ _ _ _ _ Hok j f Hj) as (fn' & Hdec). eexists.
  assert (fn' = fn) as -> by (destruct Hdec; congruence). exact Hdec.
Qed.

Lemma declares_introduces a k f fn : named w → declares w a k f fn → fn_name fn ≠ ""%string → introduces w a f fn.
Proof.
  intros N Hdec Hne. destruct (declares_class a k f fn Hdec) as [Ha Hr]. pose proof Hr as (d & Hd & _).
  destruct (ready_class a d Hr Ha Hd) as (own & qs & Hok). pose proof (ck_owned _ _ _ _ _ _ Hok) as Ho.
  unfold owned in Ho. rewrite app_assoc in Ho. apply app_inv_tail in Ho. exists d. split; [done|].
  split; [rewrite (is_class_kind _ _ _ Hd) in Ha; by apply bool_decide_eq_true in Ha|]. split; [|apply Hdec].
  destruct (ck_declared _ _ _ _ _ _ Hok k f fn Hdec) as [_ Hj]. apply list_elem_of_lookup_2 in Hj. rewrite Ho in Hj.
  apply elem_of_app in Hj as [Hj|Hj]; [|done]. exfalso. apply list_elem_of_In, in_concat in Hj as (l & Hl & Hj).
  apply in_map_iff in Hl as (p & <- & _). unfold property_accessors in Hj. destruct (w_properties w !! p) as [pr|] eqn:Hp; [|done].
  apply list_elem_of_In in Hj. apply Hne. eapply (nm_accessor w N p pr f); [done|done|apply Hdec].
Qed.

(** What an override of a class overrides. *)
Lemma override_of c d g : named w → ready w c → w_types w !! c = Some d → is_class (w_types w) c = true → g ∈ d_overrideMethodArray d →
  ∃ fng a k f fn π, w_functions w !! g = Some fng ∧ fn_virtualOriginClassType fng = Some a ∧ fn_classVtableIndex fng = Some k ∧
    declares w a k f fn ∧ fn_name fng = fn_name fn ∧ fn_shortType fng = fn_shortType fn ∧
    find_path (w_types w) (S c) c a = Some π ∧ subobject (w_types w) c π = Some a.
Proof.
  intros N Hr Hd Hc [j Hj]%list_elem_of_lookup. destruct (ready_class c d Hr Hc Hd) as (own & qs & Hok).
  destruct (Forall2_lookup_r _ _ _ _ _ (ck_overrides _ _ _ _ _ _ Hok) Hj) as (q & _ & fng & a & k & coord & st & V1 & _ & V3 & V4 & V5 & _).
  destruct (wo_origin w W g fng a V1 V3) as (_ & k' & f & fn & O1 & O2 & O3 & _ & O5). assert (k' = k) as -> by congruence.
  destruct (declares_class _ _ _ _ O2) as [Ha _]. destruct (ready_coord c a coord Hr Ha V5) as (π & P1 & _ & P3 & _).
  exists fng, a, k, f, fn, π. split; [done|]. split; [done|]. split; [done|]. split; [done|]. split; [by apply O5|].
  split; [|done]. exact (f_equal fst O3).
Qed.

Lemma unambiguous_base c d i s a f fn : unambiguous w c a f fn → w_types w !! c = Some d → d_baseTypeList d !! i = Some s →
  unambiguous w (s_type s) a f fn.
Proof.
  intros [U1 U2] Hd Hi. assert (Hs : ∀ π, subobject (w_types w) c (i :: π) = subobject (w_types w) (s_type s) π).
  { intros π. cbn. rewrite Hd. cbn. by rewrite Hi. }
  split.
  - intros π π' H H'. rewrite <- Hs in H, H'. by injection (U1 _ _ H H').
  - intros π x g fng H. rewrite <- Hs in H. by eapply U2.
Qed.

(** The overrides of a method that is not ambiguous are those of its name and signature. *)
Lemma has_signature_overrides c d π a k f fn g : named w → ready w c → w_types w !! c = Some d → subobject (w_types w) c π = Some a →
  declares w a k f fn → fn_name fn ≠ ""%string → unambiguous w c a f fn → g ∈ d_overrideMethodArray d →
  overrides w c π a k g = has_signature w (fn_name fn) (fn_shortType fn) g.
Proof.
  intros N Hr Hd Hs Hf Hne [U1 U2] Hg. destruct (declares_class _ _ _ _ Hf) as [Ha _].
  assert (Hc : is_class (w_types w) c = true) by (by eapply subobject_class).
  destruct (override_of c d g N Hr Hd Hc Hg) as (fng & a' & k' & f' & fn' & π' & O1 & O2 & O3 & O4 & O5 & O6 & O7 & O8).
  unfold overrides, has_signature. rewrite O1, O2, O3. apply eq_true_iff_eq. rewrite !andb_true_iff, !bool_decide_eq_true, N.eqb_eq. split.
  - intros [ [Ea Ek] _]. simplify_eq. destruct (declared_unique _ _ _ _ _ _ Hf O4) as [-> ->]. done.
  - intros [En Et]. destruct (U2 π' a' f' fn') as [-> ->]; [done|by eapply declares_introduces; [| |congruence]|congruence|congruence|].
    rewrite (U1 π π' Hs O8). destruct Hf as (Hf1 & _ & Hf3 & _), O4 as (Hf1' & _ & Hf3' & _). split; [|done]. split; congruence.
Qed.

Lemma most_derived_overrider π : ∀ c a k f fn, named w → ready w c → subobject (w_types w) c π = Some a → declares w a k f fn →
  fn_name fn ≠ ""%string → unambiguous w c a f fn →
  snd (final_overrider w c π a k f) = most_derived w (fn_name fn) (fn_shortType fn) c π f.
Proof.
  induction π as [|i π IH]; intros c a k f fn N Hr Hs Hf Hne U; pose proof Hr as (d & Hd & _); cbn [final_overrider most_derived];
    rewrite Hd, (find_last_ext _ (has_signature w (fn_name fn) (fn_shortType fn))) by (intros g Hg; by eapply has_signature_overrides);
    destruct (find_last _ _) as [g|]; try done.
  cbn in Hs. rewrite Hd in Hs. cbn in Hs. apply bind_Some in Hs as (s & Hi & Hs). rewrite Hi.
  rewrite <- (IH (s_type s) a k f fn); [by destruct (final_overrider _ _ _ _ _ _)|done| |done..|by eapply unambiguous_base].
  eapply ready_closed; [done|done|done|by eapply list_elem_of_lookup_2].
Qed.

(** A base class is found. *)
Lemma find_path_complete a fuel : ∀ c π, c < fuel → ready w c → is_class (w_types w) a = true → subobject (w_types w) c π = Some a → π ≠ [] →
  is_Some (find_path (w_types w) fuel c a).
Proof.
  induction fuel as [|fuel IH]; intros c π Hlt Hr Ha Hs Hne; [lia|].
  assert (Hc : is_class (w_types w) c = true) by (by eapply subobject_class).
  destruct π as [|i π]; [done|]. pose proof Hr as (d & Hd & _). cbn [find_path subobject] in *. rewrite Hd in *. cbn [mbind option_bind] in *.
  destruct (d_baseTypeMap d !! a) as [j|] eqn:Hm; [by eexists|]. destruct (ready_class c d Hr Hc Hd) as (own & qs & Hok).
  pose proof (ck_bases _ _ _ _ _ _ Hok) as Hb. destruct (d_baseTypeList d !! i) as [s|] eqn:Hi; [|done]. cbn in Hs.
  destruct π as [|i' π].
  { cbn in Hs. injection Hs as Hs. assert (Hj : d_baseTypeMap d !! a = Some i); [|congruence].
    apply (bo_map _ _ _ Hb). rewrite list_lookup_fmap, Hi. cbn. by rewrite Hs. }
  destruct (bo_ready _ _ _ Hb s) as [Hslt _]; [by eapply list_elem_of_lookup_2|].
  destruct (IH (s_type s) (i' :: π)) as [π' Hπ']; [lia| |done..|].
  { eapply ready_closed; [done|done|done|by eapply list_elem_of_lookup_2]. }
  assert (Hfirst : ∀ l k, s ∈ l → is_Some (first_index (λ s, find_path (w_types w) fuel (s_type s) a) k l)).
  { induction l as [|s' l IHl]; intros k; [by intros ?%not_elem_of_nil|]. cbn [first_index].
    intros [<-|Hin]%elem_of_cons; [rewrite Hπ'; by eexists|]. destruct (find_path _ _ (s_type s') _); [by eexists|by apply IHl]. }
  destruct (Hfirst (d_baseTypeList d) 0) as [x ->]; [by eapply list_elem_of_lookup_2|]. by eexists.
Qed.

(** ** Addresses *)

Lemma path_offset_lt π c o : path_offset (w_types w) c π = Some o → (o < 2 ^ 64)%N.
Proof.
  destruct π as [|i π]; cbn; [by intros [= <-]|]. intros (d & _ & (s & _ & (o' & _ & [= <-])%bind_Some)%bind_Some)%bind_Some.
  unfold add64, wrap64. by apply N.mod_lt.
Qed.

Lemma path_offset_app π ρ : ∀ c x o o', subobject (w_types w) c π = Some x → path_offset (w_types w) c π = Some o →
  path_offset (w_types w) x ρ = Some o' → path_offset (w_types w) c (π ++ ρ) = Some (add64 o' o).
Proof.
  induction π as [|i π IH]; intros c x o o' Hs Ho Ho'.
  - cbn in Hs, Ho. simplify_eq. cbn [app]. rewrite Ho'. f_equal. unfold add64, wrap64. rewrite N.add_0_r. symmetry.
    apply N.mod_small. by eapply path_offset_lt.
  - cbn in Hs, Ho |- *. destruct (w_types w !! c) as [d|]; [|done]. cbn in *. destruct (d_baseTypeList d !! i) as [s|]; [|done]. cbn in *.
    apply bind_Some in Ho as (o1 & Ho1 & [= <-]). rewrite (IH _ _ _ _ Hs Ho1 Ho'). cbn. f_equal. unfold add64, wrap64.
    rewrite N.Div0.add_mod_idemp_l, N.Div0.add_mod_idemp_r. f_equal. lia.
Qed.

Lemma path_offset_split π m c o : path_offset (w_types w) c π = Some o → ∃ x o1 o2, subobject (w_types w) c (take m π) = Some x ∧
  path_offset (w_types w) c (take m π) = Some o1 ∧ path_offset (w_types w) x (drop m π) = Some o2.
Proof.
  revert m c o. induction π as [|i π IH]; intros m c o Ho.
  { exists c, 0%N, 0%N. by destruct m. }
  destruct m as [|m]; [by exists c, 0%N, o|]. cbn in Ho |- *. destruct (w_types w !! c) as [d|]; [|done]. cbn in *.
  destruct (d_baseTypeList d !! i) as [s|]; [|done]. cbn in *. apply bind_Some in Ho as (o' & Ho & _).
  destruct (IH m _ _ Ho) as (x & o1 & o2 & H1 & H2 & H3). rewrite H1, H2. cbn. eauto 10.
Qed.
End dispatch.

(** The conversion to 32 bits loses nothing up to 2 GB. *)
Lemma createThisValue_adjusted fn (o p : N) : fn_thisArgType fn ≠ fn_thisType fn → fn_thisArgDelta fn = (- Z.of_N o)%Z →
  (wrap64 o ≤ 2 ^ 31)%N → (p < 2 ^ 64)%N → createThisValue fn (add64 p (wrap64 o)) = p.
Proof.
  intros Hne Hd Ho Hp. unfold createThisValue. rewrite decide_False by done. rewrite Hd. unfold add64, wrap64 in *.
  change (size_mod) with (2 ^ 64)%N in *. destruct (Z.eqb_spec (- Z.of_N o) 0) as [Hz|Hz].
  - assert (o = 0%N) as -> by lia. rewrite N.Div0.mod_0_l, N.add_0_r. by apply N.mod_small.
  - apply N2Z.inj. rewrite Z2N.id by (apply Z.mod_pos_bound; lia).
    rewrite N2Z.inj_mod, N2Z.inj_add, N2Z.inj_mod. change (Z.of_N (2 ^ 64)) with (2 ^ 64)%Z.
    assert (Ho' : (Z.of_N o mod 2 ^ 64 ≤ 2 ^ 31)%Z) by (change (2 ^ 64)%Z with (Z.of_N (2 ^ 64)); rewrite <- N2Z.inj_mod; lia).
    assert (Hp' : (0 ≤ Z.of_N p < 2 ^ 64)%Z) by lia. clear -Ho' Hp'. generalize dependent (Z.of_N p). intros q Hq.
    assert (Ht : to_int32 (- Z.of_N o) = (- (Z.of_N o mod 2 ^ 64))%Z).
    { unfold to_int32. pose proof (Z.mod_pos_bound (Z.of_N o) (2 ^ 64) ltac:(lia)). pose proof (Z.div_mod (Z.of_N o) (2 ^ 64) ltac:(lia)).
      set (r := (Z.of_N o mod 2 ^ 64)%Z) in *. set (e := (Z.of_N o / 2 ^ 64)%Z) in *.
      replace (- Z.of_N o + 2 ^ 31)%Z with ((2 ^ 31 - r) + (- e * 2 ^ 32) * 2 ^ 32)%Z by lia. rewrite Z_mod_plus_full.
      rewrite Z.mod_small by lia. lia. }
    rewrite Ht. rewrite Zplus_mod_idemp_l. replace (q + Z.of_N o mod 2 ^ 64 + - (Z.of_N o mod 2 ^ 64))%Z with q by lia.
    by apply Z.mod_small.
Qed.
