(* ===== verification/ClassCreate.v ===== *)
(** * Class types: classes that can be created

    [ClassType::ensureCreatable] and what it promises: a class with virtual methods gets its
    virtual table, and no function in it is abstract. *)

From S2P Require Import Prelude Box StructLayout ClassVtable ClassVtableSpec.

Open Scope nat_scope.

(** ** The invariant *)

Definition creatable (d : DerivableType) : Prop := has_flag ClassTypeFlag_Creatable (d_flags d) = true.

(** A class that can be created and has virtual methods has a table without abstract ones. *)
Definition creatable_ok (E : env) (w : World) : Prop := ∀ c d, w_types w !! c = Some d → creatable d →
  e_hasCodeGen E = true → d_vtableStructType d ≠ None →
  d_vtableVariable d = true ∧ ∀ f, f ∈ d_vtable d → is_abstract w f = false.

(** Classes come before those that are derived from them or have fields of them. *)
Definition fields_before (w : World) : Prop := ∀ c d, w_types w !! c = Some d →
  (∀ u, u ∈ class_fields d → u < c ∧ is_Some (w_types w !! u)) ∧ (∀ b, b ∈ class_bases d → b < c ∧ is_Some (w_types w !! b)).

(** What is read of a class. *)
Definition create_part (d : DerivableType) := (d_vtable d, d_vtableStructType d, class_fields d, class_bases d).

Record same_classes (w w' : World) : Prop := {
  sc_functions : w_functions w' = w_functions w;
  sc_types t : create_part <$> w_types w' !! t = create_part <$> w_types w !! t
}.

Lemma same_classes_refl w : same_classes w w.
Proof. done. Qed.

Lemma same_classes_trans w1 w2 w3 : same_classes w1 w2 → same_classes w2 w3 → same_classes w1 w3.
Proof. intros [A1 A2] [B1 B2]. split; [congruence|]. intros t. by rewrite B2, A2. Qed.

Lemma same_classes_type w w' t d : same_classes w w' → w_types w !! t = Some d →
  ∃ d', w_types w' !! t = Some d' ∧ create_part d' = create_part d.
Proof.
  intros Hs Hd. pose proof (sc_types _ _ Hs t) as H. rewrite Hd in H. destruct (w_types w' !! t) as [d'|]; [|done].
  apply (inj Some) in H. eauto.
Qed.

Lemma same_classes_before w w' : same_classes w w' → fields_before w → fields_before w'.
Proof.
  intros Hs Hb c d' Hd'. pose proof (sc_types _ _ Hs c) as H. rewrite Hd' in H.
  destruct (w_types w !! c) as [d|] eqn:Hd; [|done]. apply (inj Some) in H. destruct (Hb c d Hd) as [H1 H2].
  rewrite (f_equal (λ x, x.1.2) H : class_fields d' = class_fields d), (f_equal snd H : class_bases d' = class_bases d).
  assert (Hk : ∀ t, is_Some (w_types w !! t) → is_Some (w_types w' !! t)).
  { intros t [dt Hdt]. destruct (same_classes_type _ _ _ _ Hs Hdt) as (dt' & -> & _). by eexists. }
  split; intros t Ht; [destruct (H1 t Ht)|destruct (H2 t Ht)]; auto.
Qed.

Lemma create_flag_lor flag flags : flag ≠ 0%N → has_flag flag (N.lor flags flag) = true.
Proof.
  intros Hf. unfold has_flag. rewrite negb_true_iff, N.eqb_neq. intros Hz. apply Hf. apply N.bits_inj. intros i.
  pose proof (f_equal (λ x, N.testbit x i) Hz) as Hi. cbn beta in Hi. rewrite N.land_spec, N.lor_spec, N.bits_0 in Hi.
  rewrite N.bits_0. destruct (N.testbit flag i); [|done]. by rewrite orb_true_r in Hi.
Qed.

Lemma set_creatable_same c b w : same_classes w (set_creatable c b w).
Proof.
  split; [done|]. intros t. cbn. destruct (decide (t = c)) as [->|]; [|by rewrite lookup_alter_ne].
  rewrite lookup_alter_eq. by destruct (w_types w !! c).
Qed.

Lemma set_creatable_ok E c b w d : creatable_ok E w → w_types w !! c = Some d →
  (e_hasCodeGen E = true → d_vtableStructType d ≠ None → b = true ∧ ∀ f, f ∈ d_vtable d → is_abstract w f = false) →
  creatable_ok E (set_creatable c b w).
Proof.
  intros Hok Hd Hb t d' Hd' Hc Hg Hs. cbn in Hd'. change (is_abstract (set_creatable c b w)) with (is_abstract w).
  destruct (decide (t = c)) as [->|Hne].
  - rewrite lookup_alter_eq, Hd in Hd'. injection Hd' as <-. cbn in *. destruct (Hb Hg Hs) as [-> Ha]. done.
  - rewrite lookup_alter_ne in Hd' by done. by apply (Hok t d').
Qed.

(** ** The operations *)

Section create.
Variable E : env.

(** What a run of [ensureCreatable] promises. *)
Definition ensured (w : World) (r : option (bool * World)) : Prop :=
  match r with Some (_, w') => same_classes w w' ∧ creatable_ok E w' | None => False end.

(** The same of a class that is then marked. *)
Definition ensured_class (c : nat) (w : World) (r : option (bool * World)) : Prop :=
  ensured w r ∧ ∀ w', r = Some (true, w') → ∃ d, w_types w' !! c = Some d ∧ creatable d.

Lemma set_creatable_marked c b w d : w_types w !! c = Some d → ∃ d', w_types (set_creatable c b w) !! c = Some d' ∧ creatable d'.
Proof.
  intros Hd. cbn. rewrite lookup_alter_eq, Hd. eexists. split; [done|]. unfold creatable. cbn. by apply create_flag_lor.
Qed.

Section loops.
Variables (ensure : nat → World → option (bool * World)) (n : nat).
Hypothesis ensure_ok : ∀ u w, u < n → is_Some (w_types w !! u) → fields_before w → creatable_ok E w → ensured w (ensure u w).

Lemma fields_creatable_ok us : ∀ w, (∀ u, u ∈ us → u < n ∧ is_Some (w_types w !! u)) → fields_before w → creatable_ok E w →
  ensured w (fields_creatable ensure us w).
Proof.
  induction us as [|u us IH]; intros w Hus Hb Hok; cbn [fields_creatable]; [by split|].
  destruct (Hus u ltac:(left)) as [Hu Hsome]. pose proof (ensure_ok u w Hu Hsome Hb Hok) as He.
  destruct (ensure u w) as [ [ [] w1]|]; [|done|done]. destruct He as [Hs1 Hok1].
  assert (Hr : ensured w1 (fields_creatable ensure us w1)).
  { apply IH; [|by eapply same_classes_before|done]. intros u' Hu'. destruct (Hus u' ltac:(by right)) as [Hlt [d Hd] ].
    destruct (same_classes_type _ _ _ _ Hs1 Hd) as (d' & -> & _). split; [done|by eexists]. }
  destruct (fields_creatable ensure us w1) as [ [r w2]|]; [|done]. destruct Hr as [Hs2 Hok2].
  split; [by eapply same_classes_trans|done].
Qed.

Lemma bases_creatable_ok bs : ∀ w, (∀ b, b ∈ bs → b ≤ n ∧ is_Some (w_types w !! b)) → fields_before w → creatable_ok E w →
  ensured w (bases_creatable ensure bs w).
Proof.
  induction bs as [|b bs IH]; intros w Hbs Hb Hok; cbn [bases_creatable]; [by split|].
  destruct (Hbs b ltac:(left)) as [Hbn [d Hd] ]. rewrite Hd. cbn [mbind option_bind].
  assert (He : ensured w (fields_creatable ensure (class_fields d) w)).
  { apply fields_creatable_ok; [|done|done]. intros u Hu. destruct (Hb b d Hd) as [H1 _]. destruct (H1 u Hu). split; [lia|done]. }
  destruct (fields_creatable _ _ _) as [ [ [] w1]|]; [|done|done]. destruct He as [Hs1 Hok1].
  assert (Hr : ensured w1 (bases_creatable ensure bs w1)).
  { apply IH; [|by eapply same_classes_before|done]. intros b' Hb'. destruct (Hbs b' ltac:(by right)) as [Hlt [d' Hd'] ].
    destruct (same_classes_type _ _ _ _ Hs1 Hd') as (d'' & -> & _). split; [done|by eexists]. }
  destruct (bases_creatable ensure bs w1) as [ [r w2]|]; [|done]. destruct Hr as [Hs2 Hok2].
  split; [by eapply same_classes_trans|done].
Qed.

Lemma prepareForOperatorNew_ok c w : c ≤ n → is_Some (w_types w !! c) → fields_before w → creatable_ok E w →
  ensured_class c w (prepareForOperatorNew E ensure c w).
Proof.
  intros Hc [d Hd] Hb Hok. unfold prepareForOperatorNew. rewrite Hd. cbn [mbind option_bind]. destruct (Hb c d Hd) as [Hf Hbs].
  assert (H1 : ensured w (bases_creatable ensure (class_bases d) w)).
  { apply bases_creatable_ok; [|done|done]. intros b Hb'. destruct (Hbs b Hb'). split; [lia|done]. }
  destruct (bases_creatable _ _ _) as [ [ [] w1]|]; [|by split|by destruct H1]. destruct H1 as [Hs1 Hok1].
  assert (H2 : ensured w1 (fields_creatable ensure (class_fields d) w1)).
  { apply fields_creatable_ok; [|by eapply same_classes_before|done]. intros u Hu. destruct (Hf u Hu) as [Hlt [du Hdu] ].
    destruct (same_classes_type _ _ _ _ Hs1 Hdu) as (du' & -> & _). split; [lia|by eexists]. }
  destruct (fields_creatable _ _ _) as [ [b w2]|]; [|by destruct H2]. destruct H2 as [Hs2 Hok2].
  pose proof (same_classes_trans _ _ _ Hs1 Hs2) as Hs. destruct (same_classes_type _ _ _ _ Hs Hd) as (d2 & Hd2 & Hp).
  assert (Hv : d_vtable d2 = d_vtable d) by exact (f_equal (λ x, x.1.1.1) Hp).
  assert (Ht : d_vtableStructType d2 = d_vtableStructType d) by exact (f_equal (λ x, x.1.1.2) Hp).
  destruct (negb _ || _) eqn:Hcond.
  - split; [|intros w' [= <-]; by eapply set_creatable_marked].
    split; [eapply same_classes_trans; [done|apply set_creatable_same]|]. eapply set_creatable_ok; [done|done|].
    intros Hg Hst. rewrite Hg in Hcond. cbn in Hcond. apply bool_decide_eq_true in Hcond. congruence.
  - destruct (existsb _ _) eqn:Hex; [by split|]. split; [|intros w' [= <-]; by eapply set_creatable_marked].
    split; [eapply same_classes_trans; [done|apply set_creatable_same]|]. eapply set_creatable_ok; [done|done|].
    intros _ _. split; [done|]. rewrite Hv. intros f Hin. apply list_elem_of_In in Hin.
    destruct (is_abstract w2 f) eqn:Ha; [|done]. exfalso. assert (existsb (is_abstract w2) (d_vtable d) = true) by (apply existsb_exists; eauto).
    congruence.
Qed.
End loops.

Lemma ensureCreatable_ok fuel : ∀ c w, c < fuel → is_Some (w_types w !! c) → fields_before w → creatable_ok E w →
  ensured_class c w (ensureCreatable E fuel c w).
Proof.
  induction fuel as [|fuel IH]; intros c w Hc [d Hd] Hb Hok; [lia|]. cbn [ensureCreatable]. rewrite Hd. cbn [mbind option_bind].
  destruct (has_flag _ _) eqn:Hf; [split; [by split|intros w' [= <-]; by exists d]|]. apply (prepareForOperatorNew_ok _ fuel); [|lia|by eexists|done|done].
  intros u w1 Hu Hsome Hb1 Hok1. by apply (IH u w1).
Qed.

End create.
