(* ===== verification/ClassVtableProps.v ===== *)
(** * Class types: the properties

    The layout of classes keeps the invariant; a derived class has the virtual
    tables of its base classes in its own; a virtual call reaches the final
    overrider, with the address of its own part of the object. *)

From S2P Require Import Prelude Box StructLayout ClassVtable ClassVtableSpec ClassVtableInv ClassVtableLayout ClassVtableInvariant ClassVtableDispatch ClassCreate.

Open Scope nat_scope.

(** ** Modules before any layout *)

Definition fresh_function (functions : gmap nat Function) (c f : nat) : bool :=
  match functions !! f with
  | Some fn => bool_decide (fn_virtualOriginClassType fn = None) && (fst (fn_thisArgType fn) =? c) && (fst (fn_thisType fn) =? c)
  | None => false
  end.

Definition fresh_property (w : World) (p : nat) : bool :=
  match w_properties w !! p with
  | Some pr => bool_decide (p_vtable pr = []) &&
      forallb (λ f, match w_functions w !! f with
        | Some fn => negb (bool_decide (fn_storageKind fn = StorageKind_Override))
        | None => false
        end) (accessors pr)
  | None => false
  end.

Definition fresh_type (w : World) (c : nat) (d : DerivableType) : bool :=
  bool_decide (d_typeKind d = TypeKind_Class) && negb (d_layoutReady d) && bool_decide (d_vtable d = []) &&
  bool_decide (d_vtableStructType d = None) && bool_decide (d_baseTypeMap d = ∅) && bool_decide (d_classBaseTypeArray d = []) &&
  forallb (λ s, s_type s <? c) (d_baseTypeList d) && forallb (fresh_function (w_functions w) c) (owned w d) &&
  forallb (fresh_property w) (d_virtualPropertyArray d) && bool_decide (NoDup (owned w d)).

(** A module whose classes, all of them before their derived classes, wait for their layout. *)
Definition fresh_world (w : World) : bool :=
  bool_decide (map_Forall (λ c d, fresh_type w c d = true) (w_types w)) &&
  bool_decide (map_Forall (λ _ fn, fn_virtualOriginClassType fn = None) (w_functions w)).

Lemma forallb_elem {A} (P : A → bool) l x : forallb P l = true → x ∈ l → P x = true.
Proof. intros Hl Hx. rewrite forallb_forall in Hl. by apply Hl, list_elem_of_In. Qed.

Lemma fresh_type_inv w c d : fresh_type w c d = true → d_layoutReady d = false ∧ NoDup (owned w d) ∧ fresh_class w c d ∧
  ∀ f, f ∈ owned w d → fresh_function (w_functions w) c f = true.
Proof.
  unfold fresh_type. intros H. to_prop. split; [done|]. split; [done|].
  assert (Hf : ∀ f, f ∈ owned w d → fresh_function (w_functions w) c f = true) by (intros f; by apply (forallb_elem (fresh_function (w_functions w) c))).
  split; [|done]. split; try done. 
  - intros s Hs. pose proof (forallb_elem (λ s, s_type s <? c) _ s ltac:(eassumption) Hs) as Hlt. by apply Nat.ltb_lt in Hlt.
  - intros f Hin. specialize (Hf f Hin). unfold fresh_function in Hf. destruct (w_functions w !! f) as [fn|]; [|done].
    to_prop. by exists fn.
  - intros p f Hp Hin. pose proof (forallb_elem (fresh_property w) _ p ltac:(eassumption) Hp) as Hpr. unfold fresh_property in Hpr.
    unfold property_accessors in Hin. destruct (w_properties w !! p) as [pr|]; [|done]. to_prop.
    pose proof (forallb_elem _ _ f ltac:(eassumption) Hin) as Hk. cbn in Hk. destruct (w_functions w !! f) as [fn|]; [|done].
    to_prop. by exists fn.
  - intros p Hp. pose proof (forallb_elem (fresh_property w) _ p ltac:(eassumption) Hp) as Hpr. unfold fresh_property in Hpr.
    destruct (w_properties w !! p) as [pr|]; [|done]. to_prop. by exists pr.
Qed.

Lemma fresh_world_ok w : fresh_world w = true → world_ok w.
Proof.
  unfold fresh_world. intros H. to_prop.
  assert (Ht : ∀ c d, w_types w !! c = Some d → d_layoutReady d = false ∧ NoDup (owned w d) ∧ fresh_class w c d ∧
    ∀ f, f ∈ owned w d → fresh_function (w_functions w) c f = true) by (intros c d Hd; by apply fresh_type_inv, (H c d)).
  assert (Hthis : ∀ c d f fn, w_types w !! c = Some d → f ∈ owned w d → w_functions w !! f = Some fn →
    fst (fn_thisType fn) = c).
  { intros c d f fn Hd Hf Hfn. destruct (Ht c d Hd) as (_ & _ & _ & Hfr). specialize (Hfr f Hf). unfold fresh_function in Hfr.
    rewrite Hfn in Hfr. by to_prop. }
  split.
  - intros c d Hd _ Hr. destruct (Ht c d Hd) as (? & _). congruence.
  - intros c d Hd _. by destruct (Ht c d Hd) as (_ & _ & ? & _).
  - intros c d Hd Hk. destruct (Ht c d Hd) as (_ & _ & Hf & _). by destruct Hk; apply (fc_kind _ _ _ Hf).
  - intros g fn a Hg Ha. pose proof (H0 g fn Hg). cbn in *. congruence.
  - intros c d Hd. by destruct (Ht c d Hd) as (_ & ? & _).
  - intros c c' d d' f Hd Hd' Hne Hf Hf'. apply Hne. destruct (Ht c d Hd) as (_ & _ & Hfr & _).
    destruct (fc_functions _ _ _ Hfr f Hf) as (fn & Hfn & _). by rewrite <- (Hthis c d f fn Hd Hf Hfn), (Hthis c' d' f fn Hd' Hf' Hfn).
  - exact Hthis.
Qed.

(** *** Names *)

Definition has_name (w : World) (name : string) (f : nat) : bool :=
  match w_functions w !! f with Some fn => bool_decide (fn_name fn = name) | None => true end.

Definition item_named (w : World) (name : string) (item : ModuleItem) : bool :=
  match item with
  | ItemFunction f => has_name w name f
  | ItemFunctionOverload fs => forallb (has_name w name) fs
  | _ => true
  end.

Definition kind_named (fn : Function) : bool :=
  match fn_functionKind fn with FunctionKind_Getter | FunctionKind_Setter => bool_decide (fn_name fn = ""%string) | _ => true end.

(** Whether a module is [named]. *)
Definition named_module (w : World) : bool :=
  bool_decide (map_Forall (λ _ d, map_Forall (λ name item, item_named w name item = true) (d_items d)) (w_types w)) &&
  bool_decide (map_Forall (λ _ pr, forallb (has_name w "") (accessors pr) = true) (w_properties w)) &&
  bool_decide (map_Forall (λ _ fn, kind_named fn = true) (w_functions w)).

Lemma has_name_named w name f : has_name w name f = true → named_as w name f.
Proof. unfold has_name. intros H fn Hfn. rewrite Hfn in H. by to_prop. Qed.

Lemma named_module_ok w : named_module w = true → named w.
Proof.
  unfold named_module. intros [ [H1%bool_decide_eq_true H2%bool_decide_eq_true]%andb_true_iff H3%bool_decide_eq_true]%andb_true_iff. split.
  - intros t d name f Hd Hi. apply has_name_named. exact (H1 t d Hd name _ Hi).
  - intros t d name fs f Hd Hi Hf. apply has_name_named. pose proof (H1 t d Hd name _ Hi) as Hfs. by apply (forallb_elem _ _ _ Hfs).
  - intros p pr f Hp Hf. apply has_name_named. pose proof (H2 p pr Hp) as Hfs. by apply (forallb_elem _ _ _ Hfs).
  - intros f fn Hf Hk. pose proof (H3 f fn Hf) as Hn. cbn in Hn. unfold kind_named in Hn. destruct Hk as [Hk|Hk]; rewrite Hk in Hn; by to_prop.
Qed.

(** *** Ambiguity *)

(** The paths to the base classes, and to the class itself. *)
Fixpoint paths (types : gmap nat DerivableType) (fuel c : nat) : list (list nat * nat) :=
  ([], c) :: match fuel, types !! c with
  | S fuel, Some d => concat (imap (λ i s, (λ πx, (i :: πx.1, πx.2)) <$> paths types fuel (s_type s)) (d_baseTypeList d))
  | _, _ => []
  end.

Definition same_method (w : World) (fn : Function) (g : nat) : bool := has_signature w (fn_name fn) (fn_shortType fn) g.

Definition no_other (w : World) (a f : nat) (fn : Function) (x : nat) : bool :=
  match w_types w !! x with
  | Some d => forallb (λ g, negb (same_method w fn g) || (x =? a) && (g =? f)) (d_virtualMethodArray d)
  | None => true
  end.

(** Whether a method is [unambiguous]. *)
Definition is_unambiguous (w : World) (c a f : nat) (fn : Function) : bool :=
  let ps := paths (w_types w) c c in
  bool_decide (map_Forall (λ t d, Forall (λ s, s_type s < t) (d_baseTypeList d)) (w_types w)) &&
  (length (filter (λ πx, πx.2 = a) ps) <=? 1) && forallb (λ πx, no_other w a f fn πx.2) ps.

Lemma paths_complete types : map_Forall (λ t d, Forall (λ s, s_type s < t) (d_baseTypeList d)) types →
  ∀ π fuel c x, c ≤ fuel → subobject types c π = Some x → (π, x) ∈ paths types fuel c.
Proof.
  intros Hb. induction π as [|i π IH]; intros fuel c x Hc Hs.
  { cbn in Hs. injection Hs as ->. destruct fuel; by left. }
  cbn in Hs. apply bind_Some in Hs as (d & Hd & Hs). apply bind_Some in Hs as (s & Hi & Hs).
  pose proof (Hb c d Hd) as Hlt. cbn in Hlt. rewrite Forall_forall in Hlt. specialize (Hlt s ltac:(by eapply list_elem_of_lookup_2)).
  destruct fuel as [|fuel]; [lia|]. cbn [paths]. rewrite Hd. right. apply list_elem_of_In, in_concat.
  eexists. split; [apply list_elem_of_In, list_elem_of_lookup; exists i; by rewrite list_lookup_imap, Hi|].
  apply list_elem_of_In, list_elem_of_fmap. exists (π, x). split; [done|]. apply IH; [lia|done].
Qed.

Lemma is_unambiguous_ok w c a f fn : is_unambiguous w c a f fn = true → unambiguous w c a f fn.
Proof.
  unfold is_unambiguous. intros [ [Hb%bool_decide_eq_true H1%Nat.leb_le]%andb_true_iff H2]%andb_true_iff.
  pose proof (paths_complete (w_types w) Hb) as Hp. split.
  - intros π π' H H'. pose proof (Hp π c c a ltac:(lia) H) as Hin. pose proof (Hp π' c c a ltac:(lia) H') as Hin'.
    assert (E : (π, a) ∈ filter (λ πx, πx.2 = a) (paths (w_types w) c c)) by (by apply list_elem_of_filter).
    assert (E' : (π', a) ∈ filter (λ πx, πx.2 = a) (paths (w_types w) c c)) by (by apply list_elem_of_filter).
    destruct (filter _ _) as [|y [|z l]]; [by apply not_elem_of_nil in E| |cbn in H1; lia].
    apply list_elem_of_singleton in E, E'. congruence.
  - intros π x g fng Hx (d & Hd & _ & Hg & Hfg) En Et. pose proof (Hp π c c x ltac:(lia) Hx) as Hin.
    pose proof (forallb_elem _ _ _ H2 Hin) as Hn. cbn in Hn. unfold no_other in Hn. rewrite Hd in Hn.
    pose proof (forallb_elem _ _ _ Hn Hg) as Hm. cbn in Hm. unfold same_method, has_signature in Hm. rewrite Hfg in Hm.
    rewrite bool_decide_true in Hm by done. rewrite (proj2 (N.eqb_eq _ _)) in Hm by done. cbn in Hm.
    by apply andb_true_iff in Hm as [?%Nat.eqb_eq ?%Nat.eqb_eq].
Qed.

(** ** Paths *)

Section paths.
Variables (w : World).
Hypothesis W : world_ok w.

Lemma subobject_app π ρ : ∀ c, subobject (w_types w) c (π ++ ρ) = subobject (w_types w) c π ≫= λ x, subobject (w_types w) x ρ.
Proof.
  induction π as [|i π IH]; intros c; [done|]. cbn. destruct (w_types w !! c) as [d|]; [|done]. cbn.
  destruct (d_baseTypeList d !! i); [|done]. cbn. apply IH.
Qed.

Lemma path_vtableIndex_app π ρ : ∀ c x v u, subobject (w_types w) c π = Some x → path_vtableIndex (w_types w) c π = Some v →
  path_vtableIndex (w_types w) x ρ = Some u → path_vtableIndex (w_types w) c (π ++ ρ) = Some (v + u).
Proof.
  induction π as [|i π IH]; intros c x v u Hs Hv Hu; [cbn in *; by simplify_eq|]. cbn in *.
  destruct (w_types w !! c) as [d|]; [|done]. cbn in *. destruct (d_baseTypeList d !! i) as [s|]; [|done]. cbn in *.
  apply add_index_Some in Hv as (v' & y & Hv & Hy & ->). rewrite (IH _ _ _ _ Hs Hv Hu), Hy. unfold add_index. cbn. f_equal. lia.
Qed.

(** Every base class of a class has an index in its table. *)
Lemma path_vtableIndex_Some π : ∀ c a, ready w c → subobject (w_types w) c π = Some a → is_class (w_types w) a = true →
  is_Some (path_vtableIndex (w_types w) c π).
Proof.
  induction π as [|i π IH]; intros c a Hr Hs Ha; [by eexists|].
  assert (Hc : is_class (w_types w) c = true) by (by eapply subobject_class). pose proof Hr as (d & Hd & _).
  cbn in Hs |- *. rewrite Hd in Hs |- *. cbn in *. apply bind_Some in Hs as (s & Hi & Hs). rewrite Hi. cbn.
  pose proof (ready_closed w c d s W Hr Hd ltac:(by eapply list_elem_of_lookup_2)) as Hrs.
  destruct (IH (s_type s) a Hrs Hs Ha) as [v ->]. rewrite (slot_class w W c d i s); [by eexists|done..|].
  by eapply subobject_class.
Qed.

Lemma path_offset_Some π : ∀ c a, subobject (w_types w) c π = Some a → is_Some (path_offset (w_types w) c π).
Proof.
  induction π as [|i π IH]; intros c a Hs; [by eexists|]. cbn in Hs |- *. destruct (w_types w !! c) as [d|]; [|done]. cbn in *.
  destruct (d_baseTypeList d !! i) as [s|]; [|done]. cbn in *. destruct (IH _ _ Hs) as [o ->]. by eexists.
Qed.

(** The table of a base class is a part of that of the class. *)
Lemma struct_part π : ∀ c d b db v k ty, ready w c → w_types w !! c = Some d → is_class (w_types w) b = true →
  w_types w !! b = Some db → subobject (w_types w) c π = Some b → path_vtableIndex (w_types w) c π = Some v →
  default [] (d_vtableStructType db) !! k = Some ty → default [] (d_vtableStructType d) !! (v + k) = Some ty.
Proof.
  induction π as [|i π IH]; intros c d b db v k ty Hr Hd Hb Hdb Hs Hv Hk.
  - cbn in Hs, Hv. simplify_eq. done.
  - destruct (path_cons w W c d i π b v Hr Hd Hb Hs Hv) as (s & u & Hi & Hrs & Hsc & Hs' & Hv' & ->).
    assert (Hc : is_class (w_types w) c = true) by (by eapply subobject_class).
    pose proof Hrs as (ds & Hds & _). specialize (IH (s_type s) ds b db u k ty Hrs Hds Hb Hdb Hs' Hv' Hk).
    destruct (ready_class w W c d Hr Hc Hd) as (own & qs & Hok). destruct (ck_struct _ _ _ _ _ _ Hok) as (l & -> & _).
    rewrite <- base_lengths.
    2:{ intros t' dt Ht' Hdt. eapply (ready_bases_typed w W c); [done|done| |done]. apply list_elem_of_lookup in Ht' as [j Hj].
        apply lookup_take_Some in Hj as [Hj _]. by eapply list_elem_of_lookup_2. }
    rewrite <- Nat.add_assoc. apply (concat_block _ _ i (s_type s)); [by rewrite list_lookup_fmap, Hi|]. rewrite Hds.
    rewrite (is_class_kind _ _ _ Hds) in Hsc. to_prop. by rewrite decide_True.
Qed.
End paths.

(** ** Layouts of classes, one after the other *)

Section layouts.
Context `{Axl} (E : env) (IfaceHdr BoxType : type).

Definition layouts (cs : list nat) : C unit := for_each cs (ensureLayout E IfaceHdr BoxType).

Lemma ensureLayout_ok c w w' : world_ok w → ensureLayout E IfaceHdr BoxType c w = inl (tt, w') →
  world_ok w' ∧ ready w' c ∧ same_names w w'.
Proof.
  intros W He. unfold ensureLayout in He. apply cbind_inv in He as (d & w1 & H1 & He). apply get_type_inv in H1 as [Hd ->].
  destruct (d_layoutReady d) eqn:Hr.
  - apply mret_inv in He as [_ <-]. split; [done|]. split; [by exists d|done].
  - by eapply calcLayout_ok.
Qed.

Lemma layouts_same cs : ∀ w w', world_ok w → layouts cs w = inl (tt, w') → world_ok w' ∧ same_names w w'.
Proof.
  induction cs as [|c cs IH]; intros w w' W Hl; cbn in Hl; [by apply mret_inv in Hl as [_ <-]|].
  apply cbind_inv in Hl as ([] & w1 & H1 & Hl). destruct (ensureLayout_ok _ _ _ W H1) as (W1 & _ & S1).
  destruct (IH w1 w' W1 Hl) as [W2 S2]. split; [done|]. by etransitivity.
Qed.

Lemma layouts_ok cs w w' : world_ok w → layouts cs w = inl (tt, w') → world_ok w'.
Proof. apply layouts_same. Qed.
End layouts.

(** ** The properties *)

(** C22: A layout of a class that succeeds keeps the invariant of all classes: the base
    types are laid out and come before, the virtual table is those of the base classes
    and the own functions with the overrides written in, every entry has the type of
    its field, and every function in tables has the class and the index that declare it. *)
Theorem layout_invariant `{Axl} E IfaceHdr BoxType c w d w' : world_ok w → w_types w !! c = Some d → d_layoutReady d = false →
  calcLayout E IfaceHdr BoxType c w = inl (tt, w') → world_ok w' ∧ ready w' c.
Proof. intros W Hd Hr Hl. by destruct (calcLayout_ok _ _ _ _ _ _ W Hd Hr _ Hl) as (? & ? & _). Qed.

(** C25: After any layouts of classes, the virtual table of a class has, at the index of
    each of its base classes, fields of the types of that base class, and the entries
    are functions of these types. *)
Theorem vtable_types `{Axl} E IfaceHdr BoxType cs w w' c d π b db : world_ok w → layouts E IfaceHdr BoxType cs w = inl (tt, w') →
  w_types w' !! c = Some d → d_layoutReady d = true → subobject (w_types w') c π = Some b →
  w_types w' !! b = Some db → d_typeKind db = TypeKind_Class →
  ∃ v, path_vtableIndex (w_types w') c π = Some v ∧ length (d_vtable d) = length (default [] (d_vtableStructType d)) ∧
    ∀ k ty, default [] (d_vtableStructType db) !! k = Some ty →
      ∃ f fn, d_vtable d !! (v + k) = Some f ∧ w_functions w' !! f = Some fn ∧ slot_type fn = ty.
Proof.
  intros W0 Hl Hd Hr Hs Hdb Hkb. pose proof (layouts_ok _ _ _ _ _ _ W0 Hl) as W. assert (Hrc : ready w' c) by (by exists d).
  assert (Hb : is_class (w_types w') b = true) by (by rewrite (is_class_kind _ _ _ Hdb), bool_decide_true).
  destruct (path_vtableIndex_Some w' W π c b Hrc Hs Hb) as [v Hv]. exists v. split; [done|].
  pose proof (ready_typed w' c d W Hd Hr) as Ht. split; [symmetry; by eapply vtable_typed_length|]. intros k ty Hk.
  pose proof (struct_part w' W π c d b db v k ty Hrc Hd Hb Hdb Hs Hv Hk) as He. unfold vtable_typed in Ht.
  destruct (d_vtableStructType d) as [l|]; [|done]. cbn in He. destruct (Forall2_lookup_r _ _ _ _ _ Ht He) as (f & Hf & Hfn).
  destruct (w_functions w' !! f) as [fn|] eqn:Hfn'; [|done]. injection Hfn as <-. by exists f, fn.
Qed.

Section calls.
Variables (w : World).
Hypothesis W : world_ok w.

(** The function found for a virtual call of [h] by a pointer to the base class [b] of [c]. *)
Lemma call_target c d ρ b h fn j : w_types w !! c = Some d → d_layoutReady d = true → subobject (w_types w) c ρ = Some b →
  w_functions w !! h = Some fn → getVirtualMethod w b fn = Some j →
  ∃ a k f fnf σ v m g, fn_virtualOriginClassType fn = Some a ∧ declares w a k f fnf ∧ slot_type fn = slot_type fnf ∧
    subobject (w_types w) b σ = Some a ∧ (σ = [] ∨ find_path (w_types w) (S b) b a = Some σ) ∧
    path_vtableIndex (w_types w) c ρ = Some v ∧ final_overrider w c (ρ ++ σ) a k f = (m, g) ∧ d_vtable d !! (v + j) = Some g.
Proof.
  intros Hd Hr Hs Hh Hj. assert (Hrc : ready w c) by (by exists d). unfold getVirtualMethod in Hj.
  apply bind_Some in Hj as (k & Hk & Hj). apply bind_Some in Hj as (a & Ha & Hj).
  destruct (wo_origin w W h fn a Hh Ha) as (_ & k' & f & fnf & Hk' & Hf & Hty & _). assert (k' = k) as -> by congruence.
  destruct (declares_class w W _ _ _ _ Hf) as [Hca Hra]. pose proof (subobject_ready w ρ W c b Hrc Hs) as Hrb.
  assert (Hσ : ∃ σ u, subobject (w_types w) b σ = Some a ∧ (σ = [] ∨ find_path (w_types w) (S b) b a = Some σ) ∧
    path_vtableIndex (w_types w) b σ = Some u ∧ j = u + k).
  { case_decide as Hba.
    - exists [], 0. cbn. simplify_eq. auto.
    - apply bind_Some in Hj as (coord & Hco & Hj). apply bind_Some in Hj as (start & Hst & [= <-]).
      destruct (ready_coord w W b a coord Hrb Hca Hco) as (σ & P1 & P2 & P3 & P4 & P5). exists σ, start.
      rewrite P4. repeat split; auto with lia. }
  destruct Hσ as (σ & u & S1 & S2 & S3 & ->).
  assert (Hb : is_class (w_types w) b = true) by (by eapply subobject_class).
  destruct (path_vtableIndex_Some w W ρ c b Hrc Hs Hb) as [v Hv].
  assert (Hsa : subobject (w_types w) c (ρ ++ σ) = Some a) by (by rewrite subobject_app, Hs).
  pose proof (path_vtableIndex_app w ρ σ c b v u Hs Hv S3) as Hva.
  pose proof (entry_overrider w W (ρ ++ σ) c d a (v + u) k f fnf Hrc Hd Hsa Hva Hf) as He.
  destruct (final_overrider w c (ρ ++ σ) a k f) as [m g] eqn:Hg. exists a, k, f, fnf, σ, v, m, g.
  repeat (split; [done|]). by rewrite Nat.add_assoc.
Qed.

(** A method of a base class with the name and the signature of a method that is not ambiguous has its place in tables. *)
Lemma method_origin c a f fnf k ξ x h fn : named w → ready w c → declares w a k f fnf → fn_name fnf ≠ ""%string →
  unambiguous w c a f fnf → subobject (w_types w) c ξ = Some x → method_of w x h fn →
  fn_name fn = fn_name fnf → fn_shortType fn = fn_shortType fnf →
  fn_virtualOriginClassType fn = Some a ∧ fn_classVtableIndex fn = Some k.
Proof.
  intros N Hr Hf Hne U Hx (dx & Hdx & Hk & Hh & Hfn) En Et. pose proof (subobject_ready w ξ W c x Hr Hx) as Hrx.
  assert (Hcx : is_class (w_types w) x = true) by (rewrite (is_class_kind _ _ _ Hdx); by apply bool_decide_eq_true).
  apply elem_of_app in Hh as [Hh|Hh].
  - assert (Hi : introduces w x h fn) by (by exists dx). destruct (ua_method _ _ _ _ _ U ξ x h fn Hx Hi En Et) as [-> ->].
    destruct Hf as (Hf1 & Hf2 & Hf3 & _). by simplify_eq.
  - destruct (override_of w W x dx h N Hrx Hdx Hcx Hh) as (fng & a' & k' & f' & fn' & π & O1 & O2 & O3 & O4 & O5 & O6 & _ & O8).
    simplify_eq. destruct (ua_method _ _ _ _ _ U (ξ ++ π) a' f' fn') as [-> ->]; [by rewrite subobject_app, Hx| |congruence..|].
    { eapply declares_introduces; [done|done|done|congruence]. }
    destruct Hf as (Hf1 & _ & Hf3 & _), O4 as (Hf1' & _ & Hf3' & _). split; congruence.
Qed.

(** The index the compiler takes is that of the path. *)
Lemma getVirtualMethod_path c a f fnf k ρ b σ fn : ready w c → declares w a k f fnf → unambiguous w c a f fnf →
  subobject (w_types w) c ρ = Some b → subobject (w_types w) b σ = Some a →
  fn_virtualOriginClassType fn = Some a → fn_classVtableIndex fn = Some k →
  ∃ u, path_vtableIndex (w_types w) b σ = Some u ∧ getVirtualMethod w b fn = Some (u + k).
Proof.
  intros Hr Hf U Hb Ha Ho Hk. destruct (declares_class w W _ _ _ _ Hf) as [Hca _]. pose proof (subobject_ready w ρ W c b Hr Hb) as Hrb.
  assert (Hpath : ∀ π, subobject (w_types w) b π = Some a → π = σ).
  { intros π Hπ. apply (app_inv_head ρ). apply (ua_path _ _ _ _ _ U); by rewrite subobject_app, Hb. }
  unfold getVirtualMethod. rewrite Hk, Ho. cbn [mbind option_bind]. case_decide as Hba.
  - subst b. rewrite <- (Hpath []) by done. by exists 0.
  - destruct (find_path_complete w W a (S b) b σ) as [π Hπ]; [lia|done..|by intros ->; cbn in Ha; congruence|].
    destruct (ready_path w W b a π Hrb Hca Hπ) as (coord & P1 & _ & P3 & P4 & _). rewrite P1. cbn [mbind option_bind].
    rewrite <- P4, (Hpath π P3). destruct (path_vtableIndex_Some w W σ b a Hrb Ha Hca) as [u Hu]. rewrite Hu. cbn.
    exists u. split; [done|]. f_equal. lia.
Qed.
End calls.

(** C5: A virtual call reaches the method of the most derived class. Let the module have the names the parser
    gives, let the class [a] introduce the method [f], and let the object be of a class [c] in which [f] is not ambiguous:
    [a] is a base class once, and no other method of the name and signature is introduced. After any layouts, for a
    pointer to a base class [b] of [c], and [f] or any method of that name and signature of a base class of [c], there is an index
    the compiler takes, and the part of the table of [c] for [b] has there the override of the most derived class on the path
    from [c] by [b] to [a], by the names and signatures in the source, else [f]. *)
Theorem virtual_dispatch `{Axl} E IfaceHdr BoxType cs w w' c d a f fnf ρ b σ ξ x h fn : world_ok w → named w →
  layouts E IfaceHdr BoxType cs w = inl (tt, w') → w_types w' !! c = Some d → d_layoutReady d = true →
  introduces w' a f fnf → fn_name fnf ≠ ""%string → unambiguous w' c a f fnf →
  subobject (w_types w') c ρ = Some b → subobject (w_types w') b σ = Some a →
  subobject (w_types w') c ξ = Some x → method_of w' x h fn → fn_name fn = fn_name fnf → fn_shortType fn = fn_shortType fnf →
  ∃ j v, getVirtualMethod w' b fn = Some j ∧ path_vtableIndex (w_types w') c ρ = Some v ∧
    d_vtable d !! (v + j) = Some (most_derived w' (fn_name fnf) (fn_shortType fnf) c (ρ ++ σ) f).
Proof.
  intros W0 N0 Hl Hd Hr Hi Hne U Hb Ha Hx Hh En Et. destruct (layouts_same _ _ _ _ _ _ W0 Hl) as [W S'].
  pose proof (named_same _ _ S' N0) as N. assert (Hrc : ready w' c) by (by exists d).
  assert (Hsa : subobject (w_types w') c (ρ ++ σ) = Some a) by (by rewrite subobject_app, Hb).
  pose proof (introduces_class w' a f fnf Hi) as Hca. pose proof (subobject_ready w' ρ W c b Hrc Hb) as Hrb.
  destruct (introduces_declares w' W a f fnf (subobject_ready w' _ W c a Hrc Hsa) Hi) as [k Hf].
  destruct (method_origin w' W c a f fnf k ξ x h fn N Hrc Hf Hne U Hx Hh En Et) as [Ho Hk].
  destruct (getVirtualMethod_path w' W c a f fnf k ρ b σ fn Hrc Hf U Hb Ha Ho Hk) as (u & Hu & Hj).
  destruct (path_vtableIndex_Some w' W ρ c b Hrc Hb) as [v Hv]; [by eapply subobject_class|].
  pose proof (path_vtableIndex_app w' ρ σ c b v u Hb Hv Hu) as Hvu.
  pose proof (entry_overrider w' W (ρ ++ σ) c d a (v + u) k f fnf Hrc Hd Hsa Hvu Hf) as He.
  rewrite (most_derived_overrider w' W (ρ ++ σ) c a k f fnf) in He by done. exists (u + k), v. split; [done|]. split; [done|]. by rewrite Nat.add_assoc.
Qed.

(** C24: The function a virtual call reaches has the signature of the call, and its [this] is its
    own part of the object: an override subtracts the offset of the base class that declares the
    method from the pointer to that, when the offset is at most 2 GB. *)
Theorem virtual_this `{Axl} E IfaceHdr BoxType cs w w' c d ρ b h fn j : world_ok w →
  layouts E IfaceHdr BoxType cs w = inl (tt, w') → w_types w' !! c = Some d → d_layoutReady d = true →
  subobject (w_types w') c ρ = Some b → w_functions w' !! h = Some fn → getVirtualMethod w' b fn = Some j →
  (∀ a k f fnf, declares w' a k f fnf → fn_thisArgType fnf = fn_thisType fnf) →
  ∃ σ v m g fng x o ox oa, subobject (w_types w') b σ = fn_virtualOriginClassType fn ∧
    path_vtableIndex (w_types w') c ρ = Some v ∧ d_vtable d !! (v + j) = Some g ∧ w_functions w' !! g = Some fng ∧
    slot_type fng = slot_type fn ∧ fst (fn_thisType fng) = x ∧
    path_offset (w_types w') c (ρ ++ σ) = Some o ∧
    subobject (w_types w') c (take m (ρ ++ σ)) = Some x ∧ path_offset (w_types w') c (take m (ρ ++ σ)) = Some ox ∧
    path_offset (w_types w') x (drop m (ρ ++ σ)) = Some oa ∧
    ((oa ≤ 2 ^ 31)%N → ∀ object, createThisValue fng (add64 object o) = add64 object ox).
Proof.
  intros W0 Hl Hd Hr Hs Hh Hj Hthis. pose proof (layouts_ok _ _ _ _ _ _ W0 Hl) as W. assert (Hrc : ready w' c) by (by exists d).
  destruct (call_target w' W c d ρ b h fn j Hd Hr Hs Hh Hj) as (a & k & f & fnf & σ & v & m & g & C1 & C2 & C3 & C4 & C5 & C6 & C7 & C8).
  assert (Hsa : subobject (w_types w') c (ρ ++ σ) = Some a) by (by rewrite subobject_app, Hs).
  destruct (overrider_class w' W (ρ ++ σ) c a k f fnf m g Hrc Hsa C2 C7) as (x & fng & D1 & D2 & D3 & D4 & D5).
  destruct (path_offset_Some w' (ρ ++ σ) c a Hsa) as [o Ho].
  destruct (path_offset_split w' (ρ ++ σ) m c o Ho) as (x' & ox & oa & E1 & E2 & E3). assert (x' = x) as -> by congruence.
  assert (Hx : fst (fn_thisType fng) = x).
  { destruct D5 as [ [-> Hm]|(_ & _ & _ & _ & _ & ?)]; [|done]. rewrite Hm in D2. cbn in D2. injection D2 as ->.
    destruct C2 as [F1 F2]. assert (fng = fnf) as -> by congruence. rewrite <- (Hthis a k f fnf) by done.
    destruct (wo_origin w' W f fnf a F1 ltac:(apply F2)) as (_ & ? & ? & ? & _ & _ & _ & ? & _). done. }
  exists σ, v, m, g, fng, x, o, ox, oa. repeat (split; [congruence|]). intros Hoa object.
  pose proof (path_offset_app w' (take m (ρ ++ σ)) (drop m (ρ ++ σ)) c x ox oa D1 E2 E3) as Happ. rewrite take_drop, Ho in Happ.
  injection Happ as ->. destruct D5 as [ [-> Hm]|(Hne & o' & A1 & A2 & A3 & A4)].
  - rewrite Hm in E3. cbn in E3. injection E3 as <-. assert (fng = fnf) as -> by (destruct C2 as [? _]; congruence).
    unfold createThisValue. rewrite decide_True by (by eapply Hthis). f_equal. unfold add64, wrap64. cbn. apply N.mod_small.
    by eapply path_offset_lt.
  - rewrite A1 in E3. injection E3 as <-. rewrite <- (createThisValue_adjusted fng o' (add64 object ox)) at 1; [| |done|done|].
    + f_equal. unfold add64, wrap64. rewrite !N.Div0.add_mod_idemp_l, !N.Div0.add_mod_idemp_r. f_equal. lia.
    + intros Heq. apply Hne. rewrite <- A3, <- A4. by rewrite Heq.
    + unfold add64, wrap64. by apply N.mod_lt.
Qed.

(** C23: [ensureCreatable] returns, and a class it accepts is marked. Classes that are marked
    have their virtual table, when they have virtual methods, with no abstract method in it. *)
Theorem creatable_safe E c w : fields_before w → creatable_ok E w → is_Some (w_types w !! c) →
  ∃ r w', ensureCreatable E (S c) c w = Some (r, w') ∧ creatable_ok E w' ∧
    (r = true → ∃ d, w_types w' !! c = Some d ∧ creatable d).
Proof.
  intros Hb Hok Hc. destruct (ensureCreatable_ok E (S c) c w ltac:(lia) Hc Hb Hok) as [He Hm].
  destruct (ensureCreatable E (S c) c w) as [ [r w']|]; [|done]. exists r, w'. split; [done|]. split; [apply He|].
  intros ->. by apply Hm.
Qed.

(** ** A concrete module *)

#[local] Instance axl : Axl := {| sl_align n a := (n + a - 1) / a * a |}%N.

Definition compiler : env := mkEnv true true true true true None false.

Definition hdr_type : type := mkType 1 16 8 TypeFlag_Pod false true false false 0 true.
Definition box_type : type := mkType 2 16 8 TypeFlag_Pod false true false false 0 true.
Definition int_type : type := mkType 3 4 4 TypeFlag_Pod false false false false 0 true.

Definition method (name : string) (kind : StorageKind) (signature : N) (c : nat) : Function :=
  mkFunction name FunctionKind_Normal kind signature 0 true (c, 0%N) (c, 0%N) 0 None None.

Definition class (c : nat) (name : string) (items : list (string * ModuleItem)) (bases : list nat) (fields : list (Field * option nat))
    (methods overrides properties : list nat) : DerivableType :=
  mkDerivable TypeKind_Class name 0 false (mkType (N.of_nat c + 100) 0 1 0 true true false false 0 true) (list_to_map items) []
    ((λ b, mkBaseSlot b 0 None None) <$> bases) ∅ [] [] [] false [] [] ∅ None None
    (foldl (λ s f, createField (fst f) s) (newStruct StructTypeKind_IfaceStruct 8) fields) (newStruct StructTypeKind_ClassStruct 8)
    (snd <$> fields) false 0 [] [] [] [] methods overrides properties [] None false.

Definition int_field : Field * option nat := (newField int_type 0 0, None).

(** [class A { int x; virtual foo(); virtual bar(); }], [class B { int y; virtual baz(); }],
    [class C: B, A { int z; override foo(); virtual qux(); }],
    [class D: C { override bar(); int virtual property size; }] *)
Definition module0 : World := mkWorld
  (list_to_map [(0, method "foo" StorageKind_Virtual 10 0); (1, method "bar" StorageKind_Virtual 11 0);
    (2, method "baz" StorageKind_Virtual 12 1); (3, method "foo" StorageKind_Override 10 2);
    (4, method "qux" StorageKind_Virtual 13 2); (5, method "bar" StorageKind_Override 11 3);
    (6, fn_set_functionKind FunctionKind_Getter (method "" StorageKind_Virtual 14 3))])
  {[0 := mkProperty StorageKind_Virtual 3 None 6 NoFunction [] None]}
  (list_to_map [(0, class 0 "A" [("foo", ItemFunction 0); ("bar", ItemFunction 1)]%string [] [int_field] [0; 1] [] []);
    (1, class 1 "B" [("baz", ItemFunction 2)]%string [] [int_field] [2] [] []);
    (2, class 2 "C" [("foo", ItemFunction 3); ("qux", ItemFunction 4)]%string [1; 0] [int_field] [4] [3] []);
    (3, class 3 "D" [("bar", ItemFunction 5); ("size", ItemProperty 0)]%string [2] [] [] [5] [0])]).

Definition laid_out (w : World) (cs : list nat) : World :=
  match layouts compiler hdr_type box_type cs w with inl (_, w) => w | inr _ => w end.

(** The module, with its classes laid out. *)
Definition module1 : World := laid_out module0 [0; 1; 2; 3].

Definition class_of (w : World) (c : nat) : DerivableType := default (class 0 "" [] [] [] [] [] []) (w_types w !! c).
Definition function_of (w : World) (f : nat) : Function := default (method "" StorageKind_Undefined 0 0) (w_functions w !! f).

Lemma module0_ok : world_ok module0.
Proof. apply fresh_world_ok. by vm_compute. Qed.

Lemma module1_laid : layouts compiler hdr_type box_type [0; 1; 2; 3] module0 = inl (tt, module1).
Proof. by vm_compute. Qed.

Lemma layout_invariant_witness : ∃ w', calcLayout compiler hdr_type box_type 0 module0 = inl (tt, w') ∧
  d_vtable (class_of w' 0) = [0; 1] ∧ world_ok w'.
Proof.
  destruct (calcLayout compiler hdr_type box_type 0 module0) as [ [ [] w']|e] eqn:Hl; [|by vm_compute in Hl].
  exists w'. split; [done|]. split; [vm_compute in Hl; by injection Hl as <-|].
  destruct (layout_invariant compiler hdr_type box_type 0 module0 (class_of module0 0) w') as [W _];
    [apply module0_ok|by vm_compute|by vm_compute|exact Hl|exact W].
Defined.

(** The part of the table of [D] for [A]. *)
Lemma vtable_types_witness : d_vtable (class_of module1 3) = [2; 3; 5; 4; 6] ∧
  ∃ f fn, d_vtable (class_of module1 3) !! 2 = Some f ∧ w_functions module1 !! f = Some fn ∧ slot_type fn = (11%N, (0, 0%N)).
Proof.
  split; [by vm_compute|].
  destruct (vtable_types compiler hdr_type box_type [0; 1; 2; 3] module0 module1 3 (class_of module1 3) [0; 1] 0 (class_of module1 0))
    as (v & Hv & _ & Hk); [apply module0_ok|apply module1_laid|by vm_compute..|].
  assert (v = 1) as -> by (vm_compute in Hv; by injection Hv as <-). apply (Hk 1). by vm_compute.
Defined.

Lemma module0_named : named module0.
Proof. apply named_module_ok. by vm_compute. Qed.

(** [A::foo] is called by a pointer to the [C] of a [D]: it is [C::foo]. *)
Lemma virtual_dispatch_witness : d_vtable (class_of module1 3) = [2; 3; 5; 4; 6] ∧
  most_derived module1 "foo" 10 3 [0; 1] 0 = 3 ∧ most_derived module1 "bar" 11 3 [0; 1] 1 = 5 ∧
  ∃ j v, getVirtualMethod module1 2 (function_of module1 0) = Some j ∧ path_vtableIndex (w_types module1) 3 [0] = Some v ∧
    d_vtable (class_of module1 3) !! (v + j) = Some (most_derived module1 "foo" 10 3 ([0] ++ [1]) 0).
Proof.
  split; [by vm_compute|]. split; [by vm_compute|]. split; [by vm_compute|].
  apply (virtual_dispatch compiler hdr_type box_type [0; 1; 2; 3] module0 module1 3 (class_of module1 3) 0 0 (function_of module1 0)
    [0] 2 [1] [0; 1] 0 0 (function_of module1 0));
    [apply module0_ok|apply module0_named|apply module1_laid|by vm_compute|by vm_compute| |by vm_compute|
     apply is_unambiguous_ok; by vm_compute|by vm_compute..| |done|done].
  - exists (class_of module1 0). split; [by vm_compute|]. split; [by vm_compute|]. split; [vm_compute; left|by vm_compute].
  - exists (class_of module1 0). split; [by vm_compute|]. split; [by vm_compute|]. split; [vm_compute; left|by vm_compute].
Defined.

(** [A::bar] is called by a pointer to the [C] of a [D]: it is [D::bar], and its [this] is the [D]. *)
Lemma virtual_this_witness : fn_thisArgDelta (function_of module1 5) = (-24)%Z ∧
  ∃ σ v m g fng x o ox oa, subobject (w_types module1) 2 σ = fn_virtualOriginClassType (function_of module1 1) ∧
    path_vtableIndex (w_types module1) 3 [0] = Some v ∧ d_vtable (class_of module1 3) !! (v + 2) = Some g ∧
    w_functions module1 !! g = Some fng ∧ slot_type fng = slot_type (function_of module1 1) ∧ fst (fn_thisType fng) = x ∧
    path_offset (w_types module1) 3 ([0] ++ σ) = Some o ∧
    subobject (w_types module1) 3 (take m ([0] ++ σ)) = Some x ∧ path_offset (w_types module1) 3 (take m ([0] ++ σ)) = Some ox ∧
    path_offset (w_types module1) x (drop m ([0] ++ σ)) = Some oa ∧
    ((oa ≤ 2 ^ 31)%N → ∀ object, createThisValue fng (add64 object o) = add64 object ox).
Proof.
  split; [by vm_compute|].
  apply (virtual_this compiler hdr_type box_type [0; 1; 2; 3] module0 module1 3 (class_of module1 3) [0] 2 1 (function_of module1 1) 2);
    [apply module0_ok|apply module1_laid|by vm_compute..|].
  assert (Hall : map_Forall (λ _ fn, fn_storageKind fn = StorageKind_Override ∨ fn_thisArgType fn = fn_thisType fn) (w_functions module1)).
  { refine (bool_decide_unpack _ _). vm_compute. exact I. }
  intros a k f fnf (Hf & _ & _ & Hk). destruct (map_Forall_lookup_1 _ _ _ _ Hall Hf) as [He|He]; [contradiction|exact He].
Defined.

(** [D] can be created: it has no abstract method. *)
Lemma creatable_safe_witness : d_vtable (class_of module1 3) = [2; 3; 5; 4; 6] ∧
  ∃ r w', ensureCreatable compiler 4 3 module1 = Some (r, w') ∧ creatable_ok compiler w' ∧
    (r = true → ∃ d, w_types w' !! 3 = Some d ∧ creatable d).
Proof.
  split; [by vm_compute|].
  assert (Hall : map_Forall (λ c d, (Forall (λ u, u < c ∧ is_Some (w_types module1 !! u)) (class_fields d) ∧
    Forall (λ b, b < c ∧ is_Some (w_types module1 !! b)) (class_bases d)) ∧
    has_flag ClassTypeFlag_Creatable (d_flags d) = false) (w_types module1)).
  { refine (bool_decide_unpack _ _). vm_compute. exact I. }
  apply (creatable_safe compiler 3 module1).
  - intros c d Hd. destruct (map_Forall_lookup_1 _ _ _ _ Hall Hd) as [ [H1 H2] _]. rewrite Forall_forall in H1, H2. split; [exact H1|exact H2].
  - intros c d Hd Hc. destruct (map_Forall_lookup_1 _ _ _ _ Hall Hd) as [_ H3]. unfold creatable in Hc. congruence.
  - eexists. by vm_compute.
Defined.

(** ** Two copies of a base class *)

(** [class A { virtual foo(); }], [class B: A {}], [class D: B, A { override foo(); }] *)
Definition module2 : World := mkWorld
  (list_to_map [(0, method "foo" StorageKind_Virtual 10 0); (1, method "foo" StorageKind_Override 10 2)])
  ∅
  (list_to_map [(0, class 0 "A" [("foo", ItemFunction 0)]%string [] [] [0] [] []); (1, class 1 "B" [] [0] [] [] [] []);
    (2, class 2 "D" [("foo", ItemFunction 1)]%string [1; 0] [] [] [1] [])]).

(** C35: The overrides of a class do not reach a second copy of a base class. After any layouts, let [a] be a base class
    of [c] at the end of a path by the slot [s] that is not the path on which the search for [a] ends (a direct base class first, else
    by the first base class that has one). Whatever [c] overrides, the table of [c] has for the methods that [a] introduces, in this
    copy, what the table of the class of the slot has. *)
Theorem override_one_copy `{Axl} E IfaceHdr BoxType cs w w' c d a f fnf i s ds π : world_ok w →
  layouts E IfaceHdr BoxType cs w = inl (tt, w') → w_types w' !! c = Some d → d_layoutReady d = true → introduces w' a f fnf →
  d_baseTypeList d !! i = Some s → w_types w' !! s_type s = Some ds → subobject (w_types w') (s_type s) π = Some a →
  find_path (w_types w') (S c) c a ≠ Some (i :: π) →
  ∃ k v v' g, fn_classVtableIndex fnf = Some k ∧ path_vtableIndex (w_types w') c (i :: π) = Some v ∧
    path_vtableIndex (w_types w') (s_type s) π = Some v' ∧ d_vtable d !! (v + k) = Some g ∧ d_vtable ds !! (v' + k) = Some g.
Proof.
  intros W0 Hl Hd Hr Hi Hs Hds Ha Hne. pose proof (layouts_ok _ _ _ _ _ _ W0 Hl) as W. assert (Hrc : ready w' c) by (by exists d).
  assert (Hsa : subobject (w_types w') c (i :: π) = Some a) by (cbn; rewrite Hd; cbn; by rewrite Hs).
  pose proof (introduces_class w' a f fnf Hi) as Hca.
  destruct (introduces_declares w' W a f fnf (subobject_ready w' _ W c a Hrc Hsa) Hi) as [k Hf].
  destruct (path_vtableIndex_Some w' W _ c a Hrc Hsa Hca) as [v Hv].
  destruct (path_cons w' W c d i π a v Hrc Hd Hca Hsa Hv) as (s' & v' & Hs' & Hrs & _ & Ha' & Hv' & _).
  assert (s' = s) as -> by congruence. pose proof (entry_overrider w' W π (s_type s) ds a v' k f fnf Hrs Hds Ha Hv' Hf) as Hes.
  pose proof (entry_overrider w' W (i :: π) c d a v k f fnf Hrc Hd Hsa Hv Hf) as Hec. cbn [final_overrider] in Hec.
  rewrite Hd, Hs in Hec. exists k, v, v', (snd (final_overrider w' (s_type s) π a k f)). split; [apply Hf|].
  repeat (split; [done|]). split; [|done]. destruct (find_last _ _) as [g|] eqn:Hg.
  - exfalso. apply find_last_Some in Hg as [_ Hg]. unfold overrides in Hg. destruct (w_functions w' !! g); [|done].
    apply andb_true_iff in Hg as [_ Hg%bool_decide_eq_true]. done.
  - rewrite Hec. by destruct (final_overrider _ _ _ _ _ _).
Qed.

Definition module2_laid : World := laid_out module2 [0; 1; 2].

(** [D] overrides [foo], and the [A] of its [B] keeps that of [A]. *)
Lemma override_one_copy_witness : has_signature module2_laid "foo" 10 1 = true ∧ d_overrideMethodArray (class_of module2_laid 2) = [1] ∧
  getVirtualMethod module2_laid 1 (function_of module2_laid 0) = Some 0 ∧ d_vtable (class_of module2_laid 2) = [0; 1] ∧
  ∃ k v v' g, fn_classVtableIndex (function_of module2_laid 0) = Some k ∧ path_vtableIndex (w_types module2_laid) 2 [0; 0] = Some v ∧
    path_vtableIndex (w_types module2_laid) 1 [0] = Some v' ∧ d_vtable (class_of module2_laid 2) !! (v + k) = Some g ∧
    d_vtable (class_of module2_laid 1) !! (v' + k) = Some g.
Proof.
  repeat (split; [by vm_compute|]).
  apply (override_one_copy compiler hdr_type box_type [0; 1; 2] module2 module2_laid 2 (class_of module2_laid 2) 0 0
    (function_of module2_laid 0) 0 (mkBaseSlot 1 0 (Some 0) (Some 0)) (class_of module2_laid 1) [0]);
    [apply fresh_world_ok; by vm_compute|by vm_compute..| | | | |by vm_compute].
  - exists (class_of module2_laid 0). split; [by vm_compute|]. split; [by vm_compute|]. split; [vm_compute; left|by vm_compute].
  - by vm_compute.
  - by vm_compute.
  - by vm_compute.
Defined.

(** ** Fields of abstract classes *)

(** [class A { abstract foo(); }], [class B: A {}], [class H { B m_b; }] *)
Definition module3 : World := mkWorld
  (list_to_map [(0, method "foo" StorageKind_Abstract 10 0)])
  ∅
  (list_to_map [(0, class 0 "A" [("foo", ItemFunction 0)]%string [] [] [0] [] []); (1, class 1 "B" [] [0] [] [] [] []);
    (2, class 2 "H" [] [] [(newField (mkType 101 16 8 0 true true false false 0 true) 0 0, Some 1)] [] [] [])]).

Definition module3_laid : World := laid_out module3 [0; 1; 2].

Definition no_memory : Memory := mkMemory (λ _, mkIface None 0) (λ _, mkBoxHeader None 0 0).

(** A class with a field of an abstract class can be created. [B] inherits the abstract method of [A] and cannot
    be created, but [H], that has a [B], can: the failure for its field is dropped. The field
    of a new [H] gets a null virtual table. *)
Theorem abstract_field_created : layouts compiler hdr_type box_type [0; 1; 2] module3 = inl (tt, module3_laid) ∧
  (∃ w, ensureCreatable compiler 2 1 module3_laid = Some (false, w)) ∧
  ∃ w m, ensureCreatable compiler 3 2 module3_laid = Some (true, w) ∧
    primeClass w 5 1000 1000 2 None no_memory = Some m ∧ bh_type (mem_boxes m 1032) = Some 1 ∧ ih_vtable (mem_ifaces m 1048) = None.
Proof.
  split; [by vm_compute|]. split; [eexists; by vm_compute|]. eexists. eexists. split; [by vm_compute|]. split; [cbv; done|]. done.
Qed.
