(* ===== verification/Multicast.v ===== *)
(** * Multicasts: lists of event handlers

    Models [src/src/jnc_ext/jnc_rtl_core/jnc_rtl_Multicast.h] and [.cpp]: an array of
    function pointers and a table of handles that has the index of each. A handler is
    removed by its handle; a snapshot is what a call of the multicast calls.

    The generator of handles and the growth of arrays are of the AXL library. *)

From S2P Require Import Prelude.

Open Scope nat_scope.

(** ** Interfaces *)

(** [sl::HandleTable] makes handles that are not in the table; [sl::getAllocSize] is no smaller than what is asked for. *)
Class AxlTables := {
  generator : Type;
  newGenerator : generator;
  newHandle : generator → list N → N * generator;
  clearGenerator : generator → generator;
  getAllocSize : nat → nat
}.

Class AxlTablesLaws (X : AxlTables) : Prop := {
  newHandle_fresh g l : fst (newHandle g l) ∉ l ∧ fst (newHandle g l) ≠ 0%N;
  getAllocSize_ge n : n ≤ getAllocSize n
}.

Section multicast.
Context `{X : AxlTables}.

(** A function pointer that is not null. *)
Variable F : Type.

(** ** Data *)

(** [sl::HandleTable<size_t>], in the order of its list. *)
Record HandleTable := mkTable { ht_entries : list (N * N); ht_generator : generator }.

Definition ht_new : HandleTable := mkTable [] newGenerator.
Definition ht_clear (t : HandleTable) : HandleTable := mkTable [] (clearGenerator (ht_generator t)).
Definition ht_add (v : N) (t : HandleTable) : N * HandleTable :=
  let '(h, g) := newHandle (ht_generator t) (ht_entries t).*1 in (h, mkTable (ht_entries t ++ [(h, v)]) g).

(** [Multicast]; [m_ptr] is as long as [m_maxCount] tells. *)
Record Multicast := mkMulticast {
  m_ptr : list (option F);
  m_count : nat;
  m_maxCount : nat;
  m_handleTable : option HandleTable
}.

Definition new_multicast : Multicast := mkMulticast [] 0 0 None.

(** ** Operations *)

Definition destruct_multicast (m : Multicast) : Multicast := mkMulticast (m_ptr m) 0 (m_maxCount m) None.

Definition clear (m : Multicast) : Multicast :=
  mkMulticast (m_ptr m) 0 (m_maxCount m) (ht_clear <$> m_handleTable m).

Definition getHandleTable (m : Multicast) : HandleTable := default ht_new (m_handleTable m).

(** [setCount]; new memory is zero. *)
Definition setCount (count : nat) (m : Multicast) : Multicast :=
  if count <=? m_maxCount m then mkMulticast (m_ptr m) count (m_maxCount m) (m_handleTable m)
  else
    let maxCount := getAllocSize count in
    mkMulticast (take (m_count m) (m_ptr m) ++ replicate (maxCount - m_count m) None) count maxCount (m_handleTable m).

Definition setHandlerImpl (p : F) (m : Multicast) : N * Multicast :=
  let m := setCount 1 m in
  let '(h, t) := ht_add 0 (ht_clear (getHandleTable m)) in
  (h, mkMulticast (<[0 := Some p]> (m_ptr m)) (m_count m) (m_maxCount m) (Some t)).

Definition setHandler (p : option F) (m : Multicast) : N * Multicast :=
  match p with Some p => setHandlerImpl p m | None => (0%N, clear m) end.

Definition addHandlerImpl (p : F) (m : Multicast) : N * Multicast :=
  let i := m_count m in
  let m := setCount (S i) m in
  let '(h, t) := ht_add (N.of_nat i) (getHandleTable m) in
  (h, mkMulticast (<[i := Some p]> (m_ptr m)) (m_count m) (m_maxCount m) (Some t)).

Definition addHandler (p : option F) (m : Multicast) : N * Multicast :=
  match p with Some p => addHandlerImpl p m | None => (0%N, m) end.

(** The entries before that of a handle, its value, and those after. *)
Fixpoint find_handle (h : N) (l : list (N * N)) : option (list (N * N) * N * list (N * N)) :=
  match l with
  | [] => None
  | (h', v) :: l =>
    if decide (h' = h) then Some ([], v, l)
    else '(l1, i, l2) ← find_handle h l; Some ((h', v) :: l1, i, l2)
  end.

(** [removeHandlerImpl]; [None]: the assertion fails. *)
Definition removeHandler (h : N) (m : Multicast) : option (option F * Multicast) :=
  match m_handleTable m with
  | None => Some (None, m)
  | Some t =>
    match find_handle h (ht_entries t) with
    | None => Some (None, m)
    | Some (l1, v, l2) =>
      let i := N.to_nat v in
      if i <? m_count m then
        p ← m_ptr m !! i;
        let count := m_count m - 1 in
        let ptr := take i (m_ptr m) ++ drop (S i) (take (m_count m) (m_ptr m)) ++ [None] ++ drop (m_count m) (m_ptr m) in
        Some (p, mkMulticast ptr count (m_maxCount m)
          (Some (mkTable (l1 ++ map (λ '(h, v), (h, sub64 v 1)) l2) (ht_generator t))))
      else None
    end
  end.

(** [getSnapshot]: the functions, and the multicast. A [weak] multicast drops the ones that are not [alive]. *)
Definition getSnapshot (weak : bool) (alive : option F → bool) (m : Multicast) : list (option F) * Multicast :=
  match m_count m with
  | O => ([], m)
  | _ =>
    let src := take (m_count m) (m_ptr m) in
    if negb weak then (src, m)
    else
      let dst := List.filter alive src in
      let aliveCount := length dst in
      (dst,
       if aliveCount =? m_count m then m
       else mkMulticast (dst ++ replicate (m_count m - aliveCount) None ++ drop (m_count m) (m_ptr m)) aliveCount (m_maxCount m)
              (m_handleTable m))
  end.

(** ** Specification *)

(** The calls of a multicast, and what they return. *)
Inductive op := OpAdd (p : option F) | OpSet (p : option F) | OpRemove (h : N) | OpClear | OpSnapshot.
Inductive result := RHandle (h : N) | RFunction (p : option F) | RSnapshot (l : list (option F)) | RNothing.

Definition run_op (o : op) (m : Multicast) : option (result * Multicast) :=
  match o with
  | OpAdd p => let '(h, m) := addHandler p m in Some (RHandle h, m)
  | OpSet p => let '(h, m) := setHandler p m in Some (RHandle h, m)
  | OpRemove h => '(p, m) ← removeHandler h m; Some (RFunction p, m)
  | OpClear => Some (RNothing, clear m)
  | OpSnapshot => let '(l, m) := getSnapshot false (λ _, true) m in Some (RSnapshot l, m)
  end.

Fixpoint run_ops (os : list op) (m : Multicast) : option (list result * Multicast) :=
  match os with
  | [] => Some ([], m)
  | o :: os => '(r, m) ← run_op o m; '(rs, m) ← run_ops os m; Some (r :: rs, m)
  end.

(** A multicast is a list of handles with their functions. *)
Inductive spec_op : op → list (N * F) → result → list (N * F) → Prop :=
  | spec_add_null l : spec_op (OpAdd None) l (RHandle 0) l
  | spec_add p h l : h ≠ 0%N → h ∉ l.*1 → spec_op (OpAdd (Some p)) l (RHandle h) (l ++ [(h, p)])
  | spec_set_null l : spec_op (OpSet None) l (RHandle 0) []
  | spec_set p h l : h ≠ 0%N → spec_op (OpSet (Some p)) l (RHandle h) [(h, p)]
  | spec_remove h p l1 l2 : spec_op (OpRemove h) (l1 ++ (h, p) :: l2) (RFunction (Some p)) (l1 ++ l2)
  | spec_remove_none h l : h ∉ l.*1 → spec_op (OpRemove h) l (RFunction None) l
  | spec_clear l : spec_op OpClear l RNothing []
  | spec_snapshot l : spec_op OpSnapshot l (RSnapshot (Some <$> l.*2)) l.

Inductive spec_ops : list op → list (N * F) → list result → list (N * F) → Prop :=
  | spec_nil l : spec_ops [] l [] l
  | spec_cons o os r rs l l1 l2 : spec_op o l r l1 → spec_ops os l1 rs l2 → spec_ops (o :: os) l (r :: rs) l2.
End multicast.

Arguments mkMulticast {_ _} _ _ _ _.
Arguments m_ptr {_ _} _.
Arguments m_count {_ _} _.
Arguments m_maxCount {_ _} _.
Arguments m_handleTable {_ _} _.
Arguments new_multicast {_ _}.
