(* ===== verification/MulticastProps.v ===== *)
(** * Multicasts: the properties

    A multicast implements a list of handles with their functions; weak multicasts do
    not, once a snapshot has dropped a handler. *)

From S2P Require Import Prelude Multicast.

Open Scope nat_scope.

Section props.
Context `{X : AxlTables, XL : !AxlTablesLaws X} {F : Type}.
Implicit Types (m : Multicast F) (l : list (N * F)).

(** The entry of the handle table for the [i]th handler. *)
Definition table_entry (i : nat) (x : N * F) : N * N := (x.1, N.of_nat i).

(** The multicast [m] is the list [l]. *)
Record represents m l : Prop := {
  re_memory : length (m_ptr m) = m_maxCount m;
  re_size : (N.of_nat (length l) ≤ size_mod)%N;
  re_count : m_count m = length l;
  re_max : length l ≤ m_maxCount m;
  re_functions : take (length l) (m_ptr m) = Some <$> l.*2;
  re_table : match m_handleTable m with None => l = [] | Some t => ht_entries t = imap table_entry l end;
  re_nodup : NoDup l.*1;
  re_null : 0%N ∉ l.*1
}.

Lemma represents_new : represents new_multicast [].
Proof. split; cbn; try done; [constructor|apply not_elem_of_nil]. Qed.

Lemma entries_handles l : (imap table_entry l).*1 = l.*1.
Proof.
  apply list_eq. intros i. rewrite !list_lookup_fmap, list_lookup_imap. by destruct (l !! i).
Qed.

Lemma represents_entries m l : represents m l → ht_entries (getHandleTable F m) = imap table_entry l.
Proof. intros R. pose proof (re_table _ _ R) as Ht. unfold getHandleTable. destruct (m_handleTable m); [done|]. by rewrite Ht. Qed.

(** More room. *)
Lemma setCount_ok m l n : represents m l → let m' := setCount F n m in m_count m' = n ∧ m_handleTable m' = m_handleTable m ∧
  length (m_ptr m') = m_maxCount m' ∧ n ≤ m_maxCount m' ∧ take (length l) (m_ptr m') = Some <$> l.*2.
Proof.
  intros R. unfold setCount. destruct (Nat.leb_spec n (m_maxCount m)) as [Hle|Hgt]; cbn.
  { repeat (split; [first [done|apply R]|]). apply R. }
  pose proof (getAllocSize_ge n) as Hn. pose proof (re_max _ _ R) as Hm. rewrite (re_count _ _ R).
  split; [done|]. split; [done|]. rewrite length_app, length_take, length_replicate, (re_memory _ _ R).
  split; [lia|]. split; [done|]. rewrite take_app_le by (rewrite length_take, (re_memory _ _ R); lia).
  rewrite take_take, Nat.min_id. apply R.
Qed.

Lemma insert_last {A} (v : list A) (l : list A) x : take (length l) v = l → length l < length v →
  take (length (l ++ [x])) (<[length l := x]> v) = l ++ [x].
Proof.
  intros Ht Hlt. rewrite length_app, Nat.add_1_r. rewrite (take_S_r _ _ x) by (by apply list_lookup_insert_eq).
  rewrite take_insert_ge by done. by rewrite Ht.
Qed.

Lemma add_ok m l p : represents m l → (N.of_nat (S (length l)) ≤ size_mod)%N →
  ∃ h m', addHandlerImpl F p m = (h, m') ∧ h ≠ 0%N ∧ h ∉ l.*1 ∧ represents m' (l ++ [(h, p)]).
Proof.
  intros R Hs. unfold addHandlerImpl, ht_add. destruct (setCount_ok m l (S (m_count m)) R) as (C1 & C2 & C3 & C4 & C5).
  set (m1 := setCount F (S (m_count m)) m) in *.
  assert (He : ht_entries (getHandleTable F m1) = imap table_entry l).
  { unfold getHandleTable. rewrite C2. by apply represents_entries. }
  rewrite He, entries_handles. destruct (newHandle_fresh (ht_generator (getHandleTable F m1)) l.*1) as [Hf Hz].
  destruct (newHandle _ _) as [h g]. cbn [fst] in *. eexists h, _. split; [done|]. split; [done|]. split; [done|].
  rewrite (re_count _ _ R) in *.
  split; cbn; rewrite ?length_app; cbn; try lia.
  - by rewrite length_insert.
  - pose proof (insert_last (m_ptr m1) (Some <$> l.*2) (Some p)) as Hi. rewrite !length_app, !length_fmap in Hi. cbn in Hi.
    rewrite Hi; [by rewrite !fmap_app|done|lia].
  - rewrite imap_app. cbn. unfold table_entry at 2. cbn. by rewrite Nat.add_0_r.
  - rewrite fmap_app. apply NoDup_app. split; [apply R|]. split; [|apply NoDup_singleton].
    intros x Hx ->%list_elem_of_singleton. done.
  - rewrite fmap_app, elem_of_app. cbn. rewrite list_elem_of_singleton. intros [Hin|Heq]; [by apply (re_null _ _ R)|done].
Qed.

Lemma multicast_clear_ok m l : represents m l → represents (clear F m) [].
Proof.
  intros R. split; cbn; try done; [apply R|lia| |constructor|apply not_elem_of_nil]. by destruct (m_handleTable m).
Qed.

Lemma set_ok m l p : represents m l → ∃ h m', setHandlerImpl F p m = (h, m') ∧ h ≠ 0%N ∧ represents m' [(h, p)].
Proof.
  intros R. unfold setHandlerImpl, ht_add. destruct (setCount_ok m l 1 R) as (C1 & C2 & C3 & C4 & C5).
  set (m1 := setCount F 1 m) in *. cbn [ht_clear ht_entries ht_generator fmap list_fmap].
  destruct (newHandle_fresh (clearGenerator (ht_generator (getHandleTable F m1))) []) as [Hf Hz].
  destruct (newHandle _ _) as [h g]. cbn [fst] in *. eexists h, _. split; [done|]. split; [done|]. split; cbn.
  - by rewrite length_insert.
  - done.
  - done.
  - done.
  - destruct (m_ptr m1) as [|x v]; [cbn in C3; lia|]. done.
  - done.
  - apply NoDup_singleton.
  - rewrite list_elem_of_singleton. done.
Qed.

(** Removing. *)
Lemma find_handle_none h (es : list (N * N)) : h ∉ es.*1 → find_handle h es = None.
Proof.
  induction es as [|[h' v] es IH]; cbn; [done|]. rewrite not_elem_of_cons. intros [Hne Hn].
  rewrite decide_False by done. by rewrite IH.
Qed.

Lemma find_handle_some h v (l1 l2 : list (N * N)) : h ∉ l1.*1 → find_handle h (l1 ++ (h, v) :: l2) = Some (l1, v, l2).
Proof.
  induction l1 as [|[h' v'] l1 IH]; cbn; [by rewrite decide_True|]. rewrite not_elem_of_cons. intros [Hne Hn].
  rewrite decide_False by done. by rewrite IH.
Qed.

Lemma imap_shift (k : nat) l : (N.of_nat (S k + length l) ≤ size_mod)%N →
  map (λ '(h, v), (h, sub64 v 1)) (imap (λ i, table_entry (S k + i)) l) = imap (λ i, table_entry (k + i)) l.
Proof.
  intros Hs. apply list_eq. intros i. rewrite list_lookup_fmap, !list_lookup_imap. destruct (l !! i) as [x|] eqn:Hi; [|done].
  apply lookup_lt_Some in Hi. cbn. unfold table_entry. f_equal. f_equal. unfold sub64, wrap64. unfold size_mod in *.
  symmetry. apply (N.mod_unique _ _ 1); lia.
Qed.

Lemma entries_split l1 h p l2 : imap table_entry (l1 ++ (h, p) :: l2) =
  imap table_entry l1 ++ (h, N.of_nat (length l1)) :: imap (λ i, table_entry (S (length l1) + i)) l2.
Proof.
  rewrite imap_app, imap_cons. f_equal. f_equal; [cbn; unfold table_entry; cbn; by rewrite Nat.add_0_r|].
  apply imap_ext. intros i x _. cbn. by rewrite Nat.add_succ_r.
Qed.

Lemma multicast_remove_ok m l1 h p l2 : represents m (l1 ++ (h, p) :: l2) →
  ∃ m', removeHandler F h m = Some (Some p, m') ∧ represents m' (l1 ++ l2).
Proof.
  intros R. unfold removeHandler. pose proof (re_table _ _ R) as Ht. destruct (m_handleTable m) as [t|]; [|by destruct l1].
  pose proof (re_nodup _ _ R) as Hnd. rewrite fmap_app in Hnd. cbn in Hnd. apply NoDup_app in Hnd as (N1 & N2 & N3).
  rewrite Ht, entries_split, find_handle_some by (rewrite entries_handles; intros Hin; apply (N2 h Hin); left).
  pose proof (re_count _ _ R) as Hc. pose proof (re_functions _ _ R) as Hf. pose proof (re_max _ _ R) as Hm.
  pose proof (re_size _ _ R) as Hs. pose proof (re_memory _ _ R) as Hp.
  rewrite length_app in Hc, Hm, Hs, Hf. cbn in Hc, Hm, Hs, Hf. rewrite Nat2N.id.
  destruct (Nat.ltb_spec (length l1) (m_count m)); [|lia].
  rewrite !fmap_app in Hf. cbn in Hf.
  assert (Hat : m_ptr m !! length l1 = Some (Some p)).
  { rewrite <- (lookup_take_lt (m_ptr m) (length l1 + S (length l2))) by lia. rewrite Hf.
    rewrite lookup_app_r by (by rewrite !length_fmap). by rewrite !length_fmap, Nat.sub_diag. }
  assert (H1 : take (length l1) (m_ptr m) = Some <$> l1.*2).
  { replace (length l1) with (length l1 `min` (length l1 + S (length l2))) by lia. rewrite <- take_take, Hf.
    rewrite take_app_le by (by rewrite !length_fmap). apply take_ge. by rewrite !length_fmap. }
  assert (H2 : drop (S (length l1)) (take (m_count m) (m_ptr m)) = Some <$> l2.*2).
  { rewrite Hc, Hf. rewrite drop_app_ge by (rewrite !length_fmap; lia). rewrite !length_fmap.
    by replace (S (length l1) - length l1) with 1 by lia. }
  rewrite Hat, H1, H2. eexists. split; [done|]. rewrite imap_shift by lia.
  split; cbn; rewrite ?length_app; try lia.
  - rewrite !length_fmap. cbn [length]. rewrite length_drop. lia.
  - rewrite !fmap_app, app_assoc. rewrite take_app_le by (rewrite length_app, !length_fmap; lia).
    apply take_ge. rewrite length_app, !length_fmap. lia.
  - by rewrite imap_app.
  - rewrite fmap_app. apply NoDup_app. split; [done|]. apply NoDup_cons in N3 as [_ N3]. split; [|done].
    intros x Hx Hx2. apply (N2 x Hx). by right.
  - pose proof (re_null _ _ R) as Hz. rewrite fmap_app in Hz |- *. cbn in Hz. rewrite elem_of_app in Hz |- *.
    rewrite elem_of_cons in Hz. tauto.
Qed.

Lemma remove_none m l h : represents m l → h ∉ l.*1 → removeHandler F h m = Some (None, m).
Proof.
  intros R Hn. unfold removeHandler. pose proof (re_table _ _ R) as Ht. destruct (m_handleTable m) as [t|]; [|done].
  by rewrite Ht, find_handle_none by (by rewrite entries_handles).
Qed.

(** A call keeps to the specification. *)
Lemma run_op_spec o m l : represents m l → (N.of_nat (S (length l)) ≤ size_mod)%N →
  ∃ r m' l', run_op F o m = Some (r, m') ∧ spec_op F o l r l' ∧ represents m' l' ∧ length l' ≤ S (length l).
Proof.
  intros R Hs. destruct o as [[p|]|[p|]|h| |]; cbn.
  - destruct (add_ok m l p R Hs) as (h & m' & -> & H1 & H2 & H3). exists (RHandle F h), m', (l ++ [(h, p)]).
    split; [done|]. split; [by constructor|]. split; [done|]. rewrite length_app. cbn. lia.
  - exists (RHandle F 0), m, l. split; [done|]. split; [constructor|]. split; [done|lia].
  - destruct (set_ok m l p R) as (h & m' & -> & H1 & H2). exists (RHandle F h), m', [(h, p)].
    split; [done|]. split; [by constructor|]. split; [done|]. cbn. lia.
  - eexists _, _, []. split; [done|]. split; [constructor|]. split; [by eapply multicast_clear_ok|]. cbn. lia.
  - destruct (decide (h ∈ l.*1)) as [Hin|Hn].
    + apply list_elem_of_fmap in Hin as ([h' p] & Heq & Hin). cbn in Heq. subst h'. apply list_elem_of_split in Hin as (l1 & l2 & ->).
      destruct (multicast_remove_ok m l1 h p l2 R) as (m' & -> & R'). exists (RFunction F (Some p)), m', (l1 ++ l2).
      split; [done|]. split; [constructor|]. split; [done|]. rewrite !length_app. cbn. lia.
    + rewrite (remove_none m l h) by done. exists (RFunction F None), m, l. split; [done|]. split; [by constructor|]. split; [done|lia].
  - eexists _, _, []. split; [done|]. split; [constructor|]. split; [by eapply multicast_clear_ok|]. cbn. lia.
  - assert (Hsn : getSnapshot F false (λ _, true) m = (Some <$> l.*2, m)).
    { unfold getSnapshot. pose proof (re_count _ _ R) as Hc. pose proof (re_functions _ _ R) as Hf.
      destruct (m_count m) as [|n] eqn:Hm; [by destruct l|]. cbn. by rewrite Hc, Hf. }
    rewrite Hsn. exists (RSnapshot F (Some <$> l.*2)), m, l. split; [done|]. split; [constructor|]. split; [done|lia].
Qed.

Lemma run_ops_spec os : ∀ m l, represents m l → (N.of_nat (length os + length l) ≤ size_mod)%N →
  ∃ rs m' l', run_ops F os m = Some (rs, m') ∧ spec_ops F os l rs l' ∧ represents m' l'.
Proof.
  induction os as [|o os IH]; intros m l R Hs; cbn [run_ops].
  { exists [], m, l. split; [done|]. split; [constructor|done]. }
  cbn [length] in Hs. destruct (run_op_spec o m l R) as (r & m1 & l1 & -> & H1 & R1 & Hl); [lia|]. cbn.
  destruct (IH m1 l1 R1) as (rs & m2 & l2 & -> & H2 & R2); [lia|]. cbn. exists (r :: rs), m2, l2.
  split; [done|]. split; [by econstructor|done].
Qed.

(** C16: A multicast that is not weak is a list of handlers with their handles: any calls on a new one return what the
    list gives. Handlers are added at the end under a handle that is not in use, a handle removes
    its own handler and no other, and a snapshot has the handlers in their order. A snapshot of a weak multicast drops
    handlers from the array only, and may end the correspondence ([weak_snapshot]). *)
Theorem multicast_refines os : (N.of_nat (length os) ≤ size_mod)%N →
  ∃ rs m' l', run_ops F os new_multicast = Some (rs, m') ∧ spec_ops F os [] rs l' ∧ represents m' l'.
Proof. intros Hs. apply (run_ops_spec os new_multicast []); [apply represents_new|]. cbn. lia. Qed.

Lemma filter_length_all {A} (P : A → bool) (l : list A) : length (List.filter P l) = length l ↔ List.filter P l = l.
Proof.
  split; [|by intros ->]. induction l as [|x l IH]; [done|]. cbn. destruct (P x).
  - cbn. intros [= Hl]. by rewrite IH.
  - intros Hl. pose proof (List.filter_length_le P l). lia.
Qed.

(** C36: A snapshot of a weak multicast has the handlers that are alive, in their order, and drops the others, but the
    handle table keeps their entries: the multicast is one of a list afterwards just when none was dropped. *)
Theorem weak_snapshot m l alive fs m' : represents m l → getSnapshot F true alive m = (fs, m') →
  fs = List.filter alive (Some <$> l.*2) ∧ m_count m' = length fs ∧ take (length fs) (m_ptr m') = fs ∧
  m_handleTable m' = m_handleTable m ∧ ((∃ l', represents m' l') ↔ fs = Some <$> l.*2).
Proof.
  intros R Hsn. unfold getSnapshot in Hsn. pose proof (re_count _ _ R) as Hc. pose proof (re_functions _ _ R) as Hf.
  rewrite Hc in Hsn. destruct (length l) as [|n] eqn:Hl.
  { injection Hsn as <- <-. destruct l; [|done]. split; [done|]. split; [done|]. split; [done|]. split; [done|].
    split; [done|]. intros _. by eexists. }
  cbn [negb] in Hsn. rewrite Hf in Hsn. pose proof (List.filter_length_le alive (Some <$> l.*2)) as Hle.
  rewrite !length_fmap, Hl in Hle. destruct (Nat.eqb_spec (length (List.filter alive (Some <$> l.*2))) (S n)) as [He|Hne].
  - injection Hsn as <- <-. assert (Hall : List.filter alive (Some <$> l.*2) = Some <$> l.*2).
    { apply filter_length_all. by rewrite !length_fmap, Hl. }
    rewrite Hall, !length_fmap, Hl. split; [done|]. split; [congruence|]. split; [done|]. split; [done|].
    split; [done|]. intros _. by eexists.
  - injection Hsn as <- <-. cbn. split; [done|]. split; [done|]. split.
    { rewrite take_app_le by done. by apply take_ge. }
    split; [done|]. split.
    + intros (l' & R'). exfalso. pose proof (re_table _ _ R) as Ht. pose proof (re_table _ _ R') as Ht'. cbn in Ht'.
      pose proof (re_count _ _ R') as Hc'. cbn in Hc'. destruct (m_handleTable m) as [t|]; [|by subst l].
      rewrite Ht in Ht'. pose proof (f_equal length Ht') as Hlen. rewrite !length_imap in Hlen. lia.
    + intros Heq. rewrite Heq, !length_fmap in Hne. lia.
Qed.
End props.

(** ** Concrete multicasts *)

#[local] Instance axl_tables : AxlTables :=
  {| generator := N; newGenerator := 1%N; newHandle g l := (foldr N.max g l + 1, foldr N.max g l + 1)%N; clearGenerator g := g; getAllocSize n := n + 4 |}.

#[local] Instance axl_tables_laws : AxlTablesLaws axl_tables.
Proof.
  split; [|cbn; lia]. intros g l. cbn. split; [|lia]. assert (Hle : ∀ x, x ∈ l → (x ≤ foldr N.max g l)%N).
  { induction l as [|y l IH]; intros x Hx; [by apply not_elem_of_nil in Hx|]. cbn. apply elem_of_cons in Hx as [->|Hx]; [lia|].
    specialize (IH x Hx). lia. }
  intros Hin. specialize (Hle _ Hin). lia.
Qed.

Lemma multicast_refines_witness :
  fst <$> run_ops nat [OpAdd nat (Some 10); OpAdd nat (Some 20); OpAdd nat (Some 30); OpRemove nat 3; OpSnapshot nat; OpRemove nat 3] new_multicast =
    Some [RHandle nat 2; RHandle nat 3; RHandle nat 4; RFunction nat (Some 20); RSnapshot nat [Some 10; Some 30]; RFunction nat None] ∧
  ∃ rs m' l', run_ops nat [OpAdd nat (Some 10); OpRemove nat 2] new_multicast = Some (rs, m') ∧
    spec_ops nat [OpAdd nat (Some 10); OpRemove nat 2] [] rs l' ∧ represents m' l'.
Proof. split; [by vm_compute|]. apply (multicast_refines [OpAdd nat (Some 10); OpRemove nat 2]). by vm_compute. Defined.

(** Three handlers, of which the first is dropped. *)
Definition three_handlers : Multicast nat :=
  snd (addHandlerImpl nat 30 (snd (addHandlerImpl nat 20 (snd (addHandlerImpl nat 10 new_multicast))))).

Definition not_ten (p : option nat) : bool := negb (bool_decide (p = Some 10)).

Lemma three_handlers_list : represents three_handlers [(2%N, 10); (3%N, 20); (4%N, 30)].
Proof.
  split; try (by vm_compute); [by vm_compute; lia|repeat (constructor; [set_solver|]); constructor|set_solver].
Qed.

(** Removing the second handler by its handle 3 then removes the third. *)
Lemma weak_snapshot_witness : ∃ fs m', getSnapshot nat true not_ten three_handlers = (fs, m') ∧ fs = [Some 20; Some 30] ∧
  fst <$> removeHandler nat 3 m' = Some (Some 30) ∧ removeHandler nat 4 m' = None ∧ ¬ ∃ l', represents m' l'.
Proof.
  destruct (getSnapshot nat true not_ten three_handlers) as [fs m'] eqn:Hs. exists fs, m'.
  destruct (weak_snapshot three_handlers _ not_ten fs m' three_handlers_list Hs) as (Hfs & _ & _ & _ & Hiff).
  vm_compute in Hs. injection Hs as <- <-. split; [done|]. split; [done|]. split; [by vm_compute|]. split; [by vm_compute|].
  intros Hex. apply Hiff in Hex. done.
Defined.
