(* ===== verification/Reactor.v ===== *)
(** * Reactors

    Models [src/src/jnc_ext/jnc_rtl_core/jnc_rtl_Reactor.cpp] and [.h]: expressions
    that are evaluated again when what they have read changes. A reactor subscribes to the
    [onChanged] events of the properties its reactions read, through bindings; a change makes
    the reactions of a binding pending, and a loop runs the pending reactions.

    What the code of the reactor does is an argument: for each call the calls it makes back
    and the events it fires, in their order. The handlers of other parties are
    part of that. *)

From S2P Require Import Prelude.

Open Scope nat_scope.

(** ** Events *)

(** The handlers of a reactor, and those of others. *)
Inductive Handler := OnChanged (binding : nat) | OnEvent (reactionIdx : nat) | OtherHandler (k : nat).

(** What a reactor uses of the multicasts of events. [None]: there is no memory for the handler; an assertion fails. *)
Class Events := {
  event : Type;
  ev_addHandler : Handler → event → option (N * event);
  ev_removeHandler : N → event → option event;
  ev_snapshot : event → list Handler
}.

Class EventsLaws (X : Events) := {
  ev_ok : event → Prop;
  ev_list : event → list (N * Handler);
  ev_add_law e p h e' : ev_ok e → ev_addHandler p e = Some (h, e') →
    h ∉ (ev_list e).*1 ∧ ev_ok e' ∧ ev_list e' = ev_list e ++ [(h, p)];
  ev_remove_law e l1 h p l2 : ev_ok e → ev_list e = l1 ++ (h, p) :: l2 →
    ∃ e', ev_removeHandler h e = Some e' ∧ ev_ok e' ∧ ev_list e' = l1 ++ l2;
  ev_snapshot_law e : ev_ok e → ev_snapshot e = (ev_list e).*2;
  ev_nodup e : ev_ok e → NoDup (ev_list e).*1
}.

(** ** Data *)

Inductive State := State_Stopped | State_Starting | State_Running | State_Reacting.

#[export] Instance State_eq_dec : EqDecision State.
Proof. solve_decision. Defined.

(** [Binding]; [b_inMap] tells whether it has an iterator of the binding map, [b_active] is [Flag_Active]. *)
Record Binding := mkBinding {
  b_event : nat; b_handler : N; b_inMap : bool; b_reactionMap : gset nat; b_active : bool
}.

Definition b_set_reactionMap (v : gset nat) (b : Binding) : Binding := mkBinding (b_event b) (b_handler b) (b_inMap b) v (b_active b).
Definition b_set_active (v : bool) (b : Binding) : Binding := mkBinding (b_event b) (b_handler b) (b_inMap b) (b_reactionMap b) v.

Record Reaction := mkReaction { r_bindingArray : list nat; r_active : bool }.

(** What happens in a run, for the specification: a call of the code of the reactor, a reaction that is
    activated, an event it reads. *)
Inductive log_entry := LReact (idx : option nat) | LActivate (r : nat) | LBind (r e : nat) | LStop.

(** [ReactorImpl], with the bindings in memory, the events and what has happened. Numbers stand for pointers. *)
Record Reactor `{Events} := mkReactor {
  m_state : State;
  m_reactionArray : list Reaction;
  m_pendingReactionMap : gset nat;
  m_pendingOnChangedBindingArray : list (nat * nat);
  m_pendingOnEventBindingArray : list (nat * nat);
  m_bindingList : list nat;
  m_activeReactionArray : list nat;
  m_activeBindingArray : list nat;
  m_bindingMap : gmap nat nat;
  w_bindings : gmap nat Binding;
  w_nextBinding : nat;
  w_events : gmap nat event;
  w_calls : nat;
  w_log : list log_entry
}.

Arguments mkReactor {_} _ _ _ _ _ _ _ _ _ _ _ _ _ _.

Section reactor.
Context `{X : Events}.

Definition set_state (v : State) (w : Reactor) : Reactor :=
  mkReactor v (m_reactionArray w) (m_pendingReactionMap w) (m_pendingOnChangedBindingArray w) (m_pendingOnEventBindingArray w) (m_bindingList w) (m_activeReactionArray w) (m_activeBindingArray w) (m_bindingMap w) (w_bindings w) (w_nextBinding w) (w_events w) (w_calls w) (w_log w).
Definition set_reactionArray (v : list Reaction) (w : Reactor) : Reactor :=
  mkReactor (m_state w) v (m_pendingReactionMap w) (m_pendingOnChangedBindingArray w) (m_pendingOnEventBindingArray w) (m_bindingList w) (m_activeReactionArray w) (m_activeBindingArray w) (m_bindingMap w) (w_bindings w) (w_nextBinding w) (w_events w) (w_calls w) (w_log w).
Definition set_pendingReactionMap (v : gset nat) (w : Reactor) : Reactor :=
  mkReactor (m_state w) (m_reactionArray w) v (m_pendingOnChangedBindingArray w) (m_pendingOnEventBindingArray w) (m_bindingList w) (m_activeReactionArray w) (m_activeBindingArray w) (m_bindingMap w) (w_bindings w) (w_nextBinding w) (w_events w) (w_calls w) (w_log w).
Definition set_pendingOnChangedBindingArray (v : list (nat * nat)) (w : Reactor) : Reactor :=
  mkReactor (m_state w) (m_reactionArray w) (m_pendingReactionMap w) v (m_pendingOnEventBindingArray w) (m_bindingList w) (m_activeReactionArray w) (m_activeBindingArray w) (m_bindingMap w) (w_bindings w) (w_nextBinding w) (w_events w) (w_calls w) (w_log w).
Definition set_pendingOnEventBindingArray (v : list (nat * nat)) (w : Reactor) : Reactor :=
  mkReactor (m_state w) (m_reactionArray w) (m_pendingReactionMap w) (m_pendingOnChangedBindingArray w) v (m_bindingList w) (m_activeReactionArray w) (m_activeBindingArray w) (m_bindingMap w) (w_bindings w) (w_nextBinding w) (w_events w) (w_calls w) (w_log w).
Definition set_bindingList (v : list nat) (w : Reactor) : Reactor :=
  mkReactor (m_state w) (m_reactionArray w) (m_pendingReactionMap w) (m_pendingOnChangedBindingArray w) (m_pendingOnEventBindingArray w) v (m_activeReactionArray w) (m_activeBindingArray w) (m_bindingMap w) (w_bindings w) (w_nextBinding w) (w_events w) (w_calls w) (w_log w).
Definition set_activeReactionArray (v : list nat) (w : Reactor) : Reactor :=
  mkReactor (m_state w) (m_reactionArray w) (m_pendingReactionMap w) (m_pendingOnChangedBindingArray w) (m_pendingOnEventBindingArray w) (m_bindingList w) v (m_activeBindingArray w) (m_bindingMap w) (w_bindings w) (w_nextBinding w) (w_events w) (w_calls w) (w_log w).
Definition set_activeBindingArray (v : list nat) (w : Reactor) : Reactor :=
  mkReactor (m_state w) (m_reactionArray w) (m_pendingReactionMap w) (m_pendingOnChangedBindingArray w) (m_pendingOnEventBindingArray w) (m_bindingList w) (m_activeReactionArray w) v (m_bindingMap w) (w_bindings w) (w_nextBinding w) (w_events w) (w_calls w) (w_log w).
Definition set_bindingMap (v : gmap nat nat) (w : Reactor) : Reactor :=
  mkReactor (m_state w) (m_reactionArray w) (m_pendingReactionMap w) (m_pendingOnChangedBindingArray w) (m_pendingOnEventBindingArray w) (m_bindingList w) (m_activeReactionArray w) (m_activeBindingArray w) v (w_bindings w) (w_nextBinding w) (w_events w) (w_calls w) (w_log w).
Definition set_bindings (v : gmap nat Binding) (w : Reactor) : Reactor :=
  mkReactor (m_state w) (m_reactionArray w) (m_pendingReactionMap w) (m_pendingOnChangedBindingArray w) (m_pendingOnEventBindingArray w) (m_bindingList w) (m_activeReactionArray w) (m_activeBindingArray w) (m_bindingMap w) v (w_nextBinding w) (w_events w) (w_calls w) (w_log w).
Definition set_nextBinding (v : nat) (w : Reactor) : Reactor :=
  mkReactor (m_state w) (m_reactionArray w) (m_pendingReactionMap w) (m_pendingOnChangedBindingArray w) (m_pendingOnEventBindingArray w) (m_bindingList w) (m_activeReactionArray w) (m_activeBindingArray w) (m_bindingMap w) (w_bindings w) v (w_events w) (w_calls w) (w_log w).
Definition set_events (v : gmap nat event) (w : Reactor) : Reactor :=
  mkReactor (m_state w) (m_reactionArray w) (m_pendingReactionMap w) (m_pendingOnChangedBindingArray w) (m_pendingOnEventBindingArray w) (m_bindingList w) (m_activeReactionArray w) (m_activeBindingArray w) (m_bindingMap w) (w_bindings w) (w_nextBinding w) v (w_calls w) (w_log w).
Definition set_calls (v : nat) (w : Reactor) : Reactor :=
  mkReactor (m_state w) (m_reactionArray w) (m_pendingReactionMap w) (m_pendingOnChangedBindingArray w) (m_pendingOnEventBindingArray w) (m_bindingList w) (m_activeReactionArray w) (m_activeBindingArray w) (m_bindingMap w) (w_bindings w) (w_nextBinding w) (w_events w) v (w_log w).
Definition set_log (v : list log_entry) (w : Reactor) : Reactor :=
  mkReactor (m_state w) (m_reactionArray w) (m_pendingReactionMap w) (m_pendingOnChangedBindingArray w) (m_pendingOnEventBindingArray w) (m_bindingList w) (m_activeReactionArray w) (m_activeBindingArray w) (m_bindingMap w) (w_bindings w) (w_nextBinding w) (w_events w) (w_calls w) v.

(** ** Results *)

Inductive failure := AssertFailed | DanglingPointer | OutOfMemory | OutOfFuel.

Definition R (A : Type) : Type := Reactor → (A * Reactor) + failure.

#[export] Instance R_ret : MRet R := λ A x w, inl (x, w).
#[export] Instance R_bind : MBind R := λ A B f m w, match m w with inl (x, w) => f x w | inr e => inr e end.

Definition fail {A} (e : failure) : R A := λ w, inr e.
Definition get {A} (f : Reactor → A) : R A := λ w, inl (f w, w).
Definition modify (f : Reactor → Reactor) : R unit := λ w, inl (tt, f w).
Definition deref {A} (e : failure) (o : option A) : R A := match o with Some x => mret x | None => fail e end.
Definition assert (b : bool) : R unit := if b then mret tt else fail AssertFailed.

Fixpoint for_each {A} (l : list A) (f : A → R unit) : R unit :=
  match l with [] => mret tt | x :: l => _ ← f x; for_each l f end.

Definition get_binding (b : nat) : R Binding := λ w, deref DanglingPointer (w_bindings w !! b) w.
Definition get_reaction (r : nat) : R Reaction := λ w, deref AssertFailed (m_reactionArray w !! r) w.
Definition get_event (e : nat) : R event := λ w, deref AssertFailed (w_events w !! e) w.
Definition upd_binding (b : nat) (f : Binding → Binding) : R unit := modify (λ w, set_bindings (alter f b (w_bindings w)) w).
Definition upd_reaction (r : nat) (f : Reaction → Reaction) : R unit := modify (λ w, set_reactionArray (alter f r (m_reactionArray w)) w).
Definition log (e : log_entry) : R unit := modify (λ w, set_log (w_log w ++ [e]) w).

(** ** Bindings *)

(** [MulticastImpl::addHandler] and [removeHandler] of an event. *)
Definition addHandler (e : nat) (p : Handler) : R N :=
  ev ← get_event e;
  '(h, ev) ← deref OutOfMemory (ev_addHandler p ev);
  _ ← modify (λ w, set_events (<[e := ev]> (w_events w)) w);
  mret h.

Definition removeHandler (e : nat) (h : N) : R unit :=
  ev ← get_event e;
  ev ← deref AssertFailed (ev_removeHandler h ev);
  modify (λ w, set_events (<[e := ev]> (w_events w)) w).

(** [new Binding], [insertTail] and [addHandler] of both forms of [subscribe]. *)
Definition subscribe (e : nat) (p : nat → Handler) (inMap : bool) : R nat :=
  b ← get w_nextBinding;
  h ← addHandler e (p b);
  _ ← modify (λ w, set_nextBinding (S b) (set_bindings (<[b := mkBinding e h inMap ∅ false]> (w_bindings w))
        (set_bindingList (m_bindingList w ++ [b]) w)));
  mret b.

Definition unsubscribe (b : nat) : R unit :=
  binding ← get_binding b;
  _ ← removeHandler (b_event binding) (b_handler binding);
  _ ← modify (λ w, if b_inMap binding then set_bindingMap (delete (b_event binding) (m_bindingMap w)) w else w);
  modify (λ w, set_bindings (delete b (w_bindings w)) (set_bindingList (filter (λ b', b' ≠ b) (m_bindingList w)) w)).

(** ** Reactions *)

(** A binding of a reaction that is activated. *)
Definition activateBinding (reactionIdx b : nat) : R unit :=
  binding ← get_binding b;
  if b_active binding then mret tt
  else
    _ ← modify (λ w, set_activeBindingArray (m_activeBindingArray w ++ [b]) w);
    upd_binding b (λ bd, b_set_active true (b_set_reactionMap (b_reactionMap bd ∖ {[reactionIdx]}) bd)).

Definition activateReaction (reactionIdx : nat) : R bool :=
  reaction ← get_reaction reactionIdx;
  if r_active reaction then mret false
  else
    _ ← for_each (r_bindingArray reaction) (activateBinding reactionIdx);
    _ ← modify (λ w, set_activeReactionArray (m_activeReactionArray w ++ [reactionIdx]) w);
    _ ← upd_reaction reactionIdx (λ _, mkReaction [] true);
    _ ← log (LActivate reactionIdx);
    mret true.

(** A pass of each loop of [processPendingBindings]. *)
Definition bindOnChanged (pending : nat * nat) : R unit :=
  let '(reactionIdx, e) := pending in
  found ← get (λ w, m_bindingMap w !! e);
  b ← match found with
      | Some b => mret b
      | None =>
        b ← subscribe e OnChanged true;
        _ ← modify (λ w, set_bindingMap (<[e := b]> (m_bindingMap w)) w);
        mret b
      end;
  binding ← get_binding b;
  if decide (reactionIdx ∈ b_reactionMap binding) then mret tt
  else
    _ ← upd_binding b (λ bd, b_set_reactionMap ({[reactionIdx]} ∪ b_reactionMap bd) bd);
    reaction ← get_reaction reactionIdx;
    _ ← assert (bool_decide (b ∉ r_bindingArray reaction));
    upd_reaction reactionIdx (λ r, mkReaction (r_bindingArray r ++ [b]) (r_active r)).

Definition bindOnEvent (pending : nat * nat) : R unit :=
  let '(reactionIdx, e) := pending in
  _ ← get_reaction reactionIdx;
  b ← subscribe e (λ _, OnEvent reactionIdx) false;
  upd_reaction reactionIdx (λ r, mkReaction (r_bindingArray r ++ [b]) (r_active r)).

Definition releaseBinding (b : nat) : R unit :=
  binding ← get_binding b;
  if decide (b_reactionMap binding = ∅) then unsubscribe b else upd_binding b (b_set_active false).

Definition releaseReaction (r : nat) : R unit :=
  _ ← get_reaction r;
  upd_reaction r (λ r, mkReaction (r_bindingArray r) false).

Definition processPendingBindings : R unit :=
  pending ← get m_pendingOnChangedBindingArray;
  _ ← for_each pending bindOnChanged;
  pending ← get m_pendingOnEventBindingArray;
  _ ← for_each pending bindOnEvent;
  active ← get m_activeBindingArray;
  _ ← for_each active releaseBinding;
  active ← get m_activeReactionArray;
  _ ← for_each active releaseReaction;
  modify (λ w, set_activeBindingArray [] (set_activeReactionArray [] (set_pendingOnChangedBindingArray [] (set_pendingOnEventBindingArray [] w)))).

Definition stop : R unit :=
  state ← get m_state;
  if decide (state = State_Stopped) then mret tt
  else
    bindings ← get m_bindingList;
    _ ← for_each bindings (λ b, binding ← get_binding b; removeHandler (b_event binding) (b_handler binding));
    _ ← modify (λ w, set_reactionArray (map (λ _, mkReaction [] false) (m_reactionArray w)) w);
    _ ← modify (λ w, set_pendingReactionMap ∅ (set_pendingOnChangedBindingArray [] (set_pendingOnEventBindingArray []
          (set_bindings (foldr delete (w_bindings w) (m_bindingList w)) (set_bindingList [] (set_bindingMap ∅ (set_activeBindingArray [] w)))))));
    _ ← log LStop;
    modify (set_state State_Stopped).

Definition isCollecting (s : State) : bool := match s with State_Starting | State_Reacting => true | _ => false end.

Definition addOnChangedBinding (reactionIdx e : nat) : R unit :=
  state ← get m_state;
  if decide (state = State_Stopped) then mret tt
  else
    _ ← assert (isCollecting state);
    _ ← log (LBind reactionIdx e);
    modify (λ w, set_pendingOnChangedBindingArray (m_pendingOnChangedBindingArray w ++ [(reactionIdx, e)]) w).

Definition addOnEventBinding (reactionIdx e : nat) : R unit :=
  state ← get m_state;
  if decide (state = State_Stopped) then mret tt
  else
    _ ← assert (isCollecting state);
    modify (λ w, set_pendingOnEventBindingArray (m_pendingOnEventBindingArray w ++ [(reactionIdx, e)]) w).

Definition enterReactiveStmt (reactionFromIdx reactionToIdx : nat) : R unit :=
  state ← get m_state;
  if decide (state = State_Stopped) then mret tt
  else
    _ ← assert (isCollecting state);
    let range := seq reactionFromIdx (reactionToIdx - reactionFromIdx) in
    _ ← modify (λ w, set_pendingReactionMap (m_pendingReactionMap w ∖ list_to_set range) w);
    for_each range (λ i, _ ← activateReaction i; mret tt).

(** ** The code of the reactor, and the loop *)

(** What code does: calls of the reactor, and events that are fired. When [e] is fired, a snapshot
    of its handlers is taken, and [before] is what those that are called before that of the reactor do. *)
Inductive Action :=
  | AEnter (reactionFromIdx reactionToIdx : nat)
  | ABind (reactionIdx e : nat)
  | ABindEvent (reactionIdx e : nat)
  | AFire (e : nat) (before : list Action)
  | AStart | AStop | ARestart.

(** What is left to do. *)
Inductive Task :=
  | TActions (l : list Action)
  | TCalls (bs : list nat)
  | TOnChanged (b : nat)
  | TReact (idx : option nat)
  | TLoop (from : nat)
  | TStart.

(** The code of the reactor: what its [k]th call does. *)
Variable react : nat → option nat → list Action.

(** [findBit], compared with the number of reactions. *)
Definition findBit (s : gset nat) (from count : nat) : option nat :=
  snd <$> list_find (λ i, i ∈ s) (seq from (count - from)).

(** The next pending reaction, after the last one or from the beginning. *)
Definition nextReaction (w : Reactor) (from : nat) : option nat :=
  let count := length (m_reactionArray w) in
  match findBit (m_pendingReactionMap w) from count with
  | Some i => Some i
  | None => findBit (m_pendingReactionMap w) 0 count
  end.

Definition onChanged_bindings (l : list Handler) : list nat := omap (λ p, match p with OnChanged b => Some b | _ => None end) l.

(** An action, and a task; [rec] is what is called in turn. *)
Definition run_action (rec : Task → R unit) (a : Action) : R unit :=
  match a with
  | AEnter f t => enterReactiveStmt f t
  | ABind i e => addOnChangedBinding i e
  | ABindEvent i e => addOnEventBinding i e
  | AFire e before =>
    ev ← get_event e;
    let bs := onChanged_bindings (ev_snapshot ev) in
    _ ← rec (TActions before);
    rec (TCalls bs)
  | AStart => rec TStart
  | AStop => stop
  | ARestart => _ ← stop; rec TStart
  end.

Definition onChanged (rec : Task → R unit) (b : nat) : R unit :=
  binding ← get_binding b;
  _ ← modify (λ w, set_pendingReactionMap (m_pendingReactionMap w ∪ b_reactionMap binding) w);
  state ← get m_state;
  if decide (state = State_Running) then
    _ ← modify (set_state State_Reacting);
    _ ← modify (λ w, set_activeReactionArray [] (set_activeBindingArray [] w));
    _ ← rec (TLoop 0);
    state ← get m_state;
    if decide (state = State_Stopped) then mret tt
    else
      _ ← assert (bool_decide (state = State_Reacting));
      modify (set_state State_Running)
  else mret tt.

(** A pass of [reactionLoop], from the reaction [from] on. *)
Definition reactionLoop (rec : Task → R unit) (from : nat) : R unit :=
  next ← get (λ w, nextReaction w from);
  match next with
  | None => processPendingBindings
  | Some i =>
    _ ← modify (λ w, set_pendingReactionMap (m_pendingReactionMap w ∖ {[i]}) w);
    result ← activateReaction i;
    if negb result then rec (TLoop (S i))
    else
      _ ← rec (TReact (Some i));
      state ← get m_state;
      if decide (state = State_Stopped) then mret tt else rec (TLoop (S i))
  end.

Definition start (rec : Task → R unit) : R unit :=
  state ← get m_state;
  if decide (state = State_Stopped) then
    _ ← modify (set_state State_Starting);
    _ ← rec (TReact None);
    state ← get m_state;
    if decide (state = State_Stopped) then mret tt
    else
      _ ← processPendingBindings;
      state ← get m_state;
      _ ← assert (bool_decide (state = State_Starting));
      modify (set_state State_Running)
  else mret tt.

Definition run_task (rec : Task → R unit) (t : Task) : R unit :=
  match t with
  | TActions [] => mret tt
  | TActions (a :: l) => _ ← run_action rec a; rec (TActions l)
  | TCalls [] => mret tt
  | TCalls (b :: bs) => _ ← rec (TOnChanged b); rec (TCalls bs)
  | TOnChanged b => onChanged rec b
  | TReact idx =>
    k ← get w_calls;
    _ ← modify (set_calls (S k));
    _ ← log (LReact idx);
    rec (TActions (react k idx))
  | TLoop from => reactionLoop rec from
  | TStart => start rec
  end.

(** [fuel] bounds the depth of calls. *)
Fixpoint run (fuel : nat) (t : Task) : R unit :=
  match fuel with O => fail OutOfFuel | S fuel => run_task (run fuel) t end.

(** A new reactor with [n] reactions. *)
Definition new_reactor (n : nat) (events : gmap nat event) : Reactor :=
  mkReactor State_Stopped (replicate n (mkReaction [] false)) ∅ [] [] [] [] [] ∅ ∅ 0 events 0 [].
End reactor.
