(* ===== verification/ReactorInv.v ===== *)
(** * Reactors: the invariant of the bindings

    What holds of bindings, reactions and events between the steps of a reactor, and that each
    operation on bindings keeps it. *)

From S2P Require Import Prelude Reactor.

Open Scope nat_scope.

Section inv.
Context `{XL : EventsLaws}.

(** ** Triples *)

(** An operation that does not run out of memory succeeds with [Q]. *)
Definition holds {A} (r : (A * Reactor) + failure) (Q : A → Reactor → Prop) : Prop :=
  match r with inl (x, w) => Q x w | inr OutOfMemory => True | inr _ => False end.

Definition wp {A} (m : R A) (w : Reactor) (Q : A → Reactor → Prop) : Prop := holds (m w) Q.

Lemma wp_ret {A} (x : A) w (Q : A → Reactor → Prop) : Q x w → wp (mret x) w Q.
Proof. done. Qed.

Lemma wp_bind {A B} (m : R A) (f : A → R B) w Q : wp m w (λ x w', wp (f x) w' Q) → wp (m ≫= f) w Q.
Proof. unfold wp, mbind, R_bind. by destruct (m w) as [ [x w']|[] ]. Qed.

Lemma wp_mono {A} (m : R A) w (Q Q' : A → Reactor → Prop) : wp m w Q → (∀ x w', Q x w' → Q' x w') → wp m w Q'.
Proof. unfold wp. destruct (m w) as [ [x w']|[] ]; cbn; auto. Qed.

Lemma wp_modify f w (Q : unit → Reactor → Prop) : Q tt (f w) → wp (modify f) w Q.
Proof. done. Qed.

Lemma wp_get {A} (f : Reactor → A) w (Q : A → Reactor → Prop) : Q (f w) w → wp (get f) w Q.
Proof. done. Qed.

Lemma wp_assert b w (Q : unit → Reactor → Prop) : b = true → Q tt w → wp (assert b) w Q.
Proof. by intros ->. Qed.

Lemma wp_get_binding b bd w (Q : Binding → Reactor → Prop) : w_bindings w !! b = Some bd → Q bd w → wp (get_binding b) w Q.
Proof. unfold wp, get_binding. by intros ->. Qed.

Lemma wp_get_reaction r rc w (Q : Reaction → Reactor → Prop) : m_reactionArray w !! r = Some rc → Q rc w → wp (get_reaction r) w Q.
Proof. unfold wp, get_reaction. by intros ->. Qed.

Lemma wp_get_event e ev w (Q : event → Reactor → Prop) : w_events w !! e = Some ev → Q ev w → wp (get_event e) w Q.
Proof. unfold wp, get_event. by intros ->. Qed.

(** A loop, with an invariant of what is done and what is left. *)
Lemma wp_for_each {A} (f : A → R unit) (I : list A → list A → Reactor → Prop) l : ∀ l0 w,
  (∀ l1 x l2 w, l0 ++ l = l1 ++ x :: l2 → I l1 (x :: l2) w → wp (f x) w (λ _, I (l1 ++ [x]) l2)) →
  I l0 l w → wp (for_each l f) w (λ _, I (l0 ++ l) []).
Proof.
  induction l as [|x l IH]; intros l0 w Hs Hi; cbn [for_each]; [by rewrite app_nil_r|].
  apply wp_bind. eapply wp_mono; [by apply Hs|]. intros [] w' Hi'. cbn.
  replace (l0 ++ x :: l) with ((l0 ++ [x]) ++ l) in * by (by rewrite <- app_assoc). by apply IH.
Qed.

Lemma wp_loop {A} (f : A → R unit) (I : list A → list A → Reactor → Prop) l w (Q : unit → Reactor → Prop) : I [] l w →
  (∀ l1 x l2 w, l = l1 ++ x :: l2 → I l1 (x :: l2) w → wp (f x) w (λ _, I (l1 ++ [x]) l2)) →
  (∀ w', I l [] w' → Q tt w') → wp (for_each l f) w Q.
Proof.
  intros Hi Hs Hq. eapply wp_mono; [by apply (wp_for_each f I l [] w)|]. intros [] w' Hw. by apply Hq.
Qed.

(** ** The invariant *)

(** Bindings, but for the reaction [skip]; the bindings [act] are active. *)
Record inv (skip : option nat) (act : list nat) (w : Reactor) : Prop := {
  in_list : NoDup (m_bindingList w);
  in_dom b : b ∈ m_bindingList w ↔ is_Some (w_bindings w !! b);
  in_next b : is_Some (w_bindings w !! b) → b < w_nextBinding w;
  in_map e b : m_bindingMap w !! e = Some b ↔ ∃ bd, w_bindings w !! b = Some bd ∧ b_inMap bd = true ∧ b_event bd = e;
  in_handler b bd : w_bindings w !! b = Some bd → ∃ ev i, w_events w !! b_event bd = Some ev ∧
    (b_handler bd, if b_inMap bd then OnChanged b else OnEvent i) ∈ ev_list ev;
  in_event e ev : w_events w !! e = Some ev → ev_ok ev ∧ ∀ h b, (h, OnChanged b) ∈ ev_list ev →
    ∃ bd, w_bindings w !! b = Some bd ∧ b_inMap bd = true ∧ b_event bd = e ∧ b_handler bd = h;
  in_array r rc b : m_reactionArray w !! r = Some rc → b ∈ r_bindingArray rc → skip ≠ Some r →
    ∃ bd, w_bindings w !! b = Some bd ∧ if b_inMap bd then r ∈ b_reactionMap bd else b_active bd = false;
  in_array_dom r rc b : m_reactionArray w !! r = Some rc → b ∈ r_bindingArray rc → is_Some (w_bindings w !! b);
  in_once r r' rc rc' b bd : m_reactionArray w !! r = Some rc → m_reactionArray w !! r' = Some rc' → b ∈ r_bindingArray rc →
    b ∈ r_bindingArray rc' → w_bindings w !! b = Some bd → b_inMap bd = false → r = r';
  in_onevent b bd : w_bindings w !! b = Some bd → b_inMap bd = false → b_reactionMap bd = ∅;
  in_active b bd : w_bindings w !! b = Some bd → b_active bd = true ↔ b ∈ act;
  in_active_dom b : b ∈ act → is_Some (w_bindings w !! b);
  in_active_nodup : NoDup act;
  in_bits b bd r : w_bindings w !! b = Some bd → r ∈ b_reactionMap bd → r < length (m_reactionArray w);
  in_distinct b b' bd bd' : w_bindings w !! b = Some bd → w_bindings w !! b' = Some bd' → b_event bd = b_event bd' →
    b_handler bd = b_handler bd' → b = b'
}.

(** A reaction is bound to an event. *)
Definition bound (w : Reactor) (r e : nat) : Prop :=
  ∃ b bd, m_bindingMap w !! e = Some b ∧ w_bindings w !! b = Some bd ∧ r ∈ b_reactionMap bd.

(** What the operations on bindings do not change. *)
Record same (w w' : Reactor) : Prop := {
  sa_state : m_state w' = m_state w;
  sa_reactions r : r_active <$> m_reactionArray w' !! r = r_active <$> m_reactionArray w !! r;
  sa_pending : m_pendingReactionMap w' = m_pendingReactionMap w;
  sa_onChanged : m_pendingOnChangedBindingArray w' = m_pendingOnChangedBindingArray w;
  sa_onEvent : m_pendingOnEventBindingArray w' = m_pendingOnEventBindingArray w;
  sa_activeReactions : m_activeReactionArray w' = m_activeReactionArray w;
  sa_events : dom (w_events w') = dom (w_events w);
  sa_calls : w_calls w' = w_calls w;
  sa_log : w_log w' = w_log w
}.

Lemma same_refl w : same w w.
Proof. done. Qed.

Lemma same_trans w1 w2 w3 : same w1 w2 → same w2 w3 → same w1 w3.
Proof.
  intros [A1 A2 A3 A4 A5 A6 A7 A8 A9] [B1 B2 B3 B4 B5 B6 B7 B8 B9]. split; congruence.
Qed.

Lemma same_length w w' : same w w' → length (m_reactionArray w') = length (m_reactionArray w).
Proof.
  intros S. apply Nat.le_antisymm; apply Nat.nlt_ge; intros Hlt.
  - apply lookup_lt_is_Some_2 in Hlt as [rc Hr]. pose proof (sa_reactions _ _ S (length (m_reactionArray w))) as He.
    rewrite Hr, (proj2 (lookup_ge_None _ _)) in He by lia. done.
  - apply lookup_lt_is_Some_2 in Hlt as [rc Hr]. pose proof (sa_reactions _ _ S (length (m_reactionArray w'))) as He.
    rewrite Hr, (proj2 (lookup_ge_None _ _)) in He by lia. done.
Qed.

(** A binding of the event whose handler is in its list is the only one. *)
Lemma handler_unique skip act w b b' bd bd' : inv skip act w → w_bindings w !! b = Some bd → w_bindings w !! b' = Some bd' →
  b_inMap bd = true → b_inMap bd' = true → b_event bd = b_event bd' → b = b'.
Proof.
  intros I Hb Hb' H1 H2 He. assert (m_bindingMap w !! b_event bd = Some b) by (apply (in_map _ _ _ I); eauto).
  assert (m_bindingMap w !! b_event bd' = Some b') by (apply (in_map _ _ _ I); eauto). congruence.
Qed.

(** ** Adding a binding *)

Definition new_binding (b : nat) (e : nat) (h : N) (inMap : bool) (ev : event) (w : Reactor) : Reactor :=
  set_nextBinding (S b) (set_bindings (<[b := mkBinding e h inMap ∅ false]> (w_bindings w))
    (set_bindingList (m_bindingList w ++ [b]) (set_events (<[e := ev]> (w_events w)) w))).

Lemma wp_subscribe skip act e p inMap w (Q : nat → Reactor → Prop) : inv skip act w → is_Some (w_events w !! e) →
  (∀ ev ev' h, w_events w !! e = Some ev → h ∉ (ev_list ev).*1 → ev_ok ev' →
    ev_list ev' = ev_list ev ++ [(h, p (w_nextBinding w))] → Q (w_nextBinding w) (new_binding (w_nextBinding w) e h inMap ev' w)) →
  wp (subscribe e p inMap) w Q.
Proof.
  intros I [ev Hev] HQ. unfold subscribe, addHandler. apply wp_bind, wp_get, wp_bind, wp_bind.
  apply (wp_get_event e ev); [done|]. apply wp_bind.
  destruct (ev_addHandler (p (w_nextBinding w)) ev) as [ [h ev']|] eqn:Ha; [|done].
  destruct (in_event _ _ _ I e ev Hev) as [Hok _]. destruct (ev_add_law ev _ h ev' Hok Ha) as (H1 & H2 & H3).
  apply wp_ret, wp_bind, wp_modify, wp_ret, wp_bind, wp_modify, wp_ret. by apply (HQ ev).
Qed.

Lemma inv_new_binding skip act e h (inMap : bool) w i ev ev' : inv skip act w → w_events w !! e = Some ev → h ∉ (ev_list ev).*1 →
  ev_ok ev' → let b := w_nextBinding w in
  ev_list ev' = ev_list ev ++ [(h, if inMap then OnChanged b else OnEvent i)] → (inMap = true → m_bindingMap w !! e = None) →
  let w' := new_binding b e h inMap ev' w in
  inv skip act (if inMap then set_bindingMap (<[e := b]> (m_bindingMap w)) w' else w').
Proof.
  intros I Hev Hh Hok b Hl Hn w'. pose proof I as [I1 I2 I3 I4 I5 I6 I7 I8 I9 I10 I11 I12 I13 I14 I15].
  assert (Hb : w_bindings w !! b = None).
  { destruct (w_bindings w !! b) eqn:Hb; [|done]. pose proof (I3 b ltac:(by eexists)). unfold b in *. lia. }
  assert (Hbl : b ∉ m_bindingList w) by (rewrite I2, Hb; by intros [? ?]).
  set (bd := mkBinding e h inMap ∅ false).
  assert (Hlook : ∀ b' bd', <[b := bd]> (w_bindings w) !! b' = Some bd' ↔ (b' = b ∧ bd' = bd) ∨ (b' ≠ b ∧ w_bindings w !! b' = Some bd')).
  { intros b' bd'. rewrite lookup_insert_Some. naive_solver. }
  assert (Hsome : ∀ b', is_Some (<[b := bd]> (w_bindings w) !! b') ↔ b' = b ∨ is_Some (w_bindings w !! b')).
  { intros b'. rewrite lookup_insert_is_Some. destruct (decide (b = b')); naive_solver. }
  assert (Hother : ∀ b' bd', w_bindings w !! b' = Some bd' → b' ≠ b) by (intros b' bd' Hb' ->; congruence).
  assert (Hg : ∀ w2, w_bindings w2 = <[b := bd]> (w_bindings w) → m_bindingList w2 = m_bindingList w ++ [b] →
    w_nextBinding w2 = S b → m_reactionArray w2 = m_reactionArray w → w_events w2 = <[e := ev']> (w_events w) →
    m_bindingMap w2 = (if inMap then <[e := b]> (m_bindingMap w) else m_bindingMap w) → inv skip act w2).
  { intros w2 E1 E2 E3 E4 E5 E6. split; rewrite ?E1, ?E2, ?E3, ?E4, ?E5.
    - apply NoDup_app. split; [done|]. split; [|apply NoDup_singleton]. by intros x Hx ->%list_elem_of_singleton.
    - intros b'. rewrite elem_of_app, list_elem_of_singleton, Hsome, I2. tauto.
    - intros b' [->|Hs]%Hsome; [lia|]. specialize (I3 b' Hs). unfold b. lia.
    - intros e' b'. rewrite E6. destruct inMap.
      + rewrite lookup_insert_Some. split.
        * intros [ [<- <-]|[Hne Hm] ]; [exists bd; split; [apply Hlook; by left|done]|].
          apply I4 in Hm as (bd' & H1 & H2). exists bd'. split; [apply Hlook; right; split; [by eapply Hother|done]|done].
        * intros (bd' & [ [-> ->]|[Hne H1] ]%Hlook & H2 & H3); [left; by cbn in H3|]. right.
          assert (Hm : m_bindingMap w !! e' = Some b') by (apply I4; eauto). split; [|done]. intros ->. rewrite Hn in Hm; done.
      + rewrite I4. split; intros (bd' & H1 & H2 & H3).
        * exists bd'. split; [apply Hlook; right; split; [by eapply Hother|done]|done].
        * apply Hlook in H1 as [ [-> ->]|[Hne H1] ]; [done|eauto].
    - intros b' bd' [ [-> ->]|[Hne H1] ]%Hlook.
      + cbn. exists ev', i. split; [by rewrite lookup_insert_eq|]. rewrite Hl, elem_of_app, list_elem_of_singleton. by right.
      + destruct (I5 b' bd' H1) as (ev1 & i1 & H2 & H3). destruct (decide (b_event bd' = e)) as [Heq|Hne'].
        * exists ev', i1. rewrite Heq, lookup_insert_eq. split; [done|]. rewrite Hl, elem_of_app. left. congruence.
        * exists ev1, i1. by rewrite lookup_insert_ne.
    - intros e' ev1. rewrite lookup_insert_Some. intros [ [<- <-]|[Hne H1] ].
      + split; [done|]. intros h' b'. rewrite Hl, elem_of_app, list_elem_of_singleton. intros [Hin|[= -> Hp] ].
        * destruct (I6 e ev Hev) as [_ H6]. destruct (H6 h' b' Hin) as (bd' & H1 & H2). exists bd'.
          split; [apply Hlook; right; split; [by eapply Hother|done]|done].
        * destruct inMap; [|done]. injection Hp as ->. exists bd. split; [apply Hlook; by left|done].
      + destruct (I6 e' ev1 H1) as [H2 H3]. split; [done|]. intros h' b' Hin. destruct (H3 h' b' Hin) as (bd' & H4 & H5).
        exists bd'. split; [apply Hlook; right; split; [by eapply Hother|done]|done].
    - intros r rc b' Hr Hin Hs. destruct (I7 r rc b' Hr Hin Hs) as (bd' & H1 & H2). exists bd'.
      split; [apply Hlook; right; split; [by eapply Hother|done]|done].
    - intros r rc b' Hr Hin. apply Hsome. right. by eapply I8.
    - intros r r' rc rc' b' bd' Hr Hr' Hin Hin' [ [-> ->]|[Hne H1] ]%Hlook H2; [|by eapply I9].
      destruct (I8 r rc b Hr Hin). congruence.
    - intros b' bd' [ [-> ->]|[Hne H1] ]%Hlook H2; [done|by eapply I10].
    - intros b' bd' [ [-> ->]|[Hne H1] ]%Hlook; [|by apply I11]. cbn. split; [done|]. intros Hin. destruct (I12 b Hin). congruence.
    - intros b' Hin. apply Hsome. right. by apply I12.
    - done.
    - intros b' bd' r [ [-> ->]|[Hne H1] ]%Hlook Hin; [cbn in Hin; set_solver|by eapply I14].
    - assert (Hno : ∀ b' bd', w_bindings w !! b' = Some bd' → b_event bd' = e → b_handler bd' ≠ h).
      { intros b' bd' Hb' He' <-. destruct (I5 b' bd' Hb') as (ev1 & i1 & H2 & H3). apply Hh. assert (ev1 = ev) as -> by congruence.
        apply list_elem_of_fmap. eexists; split; [|exact H3]; done. }
      intros b1 b2 bd1 bd2 [ [-> ->]|[Hne1 H1] ]%Hlook [ [-> ->]|[Hne2 H2] ]%Hlook He' Hh'; try done.
      + exfalso. cbn in He', Hh'. by eapply (Hno b2 bd2).
      + exfalso. cbn in He', Hh'. by eapply (Hno b1 bd1).
      + by eapply I15. }
  unfold w'. destruct inMap; by apply Hg.
Qed.

(** ** Changing bindings and reactions in place *)

Definition fixed (bd : Binding) : nat * N * bool := (b_event bd, b_handler bd, b_inMap bd).

Lemma fixed_some w w' b bd' : (∀ b, fixed <$> w_bindings w' !! b = fixed <$> w_bindings w !! b) → w_bindings w' !! b = Some bd' →
  ∃ bd, w_bindings w !! b = Some bd ∧ b_event bd' = b_event bd ∧ b_handler bd' = b_handler bd ∧ b_inMap bd' = b_inMap bd.
Proof.
  intros Hf Hb. specialize (Hf b). rewrite Hb in Hf. destruct (w_bindings w !! b) as [bd|]; [|done]. injection Hf as H1 H2 H3. eauto.
Qed.

Lemma inv_in_place skip act skip' act' w w' : inv skip act w →
  m_bindingList w' = m_bindingList w → w_nextBinding w' = w_nextBinding w → m_bindingMap w' = m_bindingMap w → w_events w' = w_events w →
  (∀ b, fixed <$> w_bindings w' !! b = fixed <$> w_bindings w !! b) →
  (∀ r rc b, m_reactionArray w' !! r = Some rc → b ∈ r_bindingArray rc → skip' ≠ Some r →
    ∃ bd, w_bindings w' !! b = Some bd ∧ if b_inMap bd then r ∈ b_reactionMap bd else b_active bd = false) →
  (∀ r rc b, m_reactionArray w' !! r = Some rc → b ∈ r_bindingArray rc →
    is_Some (w_bindings w !! b) ∧ ∀ bd, w_bindings w !! b = Some bd → b_inMap bd = false →
      ∃ rc0, m_reactionArray w !! r = Some rc0 ∧ b ∈ r_bindingArray rc0) →
  (∀ b bd, w_bindings w' !! b = Some bd → b_inMap bd = false → b_reactionMap bd = ∅) →
  (∀ b bd, w_bindings w' !! b = Some bd → b_active bd = true ↔ b ∈ act') →
  (∀ b, b ∈ act' → is_Some (w_bindings w !! b)) → NoDup act' →
  (∀ b bd r, w_bindings w' !! b = Some bd → r ∈ b_reactionMap bd → r < length (m_reactionArray w')) →
  inv skip' act' w'.
Proof.
  intros [I1 I2 I3 I4 I5 I6 I7 I8 I9 I10 I11 I12 I13 I14 I15] E1 E2 E3 E4 Hf H7 H8 H10 H11 H12 H13 H14.
  assert (Hsome : ∀ b, is_Some (w_bindings w' !! b) ↔ is_Some (w_bindings w !! b)).
  { intros b. specialize (Hf b). split; intros [x Hx]; rewrite Hx in Hf; by destruct (_ !! b). }
  assert (Hback : ∀ b bd, w_bindings w !! b = Some bd → ∃ bd', w_bindings w' !! b = Some bd' ∧ b_event bd' = b_event bd ∧
    b_handler bd' = b_handler bd ∧ b_inMap bd' = b_inMap bd).
  { intros b bd Hb. destruct (proj2 (Hsome b)) as [bd' Hb']; [by eexists|].
    destruct (fixed_some _ _ _ _ Hf Hb') as (bd0 & H0 & ?). assert (bd0 = bd) as -> by congruence. eauto. }
  split; rewrite ?E1, ?E2, ?E3, ?E4; try done.
  - intros b. by rewrite Hsome.
  - intros b Hb. apply I3. by apply Hsome.
  - intros e b. rewrite I4. split; intros (bd & H1 & H2 & H3).
    + destruct (Hback b bd H1) as (bd' & ? & ? & ? & ?). exists bd'. split; [done|]. split; congruence.
    + destruct (fixed_some _ _ _ _ Hf H1) as (bd' & ? & ? & ? & ?). exists bd'. split; [done|]. split; congruence.
  - intros b bd' Hb'. destruct (fixed_some _ _ _ _ Hf Hb') as (bd & Hb & R1 & R2 & R3). rewrite R1, R2, R3. by apply I5.
  - intros e ev Hev. destruct (I6 e ev Hev) as [Hok H6]. split; [done|]. intros h b Hin. destruct (H6 h b Hin) as (bd & H1 & H2 & H3 & H4).
    destruct (Hback b bd H1) as (bd' & ? & ? & ? & ?). exists bd'. split; [done|]. split; [congruence|]. split; congruence.
  - intros r rc b Hr Hin. apply Hsome. by eapply H8.
  - intros r r' rc rc' b bd' Hr Hr' Hin Hin' Hb' Hm. destruct (fixed_some _ _ _ _ Hf Hb') as (bd & Hb & R1 & R2 & R3).
    destruct (H8 r rc b Hr Hin) as [_ Ha]. destruct (H8 r' rc' b Hr' Hin') as [_ Hb2].
    destruct (Ha bd Hb ltac:(congruence)) as (x & X1 & X2). destruct (Hb2 bd Hb ltac:(congruence)) as (y & Y1 & Y2).
    eapply (I9 r r' x y b bd); try done. congruence.
  - intros b Hin. apply Hsome. by apply H12.
  - intros b1 b2 bd1 bd2 H1 H2 He Hh. destruct (fixed_some _ _ _ _ Hf H1) as (x & ? & X1 & X2 & _).
    destruct (fixed_some _ _ _ _ Hf H2) as (y & ? & Y1 & Y2 & _). apply (I15 b1 b2 x y); congruence.
Qed.

Lemma alter_reaction {w : Reactor} {f r r' rc'} : alter f r (m_reactionArray w) !! r' = Some rc' ↔
  ∃ rc, m_reactionArray w !! r' = Some rc ∧ rc' = if decide (r' = r) then f rc else rc.
Proof.
  destruct (decide (r' = r)) as [->|Hne].
  - rewrite list_lookup_alter_eq, fmap_Some. naive_solver.
  - rewrite list_lookup_alter_ne by done. naive_solver.
Qed.

Lemma alter_binding {w : Reactor} {f b b' bd'} : alter f b (w_bindings w) !! b' = Some bd' ↔
  ∃ bd, w_bindings w !! b' = Some bd ∧ bd' = if decide (b' = b) then f bd else bd.
Proof.
  destruct (decide (b' = b)) as [->|Hne].
  - rewrite lookup_alter_eq, fmap_Some. naive_solver.
  - rewrite lookup_alter_ne by done. naive_solver.
Qed.

Lemma alter_binding_fixed (w : Reactor) f b b' : (∀ bd, fixed (f bd) = fixed bd) →
  fixed <$> alter f b (w_bindings w) !! b' = fixed <$> w_bindings w !! b'.
Proof.
  intros Hf. destruct (decide (b = b')) as [->|Hne]; [|by rewrite lookup_alter_ne].
  rewrite lookup_alter_eq. destruct (w_bindings w !! b'); [|done]. cbn. by rewrite Hf.
Qed.

Lemma alter_same (w : Reactor) f r : (∀ rc, r_active (f rc) = r_active rc) →
  ∀ r', r_active <$> alter f r (m_reactionArray w) !! r' = r_active <$> m_reactionArray w !! r'.
Proof.
  intros Hf r'. destruct (decide (r = r')) as [->|Hne]; [|by rewrite list_lookup_alter_ne].
  rewrite list_lookup_alter_eq. destruct (m_reactionArray w !! r'); [|done]. cbn. by rewrite Hf.
Qed.

(** *** A reaction is bound *)

Definition bind_bit (r b : nat) (w : Reactor) : Reactor :=
  set_reactionArray (alter (λ r, mkReaction (r_bindingArray r ++ [b]) (r_active r)) r (m_reactionArray w))
    (set_bindings (alter (λ bd, b_set_reactionMap ({[r]} ∪ b_reactionMap bd) bd) b (w_bindings w)) w).

Lemma inv_bind_bit act r b bd w : inv None act w → w_bindings w !! b = Some bd → b_inMap bd = true → r < length (m_reactionArray w) →
  inv None act (bind_bit r b w) ∧ ∀ r' e, bound w r' e → bound (bind_bit r b w) r' e.
Proof.
  intros I Hb Hm Hr. pose proof I as [I1 I2 I3 I4 I5 I6 I7 I8 I9 I10 I11 I12 I13 I14 I15]. split.
  - eapply inv_in_place; [exact I|try done..]; cbn.
    + intros b'. by apply alter_binding_fixed.
    + intros r' rc' b' Hr' Hin _. apply alter_reaction in Hr' as (rc & Hrc & ->).
      assert (Hb' : (b' = b ∧ r' = r) ∨ b' ∈ r_bindingArray rc).
      { destruct (decide (r' = r)); [|by right]. cbn in Hin. rewrite elem_of_app, list_elem_of_singleton in Hin. tauto. }
      destruct Hb' as [ [-> ->]|Hb'].
      * eexists. split; [apply alter_binding; eauto|]. rewrite decide_True by done. cbn. rewrite Hm. set_solver.
      * destruct (I7 r' rc b' Hrc Hb' ltac:(done)) as (bd' & H1 & H2). eexists. split; [apply alter_binding; eauto|].
        destruct (decide (b' = b)) as [->|]; [|done]. cbn. destruct (b_inMap bd'); [set_solver|done].
    + intros r' rc' b' Hr' Hin. apply alter_reaction in Hr' as (rc & Hrc & ->).
      assert (Hb' : (b' = b ∧ r' = r) ∨ b' ∈ r_bindingArray rc).
      { destruct (decide (r' = r)); [|by right]. cbn in Hin. rewrite elem_of_app, list_elem_of_singleton in Hin. tauto. }
      destruct Hb' as [ [-> ->]|Hb']; [split; [by eexists|congruence]|]. split; [by eapply I8|eauto].
    + intros b' bd' (bd0 & H0 & ->)%alter_binding Hf. destruct (decide (b' = b)) as [->|]; [|by eapply I10].
      cbn in Hf. congruence.
    + intros b' bd' (bd0 & H0 & ->)%alter_binding. rewrite <- (I11 b' bd0) by done. by destruct (decide _).
    + rewrite length_alter. intros b' bd' r' (bd0 & H0 & ->)%alter_binding Hin. destruct (decide (b' = b)) as [->|]; [|by eapply I14].
      cbn in Hin. apply elem_of_union in Hin as [->%elem_of_singleton|Hin]; [done|by eapply I14].
  - intros r' e (b' & bd' & H1 & H2 & H3). exists b'. eexists. split; [done|]. split; [apply alter_binding; eauto|].
    destruct (decide (b' = b)); [|done]. cbn. set_solver.
Qed.

Lemma bindOnChanged_ok act r e w : inv None act w → r < length (m_reactionArray w) → is_Some (w_events w !! e) →
  wp (bindOnChanged (r, e)) w (λ _ w', inv None act w' ∧ same w w' ∧ m_activeBindingArray w' = m_activeBindingArray w ∧ bound w' r e ∧
    ∀ r' e', bound w r' e' → bound w' r' e').
Proof.
  intros I Hr He. unfold bindOnChanged. apply wp_bind, wp_get.
  set (Q1 := λ (b : nat) (w1 : Reactor), inv None act w1 ∧ same w w1 ∧ m_activeBindingArray w1 = m_activeBindingArray w ∧
    m_bindingMap w1 !! e = Some b ∧ ∀ r' e', bound w r' e' → bound w1 r' e').
  apply wp_bind. eapply (wp_mono _ _ Q1).
  { destruct (m_bindingMap w !! e) as [b|] eqn:Hm; [by apply wp_ret|].
    apply wp_bind. eapply wp_subscribe; [exact I|done|]. intros ev ev' h Hev Hh Hok Hl. apply wp_bind, wp_modify, wp_ret.
    pose proof (inv_new_binding None act e h true w 0 ev ev' I Hev Hh Hok Hl (λ _, Hm)) as I'. cbn zeta in I'.
    split; [exact I'|]. split.
    { split; cbn; try done. rewrite dom_insert_L. apply set_eq. intros x.
      rewrite elem_of_union, elem_of_singleton. split; [intros [->|?]; [by apply elem_of_dom|done]|by right]. }
    split; [done|]. split; [cbn; by rewrite lookup_insert_eq|].
    intros r' e' (b' & bd' & H1 & H2 & H3). exists b', bd'. cbn. split; [rewrite lookup_insert_ne; [done|congruence]|].
    split; [|done]. rewrite lookup_insert_ne; [done|]. intros <-. pose proof (in_next _ _ _ I (w_nextBinding w) ltac:(by eexists)). lia. }
  intros b w1 (I1 & S1 & A1 & M1 & B1). cbn beta. apply (in_map _ _ _ I1) in M1 as M2. destruct M2 as (bd & Hb & Hm & Hbe).
  apply wp_bind, (wp_get_binding b bd); [done|]. destruct (decide (r ∈ b_reactionMap bd)) as [Hin|Hnin].
  { apply wp_ret. split; [done|]. split; [done|]. split; [done|]. split; [|done]. exists b, bd. done. }
  apply wp_bind, wp_modify, wp_bind.
  rewrite <- (same_length _ _ S1) in Hr. pose proof Hr as [rc Hrc]%lookup_lt_is_Some_2.
  apply (wp_get_reaction r rc); [done|]. apply wp_bind, wp_assert.
  { apply bool_decide_eq_true. intros Hin. destruct (in_array _ _ _ I1 r rc b Hrc Hin ltac:(done)) as (bd' & H1 & H2).
    assert (bd' = bd) as -> by congruence. rewrite Hm in H2. done. }
  apply wp_modify. destruct (inv_bind_bit act r b bd w1 I1 Hb Hm Hr) as [I2 B2]. split; [exact I2|]. split; [|split; [done|split] ].
  - eapply same_trans; [exact S1|]. split; cbn; try done. by apply alter_same.
  - exists b. eexists. split; [done|]. split; [cbn; apply alter_binding; eauto|]. rewrite decide_True by done. cbn. set_solver.
  - intros r' e' Hbd. by apply B2, B1.
Qed.

(** *** An event handler is bound *)

Definition append_binding (r b : nat) (w : Reactor) : Reactor :=
  set_reactionArray (alter (λ r, mkReaction (r_bindingArray r ++ [b]) (r_active r)) r (m_reactionArray w)) w.

Lemma append_elem (w : Reactor) r b r' rc' b' : m_reactionArray (append_binding r b w) !! r' = Some rc' → b' ∈ r_bindingArray rc' →
  ∃ rc, m_reactionArray w !! r' = Some rc ∧ ((b' = b ∧ r' = r) ∨ b' ∈ r_bindingArray rc).
Proof.
  cbn. intros (rc & Hrc & ->)%alter_reaction Hin. exists rc. split; [done|].
  destruct (decide (r' = r)); [|by right]. cbn in Hin. rewrite elem_of_app, list_elem_of_singleton in Hin. tauto.
Qed.

Lemma inv_append act r b bd w : inv None act w → w_bindings w !! b = Some bd → b_inMap bd = false → b_active bd = false →
  (∀ r' rc, m_reactionArray w !! r' = Some rc → b ∉ r_bindingArray rc) → inv None act (append_binding r b w).
Proof.
  intros I Hb Hm Ha Hn. pose proof I as [I1 I2 I3 I4 I5 I6 I7 I8 I9 I10 I11 I12 I13 I14 I15]. split; try done.
  - intros r' rc' b' Hr' Hin _. destruct (append_elem _ _ _ _ _ _ Hr' Hin) as (rc & Hrc & [ [-> ->]|Hb']); [|by eapply I7].
    exists bd. split; [done|]. by rewrite Hm.
  - intros r' rc' b' Hr' Hin. destruct (append_elem _ _ _ _ _ _ Hr' Hin) as (rc & Hrc & [ [-> ->]|Hb']); [by eexists|by eapply I8].
  - intros r1 r2 rc1 rc2 b' bd' H1 H2 Hin1 Hin2 Hb' Hm'. destruct (append_elem _ _ _ _ _ _ H1 Hin1) as (x & Hx & Hx').
    destruct (append_elem _ _ _ _ _ _ H2 Hin2) as (y & Hy & Hy'). destruct (decide (b' = b)) as [->|Hne].
    + destruct Hx' as [ [_ ->]|Hx']; [|by destruct (Hn _ _ Hx Hx')]. destruct Hy' as [ [_ ->]|Hy']; [done|by destruct (Hn _ _ Hy Hy')].
    + destruct Hx' as [ [? _]|Hx']; [done|]. destruct Hy' as [ [? _]|Hy']; [done|]. by eapply (I9 r1 r2 x y b').
  - cbn. rewrite length_alter. done.
Qed.

Lemma bindOnEvent_ok act r e w : inv None act w → r < length (m_reactionArray w) → is_Some (w_events w !! e) →
  wp (bindOnEvent (r, e)) w (λ _ w', inv None act w' ∧ same w w' ∧ m_activeBindingArray w' = m_activeBindingArray w ∧
    ∀ r' e', bound w r' e' → bound w' r' e').
Proof.
  intros I Hr He. unfold bindOnEvent. apply lookup_lt_is_Some_2 in Hr as [rc Hrc].
  apply wp_bind, (wp_get_reaction r rc); [done|]. apply wp_bind. eapply wp_subscribe; [exact I|done|].
  intros ev ev' h Hev Hh Hok Hl. apply wp_modify.
  pose proof (inv_new_binding None act e h false w r ev ev' I Hev Hh Hok Hl ltac:(done)) as I'. cbn zeta in I'.
  assert (Hfresh : ∀ b, is_Some (w_bindings w !! b) → b ≠ w_nextBinding w).
  { intros b Hb ->. pose proof (in_next _ _ _ I _ Hb). lia. }
  split; [|split; [|split; [done|]]].
  - eapply inv_append; [exact I'|cbn; by rewrite lookup_insert_eq|done|done|].
    cbn. intros r' rc' Hr' Hin. by eapply Hfresh; [eapply (in_array_dom _ _ _ I)|].
  - split; cbn; try done; [by apply alter_same|]. rewrite dom_insert_L. apply set_eq. intros x.
    rewrite elem_of_union, elem_of_singleton. split; [intros [->|?]; [by apply elem_of_dom|done]|by right].
  - intros r' e' (b' & bd' & H1 & H2 & H3). exists b', bd'. cbn. split; [done|]. split; [|done].
    rewrite lookup_insert_ne; [done|]. intros Heq. eapply Hfresh; [by eexists|done].
Qed.

(** ** Removing a binding *)

Definition removed_binding (b : nat) (bd : Binding) (ev : event) (w : Reactor) : Reactor :=
  let w := set_events (<[b_event bd := ev]> (w_events w)) w in
  let w := if b_inMap bd then set_bindingMap (delete (b_event bd) (m_bindingMap w)) w else w in
  set_bindings (delete b (w_bindings w)) (set_bindingList (filter (λ b', b' ≠ b) (m_bindingList w)) w).

Lemma wp_removeHandler skip act b bd w (Q : unit → Reactor → Prop) : inv skip act w → w_bindings w !! b = Some bd →
  (∀ ev ev' l1 p l2, w_events w !! b_event bd = Some ev → ev_ok ev → ev_list ev = l1 ++ (b_handler bd, p) :: l2 → ev_ok ev' →
    ev_list ev' = l1 ++ l2 → Q tt (set_events (<[b_event bd := ev']> (w_events w)) w)) →
  wp (removeHandler (b_event bd) (b_handler bd)) w Q.
Proof.
  intros I Hb HQ. destruct (in_handler _ _ _ I b bd Hb) as (ev & i & Hev & Hin). apply list_elem_of_split in Hin as (l1 & l2 & Hl).
  destruct (in_event _ _ _ I _ ev Hev) as [Hok _]. destruct (ev_remove_law ev l1 _ _ l2 Hok Hl) as (ev' & Hr & Hok' & Hl').
  unfold removeHandler. apply wp_bind, (wp_get_event _ ev); [done|]. apply wp_bind. rewrite Hr. apply wp_ret, wp_modify.
  by eapply HQ.
Qed.

Lemma inv_removed skip act act' b bd ev ev' l1 p l2 w : inv skip act w → w_bindings w !! b = Some bd → w_events w !! b_event bd = Some ev →
  ev_list ev = l1 ++ (b_handler bd, p) :: l2 → ev_ok ev' → ev_list ev' = l1 ++ l2 →
  (∀ r rc, m_reactionArray w !! r = Some rc → b ∉ r_bindingArray rc) → NoDup act' → b ∉ act' → (∀ b', b' ≠ b → b' ∈ act ↔ b' ∈ act') →
  inv skip act' (removed_binding b bd ev' w).
Proof.
  intros I Hb Hev Hl Hok' Hl' Harr Hnda Hact Hacts. pose proof I as [I1 I2 I3 I4 I5 I6 I7 I8 I9 I10 I11 I12 I13 I14 I15].
  destruct (I6 _ _ Hev) as [Hok H6]. pose proof (ev_nodup ev Hok) as Hnd. rewrite Hl, fmap_app in Hnd. cbn in Hnd.
  assert (Hlook : ∀ b' bd', delete b (w_bindings w) !! b' = Some bd' ↔ b' ≠ b ∧ w_bindings w !! b' = Some bd').
  { intros b' bd'. rewrite lookup_delete_Some. naive_solver. }
  assert (Hsome : ∀ b', is_Some (delete b (w_bindings w) !! b') ↔ b' ≠ b ∧ is_Some (w_bindings w !! b')).
  { intros b'. split; [intros [x Hx]; apply Hlook in Hx as [? ?]; eauto|]. intros [Hne [x Hx]]. exists x. by apply Hlook. }
  assert (Hin : ∀ h q, (h, q) ∈ ev_list ev' ↔ (h, q) ∈ ev_list ev ∧ h ≠ b_handler bd).
  { intros h q. rewrite Hl, Hl', !elem_of_app, elem_of_cons. apply NoDup_app in Hnd as (N1 & N2 & [N3 _]%NoDup_cons). split.
    - intros Hq. split; [tauto|]. intros ->. destruct Hq as [Hq|Hq].
      + apply (N2 (b_handler bd)); [apply list_elem_of_fmap; by exists (b_handler bd, q)|left].
      + apply N3, list_elem_of_fmap. by exists (b_handler bd, q).
    - intros [ [?|[ [= -> ->]|?] ] Hne]; [by left|done|by right]. }
  assert (Hown : ∀ b' bd', w_bindings w !! b' = Some bd' → b' ≠ b → b_event bd' = b_event bd → b_handler bd' ≠ b_handler bd).
  { intros b' bd' Hb' Hne He Hh. apply Hne. by apply (I15 b' b bd' bd). }
  assert (Hg : ∀ w', w_bindings w' = delete b (w_bindings w) → m_bindingList w' = filter (λ b', b' ≠ b) (m_bindingList w) →
    w_nextBinding w' = w_nextBinding w → m_reactionArray w' = m_reactionArray w → w_events w' = <[b_event bd := ev']> (w_events w) →
    m_bindingMap w' = (if b_inMap bd then delete (b_event bd) (m_bindingMap w) else m_bindingMap w) → inv skip act' w').
  { intros w' E1 E2 E3 E4 E5 E6. split; rewrite ?E1, ?E2, ?E3, ?E4, ?E5; try done.
    - by apply NoDup_filter.
    - intros b'. rewrite list_elem_of_filter, Hsome, I2. done.
    - intros b' [_ Hs]%Hsome. by apply I3.
    - intros e b'. rewrite E6. destruct (b_inMap bd) eqn:Hm.
      + rewrite lookup_delete_Some, I4. split.
        * intros [Hne (bd' & H1 & H2 & H3)]. exists bd'. split; [apply Hlook; split; [congruence|done]|done].
        * intros (bd' & [Hne H1]%Hlook & H2 & H3). split; [|eauto]. intros Heq. apply Hne.
          by eapply (handler_unique _ _ w b' b bd' bd); [..|congruence].
      + rewrite I4. split; intros (bd' & H1 & H2 & H3).
        * exists bd'. split; [apply Hlook; split; [congruence|done]|done].
        * apply Hlook in H1 as [_ H1]. eauto.
    - intros b' bd' [Hne Hb']%Hlook. destruct (I5 b' bd' Hb') as (ev1 & i & Hev1 & Hi). destruct (decide (b_event bd' = b_event bd)) as [Heq|Hn].
      + exists ev', i. rewrite Heq, lookup_insert_eq. split; [done|]. apply Hin. split; [congruence|]. by eapply Hown.
      + exists ev1, i. by rewrite lookup_insert_ne.
    - intros e ev1. rewrite lookup_insert_Some. intros [ [<- <-]|[Hne Hev1] ].
      + split; [done|]. intros h b' [Hi Hh]%Hin. destruct (H6 h b' Hi) as (bd' & X1 & X2 & X3 & X4). exists bd'.
        split; [apply Hlook; split; [congruence|done]|done].
      + destruct (I6 e ev1 Hev1) as [Hok1 H1]. split; [done|]. intros h b' Hi. destruct (H1 h b' Hi) as (bd' & X1 & X2 & X3 & X4).
        exists bd'. split; [apply Hlook; split; [congruence|done]|done].
    - intros r rc b' Hr Hi Hs. destruct (I7 r rc b' Hr Hi Hs) as (bd' & X1 & X2). exists bd'.
      split; [apply Hlook; split; [|done]|done]. intros ->. by apply (Harr r rc).
    - intros r rc b' Hr Hi. apply Hsome. split; [|by eapply I8]. intros ->. by apply (Harr r rc).
    - intros r r' rc rc' b' bd' Hr Hr' Hi Hi' [_ Hb']%Hlook Hm'. by eapply (I9 r r' rc rc' b' bd').
    - intros b' bd' [_ Hb']%Hlook. by apply (I10 b').
    - intros b' bd' [Hne Hb']%Hlook. rewrite (I11 b' bd') by done. by apply Hacts.
    - intros b' Hi. assert (Hne : b' ≠ b) by (by intros ->). apply Hsome. split; [done|]. by apply I12, Hacts.
    - intros b' bd' r [_ Hb']%Hlook. by apply (I14 b').
    - intros b1 b2 bd1 bd2 [_ Hb1]%Hlook [_ Hb2]%Hlook. by apply (I15 b1 b2). }
  unfold removed_binding. destruct (b_inMap bd); by apply Hg.
Qed.

(** ** Activating a reaction *)

Record activating (r : nat) (w w1 : Reactor) : Prop := {
  ag_inv : inv (Some r) (m_activeBindingArray w1) w1;
  ag_same : same w w1;
  ag_reactions : m_reactionArray w1 = m_reactionArray w;
  ag_bound r' e : r' ≠ r → bound w r' e → bound w1 r' e
}.

Lemma activateBinding_ok r w w1 rc b : activating r w w1 → m_reactionArray w !! r = Some rc → b ∈ r_bindingArray rc →
  wp (activateBinding r b) w1 (λ _, activating r w).
Proof.
  intros [A1 A2 A3 A4] Hrc Hb. pose proof A1 as [I1 I2 I3 I4 I5 I6 I7 I8 I9 I10 I11 I12 I13 I14 I15].
  rewrite <- A3 in Hrc. destruct (I8 r rc b Hrc Hb) as [bd Hbd].
  unfold activateBinding. apply wp_bind, (wp_get_binding b bd); [done|]. destruct (b_active bd) eqn:Ha; [by apply wp_ret|].
  apply wp_bind, wp_modify, wp_modify. split; cbn; try done.
  - eapply inv_in_place; [exact A1|try done..]; cbn.
    + intros b'. by apply alter_binding_fixed.
    + intros r' rc' b' Hr' Hin Hs. destruct (I7 r' rc' b' Hr' Hin Hs) as (bd' & H1 & H2). eexists.
      split; [apply alter_binding; eauto|]. destruct (decide (b' = b)) as [->|]; [|done]. cbn.
      destruct (b_inMap bd') eqn:Hm; [|]. { assert (r' ≠ r) by congruence. set_solver. }
      exfalso. apply Hs. f_equal. by apply (I9 r r' rc rc' b bd').
    + intros r' rc' b' Hr' Hin. split; [by eapply I8|eauto].
    + intros b' bd' (bd0 & H0 & ->)%alter_binding Hm. destruct (decide (b' = b)) as [->|]; [|by apply (I10 b')].
      cbn in Hm |- *. rewrite (I10 b bd0) by done. set_solver.
    + intros b' bd' (bd0 & H0 & ->)%alter_binding. rewrite elem_of_app, list_elem_of_singleton, <- (I11 b' bd0) by done.
      destruct (decide (b' = b)) as [->|]; cbn; tauto.
    + intros b'. rewrite elem_of_app, list_elem_of_singleton. intros [Hin| ->]; [by apply I12|by eexists].
    + apply NoDup_app. split; [done|]. split; [|apply NoDup_singleton]. intros x Hx ->%list_elem_of_singleton.
      apply (I11 b bd Hbd) in Hx. congruence.
    + intros b' bd' r' (bd0 & H0 & ->)%alter_binding Hin. destruct (decide (b' = b)) as [->|]; [|by apply (I14 b' bd0)].
      cbn in Hin. apply (I14 b bd0); [done|set_solver].
  - eapply same_trans; [exact A2|]. done.
  - intros r' e Hne (b' & bd' & H1 & H2 & H3)%A4; [|done]. exists b'. eexists. split; [done|]. split; [apply alter_binding; eauto|].
    destruct (decide (b' = b)); [|done]. cbn. set_solver.
Qed.

(** What an activation changes. *)
Record activated (r : nat) (w w' : Reactor) : Prop := {
  ac_inv : inv None (m_activeBindingArray w') w';
  ac_state : m_state w' = m_state w;
  ac_flags r' : r_active <$> m_reactionArray w' !! r' = if decide (r' = r) then Some true else r_active <$> m_reactionArray w !! r';
  ac_pending : m_pendingReactionMap w' = m_pendingReactionMap w;
  ac_onChanged : m_pendingOnChangedBindingArray w' = m_pendingOnChangedBindingArray w;
  ac_onEvent : m_pendingOnEventBindingArray w' = m_pendingOnEventBindingArray w;
  ac_activeReactions : m_activeReactionArray w' = m_activeReactionArray w ++ [r];
  ac_events : dom (w_events w') = dom (w_events w);
  ac_calls : w_calls w' = w_calls w;
  ac_log : w_log w' = w_log w ++ [LActivate r];
  ac_bound r' e : r' ≠ r → bound w r' e → bound w' r' e
}.

Lemma activateReaction_ok r w (Q : bool → Reactor → Prop) rc : inv None (m_activeBindingArray w) w → m_reactionArray w !! r = Some rc →
  (r_active rc = true → Q false w) → (r_active rc = false → ∀ w', activated r w w' → Q true w') → wp (activateReaction r) w Q.
Proof.
  intros I Hrc Q1 Q2. unfold activateReaction. apply wp_bind, (wp_get_reaction r rc); [done|].
  destruct (r_active rc) eqn:Ha; [by apply wp_ret, Q1|]. apply wp_bind.
  eapply (wp_loop _ (λ _ _, activating r w)).
  - split; try done. destruct I as [I1 I2 I3 I4 I5 I6 I7 I8 I9 I10 I11 I12 I13 I14 I15]. split; try done. intros r' rc' b Hr' Hin _. by apply (I7 r' rc').
  - intros l1 b l2 w1 Hl Hw. eapply activateBinding_ok; [done|done|]. rewrite Hl, elem_of_app. right. left.
  - intros w1 [A1 A2 A3 A4]. apply wp_bind, wp_modify, wp_bind, wp_modify, wp_bind, wp_modify, wp_ret. apply Q2; [done|].
    pose proof A1 as [I1 I2 I3 I4 I5 I6 I7 I8 I9 I10 I11 I12 I13 I14 I15]. destruct A2. split; cbn; try congruence.
    + eapply inv_in_place; [exact A1|try done..]; cbn.
      * intros r' rc' b (rc0 & Hrc0 & ->)%alter_reaction Hin _. destruct (decide (r' = r)) as [->|Hne]; [by apply not_elem_of_nil in Hin|].
        apply (I7 r' rc0); [done|done|congruence].
      * intros r' rc' b (rc0 & Hrc0 & ->)%alter_reaction Hin. destruct (decide (r' = r)) as [->|Hne]; [by apply not_elem_of_nil in Hin|].
        split; [by eapply I8|eauto].
      * rewrite length_alter. done.
    + intros r'. rewrite <- sa_reactions0. destruct (decide (r' = r)) as [->|Hne].
      * rewrite list_lookup_alter_eq, A3, Hrc. done.
      * by rewrite list_lookup_alter_ne.
    + intros r' e Hne Hb. apply (A4 r' e Hne) in Hb as (b & bd & H1 & H2 & H3). by exists b, bd.
Qed.

(** ** The end of a run *)

Lemma releaseBinding_ok b act w : inv None (b :: act) w → wp (releaseBinding b) w (λ _ w', inv None act w' ∧ same w w' ∧
  m_activeBindingArray w' = m_activeBindingArray w ∧ ∀ r e, bound w r e → bound w' r e).
Proof.
  intros I. pose proof I as [I1 I2 I3 I4 I5 I6 I7 I8 I9 I10 I11 I12 I13 I14 I15]. destruct (I12 b ltac:(left)) as [bd Hb].
  apply NoDup_cons in I13 as [Hn Hnd]. assert (Ha : b_active bd = true) by (apply (I11 b bd Hb); left).
  unfold releaseBinding. apply wp_bind, (wp_get_binding b bd); [done|]. destruct (decide (b_reactionMap bd = ∅)) as [He|He].
  - unfold unsubscribe. apply wp_bind, (wp_get_binding b bd); [done|]. apply wp_bind. eapply wp_removeHandler; [exact I|exact Hb|].
    intros ev ev' l1 p l2 Hev Hok Hl Hok' Hl'. apply wp_bind, wp_modify, wp_modify.
    pose proof (inv_removed None (b :: act) act b bd ev ev' l1 p l2 w I Hb Hev Hl Hok' Hl') as I'. split; [|split; [|split] ].
    + apply I'; [|done|done|].
      * intros r rc Hr Hin. destruct (I7 r rc b Hr Hin ltac:(done)) as (bd' & H1 & H2). assert (bd' = bd) as -> by congruence.
        destruct (b_inMap bd); [rewrite He in H2; set_solver|congruence].
      * intros b' Hne. rewrite elem_of_cons. tauto.
    + assert (Hd : dom (<[b_event bd := ev']> (w_events w)) = dom (w_events w)).
      { rewrite dom_insert_L. apply set_eq. intros x. rewrite elem_of_union, elem_of_singleton.
        split; [intros [->|?]; [apply elem_of_dom; by eexists|done]|by right]. }
      destruct (b_inMap bd); split; try done.
    + by destruct (b_inMap bd).
    + intros r e (b' & bd' & H1 & H2 & H3). assert (Hne : b' ≠ b) by (intros ->; assert (bd' = bd) as -> by congruence; set_solver).
      exists b', bd'. split; [|split; [|done] ].
      * destruct (b_inMap bd) eqn:Hm; [|done]. cbn. rewrite lookup_delete_ne; [done|]. intros <-.
        assert (m_bindingMap w !! b_event bd = Some b) by (apply I4; eauto). congruence.
      * destruct (b_inMap bd); cbn; by rewrite lookup_delete_ne.
  - apply wp_modify. split; [|split; [done|split; [done|] ] ].
    + eapply inv_in_place; [exact I|try done..]; cbn.
      * intros b'. by apply alter_binding_fixed.
      * intros r rc b' Hr Hin Hs. destruct (I7 r rc b' Hr Hin Hs) as (bd' & H1 & H2). eexists. split; [apply alter_binding; eauto|].
        destruct (decide (b' = b)); [|done]. cbn. destruct (b_inMap bd'); done.
      * intros r rc b' Hr Hin. split; [by eapply I8|eauto].
      * intros b' bd' (bd0 & H0 & ->)%alter_binding Hm. destruct (decide (b' = b)) as [->|]; [|by apply (I10 b')].
        cbn in *. by apply (I10 b).
      * intros b' bd' (bd0 & H0 & ->)%alter_binding. destruct (decide (b' = b)) as [->|]; [by cbn|].
        rewrite (I11 b' bd0) by done. rewrite elem_of_cons. tauto.
      * intros b' Hin. apply I12. by right.
      * intros b' bd' r (bd0 & H0 & ->)%alter_binding. destruct (decide (b' = b)) as [->|]; [by apply (I14 b bd0)|by apply (I14 b' bd0)].
    + intros r e (b' & bd' & H1 & H2 & H3). exists b'. eexists. split; [done|]. split; [apply alter_binding; eauto|].
      by destruct (decide (b' = b)).
Qed.

(** Indexes are in range, and active reactions are in the array of those. *)
Record ranges (w : Reactor) : Prop := {
  rg_onChanged r e : (r, e) ∈ m_pendingOnChangedBindingArray w → r < length (m_reactionArray w) ∧ is_Some (w_events w !! e);
  rg_onEvent r e : (r, e) ∈ m_pendingOnEventBindingArray w → r < length (m_reactionArray w) ∧ is_Some (w_events w !! e);
  rg_active r : r ∈ m_activeReactionArray w → r < length (m_reactionArray w);
  rg_flags r rc : m_reactionArray w !! r = Some rc → r_active rc = true → r ∈ m_activeReactionArray w
}.

(** After [processPendingBindings]. *)
Record processed (w w' : Reactor) : Prop := {
  pr_inv : inv None [] w';
  pr_state : m_state w' = m_state w;
  pr_length : length (m_reactionArray w') = length (m_reactionArray w);
  pr_flags r rc : m_reactionArray w' !! r = Some rc → r_active rc = false;
  pr_pending : m_pendingReactionMap w' = m_pendingReactionMap w;
  pr_arrays : m_activeBindingArray w' = [] ∧ m_activeReactionArray w' = [] ∧ m_pendingOnChangedBindingArray w' = [] ∧
    m_pendingOnEventBindingArray w' = [];
  pr_events : dom (w_events w') = dom (w_events w);
  pr_calls : w_calls w' = w_calls w;
  pr_log : w_log w' = w_log w;
  pr_bound r e : (r, e) ∈ m_pendingOnChangedBindingArray w ∨ bound w r e → bound w' r e
}.

Lemma releaseReaction_ok r w (Q : unit → Reactor → Prop) : r < length (m_reactionArray w) →
  Q tt (set_reactionArray (alter (λ r, mkReaction (r_bindingArray r) false) r (m_reactionArray w)) w) → wp (releaseReaction r) w Q.
Proof.
  intros [rc Hrc]%lookup_lt_is_Some_2 HQ. unfold releaseReaction. apply wp_bind, (wp_get_reaction r rc); [done|]. by apply wp_modify.
Qed.

Lemma bind_loop_onChanged w : inv None (m_activeBindingArray w) w → ranges w →
  wp (for_each (m_pendingOnChangedBindingArray w) bindOnChanged) w (λ _ w', inv None (m_activeBindingArray w) w' ∧ same w w' ∧
    m_activeBindingArray w' = m_activeBindingArray w ∧ ∀ r e, (r, e) ∈ m_pendingOnChangedBindingArray w ∨ bound w r e → bound w' r e).
Proof.
  intros I G. eapply (wp_loop _ (λ l1 _ w1, inv None (m_activeBindingArray w) w1 ∧ same w w1 ∧
    m_activeBindingArray w1 = m_activeBindingArray w ∧ ∀ r e, (r, e) ∈ l1 ∨ bound w r e → bound w1 r e)).
  - split; [done|]. split; [done|]. split; [done|]. intros r e [H%not_elem_of_nil|]; done.
  - intros l1 [r e] l2 w1 Hl (I1 & S1 & A1 & B1). assert (Hin : (r, e) ∈ m_pendingOnChangedBindingArray w) by (rewrite Hl, elem_of_app; right; left).
    destruct (rg_onChanged _ G r e Hin) as [Hr He]. eapply wp_mono.
    + apply (bindOnChanged_ok (m_activeBindingArray w) r e w1 I1); [by rewrite (same_length _ _ S1)|].
      apply elem_of_dom. rewrite (sa_events _ _ S1). by apply elem_of_dom.
    + intros [] w2 (I2 & S2 & A2 & B2 & B3). split; [done|]. split; [by eapply same_trans|]. split; [congruence|].
      intros r' e'. rewrite elem_of_app, list_elem_of_singleton. intros [ [Hl1|[= -> ->] ]|Hb]; [apply B3, B1; by left|done|apply B3, B1; by right].
  - intros w1 (I1 & S1 & A1 & B1). done.
Qed.

Lemma bind_loop_onEvent w act l : inv None act w → (∀ r e, (r, e) ∈ l → r < length (m_reactionArray w) ∧ is_Some (w_events w !! e)) →
  wp (for_each l bindOnEvent) w (λ _ w', inv None act w' ∧ same w w' ∧ m_activeBindingArray w' = m_activeBindingArray w ∧
    ∀ r e, bound w r e → bound w' r e).
Proof.
  intros I G. eapply (wp_loop _ (λ _ _ w1, inv None act w1 ∧ same w w1 ∧ m_activeBindingArray w1 = m_activeBindingArray w ∧
    ∀ r e, bound w r e → bound w1 r e)).
  - done.
  - intros l1 [r e] l2 w1 Hl (I1 & S1 & A1 & B1). destruct (G r e) as [Hr He]; [rewrite Hl, elem_of_app; right; left|]. eapply wp_mono.
    + apply (bindOnEvent_ok act r e w1 I1); [by rewrite (same_length _ _ S1)|].
      apply elem_of_dom. rewrite (sa_events _ _ S1). by apply elem_of_dom.
    + intros [] w2 (I2 & S2 & A2 & B2). split; [done|]. split; [by eapply same_trans|]. split; [congruence|]. auto.
  - done.
Qed.

Lemma release_bindings w act : inv None act w → wp (for_each act releaseBinding) w (λ _ w', inv None [] w' ∧ same w w' ∧
  ∀ r e, bound w r e → bound w' r e).
Proof.
  intros I. eapply (wp_loop _ (λ _ l2 w1, inv None l2 w1 ∧ same w w1 ∧ ∀ r e, bound w r e → bound w1 r e)).
  - done.
  - intros l1 b l2 w1 Hl (I1 & S1 & B1). eapply wp_mono; [by apply releaseBinding_ok|]. intros [] w2 (I2 & S2 & _ & B2).
    split; [done|]. split; [by eapply same_trans|]. auto.
  - done.
Qed.

Lemma inv_flags act w f r : inv None act w → (∀ rc, r_bindingArray (f rc) = r_bindingArray rc) →
  inv None act (set_reactionArray (alter f r (m_reactionArray w)) w).
Proof.
  intros I Hf. pose proof I as [I1 I2 I3 I4 I5 I6 I7 I8 I9 I10 I11 I12 I13 I14 I15]. eapply inv_in_place; [exact I|try done..]; cbn.
  - intros r' rc' b (rc & Hrc & ->)%alter_reaction Hin Hs. apply (I7 r' rc); [done| |done]. by destruct (decide _); [rewrite Hf in Hin|].
  - intros r' rc' b (rc & Hrc & ->)%alter_reaction Hin. assert (Hin' : b ∈ r_bindingArray rc) by (by destruct (decide _); [rewrite Hf in Hin|]).
    split; [by eapply I8|eauto].
  - by rewrite length_alter.
Qed.

(** The reactions in [l] are not active any more. *)
Record released (l : list nat) (w w1 : Reactor) : Prop := {
  rl_inv : inv None [] w1;
  rl_length : length (m_reactionArray w1) = length (m_reactionArray w);
  rl_flags r rc : m_reactionArray w1 !! r = Some rc → r_active rc = true → r ∉ l ∧ r_active <$> m_reactionArray w !! r = Some true;
  rl_state : m_state w1 = m_state w;
  rl_pending : m_pendingReactionMap w1 = m_pendingReactionMap w;
  rl_events : w_events w1 = w_events w;
  rl_calls : w_calls w1 = w_calls w;
  rl_log : w_log w1 = w_log w;
  rl_map : m_bindingMap w1 = m_bindingMap w ∧ w_bindings w1 = w_bindings w
}.

Lemma release_reactions w l : inv None [] w → (∀ r, r ∈ l → r < length (m_reactionArray w)) →
  wp (for_each l releaseReaction) w (λ _, released l w).
Proof.
  intros I Hl. eapply (wp_loop _ (λ l1 _, released l1 w)).
  - split; try done. intros r rc Hr Ha. split; [apply not_elem_of_nil|]. by rewrite Hr, <- Ha.
  - intros l1 r l2 w1 Hl' [R1 R2 R3 R4 R5 R6 R7 R8 R9]. apply releaseReaction_ok; [rewrite R2; apply Hl; rewrite Hl', elem_of_app; right; left|].
    split; cbn; try done.
    + by apply inv_flags.
    + by rewrite length_alter.
    + intros r' rc' (rc & Hrc & ->)%alter_reaction Ha. destruct (decide (r' = r)) as [->|Hne]; [done|].
      destruct (R3 r' rc Hrc Ha) as [H1 H2]. split; [|done]. rewrite elem_of_app, list_elem_of_singleton. tauto.
  - done.
Qed.

Lemma processPendingBindings_ok w : inv None (m_activeBindingArray w) w → ranges w → wp processPendingBindings w (λ _, processed w).
Proof.
  intros I G. unfold processPendingBindings. apply wp_bind, wp_get, wp_bind. eapply wp_mono; [by apply bind_loop_onChanged|].
  intros [] w1 (I1 & S1 & A1 & B1). cbn beta. apply wp_bind, wp_get, wp_bind. eapply wp_mono.
  { apply (bind_loop_onEvent w1 (m_activeBindingArray w)); [done|]. intros r e Hin. rewrite (sa_onEvent _ _ S1) in Hin.
    destruct (rg_onEvent _ G r e Hin) as [Hr He]. split; [by rewrite (same_length _ _ S1)|].
    apply elem_of_dom. rewrite (sa_events _ _ S1). by apply elem_of_dom. }
  intros [] w2 (I2 & S2 & A2 & B2). cbn beta. apply wp_bind, wp_get, wp_bind. rewrite A2, A1.
  eapply wp_mono; [by apply release_bindings|]. intros [] w3 (I3 & S3 & B3). cbn beta. apply wp_bind, wp_get, wp_bind.
  pose proof (same_trans _ _ _ (same_trans _ _ _ S1 S2) S3) as S. eapply wp_mono.
  { apply (release_reactions w3 _ I3). intros r Hr. rewrite (sa_activeReactions _ _ S) in Hr. rewrite (same_length _ _ S).
    by apply (rg_active _ G). }
  intros [] w4 [R1 R2 R3 R4 R5 R6 R7 R8 [R9 R10] ]. apply wp_modify. destruct S as [T1 T2 T3 T4 T5 T6 T7 T8 T9].
  assert (Hlen : length (m_reactionArray w3) = length (m_reactionArray w)) by (by apply same_length).
  split; cbn; try congruence.
  - by destruct R1.
  - intros r rc Hr. destruct (r_active rc) eqn:Ha; [|done]. exfalso. destruct (R3 r rc Hr Ha) as [H1 H2]. apply H1. rewrite T6.
    rewrite T2 in H2. destruct (m_reactionArray w !! r) as [rc0|] eqn:Hrc0; [|done]. injection H2 as H2. by apply (rg_flags _ G r rc0).
  - done.
  - intros r e Hb. apply B1 in Hb. apply B2, B3 in Hb as (b & bd & H1 & H2 & H3). exists b, bd. cbn. by rewrite R9, R10.
Qed.
End inv.
