(* ===== verification/ReactorRun.v ===== *)
(** * Reactors: runs

    The code of a reactor and the loop keep the invariant; the loop ends, and it activates
    every pending reaction. *)

From S2P Require Import Prelude Reactor ReactorInv.

Open Scope nat_scope.

Section run.
Context `{XL : EventsLaws}.

(** ** Runs that end *)

(** From some fuel on, the run has one result, and [Q] holds of it. *)
Definition settles {A} (m : nat → R A) (w : Reactor) (Q : A → Reactor → Prop) : Prop :=
  ∃ f0 r, (∀ f, f0 ≤ f → m f w = r) ∧ holds r Q.

Lemma settles_wp {A} (m : R A) w Q : wp m w Q → settles (λ _, m) w Q.
Proof. intros Hm. exists 0, (m w). done. Qed.

Lemma settles_bind {A B} (m : nat → R A) (k : nat → A → R B) w Q : settles m w (λ x w1, settles (λ f, k f x) w1 Q) →
  settles (λ f, m f ≫= k f) w Q.
Proof.
  intros (f0 & r & Hr & Hq). destruct r as [ [x w1]|e].
  - destruct Hq as (f1 & r1 & Hr1 & Hq). exists (f0 `max` f1), r1. split; [|done]. intros f Hf. unfold mbind, R_bind.
    rewrite Hr by lia. apply Hr1. lia.
  - exists f0, (inr e). split; [|by destruct e]. intros f Hf. unfold mbind, R_bind. by rewrite Hr.
Qed.

Lemma settles_mono {A} (m : nat → R A) w (Q Q' : A → Reactor → Prop) : settles m w Q → (∀ x w', Q x w' → Q' x w') → settles m w Q'.
Proof. intros (f0 & r & Hr & Hq) HQ. exists f0, r. split; [done|]. destruct r as [ [x w1]|[] ]; cbn in *; auto. Qed.

(** An operation that calls nothing back, and the rest. *)
Lemma settles_step {A B} (m : R A) (k : nat → A → R B) w Q : wp m w (λ x w1, settles (λ f, k f x) w1 Q) →
  settles (λ f, m ≫= k f) w Q.
Proof. intros Hm. apply (settles_bind (λ _, m)), settles_wp, Hm. Qed.

Variable react : nat → option nat → list Action.

Definition runs (t : Task) (w : Reactor) (Q : Reactor → Prop) : Prop := settles (λ f, run react f t) w (λ _, Q).

Lemma runs_unfold t w Q : settles (λ f, run_task react (run react f) t) w (λ _, Q) → runs t w Q.
Proof.
  intros (f0 & r & Hr & Hq). exists (S f0), r. split; [|done]. intros [|f] Hf; [lia|]. cbn [run]. apply Hr. lia.
Qed.

Lemma runs_mono t w (Q Q' : Reactor → Prop) : runs t w Q → (∀ w', Q w' → Q' w') → runs t w Q'.
Proof. intros Hr HQ. eapply settles_mono; [exact Hr|]. auto. Qed.

Lemma runs_nil w (Q : Reactor → Prop) : Q w → runs (TActions []) w Q.
Proof. intros HQ. apply runs_unfold. by apply settles_wp, wp_ret. Qed.

Lemma runs_cons a l w Q : settles (λ f, run_action (run react f) a) w (λ _ w1, runs (TActions l) w1 Q) → runs (TActions (a :: l)) w Q.
Proof. intros Ha. apply runs_unfold. cbn [run_task]. by apply (settles_bind (λ f, run_action (run react f) a)). Qed.

(** ** More fuel *)

Definition approximates {A} (m m' : R A) : Prop := ∀ w, m w = inr OutOfFuel ∨ m w = m' w.

Lemma approximates_refl {A} (m : R A) : approximates m m.
Proof. by right. Qed.

Lemma approximates_bind {A B} (m m' : R A) (k k' : A → R B) : approximates m m' → (∀ x, approximates (k x) (k' x)) →
  approximates (m ≫= k) (m' ≫= k').
Proof.
  intros Hm Hk w. unfold mbind, R_bind. destruct (Hm w) as [->| ->]; [by left|]. destruct (m' w) as [ [x w1]|e]; [apply Hk|by right].
Qed.

Lemma approximates_task rec rec' t : (∀ t, approximates (rec t) (rec' t)) → approximates (run_task react rec t) (run_task react rec' t).
Proof.
  intros Hr. assert (Ha : ∀ a, approximates (run_action rec a) (run_action rec' a)).
  { intros []; cbn [run_action]; auto using approximates_refl, approximates_bind. }
  destruct t as [ [|a l]|[|b bs]|b|idx|from|]; cbn [run_task];
    unfold onChanged, reactionLoop, start; repeat first
    [ apply approximates_refl | apply Hr | apply Ha | apply approximates_bind; [|intros ?] | case_decide | case_match ].
Qed.

Lemma run_more t f f' w : f ≤ f' → run react f t w = inr OutOfFuel ∨ run react f t w = run react f' t w.
Proof.
  intros Hle. revert t w. cut (∀ t, approximates (run react f t) (run react f' t)); [done|]. revert f' Hle.
  induction f as [|f IH]; intros f' Hle t; [by left|]. destruct f' as [|f']; [lia|]. apply approximates_task. apply IH. lia.
Qed.

(** What holds of a run holds of its result with any fuel that was enough. *)
Lemma runs_result t w Q f w' : runs t w Q → run react f t w = inl (tt, w') → Q w'.
Proof.
  intros (f0 & r & Hr & Hq) Hf. destruct (run_more t f (f `max` f0) w) as [E|E]; [lia|congruence|].
  rewrite Hf, (Hr (f `max` f0)) in E by lia. by subst r.
Qed.

End run.

(** ** What the reactions have read *)

(** The events each reaction has read since it was last activated. *)
Definition read_step (s : gset (nat * nat)) (e : log_entry) : gset (nat * nat) :=
  match e with
  | LReact _ => s
  | LActivate r => filter (λ p, p.1 ≠ r) s
  | LBind r e => {[(r, e)]} ∪ s
  | LStop => ∅
  end.

Definition reads (l : list log_entry) : gset (nat * nat) := foldl read_step ∅ l.

Lemma reads_snoc l e : reads (l ++ [e]) = read_step (reads l) e.
Proof. unfold reads. by rewrite foldl_app. Qed.

Definition activations (l : list log_entry) : list nat := omap (λ e, match e with LActivate r => Some r | _ => None end) l.

Lemma activations_elem l r : r ∈ activations l ↔ LActivate r ∈ l.
Proof.
  unfold activations. rewrite list_elem_of_omap. split.
  - intros ([] & Hin & He); try done. by injection He as <-.
  - intros Hin. by exists (LActivate r).
Qed.

Section state.
Context `{XL : EventsLaws}.

(** ** The state of a reactor *)

(** The invariant. What a reaction reads is bound, or is going to be. *)
Record good (w : Reactor) : Prop := {
  gd_inv : inv None (m_activeBindingArray w) w;
  gd_ranges : ranges w;
  gd_reads r e : (r, e) ∈ reads (w_log w) → (r, e) ∈ m_pendingOnChangedBindingArray w ∨ bound w r e
}.

(** Between runs nothing is active. *)
Record idle (w : Reactor) : Prop := {
  id_flags r rc : m_reactionArray w !! r = Some rc → r_active rc = false;
  id_bindings : m_activeBindingArray w = [];
  id_onChanged : m_pendingOnChangedBindingArray w = [];
  id_onEvent : m_pendingOnEventBindingArray w = []
}.

Record stopped (w : Reactor) : Prop := {
  st_state : m_state w = State_Stopped;
  st_good : good w;
  st_idle : idle w;
  st_bindings : w_bindings w = ∅;
  st_reads : reads (w_log w) = ∅
}.

(** What has happened since [log0], which is no later than [log1]: the active reactions have been activated once each,
    and those of [P] are activated or pending. *)
Record track (log0 log1 : list log_entry) (P : gset nat) (w : Reactor) : Prop := {
  tr_log : ∃ new, w_log w = log0 ++ new ∧ NoDup (activations new) ∧
    (∀ r, r_active <$> m_reactionArray w !! r = Some true ↔ r ∈ activations new) ∧
    (∀ r, r ∈ P → r < length (m_reactionArray w) → r ∈ m_pendingReactionMap w ∨ r ∈ activations new);
  tr_log1 : log1 `prefix_of` w_log w
}.

(** A part of a run, with [n] reactions and the events [D]: the state is [s], or the reactor is stopped. *)
Record collecting (n : nat) (D : gset nat) (s : State) (log0 log1 : list log_entry) (P : gset nat) (w : Reactor) : Prop := {
  co_state : m_state w = s;
  co_good : good w;
  co_track : track log0 log1 P w;
  co_length : length (m_reactionArray w) = n;
  co_events : dom (w_events w) = D
}.

Definition during (n : nat) (D : gset nat) (s : State) (log0 log1 : list log_entry) (P : gset nat) (w : Reactor) : Prop :=
  collecting n D s log0 log1 P w ∨ (stopped w ∧ length (m_reactionArray w) = n ∧ dom (w_events w) = D).
(** ** Stopping *)

(** The handlers of the bindings [l] are still there; those of the others are not. *)
Record stopping (w : Reactor) (l : list nat) (w1 : Reactor) : Prop := {
  sp_rest : w1 = set_events (w_events w1) w;
  sp_events : dom (w_events w1) = dom (w_events w);
  sp_nodup : NoDup l;
  sp_handler b : b ∈ l → ∃ bd ev p, w_bindings w !! b = Some bd ∧ w_events w1 !! b_event bd = Some ev ∧ (b_handler bd, p) ∈ ev_list ev;
  sp_event e ev : w_events w1 !! e = Some ev → ev_ok ev ∧ ∀ h b, (h, OnChanged b) ∈ ev_list ev →
    b ∈ l ∧ ∃ bd, w_bindings w !! b = Some bd ∧ b_event bd = e ∧ b_handler bd = h
}.

Lemma stopping_step skip act w b l w1 : inv skip act w → stopping w (b :: l) w1 →
  wp (binding ← get_binding b; removeHandler (b_event binding) (b_handler binding)) w1 (λ _, stopping w l).
Proof.
  intros I [S1 S2 S3 S4 S5]. destruct (S4 b ltac:(left)) as (bd & ev & p & Hb & Hev & Hin).
  apply wp_bind, (wp_get_binding b bd); [by rewrite S1|]. apply list_elem_of_split in Hin as (l1 & l2 & Hl).
  destruct (S5 _ _ Hev) as [Hok Hh]. destruct (ev_remove_law ev l1 _ _ l2 Hok Hl) as (ev' & Hr & Hok' & Hl').
  unfold removeHandler. apply wp_bind, (wp_get_event _ ev); [done|]. rewrite Hr. apply wp_bind, wp_ret, wp_modify.
  apply NoDup_cons in S3 as [Hn Hnd]. pose proof (ev_nodup ev Hok) as Hnh. rewrite Hl, fmap_app in Hnh. cbn in Hnh.
  apply NoDup_app in Hnh as (_ & N2 & N3). apply NoDup_cons in N3 as [N3 _]. split; cbn.
  - by rewrite S1.
  - rewrite <- S2, dom_insert_L. assert (b_event bd ∈ dom (w_events w1)) by (apply elem_of_dom; eauto). set_solver.
  - done.
  - intros b' Hb'. destruct (S4 b' ltac:(by right)) as (bd' & ev1 & p' & H1 & H2 & H3). exists bd'.
    destruct (decide (b_event bd' = b_event bd)) as [He|He].
    + exists ev', p'. rewrite He, lookup_insert_eq. split; [done|]. split; [done|]. assert (ev1 = ev) as -> by congruence.
      rewrite Hl, elem_of_app, elem_of_cons in H3. rewrite Hl', elem_of_app.
      destruct H3 as [H3|[ [= Hh' _]|H3] ]; [by left| |by right]. exfalso. apply Hn.
      by rewrite (in_distinct _ _ _ I b b' bd bd').
    + exists ev1, p'. by rewrite lookup_insert_ne.
  - intros e ev1. rewrite lookup_insert_Some. intros [ [<- <-]|[Hne H1] ].
    + split; [done|]. intros h b'. rewrite Hl', elem_of_app. intros Hin.
      destruct (Hh h b') as (H1 & bd' & H2 & H3 & H4); [rewrite Hl, elem_of_app, elem_of_cons; tauto|].
      split; [|eauto]. apply elem_of_cons in H1 as [->|H1]; [|done]. exfalso. assert (bd' = bd) as -> by congruence.
      destruct Hin as [Hin|Hin]; apply (list_elem_of_fmap_2 fst) in Hin; cbn in Hin; subst h; [|done]. apply (N2 (b_handler bd)); [done|left].
    + destruct (S5 e ev1 H1) as [H2 H3]. split; [done|]. intros h b' Hin. destruct (H3 h b' Hin) as (H4 & bd' & H5 & H6 & H7).
      split; [|eauto]. apply elem_of_cons in H4 as [->|H4]; [|done]. congruence.
Qed.

Lemma foldr_delete_empty (l : list nat) (m : gmap nat Binding) : (∀ b, is_Some (m !! b) → b ∈ l) → foldr delete m l = ∅.
Proof.
  intros Hl. apply map_empty. intros b. destruct (foldr delete m l !! b) as [bd|] eqn:Hb; [|done].
  assert (Hg : b ∉ l ∧ m !! b = Some bd).
  { clear Hl. induction l as [|b' l IH]; cbn in Hb; [split; [apply not_elem_of_nil|done]|].
    apply lookup_delete_Some in Hb as [Hne Hb]. destruct (IH Hb) as [H1 H2]. rewrite not_elem_of_cons. split; [|done]. by split. }
  destruct Hg as [H1 H2]. destruct H1. apply Hl. by eexists.
Qed.

(** A reactor with nothing in it. *)
Lemma stopped_intro w : m_state w = State_Stopped → w_bindings w = ∅ → m_bindingList w = [] → m_bindingMap w = ∅ → m_activeBindingArray w = [] →
  m_pendingOnChangedBindingArray w = [] → m_pendingOnEventBindingArray w = [] →
  (∀ r rc, m_reactionArray w !! r = Some rc → rc = mkReaction [] false) →
  (∀ e ev, w_events w !! e = Some ev → ev_ok ev ∧ ∀ h b, (h, OnChanged b) ∉ ev_list ev) →
  (∀ r, r ∈ m_activeReactionArray w → r < length (m_reactionArray w)) → reads (w_log w) = ∅ → stopped w.
Proof.
  intros E1 E2 E3 E4 E5 E6 E7 Hr He Ha Hl.
  assert (Hno : ∀ r rc b, m_reactionArray w !! r = Some rc → b ∈ r_bindingArray rc → False).
  { intros r rc b ->%Hr Hb. by apply not_elem_of_nil in Hb. }
  split; try done.
  - split.
    + rewrite E5. split; rewrite ?E2, ?E3, ?E4; try setoid_rewrite lookup_empty; try done.
      * constructor.
      * intros b. split; [by intros ?%not_elem_of_nil|by intros [? ?] ].
      * intros e b. split; [done|by intros (? & ? & ?)].
      * intros e ev Hev. destruct (He e ev Hev) as [H1 H2]. split; [done|]. intros h b Hin. by destruct (H2 h b).
      * intros r rc b H1 H2. by destruct (Hno r rc b).
      * intros r rc b H1 H2. by destruct (Hno r rc b).
      * by intros b ?%not_elem_of_nil.
      * constructor.
    + split; rewrite ?E6, ?E7; try (by intros ? ? ?%not_elem_of_nil); [done|]. intros r rc ->%Hr. done.
    + rewrite Hl. intros r e H. set_solver.
  - split; try done. intros r rc ->%Hr. done.
Qed.

Lemma stop_ok w : good w → m_state w ≠ State_Stopped → wp stop w (λ _ w', stopped w' ∧
  length (m_reactionArray w') = length (m_reactionArray w) ∧ dom (w_events w') = dom (w_events w)).
Proof.
  intros [I G _] Hs. unfold stop. apply wp_bind, wp_get. rewrite decide_False by done. apply wp_bind, wp_get, wp_bind.
  eapply (wp_loop _ (λ _ l2, stopping w l2)).
  - split; try done; [by destruct w|apply I| |].
    + intros b Hb. apply (in_dom _ _ _ I) in Hb as [bd Hb]. destruct (in_handler _ _ _ I b bd Hb) as (ev & i & H1 & H2). eauto 6.
    + intros e ev Hev. destruct (in_event _ _ _ I e ev Hev) as [H1 H2]. split; [done|]. intros h b Hin.
      destruct (H2 h b Hin) as (bd & H3 & _ & H4 & H5). split; [|eauto]. apply (in_dom _ _ _ I). by eexists.
  - intros l1 b l2 w1 _ S. by eapply stopping_step.
  - intros w1 [S1 S2 S3 S4 S5]. apply wp_bind, wp_modify, wp_bind, wp_modify, wp_bind, wp_modify, wp_modify.
    split; [|cbn; by rewrite length_map, S1]. apply stopped_intro; try done.
    + cbn. rewrite S1. apply foldr_delete_empty. cbn. intros b Hb. by apply (in_dom _ _ _ I).
    + cbn. intros r rc. rewrite list_lookup_fmap. destruct (_ !! r); [by intros [= <-]|done].
    + cbn. intros e ev Hev. destruct (S5 e ev Hev) as [H1 H2]. split; [done|]. intros h b [Hin _]%H2. by apply not_elem_of_nil in Hin.
    + cbn. rewrite length_map, S1. apply G.
    + cbn. by rewrite reads_snoc.
Qed.
End state.
