(* ===== verification/ReactorLoop.v ===== *)
(** * Reactors: the code and the loop

    What the code of a reactor does keeps the invariant; the loop ends, and it activates
    every pending reaction. *)

From S2P Require Import Prelude Reactor ReactorInv ReactorRun.

Open Scope nat_scope.

(** ** Code *)

(** An event that is fired, with handlers of others that do nothing but fire events. *)
Fixpoint fires (D : gset nat) (a : Action) : bool :=
  match a with AFire e before => bool_decide (e ∈ D) && forallb (fires D) before | _ => false end.

(** What the code of a reactor with [n] reactions and the events [D] may do. *)
Definition code_ok (n : nat) (D : gset nat) (a : Action) : bool :=
  match a with
  | AEnter f t => t <=? n
  | ABind r e | ABindEvent r e => (r <? n) && bool_decide (e ∈ D)
  | AFire _ _ => fires D a
  | AStop => true
  | AStart | ARestart => false
  end.

Section loop.
Context `{XL : EventsLaws}.

(** ** Collecting *)

Lemma isCollecting_not_stopped s : isCollecting s = true → s ≠ State_Stopped.
Proof. by destruct s. Qed.

Lemma isCollecting_not_running s : isCollecting s = true → s ≠ State_Running.
Proof. by destruct s. Qed.

Section collect.
Context (n : nat) (D : gset nat) (s : State) (log0 : list log_entry).
Hypothesis Hs : isCollecting s = true.

(** An entry of the log that is not an activation. *)
Lemma track_log log1 P w w' en : track log0 log1 P w → (∀ r, en ≠ LActivate r) → w_log w' = w_log w ++ [en] →
  m_reactionArray w' = m_reactionArray w → m_pendingReactionMap w' = m_pendingReactionMap w → track log0 log1 P w'.
Proof.
  clear Hs.
  intros [(new & H1 & H2 & H3 & H4) H5] Hen El Er Ep. split; rewrite El, ?Er, ?Ep.
  - exists (new ++ [en]). rewrite H1, app_assoc. split; [done|]. unfold activations. rewrite omap_app.
    replace (omap _ [en]) with (@nil nat) by (by destruct en; [|edestruct Hen| |]). by rewrite app_nil_r.
  - by apply prefix_app_r.
Qed.

Lemma addOnChangedBinding_ok log1 P r e w : collecting n D s log0 log1 P w → r < n → e ∈ D →
  wp (addOnChangedBinding r e) w (λ _, collecting n D s log0 log1 P).
Proof.
  intros [C1 [I [G1 G2 G3 G4] C2] C3 C4 C5] Hr He. unfold addOnChangedBinding. apply wp_bind, wp_get. rewrite C1.
  rewrite decide_False by (by apply isCollecting_not_stopped). apply wp_bind, wp_assert; [done|].
  apply wp_bind, wp_modify, wp_modify. split; try done.
  - split; cbn.
    + destruct I. by split.
    + split; cbn; try done. intros r' e'. rewrite elem_of_app, list_elem_of_singleton. intros [Hin|[= -> ->] ]; [by apply G1|].
      split; [by rewrite C4|]. apply elem_of_dom. by rewrite C5.
    + intros r' e'. rewrite reads_snoc. cbn. rewrite elem_of_union, elem_of_singleton, elem_of_app, list_elem_of_singleton.
      intros [Heq|Hin]; [left; by right|]. apply C2 in Hin as [Hin|Hb]; [left; by left|by right].
  - by apply (track_log log1 P w _ (LBind r e)).
Qed.

Lemma addOnEventBinding_ok log1 P r e w : collecting n D s log0 log1 P w → r < n → e ∈ D →
  wp (addOnEventBinding r e) w (λ _, collecting n D s log0 log1 P).
Proof.
  intros [C1 [I [G1 G2 G3 G4] C2] C3 C4 C5] Hr He. unfold addOnEventBinding. apply wp_bind, wp_get. rewrite C1.
  rewrite decide_False by (by apply isCollecting_not_stopped). apply wp_bind, wp_assert; [done|]. apply wp_modify. split; try done.
  - split; cbn; [by destruct I| |done]. split; cbn; try done. intros r' e'. rewrite elem_of_app, list_elem_of_singleton.
    intros [Hin|[= -> ->] ]; [by apply G2|]. split; [by rewrite C4|]. apply elem_of_dom. by rewrite C5.
  - by destruct C3.
Qed.

(** The pending reactions that are taken away are to be activated. *)
Lemma collecting_clear log1 P w Y : collecting n D s log0 log1 P w →
  collecting n D s log0 log1 (P ∖ Y) (set_pendingReactionMap (m_pendingReactionMap w ∖ Y) w).
Proof.
  clear Hs.
  intros [C1 [I [G1 G2 G3 G4] C2] [ (new & H1 & H2 & H3 & H4) H5] C4 C5]. split; try done.
  - split; [by destruct I|by split|done].
  - split; [|done]. exists new. split; [done|]. split; [done|]. split; [done|]. cbn. intros r Hr Hlt.
    destruct (H4 r ltac:(set_solver) Hlt); [left; set_solver|by right].
Qed.

Lemma activate_ok log1 P r w (Q : bool → Reactor → Prop) : collecting n D s log0 log1 P w → r < n →
  (collecting n D s log0 log1 ({[r]} ∪ P) w → Q false w) →
  (∀ w', collecting n D s log0 (w_log w ++ [LActivate r]) ({[r]} ∪ P) w' → log1 `prefix_of` w_log w ++ [LActivate r] →
    w_log w' = w_log w ++ [LActivate r] → m_pendingReactionMap w' = m_pendingReactionMap w → Q true w') → wp (activateReaction r) w Q.
Proof.
  intros [C1 [I [G1 G2 G3 G4] C2] [ (new & H1 & H2 & H3 & H4) H5] C4 C5] Hr Q1 Q2.
  destruct (lookup_lt_is_Some_2 (m_reactionArray w) r ltac:(lia)) as [rc Hrc]. apply (activateReaction_ok r w Q rc); [done|done| |].
  - intros Ha. apply Q1. split; try done. split; [|done]. exists new. split; [done|]. split; [done|]. split; [done|].
    intros r' Hr' Hlt. apply elem_of_union in Hr' as [->%elem_of_singleton|Hr']; [|by apply H4].
    right. apply H3. by rewrite Hrc, <- Ha.
  - intros Ha w' [A1 A2 A3 A4 A5 A6 A7 A8 A9 A10 A11].
    assert (Hlen : length (m_reactionArray w') = length (m_reactionArray w)).
    { apply Nat.le_antisymm; apply Nat.nlt_ge; intros Hlt; apply lookup_lt_is_Some_2 in Hlt as [rc' Hr'].
      - pose proof (A3 (length (m_reactionArray w))) as He. rewrite Hr', decide_False, (proj2 (lookup_ge_None _ _)) in He by lia. done.
      - pose proof (A3 (length (m_reactionArray w'))) as He. rewrite Hr', (proj2 (lookup_ge_None (m_reactionArray w') _)) in He by lia.
        by destruct (decide _). }
    apply Q2; [|by apply prefix_app_r|done|done]. split; try congruence.
    + split; [done| |].
      * split; rewrite ?A5, ?A6, ?Hlen.
        -- intros r' e Hin. destruct (G1 r' e Hin) as [? [ev Hev] ]. split; [done|]. apply elem_of_dom. rewrite A8. apply elem_of_dom. by eexists.
        -- intros r' e Hin. destruct (G2 r' e Hin) as [? [ev Hev] ]. split; [done|]. apply elem_of_dom. rewrite A8. apply elem_of_dom. by eexists.
        -- intros r'. rewrite A7, elem_of_app, list_elem_of_singleton. intros [Hin| ->]; [by apply G3|lia].
        -- intros r' rc' Hr' Ha'. rewrite A7, elem_of_app, list_elem_of_singleton. specialize (A3 r'). rewrite Hr' in A3.
           destruct (decide (r' = r)) as [->|Hne]; [by right|left]. cbn in A3. rewrite Ha' in A3.
           destruct (m_reactionArray w !! r') as [rc0|] eqn:H0; [|done]. injection A3 as A3. by apply (G4 r' rc0).
      * intros r' e. rewrite A10, reads_snoc, A5. cbn. rewrite elem_of_filter. cbn. intros [Hne Hin].
        destruct (C2 r' e Hin) as [|Hb]; [by left|right; by apply A11].
    + split; [|by rewrite A10]. exists (new ++ [LActivate r]). rewrite A10, H1, app_assoc. split; [done|].
      unfold activations. rewrite omap_app. cbn. fold (activations new).
      assert (Hn : r ∉ activations new) by (rewrite <- H3, Hrc; cbn; congruence). split; [|split].
      * apply NoDup_app. split; [done|]. split; [|apply NoDup_singleton]. by intros x Hx ->%list_elem_of_singleton.
      * intros r'. rewrite A3, elem_of_app, list_elem_of_singleton. destruct (decide (r' = r)) as [->|Hne]; [tauto|]. rewrite H3. tauto.
      * intros r' Hr' Hlt. rewrite A4, elem_of_app, list_elem_of_singleton. apply elem_of_union in Hr' as [->%elem_of_singleton|Hr']; [tauto|].
        rewrite Hlen in Hlt. destruct (H4 r' Hr' Hlt); tauto.
Qed.

Lemma collecting_weaken log1 log1' P P' w : collecting n D s log0 log1 P w → P' ⊆ P → log1' `prefix_of` log1 → collecting n D s log0 log1' P' w.
Proof.
  clear Hs.
  intros [C1 C2 [ (new & H1 & H2 & H3 & H4) H5] C4 C5] Hp Hl. split; try done. split; [|by etrans]. exists new.
  split; [done|]. split; [done|]. split; [done|]. intros r Hr. apply H4. set_solver.
Qed.

Lemma enterReactiveStmt_ok log1 P f t w : collecting n D s log0 log1 P w → t ≤ n →
  wp (enterReactiveStmt f t) w (λ _, collecting n D s log0 log1 P).
Proof.
  intros C Ht. unfold enterReactiveStmt. apply wp_bind, wp_get. rewrite (co_state _ _ _ _ _ _ _ C).
  rewrite decide_False by (by apply isCollecting_not_stopped). apply wp_bind, wp_assert; [done|]. apply wp_bind, wp_modify.
  eapply (wp_loop _ (λ _ l2, collecting n D s log0 log1 (P ∖ list_to_set l2))).
  - by apply collecting_clear.
  - intros l1 r l2 w1 Hl C1. assert (Hr : r ∈ seq f (t - f)) by (rewrite Hl, elem_of_app; right; left).
    apply elem_of_seq in Hr. apply wp_bind. eapply activate_ok; [exact C1|lia| |].
    + intros C2. apply wp_ret. eapply collecting_weaken; [exact C2| |done]. cbn. intros x. rewrite !elem_of_union, !elem_of_difference, elem_of_union, elem_of_singleton.
      destruct (decide (x = r)); tauto.
    + intros w' C2 Hp _ _. apply wp_ret. eapply collecting_weaken; [exact C2| |done]. cbn. intros x.
      rewrite !elem_of_union, !elem_of_difference, elem_of_union, elem_of_singleton. destruct (decide (x = r)); tauto.
  - intros w1 C1. eapply collecting_weaken; [exact C1| |done]. cbn. set_solver.
Qed.
End collect.

(** ** Firing events when the reactor is not running *)

(** Reactions have become pending. *)
Definition grown (w w' : Reactor) : Prop := ∃ v, m_pendingReactionMap w ⊆ v ∧ w' = set_pendingReactionMap v w.

Lemma grown_refl w : grown w w.
Proof. exists (m_pendingReactionMap w). split; [done|]. by destruct w. Qed.

Lemma grown_trans w1 w2 w3 : grown w1 w2 → grown w2 w3 → grown w1 w3.
Proof. intros (v1 & H1 & ->) (v2 & H2 & ->). exists v2. split; [|done]. cbn in *. set_solver. Qed.

Lemma grown_inv act w w' : grown w w' → inv None act w → inv None act w'.
Proof. intros (v & _ & ->) I. by destruct I. Qed.

Lemma grown_during n D s log0 log1 P w w' : grown w w' → during n D s log0 log1 P w → during n D s log0 log1 P w'.
Proof.
  intros (v & Hv & ->) [ [C1 [I [G1 G2 G3 G4] C2] [ (new & H1 & H2 & H3 & H4) H5] C4 C5]|[ [S1 [I [G1 G2 G3 G4] S2] [S3 S4 S5 S6] S7 S8] [Hl Hd] ] ].
  - left. split; try done.
    + split; [by destruct I|by split|done].
    + split; [|done]. exists new. split; [done|]. split; [done|]. split; [done|]. intros r Hr Hlt. cbn.
      destruct (H4 r Hr Hlt); [left; set_solver|by right].
  - right. split; [|done]. split; try done. split; [by destruct I|by split|done].
Qed.

Variable react : nat → option nat → list Action.

Lemma calls_ok bs : ∀ w, m_state w ≠ State_Running → (∀ b, b ∈ bs → is_Some (w_bindings w !! b)) → runs react (TCalls bs) w (grown w).
Proof.
  induction bs as [|b bs IH]; intros w Hs Hb; apply runs_unfold; cbn [run_task]; [apply settles_wp, wp_ret, grown_refl|].
  apply (settles_bind (λ f, run react f (TOnChanged b))). destruct (Hb b ltac:(left)) as [bd Hbd].
  assert (Hon : runs react (TOnChanged b) w (λ w1, grown w w1)).
  { apply runs_unfold. cbn [run_task]. unfold onChanged. apply settles_step, (wp_get_binding b bd); [done|].
    apply settles_step, wp_modify, settles_step, wp_get.
    destruct (decide _); [done|]. apply settles_wp, wp_ret.
    exists (m_pendingReactionMap w ∪ b_reactionMap bd). split; [set_solver|done]. }
  eapply settles_mono; [exact Hon|]. intros [] w1 G1. apply (runs_mono _ (TCalls bs) w1 (grown w1)).
  - destruct G1 as (v & Hv & ->). apply IH; [done|]. intros b' Hb'. apply Hb. by right.
  - intros w2 G2. by eapply grown_trans.
Qed.

(** What an event calls are bindings that live. *)
Lemma snapshot_alive act w e ev b : inv None act w → w_events w !! e = Some ev → b ∈ onChanged_bindings (ev_snapshot ev) →
  ∃ h bd, (h, OnChanged b) ∈ ev_list ev ∧ w_bindings w !! b = Some bd ∧ b_inMap bd = true ∧ b_event bd = e ∧ b_handler bd = h.
Proof.
  intros I Hev Hin. destruct (in_event _ _ _ I e ev Hev) as [Hok Hh]. unfold onChanged_bindings in Hin.
  apply list_elem_of_omap in Hin as (p & Hp & Hm). rewrite (ev_snapshot_law ev Hok) in Hp.
  apply list_elem_of_fmap in Hp as ([h p'] & -> & Hp). cbn in Hm. destruct p'; try done. injection Hm as ->.
  destruct (Hh h b Hp) as (bd & H1 & H2 & H3 & H4). eauto 8.
Qed.

Lemma fire_ok D act a : fires D a = true → ∀ w, inv None act w → m_state w ≠ State_Running → D ⊆ dom (w_events w) →
  settles (λ f, run_action (run react f) a) w (λ _, grown w).
Proof.
  revert a. fix IH 1. intros [f t|r e|r e|e before| | |] Hf; try discriminate Hf. intros w I Hs Hd.
  cbn in Hf. apply andb_true_iff in Hf as [He%bool_decide_eq_true Hb].
  apply Hd, elem_of_dom in He as [ev Hev]. cbn [run_action]. apply settles_step, (wp_get_event e ev); [done|].
  assert (Hbefore : ∀ l w, forallb (fires D) l = true → inv None act w → m_state w ≠ State_Running → D ⊆ dom (w_events w) →
    runs react (TActions l) w (grown w)).
  { clear Hb. intros l. induction l as [|a l IHl]; intros w0 Hl I0 Hs0 Hd0; [apply runs_nil, grown_refl|].
    cbn in Hl. apply andb_true_iff in Hl as [Ha Hl]. apply runs_cons. eapply settles_mono; [by apply IH|].
    intros [] w1 G1. eapply runs_mono; [apply IHl|].
    - done.
    - by eapply grown_inv.
    - by destruct G1 as (v & _ & ->).
    - by destruct G1 as (v & _ & ->).
    - intros w2 G2. by eapply grown_trans. }
  apply (settles_bind (λ f, run react f (TActions before))). eapply settles_mono; [by apply Hbefore|].
  intros [] w1 G1. eapply runs_mono; [apply calls_ok|].
  - by destruct G1 as (v & _ & ->).
  - intros b Hin. destruct (snapshot_alive act w e ev b I Hev Hin) as (h & bd & _ & H1 & _).
    destruct G1 as (v & _ & ->). by exists bd.
  - intros w2 G2. by eapply grown_trans.
Qed.

(** ** The code of the reactor *)

Context (n : nat) (D : gset nat) (log0 : list log_entry).
Hypothesis Hreact : ∀ k idx, forallb (code_ok n D) (react k idx) = true.

Lemma action_ok s log1 P a w : isCollecting s = true → code_ok n D a = true → during n D s log0 log1 P w →
  settles (λ f, run_action (run react f) a) w (λ _, during n D s log0 log1 P).
Proof.
  intros Hs Ha HD. assert (Hf : fires D a = true → settles (λ f, run_action (run react f) a) w (λ _, during n D s log0 log1 P)).
  { intros Hf. assert (∃ act, inv None act w ∧ m_state w ≠ State_Running ∧ dom (w_events w) = D) as (act & I & Hr & Hd).
    { destruct HD as [C|[S [_ Hd] ] ]; [exists (m_activeBindingArray w)|exists []].
      - split; [apply C|]. rewrite (co_state _ _ _ _ _ _ _ C). split; [by apply isCollecting_not_running|apply C].
      - rewrite <- (id_bindings _ (st_idle _ S)). split; [apply S|]. by rewrite (st_state _ S). }
    eapply settles_mono; [apply (fire_ok D act); [done|done|done|by rewrite Hd]|]. intros [] w' G. by eapply grown_during. }
  destruct HD as [C|S].
  - destruct a as [f t|r e|r e|e before| | |]; cbn [code_ok] in Ha; try discriminate Ha; [| | |by apply Hf|].
    + apply Nat.leb_le in Ha. apply settles_wp. eapply wp_mono; [by apply (enterReactiveStmt_ok n D s log0)|]. intros. by left.
    + apply andb_true_iff in Ha as [Hr%Nat.ltb_lt He%bool_decide_eq_true]. apply settles_wp.
      eapply wp_mono; [by apply (addOnChangedBinding_ok n D s log0)|]. intros. by left.
    + apply andb_true_iff in Ha as [Hr%Nat.ltb_lt He%bool_decide_eq_true]. apply settles_wp.
      eapply wp_mono; [by apply (addOnEventBinding_ok n D s log0)|]. intros. by left.
    + apply settles_wp. eapply wp_mono; [apply stop_ok; [by eapply co_good|]|].
      * rewrite (co_state _ _ _ _ _ _ _ C). by apply isCollecting_not_stopped.
      * intros [] w' (S & Hl & Hd). right. split; [done|]. by rewrite Hl, Hd, (co_length _ _ _ _ _ _ _ C), (co_events _ _ _ _ _ _ _ C).
  - pose proof (st_state _ (proj1 S)) as Es. assert (Hq : during n D s log0 log1 P w) by (by right).
    destruct a as [f t|r e|r e|e before| | |]; cbn [code_ok] in Ha; try discriminate Ha; [| | |by apply Hf|]; apply settles_wp;
      cbn [run_action]; unfold enterReactiveStmt, addOnChangedBinding, addOnEventBinding, stop; apply wp_bind, wp_get;
      rewrite Es, decide_True by done; by apply wp_ret.
Qed.

Lemma actions_ok s log1 P l : isCollecting s = true → forallb (code_ok n D) l = true → ∀ w, during n D s log0 log1 P w →
  runs react (TActions l) w (during n D s log0 log1 P).
Proof.
  intros Hs. induction l as [|a l IH]; intros Hl w Hw; [by apply runs_nil|]. cbn in Hl. apply andb_true_iff in Hl as [Ha Hl].
  apply runs_cons. eapply settles_mono; [by apply action_ok|]. intros [] w1 Hw1. by apply IH.
Qed.

Lemma react_ok s log1 P idx w : isCollecting s = true → collecting n D s log0 log1 P w → runs react (TReact idx) w (during n D s log0 log1 P).
Proof.
  intros Hs [C1 [I [G1 G2 G3 G4] C2] C3 C4 C5]. apply runs_unfold. cbn [run_task]. apply settles_step, wp_get, settles_step, wp_modify, settles_step, wp_modify.
  eapply actions_ok; [done|apply Hreact|]. left. split; try done.
  - split; [by destruct I|by split|]. cbn. intros r e. rewrite reads_snoc. apply C2.
  - by apply (track_log log0 log1 P w _ (LReact idx)).
Qed.
(** ** The loop *)

Lemma findBit_some (v : gset nat) from count i : findBit v from count = Some i → i < count ∧ i ∈ v.
Proof.
  unfold findBit. destruct (list_find _ _) as [ [j x]|] eqn:Hf; [|done]. intros [= ->].
  apply list_find_Some in Hf as (Hj & Hi & _). apply lookup_seq in Hj. split; [lia|done].
Qed.

Lemma findBit_none (v : gset nat) count i : findBit v 0 count = None → i < count → i ∉ v.
Proof.
  unfold findBit. rewrite Nat.sub_0_r. destruct (list_find _ _) as [ [j x]|] eqn:Hf; [done|]. intros _ Hlt.
  apply list_find_None, Forall_forall with (x := i) in Hf; [done|]. apply elem_of_seq. lia.
Qed.

Lemma nextReaction_some w from i : nextReaction w from = Some i → i < length (m_reactionArray w) ∧ i ∈ m_pendingReactionMap w.
Proof. unfold nextReaction. destruct (findBit _ from _) eqn:Hf; [intros [= ->]|]; by eapply findBit_some. Qed.

Lemma nextReaction_none w from i : nextReaction w from = None → i < length (m_reactionArray w) → i ∉ m_pendingReactionMap w.
Proof. unfold nextReaction. destruct (findBit _ from _); [done|]. by apply findBit_none. Qed.

(** The number of reactions that have been activated. *)
Definition activation_count (w : Reactor) : nat := length (activations (drop (length log0) (w_log w))).

Lemma activation_count_new w new : w_log w = log0 ++ new → activation_count w = length (activations new).
Proof. intros E. unfold activation_count. by rewrite E, drop_app_length. Qed.

Lemma activation_count_le s log1 P w : collecting n D s log0 log1 P w → activation_count w ≤ n.
Proof.
  intros [C1 C2 [ (new & H1 & H2 & H3 & H4) H5] C4 C5]. rewrite (activation_count_new w new H1).
  rewrite <- (length_seq n 0). apply submseteq_length, NoDup_submseteq; [done|]. intros r Hr%H3. apply elem_of_seq.
  destruct (m_reactionArray w !! r) eqn:Hl; [|done]. apply lookup_lt_Some in Hl. lia.
Qed.

Lemma activation_count_mono s log1 P w : collecting n D s log0 log1 P w → length log0 ≤ length log1 →
  length (activations (drop (length log0) log1)) ≤ activation_count w.
Proof.
  intros [C1 C2 [_ [l Hl] ] C4 C5] Hlen. unfold activation_count. rewrite Hl, drop_app_le by done. unfold activations.
  rewrite omap_app, length_app. lia.
Qed.

(** The loop has ended: every reaction of [P] has been activated. *)
Record looped (P : gset nat) (s : State) (w : Reactor) : Prop := {
  lo_state : m_state w = s;
  lo_good : good w;
  lo_idle : idle w;
  lo_length : length (m_reactionArray w) = n;
  lo_events : dom (w_events w) = D;
  lo_log : ∃ new, w_log w = log0 ++ new ∧ NoDup (activations new) ∧ ∀ r, r ∈ P → r < n → r ∈ activations new
}.

Definition halted (w : Reactor) : Prop := stopped w ∧ length (m_reactionArray w) = n ∧ dom (w_events w) = D.

Lemma process_ok s log1 P w : collecting n D s log0 log1 P w → (∀ i, i < n → i ∈ P → i ∉ m_pendingReactionMap w) →
  wp processPendingBindings w (λ _, looped P s).
Proof.
  intros [C1 [I G C2] [ (new & H1 & H2 & H3 & H4) H5] C4 C5] Hp. eapply wp_mono; [by apply processPendingBindings_ok|].
  intros [] w' [P1 P2 P3 P4 P5 (P6 & P7 & P8 & P9) P10 P11 P12 P13]. split; try congruence.
  - split.
    + by rewrite P6.
    + split; rewrite ?P7, ?P8, ?P9; try (by intros ? ? ?%not_elem_of_nil); [by intros ? ?%not_elem_of_nil|].
      intros r rc Hr. by rewrite (P4 r rc Hr).
    + rewrite P12. intros r e Hin. right. by apply P13, C2.
  - by split.
  - exists new. rewrite P12. split; [done|]. split; [done|]. intros r Hr Hlt. rewrite C4 in H4.
    destruct (H4 r Hr Hlt) as [Hin|]; [by destruct (Hp r Hlt Hr)|done].
Qed.

Definition pending_count (w : Reactor) : nat := size (filter (λ i, i < n) (m_pendingReactionMap w)).

(** The loop ends: a pass activates another reaction, or takes away one that is pending. *)
Lemma loop_ok P k1 : ∀ k2 from w, collecting n D State_Reacting log0 log0 P w → n < k1 + activation_count w → pending_count w < k2 →
  runs react (TLoop from) w (λ w', looped P State_Reacting w' ∨ halted w').
Proof.
  induction k1 as [|k1 IH1]; [intros k2 from w C Hk; pose proof (activation_count_le _ _ _ _ C); lia|].
  induction k2 as [|k2 IH2]; [lia|]. intros from w C Hk1 Hk2. apply runs_unfold. cbn [run_task]. unfold reactionLoop.
  apply settles_step, wp_get. destruct (nextReaction w from) as [i|] eqn:Hn.
  2:{ apply settles_wp. eapply wp_mono; [eapply process_ok; [exact C|]|intros; by left].
      intros i Hi _. apply (nextReaction_none w from); [done|]. by rewrite (co_length _ _ _ _ _ _ _ C). }
  apply nextReaction_some in Hn as [Hi Hp]. rewrite (co_length _ _ _ _ _ _ _ C) in Hi. apply settles_step, wp_modify.
  pose proof (collecting_clear n D State_Reacting log0 log0 P w {[i]} C) as C1.
  set (w1 := set_pendingReactionMap (m_pendingReactionMap w ∖ {[i]}) w) in *.
  assert (HP : P ⊆ {[i]} ∪ P ∖ {[i]}) by (intros x; destruct (decide (x = i)); set_solver).
  apply settles_step. eapply activate_ok; [exact C1|done| |].
  - intros C2. apply (IH2 (S i) w1).
    + eapply collecting_weaken; [exact C2|exact HP|done].
    + done.
    + assert (Hlt : pending_count w1 < pending_count w); [|lia]. unfold pending_count, w1. cbn. apply subset_size. set_solver.
  - intros w2 C2 _ El _. apply (settles_bind (λ f, run react f (TReact (Some i)))).
    eapply settles_mono; [eapply (react_ok State_Reacting _ P); [done|eapply collecting_weaken; [exact C2|exact HP|done] ]|].
    destruct (co_track _ _ _ _ _ _ _ C) as [ (new & Hlog & _) _].
    intros [] w3 [C3|H3]; apply settles_step, wp_get.
    + destruct (decide _) as [E|_]; [by rewrite (co_state _ _ _ _ _ _ _ C3) in E|].
      apply (IH1 (S (pending_count w3)) (S i) w3); [|clear IH1 IH2|lia].
      * eapply collecting_weaken; [exact C3|done|]. cbn. rewrite Hlog, <- app_assoc. by apply prefix_app_r.
      * pose proof (activation_count_mono _ _ _ _ C3) as Hm. cbn in Hm. rewrite Hlog, <- app_assoc, drop_app_length in Hm.
        unfold activations in Hm. rewrite omap_app, !length_app in Hm. fold (activations new) in Hm. cbn in Hm.
        rewrite (activation_count_new w new Hlog) in Hk1. specialize (Hm ltac:(lia)). lia.
    + destruct (decide _) as [_|E]; [|by rewrite (st_state _ (proj1 H3)) in E]. apply settles_wp, wp_ret. by right.
Qed.
End loop.
