(* ===== verification/ReactorEvents.v ===== *)
(** * Reactors: events that are multicasts

    The events of reactors are the multicasts of [Multicast]: these have what reactors rely on. *)

From S2P Require Import Prelude Reactor Multicast MulticastProps.

Open Scope nat_scope.

Section events.
Context `{X : AxlTables, XL : !AxlTablesLaws X}.

Definition event_add (p : Handler) (m : Multicast Handler) : option (N * Multicast Handler) :=
  if decide (N.of_nat (S (m_count m)) ≤ size_mod)%N then Some (addHandlerImpl Handler p m) else None.

#[export] Instance multicast_events : Events := {|
  event := Multicast Handler;
  ev_addHandler := event_add;
  ev_removeHandler h m := snd <$> removeHandler Handler h m;
  ev_snapshot m := omap id (fst (getSnapshot Handler false (λ _, true) m))
|}.

(** The handlers with their handles. *)
Definition multicast_list (m : Multicast Handler) : list (N * Handler) :=
  match m_handleTable m with
  | None => []
  | Some t => zip (ht_entries t).*1 (omap id (take (m_count m) (m_ptr m)))
  end.

Lemma omap_some {A} (l : list A) : omap id (Some <$> l) = l.
Proof. induction l as [|x l IH]; [done|]. cbn. by rewrite IH. Qed.

Lemma multicast_list_represents m l : represents m l → multicast_list m = l.
Proof.
  intros R. unfold multicast_list. pose proof (re_table _ _ R) as Ht. destruct (m_handleTable m) as [t|]; [|done].
  rewrite Ht, entries_handles, (re_count _ _ R), (re_functions _ _ R), omap_some. apply zip_fst_snd.
Qed.

Lemma event_add_law m p h m' : represents m (multicast_list m) → event_add p m = Some (h, m') →
  h ∉ (multicast_list m).*1 ∧ represents m' (multicast_list m') ∧ multicast_list m' = multicast_list m ++ [(h, p)].
Proof.
  intros R. unfold event_add. destruct (decide (N.of_nat (S (m_count m)) ≤ size_mod)%N) as [Hs|]; [|done].
  destruct (add_ok m _ p R) as (h1 & m1 & -> & H2 & H3 & R1); [by rewrite <- (re_count _ _ R)|].
  intros [= <- <-]. by rewrite (multicast_list_represents m1 _ R1).
Qed.

Lemma event_remove_law m l1 h p l2 : represents m (multicast_list m) → multicast_list m = l1 ++ (h, p) :: l2 →
  ∃ m', snd <$> removeHandler Handler h m = Some m' ∧ represents m' (multicast_list m') ∧ multicast_list m' = l1 ++ l2.
Proof.
  intros R Hl. rewrite Hl in R. destruct (multicast_remove_ok m l1 h p l2 R) as (m' & -> & R').
  exists m'. by rewrite (multicast_list_represents m' _ R').
Qed.

Lemma event_snapshot_law m : represents m (multicast_list m) →
  omap id (fst (getSnapshot Handler false (λ _, true) m)) = (multicast_list m).*2.
Proof.
  intros R. unfold getSnapshot. pose proof (re_count _ _ R) as Hc. pose proof (re_functions _ _ R) as Hf.
  destruct (m_count m) as [|k] eqn:Hm; [by destruct (multicast_list m)|]. cbn [negb fst]. by rewrite Hc, Hf, omap_some.
Qed.

#[export] Instance multicast_events_laws : EventsLaws multicast_events :=
  Build_EventsLaws multicast_events (λ m, represents m (multicast_list m)) multicast_list
    (λ m p h m', event_add_law m p h m') event_remove_law event_snapshot_law (λ m R, re_nodup _ _ R).

(** A multicast no one has subscribed to. *)
Lemma new_multicast_ok : ev_ok (new_multicast : event) ∧ ∀ h b, (h, OnChanged b) ∉ ev_list (new_multicast : event).
Proof. split; [apply represents_new|]. intros h b. apply not_elem_of_nil. Qed.
End events.
