(* ===== verification/ReactorProps.v ===== *)
(** * Reactors: the properties

    A reactor is started, stopped and woken by events without a failure; an event that is
    fired activates the reactions that have read it. What a reactor does not survive. *)

From S2P Require Import Prelude Multicast MulticastProps Reactor ReactorInv ReactorRun ReactorLoop ReactorEvents.

Open Scope nat_scope.

Section props.
Context `{XL : EventsLaws}.
Variable react : nat → option nat → list Action.
Context (n : nat) (D : gset nat).

(** The code of the reactor does what such code may do. *)
Definition steady : Prop := ∀ k idx, forallb (code_ok n D) (react k idx) = true.

(** What the others do: the reactor is started and stopped, and events are fired that the reactor is the first to hear of. *)
Definition outside (a : Action) : bool :=
  match a with AStart | AStop | ARestart => true | AFire e [] => bool_decide (e ∈ D) | _ => false end.

(** The reactor runs and waits for events. *)
Record running (w : Reactor) : Prop := {
  ru_state : m_state w = State_Running;
  ru_good : good w;
  ru_idle : idle w;
  ru_length : length (m_reactionArray w) = n;
  ru_events : dom (w_events w) = D
}.

Definition settled (w : Reactor) : Prop := running w ∨ halted n D w.

(** What has been activated from [w] to [w']: the reactions of [P], and none twice. *)
Definition reacted (P : gset nat) (w w' : Reactor) : Prop :=
  ∃ new, w_log w' = w_log w ++ new ∧ NoDup (activations new) ∧ ∀ r, r ∈ P → r < n → r ∈ activations new.

(** Between runs, a run may begin. *)
Lemma begin_run w w' s P : good w → idle w → length (m_reactionArray w) = n → dom (w_events w) = D → P ⊆ m_pendingReactionMap w' →
  m_state w' = s → w' = set_state s (set_activeReactionArray (m_activeReactionArray w') (set_activeBindingArray []
    (set_pendingReactionMap (m_pendingReactionMap w') w))) → (∀ r, r ∈ m_activeReactionArray w' → r ∈ m_activeReactionArray w) →
  collecting n D s (w_log w) (w_log w) P w'.
Proof.
  intros [I [G1 G2 G3 G4] G] [J1 J2 J3 J4] Hl Hd HP Hs E Ha. split; [done| | |by rewrite E|by rewrite E].
  - rewrite E. split; cbn.
    + rewrite J2 in I. by destruct I.
    + split; cbn; try done; [intros r Hr; by apply G3, Ha|]. intros r rc Hr Hac. by rewrite (J1 r rc Hr) in Hac.
    + done.
  - split; [|by rewrite E]. exists []. rewrite app_nil_r. split; [by rewrite E|]. split; [constructor|]. split.
    + intros r. rewrite E. cbn. split; [|by intros ?%not_elem_of_nil]. destruct (m_reactionArray w !! r) as [rc|] eqn:Hr; [|done].
      cbn. by rewrite (J1 r rc Hr).
    + intros r Hr _. left. set_solver.
Qed.

Hypothesis Hsteady : steady.

Lemma onChanged_ok b bd w : running w → w_bindings w !! b = Some bd →
  runs react (TOnChanged b) w (λ w', running w' ∧ reacted (b_reactionMap bd) w w' ∨ halted n D w').
Proof.
  intros [R1 R2 R3 R4 R5] Hb. apply runs_unfold. cbn [run_task]. unfold onChanged. apply settles_step, (wp_get_binding b bd); [done|].
  apply settles_step, wp_modify, settles_step, wp_get. destruct (decide _) as [_|E]; [|done].
  apply settles_step, wp_modify, settles_step, wp_modify. apply (settles_bind (λ f, run react f (TLoop 0))).
  set (w1 := set_activeReactionArray _ _).
  assert (C : collecting n D State_Reacting (w_log w) (w_log w) (b_reactionMap bd) w1).
  { apply begin_run; try done; [cbn; set_solver|]. cbn. by intros r ?%not_elem_of_nil. }
  eapply settles_mono; [apply (loop_ok react n D (w_log w) Hsteady _ (S n) (S (pending_count n w1)) 0 w1 C); lia|].
  intros [] w2 [ [L1 L2 L3 L4 L5 L6]|H2]; apply settles_step, wp_get.
  - rewrite L1. destruct (decide _) as [|_]; [done|]. apply settles_wp, wp_bind, wp_assert; [done|]. apply wp_modify.
    left. split; [|done]. split; try done.
    + destruct L2 as [I [G1 G2 G3 G4] G]. split; [by destruct I|by split|done].
    + by destruct L3.
  - destruct (decide _) as [_|E]; [|by rewrite (st_state _ (proj1 H2)) in E]. apply settles_wp, wp_ret. by right.
Qed.

Lemma start_halted w : halted n D w → runs react TStart w settled.
Proof.
  intros [ [S1 S2 S3 S4 S5] [Hl Hd] ]. apply runs_unfold. cbn [run_task]. unfold start. apply settles_step, wp_get. rewrite S1.
  destruct (decide _) as [_|]; [|done]. apply settles_step, wp_modify. apply (settles_bind (λ f, run react f (TReact None))).
  eapply settles_mono; [apply (react_ok react n D (w_log w) Hsteady State_Starting (w_log w) ∅ None); [done|]|].
  { apply begin_run; try done. cbn. destruct w; cbn. pose proof (id_bindings _ S3) as E. cbn in E. by rewrite E. }
  intros [] w1 [C|H1]; apply settles_step, wp_get.
  - rewrite (co_state _ _ _ _ _ _ _ C). destruct (decide _) as [|_]; [done|]. apply settles_wp, wp_bind.
    eapply wp_mono; [eapply process_ok; [exact C|set_solver]|]. intros [] w2 [L1 L2 L3 L4 L5 _].
    apply wp_bind, wp_get, wp_bind, wp_assert; [by rewrite L1|]. apply wp_modify. left. split; try done.
    + destruct L2 as [I [G1 G2 G3 G4] G]. split; [by destruct I|by split|done].
    + by destruct L3.
  - destruct (decide _) as [_|E]; [|by rewrite (st_state _ (proj1 H1)) in E]. apply settles_wp, wp_ret. by right.
Qed.

(** The reactor has one handler of an event at most. *)
Lemma one_handler (l : list (N * Handler)) h0 b0 : NoDup l.*1 → (∀ h b, (h, OnChanged b) ∈ l → h = h0 ∧ b = b0) →
  b0 ∈ onChanged_bindings l.*2 → onChanged_bindings l.*2 = [b0].
Proof.
  intros Hnd Hl. unfold onChanged_bindings. induction l as [|[h p] l IH]; cbn; [by intros ?%not_elem_of_nil|].
  cbn in Hnd. apply NoDup_cons in Hnd as [Hn Hnd]. assert (Hl' : ∀ h b, (h, OnChanged b) ∈ l → h = h0 ∧ b = b0) by (intros; apply Hl; by right).
  destruct p as [b| |]; cbn; [|by apply IH|by apply IH]. destruct (Hl h b ltac:(left)) as [-> ->]. intros _.
  destruct (omap _ l.*2) as [|b l2] eqn:Ho; [done|]. exfalso.
  assert (Hb : b ∈ omap (λ p, match p with OnChanged b => Some b | _ => None end) l.*2) by (rewrite Ho; left).
  apply list_elem_of_omap in Hb as (p & Hp & Hm). apply list_elem_of_fmap in Hp as ([h p'] & -> & Hp). cbn in Hm.
  destruct p'; try done. destruct (Hl' h binding Hp) as [-> ->]. apply Hn. by apply (list_elem_of_fmap_2 fst) in Hp.
Qed.

Lemma snapshot_bindings w e ev : inv None [] w → w_events w !! e = Some ev →
  onChanged_bindings (ev_snapshot ev) = [] ∨ ∃ b bd, onChanged_bindings (ev_snapshot ev) = [b] ∧ w_bindings w !! b = Some bd.
Proof.
  intros I Hev. destruct (in_event _ _ _ I e ev Hev) as [Hok Hh].
  destruct (onChanged_bindings (ev_snapshot ev)) as [|b l] eqn:Hl; [by left|right].
  assert (Hb : b ∈ onChanged_bindings (ev_snapshot ev)) by (rewrite Hl; left). rewrite <- Hl.
  destruct (snapshot_alive _ w e ev b I Hev Hb) as (h & bd & H1 & H2 & H3 & H4 & H5). exists b, bd. split; [|done].
  rewrite (ev_snapshot_law ev Hok) in *. apply (one_handler _ h b); [by apply ev_nodup| |done]. intros h' b' Hin.
  destruct (Hh h' b' Hin) as (bd' & H1' & H2' & H3' & H4').
  assert (b' = b) as -> by (apply (handler_unique _ _ _ _ _ bd' bd I); congruence). split; congruence.
Qed.

Lemma bound_binding w r e ev : inv None [] w → w_events w !! e = Some ev → bound w r e →
  ∃ b bd, b ∈ onChanged_bindings (ev_snapshot ev) ∧ w_bindings w !! b = Some bd ∧ r ∈ b_reactionMap bd.
Proof.
  intros I Hev (b & bd & H1 & H2 & H3). destruct (in_event _ _ _ I e ev Hev) as [Hok _].
  apply (in_map _ _ _ I) in H1 as (bd' & H4 & H5 & H6). assert (bd' = bd) as -> by congruence.
  exists b, bd. split; [|done]. destruct (in_handler _ _ _ I b bd H2) as (ev' & i & H7 & H8). rewrite H5 in H8.
  assert (ev' = ev) as -> by congruence. unfold onChanged_bindings. rewrite (ev_snapshot_law ev Hok), list_elem_of_omap.
  exists (OnChanged b). split; [|done]. by apply (list_elem_of_fmap_2 snd) in H8.
Qed.

(** The reactions that are to react to [e]. *)
Definition readers (w : Reactor) (e : nat) : gset nat := set_map fst (filter (λ p : nat * nat, p.2 = e) (reads (w_log w))).

Lemma readers_elem w e r : r ∈ readers w e ↔ (r, e) ∈ reads (w_log w).
Proof.
  unfold readers. rewrite elem_of_map. setoid_rewrite elem_of_filter. split; [by intros ([r' e'] & -> & ? & ?); simplify_eq/=|].
  intros Hin. by exists (r, e).
Qed.

Lemma fire_running w e : running w → e ∈ D →
  settles (λ f, run_action (run react f) (AFire e [])) w (λ _ w', running w' ∧ reacted (readers w e) w w' ∨ halted n D w').
Proof.
  intros R He. pose proof R as [R1 [I G R2] [J1 J2 J3 J4] R4 R5]. rewrite J2 in I. rewrite <- R5 in He. apply elem_of_dom in He as [ev Hev].
  cbn [run_action]. apply settles_step, (wp_get_event e ev); [done|]. apply (settles_bind (λ f, run react f (TActions []))).
  apply runs_nil. pose proof (bound_binding w) as Hbound.
  assert (Hr : ∀ r, r ∈ readers w e → bound w r e).
  { intros r Hr%readers_elem. apply R2 in Hr as [Hr|Hr]; [|done]. rewrite J3 in Hr. by apply not_elem_of_nil in Hr. }
  assert (Hcalls : runs react (TCalls (onChanged_bindings (ev_snapshot ev))) w (λ w', running w' ∧ reacted (readers w e) w w' ∨ halted n D w')).
  { destruct (snapshot_bindings w e ev I Hev) as [E|(b & bd & E & Hb)]; rewrite E.
    - apply runs_unfold. apply settles_wp, wp_ret. left. split; [done|]. exists []. rewrite app_nil_r. split; [done|]. split; [constructor|].
      intros r H _. apply Hr in H. destruct (Hbound r e ev I Hev H) as (b & bd & Hb & _). rewrite E in Hb. by apply not_elem_of_nil in Hb.
    - apply runs_unfold. cbn [run_task]. apply (settles_bind (λ f, run react f (TOnChanged b))).
      eapply settles_mono; [by apply (onChanged_ok b bd)|]. intros [] w1 Hw1. apply runs_unfold, settles_wp, wp_ret.
      destruct Hw1 as [ [H1 (new & H2 & H3 & H4)]|H1]; [left|by right]. split; [done|]. exists new. split; [done|]. split; [done|].
      intros r H Hlt. apply H4; [|done]. apply Hr in H. destruct (Hbound r e ev I Hev H) as (b' & bd' & H5 & H6 & H7).
      rewrite E, list_elem_of_singleton in H5. subst b'. congruence. }
  exact Hcalls.
Qed.

Lemma fire_halted w e : halted n D w → e ∈ D → settles (λ f, run_action (run react f) (AFire e [])) w (λ _, halted n D).
Proof.
  intros [S [Hl Hd] ] He. eapply settles_mono.
  - apply (fire_ok react D []); [by cbn; rewrite bool_decide_eq_true_2|rewrite <- (id_bindings _ (st_idle _ S)); apply S|by rewrite (st_state _ S)|by rewrite Hd].
  - intros [] w' G. destruct (grown_during n D State_Starting [] [] ∅ w w' G) as [C|H]; [by right| |done].
    destruct G as (v & _ & ->). pose proof (co_state _ _ _ _ _ _ _ C) as E. cbn in E. by rewrite (st_state _ S) in E.
Qed.

Lemma stop_settled w : settled w → wp stop w (λ _, halted n D).
Proof.
  intros [R|H].
  - eapply wp_mono; [apply stop_ok; [apply R|by rewrite (ru_state _ R)]|]. intros [] w' (S & Hl & Hd). split; [done|].
    by rewrite Hl, Hd, (ru_length _ R), (ru_events _ R).
  - unfold stop. apply wp_bind, wp_get. rewrite decide_True by apply H. by apply wp_ret.
Qed.

Lemma start_settled w : settled w → runs react TStart w settled.
Proof.
  intros [R|H]; [|by apply start_halted]. apply runs_unfold. cbn [run_task]. unfold start. apply settles_step, wp_get.
  rewrite (ru_state _ R). destruct (decide _) as [|_]; [done|]. apply settles_wp, wp_ret. by left.
Qed.

Lemma outside_ok l : forallb outside l = true → ∀ w, settled w → runs react (TActions l) w settled.
Proof.
  induction l as [|a l IH]; intros Hl w Hw; [by apply runs_nil|]. cbn in Hl. apply andb_true_iff in Hl as [Ha Hl].
  apply runs_cons. apply (settles_mono _ _ (λ _, settled)); [|intros [] w1; by apply IH].
  destruct a as [| | |e before| | |]; try discriminate Ha.
  - destruct before; [|discriminate Ha]. cbn in Ha. apply bool_decide_eq_true in Ha.
    destruct Hw as [R|H]; [|eapply settles_mono; [by apply fire_halted|by right] ].
    eapply settles_mono; [by apply fire_running|]. intros [] w1 [ [H1 _]|H1]; [by left|by right].
  - by apply start_settled.
  - apply settles_wp. eapply wp_mono; [by apply stop_settled|]. intros. by right.
  - apply settles_step. eapply wp_mono; [by apply stop_settled|]. intros [] w1 H1. apply start_settled. by right.
Qed.

Lemma new_reactor_halted events : dom events = D → (∀ e ev, events !! e = Some ev → ev_ok ev ∧ ∀ h b, (h, OnChanged b) ∉ ev_list ev) →
  halted n D (new_reactor n events).
Proof.
  intros Hd He. split; [|cbn; by rewrite length_replicate]. apply stopped_intro; try done.
  - cbn. intros r rc. rewrite lookup_replicate. naive_solver.
  - cbn. by intros r ?%not_elem_of_nil.
Qed.
End props.

(** ** Stopping needs no memory *)

Section memory.
Context `{X : Events}.

Lemma bind_ok {A B} (m : R A) (f : A → R B) w x w1 : m w = inl (x, w1) → (m ≫= f) w = f x w1.
Proof. intros H. unfold mbind, R_bind. by rewrite H. Qed.

Lemma bind_err {A B} (m : R A) (f : A → R B) w e : m w = inr e → (m ≫= f) w = inr e.
Proof. intros H. unfold mbind, R_bind. by rewrite H. Qed.

Definition no_memory {A} (m : R A) : Prop := ∀ w, m w ≠ inr OutOfMemory.

Lemma no_memory_bind {A B} (m : R A) (f : A → R B) : no_memory m → (∀ x, no_memory (f x)) → no_memory (m ≫= f).
Proof. intros Hm Hf w. unfold mbind, R_bind. pose proof (Hm w). destruct (m w) as [ [x w1]|e]; [apply Hf|congruence]. Qed.

Lemma no_memory_for_each {A} (l : list A) (f : A → R unit) : (∀ x, no_memory (f x)) → no_memory (for_each l f).
Proof. intros Hf. induction l as [|x l IH]; cbn [for_each]; [by intros w|]. by apply no_memory_bind. Qed.

Lemma no_memory_deref {A B} (f : Reactor → option A) e (g : A → R B) : e ≠ OutOfMemory → (∀ x, no_memory (g x)) →
  no_memory ((λ w, deref e (f w) w) ≫= g).
Proof. intros He Hg. apply no_memory_bind; [|done]. intros w. destruct (f w); [done|]. intros [= Hw]. done. Qed.

Lemma no_memory_stop : no_memory stop.
Proof.
  unfold stop. apply no_memory_bind; [by intros w|]. intros st. destruct (decide _); [by intros w|].
  apply no_memory_bind; [by intros w|]. intros l. apply no_memory_bind; [|by intros [] w].
  apply no_memory_for_each. intros b. apply (no_memory_deref (λ w, w_bindings w !! b)); [done|]. intros bd.
  apply (no_memory_deref (λ w, w_events w !! b_event bd)); [done|]. intros ev.
  apply (no_memory_deref (λ _, ev_removeHandler (b_handler bd) ev)); [done|]. by intros ev' w.
Qed.
End memory.

Section theorems.
Context `{XL : EventsLaws}.
Variable react : nat → option nat → list Action.
Context (n : nat) (D : gset nat).

(** C7: A reactor is started, stopped, restarted and woken by events from outside, in any order: no assertion fails, no
    binding is used after it was freed, and each of these calls returns. The reactor then runs, with what its reactions have read
    subscribed to and nothing left active or pending to be bound, or it is stopped, with nothing subscribed to. This is under two
    conditions, and without either of them it is not so. The code of the reactor is [steady]: its reactions enter their own statements,
    bind events, fire events and may stop the reactor, but do not start or restart it, which makes an assertion fail
    ([restart_while_reacting]). And the events are fired by [outside] with no handlers of others called before that of the reactor: one
    of these may free the binding that is called next ([freed_binding_used]). *)
Theorem reactor_safe events l : dom events = D → (∀ e ev, events !! e = Some ev → ev_ok ev ∧ ∀ h b, (h, OnChanged b) ∉ ev_list ev) →
  steady react n D → forallb (outside D) l = true → runs react (TActions l) (new_reactor n events) (settled n D).
Proof. intros Hd He Hs Hl. apply outside_ok; [done|done|]. right. by apply new_reactor_halted. Qed.

(** C37: A binding is used after it was freed. Whenever a reactor runs and one of its reactions has read the event [e],
    whatever the code of the reactor does, if [e] is fired and a handler of the event that is called before that of the reactor
    stops the reactor, the binding is freed, but the snapshot of the event still has its handler, and that uses it. *)
Theorem freed_binding_used w r e fuel : running n D w → e ∈ D → r ∈ readers w e →
  run react (4 + fuel) (TActions [AFire e [AStop]]) w = inr DanglingPointer.
Proof.
  intros R He Hr%readers_elem. pose proof R as [R1 [I G R2] [J1 J2 J3 J4] R4 R5]. rewrite J2 in I.
  rewrite <- R5 in He. apply elem_of_dom in He as [ev Hev].
  assert (Hb : bound w r e) by (apply R2 in Hr as [Hr|Hr]; [rewrite J3 in Hr; by apply not_elem_of_nil in Hr|done]).
  destruct (bound_binding w r e ev I Hev Hb) as (b & bd & Hin & Hbd & _).
  destruct (snapshot_bindings w e ev I Hev) as [E|(b' & bd' & E & _)]; rewrite E in Hin; [by apply not_elem_of_nil in Hin|].
  assert (Hne : m_state w ≠ State_Stopped) by (intros E'; congruence).
  pose proof (stop_ok w (ru_good _ _ _ R) Hne) as Hs. unfold wp, holds in Hs.
  pose proof (no_memory_stop w) as Hm. revert Hs Hm. destruct (stop w) as [ [[] w1]|[]] eqn:Hw1; try done. intros (Hs & _) _.
  assert (H1 : run react (3 + fuel) (TActions [AStop]) w = inl (tt, w1)) by (etransitivity; [exact (bind_ok _ _ _ tt w1 Hw1)|done]).
  assert (H2 : run react (2 + fuel) (TOnChanged b') w1 = inr DanglingPointer).
  { apply bind_err. unfold get_binding. by rewrite (st_bindings _ Hs). }
  assert (H3 : run react (3 + fuel) (TCalls [b']) w1 = inr DanglingPointer) by (by apply bind_err).
  apply bind_err. cbn [run_action]. rewrite (bind_ok _ _ _ ev w); [|unfold get_event; by rewrite Hev].
  rewrite (bind_ok _ _ _ tt w1); [|exact H1]. by rewrite E.
Qed.
End theorems.

(** ** Concrete reactors *)

#[local] Existing Instance MulticastProps.axl_tables.
#[local] Existing Instance MulticastProps.axl_tables_laws.

Definition two_events : gmap nat event := {[ 0 := (new_multicast : event); 1 := (new_multicast : event) ]}.

Lemma two_events_ok e ev : two_events !! e = Some ev → ev_ok ev ∧ ∀ h b, (h, OnChanged b) ∉ ev_list ev.
Proof.
  unfold two_events. intros [ [_ <-]|[_ [_ <-]%lookup_singleton_Some] ]%lookup_insert_Some; apply new_multicast_ok.
Qed.

(** Two reactions: the first reads the first event and changes the second, which the second reads. *)
Definition react_chain (k : nat) (idx : option nat) : list Action :=
  match idx with
  | None => [AEnter 0 1; ABind 0 0; AEnter 1 2; ABind 1 1]
  | Some 0 => [ABind 0 0; AFire 1 []]
  | Some _ => [ABind 1 1]
  end.

Lemma react_chain_steady : steady react_chain 2 {[0; 1]}.
Proof. intros k [ [|i]|]; by vm_compute. Qed.

Definition run_log (react : nat → option nat → list Action) (l : list Action) : option (State * list log_entry) :=
  match run react 30 (TActions l) (new_reactor 2 two_events) with inl (_, w) => Some (m_state w, w_log w) | inr _ => None end.

Lemma reactor_safe_witness :
  run_log react_chain [AStart; AFire 0 []; AStop; AFire 0 []] = Some (State_Stopped,
    [LReact None; LActivate 0; LBind 0 0; LActivate 1; LBind 1 1; LActivate 0; LReact (Some 0); LBind 0 0; LActivate 1; LReact (Some 1); LBind 1 1; LStop]) ∧
  runs react_chain (TActions [AStart; AFire 0 []; AStop; AFire 0 []]) (new_reactor 2 two_events) (settled 2 {[0; 1]}).
Proof.
  split; [by vm_compute|]. apply (reactor_safe react_chain 2 {[0; 1]}); [by vm_compute|apply two_events_ok|apply react_chain_steady|by vm_compute].
Defined.

Definition failure_of (react : nat → option nat → list Action) (l : list Action) : option failure :=
  match run react 30 (TActions l) (new_reactor 2 two_events) with inl _ => None | inr e => Some e end.

Definition reactor_after (react : nat → option nat → list Action) (l : list Action) : Reactor :=
  match run react 30 (TActions l) (new_reactor 2 two_events) with inl (_, w) => w | inr _ => new_reactor 2 two_events end.

Lemma reactor_after_run react l : failure_of react l = None → run react 30 (TActions l) (new_reactor 2 two_events) = inl (tt, reactor_after react l).
Proof. unfold failure_of, reactor_after. by destruct (run _ _ _ _) as [ [[] w]|e]. Qed.

Lemma started_running : running 2 {[0; 1]} (reactor_after react_chain [AStart]).
Proof.
  assert (Hs : settled 2 {[0; 1]} (reactor_after react_chain [AStart])).
  { apply (runs_result react_chain (TActions [AStart]) (new_reactor 2 two_events) (settled 2 {[0; 1]}) 30).
    - apply (outside_ok react_chain 2 {[0; 1]} react_chain_steady [AStart]); [done|]. right. apply new_reactor_halted; [by vm_compute|apply two_events_ok].
    - apply reactor_after_run. by vm_compute. }
  destruct Hs as [R|[S _] ]; [done|]. pose proof (st_state _ S) as E. vm_compute in E. discriminate E.
Qed.


(** The other handler stops the reactor that has read the event. *)
Lemma freed_binding_used_witness : failure_of react_chain [AStart; AFire 0 []] = None ∧
  run react_chain (4 + 26) (TActions [AFire 0 [AStop]]) (reactor_after react_chain [AStart]) = inr DanglingPointer.
Proof.
  split; [by vm_compute|]. apply (freed_binding_used react_chain 2 {[0; 1]} (reactor_after react_chain [AStart]) 0 0 26);
    [apply started_running|set_solver|by vm_compute].
Defined.

(** Both reactions read the first event at first, and only the first does afterwards. *)
Definition react_leaves (k : nat) (idx : option nat) : list Action :=
  match idx with
  | None => [AEnter 0 1; ABind 0 0; AEnter 1 2; ABind 1 0]
  | Some 0 => [ABind 0 0]
  | Some _ => [ABind 1 1]
  end.

(** When two reactions have read an event and are activated in one run, the bit of the second one stays in the binding,
    for the binding is active already. The second reaction is activated by this event for ever after, although it
    has not read it since. *)
Theorem stale_subscription :
  let w := reactor_after react_leaves [AStart; AFire 0 []] in
  bool_decide ((1, 0) ∈ reads (w_log w)) = false ∧
  run_log react_leaves [AStart; AFire 0 []; AFire 0 []; AFire 0 []] = Some (State_Running, w_log w ++
    [LActivate 0; LReact (Some 0); LBind 0 0; LActivate 1; LReact (Some 1); LBind 1 1;
     LActivate 0; LReact (Some 0); LBind 0 0; LActivate 1; LReact (Some 1); LBind 1 1]).
Proof. split; by vm_compute. Qed.

(** The reaction reads both events once, and none afterwards. *)
Definition react_once (k : nat) (idx : option nat) : list Action :=
  match idx with None => [AEnter 0 1; ABind 0 0; ABind 0 1] | _ => [] end.

(** The same when the other handler changes something else the reaction has read. *)
Example freed_binding_by_reaction : failure_of react_once [AStart; AFire 0 [AFire 1 []]] = Some DanglingPointer.
Proof. by vm_compute. Qed.

(** A reaction that restarts its reactor. *)
Definition react_restarts (k : nat) (idx : option nat) : list Action :=
  match idx with None => [AEnter 0 1; ABind 0 0] | _ => [ARestart] end.

(** A reactor that is restarted by one of its reactions runs again when the loop ends, and the assertion that it is still
    reacting fails. *)
Theorem restart_while_reacting :
  failure_of react_restarts [AStart; AFire 0 []] = Some AssertFailed.
Proof. by vm_compute. Qed.
