(* ===== verification/Memory.v ===== *)
(** * Memory: blocks, bytes and the C library

    The memory the runtime works on. [malloc] gives blocks that do not overlap; [memcpy] and
    the like are those of C, and access to anything but the bytes of one block is a fault. *)

From Stdlib Require Import Ascii.
From S2P Require Import Prelude.

Open Scope N_scope.

(** ** Bytes *)

Abbreviation bytes := (gmap N ascii).

Definition read (m : bytes) (a : N) (n : nat) : list ascii := map (λ i, default Ascii.zero (m !! (a + N.of_nat i))) (seq 0 n).

Fixpoint write (m : bytes) (a : N) (l : list ascii) : bytes :=
  match l with [] => m | c :: l => <[a := c]> (write m (a + 1) l) end.

Lemma length_read m a n : length (read m a n) = n.
Proof. unfold read. by rewrite length_map, length_seq. Qed.

Lemma read_lookup m a n i : (i < n)%nat → read m a n !! i = Some (default Ascii.zero (m !! (a + N.of_nat i))).
Proof. intros Hi. unfold read. rewrite list_lookup_fmap, lookup_seq_lt by done. done. Qed.

Lemma write_lookup m a l x : write m a l !! x = if decide (a ≤ x ∧ x < a + N.of_nat (length l)) then l !! N.to_nat (x - a) else m !! x.
Proof.
  revert a. induction l as [|c l IH]; intros a; cbn [write length]; [by rewrite decide_False by lia|].
  destruct (decide (x = a)) as [->|Hne].
  - rewrite lookup_insert_eq, decide_True by lia. by rewrite N.sub_diag.
  - rewrite lookup_insert_ne by done. rewrite IH. destruct (decide (a ≤ x ∧ x < a + N.of_nat (S (length l)))) as [H|H].
    + rewrite decide_True by lia. replace (N.to_nat (x - a)) with (S (N.to_nat (x - (a + 1)))) by lia. done.
    + by rewrite decide_False by lia.
Qed.

Lemma read_ext m m' a n : (∀ x, a ≤ x → x < a + N.of_nat n → m !! x = m' !! x) → read m a n = read m' a n.
Proof.
  intros H. apply list_eq. intros i. destruct (decide (i < n)%nat) as [Hi|Hi].
  - rewrite !read_lookup, H by lia. done.
  - rewrite !lookup_ge_None_2; rewrite ?length_read; [done|lia..].
Qed.

Lemma read_write m a l : read (write m a l) a (length l) = l.
Proof.
  apply list_eq. intros i. destruct (decide (i < length l)%nat) as [Hi|Hi].
  - rewrite read_lookup, write_lookup, decide_True by lia. replace (N.to_nat (a + N.of_nat i - a)) with i by lia.
    apply lookup_lt_is_Some_2 in Hi as [c Hc]. by rewrite Hc.
  - rewrite !lookup_ge_None_2; rewrite ?length_read; [done|lia..].
Qed.

Lemma read_write_other m a l b n : a + N.of_nat (length l) ≤ b ∨ b + N.of_nat n ≤ a → read (write m a l) b n = read m b n.
Proof. intros H. apply read_ext. intros x H1 H2. rewrite write_lookup, decide_False by lia. done. Qed.

Lemma read_app m a n1 n2 : read m a (n1 + n2) = read m a n1 ++ read m (a + N.of_nat n1) n2.
Proof.
  apply list_eq. intros i. destruct (decide (i < n1)%nat) as [Hi|Hi].
  - by rewrite lookup_app_l, !read_lookup by (rewrite ?length_read; lia).
  - rewrite lookup_app_r by (rewrite length_read; lia). rewrite length_read. destruct (decide (i < n1 + n2)%nat) as [Hi2|Hi2].
    + rewrite !read_lookup by lia. do 3 f_equal. lia.
    + rewrite !lookup_ge_None_2; rewrite ?length_read; [done|lia..].
Qed.

Lemma read_take m a n k : (k ≤ n)%nat → take k (read m a n) = read m a k.
Proof.
  intros Hk. replace n with (k + (n - k))%nat by lia. rewrite read_app. by rewrite take_app_length' by (by rewrite length_read).
Qed.

Lemma read_drop m a n k : (k ≤ n)%nat → drop k (read m a n) = read m (a + N.of_nat k) (n - k).
Proof.
  intros Hk. replace n with (k + (n - k))%nat at 1 by lia. rewrite read_app. by rewrite drop_app_length' by (by rewrite length_read).
Qed.

Lemma read_S m a n : read m a (S n) = default Ascii.zero (m !! a) :: read m (a + 1) n.
Proof. replace (S n) with (1 + n)%nat by lia. rewrite read_app. cbn. by rewrite N.add_0_r. Qed.

Lemma write_append m a l1 l2 : write m a (l1 ++ l2) = write (write m a l1) (a + N.of_nat (length l1)) l2.
Proof.
  apply map_eq. intros x. rewrite !write_lookup, length_app. destruct (decide (a + N.of_nat (length l1) ≤ x ∧ _)) as [H|H].
  - rewrite decide_True by lia. rewrite lookup_app_r by lia. f_equal. lia.
  - destruct (decide (a ≤ x ∧ x < a + N.of_nat (length l1))) as [H2|H2].
    + rewrite decide_True by lia. by rewrite lookup_app_l by lia.
    + by rewrite decide_False by lia.
Qed.

(** Writing a part of what was written. *)
Lemma write_inside m a l0 (k : nat) l : (k + length l ≤ length l0)%nat →
  write (write m a l0) (a + N.of_nat k) l = write m a (take k l0 ++ l ++ drop (k + length l) l0).
Proof.
  intros Hle. apply map_eq. intros x. rewrite !write_lookup. rewrite !length_app, length_take, length_drop.
  destruct (decide (a ≤ x ∧ x < a + N.of_nat (length l0))) as [Hin|Hout].
  - rewrite (decide_True (P := a ≤ x ∧ _)) by lia. destruct (decide _) as [Hk|Hk].
    + rewrite lookup_app_r by (rewrite length_take; lia). rewrite length_take, lookup_app_l by lia. f_equal. lia.
    + destruct (decide (x < a + N.of_nat k)) as [Hlt|Hge].
      * rewrite lookup_app_l, lookup_take_lt by (rewrite ?length_take; lia). done.
      * rewrite lookup_app_r, lookup_app_r, lookup_drop by (rewrite ?length_take; lia). rewrite length_take. f_equal. lia.
  - rewrite !decide_False by lia. done.
Qed.

(** ** Ranges *)

(** The range is in one of the blocks. *)
Definition in_range (regions : list (N * N)) (a n : N) : bool :=
  existsb (λ '(b, s), (b <=? a) && (a + n <=? b + s)) regions.

Lemma in_range_spec regions a n : in_range regions a n = true ↔ ∃ b s, (b, s) ∈ regions ∧ b ≤ a ∧ a + n ≤ b + s.
Proof.
  unfold in_range. rewrite existsb_exists. split.
  - intros ([b s] & Hin & H). apply andb_true_iff in H as [H1%N.leb_le H2%N.leb_le]. exists b, s. by rewrite list_elem_of_In.
  - intros (b & s & Hin & H1 & H2). exists (b, s). rewrite <- list_elem_of_In. split; [done|].
    apply andb_true_iff. by rewrite !N.leb_le.
Qed.

Lemma in_range_weaken regions a n a' n' : in_range regions a n = true → a ≤ a' → a' + n' ≤ a + n → in_range regions a' n' = true.
Proof. rewrite !in_range_spec. intros (b & s & Hin & H1 & H2) H3 H4. exists b, s. split; [done|lia]. Qed.

Lemma in_range_mono regions regions' a n : regions ⊆ regions' → in_range regions a n = true → in_range regions' a n = true.
Proof. rewrite !in_range_spec. intros Hs (b & s & Hin & H). exists b, s. auto. Qed.

(** How many bytes there are from [a] to the end of its block. *)
Fixpoint available (regions : list (N * N)) (a : N) : N :=
  match regions with
  | [] => 0
  | (b, s) :: regions => if b <=? a then N.max (b + s - a) (available regions a) else available regions a
  end.

Lemma available_range regions a : 0 < available regions a → in_range regions a (available regions a) = true.
Proof.
  rewrite in_range_spec. induction regions as [|[b s] l IH]; cbn [available]; [lia|]. destruct (N.leb_spec b a) as [Hle|Hgt].
  - intros H. destruct (N.max_spec (b + s - a) (available l a)) as [ [H1 H2]|[H1 H2] ]; rewrite H2 in *.
    + destruct (IH H) as (b' & s' & Hin & H3). exists b', s'. split; [by right|done].
    + exists b, s. split; [left|lia].
  - intros H. destruct (IH H) as (b' & s' & Hin & H3). exists b', s'. split; [by right|done].
Qed.

Lemma available_le regions a n : in_range regions a n = true → n ≤ available regions a.
Proof.
  rewrite in_range_spec. intros (b & s & Hin & H1 & H2). induction regions as [|[b' s'] l IH]; [by apply not_elem_of_nil in Hin|].
  cbn [available]. apply elem_of_cons in Hin as [ [= <- <-]|Hin].
  - rewrite (proj2 (N.leb_le _ _)) by done. lia.
  - specialize (IH Hin). destruct (b' <=? a); lia.
Qed.

(** ** The allocator *)

(** [mem::allocate], given the blocks there are. *)
Class Malloc := { mem_allocate : list (N * N) → N → option N }.

Class MallocLaws (X : Malloc) : Prop := {
  mem_allocate_law l n a : mem_allocate l n = Some a →
    0 < a ∧ a + n < size_mod ∧ ∀ b s, (b, s) ∈ l → a + n ≤ b ∨ b + s ≤ a
}.

(** An allocator that takes the next address. *)
Definition bump_allocate (l : list (N * N)) (n : N) : option N :=
  let a := foldr (λ '(b, s) x, N.max (b + s) x) 16 l in if a + n <? size_mod then Some a else None.

Lemma bump_allocate_law l n a : bump_allocate l n = Some a → 0 < a ∧ a + n < size_mod ∧ ∀ b s, (b, s) ∈ l → a + n ≤ b ∨ b + s ≤ a.
Proof.
  unfold bump_allocate. destruct (N.ltb_spec (foldr (λ '(b, s) x, N.max (b + s) x) 16 l + n) size_mod) as [Hlt|]; [|done].
  intros [= <-]. assert (Hle : 16 ≤ foldr (λ '(b, s) x, N.max (b + s) x) 16 l ∧
    ∀ b s, (b, s) ∈ l → b + s ≤ foldr (λ '(b, s) x, N.max (b + s) x) 16 l).
  { clear Hlt. induction l as [|[b0 s0] l [IH1 IH2] ]; cbn; [split; [done|]; by intros b s ?%not_elem_of_nil|]. split; [lia|].
    intros b s [ [= -> ->]|Hin]%elem_of_cons; [lia|]. specialize (IH2 b s Hin). lia. }
  destruct Hle as [H1 H2]. split; [lia|]. split; [done|]. intros b s Hin. right. by apply H2.
Qed.

Definition bump_malloc : Malloc := {| mem_allocate := bump_allocate |}.

Lemma bump_malloc_laws : MallocLaws bump_malloc.
Proof. split. apply bump_allocate_law. Qed.
