(* ===== verification/DataPtr.v ===== *)
(** * Data pointers: boxes, validators and checks

    Models data pointers of the runtime: the allocation of data and validators in
    [src/src/jnc_rt/jnc_rt_GcHeap.cpp], the checks and dynamic casts of
    [src/src/jnc_ext/jnc_rtl_core/jnc_rtl_CoreLib.cpp], the functions on strings of
    [src/src/jnc_api/jnc_Runtime.cpp] and [jnc_String.cpp].

    A data pointer is an address with a validator, which has the range that may be accessed;
    numbers are addresses, zero is null. One thread runs; the locks of allocation are those of
    [GcThreads], and memory is not collected meanwhile. *)

From Stdlib Require Import Ascii.
From S2P Require Import Prelude Memory.

Open Scope N_scope.

(** ** Types *)

(** What the runtime asks of the types of the module. *)
Class DataTypes := {
  type : Type;
  getSize : type → N;
  isClass : type → bool;
  getElementType : type → option type;
  isStruct : type → bool;
  isEqual : type → type → bool;
  findBaseTypeOffset : type → type → option N;
  type_char : type;
  type_validator : type;
  type_detachedDataBox : type
}.

(** Sizes of the standard types, on a machine of 64 bits; an array is its elements; a base is a part of its struct. *)
Class DataTypesLaws (X : DataTypes) : Prop := {
  size_char : getSize type_char = 1;
  size_validator : getSize type_validator = 32;
  size_detachedDataBox : getSize type_detachedDataBox = 56;
  array_size t elem : getElementType t = Some elem → ∃ count, getSize t = count * getSize elem;
  base_inside t b off : findBaseTypeOffset t b = Some off → off + getSize b ≤ getSize t
}.

(** ** Data *)

Record DataPtr := mkPtr { p_p : N; p_validator : N }.

Definition nullDataPtr : DataPtr := mkPtr 0 0.

(** [getOffsetPtr] *)
Definition getOffsetPtr (ptr : DataPtr) (offset : N) : DataPtr := mkPtr (add64 (p_p ptr) offset) (p_validator ptr).

Record Validator := mkValidator { v_validatorBox : N; v_targetBox : N; v_rangeBegin : N; v_rangeEnd : N }.

(** [Box]; [bx_p] is that of a detached one. *)
Record Box `{DataTypes} := mkBox { bx_type : type; bx_flags : N; bx_rootOffset : N; bx_p : N }.

Definition BoxFlag_WeakMark : N := 1.
Definition BoxFlag_DataMark : N := 2.
Definition BoxFlag_Invalid : N := 32.
Definition BoxFlag_DynamicArray : N := 128.
Definition BoxFlag_Detached : N := 256.
Definition BoxFlag_CallSiteLocal : N := 512.

Definition has_flag (flags flag : N) : bool := negb (N.land flags flag =? 0).

(** [sizeof(Box)] and [sizeof(DataBox)] *)
Definition sizeof_Box : N := 16.
Definition sizeof_DataBox : N := 48.

Definition GcDef_DataPtrValidatorPoolSize : N := 32.
Definition GcDef_ForeignDataBoxPoolSize : N := 16.

(** The memory, with what is in it besides bytes, and the pools of the thread. *)
Record World `{DataTypes} := mkWorld {
  w_bytes : bytes;
  w_blocks : list (N * N);
  w_regions : list (N * N);
  w_boxes : gmap N Box;
  w_validators : gmap N Validator;
  m_dataPtrValidatorPoolBegin : N;
  m_dataPtrValidatorPoolEnd : N;
  m_foreignDataBoxPoolBegin : N;
  m_foreignDataBoxPoolEnd : N
}.

Arguments mkBox {_} _ _ _ _.
Arguments mkWorld {_} _ _ _ _ _ _ _ _ _.

(** What goes wrong: access to memory that is not there, a failed assertion, an exception. *)
Inductive failure := Fault | AssertFailed | Thrown.

Section ptr.
Context `{M : Malloc, T : DataTypes}.

Definition set_bytes (v : bytes) (w : World) : World :=
  mkWorld v (w_blocks w) (w_regions w) (w_boxes w) (w_validators w) (m_dataPtrValidatorPoolBegin w) (m_dataPtrValidatorPoolEnd w) (m_foreignDataBoxPoolBegin w) (m_foreignDataBoxPoolEnd w).
Definition set_memory (b r : list (N * N)) (w : World) : World :=
  mkWorld (w_bytes w) b r (w_boxes w) (w_validators w) (m_dataPtrValidatorPoolBegin w) (m_dataPtrValidatorPoolEnd w) (m_foreignDataBoxPoolBegin w) (m_foreignDataBoxPoolEnd w).
Definition set_boxes (v : gmap N Box) (w : World) : World :=
  mkWorld (w_bytes w) (w_blocks w) (w_regions w) v (w_validators w) (m_dataPtrValidatorPoolBegin w) (m_dataPtrValidatorPoolEnd w) (m_foreignDataBoxPoolBegin w) (m_foreignDataBoxPoolEnd w).
Definition set_validators (v : gmap N Validator) (w : World) : World :=
  mkWorld (w_bytes w) (w_blocks w) (w_regions w) (w_boxes w) v (m_dataPtrValidatorPoolBegin w) (m_dataPtrValidatorPoolEnd w) (m_foreignDataBoxPoolBegin w) (m_foreignDataBoxPoolEnd w).
Definition set_validatorPool (b e : N) (w : World) : World :=
  mkWorld (w_bytes w) (w_blocks w) (w_regions w) (w_boxes w) (w_validators w) b e (m_foreignDataBoxPoolBegin w) (m_foreignDataBoxPoolEnd w).
Definition set_foreignPool (b e : N) (w : World) : World :=
  mkWorld (w_bytes w) (w_blocks w) (w_regions w) (w_boxes w) (w_validators w) (m_dataPtrValidatorPoolBegin w) (m_dataPtrValidatorPoolEnd w) b e.

Definition Run (A : Type) : Type := World → (A * World) + failure.

#[export] Instance Run_ret : MRet Run := λ A x w, inl (x, w).
#[export] Instance Run_bind : MBind Run := λ A B f m w, match m w with inl (x, w) => f x w | inr e => inr e end.

Definition fail {A} (e : failure) : Run A := λ w, inr e.
Definition get {A} (f : World → A) : Run A := λ w, inl (f w, w).
Definition modify (f : World → World) : Run unit := λ w, inl (tt, f w).
Definition assert (b : bool) : Run unit := if b then mret tt else fail AssertFailed.
Definition access (b : bool) : Run unit := if b then mret tt else fail Fault.

Definition get_validator (v : N) : Run Validator := λ w, match w_validators w !! v with Some x => inl (x, w) | None => inr Fault end.
Definition get_box (b : N) : Run Box := λ w, match w_boxes w !! b with Some x => inl (x, w) | None => inr Fault end.
Definition put_validator (v : N) (x : Validator) : Run unit := modify (λ w, set_validators (<[v := x]> (w_validators w)) w).
Definition put_box (b : N) (x : Box) : Run unit := modify (λ w, set_boxes (<[b := x]> (w_boxes w)) w).

(** ** The C library *)

Definition load (a n : N) : Run (list ascii) :=
  ok ← get (λ w, in_range (w_regions w) a n);
  _ ← access ok;
  get (λ w, read (w_bytes w) a (N.to_nat n)).

Definition store (a : N) (l : list ascii) : Run unit :=
  ok ← get (λ w, in_range (w_regions w) a (N.of_nat (length l)));
  _ ← access ok;
  modify (λ w, set_bytes (write (w_bytes w) a l) w).

(** [memcpy], which is not for ranges that overlap; [memmove]; [memset]. Nothing is done when [n] is zero. *)
Definition memcpy (dst src n : N) : Run unit :=
  if n =? 0 then mret tt
  else
    l ← load src n;
    _ ← access ((dst + n <=? src) || (src + n <=? dst));
    store dst l.

Definition memmove (dst src n : N) : Run unit :=
  if n =? 0 then mret tt else l ← load src n; store dst l.

Definition memset (p : N) (c : ascii) (n : N) : Run unit :=
  if n =? 0 then mret tt
  else
    ok ← get (λ w, in_range (w_regions w) p n);
    _ ← access ok;
    store p (replicate (N.to_nat n) c).

(** [memchr] reads up to the byte it looks for. *)
Definition memchr (p : N) (c : ascii) (n : N) : Run (option N) :=
  if n =? 0 then mret None
  else
    avail ← get (λ w, available (w_regions w) p);
    l ← load p (N.min n avail);
    match list_find (λ x, x = c) l with
    | Some (i, _) => mret (Some (p + N.of_nat i))
    | None => _ ← access (n <=? avail); mret None
    end.

Definition strlen (p : N) : Run N :=
  found ← memchr p Ascii.zero size_mod;
  match found with Some q => mret (q - p) | None => fail Fault end.

(** ** Allocation *)

(** [mem::allocate] of a box with [size] bytes behind its header. *)
Definition allocate_box (size : N) : Run (option N) :=
  found ← get (λ w, mem_allocate (w_blocks w) (add64 sizeof_DataBox size));
  match found with
  | None => mret None
  | Some a =>
    let n := add64 sizeof_DataBox size in
    _ ← modify (λ w, set_memory ((a, n) :: w_blocks w)
          (if sizeof_DataBox <=? n then (a + sizeof_DataBox, n - sizeof_DataBox) :: w_regions w else w_regions w) w);
    mret (Some a)
  end.

(** [tryAllocateData] and [tryAllocateArray] differ in the size and the flags. *)
Definition tryAllocate (t : type) (size flags : N) (initializer : N) : Run DataPtr :=
  box ← allocate_box size;
  match box with
  | None => mret nullDataPtr
  | Some box =>
    let p := box + sizeof_DataBox in
    _ ← (if initializer =? 0 then memset p Ascii.zero size else memcpy p initializer size);
    _ ← put_box box (mkBox t flags 0 0);
    _ ← put_validator (box + sizeof_Box) (mkValidator box box p (add64 p size));
    mret (mkPtr p (box + sizeof_Box))
  end.

Definition tryAllocateData (t : type) (initializer : N) : Run DataPtr :=
  tryAllocate t (getSize t) (N.lor BoxFlag_DataMark BoxFlag_WeakMark) initializer.

Definition tryAllocateArray (t : type) (count initializer : N) : Run DataPtr :=
  tryAllocate t (mul64 (getSize t) count) (N.lor BoxFlag_DynamicArray (N.lor BoxFlag_DataMark BoxFlag_WeakMark)) initializer.

Definition throw_if_null (ptr : DataPtr) : Run DataPtr := if p_p ptr =? 0 then fail Thrown else mret ptr.

Definition allocateData (t : type) (initializer : N) : Run DataPtr := ptr ← tryAllocateData t initializer; throw_if_null ptr.
Definition allocateArray (t : type) (count initializer : N) : Run DataPtr := ptr ← tryAllocateArray t count initializer; throw_if_null ptr.
Definition tryAllocateBuffer (size initializer : N) : Run DataPtr := tryAllocateArray type_char size initializer.
Definition allocateBuffer (size initializer : N) : Run DataPtr := allocateArray type_char size initializer.

Definition v_set_validatorBox (b : N) (v : Validator) : Validator := mkValidator b (v_targetBox v) (v_rangeBegin v) (v_rangeEnd v).
Definition upd_validatorBox (v b : N) : Run unit :=
  modify (λ w, set_validators (<[v := v_set_validatorBox b (default (mkValidator 0 0 0 0) (w_validators w !! v))]> (w_validators w)) w).

(** [createDataPtrValidator]: the next validator of the pool, or the first of a new pool. *)
Definition createDataPtrValidator (box rangeBegin rangeLength : N) : Run N :=
  pool ← get m_dataPtrValidatorPoolBegin;
  poolEnd ← get m_dataPtrValidatorPoolEnd;
  validator ← (if negb (pool =? 0) then
      v ← get_validator pool;
      let next := pool + 32 in
      _ ← (if next <? poolEnd then
             _ ← upd_validatorBox next (v_validatorBox v);
             modify (set_validatorPool next poolEnd)
           else modify (set_validatorPool 0 0));
      mret pool
    else
      ptr ← allocateArray type_validator GcDef_DataPtrValidatorPoolSize 0;
      v ← get_validator (p_validator ptr);
      _ ← upd_validatorBox (p_p ptr) (v_validatorBox v);
      _ ← (if 2 <=? GcDef_DataPtrValidatorPoolSize then
             _ ← upd_validatorBox (p_p ptr + 32) (v_validatorBox v);
             modify (set_validatorPool (p_p ptr + 32) (v_rangeEnd v))
           else mret tt);
      mret (p_p ptr));
  v ← get_validator validator;
  _ ← put_validator validator (mkValidator (v_validatorBox v) box rangeBegin (add64 rangeBegin rangeLength));
  mret validator.

(** [createForeignDataBox], likewise; the validator is 16 bytes into the box. *)
Definition createForeignDataBox (t : type) (elementCount p : N) (isCallSiteLocal : bool) : Run N :=
  pool ← get m_foreignDataBoxPoolBegin;
  poolEnd ← get m_foreignDataBoxPoolEnd;
  box ← (if negb (pool =? 0) then
      v ← get_validator (pool + sizeof_Box);
      let next := pool + 56 in
      _ ← (if next <? poolEnd then
             _ ← upd_validatorBox (next + sizeof_Box) (v_validatorBox v);
             modify (set_foreignPool next poolEnd)
           else modify (set_foreignPool 0 0));
      mret pool
    else
      ptr ← allocateArray type_detachedDataBox GcDef_ForeignDataBoxPoolSize 0;
      v ← get_validator (p_validator ptr);
      _ ← upd_validatorBox (p_p ptr + sizeof_Box) (v_validatorBox v);
      _ ← (if 2 <=? GcDef_DataPtrValidatorPoolSize then
             _ ← upd_validatorBox (p_p ptr + 56 + sizeof_Box) (v_validatorBox v);
             modify (set_foreignPool (p_p ptr + 56) (v_rangeEnd v))
           else mret tt);
      mret (p_p ptr));
  v ← get_validator (box + sizeof_Box);
  let flags := N.lor BoxFlag_Detached (N.lor BoxFlag_DataMark BoxFlag_WeakMark) in
  let flags := if elementCount =? 1 then flags else N.lor flags BoxFlag_DynamicArray in
  let flags := if isCallSiteLocal then N.lor flags BoxFlag_CallSiteLocal else flags in
  let size := if elementCount =? 1 then getSize t else mul64 (getSize t) elementCount in
  _ ← put_box box (mkBox t flags ((box - v_validatorBox v) mod 4294967296) p);
  _ ← put_validator (box + sizeof_Box) (mkValidator (v_validatorBox v) box p (add64 p size));
  mret box.

Definition createForeignBufferPtr (p size : N) (isCallSiteLocal : bool) : Run DataPtr :=
  box ← createForeignDataBox type_char size p isCallSiteLocal;
  mret (mkPtr p (box + sizeof_Box)).

Definition invalidateDataPtrValidator (validator : N) : Run unit :=
  v ← get_validator validator;
  box ← get_box (v_targetBox v);
  put_box (v_targetBox v) (mkBox (bx_type box) (N.lor (bx_flags box) BoxFlag_Invalid) (bx_rootOffset box) (bx_p box)).

(** ** Checks *)

Definition tryCheckDataPtrRangeDirect (p rangeBegin rangeLength : N) : bool :=
  if p =? 0 then false else negb ((p <? rangeBegin) || (add64 rangeBegin rangeLength <? p)).

Definition checkDataPtrRangeDirect (p rangeBegin rangeLength : N) : Run unit :=
  if tryCheckDataPtrRangeDirect p rangeBegin rangeLength then mret tt else fail Thrown.

Definition tryCheckDataPtrRangeIndirect (p size validator : N) : Run bool :=
  if (p =? 0) || (validator =? 0) then mret false
  else
    v ← get_validator validator;
    box ← get_box (v_targetBox v);
    if has_flag (bx_flags box) BoxFlag_Invalid then mret false
    else mret (negb ((p <? v_rangeBegin v) || (v_rangeEnd v <? add64 p size))).

Definition checkDataPtrRangeIndirect (p size validator : N) : Run unit :=
  result ← tryCheckDataPtrRangeIndirect p size validator;
  if (result : bool) then mret tt else fail Thrown.

(** ** Dynamic operators *)

Definition dynamicSizeOf (ptr : DataPtr) : Run N :=
  if p_validator ptr =? 0 then mret 0
  else v ← get_validator (p_validator ptr); mret (if p_p ptr <? v_rangeEnd v then v_rangeEnd v - p_p ptr else 0).

Definition dynamicCountOf (ptr : DataPtr) (t : type) : Run N :=
  maxSize ← dynamicSizeOf ptr;
  mret (maxSize / (if getSize t =? 0 then 1 else getSize t)).

Definition dynamicOffsetOf (ptr : DataPtr) : Run N :=
  if p_validator ptr =? 0 then mret 0
  else v ← get_validator (p_validator ptr); mret (if v_rangeBegin v <? p_p ptr then p_p ptr - v_rangeBegin v else 0).

(** The loop over the elements of arrays in [dynamicCastDataPtr]; [fuel] bounds the depth of the type. *)
Fixpoint cast_elements (fuel : nat) (srcType : type) (p a : N) : type * N :=
  match fuel with
  | O => (srcType, p)
  | S fuel =>
    match getElementType srcType with
    | None => (srcType, p)
    | Some elem =>
      let size := if getSize elem =? 0 then 1 else getSize elem in
      cast_elements fuel elem (a - (a - p) mod size) a
    end
  end.

Definition dynamicCastDataPtr (fuel : nat) (ptr : DataPtr) (t : type) : Run DataPtr :=
  if p_validator ptr =? 0 then mret nullDataPtr
  else
    v ← get_validator (p_validator ptr);
    box ← get_box (v_targetBox v);
    let p := if isClass (bx_type box) then v_targetBox v + sizeof_Box
             else if has_flag (bx_flags box) BoxFlag_Detached then bx_p box else v_targetBox v + sizeof_DataBox in
    if p_p ptr <? p then mret nullDataPtr
    else
      let '(srcType, p) := cast_elements fuel (bx_type box) p (p_p ptr) in
      if isEqual srcType t then mret (mkPtr p (p_validator ptr))
      else if negb (isStruct srcType) then mret nullDataPtr
      else match findBaseTypeOffset srcType t with None => mret nullDataPtr | Some offset => mret (mkPtr (add64 p offset) (p_validator ptr)) end.
End ptr.
