(* ===== verification/DataPtrInv.v ===== *)
(** * Data pointers: the invariant

    What holds of memory, boxes and validators, and that allocation and the creation of
    validators keep it. *)

From Stdlib Require Import Ascii.
From S2P Require Import Prelude Memory DataPtr.

Open Scope N_scope.

Section inv.
Context `{ML : MallocLaws, TL : DataTypesLaws}.

(** ** Triples *)

(** [Q] holds unless an exception is thrown; there is no fault, and no assertion fails. *)
Definition triple_result {A} (r : (A * World) + failure) (Q : A → World → Prop) : Prop :=
  match r with inl (x, w) => Q x w | inr Thrown => True | inr _ => False end.

Definition triple {A} (m : Run A) (w : World) (Q : A → World → Prop) : Prop := triple_result (m w) Q.

Lemma triple_ret {A} (x : A) w (Q : A → World → Prop) : Q x w → triple (mret x) w Q.
Proof. done. Qed.

Lemma triple_bind {A B} (m : Run A) (f : A → Run B) w Q : triple m w (λ x w', triple (f x) w' Q) → triple (m ≫= f) w Q.
Proof. unfold triple, mbind, Run_bind. by destruct (m w) as [ [x w']|[] ]. Qed.

Lemma triple_mono {A} (m : Run A) w (Q Q' : A → World → Prop) : triple m w Q → (∀ x w', Q x w' → Q' x w') → triple m w Q'.
Proof. unfold triple. destruct (m w) as [ [x w']|[] ]; cbn; auto. Qed.

Lemma triple_get {A} (f : World → A) w (Q : A → World → Prop) : Q (f w) w → triple (get f) w Q.
Proof. done. Qed.

Lemma triple_modify f w (Q : unit → World → Prop) : Q tt (f w) → triple (modify f) w Q.
Proof. done. Qed.

Lemma triple_access b w (Q : unit → World → Prop) : b = true → Q tt w → triple (access b) w Q.
Proof. by intros ->. Qed.

Lemma triple_throw {A} w (Q : A → World → Prop) : triple (fail Thrown) w Q.
Proof. done. Qed.

Lemma triple_get_validator v val w (Q : Validator → World → Prop) : w_validators w !! v = Some val → Q val w → triple (get_validator v) w Q.
Proof. unfold triple, get_validator. by intros ->. Qed.

Lemma triple_get_box b box w (Q : Box → World → Prop) : w_boxes w !! b = Some box → Q box w → triple (get_box b) w Q.
Proof. unfold triple, get_box. by intros ->. Qed.

(** ** The C library *)

(** A range of bytes that may be accessed; the empty one always may. *)
Definition accessible (w : World) (a n : N) : Prop := n = 0 ∨ in_range (w_regions w) a n = true.

Definition contents (w : World) (a n : N) : list ascii := read (w_bytes w) a (N.to_nat n).

Lemma length_contents w a n : length (contents w a n) = N.to_nat n.
Proof. apply length_read. Qed.

Lemma accessible_part w a n a' n' : accessible w a n → a ≤ a' → a' + n' ≤ a + n → accessible w a' n'.
Proof. intros [->|H] H1 H2; [left; lia|right]. by eapply in_range_weaken. Qed.

Lemma triple_load a n w (Q : list ascii → World → Prop) : in_range (w_regions w) a n = true → Q (contents w a n) w → triple (load a n) w Q.
Proof. intros H HQ. unfold load. apply triple_bind, triple_get, triple_bind, triple_access; [done|]. by apply triple_get. Qed.

Lemma triple_store a l w (Q : unit → World → Prop) : in_range (w_regions w) a (N.of_nat (length l)) = true →
  Q tt (set_bytes (write (w_bytes w) a l) w) → triple (store a l) w Q.
Proof. intros H HQ. unfold store. apply triple_bind, triple_get, triple_bind, triple_access; [done|]. by apply triple_modify. Qed.

Lemma write_nil w a : set_bytes (write (w_bytes w) a []) w = w.
Proof. by destruct w. Qed.

Lemma contents_zero w a : contents w a 0 = [].
Proof. done. Qed.

Lemma triple_memmove d s n w (Q : unit → World → Prop) : accessible w s n → accessible w d n →
  Q tt (set_bytes (write (w_bytes w) d (contents w s n)) w) → triple (memmove d s n) w Q.
Proof.
  intros Hs Hd HQ. unfold memmove. destruct (N.eqb_spec n 0) as [->|Hn].
  - rewrite contents_zero, write_nil in HQ. by apply triple_ret.
  - destruct Hs as [->|Hs]; [done|]. destruct Hd as [->|Hd]; [done|]. apply triple_bind, triple_load; [done|].
    apply triple_store; [by rewrite length_contents, N2Nat.id|done].
Qed.

Lemma triple_memcpy d s n w (Q : unit → World → Prop) : accessible w s n → accessible w d n → (n = 0 ∨ d + n ≤ s ∨ s + n ≤ d) →
  Q tt (set_bytes (write (w_bytes w) d (contents w s n)) w) → triple (memcpy d s n) w Q.
Proof.
  intros Hs Hd Ho HQ. unfold memcpy. destruct (N.eqb_spec n 0) as [->|Hn].
  - rewrite contents_zero, write_nil in HQ. by apply triple_ret.
  - destruct Hs as [->|Hs]; [done|]. destruct Hd as [->|Hd]; [done|]. apply triple_bind, triple_load; [done|].
    apply triple_bind, triple_access. { destruct Ho as [?|[?|?] ]; [done|..]; apply orb_true_iff; [left|right]; by apply N.leb_le. }
    apply triple_store; [by rewrite length_contents, N2Nat.id|done].
Qed.

Lemma triple_memset d c n w (Q : unit → World → Prop) : accessible w d n →
  Q tt (set_bytes (write (w_bytes w) d (replicate (N.to_nat n) c)) w) → triple (memset d c n) w Q.
Proof.
  intros Hd HQ. unfold memset. destruct (N.eqb_spec n 0) as [->|Hn].
  - cbn in HQ. rewrite write_nil in HQ. by apply triple_ret.
  - destruct Hd as [->|Hd]; [done|]. apply triple_bind, triple_get, triple_bind, triple_access; [done|].
    apply triple_store; [by rewrite length_replicate, N2Nat.id|done].
Qed.

(** The byte [memchr] finds is the first one. *)
Lemma triple_memchr p c n w (Q : option N → World → Prop) : accessible w p n →
  (c ∉ contents w p n → Q None w) →
  (∀ i, i < n → contents w p i ++ [c] = contents w p (i + 1) → c ∉ contents w p i → Q (Some (p + i)) w) → triple (memchr p c n) w Q.
Proof.
  intros Ha Hn Hf. unfold memchr. destruct (N.eqb_spec n 0) as [->|Hne].
  { apply triple_ret, Hn, not_elem_of_nil. }
  destruct Ha as [->|Ha]; [done|]. pose proof (available_le _ _ _ Ha) as Hle. apply triple_bind, triple_get, triple_bind.
  rewrite N.min_l by done. apply triple_load; [done|]. destruct (list_find _ _) as [ [i x]|] eqn:Hl.
  - apply list_find_Some in Hl as (Hi & -> & Hbefore). apply triple_ret. pose proof (lookup_lt_Some _ _ _ Hi) as Hlt. rewrite length_contents in Hlt.
    assert (Etake : ∀ k, (k ≤ N.to_nat n)%nat → take k (contents w p n) = contents w p (N.of_nat k)).
    { intros k Hk. unfold contents. by rewrite read_take, Nat2N.id. }
    apply Hf; [lia| |].
    + replace (N.of_nat i + 1) with (N.of_nat (S i)) by lia. rewrite <- !Etake by lia. symmetry. by apply take_S_r.
    + rewrite <- Etake by lia. intros Hin. apply list_elem_of_lookup in Hin as [j Hj]. pose proof (lookup_lt_Some _ _ _ Hj) as Hj2.
      rewrite length_take in Hj2. rewrite lookup_take_lt in Hj by lia. by apply (Hbefore j c Hj ltac:(lia)).
  - apply list_find_None in Hl. apply triple_bind, triple_access; [by apply N.leb_le|]. apply triple_ret, Hn.
    intros Hin. by apply (proj1 (Forall_forall _ _) Hl) in Hin.
Qed.

(** ** The invariant *)

(** The two pools: of foreign boxes, and of validators. *)
Definition pool_begin (k : bool) (w : World) : N := if k then m_foreignDataBoxPoolBegin w else m_dataPtrValidatorPoolBegin w.
Definition pool_end (k : bool) (w : World) : N := if k then m_foreignDataBoxPoolEnd w else m_dataPtrValidatorPoolEnd w.
Definition set_pool (k : bool) : N → N → World → World := if k then set_foreignPool else set_validatorPool.
Definition stride (k : bool) : N := if k then 56 else 32.
Definition offset (k : bool) : N := if k then sizeof_Box else 0.

(** The next validator of a pool is being prepared; the program does not have it. *)
Definition is_head (w : World) (v : N) : Prop := ∃ k, pool_begin k w ≠ 0 ∧ v = pool_begin k w + offset k.

Definition in_block (w : World) (a n : N) : Prop := ∃ b s, (b, s) ∈ w_blocks w ∧ b ≤ a ∧ a + n ≤ b + s.

(** A pool: what is in [begin .. finish] has not been given out. *)
Record pool_ok (w : World) (begin finish : N) (k : bool) : Prop := {
  po_slots : ∃ i, 0 < i ∧ finish = begin + stride k * i;
  po_block : in_block w begin (finish - begin);
  po_head : is_Some (w_validators w !! (begin + offset k));
  po_validators v : is_Some (w_validators w !! v) → begin ≤ v → v < finish → v = begin + offset k;
  po_boxes b : is_Some (w_boxes w !! b) → begin ≤ b → finish ≤ b
}.

Definition validator_ok (w : World) (v : Validator) : Prop :=
  is_Some (w_boxes w !! v_targetBox v) ∧ v_rangeEnd v < size_mod ∧
  (v_rangeBegin v < v_rangeEnd v → in_range (w_regions w) (v_rangeBegin v) (v_rangeEnd v - v_rangeBegin v) = true) ∧ v_rangeBegin v < size_mod.

Record world_ok (w : World) : Prop := {
  wo_blocks a n : (a, n) ∈ w_blocks w → 0 < a ∧ a + n < size_mod;
  wo_disjoint a n b s : (a, n) ∈ w_blocks w → (b, s) ∈ w_blocks w → (a, n) = (b, s) ∨ a + n ≤ b ∨ b + s ≤ a;
  wo_regions a n : (a, n) ∈ w_regions w → in_block w a n;
  wo_validator v val : w_validators w !! v = Some val → is_head w v ∨ validator_ok w val;
  wo_validators v : is_Some (w_validators w !! v) → in_block w v 1;
  wo_boxes b : is_Some (w_boxes w !! b) → in_block w b 1;
  wo_pool k : pool_begin k w ≠ 0 → pool_ok w (pool_begin k w) (pool_end k w) k;
  wo_pools k : pool_begin k w ≠ 0 → pool_begin (negb k) w ≠ 0 →
    pool_end k w ≤ pool_begin (negb k) w ∨ pool_end (negb k) w ≤ pool_begin k w
}.

(** A pointer the program may have: its validator was given out. *)
Definition has_validator (w : World) (v : N) (val : Validator) : Prop :=
  w_validators w !! v = Some val ∧ ¬ is_head w v ∧ validator_ok w val.

Definition ptr_ok (w : World) (ptr : DataPtr) : Prop := p_p ptr < size_mod ∧ (p_validator ptr = 0 ∨ ∃ val, has_validator w (p_validator ptr) val).

(** Memory grows: what was there stays the same. *)
Record grows (w w' : World) : Prop := {
  gr_blocks : w_blocks w ⊆ w_blocks w';
  gr_regions : w_regions w ⊆ w_regions w';
  gr_bytes x : in_block w x 1 → w_bytes w' !! x = w_bytes w !! x;
  gr_boxes b box : w_boxes w !! b = Some box → w_boxes w' !! b = Some box;
  gr_validators v val : w_validators w !! v = Some val → is_head w v ∨ (w_validators w' !! v = Some val ∧ ¬ is_head w' v)
}.

Lemma is_head_dec w v : Decision (is_head w v).
Proof.
  destruct (decide (pool_begin true w ≠ 0 ∧ v = pool_begin true w + offset true)) as [H1|H1]; [left; by exists true|].
  destruct (decide (pool_begin false w ≠ 0 ∧ v = pool_begin false w + offset false)) as [H2|H2]; [left; by exists false|].
  right. by intros [ [] H].
Qed.

Lemma grows_refl w : grows w w.
Proof. split; try done. intros v val Hv. destruct (is_head_dec w v); [by left|by right]. Qed.

Lemma in_block_grows w w' a n : w_blocks w ⊆ w_blocks w' → in_block w a n → in_block w' a n.
Proof. intros Hb (b & s & Hin & H). exists b, s. auto. Qed.

Lemma grows_trans w1 w2 w3 : grows w1 w2 → grows w2 w3 → grows w1 w3.
Proof.
  intros [A1 A2 A3 A4 A5] [B1 B2 B3 B4 B5]. split.
  - set_solver.
  - set_solver.
  - intros x Hx. rewrite B3 by (by eapply in_block_grows). auto.
  - auto.
  - intros v val Hv. destruct (A5 v val Hv) as [Hh|[Hv2 Hn2] ]; [by left|right]. destruct (B5 v val Hv2) as [Hh|H]; [done|done].
Qed.

Lemma validator_ok_grows w w' val : w_regions w ⊆ w_regions w' → (∀ b, is_Some (w_boxes w !! b) → is_Some (w_boxes w' !! b)) →
  validator_ok w val → validator_ok w' val.
Proof.
  intros Hr Hb (H1 & H2 & H3 & H4). split; [auto|]. split; [done|]. split; [|done]. intros H. eapply in_range_mono; [exact Hr|auto].
Qed.

Lemma has_validator_grows w w' v val : grows w w' → has_validator w v val → has_validator w' v val.
Proof.
  intros G (H1 & H2 & H3). destruct (gr_validators _ _ G v val H1) as [Hh|[H4 H5] ]; [done|]. split; [done|]. split; [done|].
  eapply validator_ok_grows; [apply G| |done]. intros b [box Hb]. exists box. by apply (gr_boxes _ _ G).
Qed.

Lemma ptr_ok_grows w w' ptr : grows w w' → ptr_ok w ptr → ptr_ok w' ptr.
Proof. intros G [Hp [H|[val H] ] ]; (split; [done|]); [by left|right]. exists val. by eapply has_validator_grows. Qed.

Lemma contents_grows w w' a n : world_ok w → grows w w' → accessible w a n → contents w' a n = contents w a n.
Proof.
  intros W G [->|H]; [done|]. apply read_ext. intros x H1 H2. apply (gr_bytes _ _ G).
  apply in_range_spec in H as (b & s & Hin & H3 & H4). destruct (wo_regions _ W b s Hin) as (b' & s' & Hin' & H5 & H6).
  exists b', s'. split; [done|]. lia.
Qed.

Lemma accessible_grows w w' a n : grows w w' → accessible w a n → accessible w' a n.
Proof. intros G [->|H]; [by left|right]. eapply in_range_mono; [apply G|done]. Qed.

(** ** Allocation *)

Definition fresh (a size : N) (w : World) : Prop :=
  0 < a ∧ a + sizeof_DataBox + size < size_mod ∧ ∀ b s, (b, s) ∈ w_blocks w → a + sizeof_DataBox + size ≤ b ∨ b + s ≤ a.

Definition box_validator (a size : N) : Validator := mkValidator a a (a + sizeof_DataBox) (a + sizeof_DataBox + size).

(** The world with a new data box at [a]. *)
Definition new_box (a : N) (t : type) (size flags : N) (content : list ascii) (w : World) : World :=
  mkWorld (write (w_bytes w) (a + sizeof_DataBox) content) ((a, sizeof_DataBox + size) :: w_blocks w) ((a + sizeof_DataBox, size) :: w_regions w)
    (<[a := mkBox t flags 0 0]> (w_boxes w)) (<[a + sizeof_Box := box_validator a size]> (w_validators w))
    (m_dataPtrValidatorPoolBegin w) (m_dataPtrValidatorPoolEnd w) (m_foreignDataBoxPoolBegin w) (m_foreignDataBoxPoolEnd w).

Lemma fresh_block a size w b n : fresh a size w → in_block w b n → a + sizeof_DataBox + size ≤ b ∨ b + n ≤ a.
Proof. intros (_ & _ & F) (b' & s & Hin & H1 & H2). destruct (F b' s Hin); lia. Qed.

Lemma triple_tryAllocate t size flags init w (Q : DataPtr → World → Prop) : world_ok w → size + sizeof_DataBox < size_mod →
  (init = 0 ∨ accessible w init size) → Q nullDataPtr w →
  (∀ a, fresh a size w → let content := if init =? 0 then replicate (N.to_nat size) Ascii.zero else contents w init size in
    Q (mkPtr (a + sizeof_DataBox) (a + sizeof_Box)) (new_box a t size flags content w)) →
  triple (tryAllocate t size flags init) w Q.
Proof.
  intros W Hs Hi Q0 Q1. unfold tryAllocate, allocate_box. apply triple_bind, triple_bind, triple_get.
  rewrite add64_small by (unfold sizeof_DataBox in *; lia). destruct (mem_allocate (w_blocks w) (sizeof_DataBox + size)) as [a|] eqn:Ha;
    [|by apply triple_ret, triple_ret].
  apply mem_allocate_law in Ha as (F1 & F2 & F3). apply triple_bind, triple_modify, triple_ret.
  rewrite (proj2 (N.leb_le sizeof_DataBox (sizeof_DataBox + size))) by lia. rewrite N.add_sub_swap, N.sub_diag, N.add_0_l by lia.
  assert (F : fresh a size w). { split; [done|]. split; [lia|]. intros b s Hin. destruct (F3 b s Hin); lia. }
  set (w1 := set_memory _ _ w). assert (Hacc : accessible w1 (a + sizeof_DataBox) size).
  { right. apply in_range_spec. exists (a + sizeof_DataBox), size. split; [left|lia]. }
  apply triple_bind. cbn beta.
  assert (Hend : add64 (a + sizeof_DataBox) size = a + sizeof_DataBox + size) by (apply add64_small; lia). rewrite Hend.
  specialize (Q1 a F). cbn zeta in Q1. destruct (N.eqb_spec init 0) as [->|Hne].
  - apply triple_memset; [done|]. apply triple_bind, triple_modify, triple_bind, triple_modify, triple_ret. exact Q1.
  - destruct Hi as [->|Hi]; [done|]. apply triple_memcpy; [|done| |].
    + destruct Hi as [->|Hi]; [by left|right]. eapply in_range_mono; [|exact Hi]. cbn. set_solver.
    + destruct Hi as [->|Hi]; [by left|right]. apply in_range_spec in Hi as (b & s & Hin & H1 & H2).
      destruct (fresh_block a size w b s F (wo_regions _ W b s Hin)); lia.
    + apply triple_bind, triple_modify, triple_bind, triple_modify, triple_ret. exact Q1.
Qed.

Lemma is_head_block w v : world_ok w → is_head w v → in_block w v 1.
Proof. intros W (k & Hk & ->). apply (wo_validators _ W), (po_head _ _ _ _ (wo_pool _ W k Hk)). Qed.

Lemma slot_inside begin finish k : (∃ i, 0 < i ∧ finish = begin + stride k * i) → begin + stride k ≤ finish.
Proof. intros (i & Hi & ->). assert (stride k * 1 ≤ stride k * i) by (apply N.mul_le_mono_l; lia). lia. Qed.

Lemma offset_stride k : offset k < stride k.
Proof. by destruct k. Qed.

(** A box outside a pool leaves it alone. *)
Lemma pool_ok_new_box a t size flags content w begin finish k : fresh a size w →
  pool_ok w begin finish k → pool_ok (new_box a t size flags content w) begin finish k.
Proof.
  intros F [P1 P2 P3 P4 P5]. pose proof (fresh_block a size w _ _ F P2) as Hd. pose proof (slot_inside _ _ _ P1). pose proof (offset_stride k).
  unfold sizeof_DataBox, sizeof_Box in *. split; cbn.
  - done.
  - destruct P2 as (b & s & Hin & H1 & H2). exists b, s. split; [by right|done].
  - rewrite lookup_insert_is_Some. destruct (decide (a + sizeof_Box = begin + offset k)); [by left|by right].
  - intros v Hv H1 H2. unfold sizeof_Box in *. rewrite lookup_insert_is_Some in Hv. destruct Hv as [<-|[_ Hv] ]; [lia|by apply P4].
  - intros b Hb H1. rewrite lookup_insert_is_Some in Hb. destruct Hb as [<-|[_ Hb] ]; [lia|by apply P5].
Qed.

Lemma new_box_ok a t size flags content w : world_ok w → fresh a size w → N.of_nat (length content) = size →
  let w' := new_box a t size flags content w in world_ok w' ∧ grows w w' ∧ has_validator w' (a + sizeof_Box) (box_validator a size).
Proof.
  intros W F Hlen w'. pose proof F as (F1 & F2 & F3). pose proof W as [W1 W2 W3 W4 W5 W6 W7 W8].
  assert (Hnot : ∀ x, in_block w x 1 → x < a ∨ a + sizeof_DataBox + size ≤ x) by (intros x Hx; destruct (fresh_block _ _ _ _ _ F Hx); lia).
  assert (Hhead : ∀ v, is_head w' v ↔ is_head w v) by done.
  assert (Hnh : ¬ is_head w' (a + sizeof_Box)).
  { intros Hh. apply Hhead, (is_head_block w _ W), Hnot in Hh. unfold sizeof_Box, sizeof_DataBox in *. lia. }
  assert (Hvo : validator_ok w' (box_validator a size)).
  { split; [cbn; by rewrite lookup_insert_eq|]. split; [cbn; lia|]. split; [|cbn; lia]. intros _. cbn [box_validator v_rangeBegin v_rangeEnd].
    apply in_range_spec. exists (a + sizeof_DataBox), size. split; [left|lia]. }
  assert (Hr : w_regions w ⊆ w_regions w') by (cbn; set_solver).
  assert (Hb : ∀ b, is_Some (w_boxes w !! b) → is_Some (w_boxes w' !! b)).
  { intros b Hb. cbn. rewrite lookup_insert_is_Some. destruct (decide (a = b)); [by left|by right]. }
  assert (Hblk : ∀ x n, in_block w x n → in_block w' x n) by (intros x n; apply in_block_grows; cbn; set_solver).
  assert (Hself : ∀ x, a ≤ x → x < a + sizeof_DataBox → in_block w' x 1).
  { intros x H1 H2. exists a, (sizeof_DataBox + size). split; [left|lia]. }
  split; [|split].
  - split; cbn.
    + intros b n [ [= -> ->]|Hin]%elem_of_cons; [lia|by apply W1].
    + intros b n b' s [ [= -> ->]|H1]%elem_of_cons [ [= -> ->]|H2]%elem_of_cons; [by left|right..|by apply W2].
      * destruct (F3 b' s H2); lia.
      * destruct (F3 b n H1); lia.
    + intros b n [ [= -> ->]|Hin]%elem_of_cons; [|by apply Hblk, W3]. exists a, (sizeof_DataBox + size). split; [left|lia].
    + intros v val. rewrite lookup_insert_Some. intros [ [<- <-]|[Hne Hv] ]; [by right|].
      destruct (W4 v val Hv) as [Hh|Ho]; [left; by apply Hhead|right]. by eapply validator_ok_grows.
    + intros v. rewrite lookup_insert_is_Some. intros [<-|[_ Hv] ]; [|by apply Hblk, W5]. apply Hself; unfold sizeof_Box, sizeof_DataBox; lia.
    + intros b. rewrite lookup_insert_is_Some. intros [<-|[_ Hv] ]; [|by apply Hblk, W6]. apply Hself; unfold sizeof_DataBox; lia.
    + intros k H. apply pool_ok_new_box; [done|]. by apply (W7 k).
    + done.
  - split; cbn; [set_solver|set_solver| | |].
    + intros x Hx. rewrite write_lookup, decide_False; [done|]. apply Hnot in Hx. lia.
    + intros b box Hbx. rewrite lookup_insert_ne; [done|]. intros <-. destruct (Hnot a (W6 _ ltac:(by eexists))); unfold sizeof_DataBox in *; lia.
    + intros v val Hv. destruct (grows_refl w). destruct (gr_validators0 v val Hv) as [|[_ Hn] ]; [by left|right]. split; [|done].
      rewrite lookup_insert_ne; [done|]. intros <-. destruct (Hnot (a + sizeof_Box) (W5 _ ltac:(by eexists))); unfold sizeof_Box, sizeof_DataBox in *; lia.
  - split; [cbn; by rewrite lookup_insert_eq|done].
Qed.
End inv.
