(* ===== verification/DataPtrPool.v ===== *)
(** * Data pointers: the pools

    Validators and foreign boxes are slots of pools: giving one out, or making a new pool, keeps
    the invariant, and what is given out was not given out before. *)

From Stdlib Require Import Ascii.
From S2P Require Import Prelude Memory DataPtr DataPtrInv.

Open Scope N_scope.

Section pool.
Context `{ML : MallocLaws, TL : DataTypesLaws}.

(** ** Pools *)

(** What a pool does not share with the rest. *)
Lemma pool_ok_other w w' begin finish k : w_blocks w ⊆ w_blocks w' → pool_ok w begin finish k →
  (∀ v, is_Some (w_validators w' !! v) → is_Some (w_validators w !! v) ∨ v < begin ∨ finish ≤ v) →
  (∀ v, is_Some (w_validators w !! v) → is_Some (w_validators w' !! v)) →
  (∀ b, is_Some (w_boxes w' !! b) → is_Some (w_boxes w !! b) ∨ b < begin ∨ finish ≤ b) → pool_ok w' begin finish k.
Proof.
  intros Hb [P1 P2 P3 P4 P5] Hv Hv' Hbx. split; [done|by eapply in_block_grows|by apply Hv'| |].
  - intros v H1 H2 H3. destruct (Hv v H1) as [H|H]; [by apply P4|lia].
  - intros b H1 H2. destruct (Hbx b H1) as [H|H]; [by apply P5|lia].
Qed.

(** The first slot of the pool [k] is given out, as the validator [val] and, for a foreign box, [box]; the next one is prepared with [nv]. *)
Definition advance (k : bool) (nv : Validator) (w : World) : World :=
  let next := pool_begin k w + stride k in
  if next <? pool_end k w then set_pool k next (pool_end k w) (set_validators (<[next + offset k := nv]> (w_validators w)) w)
  else set_pool k 0 0 w.

Definition give (k : bool) (begin : N) (val : Validator) (box : Box) (w : World) : World :=
  set_validators (<[begin + offset k := val]> (w_validators w)) (if k then set_boxes (<[begin := box]> (w_boxes w)) w else w).

Lemma advance_fields k nv w : w_bytes (advance k nv w) = w_bytes w ∧ w_blocks (advance k nv w) = w_blocks w ∧
  w_regions (advance k nv w) = w_regions w ∧ w_boxes (advance k nv w) = w_boxes w ∧
  pool_begin (negb k) (advance k nv w) = pool_begin (negb k) w ∧ pool_end (negb k) (advance k nv w) = pool_end (negb k) w ∧
  (∀ v, is_Some (w_validators w !! v) → is_Some (w_validators (advance k nv w) !! v)) ∧
  (∀ v x, w_validators (advance k nv w) !! v = Some x → w_validators w !! v = Some x ∨
    (v = pool_begin k w + stride k + offset k ∧ pool_begin k w + stride k < pool_end k w)).
Proof.
  assert (H1 : ∀ v (x : Validator), is_Some (w_validators w !! v) → is_Some (<[pool_begin k w + stride k + offset k := x]> (w_validators w) !! v)).
  { intros v x Hv. rewrite lookup_insert_is_Some. destruct (decide (pool_begin k w + stride k + offset k = v)); [by left|by right]. }
  assert (H2 : ∀ v (y x : Validator), <[pool_begin k w + stride k + offset k := y]> (w_validators w) !! v = Some x →
    w_validators w !! v = Some x ∨ v = pool_begin k w + stride k + offset k).
  { intros v y x. rewrite lookup_insert_Some. intros [ [<- _]|[_ Hv] ]; [by right|by left]. }
  unfold advance. destruct (N.ltb_spec (pool_begin k w + stride k) (pool_end k w)); [|destruct k; cbn; split_and!; auto].
  destruct k; cbn; split_and!; auto; intros v x Hv; destruct (H2 v _ x Hv); auto.
Qed.

Lemma advance_pool k nv w : pool_ok w (pool_begin k w) (pool_end k w) k → pool_begin k w ≠ 0 →
  let w' := advance k nv w in pool_begin k w' ≠ 0 → pool_begin k w' = pool_begin k w + stride k ∧ pool_end k w' = pool_end k w ∧
    pool_ok w' (pool_begin k w') (pool_end k w') k.
Proof.
  intros [ (i & Hi & Hf) P2 P3 P4 P5] Hb w'. unfold w', advance. destruct (N.ltb_spec (pool_begin k w + stride k) (pool_end k w)) as [Hlt|]; [|by destruct k].
  intros _. pose proof (offset_stride k) as Ho. split; [by destruct k|]. split; [by destruct k|].
  assert (Hi2 : 1 < i). { destruct (decide (i = 1)) as [->|]; [rewrite N.mul_1_r in Hf; lia|lia]. }
  assert (Hin : in_block w (pool_begin k w + stride k) (pool_end k w - (pool_begin k w + stride k))).
  { destruct P2 as (b & s & Hin & H1 & H2). exists b, s. split; [done|lia]. }
  assert (Hfin : pool_end k w = pool_begin k w + stride k + stride k * (i - 1)) by (rewrite Hf, N.mul_sub_distr_l; destruct k; cbn [stride]; lia).
  set (vs := <[pool_begin k w + stride k + offset k := nv]> (w_validators w)).
  assert (H4 : ∀ v, is_Some (vs !! v) → pool_begin k w + stride k ≤ v → v < pool_end k w → v = pool_begin k w + stride k + offset k).
  { intros v. unfold vs. rewrite lookup_insert_is_Some. intros [<-|[_ Hv] ]; [done|]. intros H1 H2. pose proof (P4 v Hv ltac:(lia) H2). lia. }
  assert (H5 : ∀ b, is_Some (w_boxes w !! b) → pool_begin k w + stride k ≤ b → pool_end k w ≤ b) by (intros b Hbx H1; apply P5; [done|lia]).
  assert (H3 : is_Some (vs !! (pool_begin k w + stride k + offset k))) by (unfold vs; by rewrite lookup_insert_eq).
  destruct k; split; try done; exists (i - 1); split; (done || lia).
Qed.

Lemma give_ok k nv val box w : world_ok w → pool_begin k w ≠ 0 →
  let w1 := advance k nv w in let w2 := give k (pool_begin k w) val box w1 in validator_ok w2 val →
  world_ok w2 ∧ grows w w2 ∧ has_validator w2 (pool_begin k w + offset k) val.
Proof.
  intros W Hk w1 w2 Hval. pose proof W as [W1 W2 W3 W4 W5 W6 W7 W8]. pose proof (W7 k Hk) as P. pose proof P as [P1 P2 P3 P4 P5].
  pose proof (slot_inside _ _ _ P1) as Hslot. pose proof (offset_stride k) as Ho.
  destruct (advance_fields k nv w) as (A1 & A2 & A3 & A4 & A5 & A6 & A7 & A8). fold w1 in A1, A2, A3, A4, A5, A6, A7, A8.
  pose proof (advance_pool k nv w P Hk) as Hadv. cbn zeta in Hadv. fold w1 in Hadv.
  assert (G : w_bytes w2 = w_bytes w ∧ w_blocks w2 = w_blocks w ∧ w_regions w2 = w_regions w ∧
    w_boxes w2 = (if k then <[pool_begin k w := box]> (w_boxes w) else w_boxes w) ∧
    w_validators w2 = <[pool_begin k w + offset k := val]> (w_validators w1) ∧
    (∀ k', pool_begin k' w2 = pool_begin k' w1 ∧ pool_end k' w2 = pool_end k' w1)).
  { unfold w2, give. destruct k; cbn; rewrite ?A1, ?A2, ?A3, ?A4; split_and!; try done; by intros []. }
  destruct G as (G1 & G2 & G3 & G4 & G5 & G6).
  assert (Hnext : pool_begin k w + stride k < pool_end k w → pool_begin k w2 = pool_begin k w + stride k).
  { intros H. destruct (G6 k) as [-> _]. unfold w1, advance. rewrite (proj2 (N.ltb_lt _ _) H). by destruct k. }
  assert (Hsame : ∀ v, v ≠ pool_begin k w + offset k → v ≠ pool_begin k w + stride k + offset k ∨ pool_end k w ≤ pool_begin k w + stride k →
    w_validators w2 !! v = w_validators w !! v).
  { intros v H1 H2. rewrite G5, lookup_insert_ne by done. unfold w1, advance.
    destruct (N.ltb_spec (pool_begin k w + stride k) (pool_end k w)); [|by destruct k].
    assert (pool_begin k w + stride k + offset k ≠ v) by (destruct H2; [congruence|lia]). destruct k; cbn; by rewrite lookup_insert_ne. }
  clearbody w1 w2.
  (* the new keys are slots of the pool *)
  assert (Hv : ∀ v x, w_validators w2 !! v = Some x → (v = pool_begin k w + offset k ∧ x = val) ∨ w_validators w !! v = Some x ∨
    (v = pool_begin k w + stride k + offset k ∧ pool_begin k w + stride k < pool_end k w)).
  { intros v x. rewrite G5, lookup_insert_Some. intros [ [<- <-]|[_ Hv] ]; [by left|right]. by apply A8. }
  assert (Hkeys : ∀ v, is_Some (w_validators w2 !! v) → is_Some (w_validators w !! v) ∨ (pool_begin k w ≤ v ∧ v < pool_end k w)).
  { intros v [x Hx]. destruct (Hv v x Hx) as [ [-> _]|[H|[-> H] ] ]; [right; lia|left; by eexists|right].
    destruct P1 as (i & Hi & Hf). assert (stride k * 2 ≤ stride k * i); [apply N.mul_le_mono_l|lia].
    destruct (decide (i = 1)) as [->|]; [rewrite N.mul_1_r in Hf; lia|lia]. }
  assert (Hmono : ∀ v, is_Some (w_validators w !! v) → is_Some (w_validators w2 !! v)).
  { intros v Hs. rewrite G5, lookup_insert_is_Some. destruct (decide (pool_begin k w + offset k = v)); [by left|right; by auto]. }
  assert (Hbx : ∀ b, is_Some (w_boxes w2 !! b) → is_Some (w_boxes w !! b) ∨ b = pool_begin k w).
  { intros b. rewrite G4. destruct k; [|by left]. rewrite lookup_insert_is_Some. intros [<-|[_ H] ]; [by right|by left]. }
  assert (Hbm : ∀ b x, w_boxes w !! b = Some x → w_boxes w2 !! b = Some x).
  { intros b x Hb. rewrite G4. destruct k; [|done]. rewrite lookup_insert_ne; [done|]. intros <-.
    pose proof (P5 (pool_begin true w) ltac:(by eexists)). lia. }
  assert (Hblk : ∀ a n, in_block w a n ↔ in_block w2 a n) by (intros a n; unfold in_block; by rewrite G2).
  assert (Hother : pool_begin (negb k) w2 ≠ 0 → pool_ok w2 (pool_begin (negb k) w2) (pool_end (negb k) w2) (negb k)).
  { destruct (G6 (negb k)) as [-> ->]. rewrite A5, A6. intros Hn. pose proof (W8 k Hk Hn) as Hd. pose proof (W7 _ Hn) as Pn.
    pose proof (slot_inside _ _ _ (po_slots _ _ _ _ Pn)). assert (0 < stride (negb k)) by (by destruct k).
    apply (pool_ok_other w); [by rewrite G2|done| |done|].
    - intros v Hs. destruct (Hkeys v Hs) as [|H1]; [by left|right]. lia.
    - intros b Hs. destruct (Hbx b Hs) as [|H1]; [by left|right]. lia. }
  assert (Hnewpool : pool_begin k w2 ≠ 0 → pool_begin k w2 = pool_begin k w + stride k ∧ pool_end k w2 = pool_end k w ∧
    pool_ok w2 (pool_begin k w2) (pool_end k w2) k).
  { destruct (G6 k) as [-> ->]. intros Hn. destruct (Hadv Hn) as (E1 & E2 & Pn). split; [done|]. split; [done|].
    apply (pool_ok_other w1); [by rewrite G2, A2|done| | |].
    - intros v. rewrite G5, lookup_insert_is_Some. intros [<-|[_ H] ]; [right; lia|by left].
    - intros v H. rewrite G5, lookup_insert_is_Some. destruct (decide (pool_begin k w + offset k = v)); [by left|by right].
    - intros b Hs. rewrite A4. destruct (Hbx b Hs) as [|H]; [by left|right; lia]. }
  assert (Hnh : ∀ v, is_head w2 v → v = pool_begin k w + stride k + offset k ∨ ∃ k', k' ≠ k ∧ pool_begin k' w ≠ 0 ∧ v = pool_begin k' w + offset k').
  { intros v (k' & Hk' & ->). destruct (decide (k' = k)) as [->|Hne]; [left; by destruct (Hnewpool Hk') as (-> & _)|right]. exists k'.
    assert (k' = negb k) as -> by (by destruct k, k'). destruct (G6 (negb k)) as [E _]. rewrite E, A5 in *. done. }
  assert (Hvo : ∀ x, validator_ok w x → validator_ok w2 x).
  { intros x. apply validator_ok_grows; [by rewrite G3|]. intros b [y Hy]. exists y. by apply Hbm. }
  assert (Hslot2 : pool_begin k w + stride k < pool_end k w → pool_begin k w + stride k + offset k < pool_end k w).
  { intros H. destruct P1 as (i & Hi & Hf). assert (stride k * 2 ≤ stride k * i); [apply N.mul_le_mono_l|lia].
    destruct (decide (i = 1)) as [->|]; [rewrite N.mul_1_r in Hf; lia|lia]. }
  assert (Hotherhead : ∀ v, pool_begin k w ≤ v → v < pool_end k w → ∀ k', k' ≠ k → pool_begin k' w ≠ 0 → v ≠ pool_begin k' w + offset k').
  { intros v H1 H2 k' Hne Hn ->. assert (k' = negb k) as -> by (by destruct k, k'). pose proof (W8 k Hk Hn) as Hd.
    pose proof (slot_inside _ _ _ (po_slots _ _ _ _ (W7 _ Hn))). pose proof (offset_stride (negb k)). lia. }
  assert (Hinpool : ∀ v, pool_begin k w ≤ v → v < pool_end k w → in_block w2 v 1).
  { intros v H1 H2. apply Hblk. destruct P2 as (b & s & Hin & H3 & H4). exists b, s. split; [done|lia]. }
  split; [|split].
  - split; rewrite ?G2, ?G3.
    + done.
    + done.
    + intros a n Hin. apply Hblk. by apply W3.
    + intros v x Hx. destruct (decide (v = pool_begin k w + offset k)) as [->|Hne].
      { right. rewrite G5, lookup_insert_eq in Hx. by injection Hx as <-. }
      destruct (Hv v x Hx) as [ [-> _]|[H|[-> H] ] ]; [done| |left; exists k; rewrite (Hnext H); split; [lia|done] ].
      destruct (W4 v x H) as [ (k' & Hk' & ->)|Hok]; [|right; by apply Hvo]. left. destruct (decide (k' = k)) as [->|Hne']; [done|].
      assert (k' = negb k) as -> by (by destruct k, k'). exists (negb k). destruct (G6 (negb k)) as [-> _]. by rewrite A5.
    + intros v Hs. destruct (Hkeys v Hs) as [H|[H1 H2] ]; [by apply Hblk, W5|by apply Hinpool].
    + intros b Hs. destruct (Hbx b Hs) as [H| ->]; [by apply Hblk, W6|]. apply Hinpool; [done|]. destruct k; cbn in *; lia.
    + intros k' Hk'. destruct (decide (k' = k)) as [->|Hne']; [by apply Hnewpool|]. assert (k' = negb k) as -> by (by destruct k, k'). by apply Hother.
    + assert (Hd : pool_begin k w2 ≠ 0 → pool_begin (negb k) w2 ≠ 0 → pool_end k w2 ≤ pool_begin (negb k) w2 ∨ pool_end (negb k) w2 ≤ pool_begin k w2).
      { intros H1 H2. destruct (Hnewpool H1) as (E1 & E2 & _). destruct (G6 (negb k)) as [E3 E4]. rewrite E1, E2, E3, E4, A5, A6.
        rewrite E3, A5 in H2. destruct (W8 k Hk H2); lia. }
      intros k' H1 H2. destruct (decide (k' = k)) as [->|Hne']; [by apply Hd|]. assert (k' = negb k) as -> by (by destruct k, k').
      rewrite negb_involutive in *. destruct (Hd H2 H1); [by right|by left].
  - split; rewrite ?G2, ?G3; try done.
    + intros x _. by rewrite G1.
    + intros v x Hx. destruct (is_head_dec w v) as [|Hn]; [by left|right].
      assert (Hv1 : v ≠ pool_begin k w + offset k) by (intros ->; apply Hn; by exists k).
      assert (Hv2 : v ≠ pool_begin k w + stride k + offset k ∨ pool_end k w ≤ pool_begin k w + stride k).
      { destruct (N.lt_ge_cases (pool_begin k w + stride k) (pool_end k w)) as [H|]; [left|by right]. intros ->.
        apply Hv1, P4; [by eexists|lia|by apply Hslot2]. }
      split; [by rewrite Hsame|]. intros Hh. destruct Hh as (k' & Hk' & E). destruct (decide (k' = k)) as [->|Hne].
      * destruct (Hnewpool Hk') as (E1 & E2 & Pn). pose proof (slot_inside _ _ _ (po_slots _ _ _ _ Pn)). rewrite E1 in E. destruct Hv2; [done|lia].
      * assert (k' = negb k) as -> by (by destruct k, k'). destruct (G6 (negb k)) as [E1 _]. rewrite E1, A5 in E, Hk'. apply Hn. by exists (negb k).
  - split; [by rewrite G5, lookup_insert_eq|]. split; [|done]. intros Hh. apply Hnh in Hh as [E|(k' & H1 & H2 & E)].
    + destruct k; cbn in *; lia.
    + by apply (Hotherhead (pool_begin k w + offset k) ltac:(lia) ltac:(lia) k').
Qed.

(** A new pool in a new box, with its first slot prepared. *)
Definition install (k : bool) (a size : N) (v0 : Validator) (w : World) : World :=
  set_pool k (a + sizeof_DataBox) (a + sizeof_DataBox + size) (set_validators (<[a + sizeof_DataBox + offset k := v0]> (w_validators w)) w).

Lemma install_ok k a t size flags content v0 w : world_ok w → pool_begin k w = 0 → fresh a size w → N.of_nat (length content) = size →
  (∃ i, 0 < i ∧ size = stride k * i) →
  let w' := install k a size v0 (new_box a t size flags content w) in world_ok w' ∧ grows w w' ∧ pool_begin k w' ≠ 0.
Proof.
  intros W Hk F Hlen Hi w'. destruct (new_box_ok a t size flags content w W F Hlen) as (W1 & G1 & _).
  set (w1 := new_box a t size flags content w) in *. pose proof (offset_stride k) as Ho. destruct Hi as (i & Hi & Hsz). pose proof (proj1 F) as Ha.
  assert (stride k * 1 ≤ stride k * i) by (apply N.mul_le_mono_l; lia).
  assert (Hnot : ∀ x, in_block w x 1 → x < a ∨ a + sizeof_DataBox + size ≤ x) by (intros x Hx; destruct (fresh_block _ _ _ _ _ F Hx); lia).
  assert (E : w_bytes w' = w_bytes w1 ∧ w_blocks w' = w_blocks w1 ∧ w_regions w' = w_regions w1 ∧ w_boxes w' = w_boxes w1 ∧
    w_validators w' = <[a + sizeof_DataBox + offset k := v0]> (w_validators w1) ∧ pool_begin k w' = a + sizeof_DataBox ∧
    pool_end k w' = a + sizeof_DataBox + size ∧ pool_begin (negb k) w' = pool_begin (negb k) w ∧ pool_end (negb k) w' = pool_end (negb k) w)
    by (unfold w', install; destruct k; cbn; by split_and!).
  destruct E as (E1 & E2 & E3 & E4 & E5 & E6 & E7 & E8 & E9). clearbody w'.
  assert (Hself : ∀ n, a + sizeof_DataBox ≤ n → n < a + sizeof_DataBox + size → in_block w' n 1).
  { intros n H1 H2. exists a, (sizeof_DataBox + size). rewrite E2. split; [left|lia]. }
  assert (Hblk : ∀ x n, in_block w1 x n → in_block w' x n) by (intros x n; unfold in_block; by rewrite E2).
  assert (Hv1 : ∀ v, is_Some (w_validators w1 !! v) → v < a + sizeof_DataBox ∨ a + sizeof_DataBox + size ≤ v).
  { intros v. cbn. rewrite lookup_insert_is_Some. unfold sizeof_Box, sizeof_DataBox. intros [<-|[_ Hv] ]; [lia|].
    destruct (Hnot v (wo_validators _ W v Hv)); unfold sizeof_DataBox in *; lia. }
  assert (Hb1 : ∀ b, is_Some (w_boxes w1 !! b) → b < a + sizeof_DataBox ∨ a + sizeof_DataBox + size ≤ b).
  { intros b. cbn. rewrite lookup_insert_is_Some. unfold sizeof_DataBox. intros [<-|[_ Hv] ]; [lia|].
    destruct (Hnot b (wo_boxes _ W b Hv)); unfold sizeof_DataBox in *; lia. }
  assert (Hd : pool_begin (negb k) w ≠ 0 → pool_end (negb k) w ≤ a ∨ a + sizeof_DataBox + size ≤ pool_begin (negb k) w).
  { intros Hn. pose proof (wo_pool _ W _ Hn) as P. pose proof (slot_inside _ _ _ (po_slots _ _ _ _ P)).
    destruct (fresh_block _ _ _ _ _ F (po_block _ _ _ _ P)); lia. }
  assert (Hold : ∀ v, is_head w v → is_head w' v).
  { intros v (k' & Hn & ->). destruct (decide (k' = k)) as [->|Hne]; [done|]. assert (k' = negb k) as -> by (by destruct k, k').
    exists (negb k). by rewrite E8. }
  assert (Hnew : ∀ v, is_head w' v → v = a + sizeof_DataBox + offset k ∨ is_head w v).
  { intros v (k' & Hn & ->). destruct (decide (k' = k)) as [->|Hne]; [left; by rewrite E6|]. assert (k' = negb k) as -> by (by destruct k, k').
    right. exists (negb k). by rewrite E8 in *. }
  pose proof W1 as [U1 U2 U3 U4 U5 U6 U7 U8]. split; [|split].
  - split; rewrite ?E2, ?E3.
    + done.
    + done.
    + intros b n Hin. by apply Hblk, U3.
    + intros v x. rewrite E5, lookup_insert_Some. intros [ [<- <-]|[Hne Hx] ]; [left; exists k; rewrite E6; split; [lia|done]|].
      destruct (U4 v x Hx) as [Hh|(H1 & H2 & H3 & H4)]; [left; by apply Hold|right]. split; [by rewrite E4|]. split; [done|]. split; [by rewrite E3|done].
    + intros v. rewrite E5, lookup_insert_is_Some. intros [<-|[_ H1] ]; [apply Hself; lia|by apply Hblk, U5].
    + intros b. rewrite E4. intros Hb. by apply Hblk, U6.
    + intros k' Hk'. destruct (decide (k' = k)) as [->|Hne].
      * rewrite E6, E7. split.
        -- exists i. by rewrite Hsz.
        -- exists a, (sizeof_DataBox + size). rewrite E2. split; [left|lia].
        -- by rewrite E5, lookup_insert_eq.
        -- intros v. rewrite E5, lookup_insert_is_Some. intros [<-|[_ Hs] ] H2 H3; [done|]. destruct (Hv1 v Hs); lia.
        -- intros b. rewrite E4. intros H1 H2. destruct (Hb1 b H1); lia.
      * assert (k' = negb k) as -> by (by destruct k, k'). rewrite E8, E9 in *. assert (Hk1 : pool_begin (negb k) w1 ≠ 0) by (by destruct k).
        assert (P : pool_ok w1 (pool_begin (negb k) w) (pool_end (negb k) w) (negb k)) by (pose proof (U7 _ Hk1); by destruct k).
        pose proof (slot_inside _ _ _ (po_slots _ _ _ _ P)). assert (0 < stride (negb k)) by (by destruct k). specialize (Hd Hk').
        apply (pool_ok_other w1); [by rewrite E2|done| | |].
        -- intros v. rewrite E5, lookup_insert_is_Some. intros [<-|[_ Hs] ]; [right; lia|by left].
        -- intros v Hs. rewrite E5, lookup_insert_is_Some. destruct (decide (a + sizeof_DataBox + offset k = v)); [by left|by right].
        -- intros b. rewrite E4. by left.
    + assert (Hdd : pool_begin (negb k) w ≠ 0 → a + sizeof_DataBox + size ≤ pool_begin (negb k) w ∨ pool_end (negb k) w ≤ a + sizeof_DataBox).
      { intros Hn. destruct (Hd Hn); [right; lia|by left]. }
      intros k' H1 H2. destruct (decide (k' = k)) as [->|Hne]; [rewrite E6, E7, E8, E9 in *; by apply Hdd|].
      assert (k' = negb k) as -> by (by destruct k, k'). rewrite negb_involutive in *. rewrite E6, E7, E8, E9 in *. destruct (Hdd H1); [by right|by left].
  - eapply grows_trans; [exact G1|]. split; rewrite ?E2, ?E3; try done; [by intros x _; rewrite E1|by rewrite E4|].
    intros v x Hx. destruct (is_head_dec w1 v) as [|Hn]; [by left|right]. assert (Hs : is_Some (w_validators w1 !! v)) by (by eexists).
    split; [rewrite E5, lookup_insert_ne; [done|]|].
    + intros <-. destruct (Hv1 _ Hs); lia.
    + intros Hh. destruct (Hnew v Hh) as [->|(k' & Hk' & ->)]; [destruct (Hv1 _ Hs); lia|]. apply Hn. by exists k'.
  - rewrite E6. lia.
Qed.
(** ** Validators and foreign boxes *)

Definition range_ok (w : World) (b e : N) : Prop := b < e → in_range (w_regions w) b (e - b) = true.

Lemma range_ok_grows w w' b e : grows w w' → range_ok w b e → range_ok w' b e.
Proof. intros G H Hlt. eapply in_range_mono; [apply G|by apply H]. Qed.

(** The validator that is prepared as the next one. *)
Lemma upd_validatorBox_eq v b w : upd_validatorBox v b w =
  inl (tt, set_validators (<[v := v_set_validatorBox b (default (mkValidator 0 0 0 0) (w_validators w !! v))]> (w_validators w)) w).
Proof. done. Qed.

Definition prepared (b v : N) (w : World) : Validator := v_set_validatorBox b (default (mkValidator 0 0 0 0) (w_validators w !! v)).

Lemma triple_next k begin vb w (Q : unit → World → Prop) : begin = pool_begin k w → 
  Q tt (advance k (prepared vb (begin + stride k + offset k) w) w) →
  triple (if begin + stride k <? pool_end k w then
      _ ← upd_validatorBox (begin + stride k + offset k) vb; modify (set_pool k (begin + stride k) (pool_end k w))
    else modify (set_pool k 0 0)) w Q.
Proof. intros -> HQ. unfold advance, prepared in HQ. by destruct (_ <? _). Qed.

Lemma advance_head k nv w x : pool_begin k w ≠ 0 → w_validators w !! (pool_begin k w + offset k) = Some x →
  w_validators (advance k nv w) !! (pool_begin k w + offset k) = Some x.
Proof.
  intros Hk Hx. unfold advance. destruct (_ <? _); [|by destruct k]. assert (0 < stride k) by (by destruct k).
  destruct k; cbn in *; rewrite lookup_insert_ne; (done || lia).
Qed.

(** [val] may depend on the box of the validators of the pool. *)
Lemma give_result k nv val box w : world_ok w → pool_begin k w ≠ 0 → is_Some (w_boxes (give k (pool_begin k w) val box w) !! v_targetBox val) →
  v_rangeBegin val < size_mod → v_rangeEnd val < size_mod → range_ok w (v_rangeBegin val) (v_rangeEnd val) →
  let w2 := give k (pool_begin k w) val box (advance k nv w) in
  world_ok w2 ∧ grows w w2 ∧ has_validator w2 (pool_begin k w + offset k) val.
Proof.
  intros W Hk Hb Hlb Hlt Hr w2. apply give_ok; [done|done|]. destruct (advance_fields k nv w) as (A1 & A2 & A3 & A4 & _).
  split; [|split; [done|split; [|done] ] ].
  - unfold give in *. destruct k; cbn in *; by rewrite A4.
  - intros H. unfold give. destruct k; cbn; rewrite A3; by apply Hr.
Qed.

Lemma triple_allocateArray t count init size w (Q : DataPtr → World → Prop) : world_ok w → mul64 (getSize t) count = size →
  size + sizeof_DataBox < size_mod → (init = 0 ∨ accessible w init size) →
  (∀ a, fresh a size w → let content := if init =? 0 then replicate (N.to_nat size) Ascii.zero else contents w init size in
    Q (mkPtr (a + sizeof_DataBox) (a + sizeof_Box))
      (new_box a t size (N.lor BoxFlag_DynamicArray (N.lor BoxFlag_DataMark BoxFlag_WeakMark)) content w)) →
  triple (allocateArray t count init) w Q.
Proof.
  intros W <- Hs Hi HQ. unfold allocateArray, tryAllocateArray. apply triple_bind, triple_tryAllocate; [done|done|done|done|].
  intros a F content. unfold throw_if_null. cbn [p_p]. rewrite (proj2 (N.eqb_neq _ _)); [|pose proof (proj1 F); unfold sizeof_DataBox; lia].
  apply triple_ret. by apply HQ.
Qed.

(** The code of a new pool of [count] slots makes the world of [install] and [advance]. *)
Lemma new_pool_world k a v0 nv size val box w : stride k < size →
  let p := a + sizeof_DataBox in
  give k p val box (set_pool k (p + stride k) (p + size) (set_validators (<[p + stride k + offset k := nv]> (<[p + offset k := v0]> (w_validators w)))
    (set_validators (<[p + offset k := v0]> (w_validators w)) w))) = give k p val box (advance k nv (install k a size v0 w)).
Proof.
  intros Hs p. unfold p, advance, install. destruct k; cbn [pool_begin pool_end set_pool m_foreignDataBoxPoolBegin m_foreignDataBoxPoolEnd
    m_dataPtrValidatorPoolBegin m_dataPtrValidatorPoolEnd set_foreignPool set_validatorPool stride offset]; by rewrite (proj2 (N.ltb_lt _ _)) by (cbn in *; lia).
Qed.

Lemma triple_createDataPtrValidator box b n w (Q : N → World → Prop) : world_ok w → is_Some (w_boxes w !! box) → b < size_mod → range_ok w b (add64 b n) →
  (∀ v w' vb, world_ok w' → grows w w' → has_validator w' v (mkValidator vb box b (add64 b n)) → (w_validators w !! v = None ∨ is_head w v) → Q v w') →
  triple (createDataPtrValidator box b n) w Q.
Proof.
  intros W Hbox Hlb Hr HQ. unfold createDataPtrValidator. apply triple_bind, triple_get, triple_bind, triple_get, triple_bind.
  destruct (N.eqb_spec (m_dataPtrValidatorPoolBegin w) 0) as [Hz|Hz]; cbn [negb].
  - apply triple_bind. apply (triple_allocateArray _ _ _ 1024); [done|by rewrite size_validator|done|by left|]. intros a F content.
    set (w1 := new_box a type_validator 1024 _ content w). cbn [p_p p_validator].
    apply triple_bind, (triple_get_validator _ (box_validator a 1024)); [apply lookup_insert_eq|].
    apply triple_bind. unfold upd_validatorBox at 1. apply triple_modify, triple_bind, triple_bind. unfold upd_validatorBox at 1. apply triple_modify, triple_modify.
    apply triple_ret. cbn [box_validator v_validatorBox v_rangeEnd].
    set (v0 := v_set_validatorBox a (default _ (w_validators w1 !! (a + sizeof_DataBox)))).
    set (nv := v_set_validatorBox a _). apply triple_bind, (triple_get_validator _ v0).
    { cbn. rewrite lookup_insert_ne by lia. apply lookup_insert_eq. }
    apply triple_bind, triple_modify, triple_ret.
    assert (Hlen : N.of_nat (length content) = 1024) by (unfold content; cbn; done).
    destruct (install_ok false a type_validator 1024 (N.lor BoxFlag_DynamicArray (N.lor BoxFlag_DataMark BoxFlag_WeakMark)) content v0 w W Hz F Hlen) as (W2 & G2 & Hb2).
    { by exists 32. }
    fold w1 in W2, G2, Hb2. set (w2 := install false a 1024 v0 w1) in *.
    set (val := mkValidator (v_validatorBox v0) box b (add64 b n)).
    destruct (give_result false nv val (mkBox type_char 0 0 0) w2 W2 Hb2) as (H1 & H2 & H3).
    { destruct Hbox as [bx Hbx]. exists bx. by apply (gr_boxes _ _ G2). }
    { done. }
    { apply wrap64_lt. }
    { by apply (range_ok_grows w). }
    pose proof (new_pool_world false a v0 nv 1024 val (mkBox type_char 0 0 0) w1 ltac:(done)) as E.
    change (pool_begin false w2) with (a + sizeof_DataBox) in H1, H2, H3. unfold w2 in H1, H2, H3 at 1. rewrite <- E in H1, H2, H3.
    unfold give in H1, H2, H3. cbn [stride offset set_pool] in H1, H2, H3. rewrite !N.add_0_r in H1, H2, H3.
    apply (HQ _ _ _ H1 (grows_trans _ _ _ G2 H2) H3). left. apply eq_None_not_Some. intros Hs.
    destruct (fresh_block _ _ _ _ _ F (wo_validators _ W _ Hs)); unfold sizeof_DataBox in *; lia.
  - pose proof (wo_pool _ W false Hz) as P. destruct (po_head _ _ _ _ P) as [v0 Hv0]. cbn in Hv0. rewrite N.add_0_r in Hv0.
    apply triple_bind, (triple_get_validator _ v0); [done|]. apply triple_bind.
    pose proof (triple_next false (m_dataPtrValidatorPoolBegin w) (v_validatorBox v0) w) as Hn. cbn [stride offset pool_end set_pool] in Hn.
    rewrite N.add_0_r in Hn. apply Hn; [done|]. apply triple_ret, triple_bind, (triple_get_validator _ v0).
    { pose proof (advance_head false (prepared (v_validatorBox v0) (m_dataPtrValidatorPoolBegin w + 32) w) w v0 Hz) as Ha.
      cbn [pool_begin offset] in Ha. rewrite N.add_0_r in Ha. by apply Ha. }
    apply triple_bind, triple_modify, triple_ret.
    pose proof (give_result false (prepared (v_validatorBox v0) (m_dataPtrValidatorPoolBegin w + 32) w)
      (mkValidator (v_validatorBox v0) box b (add64 b n)) (mkBox type_char 0 0 0) w W Hz Hbox Hlb (wrap64_lt _) Hr) as (H1 & H2 & H3).
    unfold give in H1, H2, H3. cbn [pool_begin offset] in H1, H2, H3. rewrite N.add_0_r in H1, H2, H3.
    apply (HQ _ _ _ H1 H2 H3). right. exists false. cbn. by rewrite N.add_0_r.
Qed.

Definition foreign_size (t : type) (count : N) : N := if count =? 1 then getSize t else mul64 (getSize t) count.

Lemma triple_createForeignDataBox t count p local w (Q : N → World → Prop) : world_ok w → p < size_mod → range_ok w p (add64 p (foreign_size t count)) →
  (∀ box w' bx vb, world_ok w' → grows w w' → w_boxes w' !! box = Some bx → bx_type bx = t → bx_p bx = p → has_flag (bx_flags bx) BoxFlag_Detached = true →
    has_validator w' (box + sizeof_Box) (mkValidator vb box p (add64 p (foreign_size t count))) → Q box w') →
  triple (createForeignDataBox t count p local) w Q.
Proof.
  intros W Hlp Hr HQ. unfold createForeignDataBox. apply triple_bind, triple_get, triple_bind, triple_get, triple_bind. fold (foreign_size t count).
  assert (Hdet : ∀ f, f = (if local then N.lor (if count =? 1 then N.lor BoxFlag_Detached (N.lor BoxFlag_DataMark BoxFlag_WeakMark) else
      N.lor (N.lor BoxFlag_Detached (N.lor BoxFlag_DataMark BoxFlag_WeakMark)) BoxFlag_DynamicArray) BoxFlag_CallSiteLocal
      else (if count =? 1 then N.lor BoxFlag_Detached (N.lor BoxFlag_DataMark BoxFlag_WeakMark) else
      N.lor (N.lor BoxFlag_Detached (N.lor BoxFlag_DataMark BoxFlag_WeakMark)) BoxFlag_DynamicArray)) → has_flag f BoxFlag_Detached = true).
  { intros f ->. by destruct local, (count =? 1). }
  destruct (N.eqb_spec (m_foreignDataBoxPoolBegin w) 0) as [Hz|Hz]; cbn [negb].
  - apply triple_bind. apply (triple_allocateArray _ _ _ 896); [done|by rewrite size_detachedDataBox|done|by left|]. intros a F content.
    set (w1 := new_box a type_detachedDataBox 896 _ content w). cbn [p_p p_validator].
    apply triple_bind, (triple_get_validator _ (box_validator a 896)); [apply lookup_insert_eq|].
    apply triple_bind. unfold upd_validatorBox at 1. apply triple_modify, triple_bind, triple_bind. unfold upd_validatorBox at 1. apply triple_modify, triple_modify.
    apply triple_ret. cbn [box_validator v_validatorBox v_rangeEnd].
    set (v0 := v_set_validatorBox a (default _ (w_validators w1 !! (a + sizeof_DataBox + sizeof_Box)))).
    set (nv := v_set_validatorBox a _). apply triple_bind, (triple_get_validator _ v0).
    { cbn. rewrite lookup_insert_ne by lia. apply lookup_insert_eq. }
    apply triple_bind, triple_modify, triple_bind, triple_modify, triple_ret.
    assert (Hlen : N.of_nat (length content) = 896) by (unfold content; cbn; done).
    destruct (install_ok true a type_detachedDataBox 896 (N.lor BoxFlag_DynamicArray (N.lor BoxFlag_DataMark BoxFlag_WeakMark)) content v0 w W Hz F Hlen) as (W2 & G2 & Hb2).
    { by exists 16. }
    fold w1 in W2, G2, Hb2. set (w2 := install true a 896 v0 w1) in *.
    set (val := mkValidator (v_validatorBox v0) (a + sizeof_DataBox) p (add64 p (foreign_size t count))).
    set (box := mkBox t _ _ p). destruct (give_result true nv val box w2 W2 Hb2) as (H1 & H2 & H3).
    { cbn. apply lookup_insert_is_Some. by left. }
    { done. }
    { apply wrap64_lt. }
    { by apply (range_ok_grows w). }
    pose proof (new_pool_world true a v0 nv 896 val box w1 ltac:(done)) as E.
    change (pool_begin true w2) with (a + sizeof_DataBox) in H1, H2, H3. unfold w2 in H1, H2, H3 at 1. rewrite <- E in H1, H2, H3.
    unfold give in H1, H2, H3. cbn [stride offset set_pool] in H1, H2, H3.
    refine (HQ _ _ box _ H1 (grows_trans _ _ _ G2 H2) _ eq_refl eq_refl (Hdet _ eq_refl) H3). cbn. apply lookup_insert_eq.
  - pose proof (wo_pool _ W true Hz) as P. destruct (po_head _ _ _ _ P) as [v0 Hv0]. cbn [pool_begin offset] in Hv0.
    apply triple_bind, (triple_get_validator _ v0); [done|]. apply triple_bind.
    pose proof (triple_next true (m_foreignDataBoxPoolBegin w) (v_validatorBox v0) w) as Hn. cbn [stride offset pool_end set_pool] in Hn.
    apply Hn; [done|]. apply triple_ret, triple_bind, (triple_get_validator _ v0); [by apply (advance_head true)|].
    apply triple_bind, triple_modify, triple_bind, triple_modify, triple_ret.
    set (nv := prepared _ _ w). set (box := mkBox t _ _ p).
    destruct (give_result true nv (mkValidator (v_validatorBox v0) (m_foreignDataBoxPoolBegin w) p (add64 p (foreign_size t count))) box w W Hz) as (H1 & H2 & H3).
    { cbn. apply lookup_insert_is_Some. by left. }
    { done. }
    { apply wrap64_lt. }
    { done. }
    refine (HQ _ _ box _ H1 H2 _ eq_refl eq_refl (Hdet _ eq_refl) H3). cbn. apply lookup_insert_eq.
Qed.
End pool.
