(* ===== verification/DataString.v ===== *)
(** * Strings and memory functions of the runtime

    Models the functions on strings of [src/src/jnc_api/jnc_Runtime.cpp] and [jnc_String.cpp], the string
    operators of [src/src/jnc_ext/jnc_rtl_core/jnc_rtl_CoreLib.cpp] and the memory functions of
    [src/src/jnc_ext/jnc_std/jnc_std_StdLib.cpp]. *)

From Stdlib Require Import Ascii.
From S2P Require Import Prelude Memory DataPtr.

Open Scope N_scope.

(** [String] *)
Record String := mkString { s_ptr : DataPtr; s_ptr_sz : DataPtr; s_length : N }.

Definition nullString : String := mkString nullDataPtr nullDataPtr 0.

(** [FmtLiteral] *)
Record FmtLiteral := mkFmtLiteral { f_ptr : DataPtr; f_length : N; f_maxLength : N }.

(** [sizeof(Variant)] *)
Definition sizeof_Variant : N := 56.

(** [sl::getAllocSize] of the AXL library: no smaller than what is asked for, unless that is out of reach. *)
Class AllocSize := { getAllocSize : N → N }.

Class AllocSizeLaws (X : AllocSize) : Prop := {
  getAllocSize_ge n : n < 2 ^ 62 → n ≤ getAllocSize n ∧ getAllocSize n < 2 ^ 63
}.

Section strings.
Context `{M : Malloc, T : DataTypes, S : AllocSize}.

(** ** [jnc_Runtime.cpp] *)

Definition strLen (ptr : DataPtr) : Run N :=
  if p_validator ptr =? 0 then mret 0
  else
    v ← get_validator (p_validator ptr);
    if p_p ptr <? v_rangeBegin v then mret 0
    else
      box ← get_box (v_targetBox v);
      if has_flag (bx_flags box) BoxFlag_Invalid then mret 0
      else
        let n := sub64 (v_rangeEnd v) (p_p ptr) in
        found ← memchr (p_p ptr) Ascii.zero n;
        mret (match found with Some q => q - p_p ptr | None => n end).

(** [strlen_s] takes the null pointer too. *)
Definition strlen_s (p : N) : Run N := if p =? 0 then mret 0 else strlen p.

Definition strDup (p length : N) : Run DataPtr :=
  length ← (if length =? size_max then strlen_s p else mret length);
  if length =? 0 then mret nullDataPtr
  else
    ptr ← allocateBuffer (add64 length 1) 0;
    _ ← memcpy (p_p ptr) p length;
    mret ptr.

Definition jnc_memDup (p size : N) : Run DataPtr :=
  if size =? 0 then mret nullDataPtr
  else
    ptr ← allocateBuffer size 0;
    _ ← (if p =? 0 then mret tt else memcpy (p_p ptr) p size);
    mret ptr.

Definition limitDataPtr (ptr : DataPtr) (length : N) : Run DataPtr :=
  if p_validator ptr =? 0 then mret ptr
  else
    v ← get_validator (p_validator ptr);
    if (v_rangeEnd v <=? p_p ptr) || (v_rangeEnd v - p_p ptr <? length) then mret ptr
    else
      validator ← createDataPtrValidator (v_targetBox v) (v_rangeBegin v) (sub64 (add64 (p_p ptr) length) (v_rangeBegin v));
      mret (mkPtr (p_p ptr) validator).

(** ** [jnc_String.cpp] *)

Definition setPtr (ptr : DataPtr) (length : N) : Run String :=
  let none := mkString ptr nullDataPtr 0 in
  if p_validator ptr =? 0 then mret none
  else
    v ← get_validator (p_validator ptr);
    if p_p ptr <? v_rangeBegin v then mret none
    else
      box ← get_box (v_targetBox v);
      if has_flag (bx_flags box) BoxFlag_Invalid then mret none
      else
        let p0 := p_p ptr in
        let finish := v_rangeEnd v in
        if length =? size_max then
          found ← memchr p0 Ascii.zero (sub64 finish p0);
          mret (match found with
                | Some p => mkString ptr ptr (p - p0)
                | None => mkString ptr nullDataPtr (sub64 finish p0)
                end)
        else if add64 p0 length <? finish then
          c ← load (add64 p0 length) 1;
          mret (mkString ptr (if decide (c = [Ascii.zero]) then ptr else nullDataPtr) length)
        else mret (mkString ptr nullDataPtr (sub64 finish p0)).

(** [jnc_String_sz], with the empty literal of the module: the pointer, and the string that keeps it. *)
Definition String_sz (emptyLiteral : DataPtr) (s : String) : Run (DataPtr * String) :=
  if p_p (s_ptr_sz s) =? 0 then
    sz ← (if s_length s =? 0 then mret emptyLiteral else strDup (p_p (s_ptr s)) (s_length s));
    mret (sz, mkString (s_ptr s) sz (s_length s))
  else mret (s_ptr_sz s, s).

Definition allocateString (p length : N) : Run String :=
  length ← (if length =? size_max then strlen_s p else mret length);
  if length =? 0 then mret nullString
  else ptr ← strDup p length; mret (mkString ptr ptr length).

Definition createForeignString (p length : N) (local : bool) : Run String :=
  n ← (if negb (length =? size_max) then mret (length, length)
       else if p =? 0 then mret (0, 0)
       else length ← strlen p; mret (add64 length 1, length));
  let '(ptrLength, length) := n in
  if length =? 0 then mret nullString
  else ptr ← createForeignBufferPtr p ptrLength local; setPtr ptr length.

Definition createForeignString_sz (p length : N) (local : bool) : Run String :=
  _ ← assert (negb (p =? 0));
  length ← (if length =? size_max then strlen p else mret length);
  if length =? 0 then mret nullString
  else
    c ← load (add64 p length) 1;
    _ ← assert (bool_decide (c = [Ascii.zero]));
    ptr ← createForeignBufferPtr p (add64 length 1) local;
    mret (mkString ptr ptr length).

(** ** String operators *)

Definition stringIncrement (s : String) (delta : N) : String :=
  let delta := if s_length s <=? delta then s_length s else delta in
  if delta =? 0 then s
  else mkString (getOffsetPtr (s_ptr s) delta) (if p_p (s_ptr_sz s) =? 0 then s_ptr_sz s else getOffsetPtr (s_ptr_sz s) delta)
         (s_length s - delta).

Definition stringConcatenate (s1 s2 : String) : Run String :=
  if s_length s2 =? 0 then mret s1
  else if s_length s1 =? 0 then mret s2
  else
    let length := add64 (s_length s1) (s_length s2) in
    ptr ← allocateBuffer (add64 length 1) 0;
    _ ← memcpy (p_p ptr) (p_p (s_ptr s1)) (s_length s1);
    _ ← memcpy (add64 (p_p ptr) (s_length s1)) (p_p (s_ptr s2)) (s_length s2);
    setPtr ptr length.

Definition isNullTerminated (ptr : DataPtr) (length : N) : Run bool :=
  if p_validator ptr =? 0 then mret false
  else
    v ← get_validator (p_validator ptr);
    if (v_rangeBegin v <=? p_p ptr) && (add64 (p_p ptr) length <? v_rangeEnd v) then
      c ← load (add64 (p_p ptr) length) 1; mret (bool_decide (c = [Ascii.zero]))
    else mret false.

Definition stringSz (s : String) : Run DataPtr :=
  if negb (p_p (s_ptr_sz s) =? 0) then mret (s_ptr_sz s)
  else
    terminated ← isNullTerminated (s_ptr s) (s_length s);
    if (terminated : bool) then mret (s_ptr s) else strDup (p_p (s_ptr s)) (s_length s).

Definition stringRefSz (s : String) : Run (DataPtr * String) :=
  if negb (p_p (s_ptr_sz s) =? 0) then mret (s_ptr_sz s, s)
  else
    sz ← stringSz s;
    mret (sz, mkString (s_ptr s) sz (s_length s)).

(** [appendFmtLiteral_a]: the length, and the literal. *)
Definition appendFmtLiteral_a (f : FmtLiteral) (p length : N) : Run (N * FmtLiteral) :=
  let newLength := add64 (f_length f) length in
  let newLength := if newLength <? 64 then 64 else newLength in
  grown ← (if f_maxLength f <? newLength then
      let newMaxLength := getAllocSize newLength in
      ptr ← tryAllocateBuffer (add64 newMaxLength 1) 0;
      if p_p ptr =? 0 then mret None
      else
        _ ← (if f_length f =? 0 then mret tt else memcpy (p_p ptr) (p_p (f_ptr f)) (f_length f));
        mret (Some (mkFmtLiteral ptr (f_length f) newMaxLength))
    else mret (Some f));
  match grown with
  | None => mret (f_length f, f)
  | Some f =>
    let dst := p_p (f_ptr f) in
    _ ← memcpy (dst + f_length f) p length;
    let n := add64 (f_length f) length in
    _ ← store (dst + n) [Ascii.zero];
    v ← get_validator (p_validator (f_ptr f));
    _ ← put_validator (p_validator (f_ptr f))
          (mkValidator (v_validatorBox v) (v_targetBox v) (v_rangeBegin v) (add64 (v_rangeBegin v) (add64 n 1)));
    mret (n, mkFmtLiteral (f_ptr f) n (f_maxLength f))
  end.

(** ** [jnc_std_StdLib.cpp] *)

Definition memChr (ptr : DataPtr) (c : ascii) (size : N) : Run DataPtr :=
  if p_p ptr =? 0 then mret nullDataPtr
  else found ← memchr (p_p ptr) c size; mret (match found with Some p => mkPtr p (p_validator ptr) | None => nullDataPtr end).

Definition memCpy (dst src : DataPtr) (size : N) : Run unit :=
  if negb (p_p dst =? 0) && negb (p_p src =? 0) then memcpy (p_p dst) (p_p src) size else mret tt.

Definition memMove (dst src : DataPtr) (size : N) : Run unit :=
  if negb (p_p dst =? 0) && negb (p_p src =? 0) then memmove (p_p dst) (p_p src) size else mret tt.

Definition memSet (ptr : DataPtr) (c : ascii) (size : N) : Run unit :=
  if p_p ptr =? 0 then mret tt else memset (p_p ptr) c size.

Definition memCat (ptr1 : DataPtr) (size1 : N) (ptr2 : DataPtr) (size2 : N) : Run DataPtr :=
  ptr ← allocateBuffer (add64 size1 size2) 0;
  _ ← (if p_p ptr1 =? 0 then mret tt else memcpy (p_p ptr) (p_p ptr1) size1);
  _ ← (if p_p ptr2 =? 0 then mret tt else memcpy (add64 (p_p ptr) size1) (p_p ptr2) size2);
  mret ptr.

Definition memDup (ptr : DataPtr) (size : N) : Run DataPtr :=
  result ← allocateBuffer size 0;
  _ ← (if p_p ptr =? 0 then memset (p_p result) Ascii.zero size else memcpy (p_p result) (p_p ptr) size);
  mret result.

Definition strCpy (dst src : DataPtr) : Run unit :=
  if p_validator dst =? 0 then fail Thrown
  else
    v ← get_validator (p_validator dst);
    let dstLength := if p_p dst <? v_rangeEnd v then v_rangeEnd v - p_p dst else 0 in
    srcLength ← strLen src;
    if dstLength <=? srcLength then memcpy (p_p dst) (p_p src) dstLength
    else
      _ ← memcpy (p_p dst) (p_p src) srcLength;
      store (add64 (p_p dst) srcLength) [Ascii.zero].

Definition strCat (ptr1 ptr2 : DataPtr) : Run DataPtr :=
  length1 ← strLen ptr1;
  length2 ← strLen ptr2;
  memCat ptr1 length1 ptr2 (add64 length2 1).

Definition std_strDup (ptr : DataPtr) (length : N) : Run DataPtr :=
  length ← (if length =? size_max then strLen ptr else mret length);
  strDup (p_p ptr) length.

(** The check of [variantSort], and the range that is sorted. *)
Definition variantSort_range (ptr : DataPtr) (count : N) : Run (N * N) :=
  if 2 <=? count then
    _ ← checkDataPtrRangeIndirect (p_p ptr) (mul64 count sizeof_Variant) (p_validator ptr);
    mret (p_p ptr, count * sizeof_Variant)
  else mret (p_p ptr, 0).
End strings.
