(* ===== verification/DataStringSpec.v ===== *)
(** * Strings: what they stand for

    A string of the runtime stands for a list of bytes. The operators on strings are those on
    lists, and what they return may be accessed. *)

From Stdlib Require Import Ascii.
From S2P Require Import Prelude Memory DataPtr DataPtrInv DataPtrPool DataString.

Open Scope N_scope.

Section strings.
Context `{ML : MallocLaws, TL : DataTypesLaws}.

(** The pointer is in the range of its validator, with [n] bytes left. *)
Definition inside (w : World) (ptr : DataPtr) (n : N) : Prop :=
  ∃ val, has_validator w (p_validator ptr) val ∧ v_rangeBegin val ≤ p_p ptr ∧ p_p ptr + n ≤ v_rangeEnd val.

(** [ptr] points to the bytes [l] with a zero behind them. *)
Definition terminated (w : World) (ptr : DataPtr) (l : list ascii) : Prop :=
  inside w ptr (N.of_nat (length l) + 1) ∧ p_p ptr ≠ 0 ∧ contents w (p_p ptr) (N.of_nat (length l) + 1) = l ++ [Ascii.zero].

(** The string is [l]. *)
Record string_is (w : World) (s : String) (l : list ascii) : Prop := {
  si_length : s_length s = N.of_nat (length l);
  si_ok : ptr_ok w (s_ptr s);
  si_ptr : l = [] ∨ (inside w (s_ptr s) (s_length s) ∧ p_p (s_ptr s) ≠ 0 ∧ contents w (p_p (s_ptr s)) (s_length s) = l);
  si_sz : p_p (s_ptr_sz s) = 0 ∨ terminated w (s_ptr_sz s) l
}.

Lemma inside_accessible w ptr n : inside w ptr n → accessible w (p_p ptr) n.
Proof.
  intros (val & (_ & _ & H1 & H2 & H3 & _) & Hb & He). destruct (decide (n = 0)) as [->|Hn]; [by left|right].
  eapply in_range_weaken; [apply H3; lia|lia..].
Qed.

Lemma inside_ok w ptr n : inside w ptr n → ptr_ok w ptr.
Proof.
  intros (val & H & Hb & He). split; [destruct H as (_ & _ & _ & H & _); lia|]. right. by exists val.
Qed.

Lemma has_validator_not_null w v val : world_ok w → has_validator w v val → v ≠ 0.
Proof.
  intros W (H & _) ->. destruct (wo_validators _ W 0 ltac:(by eexists)) as (a & n & Hin & H1 & H2). destruct (wo_blocks _ W a n Hin). lia.
Qed.

Lemma inside_le w ptr n n' : inside w ptr n → n' ≤ n → inside w ptr n'.
Proof. intros (val & H & Hb & He) Hle. exists val. split; [done|]. split; [done|lia]. Qed.

Lemma inside_offset w ptr n k : inside w ptr n → k ≤ n → inside w (getOffsetPtr ptr k) (n - k) ∧ p_p (getOffsetPtr ptr k) = p_p ptr + k.
Proof.
  intros (val & H & Hb & He) Hle. assert (E : add64 (p_p ptr) k = p_p ptr + k) by (apply add64_small; destruct H as (_ & _ & _ & H & _); lia).
  unfold getOffsetPtr, inside. cbn. rewrite E. split; [|done]. exists val. split; [done|]. split; lia.
Qed.

Lemma inside_grows w w' ptr n : grows w w' → inside w ptr n → inside w' ptr n.
Proof. intros G (val & H & Hr). exists val. split; [by eapply has_validator_grows|done]. Qed.

Lemma inside_end w ptr n : inside w ptr n → p_p ptr + n < size_mod.
Proof. intros (val & (_ & _ & _ & H & _) & _ & He). lia. Qed.

Lemma contents_split w p n k : k ≤ n → contents w p n = contents w p k ++ contents w (p + k) (n - k).
Proof.
  intros Hk. unfold contents. replace (N.to_nat n) with (N.to_nat k + N.to_nat (n - k))%nat by lia. rewrite read_app. do 3 f_equal. lia.
Qed.

Lemma terminated_grows w w' ptr l : world_ok w → grows w w' → terminated w ptr l → terminated w' ptr l.
Proof.
  intros W G (H1 & H2 & H3). split; [by eapply inside_grows|]. split; [done|].
  rewrite (contents_grows w w'); [done|done|done|by apply inside_accessible].
Qed.

Lemma string_grows w w' s l : world_ok w → grows w w' → string_is w s l → string_is w' s l.
Proof.
  intros W G [H1 Hok H2 H3]. split; [done|by eapply ptr_ok_grows| |].
  - destruct H2 as [H2|(H2 & H4 & H5)]; [by left|right]. split; [by eapply inside_grows|]. split; [done|].
    rewrite (contents_grows w w'); [done|done|done|by apply inside_accessible].
  - destruct H3 as [|H3]; [by left|right]. by eapply terminated_grows.
Qed.

Lemma terminated_string w ptr l : terminated w ptr l → string_is w (mkString ptr ptr (N.of_nat (length l))) l.
Proof.
  intros H. pose proof H as (H1 & H2 & H3). split; cbn; [done|by eapply inside_ok| |by right]. right. split; [by eapply inside_le; [exact H1|lia]|]. split; [done|].
  rewrite (contents_split _ _ _ (N.of_nat (length l))) in H3 by lia. apply app_inj_1 in H3; [by destruct H3|]. rewrite length_contents. lia.
Qed.

Lemma string_accessible w s l : string_is w s l → accessible w (p_p (s_ptr s)) (s_length s).
Proof. intros [H1 _ [->|(H2 & _)] H3]; [left; by rewrite H1|by apply inside_accessible]. Qed.

Lemma string_contents w s l : string_is w s l → contents w (p_p (s_ptr s)) (s_length s) = l.
Proof. intros [H1 _ [->|(_ & _ & H2)] H3]; [by rewrite H1|done]. Qed.

(** ** Making strings *)

(** The box of a validator is not invalid. *)
Definition valid_box (w : World) (val : Validator) : Prop :=
  ∃ box, w_boxes w !! v_targetBox val = Some box ∧ has_flag (bx_flags box) BoxFlag_Invalid = false.

Lemma contents_last w p i c : contents w p i ++ [c] = contents w p (i + 1) → contents w (p + i) 1 = [c].
Proof. rewrite (contents_split w p (i + 1) i) by lia. intros H%app_inv_head. rewrite H. f_equal. lia. Qed.

Lemma terminated_contents w ptr i : inside w ptr (i + 1) → p_p ptr ≠ 0 → contents w (p_p ptr) i ++ [Ascii.zero] = contents w (p_p ptr) (i + 1) →
  terminated w ptr (contents w (p_p ptr) i).
Proof. intros H1 H2 H3. unfold terminated. rewrite length_contents, N2Nat.id. by rewrite H3. Qed.

(** [setPtr] of a pointer in its range makes the string of the bytes up to the length, the zero or the end. *)
Lemma triple_setPtr ptr length w val (Q : String → World → Prop) : has_validator w (p_validator ptr) val → p_validator ptr ≠ 0 →
  v_rangeBegin val ≤ p_p ptr → p_p ptr ≤ v_rangeEnd val → p_p ptr ≠ 0 → valid_box w val →
  (length = size_max ∨ p_p ptr + length < size_mod) →
  (∀ s, s_ptr s = ptr → string_is w s (contents w (p_p ptr) (s_length s)) →
    (length ≠ size_max → s_length s = N.min length (v_rangeEnd val - p_p ptr)) →
    (length = size_max → s_length s ≤ v_rangeEnd val - p_p ptr ∧ Ascii.zero ∉ contents w (p_p ptr) (s_length s) ∧
      (s_length s < v_rangeEnd val - p_p ptr → s_ptr_sz s = ptr)) → Q s w) →
  triple (setPtr ptr length) w Q.
Proof.
  intros Hv Hz Hb He Hp (box & Hbox & Hinv) Hlen HQ. unfold setPtr. rewrite (proj2 (N.eqb_neq _ _) Hz).
  apply triple_bind, (triple_get_validator _ val); [apply Hv|]. rewrite (proj2 (N.ltb_ge _ _)) by done.
  apply triple_bind, (triple_get_box _ box); [done|]. rewrite Hinv. pose proof Hv as (_ & _ & _ & Hlt & _).
  assert (E : sub64 (v_rangeEnd val) (p_p ptr) = v_rangeEnd val - p_p ptr) by (by apply sub64_ge). rewrite E.
  assert (Hin : inside w ptr (v_rangeEnd val - p_p ptr)) by (exists val; split; [done|lia]).
  assert (Hstr : ∀ n sz, n ≤ v_rangeEnd val - p_p ptr → (p_p sz = 0 ∨ terminated w sz (contents w (p_p ptr) n)) →
    string_is w (mkString ptr sz n) (contents w (p_p ptr) n)).
  { intros n sz Hn Hsz. split; cbn; [by rewrite length_contents, N2Nat.id|by eapply inside_ok| |done]. right. split; [by eapply inside_le|done]. }
  destruct (N.eqb_spec length size_max) as [->|Hne].
  - apply triple_bind, triple_memchr; [by apply inside_accessible| |].
    + intros Hno. apply triple_ret, HQ; [done|apply Hstr; [done|by left]|done|]. intros _. split; [done|]. split; [done|]. cbn. lia.
    + intros i Hi Hc Hno. replace (p_p ptr + i - p_p ptr) with i by lia. apply triple_ret, HQ; [done| |done|].
      * cbn. apply Hstr; [lia|]. right. apply terminated_contents; [by eapply inside_le; [exact Hin|lia]|done|done].
      * intros _. cbn. split; [lia|]. by split.
  - destruct Hlen as [|Hlen]; [done|]. rewrite add64_small by done. destruct (N.ltb_spec (p_p ptr + length) (v_rangeEnd val)) as [Hlt2|Hge].
    + assert (Hin1 : inside w ptr (length + 1)) by (eapply inside_le; [exact Hin|lia]).
      destruct (inside_accessible w ptr _ Hin1) as [|Hacc]; [lia|].
      apply triple_bind, triple_load; [by eapply in_range_weaken; [exact Hacc|lia..]|]. apply triple_ret, HQ; [done| |cbn; lia|done].
      cbn. apply Hstr; [lia|]. destruct (decide (contents w (p_p ptr + length) 1 = [Ascii.zero])) as [H0|]; [right|by left].
      apply terminated_contents; [done|done|]. rewrite (contents_split w (p_p ptr) (length + 1) length) by lia.
      replace (length + 1 - length) with 1 by lia. by rewrite H0.
    + apply triple_ret, HQ; [done|apply Hstr; [done|by left]|cbn; lia|done].
Qed.

(** ** Copies *)

(** The bytes of a box that is new. *)
Lemma new_box_write a t size flags content w (k : nat) l : (k + length l ≤ length content)%nat →
  set_bytes (write (w_bytes (new_box a t size flags content w)) (a + sizeof_DataBox + N.of_nat k) l) (new_box a t size flags content w) =
  new_box a t size flags (take k content ++ l ++ drop (k + length l) content) w.
Proof. intros Hle. unfold new_box, set_bytes. cbn. by rewrite write_inside. Qed.

Lemma new_box_inside a t size flags content w : world_ok w → fresh a size w → N.of_nat (length content) = size →
  let w' := new_box a t size flags content w in let ptr := mkPtr (a + sizeof_DataBox) (a + sizeof_Box) in
  world_ok w' ∧ grows w w' ∧ inside w' ptr size ∧ p_p ptr ≠ 0 ∧ contents w' (p_p ptr) size = content ∧ 
  ∃ val, has_validator w' (p_validator ptr) val ∧ v_rangeBegin val = p_p ptr ∧ v_rangeEnd val = p_p ptr + size ∧ 
    (has_flag flags BoxFlag_Invalid = false → valid_box w' val).
Proof.
  intros W F Hlen w' ptr. destruct (new_box_ok a t size flags content w W F Hlen) as (H1 & H2 & H3).
  split; [done|]. split; [done|]. split; [eexists; split; [exact H3|cbn; lia]|]. split; [cbn; pose proof (proj1 F); lia|]. split.
  - cbn. unfold contents. cbn. rewrite <- Hlen, Nat2N.id. apply read_write.
  - eexists. split; [exact H3|]. cbn. split; [done|]. split; [done|]. intros Hf. eexists. split; [cbn; apply lookup_insert_eq|done].
Qed.

Lemma triple_allocateBuffer size w (Q : DataPtr → World → Prop) : world_ok w → size + sizeof_DataBox < size_mod →
  (∀ a, fresh a size w → Q (mkPtr (a + sizeof_DataBox) (a + sizeof_Box))
    (new_box a type_char size (N.lor BoxFlag_DynamicArray (N.lor BoxFlag_DataMark BoxFlag_WeakMark)) (replicate (N.to_nat size) Ascii.zero) w)) →
  triple (allocateBuffer size 0) w Q.
Proof.
  intros W Hs HQ. unfold allocateBuffer. apply (triple_allocateArray _ _ _ size); [done| |done|by left|].
  - rewrite size_char, mul64_small by (unfold sizeof_DataBox in *; lia). lia.
  - intros a F. by apply HQ.
Qed.

Lemma contents_fresh a size w b n : world_ok w → fresh a size w → accessible w b n → n = 0 ∨ a + sizeof_DataBox + size ≤ b ∨ b + n ≤ a.
Proof.
  intros W F [->|H]; [by left|right]. apply in_range_spec in H as (c & s & Hin & H1 & H2).
  destruct (fresh_block a size w c s F (wo_regions _ W c s Hin)); lia.
Qed.

(** What is copied to a new box is what was there before. *)
Lemma contents_new_box a t size flags content w b n : world_ok w → fresh a size w → N.of_nat (length content) = size → accessible w b n →
  contents (new_box a t size flags content w) b n = contents w b n.
Proof. intros W F Hlen Hacc. apply contents_grows; [done|by apply new_box_ok|done]. Qed.

(** Copying bytes into a part of a new box. *)
Lemma triple_copy_new a t size flags content w (k : nat) src n (Q : unit → World → Prop) : world_ok w → fresh a size w →
  N.of_nat (length content) = size → accessible w src n → N.of_nat k + n ≤ size →
  Q tt (new_box a t size flags (take k content ++ contents w src n ++ drop (k + N.to_nat n) content) w) →
  triple (memcpy (a + sizeof_DataBox + N.of_nat k) src n) (new_box a t size flags content w) Q.
Proof.
  intros W F Hlen Hsrc Hle HQ. apply triple_memcpy.
  - eapply accessible_grows; [by apply new_box_ok|done].
  - destruct (decide (n = 0)) as [->|Hn]; [by left|right]. apply in_range_spec. exists (a + sizeof_DataBox), size. split; [left|lia].
  - destruct (contents_fresh a size w src n W F Hsrc) as [|[H|H] ]; [by left|right; left; lia|right; right; lia].
  - rewrite contents_new_box by done. rewrite new_box_write by (rewrite length_contents; lia). by rewrite length_contents.
Qed.

Lemma replicate_zero_split (n m : nat) : (m ≤ n)%nat → drop m (replicate n Ascii.zero) = replicate (n - m) Ascii.zero.
Proof. intros. by rewrite drop_replicate. Qed.

Lemma triple_strDup p length w (Q : DataPtr → World → Prop) : world_ok w → length ≠ 0 → length + 1 + sizeof_DataBox < size_mod → accessible w p length →
  (∀ ptr w', world_ok w' → grows w w' → terminated w' ptr (contents w p length) → Q ptr w') → triple (strDup p length) w Q.
Proof.
  intros W Hz Hlt Hacc HQ. unfold strDup. apply triple_bind. unfold sizeof_DataBox in Hlt. rewrite (proj2 (N.eqb_neq length size_max)) by (unfold size_max, size_mod in *; lia).
  apply triple_ret. rewrite (proj2 (N.eqb_neq _ _) Hz). rewrite add64_small by lia. apply triple_bind, triple_allocateBuffer; [done|unfold sizeof_DataBox; lia|].
  intros a F. apply triple_bind. cbn [p_p]. replace (a + sizeof_DataBox) with (a + sizeof_DataBox + N.of_nat 0) by lia.
  apply triple_copy_new; [done|done|by rewrite length_replicate, N2Nat.id|done|lia|]. apply triple_ret. cbn [take app Nat.add].
  rewrite replicate_zero_split by lia. replace (N.to_nat (length + 1) - N.to_nat length)%nat with 1%nat by lia. cbn [replicate].
  rewrite N.add_0_r. set (content := contents w p length ++ [Ascii.zero]).
  assert (Hlen : N.of_nat (base.length content) = length + 1) by (unfold content; rewrite length_app, length_contents; cbn; lia).
  destruct (new_box_inside a type_char _ (N.lor BoxFlag_DynamicArray (N.lor BoxFlag_DataMark BoxFlag_WeakMark)) content w W F Hlen) as (H1 & H2 & H3 & H4 & H5 & _).
  apply HQ; [done|done|]. unfold terminated. rewrite length_contents, N2Nat.id. by split_and!.
Qed.

(** ** Operators *)

Lemma triple_strLen ptr w val (Q : N → World → Prop) : has_validator w (p_validator ptr) val → p_validator ptr ≠ 0 →
  v_rangeBegin val ≤ p_p ptr → p_p ptr ≤ v_rangeEnd val → valid_box w val →
  (∀ n, n ≤ v_rangeEnd val - p_p ptr → Ascii.zero ∉ contents w (p_p ptr) n →
    (n < v_rangeEnd val - p_p ptr → contents w (p_p ptr) n ++ [Ascii.zero] = contents w (p_p ptr) (n + 1)) → Q n w) → triple (strLen ptr) w Q.
Proof.
  intros Hv Hz Hb He (box & Hbox & Hinv) HQ. unfold strLen. rewrite (proj2 (N.eqb_neq _ _) Hz).
  apply triple_bind, (triple_get_validator _ val); [apply Hv|]. rewrite (proj2 (N.ltb_ge _ _)) by done.
  apply triple_bind, (triple_get_box _ box); [done|]. rewrite Hinv. pose proof Hv as (_ & _ & _ & Hlt & _).
  rewrite sub64_ge by done. apply triple_bind, triple_memchr.
  - apply inside_accessible. exists val. split; [done|lia].
  - intros Hno. apply triple_ret, HQ; [done|done|lia].
  - intros i Hi Hc Hno. replace (p_p ptr + i - p_p ptr) with i by lia. apply triple_ret, HQ; [lia|done|done].
Qed.

Lemma triple_stringConcatenate s1 s2 l1 l2 w (Q : String → World → Prop) : world_ok w → string_is w s1 l1 → string_is w s2 l2 →
  s_length s1 + s_length s2 + 1 + sizeof_DataBox < size_mod →
  (∀ s w', world_ok w' → grows w w' → string_is w' s (l1 ++ l2) → Q s w') → triple (stringConcatenate s1 s2) w Q.
Proof.
  intros W S1 S2 Hlt HQ. pose proof (si_length _ _ _ S1) as L1. pose proof (si_length _ _ _ S2) as L2.
  pose proof (string_contents _ _ _ S1) as C1. pose proof (string_contents _ _ _ S2) as C2.
  pose proof (string_accessible _ _ _ S1) as A1. pose proof (string_accessible _ _ _ S2) as A2. unfold stringConcatenate.
  destruct (N.eqb_spec (s_length s2) 0) as [H2|H2].
  { apply triple_ret, HQ; [done|apply grows_refl|]. destruct l2; [|cbn in L2; lia]. by rewrite app_nil_r. }
  destruct (N.eqb_spec (s_length s1) 0) as [H1|H1].
  { apply triple_ret, HQ; [done|apply grows_refl|]. destruct l1; [done|cbn in L1; lia]. }
  set (n1 := s_length s1) in *. set (n2 := s_length s2) in *. unfold sizeof_DataBox in Hlt. rewrite !add64_small by (rewrite ?add64_small by lia; lia).
  apply triple_bind, triple_allocateBuffer; [done|unfold sizeof_DataBox; lia|]. intros a F. cbn [p_p]. apply triple_bind.
  replace (a + sizeof_DataBox) with (a + sizeof_DataBox + N.of_nat 0) at 1 by lia.
  apply triple_copy_new; [done|done|by rewrite length_replicate, N2Nat.id|done|lia|].
  rewrite C1, take_0, app_nil_l. cbn [Nat.add]. rewrite replicate_zero_split by lia.
  set (c1 := l1 ++ _). assert (Hlen1 : N.of_nat (length c1) = n1 + n2 + 1) by (unfold c1; rewrite length_app, length_replicate; lia).
  apply triple_bind. assert (Ea : add64 (a + sizeof_DataBox) n1 = a + sizeof_DataBox + N.of_nat (length l1)).
  { rewrite add64_small; [lia|]. destruct F as (_ & F & _). unfold sizeof_DataBox in *. lia. }
  rewrite Ea. apply triple_copy_new; [done|done|done|done|lia|]. rewrite C2.
  unfold c1. rewrite take_app_length, drop_app_ge by lia. replace (length l1 + N.to_nat n2 - length l1)%nat with (N.to_nat n2) by lia.
  rewrite replicate_zero_split by lia. replace (N.to_nat (n1 + n2 + 1) - N.to_nat n1 - N.to_nat n2)%nat with 1%nat by lia. cbn [replicate].
  set (content := l1 ++ l2 ++ [Ascii.zero]). assert (Hlen : N.of_nat (length content) = n1 + n2 + 1) by (unfold content; rewrite !length_app; cbn; lia).
  destruct (new_box_inside a type_char _ (N.lor BoxFlag_DynamicArray (N.lor BoxFlag_DataMark BoxFlag_WeakMark)) content w W F Hlen)
    as (I1 & I2 & I3 & I4 & I5 & val & I6 & I7 & I8 & I9).
  set (w' := new_box _ _ _ _ content w) in *. set (ptr := mkPtr _ _) in *.
  assert (E : contents w' (p_p ptr) (n1 + n2) = l1 ++ l2).
  { rewrite (contents_split w' (p_p ptr) (n1 + n2 + 1) (n1 + n2)) in I5 by lia. unfold content in I5. rewrite app_assoc in I5.
    apply app_inj_1 in I5; [by destruct I5|]. rewrite length_contents, length_app. lia. }
  apply (triple_setPtr ptr (n1 + n2) w' val); [done|by eapply has_validator_not_null|by rewrite I7|rewrite I8; cbn; lia|done|by apply I9| |].
  { right. destruct F as (_ & F & _). cbn. lia. }
  intros s Hs Hstr Hn _. apply HQ; [done|done|]. specialize (Hn ltac:(unfold size_max, size_mod in *; lia)). rewrite I8 in Hn.
  replace (s_length s) with (n1 + n2) in Hstr by lia. by rewrite E in Hstr.
Qed.

Lemma string_increment w s l k : string_is w s l → string_is w (stringIncrement s k) (drop (N.to_nat k) l).
Proof.
  intros S. pose proof (si_length _ _ _ S) as L. unfold stringIncrement. set (d := if s_length s <=? k then s_length s else k).
  assert (Hd : d ≤ s_length s ∧ drop (N.to_nat k) l = drop (N.to_nat d) l).
  { unfold d. destruct (N.leb_spec (s_length s) k); [|split; [lia|done]]. split; [done|]. rewrite !drop_ge; [done|lia..]. }
  destruct Hd as [Hd ->]. destruct (N.eqb_spec d 0) as [->|Hne]; [done|]. destruct S as [S1 Sok S2 S3].
  assert (E : ∀ p n, d ≤ n → drop (N.to_nat d) (contents w p n) = contents w (p + d) (n - d)).
  { intros p n Hn. rewrite (contents_split w p n d) by done. by rewrite drop_app_length' by (by rewrite length_contents). }
  split; cbn [s_ptr s_ptr_sz s_length].
  - rewrite length_drop. lia.
  - destruct Sok as [_ H]. split; [apply wrap64_lt|done].
  - destruct S2 as [->|(H1 & H2 & H3)]; [cbn in S1; lia|right]. destruct (inside_offset w _ _ d H1 Hd) as [H4 H5].
    split; [done|]. rewrite H5. split; [lia|]. by rewrite <- H3, E.
  - destruct (N.eqb_spec (p_p (s_ptr_sz s)) 0) as [|Hz]; [by left|]. destruct S3 as [|(H1 & H2 & H3)]; [done|right].
    destruct (inside_offset w _ _ d H1 ltac:(lia)) as [H4 H5]. unfold terminated. rewrite length_drop, H5.
    replace (N.of_nat (length l - N.to_nat d) + 1) with (N.of_nat (length l) + 1 - d) by lia. split; [done|]. split; [lia|].
    rewrite <- E, H3 by lia. rewrite drop_app_le by lia. done.
Qed.

(** [stringSz] is a pointer to the bytes with a zero behind them, or null for the empty string. *)
Lemma triple_stringSz s l w (Q : DataPtr → World → Prop) : world_ok w → string_is w s l → s_length s + 1 + sizeof_DataBox < size_mod →
  (∀ ptr w', world_ok w' → grows w w' → terminated w' ptr l ∨ (l = [] ∧ (p_p ptr = 0 ∨ ptr = s_ptr s)) → Q ptr w') → triple (stringSz s) w Q.
Proof.
  intros W S Hlt HQ. pose proof S as [S1 Sok S2 S3]. unfold stringSz. destruct (N.eqb_spec (p_p (s_ptr_sz s)) 0) as [Hz|Hz]; cbn [negb].
  2:{ destruct S3 as [|S3]; [done|]. apply triple_ret, HQ; [done|apply grows_refl|by left]. }
  assert (Hdup : triple (strDup (p_p (s_ptr s)) (s_length s)) w Q).
  { destruct (decide (s_length s = 0)) as [H0|H0].
    - unfold strDup. apply triple_bind. rewrite H0. apply triple_ret, triple_ret, HQ; [done|apply grows_refl|right].
      split; [|by left]. destruct l; [done|cbn in S1; lia].
    - apply triple_strDup; [done|done|done|by eapply string_accessible|]. intros ptr w' W' G' Ht. apply HQ; [done|done|left].
      by rewrite (string_contents w s l) in Ht. }
  unfold isNullTerminated. apply triple_bind. destruct (N.eqb_spec (p_validator (s_ptr s)) 0) as [Hv|Hv]; [by apply triple_ret|].
  destruct Sok as [Hp [|[val Hval] ] ]; [done|]. apply triple_bind, (triple_get_validator _ val); [apply Hval|].
  destruct (_ && _) eqn:Hcond; [|by apply triple_ret]. apply andb_true_iff in Hcond as [Hb%N.leb_le He%N.ltb_lt].
  assert (E : add64 (p_p (s_ptr s)) (s_length s) = p_p (s_ptr s) + s_length s).
  { apply add64_small. destruct S2 as [->|(H1 & _)]; [cbn in S1; lia|by eapply inside_end]. }
  rewrite E in *. pose proof Hval as (_ & _ & _ & _ & Hr & _). assert (Hlt2 : v_rangeBegin val < v_rangeEnd val) by lia.
  apply triple_bind, triple_load; [by eapply in_range_weaken; [apply Hr, Hlt2|lia..]|]. apply triple_ret.
  destruct (bool_decide _) eqn:Hc; [|done]. apply bool_decide_eq_true in Hc. apply triple_ret, HQ; [done|apply grows_refl|].
  destruct S2 as [->|(H1 & H2 & H3)]; [right; split; [done|by right]|left]. rewrite <- H3 at 1.
  apply terminated_contents; [exists val; split; [done|lia]|done|].
  rewrite (contents_split w _ (s_length s + 1) (s_length s)) by lia. replace (s_length s + 1 - s_length s) with 1 by lia. by rewrite Hc.
Qed.
End strings.
