(* ===== verification/DataPtrProps.v ===== *)
(** * Data pointers: the properties

    A pointer that passes the check may be accessed, however it was made, unless its range wraps
    around the end of the address space. *)

From Stdlib Require Import Ascii.
From S2P Require Import Prelude Memory DataPtr DataPtrInv DataPtrPool DataString DataStringSpec.

Open Scope N_scope.

(** ** The element an address is in *)

Lemma element_start (a p s : N) : p ≤ a → s ≠ 0 → a - (a - p) mod s = p + s * ((a - p) / s).
Proof.
  intros Hp Hs. pose proof (N.div_mod (a - p) s Hs) as Hdm. revert Hdm. generalize (s * ((a - p) / s)), ((a - p) mod s). lia.
Qed.

Lemma element_start_le (a p s : N) : p ≤ a → s ≠ 0 → p + s * ((a - p) / s) ≤ a.
Proof. intros Hp Hs. rewrite <- element_start by done. apply N.le_sub_l. Qed.

Lemma element_nested (a p k e : N) : p ≤ a → e ≠ 0 → k * e ≠ 0 →
  p + k * e * ((a - p) / (k * e)) + e * ((a - (p + k * e * ((a - p) / (k * e)))) / e) = p + e * ((a - p) / e).
Proof.
  intros Hp He Hk. pose proof (element_start_le a p (k * e) Hp Hk) as Hle. set (q := (a - p) / (k * e)) in *. clearbody q.
  replace ((a - p) / e) with (k * q + (a - (p + k * e * q)) / e); [generalize ((a - (p + k * e * q)) / e); lia|].
  replace (a - p) with (a - (p + k * e * q) + k * q * e) by (replace (k * e * q) with (k * q * e) in * by lia; revert Hle; generalize (k * q * e); lia).
  rewrite N.div_add by done. apply N.add_comm.
Qed.

(** ** Programs *)

Section programs.
Context `{ML : MallocLaws, TL : DataTypesLaws}.

(** What a program does to have data pointers: the runtime gives it new ones, and it makes others of those it has. What it
    then accesses by them is checked first, and is not a part of this. *)
Inductive op :=
  | OpData (t : type)
  | OpArray (t : type) (count : N)
  | OpForeign (p size : N) (isCallSiteLocal : bool)
  | OpOffset (i : nat) (offset : N)
  | OpLimit (i : nat) (length : N)
  | OpCast (fuel i : nat) (t : type)
  | OpInvalidate (i : nat).

Definition with_ptr (i : nat) (ptrs : list DataPtr) (f : DataPtr → Run DataPtr) : Run (list DataPtr) :=
  match ptrs !! i with None => mret ptrs | Some ptr => ptr ← f ptr; mret (ptrs ++ [ptr]) end.

Definition run_op (o : op) (ptrs : list DataPtr) : Run (list DataPtr) :=
  match o with
  | OpData t => ptr ← allocateData t 0; mret (ptrs ++ [ptr])
  | OpArray t count => ptr ← allocateArray t count 0; mret (ptrs ++ [ptr])
  | OpForeign p size local => ptr ← createForeignBufferPtr p size local; mret (ptrs ++ [ptr])
  | OpOffset i offset => with_ptr i ptrs (λ ptr, mret (getOffsetPtr ptr offset))
  | OpLimit i length => with_ptr i ptrs (λ ptr, limitDataPtr ptr length)
  | OpCast fuel i t => with_ptr i ptrs (λ ptr, dynamicCastDataPtr fuel ptr t)
  | OpInvalidate i => with_ptr i ptrs (λ ptr,
      _ ← (if p_validator ptr =? 0 then mret tt else invalidateDataPtrValidator (p_validator ptr)); mret ptr)
  end.

Fixpoint run_ops (os : list op) (ptrs : list DataPtr) : Run (list DataPtr) :=
  match os with [] => mret ptrs | o :: os => ptrs ← run_op o ptrs; run_ops os ptrs end.

(** Memory that is not of the heap. *)
Definition start_world (foreign : list (N * N)) (m : bytes) : World := mkWorld m foreign foreign ∅ ∅ 0 0 0 0.

Definition foreign_ok (foreign : list (N * N)) : Prop :=
  (∀ a n, (a, n) ∈ foreign → 0 < a ∧ a + n < size_mod) ∧
  (∀ a n b s, (a, n) ∈ foreign → (b, s) ∈ foreign → (a, n) = (b, s) ∨ a + n ≤ b ∨ b + s ≤ a).

(** What is asked of a program: allocations are not as large as the address space, and foreign pointers are to foreign memory.
    The product of an array may wrap around. *)
Definition op_ok (foreign : list (N * N)) (o : op) : Prop :=
  match o with
  | OpData t => getSize t + sizeof_DataBox < size_mod
  | OpArray t count => mul64 (getSize t) count + sizeof_DataBox < size_mod
  | OpForeign p size _ => p + size < size_mod ∧ in_range foreign p size = true
  | _ => True
  end.

(** The state of a program between its operations. *)
Definition program_ok (foreign : list (N * N)) (ptrs : list DataPtr) (w : World) : Prop :=
  world_ok w ∧ foreign ⊆ w_regions w ∧ Forall (ptr_ok w) ptrs.

Lemma start_world_ok foreign m : foreign_ok foreign → program_ok foreign [] (start_world foreign m).
Proof.
  intros [F1 F2]. split; [|split; [done|constructor] ]. split; cbn; try done.
  - intros a n Hin. exists a, n. split; [done|lia].
  - intros v [? ?]. set_solver.
  - intros b [? ?]. set_solver.
  - by intros [].
  - by intros [].
Qed.

Lemma program_grows foreign ptrs w w' ptr : program_ok foreign ptrs w → world_ok w' → grows w w' → ptr_ok w' ptr →
  program_ok foreign (ptrs ++ [ptr]) w'.
Proof.
  intros (W & Hf & Hp) W' G Hptr. split; [done|]. split; [by etrans; [|apply G]|]. apply Forall_app. split; [|by constructor].
  eapply Forall_impl; [exact Hp|]. intros p. by apply ptr_ok_grows.
Qed.

Lemma triple_with_ptr i ptrs f foreign w : program_ok foreign ptrs w →
  (∀ ptr, ptr_ok w ptr → triple (f ptr) w (λ ptr' w', program_ok foreign (ptrs ++ [ptr']) w')) →
  triple (with_ptr i ptrs f) w (program_ok foreign).
Proof.
  intros P Hf. unfold with_ptr. destruct (ptrs !! i) as [ptr|] eqn:Hi; [|by apply triple_ret].
  destruct P as (W & Hfr & Hp). pose proof (proj1 (Forall_lookup _ _) Hp i ptr Hi) as Hptr.
  apply triple_bind. eapply triple_mono; [by apply Hf|]. intros ptr' w' H. by apply triple_ret.
Qed.

Lemma zero_box_ok a t size flags w foreign ptrs : program_ok foreign ptrs w → fresh a size w →
  program_ok foreign (ptrs ++ [mkPtr (a + sizeof_DataBox) (a + sizeof_Box)]) (new_box a t size flags (replicate (N.to_nat size) Ascii.zero) w).
Proof.
  intros P F. destruct (new_box_inside a t size flags (replicate (N.to_nat size) Ascii.zero) w) as (H1 & H2 & H3 & _);
    [apply P|done|by rewrite length_replicate, N2Nat.id|]. eapply program_grows; [done|done|done|by eapply inside_ok].
Qed.

Lemma triple_allocateData t w (Q : DataPtr → World → Prop) : world_ok w → getSize t + sizeof_DataBox < size_mod →
  (∀ a, fresh a (getSize t) w → Q (mkPtr (a + sizeof_DataBox) (a + sizeof_Box))
    (new_box a t (getSize t) (N.lor BoxFlag_DataMark BoxFlag_WeakMark) (replicate (N.to_nat (getSize t)) Ascii.zero) w)) →
  triple (allocateData t 0) w Q.
Proof.
  intros W Hs HQ. unfold allocateData, tryAllocateData. apply triple_bind, triple_tryAllocate; [done|done|by left|done|].
  intros a F content. unfold throw_if_null. cbn [p_p]. rewrite (proj2 (N.eqb_neq _ _)); [|pose proof (proj1 F); unfold sizeof_DataBox; lia].
  apply triple_ret. by apply HQ.
Qed.

(** Whether [n] bytes are left behind a pointer that is below the end of its range. *)
Definition has_left (ptr : DataPtr) (n : N) (val : Validator) : Prop := p_p ptr < v_rangeEnd val ∧ p_p ptr + n ≤ v_rangeEnd val.

Lemma triple_limitDataPtr ptr n w (Q : DataPtr → World → Prop) : world_ok w → ptr_ok w ptr →
  (p_validator ptr = 0 ∨ (∃ val, has_validator w (p_validator ptr) val ∧ ¬ has_left ptr n val) → Q ptr w) →
  (∀ val v w' vb, has_validator w (p_validator ptr) val → has_left ptr n val → world_ok w' → grows w w' →
    has_validator w' v (mkValidator vb (v_targetBox val) (v_rangeBegin val) (p_p ptr + n)) → Q (mkPtr (p_p ptr) v) w') →
  triple (limitDataPtr ptr n) w Q.
Proof.
  intros W [Hp Hok] Hsame Hnew. unfold limitDataPtr. destruct (N.eqb_spec (p_validator ptr) 0) as [|Hz]; [apply triple_ret, Hsame; by left|].
  destruct Hok as [|[val Hv] ]; [done|]. apply triple_bind, (triple_get_validator _ val); [apply Hv|].
  destruct (_ || _) eqn:Hc.
  { apply triple_ret, Hsame. right. exists val. split; [done|]. unfold has_left. apply orb_true_iff in Hc as [H%N.leb_le|H%N.ltb_lt]; lia. }
  apply orb_false_iff in Hc as [H1%N.leb_gt H2%N.ltb_ge].
  pose proof Hv as (_ & _ & Hbox & Hlt & Hr & Hlb). rewrite (add64_small (p_p ptr) n) by lia.
  (* the end of the new range is what the arithmetic of machine words gives, wherever the range begins *)
  assert (E : add64 (v_rangeBegin val) (sub64 (p_p ptr + n) (v_rangeBegin val)) = p_p ptr + n).
  { unfold add64, sub64, wrap64. rewrite N.Div0.add_mod_idemp_r.
    replace (v_rangeBegin val + (p_p ptr + n + (size_mod - v_rangeBegin val))) with (p_p ptr + n + 1 * size_mod) by lia.
    rewrite N.Div0.mod_add. apply N.mod_small. lia. }
  apply triple_bind, triple_createDataPtrValidator; [done|done|done|rewrite E; intros Hlt2|].
  - eapply in_range_weaken; [apply Hr; lia|lia..].
  - intros v w' vb W' G Hv' _. rewrite E in Hv'. apply triple_ret. eapply Hnew; [done|split; lia|done..].
Qed.

(** [getElementType] of the types of the boxes, as deep as the fuel goes. *)
Lemma cast_elements_bound fuel t p a : p ≤ a → snd (cast_elements fuel t p a) ≤ a.
Proof.
  revert t p. induction fuel as [|fuel IH]; intros t p Hp; cbn [cast_elements]; [done|]. destruct (getElementType t) as [elem|]; [|done].
  apply IH. apply N.le_sub_l.
Qed.

Lemma triple_dynamicCastDataPtr fuel ptr t w (Q : DataPtr → World → Prop) : ptr_ok w ptr →
  (∀ ptr', ptr_ok w ptr' → (ptr' = nullDataPtr ∨ p_validator ptr' = p_validator ptr) → Q ptr' w) → triple (dynamicCastDataPtr fuel ptr t) w Q.
Proof.
  intros [Hp Hok] HQ. assert (Hnull : Q nullDataPtr w) by (apply HQ; [split; [done|by left]|by left]).
  unfold dynamicCastDataPtr. destruct (N.eqb_spec (p_validator ptr) 0) as [|Hz]; [by apply triple_ret|].
  destruct Hok as [|[val Hv] ]; [done|]. apply triple_bind, (triple_get_validator _ val); [apply Hv|].
  pose proof Hv as (_ & _ & [box Hbox] & _). apply triple_bind, (triple_get_box _ box); [done|].
  set (p := if isClass (bx_type box) then _ else _). destruct (N.ltb_spec (p_p ptr) p) as [|Hge]; [by apply triple_ret|].
  pose proof (cast_elements_bound fuel (bx_type box) p (p_p ptr) Hge) as Hb. destruct (cast_elements fuel (bx_type box) p (p_p ptr)) as [srcType p']. cbn in Hb.
  assert (Hres : ∀ q, q < size_mod → Q (mkPtr q (p_validator ptr)) w).
  { intros q Hq. apply HQ; [|by right]. split; [done|]. right. by exists val. }
  destruct (isEqual srcType t); [apply triple_ret, Hres; lia|]. destruct (isStruct srcType); [|by apply triple_ret].
  cbn [negb]. destruct (findBaseTypeOffset srcType t); [|by apply triple_ret]. apply triple_ret, Hres, wrap64_lt.
Qed.

(** Marking a box as invalid changes its flags only. *)
Lemma triple_invalidate v val w (Q : unit → World → Prop) : has_validator w v val →
  (∀ box, w_boxes w !! v_targetBox val = Some box →
    Q tt (set_boxes (<[v_targetBox val := mkBox (bx_type box) (N.lor (bx_flags box) BoxFlag_Invalid) (bx_rootOffset box) (bx_p box)]> (w_boxes w)) w)) →
  triple (invalidateDataPtrValidator v) w Q.
Proof.
  intros Hv HQ. pose proof Hv as (H1 & _ & [box Hbox] & _). unfold invalidateDataPtrValidator. apply triple_bind, (triple_get_validator _ val); [done|].
  apply triple_bind, (triple_get_box _ box); [done|]. by apply triple_modify, HQ.
Qed.

Lemma set_box_ok w b bx bx' : w_boxes w !! b = Some bx → world_ok w → let w' := set_boxes (<[b := bx']> (w_boxes w)) w in
  world_ok w' ∧ ∀ ptr, ptr_ok w ptr → ptr_ok w' ptr.
Proof.
  intros Hb [W1 W2 W3 W4 W5 W6 W7 W8] w'.
  assert (Hiff : ∀ c, is_Some (w_boxes w' !! c) ↔ is_Some (w_boxes w !! c)).
  { intros c. cbn. rewrite lookup_insert_is_Some. destruct (decide (b = c)) as [->|]; [|tauto]. rewrite Hb. naive_solver. }
  assert (Hvo : ∀ x, validator_ok w x → validator_ok w' x) by (intros x (H1 & H2); split; [by apply Hiff|done]).
  split.
  - split; try done.
    + intros v x Hx. destruct (W4 v x Hx); [by left|right; by apply Hvo].
    + intros c Hc. by apply W6, Hiff.
    + intros k Hk. destruct (W7 k Hk) as [P1 P2 P3 P4 P5]. split; try done. intros c Hc. by apply P5, Hiff.
  - intros ptr [Hp [H|[val (H1 & H2 & H3)] ] ]; (split; [done|]); [by left|right]. exists val. split; [done|]. split; [done|]. by apply Hvo.
Qed.

Lemma triple_run_op foreign o ptrs w : op_ok foreign o → program_ok foreign ptrs w → triple (run_op o ptrs) w (program_ok foreign).
Proof.
  intros Ho P. pose proof P as (W & Hf & Hp). destruct o as [t|t count|p size local|i offset|i length|fuel i t|i]; cbn [run_op op_ok] in *.
  - apply triple_bind, triple_allocateData; [done|done|]. intros a F. apply triple_ret.
    by apply zero_box_ok.
  - apply triple_bind. eapply triple_allocateArray; [done|reflexivity|done|by left|]. intros a F. apply triple_ret.
    by apply zero_box_ok.
  - destruct Ho as [H1 H2]. unfold createForeignBufferPtr. assert (Es : foreign_size type_char size = size).
    { unfold foreign_size. rewrite size_char. destruct (N.eqb_spec size 1) as [->|]; [done|]. rewrite mul64_small; lia. }
    apply triple_bind, triple_bind, triple_createForeignDataBox; [done|lia| |].
    + rewrite Es, add64_small by done. intros _. replace (p + size - p) with size by lia. by eapply in_range_mono.
    + intros box w' bx vb W' G _ _ _ _ Hv. apply triple_ret, triple_ret. eapply program_grows; [done|done|done|].
      split; [cbn; lia|]. right. by eexists.
  - eapply triple_with_ptr; [done|]. intros ptr [H1 H2]. apply triple_ret. eapply program_grows; [done|done|apply grows_refl|].
    split; [apply wrap64_lt|done].
  - eapply triple_with_ptr; [done|]. intros ptr Hptr. apply triple_limitDataPtr; [done|done| |].
    + intros _. eapply program_grows; [done|done|apply grows_refl|done].
    + intros val v w' vb _ _ W' G Hv. eapply program_grows; [done|done|done|]. split; [apply Hptr|]. right. by eexists.
  - eapply triple_with_ptr; [done|]. intros ptr Hptr. apply triple_dynamicCastDataPtr; [done|]. intros ptr' Hptr' _.
    eapply program_grows; [done|done|apply grows_refl|done].
  - eapply triple_with_ptr; [done|]. intros ptr Hptr. apply triple_bind. destruct (N.eqb_spec (p_validator ptr) 0) as [Hz|Hz].
    + apply triple_ret, triple_ret. eapply program_grows; [done|done|apply grows_refl|done].
    + destruct Hptr as [H1 [|[val Hv] ] ]; [done|]. apply (triple_invalidate _ val); [done|]. intros box Hbox. apply triple_ret.
      destruct (set_box_ok w _ _ (mkBox (bx_type box) (N.lor (bx_flags box) BoxFlag_Invalid) (bx_rootOffset box) (bx_p box)) Hbox W) as [W' Hok].
      split; [done|]. split; [done|]. apply Forall_app. split; [by eapply Forall_impl; [exact Hp|]|]. constructor; [|done]. apply Hok.
      split; [done|]. right. by exists val.
Qed.

Lemma triple_run_ops foreign os : ∀ ptrs w, Forall (op_ok foreign) os → program_ok foreign ptrs w → triple (run_ops os ptrs) w (program_ok foreign).
Proof.
  induction os as [|o os IH]; intros ptrs w Ho P; cbn [run_ops]; [by apply triple_ret|]. apply Forall_cons in Ho as [Ho Hos].
  apply triple_bind. eapply triple_mono; [by apply triple_run_op|]. intros ptrs' w' P'. by apply IH.
Qed.

(** What a check that passes says. *)
Lemma check_inside w ptr size : ptr_ok w ptr → p_p ptr + size < size_mod →
  tryCheckDataPtrRangeIndirect (p_p ptr) size (p_validator ptr) w = inl (true, w) → accessible w (p_p ptr) size.
Proof.
  intros [_ Hok] Hlt. unfold tryCheckDataPtrRangeIndirect. destruct (_ || _) eqn:Hz; [done|]. apply orb_false_iff in Hz as [_ Hz%N.eqb_neq].
  destruct Hok as [|[val Hv] ]; [done|]. pose proof Hv as (H1 & _ & [box Hbox] & _). unfold mbind, Run_bind, get_validator, get_box. rewrite H1, Hbox.
  destruct (has_flag _ _); [done|]. intros Hc. injection Hc as Hc. apply negb_true_iff, orb_false_iff in Hc as [Hb%N.ltb_ge He%N.ltb_ge].
  rewrite add64_small in He by done. apply (inside_accessible w ptr). by exists val.
Qed.

Lemma memcpy_runs d p n w : in_range (w_regions w) d n = true → in_range (w_regions w) p n = true → d + n ≤ p ∨ p + n ≤ d →
  memcpy d p n w = inl (tt, set_bytes (write (w_bytes w) d (contents w p n)) w).
Proof.
  intros Hd Hp Ho. unfold memcpy. destruct (N.eqb_spec n 0) as [->|Hn]; [by rewrite contents_zero, write_nil|].
  unfold load, store, access, mbind, Run_bind, get. rewrite Hp. cbn [mret Run_ret].
  replace ((d + n <=? p) || (p + n <=? d)) with true by (symmetry; apply orb_true_iff; by rewrite !N.leb_le).
  cbn [mret Run_ret]. by rewrite length_read, N2Nat.id, Hd.
Qed.

(** C6: A program that gets new data and new arrays and pointers into foreign memory, and moves, limits, casts and invalidates the
    pointers it has, in any order, does nothing that is a fault; and whenever a pointer it then has passes the check the compiler puts before an access,
    the range is in one block of memory, if the range does not wrap around the end of the address space. The program itself does not
    access memory by its pointers; what the runtime accesses with no check before it ([strCpy] of a pointer before its range, [setPtr] of one
    behind it, checks of ranges that wrap around) is not covered, and is the subject of properties of its own. *)
Theorem data_ptr_safe foreign m os : foreign_ok foreign → Forall (op_ok foreign) os →
  triple (run_ops os []) (start_world foreign m) (λ ptrs w, ∀ ptr size, ptr ∈ ptrs → p_p ptr + size < size_mod →
    tryCheckDataPtrRangeIndirect (p_p ptr) size (p_validator ptr) w = inl (true, w) → accessible w (p_p ptr) size).
Proof.
  intros Hf Ho. eapply triple_mono; [apply (triple_run_ops foreign); [done|by apply start_world_ok]|]. intros ptrs w (_ & _ & Hp) ptr size Hin.
  apply check_inside. by apply (proj1 (Forall_forall _ _) Hp).
Qed.

(** C28: Limiting a pointer to [n] bytes. If the pointer is below the end of its range and has at least [n] bytes left, the result is
    the same address with the range that ends after [n] bytes, of the same box and with the same beginning; a pointer that has no
    validator, that is not below the end of its range, or that has fewer bytes left is not changed, and nothing is allocated. *)
Theorem limit_exact ptr n w : world_ok w → ptr_ok w ptr →
  triple (limitDataPtr ptr n) w (λ ptr' w', p_p ptr' = p_p ptr ∧ (p_validator ptr = 0 → ptr' = ptr ∧ w' = w) ∧
    ∀ val, has_validator w (p_validator ptr) val → if bool_decide (p_p ptr < v_rangeEnd val ∧ p_p ptr + n ≤ v_rangeEnd val)
      then ∃ vb, has_validator w' (p_validator ptr') (mkValidator vb (v_targetBox val) (v_rangeBegin val) (p_p ptr + n))
      else ptr' = ptr ∧ w' = w).
Proof.
  intros W Hptr. assert (Hone : ∀ v val val', has_validator w v val → has_validator w v val' → val = val') by (intros v val val' [? _] [? _]; congruence).
  apply triple_limitDataPtr; [done|done| |].
  - intros Hno. split; [done|]. split; [done|]. intros val Hv. destruct Hno as [Hz|(val' & Hv' & Hno)].
    + exfalso. by apply (has_validator_not_null _ _ _ W Hv).
    + rewrite bool_decide_false; [done|]. by rewrite (Hone _ _ _ Hv Hv').
  - intros val v w' vb Hv Hl W' G Hv'. split; [done|]. split; [intros Hz; exfalso; by apply (has_validator_not_null _ _ _ W Hv)|].
    intros val' Hv2. rewrite (Hone _ _ _ Hv2 Hv), bool_decide_true by done. by exists vb.
Qed.

(** The type of the elements at the end of [cast_elements]. *)
Fixpoint innermost (fuel : nat) (t : type) : type :=
  match fuel with
  | O => t
  | S fuel => match getElementType t with None => t | Some elem => innermost fuel elem end
  end.

(** Sizes are multiples of the size of the innermost elements. *)
Lemma innermost_size fuel t : getSize t ≠ 0 → ∃ k, getSize t = k * getSize (innermost fuel t) ∧ getSize (innermost fuel t) ≠ 0.
Proof.
  revert t. induction fuel as [|fuel IH]; intros t Ht; cbn [innermost]; [exists 1; split; [lia|done]|].
  destruct (getElementType t) as [e|] eqn:Hee; [|exists 1; split; [lia|done] ]. destruct (array_size t e Hee) as [c Hc].
  assert (He : getSize e ≠ 0) by (intros H0; rewrite H0, N.mul_0_r in Hc; done). destruct (IH e He) as (k & Hk & Hz).
  exists (c * k). split; [|done]. rewrite Hc, Hk at 1. by rewrite N.mul_assoc.
Qed.

Lemma cast_elements_exact fuel t p a : p ≤ a → 0 < getSize t → getElementType t ≠ None → fuel ≠ O →
  cast_elements fuel t p a = (innermost fuel t, p + getSize (innermost fuel t) * ((a - p) / getSize (innermost fuel t))).
Proof.
  revert t p. induction fuel as [|fuel IH]; intros t p Hp Hs Ht Hf; [done|]. cbn [cast_elements innermost].
  destruct (getElementType t) as [elem|] eqn:He; [|done]. destruct (array_size t elem He) as [count Hc].
  assert (He0 : getSize elem ≠ 0) by (intros H0; rewrite H0, N.mul_0_r in Hc; lia). rewrite (proj2 (N.eqb_neq _ _) He0).
  rewrite (element_start a p (getSize elem)) by done.
  destruct (decide (fuel = O)) as [->|Hf2]; [done|]. destruct (decide (getElementType elem = None)) as [Hn|Hn].
  { destruct fuel; [done|]. cbn [cast_elements innermost]. by rewrite Hn. }
  rewrite IH by (done || (by apply element_start_le) || lia). f_equal. destruct (innermost_size fuel elem He0) as (k & Hk & Hz).
  rewrite Hk in He0 |- *. by apply element_nested.
Qed.

(** C29: The dynamic cast of a data pointer to the type of the innermost elements of its box has the same range. In a box of an array
    type, of arrays of whatever depth, it is the beginning of the element the pointer is in. But a box that has the type of an
    element, as one of an array that was allocated by a count, or of a foreign buffer, has its count in its size only: the cast is then
    the beginning of the data of the box, that is its first element, whatever element the pointer is in. *)
Theorem dynamic_cast_element fuel ptr t w val box : has_validator w (p_validator ptr) val → p_validator ptr ≠ 0 →
  w_boxes w !! v_targetBox val = Some box → isClass (bx_type box) = false →
  let p := if has_flag (bx_flags box) BoxFlag_Detached then bx_p box else v_targetBox val + sizeof_DataBox in
  p ≤ p_p ptr → 0 < getSize (bx_type box) → fuel ≠ O → isEqual (innermost fuel (bx_type box)) t = true →
  let size := getSize (innermost fuel (bx_type box)) in
  dynamicCastDataPtr fuel ptr t w =
    inl (mkPtr (match getElementType (bx_type box) with Some _ => p + size * ((p_p ptr - p) / size) | None => p end) (p_validator ptr), w).
Proof.
  intros (Hv & _) Hz Hbox Hc p Hp Hs Hf Heq size. unfold dynamicCastDataPtr. rewrite (proj2 (N.eqb_neq _ _) Hz).
  unfold mbind, Run_bind, get_validator, get_box. rewrite Hv, Hbox, Hc. fold p. rewrite (proj2 (N.ltb_ge _ _)) by done.
  destruct (decide (getElementType (bx_type box) = None)) as [Hn|Hn].
  - destruct fuel as [|fuel]; [done|]. cbn [cast_elements innermost] in *. rewrite Hn in *. by rewrite Heq.
  - rewrite cast_elements_exact by done. rewrite Heq. by destruct (getElementType (bx_type box)).
Qed.

(** C38: A check passes when the end of the range wraps around to below that of the pointer: of a pointer close to the end of the
    address space, or for a size that large. The range is not in memory. *)
Theorem check_wraps ptr size w val : world_ok w → has_validator w (p_validator ptr) val → valid_box w val → p_p ptr ≠ 0 →
  v_rangeBegin val ≤ p_p ptr → p_p ptr < size_mod → size < size_mod → size_mod ≤ p_p ptr + size → p_p ptr + size ≤ size_mod + v_rangeEnd val →
  checkDataPtrRangeIndirect (p_p ptr) size (p_validator ptr) w = inl (tt, w) ∧ ¬ accessible w (p_p ptr) size.
Proof.
  intros W Hv (box & Hbox & Hinv) Hp Hb Hlt Hs Hw He. split.
  - unfold checkDataPtrRangeIndirect, tryCheckDataPtrRangeIndirect. rewrite (proj2 (N.eqb_neq _ _) Hp), (proj2 (N.eqb_neq _ _) (has_validator_not_null _ _ _ W Hv)).
    destruct Hv as (Hv & _). cbn [orb]. unfold mbind, Run_bind, get_validator, get_box. rewrite Hv, Hbox, Hinv.
    assert (E : add64 (p_p ptr) size = p_p ptr + size - size_mod).
    { unfold add64, wrap64. symmetry. apply (N.mod_unique _ _ 1); lia. }
    rewrite E, (proj2 (N.ltb_ge _ _)), (proj2 (N.ltb_ge _ _)) by lia. done.
  - intros [->|H]; [lia|]. apply in_range_spec in H as (b & s & Hin & H1 & H2). destruct (wo_regions _ W b s Hin) as (c & n & Hc & H3 & H4).
    destruct (wo_blocks _ W c n Hc). lia.
Qed.

(** [std.sort] of [2 ^ 61] variants passes its check wherever the pointer is in its range, for the size in bytes wraps around to zero. *)
Theorem variant_sort_unchecked ptr w : world_ok w → inside w ptr 0 → p_p ptr ≠ 0 → (∀ val, has_validator w (p_validator ptr) val → valid_box w val) →
  variantSort_range ptr (2 ^ 61) w = inl ((p_p ptr, 2 ^ 61 * sizeof_Variant), w) ∧ ¬ accessible w (p_p ptr) (2 ^ 61 * sizeof_Variant).
Proof.
  intros W (val & Hv & Hb & He) Hp Hvalid. destruct (Hvalid val Hv) as (box & Hbox & Hinv). split.
  - unfold variantSort_range. change (2 <=? 2 ^ 61) with true. cbn match. change (mul64 (2 ^ 61) sizeof_Variant) with 0.
    unfold checkDataPtrRangeIndirect, tryCheckDataPtrRangeIndirect. rewrite (proj2 (N.eqb_neq _ _) Hp), (proj2 (N.eqb_neq _ _) (has_validator_not_null _ _ _ W Hv)).
    pose proof Hv as (Hv' & _ & _ & Hlt & _). cbn [orb]. unfold mbind, Run_bind, get_validator, get_box. rewrite Hv', Hbox, Hinv.
    rewrite add64_small, N.add_0_r, (proj2 (N.ltb_ge _ _)), (proj2 (N.ltb_ge _ _)) by lia. done.
  - intros [H|H]; [done|]. apply in_range_spec in H as (b & s & Hin & H1 & H2). destruct (wo_regions _ W b s Hin) as (c & n & Hc & H3 & H4).
    destruct (wo_blocks _ W c n Hc). unfold sizeof_Variant, size_mod in *. lia.
Qed.

(** C17: The concatenation of a part of a string and another string is that of the lists of bytes, and it can be had with a zero behind it;
    nothing else in memory changes. *)
Theorem string_concatenation s1 s2 l1 l2 k w : world_ok w → string_is w s1 l1 → string_is w s2 l2 →
  s_length s1 + s_length s2 + 1 + sizeof_DataBox < size_mod →
  triple (s ← stringConcatenate (stringIncrement s1 k) s2; sz ← stringSz s; mret (s, sz)) w (λ '(s, sz) w',
    grows w w' ∧ string_is w' s (drop (N.to_nat k) l1 ++ l2) ∧
    (drop (N.to_nat k) l1 ++ l2 ≠ [] → terminated w' sz (drop (N.to_nat k) l1 ++ l2))).
Proof.
  intros W S1 S2 Hlt. pose proof (string_increment w s1 l1 k S1) as S1'. pose proof (si_length _ _ _ S1) as L1. pose proof (si_length _ _ _ S1') as L1'.
  rewrite length_drop in L1'. apply triple_bind. eapply triple_stringConcatenate; [done|done|done|lia|]. intros s w' W' G S. apply triple_bind.
  pose proof (si_length _ _ _ S) as L. pose proof (si_length _ _ _ S2) as L2. rewrite length_app, length_drop in L.
  eapply triple_stringSz; [done|done|lia|]. intros sz w2 W2 G2 Hsz. apply triple_ret. split; [by eapply grows_trans|].
  split; [by apply (string_grows w')|]. intros Hne. by destruct Hsz as [|[? _] ].
Qed.

(** A pointer behind the end of its range makes a string of the bytes up to the end of the address space. *)
Theorem set_ptr_past_end ptr length w val : world_ok w → has_validator w (p_validator ptr) val → valid_box w val →
  v_rangeBegin val ≤ p_p ptr → v_rangeEnd val < p_p ptr → p_p ptr + length < size_mod →
  let n := size_mod - (p_p ptr - v_rangeEnd val) in
  setPtr ptr length w = inl (mkString ptr nullDataPtr n, w) ∧ ¬ accessible w (p_p ptr) n.
Proof.
  intros W Hv (box & Hbox & Hinv) Hb He Hlt n. split.
  - unfold setPtr. rewrite (proj2 (N.eqb_neq _ _) (has_validator_not_null _ _ _ W Hv)). destruct Hv as (Hv & _).
    unfold mbind, Run_bind, get_validator, get_box. rewrite Hv, (proj2 (N.ltb_ge _ _)), Hbox, Hinv by done.
    rewrite (proj2 (N.eqb_neq _ _)) by (unfold size_max, size_mod in *; lia). rewrite add64_small, (proj2 (N.ltb_ge _ _)) by lia.
    replace (sub64 (v_rangeEnd val) (p_p ptr)) with n; [done|]. unfold n, sub64, wrap64. symmetry. rewrite N.mod_small; unfold size_mod in *; lia.
  - intros [H|H]; [lia|]. apply in_range_spec in H as (b & s & Hin & H1 & H2). destruct (wo_regions _ W b s Hin) as (c & k & Hc & H3 & H4).
    destruct (wo_blocks _ W c k Hc). destruct Hv as (_ & _ & _ & Hend & _). lia.
Qed.
(** C39: [strCpy] looks at the end of the range of the destination only: a pointer moved to before its range is written through, although
    the check of any access by it fails. *)
Theorem strcpy_before_range dst src n w val : has_validator w (p_validator dst) val → p_validator dst ≠ 0 → p_p dst ≠ 0 →
  p_p dst < v_rangeBegin val → n < v_rangeEnd val - p_p dst → strLen src w = inl (n, w) → in_range (w_regions w) (p_p src) n = true →
  in_range (w_regions w) (p_p dst) (n + 1) = true → p_p dst + n ≤ p_p src ∨ p_p src + n ≤ p_p dst →
  strCpy dst src w = inl (tt, set_bytes (write (w_bytes w) (p_p dst) (contents w (p_p src) n ++ [Ascii.zero])) w) ∧
  tryCheckDataPtrRangeIndirect (p_p dst) 1 (p_validator dst) w = inl (false, w).
Proof.
  intros Hv Hz Hp Hb Hn Hlen Hsrc Hdst Ho. pose proof Hv as (H1 & _ & [box Hbox] & Hend & _). split.
  - unfold strCpy. rewrite (proj2 (N.eqb_neq _ _) Hz). unfold mbind, Run_bind at 1, get_validator. rewrite H1.
    rewrite (proj2 (N.ltb_lt _ _)) by lia. unfold Run_bind at 1. rewrite Hlen, (proj2 (N.leb_gt _ _)) by done.
    rewrite add64_small by lia. unfold Run_bind. rewrite memcpy_runs; [|by eapply in_range_weaken; [exact Hdst|lia..]|done|done].
    unfold store, access, mbind, Run_bind, get. rewrite (in_range_weaken _ _ _ _ _ Hdst) by (cbn; lia). unfold modify. cbn.
    by rewrite write_append, length_contents, N2Nat.id.
  - unfold tryCheckDataPtrRangeIndirect. rewrite (proj2 (N.eqb_neq _ _) Hp), (proj2 (N.eqb_neq _ _) Hz). unfold mbind, Run_bind, get_validator, get_box.
    cbn [orb]. rewrite H1, Hbox. destruct (has_flag _ _); [done|]. by rewrite (proj2 (N.ltb_lt _ _)) by done.
Qed.
End programs.

(** ** Programs that run *)

(** A few types: a struct has its base 8 bytes from its beginning. *)
Inductive ty := TyChar | TyInt | TyBase | TyDerived | TyValidator | TyForeignBox | TyArray (count : N) (elem : ty).

Fixpoint ty_size (t : ty) : N :=
  match t with
  | TyChar => 1 | TyInt => 4 | TyBase => 4 | TyDerived => 12 | TyValidator => 32 | TyForeignBox => 56
  | TyArray count elem => count * ty_size elem
  end.

#[global] Instance ty_dec : EqDecision ty.
Proof. solve_decision. Defined.

#[local] Instance some_types : DataTypes := {|
  type := ty;
  getSize := ty_size;
  isClass _ := false;
  getElementType t := match t with TyArray _ elem => Some elem | _ => None end;
  isStruct t := match t with TyBase | TyDerived => true | _ => false end;
  isEqual t1 t2 := bool_decide (t1 = t2);
  findBaseTypeOffset t b := match t, b with TyDerived, TyBase => Some 8 | _, _ => None end;
  type_char := TyChar;
  type_validator := TyValidator;
  type_detachedDataBox := TyForeignBox
|}.

#[local] Instance some_types_laws : DataTypesLaws some_types.
Proof.
  split; [done..| |].
  - intros [] e; try done. intros [= <-]. by eexists.
  - intros [] [] off; try done. intros [= <-]. by cbn.
Qed.

#[local] Existing Instance bump_malloc.
#[local] Existing Instance bump_malloc_laws.

(** What a program that is run from the start ends with. *)
Definition ops_result (foreign : list (N * N)) (m : bytes) (os : list op) : list DataPtr * World :=
  match run_ops os [] (start_world foreign m) with inl r => r | inr _ => ([], start_world foreign m) end.

Definition ops_run (foreign : list (N * N)) (m : bytes) (os : list op) : bool :=
  match run_ops os [] (start_world foreign m) with inl _ => true | inr _ => false end.

Lemma ops_result_ok foreign m os : foreign_ok foreign → Forall (op_ok foreign) os → ops_run foreign m os = true →
  program_ok foreign (ops_result foreign m os).1 (ops_result foreign m os).2.
Proof.
  intros Hf Ho Hr. pose proof (triple_run_ops foreign os [] _ Ho (start_world_ok foreign m Hf)) as Ht. unfold triple, triple_result in Ht.
  unfold ops_result, ops_run in *. by destruct (run_ops _ _ _) as [ [ptrs w]|].
Qed.

Lemma one_foreign_ok : foreign_ok [(4096, 64)].
Proof. split; [by intros a n [= -> ->]%list_elem_of_singleton|]. intros a n b s [= -> ->]%list_elem_of_singleton [= -> ->]%list_elem_of_singleton. by left. Qed.

(** The foreign memory has some text. *)
Definition text : bytes := write ∅ 4096 ["h"; "i"; "!"; Ascii.zero]%char.

(** An array of two arrays of three ints and a pointer into its second one; foreign memory, with the end of the pointer limited and moved
    away; an array of structs, a pointer into it, cast, and one that is moved to before its range. *)
Definition some_ops : list op :=
  [OpArray (TyArray 3 TyInt) 2; OpOffset 0 18; OpForeign 4096 64 false; OpLimit 2 16; OpData (TyArray 2 TyDerived); OpOffset 4 15; OpCast 4 5 TyDerived;
   OpCast 4 5 TyBase; OpOffset 3 100; OpOffset 4 18446744073709549544; OpForeign 4104 4 true; OpInvalidate 10].

Definition some_world : World := (ops_result [(4096, 64)] text some_ops).2.
Definition some_ptr (i : nat) : DataPtr := nth i (ops_result [(4096, 64)] text some_ops).1 nullDataPtr.

Lemma some_ops_ok : Forall (op_ok [(4096, 64)]) some_ops.
Proof. repeat constructor. Qed.

Lemma some_ops_run : ops_run [(4096, 64)] text some_ops = true.
Proof. by vm_compute. Qed.

Lemma some_world_ok : world_ok some_world.
Proof. apply (ops_result_ok [(4096, 64)] text some_ops one_foreign_ok some_ops_ok some_ops_run). Qed.

(** The heads of the pools are not given to the program; everything else is valid. *)
Lemma some_validator v val : v ≠ 4408 → v ≠ 5256 → w_validators some_world !! v = Some val → has_validator some_world v val.
Proof.
  intros H1 H2 Hval. assert (Hh : ¬ is_head some_world v).
  { intros [k [_ Hv] ]. clear Hval. destruct k; vm_compute in Hv; contradiction. }
  destruct (wo_validator _ some_world_ok v val Hval) as [H|H]; [by destruct (Hh H)|]. exact (conj Hval (conj Hh H)).
Qed.

Definition flags_of (w : World) (b : N) : option N := bx_flags <$> w_boxes w !! b.

Lemma flags_valid w val fl : flags_of w (v_targetBox val) = Some fl → has_flag fl BoxFlag_Invalid = false → valid_box w val.
Proof. unfold flags_of, valid_box. destruct (w_boxes w !! v_targetBox val) as [box|]; [|done]. intros [= <-] H. by exists box. Qed.

(** The foreign memory, and its first 16 bytes. *)
Definition foreign_val : Validator := mkValidator 4232 4280 4096 4160.
Definition limited_val : Validator := mkValidator 5176 4280 4096 4112.

Lemma foreign_val_ok : has_validator some_world (p_validator (some_ptr 2)) foreign_val.
Proof. apply some_validator; by vm_compute. Qed.

Lemma limited_val_ok : has_validator some_world (p_validator (some_ptr 8)) limited_val.
Proof. apply some_validator; by vm_compute. Qed.

(** A pointer that was invalidated fails the check, and the limited one passes up to its new end. *)
Definition passes (ptr : DataPtr) (size : N) : option bool :=
  match tryCheckDataPtrRangeIndirect (p_p ptr) size (p_validator ptr) some_world with inl (b, _) => Some b | inr _ => None end.

Lemma data_ptr_safe_witness :
  map (λ '(i, size), passes (some_ptr i) size) [(2%nat, 64); (2%nat, 65); (3%nat, 16); (3%nat, 17); (6%nat, 12); (8%nat, 0); (9%nat, 1); (11%nat, 1)] =
    map Some [true; false; true; false; true; false; false; false] ∧
  triple (run_ops some_ops []) (start_world [(4096, 64)] text) (λ ptrs w, ∀ ptr size, ptr ∈ ptrs → p_p ptr + size < size_mod →
    tryCheckDataPtrRangeIndirect (p_p ptr) size (p_validator ptr) w = inl (true, w) → accessible w (p_p ptr) size).
Proof. split; [by vm_compute|]. apply (data_ptr_safe [(4096, 64)] text some_ops); [apply one_foreign_ok|apply some_ops_ok]. Defined.

(** The 64 bytes are limited to 7, and not to 65. *)
Lemma limit_exact_witness :
  triple (limitDataPtr (some_ptr 2) 7) some_world (λ ptr' w', p_p ptr' = 4096 ∧
    ∃ vb, has_validator w' (p_validator ptr') (mkValidator vb 4280 4096 4103)) ∧
  triple (limitDataPtr (some_ptr 2) 65) some_world (λ ptr' w', ptr' = some_ptr 2 ∧ w' = some_world).
Proof.
  assert (Hok : ptr_ok some_world (some_ptr 2)) by (split; [by vm_compute|right; exists foreign_val; apply foreign_val_ok]).
  split.
  - eapply triple_mono; [apply (limit_exact (some_ptr 2) 7 some_world); [apply some_world_ok|exact Hok]|].
    intros ptr' w' (H1 & _ & H2). split; [exact H1|]. exact (H2 foreign_val foreign_val_ok).
  - eapply triple_mono; [apply (limit_exact (some_ptr 2) 65 some_world); [apply some_world_ok|exact Hok]|].
    intros ptr' w' (H1 & _ & H2). exact (H2 foreign_val foreign_val_ok).
Defined.

Lemma check_wraps_witness :
  checkDataPtrRangeIndirect (p_p (some_ptr 2)) (size_mod - 4000) (p_validator (some_ptr 2)) some_world = inl (tt, some_world) ∧
  ¬ accessible some_world (p_p (some_ptr 2)) (size_mod - 4000).
Proof.
  apply (check_wraps (some_ptr 2) _ some_world foreign_val); [apply some_world_ok|apply foreign_val_ok|..]; try by vm_compute.
  eapply flags_valid; by vm_compute.
Defined.

Lemma variant_sort_unchecked_witness :
  variantSort_range (some_ptr 2) (2 ^ 61) some_world = inl ((p_p (some_ptr 2), 2 ^ 61 * sizeof_Variant), some_world) ∧
  ¬ accessible some_world (p_p (some_ptr 2)) (2 ^ 61 * sizeof_Variant).
Proof.
  apply variant_sort_unchecked; [apply some_world_ok|exists foreign_val; split; [apply foreign_val_ok|by vm_compute]|by vm_compute|].
  intros val [Hv _]. destruct foreign_val_ok as [Hf _]. assert (val = foreign_val) as -> by congruence. eapply flags_valid; by vm_compute.
Defined.

Lemma set_ptr_past_end_witness :
  setPtr (some_ptr 8) 5 some_world = inl (mkString (some_ptr 8) nullDataPtr (size_mod - 84), some_world) ∧
  ¬ accessible some_world (p_p (some_ptr 8)) (size_mod - 84).
Proof.
  apply (set_ptr_past_end (some_ptr 8) 5 some_world limited_val); [apply some_world_ok|apply limited_val_ok|..]; try by vm_compute.
  eapply flags_valid; by vm_compute.
Defined.

(** A cast to the ints of an array of arrays, from inside the second int of the second array. *)
Lemma some_box w b t fl : bx_type <$> w_boxes w !! b = Some t → flags_of w b = Some fl →
  ∃ box, w_boxes w !! b = Some box ∧ bx_type box = t ∧ bx_flags box = fl.
Proof. unfold flags_of. destruct (w_boxes w !! b) as [box|]; [|done]. intros [= <-] [= <-]. by exists box. Qed.

Lemma dynamic_cast_element_witness : p_p (some_ptr 1) = 4226 ∧
  dynamicCastDataPtr 5 (some_ptr 1) TyInt some_world = inl (mkPtr 4224 (p_validator (some_ptr 1)), some_world) ∧
  dynamicCastDataPtr 5 (getOffsetPtr (some_ptr 2) 3) TyChar some_world = inl (some_ptr 2, some_world).
Proof.
  split; [by vm_compute|]. split.
  - destruct (some_box some_world 4160 (TyArray 3 TyInt) 131) as (box & Hbox & Ht & Hf); [by vm_compute..|].
    assert (Hv : has_validator some_world (p_validator (some_ptr 1)) (mkValidator 4160 4160 4208 4232)) by (apply some_validator; by vm_compute).
    pose proof (dynamic_cast_element 5 (some_ptr 1) TyInt some_world _ box Hv) as Hcast. rewrite Ht, Hf in Hcast.
    apply Hcast; (exact Hbox || by vm_compute).
  - destruct (some_box some_world 4280 TyChar 387) as (box & Hbox & Ht & Hf); [by vm_compute..|].
    assert (Hp : bx_p <$> w_boxes some_world !! 4280 = Some 4096) by (by vm_compute). rewrite Hbox in Hp. injection Hp as Hp.
    pose proof (dynamic_cast_element 5 (getOffsetPtr (some_ptr 2) 3) TyChar some_world _ box foreign_val_ok) as Hcast. rewrite Ht, Hf, Hp in Hcast.
    apply Hcast; (exact Hbox || by vm_compute).
Defined.

Definition text_part (i : nat) (offset n : N) : String := mkString (getOffsetPtr (some_ptr i) offset) nullDataPtr n.

Lemma text_part_is offset n : offset + n ≤ 64 → string_is some_world (text_part 2 offset n) (contents some_world (4096 + offset) n).
Proof.
  intros Hle. assert (E : p_p (getOffsetPtr (some_ptr 2) offset) = 4096 + offset).
  { unfold getOffsetPtr. cbn [p_p]. change (p_p (some_ptr 2)) with (4096 : N). apply add64_small. unfold size_mod. lia. }
  assert (Hin : inside some_world (getOffsetPtr (some_ptr 2) offset) n).
  { exists foreign_val. split; [exact foreign_val_ok|]. rewrite E. cbn [foreign_val v_rangeBegin v_rangeEnd]. lia. }
  split; cbn [text_part s_ptr s_ptr_sz s_length nullDataPtr p_p].
  - by rewrite length_contents, N2Nat.id.
  - by eapply inside_ok.
  - right. split; [exact Hin|]. rewrite E. split; [lia|done].
  - by left.
Qed.

Lemma string_concatenation_witness :
  contents some_world 4096 3 = ["h"; "i"; "!"]%char ∧ contents some_world 4097 1 = ["i"]%char ∧
  triple (s ← stringConcatenate (stringIncrement (text_part 2 0 3) 1) (text_part 2 1 1); sz ← stringSz s; mret (s, sz)) some_world (λ '(s, sz) w',
    grows some_world w' ∧ string_is w' s (drop 1 (contents some_world 4096 3) ++ contents some_world 4097 1) ∧
    (drop 1 (contents some_world 4096 3) ++ contents some_world 4097 1 ≠ [] →
      terminated w' sz (drop 1 (contents some_world 4096 3) ++ contents some_world 4097 1))).
Proof.
  split; [by vm_compute|]. split; [by vm_compute|].
  apply (string_concatenation (text_part 2 0 3) (text_part 2 1 1) (contents some_world 4096 3) (contents some_world 4097 1) 1 some_world);
    [apply some_world_ok|apply (text_part_is 0 3)|apply (text_part_is 1 1)|]; by vm_compute.
Defined.

Lemma strLen_result src n w : match strLen src w with inl (n', _) => Some n' | inr _ => None end = Some n → strLen src w = inl (n, w).
Proof.
  unfold strLen, mbind, Run_bind, get_validator, get_box. destruct (_ =? _); [by intros [= ->]|]. destruct (w_validators w !! _) as [v|]; [|done].
  destruct (_ <? _); [by intros [= ->]|]. destruct (w_boxes w !! _) as [box|]; [|done]. destruct (has_flag _ _); [by intros [= ->]|].
  unfold memchr, load, access, mbind, Run_bind, get. destruct (_ =? 0); [by intros [= ->]|]. destruct (in_range _ _ _); [|done]. cbn [mret Run_ret].
  destruct (list_find _ _) as [ [i x]|]; [by intros [= <-]|]. destruct (_ <=? _); [|done]. by intros [= ->].
Qed.

(** The text is copied into an array that has nothing to do with the pointer. *)
Lemma strcpy_before_range_witness :
  strCpy (some_ptr 9) (some_ptr 2) some_world = inl (tt, set_bytes (write (w_bytes some_world) (p_p (some_ptr 9))
    (contents some_world (p_p (some_ptr 2)) 3 ++ [Ascii.zero])) some_world) ∧
  tryCheckDataPtrRangeIndirect (p_p (some_ptr 9)) 1 (p_validator (some_ptr 9)) some_world = inl (false, some_world).
Proof.
  apply (strcpy_before_range (some_ptr 9) (some_ptr 2) 3 some_world (mkValidator 6248 6248 6296 6320)); [apply some_validator; by vm_compute|..];
    [by vm_compute..|apply strLen_result; by vm_compute|by vm_compute|by vm_compute|right; by vm_compute].
Defined.
