(* ===== verification/ControlFlow.v ===== *)
(** * Control flow: scopes, exceptions and [finally]

    Models [src/src/jnc_ct/jnc_ct_ControlFlowMgr] and the scopes of
    [src/src/jnc_ct/jnc_ct_NamespaceMgr]: how the statements of a function become basic blocks. A
    scope may have a [catch] and a [finally]; what leaves it with [break], [continue], [return] or a
    throw goes through the [finally] blocks in between, each of which ends with a switch on the route
    taken. Exceptions of the runtime are [longjmp]s to the frame that is current.

    The functions here are those of the code, with the actions of the grammar [jnc_ct_Stmt.llk]
    in [compile]. What expressions evaluate to is left to the machine, which has
    the numbers of the actions and the conditions. *)

From S2P Require Import Prelude.

Open Scope nat_scope.

(** ** Code *)

(** What a function returns: a value, or the error a [throw] or a failed check stands for. *)
Inductive rval := RVal (n : nat) | RError (check : option nat).

(** Instructions. [ISetJmpBr] is the call of [setjmp] for a frame and the branch on its result. Frame [None] is the one of the
    caller, route [None] is [-1]. *)
Inductive instr :=
  | IAct (n : nat)
  | IStoreRoute (r : option nat)
  | ISetFrame (k : option nat)
  | IStoreRet (v : rval)
  | IBr (b : nat)
  | ICondBr (c b1 b2 : nat)
  | ISetJmpBr (k b1 b2 : nat)
  | ISwitch (routes : list (nat * nat)) (b : nat)
  | IRet (v : option rval)
  | IRetSaved
  | IThrow
  | IUnreachable.

Definition is_terminator (i : instr) : bool :=
  match i with IBr _ | ICondBr _ _ _ | ISetJmpBr _ _ _ | ISwitch _ _ | IRet _ | IRetSaved | IUnreachable => true | _ => false end.

(** [BasicBlock]: [b_mask] are the flags of [BasicBlockFlag_LandingPadMask]. *)
Record Block := mkBlock {
  b_code : list instr;
  b_reachable : bool;
  b_return : bool;
  b_mask : nat;
  b_landingPadScope : option nat;
  b_finallyRouteMap : list (nat * nat)
}.

(** The block a route leads to. *)
Definition find_key (r : nat) (l : list (nat * nat)) : option nat := x ← list_find (λ x, fst x = r) l; Some (snd (snd x)).

Definition new_block (reachable : bool) : Block := mkBlock [] reachable false 0 None [].

Definition EscapeScopeLandingPad : nat := 16.
Definition ExceptionLandingPad : nat := 32.

Definition hasTerminator (b : Block) : bool := match last (b_code b) with Some i => is_terminator i | None => false end.

(** [ScopeFlag] *)
Record Flags := mkFlags {
  f_Function : bool; f_Try : bool; f_Catch : bool; f_Finally : bool;
  f_CatchAhead : bool; f_FinallyAhead : bool; f_Finalizable : bool; f_HasCatch : bool
}.

Definition no_flags : Flags := mkFlags false false false false false false false false.

Definition flags_or (a b : Flags) : Flags :=
  mkFlags (f_Function a || f_Function b) (f_Try a || f_Try b) (f_Catch a || f_Catch b) (f_Finally a || f_Finally b)
    (f_CatchAhead a || f_CatchAhead b) (f_FinallyAhead a || f_FinallyAhead b) (f_Finalizable a || f_Finalizable b) (f_HasCatch a || f_HasCatch b).

Definition Flag_Function : Flags := mkFlags true false false false false false false false.
Definition Flag_Catch : Flags := mkFlags false false true false false false false false.
Definition Flag_Finally : Flags := mkFlags false false false true false false false false.
Definition Flag_CatchAhead : Flags := mkFlags false false false false true false false false.

(** What a scope gets from its parent. *)
Definition inherited (f : Flags) : Flags := mkFlags false false false false false false (f_Finalizable f) (f_HasCatch f).

Definition clear_Try (f : Flags) : Flags :=
  mkFlags (f_Function f) false (f_Catch f) (f_Finally f) (f_CatchAhead f) (f_FinallyAhead f) (f_Finalizable f) (f_HasCatch f).
Definition clear_Catch (f : Flags) : Flags :=
  mkFlags (f_Function f) (f_Try f) false (f_Finally f) (f_CatchAhead f) (f_FinallyAhead f) (f_Finalizable f) (f_HasCatch f).
Definition clear_Finally (f : Flags) : Flags :=
  mkFlags (f_Function f) (f_Try f) (f_Catch f) false (f_CatchAhead f) (f_FinallyAhead f) (f_Finalizable f) (f_HasCatch f).

(** [Scope]; [sc_frame] is [m_sjljFrameIdx]. *)
Record Scope := mkScope {
  sc_flags : Flags;
  sc_breakBlock : option nat;
  sc_continueBlock : option nat;
  sc_catchBlock : option nat;
  sc_finallyBlock : option nat;
  sc_frame : option nat
}.

Definition new_scope (f : Flags) (frame : option nat) : Scope := mkScope f None None None None frame.

Definition sc_set_flags (v : Flags) (s : Scope) : Scope := mkScope v (sc_breakBlock s) (sc_continueBlock s) (sc_catchBlock s) (sc_finallyBlock s) (sc_frame s).
Definition sc_set_loop (b c : option nat) (s : Scope) : Scope := mkScope (sc_flags s) b c (sc_catchBlock s) (sc_finallyBlock s) (sc_frame s).
Definition sc_set_catch (v : option nat) (s : Scope) : Scope := mkScope (sc_flags s) (sc_breakBlock s) (sc_continueBlock s) v (sc_finallyBlock s) (sc_frame s).
Definition sc_set_finally (v : option nat) (s : Scope) : Scope := mkScope (sc_flags s) (sc_breakBlock s) (sc_continueBlock s) (sc_catchBlock s) v (sc_frame s).
Definition sc_set_frame (v : option nat) (s : Scope) : Scope := mkScope (sc_flags s) (sc_breakBlock s) (sc_continueBlock s) (sc_catchBlock s) (sc_finallyBlock s) v.

(** ** The state of the compiler *)

(** [ControlFlowMgr] and the scope stack of [NamespaceMgr], the current scope first. Scope 0 is that of the function. *)
Record CState := mkCState {
  c_blocks : gmap nat Block;
  c_blockCount : nat;
  c_scopes : gmap nat Scope;
  c_scopeCount : nat;
  c_scopeStack : list nat;
  m_currentBlock : nat;
  m_unreachableBlock : option nat;
  m_returnBlock : option nat;
  m_dynamicThrowBlock : option nat;
  m_catchFinallyFollowBlock : option nat;
  c_nextRouteIdx : nat;
  m_finallyRouteIdxVariable : bool;
  m_sjljFrameArrayValue : bool;
  m_sjljFrameCount : nat
}.

Definition set_blocks v c := mkCState v (c_blockCount c) (c_scopes c) (c_scopeCount c) (c_scopeStack c) (m_currentBlock c) (m_unreachableBlock c) (m_returnBlock c) (m_dynamicThrowBlock c) (m_catchFinallyFollowBlock c) (c_nextRouteIdx c) (m_finallyRouteIdxVariable c) (m_sjljFrameArrayValue c) (m_sjljFrameCount c).
Definition set_blockCount v c := mkCState (c_blocks c) v (c_scopes c) (c_scopeCount c) (c_scopeStack c) (m_currentBlock c) (m_unreachableBlock c) (m_returnBlock c) (m_dynamicThrowBlock c) (m_catchFinallyFollowBlock c) (c_nextRouteIdx c) (m_finallyRouteIdxVariable c) (m_sjljFrameArrayValue c) (m_sjljFrameCount c).
Definition set_scopes v c := mkCState (c_blocks c) (c_blockCount c) v (c_scopeCount c) (c_scopeStack c) (m_currentBlock c) (m_unreachableBlock c) (m_returnBlock c) (m_dynamicThrowBlock c) (m_catchFinallyFollowBlock c) (c_nextRouteIdx c) (m_finallyRouteIdxVariable c) (m_sjljFrameArrayValue c) (m_sjljFrameCount c).
Definition set_scopeCount v c := mkCState (c_blocks c) (c_blockCount c) (c_scopes c) v (c_scopeStack c) (m_currentBlock c) (m_unreachableBlock c) (m_returnBlock c) (m_dynamicThrowBlock c) (m_catchFinallyFollowBlock c) (c_nextRouteIdx c) (m_finallyRouteIdxVariable c) (m_sjljFrameArrayValue c) (m_sjljFrameCount c).
Definition set_scopeStack v c := mkCState (c_blocks c) (c_blockCount c) (c_scopes c) (c_scopeCount c) v (m_currentBlock c) (m_unreachableBlock c) (m_returnBlock c) (m_dynamicThrowBlock c) (m_catchFinallyFollowBlock c) (c_nextRouteIdx c) (m_finallyRouteIdxVariable c) (m_sjljFrameArrayValue c) (m_sjljFrameCount c).
Definition set_currentBlock v c := mkCState (c_blocks c) (c_blockCount c) (c_scopes c) (c_scopeCount c) (c_scopeStack c) v (m_unreachableBlock c) (m_returnBlock c) (m_dynamicThrowBlock c) (m_catchFinallyFollowBlock c) (c_nextRouteIdx c) (m_finallyRouteIdxVariable c) (m_sjljFrameArrayValue c) (m_sjljFrameCount c).
Definition set_unreachableBlock v c := mkCState (c_blocks c) (c_blockCount c) (c_scopes c) (c_scopeCount c) (c_scopeStack c) (m_currentBlock c) v (m_returnBlock c) (m_dynamicThrowBlock c) (m_catchFinallyFollowBlock c) (c_nextRouteIdx c) (m_finallyRouteIdxVariable c) (m_sjljFrameArrayValue c) (m_sjljFrameCount c).
Definition set_returnBlock v c := mkCState (c_blocks c) (c_blockCount c) (c_scopes c) (c_scopeCount c) (c_scopeStack c) (m_currentBlock c) (m_unreachableBlock c) v (m_dynamicThrowBlock c) (m_catchFinallyFollowBlock c) (c_nextRouteIdx c) (m_finallyRouteIdxVariable c) (m_sjljFrameArrayValue c) (m_sjljFrameCount c).
Definition set_dynamicThrowBlock v c := mkCState (c_blocks c) (c_blockCount c) (c_scopes c) (c_scopeCount c) (c_scopeStack c) (m_currentBlock c) (m_unreachableBlock c) (m_returnBlock c) v (m_catchFinallyFollowBlock c) (c_nextRouteIdx c) (m_finallyRouteIdxVariable c) (m_sjljFrameArrayValue c) (m_sjljFrameCount c).
Definition set_followBlock v c := mkCState (c_blocks c) (c_blockCount c) (c_scopes c) (c_scopeCount c) (c_scopeStack c) (m_currentBlock c) (m_unreachableBlock c) (m_returnBlock c) (m_dynamicThrowBlock c) v (c_nextRouteIdx c) (m_finallyRouteIdxVariable c) (m_sjljFrameArrayValue c) (m_sjljFrameCount c).
Definition set_nextRouteIdx v c := mkCState (c_blocks c) (c_blockCount c) (c_scopes c) (c_scopeCount c) (c_scopeStack c) (m_currentBlock c) (m_unreachableBlock c) (m_returnBlock c) (m_dynamicThrowBlock c) (m_catchFinallyFollowBlock c) v (m_finallyRouteIdxVariable c) (m_sjljFrameArrayValue c) (m_sjljFrameCount c).
Definition set_routeVariable v c := mkCState (c_blocks c) (c_blockCount c) (c_scopes c) (c_scopeCount c) (c_scopeStack c) (m_currentBlock c) (m_unreachableBlock c) (m_returnBlock c) (m_dynamicThrowBlock c) (m_catchFinallyFollowBlock c) (c_nextRouteIdx c) v (m_sjljFrameArrayValue c) (m_sjljFrameCount c).
Definition set_frameArray v c := mkCState (c_blocks c) (c_blockCount c) (c_scopes c) (c_scopeCount c) (c_scopeStack c) (m_currentBlock c) (m_unreachableBlock c) (m_returnBlock c) (m_dynamicThrowBlock c) (m_catchFinallyFollowBlock c) (c_nextRouteIdx c) (m_finallyRouteIdxVariable c) v (m_sjljFrameCount c).
Definition set_frameCount v c := mkCState (c_blocks c) (c_blockCount c) (c_scopes c) (c_scopeCount c) (c_scopeStack c) (m_currentBlock c) (m_unreachableBlock c) (m_returnBlock c) (m_dynamicThrowBlock c) (m_catchFinallyFollowBlock c) (c_nextRouteIdx c) (m_finallyRouteIdxVariable c) (m_sjljFrameArrayValue c) v.

Definition blk (c : CState) (b : nat) : Block := default (new_block false) (c_blocks c !! b).
Definition scope (c : CState) (s : nat) : Scope := default (new_scope no_flags None) (c_scopes c !! s).

(** An error of the program that is compiled, or a failed assertion of the compiler. *)
Inductive cerror := CompileError | AssertFailed.

Definition Comp (A : Type) : Type := CState → (A * CState) + cerror.

#[export] Instance Comp_ret : MRet Comp := λ A x c, inl (x, c).
#[export] Instance Comp_bind : MBind Comp := λ A B f m c, match m c with inl (x, c) => f x c | inr e => inr e end.

Definition fail {A} (e : cerror) : Comp A := λ c, inr e.
Definition get {A} (f : CState → A) : Comp A := λ c, inl (f c, c).
Definition modify (f : CState → CState) : Comp unit := λ c, inl (tt, f c).
Definition assert (b : bool) : Comp unit := if b then mret tt else fail AssertFailed.
Definition assert_some {A} (x : option A) : Comp A := match x with Some x => mret x | None => fail AssertFailed end.

Definition upd_blk (b : nat) (f : Block → Block) (c : CState) : CState := set_blocks (<[b := f (blk c b)]> (c_blocks c)) c.
Definition upd_scp (s : nat) (f : Scope → Scope) (c : CState) : CState := set_scopes (<[s := f (scope c s)]> (c_scopes c)) c.

Definition b_emit (i : instr) (b : Block) : Block := mkBlock (b_code b ++ [i]) (b_reachable b) (b_return b) (b_mask b) (b_landingPadScope b) (b_finallyRouteMap b).
Definition b_reach (v : bool) (b : Block) : Block := mkBlock (b_code b) (b_reachable b || v) (b_return b) (b_mask b) (b_landingPadScope b) (b_finallyRouteMap b).
Definition b_set_return (b : Block) : Block := mkBlock (b_code b) (b_reachable b) true (b_mask b) (b_landingPadScope b) (b_finallyRouteMap b).
Definition b_mark (flags s : nat) (b : Block) : Block :=
  mkBlock (b_code b) (b_reachable b) (b_return b) (Nat.lor (b_mask b) flags) (Some s) (b_finallyRouteMap b).
Definition b_route (r x : nat) (b : Block) : Block :=
  mkBlock (b_code b) (b_reachable b) (b_return b) (b_mask b) (b_landingPadScope b) (b_finallyRouteMap b ++ [(r, x)]).

Definition emit (i : instr) : Comp unit := modify (λ c, upd_blk (m_currentBlock c) (b_emit i) c).
Definition reach (b : nat) (v : bool) : Comp unit := modify (upd_blk b (b_reach v)).
Definition reachable (c : CState) : bool := b_reachable (blk c (m_currentBlock c)).
Definition upd_scope (s : nat) (f : Scope → Scope) : Comp unit := modify (upd_scp s f).

Definition currentScope : Comp nat := stack ← get c_scopeStack; match stack with s :: _ => mret s | [] => fail AssertFailed end.

Section function.
(** The type of the function: [errorcode] functions do not return [void]. *)
Context (isVoid isErrorCode : bool).

(** ** Blocks *)

Definition createBlock (flagReachable : bool) : Comp nat :=
  b ← get c_blockCount;
  _ ← modify (λ c, set_blockCount (S b) (set_blocks (<[b := new_block flagReachable]> (c_blocks c)) c));
  mret b.

Definition setCurrentBlock (b : nat) : Comp nat :=
  prev ← get m_currentBlock;
  _ ← modify (set_currentBlock b);
  mret prev.

Definition markUnreachable (b : nat) : Comp unit :=
  prev ← setCurrentBlock b;
  _ ← emit IUnreachable;
  _ ← setCurrentBlock prev;
  mret tt.

Definition getUnreachableBlock : Comp nat :=
  found ← get m_unreachableBlock;
  match found with
  | Some b => mret b
  | None =>
    b ← createBlock false;
    _ ← modify (set_unreachableBlock (Some b));
    _ ← markUnreachable b;
    mret b
  end.

Definition getReturnBlock : Comp nat :=
  found ← get m_returnBlock;
  match found with
  | Some b => mret b
  | None =>
    b ← createBlock false;
    _ ← modify (set_returnBlock (Some b));
    prev ← setCurrentBlock b;
    _ ← emit (if isVoid then IRet None else IRetSaved);
    _ ← modify (upd_blk b b_set_return);
    _ ← setCurrentBlock prev;
    mret b
  end.

Definition getDynamicThrowBlock : Comp nat :=
  found ← get m_dynamicThrowBlock;
  match found with
  | Some b => mret b
  | None =>
    b ← createBlock true;
    _ ← modify (set_dynamicThrowBlock (Some b));
    prev ← setCurrentBlock b;
    _ ← emit IThrow;
    _ ← emit IUnreachable;
    _ ← setCurrentBlock prev;
    mret b
  end.

Definition markLandingPad (b s flags : nat) : Comp unit :=
  mask ← get (λ c, b_mask (blk c b));
  _ ← assert (mask <=? flags);
  modify (upd_blk b (b_mark flags s)).

Definition jump (b : nat) (followBlock : option nat) : Comp unit :=
  r ← get reachable;
  _ ← reach b r;
  _ ← emit (IBr b);
  f ← (match followBlock with Some f => mret f | None => getUnreachableBlock end);
  _ ← setCurrentBlock f;
  mret tt.

Definition follow (b : nat) : Comp unit :=
  cur ← get (λ c, blk c (m_currentBlock c));
  _ ← (if hasTerminator cur then mret tt else _ ← emit (IBr b); reach b (b_reachable cur));
  _ ← setCurrentBlock b;
  mret tt.

(** The condition of a jump is a value, or what [setjmp] returned. *)
Definition condition_jump (i : instr) (thenBlock elseBlock : nat) (followBlock : option nat) : Comp unit :=
  r ← get reachable;
  _ ← reach thenBlock r;
  _ ← reach elseBlock r;
  _ ← emit i;
  _ ← setCurrentBlock (default thenBlock followBlock);
  mret tt.

Definition conditionalJump (cond thenBlock elseBlock : nat) (followBlock : option nat) : Comp unit :=
  condition_jump (ICondBr cond thenBlock elseBlock) thenBlock elseBlock followBlock.

(** ** Frames *)

Definition setSjljFrame (index : option nat) : Comp unit :=
  hasFrames ← get m_sjljFrameArrayValue;
  _ ← assert hasFrames;
  emit (ISetFrame index).

(** On systems that are not POSIX, where no signal is saved before the block that catches. *)
Definition setJmp (catchBlock sjljFrameIdx : nat) : Comp unit :=
  _ ← modify (set_frameArray true);
  _ ← emit (ISetFrame (Some sjljFrameIdx));
  followBlock ← createBlock false;
  _ ← condition_jump (ISetJmpBr sjljFrameIdx catchBlock followBlock) catchBlock followBlock (Some followBlock);
  count ← get m_sjljFrameCount;
  if count <=? sjljFrameIdx then
    _ ← assert (count =? sjljFrameIdx);
    modify (set_frameCount (S sjljFrameIdx))
  else mret tt.

Definition setJmpFinally (finallyBlock sjljFrameIdx : nat) : Comp unit :=
  catchBlock ← createBlock false;
  _ ← setJmp catchBlock sjljFrameIdx;
  prev ← setCurrentBlock catchBlock;
  _ ← modify (set_routeVariable true);
  _ ← emit (IStoreRoute None);
  _ ← jump finallyBlock None;
  _ ← setCurrentBlock prev;
  mret tt.

(** [m_sjljFrameIdx++], and the frame before it. *)
Definition next_frame (k : option nat) : nat := match k with Some k => S k | None => 0 end.
Definition prev_frame (k : nat) : option nat := match k with S k => Some k | O => None end.

(** ** Scopes *)

Definition openInternalScope : Comp nat :=
  stack ← get c_scopeStack;
  parent ← get (λ c, scope c (hd 0 stack));
  let s := match stack with [] => new_scope Flag_Function None | _ :: _ => new_scope (inherited (sc_flags parent)) (sc_frame parent) end in
  sid ← get c_scopeCount;
  _ ← modify (λ c, set_scopeStack (sid :: stack) (set_scopeCount (S sid) (set_scopes (<[sid := s]> (c_scopes c)) c)));
  mret sid.

Definition openScope (flags : Flags) : Comp nat :=
  stack ← get c_scopeStack;
  sid ← openInternalScope;
  _ ← upd_scope sid (λ s, sc_set_flags (flags_or (sc_flags s) (flags_or flags
        (if decide (stack = [0]) then Flag_Function else no_flags))) s);
  if f_Try flags || f_CatchAhead flags then
    catchBlock ← createBlock false;
    frame ← get (λ c, next_frame (sc_frame (scope c sid)));
    _ ← upd_scope sid (λ s, sc_set_frame (Some frame) (sc_set_catch (Some catchBlock) s));
    _ ← setJmp catchBlock frame;
    _ ← (if f_FinallyAhead flags then
          finallyBlock ← createBlock false;
          upd_scope sid (sc_set_finally (Some finallyBlock))
        else mret tt);
    mret sid
  else if f_FinallyAhead flags then
    finallyBlock ← createBlock false;
    frame ← get (λ c, next_frame (sc_frame (scope c sid)));
    _ ← upd_scope sid (λ s, sc_set_frame (Some frame) (sc_set_finally (Some finallyBlock) s));
    _ ← setJmpFinally finallyBlock frame;
    mret sid
  else mret sid.

Definition closeNamespace : Comp unit := modify (λ c, set_scopeStack (tail (c_scopeStack c)) c).

(** [findBreakScope], [findContinueScope] and [findCatchScope], given the scopes. *)
Fixpoint find_scope (c : CState) (block : Scope → option nat) (level : nat) (stack : list nat) : option nat :=
  match stack with
  | [] => None
  | s :: stack =>
    match block (scope c s) with
    | Some _ => if level <=? 1 then Some s else find_scope c block (level - 1) stack
    | None => find_scope c block level stack
    end
  end.

Definition canStaticThrow (s : Scope) : bool := f_HasCatch (sc_flags s) || isErrorCode.

(** The scopes up to [target] that have a [finally] ahead: the first block, and the last one. Each is a step of the route from the one before. *)
Fixpoint escape_loop (routeIdx : nat) (target : option nat) (stack : list nat) (first prev : option nat) : Comp (option nat * option nat) :=
  match stack with
  | [] => mret (first, prev)
  | s :: stack =>
    if decide (Some s = target) then mret (first, prev)
    else
      sc ← get (λ c, scope c s);
      if f_FinallyAhead (sc_flags sc) then
        finallyBlock ← assert_some (sc_finallyBlock sc);
        match first with
        | None => escape_loop routeIdx target stack (Some finallyBlock) (Some finallyBlock)
        | Some _ =>
          prevBlock ← assert_some prev;
          _ ← modify (upd_blk prevBlock (b_route routeIdx finallyBlock));
          escape_loop routeIdx target stack first (Some finallyBlock)
        end
      else escape_loop routeIdx target stack first prev
  end.

Definition escapeScope (target : option nat) (targetBlock : option nat) : Comp unit :=
  routeIdx ← get c_nextRouteIdx;
  _ ← modify (set_nextRouteIdx (S routeIdx));
  stack ← get c_scopeStack;
  blocks ← escape_loop routeIdx target stack None None;
  let '(first, prev) := blocks in
  match targetBlock with
  | None =>
    _ ← assert (negb (bool_decide (is_Some first)));
    cur ← currentScope;
    frame ← get (λ c, sc_frame (scope c cur));
    match frame with Some _ => setSjljFrame None | None => mret tt end
  | Some b =>
    t ← assert_some target;
    _ ← markLandingPad b t EscapeScopeLandingPad;
    match first with
    | None => jump b None
    | Some firstFinallyBlock =>
      prevFinallyBlock ← assert_some prev;
      _ ← modify (upd_blk prevFinallyBlock (b_route routeIdx b));
      _ ← modify (set_routeVariable true);
      _ ← emit (IStoreRoute (Some routeIdx));
      jump firstFinallyBlock None
    end
  end.

Definition breakJump (level : nat) : Comp unit :=
  found ← get (λ c, find_scope c sc_breakBlock level (c_scopeStack c));
  match found with
  | None => fail CompileError
  | Some s => b ← get (λ c, sc_breakBlock (scope c s)); escapeScope (Some s) b
  end.

Definition continueJump (level : nat) : Comp unit :=
  found ← get (λ c, find_scope c sc_continueBlock level (c_scopeStack c));
  match found with
  | None => fail CompileError
  | Some s => b ← get (λ c, sc_continueBlock (scope c s)); escapeScope (Some s) b
  end.

(** ** Returns *)

Definition ret (v : option rval) : Comp unit :=
  cur ← currentScope;
  finalizable ← get (λ c, f_Finalizable (sc_flags (scope c cur)));
  _ ← (match v with
       | None => if isVoid then mret tt else fail CompileError
       | Some _ => if isVoid then fail CompileError else mret tt
       end);
  if (finalizable : bool) then
    _ ← (match v with Some x => emit (IStoreRet x) | None => mret tt end);
    b ← getReturnBlock;
    escapeScope (Some 0) (Some b)
  else
    _ ← escapeScope None None;
    _ ← emit (IRet v);
    curBlock ← get m_currentBlock;
    isReturn ← get (λ c, b_return (blk c curBlock));
    unreachable ← get m_unreachableBlock;
    _ ← assert (negb isReturn || bool_decide (unreachable = Some curBlock));
    _ ← modify (upd_blk curBlock b_set_return);
    b ← getUnreachableBlock;
    _ ← setCurrentBlock b;
    mret tt.

Definition checkReturn : Comp unit :=
  cur ← get (λ c, blk c (m_currentBlock c));
  if hasTerminator cur then mret tt
  else if negb (b_reachable cur) then emit IUnreachable
  else if isVoid then ret None
  else fail CompileError.

(** ** Exceptions *)

Definition throwException (check : option nat) : Comp unit :=
  cur ← currentScope;
  sc ← get (λ c, scope c cur);
  if negb (canStaticThrow sc) then b ← getDynamicThrowBlock; jump b None
  else
    found ← get (λ c, find_scope c sc_catchBlock 1 (c_scopeStack c));
    match found with
    | Some s => b ← get (λ c, sc_catchBlock (scope c s)); escapeScope (Some s) b
    | None => _ ← assert isErrorCode; ret (Some (RError check))
    end.

Definition checkErrorCode (cond : nat) : Comp unit :=
  followBlock ← createBlock false;
  cur ← currentScope;
  sc ← get (λ c, scope c cur);
  if negb (canStaticThrow sc) then
    throwBlock ← getDynamicThrowBlock;
    conditionalJump cond followBlock throwBlock (Some followBlock)
  else
    throwBlock ← createBlock false;
    _ ← conditionalJump cond followBlock throwBlock (Some throwBlock);
    _ ← throwException (Some cond);
    _ ← setCurrentBlock followBlock;
    mret tt.

Definition normalFinallyFlow (finallyBlock : nat) : Comp unit :=
  found ← get m_catchFinallyFollowBlock;
  followBlock ← (match found with
                 | Some b => mret b
                 | None => b ← createBlock false; _ ← modify (set_followBlock (Some b)); mret b
                 end);
  routeIdx ← get c_nextRouteIdx;
  _ ← modify (set_nextRouteIdx (S routeIdx));
  _ ← modify (upd_blk finallyBlock (b_route routeIdx followBlock));
  _ ← modify (set_routeVariable true);
  _ ← emit (IStoreRoute (Some routeIdx));
  jump finallyBlock None.

Definition finalizeCatchScope : Comp unit :=
  found ← get m_catchFinallyFollowBlock;
  match found with
  | None => mret tt
  | Some b => _ ← follow b; modify (set_followBlock None)
  end.

Fixpoint mark_reachable (blocks : list (nat * nat)) : Comp unit :=
  match blocks with [] => mret tt | (_, b) :: blocks => _ ← reach b true; mark_reachable blocks end.

(** Without a route, an assertion of the debug build fails; here is what follows it. *)
Definition finalizeFinallyScope (s : nat) : Comp unit :=
  found ← get (λ c, sc_finallyBlock (scope c s));
  finallyBlock ← assert_some found;
  hasVariable ← get m_finallyRouteIdxVariable;
  _ ← assert hasVariable;
  r ← get reachable;
  if negb r then modify (set_followBlock None)
  else
    throwBlock ← getDynamicThrowBlock;
    routes ← get (λ c, b_finallyRouteMap (blk c finallyBlock));
    match routes with
    | [] => jump throwBlock None
    | _ :: _ =>
      _ ← mark_reachable routes;
      _ ← emit (ISwitch routes throwBlock);
      followBlock ← get m_catchFinallyFollowBlock;
      match followBlock with
      | Some b => _ ← setCurrentBlock b; modify (set_followBlock None)
      | None => b ← getUnreachableBlock; _ ← setCurrentBlock b; mret tt
      end
    end.

(** [closeScope] of a scope that is not a [try] without labels. *)
Definition close_labeled : Comp unit :=
  s ← currentScope;
  flags ← get (λ c, sc_flags (scope c s));
  _ ← (if f_Catch flags && negb (f_FinallyAhead flags) then
         _ ← upd_scope s (λ sc, sc_set_flags (clear_Catch (sc_flags sc)) sc);
         finalizeCatchScope
       else if f_Finally flags then
         _ ← upd_scope s (λ sc, sc_set_flags (clear_Finally (sc_flags sc)) sc);
         finalizeFinallyScope s
       else mret tt);
  closeNamespace.

Definition catchLabel : Comp unit :=
  s ← currentScope;
  flags ← get (λ c, sc_flags (scope c s));
  _ ← (if f_Function flags && negb (f_FinallyAhead flags) then checkReturn else mret tt);
  _ ← (if f_CatchAhead flags then mret tt else fail CompileError);
  _ ← assert (negb (f_Finally flags));
  _ ← close_labeled;
  sc ← get (λ c, scope c s);
  r ← get reachable;
  _ ← (if (r : bool) then
         if f_FinallyAhead (sc_flags sc) then
           finallyBlock ← assert_some (sc_finallyBlock sc);
           normalFinallyFlow finallyBlock
         else
           b ← createBlock false;
           _ ← modify (set_followBlock (Some b));
           k ← assert_some (sc_frame sc);
           _ ← setSjljFrame (prev_frame k);
           jump b None
       else mret tt);
  catchBlock ← assert_some (sc_catchBlock sc);
  _ ← setCurrentBlock catchBlock;
  catchScope ← openScope Flag_Catch;
  _ ← upd_scope catchScope (λ x, sc_set_flags (flags_or (sc_flags x)
        (mkFlags false false false false false (f_FinallyAhead (sc_flags sc)) (f_Finalizable (sc_flags sc)) false)) x);
  _ ← markLandingPad catchBlock catchScope ExceptionLandingPad;
  if f_FinallyAhead (sc_flags sc) then
    finallyBlock ← assert_some (sc_finallyBlock sc);
    frame ← get (λ c, next_frame (sc_frame (scope c catchScope)));
    _ ← upd_scope catchScope (λ x, sc_set_frame (Some frame) (sc_set_finally (Some finallyBlock) x));
    setJmpFinally finallyBlock frame
  else mret tt.

Definition finalizeTryScope (s : nat) : Comp unit :=
  _ ← upd_scope s (λ sc, sc_set_flags (flags_or (sc_flags sc) Flag_CatchAhead) sc);
  _ ← catchLabel;
  finalizeCatchScope.

Definition closeScope : Comp unit :=
  s ← currentScope;
  flags ← get (λ c, sc_flags (scope c s));
  if f_Try flags && negb (f_CatchAhead flags || f_FinallyAhead flags) then
    _ ← upd_scope s (λ sc, sc_set_flags (clear_Try (sc_flags sc)) sc);
    _ ← finalizeTryScope s;
    closeNamespace
  else close_labeled.

Definition finallyLabel : Comp unit :=
  s ← currentScope;
  flags ← get (λ c, sc_flags (scope c s));
  _ ← (if f_CatchAhead flags then fail CompileError else mret tt);
  _ ← (if f_FinallyAhead flags then mret tt else fail CompileError);
  _ ← (if f_Try flags then
         _ ← upd_scope s (λ sc, sc_set_flags (flags_or (sc_flags sc) Flag_CatchAhead) sc);
         catchLabel
       else mret tt);
  _ ← close_labeled;
  sc ← get (λ c, scope c s);
  finallyBlock ← assert_some (sc_finallyBlock sc);
  r ← get reachable;
  _ ← (if (r : bool) then normalFinallyFlow finallyBlock else mret tt);
  _ ← setCurrentBlock finallyBlock;
  finallyScope ← openScope Flag_Finally;
  _ ← upd_scope finallyScope (sc_set_finally (Some finallyBlock));
  markLandingPad finallyBlock finallyScope ExceptionLandingPad.

(** ** Statements *)

Record IfStmt := mkIfStmt { if_thenBlock : nat; if_elseBlock : nat; if_followBlock : nat }.

Definition ifStmt_Create : Comp IfStmt := t ← createBlock false; e ← createBlock false; mret (mkIfStmt t e e).

Definition ifStmt_Condition (stmt : IfStmt) (cond : nat) : Comp unit :=
  _ ← conditionalJump cond (if_thenBlock stmt) (if_elseBlock stmt) None;
  _ ← openScope no_flags;
  mret tt.

Definition ifStmt_Else (stmt : IfStmt) : Comp IfStmt :=
  _ ← closeScope;
  f ← createBlock false;
  _ ← jump f (Some (if_elseBlock stmt));
  _ ← openScope no_flags;
  mret (mkIfStmt (if_thenBlock stmt) (if_elseBlock stmt) f).

Definition ifStmt_Follow (stmt : IfStmt) : Comp unit := _ ← closeScope; follow (if_followBlock stmt).

Record LoopStmt := mkLoopStmt { l_conditionBlock : nat; l_bodyBlock : nat; l_followBlock : nat }.

Definition whileStmt_Create : Comp LoopStmt :=
  c ← createBlock false; b ← createBlock false; f ← createBlock false;
  _ ← follow c;
  mret (mkLoopStmt c b f).

Definition open_loop (stmt : LoopStmt) : Comp unit :=
  s ← openScope no_flags;
  upd_scope s (sc_set_loop (Some (l_followBlock stmt)) (Some (l_conditionBlock stmt))).

Definition whileStmt_Condition (stmt : LoopStmt) (cond : nat) : Comp unit :=
  _ ← open_loop stmt;
  conditionalJump cond (l_bodyBlock stmt) (l_followBlock stmt) None.

Definition whileStmt_Follow (stmt : LoopStmt) : Comp unit :=
  _ ← closeScope;
  jump (l_conditionBlock stmt) (Some (l_followBlock stmt)).

Definition doStmt_Create : Comp LoopStmt :=
  c ← createBlock false; b ← createBlock false; f ← createBlock false;
  _ ← follow b;
  mret (mkLoopStmt c b f).

Definition doStmt_PreBody (stmt : LoopStmt) : Comp unit := open_loop stmt.

Definition doStmt_PostBody (stmt : LoopStmt) : Comp unit := _ ← closeScope; follow (l_conditionBlock stmt).

Definition doStmt_Condition (stmt : LoopStmt) (cond : nat) : Comp unit :=
  conditionalJump cond (l_bodyBlock stmt) (l_followBlock stmt) (Some (l_followBlock stmt)).
End function.

(** A scope has labels, in this order. *)
Inductive stmt :=
  | SSkip
  | SAct (n : nat)
  | SSeq (s1 s2 : stmt)
  | SIf (c : nat) (s1 : stmt) (s2 : option stmt)
  | SWhile (c : nat) (s : stmt)
  | SDo (s : stmt) (c : nat)
  | SBreak (level : nat)
  | SContinue (level : nat)
  | SReturn (v : option nat)
  | SThrow
  | SCheck (c : nat)
  | SScope (isTry : bool) (s : stmt) (s_catch s_finally : option stmt).

(** The flags the lexer collects at the opening brace, and those of [try]. *)
Definition anchor_flags (isTry : bool) (s_catch s_finally : option stmt) : Flags :=
  let c := bool_decide (is_Some (A := stmt) s_catch) in
  let f := bool_decide (is_Some (A := stmt) s_finally) in
  mkFlags false isTry false false c f f (isTry || c).

Section compile.
Context (isVoid isErrorCode : bool).

Fixpoint compile (s : stmt) : Comp unit :=
  match s with
  | SSkip => mret tt
  | SAct n => emit (IAct n)
  | SSeq s1 s2 => _ ← compile s1; compile s2
  | SIf c s1 s2 =>
    stmt ← ifStmt_Create;
    _ ← ifStmt_Condition stmt c;
    _ ← compile s1;
    stmt ← (match s2 with
            | None => mret stmt
            | Some s2 => stmt ← ifStmt_Else isVoid stmt; _ ← compile s2; mret stmt
            end);
    ifStmt_Follow isVoid stmt
  | SWhile c s =>
    stmt ← whileStmt_Create;
    _ ← whileStmt_Condition stmt c;
    _ ← compile s;
    whileStmt_Follow isVoid stmt
  | SDo s c =>
    stmt ← doStmt_Create;
    _ ← doStmt_PreBody stmt;
    _ ← compile s;
    _ ← doStmt_PostBody isVoid stmt;
    doStmt_Condition stmt c
  | SBreak level => breakJump level
  | SContinue level => continueJump level
  | SReturn v => ret isVoid (RVal <$> v)
  | SThrow => throwException isVoid isErrorCode None
  | SCheck c => checkErrorCode isVoid isErrorCode c
  | SScope isTry s s_catch s_finally =>
    _ ← openScope (anchor_flags isTry s_catch s_finally);
    _ ← compile s;
    _ ← (match s_catch with None => mret tt | Some h => _ ← catchLabel isVoid; compile h end);
    _ ← (match s_finally with None => mret tt | Some h => _ ← finallyLabel isVoid; compile h end);
    closeScope isVoid
  end.

(** ** Functions *)

Definition initial : CState := mkCState ∅ 0 ∅ 0 [] 0 None None None None 0 false false 0.

Definition prologue : Comp unit :=
  entry ← createBlock true;
  prologueBlock ← createBlock true;
  _ ← setCurrentBlock entry;
  _ ← jump prologueBlock (Some prologueBlock);
  _ ← openScope no_flags;
  body ← createBlock false;
  jump body (Some body).

Definition epilogue : Comp unit := _ ← checkReturn isVoid; closeScope isVoid.

(** [finalizeSjljFrameArray]: the frame of the scope is set at the beginning of each landing pad. *)
Definition landing_code (c : CState) (b : Block) : list instr :=
  match b_landingPadScope b with
  | Some s => if m_sjljFrameArrayValue c then [ISetFrame (sc_frame (scope c s))] else []
  | None => []
  end.

Definition finalizeFunction (c : CState) : gmap nat (list instr) := (λ b, landing_code c b ++ b_code b) <$> c_blocks c.

(** The body of the function is a compound statement, or a [try] is not. *)
Definition compile_function (body : stmt) (s_catch s_finally : option stmt) : gmap nat (list instr) + cerror :=
  match (_ ← prologue; _ ← compile (SScope false body s_catch s_finally); epilogue) initial with
  | inl (_, c) => inl (finalizeFunction c)
  | inr e => inr e
  end.
End compile.
