(* ===== verification/ControlFlowRun.v ===== *)
(** * Control flow: what programs do

    The machine that runs the blocks of [ControlFlow.v], with the frames of [setjmp], and what statements mean,
    without blocks. *)

From S2P Require Import Prelude ControlFlow.

Open Scope nat_scope.

(** What actions and conditions do. An action may throw. *)
Class Effects := {
  world : Type;
  act : nat → world → world * bool;
  test : nat → world → world * bool
}.

Section run.
Context `{E : Effects}.

(** ** The machine *)

Record Mach := mkMach {
  k_code : list instr;
  k_world : world;
  k_route : option nat;
  k_frame : option nat;
  k_jmp : gmap nat nat;
  k_ret : option rval
}.

Definition set_code v (m : Mach) := mkMach v (k_world m) (k_route m) (k_frame m) (k_jmp m) (k_ret m).
Definition set_world v (m : Mach) := mkMach (k_code m) v (k_route m) (k_frame m) (k_jmp m) (k_ret m).
Definition set_route v (m : Mach) := mkMach (k_code m) (k_world m) v (k_frame m) (k_jmp m) (k_ret m).
Definition set_frame v (m : Mach) := mkMach (k_code m) (k_world m) (k_route m) v (k_jmp m) (k_ret m).
Definition set_jmp v (m : Mach) := mkMach (k_code m) (k_world m) (k_route m) (k_frame m) v (k_ret m).
Definition set_ret v (m : Mach) := mkMach (k_code m) (k_world m) (k_route m) (k_frame m) (k_jmp m) v.

(** How a function ends: it returns, or an exception goes to the frame of the caller. The frame that is current then. *)
Inductive ending := Returned (v : option rval) (w : world) (frame : option nat) | Thrown (w : world) | Stuck.

Definition find_route (r : option nat) (routes : list (nat * nat)) : option nat := r ← r; find_key r routes.

Section step.
Context (P : gmap nat (list instr)).

Definition code_of (b : nat) : list instr := default [] (P !! b).

Definition enter (b : nat) (m : Mach) : Mach := set_code (code_of b) m.

(** [longjmp] *)
Definition throw (m : Mach) : Mach + ending :=
  match k_frame m with
  | None => inr (Thrown (k_world m))
  | Some k => match k_jmp m !! k with Some b => inl (enter b m) | None => inr Stuck end
  end.

Definition step (m : Mach) : Mach + ending :=
  match k_code m with
  | [] => inr Stuck
  | i :: code =>
    let m := set_code code m in
    match i with
    | IAct n => let '(w, throws) := act n (k_world m) in let m := set_world w m in if (throws : bool) then throw m else inl m
    | IStoreRoute r => inl (set_route r m)
    | ISetFrame k => inl (set_frame k m)
    | IStoreRet v => inl (set_ret (Some v) m)
    | IBr b => inl (enter b m)
    | ICondBr c b1 b2 => let '(w, v) := test c (k_world m) in let m := set_world w m in inl (enter (if (v : bool) then b1 else b2) m)
    | ISetJmpBr k b1 b2 => inl (enter b2 (set_jmp (<[k := b1]> (k_jmp m)) m))
    | ISwitch routes b => inl (enter (default b (find_route (k_route m) routes)) m)
    | IRet v => inr (Returned v (k_world m) (k_frame m))
    | IRetSaved => inr (Returned (k_ret m) (k_world m) (k_frame m))
    | IThrow => throw m
    | IUnreachable => inr Stuck
    end
  end.

Definition steps (m m' : Mach) : Prop := rtc (λ m m', step m = inl m') m m'.

(** A function ends like this. *)
Definition ends (m : Mach) (e : ending) : Prop := ∃ m', steps m m' ∧ step m' = inr e.

Fixpoint run_machine (fuel : nat) (m : Mach) : option ending :=
  match fuel with
  | O => None
  | S fuel => match step m with inl m => run_machine fuel m | inr e => Some e end
  end.
End step.

Definition start (P : gmap nat (list instr)) (w : world) : Mach := enter P 0 (mkMach [] w None None ∅ None).

(** ** Statements *)

Inductive outcome := ONormal | OBreak (level : nat) | OContinue (level : nat) | OReturn (v : option rval) | OThrow.

(** What a loop makes of the outcome of its body: whether it goes on, or the outcome of the loop. *)
Definition loop_outcome (o : outcome) : option outcome :=
  match o with
  | ONormal => None
  | OBreak level => Some (if level <=? 1 then ONormal else OBreak (level - 1))
  | OContinue level => if level <=? 1 then None else Some (OContinue (level - 1))
  | o => Some o
  end.

(** A [throw] that is not in a [try] or before a [catch]: in an [errorcode] function it returns. *)
Definition throw_outcome (isErrorCode canCatch : bool) (check : option nat) : outcome :=
  if canCatch || negb isErrorCode then OThrow else OReturn (Some (RError check)).

Fixpoint eval (isErrorCode : bool) (fuel : nat) (canCatch : bool) (s : stmt) (w : world) : option (outcome * world) :=
  match fuel with
  | O => None
  | S fuel =>
    match s with
    | SSkip => Some (ONormal, w)
    | SAct n => let '(w, throws) := act n w in Some (if (throws : bool) then OThrow else ONormal, w)
    | SSeq s1 s2 =>
      r ← eval isErrorCode fuel canCatch s1 w;
      match r with (ONormal, w) => eval isErrorCode fuel canCatch s2 w | r => Some r end
    | SIf c s1 s2 =>
      let '(w, v) := test c w in
      if (v : bool) then eval isErrorCode fuel canCatch s1 w
      else match s2 with Some s2 => eval isErrorCode fuel canCatch s2 w | None => Some (ONormal, w) end
    | SWhile c s1 =>
      let '(w, v) := test c w in
      if (v : bool) then
        r ← eval isErrorCode fuel canCatch s1 w;
        let '(o, w) := (r : outcome * world) in
        match loop_outcome o with Some o => Some (o, w) | None => eval isErrorCode fuel canCatch s w end
      else Some (ONormal, w)
    | SDo s1 c =>
      r ← eval isErrorCode fuel canCatch s1 w;
      let '(o, w) := (r : outcome * world) in
      match loop_outcome o with
      | Some o => Some (o, w)
      | None => let '(w, v) := test c w in if (v : bool) then eval isErrorCode fuel canCatch s w else Some (ONormal, w)
      end
    | SBreak level => Some (OBreak level, w)
    | SContinue level => Some (OContinue level, w)
    | SReturn v => Some (OReturn (RVal <$> v), w)
    | SThrow => Some (throw_outcome isErrorCode canCatch None, w)
    | SCheck c => let '(w, v) := test c w in Some (if (v : bool) then ONormal else throw_outcome isErrorCode canCatch (Some c), w)
    | SScope isTry s1 s_catch s_finally =>
      r ← eval isErrorCode fuel (canCatch || isTry || bool_decide (is_Some s_catch)) s1 w;
      r ← (match r with
           | (OThrow, w) => match s_catch with Some h => eval isErrorCode fuel canCatch h w | None => Some (if isTry then ONormal else OThrow, w) end
           | r => Some r
           end);
      match s_finally with
      | None => Some r
      | Some h => r2 ← eval isErrorCode fuel canCatch h (snd r); match r2 with (ONormal, w) => Some (fst r, w) | r2 => Some r2 end
      end
    end
  end.

(** How a function ends whose body has this outcome. *)
Definition function_ending (o : outcome) (w : world) : ending :=
  match o with OReturn v => Returned v w None | OThrow => Thrown w | _ => Returned None w None end.
End run.

(** ** Programs that run *)

(** Conditions and throws are taken from a list; the log tells what was done. *)
Record Script := mkScript { s_choices : list bool; s_log : list nat }.

Definition next_choice (default : bool) (s : Script) (n : nat) : Script * bool :=
  match s_choices s with [] => (mkScript [] (s_log s ++ [n]), default) | b :: l => (mkScript l (s_log s ++ [n]), b) end.

(** Actions from 100 on may throw. *)
#[local] Instance script_effects : Effects := {|
  world := Script;
  act n s := if n <? 100 then (mkScript (s_choices s) (s_log s ++ [n]), false) else next_choice false s n;
  test n s := next_choice false s n
|}.

Definition run_compiled (isVoid isErrorCode : bool) (body : stmt) (s_catch s_finally : option stmt) (choices : list bool) : option ending :=
  match compile_function isVoid isErrorCode body s_catch s_finally with
  | inl P => run_machine P 1000 (start P (mkScript choices []))
  | inr _ => None
  end.

Definition run_source (isErrorCode : bool) (body : stmt) (s_catch s_finally : option stmt) (choices : list bool) : option ending :=
  '(o, w) ← eval isErrorCode 1000 false (SScope false body s_catch s_finally) (mkScript choices []);
  Some (function_ending o w).
