(* ===== verification/ControlFlowInv.v ===== *)
(** * Control flow: how the state of the compiler grows

    What the compiler has made stays: code is added to the end of blocks, routes are added to [finally] blocks, a block is made
    a landing pad only for the scope it belongs to. And what holds of its state. *)

From S2P Require Import Prelude ControlFlow.

Open Scope nat_scope.

(** ** Blocks and scopes *)

Lemma blk_upd b f c x : blk (upd_blk b f c) x = if decide (b = x) then f (blk c b) else blk c x.
Proof. unfold blk at 1, upd_blk. cbn. destruct (decide (b = x)) as [->|H]; [by rewrite lookup_insert_eq|by rewrite lookup_insert_ne]. Qed.

Lemma scope_upd s f c x : scope (upd_scp s f c) x = if decide (s = x) then f (scope c s) else scope c x.
Proof. unfold scope at 1, upd_scp. cbn. destruct (decide (s = x)) as [->|H]; [by rewrite lookup_insert_eq|by rewrite lookup_insert_ne]. Qed.

Definition create (r : bool) (c : CState) : CState :=
  set_blockCount (S (c_blockCount c)) (set_blocks (<[c_blockCount c := new_block r]> (c_blocks c)) c).

Lemma blk_create r c x : blk (create r c) x = if decide (c_blockCount c = x) then new_block r else blk c x.
Proof. unfold blk at 1, create. cbn. destruct (decide (_ = x)) as [->|H]; [by rewrite lookup_insert_eq|by rewrite lookup_insert_ne]. Qed.

Definition push (s : Scope) (c : CState) : CState :=
  set_scopeStack (c_scopeCount c :: c_scopeStack c) (set_scopeCount (S (c_scopeCount c)) (set_scopes (<[c_scopeCount c := s]> (c_scopes c)) c)).

Lemma scope_push s c x : scope (push s c) x = if decide (c_scopeCount c = x) then s else scope c x.
Proof. unfold scope at 1, push. cbn. destruct (decide (_ = x)) as [->|H]; [by rewrite lookup_insert_eq|by rewrite lookup_insert_ne]. Qed.

Definition pop (c : CState) : CState := set_scopeStack (tail (c_scopeStack c)) c.

Abbreviation code c b := (b_code (blk c b)).
Abbreviation routes c b := (b_finallyRouteMap (blk c b)).
Abbreviation landing c b := (b_landingPadScope (blk c b)).
Abbreviation reached c b := (b_reachable (blk c b)).

(** The part of a scope that does not change. *)
Definition static (s : Scope) :=
  (sc_breakBlock s, sc_continueBlock s, sc_catchBlock s, sc_finallyBlock s, sc_frame s,
   (f_FinallyAhead (sc_flags s), f_Finalizable (sc_flags s), f_HasCatch (sc_flags s))).

(** The scope in whose part of the code a jump to the block arrives. *)
Definition owns (c : CState) (s b : nat) : Prop :=
  (s ∈ c_scopeStack c ∧ (sc_breakBlock (scope c s) = Some b ∨ sc_continueBlock (scope c s) = Some b ∨ sc_catchBlock (scope c s) = Some b)) ∨
  (s = 0 ∧ m_returnBlock c = Some b).

(** The [finally] blocks ahead. *)
Definition scope_ahead (s : Scope) : option nat := if f_FinallyAhead (sc_flags s) then sc_finallyBlock s else None.
Definition ahead (c : CState) (s : nat) : option nat := scope_ahead (scope c s).

Definition all_ahead (c : CState) : list nat := omap (ahead c) (c_scopeStack c).

Definition special (c : CState) (b : nat) : Prop := m_unreachableBlock c = Some b ∨ m_dynamicThrowBlock c = Some b.

(** A block whose landing pad may change. *)
Definition pending (c : CState) (b : nat) : Prop := (∃ s, owns c s b) ∨ b ∈ all_ahead c.

Lemma find_key_app r l l' x : find_key r l = Some x → find_key r (l ++ l') = Some x.
Proof.
  unfold find_key. destruct (list_find _ l) as [ [i y]|] eqn:Hl; [|done]. intros H. by rewrite (list_find_app_l _ _ _ _ _ Hl).
Qed.

Lemma find_key_new r l x : (∀ k y, (k, y) ∈ l → k ≠ r) → find_key r (l ++ [(r, x)]) = Some x.
Proof.
  intros H. unfold find_key. rewrite list_find_app_r; [cbn; by rewrite decide_True|].
  apply list_find_None, Forall_forall. intros [k y] Hin. cbn. by eapply H.
Qed.

(** ** Growing *)

Record ext (c c' : CState) : Prop := {
  e_count : c_blockCount c ≤ c_blockCount c';
  e_code b : b < c_blockCount c → code c b `prefix_of` code c' b;
  e_reach b : b < c_blockCount c → reached c b = true → reached c' b = true;
  e_route b r x : b < c_blockCount c → find_key r (routes c b) = Some x → find_key r (routes c' b) = Some x;
  e_landing b : b < c_blockCount c → ¬ pending c b → landing c' b = landing c b;
  e_landing_some b : b < c_blockCount c → landing c b ≠ None → landing c' b ≠ None;
  e_scount : c_scopeCount c ≤ c_scopeCount c';
  e_scope s : s < c_scopeCount c → static (scope c' s) = static (scope c s);
  e_owns s b : b < c_blockCount c → owns c' s b → owns c s b;
  e_ahead b : b < c_blockCount c → b ∈ all_ahead c' → b ∈ all_ahead c;
  e_unreachable b : m_unreachableBlock c = Some b → m_unreachableBlock c' = Some b;
  e_throw b : m_dynamicThrowBlock c = Some b → m_dynamicThrowBlock c' = Some b;
  e_return b : m_returnBlock c = Some b → m_returnBlock c' = Some b;
  e_special b : b < c_blockCount c → special c' b → special c b;
  e_next : c_nextRouteIdx c ≤ c_nextRouteIdx c';
  e_frames : m_sjljFrameArrayValue c = true → m_sjljFrameArrayValue c' = true
}.

Lemma ext_refl c : ext c c.
Proof. by split. Qed.

Lemma ext_pending c c' b : ext c c' → b < c_blockCount c → pending c' b → pending c b.
Proof. intros X Hb [ [s H]|H]; [left; exists s; by eapply e_owns|right; by eapply e_ahead]. Qed.

Lemma ext_trans c1 c2 c3 : ext c1 c2 → ext c2 c3 → ext c1 c3.
Proof.
  intros X Y. pose proof (e_count _ _ X) as HX. pose proof (e_count _ _ Y) as HY. pose proof (e_scount _ _ X) as HS. pose proof (e_scount _ _ Y) as HS2.
  pose proof (e_next _ _ X). pose proof (e_next _ _ Y).
  split.
  - lia.
  - intros b Hb. etrans; [by apply (e_code _ _ X)|apply (e_code _ _ Y); lia].
  - intros b Hb H1. apply (e_reach _ _ Y), (e_reach _ _ X); [lia|done..].
  - intros b r x Hb H1. apply (e_route _ _ Y), (e_route _ _ X); [lia|done..].
  - intros b Hb H1. rewrite (e_landing _ _ Y), (e_landing _ _ X); [done..|lia|]. intros H2. by apply H1, (ext_pending c1 c2).
  - intros b Hb H1. apply (e_landing_some _ _ Y), (e_landing_some _ _ X); [lia|done..].
  - lia.
  - intros s Hs. rewrite (e_scope _ _ Y), (e_scope _ _ X); [done..|lia].
  - intros s b Hb H1. apply (e_owns _ _ X), (e_owns _ _ Y); [done|lia|done].
  - intros b Hb H1. apply (e_ahead _ _ X), (e_ahead _ _ Y); [done|lia|done].
  - intros b Hb. by apply (e_unreachable _ _ Y), (e_unreachable _ _ X).
  - intros b Hb. by apply (e_throw _ _ Y), (e_throw _ _ X).
  - intros b Hb. by apply (e_return _ _ Y), (e_return _ _ X).
  - intros b Hb H1. apply (e_special _ _ X), (e_special _ _ Y); [done|lia|done].
  - lia.
  - intros H1. by apply (e_frames _ _ Y), (e_frames _ _ X).
Qed.

(** Each step of the compiler, after others. *)
Lemma ext_upd c c1 b f : ext c c1 →
  (∀ x, b_code x `prefix_of` b_code (f x)) → (∀ x, b_reachable x = true → b_reachable (f x) = true) →
  (∀ x r y, find_key r (b_finallyRouteMap x) = Some y → find_key r (b_finallyRouteMap (f x)) = Some y) →
  (∀ x, b_landingPadScope (f x) = b_landingPadScope x) ∨ ((b < c_blockCount c → pending c b) ∧ ∀ x, b_landingPadScope (f x) ≠ None) →
  ext c (upd_blk b f c1).
Proof.
  intros X H1 H2 H3 H4. pose proof X as []. split; try done; intros x; rewrite ?blk_upd; destruct (decide (b = x)) as [->|]; eauto.
  - intros Hx. etrans; [by apply e_code0|apply H1].
  - intros Hx Hp. destruct H4 as [H4|[H4 _] ]; [rewrite H4; eauto|]. by destruct Hp; apply H4.
  - intros Hx Hp. destruct H4 as [H4|[_ H4] ]; [rewrite H4; eauto|]. apply H4.
Qed.

Lemma ext_emit c c1 b i : ext c c1 → ext c (upd_blk b (b_emit i) c1).
Proof. intros X. apply ext_upd; try done; [intros x; cbn; by apply prefix_app_r|by left]. Qed.

Lemma ext_reach c c1 b v : ext c c1 → ext c (upd_blk b (b_reach v) c1).
Proof. intros X. apply ext_upd; try done; [intros x H; cbn; by rewrite H|by left]. Qed.

Lemma ext_set_return c c1 b : ext c c1 → ext c (upd_blk b b_set_return c1).
Proof. intros X. apply ext_upd; try done. by left. Qed.

Lemma ext_mark c c1 b fl s : ext c c1 → (b < c_blockCount c → pending c b) → ext c (upd_blk b (b_mark fl s) c1).
Proof. intros X Hb. apply ext_upd; try done. right. by split. Qed.

Lemma ext_add_route c c1 b r y : ext c c1 → ext c (upd_blk b (b_route r y) c1).
Proof. intros X. apply ext_upd; try done; [|by left]. intros x r' z H. by apply find_key_app. Qed.

Lemma ext_create c c1 r : ext c c1 → ext c (create r c1).
Proof.
  intros X. pose proof (e_count _ _ X). pose proof X as []. split; try done.
  - cbn. lia.
  - intros b Hb. rewrite blk_create, decide_False by lia. eauto.
  - intros b Hb. rewrite blk_create, decide_False by lia. eauto.
  - intros b r' x Hb. rewrite blk_create, decide_False by lia. eauto.
  - intros b Hb. rewrite blk_create, decide_False by lia. eauto.
  - intros b Hb. rewrite blk_create, decide_False by lia. eauto.
Qed.

Lemma ext_currentBlock c c1 v : ext c c1 → ext c (set_currentBlock v c1).
Proof. intros []. by split. Qed.
Lemma ext_followBlock c c1 v : ext c c1 → ext c (set_followBlock v c1).
Proof. intros []. by split. Qed.
Lemma ext_routeVariable c c1 v : ext c c1 → ext c (set_routeVariable v c1).
Proof. intros []. by split. Qed.
Lemma ext_frameCount c c1 v : ext c c1 → ext c (set_frameCount v c1).
Proof. intros []. by split. Qed.
Lemma ext_frameArray c c1 : ext c c1 → ext c (set_frameArray true c1).
Proof. intros []. by split. Qed.
Lemma ext_nextRouteIdx c c1 v : ext c c1 → c_nextRouteIdx c1 ≤ v → ext c (set_nextRouteIdx v c1).
Proof. intros [] H. split; try done. cbn. lia. Qed.

Lemma ext_unreachableBlock c c1 b : ext c c1 → m_unreachableBlock c1 = None → c_blockCount c ≤ b → ext c (set_unreachableBlock (Some b) c1).
Proof.
  intros X Hn Hb. pose proof X as []. split; try done.
  - intros x Hx. apply e_unreachable0 in Hx. congruence.
  - intros x Hx [H|H]; cbn in H; [injection H as ->; lia|]. apply e_special0; [done|by right].
Qed.

Lemma ext_dynamicThrowBlock c c1 b : ext c c1 → m_dynamicThrowBlock c1 = None → c_blockCount c ≤ b → ext c (set_dynamicThrowBlock (Some b) c1).
Proof.
  intros X Hn Hb. pose proof X as []. split; try done.
  - intros x Hx. apply e_throw0 in Hx. congruence.
  - intros x Hx [H|H]; cbn in H; [|injection H as ->; lia]. apply e_special0; [done|by left].
Qed.

Lemma ext_returnBlock c c1 b : ext c c1 → m_returnBlock c1 = None → c_blockCount c ≤ b → ext c (set_returnBlock (Some b) c1).
Proof.
  intros X Hn Hb. pose proof X as []. split; try done.
  - intros s x Hx [H|[_ H] ]; [|cbn in H; injection H as ->; lia]. apply e_owns0; [done|by left].
  - intros x Hx. apply e_return0 in Hx. congruence.
Qed.

(** Blocks of a scope that a jump may lead to. *)
Definition has_block (s : Scope) (b : nat) : Prop := sc_breakBlock s = Some b ∨ sc_continueBlock s = Some b ∨ sc_catchBlock s = Some b.

Lemma elem_all_ahead c b : b ∈ all_ahead c ↔ ∃ s, s ∈ c_scopeStack c ∧ scope_ahead (scope c s) = Some b.
Proof. apply list_elem_of_omap. Qed.

Lemma ahead_ext c c' (l : list nat) : (∀ x, x ∈ l → scope_ahead (scope c' x) = scope_ahead (scope c x)) → omap (ahead c') l = omap (ahead c) l.
Proof.
  induction l as [|x l IH]; intros H; [done|]. assert (Hx : ahead c' x = ahead c x) by (apply H; left). cbn. rewrite Hx, IH; [done|].
  intros y Hy. apply H. by right.
Qed.

Lemma ext_push c c1 s : ext c c1 → (∀ b, ¬ has_block s b) → scope_ahead s = None → ext c (push s c1).
Proof.
  intros X Hs Ha. pose proof (e_scount _ _ X). pose proof X as []. split; try done.
  - cbn. lia.
  - intros x Hx. rewrite scope_push, decide_False by lia. eauto.
  - intros x b Hb [ [H1 H2]|H1]; [|by apply e_owns0; [|right] ]. rewrite scope_push in H2. destruct (decide (c_scopeCount c1 = x)) as [<-|Hne].
    + by destruct (Hs b).
    + apply e_owns0; [done|]. left. split; [|done]. cbn in H1. by apply elem_of_cons in H1 as [->|].
  - intros b Hb (x & Hx & H2)%elem_all_ahead. apply e_ahead0; [done|]. rewrite scope_push in H2.
    destruct (decide (c_scopeCount c1 = x)) as [<-|Hne]; [congruence|]. apply elem_all_ahead. exists x. split; [|done]. cbn in Hx. by apply elem_of_cons in Hx as [->|].
Qed.

Lemma ext_pop c c1 : ext c c1 → ext c (pop c1).
Proof.
  intros X. pose proof X as []. assert (Ht : ∀ x, x ∈ tail (c_scopeStack c1) → x ∈ c_scopeStack c1) by (intros x Hx; destruct (c_scopeStack c1); [done|by right]).
  split; try done.
  - intros x b Hb [ [H1 H2]|H1]; apply e_owns0; [done|left|done|by right]. split; [by apply Ht|done].
  - intros b Hb (x & Hx & H2)%elem_all_ahead. apply e_ahead0; [done|]. apply elem_all_ahead. exists x. split; [by apply Ht|done].
Qed.

(** A new scope gets its blocks. *)
Lemma ext_upd_scp c c1 s f : ext c c1 → c_scopeCount c ≤ s → (∀ b, has_block (f (scope c1 s)) b → c_blockCount c ≤ b) →
  (∀ b, scope_ahead (f (scope c1 s)) = Some b → c_blockCount c ≤ b ∨ b ∈ all_ahead c) → ext c (upd_scp s f c1).
Proof.
  intros X Hs Hb Ha. pose proof X as []. split; try done.
  - intros x Hx. rewrite scope_upd, decide_False by lia. eauto.
  - intros x b Hx [ [H1 H2]|H1]; [|by apply e_owns0; [|right] ]. rewrite scope_upd in H2. destruct (decide (s = x)) as [->|].
    + pose proof (Hb b H2). lia.
    + apply e_owns0; [done|]. by left.
  - intros b Hx (x & Hin & H2)%elem_all_ahead. rewrite scope_upd in H2. destruct (decide (s = x)) as [->|].
    + destruct (Ha b H2); [lia|done].
    + apply e_ahead0; [done|]. apply elem_all_ahead. by exists x.
Qed.

Lemma static_blocks s s' : static s' = static s → (∀ b, has_block s' b ↔ has_block s b) ∧ scope_ahead s' = scope_ahead s.
Proof. unfold static, has_block, scope_ahead. intros [= -> -> -> -> _ -> _ _]. done. Qed.

(** Flags of a scope change that are not for the scopes in it. *)
Lemma ext_upd_flags c c1 s f : ext c c1 → static (f (scope c1 s)) = static (scope c1 s) → ext c (upd_scp s f c1).
Proof.
  intros X Hst. pose proof X as []. destruct (static_blocks _ _ Hst) as [Hb Ha]. split; try done.
  - intros x Hx. rewrite scope_upd. destruct (decide (s = x)) as [->|]; [rewrite Hst|]; eauto.
  - intros x b Hx [ [H1 H2]|H1]; [|by apply e_owns0; [|right] ]. rewrite scope_upd in H2. apply e_owns0; [done|]. left. split; [done|].
    destruct (decide (s = x)) as [->|]; [by apply Hb|done].
  - intros b Hx (x & Hin & H2)%elem_all_ahead. rewrite scope_upd in H2. apply e_ahead0; [done|]. apply elem_all_ahead. exists x. split; [done|].
    destruct (decide (s = x)) as [->|]; [by rewrite Ha in H2|done].
Qed.

Create HintDb ext discriminated.
#[export] Hint Resolve ext_refl ext_emit ext_reach ext_set_return ext_mark ext_add_route ext_create ext_currentBlock ext_followBlock ext_routeVariable
  ext_frameCount ext_frameArray ext_nextRouteIdx ext_unreachableBlock ext_dynamicThrowBlock ext_returnBlock ext_push ext_pop : ext.

(** ** What holds of the state *)

Section wf.
Context (isVoid : bool).

Definition return_instr : instr := if isVoid then IRet None else IRetSaved.

Record wf (c : CState) : Prop := {
  w_current : m_currentBlock c < c_blockCount c;
  w_owns s b : owns c s b → b < c_blockCount c ∧ ¬ special c b;
  w_owner s1 s2 b : owns c s1 b → owns c s2 b → s1 = s2;
  w_landing s b : owns c s b → landing c b = None ∨ landing c b = Some s;
  w_unreachable b : m_unreachableBlock c = Some b → b < c_blockCount c ∧ reached c b = false;
  w_throw b : m_dynamicThrowBlock c = Some b →
    b < c_blockCount c ∧ [IThrow] `prefix_of` code c b ∧ landing c b = None ∧ m_unreachableBlock c ≠ Some b;
  w_return b : m_returnBlock c = Some b → [return_instr] `prefix_of` code c b;
  w_stack s : s ∈ c_scopeStack c → s < c_scopeCount c;
  w_stack_nodup : NoDup (c_scopeStack c);
  w_ahead b : b ∈ all_ahead c → b < c_blockCount c ∧ ¬ special c b;
  w_ahead_nodup : NoDup (all_ahead c);
  w_routes b k x : (k, x) ∈ routes c b → k < c_nextRouteIdx c;
  w_route_to b k x : (k, x) ∈ routes c b → x < c_blockCount c ∧ m_unreachableBlock c ≠ Some x
}.

(** There is no code behind a terminator in the current block, if it may be reached. *)
Definition open (c : CState) : Prop := reachable c = true → hasTerminator (blk c (m_currentBlock c)) = false.


(** Changes of a block. *)
Lemma wf_upd c b f : wf c → (∀ x, b_code x `prefix_of` b_code (f x)) →
  (m_unreachableBlock c = Some b → b_reachable (f (blk c b)) = b_reachable (blk c b)) →
  ((∀ x, b_landingPadScope (f x) = b_landingPadScope x) ∨
   (∃ s, (∀ x, b_landingPadScope (f x) = Some s) ∧ (∀ s', owns c s' b → s' = s) ∧ m_dynamicThrowBlock c ≠ Some b)) →
  (∀ k x, (k, x) ∈ b_finallyRouteMap (f (blk c b)) → k < c_nextRouteIdx c) →
  (∀ k x, (k, x) ∈ b_finallyRouteMap (f (blk c b)) → x < c_blockCount c ∧ m_unreachableBlock c ≠ Some x) → wf (upd_blk b f c).
Proof.
  intros [] Hc Hr Hl Hk Hk2. split; try done.
  - intros s x Hx. rewrite blk_upd. destruct (decide (b = x)) as [<-|]; [|by apply w_landing0].
    destruct Hl as [Hl|(s' & Hl & Hs & _)]; [rewrite Hl; by apply w_landing0|]. rewrite Hl. right. by rewrite (Hs s Hx).
  - intros x Hx. rewrite blk_upd. destruct (decide (b = x)) as [<-|]; [|by apply w_unreachable0]. rewrite (Hr Hx). by apply w_unreachable0.
  - intros x Hx. destruct (w_throw0 x Hx) as (H1 & H2 & H3 & H4). split; [done|]. rewrite blk_upd. destruct (decide (b = x)) as [<-|]; [|done].
    split; [by etrans|]. split; [|done]. destruct Hl as [Hl|(_ & _ & _ & Hl)]; [by rewrite Hl|done].
  - intros x Hx. rewrite blk_upd. destruct (decide (b = x)) as [<-|]; [|by apply w_return0]. etrans; [by apply w_return0|done].
  - intros x k y. rewrite blk_upd. destruct (decide (b = x)) as [<-|]; [apply Hk|apply w_routes0].
  - intros x k y. rewrite blk_upd. destruct (decide (b = x)) as [<-|]; [apply Hk2|apply w_route_to0].
Qed.

Lemma wf_emit c b i : wf c → wf (upd_blk b (b_emit i) c).
Proof. intros W. apply wf_upd; try done; [intros x; cbn; by apply prefix_app_r|by left|apply (w_routes _ W)|apply (w_route_to _ W)]. Qed.

Lemma wf_reach c b v : wf c → (v = true → m_unreachableBlock c ≠ Some b) → wf (upd_blk b (b_reach v) c).
Proof.
  intros W Hv. apply wf_upd; try done; [|by left|apply (w_routes _ W)|apply (w_route_to _ W)]. intros H. cbn. destruct v; [by destruct (Hv eq_refl)|]. by rewrite orb_false_r.
Qed.

Lemma wf_set_return c b : wf c → wf (upd_blk b b_set_return c).
Proof. intros W. apply wf_upd; try done; [by left|apply (w_routes _ W)|apply (w_route_to _ W)]. Qed.

Lemma wf_mark c b fl s : wf c → (∀ s', owns c s' b → s' = s) → m_dynamicThrowBlock c ≠ Some b → wf (upd_blk b (b_mark fl s) c).
Proof. intros W Hs Ht. apply wf_upd; try done; [right; by exists s|apply (w_routes _ W)|apply (w_route_to _ W)]. Qed.

Lemma wf_route c b k x : wf c → k < c_nextRouteIdx c → x < c_blockCount c → m_unreachableBlock c ≠ Some x → wf (upd_blk b (b_route k x) c).
Proof.
  intros W Hk Hx1 Hx2. apply wf_upd; try done; [by left|..]; intros k' y; cbn; rewrite elem_of_app; (intros [H|H%list_elem_of_singleton]; [|by injection H as -> ->]); [by eapply (w_routes _ W)|by eapply (w_route_to _ W)].
Qed.

Lemma wf_create c r : wf c → wf (create r c).
Proof.
  intros []. assert (Hne : ∀ b, b < c_blockCount c → blk (create r c) b = blk c b) by (intros b Hb; by rewrite blk_create, decide_False by lia).
  split; try done.
  - cbn. lia.
  - intros s b H. destruct (w_owns0 s b H). split; [cbn; lia|done].
  - intros s b H. rewrite Hne by (by eapply w_owns0). by apply w_landing0.
  - intros b H. destruct (w_unreachable0 b H). rewrite Hne by done. split; [cbn; lia|done].
  - intros b H. destruct (w_throw0 b H) as (H1 & H2 & H3 & H4). rewrite Hne by done. split; [cbn; lia|done].
  - intros b H. rewrite Hne; [by apply w_return0|]. apply (w_owns0 0). by right.
  - intros b H. destruct (w_ahead0 b H). split; [cbn; lia|done].
  - intros b k x. rewrite blk_create. destruct (decide _); [intros H; by apply not_elem_of_nil in H|apply w_routes0].
  - intros b k x. rewrite blk_create. destruct (decide _); [intros H; by apply not_elem_of_nil in H|]. intros H%w_route_to0. split; [cbn; lia|apply H].
Qed.

Lemma wf_currentBlock c b : wf c → b < c_blockCount c → wf (set_currentBlock b c).
Proof. intros [] Hb. by split. Qed.
Lemma wf_followBlock c v : wf c → wf (set_followBlock v c).
Proof. intros []. by split. Qed.
Lemma wf_routeVariable c v : wf c → wf (set_routeVariable v c).
Proof. intros []. by split. Qed.
Lemma wf_frameCount c v : wf c → wf (set_frameCount v c).
Proof. intros []. by split. Qed.
Lemma wf_frameArray c v : wf c → wf (set_frameArray v c).
Proof. intros []. by split. Qed.
Lemma wf_nextRouteIdx c v : wf c → c_nextRouteIdx c ≤ v → wf (set_nextRouteIdx v c).
Proof. intros [] H. split; try done. intros b k x Hin. cbn. specialize (w_routes0 b k x Hin). lia. Qed.

(** The special blocks, just created. *)
Lemma wf_unreachableBlock c b : wf c → b < c_blockCount c → reached c b = false → ¬ pending c b → m_dynamicThrowBlock c ≠ Some b →
  (∀ x k, (k, b) ∉ routes c x) → wf (set_unreachableBlock (Some b) c).
Proof.
  intros [] Hb Hr Hp Ht Hrt. split; try done.
  - intros s x H. destruct (w_owns0 s x H). split; [done|]. intros [H2|H2]; [|by apply H1; right]. cbn in H2. injection H2 as ->. apply Hp. left. by exists s.
  - intros x [= <-]. done.
  - intros x H. destruct (w_throw0 x H) as (H1 & H2 & H3 & H4). split_and!; try done. cbn in H |- *. congruence.
  - intros x H. destruct (w_ahead0 x H). split; [done|]. intros [H2|H2]; [|by apply H1; right]. cbn in H2. injection H2 as ->. apply Hp. by right.
  - intros x k y Hk. split; [by apply (w_route_to0 x k y)|]. cbn. intros [= ->]. by apply (Hrt x k).
Qed.

Lemma wf_dynamicThrowBlock c b : wf c → b < c_blockCount c → [IThrow] `prefix_of` code c b → landing c b = None → ¬ pending c b → m_unreachableBlock c ≠ Some b →
  wf (set_dynamicThrowBlock (Some b) c).
Proof.
  intros [] Hb Hr Hl Hp Ht. split; try done.
  - intros s x H. destruct (w_owns0 s x H). split; [done|]. intros [H2|H2]; [by apply H1; left|]. cbn in H2. injection H2 as ->. apply Hp. left. by exists s.
  - intros x [= <-]. done.
  - intros x H. destruct (w_ahead0 x H). split; [done|]. intros [H2|H2]; [by apply H1; left|]. cbn in H2. injection H2 as ->. apply Hp. by right.
Qed.

Lemma wf_returnBlock c b : wf c → b < c_blockCount c → [return_instr] `prefix_of` code c b → landing c b = None → (∀ s, ¬ owns c s b) → ¬ special c b →
  m_returnBlock c = None → wf (set_returnBlock (Some b) c).
Proof.
  intros [] Hb Hr Hl Hp Hs Hn. assert (Ho : ∀ s x, owns (set_returnBlock (Some b) c) s x → (s = 0 ∧ x = b) ∨ owns c s x).
  { intros s x [H|[-> H] ]; [right; by left|]. cbn in H. injection H as ->. by left. }
  split; try done.
  - intros s x [ [-> ->]|H]%Ho; [by split|]. by apply (w_owns0 s).
  - intros s1 s2 x [ [-> ->]|H]%Ho [ [-> H2]|H2]%Ho; [done|by destruct (Hp s2)|subst; by destruct (Hp s1)|by eapply w_owner0].
  - intros s x [ [-> ->]|H]%Ho; [by left|by apply w_landing0].
  - intros x [= <-]. done.
Qed.

(** Scopes. *)
Lemma wf_push c s : wf c → (∀ b, ¬ has_block s b) → scope_ahead s = None → wf (push s c).
Proof.
  intros [] Hs Ha. assert (Hne : ∀ x, x ∈ c_scopeStack c → scope (push s c) x = scope c x).
  { intros x Hx. rewrite scope_push, decide_False; [done|]. specialize (w_stack0 x Hx). lia. }
  assert (Hnew : scope (push s c) (c_scopeCount c) = s) by (by rewrite scope_push, decide_True).
  assert (Ho : ∀ x b, owns (push s c) x b → owns c x b).
  { intros x b [ [H1 H2]|H1]; [|by right]. left. cbn in H1. apply elem_of_cons in H1 as [->|H1]; [rewrite Hnew in H2; by destruct (Hs b)|].
    rewrite Hne in H2 by done. done. }
  assert (E : all_ahead (push s c) = all_ahead c).
  { unfold all_ahead. change (c_scopeStack (push s c)) with (c_scopeCount c :: c_scopeStack c). cbn. unfold ahead at 1. rewrite Hnew, Ha.
    apply ahead_ext. intros x Hx. by rewrite Hne. }
  split; try done.
  - intros x b H%Ho. by apply (w_owns0 x).
  - intros s1 s2 b H1%Ho H2%Ho. by eapply w_owner0.
  - intros x b H%Ho. by apply w_landing0.
  - intros x. cbn. rewrite elem_of_cons. intros [->|H]; [lia|]. specialize (w_stack0 x H). lia.
  - cbn. constructor; [|done]. intros H%w_stack0. lia.
  - intros b. rewrite E. apply w_ahead0.
  - by rewrite E.
Qed.

Lemma wf_pop c : wf c → wf (pop c).
Proof.
  intros []. assert (Ht : ∀ x, x ∈ tail (c_scopeStack c) → x ∈ c_scopeStack c) by (intros x Hx; destruct (c_scopeStack c); [done|by right]).
  assert (Ho : ∀ x b, owns (pop c) x b → owns c x b).
  { intros x b [ [H1 H2]|H1]; [left|by right]. split; [by apply Ht|done]. }
  assert (E : all_ahead (pop c) `sublist_of` all_ahead c).
  { unfold all_ahead. cbn. destruct (c_scopeStack c) as [|x l]; [done|]. cbn. fold (ahead (pop c)). destruct (ahead c x); [by apply sublist_cons|done]. }
  split; try done.
  - intros x b H%Ho. by apply (w_owns0 x).
  - intros s1 s2 b H1%Ho H2%Ho. by eapply w_owner0.
  - intros x b H%Ho. by apply w_landing0.
  - intros x H. by apply w_stack0, Ht.
  - cbn. destruct (c_scopeStack c); [done|]. by inversion w_stack_nodup0.
  - intros b H. apply w_ahead0. by eapply elem_of_sublist.
  - by eapply sublist_NoDup.
Qed.
(** Flags of a scope. *)
Lemma upd_flags_same c s f : static (f (scope c s)) = static (scope c s) →
  (∀ x b, owns (upd_scp s f c) x b ↔ owns c x b) ∧ all_ahead (upd_scp s f c) = all_ahead c.
Proof.
  intros Hst. destruct (static_blocks _ _ Hst) as [Hb Ha]. split.
  - intros x b. unfold owns. change (c_scopeStack (upd_scp s f c)) with (c_scopeStack c). rewrite !scope_upd.
    destruct (decide (s = x)) as [->|]; [|done]. fold (has_block (f (scope c x)) b). fold (has_block (scope c x) b). by rewrite Hb.
  - apply ahead_ext. intros x _. rewrite scope_upd. by destruct (decide (s = x)) as [<-|].
Qed.

Lemma wf_upd_flags c s f : wf c → static (f (scope c s)) = static (scope c s) → wf (upd_scp s f c).
Proof.
  intros [] Hst. destruct (upd_flags_same c s f Hst) as [Ho E]. split; try done.
  - intros x b H%Ho. by apply (w_owns0 x).
  - intros s1 s2 b H1%Ho H2%Ho. by eapply w_owner0.
  - intros x b H%Ho. by apply w_landing0.
  - intros b. rewrite E. apply w_ahead0.
  - by rewrite E.
Qed.

(** A block that a scope may be given. *)
Definition free (c : CState) (s b : nat) : Prop :=
  b < c_blockCount c ∧ ¬ special c b ∧ (∀ s', owns c s' b → s' = s) ∧ (landing c b = None ∨ landing c b = Some s).

(** The current scope gets its blocks. *)
Lemma wf_upd_scp c s rest f : wf c → c_scopeStack c = s :: rest →
  (∀ b, has_block (f (scope c s)) b → has_block (scope c s) b ∨ free c s b) →
  (scope_ahead (f (scope c s)) = scope_ahead (scope c s) ∨
   (scope_ahead (scope c s) = None ∧ ∃ b, scope_ahead (f (scope c s)) = Some b ∧ b < c_blockCount c ∧ ¬ special c b ∧ b ∉ all_ahead c)) →
  wf (upd_scp s f c).
Proof.
  intros W Hst Hb Ha. pose proof W as []. pose proof w_stack_nodup0 as Hnd. rewrite Hst in Hnd. apply NoDup_cons in Hnd as [Hnin _].
  assert (Ho : ∀ x b, owns (upd_scp s f c) x b → owns c x b ∨ (x = s ∧ free c s b)).
  { intros x b [ [H1 H2]|H1]; [|left; by right]. rewrite scope_upd in H2. destruct (decide (s = x)) as [<-|]; [|left; by left].
    destruct (Hb b H2) as [H3|H3]; [left; by left|by right]. }
  assert (Hrest : omap (ahead (upd_scp s f c)) rest = omap (ahead c) rest).
  { apply ahead_ext. intros x Hx. rewrite scope_upd, decide_False; [done|]. by intros ->. }
  assert (Hall : all_ahead c = match scope_ahead (scope c s) with Some b => b :: omap (ahead c) rest | None => omap (ahead c) rest end).
  { unfold all_ahead. rewrite Hst. done. }
  assert (Hall' : all_ahead (upd_scp s f c) = match scope_ahead (f (scope c s)) with Some b => b :: omap (ahead c) rest | None => omap (ahead c) rest end).
  { unfold all_ahead. change (c_scopeStack (upd_scp s f c)) with (c_scopeStack c). rewrite Hst. cbn. rewrite Hrest. unfold ahead at 1. by rewrite scope_upd, decide_True. }
  assert (Hnew : all_ahead (upd_scp s f c) = all_ahead c ∨
    ∃ b, all_ahead (upd_scp s f c) = b :: all_ahead c ∧ b < c_blockCount c ∧ ¬ special c b ∧ b ∉ all_ahead c).
  { rewrite Hall', Hall. destruct Ha as [->|(H1 & b & -> & H2)]; [by left|right]. rewrite Hall in H2. rewrite H1 in H2 |- *. by exists b. }
  split; try done.
  - intros x b [H|[-> (H1 & H2 & _)] ]%Ho; [by apply (w_owns0 x)|done].
  - intros s1 s2 b [H1|[-> H1] ]%Ho [H2|[-> H2] ]%Ho; [by eapply w_owner0|by apply H2|symmetry; by apply H1|done].
  - intros x b [H|[-> H1] ]%Ho; [by apply w_landing0|by apply H1].
  - intros b. destruct Hnew as [->|(b' & -> & H1 & H2 & _)]; [apply w_ahead0|]. intros [->|H]%elem_of_cons; [done|by apply w_ahead0].
  - destruct Hnew as [->|(b' & -> & _ & _ & H)]; [done|]. by constructor.
Qed.
End wf.

#[export] Hint Resolve wf_emit wf_reach wf_set_return wf_mark wf_route wf_create wf_currentBlock wf_followBlock wf_routeVariable wf_frameCount
  wf_frameArray wf_nextRouteIdx wf_push wf_pop wf_upd_flags : ext.

(** ** Blocks that wait for their code *)

Record idle (c : CState) (b : nat) : Prop := {
  i_count : b < c_blockCount c;
  i_special : ¬ special c b;
  i_return : m_returnBlock c ≠ Some b;
  i_code : code c b = [];
  i_current : b ≠ m_currentBlock c
}.

Lemma idle_upd c b x f : idle c b → (x = b → b_code (f (blk c b)) = []) → idle (upd_blk x f c) b.
Proof. intros [] Hf. split; try done. rewrite blk_upd. destruct (decide (x = b)) as [->|]; [by apply Hf|done]. Qed.

Lemma idle_emit c b x i : idle c b → x ≠ b → idle (upd_blk x (b_emit i) c) b.
Proof. intros I Hx. by apply idle_upd. Qed.
Lemma idle_reach c b x v : idle c b → idle (upd_blk x (b_reach v) c) b.
Proof. intros I. apply idle_upd; [done|]. intros _. apply (i_code _ _ I). Qed.
Lemma idle_set_return c b x : idle c b → idle (upd_blk x b_set_return c) b.
Proof. intros I. apply idle_upd; [done|]. intros _. apply (i_code _ _ I). Qed.
Lemma idle_mark c b x fl s : idle c b → idle (upd_blk x (b_mark fl s) c) b.
Proof. intros I. apply idle_upd; [done|]. intros _. apply (i_code _ _ I). Qed.
Lemma idle_route c b x k y : idle c b → idle (upd_blk x (b_route k y) c) b.
Proof. intros I. apply idle_upd; [done|]. intros _. apply (i_code _ _ I). Qed.
Lemma idle_create c b r : idle c b → idle (create r c) b.
Proof. intros []. split; try done; [cbn; lia|]. by rewrite blk_create, decide_False by lia. Qed.
Lemma idle_create_new c r : wf true c ∨ wf false c → idle (create r c) (c_blockCount c).
Proof.
  intros W. assert (W' : ∀ b, (special c b ∨ m_returnBlock c = Some b ∨ m_currentBlock c = b) → b < c_blockCount c).
  { intros b Hb. destruct W as [W|W]; (destruct Hb as [ [H|H]|[H|H] ]; [by apply (w_unreachable _ _ W)|by apply (w_throw _ _ W)|by apply (w_owns _ _ W 0); right|
      subst; apply (w_current _ _ W)]). }
  split.
  - cbn. lia.
  - intros H. pose proof (W' (c_blockCount c) (or_introl H)). lia.
  - intros H. pose proof (W' (c_blockCount c) (or_intror (or_introl H))). lia.
  - by rewrite blk_create, decide_True.
  - intros H. pose proof (W' (c_blockCount c) (or_intror (or_intror (eq_sym H)))). lia.
Qed.
Lemma idle_currentBlock c b v : idle c b → b ≠ v → idle (set_currentBlock v c) b.
Proof. intros [] H. by split. Qed.
Lemma idle_followBlock c b v : idle c b → idle (set_followBlock v c) b.
Proof. intros []. by split. Qed.
Lemma idle_routeVariable c b v : idle c b → idle (set_routeVariable v c) b.
Proof. intros []. by split. Qed.
Lemma idle_frameCount c b v : idle c b → idle (set_frameCount v c) b.
Proof. intros []. by split. Qed.
Lemma idle_frameArray c b v : idle c b → idle (set_frameArray v c) b.
Proof. intros []. by split. Qed.
Lemma idle_nextRouteIdx c b v : idle c b → idle (set_nextRouteIdx v c) b.
Proof. intros []. by split. Qed.
Lemma idle_push c b s : idle c b → idle (push s c) b.
Proof. intros []. by split. Qed.
Lemma idle_pop c b : idle c b → idle (pop c) b.
Proof. intros []. by split. Qed.
Lemma idle_upd_scp c b s f : idle c b → idle (upd_scp s f c) b.
Proof. intros []. by split. Qed.
Lemma idle_unreachableBlock c b v : idle c b → b ≠ v → idle (set_unreachableBlock (Some v) c) b.
Proof. intros [] H. split; try done. intros [H1|H1]; [cbn in H1; congruence|by apply i_special0; right]. Qed.
Lemma idle_dynamicThrowBlock c b v : idle c b → b ≠ v → idle (set_dynamicThrowBlock (Some v) c) b.
Proof. intros [] H. split; try done. intros [H1|H1]; [by apply i_special0; left|cbn in H1; congruence]. Qed.
Lemma idle_returnBlock c b v : idle c b → b ≠ v → idle (set_returnBlock (Some v) c) b.
Proof. intros [] H. split; try done. cbn. congruence. Qed.

#[export] Hint Resolve idle_emit idle_reach idle_set_return idle_mark idle_route idle_create idle_currentBlock idle_followBlock idle_routeVariable
  idle_frameCount idle_frameArray idle_nextRouteIdx idle_push idle_pop idle_upd_scp idle_unreachableBlock idle_dynamicThrowBlock idle_returnBlock : ext.

(** A block that a jump arrives at without a landing pad. *)
Record blank (c : CState) (b : nat) : Prop := { n_idle : idle c b; n_landing : landing c b = None; n_pending : ¬ pending c b }.

Lemma blank_ext c c' b : blank c b → ext c c' → idle c' b → blank c' b.
Proof.
  intros [I Hl Hp] X I'. split; [done| |].
  - rewrite (e_landing _ _ X); [done|apply (i_count _ _ I)|done].
  - intros H. apply Hp. eapply ext_pending; [done|apply (i_count _ _ I)|done].
Qed.

Lemma blank_new v c r : wf v c → blank (create r c) (c_blockCount c).
Proof.
  intros W. split.
  - apply idle_create_new. destruct v; [by left|by right].
  - by rewrite blk_create, decide_True.
  - intros [ [s H]|H]; [destruct (w_owns _ _ W s _ H)|destruct (w_ahead _ _ W _ H)]; lia.
Qed.
