(* ===== verification/ControlFlowOps.v ===== *)
(** * Control flow: what the operations of the compiler do

    Jumps, frames, routes and labels, as changes of the state: what is added, and that what holds of the state still holds. *)

From S2P Require Import Prelude ControlFlow ControlFlowInv.

Open Scope nat_scope.

#[local] Strategy 1000 [mbind Comp_bind mret Comp_ret].

Lemma comp_bind_inv {A B} (m : Comp A) (f : A → Comp B) c y c' : (m ≫= f) c = inl (y, c') → ∃ x c1, m c = inl (x, c1) ∧ f x c1 = inl (y, c').
Proof. unfold mbind, Comp_bind. destruct (m c) as [ [x c1]|]; [|done]. intros H. by exists x, c1. Qed.

Lemma comp_ret_inv {A} (x y : A) c c' : (mret x : Comp A) c = inl (y, c') → y = x ∧ c' = c.
Proof. by intros [= -> ->]. Qed.

Lemma comp_get_inv {A} (f : CState → A) y c c' : get f c = inl (y, c') → y = f c ∧ c' = c.
Proof. by intros [= -> ->]. Qed.

Lemma comp_modify_inv f y c c' : modify f c = inl (y, c') → y = tt ∧ c' = f c.
Proof. by intros [= <- ->]. Qed.

Lemma comp_assert_inv b y c c' : assert b c = inl (y, c') → y = tt ∧ b = true ∧ c' = c.
Proof. unfold assert. destruct b; [|done]. by intros [= <- ->]. Qed.

Lemma comp_assert_some_inv {A} (x : option A) y c c' : assert_some x c = inl (y, c') → x = Some y ∧ c' = c.
Proof. unfold assert_some. destruct x; [|done]. by intros [= -> ->]. Qed.

Definition emitted (i : instr) (c : CState) : CState := upd_blk (m_currentBlock c) (b_emit i) c.

Lemma comp_emit_inv i y c c' : emit i c = inl (y, c') → y = tt ∧ c' = emitted i c.
Proof. by intros [= <- <-]. Qed.

Lemma comp_create_inv r y c c' : createBlock r c = inl (y, c') → y = c_blockCount c ∧ c' = create r c.
Proof. by intros [= <- <-]. Qed.

Lemma comp_current_inv b y c c' : setCurrentBlock b c = inl (y, c') → y = m_currentBlock c ∧ c' = set_currentBlock b c.
Proof. by intros [= <- <-]. Qed.

Lemma comp_close_inv y c c' : closeNamespace c = inl (y, c') → y = tt ∧ c' = pop c.
Proof. by intros [= <- <-]. Qed.

Lemma comp_scope_inv y c c' : currentScope c = inl (y, c') → head (c_scopeStack c) = Some y ∧ c' = c.
Proof. intros H. unfold currentScope, mbind, Comp_bind, get in H. destruct (c_scopeStack c); [done|]. by injection H as <- <-. Qed.

(** Takes a step of the compiler apart. *)
Ltac comp_step H :=
  lazymatch type of H with
  | (mbind _ _) _ = inl _ => let x := fresh "x" in let c1 := fresh "c" in let H1 := fresh "H" in
      apply comp_bind_inv in H as (x & c1 & H1 & H); comp_step H1; comp_step H
  | (mret _) _ = inl _ => apply comp_ret_inv in H as [? ?]; subst
  | get _ _ = inl _ => apply comp_get_inv in H as [? ?]; subst
  | modify _ _ = inl _ => apply comp_modify_inv in H as [? ?]; subst
  | assert _ _ = inl _ => apply comp_assert_inv in H as (? & ? & ?); subst
  | assert_some _ _ = inl _ => apply comp_assert_some_inv in H as [? ?]; subst
  | fail _ _ = inl _ => discriminate H
  | emit _ _ = inl _ => apply comp_emit_inv in H as [? ?]; subst
  | createBlock _ _ = inl _ => apply comp_create_inv in H as [? ?]; subst
  | setCurrentBlock _ _ = inl _ => apply comp_current_inv in H as [? ?]; subst
  | currentScope _ = inl _ => apply comp_scope_inv in H as [? ?]; subst
  | closeNamespace _ = inl _ => apply comp_close_inv in H as [? ?]; subst
  | reach _ _ _ = inl _ => unfold reach in H; apply comp_modify_inv in H as [? ?]; subst
  | upd_scope _ _ _ = inl _ => unfold upd_scope in H; apply comp_modify_inv in H as [? ?]; subst
  | _ => idtac
  end.

(** The scopes are the same. *)
Record same (c c' : CState) : Prop := {
  s_stack : c_scopeStack c' = c_scopeStack c;
  s_scopes : c_scopes c' = c_scopes c;
  s_count : c_scopeCount c' = c_scopeCount c;
  s_follow : m_catchFinallyFollowBlock c' = m_catchFinallyFollowBlock c
}.

Lemma c_same_refl c : same c c.
Proof. done. Qed.

Lemma c_same_trans c1 c2 c3 : same c1 c2 → same c2 c3 → same c1 c3.
Proof. intros [] []. split; congruence. Qed.

Lemma same_scope c c' s : same c c' → scope c' s = scope c s.
Proof. intros []. unfold scope. by rewrite s_scopes0. Qed.

Lemma same_pending c c' b : same c c' → m_returnBlock c' = m_returnBlock c → pending c' b ↔ pending c b.
Proof.
  intros S E. unfold pending, owns, all_ahead. rewrite E, (s_stack _ _ S).
  assert (Ha : omap (ahead c') (c_scopeStack c) = omap (ahead c) (c_scopeStack c)) by (apply ahead_ext; intros x _; by rewrite (same_scope _ _ _ S)).
  rewrite Ha. setoid_rewrite (same_scope _ _ _ S). done.
Qed.

Lemma idle_not_unreachable c b : idle c b → m_unreachableBlock c ≠ Some b.
Proof. intros I H. apply (i_special _ _ I). by left. Qed.

Section ops.
Context (isVoid isErrorCode : bool).

(** The state has grown, and the blocks that wait still do, but for some. *)
Record grows (X : nat → Prop) (c c' : CState) : Prop := {
  g_ext : ext c c';
  g_wf : wf isVoid c';
  g_idle x : idle c x → ¬ X x → idle c' x
}.

Lemma c_grows_refl X c : wf isVoid c → grows X c c.
Proof. intros W. by split. Qed.

Lemma c_grows_trans X Y c1 c2 c3 : grows X c1 c2 → grows Y c2 c3 → grows (λ x, X x ∨ Y x) c1 c3.
Proof. intros [] []. split; [by eapply ext_trans|done|]. intros x Hx Hn. apply g_idle1; [apply g_idle0; [done|]|]; tauto. Qed.

Lemma grows_trans0 c1 c2 c3 : grows (λ _, False) c1 c2 → grows (λ _, False) c2 c3 → grows (λ _, False) c1 c3.
Proof. intros [] []. split; [by eapply ext_trans|done|]. intros x Hx Hn. apply g_idle1; [by apply g_idle0|done]. Qed.

Lemma grows_weaken X Y c c' : grows X c c' → (∀ x, X x → x < c_blockCount c → Y x) → grows Y c c'.
Proof. intros [] H. split; [done..|]. intros x Hx Hn. apply g_idle0; [done|]. intros HX. apply Hn, H; [done|apply (i_count _ _ Hx)]. Qed.

Lemma grows_idle c c' b : grows (λ _, False) c c' → idle c b → idle c' b.
Proof. intros G I. apply (g_idle _ _ _ G); [done|tauto]. Qed.

Lemma grows_count X c c1 : grows X c c1 → c_blockCount c ≤ c_blockCount c1.
Proof. intros G. apply (e_count _ _ (g_ext _ _ _ G)). Qed.

(** Steps of the compiler, after others. *)
Lemma grows_emit X c c1 i : grows X c c1 → grows X c (emitted i c1).
Proof.
  intros []. split; [by apply ext_emit|by apply wf_emit|]. intros x Hx Hn. specialize (g_idle0 x Hx Hn). apply idle_emit; [done|].
  intros E. by apply (i_current _ _ g_idle0).
Qed.

Lemma grows_reach X c c1 b v : grows X c c1 → (v = true → m_unreachableBlock c1 ≠ Some b) → grows X c (upd_blk b (b_reach v) c1).
Proof. intros [] H. split; [by apply ext_reach|by apply wf_reach|]. intros x Hx Hn. apply idle_reach; auto. Qed.

Lemma grows_set_return X c c1 b : grows X c c1 → grows X c (upd_blk b b_set_return c1).
Proof. intros []. split; [by apply ext_set_return|by apply wf_set_return|]. intros x Hx Hn. apply idle_set_return; auto. Qed.

Lemma grows_current X c c1 b : grows X c c1 → b < c_blockCount c1 → (idle c b → X b) → grows X c (set_currentBlock b c1).
Proof.
  intros [] Hb H. split; [by apply ext_currentBlock|by apply wf_currentBlock|]. intros x Hx Hn. apply idle_currentBlock; [auto|].
  intros ->. auto.
Qed.

Lemma grows_create X c c1 r : grows X c c1 → grows X c (create r c1).
Proof. intros []. split; [by apply ext_create|by apply wf_create|]. intros x Hx Hn. apply idle_create; auto. Qed.

Lemma grows_route X c c1 b k x : grows X c c1 → k < c_nextRouteIdx c1 → x < c_blockCount c1 → m_unreachableBlock c1 ≠ Some x → grows X c (upd_blk b (b_route k x) c1).
Proof. intros [] H H1 H2. split; [by apply ext_add_route|by apply wf_route|]. intros y Hy Hn. apply idle_route; auto. Qed.

Lemma grows_mark X c c1 b fl s : grows X c c1 → (b < c_blockCount c → pending c b) → (∀ s', owns c1 s' b → s' = s) → m_dynamicThrowBlock c1 ≠ Some b →
  grows X c (upd_blk b (b_mark fl s) c1).
Proof. intros [] H1 H2 H3. split; [by apply ext_mark|by apply wf_mark|]. intros y Hy Hn. apply idle_mark; auto. Qed.

Lemma grows_followBlock X c c1 v : grows X c c1 → grows X c (set_followBlock v c1).
Proof. intros []. split; [by apply ext_followBlock|by apply wf_followBlock|]. intros x Hx Hn. apply idle_followBlock; auto. Qed.
Lemma grows_routeVariable X c c1 v : grows X c c1 → grows X c (set_routeVariable v c1).
Proof. intros []. split; [by apply ext_routeVariable|by apply wf_routeVariable|]. intros x Hx Hn. apply idle_routeVariable; auto. Qed.
Lemma grows_frameCount X c c1 v : grows X c c1 → grows X c (set_frameCount v c1).
Proof. intros []. split; [by apply ext_frameCount|by apply wf_frameCount|]. intros x Hx Hn. apply idle_frameCount; auto. Qed.
Lemma grows_frameArray X c c1 : grows X c c1 → grows X c (set_frameArray true c1).
Proof. intros []. split; [by apply ext_frameArray|by apply wf_frameArray|]. intros x Hx Hn. apply idle_frameArray; auto. Qed.
Lemma grows_nextRoute X c c1 : grows X c c1 → grows X c (set_nextRouteIdx (S (c_nextRouteIdx c1)) c1).
Proof. intros []. split; [apply ext_nextRouteIdx; [done|lia]|apply wf_nextRouteIdx; [done|lia]|]. intros x Hx Hn. apply idle_nextRouteIdx; auto. Qed.

Lemma grows_push X c c1 s : grows X c c1 → (∀ b, ¬ has_block s b) → scope_ahead s = None → grows X c (push s c1).
Proof. intros [] H1 H2. split; [by apply ext_push|by apply wf_push|]. intros x Hx Hn. apply idle_push; auto. Qed.
Lemma grows_pop X c c1 : grows X c c1 → grows X c (pop c1).
Proof. intros []. split; [by apply ext_pop|by apply wf_pop|]. intros x Hx Hn. apply idle_pop; auto. Qed.
Lemma grows_upd_flags X c c1 s f : grows X c c1 → static (f (scope c1 s)) = static (scope c1 s) → grows X c (upd_scp s f c1).
Proof. intros [] H. split; [by apply ext_upd_flags|by apply wf_upd_flags|]. intros x Hx Hn. apply idle_upd_scp; auto. Qed.

Lemma grows_upd_scp X c c1 s rest f : grows X c c1 → c_scopeStack c1 = s :: rest → c_scopeCount c ≤ s →
  (∀ b, has_block (f (scope c1 s)) b → has_block (scope c1 s) b ∨ (c_blockCount c ≤ b ∧ free c1 s b)) →
  (∀ b, has_block (scope c1 s) b → c_blockCount c ≤ b) →
  (scope_ahead (f (scope c1 s)) = scope_ahead (scope c1 s) ∨
   (scope_ahead (scope c1 s) = None ∧ ∃ b, scope_ahead (f (scope c1 s)) = Some b ∧ b < c_blockCount c1 ∧ ¬ special c1 b ∧ b ∉ all_ahead c1)) →
  (∀ b, scope_ahead (f (scope c1 s)) = Some b → c_blockCount c ≤ b ∨ b ∈ all_ahead c) →
  grows X c (upd_scp s f c1).
Proof.
  intros [] Hst Hs Hb Hb2 Ha Ha2. split.
  - apply ext_upd_scp; [done..| |done]. intros b H. destruct (Hb b H) as [H1|[H1 _] ]; auto.
  - eapply wf_upd_scp; [done..| |done]. intros b H. destruct (Hb b H) as [H1|[_ H1] ]; auto.
  - intros x Hx Hn. apply idle_upd_scp; auto.
Qed.

(** ** The special blocks *)

Lemma grows_unreachableBlock X c c1 : grows X c c1 → m_unreachableBlock c1 = None → m_dynamicThrowBlock c1 ≠ Some (c_blockCount c1) →
  grows X c (set_unreachableBlock (Some (c_blockCount c1)) (create false c1)).
Proof.
  intros G Hu Ht. pose proof (grows_count _ _ _ G). destruct (blank_new isVoid c1 false (g_wf _ _ _ G)) as [I Hl Hp]. pose proof (grows_create _ _ _ false G) as []. split.
  - apply ext_unreachableBlock; [done..|lia].
  - apply wf_unreachableBlock; [done|apply I| |done|done|]; [by rewrite blk_create, decide_True|].
    intros x k. rewrite blk_create. destruct (decide _); [apply not_elem_of_nil|]. intros Hk. destruct (w_route_to _ _ (g_wf _ _ _ G) _ _ _ Hk). lia.
  - intros x Hx Hn. apply idle_unreachableBlock; [auto|]. pose proof (i_count _ _ Hx). lia.
Qed.

Lemma new_not_special c : wf isVoid c → ¬ special c (c_blockCount c) ∧ m_returnBlock c ≠ Some (c_blockCount c) ∧ m_currentBlock c < c_blockCount c.
Proof. intros W. destruct (blank_new isVoid c false W) as [ [H1 H2 H3 H4 H5] _ _]. split; [done|]. split; [done|apply (w_current _ _ W)]. Qed.

(** Something is looked up; a special block may be new. *)
Record quiet (c c' : CState) : Prop := {
  q_grows : grows (λ _, False) c c';
  q_blk x : x < c_blockCount c → blk c' x = blk c x;
  q_current : m_currentBlock c' = m_currentBlock c;
  q_same : same c c';
  q_next : c_nextRouteIdx c' = c_nextRouteIdx c
}.

Lemma c_quiet_refl c : wf isVoid c → quiet c c.
Proof. intros W. split; [by apply c_grows_refl|done..]. Qed.

Lemma emitted_other i c x : x ≠ m_currentBlock c → blk (emitted i c) x = blk c x.
Proof. intros H. unfold emitted. by rewrite blk_upd, decide_False by done. Qed.

Lemma emitted_current i c : blk (emitted i c) (m_currentBlock c) = b_emit i (blk c (m_currentBlock c)).
Proof. unfold emitted. by rewrite blk_upd, decide_True. Qed.

Lemma getUnreachableBlock_quiet c u c' : getUnreachableBlock c = inl (u, c') → wf isVoid c → quiet c c' ∧ m_unreachableBlock c' = Some u.
Proof.
  intros H W. unfold getUnreachableBlock in H. comp_step H. destruct (m_unreachableBlock c) as [b|] eqn:Hu.
  { comp_step H. split; [by apply c_quiet_refl|done]. }
  unfold createBlock, markUnreachable in H. comp_step H.
  destruct (new_not_special c W) as (Hs & Hr & Hc). set (n := c_blockCount c) in *. split; [|done].
  change (quiet c (set_currentBlock (m_currentBlock c) (emitted IUnreachable (set_currentBlock n (set_unreachableBlock (Some n) (create false c)))))).
  split; [|intros x Hx|done..].
  - apply grows_current; [|cbn; lia|intros I; by destruct (i_current _ _ I)]. apply grows_emit, grows_current; [|cbn; lia|intros I; pose proof (i_count _ _ I); lia].
    apply grows_unreachableBlock; [by apply c_grows_refl|done|]. intros E. apply Hs. by right.
  - change (blk (emitted IUnreachable (set_currentBlock n (set_unreachableBlock (Some n) (create false c)))) x = blk c x).
    rewrite emitted_other by (cbn; lia). change (blk (create false c) x = blk c x). rewrite blk_create, decide_False by (unfold n in Hx; lia). done.
Qed.

(** A block with code, which is not the current one. *)
Definition created (r : bool) (l : list instr) (c : CState) : CState :=
  set_currentBlock (m_currentBlock c) (foldl (λ c i, emitted i c) (set_currentBlock (c_blockCount c) (create r c)) l).

Lemma foldl_emitted c l : foldl (λ c i, emitted i c) c l = foldl (λ c i, upd_blk (m_currentBlock c) (b_emit i) c) c l.
Proof. done. Qed.

Lemma blk_foldl_emitted l : ∀ c, let c' := foldl (λ c i, emitted i c) c l in
  m_currentBlock c' = m_currentBlock c ∧ (∀ x, x ≠ m_currentBlock c → blk c' x = blk c x) ∧
  code c' (m_currentBlock c) = code c (m_currentBlock c) ++ l ∧ landing c' (m_currentBlock c) = landing c (m_currentBlock c) ∧
  reached c' (m_currentBlock c) = reached c (m_currentBlock c) ∧
  (∀ s b, owns c' s b ↔ owns c s b) ∧ all_ahead c' = all_ahead c ∧ (∀ b, special c' b ↔ special c b) ∧ c_blockCount c' = c_blockCount c ∧
  m_returnBlock c' = m_returnBlock c ∧ m_unreachableBlock c' = m_unreachableBlock c ∧ same c c' ∧ c_nextRouteIdx c' = c_nextRouteIdx c.
Proof.
  induction l as [|i l IH]; intros c; [cbn; by rewrite app_nil_r|]. cbn zeta. cbn [foldl].
  destruct (IH (emitted i c)) as (H1 & H2 & H3 & H4 & H5 & H6 & H7 & H8 & H9 & H10 & H11 & H12 & H13). cbn zeta in *. change (m_currentBlock (emitted i c)) with (m_currentBlock c) in *.
  rewrite H1, H3, H4, H5, H9, H10, H11, H13, emitted_current. split; [done|]. split; [intros x Hx; by rewrite H2, emitted_other|].
  split; [cbn; by rewrite <-app_assoc|]. split; [done|]. split; [done|]. split; [done|]. split; [by rewrite H7|]. split; [done|]. split_and!; try done.
  eapply c_same_trans; [|exact H12]. done.
Qed.

Lemma grows_foldl X c l : ∀ c1, grows X c c1 → grows X c (foldl (λ c i, emitted i c) c1 l).
Proof. induction l as [|i l IH]; intros c1 G; [done|]. cbn. by apply IH, grows_emit. Qed.

Lemma created_spec r l c : wf isVoid c → let n := c_blockCount c in let c' := created r l c in
  grows (λ _, False) c c' ∧ (∀ x, x < n → blk c' x = blk c x) ∧ m_currentBlock c' = m_currentBlock c ∧ same c c' ∧ c_nextRouteIdx c' = c_nextRouteIdx c ∧
  code c' n = l ∧ landing c' n = None ∧ n < c_blockCount c' ∧ ¬ pending c' n ∧ ¬ special c' n ∧ (∀ b, special c' b ↔ special c b) ∧ m_returnBlock c' = m_returnBlock c ∧ m_unreachableBlock c' = m_unreachableBlock c.
Proof.
  intros W n c'. destruct (new_not_special c W) as (Hs & Hr & Hc). destruct (blank_new isVoid c r W) as [I Hl Hp]. fold n in Hs, Hr, Hc, I, Hl, Hp.
  set (c0 := set_currentBlock n (create r c)). pose proof (blk_foldl_emitted l c0) as H. cbn zeta in H. change (m_currentBlock c0) with n in H.
  set (c1 := foldl _ c0 l) in H. destruct H as (H1 & H2 & H3 & H4 & H5 & H6 & H7 & H8 & H9 & H10 & H11 & H12 & H13).
  assert (G : grows (λ _, False) c c1). { apply grows_foldl, grows_current; [by apply grows_create, c_grows_refl|cbn; lia|]. intros I2. pose proof (i_count _ _ I2). lia. }
  assert (Hp1 : pending c1 n ↔ pending (create r c) n). { unfold pending. rewrite H7. by setoid_rewrite H6. }
  change c' with (set_currentBlock (m_currentBlock c) c1). split.
  { apply grows_current; [done|rewrite H9; cbn; lia|]. intros I2. by apply (i_current _ _ I2). }
  split. { intros x Hx. change (blk c1 x = blk c x). rewrite H2 by lia. change (blk (create r c) x = blk c x). rewrite blk_create, decide_False by (unfold n in Hx; lia). done. }
  split; [done|]. split; [destruct H12; by split|]. split; [exact H13|]. split; [change (code c1 n = l); rewrite H3; change (code (create r c) n ++ l = l); by rewrite (i_code _ _ I)|].
  split; [change (landing c1 n = None); by rewrite H4|]. split; [change (n < c_blockCount c1); rewrite H9; cbn; lia|].
  split; [change (¬ pending c1 n); by rewrite Hp1|]. split; [change (¬ special c1 n); by rewrite H8|]. split; [exact H8|]. split; [exact H10|exact H11].
Qed.

Lemma getReturnBlock_quiet c b c' : getReturnBlock isVoid c = inl (b, c') → wf isVoid c → quiet c c' ∧ m_returnBlock c' = Some b.
Proof.
  intros H W. unfold getReturnBlock in H. comp_step H. destruct (m_returnBlock c) as [b'|] eqn:Hu.
  { comp_step H. split; [by apply c_quiet_refl|done]. }
  unfold createBlock in H. comp_step H. set (n := c_blockCount c).
  destruct (created_spec false [return_instr isVoid] c W) as (G & Hb & Hc & S & Hn & Hcode & Hl & Hlt & Hp & Hs & _ & Hr & _). fold n in Hb, Hcode, Hl, Hlt, Hp, Hs.
  set (c1 := created false [return_instr isVoid] c) in *. split; [|done].
  set (d := set_returnBlock (Some n) c1).
  assert (Gd : grows (λ _, False) c d).
  { split.
    - apply ext_returnBlock; [apply G|by rewrite Hr|done].
    - apply wf_returnBlock; [apply G|done|by rewrite Hcode|done| |done|by rewrite Hr]. intros s Ho. apply Hp. left. by exists s.
    - intros x Hx Hf. apply idle_returnBlock; [by apply (g_idle _ _ _ G)|]. pose proof (i_count _ _ Hx). unfold n. lia. }
  change (quiet c (upd_blk n b_set_return d)). split; [by apply grows_set_return| |done|by destruct S|done].
  intros x Hx. rewrite blk_upd, decide_False by (unfold n; lia). by apply Hb.
Qed.

Lemma getDynamicThrowBlock_quiet c b c' : getDynamicThrowBlock c = inl (b, c') → wf isVoid c → quiet c c' ∧ m_dynamicThrowBlock c' = Some b.
Proof.
  intros H W. unfold getDynamicThrowBlock in H. comp_step H. destruct (m_dynamicThrowBlock c) as [b'|] eqn:Hu.
  { comp_step H. split; [by apply c_quiet_refl|done]. }
  unfold createBlock in H. comp_step H. set (n := c_blockCount c).
  destruct (created_spec true [IThrow; IUnreachable] c W) as (G & Hb & Hc & S & Hn & Hcode & Hl & Hlt & Hp & Hs & Hs2 & Hr & Hun). fold n in Hb, Hcode, Hl, Hlt, Hp, Hs.
  set (c1 := created true [IThrow; IUnreachable] c) in *. split; [|done].
  change (quiet c (set_dynamicThrowBlock (Some n) c1)). split; [|done|done|by destruct S|done]. split.
  - apply ext_dynamicThrowBlock; [apply G|exact Hu|done].
  - apply wf_dynamicThrowBlock; [apply G|done|rewrite Hcode; by exists [IUnreachable]|done|done|]. intros E. apply Hs. by left.
  - intros x Hx Hf. apply idle_dynamicThrowBlock; [by apply (g_idle _ _ _ G)|]. pose proof (i_count _ _ Hx). unfold n. lia.
Qed.

(** ** Jumps *)

(** The current block ends with a jump. *)
Record jumps (i : instr) (targets : list nat) (f : option nat) (c c' : CState) : Prop := {
  j_grows : grows (λ x, f = Some x) c c';
  j_same : same c c';
  j_emits : code c' (m_currentBlock c) = code c (m_currentBlock c) ++ [i];
  j_code x : x < c_blockCount c → x ≠ m_currentBlock c → code c' x = code c x;
  j_reached : reachable c = true → ∀ b, b ∈ targets → reached c' b = true;
  j_to : match f with Some f => m_currentBlock c' = f ∧ code c' f = [] | None => reachable c' = false end;
  j_routes x : x < c_blockCount c → routes c' x = routes c x
}.

Lemma empty_open c : code c (m_currentBlock c) = [] → open c.
Proof. intros H _. unfold hasTerminator. by rewrite H. Qed.

Lemma jumps_open i ts f c c' : jumps i ts f c c' → open c'.
Proof. intros J. pose proof (j_to _ _ _ _ _ J) as H. destruct f as [f|]; [destruct H as [<- H]; by apply empty_open|]. intros E. congruence. Qed.

Definition reach_all (v : bool) (l : list nat) (c : CState) : CState := foldl (λ c b, upd_blk b (b_reach v) c) c l.

Lemma reach_all_spec v X c : ∀ l c1, grows X c c1 → (v = true → ∀ b, b ∈ l → m_unreachableBlock c1 ≠ Some b) →
  let c2 := reach_all v l c1 in
  grows X c c2 ∧ same c1 c2 ∧ (∀ x, code c2 x = code c1 x ∧ routes c2 x = routes c1 x) ∧ (v = true → ∀ b, b ∈ l ∨ reached c1 b = true → reached c2 b = true) ∧
  m_currentBlock c2 = m_currentBlock c1 ∧ c_blockCount c2 = c_blockCount c1 ∧ m_unreachableBlock c2 = m_unreachableBlock c1 ∧ c_nextRouteIdx c2 = c_nextRouteIdx c1.
Proof.
  induction l as [|b l IH]; intros c1 G Hu c2.
  { split_and!; try done. intros _ b [H|H]; [by apply not_elem_of_nil in H|done]. }
  destruct (IH (upd_blk b (b_reach v) c1)) as (H1 & H2 & H3 & H4 & H5 & H6 & H7 & H8).
  { apply grows_reach; [done|]. intros Hv. apply Hu; [done|left]. }
  { intros Hv x Hx. apply Hu; [done|by right]. }
  change (reach_all v l (upd_blk b (b_reach v) c1)) with c2 in *.
  split; [done|]. split; [by eapply c_same_trans; [|exact H2]|]. split.
  { intros x. destruct (H3 x) as [-> ->]. rewrite blk_upd. destruct (decide (b = x)) as [->|]; done. }
  split; [|done]. intros Hv x Hx. apply H4; [done|]. rewrite elem_of_cons in Hx. rewrite blk_upd, Hv. destruct (decide (b = x)) as [->|].
  - right. cbn. by rewrite orb_true_r.
  - destruct Hx as [ [Hx|Hx]|Hx]; [by subst|by left|by right].
Qed.

Lemma jumps_intro i ts f c : wf isVoid c → (∀ b, b ∈ ts → m_unreachableBlock c ≠ Some b) → idle c f →
  jumps i ts (Some f) c (set_currentBlock f (emitted i (reach_all (reachable c) ts c))).
Proof.
  intros W Hu If. destruct (reach_all_spec (reachable c) (λ x, Some f = Some x) c ts c (c_grows_refl _ _ W)) as (H1 & H2 & H3 & H4 & H5 & H6 & _); [auto|].
  set (c1 := reach_all _ ts c) in *. pose proof (i_count _ _ If). pose proof (i_current _ _ If).
  assert (Hc : code (emitted i c1) (m_currentBlock c) = code c (m_currentBlock c) ++ [i]).
  { rewrite <-H5, emitted_current. cbn. by destruct (H3 (m_currentBlock c1)) as [-> _]. }
  split.
  - apply grows_current; [by apply grows_emit|cbn; lia|done].
  - destruct H2. by split.
  - exact Hc.
  - intros x _ Hx. change (code (emitted i c1) x = code c x). rewrite emitted_other by congruence. by destruct (H3 x) as [-> _].
  - intros Hr b Hb. change (reached (emitted i c1) b = true). assert (E : reached c1 b = true) by auto.
    unfold emitted. rewrite blk_upd. by destruct (decide _) as [<-|].
  - split; [done|]. change (code (emitted i c1) f = []). rewrite emitted_other by congruence. destruct (H3 f) as [-> _]. apply (i_code _ _ If).
  - intros x _. change (routes (emitted i c1) x = routes c x). destruct (H3 x) as [_ <-]. unfold emitted. rewrite blk_upd. by destruct (decide _) as [<-|].
Qed.

Lemma condition_jump_spec i t e f c c' : condition_jump i t e f c = inl (tt, c') → wf isVoid c → m_unreachableBlock c ≠ Some t → m_unreachableBlock c ≠ Some e →
  idle c (default t f) → jumps i [t; e] (Some (default t f)) c c'.
Proof.
  intros H W Ht He If. unfold condition_jump in H. comp_step H. apply (jumps_intro i [t; e]); [done| |done].
  intros b. rewrite !elem_of_cons. intros [->|[->|Hb] ]; [done..|by apply not_elem_of_nil in Hb].
Qed.

Lemma jump_spec b f c c' : jump b f c = inl (tt, c') → wf isVoid c → b < c_blockCount c → m_unreachableBlock c ≠ Some b → (∀ x, f = Some x → idle c x) →
  jumps (IBr b) [b] f c c'.
Proof.
  intros H W Hb Hu If. unfold jump in H. comp_step H. destruct f as [f|].
  { comp_step H0. apply (jumps_intro (IBr b) [b]); [done| |by apply If]. intros x Hx%list_elem_of_singleton. by subst. }
  set (c1 := emitted (IBr b) (reach_all (reachable c) [b] c)).
  destruct (reach_all_spec (reachable c) (λ x, None = Some x) c [b] c (c_grows_refl _ _ W)) as (H1 & H2 & H3 & H4 & H5 & H6 & _).
  { intros _ y Hy%list_elem_of_singleton. by subst. }
  change (emitted (IBr b) _) with c1 in H0. assert (W1 : wf isVoid c1) by (apply wf_emit, H1).
  destruct (getUnreachableBlock_quiet _ _ _ H0 W1) as [Q Hq]. pose proof (w_current _ _ W).
  split.
  - assert (G : grows (λ x, None = Some x) c c0). { eapply grows_weaken; [eapply c_grows_trans; [apply grows_emit, H1|apply Q]|]. cbn. intros y [Hy|Hy]; done. }
    apply grows_current; [done|by apply (w_unreachable _ _ (g_wf _ _ _ G))|]. intros I. exfalso. destruct (g_idle _ _ _ G _ I) as [_ Hs _ _ _]; [done|]. apply Hs. by left.
  - assert (S : same c c1) by (destruct H2; by split). destruct (c_same_trans _ _ _ S (q_same _ _ Q)). by split.
  - change (code c0 (m_currentBlock c) = code c (m_currentBlock c) ++ [IBr b]). rewrite (q_blk _ _ Q) by (cbn; lia). unfold c1. rewrite <-H5, emitted_current. cbn [b_code b_emit].
    by destruct (H3 (m_currentBlock (reach_all (reachable c) [b] c))) as [-> _].
  - intros y Hy Hy2. change (code c0 y = code c y). rewrite (q_blk _ _ Q) by done. unfold c1. rewrite emitted_other by (by rewrite H5). by destruct (H3 y) as [-> _].
  - intros Hr y Hy. change (reached c0 y = true). rewrite (q_blk _ _ Q); [|apply list_elem_of_singleton in Hy; subst; done].
    assert (E : reached (reach_all (reachable c) [b] c) y = true) by auto. unfold c1, emitted. rewrite blk_upd. by destruct (decide _) as [<-|].
  - unfold reachable. cbn. by apply (w_unreachable _ _ (g_wf _ _ _ (q_grows _ _ Q))).
  - intros y Hy. change (routes c0 y = routes c y). rewrite (q_blk _ _ Q) by done. destruct (H3 y) as [_ <-]. unfold c1, emitted. rewrite blk_upd. by destruct (decide _) as [<-|].
Qed.

Lemma follow_spec b c c' : follow b c = inl (tt, c') → wf isVoid c → idle c b →
  grows (λ x, x = b) c c' ∧ same c c' ∧ m_currentBlock c' = b ∧ code c' b = [] ∧ open c' ∧ (∀ x, x < c_blockCount c → routes c' x = routes c x) ∧
  (hasTerminator (blk c (m_currentBlock c)) = false → jumps (IBr b) [b] (Some b) c c').
Proof.
  intros H W I. unfold follow in H. comp_step H. pose proof (i_count _ _ I). pose proof (i_current _ _ I).
  assert (Hu : ∀ x, x ∈ [b] → m_unreachableBlock c ≠ Some x). { intros y ->%list_elem_of_singleton Hy. apply (i_special _ _ I). by left. }
  destruct (hasTerminator _) eqn:Ht.
  - comp_step H0. split; [|split; [done|] ].
    + apply grows_current; [by apply c_grows_refl|done|done].
    + split; [done|]. split; [apply (i_code _ _ I)|]. split; [apply empty_open, (i_code _ _ I)|done].
  - comp_step H0. assert (J : jumps (IBr b) [b] (Some b) c (set_currentBlock b (upd_blk b (b_reach (reached c (m_currentBlock c))) (emitted (IBr b) c)))).
    { pose proof (jumps_intro (IBr b) [b] b c W Hu I) as J. unfold reach_all in J. cbn [foldl] in J.
      assert (E : emitted (IBr b) (upd_blk b (b_reach (reachable c)) c) = upd_blk b (b_reach (reached c (m_currentBlock c))) (emitted (IBr b) c)); [|by rewrite <-E].
      unfold emitted, upd_blk, set_blocks, reachable; cbn. f_equal. rewrite insert_insert_ne by done. f_equal; [f_equal|]; unfold blk; cbn; by rewrite lookup_insert_ne. }
    pose proof (jumps_open _ _ _ _ _ J) as Ho. pose proof (j_to _ _ _ _ _ J) as [Ht1 Ht2]. pose proof (j_routes _ _ _ _ _ J) as Hr. split; [|split; [apply J|done] ].
    eapply grows_weaken; [apply J|]. cbn. intros x [= ->]. done.
Qed.

(** ** Frames *)

(** A block that no landing pad is made of. *)
Record plain (c : CState) (b : nat) : Prop := { p_count : b < c_blockCount c; p_landing : landing c b = None; p_pending : ¬ pending c b }.

Lemma plain_ext c c' b : plain c b → ext c c' → plain c' b.
Proof.
  intros [Hc Hl Hp] X. pose proof (e_count _ _ X). split; [lia|by rewrite (e_landing _ _ X)|]. intros H1. apply Hp. by eapply ext_pending.
Qed.

Lemma plain_new r c : wf isVoid c → plain (create r c) (c_blockCount c).
Proof. intros W. destruct (blank_new isVoid c r W) as [ [] ? ?]. by split. Qed.

Lemma jumps_count i ts f c c' : jumps i ts f c c' → c_blockCount c ≤ c_blockCount c'.
Proof. intros J. eapply grows_count, J. Qed.

(** A frame is made the current one, with its handler. *)
Record sets_frame (k h : nat) (c c' : CState) : Prop := {
  sf_grows : grows (λ _, False) c c';
  sf_emits : code c' (m_currentBlock c) = code c (m_currentBlock c) ++ [ISetFrame (Some k); ISetJmpBr k h (m_currentBlock c')];
  sf_code : code c' (m_currentBlock c') = [];
  sf_plain : plain c' (m_currentBlock c');
  sf_new : c_blockCount c ≤ m_currentBlock c';
  sf_reached : reachable c = true → reachable c' = true ∧ reached c' h = true;
  sf_array : m_sjljFrameArrayValue c' = true;
  sf_routes x : x < c_blockCount c → routes c' x = routes c x
}.

Lemma sets_frame_open k h c c' : sets_frame k h c c' → open c'.
Proof. intros S. apply empty_open, (sf_code _ _ _ _ S). Qed.

Lemma setJmp_spec h k c c' : setJmp h k c = inl (tt, c') → wf isVoid c → idle c h → sets_frame k h c c' ∧ same c c'.
Proof.
  intros H W I. unfold setJmp in H. comp_step H. set (n := c_blockCount c) in *.
  set (c1 := create false (emitted (ISetFrame (Some k)) (set_frameArray true c))).
  assert (G1 : grows (λ _, False) c c1) by (apply grows_create, grows_emit, grows_frameArray, c_grows_refl; done).
  assert (W1 : wf isVoid (emitted (ISetFrame (Some k)) (set_frameArray true c))) by (apply wf_emit, wf_frameArray; done).
  pose proof (blank_new isVoid _ false W1) as [In _ _]. change (c_blockCount (emitted _ _)) with n in In. fold c1 in In.
  assert (Ih : idle c1 h) by (by apply (grows_idle _ _ _ G1)). pose proof (w_current _ _ W) as Hc. fold n in Hc. pose proof (i_count _ _ I) as Hh. fold n in Hh. rename select (condition_jump _ _ _ _ _ = _) into Hj.
  assert (J : jumps (ISetJmpBr k h n) [h; n] (Some n) c1 c0).
  { apply (condition_jump_spec _ h n (Some n)); [by destruct x|apply G1| | |done]; intros E; [apply (i_special _ _ Ih)|apply (i_special _ _ In)]; by left. }
  pose proof (jumps_count _ _ _ _ _ J). change (c_blockCount c1) with (S n) in *.
  assert (B1 : ∀ y, y < n → blk c1 y = blk (emitted (ISetFrame (Some k)) (set_frameArray true c)) y).
  { intros y Hy. unfold c1. rewrite blk_create, decide_False; [done|]. change (n ≠ y). lia. }
  assert (S1 : same c c0) by (eapply c_same_trans; [|apply J]; done).
  assert (S0 : sets_frame k h c c0).
  { destruct (j_to _ _ _ _ _ J) as [E1 E2]. split; rewrite ?E1; try done.
    - eapply grows_weaken; [eapply c_grows_trans; [apply G1|apply J]|]. cbn. intros y [ []|[= <-] ]. unfold n. lia.
    - pose proof (j_emits _ _ _ _ _ J) as E. change (m_currentBlock c1) with (m_currentBlock c) in E. rewrite E, B1 by done.
      change (m_currentBlock c) with (m_currentBlock (set_frameArray true c)) at 1. rewrite emitted_current. cbn. by rewrite <-app_assoc.
    - eapply plain_ext; [apply (plain_new false _ W1)|apply J].
    - intros Hr. assert (Hr1 : reachable c1 = true).
      { unfold reachable. rewrite B1 by done. change (m_currentBlock c1) with (m_currentBlock (set_frameArray true c)). by rewrite emitted_current. }
      pose proof (j_reached _ _ _ _ _ J Hr1) as E. split; [unfold reachable; rewrite E1; apply E; right; left|apply E; left].
    - apply (e_frames _ _ (g_ext _ _ _ (j_grows _ _ _ _ _ J))). done.
    - intros y Hy. fold n in Hy. rewrite (j_routes _ _ _ _ _ J), B1 by (cbn; lia). unfold emitted. rewrite blk_upd. by destruct (decide _) as [<-|]. }
  destruct (_ <=? k) in H; comp_step H; [|done].
  split; [destruct S0; split; try done; [by apply grows_frameCount|destruct sf_plain0; by split]|destruct S1; by split].
Qed.

Lemma setJmpFinally_spec f k c c' : setJmpFinally f k c = inl (tt, c') → wf isVoid c → idle c f →
  same c c' ∧ ∃ h, sets_frame k h c c' ∧ c_blockCount c ≤ h ∧ code c' h = [IStoreRoute None; IBr f] ∧ plain c' h ∧ (reachable c = true → reached c' f = true).
Proof.
  intros H W If. unfold setJmpFinally in H. comp_step H. destruct x0. set (n := c_blockCount c) in *.
  pose proof (wf_create _ c false W) as W1. destruct (blank_new isVoid c false W) as [In _ _]. pose proof (plain_new false c W) as Pn. fold n in In, Pn.
  rename select (setJmp _ _ _ = _) into Hj. rename select (jump _ _ _ = _) into Hjump. destruct x. pose proof (setJmp_spec _ _ _ _ Hj W1 In) as [ [G0 E0 C0 P0 N0 R0 A0 T0] S0].
  set (n1 := m_currentBlock c0) in *. change (m_currentBlock (create false c)) with (m_currentBlock c) in *. change (c_blockCount (create false c)) with (S n) in *.
  pose proof (w_current _ _ W) as Hc. fold n in Hc.
  set (d := emitted (IStoreRoute None) (set_routeVariable true (set_currentBlock n c0))) in *.
  assert (In0 : idle c0 n) by (by apply (grows_idle _ _ _ G0)). pose proof (i_count _ _ In0) as Hn0.
  assert (Gc : grows (λ _, False) c (create false c)) by apply grows_create, c_grows_refl, W.
  assert (If0 : idle c0 f) by (by apply (grows_idle _ _ _ G0), (grows_idle _ _ _ Gc)).
  assert (Gd : grows (λ _, False) c d).
  { apply grows_emit, grows_routeVariable, grows_current; [by eapply grows_trans0|done|]. intros I. pose proof (i_count _ _ I). unfold n in *. lia. }
  assert (J : jumps (IBr f) [f] None d c1).
  { apply jump_spec; [done|apply Gd|apply (i_count _ _ If0)| |done]. intros E. apply (i_special _ _ If0). by left. }
  assert (B : ∀ x, x ≠ n → blk d x = blk c0 x) by (intros x Hx; unfold d; by rewrite emitted_other).
  assert (Cn : code d n = [IStoreRoute None]). { unfold d. change n with (m_currentBlock (set_routeVariable true (set_currentBlock n c0))) at 1. rewrite emitted_current. change (code c0 n ++ [IStoreRoute None] = [IStoreRoute None]). by rewrite (i_code _ _ In0). }
  assert (G1 : grows (λ _, False) c c1). { apply (grows_weaken (λ x, False ∨ None = Some x)); [eapply c_grows_trans; [exact Gd|apply J]|]. intros x [ []|[=] ]. }
  pose proof (grows_count _ _ _ G0) as K0. change (c_blockCount (create false c)) with (S n) in K0. pose proof (jumps_count _ _ _ _ _ J) as K1. change (c_blockCount d) with (c_blockCount c0) in *.
  assert (Bc : ∀ x, x < n → blk (create false c) x = blk c x) by (intros x Hx; rewrite blk_create, decide_False; [done|unfold n in Hx; lia]).
  assert (X0 : ext c0 (set_currentBlock n1 c1)).
  { apply ext_currentBlock. eapply ext_trans; [|apply J]. apply ext_emit, ext_routeVariable, ext_currentBlock, ext_refl. }
  split; [destruct S0, (j_same _ _ _ _ _ J); split; cbn in *; congruence|].
  exists n. split; [split|]; change (m_currentBlock (set_currentBlock n1 c1)) with n1.
  - apply grows_current; [done|pose proof (w_current _ _ (g_wf _ _ _ G0)); unfold n1; lia|]. intros I. pose proof (i_count _ _ I). unfold n in *. lia.
  - change (code c1 (m_currentBlock c) = code c (m_currentBlock c) ++ [ISetFrame (Some k); ISetJmpBr k n n1]).
    rewrite (j_code _ _ _ _ _ J), B, E0, Bc; [done|done|lia|cbn; lia|cbn; lia].
  - change (code c1 n1 = []). pose proof (p_count _ _ P0). rewrite (j_code _ _ _ _ _ J), B; [done|lia|done|cbn; lia].
  - by eapply plain_ext, X0.
  - fold n. lia.
  - intros Hr. destruct R0 as [R1 R2]; [unfold reachable; by rewrite Bc|]. split.
    + apply (e_reach _ _ X0); [apply (w_current _ _ (g_wf _ _ _ G0))|done].
    + by apply (e_reach _ _ X0).
  - by apply (e_frames _ _ X0).
  - intros x Hx. fold n in Hx. change (routes c1 x = routes c x). rewrite (j_routes _ _ _ _ _ J), B, T0, Bc; [done|done|lia|lia|cbn; lia].
  - split; [done|]. split; [|split].
    + change (code c1 n = [IStoreRoute None; IBr f]). pose proof (j_emits _ _ _ _ _ J) as E. change (m_currentBlock d) with n in E. by rewrite E, Cn.
    + eapply plain_ext; [exact Pn|]. eapply ext_trans; [apply G0|done].
    + intros Hr. destruct R0 as [_ R2]; [unfold reachable; by rewrite Bc|]. apply (j_reached _ _ _ _ _ J); [|left]. unfold reachable. change (m_currentBlock d) with n.
      unfold d, emitted. by rewrite blk_upd, decide_True.
Qed.
End ops.
