(* ===== verification/ControlFlowScope.v ===== *)
(** * Control flow: scopes and routes

    Scopes that are opened, escapes through the [finally] blocks ahead, and labels. *)

From S2P Require Import Prelude ControlFlow ControlFlowInv ControlFlowOps.

Open Scope nat_scope.

#[local] Strategy 1000 [mbind Comp_bind mret Comp_ret].

Section scopes.
Context (isVoid isErrorCode : bool).

#[local] Abbreviation grows := (grows isVoid).
#[local] Abbreviation wf := (wf isVoid).
#[local] Abbreviation none := (λ _ : nat, False).

(** ** Scopes *)

Definition child (c : CState) : Scope :=
  match c_scopeStack c with
  | [] => new_scope Flag_Function None
  | s :: _ => new_scope (inherited (sc_flags (scope c s))) (sc_frame (scope c s))
  end.

Definition opened_flags (flags : Flags) (c : CState) : Flags :=
  flags_or (sc_flags (child c)) (flags_or flags (if decide (c_scopeStack c = [0]) then Flag_Function else no_flags)).

Definition opened (flags : Flags) (c : CState) : CState :=
  upd_scp (c_scopeCount c) (λ s, sc_set_flags (flags_or (sc_flags s) (flags_or flags (if decide (c_scopeStack c = [0]) then Flag_Function else no_flags))) s)
    (push (child c) c).

Lemma comp_open_inv y c c' : openInternalScope c = inl (y, c') → y = c_scopeCount c ∧ c' = push (child c) c.
Proof. unfold openInternalScope, child. intros H. comp_step H. split; [done|]. unfold push. by destruct (c_scopeStack c). Qed.

(** Nothing but scopes and blocks that are new. *)
Record silent (c c' : CState) : Prop := {
  q_silent : grows none c c';
  q_blocks x : x < c_blockCount c → blk c' x = blk c x;
  q_here : m_currentBlock c' = m_currentBlock c
}.

Lemma silent_trans c1 c2 c3 : silent c1 c2 → silent c2 c3 → silent c1 c3.
Proof.
  intros [G1 H1 H2] [G2 H3 H4]. pose proof (grows_count _ _ _ _ G1). split; [by eapply grows_trans0| |congruence].
  intros x Hx. rewrite H3, H1; [done|done|lia].
Qed.

Lemma silent_create r c : wf c → silent c (create r c).
Proof. intros W. split; [by apply grows_create, c_grows_refl| |done]. intros x Hx. rewrite blk_create, decide_False by lia. done. Qed.

Lemma sets_frame_before k h c d c' : silent c d → sets_frame isVoid k h d c' → m_currentBlock c < c_blockCount c → sets_frame isVoid k h c c'.
Proof.
  intros [G H1 H2] [] Hc. pose proof (grows_count _ _ _ _ G). rewrite H2 in *. rewrite H1 in sf_emits by done. unfold reachable in *. rewrite H2, H1 in sf_reached by done.
  split; try done; [by eapply grows_trans0|lia|]. intros x Hx. rewrite sf_routes, H1; [done|done|lia].
Qed.

Lemma child_spec c : (∀ b, ¬ has_block (child c) b) ∧ scope_ahead (child c) = None ∧ sc_finallyBlock (child c) = None.
Proof. unfold child, has_block, scope_ahead. destruct (c_scopeStack c); cbn; (split; [intros b; naive_solver|done]). Qed.

Lemma opened_scope flags c : scope (opened flags c) (c_scopeCount c) = new_scope (opened_flags flags c) (sc_frame (child c)).
Proof.
  unfold opened. rewrite scope_upd, decide_True, scope_push, decide_True by done. unfold child, sc_set_flags, opened_flags, child. by destruct (c_scopeStack c).
Qed.

Lemma opened_other flags c s : s < c_scopeCount c → scope (opened flags c) s = scope c s.
Proof. intros Hs. unfold opened. rewrite scope_upd, decide_False, scope_push, decide_False by lia. done. Qed.

Lemma grows_push_child c : wf c → grows none c (push (child c) c).
Proof. intros W. destruct (child_spec c) as (H1 & H2 & _). by apply grows_push; [apply c_grows_refl|..]. Qed.

Lemma opened_same flags c : c_scopeStack (opened flags c) = c_scopeCount c :: c_scopeStack c ∧ m_catchFinallyFollowBlock (opened flags c) = m_catchFinallyFollowBlock c.
Proof. done. Qed.

Lemma opened_silent flags c : wf c → silent c (opened flags c).
Proof.
  intros W. destruct (child_spec c) as (Hb & Ha & Hf). split; [|done..]. unfold opened. eapply grows_upd_scp; [by apply grows_push_child|done|lia|..];
    rewrite scope_push, decide_True by done.
  - intros b H. by left.
  - intros b H. by destruct (Hb b).
  - left. unfold scope_ahead. cbn. rewrite Hf. by destruct (f_FinallyAhead _), (f_FinallyAhead _ || _).
  - unfold scope_ahead. cbn. rewrite Hf. intros b. by destruct (_ || _).
Qed.

Lemma plain_free c s b : plain c b → ¬ special c b → free c s b.
Proof. intros [H1 H2 H3] Hs. split; [done|]. split; [done|]. split; [|by left]. intros s' Ho. destruct H3. left. by exists s'. Qed.

(** The scope that is opened gets a block to catch. *)
Lemma grows_set_catch c c1 h k : let sid := c_scopeCount c in grows none c c1 → c_scopeStack c1 = sid :: c_scopeStack c → c_blockCount c ≤ h → plain c1 h → ¬ special c1 h →
  (∀ b, ¬ has_block (scope c1 sid) b) → sc_finallyBlock (scope c1 sid) = None →
  grows none c (upd_scp sid (λ s, sc_set_frame (Some k) (sc_set_catch (Some h) s)) c1).
Proof.
  intros sid G Hst Hh P Hs Hn Hf. eapply grows_upd_scp; [done..| | | |].
  - intros b [H|[H|H] ]; cbn in H; [left; by left|left; right; by left|right]. injection H as <-. split; [done|by apply plain_free].
  - intros b H. by destruct (Hn b).
  - left. unfold scope_ahead. cbn. by rewrite Hf.
  - unfold scope_ahead. cbn. rewrite Hf. intros b. by destruct (f_FinallyAhead _).
Qed.

(** And a [finally] block. *)
Lemma grows_set_finally c c1 f g : let sid := c_scopeCount c in grows none c c1 → c_scopeStack c1 = sid :: c_scopeStack c → f < c_blockCount c1 → ¬ special c1 f → f ∉ all_ahead c1 →
  (c_blockCount c ≤ f ∨ f ∈ all_ahead c) → (∀ b, has_block (scope c1 sid) b → c_blockCount c ≤ b) → sc_finallyBlock (scope c1 sid) = None →
  (∀ s, sc_finallyBlock (g s) = Some f ∧ sc_flags (g s) = sc_flags s ∧ sc_breakBlock (g s) = sc_breakBlock s ∧ sc_continueBlock (g s) = sc_continueBlock s ∧ sc_catchBlock (g s) = sc_catchBlock s) →
  grows none c (upd_scp sid g c1).
Proof.
  intros sid G Hst Hf Hs Hp Hnew Hn Hnone Hg. destruct (Hg (scope c1 sid)) as (E1 & E2 & E3 & E4 & E5).
  assert (Hb : ∀ b, has_block (g (scope c1 sid)) b ↔ has_block (scope c1 sid) b) by (intros b; unfold has_block; by rewrite E3, E4, E5).
  eapply grows_upd_scp; [done..| |done| |].
  - intros b H%Hb. by left.
  - unfold scope_ahead. rewrite E1, E2, Hnone. destruct (f_FinallyAhead _); [right|by left]. split; [done|]. by exists f.
  - unfold scope_ahead. rewrite E1, E2. destruct (f_FinallyAhead _); [|done]. by intros b [= <-].
Qed.

(** [openScope], up to the blocks of the labels. *)
Ltac open_step H :=
  comp_step H; match goal with Ho : openInternalScope _ = inl _ |- _ => apply comp_open_inv in Ho as [-> ->] end; cbn beta iota delta [orb] in H;
  match type of H with context [upd_scp (c_scopeCount ?c) (λ s, sc_set_flags (flags_or (sc_flags s) (flags_or ?flags _)) s) (push (child ?c) ?c)] =>
    change (upd_scp (c_scopeCount c) _ (push (child c) c)) with (opened flags c) in H end;
  comp_step H.

Lemma openScope_plain_inv flags c sid c' : openScope flags c = inl (sid, c') → f_Try flags = false → f_CatchAhead flags = false → f_FinallyAhead flags = false →
  sid = c_scopeCount c ∧ c' = opened flags c.
Proof. intros H H1 H2 H3. unfold openScope in H. rewrite H1, H2, H3 in H. by open_step H. Qed.

Lemma openScope_finally_inv flags c sid c' : openScope flags c = inl (sid, c') → f_Try flags = false → f_CatchAhead flags = false → f_FinallyAhead flags = true →
  let f := c_blockCount c in let k := next_frame (sc_frame (child c)) in
  sid = c_scopeCount c ∧
  setJmpFinally f k (upd_scp sid (λ s, sc_set_frame (Some k) (sc_set_finally (Some f) s)) (create false (opened flags c))) = inl (tt, c').
Proof.
  intros H H1 H2 H3 f k. unfold openScope in H. rewrite H1, H2, H3 in H. open_step H. split; [done|]. destruct x.
  change (scope (create false (opened flags c)) (c_scopeCount c)) with (scope (opened flags c) (c_scopeCount c)) in H0. by rewrite opened_scope in H0.
Qed.

Lemma openScope_catch_inv flags c sid c' : openScope flags c = inl (sid, c') → f_Try flags || f_CatchAhead flags = true →
  let h := c_blockCount c in let k := next_frame (sc_frame (child c)) in
  sid = c_scopeCount c ∧ ∃ c1,
  setJmp h k (upd_scp sid (λ s, sc_set_frame (Some k) (sc_set_catch (Some h) s)) (create false (opened flags c))) = inl (tt, c1) ∧
  c' = if f_FinallyAhead flags then upd_scp sid (sc_set_finally (Some (c_blockCount c1))) (create false c1) else c1.
Proof.
  intros H H1 h k. unfold openScope in H. rewrite H1 in H. comp_step H.
  rename select (openInternalScope _ = _) into Ho. apply comp_open_inv in Ho as [-> ->]. rename select (setJmp _ _ _ = _) into Hj.
  rename select (_ c1 = inl (x1, _)) into Hf. destruct x0.
  change (upd_scp (c_scopeCount c) _ (push (child c) c)) with (opened flags c) in Hj.
  change (scope (create false (opened flags c)) (c_scopeCount c)) with (scope (opened flags c) (c_scopeCount c)) in Hj. rewrite opened_scope in Hj.
  split; [done|]. eexists. split; [exact Hj|]. by destruct (f_FinallyAhead flags); comp_step Hf.
Qed.

(** A scope with labels is opened: its frame, and the handler. *)
Record opens (flags : Flags) (h : nat) (c c' : CState) : Prop := {
  o_frame : sets_frame isVoid (next_frame (sc_frame (child c))) h c c';
  o_stack : c_scopeStack c' = c_scopeCount c :: c_scopeStack c;
  o_follow : m_catchFinallyFollowBlock c' = m_catchFinallyFollowBlock c;
  o_others s : s < c_scopeCount c → scope c' s = scope c s;
  o_new : c_blockCount c ≤ h
}.

Lemma same_special_new r c : wf c → ¬ special (create r c) (c_blockCount c).
Proof. intros W. apply (new_not_special isVoid c W). Qed.

Lemma openScope_finally_spec flags c sid c' : openScope flags c = inl (sid, c') → wf c → f_Try flags = false → f_CatchAhead flags = false → f_FinallyAhead flags = true →
  ∃ h f, sid = c_scopeCount c ∧ opens flags h c c' ∧ code c' h = [IStoreRoute None; IBr f] ∧ plain c' h ∧ (reachable c = true → reached c' f = true) ∧
    scope c' sid = mkScope (opened_flags flags c) None None None (Some f) (Some (next_frame (sc_frame (child c)))) ∧ idle c' f ∧ c_blockCount c ≤ f.
Proof.
  intros H W H1 H2 H3. destruct (openScope_finally_inv _ _ _ _ H H1 H2 H3) as [-> Hj]. set (f := c_blockCount c) in *. set (k := next_frame _) in *. set (sid := c_scopeCount c) in *.
  set (g := λ s, sc_set_frame (Some k) (sc_set_finally (Some f) s)) in *. pose proof (opened_silent flags c W) as So. pose proof (q_silent _ _ So) as Go.
  pose proof (plain_new isVoid false _ (g_wf _ _ _ _ Go)) as P. change (c_blockCount (opened flags c)) with f in P. set (c1 := create false (opened flags c)) in *.
  pose proof (silent_trans _ _ _ So (silent_create false _ (g_wf _ _ _ _ Go))) as S1. fold c1 in S1.
  assert (Es : scope c1 sid = new_scope (opened_flags flags c) (sc_frame (child c))) by apply opened_scope.
  assert (Hs : ¬ special c1 f) by apply (same_special_new false _ (g_wf _ _ _ _ Go)).
  assert (G : grows none c (upd_scp sid g c1)).
  { apply (grows_set_finally c c1 f g); try done; [apply S1|apply (p_count _ _ P)|..].
    - intros Hf. apply (p_pending _ _ P). by right.
    - by left.
    - change (∀ b, has_block (scope c1 sid) b → f ≤ b). rewrite Es. intros b Hb. by destruct Hb as [ |[] ].
    - change (sc_finallyBlock (scope c1 sid) = None). by rewrite Es. }
  assert (Sd : silent c (upd_scp sid g c1)) by (split; [done|apply S1|done]).
  assert (Id : idle (upd_scp sid g c1) f) by (apply idle_upd_scp; destruct (blank_new isVoid _ false (g_wf _ _ _ _ Go)); done).
  destruct (setJmpFinally_spec _ _ _ _ _ Hj (g_wf _ _ _ _ G) Id) as (S & h & F & Hh & Hc & Ph & Hr).
  exists h, f. split; [done|]. split.
  { split; [by eapply sets_frame_before; [..|apply (w_current _ _ W)]|by rewrite (s_stack _ _ S)|by rewrite (s_follow _ _ S)| |].
    - intros s Hlt. rewrite (same_scope _ _ _ S), scope_upd, decide_False by (unfold sid in *; lia). by apply opened_other.
    - change (c_blockCount (upd_scp sid g c1)) with (Datatypes.S f) in Hh. unfold f in *. lia. }
  split; [done|]. split; [done|]. split.
  { intros Hr1. apply Hr. unfold reachable. rewrite (q_here _ _ Sd), (q_blocks _ _ Sd); [done|apply (w_current _ _ W)]. }
  split; [by rewrite (same_scope _ _ _ S), scope_upd, decide_True, Es|]. split; [by apply (grows_idle _ _ _ _ (sf_grows _ _ _ _ _ F))|done].
Qed.

Lemma pending_upd_scp c s g b : (∀ x, has_block (g (scope c s)) x ↔ has_block (scope c s) x) →
  (∀ x, scope_ahead (g (scope c s)) = Some x → x ≠ b ∨ scope_ahead (scope c s) = Some x) → pending (upd_scp s g c) b → pending c b.
Proof.
  intros Hb Ha [ [x Ho]|(x & Hx & Hf)%elem_all_ahead].
  - left. exists x. destruct Ho as [ [H1 H2]|Ho]; [left; split; [done|]|by right]. rewrite scope_upd in H2. destruct (decide (s = x)) as [<-|]; [by apply Hb in H2|done].
  - right. apply elem_all_ahead. exists x. split; [done|]. rewrite scope_upd in Hf. destruct (decide (s = x)) as [<-|]; [|done]. by destruct (Ha b Hf).
Qed.

Lemma plain_upd_scp c s g b : plain c b → (∀ x, has_block (g (scope c s)) x ↔ has_block (scope c s) x) →
  (∀ x, scope_ahead (g (scope c s)) = Some x → x ≠ b ∨ scope_ahead (scope c s) = Some x) → plain (upd_scp s g c) b.
Proof. intros [P1 P2 P3] Hb Ha. split; [done|done|]. intros H. apply P3. by eapply pending_upd_scp. Qed.

Lemma sets_frame_after k h c c1 c2 : sets_frame isVoid k h c c1 → grows none c c2 → (∀ x, x < c_blockCount c1 → blk c2 x = blk c1 x) → m_currentBlock c < c_blockCount c →
  h < c_blockCount c1 → m_currentBlock c2 = m_currentBlock c1 → m_sjljFrameArrayValue c2 = m_sjljFrameArrayValue c1 → plain c2 (m_currentBlock c1) → sets_frame isVoid k h c c2.
Proof.
  intros [G E C P N R A T] G2 B Hc Hh Hm Ha P2. pose proof (grows_count _ _ _ _ G). pose proof (p_count _ _ P). split; rewrite ?Hm, ?Ha; try done.
  - rewrite B by lia. done.
  - rewrite B by done. done.
  - unfold reachable in *. rewrite Hm, !B by done. done.
  - intros x Hx. rewrite B by lia. auto.
Qed.

Lemma openScope_catch_spec flags c sid c' : openScope flags c = inl (sid, c') → wf c → f_Try flags || f_CatchAhead flags = true →
  ∃ h ff, sid = c_scopeCount c ∧ opens flags h c c' ∧ idle c' h ∧
    scope c' sid = mkScope (opened_flags flags c) None None (Some h) ff (Some (next_frame (sc_frame (child c)))) ∧
    (if f_FinallyAhead flags then ∃ f, ff = Some f ∧ idle c' f ∧ c_blockCount c ≤ f ∧ f ≠ h else ff = None).
Proof.
  intros H W H1. destruct (openScope_catch_inv _ _ _ _ H H1) as [-> (c2 & Hj & Hc)]. set (h := c_blockCount c) in *. set (k := next_frame _) in *. set (sid := c_scopeCount c) in *.
  set (g := λ s, sc_set_frame (Some k) (sc_set_catch (Some h) s)) in *. pose proof (opened_silent flags c W) as So. pose proof (q_silent _ _ So) as Go.
  pose proof (plain_new isVoid false _ (g_wf _ _ _ _ Go)) as P. change (c_blockCount (opened flags c)) with h in P. set (c1 := create false (opened flags c)) in *.
  pose proof (silent_trans _ _ _ So (silent_create false _ (g_wf _ _ _ _ Go))) as S1. fold c1 in S1.
  assert (Es : scope c1 sid = new_scope (opened_flags flags c) (sc_frame (child c))) by apply opened_scope.
  assert (Hs : ¬ special c1 h) by apply (same_special_new false _ (g_wf _ _ _ _ Go)).
  assert (G : grows none c (upd_scp sid g c1)).
  { apply grows_set_catch; try done; [apply S1|..].
    - change (∀ b, ¬ has_block (scope c1 sid) b). rewrite Es. intros b Hb. by destruct Hb as [ |[] ].
    - change (sc_finallyBlock (scope c1 sid) = None). by rewrite Es. }
  assert (Sd : silent c (upd_scp sid g c1)) by (split; [done|apply S1|done]).
  assert (Id : idle (upd_scp sid g c1) h) by (apply idle_upd_scp; destruct (blank_new isVoid _ false (g_wf _ _ _ _ Go)); done).
  destruct (setJmp_spec _ _ _ _ _ Hj (g_wf _ _ _ _ G) Id) as (F & S). pose proof (w_current _ _ W) as Hcur.
  pose proof (sets_frame_before _ _ _ _ _ Sd F Hcur) as F0. pose proof (sf_grows _ _ _ _ _ F0) as G2. pose proof (grows_idle _ _ _ _ (sf_grows _ _ _ _ _ F) Id) as I2.
  assert (Es2 : scope c2 sid = mkScope (opened_flags flags c) None None (Some h) None (Some k)) by (by rewrite (same_scope _ _ _ S), scope_upd, decide_True, Es).
  assert (Ho2 : ∀ s, s < sid → scope c2 s = scope c s).
  { intros s Hlt. rewrite (same_scope _ _ _ S), scope_upd, decide_False by (unfold sid in *; lia). by apply opened_other. }
  assert (St2 : c_scopeStack c2 = sid :: c_scopeStack c) by (by rewrite (s_stack _ _ S)).
  exists h. destruct (f_FinallyAhead flags) eqn:Hfa; subst c'.
  2: { exists None. split; [done|]. split; [|done]. split; [done|done|by rewrite (s_follow _ _ S)|done|done]. }
  set (f := c_blockCount c2) in *. exists (Some f). split; [done|]. pose proof (plain_new isVoid false _ (g_wf _ _ _ _ G2)) as Pf. fold f in Pf.
  set (c3 := create false c2) in *. assert (Es3 : scope c3 sid = scope c2 sid) by done.
  assert (G3 : grows none c (upd_scp sid (sc_set_finally (Some f)) c3)).
  { apply (grows_set_finally c c3 f (sc_set_finally (Some f))); try done; [by apply grows_create|apply (p_count _ _ Pf)|apply (same_special_new false _ (g_wf _ _ _ _ G2))|..].
    - intros Hf. apply (p_pending _ _ Pf). by right.
    - left. pose proof (grows_count _ _ _ _ G2). unfold f. lia.
    - change (∀ b, has_block (scope c3 sid) b → h ≤ b). rewrite Es3, Es2. intros b [Hb|[Hb|Hb] ]; try done. cbn in Hb. by injection Hb as <-.
    - change (sc_finallyBlock (scope c3 sid) = None). by rewrite Es3, Es2. }
  assert (Hne : f ≠ h) by (pose proof (i_count _ _ I2); unfold f; lia).
  split; [|split; [|split] ].
  - split; [|done|exact (s_follow _ _ S)| |done].
    + eapply sets_frame_after; [exact F0|done| |done|apply (i_count _ _ I2)|done|done|].
      * intros x Hx. change (blk c3 x = blk c2 x). unfold c3. rewrite blk_create, decide_False by (unfold f in *; lia). done.
      * apply plain_upd_scp; [eapply plain_ext; [apply (sf_plain _ _ _ _ _ F0)|apply ext_create, ext_refl]|done|]. intros b. rewrite Es3, Es2. unfold scope_ahead. cbn. intros Hb. left.
        destruct (_ || _) in Hb; [injection Hb as <-|done]. pose proof (p_count _ _ (sf_plain _ _ _ _ _ F0)). unfold f. lia.
    + intros s Hlt. rewrite scope_upd, decide_False by (unfold sid in *; lia). by apply Ho2.
  - apply idle_upd_scp. by apply idle_create.
  - by rewrite scope_upd, decide_True, Es3, Es2.
  - exists f. split; [done|]. split; [apply idle_upd_scp; by destruct (blank_new isVoid _ false (g_wf _ _ _ _ G2))|]. split; [|done].
    pose proof (grows_count _ _ _ _ G2). unfold f. lia.
Qed.
End scopes.
