(* ===== verification/ControlFlowRoute.v ===== *)
(** * Control flow: routes

    How a scope is left: what [escapeScope] emits, and the route it adds to the [finally] blocks ahead. *)

From S2P Require Import Prelude ControlFlow ControlFlowRun ControlFlowInv ControlFlowOps ControlFlowScope.

Open Scope nat_scope.

#[local] Strategy 1000 [mbind Comp_bind mret Comp_ret].

(** The [finally] blocks ahead, up to a scope. *)
Fixpoint fins (c : CState) (target : option nat) (stack : list nat) : list nat :=
  match stack with
  | [] => []
  | s :: stack => if decide (Some s = target) then [] else match ahead c s with Some f => f :: fins c target stack | None => fins c target stack end
  end.

(** A route through blocks. *)
Fixpoint chain (c : CState) (r : option nat) (l : list nat) : Prop :=
  match l with
  | x :: l => match l with y :: _ => find_route r (routes c x) = Some y ∧ chain c r l | [] => True end
  | [] => True
  end.

Fixpoint pairs (l : list nat) : list (nat * nat) :=
  match l with
  | x :: l => match l with y :: _ => (x, y) :: pairs l | [] => [] end
  | [] => []
  end.

Definition added (r x : nat) (p : nat * nat) : option (nat * nat) := if decide (fst p = x) then Some (r, snd p) else None.

Definition add_routes (r : nat) (ps : list (nat * nat)) (c : CState) : CState := foldl (λ c p, upd_blk (fst p) (b_route r (snd p)) c) c ps.

Lemma chain_ext c c' r l : ext c c' → (∀ x, x ∈ l → x < c_blockCount c) → chain c r l → chain c' r l.
Proof.
  intros X. induction l as [|x [|y l] IH]; [done..|]. intros Hl [H1 H2]. split; [|apply IH; [|done]; intros z Hz; apply Hl; by right].
  destruct r as [r|]; [|done]. apply (e_route _ _ X); [apply Hl; left|done].
Qed.

Lemma find_route_app r l l' y : find_route r l = Some y → find_route r (l ++ l') = Some y.
Proof. destruct r; [|done]. apply find_key_app. Qed.

Lemma fins_same c c' t l : (∀ s, scope_ahead (scope c' s) = scope_ahead (scope c s)) → fins c' t l = fins c t l.
Proof. intros H. induction l as [|s l IH]; [done|]. cbn. unfold ahead. by rewrite H, IH. Qed.

Lemma fins_sub c t l : fins c t l `sublist_of` omap (ahead c) l.
Proof.
  induction l as [|s l IH]; [done|]. cbn. destruct (decide _); [apply sublist_nil_l|]. destruct (ahead c s); [by apply sublist_skip|done].
Qed.

Section routes.
Context (isVoid isErrorCode : bool).

#[local] Abbreviation grows := (grows isVoid).
#[local] Abbreviation wf := (wf isVoid).
#[local] Abbreviation none := (λ _ : nat, False).

Lemma add_routes_spec r X c ps : ∀ c1, grows X c c1 → r < c_nextRouteIdx c1 → (∀ p, p ∈ ps → snd p < c_blockCount c1 ∧ m_unreachableBlock c1 ≠ Some (snd p)) → let c2 := add_routes r ps c1 in
  grows X c c2 ∧ same c1 c2 ∧ (∀ x, code c2 x = code c1 x ∧ reached c2 x = reached c1 x ∧ landing c2 x = landing c1 x) ∧
  (∀ x, routes c2 x = routes c1 x ++ omap (added r x) ps) ∧
  (∀ s b, owns c2 s b ↔ owns c1 s b) ∧
  m_currentBlock c2 = m_currentBlock c1 ∧ c_blockCount c2 = c_blockCount c1 ∧ c_nextRouteIdx c2 = c_nextRouteIdx c1 ∧
  m_unreachableBlock c2 = m_unreachableBlock c1 ∧ m_dynamicThrowBlock c2 = m_dynamicThrowBlock c1.
Proof.
  induction ps as [|[x y] ps IH]; intros c1 G Hr Hps c2.
  { split_and!; try done. intros x. cbn. by rewrite app_nil_r. }
  destruct (IH (upd_blk x (b_route r y) c1)) as (H1 & H2 & H3 & H4 & H5 & H6 & H7 & H8 & H9 & H10); [by apply grows_route; [..|apply (Hps (x, y)); left|apply (Hps (x, y)); left]|done|intros p Hp; apply Hps; by right|].
  change (add_routes r ps (upd_blk x (b_route r y) c1)) with c2 in *.
  split; [done|]. split; [by eapply c_same_trans; [|exact H2]|]. split.
  { intros z. destruct (H3 z) as (-> & -> & ->). rewrite blk_upd. by destruct (decide (x = z)) as [<-|]. }
  split; [|by split_and!].
  intros z. rewrite H4, blk_upd. cbn. unfold added at 2. cbn. destruct (decide (x = z)) as [<-|]; [|done]. cbn. by rewrite <-app_assoc.
Qed.

Lemma pairs_fst l x y : (x, y) ∈ pairs l → x ∈ removelast l.
Proof.
  induction l as [|a [|b l] IH]; [intros H; by apply not_elem_of_nil in H..|]. change (removelast _) with (a :: removelast (b :: l)). cbn [pairs]. rewrite !elem_of_cons.
  intros [ [= -> ->]|H]; [by left|right; by apply IH].
Qed.

Lemma pairs_snd l x y : (x, y) ∈ pairs l → y ∈ l.
Proof.
  induction l as [|a [|b l] IH]; [intros H; by apply not_elem_of_nil in H..|]. cbn [pairs]. rewrite elem_of_cons.
  intros [ [= -> ->]|H]; [right; left|right; by apply IH].
Qed.

Lemma pairs_only r l x y : NoDup (removelast l) → (x, y) ∈ pairs l → omap (added r x) (pairs l) = [(r, y)].
Proof.
  assert (Hnone : ∀ l, x ∉ removelast l → omap (added r x) (pairs l) = []).
  { clear. intros l Hx. assert (H : ∀ p, p ∈ pairs l → fst p ≠ x) by (intros [a b] H%pairs_fst <-; done). induction (pairs l) as [|p ps IH]; [done|].
    cbn. unfold added at 1. rewrite decide_False by (apply H; left). apply IH. intros q Hq. apply H. by right. }
  induction l as [|a [|b l] IH]; [intros _ H; by apply not_elem_of_nil in H..|]. change (removelast _) with (a :: removelast (b :: l)).
  intros [Ha Hnd]%NoDup_cons. change (pairs (a :: b :: l)) with ((a, b) :: pairs (b :: l)). rewrite elem_of_cons. cbn [omap list_omap]. unfold added at 1. cbn [fst snd].
  intros [ [= -> ->]|H].
  - rewrite decide_True by done. by rewrite Hnone.
  - rewrite decide_False; [by apply IH|]. intros ->. by apply Ha, (pairs_fst _ _ y).
Qed.

Lemma chain_pairs c r l : (∀ x y, (x, y) ∈ pairs l → find_route r (routes c x) = Some y) → chain c r l.
Proof.
  induction l as [|a [|b l] IH]; [done..|]. intros H. split; [apply H; left|]. apply IH. intros x y Hp. apply H. by right.
Qed.

(** The routes that are added are a route. *)
Lemma chain_add r l c1 c2 : NoDup (removelast l) → (∀ x k y, (k, y) ∈ routes c1 x → k ≠ r) →
  (∀ x, routes c2 x = routes c1 x ++ omap (added r x) (pairs l)) → chain c2 (Some r) l.
Proof.
  intros Hnd Hfresh Hr. apply chain_pairs. intros x y Hp. cbn. rewrite Hr, (pairs_only r l x y Hnd Hp). apply find_key_new. intros k z. apply Hfresh.
Qed.

Lemma add_routes_app r ps p c : add_routes r (ps ++ [p]) c = upd_blk (fst p) (b_route r (snd p)) (add_routes r ps c).
Proof. unfold add_routes. by rewrite foldl_app. Qed.

Lemma escape_loop_spec r t stack : ∀ first prev c res c', escape_loop r t stack first prev c = inl (res, c') →
  match first, prev with
  | Some f, Some p => res = (Some f, last (p :: fins c t stack)) ∧ c' = add_routes r (pairs (p :: fins c t stack)) c
  | None, None => res = (head (fins c t stack), last (fins c t stack)) ∧ c' = add_routes r (pairs (fins c t stack)) c
  | _, _ => True
  end.
Proof.
  assert (Hsome : ∀ stack f p c res c', escape_loop r t stack (Some f) (Some p) c = inl (res, c') →
    res = (Some f, last (p :: fins c t stack)) ∧ c' = add_routes r (pairs (p :: fins c t stack)) c).
  { clear stack. intros stack. induction stack as [|s stack IH]; intros f p c res c' H; cbn [escape_loop] in H; [by comp_step H|]. cbn [fins].
    destruct (decide (Some s = t)); [by comp_step H|]. comp_step H. unfold ahead, scope_ahead. destruct (f_FinallyAhead _); [|by apply IH].
    comp_step H. rename select (sc_finallyBlock _ = Some _) into E. rewrite E.
    simplify_eq. destruct (IH _ _ _ _ _ H) as [-> ->]. by rewrite (fins_same c). }
  induction stack as [|s stack IH]; intros first prev c res c' H; [cbn in H; comp_step H; by destruct first, prev|].
  destruct first as [f|], prev as [p|]; [by eapply Hsome|done|done|]. cbn [escape_loop] in H. cbn [fins].
  destruct (decide (Some s = t)); [by comp_step H|]. comp_step H. unfold ahead, scope_ahead. destruct (f_FinallyAhead _); [|by apply (IH None None)].
  comp_step H. rename select (sc_finallyBlock _ = Some _) into E. rewrite E. by apply Hsome in H.
Qed.

Lemma pairs_snoc l p b : last l = Some p → pairs (l ++ [b]) = pairs l ++ [(p, b)].
Proof. induction l as [|a [|a' l] IH]; [done|by intros [= ->]|]. intros H. change (pairs ((a :: a' :: l) ++ [b])) with ((a, a') :: pairs ((a' :: l) ++ [b])). by rewrite IH. Qed.

(** What leaves a scope: to the block, or through the [finally] blocks ahead. *)
Record escapes (pre : list instr) (t b : nat) (c c' : CState) : Prop := {
  es_grows : grows none c c';
  es_same : same c c';
  es_dead : reachable c' = false;
  es_code : ∃ r, let l := fins c (Some t) (c_scopeStack c) in
    code c' (m_currentBlock c) = code c (m_currentBlock c) ++ pre ++ match l with [] => [IBr b] | f :: _ => [IStoreRoute (Some r); IBr f] end ∧ chain c' (Some r) (l ++ [b]);
  es_reached : reachable c = true → reached c' (hd b (fins c (Some t) (c_scopeStack c))) = true;
  es_landing : landing c' b ≠ None
}.

Lemma fins_ahead c t f : f ∈ fins c t (c_scopeStack c) → f ∈ all_ahead c.
Proof. intros H. eapply elem_of_sublist; [done|apply fins_sub]. Qed.

Lemma escape_end t b f r c c1 c' : wf c → grows none c c1 → same c c1 → (∀ x, code c1 x = code c x ∧ reached c1 x = reached c x) → m_currentBlock c1 = m_currentBlock c →
  m_unreachableBlock c1 = m_unreachableBlock c → landing c1 b ≠ None → owns c t b →
  let l := fins c (Some t) (c_scopeStack c) in
  (if l then f = b ∧ jump b None c1 = inl (tt, c') else head l = Some f ∧ jump f None (emitted (IStoreRoute (Some r)) c1) = inl (tt, c')) →
  chain c1 (Some r) (l ++ [b]) → escapes [] t b c c'.
Proof.
  intros W G S Hb Hc Hu Hl Ho l H Hch. destruct (w_owns _ _ W _ _ Ho) as [Hbc Hbs]. pose proof (grows_count _ _ _ _ G) as Hcnt. pose proof (w_current _ _ W) as Hcur.
  assert (Hf : hd b l = f ∧ f < c_blockCount c ∧ m_unreachableBlock c ≠ Some f).
  { destruct l as [|f' l'] eqn:El; [destruct H as [-> _]; split; [done|]; split; [done|]; intros E; apply Hbs; by left|]. destruct H as [ [= ->] _]. split; [done|].
    destruct (w_ahead _ _ W f) as [H1 H2]; [apply (fins_ahead _ (Some t)); fold l; rewrite El; left|]. split; [done|]. intros E. apply H2. by left. }
  destruct Hf as (Hhd & Hfc & Hfs). set (d := if l then c1 else emitted (IStoreRoute (Some r)) c1).
  assert (Gd : grows none c d) by (unfold d; destruct l; [done|by apply grows_emit]).
  assert (J : jumps isVoid (IBr f) [f] None d c').
  { apply jump_spec; [|apply Gd| | |done].
    - unfold d. destruct l; [by destruct H as [-> ?]|apply H].
    - unfold d. destruct l; cbn; lia.
    - unfold d. destruct l; cbn; congruence. }
  assert (Gj : grows none c c') by (apply (grows_weaken _ (λ x, False ∨ None = Some x)); [by eapply c_grows_trans; [|apply J]|]; intros x [ []|[=] ]).
  assert (Ed : m_currentBlock d = m_currentBlock c) by (unfold d; by destruct l).
  assert (Xd : ext c1 c'). { eapply ext_trans; [|apply J]. unfold d. destruct l; [apply ext_refl|apply ext_emit, ext_refl]. }
  split; [done| |apply (j_to _ _ _ _ _ _ J)| | |].
  - eapply c_same_trans; [exact S|]. eapply c_same_trans; [|apply J]. unfold d. by destruct l.
  - exists r. fold l. split.
    + pose proof (j_emits _ _ _ _ _ _ J) as E. rewrite Ed in E. rewrite E. unfold d. destruct l as [|f' l'] eqn:El.
      * destruct H as [-> _]. by destruct (Hb (m_currentBlock c)) as [-> _].
      * destruct H as [ [= ->] _]. rewrite <-Hc, emitted_current. cbn. destruct (Hb (m_currentBlock c1)) as [-> _]. by rewrite <-app_assoc.
    + eapply chain_ext; [exact Xd| |done]. intros x. rewrite elem_of_app, list_elem_of_singleton. intros [Hx|Hx]; [|subst; lia].
      destruct (w_ahead _ _ W x); [by apply (fins_ahead _ (Some t))|lia].
  - fold l. rewrite Hhd. intros Hr. apply (j_reached _ _ _ _ _ _ J); [|left]. unfold reachable. rewrite Ed. unfold d. destruct l.
    + destruct (Hb (m_currentBlock c)) as [_ ->]. done.
    + rewrite <-Hc, emitted_current. cbn. destruct (Hb (m_currentBlock c1)) as [_ ->]. by rewrite Hc.
  - apply (e_landing_some _ _ Xd); [lia|done].
Qed.

Lemma escapeScope_spec t b c c' : escapeScope (Some t) (Some b) c = inl (tt, c') → wf c → owns c t b → escapes [] t b c c'.
Proof.
  intros H W Ho. unfold escapeScope in H. comp_step H. rename select (escape_loop _ _ _ _ _ _ = _) into Hl. set (r := c_nextRouteIdx c) in *.
  destruct (escape_loop_spec _ _ _ _ _ _ _ _ Hl) as [-> ->]. set (c1 := set_nextRouteIdx (S r) c) in *. set (l := fins c1 (Some t) (c_scopeStack c)) in *.
  unfold markLandingPad in H. comp_step H. simplify_eq. rename x into t. change (fins c1 (Some t) (c_scopeStack c1)) with l in *.
  assert (El : l = fins c (Some t) (c_scopeStack c)) by (by apply fins_same). clearbody l.
  pose proof (grows_nextRoute isVoid none c c (c_grows_refl _ _ _ W)) as G1. fold c1 in G1.
  destruct (add_routes_spec r none c (pairs l) c1 G1) as (G2 & S2 & B2 & R2 & O2 & C2 & N2 & X2 & U2 & T2); [cbn; lia| |].
  { intros [x y] Hp%pairs_snd. rewrite El in Hp. destruct (w_ahead _ _ W y) as [H1 H2]; [by apply (fins_ahead _ (Some t))|]. split; [done|]. intros E. apply H2. by left. }
  set (c2 := add_routes r (pairs l) c1) in *.
  set (c3 := upd_blk b (b_mark EscapeScopeLandingPad t) c2) in *. destruct (w_owns _ _ W _ _ Ho) as [Hbc Hbs].
  assert (Hnd : NoDup l) by (rewrite El; eapply sublist_NoDup; [apply (w_ahead_nodup _ _ W)|apply fins_sub]).
  assert (Hfresh : ∀ x k y, (k, y) ∈ routes c1 x → k ≠ r). { intros x k y Hk. pose proof (w_routes _ _ W x k y Hk). unfold r. lia. }
  assert (B3 : ∀ x, code c3 x = code c x ∧ reached c3 x = reached c x ∧ routes c3 x = routes c2 x).
  { intros x. destruct (B2 x) as (H1 & H2 & _). unfold c3. rewrite blk_upd. by destruct (decide (b = x)) as [<-|]. }
  assert (G3 : grows none c c3).
  { apply grows_mark; [done|intros _; left; by exists t| |rewrite T2; intros E; apply Hbs; by right]. intros s' Hs'%O2. by eapply (w_owner _ _ W). }
  assert (Hl3 : landing c3 b ≠ None) by (unfold c3; by rewrite blk_upd, decide_True).
  destruct (last l) as [p|] eqn:Elast.
  2: { apply last_None in Elast. rewrite Elast in H. cbn [head] in H. apply (escape_end t b b r c c3 c'); try done; [by destruct S2; split|intros x; by destruct (B3 x) as (-> & -> & _)|..];
       rewrite <-El, Elast; done. }
  assert (∃ f l', l = f :: l') as (f & l' & Ell) by (destruct l; [done|by eauto]). assert (Eh : head l = Some f) by (by rewrite Ell). rewrite Eh in H. comp_step H. rename select (Some p = Some x) into Ep. injection Ep as <-. set (l := fins c (Some t) (c_scopeStack c)) in *.
  set (c4 := set_routeVariable true (upd_blk p (b_route r b) c3)) in *.
  assert (B4 : ∀ x, code c4 x = code c x ∧ reached c4 x = reached c x).
  { intros x. destruct (B3 x) as (H1 & H2 & _). change (blk c4 x) with (blk (upd_blk p (b_route r b) c3) x). rewrite blk_upd. by destruct (decide (p = x)) as [<-|]. }
  apply (escape_end t b f r c c4 c'); try done.
  - apply grows_routeVariable, grows_route; [done| | |].
    + change (r < c_nextRouteIdx c2). rewrite X2. cbn. lia.
    + change (b < c_blockCount c2). by rewrite N2.
    + change (m_unreachableBlock c2 ≠ Some b). rewrite U2. intros E. apply Hbs. by left.
  - by destruct S2; split.
  - change (landing (upd_blk p (b_route r b) c3) b ≠ None). rewrite blk_upd. by destruct (decide (p = b)) as [->|].
  - fold l. rewrite Ell. done.
  - fold l. apply (chain_add r (l ++ [b]) c1 c4); [by rewrite removelast_last|done|]. intros x. rewrite (pairs_snoc _ p) by done. rewrite omap_app, app_assoc. change (routes c4 x) with (routes (upd_blk p (b_route r b) c3) x).
    rewrite <-R2. destruct (B3 x) as (_ & _ & <-). rewrite blk_upd. cbn. unfold added. cbn. destruct (decide (p = x)) as [<-|]; cbn; [done|by rewrite app_nil_r].
Qed.

(** ** Returns *)

Lemma escapes_before pr t b c c1 c' : wf c → grows none c c1 → same c c1 → m_currentBlock c1 = m_currentBlock c → code c1 (m_currentBlock c) = code c (m_currentBlock c) ++ pr →
  reached c1 (m_currentBlock c) = reached c (m_currentBlock c) → escapes [] t b c1 c' → escapes pr t b c c'.
Proof.
  intros W G S Hc Hcode Hr [G2 S2 D (r & H1 & H2) R L].
  assert (El : fins c1 (Some t) (c_scopeStack c1) = fins c (Some t) (c_scopeStack c)) by (rewrite (s_stack _ _ S); apply fins_same; intros s; by rewrite (same_scope _ _ _ S)).
  rewrite El in *. rewrite Hc in H1. split; [by eapply grows_trans0|by eapply c_same_trans|done| |unfold reachable in *; rewrite Hc, Hr in R; done|done].
  exists r. split; [|done]. by rewrite H1, Hcode, <-app_assoc.
Qed.

Lemma emitted_grows i c : wf c → grows none c (emitted i c).
Proof. intros W. by apply grows_emit, c_grows_refl. Qed.

(** Without [finally] blocks ahead, and without a block. *)
Lemma escape_none_spec c c' s rest : escapeScope None None c = inl (tt, c') → c_scopeStack c = s :: rest →
  let d := set_nextRouteIdx (S (c_nextRouteIdx c)) c in
  c' = match sc_frame (scope c s) with Some _ => emitted (ISetFrame None) d | None => d end ∧ fins c None (c_scopeStack c) = [].
Proof.
  intros H Hst d. unfold escapeScope, currentScope in H. comp_step H. rename select (escape_loop _ _ _ _ _ _ = _) into Hl. apply escape_loop_spec in Hl as [-> ->].
  fold d in H. change (c_scopeStack d) with (c_scopeStack c) in H. rewrite (fins_same c d) in H by done. comp_step H.
  destruct (fins c None (c_scopeStack c)) eqn:El; [|done]. split; [|done]. rewrite Hst in *. change (pairs []) with (@nil (nat * nat)) in *. cbn [add_routes foldl] in *.
  change (c_scopeStack d) with (c_scopeStack c) in H0. rewrite Hst in H0. comp_step H0. change (scope d s) with (scope c s) in H.
  destruct (sc_frame _); [|by comp_step H]. unfold setSjljFrame in H. by comp_step H.
Qed.

Lemma ret_spec v c c' : ret isVoid v c = inl (tt, c') → wf c → ∃ s l, c_scopeStack c = s :: l ∧ isVoid = bool_decide (v = None) ∧
  (if f_Finalizable (sc_flags (scope c s)) then ∃ b, m_returnBlock c' = Some b ∧ escapes (match v with Some x => [IStoreRet x] | None => [] end) 0 b c c'
   else grows none c c' ∧ same c c' ∧ reachable c' = false ∧
     code c' (m_currentBlock c) = code c (m_currentBlock c) ++ (match sc_frame (scope c s) with Some _ => [ISetFrame None] | None => [] end) ++ [IRet v]).
Proof.
  intros H W. unfold ret, currentScope in H. comp_step H. destruct (c_scopeStack c) as [|s l] eqn:Hst; comp_step H0. exists s, l. split; [done|].
  rename select (_ c = inl (x0, c1)) into Hv. assert (c1 = c ∧ isVoid = bool_decide (v = None)) as [-> Hvoid].
  { destruct v, isVoid; comp_step Hv; done. }
  split; [done|]. clear Hv Hvoid. pose proof (w_current _ _ W) as Hcur. destruct (f_Finalizable _).
  - set (pr := match v with Some x => [IStoreRet x] | None => [] end). set (c1 := match v with Some x => emitted (IStoreRet x) c | None => c end).
    assert (∃ b c2, getReturnBlock isVoid c1 = inl (b, c2) ∧ escapeScope (Some 0) (Some b) c2 = inl (tt, c')) as (b & c2 & Hg & He).
    { unfold c1. destruct v; comp_step H; do 2 eexists; by split. }
    assert (G1 : grows none c c1) by (unfold c1; destruct v; [by apply emitted_grows|by apply c_grows_refl]).
    destruct (getReturnBlock_quiet _ _ _ _ Hg (g_wf _ _ _ _ G1)) as [ [G2 B2 C2 S2 _] Hb].
    assert (Hcode : code c1 (m_currentBlock c) = code c (m_currentBlock c) ++ pr ∧ reached c1 (m_currentBlock c) = reached c (m_currentBlock c) ∧ m_currentBlock c1 = m_currentBlock c).
    { unfold c1, pr. destruct v; [|by rewrite app_nil_r]. by rewrite emitted_current. }
    destruct Hcode as (Hcode & Hre & Hc1). pose proof (grows_count _ _ _ _ G1).
    assert (He2 : escapes [] 0 b c2 c') by (apply escapeScope_spec; [done|apply G2|by right]).
    exists b. split; [by apply (e_return _ _ (g_ext _ _ _ _ (es_grows _ _ _ _ _ He2)))|].
    apply (escapes_before pr 0 b c c2); [done|by eapply grows_trans0| |congruence|rewrite B2; [done|lia]|rewrite B2; [done|lia]|done].
    eapply c_same_trans; [|exact S2]. unfold c1. by destruct v.
  - comp_step H. rename select (escapeScope _ _ _ = _) into He. rename select (getUnreachableBlock _ = _) into Hu. destruct x. apply (escape_none_spec _ _ s l) in He as [-> _]; [|done].
    set (d := match sc_frame (scope c s) with Some _ => emitted (ISetFrame None) (set_nextRouteIdx (S (c_nextRouteIdx c)) c) | None => set_nextRouteIdx (S (c_nextRouteIdx c)) c end) in *.
    set (d2 := upd_blk (m_currentBlock (emitted (IRet v) d)) b_set_return (emitted (IRet v) d)) in *.
    assert (Gn : grows none c (set_nextRouteIdx (S (c_nextRouteIdx c)) c)) by apply grows_nextRoute, c_grows_refl, W.
    assert (Gd : grows none c d) by (unfold d; destruct (sc_frame _); [by apply grows_emit|done]).
    assert (Gd2 : grows none c d2) by (by apply grows_set_return, grows_emit).
    rename c1 into c2. destruct (getUnreachableBlock_quiet _ _ _ _ Hu (g_wf _ _ _ _ Gd2)) as [ [G2 B2 C2 S2 _] Hub].
    assert (G : grows none c c2) by (by eapply grows_trans0).
    assert (Ed : m_currentBlock d = m_currentBlock c ∧ code d (m_currentBlock c) = code c (m_currentBlock c) ++ (match sc_frame (scope c s) with Some _ => [ISetFrame None] | None => [] end)).
    { unfold d. destruct (sc_frame _); [|by rewrite app_nil_r]. split; [done|].
      change (m_currentBlock c) with (m_currentBlock (set_nextRouteIdx (S (c_nextRouteIdx c)) c)) at 1. by rewrite emitted_current. }
    destruct Ed as [Ed1 Ed2]. split; [|split; [|split] ].
    + apply grows_current; [done|by apply (w_unreachable _ _ (g_wf _ _ _ _ G))|]. intros I. pose proof (grows_idle _ _ _ _ G I) as I2. apply (i_special _ _ I2). by left.
    + destruct S2 as [A1 A2 A3 A4]. assert (Sd : same c d2) by (unfold d2, d; by destruct (sc_frame _)). destruct Sd. split; cbn in *; congruence.
    + unfold reachable. cbn. by apply (w_unreachable _ _ (g_wf _ _ _ _ G)).
    + change (code c2 (m_currentBlock c) = code c (m_currentBlock c) ++ (match sc_frame (scope c s) with Some _ => [ISetFrame None] | None => [] end) ++ [IRet v]).
      rewrite B2; [|pose proof (grows_count _ _ _ _ Gd); cbn; lia]. unfold d2. rewrite blk_upd. change (m_currentBlock (emitted (IRet v) d)) with (m_currentBlock d).
      rewrite Ed1, decide_True by done. cbn. rewrite <-Ed1 at 1. rewrite emitted_current. cbn. by rewrite Ed1, Ed2, <-app_assoc.
Qed.
End routes.
