(* ===== verification/ControlFlowLabels.v ===== *)
(** * Control flow: labels

    What [catch] and [finally] labels and the end of their scopes do to the state of the compiler. *)

From S2P Require Import Prelude ControlFlow ControlFlowRun ControlFlowInv ControlFlowOps ControlFlowScope ControlFlowRoute.

Open Scope nat_scope.

#[local] Strategy 1000 [mbind Comp_bind mret Comp_ret].

Section labels.
Context (isVoid isErrorCode : bool).

#[local] Abbreviation grows := (grows isVoid).
#[local] Abbreviation wf := (wf isVoid).
#[local] Abbreviation none := (λ _ : nat, False).

(** The block behind the labels waits for its code. *)
Definition follow_ok (n : nat) (c : CState) : Prop := ∀ b, m_catchFinallyFollowBlock c = Some b → n ≤ b ∧ idle c b ∧ plain c b.

Lemma follow_ok_none n c : m_catchFinallyFollowBlock c = None → follow_ok n c.
Proof. intros H b Hb. congruence. Qed.

Lemma follow_ok_ext X n c c' : follow_ok n c → grows X c c' → (∀ b, X b → m_catchFinallyFollowBlock c ≠ Some b) → m_catchFinallyFollowBlock c' = m_catchFinallyFollowBlock c → follow_ok n c'.
Proof.
  intros F G HX E b Hb. rewrite E in Hb. destruct (F b Hb) as (Hn & I & Hp). split; [done|]. split; [|eapply plain_ext; [done|apply G] ]. apply (g_idle _ _ _ _ G); [done|]. intros H. by apply (HX b H).
Qed.

(** ** To the [finally] block *)

Record flows (n f : nat) (c c' : CState) : Prop := {
  fl_grows : grows none c c';
  fl_scopes : c_scopeStack c' = c_scopeStack c ∧ c_scopes c' = c_scopes c ∧ c_scopeCount c' = c_scopeCount c;
  fl_dead : reachable c' = false;
  fl_follow_ok : follow_ok n c';
  fl_code : ∃ r b, code c' (m_currentBlock c) = code c (m_currentBlock c) ++ [IStoreRoute (Some r); IBr f] ∧
    m_catchFinallyFollowBlock c' = Some b ∧ find_key r (routes c' f) = Some b;
  fl_follow b : m_catchFinallyFollowBlock c = Some b → m_catchFinallyFollowBlock c' = Some b;
  fl_reached : reachable c = true → reached c' f = true
}.

Lemma silent_followBlock c c' v : silent isVoid c c' → silent isVoid c (set_followBlock v c').
Proof. intros [G B C]. split; [by apply grows_followBlock|done|done]. Qed.

Lemma normalFinallyFlow_spec n f c c' : normalFinallyFlow f c = inl (tt, c') → wf c → idle c f → follow_ok n c → n ≤ c_blockCount c → flows n f c c'.
Proof.
  intros H W If F Hn. unfold normalFinallyFlow in H. comp_step H. rename select (_ c = inl (x, c0)) into Hb.
  assert (Hd : silent isVoid c c0 ∧ m_catchFinallyFollowBlock c0 = Some x ∧ follow_ok n c0 ∧ c_scopeStack c0 = c_scopeStack c ∧ c_scopes c0 = c_scopes c ∧ c_scopeCount c0 = c_scopeCount c ∧
    (∀ b, m_catchFinallyFollowBlock c = Some b → x = b)).
  { destruct (m_catchFinallyFollowBlock c) as [b|] eqn:Hm; comp_step Hb.
    - split; [split; [by apply c_grows_refl|done|done]|]. split_and!; try done. by intros b' [= ->].
    - pose proof (silent_create isVoid false c W) as Hs. split; [by apply silent_followBlock|]. split_and!; try done. intros b [= <-].
      split; [done|]. split; [apply idle_followBlock; by destruct (blank_new isVoid c false W)|]. destruct (plain_new isVoid false c W). by split. }
  destruct Hd as (Hs & Hx & F0 & Sc1 & Sc2 & Sc3 & Hfo). clear Hb. set (r := c_nextRouteIdx c0) in *.
  set (d := emitted (IStoreRoute (Some r)) _) in *. assert (W0 : wf c0) by apply Hs. assert (I0 : idle c0 f) by (by apply (grows_idle _ _ _ _ (q_silent _ _ _ Hs))).
  assert (Hxb : x < c_blockCount c0 ∧ m_unreachableBlock c0 ≠ Some x) by (destruct (F0 x Hx) as (_ & Ix & _); split; [apply (i_count _ _ Ix)|by apply idle_not_unreachable]).
  assert (G1 : grows none c (set_nextRouteIdx (S r) c0)) by (apply grows_nextRoute; apply Hs).
  assert (Gd : grows none c d).
  { apply grows_emit, grows_routeVariable, grows_route; [exact G1|cbn; unfold r; lia|by apply (proj1 Hxb)|by apply (proj2 Hxb)]. }
  assert (Ed : m_currentBlock d = m_currentBlock c) by (apply (q_here _ _ _ Hs)).
  assert (Hcur : m_currentBlock c ≠ f) by (intros E; by apply (i_current _ _ If)). assert (Hcur0 : m_currentBlock c0 ≠ f) by (intros E; by apply (i_current _ _ I0)).
  assert (Bd : routes d f = routes c0 f ++ [(r, x)]).
  { unfold d. rewrite emitted_other by (by apply not_eq_sym). change (routes (upd_blk f (b_route r x) (set_nextRouteIdx (S r) c0)) f = routes c0 f ++ [(r, x)]). by rewrite blk_upd, decide_True. }
  assert (Cd : code d (m_currentBlock c) = code c (m_currentBlock c) ++ [IStoreRoute (Some r)] ∧ reached d (m_currentBlock c) = reached c (m_currentBlock c)).
  { unfold d, emitted. rewrite blk_upd, decide_True by exact Ed. cbn [b_emit b_code b_reachable]. set (y := m_currentBlock (set_routeVariable _ _)). change y with (m_currentBlock c0).
    change (blk (set_routeVariable true (upd_blk f (b_route r x) (set_nextRouteIdx (S r) c0))) (m_currentBlock c0)) with (blk (upd_blk f (b_route r x) (set_nextRouteIdx (S r) c0)) (m_currentBlock c0)).
    rewrite blk_upd, decide_False by (by apply not_eq_sym). change (blk (set_nextRouteIdx (S r) c0) (m_currentBlock c0)) with (blk c0 (m_currentBlock c0)).
    rewrite (q_here _ _ _ Hs), (q_blocks _ _ _ Hs) by apply (w_current _ _ W). done. }
  destruct Cd as [Cd Rd]. pose proof (grows_count _ _ _ _ Gd) as Hle. pose proof (w_current _ _ W) as Hlt.
  assert (J : jumps isVoid (IBr f) [f] None d c').
  { apply jump_spec; [done|apply Gd|apply (i_count _ _ I0)|by apply (idle_not_unreachable c0)|done]. }
  assert (Gn : ∀ c0, grows none c0 d → grows none c0 c').
  { intros a Ga. apply (grows_weaken isVoid (λ y, False ∨ None = Some y)); [by eapply c_grows_trans; [|apply J]|]. intros y [ []|[=] ]. }
  assert (G0 : grows none c0 c'). { apply Gn, grows_emit, grows_routeVariable, grows_route; [apply grows_nextRoute, c_grows_refl, W0|cbn; unfold r; lia|by apply (proj1 Hxb)|by apply (proj2 Hxb)]. }
  destruct (j_same _ _ _ _ _ _ J) as [J1 J2 J3 J4]. pose proof (j_emits _ _ _ _ _ _ J) as Je. rewrite Ed in Je. split.
  - by apply Gn.
  - rewrite J1, J2, J3. done.
  - apply (j_to _ _ _ _ _ _ J).
  - eapply follow_ok_ext; [exact F0|exact G0|done|by rewrite J4].
  - exists r, x. split; [by rewrite Je, Cd, <-app_assoc|]. split; [by rewrite J4|]. rewrite (j_routes _ _ _ _ _ _ J) by apply (i_count _ _ I0). rewrite Bd.
    apply find_key_new. intros k z Hk. pose proof (w_routes _ _ W0 f k z Hk). unfold r. lia.
  - intros b Hb. rewrite J4. change (m_catchFinallyFollowBlock c0 = Some b). by rewrite Hx, (Hfo b Hb).
  - intros Hr. apply (j_reached _ _ _ _ _ _ J); [|left]. unfold reachable. by rewrite Ed, Rd.
Qed.

(** ** Behind a label *)

(** The block of a label becomes the current one, in a scope of its own. *)
Definition labeled (fl : Flags) (g : Scope → Scope) (h : nat) (c : CState) : CState :=
  let sid := c_scopeCount c in upd_blk h (b_mark ExceptionLandingPad sid) (upd_scp sid g (opened fl (set_currentBlock h c))).

Record label_open (X : nat → Prop) (fl : Flags) (g : Scope → Scope) (h : nat) (c1 c c2 : CState) : Prop := {
  lb_grows : grows (λ x, X x ∨ x = h) c1 c2;
  lb_stack : c_scopeStack c2 = c_scopeCount c :: c_scopeStack c;
  lb_count : c_scopeCount c2 = S (c_scopeCount c);
  lb_scopes s : s < c_scopeCount c → scope c2 s = scope c s;
  lb_scope : scope c2 (c_scopeCount c) = g (new_scope (opened_flags fl c) (sc_frame (child c)));
  lb_here : m_currentBlock c2 = h ∧ code c2 h = [];
  lb_landing : landing c2 h = Some (c_scopeCount c);
  lb_pending : ¬ pending c2 h;
  lb_follow : m_catchFinallyFollowBlock c2 = m_catchFinallyFollowBlock c;
  lb_reached x : reached c2 x = reached c x;
  lb_routes x : routes c2 x = routes c x;
  lb_code x : code c2 x = code c x;
  lb_idle x : idle c x → x ≠ h → idle c2 x;
  lb_plain x : plain c x → x ≠ h → plain c2 x
}.

Lemma opened_ahead fl c : f_FinallyAhead (opened_flags fl c) = f_FinallyAhead fl.
Proof. unfold opened_flags, child. destruct (decide _), (c_scopeStack c); cbn; rewrite ?orb_false_r; done. Qed.

Lemma labeled_open X fl g h c1 c : grows X c1 c → idle c h → h < c_blockCount c1 → pending c1 h → ¬ pending c h →
  (∀ s, (∀ b, has_block (g s) b ↔ has_block s b) ∧ (sc_finallyBlock s = None → f_FinallyAhead (sc_flags s) = f_FinallyAhead fl → scope_ahead (g s) = None)) → label_open X fl g h c1 c (labeled fl g h c).
Proof.
  intros G I Hlt Hp Hn Hg. set (sid := c_scopeCount c). set (d1 := set_currentBlock h c). set (d2 := opened fl d1). set (d3 := upd_scp sid g d2).
  assert (G1 : grows (λ x, X x ∨ x = h) c1 d1). { apply grows_current; [|apply (i_count _ _ I)|by right]. eapply grows_weaken; [exact G|]. by left. }
  assert (W1 : wf d1) by apply G1. pose proof (opened_silent isVoid fl d1 W1) as So. fold d2 in So.
  assert (Es : scope d2 sid = new_scope (opened_flags fl c) (sc_frame (child c))) by apply (opened_scope fl d1).
  destruct (Hg (scope d2 sid)) as [Hb Ha]. rewrite Es in Ha. specialize (Ha eq_refl (opened_ahead fl c)). rewrite <-Es in Ha.
  assert (Hno : ∀ b, ¬ has_block (scope d2 sid) b) by (rewrite Es; intros b Hx; by destruct Hx as [|[] ]).
  assert (Hup : ∀ Y a, grows Y a d2 → c_scopeCount a ≤ sid → grows Y a d3).
  { intros Y a Ga Hs. eapply grows_upd_scp; [exact Ga|done|done| | | |].
    - intros b Hx%Hb. by left.
    - intros b Hx. by destruct (Hno b).
    - left. rewrite Ha, Es. unfold scope_ahead. case_match; reflexivity.
    - intros b Hx. rewrite Ha in Hx. done. }
  assert (G3 : grows (λ x, X x ∨ x = h) c1 d3).
  { apply Hup; [|apply (e_scount _ _ (g_ext _ _ _ _ G))]. eapply grows_weaken; [eapply c_grows_trans; [exact G1|apply So]|]. by intros x [Hx|[] ] _. }
  assert (Xd : ext c d3). { apply (g_ext isVoid (λ x, x = h)), Hup; [|done]. eapply grows_weaken; [eapply (c_grows_trans isVoid (λ x, x = h) none); [|apply So]|by intros x [Hx|[] ] _].
    apply grows_current; [apply c_grows_refl, G|apply (i_count _ _ I)|done]. }
  assert (Hn3 : ¬ pending d3 h). { intros Hx. apply Hn. eapply ext_pending; [exact Xd|apply (i_count _ _ I)|done]. }
  assert (Hs3 : ¬ special d3 h). { intros Hx. apply (i_special _ _ I), (e_special _ _ Xd); [apply (i_count _ _ I)|done]. }
  assert (E : labeled fl g h c = upd_blk h (b_mark ExceptionLandingPad sid) d3) by done. rewrite E. clear E.
  split.
  - apply grows_mark; [done|done| |intros Hx; apply Hs3; by right]. intros s' Ho. destruct Hn3. left. by exists s'.
  - done.
  - done.
  - intros s Hs. change (scope d3 s = scope c s). unfold d3. rewrite scope_upd, decide_False by (unfold sid; lia). by apply (opened_other fl d1).
  - change (scope d3 sid = g (new_scope (opened_flags fl c) (sc_frame (child c)))). unfold d3. by rewrite scope_upd, decide_True, Es.
  - split; [done|]. rewrite blk_upd, decide_True by done. apply (i_code _ _ I).
  - by rewrite blk_upd, decide_True.
  - done.
  - done.
  - intros x. rewrite blk_upd. by destruct (decide (h = x)) as [<-|].
  - intros x. rewrite blk_upd. by destruct (decide (h = x)) as [<-|].
  - intros x. rewrite blk_upd. by destruct (decide (h = x)) as [<-|].
  - intros x Ix Hx. apply idle_mark, idle_upd_scp, idle_upd_scp, idle_push, idle_currentBlock; done.
  - intros x Px Hx. pose proof (plain_ext _ _ _ Px Xd) as [Q1 Q2 Q3]. split; [done| |done]. by rewrite blk_upd, decide_False by (by apply not_eq_sym).
Qed.

(** The scope of a label is closed. *)
Lemma popped_pending c s st b : wf c → c_scopeStack c = s :: st → s ≠ 0 → (owns c s b ∧ b ∉ all_ahead c) ∨ (ahead c s = Some b ∧ ∀ s', ¬ owns c s' b) → ¬ pending (pop c) b.
Proof.
  intros W Hst Hs0 H Hp. pose proof (w_stack_nodup _ _ W) as Hnd. rewrite Hst in Hnd. apply NoDup_cons in Hnd as [Hnin _].
  assert (Hall : all_ahead (pop c) = omap (ahead c) st) by (unfold all_ahead; cbn; by rewrite Hst).
  assert (Hown : ∀ s', owns (pop c) s' b → owns c s' b ∧ (s' ∈ st ∨ s' = 0)).
  { intros s' [ [H1 H2]|H1]; [|split; [by right|right; apply H1] ]. cbn in H1. rewrite Hst in H1. split; [|by left]. left. split; [|done]. rewrite Hst. by right. }
  destruct H as [ [Ho Ha]|[Ha Ho] ], Hp as [ [s' Hp]|Hp].
  - destruct (Hown _ Hp) as [Hp1 Hp2]. assert (s' = s) as -> by (by apply (w_owner _ _ W _ _ b)). by destruct Hp2.
  - apply Ha. rewrite Hall in Hp. unfold all_ahead. rewrite Hst. cbn. destruct (ahead c s); [by right|done].
  - destruct (Hown _ Hp) as [Hp1 _]. by destruct (Ho s').
  - pose proof (w_ahead_nodup _ _ W) as Hnd. unfold all_ahead in Hnd. rewrite Hst in Hnd. cbn in Hnd. rewrite Ha in Hnd. apply NoDup_cons in Hnd as [Hn _]. rewrite Hall in Hp. by apply Hn.
Qed.

(** ** [catch] *)

Lemma checkReturn_spec c cr : checkReturn isVoid c = inl (tt, cr) → wf c → open c →
  (reachable c = true ∧ isVoid = true ∧ ret isVoid None c = inl (tt, cr)) ∨ (reachable c = false ∧ grows none c cr ∧ same c cr ∧ reachable cr = false).
Proof.
  intros H W O. unfold checkReturn in H. comp_step H. fold (reachable c) in H. destruct (hasTerminator _) eqn:Ht.
  - comp_step H. right. assert (Hr : reachable c = false). { destruct (reachable c) eqn:Hr; [|done]. specialize (O Hr). congruence. }
    by split_and!; [|apply c_grows_refl|..].
  - destruct (reachable c) eqn:Hr; cbn [negb] in H.
    + left. destruct isVoid; [done|]. by comp_step H.
    + right. comp_step H. split; [done|]. split; [by apply emitted_grows|]. split; [done|]. unfold reachable.
      change (m_currentBlock (emitted IUnreachable c)) with (m_currentBlock c). by rewrite emitted_current.
Qed.

Definition catch_flags (S : Scope) (x : Scope) : Scope :=
  sc_set_flags (flags_or (sc_flags x) (mkFlags false false false false false (f_FinallyAhead (sc_flags S)) (f_Finalizable (sc_flags S)) false)) x.

Lemma close_labeled_pop c c' s rest : close_labeled c = inl (tt, c') → c_scopeStack c = s :: rest → f_Catch (sc_flags (scope c s)) && negb (f_FinallyAhead (sc_flags (scope c s))) = false →
  f_Finally (sc_flags (scope c s)) = false → c' = pop c.
Proof.
  intros H Hst H2 H3. unfold close_labeled in H. comp_step H. rewrite Hst in *. simplify_eq/=. rename select (_ c = inl (_, c0)) into Hf.
  rewrite H2, H3 in Hf. by comp_step Hf.
Qed.

Lemma checkReturn_same c cr : checkReturn isVoid c = inl (tt, cr) → wf c → open c → grows none c cr ∧ same c cr ∧ reachable cr = false.
Proof.
  intros H W O. destruct (checkReturn_spec _ _ H W O) as [ (_ & _ & Hret)|(_ & G & S & D)]; [|done].
  destruct (ret_spec isVoid _ _ _ Hret W) as (s & l & _ & _ & Hr). destruct (f_Finalizable _); [destruct Hr as (b & _ & Es); split; [apply Es|split; [apply Es|apply (es_dead _ _ _ _ _ _ Es)] ]|].
  by destruct Hr as (G & S & D & _).
Qed.

Lemma catchLabel_inv c c2 sid st : catchLabel isVoid c = inl (tt, c2) → wf c → open c → c_scopeStack c = sid :: st → let S := scope c sid in
  f_Catch (sc_flags S) = false → ∃ cr cj h, let c' := labeled Flag_Catch (catch_flags S) h cj in
    f_CatchAhead (sc_flags S) = true ∧ sc_catchBlock S = Some h ∧
    (if f_Function (sc_flags S) && negb (f_FinallyAhead (sc_flags S)) then checkReturn isVoid c = inl (tt, cr) else cr = c) ∧
    (if reachable cr then
       if f_FinallyAhead (sc_flags S) then ∃ f, sc_finallyBlock S = Some f ∧ normalFinallyFlow f (pop cr) = inl (tt, cj)
       else ∃ k, sc_frame S = Some k ∧
         jump (c_blockCount cr) None (emitted (ISetFrame (prev_frame k)) (set_followBlock (Some (c_blockCount cr)) (create false (pop cr)))) = inl (tt, cj)
     else cj = pop cr) ∧
    (if f_FinallyAhead (sc_flags S) then ∃ f, sc_finallyBlock S = Some f ∧
       let k := next_frame (sc_frame (scope c' (c_scopeCount cj))) in
       setJmpFinally f k (upd_scp (c_scopeCount cj) (λ x, sc_set_frame (Some k) (sc_set_finally (Some f) x)) c') = inl (tt, c2)
     else c2 = c').
Proof.
  intros H W O Hst S Hcatch. unfold catchLabel in H. comp_step H.
  rewrite Hst in H0. injection H0 as <-. fold S in H1, H2, H4. destruct x0, x1, x2, x3, x6.
  assert (Hcr : same c c0 ∧ (if f_Function (sc_flags S) && negb (f_FinallyAhead (sc_flags S)) then checkReturn isVoid c = inl (tt, c0) else c0 = c)).
  { destruct (f_Function _ && _); [split; [|done]; by apply checkReturn_same|by comp_step H1]. }
  destruct Hcr as [Sc Hcr]. destruct (f_CatchAhead (sc_flags S)) eqn:Hca; comp_step H2. apply negb_true_iff in H4.
  assert (Es : scope c0 sid = S) by (by rewrite (same_scope _ _ _ Sc)).
  apply (close_labeled_pop _ _ sid st) in H3; [|by rewrite (s_stack _ _ Sc)|by rewrite Es, Hcatch|by rewrite Es]. subst c3.
  change (scope (pop c0) sid) with (scope c0 sid) in *. rewrite Es in *. change (reachable (pop c0)) with (reachable c0) in H5.
  apply openScope_plain_inv in H7 as [-> ->]; [|done..]. unfold markLandingPad in H8. comp_step H8.
  exists c0, c4, x4. split; [done|]. split; [done|]. split; [done|]. split.
  - destruct (reachable c0); [|by comp_step H5]. destruct (f_FinallyAhead (sc_flags S)).
    + comp_step H5. by eexists.
    + unfold setSjljFrame in H5. comp_step H5. by eexists.
  - unfold catch_flags. destruct (f_FinallyAhead (sc_flags S)); [|comp_step H; reflexivity]. comp_step H. eexists. split; [done|]. exact H.
Qed.

(** ** [finally] *)

Definition catch_ahead (x : Scope) : Scope := sc_set_flags (flags_or (sc_flags x) Flag_CatchAhead) x.

Lemma finallyLabel_inv c c2 s st : finallyLabel isVoid c = inl (tt, c2) → c_scopeStack c = s :: st → let S := scope c s in
  f_CatchAhead (sc_flags S) = false ∧ f_FinallyAhead (sc_flags S) = true ∧
  ∃ cx cy f cj, (if f_Try (sc_flags S) then catchLabel isVoid (upd_scp s catch_ahead c) = inl (tt, cx) else cx = c) ∧
    close_labeled cx = inl (tt, cy) ∧ sc_finallyBlock (scope cy s) = Some f ∧
    (if reachable cy then normalFinallyFlow f cy = inl (tt, cj) else cj = cy) ∧ c2 = labeled Flag_Finally (sc_set_finally (Some f)) f cj.
Proof.
  intros H Hst S. unfold finallyLabel in H. comp_step H. rewrite Hst in *. simplify_eq/=. fold S in H1, H2, H3.
  destruct (f_CatchAhead (sc_flags S)); comp_step H1. destruct (f_FinallyAhead (sc_flags S)) eqn:Hfa; comp_step H2. split; [done|]. split; [done|].
  destruct x2, x3, x5. apply openScope_plain_inv in H7 as [-> ->]; [|done..]. unfold markLandingPad in H. comp_step H.
  exists c3, c4, x4, c5. split; [destruct (f_Try _); [by comp_step H3|by comp_step H3]|]. split; [done|]. split; [done|]. split; [destruct (reachable c4); [done|by comp_step H6]|done].
Qed.

(** ** The end *)

Lemma mark_reachable_inv l y c c' : mark_reachable l c = inl (y, c') → c' = reach_all true (snd <$> l) c.
Proof.
  revert c. induction l as [|[k b] l IH]; intros c H; cbn [mark_reachable] in H; [by comp_step H|]. comp_step H. by apply IH.
Qed.

Lemma finalizeCatch_inv c c' : finalizeCatchScope c = inl (tt, c') →
  match m_catchFinallyFollowBlock c with None => c' = c | Some b => ∃ d, follow b c = inl (tt, d) ∧ c' = set_followBlock None d end.
Proof.
  intros H. unfold finalizeCatchScope in H. comp_step H. destruct (m_catchFinallyFollowBlock c); [|by comp_step H]. comp_step H. rename select (follow _ _ = _) into Hf.
  eexists. split; [|done]. by destruct x.
Qed.

Definition clear_catch (x : Scope) : Scope := sc_set_flags (clear_Catch (sc_flags x)) x.
Definition clear_finally (x : Scope) : Scope := sc_set_flags (clear_Finally (sc_flags x)) x.
Definition clear_try (x : Scope) : Scope := sc_set_flags (clear_Try (sc_flags x)) x.

Lemma closeScope_catch_inv c c' s st : closeScope isVoid c = inl (tt, c') → c_scopeStack c = s :: st → let S := scope c s in
  f_Try (sc_flags S) = false → f_Catch (sc_flags S) = true → f_FinallyAhead (sc_flags S) = false →
  ∃ d, finalizeCatchScope (upd_scp s clear_catch c) = inl (tt, d) ∧ c' = pop d.
Proof.
  intros H Hst S H1 H2 H3. unfold closeScope in H. comp_step H. rewrite Hst in *. simplify_eq/=. fold S in H. rewrite H1 in H. cbn [andb] in H.
  unfold close_labeled in H. comp_step H. rewrite Hst in *. simplify_eq/=. rename select (_ c = inl (_, c0)) into Hf. fold S in Hf. rewrite H2, H3 in Hf. cbn [andb negb] in Hf.
  comp_step Hf. eexists. split; [by destruct x1|done].
Qed.

Lemma closeScope_try_inv c c' s st : closeScope isVoid c = inl (tt, c') → c_scopeStack c = s :: st → let S := scope c s in
  f_Try (sc_flags S) = true → f_CatchAhead (sc_flags S) = false → f_FinallyAhead (sc_flags S) = false →
  ∃ c1 d, catchLabel isVoid (upd_scp s catch_ahead (upd_scp s clear_try c)) = inl (tt, c1) ∧ finalizeCatchScope c1 = inl (tt, d) ∧ c' = pop d.
Proof.
  intros H Hst S H1 H2 H3. unfold closeScope in H. comp_step H. rewrite Hst in *. simplify_eq/=. fold S in H. rewrite H1, H2, H3 in H. cbn [andb negb orb] in H.
  unfold finalizeTryScope in H. comp_step H. do 2 eexists. split; [|split; [|done] ]; [by destruct x1|by destruct x0].
Qed.

Lemma closeScope_finally_inv c c' s st : closeScope isVoid c = inl (tt, c') → c_scopeStack c = s :: st → let S := scope c s in
  f_Try (sc_flags S) = false → f_Catch (sc_flags S) = false → f_Finally (sc_flags S) = true →
  let d := upd_scp s clear_finally c in ∃ f d2, sc_finallyBlock S = Some f ∧ c' = pop d2 ∧
  (if reachable c then
     ∃ tb d1, getDynamicThrowBlock d = inl (tb, d1) ∧
     match routes d1 f with
     | [] => jump tb None d1 = inl (tt, d2)
     | rts => let d3 := emitted (ISwitch rts tb) (reach_all true (snd <$> rts) d1) in
       match m_catchFinallyFollowBlock d3 with
       | Some b => d2 = set_followBlock None (set_currentBlock b d3)
       | None => ∃ u d4, getUnreachableBlock d3 = inl (u, d4) ∧ d2 = set_currentBlock u d4
       end
     end
   else d2 = set_followBlock None d).
Proof.
  intros H Hst S H1 H2 H3 d. unfold closeScope in H. comp_step H. rewrite Hst in *. simplify_eq/=. fold S in H. rewrite H1 in H. cbn [andb] in H.
  unfold close_labeled in H. comp_step H. rewrite Hst in *. simplify_eq/=. rename select (_ c = inl (_, c0)) into Hf. fold S in Hf. rewrite H2, H3 in Hf. cbn [andb] in Hf.
  unfold finalizeFinallyScope in Hf. comp_step Hf.
  change (upd_scp x0 _ c) with d in H, H4, Hf. change (reachable d) with (reachable c) in Hf. exists x, c0.
  split; [|split; [done|] ].
  { unfold d in H. rewrite scope_upd, decide_True in H by done. exact H. }
  destruct (reachable c); cbn [negb] in Hf; [|by comp_step Hf]. comp_step Hf. rename select (getDynamicThrowBlock _ = _) into Hg. destruct x1.
  do 2 eexists. split; [exact Hg|]. rename x into f, x2 into tb, c1 into d1. destruct (routes d1 f) as [|p rts]; [done|]. comp_step Hf.
  rename select (mark_reachable _ _ = _) into Hm. apply mark_reachable_inv in Hm. rewrite Hm in Hf. cbn zeta. set (d3 := emitted _ _) in *.
  change (m_catchFinallyFollowBlock (reach_all _ _ _)) with (m_catchFinallyFollowBlock d3). destruct (m_catchFinallyFollowBlock d3) as [b|]; comp_step Hf; [done|]. rename select (getUnreachableBlock _ = _) into Hu. do 2 eexists. split; [exact Hu|done].
Qed.
End labels.
