(* ===== verification/ControlFlowSim.v ===== *)
(** * Control flow: what compiled statements do

    The simulation: from where the code of a statement begins, the machine comes to where it ends, or leaves it in the way
    the statement does. *)

From S2P Require Import Prelude ControlFlow ControlFlowRun ControlFlowInv ControlFlowOps ControlFlowScope ControlFlowRoute.

Open Scope nat_scope.

#[local] Strategy 1000 [mbind Comp_bind mret Comp_ret].

(** No labels, and no labels in the parts behind labels. *)
Fixpoint free (s : stmt) : bool :=
  match s with
  | SSeq s1 s2 => free s1 && free s2
  | SIf _ s1 s2 => free s1 && (match s2 with Some s2 => free s2 | None => true end)
  | SWhile _ s | SDo s _ => free s
  | SScope isTry s c f => negb isTry && free s && (match c, f with None, None => true | _, _ => false end)
  | _ => true
  end.

Fixpoint flat (s : stmt) : bool :=
  match s with
  | SSeq s1 s2 => flat s1 && flat s2
  | SIf _ s1 s2 => flat s1 && (match s2 with Some s2 => flat s2 | None => true end)
  | SWhile _ s | SDo s _ => flat s
  | SScope _ s c f => flat s && (match c with Some c => free c | None => true end) && (match f with Some f => free f | None => true end)
  | _ => true
  end.

Section sim.
Context `{E : Effects} (isVoid isErrorCode : bool) (fin : CState) (Wfin : wf isVoid fin).

#[local] Abbreviation grows := (grows isVoid).
#[local] Abbreviation wf := (wf isVoid).
#[local] Abbreviation none := (λ _ : nat, False).
#[local] Abbreviation P := (finalizeFunction fin).
#[local] Abbreviation fa := (m_sjljFrameArrayValue fin).

(** ** The code of the function *)

Lemma code_of_fin b : code_of P b = landing_code fin (blk fin b) ++ code fin b.
Proof.
  unfold code_of, finalizeFunction. rewrite lookup_fmap. unfold blk. by destruct (c_blocks fin !! b).
Qed.

Lemma code_of_plain c b : plain c b → ext c fin → code_of P b = code fin b.
Proof. intros Hp X. rewrite code_of_fin. unfold landing_code. by rewrite (p_landing _ _ (plain_ext _ _ _ Hp X)). Qed.

(** The machine is where the compiler was. *)
Definition at_end (c : CState) (m : Mach) : Prop := code fin (m_currentBlock c) = code c (m_currentBlock c) ++ k_code m.

Lemma at_emits c c' m l : at_end c m → ext c' fin → m_currentBlock c < c_blockCount c' → code c' (m_currentBlock c) = code c (m_currentBlock c) ++ l →
  ∃ rest, k_code m = l ++ rest ∧ code fin (m_currentBlock c) = code c' (m_currentBlock c) ++ rest.
Proof.
  intros A X Hc Hl. destruct (e_code _ _ X _ Hc) as [rest Hr]. exists rest. split; [|done]. unfold at_end in A. rewrite A, Hl, <-app_assoc in Hr. by apply app_inv_head in Hr.
Qed.

(** ** Frames *)

Definition frame_of (hs : list nat) : option nat := match length hs with S k => Some k | O => None end.

Definition jmp_ok (hs : list nat) (m : Mach) : Prop := ∀ i h, hs !! i = Some h → k_jmp m !! i = Some h.

Definition frame_ok (m : Mach) : Prop := fa = false → k_frame m = None.

Lemma frame_of_snoc hs h : frame_of (hs ++ [h]) = Some (length hs).
Proof. unfold frame_of. by rewrite length_app, Nat.add_1_r. Qed.

Lemma next_frame_of hs : next_frame (frame_of hs) = length hs.
Proof. unfold frame_of. by destruct (length hs). Qed.

Lemma prev_frame_of hs : prev_frame (length hs) = frame_of hs.
Proof. unfold frame_of. by destruct (length hs). Qed.

Lemma jmp_ok_prefix hs l m : jmp_ok (hs ++ l) m → jmp_ok hs m.
Proof. intros H i h Hi. apply H. by apply lookup_app_l_Some. Qed.

Lemma jmp_ok_snoc hs h m m' : jmp_ok hs m → k_jmp m' = <[length hs := h]> (k_jmp m) → jmp_ok (hs ++ [h]) m'.
Proof.
  intros H Hm i x. rewrite lookup_app_Some, Hm. intros [Hi|[Hi Hx] ].
  - rewrite lookup_insert_ne; [by apply H|]. apply lookup_lt_Some in Hi. lia.
  - apply list_lookup_singleton_Some in Hx as [Hx ->]. replace i with (length hs) by lia. by rewrite lookup_insert_eq.
Qed.

(** An exception. *)
Lemma throw_to hs m : k_frame m = frame_of hs → jmp_ok hs m → throw P m = match last hs with Some h => inl (enter P h m) | None => inr (Thrown (k_world m)) end.
Proof.
  intros Hf Hj. unfold throw. rewrite Hf. unfold frame_of. destruct (length hs) as [|k] eqn:Hl; [by apply nil_length_inv in Hl; subst|].
  rewrite last_lookup, Hl. cbn. destruct (lookup_lt_is_Some_2 hs k) as [h Hh]; [lia|]. by rewrite Hh, (Hj _ _ Hh).
Qed.

(** ** Before and after a statement *)

Definition top (c : CState) : Scope := scope c (hd 0 (c_scopeStack c)).

(** The scopes around a statement. *)
Record around (hs : list nat) (canCatch : bool) (c : CState) : Prop := {
  a_frame : sc_frame (top c) = frame_of hs;
  a_array : hs = [] ∨ fa = true;
  a_hasCatch : f_HasCatch (sc_flags (top c)) = canCatch;
  a_catch : if canCatch then is_Some (find_scope c sc_catchBlock 1 (c_scopeStack c)) else find_scope c sc_catchBlock 1 (c_scopeStack c) = None
}.

Record pre (hs : list nat) (c : CState) (m : Mach) : Prop := {
  pr_at : at_end c m;
  pr_reach : reachable c = true;
  pr_frame : k_frame m = frame_of hs;
  pr_jmp : jmp_ok hs m
}.

(** Where an outcome leads to: a block, and the scope it belongs to. *)
Definition target (c c' : CState) (o : outcome) (t b : nat) : Prop :=
  match o with
  | ONormal => False
  | OBreak n => find_scope c sc_breakBlock n (c_scopeStack c) = Some t ∧ sc_breakBlock (scope c t) = Some b
  | OContinue n => find_scope c sc_continueBlock n (c_scopeStack c) = Some t ∧ sc_continueBlock (scope c t) = Some b
  | OReturn _ => t = 0 ∧ m_returnBlock c' = Some b
  | OThrow => find_scope c sc_catchBlock 1 (c_scopeStack c) = Some t ∧ sc_catchBlock (scope c t) = Some b
  end.

Definition saved (o : outcome) (m : Mach) : Prop := match o with OReturn v => if isVoid then v = None else k_ret m = v | _ => True end.

Record arrives (hs : list nat) (c : CState) (l : list nat) (b : nat) (o : outcome) (w : world) (m : Mach) : Prop := {
  ar_code : k_code m = code_of P (hd b l);
  ar_reached : reached c (hd b l) = true;
  ar_chain : chain c (k_route m) (l ++ [b]);
  ar_landing : landing c b ≠ None;
  ar_jmp : jmp_ok hs m;
  ar_frame : frame_ok m;
  ar_world : k_world m = w;
  ar_saved : saved o m
}.

Definition same_regs (m m' : Mach) : Prop := k_route m' = k_route m ∧ k_ret m' = k_ret m.

Inductive post (hs : list nat) (c c' : CState) (isFree : bool) (m : Mach) : outcome → world → Prop :=
  | post_normal m' : steps P m m' → pre hs c' m' → (isFree = true → same_regs m m') → post hs c c' isFree m ONormal (k_world m')
  | post_leaves o w t b m' : target c c' o t b → steps P m m' → arrives hs c' (fins c (Some t) (c_scopeStack c)) b o w m' →
      (isFree = true → fins c (Some t) (c_scopeStack c) = [] → (∀ v, o ≠ OReturn v) → same_regs m m') → post hs c c' isFree m o w
  | post_returns v w : f_Finalizable (sc_flags (top c)) = false → ends P m (Returned v w None) → post hs c c' isFree m (OReturn v) w
  | post_throws h m' : last hs = Some h → steps P m m' → k_code m' = code_of P h → jmp_ok hs m' → post hs c c' isFree m OThrow (k_world m')
  | post_thrown w : hs = [] → ends P m (Thrown w) → post hs c c' isFree m OThrow w.

Definition sim (s : stmt) (c c' : CState) : Prop := ∀ fuel canCatch hs m o w, ext c' fin → around hs canCatch c → pre hs c m →
  eval isErrorCode fuel canCatch s (k_world m) = Some (o, w) → post hs c c' (free s) m o w.

Record kept (c c' : CState) : Prop := {
  kp_grows : grows none c c';
  kp_open : open c';
  kp_stack : c_scopeStack c' = c_scopeStack c;
  kp_scopes s : s < c_scopeCount c → scope c' s = scope c s;
  kp_follow : m_catchFinallyFollowBlock c' = m_catchFinallyFollowBlock c
}.

Lemma kept_intro c c' : grows none c c' → same c c' → open c' → kept c c'.
Proof. intros G S O. split; [done|done|apply S|intros s _; by apply same_scope|apply S]. Qed.

Lemma kept_trans c1 c2 c3 : kept c1 c2 → kept c2 c3 → kept c1 c3.
Proof.
  intros [G1 O1 S1 V1 F1] [G2 O2 S2 V2 F2]. pose proof (e_scount _ _ (g_ext _ _ _ _ G1)). split; [by eapply grows_trans0|done|congruence| |congruence].
  intros s Hs. rewrite V2, V1; [done|done|lia].
Qed.

Lemma around_kept hs k c c' : kept c c' → around hs k c → wf c → c_scopeStack c ≠ [] → around hs k c'.
Proof.
  intros [G O S V F] [H1 H2 H3 H4] W Hne.
  assert (Hs : ∀ s, s ∈ c_scopeStack c → scope c' s = scope c s) by (intros s Hs; by apply V, (w_stack _ _ W)).
  assert (Ht : top c' = top c). { unfold top. rewrite S. apply Hs. destruct (c_scopeStack c); [done|left]. }
  split; rewrite ?Ht; try done. rewrite S.
  assert (Hf : ∀ l n, (∀ s, s ∈ l → s ∈ c_scopeStack c) → find_scope c' sc_catchBlock n l = find_scope c sc_catchBlock n l).
  { induction l as [|s l IH]; intros n Hl; [done|]. cbn. rewrite Hs by (apply Hl; left). rewrite !IH by (intros x Hx; apply Hl; by right). done. }
  by rewrite Hf.
Qed.

Lemma find_scope_spec c f n l s : find_scope c f n l = Some s → s ∈ l ∧ is_Some (f (scope c s)).
Proof.
  revert n. induction l as [|x l IH]; intros n H; [done|]. cbn in H. destruct (f (scope c x)) eqn:Hf.
  - destruct (n <=? 1); [injection H as <-; split; [left|by eexists]|]. destruct (IH _ H). split; [by right|done].
  - destruct (IH _ H). split; [by right|done].
Qed.

(** ** Steps *)

Lemma step_steps m m' m'' : step P m = inl m' → steps P m' m'' → steps P m m''.
Proof. intros H1 H2. by eapply rtc_l. Qed.

Lemma steps_one m m' : step P m = inl m' → steps P m m'.
Proof. intros H. by apply rtc_once. Qed.

Lemma steps_trans m m' m'' : steps P m m' → steps P m' m'' → steps P m m''.
Proof. unfold steps. intros H1 H2. by etrans. Qed.

Lemma steps_ends m m' e : steps P m m' → ends P m' e → ends P m e.
Proof. intros H (m'' & H1 & H2). exists m''. split; [by eapply steps_trans|done]. Qed.

Lemma pre_frame_ok hs k c m : around hs k c → pre hs c m → frame_ok m.
Proof. intros A Hp Hf. rewrite (pr_frame _ _ _ Hp). destruct (a_array _ _ _ A) as [->|H]; [done|congruence]. Qed.

Lemma emit_at i c m : at_end c m → wf c → ext (emitted i c) fin → ∃ rest, k_code m = i :: rest ∧ ∀ m', k_code m' = rest → at_end (emitted i c) m'.
Proof.
  intros A W X. destruct (at_emits c (emitted i c) m [i] A X (w_current _ _ W)) as (rest & H1 & H2); [by rewrite emitted_current|].
  exists rest. split; [done|]. intros m' <-. exact H2.
Qed.

Lemma escapes_run hs o pr t b c c' m : escapes isVoid pr t b c c' → wf c → ext c' fin → at_end c m → reachable c = true →
  ∃ rest, k_code m = pr ++ rest ∧ ∀ m1, k_code m1 = rest → jmp_ok hs m1 → frame_ok m1 → saved o m1 →
    let l := fins c (Some t) (c_scopeStack c) in
    ∃ m', steps P m1 m' ∧ arrives hs c' l b o (k_world m1) m' ∧ (l = [] → same_regs m1 m').
Proof.
  intros [G S D (r & Hc & Hch) Hr Hl] W X A R. pose proof (grows_count _ _ _ _ G). pose proof (w_current _ _ W).
  destruct (at_emits c c' m _ A X ltac:(lia) Hc) as (rest & Hm & _). rewrite <-app_assoc in Hm. eexists. split; [exact Hm|].
  intros m1 H1 J F Sv l. destruct (fins c (Some t) (c_scopeStack c)) as [|f l'] eqn:El; cbn [app] in H1.
  - exists (enter P b (set_code rest m1)). split; [apply steps_one; unfold step; by rewrite H1|]. split; [|done]. by split; auto.
  - exists (enter P f (set_code rest (set_route (Some r) m1))). split.
    + eapply step_steps; [unfold step; rewrite H1; done|]. apply steps_one. done.
    + split; [|done]. by split; auto.
Qed.
End sim.
