(* ===== verification/ControlFlowLeaf.v ===== *)
(** * Control flow: actions, jumps, returns and throws

    The statements without statements in them: what the compiler does, and that the machine does what they mean. *)

From S2P Require Import Prelude ControlFlow ControlFlowRun ControlFlowInv ControlFlowOps ControlFlowScope ControlFlowRoute ControlFlowSim.

Open Scope nat_scope.

#[local] Strategy 1000 [mbind Comp_bind mret Comp_ret].

Section leaf.
Context `{E : Effects} (isVoid isErrorCode : bool) (fin : CState) (Wfin : wf isVoid fin).

#[local] Abbreviation grows := (grows isVoid).
#[local] Abbreviation wf := (wf isVoid).
#[local] Abbreviation none := (λ _ : nat, False).
#[local] Abbreviation P := (finalizeFunction fin).
#[local] Abbreviation kept := (kept isVoid).
#[local] Abbreviation post := (post isVoid fin).
#[local] Abbreviation pre := (pre fin).
#[local] Abbreviation around := (around fin).

(** What the compiler makes of a statement. *)
Definition ok (s : stmt) (c c' : CState) : Prop := kept c c' ∧ sim isVoid isErrorCode fin s c c'.

Lemma post_steps hs c c' fr m m' o w : steps P m m' → (fr = true → same_regs m m') → post hs c c' fr m' o w → post hs c c' fr m o w.
Proof.
  intros S Rg [m'' S2 Hp Hr|o' w' t b m'' T S2 A Hr|v w' F En|h m'' Hl S2 Hc J|w' Hn En].
  - apply post_normal; [by eapply steps_trans|done|]. intros Hf. destruct (Rg Hf), (Hr Hf). split; congruence.
  - eapply post_leaves; [done|by eapply steps_trans|done|]. intros Hf H1 H2. destruct (Rg Hf), (Hr Hf H1 H2). split; congruence.
  - apply post_returns; [done|by eapply steps_ends].
  - eapply post_throws; [done|by eapply steps_trans|done..].
  - apply post_thrown; [done|by eapply steps_ends].
Qed.

(** A dynamic throw. *)
Lemma throw_post hs c c' fr m m0 : k_frame m = frame_of hs → jmp_ok hs m → step P m0 = throw P m → post hs c c' fr m0 OThrow (k_world m).
Proof.
  intros Hf Hj Hs. rewrite (throw_to fin hs m Hf Hj) in Hs. destruct (last hs) as [h|] eqn:Hl.
  - apply (post_throws _ _ _ _ _ _ _ h (enter P h m)); [done|by apply steps_one|done..].
  - apply last_None in Hl as ->. apply post_thrown; [done|]. exists m0. split; [apply rtc_refl|done].
Qed.

Lemma dynamic_throw hs c c' fr b m : m_dynamicThrowBlock fin = Some b → k_code m = code_of P b → k_frame m = frame_of hs → jmp_ok hs m → post hs c c' fr m OThrow (k_world m).
Proof.
  intros Hb Hc Hf Hj. destruct (w_throw _ _ Wfin _ Hb) as (_ & [l Hl] & Hland & _). rewrite code_of_fin in Hc. unfold landing_code in Hc. rewrite Hland, Hl in Hc. cbn in Hc.
  change (k_world m) with (k_world (set_code l m)). apply throw_post; [done|done|]. unfold step. by rewrite Hc.
Qed.

Lemma act_ok n c c' : compile isVoid isErrorCode (SAct n) c = inl (tt, c') → wf c → open c → ok (SAct n) c c'.
Proof.
  intros H W O. cbn in H. comp_step H. split.
  - apply kept_intro; [by apply emitted_grows|done|]. intros _. unfold hasTerminator. change (m_currentBlock (emitted (IAct n) c)) with (m_currentBlock c). rewrite emitted_current. cbn.
    by rewrite last_snoc.
  - intros fuel k hs m o w X A Hp Hev. destruct fuel; [done|]. cbn in Hev. destruct (emit_at isVoid fin _ _ _ (pr_at _ _ _ _ Hp) W X) as (rest & Hm & Hat).
    destruct (act n (k_world m)) as [w' []] eqn:Ha; injection Hev as <- <-.
    + change w' with (k_world (set_world w' (set_code rest m))). apply throw_post; [apply Hp|apply Hp|]. unfold step. rewrite Hm. cbn. by rewrite Ha.
    + change w' with (k_world (set_world w' (set_code rest m))). apply post_normal; [|split|done].
      * apply steps_one. unfold step. rewrite Hm. cbn. by rewrite Ha.
      * by apply Hat.
      * unfold reachable. change (m_currentBlock (emitted (IAct n) c)) with (m_currentBlock c). rewrite emitted_current. apply (pr_reach _ _ _ _ Hp).
      * apply Hp.
      * apply Hp.
Qed.

Lemma skip_ok c : wf c → open c → ok SSkip c c.
Proof.
  intros W O. split; [apply kept_intro; [by apply c_grows_refl|done|done]|]. intros fuel k hs m o w X A Hp Hev. destruct fuel; [done|]. injection Hev as <- <-.
  apply post_normal; [apply rtc_refl|done|done].
Qed.

Lemma dead_open c : reachable c = false → open c.
Proof. intros H E'. congruence. Qed.

Lemma escapes_kept pr t b c c' : escapes isVoid pr t b c c' → kept c c'.
Proof. intros Es. apply kept_intro; [apply Es|apply Es|]. apply dead_open, (es_dead _ _ _ _ _ _ Es). Qed.

Lemma escapes_post hs k fr o t b c c' m : escapes isVoid [] t b c c' → wf c → ext c' fin → around hs k c → pre hs c m → target c c' o t b → saved isVoid o m →
  post hs c c' fr m o (k_world m).
Proof.
  intros Es W X A Hp T Sv. destruct (escapes_run isVoid fin hs o _ _ _ _ _ m Es W X (pr_at _ _ _ _ Hp) (pr_reach _ _ _ _ Hp)) as (rest & Hm & Hrun).
  destruct (Hrun m Hm (pr_jmp _ _ _ _ Hp) (pre_frame_ok fin _ _ _ _ A Hp) Sv) as (m' & S & Ar & R). eapply post_leaves; [done..|]. intros _ Hl _. by apply R.
Qed.

Lemma break_ok n c c' : compile isVoid isErrorCode (SBreak n) c = inl (tt, c') → wf c → ok (SBreak n) c c'.
Proof.
  intros H W. cbn in H. unfold breakJump in H. comp_step H. destruct (find_scope _ _ _ _) as [t|] eqn:Hf; comp_step H.
  destruct (find_scope_spec _ _ _ _ _ Hf) as (Ht & b & Hb). rewrite Hb in H. assert (Es : escapes isVoid [] t b c c') by (apply escapeScope_spec; [done..|left; split; [done|by left] ]).
  split; [by eapply escapes_kept|]. intros fuel k hs m o w X A Hp Hev. destruct fuel; [done|]. injection Hev as <- <-. by eapply escapes_post.
Qed.

Lemma continue_ok n c c' : compile isVoid isErrorCode (SContinue n) c = inl (tt, c') → wf c → ok (SContinue n) c c'.
Proof.
  intros H W. cbn in H. unfold continueJump in H. comp_step H. destruct (find_scope _ _ _ _) as [t|] eqn:Hf; comp_step H.
  destruct (find_scope_spec _ _ _ _ _ Hf) as (Ht & b & Hb). rewrite Hb in H. assert (Es : escapes isVoid [] t b c c') by (apply escapeScope_spec; [done..|left; split; [done|right; by left] ]).
  split; [by eapply escapes_kept|]. intros fuel k hs m o w X A Hp Hev. destruct fuel; [done|]. injection Hev as <- <-. by eapply escapes_post.
Qed.

(** ** Returns *)

Lemma ret_kept v c c' : ret isVoid v c = inl (tt, c') → wf c → kept c c' ∧ reachable c' = false.
Proof.
  intros H W. destruct (ret_spec _ _ _ _ H W) as (s & l & _ & _ & Hr). destruct (f_Finalizable _).
  - destruct Hr as (b & _ & Es). split; [by eapply escapes_kept|apply (es_dead _ _ _ _ _ _ Es)].
  - destruct Hr as (G & S & D & _). split; [|done]. apply kept_intro; [done..|by apply dead_open].
Qed.

Lemma ret_post hs k fr v c c' m : ret isVoid v c = inl (tt, c') → wf c → ext c' fin → around hs k c → pre hs c m → post hs c c' fr m (OReturn v) (k_world m).
Proof.
  intros H W X A Hp. destruct (ret_spec _ _ _ _ H W) as (s & l & Hst & Hv & Hr).
  assert (Et : top c = scope c s) by (unfold top; by rewrite Hst). rewrite <-Et in Hr. destruct (f_Finalizable _) eqn:Hfin.
  - destruct Hr as (b & Hb & Es). destruct (escapes_run isVoid fin hs (OReturn v) _ _ _ _ _ m Es W X (pr_at _ _ _ _ Hp) (pr_reach _ _ _ _ Hp)) as (rest & Hm & Hrun).
    assert (∃ m1, steps P m m1 ∧ k_code m1 = rest ∧ k_world m1 = k_world m ∧ k_jmp m1 = k_jmp m ∧ k_frame m1 = k_frame m ∧ saved isVoid (OReturn v) m1)
      as (m1 & S1 & H1 & H2 & H3 & H4 & H5).
    { destruct v as [x|].
      - exists (set_ret (Some x) (set_code rest m)). split; [apply steps_one; unfold step; by rewrite Hm|]. split_and!; try done. cbn. by rewrite Hv.
      - exists m. split; [apply rtc_refl|]. split_and!; try done. cbn. by rewrite Hv. }
    destruct (Hrun m1 H1) as (m' & S & Ar & _); [|intros Hf; rewrite H4; by apply (pre_frame_ok fin _ _ _ _ A Hp)|done|].
    { intros i h Hi. rewrite H3. by apply (pr_jmp _ _ _ _ Hp). }
    rewrite H2 in Ar. eapply (post_leaves _ _ _ _ _ _ _ _ _ 0 b); [done|by eapply steps_trans|done|]. intros _ _ Hne. by destruct (Hne v).
  - destruct Hr as (G & S & D & Hc). pose proof (grows_count _ _ _ _ G). pose proof (w_current _ _ W).
    destruct (at_emits fin c c' m _ (pr_at _ _ _ _ Hp) X ltac:(lia) Hc) as (rest & Hm & _). apply post_returns; [done|].
    pose proof (a_frame _ _ _ _ A) as Hf. pose proof (pr_frame _ _ _ _ Hp) as Hf2. rewrite <-Hf in Hf2. destruct (sc_frame _).
    + exists (set_frame None (set_code (IRet v :: rest) m)). split; [apply steps_one; unfold step; by rewrite Hm|done].
    + exists m. split; [apply rtc_refl|]. unfold step. rewrite Hm. cbn. by rewrite Hf2.
Qed.

Lemma return_ok v c c' : compile isVoid isErrorCode (SReturn v) c = inl (tt, c') → wf c → ok (SReturn v) c c'.
Proof.
  intros H W. cbn in H. split; [by eapply ret_kept|]. intros fuel k hs m o w X A Hp Hev. destruct fuel; [done|]. injection Hev as <- <-. by eapply ret_post.
Qed.

(** ** Throws *)

Lemma jumps_grows i ts c c' : jumps isVoid i ts None c c' → grows none c c'.
Proof. intros J. apply (grows_weaken isVoid (λ x, None = Some x)); [apply J|done]. Qed.

Lemma quiet_pre hs c c1 m : quiet isVoid c c1 → wf c → pre hs c m → pre hs c1 m.
Proof.
  intros [G B C S N] W [H1 H2 H3 H4]. pose proof (w_current _ _ W). split; [|unfold reachable in *; by rewrite C, B|done..]. unfold at_end in *. by rewrite C, B.
Qed.

Lemma same_top c c1 : same c c1 → top c1 = top c.
Proof. intros S. unfold top. by rewrite (s_stack _ _ S), (same_scope _ _ _ S). Qed.

Lemma throwBlock_reached c b : wf c → m_dynamicThrowBlock c = Some b → b < c_blockCount c ∧ m_unreachableBlock c ≠ Some b.
Proof. intros W Hb. destruct (w_throw _ _ W _ Hb) as (H1 & _ & _ & H2). done. Qed.

Lemma jump_throw hs c c' c1 c2 fr b m : wf c → jumps isVoid (IBr b) [b] None c c' → m_dynamicThrowBlock c = Some b → ext c' fin → pre hs c m → post hs c1 c2 fr m OThrow (k_world m).
Proof.
  intros W J Hb X Hp. pose proof (jumps_count _ _ _ _ _ _ J). pose proof (w_current _ _ W).
  destruct (at_emits fin c c' m _ (pr_at _ _ _ _ Hp) X ltac:(lia) (j_emits _ _ _ _ _ _ J)) as (rest & Hm & _).
  apply (post_steps _ _ _ _ _ (enter P b (set_code rest m))); [apply steps_one; unfold step; by rewrite Hm|done|].
  change (k_world m) with (k_world (enter P b (set_code rest m))). eapply dynamic_throw; [|done|apply Hp|apply Hp]. apply (e_throw _ _ X), (e_throw _ _ (g_ext _ _ _ _ (j_grows _ _ _ _ _ _ J))), Hb.
Qed.

Lemma throwException_ok check c c' : throwException isVoid isErrorCode check c = inl (tt, c') → wf c →
  kept c c' ∧ reachable c' = false ∧
  ∀ hs k m fr, ext c' fin → around hs k c → pre hs c m → post hs c c' fr m (throw_outcome isErrorCode k check) (k_world m).
Proof.
  intros H W. unfold throwException, currentScope in H. comp_step H. rename select (_ = inl (x, c0)) into Hs. destruct (c_scopeStack c) as [|s l] eqn:Hst; comp_step Hs.
  assert (Et : top c = scope c s) by (unfold top; by rewrite Hst). rewrite <-Et in H. unfold canStaticThrow in H. destruct (f_HasCatch _ || isErrorCode) eqn:Hcan; cbn [negb] in H.
  - comp_step H. destruct (find_scope _ _ _ _) as [t|] eqn:Hf.
    + comp_step H. destruct (find_scope_spec _ _ _ _ _ Hf) as (Ht & b & Hb). rewrite Hb in H.
      assert (Es : escapes isVoid [] t b c c') by (apply escapeScope_spec; [done..|left; split; [done|right; by right] ]).
      split; [by eapply escapes_kept|]. split; [apply (es_dead _ _ _ _ _ _ Es)|]. intros hs k m fr X A Hp.
      assert (k = true) as ->. { pose proof (a_catch _ _ _ _ A) as Hk. destruct k; [done|]. congruence. }
      by eapply escapes_post.
    + comp_step H. destruct (ret_kept _ _ _ H W) as [K D]. split; [done|]. split; [done|]. intros hs k m fr X A Hp.
      assert (k = false) as ->. { pose proof (a_catch _ _ _ _ A) as Hk. destruct k; [|done]. rewrite Hf in Hk. by destruct Hk. }
      by eapply ret_post.
  - apply orb_false_iff in Hcan as [Hc1 Hc2]. comp_step H. rename select (getDynamicThrowBlock _ = _) into Hg. destruct (getDynamicThrowBlock_quiet _ _ _ _ Hg W) as [Q Hb].
    destruct (throwBlock_reached _ _ (g_wf _ _ _ _ (q_grows _ _ _ Q)) Hb) as [Hb1 Hb2].
    pose proof (jump_spec _ _ _ _ _ H (g_wf _ _ _ _ (q_grows _ _ _ Q)) Hb1 Hb2 ltac:(done)) as J. pose proof (j_to _ _ _ _ _ _ J) as D. cbn in D.
    split; [|split; [done|] ].
    + apply kept_intro; [eapply grows_trans0; [apply Q|by eapply jumps_grows]|eapply c_same_trans; [apply Q|apply J]|by apply dead_open].
    + intros hs k m fr X A Hp. pose proof (a_hasCatch _ _ _ _ A) as Hk. rewrite Hc1 in Hk. subst k. unfold throw_outcome. rewrite Hc2. cbn.
      eapply jump_throw; [apply (q_grows _ _ _ Q)|done|done|done|]. by eapply quiet_pre.
Qed.

Lemma throw_ok c c' : compile isVoid isErrorCode SThrow c = inl (tt, c') → wf c → ok SThrow c c'.
Proof.
  intros H W. cbn in H. destruct (throwException_ok _ _ _ H W) as (K & D & Hp). split; [done|]. intros fuel k hs m o w X A Hpre Hev. destruct fuel; [done|]. injection Hev as <- <-.
  by apply Hp.
Qed.

(** ** Blocks that are entered *)

Record enters (hs : list nat) (b : nat) (w : world) (m m' : Mach) : Prop := {
  en_steps : steps P m m';
  en_code : k_code m' = code_of P b;
  en_world : k_world m' = w;
  en_regs : same_regs m m';
  en_frame : k_frame m' = frame_of hs;
  en_jmp : jmp_ok hs m'
}.

Lemma enters_pre hs b w m m' c : enters hs b w m m' → plain fin b → m_currentBlock c = b → code c b = [] → reached c b = true → pre hs c m'.
Proof.
  intros [S C Hw R F J] Hp Hc Hb Hr. split; [|unfold reachable; by rewrite Hc|done|done]. unfold at_end. rewrite Hc, Hb, C. cbn.
  by rewrite (code_of_plain fin fin b Hp (ext_refl _)).
Qed.

Lemma br_enters hs b f c c' m : jumps isVoid (IBr b) [b] f c c' → wf c → ext c' fin → pre hs c m → reached c' b = true ∧ ∃ m', enters hs b (k_world m) m m'.
Proof.
  intros J W X Hp. pose proof (jumps_count _ _ _ _ _ _ J). pose proof (w_current _ _ W).
  destruct (at_emits fin c c' m _ (pr_at _ _ _ _ Hp) X ltac:(lia) (j_emits _ _ _ _ _ _ J)) as (rest & Hm & _).
  split; [apply (j_reached _ _ _ _ _ _ J (pr_reach _ _ _ _ Hp)); left|]. exists (enter P b (set_code rest m)). split; [|done..|apply Hp|apply Hp].
  apply steps_one. unfold step. by rewrite Hm.
Qed.

Lemma cond_enters hs cond t e f c c' m w v : jumps isVoid (ICondBr cond t e) [t; e] f c c' → wf c → ext c' fin → pre hs c m → test cond (k_world m) = (w, v) →
  reached c' (if v then t else e) = true ∧ ∃ m', enters hs (if v then t else e) w m m'.
Proof.
  intros J W X Hp Ht. pose proof (jumps_count _ _ _ _ _ _ J). pose proof (w_current _ _ W).
  destruct (at_emits fin c c' m _ (pr_at _ _ _ _ Hp) X ltac:(lia) (j_emits _ _ _ _ _ _ J)) as (rest & Hm & _).
  split; [apply (j_reached _ _ _ _ _ _ J (pr_reach _ _ _ _ Hp)); destruct v; [left|right; left]|]. exists (enter P (if v then t else e) (set_world w (set_code rest m))).
  split; [|done..|apply Hp|apply Hp]. apply steps_one. unfold step. rewrite Hm. cbn. by rewrite Ht.
Qed.

(** The machine goes on from a block that was entered. *)
Lemma enters_post hs b w m m' c c' fr o w' : enters hs b w m m' → post hs c c' fr m' o w' → post hs c c' fr m o w'.
Proof. intros En. apply post_steps; [apply En|]. intros _. apply En. Qed.

Lemma post_normal_enters hs b w m m' c c' fr : enters hs b w m m' → pre hs c' m' → post hs c c' fr m ONormal w.
Proof. intros En Hp. rewrite <-(en_world _ _ _ _ _ En). apply post_normal; [apply En|done|]. intros _. apply En. Qed.

Lemma silent_pre hs c c1 m : silent isVoid c c1 → wf c → pre hs c m → pre hs c1 m.
Proof.
  intros [G B C] W [H1 H2 H3 H4]. pose proof (w_current _ _ W). split; [unfold at_end in *|unfold reachable in *|..]; by rewrite ?C, ?B.
Qed.

(** ** Statements in statements *)

Lemma target_count c c' o t b : wf c → wf c' → c_blockCount c ≤ c_blockCount c' → target c c' o t b → b < c_blockCount c'.
Proof.
  intros W W' Hle T.
  assert (Ho : ∀ b, owns c t b → b < c_blockCount c') by (intros b' Ho; destruct (w_owns _ _ W _ _ Ho); lia).
  destruct o as [|n|n|v|]; cbn in T; [done|destruct T as [T Hb]..]; [| |by apply (w_owns _ _ W' 0); right|]; apply find_scope_spec in T as [T _]; apply Ho; left; (split; [done|]); [by left|right; by left|right; by right].
Qed.

(** What an outcome is outside: [break] and [continue] lose a level in a loop. *)
Definition outside (o o' : outcome) : Prop := o' = o ∨ (∃ n, o = OBreak n ∧ o' = OBreak (n - 1)) ∨ (∃ n, o = OContinue n ∧ o' = OContinue (n - 1)).

Lemma outside_saved o o' m : outside o o' → saved isVoid o m → saved isVoid o' m.
Proof. by intros [->|[ (n & -> & ->)|(n & -> & ->)] ]. Qed.

Lemma arrives_ext hs c c' l b o o' w m : arrives isVoid fin hs c l b o w m → ext c c' → (∀ x, x ∈ l ++ [b] → x < c_blockCount c) → (saved isVoid o m → saved isVoid o' m) →
  arrives isVoid fin hs c' l b o' w m.
Proof.
  intros [H1 H2 H3 H4 H5 H6 H7 H8] X Hl Hs. assert (Hhd : hd b l ∈ l ++ [b]) by (destruct l; left).
  split; try done; [apply (e_reach _ _ X); auto|by eapply chain_ext|apply (e_landing_some _ _ X); [apply Hl, elem_of_app; right; left|done]|by apply Hs].
Qed.

Lemma post_out hs c c1 c2 c' fr fr' m o o' w : o ≠ ONormal → outside o o' → wf c1 → wf c2 → c_blockCount c1 ≤ c_blockCount c2 → ext c2 c' →
  (∀ t b, target c1 c2 o t b → target c c' o' t b ∧ fins c1 (Some t) (c_scopeStack c1) = fins c (Some t) (c_scopeStack c)) →
  (f_Finalizable (sc_flags (top c1)) = false → f_Finalizable (sc_flags (top c)) = false) → (fr' = true → fr = true) →
  post hs c1 c2 fr m o w → post hs c c' fr' m o' w.
Proof.
  intros Hne Ho W1 W2 Hle X Ht Hf Hfr Hpost. destruct Hpost as [m' S Hp Hr|o1 w' t b m' T S A Hr|v w' F En|h m' Hl S Hc J|w' Hn En]; [done|..].
  - destruct (Ht t b T) as [T' El]. eapply post_leaves; [exact T'|done| |].
    + rewrite <-El. eapply arrives_ext; [done..| |by apply outside_saved]. intros x. rewrite elem_of_app, list_elem_of_singleton. intros [Hx|Hx]; [|subst; by apply (target_count _ _ _ _ _ W1 W2 Hle T)].
      destruct (w_ahead _ _ W1 x); [by apply (fins_ahead _ (Some t))|lia].
    + rewrite <-El. intros H1 H2 H3. apply Hr; [by apply Hfr|done|]. intros v ->. destruct Ho as [->|[ (n & [=] & _)|(n & [=] & _)] ]. by apply (H3 v).
  - destruct Ho as [->|[ (n & [=] & _)|(n & [=] & _)] ]. apply post_returns; [auto|done].
  - destruct Ho as [->|[ (n & [=] & _)|(n & [=] & _)] ]. by eapply post_throws.
  - destruct Ho as [->|[ (n & [=] & _)|(n & [=] & _)] ]. by apply post_thrown.
Qed.

(** In the same scopes. *)
Lemma post_same hs c c1 c2 c' fr fr' m o w : o ≠ ONormal → wf c1 → wf c2 → c_blockCount c1 ≤ c_blockCount c2 → ext c2 c' →
  c_scopeStack c1 = c_scopeStack c → (∀ s, s ∈ c_scopeStack c → scope c1 s = scope c s) → c_scopeStack c ≠ [] → (fr' = true → fr = true) →
  post hs c1 c2 fr m o w → post hs c c' fr' m o w.
Proof.
  intros Hne W1 W2 Hle X Hst Hs Hnil Hfr. apply post_out; [done|by left|done..| | |done].
  - assert (Hfind : ∀ f n l, (∀ s, s ∈ l → s ∈ c_scopeStack c) → find_scope c1 f n l = find_scope c f n l).
    { intros f n l. revert n. induction l as [|s l IH]; intros n Hl; [done|]. cbn. rewrite Hs by (apply Hl; left). rewrite !IH by (intros x Hx; apply Hl; by right). done. }
    assert (Hfin : ∀ t l, (∀ s, s ∈ l → s ∈ c_scopeStack c) → fins c1 t l = fins c t l).
    { intros t l. induction l as [|s l IH]; intros Hl; [done|]. cbn. unfold ahead. rewrite Hs by (apply Hl; left). rewrite !IH by (intros x Hx; apply Hl; by right). done. }
    intros t b T. split; [|rewrite Hst; by apply Hfin].
    destruct o as [|n|n|v|]; cbn in T |- *; [done|destruct T as [T Hb]..].
    + rewrite Hst, Hfind in T by done. rewrite Hs in Hb by (by apply find_scope_spec in T as [? _]). done.
    + rewrite Hst, Hfind in T by done. rewrite Hs in Hb by (by apply find_scope_spec in T as [? _]). done.
    + split; [done|]. by apply (e_return _ _ X).
    + rewrite Hst, Hfind in T by done. rewrite Hs in Hb by (by apply find_scope_spec in T as [? _]). done.
  - unfold top. rewrite Hst, Hs; [done|]. destruct (c_scopeStack c); [done|left].
Qed.

Lemma grows_jumps X Y i ts f c c1 c2 : grows X c c1 → jumps isVoid i ts f c1 c2 → (∀ x, x < c_blockCount c → X x ∨ f = Some x → Y x) → grows Y c c2.
Proof. intros G J H. eapply grows_weaken; [eapply c_grows_trans; [exact G|apply J]|]. cbn. intros x Hx Hlt. by apply H. Qed.

Lemma jumps_pre hs b w m m' i ts c c' : enters hs b w m m' → jumps isVoid i ts (Some b) c c' → plain fin b → reached c' b = true → pre hs c' m'.
Proof. intros En J Hp Hr. destruct (j_to _ _ _ _ _ _ J) as [H1 H2]. by eapply enters_pre. Qed.

Lemma check_ok cond c c' : compile isVoid isErrorCode (SCheck cond) c = inl (tt, c') → wf c → ok (SCheck cond) c c'.
Proof.
  intros H W. cbn in H. unfold checkErrorCode, currentScope in H. comp_step H. rename select (_ = inl (x, c0)) into Hs.
  change (c_scopeStack (create false c)) with (c_scopeStack c) in Hs. destruct (c_scopeStack c) as [|s l] eqn:Hst; comp_step Hs.
  set (n := c_blockCount c) in *. set (d1 := create false c) in *. assert (S1 : silent isVoid c d1) by (by apply silent_create). pose proof (q_silent _ _ _ S1) as G1.
  assert (W1 : wf d1) by apply G1. destruct (blank_new isVoid c false W) as [In _ _]. pose proof (plain_new isVoid false c W) as Pn. fold n d1 in In, Pn.
  assert (Et : top d1 = scope c s) by (unfold top; change (c_scopeStack d1) with (c_scopeStack c); by rewrite Hst). change (scope d1 s) with (scope c s) in H. rewrite <-Et in H.
  assert (Hcount : c_blockCount d1 = S n) by done.
  destruct (canStaticThrow isErrorCode (top d1)) eqn:Hcan; cbn [negb] in H; unfold canStaticThrow in Hcan; comp_step H;
    rename select (conditionalJump _ _ _ _ _ = _) into Hj || rename H into Hj.
  - rename select (throwException _ _ _ _ = _) into Ht. destruct x, x0. set (t := c_blockCount d1) in *. set (d2 := create false d1) in *.
    assert (S2 : silent isVoid c d2) by (eapply silent_trans; [done|by apply silent_create]). assert (W2 : wf d2) by apply (q_silent _ _ _ S2).
    destruct (blank_new isVoid d1 false W1) as [It _ _]. pose proof (plain_new isVoid false d1 W1) as Pt. fold t d2 in It, Pt.
    assert (In2 : idle d2 n) by (by apply idle_create).
    assert (J : jumps isVoid (ICondBr cond n t) [n; t] (Some t) d2 c0) by (apply (condition_jump_spec _ _ n t (Some t)); [done..|by apply idle_not_unreachable|by apply idle_not_unreachable|done]).
    assert (W0 : wf c0) by apply J. destruct (throwException_ok _ _ _ Ht W0) as (K & D & Hpost).
    assert (Gc : grows none c c0). { eapply grows_jumps; [apply S2|exact J|]. intros x Hx [ []|[= <-] ]. unfold t in Hx. lia. }
    assert (G : grows none c c1) by (eapply grows_trans0; [done|apply K]).
    assert (In00 : idle c0 n). { apply (g_idle _ _ _ _ (j_grows _ _ _ _ _ _ J)); [done|]. intros [= Htn]. unfold t in Htn. lia. }
    assert (In0 : idle c1 n) by apply (grows_idle _ _ _ _ (kp_grows _ _ _ K) In00).
    assert (Sc : same c c0) by (eapply c_same_trans; [|apply J]; done).
    split.
    { destruct K as [KG KO KS KV KF]. destruct Sc as [Sc1 Sc2 Sc3 Sc4]. split.
      - apply grows_current; [done|apply (i_count _ _ In0)|]. intros I. pose proof (i_count _ _ I). unfold n in *. lia.
      - apply empty_open, (i_code _ _ In0).
      - cbn. congruence.
      - intros y Hy. change (scope c1 y = scope c y). rewrite KV by lia. unfold scope. by rewrite Sc2.
      - cbn. congruence. }
    intros fuel k hs m o w X A Hp Hev. destruct fuel; [done|]. cbn in Hev. destruct (test cond (k_world m)) as [w1 v] eqn:Htest. injection Hev as <- <-.
    assert (X1 : ext c1 fin) by (eapply ext_trans; [apply ext_currentBlock, ext_refl|exact X]).
    assert (X0 : ext c0 fin) by (eapply ext_trans; [apply K|done]).
    destruct (cond_enters hs _ _ _ _ _ _ _ _ _ J W2 X0 (silent_pre _ _ _ _ S2 W Hp) Htest) as [Hr (m' & En)]. destruct v.
    + eapply post_normal_enters; [exact En|]. eapply enters_pre; [exact En|by eapply plain_ext; [exact Pn|]; eapply ext_trans; [apply ext_create, ext_refl|]; eapply ext_trans; [apply J|]|done|apply (i_code _ _ In0)|].
      apply (e_reach _ _ (g_ext _ _ _ _ (kp_grows _ _ _ K))); [apply (i_count _ _ In00)|done].
    + eapply enters_post; [exact En|]. rewrite <-(en_world _ _ _ _ _ En).
      apply (post_same hs c c0 c1 _ true); [by unfold throw_outcome; case_match|done|apply K|by eapply grows_count, K|apply ext_currentBlock, ext_refl|apply Sc| |by rewrite Hst|done|].
      * intros y _. by apply same_scope.
      * apply Hpost; [done| |].
        -- apply (around_kept isVoid fin hs k c c0); [|done|done|by rewrite Hst]. apply kept_intro; [done|done|by eapply jumps_open].
        -- eapply jumps_pre; [exact En|exact J| |done]. eapply plain_ext; [exact Pt|]. eapply ext_trans; [apply J|done].
  - rename select (getDynamicThrowBlock _ = _) into Hg. rename x into tb. destruct (getDynamicThrowBlock_quiet _ _ _ _ Hg W1) as [ [G2 B2 C2 S2 _] Hb].
    destruct (throwBlock_reached _ _ (g_wf _ _ _ _ G2) Hb) as [Hb1 Hb2].
    assert (Sd : silent isVoid c c0) by (eapply silent_trans; [exact S1|by split]).
    assert (In2 : idle c0 n) by (by apply (grows_idle _ _ _ _ G2)).
    assert (J : jumps isVoid (ICondBr cond n tb) [n; tb] (Some n) c0 c').
    { apply (condition_jump_spec _ _ n tb (Some n)); [done|apply G2|by apply idle_not_unreachable|done|done]. }
    assert (G : grows none c c'). { eapply grows_jumps; [apply Sd|exact J|]. intros x Hx [ []|[= <-] ]. unfold n in Hx. lia. }
    split. { apply kept_intro; [done|eapply c_same_trans; [|apply J]; eapply c_same_trans; [|exact S2]; done|by eapply jumps_open]. }
    intros fuel k hs m o w X A Hp Hev. destruct fuel; [done|]. cbn in Hev. destruct (test cond (k_world m)) as [w1 v] eqn:Htest. injection Hev as <- <-.
    destruct (cond_enters hs _ _ _ _ _ _ _ _ _ J (g_wf _ _ _ _ G2) X (silent_pre _ _ _ _ Sd W Hp) Htest) as [Hr (m' & En)]. destruct v.
    + eapply post_normal_enters; [exact En|]. eapply jumps_pre; [exact En|exact J| |done]. eapply plain_ext; [exact Pn|]. eapply ext_trans; [apply G2|]. eapply ext_trans; [apply J|done].
    + eapply enters_post; [exact En|]. pose proof (a_hasCatch _ _ _ _ A) as Hk. apply orb_false_iff in Hcan as [Hc1 Hc2]. rewrite Et in Hc1. unfold top in Hk. rewrite Hst in Hk. cbn in Hk. rewrite Hc1 in Hk. subst k.
      unfold throw_outcome. rewrite Hc2. cbn. rewrite <-(en_world _ _ _ _ _ En). eapply dynamic_throw; [|apply En..]. apply (e_throw _ _ X), (e_throw _ _ (g_ext _ _ _ _ (j_grows _ _ _ _ _ _ J))), Hb.
Qed.
End leaf.
