(* ===== verification/ControlFlowStmt.v ===== *)
(** * Control flow: sequences, conditions and loops

    Statements with statements in them, but for labels. *)

From S2P Require Import Prelude ControlFlow ControlFlowRun ControlFlowInv ControlFlowOps ControlFlowScope ControlFlowRoute ControlFlowSim ControlFlowLeaf.

Open Scope nat_scope.

#[local] Strategy 1000 [mbind Comp_bind mret Comp_ret].

Section stmt.
Context `{E : Effects} (isVoid isErrorCode : bool) (fin : CState) (Wfin : wf isVoid fin).

#[local] Abbreviation grows := (grows isVoid).
#[local] Abbreviation wf := (wf isVoid).
#[local] Abbreviation none := (λ _ : nat, False).
#[local] Abbreviation P := (finalizeFunction fin).
#[local] Abbreviation kept := (kept isVoid).
#[local] Abbreviation post := (post isVoid fin).
#[local] Abbreviation pre := (pre fin).
#[local] Abbreviation around := (around fin).
#[local] Abbreviation ok := (ok isVoid isErrorCode fin).

Definition good (s : stmt) : Prop := ∀ c c', compile isVoid isErrorCode s c = inl (tt, c') → wf c → open c → c_scopeStack c ≠ [] → c_scopeStack c ≠ [0] →
  m_catchFinallyFollowBlock c = None ∨ free s = true → ok s c c'.

Lemma post_after hs c c1 c' fr fr' m o w : wf c1 → wf c' → c_blockCount c1 ≤ c_blockCount c' → c_scopeStack c1 = c_scopeStack c →
  (∀ s, s ∈ c_scopeStack c → scope c1 s = scope c s) → c_scopeStack c ≠ [] → (fr' = true → fr = true) → post hs c1 c' fr m o w → post hs c c' fr' m o w.
Proof.
  intros W1 W2 Hle Hst Hs Hnil Hfr Hp. destruct o; try (eapply post_same; [..|exact Hp]; try done; apply ext_refl).
  inversion Hp; subst; [apply post_normal; auto|done].
Qed.

Lemma kept_stack_scopes c c' s : wf c → kept c c' → s ∈ c_scopeStack c → scope c' s = scope c s.
Proof. intros W K Hs. apply (kp_scopes _ _ _ K), (w_stack _ _ W), Hs. Qed.

Lemma is_normal o : o = ONormal ∨ o ≠ ONormal.
Proof. destruct o; [by left|by right..]. Qed.

Lemma seq_good s1 s2 : good s1 → good s2 → good (SSeq s1 s2).
Proof.
  intros IH1 IH2 c c' H W O Hn1 Hn2 Hf. cbn in H. comp_step H. rename select (compile _ _ s1 _ = _) into H1. destruct x.
  assert (Hf1 : m_catchFinallyFollowBlock c = None ∨ free s1 = true) by (destruct Hf as [Hf|Hf]; [by left|right; cbn in Hf; by apply andb_true_iff in Hf as [? ?] ]).
  destruct (IH1 _ _ H1 W O Hn1 Hn2 Hf1) as [K1 M1]. assert (W1 : wf c0) by apply K1. pose proof (kp_stack _ _ _ K1) as St1.
  destruct (IH2 _ _ H W1 (kp_open _ _ _ K1)) as [K2 M2]; [by rewrite St1..| |].
  { rewrite (kp_follow _ _ _ K1). destruct Hf as [Hf|Hf]; [by left|right; cbn in Hf; by apply andb_true_iff in Hf as [? ?] ]. }
  assert (W2 : wf c') by apply K2. pose proof (grows_count _ _ _ _ (kp_grows _ _ _ K2)) as Hle. split; [by eapply kept_trans|].
  intros fuel k hs m o w X A Hp Hev. destruct fuel as [|fuel]; [done|]. cbn in Hev. assert (X1 : ext c0 fin) by (eapply ext_trans; [apply K2|done]).
  destruct (eval isErrorCode fuel k s1 (k_world m)) as [ [o1 w1]|] eqn:He1; [|done]. cbn in Hev. pose proof (M1 _ _ _ _ _ _ X1 A Hp He1) as Hp1.
  assert (Hs : ∀ s, s ∈ c_scopeStack c → scope c0 s = scope c s) by (intros s; by apply kept_stack_scopes).
  destruct (is_normal o1) as [->|Hne].
  - inversion Hp1 as [m1 S1 Hp2 Hr1| | | |]; subst; [|done]. eapply (post_steps _ _ _ _ _ _ _ m1); [done|intros Hfr; apply Hr1; by apply andb_true_iff in Hfr as [? ?]|].
    eapply (post_after hs c c0); [done..|intros Hfr; by apply andb_true_iff in Hfr as [_ Hfr]|]. eapply M2; [done| |done|done]. by eapply around_kept.
  - assert ((o1, w1) = (o, w)) as [= -> ->] by (destruct o1; [done|by injection Hev as <- <-..]). apply (post_same _ _ _ c c c0 c' (free s1)); [done|done|done|by eapply grows_count, K1|apply K2|done|done|done| |done].
    intros Hfr. by apply andb_true_iff in Hfr as [? ?].
Qed.

(** ** Inner scopes *)

(** A scope without labels, maybe that of a loop. *)
Record inside (c d : CState) (sid : nat) : Prop := {
  in_stack : c_scopeStack d = sid :: c_scopeStack c;
  in_scopes s : s ∈ c_scopeStack c → scope d s = scope c s;
  in_new : sid ≠ 0 ∧ sid ∉ c_scopeStack c;
  in_frame : sc_frame (scope d sid) = sc_frame (top c);
  in_hasCatch : f_HasCatch (sc_flags (scope d sid)) = f_HasCatch (sc_flags (top c));
  in_finalizable : f_Finalizable (sc_flags (scope d sid)) = f_Finalizable (sc_flags (top c));
  in_catch : sc_catchBlock (scope d sid) = None;
  in_ahead : ahead d sid = None
}.

Lemma find_scope_same c d f l : (∀ s, s ∈ l → scope d s = scope c s) → ∀ n, find_scope d f n l = find_scope c f n l.
Proof.
  induction l as [|s l IH]; intros H n; [done|]. cbn. rewrite H by left. rewrite !IH by (intros x Hx; apply H; by right). done.
Qed.

Lemma fins_in c d t l : (∀ s, s ∈ l → scope d s = scope c s) → fins d t l = fins c t l.
Proof.
  induction l as [|s l IH]; intros H; [done|]. cbn. unfold ahead. rewrite H by left. rewrite !IH by (intros x Hx; apply H; by right). done.
Qed.

Lemma inside_around hs k c d sid : inside c d sid → around hs k c → around hs k d.
Proof.
  intros I [H1 H2 H3 H4]. assert (Et : top d = scope d sid) by (unfold top; by rewrite (in_stack _ _ _ I)). split; rewrite ?Et.
  - by rewrite (in_frame _ _ _ I).
  - done.
  - by rewrite (in_hasCatch _ _ _ I).
  - rewrite (in_stack _ _ _ I). cbn. rewrite (in_catch _ _ _ I). by rewrite (find_scope_same c d _ _ (in_scopes _ _ _ I)).
Qed.

Definition inner_outcome (isLoop : bool) (o : outcome) : outcome :=
  if isLoop then match o with OBreak n => OBreak (n - 1) | OContinue n => OContinue (n - 1) | o => o end else o.

(** A jump to the loop itself. *)
Definition caught (d : CState) (sid : nat) (o : outcome) (b : nat) : Prop :=
  ∃ n, n ≤ 1 ∧ ((o = OBreak n ∧ sc_breakBlock (scope d sid) = Some b) ∨ (o = OContinue n ∧ sc_continueBlock (scope d sid) = Some b)).

Lemma inside_target (isLoop : bool) c d c1 c' sid o t b : inside c d sid →
  (if isLoop then is_Some (sc_breakBlock (scope d sid)) ∧ is_Some (sc_continueBlock (scope d sid)) else sc_breakBlock (scope d sid) = None ∧ sc_continueBlock (scope d sid) = None) →
  ext c1 c' → target d c1 o t b →
  (t = sid ∧ caught d sid o b) ∨ (target c c' (inner_outcome isLoop o) t b ∧ fins d (Some t) (c_scopeStack d) = fins c (Some t) (c_scopeStack c) ∧
    (isLoop = true → loop_outcome o = Some (inner_outcome true o))).
Proof.
  intros I Hl X T. pose proof (in_stack _ _ _ I) as Hst. pose proof (in_scopes _ _ _ I) as Hs. destruct (in_new _ _ _ I) as [Hn0 Hnin].
  assert (Hfin : t ≠ sid → fins d (Some t) (c_scopeStack d) = fins c (Some t) (c_scopeStack c)).
  { intros Hne. rewrite Hst. cbn. rewrite decide_False by congruence. rewrite (in_ahead _ _ _ I). by apply fins_in. }
  assert (Hin : ∀ f n, find_scope c f n (c_scopeStack c) = Some t → t ≠ sid ∧ scope d t = scope c t).
  { intros f n (Hin & _)%find_scope_spec. split; [by intros ->|by apply Hs]. }
  assert (Hlevel : ∀ f n, find_scope d f n (c_scopeStack d) = Some t → (f (scope d sid) = None ∧ find_scope c f n (c_scopeStack c) = Some t) ∨
    (is_Some (f (scope d sid)) ∧ ((n ≤ 1 ∧ t = sid) ∨ (n <=? 1 = false ∧ find_scope c f (n - 1) (c_scopeStack c) = Some t)))).
  { intros f n H. rewrite Hst in H. cbn in H. destruct (f (scope d sid)); [right|left]; rewrite (find_scope_same c d _ _ Hs) in H; [|done]. split; [by eexists|].
    destruct (n <=? 1) eqn:Hle; [left|by right]. apply Nat.leb_le in Hle. by injection H as <-. }
  assert (Hlow : ∀ n, n <=? 1 = false → isLoop = true → loop_outcome (OBreak n) = Some (inner_outcome true (OBreak n)) ∧ loop_outcome (OContinue n) = Some (inner_outcome true (OContinue n))).
  { intros n Hn _. cbn. by rewrite Hn. }
  destruct o as [|n|n|v|]; cbn in T; [done|destruct T as [T Hb]..].
  - apply Hlevel in T as [ [Hnone T]|[Hsome [ [Hle ->]|[Hlv T] ] ] ].
    + destruct isLoop; [destruct Hl as [ [x Hx] _]; congruence|]. destruct (Hin _ _ T) as [Hne Es]. right. split; [split; [done|congruence]|split; [by apply Hfin|done] ].
    + left. split; [done|]. exists n. split; [done|by left].
    + destruct isLoop; [|destruct Hl as [Hx _]; rewrite Hx in Hsome; by destruct Hsome]. destruct (Hin _ _ T) as [Hne Es]. right.
      split; [split; [done|congruence]|split; [by apply Hfin|by apply Hlow] ].
  - apply Hlevel in T as [ [Hnone T]|[Hsome [ [Hle ->]|[Hlv T] ] ] ].
    + destruct isLoop; [destruct Hl as [_ [x Hx] ]; congruence|]. destruct (Hin _ _ T) as [Hne Es]. right. split; [split; [done|congruence]|split; [by apply Hfin|done] ].
    + left. split; [done|]. exists n. split; [done|by right].
    + destruct isLoop; [|destruct Hl as [_ Hx]; rewrite Hx in Hsome; by destruct Hsome]. destruct (Hin _ _ T) as [Hne Es]. right.
      split; [split; [done|congruence]|split; [by apply Hfin|by apply Hlow] ].
  - right. subst t. split; [|split; [by apply Hfin|done] ]. assert (m_returnBlock c' = Some b) by (by apply (e_return _ _ X)). by destruct isLoop.
  - apply Hlevel in T as [ [Hnone T]|[Hsome _] ]; [|rewrite (in_catch _ _ _ I) in Hsome; by destruct Hsome]. destruct (Hin _ _ T) as [Hne Es]. right.
    split; [|split; [by apply Hfin|done] ]. assert (sc_catchBlock (scope c t) = Some b) by congruence. by destruct isLoop.
Qed.

Lemma inner_outside isLoop o : outside o (inner_outcome isLoop o).
Proof. destruct isLoop; [|by left]. destruct o; cbn; [by left|right; left; by eexists|right; right; by eexists|by left|by left]. Qed.

(** The body of an inner scope is left: for the loop, or for what is outside. *)
Lemma post_inside (isLoop : bool) hs c d c1 c' sid fr fr' m o w : inside c d sid →
  (if isLoop then is_Some (sc_breakBlock (scope d sid)) ∧ is_Some (sc_continueBlock (scope d sid)) else sc_breakBlock (scope d sid) = None ∧ sc_continueBlock (scope d sid) = None) →
  wf d → wf c1 → c_blockCount d ≤ c_blockCount c1 → ext c1 c' → (fr' = true → fr = true) → o ≠ ONormal → post hs d c1 fr m o w →
  (∃ b m', caught d sid o b ∧ steps P m m' ∧ arrives isVoid fin hs c1 [] b o w m' ∧ (fr = true → same_regs m m')) ∨
  (post hs c c' fr' m (inner_outcome isLoop o) w ∧ (isLoop = true → loop_outcome o = Some (inner_outcome true o))).
Proof.
  intros I Hl Wd W1 Hle X Hfr Hne Hp.
  assert (Hout : (∀ t b, target d c1 o t b → target c c' (inner_outcome isLoop o) t b ∧ fins d (Some t) (c_scopeStack d) = fins c (Some t) (c_scopeStack c)) →
    post hs d c1 fr m o w → post hs c c' fr' m (inner_outcome isLoop o) w).
  { intros Ht. eapply (post_out isVoid fin hs c d c1 c' fr fr'); try done; [apply inner_outside|]. unfold top at 1. rewrite (in_stack _ _ _ I). cbn. by rewrite (in_finalizable _ _ _ I). }
  assert (Hlo : ∀ o, (o = OThrow ∨ ∃ v, o = OReturn v) → isLoop = true → loop_outcome o = Some (inner_outcome true o)) by (by intros ? [->|[v ->] ]).
  pose proof (λ t b, inside_target isLoop c d c1 c' sid o t b I Hl X) as Ht.
  destruct Hp as [m' S Hp Hr|o w' t b m' T S A Hr|v w' F En|h m' Hlast S Hc J|w' Hn En]; [done|..].
  - destruct (Ht t b T) as [ [-> Hc]|(T' & El & Hloop)].
    + left. assert (El : fins d (Some sid) (c_scopeStack d) = []) by (rewrite (in_stack _ _ _ I); cbn; by rewrite decide_True).
      rewrite El in A, Hr. exists b, m'. split; [done|]. split; [done|]. split; [done|]. intros Hf. apply Hr; [done|done|]. intros v ->. by destruct Hc as (n & _ & [ [ [=] _]|[ [=] _] ]).
    + right. split; [|done]. eapply post_leaves; [exact T'|done| |].
      * rewrite <-El. eapply arrives_ext; [done|done| |by apply outside_saved, inner_outside]. intros x. rewrite elem_of_app, list_elem_of_singleton.
        intros [Hx|Hx]; [|subst; by apply (target_count isVoid _ _ _ _ _ Wd W1 Hle T)]. destruct (w_ahead _ _ Wd x); [by apply (fins_ahead _ (Some t))|lia].
      * rewrite <-El. intros H1 H2 H3. apply Hr; [by apply Hfr|done|]. intros v ->. apply (H3 v). by destruct isLoop.
  - right. split; [|apply Hlo; right; by eexists]. apply Hout; [|by apply post_returns]. intros t b T. destruct (Ht t b T) as [ [_ Hct]|(? & ? & _)]; [|done]. by destruct Hct as (n & _ & [ [ [=] _]|[ [=] _] ]).
  - right. split; [|apply Hlo; by left]. apply Hout; [|by eapply post_throws]. intros t b T. destruct (Ht t b T) as [ [_ Hct]|(? & ? & _)]; [|done]. by destruct Hct as (n & _ & [ [ [=] _]|[ [=] _] ]).
  - right. split; [|apply Hlo; by left]. apply Hout; [|by apply post_thrown]. intros t b T. destruct (Ht t b T) as [ [_ Hct]|(? & ? & _)]; [|done]. by destruct Hct as (n & _ & [ [ [=] _]|[ [=] _] ]).
Qed.

(** ** Opening and closing *)

(** The scopes of a statement are the same after it. *)
Record held (X : nat → Prop) (c c' : CState) : Prop := {
  h_grows : grows X c c';
  h_stack : c_scopeStack c' = c_scopeStack c;
  h_scopes s : s < c_scopeCount c → scope c' s = scope c s;
  h_follow : m_catchFinallyFollowBlock c' = m_catchFinallyFollowBlock c
}.

Lemma held_kept c c' : held none c c' → open c' → kept c c'.
Proof. intros [G S V F] O. by split. Qed.

Lemma kept_held c c' : kept c c' → held none c c'.
Proof. intros [G O S V F]. by split. Qed.

Lemma held_same X c c' : grows X c c' → same c c' → held X c c'.
Proof. intros G S. split; [done|apply S|intros s _; by apply same_scope|apply S]. Qed.

Lemma held_trans X Y Z c1 c2 c3 : held X c1 c2 → held Y c2 c3 → (∀ x, x < c_blockCount c1 → X x ∨ Y x → Z x) → held Z c1 c3.
Proof.
  intros [G1 S1 V1 F1] [G2 S2 V2 F2] H. pose proof (e_scount _ _ (g_ext _ _ _ _ G1)). split; [|congruence| |congruence].
  - eapply grows_weaken; [by eapply c_grows_trans|]. cbn. auto.
  - intros s Hs. rewrite V2, V1; [done|done|lia].
Qed.

Lemma closeScope_pop c c' s rest : closeScope isVoid c = inl (tt, c') → c_scopeStack c = s :: rest →
  f_Try (sc_flags (scope c s)) = false → f_Catch (sc_flags (scope c s)) = false → f_Finally (sc_flags (scope c s)) = false → c' = pop c.
Proof.
  intros H Hst H1 H2 H3. unfold closeScope in H. comp_step H. rewrite Hst in *. simplify_eq/=. rewrite H1 in H. cbn [andb] in H.
  unfold close_labeled in H. comp_step H. rewrite Hst in *. simplify_eq/=. rename select (_ c = inl (_, c0)) into Hf.
  rewrite H2, H3 in Hf. cbn [andb] in Hf. by comp_step Hf.
Qed.

Lemma opened_flags_plain c : c_scopeStack c ≠ [] →
  let f := opened_flags no_flags c in
  f_Try f = false ∧ f_Catch f = false ∧ f_Finally f = false ∧ f_FinallyAhead f = false ∧
  f_HasCatch f = f_HasCatch (sc_flags (top c)) ∧ f_Finalizable f = f_Finalizable (sc_flags (top c)).
Proof.
  intros Hst. unfold opened_flags, child, top. destruct (c_scopeStack c) as [|s l]; [done|]. cbn. destruct (decide _); cbn; rewrite !orb_false_r; done.
Qed.

Lemma child_frame c : c_scopeStack c ≠ [] → sc_frame (child c) = sc_frame (top c).
Proof. unfold child, top. by destruct (c_scopeStack c). Qed.

Lemma opened_inside c : wf c → c_scopeStack c ≠ [] → inside c (opened no_flags c) (c_scopeCount c).
Proof.
  intros W Hst. destruct (opened_flags_plain c Hst) as (H1 & H2 & H3 & H4 & H5 & H6).
  split; rewrite ?opened_scope; try done.
  - intros s Hs. by apply opened_other, (w_stack _ _ W).
  - split; [|intros Hin; pose proof (w_stack _ _ W _ Hin); lia]. destruct (c_scopeStack c) as [|s l] eqn:E'; [done|]. pose proof (w_stack _ _ W s) as Hlt. rewrite E' in Hlt. specialize (Hlt ltac:(left)). lia.
  - by apply child_frame.
  - unfold ahead. rewrite opened_scope. unfold scope_ahead. cbn [sc_flags new_scope]. by rewrite H4.
Qed.

Lemma same_pre hs c c' m : c_blocks c' = c_blocks c → m_currentBlock c' = m_currentBlock c → pre hs c m → pre hs c' m.
Proof. intros Hb Hc [H1 H2 H3 H4]. split; [unfold at_end in *|unfold reachable in *|..]; unfold blk in *; by rewrite ?Hc, ?Hb. Qed.

(** A statement in a scope of its own. *)
Lemma inner_ok s c c1 c2 : good s → wf c → open c → c_scopeStack c ≠ [] → m_catchFinallyFollowBlock c = None ∨ free s = true →
  compile isVoid isErrorCode s (opened no_flags c) = inl (tt, c1) → closeScope isVoid c1 = inl (tt, c2) → ok s c c2.
Proof.
  intros IH W O Hst Hf H Hclose. set (d := opened no_flags c) in *. set (sid := c_scopeCount c). pose proof (opened_inside c W Hst) as I. fold d sid in I.
  pose proof (opened_silent isVoid no_flags c W) as Sd. fold d in Sd. assert (Wd : wf d) by apply (q_silent _ _ _ Sd). pose proof (in_stack _ _ _ I) as Hstd.
  assert (Hb : blk d (m_currentBlock d) = blk c (m_currentBlock c)) by (rewrite (q_here _ _ _ Sd), (q_blocks _ _ _ Sd); [done|apply (w_current _ _ W)]).
  destruct (IH d c1 H Wd) as [K M].
  { intros Hr. unfold reachable in Hr. rewrite Hb in *. by apply O. }
  { by rewrite Hstd. }
  { rewrite Hstd. by destruct (c_scopeStack c). }
  { done. }
  assert (W1 : wf c1) by apply K. pose proof (kp_stack _ _ _ K) as Hst1. rewrite Hstd in Hst1.
  assert (Es : scope c1 sid = new_scope (opened_flags no_flags c) (sc_frame (child c))).
  { rewrite (kp_scopes _ _ _ K); [apply opened_scope|]. cbn. unfold sid. lia. }
  destruct (opened_flags_plain c Hst) as (F1 & F2 & F3 & _).
  assert (c2 = pop c1) as -> by (eapply closeScope_pop; [done|done|by rewrite Es..]).
  assert (G : grows none c (pop c1)) by (apply grows_pop; eapply grows_trans0; [apply Sd|apply K]).
  split.
  - split; [done|apply (kp_open _ _ _ K)|cbn; by rewrite Hst1| |].
    + intros x Hx. change (scope c1 x = scope c x). rewrite (kp_scopes _ _ _ K) by (cbn; lia). by apply opened_other.
    + exact (kp_follow _ _ _ K).
  - intros fuel k hs m o w X A Hp Hev. assert (X1 : ext c1 fin) by (eapply ext_trans; [apply ext_pop, ext_refl|done]).
    pose proof (M fuel k hs m o w X1 (inside_around _ _ _ _ _ I A) (silent_pre _ _ _ _ _ _ Sd W Hp) Hev) as Hpost.
    destruct (is_normal o) as [->|Hne].
    + inversion Hpost; subst; [|done]. apply post_normal; [done| |done]. by eapply same_pre; [..|done].
    + destruct (post_inside false hs c d c1 (pop c1) sid (free s) (free s) m o w) as [ (b & m' & (n & _ & [ [_ Hc]|[_ Hc] ]) & _)|[Hq _] ]; try done; [|by apply K|apply ext_pop, ext_refl|..].
      * unfold d. by rewrite opened_scope.
      * unfold d in Hc. by rewrite opened_scope in Hc.
      * unfold d in Hc. by rewrite opened_scope in Hc.
Qed.

(** ** Conditions *)

Lemma follow_pre hs b c c' m : follow b c = inl (tt, c') → wf c → open c → idle c b → ext c' fin → plain fin b → pre hs c m →
  ∃ m', enters fin hs b (k_world m) m m' ∧ pre hs c' m'.
Proof.
  intros H W O I X Hp Hpre. destruct (follow_spec isVoid _ _ _ H W I) as (_ & _ & Hc & Hcode & _ & _ & J). specialize (J (O (pr_reach _ _ _ _ Hpre))).
  destruct (br_enters isVoid fin hs _ _ _ _ _ J W X Hpre) as [Hr (m' & En)]. exists m'. split; [done|]. by eapply enters_pre.
Qed.

Lemma follow_held b c c' : follow b c = inl (tt, c') → wf c → idle c b → held (λ x, x = b) c c' ∧ open c' ∧ m_currentBlock c' = b ∧ code c' b = [].
Proof. intros H W I. destruct (follow_spec isVoid _ _ _ H W I) as (G & S & Hc & Hcode & O & _). split; [by apply held_same|done]. Qed.

Lemma post_normal_inv hs c c' fr m w : post hs c c' fr m ONormal w → ∃ m', steps P m m' ∧ pre hs c' m' ∧ (fr = true → same_regs m m') ∧ k_world m' = w.
Proof. intros Hp. inversion Hp; subst; [by eexists|done]. Qed.

Lemma post_normal_trans hs c c0 c1 c' fr fr' b m w : post hs c0 c1 fr m ONormal w → (fr' = true → fr = true) →
  (∀ m', steps P m m' → pre hs c1 m' → k_world m' = w → ∃ m'', enters fin hs b w m' m'' ∧ pre hs c' m'') → post hs c c' fr' m ONormal w.
Proof.
  intros (m' & S & Hp & Hr & Hw)%post_normal_inv Hfr H. destruct (H m' S Hp Hw) as (m'' & En & Hp'). eapply post_steps; [exact S|intros; by apply Hr, Hfr|].
  by eapply post_normal_enters.
Qed.

Lemma held_post_same hs c c0 c1 c' fr fr' m o w X : held X c c0 → wf c → wf c0 → wf c1 → c_blockCount c0 ≤ c_blockCount c1 → ext c1 c' → c_scopeStack c ≠ [] → (fr' = true → fr = true) →
  o ≠ ONormal → post hs c0 c1 fr m o w → post hs c c' fr' m o w.
Proof.
  intros Hh W W0 W1 Hle Xt Hst Hfr Hne. apply post_same; try done; [apply Hh|]. intros s Hs. apply (h_scopes _ _ _ Hh), (w_stack _ _ W), Hs.
Qed.

Lemma held_around hs k X c c' : held X c c' → around hs k c → wf c → c_scopeStack c ≠ [] → around hs k c'.
Proof.
  intros [G S V F] [H1 H2 H3 H4] W Hne. assert (Hs : ∀ s, s ∈ c_scopeStack c → scope c' s = scope c s) by (intros s Hs; by apply V, (w_stack _ _ W)).
  assert (Ht : top c' = top c). { unfold top. rewrite S. apply Hs. destruct (c_scopeStack c); [done|left]. }
  split; rewrite ?Ht; try done. by rewrite S, (find_scope_same c c' _ _ Hs).
Qed.

(** The condition, and the part that is done when it holds. *)
Record branch (cond t e : nat) (s : stmt) (c c0 c2 : CState) : Prop := {
  br_ok : ok s c0 c2;
  br_held : held none c c0;
  br_here : m_currentBlock c0 = t ∧ code c0 t = [];
  br_test hs m w v : ext c0 fin → pre hs c m → test cond (k_world m) = (w, v) → reached c0 (if v then t else e) = true ∧ ∃ m', enters fin hs (if v then t else e) w m m';
  br_then : plain c0 t;
  br_else : plain c0 e ∧ idle c0 e;
  br_new : c_blockCount c ≤ t ∧ c_blockCount c ≤ e
}.

Lemma branch_intro cond s c c0 c1 c2 : good s → wf c → c_scopeStack c ≠ [] → m_catchFinallyFollowBlock c = None ∨ free s = true →
  let t := c_blockCount c in let e := S t in conditionalJump cond t e None (create false (create false c)) = inl (tt, c0) →
  compile isVoid isErrorCode s (opened no_flags c0) = inl (tt, c1) → closeScope isVoid c1 = inl (tt, c2) → branch cond t e s c c0 c2.
Proof.
  intros IH W Hst Hf t e Hj Hs Hc. set (d1 := create false c) in *. set (d2 := create false d1) in *.
  assert (W1 : wf d1) by (by apply wf_create). assert (W2 : wf d2) by (by apply wf_create).
  assert (S2 : silent isVoid c d2) by (eapply silent_trans; by apply silent_create).
  assert (It : idle d2 t) by (apply idle_create; by destruct (blank_new isVoid c false W)). assert (Ie : idle d2 e) by (by destruct (blank_new isVoid d1 false W1)).
  assert (Pt : plain d2 t) by (eapply plain_ext; [apply (plain_new isVoid false c W)|apply ext_create, ext_refl]). pose proof (plain_new isVoid false d1 W1) as Pe. change (plain d2 e) in Pe.
  assert (J : jumps isVoid (ICondBr cond t e) [t; e] (Some t) d2 c0) by (apply (condition_jump_spec _ _ t e None); [done..|by apply idle_not_unreachable|by apply idle_not_unreachable|done]).
  assert (H0 : held none c c0).
  { apply held_same; [|eapply c_same_trans; [|apply J]; done]. eapply grows_jumps; [apply S2|exact J|]. intros x Hx [ []|[= <-] ]. unfold t in Hx. lia. }
  assert (W0 : wf c0) by apply J. destruct (j_to _ _ _ _ _ _ J) as [Ht1 Ht2].
  assert (Ie0 : idle c0 e). { apply (g_idle _ _ _ _ (j_grows _ _ _ _ _ _ J) e Ie). intros [= Hte]. unfold e in Hte. lia. }
  split; try done.
  - eapply inner_ok; try done; [by eapply jumps_open|by rewrite (h_stack _ _ _ H0)|by rewrite (h_follow _ _ _ H0)].
  - intros hs m w v X Hp Ht. eapply cond_enters; [exact J|done|done|by eapply silent_pre|done].
  - by eapply plain_ext, J.
  - split; [by eapply plain_ext, J|done].
  - unfold e. lia.
Qed.

Lemma if_then_good cond s1 : good s1 → good (SIf cond s1 None).
Proof.
  intros IH1 c c' H W O Hst Hst0 Hf. cbn in H. unfold ifStmt_Create, ifStmt_Condition, ifStmt_Follow in H. comp_step H.
  rename select (conditionalJump _ _ _ _ _ = _) into Hj. rename select (openScope _ _ = _) into Ho. apply openScope_plain_inv in Ho as [-> ->]; [|done..].
  rename select (compile _ _ s1 _ = _) into Hs1. rename select (closeScope _ _ = _) into Hclose. cbn [if_thenBlock if_elseBlock if_followBlock] in *.
  rename c0 into d0. rename c1 into c0, d0 into c1, c3 into c2. destruct x, x0, x2.
  assert (Hf1 : m_catchFinallyFollowBlock c = None ∨ free s1 = true) by (destruct Hf as [Hf|Hf]; [by left|right; cbn in Hf; by apply andb_true_iff in Hf as [? ?] ]).
  destruct (branch_intro cond s1 c c0 c1 c2 IH1 W Hst Hf1 Hj Hs1 Hclose) as [ [K M] H0 [Hh1 Hh2] Ht Pt [Pe Ie] Hnew]. set (e := S (c_blockCount c)) in *. change (c_blockCount (create false c)) with e in H.
  assert (W0 : wf c0) by apply H0. assert (W2 : wf c2) by apply K. assert (Ie2 : idle c2 e) by apply (grows_idle _ _ _ _ (kp_grows _ _ _ K) Ie).
  destruct (follow_held _ _ _ H W2 Ie2) as (H2 & O' & Hc1 & Hc2).
  split.
  { apply held_kept; [|done]. eapply held_trans; [exact H0|eapply held_trans; [by apply kept_held|exact H2|]|]; cbn; [by intros x _ [ []|Hx]; exact Hx|]. intros x Hx [ []|Hxe]. lia. }
  intros fuel k hs m o w X A Hp Hev. destruct fuel as [|fuel]; [done|]. cbn in Hev. destruct (test cond (k_world m)) as [w1 v] eqn:Htest.
  assert (X2 : ext c2 fin) by (eapply ext_trans; [apply H2|done]). assert (X0 : ext c0 fin) by (eapply ext_trans; [apply K|done]).
  destruct (Ht hs m w1 v X0 Hp Htest) as [Hr (m' & En)]. assert (Pf : plain fin e) by (by eapply plain_ext). destruct v.
  - eapply enters_post; [exact En|]. assert (Hp1 : pre hs c0 m') by (eapply enters_pre; [exact En|by eapply plain_ext|done..]). rewrite <-(en_world _ _ _ _ _ _ En) in Hev.
    pose proof (M fuel k hs m' o w X2 (held_around _ _ _ _ _ H0 A W Hst) Hp1 Hev) as Hpost. destruct (is_normal o) as [->|Hne].
    + eapply post_normal_trans; [exact Hpost|by cbn; rewrite andb_true_r|]. intros m1 _ Hp2 <-. apply (follow_pre hs e c2 c'); try done. apply K.
    + eapply (held_post_same hs c c0 c2 c' (free s1)); try done; [by eapply grows_count, K|apply H2|by cbn; rewrite andb_true_r].
  - injection Hev as <- <-. eapply post_normal_enters; [exact En|]. eapply enters_pre; [exact En|done..|].
    apply (e_reach _ _ (g_ext _ _ _ _ (h_grows _ _ _ H2))); [apply (i_count _ _ Ie2)|]. apply (e_reach _ _ (g_ext _ _ _ _ (kp_grows _ _ _ K))); [apply (i_count _ _ Ie)|done].
Qed.

Lemma held_create X c c1 : wf c → held X c c1 → held X c (create false c1).
Proof. intros W [G S V F]. split; [by apply grows_create|done..]. Qed.

Lemma if_else_good cond s1 s2 : good s1 → good s2 → good (SIf cond s1 (Some s2)).
Proof.
  intros IH1 IH2 c c' H W O Hst Hst0 Hf. cbn in H. unfold ifStmt_Create, ifStmt_Condition, ifStmt_Follow, ifStmt_Else in H. comp_step H.
  apply openScope_plain_inv in H2 as [-> ->]; [|done..]. apply openScope_plain_inv in H7 as [-> ->]; [|done..]. cbn [if_thenBlock if_elseBlock if_followBlock] in *.
  destruct x, x0, x2, x3, x4, x5. rename c1 into e0, c0 into e1, c5 into e2, c6 into e3, c4 into e4, c3 into e5.
  rename H1 into Hj, H0 into Hs1, H5 into Hc1, H6 into Hjump, H4 into Hs2, H3 into Hc2.
  assert (Hf12 : (m_catchFinallyFollowBlock c = None ∨ free s1 = true) ∧ (m_catchFinallyFollowBlock c = None ∨ free s2 = true)).
  { destruct Hf as [Hf|Hf]; [by split; left|cbn in Hf; apply andb_true_iff in Hf as [? ?]; by split; right]. }
  destruct Hf12 as [Hf1 Hf2].
  destruct (branch_intro cond s1 c e0 e1 e2 IH1 W Hst Hf1 Hj Hs1 Hc1) as [ [K M] H0 [Hh1 Hh2] Ht Pt [Pe Ie] Hnew]. set (e := S (c_blockCount c)) in *. change (c_blockCount (create false c)) with e in *.
  assert (W0 : wf e0) by apply H0. assert (W2 : wf e2) by apply K. assert (Ie2 : idle e2 e) by apply (grows_idle _ _ _ _ (kp_grows _ _ _ K) Ie).
  set (f := c_blockCount e2) in *. set (d3 := create false e2) in *. assert (W3 : wf d3) by (by apply wf_create). destruct (blank_new isVoid e2 false W2) as [If _ _].
  pose proof (plain_new isVoid false e2 W2) as Pf. fold f d3 in If, Pf. pose proof (i_count _ _ Ie2) as Hef. fold f in Hef.
  assert (J : jumps isVoid (IBr f) [f] (Some e) d3 e3).
  { apply jump_spec; [done|done|apply (i_count _ _ If)|by apply idle_not_unreachable|]. intros x [= <-]. by apply idle_create. }
  assert (W3' : wf e3) by apply J. destruct (j_to _ _ _ _ _ _ J) as [Hc3 Hcode3].
  assert (H02 : held none c e2) by (eapply held_trans; [exact H0|by apply kept_held|]; by intros x _ [ []|[] ]).
  assert (H3 : held none c e3).
  { assert (Hd : held none c d3) by (by apply held_create). eapply held_trans; [exact Hd|apply held_same; [apply J|apply J]|]. intros x Hx [ []|[= <-] ]. lia. }
  assert (Hok2 : ok s2 e3 e5).
  { eapply inner_ok; try done; [by eapply jumps_open|by rewrite (h_stack _ _ _ H3)|by rewrite (h_follow _ _ _ H3)]. }
  destruct Hok2 as [K2 M2]. assert (W5 : wf e5) by apply K2.
  assert (If3 : idle e3 f). { apply (g_idle _ _ _ _ (j_grows _ _ _ _ _ _ J)); [done|]. intros [= Hfe]. lia. }
  assert (If5 : idle e5 f) by apply (grows_idle _ _ _ _ (kp_grows _ _ _ K2) If3).
  destruct (follow_held _ _ _ H W5 If5) as (H5 & O' & Hc5 & Hcode5). assert (Hcf : c_blockCount c ≤ f) by (unfold f; eapply grows_count, H02).
  split.
  { apply held_kept; [|done]. eapply held_trans; [exact H3|eapply held_trans; [by apply kept_held|exact H5|]|]; cbn; [by intros x _ [ []|Hx]; exact Hx|]. intros x Hx [ []|Hxe]. lia. }
  intros fuel k hs m o w X A Hp Hev. destruct fuel as [|fuel]; [done|]. cbn in Hev. destruct (test cond (k_world m)) as [w1 v] eqn:Htest.
  assert (X5 : ext e5 fin) by (eapply ext_trans; [apply H5|done]). assert (X3 : ext e3 fin) by (eapply ext_trans; [apply K2|done]).
  assert (Xd : ext d3 fin) by (eapply ext_trans; [apply J|done]). assert (X2 : ext e2 fin) by (eapply ext_trans; [apply ext_create, ext_refl|exact Xd]).
  assert (X0 : ext e0 fin) by (eapply ext_trans; [apply K|done]).
  destruct (Ht hs m w1 v X0 Hp Htest) as [Hr (m' & En)]. eapply enters_post; [exact En|]. rewrite <-(en_world _ _ _ _ _ _ En) in Hev.
  destruct v.
  - assert (Hp1 : pre hs e0 m') by (eapply enters_pre; [exact En|by eapply plain_ext|done..]).
    pose proof (M fuel k hs m' o w X2 (held_around _ _ _ _ _ H0 A W Hst) Hp1 Hev) as Hpost. destruct (is_normal o) as [->|Hne].
    + eapply post_normal_trans; [exact Hpost|by cbn; intros [? ?]%andb_true_iff|]. intros m1 _ Hp2 <-.
      destruct (br_enters isVoid fin hs _ _ _ _ _ J W3 X3 (silent_pre _ _ _ _ _ _ (silent_create _ _ _ W2) W2 Hp2)) as [Hr2 (m2 & En2)].
      exists m2. split; [done|]. eapply enters_pre; [exact En2|by eapply plain_ext|done..|].
      apply (e_reach _ _ (g_ext _ _ _ _ (h_grows _ _ _ H5))); [apply (i_count _ _ If5)|]. apply (e_reach _ _ (g_ext _ _ _ _ (kp_grows _ _ _ K2))); [apply (i_count _ _ If3)|done].
    + eapply (held_post_same hs c e0 e2 c' (free s1)); try done; [by eapply grows_count, K| |by cbn; intros [? ?]%andb_true_iff].
      eapply ext_trans; [apply ext_create, ext_refl|]. eapply ext_trans; [apply J|]. eapply ext_trans; [apply K2|apply H5].
  - assert (Hre : reached e3 e = true).
    { apply (e_reach _ _ (g_ext _ _ _ _ (j_grows _ _ _ _ _ _ J))); [cbn; lia|]. unfold d3. rewrite blk_create, decide_False by (unfold f in Hef; lia).
      apply (e_reach _ _ (g_ext _ _ _ _ (kp_grows _ _ _ K))); [apply (i_count _ _ Ie)|done]. }
    assert (Hp1 : pre hs e3 m') by (eapply enters_pre; [exact En|by eapply plain_ext|done..]).
    pose proof (M2 fuel k hs m' o w X5 (held_around _ _ _ _ _ H3 A W Hst) Hp1 Hev) as Hpost. destruct (is_normal o) as [->|Hne].
    + eapply post_normal_trans; [exact Hpost|by cbn; intros [? ?]%andb_true_iff|]. intros m1 _ Hp2 <-. apply (follow_pre hs f e5 c'); try done; [apply K2|by eapply plain_ext].
    + eapply (held_post_same hs c e3 e5 c' (free s2)); try done; [by eapply grows_count, K2|apply H5|by cbn; intros [? ?]%andb_true_iff].
Qed.
End stmt.
