(* ===== verification/ControlFlowLoop.v ===== *)
(** * Control flow: loops

    The scope of a loop, its landing pads, and [while] and [do]. *)

From S2P Require Import Prelude ControlFlow ControlFlowRun ControlFlowInv ControlFlowOps ControlFlowScope ControlFlowRoute ControlFlowSim ControlFlowLeaf ControlFlowStmt.

Open Scope nat_scope.

#[local] Strategy 1000 [mbind Comp_bind mret Comp_ret].

Section loop.
Context `{E : Effects} (isVoid isErrorCode : bool) (fin : CState) (Wfin : wf isVoid fin).

#[local] Abbreviation grows := (grows isVoid).
#[local] Abbreviation wf := (wf isVoid).
#[local] Abbreviation none := (λ _ : nat, False).
#[local] Abbreviation P := (finalizeFunction fin).
#[local] Abbreviation fa := (m_sjljFrameArrayValue fin).
#[local] Abbreviation kept := (kept isVoid).
#[local] Abbreviation held := (held isVoid).
#[local] Abbreviation post := (post isVoid fin).
#[local] Abbreviation pre := (pre fin).
#[local] Abbreviation around := (around fin).
#[local] Abbreviation ok := (ok isVoid isErrorCode fin).
#[local] Abbreviation good := (good isVoid isErrorCode fin).

(** ** Landing pads *)

(** A block that may be a landing pad is entered: the frame is the one of its scope. *)
Lemma landed hs b s m : k_code m = code_of P b → (landing fin b = None → k_frame m = frame_of hs) →
  landing fin b = None ∨ landing fin b = Some s → sc_frame (scope fin s) = frame_of hs → hs = [] ∨ fa = true → frame_ok fin m → jmp_ok hs m →
  ∃ m', steps P m m' ∧ k_code m' = code fin b ∧ k_frame m' = frame_of hs ∧ k_world m' = k_world m ∧ same_regs m m' ∧ jmp_ok hs m'.
Proof.
  intros Hc Hf Hl Hs Hfa Hok J. rewrite code_of_fin in Hc. unfold landing_code in Hc. destruct Hl as [Hl|Hl]; rewrite Hl in Hc.
  - exists m. split; [apply rtc_refl|]. by split_and!; auto.
  - destruct fa eqn:Ea.
    + exists (set_frame (frame_of hs) (set_code (code fin b) m)). split; [|done]. apply steps_one. unfold step. rewrite Hc. cbn. by rewrite Hs.
    + exists m. split; [apply rtc_refl|]. destruct Hfa as [->|Hfa]; [|done]. split_and!; try done. by apply Hok.
Qed.

Lemma static_frame s s' : static s' = static s → sc_frame s' = sc_frame s.
Proof. unfold static. by intros [= _ _ _ _ -> _ _ _]. Qed.

(** ** The scope of a loop *)

Record loop_open (cs c e : CState) (sid fb cb : nat) : Prop := {
  lo_grows : grows none cs e;
  lo_scopes s : s < c_scopeCount cs → scope e s = scope cs s;
  lo_follow : m_catchFinallyFollowBlock e = m_catchFinallyFollowBlock cs;
  lo_blk x : blk e x = blk c x;
  lo_here : m_currentBlock e = m_currentBlock c ∧ c_blockCount e = c_blockCount c;
  lo_inside : inside cs e sid;
  lo_loop : sc_breakBlock (scope e sid) = Some fb ∧ sc_continueBlock (scope e sid) = Some cb;
  lo_flags : f_Try (sc_flags (scope e sid)) = false ∧ f_Catch (sc_flags (scope e sid)) = false ∧ f_Finally (sc_flags (scope e sid)) = false;
  lo_ahead : fb ∉ all_ahead e ∧ cb ∉ all_ahead e;
  lo_sid : c_scopeCount cs ≤ sid < c_scopeCount e;
  lo_plain x : plain c x → x ≠ fb → x ≠ cb → plain e x
}.

Lemma loop_opened X cs c fb cb : wf cs → held X cs c → (∀ x, X x → c_blockCount cs ≤ x) → c_scopeStack cs ≠ [] → c_blockCount cs ≤ fb → c_blockCount cs ≤ cb → plain c fb → plain c cb → ¬ special c fb → ¬ special c cb →
  loop_open cs c (upd_scp (c_scopeCount c) (sc_set_loop (Some fb) (Some cb)) (opened no_flags c)) (c_scopeCount c) fb cb.
Proof.
  intros Ws [G S V F] HX Hst Hfb Hcb Pf Pc Sf Sc. set (sid := c_scopeCount c). set (o := opened no_flags c). set (e := upd_scp _ _ o).
  assert (W : wf c) by apply G. pose proof (opened_silent isVoid no_flags c W) as So. fold o in So. pose proof (q_silent _ _ _ So) as Go. assert (Hst' : c_scopeStack c ≠ []) by (by rewrite S).
  destruct (opened_flags_plain c Hst') as (F1 & F2 & F3 & F4 & F5 & F6). pose proof (opened_scope no_flags c) as Es. fold o sid in Es.
  assert (Pf' : plain o fb) by (by eapply plain_ext, Go). assert (Pc' : plain o cb) by (by eapply plain_ext, Go).
  assert (G1 : grows none cs o). { eapply grows_weaken; [eapply c_grows_trans; [exact G|exact Go]|]. intros x [Hx|[] ] Hlt. pose proof (HX x Hx). lia. }
  pose proof (e_scount _ _ (g_ext _ _ _ _ G)) as Hsc.
  assert (Ee : scope e sid = mkScope (opened_flags no_flags c) (Some fb) (Some cb) None None (sc_frame (child c))) by (unfold e; rewrite scope_upd, decide_True, Es; done).
  assert (Hall : ∀ b, b ∈ all_ahead e → b ∈ all_ahead o).
  { intros b (s & Hs & Ha)%elem_all_ahead. apply elem_all_ahead. exists s. split; [done|]. unfold e in Ha. rewrite scope_upd in Ha. destruct (decide _) as [<-|]; [|done].
    fold sid in Ha |- *. rewrite Es in Ha |- *. done. }
  pose proof (opened_inside isVoid c W Hst') as I. fold o sid in I. assert (Et : top c = top cs). { unfold top. rewrite S. apply V. destruct (c_scopeStack cs) eqn:E'; [done|]. apply (w_stack _ _ Ws). rewrite E'. left. }
  split.
  - eapply grows_upd_scp; [exact G1|done|done| | | |].
    + rewrite Es. intros b [H|[H|H] ]; cbn in H; [right|right|done]; injection H as <-; (split; [done|by apply plain_free]).
    + rewrite Es. intros b Hb. by destruct Hb as [|[] ].
    + left. rewrite Es. done.
    + rewrite Es. unfold scope_ahead. cbn [sc_set_loop sc_flags sc_finallyBlock]. by destruct (f_FinallyAhead _).
  - intros s Hs. unfold e. rewrite scope_upd, decide_False by lia. unfold o. rewrite opened_other by lia. by apply V.
  - exact F.
  - done.
  - done.
  - destruct I as [I1 I2 I3 I4 I5 I6 I7 I8]. rewrite Es in *. split; rewrite ?Ee; rewrite <-?S; try done.
    + intros s Hs. unfold e. rewrite scope_upd, decide_False by (intros <-; by apply I3). rewrite I2 by done. apply V, (w_stack _ _ Ws). by rewrite <-S.
    + by rewrite <-Et.
    + by rewrite <-Et.
    + by rewrite <-Et.
    + unfold ahead, scope_ahead. rewrite Ee. cbn [sc_flags]. by rewrite F4.
  - by rewrite Ee.
  - by rewrite Ee.
  - split; intros H%Hall; [apply (p_pending _ _ Pf')|apply (p_pending _ _ Pc')]; by right.
  - unfold sid. cbn. lia.
  - intros x Px Hxf Hxc. assert (Po : plain o x) by (by eapply plain_ext, Go). split; [apply Po|apply Po|]. intros [ [s Hs]|Ha]; [|apply (p_pending _ _ Po); right; by apply Hall].
    destruct Hs as [ [H1 H2]|Hs]; [|apply (p_pending _ _ Po); left; exists s; by right]. destruct (decide (s = sid)) as [->|Hne].
    + rewrite Ee in H2. cbn in H2. destruct H2 as [H2|[H2|H2] ]; congruence.
    + apply (p_pending _ _ Po). left. exists s. left. split; [done|]. unfold e in H2. rewrite scope_upd, decide_False in H2 by (by intros <-). done.
Qed.

(** After the loop, its blocks are landing pads of its scope, or none. *)
Lemma loop_landing cs c e sid fb cb c1 b : loop_open cs c e sid fb cb → ext e c1 → wf c1 → c_scopeStack c1 = sid :: c_scopeStack cs → ext (pop c1) fin → b = fb ∨ b = cb → b < c_blockCount e →
  landing fin b = landing c1 b ∧ (landing c1 b = None ∨ landing c1 b = Some sid).
Proof.
  intros [G V F B H I [L1 L2] Fl [A1 A2] Hsid] X W1 Hst X1 Hb Hlt. assert (We : wf e) by apply G. pose proof (e_count _ _ X) as Hle.
  assert (Ho : owns e sid b). { left. split; [rewrite (in_stack _ _ _ I); left|]. destruct Hb as [->| ->]; [by left|right; by left]. }
  assert (Ho1 : owns c1 sid b).
  { left. split; [rewrite Hst; left|]. pose proof (e_scope _ _ X sid ltac:(lia)) as Est. destruct (static_blocks _ _ Est) as [Hbl _]. apply Hbl. destruct Hb as [->| ->]; [by left|right; by left]. }
  split; [|by apply (w_landing _ _ W1)]. rewrite (e_landing _ _ X1); [done|cbn; lia|]. destruct (in_new _ _ _ I) as [Hn0 Hnin]. intros [ [s Hs]|Ha].
  - assert (s = sid) as ->.
    { apply (w_owner _ _ We s sid b); [|done]. apply (e_owns _ _ X); [done|]. destruct Hs as [ [H1 H2]|Hs]; [left|by right]. split; [|done]. rewrite Hst. cbn in H1. rewrite Hst in H1. by right. }
    destruct Hs as [ [H1 _]|[-> _] ]; [|done]. cbn in H1. rewrite Hst in H1. done.
  - assert (b ∈ all_ahead e) as Hae; [|destruct Hb as [->| ->]; done]. apply (e_ahead _ _ X); [done|]. apply elem_all_ahead in Ha as (s & Hs & Ha). apply elem_all_ahead. exists s. split; [|done].
    rewrite Hst. cbn in Hs. rewrite Hst in Hs. by right.
Qed.

Lemma loop_enter hs k cs c e sid fb cb c1 b c' m : loop_open cs c e sid fb cb → ext e c1 → wf c1 → c_scopeStack c1 = sid :: c_scopeStack cs → ext (pop c1) fin → b = fb ∨ b = cb → b < c_blockCount e →
  around hs k cs → k_code m = code_of P b → frame_ok fin m → jmp_ok hs m → k_frame m = frame_of hs ∨ landing c1 b ≠ None →
  m_currentBlock c' = b → code c' b = [] → reached c' b = true → ∃ m', steps P m m' ∧ pre hs c' m' ∧ same_regs m m' ∧ k_world m' = k_world m.
Proof.
  intros LO X W1 Hst X1 Hb Hlt A Hc Hok J Hf Hcur Hcode Hr. destruct (loop_landing _ _ _ _ _ _ _ _ LO X W1 Hst X1 Hb Hlt) as [El Hl].
  assert (Hsf : sc_frame (scope fin sid) = frame_of hs).
  { assert (Xf : ext e fin) by (eapply ext_trans; [exact X|eapply ext_trans; [apply ext_pop, ext_refl|exact X1] ]).
    pose proof (e_scope _ _ Xf sid (proj2 (lo_sid _ _ _ _ _ _ LO))) as Est. rewrite (static_frame _ _ Est).
    by rewrite (in_frame _ _ _ (lo_inside _ _ _ _ _ _ LO)), (a_frame _ _ _ _ A). }
  destruct (landed hs b sid m Hc) as (m' & S & H1 & H2 & H3 & H4 & H5); try done; [|by rewrite El|apply A|].
  { intros Hn. rewrite El in Hn. by destruct Hf. }
  exists m'. split; [done|]. split; [|done]. split; [|unfold reachable; by rewrite Hcur|done|done]. unfold at_end. by rewrite Hcur, Hcode, H1.
Qed.

Lemma jumps_at hs i ts f c c' e m : jumps isVoid i ts f c c' → wf c → (∀ x, blk e x = blk c' x) → c_blockCount e = c_blockCount c' → ext e fin → pre hs c m → ∃ rest, k_code m = i :: rest.
Proof.
  intros J W Hb Hn X Hp. pose proof (jumps_count _ _ _ _ _ _ J). pose proof (w_current _ _ W).
  destruct (at_emits fin c e m [i] (pr_at _ _ _ _ Hp) X ltac:(lia)) as (rest & Hm & _); [rewrite Hb; apply (j_emits _ _ _ _ _ _ J)|by exists rest].
Qed.

Lemma inside_same c d e sid : inside c d sid → same d e → inside c e sid.
Proof.
  intros [I1 I2 I3 I4 I5 I6 I7 I8] S. split; rewrite ?(s_stack _ _ S), ?(same_scope _ _ sid S); try done; [intros s Hs; by rewrite (same_scope _ _ _ S), I2|].
  unfold ahead. by rewrite (same_scope _ _ _ S).
Qed.

Lemma frame_of_ok hs k c m : around hs k c → k_frame m = frame_of hs → frame_ok fin m.
Proof. intros A H Hf. rewrite H. destruct (a_array _ _ _ _ A) as [->|Ha]; [done|congruence]. Qed.

(** ** [while] *)

Record while_code (cond cb bb fb sid : nat) (s : stmt) (cs c0 e d c1 c' : CState) : Prop := {
  wc_wf : wf cs;
  wc_stack : c_scopeStack cs ≠ [];
  wc_open : loop_open cs c0 e sid fb cb;
  wc_e : m_currentBlock e = cb ∧ code e cb = [];
  wc_cond : jumps isVoid (ICondBr cond bb fb) [bb; fb] (Some bb) e d;
  wc_body : ok s d c1;
  wc_back : jumps isVoid (IBr cb) [cb] (Some fb) (pop c1) c';
  wc_plain : plain d bb;
  wc_count : cb < c_blockCount e ∧ fb < c_blockCount e
}.

Lemma while_sim cond cb bb fb sid s cs c0 e d c1 c' : while_code cond cb bb fb sid s cs c0 e d c1 c' →
  ∀ fuel hs k m o w, ext c' fin → around hs k cs → pre hs e m → eval isErrorCode fuel k (SWhile cond s) (k_world m) = Some (o, w) → post hs cs c' (free s) m o w.
Proof.
  intros [Ws Hst LO [He1 He2] J [K M] J2 Pb [Hcb Hfb] ]. induction fuel as [|fuel IH]; intros hs k m o w X A Hp Hev; [done|]. cbn in Hev.
  assert (X1 : ext (pop c1) fin) by (eapply ext_trans; [apply J2|done]). assert (Xc1 : ext c1 fin) by (eapply ext_trans; [apply ext_pop, ext_refl|done]).
  assert (Xd : ext d fin) by (eapply ext_trans; [apply K|done]). assert (Xe : ext e c1) by (eapply ext_trans; [apply J|apply K]).
  assert (We : wf e) by apply (lo_grows _ _ _ _ _ _ LO). assert (W1 : wf c1) by apply K. pose proof (in_stack _ _ _ (lo_inside _ _ _ _ _ _ LO)) as Hste.
  assert (Hst1 : c_scopeStack c1 = sid :: c_scopeStack cs) by (by rewrite (kp_stack _ _ _ K), (s_stack _ _ (j_same _ _ _ _ _ _ J))).
  assert (Id : inside cs d sid) by (eapply inside_same; [apply LO|apply J]). destruct (j_to _ _ _ _ _ _ J) as [Hd1 Hd2]. destruct (j_to _ _ _ _ _ _ J2) as [Hc1 Hc2].
  assert (Hrb : ∀ c2 b, ext e c2 → b < c_blockCount e → reached e b = true → reached c2 b = true) by (intros c2 b Xt Hlt Hr; by apply (e_reach _ _ Xt)).
  assert (Hback : ∀ m1, k_code m1 = code_of P cb → frame_ok fin m1 → jmp_ok hs m1 → k_frame m1 = frame_of hs ∨ landing c1 cb ≠ None → eval isErrorCode fuel k (SWhile cond s) (k_world m1) = Some (o, w) →
    post hs cs c' (free s) m1 o w).
  { intros m1 H1 H2 H3 H4 H5. destruct (loop_enter hs k _ _ _ _ _ _ _ cb e m1 LO Xe W1 Hst1 X1 ltac:(by right) Hcb A H1 H2 H3 H4 He1 He2) as (m2 & S2 & Hp2 & R2 & Ew2).
    { pose proof (pr_reach _ _ _ _ Hp) as Hr. unfold reachable in Hr. by rewrite He1 in Hr. }
    eapply post_steps; [exact S2|done|]. apply (IH hs k); try done. by rewrite Ew2. }
  assert (Hend : ∀ m1, k_code m1 = code_of P fb → frame_ok fin m1 → jmp_ok hs m1 → k_frame m1 = frame_of hs ∨ landing c1 fb ≠ None → reached c' fb = true → post hs cs c' (free s) m1 ONormal (k_world m1)).
  { intros m1 H1 H2 H3 H4 H5. destruct (loop_enter hs k _ _ _ _ _ _ _ fb c' m1 LO Xe W1 Hst1 X1 ltac:(by left) Hfb A H1 H2 H3 H4 Hc1 Hc2 H5) as (m2 & S2 & Hp2 & R2 & Ew2).
    rewrite <-Ew2. by apply post_normal. }
  assert (Xd' : ext d c') by (eapply ext_trans; [apply K|]; eapply ext_trans; [apply ext_pop, ext_refl|apply J2]).
  destruct (test cond (k_world m)) as [w1 v] eqn:Htest. destruct (cond_enters isVoid fin hs _ _ _ _ _ _ _ _ _ J We Xd Hp Htest) as [Hr (m' & En)].
  eapply enters_post; [exact En|]. pose proof (en_world _ _ _ _ _ _ En) as Ew. destruct v.
  - rewrite <-Ew in Hev. assert (Hpd : pre hs d m') by (eapply enters_pre; [exact En|by eapply plain_ext|done..]).
    destruct (eval isErrorCode fuel k s (k_world m')) as [ [o1 w2]|] eqn:He; [|done]. cbn in Hev.
    pose proof (M _ _ _ _ _ _ Xc1 (inside_around _ _ _ _ _ _ Id A) Hpd He) as Hpost. destruct (is_normal o1) as [->|Hne].
    + cbn in Hev. apply post_normal_inv in Hpost as (m1 & S1 & Hp1 & R1 & <-). eapply post_steps; [exact S1|exact R1|].
      destruct (br_enters isVoid fin hs _ _ _ _ _ J2 (wf_pop _ _ W1) X (same_pre fin hs c1 (pop c1) m1 eq_refl eq_refl Hp1)) as [_ (m2 & En2)].
      eapply enters_post; [exact En2|]. apply Hback; [apply En2|by apply (frame_of_ok hs k cs), En2|apply En2|left; apply En2|]. by rewrite (en_world _ _ _ _ _ _ En2).
    + destruct (post_inside isVoid fin true hs cs d c1 c' sid (free s) (free s) m' o1 w2) as [ (b & m2 & (n & Hn & Hb) & S2 & Ar & R2)|[Hq Hlo] ]; try done.
      * split; [exists fb|exists cb]; rewrite (same_scope _ _ sid (j_same _ _ _ _ _ _ J)); apply LO.
      * apply J.
      * eapply grows_count, K.
      * eapply ext_trans; [apply ext_pop, ext_refl|apply J2].
      * destruct Ar as [A1 A2 A3 A4 A5 A6 A7 A8]. cbn [hd] in *. eapply post_steps; [exact S2|exact R2|]. rewrite <-A7 in *.
        apply Nat.leb_le in Hn. destruct (lo_loop _ _ _ _ _ _ LO) as [L1 L2]. rewrite (same_scope _ _ sid (j_same _ _ _ _ _ _ J)), L1, L2 in Hb.
        destruct Hb as [ [-> [= <-] ]|[-> [= <-] ] ]; cbn in Hev; rewrite Hn in Hev.
        -- injection Hev as <- <-. apply Hend; [done..|by right|]. apply (e_reach _ _ (ext_trans _ _ _ (ext_pop _ _ (ext_refl c1)) (g_ext _ _ _ _ (j_grows _ _ _ _ _ _ J2)))); [|done].
           pose proof (e_count _ _ Xe). lia.
        -- apply Hback; try done. by right.
      * rewrite (Hlo eq_refl) in Hev. by injection Hev as <- <-.
  - injection Hev as <- <-. rewrite <-Ew. apply Hend; [apply En| |apply En|left; apply En|].
    + by apply (frame_of_ok hs k cs), En.
    + apply (e_reach _ _ Xd'); [|done]. pose proof (jumps_count _ _ _ _ _ _ J). lia.
Qed.

(** ** How loops begin *)

Lemma three_new cs b : wf cs → let n := c_blockCount cs in let d3 := create false (create false (create false cs)) in n ≤ b < 3 + n → idle d3 b ∧ plain d3 b.
Proof.
  intros W n d3 Hb. assert (W1 : wf (create false cs)) by (by apply wf_create). assert (W2 : wf (create false (create false cs))) by (by apply wf_create).
  assert (b = n ∨ b = S n ∨ b = S (S n)) as [->|[->| ->] ] by lia.
  - split; [apply idle_create, idle_create; by destruct (blank_new isVoid cs false W)|]. eapply plain_ext; [by apply (plain_new isVoid false cs)|]. apply ext_create, ext_create, ext_refl.
  - split; [apply idle_create; by destruct (blank_new isVoid _ false W1)|]. eapply plain_ext; [by apply (plain_new isVoid false _ W1)|]. apply ext_create, ext_refl.
  - split; [by destruct (blank_new isVoid _ false W2)|by apply (plain_new isVoid false _ W2)].
Qed.

Lemma loop_start cs c0 b fb cb : let n := c_blockCount cs in follow b (create false (create false (create false cs))) = inl (tt, c0) → wf cs → open cs → c_scopeStack cs ≠ [] →
  n ≤ b < 3 + n → n ≤ fb < 3 + n → n ≤ cb < 3 + n →
  let sid := c_scopeCount c0 in let e := upd_scp sid (sc_set_loop (Some fb) (Some cb)) (opened no_flags c0) in
  loop_open cs c0 e sid fb cb ∧ m_currentBlock e = b ∧ code e b = [] ∧ (∀ x, n ≤ x < 3 + n → x < c_blockCount e ∧ plain c0 x ∧ ¬ special e x ∧ (x ≠ b → idle e x)) ∧
  (∀ hs m, ext e fin → pre hs cs m → reached e b = true ∧ ∃ m', enters fin hs b (k_world m) m m').
Proof.
  intros n H W O Hst Hb Hfb Hcb sid e. set (d3 := create false (create false (create false cs))) in *.
  assert (S3 : silent isVoid cs d3). { eapply silent_trans; [by apply silent_create|]. eapply silent_trans; apply silent_create; [by apply wf_create|by apply wf_create, wf_create]. }
  assert (W3 : wf d3) by apply (q_silent _ _ _ S3). destruct (three_new cs b W Hb) as [Ib Pb].
  destruct (follow_spec isVoid _ _ _ H W3 Ib) as (G & S & Hc & Hcode & O' & _ & J). pose proof (grows_count _ _ _ _ G) as Hle. assert (Hn : c_blockCount d3 = 3 + n) by done.
  assert (Hh : held (λ x, x = b) cs c0) by (apply held_same; [eapply grows_weaken; [eapply c_grows_trans; [apply S3|exact G]|]; intros x [ []|Hx] _; exact Hx|eapply c_same_trans; [|exact S]; done]).
  assert (Hx : ∀ x, n ≤ x < 3 + n → plain c0 x ∧ ¬ special c0 x ∧ (x ≠ b → idle c0 x)).
  { intros x Hx. destruct (three_new cs x W Hx) as [I1 P1]. split; [by eapply plain_ext, G|]. split; [|intros Hne; by apply (g_idle _ _ _ _ G)].
    intros Hs. apply (i_special _ _ I1), (e_special _ _ (g_ext _ _ _ _ G)); [lia|done]. }
  assert (LO : loop_open cs c0 e sid fb cb). { destruct (Hx fb Hfb) as (Pf & Sf & _), (Hx cb Hcb) as (Pc & Sc & _).
    apply (loop_opened (λ x, x = b)); try done; lia. }
  split; [done|]. split; [done|]. split; [done|]. split.
  { intros x Hlt. destruct (Hx x Hlt) as (H1 & H2 & H3). split; [cbn; lia|]. split; [done|]. split; [done|].
    intros Hne. by apply idle_upd_scp, idle_upd_scp, idle_push, H3. }
  intros hs m Xe Hp. pose proof (silent_pre _ _ _ _ _ _ S3 W Hp) as Hp3. assert (Ht : hasTerminator (blk d3 (m_currentBlock d3)) = false).
  { change (m_currentBlock d3) with (m_currentBlock cs). rewrite (q_blocks _ _ _ S3) by apply (w_current _ _ W). apply O, Hp. }
  specialize (J Ht). destruct (jumps_at hs _ _ _ _ _ e m J W3 ltac:(done) ltac:(done) Xe Hp3) as [rest Hm]. split.
  - change (reached c0 b = true). apply (j_reached _ _ _ _ _ _ J); [apply Hp3|left].
  - exists (enter P b (set_code rest m)). split; [|done..|apply Hp|apply Hp]. apply steps_one. unfold step. by rewrite Hm.
Qed.

(** A loop is behind. *)
Lemma loop_kept X Y cs c0 e sid fb cb d c1 c' : loop_open cs c0 e sid fb cb → held X e d → kept d c1 → held Y (pop c1) c' → c_scopeStack c1 = sid :: c_scopeStack cs →
  (∀ x, X x ∨ Y x → c_blockCount cs ≤ x) → open c' → kept cs c'.
Proof.
  intros LO H1 K H2 Hst HXY O'. assert (Gd : grows none cs d).
  { eapply grows_weaken; [eapply c_grows_trans; [apply LO|apply H1]|]. intros x [ []|Hx] Hlt. pose proof (HXY x (or_introl Hx)). lia. }
  assert (G1 : grows none cs (pop c1)) by (apply grows_pop; eapply grows_trans0; [exact Gd|apply K]).
  pose proof (lo_sid _ _ _ _ _ _ LO) as Hsid. pose proof (e_scount _ _ (g_ext _ _ _ _ (h_grows _ _ _ _ H1))) as Hs1. pose proof (e_scount _ _ (g_ext _ _ _ _ (kp_grows _ _ _ K))) as Hs2. split.
  - eapply grows_weaken; [eapply c_grows_trans; [exact G1|apply H2]|]. intros x [ []|Hx] Hlt. pose proof (HXY x (or_intror Hx)). lia.
  - done.
  - rewrite (h_stack _ _ _ _ H2). cbn. by rewrite Hst.
  - intros s Hs. rewrite (h_scopes _ _ _ _ H2) by (cbn; lia). change (scope (pop c1) s) with (scope c1 s).
    rewrite (kp_scopes _ _ _ K), (h_scopes _ _ _ _ H1), (lo_scopes _ _ _ _ _ _ LO) by lia. done.
  - rewrite (h_follow _ _ _ _ H2). change (m_catchFinallyFollowBlock (pop c1)) with (m_catchFinallyFollowBlock c1).
    by rewrite (kp_follow _ _ _ K), (h_follow _ _ _ _ H1), (lo_follow _ _ _ _ _ _ LO).
Qed.

Lemma while_good cond s : good s → good (SWhile cond s).
Proof.
  intros IH cs c' H W O Hst Hst0 Hf. cbn in H. unfold whileStmt_Create, whileStmt_Condition, whileStmt_Follow, open_loop in H. comp_step H.
  apply openScope_plain_inv in H3 as [-> ->]; [|done..]. cbn [l_conditionBlock l_bodyBlock l_followBlock] in *.
  destruct x, x0, x1, x3. rename c into d. set (cb := c_blockCount cs) in *. change (c_blockCount (create false cs)) with (S cb) in *. change (c_blockCount (create false (create false cs))) with (S (S cb)) in *.
  set (bb := S cb) in *. set (fb := S bb) in *. rename H1 into Hfollow, H0 into Hj, H2 into Hs, H4 into Hclose, H into Hjump.
  destruct (loop_start cs c0 cb fb cb Hfollow W O Hst) as (LO & He1 & He2 & Hx & Hin); [unfold fb, bb, cb; lia..|].
  set (sid := c_scopeCount c0) in *. set (e := upd_scp sid _ _) in *. assert (We : wf e) by apply (lo_grows _ _ _ _ _ _ LO).
  destruct (Hx cb) as (Ccb & Pcb & Ucb & Icb); [unfold cb; lia|]. destruct (Hx bb) as (Cbb & Pbb & Ubb & Ibb); [unfold bb, cb; lia|]. destruct (Hx fb) as (Cfb & Pfb & Ufb & Ifb); [unfold fb, bb, cb; lia|].
  assert (J : jumps isVoid (ICondBr cond bb fb) [bb; fb] (Some bb) e d). { apply (condition_jump_spec _ _ bb fb None); [done|done|intros Hu; apply Ubb; by left|intros Hu; apply Ufb; by left|]. apply Ibb. unfold bb. lia. }
  destruct (j_to _ _ _ _ _ _ J) as [Hd1 Hd2]. assert (Wd : wf d) by apply J. pose proof (in_stack _ _ _ (lo_inside _ _ _ _ _ _ LO)) as Hste.
  assert (Hstd : c_scopeStack d = sid :: c_scopeStack cs) by (by rewrite (s_stack _ _ (j_same _ _ _ _ _ _ J))).
  destruct (IH d c1 Hs Wd (jumps_open _ _ _ _ _ _ J)) as [K M].
  { by rewrite Hstd. }
  { rewrite Hstd. by destruct (c_scopeStack cs). }
  { rewrite (s_follow _ _ (j_same _ _ _ _ _ _ J)), (lo_follow _ _ _ _ _ _ LO). exact Hf. }
  assert (Es : scope c1 sid = scope e sid).
  { rewrite (kp_scopes _ _ _ K); [by apply same_scope, J|]. rewrite (s_count _ _ (j_same _ _ _ _ _ _ J)). apply (proj2 (lo_sid _ _ _ _ _ _ LO)). }
  assert (Hst1 : c_scopeStack c1 = sid :: c_scopeStack cs) by (by rewrite (kp_stack _ _ _ K)). assert (W1 : wf c1) by apply K.
  assert (c3 = pop c1) as ->. { destruct (lo_flags _ _ _ _ _ _ LO) as (F1 & F2 & F3). eapply closeScope_pop; [exact Hclose|exact Hst1|by rewrite Es..]. }
  assert (Id : idle d fb). { apply (g_idle _ _ _ _ (j_grows _ _ _ _ _ _ J)); [apply Ifb; unfold fb, bb; lia|]. intros [= Hb]. unfold fb in Hb. lia. }
  assert (X1 : ext e (pop c1)) by (apply ext_pop; eapply ext_trans; [apply J|apply K]). pose proof (e_count _ _ X1) as Hle1.
  assert (J2 : jumps isVoid (IBr cb) [cb] (Some fb) (pop c1) c').
  { apply jump_spec; [done|by apply wf_pop|lia| |].
    - intros Hu. apply Ucb, (e_special _ _ X1); [done|by left].
    - intros x [= <-]. by apply idle_pop, (grows_idle _ _ _ _ (kp_grows _ _ _ K)). }
  split.
  - eapply (loop_kept (λ x, Some bb = Some x) (λ x, Some fb = Some x)); [exact LO|apply held_same; apply J|exact K|apply held_same; apply J2|exact Hst1| |by eapply jumps_open].
    intros x [ [= <-]|[= <-] ]; unfold fb, bb, cb; lia.
  - intros fuel k hs m o w X A Hp Hev. assert (Xe : ext e fin) by (eapply ext_trans; [exact X1|]; eapply ext_trans; [apply J2|done]).
    destruct (Hin hs m Xe Hp) as [Hr (m' & En)]. eapply enters_post; [exact En|].
    destruct (loop_enter hs k _ _ _ _ _ _ c1 cb e m' LO ltac:(eapply ext_trans; [apply J|apply K]) W1 Hst1 ltac:(eapply ext_trans; [apply J2|done]) ltac:(by right) Ccb A) as (m2 & S2 & Hp2 & R2 & Ew2);
      [apply En|apply (frame_of_ok hs k cs); [done|apply En]|apply En|left; apply En|done..|].
    eapply post_steps; [exact S2|done|]. rewrite <-(en_world _ _ _ _ _ _ En), <-Ew2 in Hev.
    change (free (SWhile cond s)) with (free s). eapply (while_sim cond cb bb fb sid s cs c0 e d c1 c'); try done.
    split; try done. eapply plain_ext; [|apply J]. apply (lo_plain _ _ _ _ _ _ LO); [done|unfold fb; lia|unfold bb; lia].
Qed.

(** ** [do] *)

Record do_code (cond cb bb fb sid : nat) (s : stmt) (cs c0 e c1 c3 c' : CState) : Prop := {
  dc_wf : wf cs;
  dc_open : loop_open cs c0 e sid fb cb;
  dc_e : m_currentBlock e = bb ∧ code e bb = [];
  dc_body : ok s e c1;
  dc_follow : follow cb (pop c1) = inl (tt, c3);
  dc_idle : idle (pop c1) cb;
  dc_cond : jumps isVoid (ICondBr cond bb fb) [bb; fb] (Some fb) c3 c';
  dc_plain : plain e bb;
  dc_count : cb < c_blockCount e ∧ fb < c_blockCount e
}.

Lemma do_sim cond cb bb fb sid s cs c0 e c1 c3 c' : do_code cond cb bb fb sid s cs c0 e c1 c3 c' →
  ∀ fuel hs k m o w, ext c' fin → around hs k cs → pre hs e m → eval isErrorCode fuel k (SDo s cond) (k_world m) = Some (o, w) → post hs cs c' (free s) m o w.
Proof.
  intros [Ws LO [He1 He2] [K M] Hfollow Icb J Pb [Hcb Hfb] ]. induction fuel as [|fuel IH]; intros hs k m o w X A Hp Hev; [done|]. cbn in Hev.
  assert (We : wf e) by apply (lo_grows _ _ _ _ _ _ LO). assert (W1 : wf c1) by apply K.
  destruct (follow_spec isVoid _ _ _ Hfollow (wf_pop _ _ W1) Icb) as (G3 & S3 & Hc3 & Hcode3 & O3 & _ & J3). destruct (j_to _ _ _ _ _ _ J) as [Hc1 Hc2].
  assert (X3 : ext c3 fin) by (eapply ext_trans; [apply J|done]). assert (X1 : ext (pop c1) fin) by (eapply ext_trans; [apply G3|done]).
  assert (Xc1 : ext c1 fin) by (eapply ext_trans; [apply ext_pop, ext_refl|done]). assert (Xe : ext e c1) by apply K. assert (Xef : ext e fin) by (by eapply ext_trans).
  assert (Hst1 : c_scopeStack c1 = sid :: c_scopeStack cs) by (by rewrite (kp_stack _ _ _ K), (in_stack _ _ _ (lo_inside _ _ _ _ _ _ LO))).
  pose proof (grows_count _ _ _ _ G3) as N3. pose proof (e_count _ _ Xe) as N1. change (c_blockCount (pop c1)) with (c_blockCount c1) in N3.
  assert (X13 : ext c1 c3) by (eapply ext_trans; [apply ext_pop, ext_refl|apply G3]). assert (W3 : wf c3) by apply G3.
  assert (Hend : ∀ m1, k_code m1 = code_of P fb → frame_ok fin m1 → jmp_ok hs m1 → k_frame m1 = frame_of hs ∨ landing c1 fb ≠ None → reached c' fb = true → post hs cs c' (free s) m1 ONormal (k_world m1)).
  { intros m1 H1 H2 H3 H4 H5. destruct (loop_enter hs k _ _ _ _ _ _ _ fb c' m1 LO Xe W1 Hst1 X1 ltac:(by left) Hfb A H1 H2 H3 H4 Hc1 Hc2 H5) as (m2 & S2 & Hp2 & R2 & Ew2).
    rewrite <-Ew2. by apply post_normal. }
  assert (Hback : ∀ m1, k_code m1 = code_of P cb → frame_ok fin m1 → jmp_ok hs m1 → k_frame m1 = frame_of hs ∨ landing c1 cb ≠ None → reached c3 cb = true →
    (let '(w, v) := test cond (k_world m1) in if (v : bool) then eval isErrorCode fuel k (SDo s cond) w else Some (ONormal, w)) = Some (o, w) → post hs cs c' (free s) m1 o w).
  { intros m1 H1 H2 H3 H4 H5 Hev1. destruct (loop_enter hs k _ _ _ _ _ _ _ cb c3 m1 LO Xe W1 Hst1 X1 ltac:(by right) Hcb A H1 H2 H3 H4 Hc3 Hcode3 H5) as (m2 & S2 & Hp2 & R2 & Ew2).
    eapply post_steps; [exact S2|done|]. rewrite <-Ew2 in Hev1. destruct (test cond (k_world m2)) as [w2 v] eqn:Htest.
    destruct (cond_enters isVoid fin hs _ _ _ _ _ _ _ _ _ J W3 X Hp2 Htest) as [Hr (m3 & En)]. eapply enters_post; [exact En|]. rewrite <-(en_world _ _ _ _ _ _ En) in Hev1. destruct v.
    - apply (IH hs k); try done. eapply enters_pre; [exact En|by eapply plain_ext|done|done|]. pose proof (pr_reach _ _ _ _ Hp) as Hre. unfold reachable in Hre. by rewrite He1 in Hre.
    - injection Hev1 as <- <-. apply Hend; [apply En|by apply (frame_of_ok hs k cs), En|apply En|left; apply En|done]. }
  destruct (eval isErrorCode fuel k s (k_world m)) as [ [o1 w2]|] eqn:He; [|done]. cbn in Hev.
  pose proof (M _ _ _ _ _ _ Xc1 (inside_around _ _ _ _ _ _ (lo_inside _ _ _ _ _ _ LO) A) Hp He) as Hpost. destruct (is_normal o1) as [->|Hne].
  - cbn in Hev. apply post_normal_inv in Hpost as (m1 & S1 & Hp1 & R1 & <-). eapply post_steps; [exact S1|exact R1|].
    specialize (J3 (kp_open _ _ _ K (pr_reach _ _ _ _ Hp1))).
    destruct (br_enters isVoid fin hs _ _ _ _ _ J3 (wf_pop _ _ W1) X3 (same_pre fin hs c1 (pop c1) m1 eq_refl eq_refl Hp1)) as [Hr (m2 & En2)].
    eapply enters_post; [exact En2|]. apply Hback; [apply En2|by apply (frame_of_ok hs k cs), En2|apply En2|left; apply En2|done|]. by rewrite (en_world _ _ _ _ _ _ En2).
  - destruct (post_inside isVoid fin true hs cs e c1 c' sid (free s) (free s) m o1 w2) as [ (b & m2 & (n & Hn & Hb) & S2 & Ar & R2)|[Hq Hlo] ]; try done; [apply LO|split; eexists; apply LO|eapply ext_trans; [exact X13|apply J]|..].
    + destruct Ar as [A1 A2 A3 A4 A5 A6 A7 A8]. cbn [hd] in *. eapply post_steps; [exact S2|exact R2|]. rewrite <-A7 in *.
      apply Nat.leb_le in Hn. destruct (lo_loop _ _ _ _ _ _ LO) as [L1 L2]. rewrite L1, L2 in Hb.
      destruct Hb as [ [-> [= <-] ]|[-> [= <-] ] ]; cbn in Hev; rewrite Hn in Hev.
      * injection Hev as <- <-. apply Hend; [done..|by right|]. apply (e_reach _ _ (ext_trans _ _ _ X13 (g_ext _ _ _ _ (j_grows _ _ _ _ _ _ J)))); [lia|done].
      * apply Hback; try done; [by right|]. apply (e_reach _ _ X13); [lia|done].
    + rewrite (Hlo eq_refl) in Hev. by injection Hev as <- <-.
Qed.

Lemma do_good s cond : good s → good (SDo s cond).
Proof.
  intros IH cs c' H W O Hst Hst0 Hf. cbn in H. unfold doStmt_Create, doStmt_PreBody, doStmt_PostBody, doStmt_Condition, open_loop in H. comp_step H.
  apply openScope_plain_inv in H2 as [-> ->]; [|done..]. cbn [l_conditionBlock l_bodyBlock l_followBlock] in *.
  destruct x, x0, x2, x3. rename c into c1, c2 into c3', c3 into c2. rename c3' into c3.
  set (cb := c_blockCount cs) in *. change (c_blockCount (create false cs)) with (S cb) in *. change (c_blockCount (create false (create false cs))) with (S (S cb)) in *.
  set (bb := S cb) in *. set (fb := S bb) in *. rename H1 into Hfollow, H0 into Hs, H4 into Hclose, H3 into Hfollow2, H into Hj.
  destruct (loop_start cs c0 bb fb cb Hfollow W O Hst) as (LO & He1 & He2 & Hx & Hin); [unfold fb, bb, cb; lia..|].
  set (sid := c_scopeCount c0) in *. set (e := upd_scp sid _ _) in *. assert (We : wf e) by apply (lo_grows _ _ _ _ _ _ LO).
  destruct (Hx cb) as (Ccb & Pcb & Ucb & Icb); [unfold cb; lia|]. destruct (Hx bb) as (Cbb & Pbb & Ubb & Ibb); [unfold bb, cb; lia|]. destruct (Hx fb) as (Cfb & Pfb & Ufb & Ifb); [unfold fb, bb, cb; lia|].
  pose proof (in_stack _ _ _ (lo_inside _ _ _ _ _ _ LO)) as Hste.
  destruct (IH e c1 Hs We) as [K M].
  { apply empty_open. by rewrite He1. }
  { by rewrite Hste. }
  { rewrite Hste. by destruct (c_scopeStack cs). }
  { rewrite (lo_follow _ _ _ _ _ _ LO). exact Hf. }
  assert (Es : scope c1 sid = scope e sid) by (apply (kp_scopes _ _ _ K), (proj2 (lo_sid _ _ _ _ _ _ LO))).
  assert (Hst1 : c_scopeStack c1 = sid :: c_scopeStack cs) by (by rewrite (kp_stack _ _ _ K)). assert (W1 : wf c1) by apply K.
  assert (c2 = pop c1) as ->. { destruct (lo_flags _ _ _ _ _ _ LO) as (F1 & F2 & F3). eapply closeScope_pop; [exact Hclose|exact Hst1|by rewrite Es..]. }
  assert (Ic : idle (pop c1) cb) by (apply idle_pop, (grows_idle _ _ _ _ (kp_grows _ _ _ K)), Icb; unfold bb; lia).
  assert (If : idle (pop c1) fb) by (apply idle_pop, (grows_idle _ _ _ _ (kp_grows _ _ _ K)), Ifb; unfold fb; lia).
  destruct (follow_held isVoid _ _ _ Hfollow2 (wf_pop _ _ W1) Ic) as (H3 & O3 & Hc3 & Hcode3). assert (W3 : wf c3) by apply H3.
  assert (X3 : ext e c3) by (eapply ext_trans; [apply K|]; eapply ext_trans; [apply ext_pop, ext_refl|apply H3]).
  assert (If3 : idle c3 fb). { apply (g_idle _ _ _ _ (h_grows _ _ _ _ H3)); [done|]. unfold fb, bb. lia. }
  assert (J : jumps isVoid (ICondBr cond bb fb) [bb; fb] (Some fb) c3 c').
  { apply (condition_jump_spec _ _ bb fb (Some fb)); [done|done|intros Hu; apply Ubb, (e_special _ _ X3); [done|by left]|by apply idle_not_unreachable|done]. }
  assert (H2 : held (λ x, x = cb ∨ Some fb = Some x) (pop c1) c') by (eapply held_trans; [exact H3|apply held_same; apply J|]; done).
  split.
  - eapply (loop_kept none (λ x, x = cb ∨ Some fb = Some x)); [exact LO|apply held_same; [by apply c_grows_refl|done]|exact K|exact H2|exact Hst1| |by eapply jumps_open].
    intros x [ []|[->|[= <-] ] ]; unfold fb, bb, cb; lia.
  - intros fuel k hs m o w X A Hp Hev. assert (Xe : ext e fin) by (eapply ext_trans; [exact X3|]; eapply ext_trans; [apply J|done]).
    destruct (Hin hs m Xe Hp) as [Hr (m' & En)]. eapply enters_post; [exact En|]. rewrite <-(en_world _ _ _ _ _ _ En) in Hev.
    assert (Pb : plain e bb) by (apply (lo_plain _ _ _ _ _ _ LO); [done|unfold fb; lia|unfold bb; lia]).
    change (free (SDo s cond)) with (free s). eapply (do_sim cond cb bb fb sid s cs c0 e c1 c3 c'); [by split|done|done| |done].
    eapply enters_pre; [exact En|by eapply plain_ext|done..].
Qed.
End loop.
