(* ===== verification/ControlFlowTry.v ===== *)
(** * Control flow: [catch] and [finally]

    How statements in a scope with labels are left, the part behind [finally], and where it leads. *)

From S2P Require Import Prelude ControlFlow ControlFlowRun ControlFlowInv ControlFlowOps ControlFlowScope ControlFlowRoute ControlFlowLabels ControlFlowSim ControlFlowLeaf ControlFlowStmt ControlFlowLoop.

Open Scope nat_scope.

#[local] Strategy 1000 [mbind Comp_bind mret Comp_ret].

Ltac units := repeat match goal with x : unit |- _ => destruct x end.

Section labels.
Context `{E : Effects} (isVoid isErrorCode : bool) (fin : CState) (Wfin : wf isVoid fin).

#[local] Abbreviation grows := (grows isVoid).
#[local] Abbreviation wf := (wf isVoid).
#[local] Abbreviation none := (λ _ : nat, False).
#[local] Abbreviation P := (finalizeFunction fin).
#[local] Abbreviation fa := (m_sjljFrameArrayValue fin).
#[local] Abbreviation kept := (kept isVoid).
#[local] Abbreviation held := (held isVoid).
#[local] Abbreviation post := (post isVoid fin).
#[local] Abbreviation pre := (pre fin).
#[local] Abbreviation around := (around fin).
#[local] Abbreviation ok := (ok isVoid isErrorCode fin).
#[local] Abbreviation good := (good isVoid isErrorCode fin).

(** ** Scopes with labels ahead *)

(** The scope of a statement before a label: the [finally] block ahead, and the block to catch. *)
Record guard (c d : CState) (sid : nat) (af hc : option nat) : Prop := {
  gd_stack : c_scopeStack d = sid :: c_scopeStack c;
  gd_scopes s : s ∈ c_scopeStack c → scope d s = scope c s;
  gd_new : sid ≠ 0 ∧ sid ∉ c_scopeStack c;
  gd_loop : sc_breakBlock (scope d sid) = None ∧ sc_continueBlock (scope d sid) = None;
  gd_catch : sc_catchBlock (scope d sid) = hc;
  gd_ahead : ahead d sid = af;
  gd_finalizable : f_Finalizable (sc_flags (scope d sid)) = f_Finalizable (sc_flags (top c)) || bool_decide (is_Some af)
}.

Lemma guard_target c d sid af hc h c1 c' o t b : guard c d sid af hc → hc = None ∨ hc = Some h → ext c1 c' → target d c1 o t b →
  (o = OThrow ∧ t = sid ∧ b = h) ∨
  (target c c' o t b ∧ fins d (Some t) (c_scopeStack d) = option_list af ++ fins c (Some t) (c_scopeStack c) ∧ (o = OThrow → hc = None)).
Proof.
  intros G Hh X T. pose proof (gd_stack _ _ _ _ _ G) as Hst. pose proof (gd_scopes _ _ _ _ _ G) as Hs. destruct (gd_new _ _ _ _ _ G) as [Hn0 Hnin]. destruct (gd_loop _ _ _ _ _ G) as [Hl1 Hl2].
  assert (Hfin : t ≠ sid → fins d (Some t) (c_scopeStack d) = option_list af ++ fins c (Some t) (c_scopeStack c)).
  { intros Hne. rewrite Hst. cbn. rewrite decide_False by congruence. rewrite (gd_ahead _ _ _ _ _ G), (fins_in c d _ _ Hs). by destruct af. }
  assert (Hin : ∀ f n, f (scope d sid) = None → find_scope d f n (c_scopeStack d) = Some t → f (scope d t) = Some b →
    find_scope c f n (c_scopeStack c) = Some t ∧ f (scope c t) = Some b ∧ t ≠ sid).
  { intros f n Hnone H Hb. rewrite Hst in H. cbn in H. rewrite Hnone, (find_scope_same c d _ _ Hs) in H. pose proof (find_scope_spec _ _ _ _ _ H) as [Ht _].
    rewrite Hs in Hb by done. split; [done|]. split; [done|]. by intros ->. }
  destruct o as [|n|n|v|]; cbn in T; [done|destruct T as [T Hb]..].
  - destruct (Hin _ _ Hl1 T Hb) as (H1 & H2 & H3). right. split; [done|split; [by apply Hfin|done] ].
  - destruct (Hin _ _ Hl2 T Hb) as (H1 & H2 & H3). right. split; [done|split; [by apply Hfin|done] ].
  - right. subst t. split; [|split; [by apply Hfin|done] ]. split; [done|]. by apply (e_return _ _ X).
  - destruct hc as [h'|] eqn:Ehc.
    + destruct Hh as [|[= ->] ]; [done|]. pose proof (gd_catch _ _ _ _ _ G) as Hc. rewrite Hst in T. cbn in T. rewrite Hc in T. injection T as <-. left. split; [done|]. split; [done|]. congruence.
    + destruct (Hin _ _ (gd_catch _ _ _ _ _ G) T Hb) as (H1 & H2 & H3). right. split; [done|split; [by apply Hfin|done] ].
Qed.

(** What leaves the statement: for the handler, with a target outside, or from the function. *)
Definition leaves (hs : list nat) (h : nat) (af hc : option nat) (c c' : CState) (m : Mach) (o : outcome) (w : world) : Prop :=
  (o = OThrow ∧ ∃ m', steps P m m' ∧ k_code m' = code_of P h ∧ jmp_ok hs m' ∧ k_world m' = w) ∨
  (∃ t b m', target c c' o t b ∧ (o = OThrow → hc = None) ∧ steps P m m' ∧ arrives isVoid fin hs c' (option_list af ++ fins c (Some t) (c_scopeStack c)) b o w m') ∨
  (∃ v, o = OReturn v ∧ af = None ∧ f_Finalizable (sc_flags (top c)) = false ∧ ends P m (Returned v w None)).

Lemma arrives_prefix hs l0 c l b o w m : arrives isVoid fin (hs ++ l0) c l b o w m → arrives isVoid fin hs c l b o w m.
Proof. intros []. split; try done. by eapply jmp_ok_prefix. Qed.

Lemma guard_leaves hs h fr c d sid af hc c1 c' m o w : guard c d sid af hc → hc = None ∨ hc = Some h → wf d → wf c1 → c_blockCount d ≤ c_blockCount c1 → ext c1 c' → o ≠ ONormal →
  post (hs ++ [h]) d c1 fr m o w → leaves hs h af hc c c' m o w.
Proof.
  intros G Hh Wd W1 Hle X Hne Hp. destruct Hp as [m' S Hp Hr|o w' t b m' T S A Hr|v w' F En|h' m' Hlast S Hc J|w' Hn En]; [done|..].
  - destruct (guard_target _ _ _ _ _ h _ _ _ _ _ G Hh X T) as [ (-> & -> & ->)|(T' & El & Hh') ].
    + left. split; [done|]. exists m'. split; [done|]. assert (El : fins d (Some sid) (c_scopeStack d) = []) by (rewrite (gd_stack _ _ _ _ _ G); cbn; by rewrite decide_True).
      rewrite El in A. destruct (arrives_prefix _ _ _ _ _ _ _ _ A) as [A1 A2 A3 A4 A5 A6 A7 A8]. done.
    + right; left. exists t, b, m'. split; [done|]. split; [done|]. split; [done|]. rewrite <-El. eapply arrives_ext; [by eapply arrives_prefix|done| |done]. intros x. rewrite elem_of_app, list_elem_of_singleton.
      intros [Hx|Hx]; [|subst; by apply (target_count isVoid _ _ _ _ _ Wd W1 Hle T)]. destruct (w_ahead _ _ Wd x); [by apply (fins_ahead _ (Some t))|lia].
  - right; right. exists v. split; [done|]. unfold top in F at 1. rewrite (gd_stack _ _ _ _ _ G) in F. cbn in F. rewrite (gd_finalizable _ _ _ _ _ G) in F. apply orb_false_iff in F as [F1 F2].
    split; [by destruct af|done].
  - left. split; [done|]. rewrite last_snoc in Hlast. injection Hlast as ->. exists m'. split; [done|]. split; [done|]. split; [by eapply jmp_ok_prefix|done].
  - by destruct hs.
Qed.

(** ** Labels that are entered *)

Lemma label_enter X fl g h c1 cj c2 hs m : label_open isVoid X fl g h c1 cj c2 → ext c2 fin → sc_frame (scope c2 (c_scopeCount cj)) = frame_of hs → hs = [] ∨ fa = true →
  k_code m = code_of P h → frame_ok fin m → jmp_ok hs m → reached c2 h = true → ∃ m', steps P m m' ∧ pre hs c2 m' ∧ same_regs m m' ∧ k_world m' = k_world m.
Proof.
  intros L Xf Hf Hfa Hc Hok J Hr. destruct (lb_here _ _ _ _ _ _ _ _ L) as [H1 H2]. assert (Hlt : h < c_blockCount c2) by (rewrite <-H1; apply (w_current isVoid), L).
  assert (Hl : landing fin h = Some (c_scopeCount cj)) by (rewrite (e_landing _ _ Xf); [apply L|done|apply L]).
  destruct (landed fin hs h (c_scopeCount cj) m Hc) as (m' & S & M1 & M2 & M3 & M4 & M5); try done; [by rewrite Hl|by right| |].
  { rewrite <-Hf. apply static_frame, (e_scope _ _ Xf). rewrite (lb_count _ _ _ _ _ _ _ _ L). lia. }
  exists m'. split; [done|]. split; [|done]. split; [|unfold reachable; by rewrite H1|done|done]. unfold at_end. by rewrite H1, H2, M1.
Qed.

(** A scope with labels is opened. *)
Lemma opens_enter flags h c c0 hs k m : opens isVoid flags h c c0 → wf c → c_scopeStack c ≠ [] → ext c0 fin → around hs k c → pre hs c m →
  ∃ m', steps P m m' ∧ pre (hs ++ [h]) c0 m' ∧ same_regs m m' ∧ k_world m' = k_world m.
Proof.
  intros [ [G Em C Pn N R A T] St F V Nh] W Hst X Ar Hp. pose proof (grows_count _ _ _ _ G). pose proof (w_current _ _ W).
  assert (Ek : next_frame (sc_frame (child c)) = length hs) by (rewrite child_frame, (a_frame _ _ _ _ Ar) by done; apply next_frame_of). rewrite Ek in Em.
  destruct (at_emits fin c c0 m _ (pr_at _ _ _ _ Hp) X ltac:(lia) Em) as (rest & Hm & _). destruct (R (pr_reach _ _ _ _ Hp)) as [R1 R2].
  set (m1 := set_frame (Some (length hs)) (set_code (ISetJmpBr (length hs) h (m_currentBlock c0) :: rest) m)).
  exists (enter P (m_currentBlock c0) (set_jmp (<[length hs := h]> (k_jmp m)) (set_code rest m1))). split; [|split; [|done] ].
  - eapply step_steps; [unfold step; rewrite Hm; reflexivity|]. by apply steps_one.
  - split; [|done|cbn; by rewrite frame_of_snoc|].
    + unfold at_end. rewrite C. cbn. by rewrite (code_of_plain fin c0).
    + eapply jmp_ok_snoc; [apply (pr_jmp _ _ _ _ Hp)|done].
Qed.

Lemma elem_snd (l : list (nat * nat)) b : b ∈ l.*2 → ∃ k, (k, b) ∈ l.
Proof. intros ([k y] & -> & H)%list_elem_of_fmap. by exists k. Qed.

(** The scope behind [finally] is closed. *)
Record closes_finally (f : nat) (c d1 c' : CState) (tb : nat) : Prop := {
  cf_quiet : wf d1 ∧ (∀ x, x < c_blockCount c → blk d1 x = blk c x) ∧ m_currentBlock d1 = m_currentBlock c;
  cf_throw : m_dynamicThrowBlock d1 = Some tb ∧ m_dynamicThrowBlock c' = Some tb;
  cf_end : (routes c f = [] ∧ ∃ d2, jumps isVoid (IBr tb) [tb] None d1 d2 ∧ c' = pop d2) ∨
    (code c' (m_currentBlock c) = code c (m_currentBlock c) ++ [ISwitch (routes c f) tb] ∧ (∀ k b, (k, b) ∈ routes c f → reached c' b = true) ∧
     ∀ b, m_catchFinallyFollowBlock c = Some b → m_currentBlock c' = b ∧ code c' b = [])
}.

Lemma reach_all_throw v l c : m_dynamicThrowBlock (reach_all v l c) = m_dynamicThrowBlock c.
Proof. revert c. by induction l as [|b l IH]; intros c; [|exact (IH (upd_blk b (b_reach v) c))]. Qed.

Lemma close_finally_spec n c c' s st f : closeScope isVoid c = inl (tt, c') → wf c → c_scopeStack c = s :: st → let S := scope c s in
  f_Try (sc_flags S) = false → f_Catch (sc_flags S) = false → f_Finally (sc_flags S) = true → sc_finallyBlock S = Some f → f < c_blockCount c → follow_ok n c →
  (∀ b, m_catchFinallyFollowBlock c = Some b → routes c f ≠ []) →
  grows (λ x, m_catchFinallyFollowBlock c = Some x) c c' ∧ c_scopeStack c' = st ∧ (∀ x, x ≠ s → scope c' x = scope c x) ∧ m_catchFinallyFollowBlock c' = None ∧
  (open c → open c') ∧ (reachable c = true → ∃ tb d1, closes_finally f c d1 c' tb).
Proof.
  intros H W Hst S H1 H2 H3 Hf Hlt Fo Hrt. destruct (closeScope_finally_inv isVoid _ _ _ _ H Hst H1 H2 H3) as (f' & d2 & Hf' & -> & Hd). fold S in Hf'. assert (f' = f) as -> by congruence. clear Hf'.
  set (d := upd_scp s clear_finally c) in *. assert (Gd : grows none c d) by (by apply grows_upd_flags; [apply c_grows_refl|]). assert (Wd : wf d) by apply Gd.
  assert (Hsc : ∀ x, x ≠ s → scope d x = scope c x) by (intros x Hx; unfold d; by rewrite scope_upd, decide_False by (by apply not_eq_sym)).
  assert (Hpop : c_scopeStack (pop d) = st) by (cbn; by rewrite Hst).
  destruct (reachable c) eqn:Hr.
  2: { subst d2. split; [by apply grows_pop, grows_followBlock; eapply grows_weaken|]. split; [done|]. split; [done|]. split; [done|]. split; [|done]. intros _ Hre. change (reachable c = true) in Hre. congruence. }
  destruct Hd as (tb & d1 & Hg & Hd). destruct (getDynamicThrowBlock_quiet isVoid _ _ _ Hg Wd) as [ [G1 B1 C1 S1 _] Ht]. assert (W1 : wf d1) by apply G1.
  assert (Gc : grows none c d1) by (by eapply grows_trans0). pose proof (w_current _ _ W) as Hcur. assert (B2 : ∀ x, x < c_blockCount c → blk d1 x = blk c x) by exact B1. rewrite B2 in Hd by done.
  assert (Hq : wf d1 ∧ (∀ x, x < c_blockCount c → blk d1 x = blk c x) ∧ m_currentBlock d1 = m_currentBlock c) by (split; [done|split; [exact B1|exact C1] ]).
  destruct (w_throw _ _ W1 _ Ht) as (Htb & _ & _ & Htu).
  destruct (routes c f) as [|p rts] eqn:Er.
  { pose proof (jump_spec isVoid _ _ _ _ Hd W1 Htb Htu ltac:(done)) as J. destruct (j_same _ _ _ _ _ _ J) as [J1 J2 J3 J4]. assert (Hn : m_catchFinallyFollowBlock c = None).
    { destruct (m_catchFinallyFollowBlock c) as [b|]; [|done]. by destruct (Hrt b eq_refl). }
    split; [|split; [|split; [|split; [|split] ] ] ].
    - apply grows_pop. eapply grows_jumps; [exact Gc|exact J|]. by intros x _ [ []|[=] ].
    - cbn. by rewrite J1, (s_stack _ _ S1), <-Hpop.
    - intros x Hx. change (scope d2 x = scope c x). rewrite (same_scope _ _ _ (j_same _ _ _ _ _ _ J)), (same_scope _ _ _ S1). by apply Hsc.
    - change (m_catchFinallyFollowBlock d2 = None). by rewrite J4, (s_follow _ _ S1).
    - intros _. apply (jumps_open _ _ _ _ _ _ J).
    - intros _. exists tb, d1. split; [done| |left; split; [done|by exists d2] ]. split; [done|]. apply (e_throw _ _ (g_ext _ _ _ _ (j_grows _ _ _ _ _ _ J))), Ht. }
  rewrite <-Er in *. clear Er. set (d3 := emitted (ISwitch (routes c f) tb) (reach_all true (routes c f).*2 d1)) in *.
  destruct (reach_all_spec isVoid true none c (routes c f).*2 d1 Gc) as (R1 & R2 & R3 & R4 & R5 & R6 & R7 & R8).
  { intros _ b (k & Hb)%elem_snd. rewrite <-(B2 f Hlt) in Hb. by apply (w_route_to _ _ W1 f k b). }
  assert (G3 : grows none c d3) by (by apply grows_emit). assert (S3 : same d d3) by (eapply c_same_trans; [exact S1|]; eapply c_same_trans; [exact R2|done]).
  assert (Hfo3 : m_catchFinallyFollowBlock d3 = m_catchFinallyFollowBlock c) by apply (s_follow _ _ S3).
  assert (Hc3 : code d3 (m_currentBlock c) = code c (m_currentBlock c) ++ [ISwitch (routes c f) tb]).
  { unfold d3, emitted. rewrite blk_upd, decide_True by (rewrite R5; exact C1). cbn. destruct (R3 (m_currentBlock (reach_all true (routes c f).*2 d1))) as [-> _]. by rewrite R5, C1, B2. }
  assert (Hr3 : ∀ k b, (k, b) ∈ routes c f → reached d3 b = true).
  { intros k b Hb. assert (Hre : reached (reach_all true (routes c f).*2 d1) b = true) by (apply R4; [done|left; apply list_elem_of_fmap; by exists (k, b)]).
    unfold d3, emitted. rewrite blk_upd. by destruct (decide _) as [<-|]. }
  cbv zeta in Hd. fold d3 in Hd. rewrite Hfo3 in Hd. pose proof (grows_count _ _ _ _ G3) as N3.
  assert (Ht3 : m_dynamicThrowBlock d3 = Some tb) by (change (m_dynamicThrowBlock d3) with (m_dynamicThrowBlock (reach_all true (routes c f).*2 d1)); by rewrite reach_all_throw).
  destruct (m_catchFinallyFollowBlock c) as [b|] eqn:Efo.
  - subst d2. destruct (Fo b Efo) as (_ & Ib & Pb). pose proof (i_count _ _ Ib) as Hb. assert (Ib3 : idle d3 b) by apply (grows_idle _ _ _ _ G3 Ib).
    split; [|split; [|split; [|split; [|split] ] ] ].
    + apply grows_pop, grows_followBlock, grows_current; [by eapply grows_weaken|lia|done].
    + change (tail (c_scopeStack d3) = st). by rewrite (s_stack _ _ S3).
    + intros x Hx. change (scope d3 x = scope c x). rewrite (same_scope _ _ _ S3). by apply Hsc.
    + done.
    + intros _. apply empty_open, (i_code _ _ Ib3).
    + intros _. exists tb, d1. split; [done|done|right]. split; [exact Hc3|]. split; [exact Hr3|]. intros b' Hb'. assert (b' = b) as -> by congruence. split; [done|apply (i_code _ _ Ib3)].
  - destruct Hd as (u & d4 & Hu & ->). destruct (getUnreachableBlock_quiet isVoid _ _ _ Hu (g_wf _ _ _ _ G3)) as [ [G4 B4 C4 S4 _] Hu4].
    assert (G : grows none c d4) by (by eapply grows_trans0). pose proof (e_throw _ _ (g_ext _ _ _ _ G4) _ Ht3) as Ht4. destruct (w_unreachable _ _ (g_wf _ _ _ _ G) _ Hu4) as [Hu1 Hu2].
    split; [|split; [|split; [|split; [|split] ] ] ].
    + apply grows_pop, grows_current; [by eapply grows_weaken|done|]. intros I. pose proof (grows_idle _ _ _ _ G I) as I2. destruct (i_special _ _ I2). by left.
    + change (tail (c_scopeStack d4) = st). by rewrite (s_stack _ _ S4), (s_stack _ _ S3).
    + intros x Hx. change (scope d4 x = scope c x). rewrite (same_scope _ _ _ S4), (same_scope _ _ _ S3). by apply Hsc.
    + change (m_catchFinallyFollowBlock d4 = None). by rewrite (s_follow _ _ S4).
    + intros _. by apply dead_open.
    + intros _. exists tb, d1. split; [done|done|right]. split; [|split; [|intros b' Hb'; congruence] ].
      * change (code d4 (m_currentBlock c) = code c (m_currentBlock c) ++ [ISwitch (routes c f) tb]). rewrite B4 by lia. exact Hc3.
      * intros k b Hb. apply (e_reach _ _ (g_ext _ _ _ _ G4)); [|by apply (Hr3 k)]. rewrite <-(B2 f Hlt) in Hb. destruct (w_route_to _ _ W1 f k b Hb) as [Hb1 _].
        change (c_blockCount d3) with (c_blockCount (reach_all true (routes c f).*2 d1)). rewrite R6. done.
Qed.
End labels.
