(* ===== verification/ControlFlowFinally.v ===== *)
(** * Control flow: [finally]

    The part behind a [finally] label, which comes after all ways to leave what is before the label, and goes on where each of
    them leads. *)

From S2P Require Import Prelude ControlFlow ControlFlowRun ControlFlowInv ControlFlowOps ControlFlowScope ControlFlowRoute ControlFlowLabels ControlFlowSim ControlFlowLeaf ControlFlowStmt ControlFlowLoop ControlFlowTry.

Open Scope nat_scope.

#[local] Strategy 1000 [mbind Comp_bind mret Comp_ret].

Section finally.
Context `{E : Effects} (isVoid isErrorCode : bool) (fin : CState) (Wfin : wf isVoid fin).

#[local] Abbreviation grows := (grows isVoid).
#[local] Abbreviation wf := (wf isVoid).
#[local] Abbreviation none := (λ _ : nat, False).
#[local] Abbreviation P := (finalizeFunction fin).
#[local] Abbreviation fa := (m_sjljFrameArrayValue fin).
#[local] Abbreviation kept := (kept isVoid).
#[local] Abbreviation held := (held isVoid).
#[local] Abbreviation post := (post isVoid fin).
#[local] Abbreviation pre := (pre fin).
#[local] Abbreviation around := (around fin).
#[local] Abbreviation ok := (ok isVoid isErrorCode fin).
#[local] Abbreviation good := (good isVoid isErrorCode fin).

(** ** Before the label *)

(** A scope with [finally] ahead and no block to catch: its handler goes to the [finally] block. *)
Record region (c d : CState) (sid f hb : nat) : Prop := {
  rg_guard : guard c d sid (Some f) None;
  rg_grows : grows none c d;
  rg_scopes s : s < c_scopeCount c → scope d s = scope c s;
  rg_sid : c_scopeCount c ≤ sid < c_scopeCount d;
  rg_idle : idle d f;
  rg_new : c_blockCount c ≤ f;
  rg_plain : plain d hb;
  rg_code : [IStoreRoute None; IBr f] `prefix_of` code d hb;
  rg_array : m_sjljFrameArrayValue d = true;
  rg_owner s : ¬ owns d s f
}.

(** Where the part behind the label begins. *)
Record fstart (c c3 cj c4 : CState) (f : nat) : Prop := {
  fs_label : label_open isVoid none Flag_Finally (sc_set_finally (Some f)) f c3 cj c4;
  fs_inside : inside c c4 (c_scopeCount cj);
  fs_scopes s : s < c_scopeCount c → scope c4 s = scope c s;
  fs_count : c_scopeCount c ≤ c_scopeCount cj;
  fs_flags : let S := scope c4 (c_scopeCount cj) in
    f_Try (sc_flags S) = false ∧ f_Catch (sc_flags S) = false ∧ f_Finally (sc_flags S) = true ∧ sc_finallyBlock S = Some f ∧
    sc_breakBlock S = None ∧ sc_continueBlock S = None;
  fs_follow : follow_ok (c_blockCount c) c4;
  fs_routes b : m_catchFinallyFollowBlock c4 = Some b → routes c4 f ≠ [];
  fs_keeps b : m_catchFinallyFollowBlock c3 = Some b → m_catchFinallyFollowBlock c4 = Some b;
  fs_normal : reachable c3 = true → reached c4 f = true ∧ ∃ r b, code c4 (m_currentBlock c3) = code c3 (m_currentBlock c3) ++ [IStoreRoute (Some r); IBr f] ∧
    m_catchFinallyFollowBlock c4 = Some b ∧ find_key r (routes c4 f) = Some b
}.

Lemma opened_flags_label fl c : c_scopeStack c ≠ [] → let f := opened_flags fl c in
  f_Try f = f_Try fl ∧ f_Catch f = f_Catch fl ∧ f_Finally f = f_Finally fl ∧ f_CatchAhead f = f_CatchAhead fl ∧ f_FinallyAhead f = f_FinallyAhead fl ∧
  f_HasCatch f = f_HasCatch (sc_flags (top c)) || f_HasCatch fl ∧ f_Finalizable f = f_Finalizable (sc_flags (top c)) || f_Finalizable fl ∧
  f_Function f = f_Function fl || bool_decide (c_scopeStack c = [0]).
Proof.
  intros Hst. unfold opened_flags, child, top. destruct (c_scopeStack c) as [|s l]; [done|]. unfold hd. destruct (decide (s :: l = [0])) as [->|Hne]; cbn; rewrite ?orb_false_r.
  - split_and!; done.
  - rewrite bool_decide_eq_false_2 by done. rewrite orb_false_r. split_and!; done.
Qed.

(** The code before the label is left: what is behind the scope. *)
Record past (c c3 cj : CState) (f : nat) : Prop := {
  ps_grows : grows none c3 cj;
  ps_ext : ext (pop c3) cj;
  ps_stack : c_scopeStack cj = c_scopeStack c;
  ps_count : c_scopeCount cj = c_scopeCount c3;
  ps_scopes s : s < c_scopeCount c → scope cj s = scope c s;
  ps_follow : follow_ok (c_blockCount c) cj;
  ps_other b : m_catchFinallyFollowBlock cj = Some b → b ≠ f;
  ps_new b : m_catchFinallyFollowBlock c3 = None → m_catchFinallyFollowBlock cj = Some b → c_blockCount c3 ≤ b;
  ps_routes b : m_catchFinallyFollowBlock cj = Some b → routes cj f ≠ [];
  ps_idle : idle cj f;
  ps_keeps b : m_catchFinallyFollowBlock c3 = Some b → m_catchFinallyFollowBlock cj = Some b;
  ps_normal : reachable c3 = true → reached cj f = true ∧ ∃ r b, code cj (m_currentBlock c3) = code c3 (m_currentBlock c3) ++ [IStoreRoute (Some r); IBr f] ∧
    m_catchFinallyFollowBlock cj = Some b ∧ find_key r (routes cj f) = Some b
}.

Lemma past_intro c sid f c3 cj : wf c3 → idle c3 f → c_scopeStack c3 = sid :: c_scopeStack c → (∀ s, s < c_scopeCount c → scope c3 s = scope c s) → ahead c3 sid = Some f →
  c_blockCount c ≤ c_blockCount c3 → follow_ok (c_blockCount c) c3 → (∀ b, m_catchFinallyFollowBlock c3 = Some b → routes c3 f ≠ []) →
  (if reachable c3 then normalFinallyFlow f (pop c3) = inl (tt, cj) else cj = pop c3) → past c c3 cj f.
Proof.
  intros W3 If3 Hst3 Hsc Ha Hle F Hrt Hj. assert (Wp : wf (pop c3)) by (by apply wf_pop).
  assert (Hst : c_scopeStack (pop c3) = c_scopeStack c) by (cbn; by rewrite Hst3). assert (G3 : grows none c3 (pop c3)) by (by apply grows_pop, c_grows_refl).
  assert (Fp : follow_ok (c_blockCount c) (pop c3)) by (eapply follow_ok_ext; [exact F|exact G3|done|done]).
  assert (Hbf : ∀ b, m_catchFinallyFollowBlock c3 = Some b → b ≠ f).
  { intros b Hb ->. destruct (F f Hb) as (_ & _ & [_ _ Hp]). apply Hp. right. apply elem_all_ahead. exists sid. rewrite Hst3. split; [left|exact Ha]. }
  destruct (reachable c3) eqn:Hr3.
  - pose proof (i_count _ _ If3) as Hf3. assert (Hnew : ∀ b, m_catchFinallyFollowBlock c3 = None → m_catchFinallyFollowBlock cj = Some b → c_blockCount c3 ≤ b).
    { intros b Eb Hb. pose proof (normalFinallyFlow_spec isVoid (c_blockCount (pop c3)) _ _ _ Hj Wp (idle_pop _ _ If3) (follow_ok_none _ (pop c3) Eb) ltac:(done)) as Fl.
      apply (fl_follow_ok _ _ _ _ _ Fl _ Hb). }
    destruct (normalFinallyFlow_spec isVoid (c_blockCount c) _ _ _ Hj Wp (idle_pop _ _ If3) Fp Hle) as [G (S1 & S2 & S3) D F4 (r & b & Hc & Hfo & Hk) Hkeep Hre].
    split; try done; [by eapply grows_trans0|apply G|by rewrite S1|intros s Hs; unfold scope; rewrite S2; by apply Hsc| | |by apply (grows_idle _ _ _ _ G), idle_pop|].
    + intros b' Hb'. destruct (m_catchFinallyFollowBlock c3) as [b0|] eqn:Eb; [|pose proof (Hnew b' eq_refl Hb'); lia]. pose proof (Hkeep b0 Eb). assert (b' = b0) as -> by congruence. by apply Hbf.
    + intros b' _ Hnil. by rewrite Hnil in Hk.
    + intros _. split; [by apply Hre|]. by exists r, b.
  - subst cj. split; try done; [intros b H1 H2; change (m_catchFinallyFollowBlock c3 = Some b) in H2; congruence|by apply idle_pop|congruence].
Qed.

Lemma finally_flow c d sid f hb c3 cj : wf c → region c d sid f hb → kept d c3 → follow_ok (c_blockCount c) c3 →
  (∀ b, m_catchFinallyFollowBlock c3 = Some b → routes c3 f ≠ []) →
  (if reachable c3 then normalFinallyFlow f (pop c3) = inl (tt, cj) else cj = pop c3) → past c c3 cj f.
Proof.
  intros W R K F Hrt Hj. pose proof (rg_sid _ _ _ _ _ R) as Hsid. apply (past_intro c sid); try done.
  - apply K.
  - apply (grows_idle _ _ _ _ (kp_grows _ _ _ K) (rg_idle _ _ _ _ _ R)).
  - by rewrite (kp_stack _ _ _ K), (gd_stack _ _ _ _ _ (rg_guard _ _ _ _ _ R)).
  - intros s Hs. by rewrite (kp_scopes _ _ _ K), (rg_scopes _ _ _ _ _ R) by lia.
  - unfold ahead. rewrite (kp_scopes _ _ _ K) by lia. apply (gd_ahead _ _ _ _ _ (rg_guard _ _ _ _ _ R)).
  - pose proof (grows_count _ _ _ _ (kp_grows _ _ _ K)). pose proof (grows_count _ _ _ _ (rg_grows _ _ _ _ _ R)). lia.
Qed.

Lemma region_pending_label c d sid f hb c3 cj : wf c → region c d sid f hb → kept d c3 → ext (pop c3) cj → pending c3 f ∧ ¬ pending cj f.
Proof.
  intros W R K X. assert (W3 : wf c3) by apply K. pose proof (rg_sid _ _ _ _ _ R) as Hsid. pose proof (i_count _ _ (rg_idle _ _ _ _ _ R)) as Hf.
  assert (Hst : c_scopeStack c3 = sid :: c_scopeStack c) by (by rewrite (kp_stack _ _ _ K), (gd_stack _ _ _ _ _ (rg_guard _ _ _ _ _ R))).
  assert (Ha : ahead c3 sid = Some f) by (unfold ahead; rewrite (kp_scopes _ _ _ K) by lia; apply (gd_ahead _ _ _ _ _ (rg_guard _ _ _ _ _ R))).
  pose proof (grows_count _ _ _ _ (kp_grows _ _ _ K)) as Hle. split.
  - right. apply elem_all_ahead. exists sid. rewrite Hst. split; [left|exact Ha].
  - intros Hp. eapply (popped_pending isVoid c3 sid (c_scopeStack c) f W3 Hst); [apply (gd_new _ _ _ _ _ (rg_guard _ _ _ _ _ R))| |].
    + right. split; [done|]. intros s' Ho. apply (rg_owner _ _ _ _ _ R s'). by apply (e_owns _ _ (g_ext _ _ _ _ (kp_grows _ _ _ K))).
    + eapply ext_pending; [exact X| |exact Hp]. cbn. lia.
Qed.

Lemma finally_label c d sid f hb c3 cj c4 : wf c → c_scopeStack c ≠ [] → region c d sid f hb → kept d c3 → follow_ok (c_blockCount c) c3 →
  (∀ b, m_catchFinallyFollowBlock c3 = Some b → routes c3 f ≠ []) →
  (if reachable c3 then normalFinallyFlow f (pop c3) = inl (tt, cj) else cj = pop c3) → c4 = labeled Flag_Finally (sc_set_finally (Some f)) f cj → fstart c c3 cj c4 f.
Proof.
  intros W Hne R K F Hrt Hj ->. destruct (finally_flow _ _ _ _ _ _ _ W R K F Hrt Hj) as [G X Hst Hn Hsc Fj Bj _ Rj If Hkeep Hnorm].
  destruct (region_pending_label _ _ _ _ _ _ _ W R K X) as [Hp Hnp]. pose proof (rg_sid _ _ _ _ _ R) as Hsid.
  pose proof (e_scount _ _ (g_ext _ _ _ _ (kp_grows _ _ _ K))) as Hk. pose proof (i_count _ _ (grows_idle _ _ _ _ (kp_grows _ _ _ K) (rg_idle _ _ _ _ _ R))) as Hf3.
  assert (L : label_open isVoid none Flag_Finally (sc_set_finally (Some f)) f c3 cj (labeled Flag_Finally (sc_set_finally (Some f)) f cj)).
  { apply labeled_open; try done. intros s. split; [done|]. intros _ Ha. unfold scope_ahead. cbn. by rewrite Ha. }
  pose proof (lb_scope _ _ _ _ _ _ _ _ L) as Hs. destruct (opened_flags_label Flag_Finally cj) as (O1 & O2 & O3 & O4 & O5 & O6 & O7 & O8); [by rewrite Hst|].
  assert (Ht : top cj = top c).
  { unfold top. rewrite Hst. apply Hsc. destruct (c_scopeStack c) as [|x l] eqn:Ex; [done|]. apply (w_stack _ _ W). rewrite Ex. left. }
  rewrite Ht, orb_false_r in O6, O7.
  split.
  - done.
  - split; rewrite ?Hs; try done.
    + by rewrite (lb_stack _ _ _ _ _ _ _ _ L), Hst.
    + intros s Hin. pose proof (w_stack _ _ W s Hin). rewrite (lb_scopes _ _ _ _ _ _ _ _ L) by lia. by apply Hsc.
    + split; [lia|]. intros Hin. pose proof (w_stack _ _ W _ Hin). lia.
    + cbn [sc_frame sc_set_finally new_scope]. by rewrite child_frame, Ht by (by rewrite Hst).
    + unfold ahead. rewrite Hs. unfold scope_ahead. cbn [sc_flags sc_set_finally new_scope]. by rewrite O5.
  - intros s Hlt. rewrite (lb_scopes _ _ _ _ _ _ _ _ L) by lia. by apply Hsc.
  - lia.
  - cbv zeta. rewrite Hs. cbn [sc_flags sc_set_finally sc_finallyBlock sc_breakBlock sc_continueBlock new_scope]. by rewrite O1, O2, O3.
  - intros b Hb. rewrite (lb_follow _ _ _ _ _ _ _ _ L) in Hb. destruct (Fj b Hb) as (Q1 & Q2 & Q3). pose proof (Bj b Hb). split; [done|]. split; [by apply (lb_idle _ _ _ _ _ _ _ _ L)|by apply (lb_plain _ _ _ _ _ _ _ _ L)].
  - intros b. rewrite (lb_follow _ _ _ _ _ _ _ _ L), (lb_routes _ _ _ _ _ _ _ _ L). apply Rj.
  - intros b. rewrite (lb_follow _ _ _ _ _ _ _ _ L). apply Hkeep.
  - rewrite (lb_reached _ _ _ _ _ _ _ _ L), (lb_code _ _ _ _ _ _ _ _ L), (lb_follow _ _ _ _ _ _ _ _ L), (lb_routes _ _ _ _ _ _ _ _ L). apply Hnorm.
Qed.

(** ** At the label *)

(** The machine comes to the [finally] block, and the route tells how it came. *)
Record fpending (f : nat) (c c4 : CState) (hs : list nat) (o : outcome) (w : world) (m : Mach) : Prop := {
  fp_code : k_code m = code_of P f;
  fp_reached : reached c4 f = true;
  fp_jmp : jmp_ok hs m;
  fp_frame : frame_ok fin m;
  fp_world : k_world m = w;
  fp_saved : saved isVoid o m;
  fp_route : (o = ONormal ∧ ∃ b, m_catchFinallyFollowBlock c4 = Some b ∧ find_route (k_route m) (routes c4 f) = Some b) ∨
    (o = OThrow ∧ k_route m = None) ∨
    (∃ t b, target c c4 o t b ∧ chain c4 (k_route m) ((f :: fins c (Some t) (c_scopeStack c)) ++ [b]) ∧ landing c4 b ≠ None)
}.

Lemma target_ext c c2 c4 o t b : ext c2 c4 → target c c2 o t b → target c c4 o t b.
Proof. intros X. destruct o; try done. intros [H1 H2]. split; [done|by apply (e_return _ _ X)]. Qed.

Lemma target_chain_count f c c2 o t b x : wf c → wf c2 → c_blockCount c ≤ c_blockCount c2 → f < c_blockCount c2 → target c c2 o t b →
  x ∈ (f :: fins c (Some t) (c_scopeStack c)) ++ [b] → x < c_blockCount c2.
Proof.
  intros W W2 Hle Hf T. cbn. rewrite elem_of_cons, elem_of_app, list_elem_of_singleton. intros [->|[Hx|Hx] ]; [done| |subst; by apply (target_count isVoid _ _ _ _ _ W W2 Hle T)].
  destruct (w_ahead _ _ W x); [by apply (fins_ahead _ (Some t))|lia].
Qed.

Lemma fpending_ext f c c2 c4 hs o w m : wf c → wf c2 → c_blockCount c ≤ c_blockCount c2 → f < c_blockCount c2 → ext c2 c4 →
  (∀ b, m_catchFinallyFollowBlock c2 = Some b → m_catchFinallyFollowBlock c4 = Some b) → fpending f c c2 hs o w m → fpending f c c4 hs o w m.
Proof.
  intros W W2 Hle Hf X Hfo [H1 H2 H3 H4 H5 H6 H7]. split; try done; [by apply (e_reach _ _ X)|]. destruct H7 as [ (-> & b & Hb & Hr)|[H7|(t & b & T & Hc & Hl)] ]; [left|by right; left|right; right].
  - split; [done|]. exists b. split; [by apply Hfo|]. unfold find_route in *. destruct (k_route m); [|done]. by apply (e_route _ _ X).
  - exists t, b. split; [by eapply target_ext|]. split; [|apply (e_landing_some _ _ X); [by apply (target_count isVoid _ _ _ _ _ W W2 Hle T)|done] ].
    eapply chain_ext; [exact X| |exact Hc]. intros x. by eapply target_chain_count.
Qed.

Lemma frame_ok_array c m : m_sjljFrameArrayValue c = true → ext c fin → frame_ok fin m.
Proof. intros H X Hf. rewrite (e_frames _ _ X H) in Hf. done. Qed.

(** How what is before the label is left, the machine comes to the [finally] block. *)
Lemma region_pending c d sid f hb c3 cj c4 fr hs m o w : wf c → region c d sid f hb → kept d c3 → fstart c c3 cj c4 f → ext c4 fin → reached d f = true →
  post (hs ++ [hb]) d c3 fr m o w → ∃ m', steps P m m' ∧ fpending f c c4 hs o w m'.
Proof.
  intros W R K F X Hre Hp. assert (Wd : wf d) by apply (rg_grows _ _ _ _ _ R). assert (W3 : wf c3) by apply K.
  pose proof (fs_label _ _ _ _ _ F) as L. assert (X34 : ext c3 c4) by apply L. assert (Xd4 : ext d c4) by (eapply ext_trans; [apply K|done]).
  assert (Hok : ∀ m, frame_ok fin m) by (intros m1; apply (frame_ok_array d); [apply (rg_array _ _ _ _ _ R)|by eapply ext_trans]).
  pose proof (i_count _ _ (rg_idle _ _ _ _ _ R)) as Hf. assert (Hre4 : reached c4 f = true) by (by apply (e_reach _ _ Xd4)).
  destruct (is_normal o) as [->|Hne].
  - apply post_normal_inv in Hp as (m1 & S1 & Hp1 & _ & Hw). destruct (fs_normal _ _ _ _ _ F (pr_reach _ _ _ _ Hp1)) as (_ & r & b & Hc & Hb & Hk).
    destruct (at_emits fin c3 c4 m1 [IStoreRoute (Some r); IBr f] (pr_at _ _ _ _ Hp1) X) as (rest & Hm & _); [|exact Hc|].
    { pose proof (w_current _ _ W3). pose proof (e_count _ _ X34). lia. }
    exists (enter P f (set_code rest (set_route (Some r) (set_code (IBr f :: rest) m1)))). split.
    + eapply steps_trans; [exact S1|]. eapply step_steps; [unfold step; rewrite Hm; reflexivity|]. by apply steps_one.
    + split; try done; [eapply jmp_ok_prefix, (pr_jmp _ _ _ _ Hp1)|]. left. split; [done|]. by exists b.
  - destruct (guard_leaves isVoid fin hs hb fr c d sid (Some f) None c3 c4 m o w (rg_guard _ _ _ _ _ R)) as [ (-> & m1 & S1 & Hc & J & Hw)|[ (t & b & m1 & T & _ & S1 & A)|(v & _ & [=] & _)] ]; try done;
      [by left|apply (e_count _ _ (g_ext _ _ _ _ (kp_grows _ _ _ K)))|..].
    + pose proof (code_of_plain fin d hb (rg_plain _ _ _ _ _ R) ltac:(by eapply ext_trans)) as Ecode. rewrite Ecode in Hc.
      destruct (rg_code _ _ _ _ _ R) as [l1 Hl1]. destruct (e_code _ _ (ext_trans _ _ _ Xd4 X) hb) as [l2 Hl2]; [apply (rg_plain _ _ _ _ _ R)|]. rewrite Hl2, Hl1 in Hc. cbn in Hc.
      exists (enter P f (set_code (l1 ++ l2) (set_route None (set_code (IBr f :: l1 ++ l2) m1)))). split.
      * eapply steps_trans; [exact S1|]. eapply step_steps; [unfold step; rewrite Hc; reflexivity|]. by apply steps_one.
      * split; try done. right; left. done.
    + exists m1. split; [done|]. destruct A as [A1 A2 A3 A4 A5 A6 A7 A8]. split; try done. right; right. by exists t, b.
Qed.

(** ** Behind the label *)

Lemma find_route_in r l x : find_route r l = Some x → ∃ k, (k, x) ∈ l.
Proof.
  unfold find_route, find_key. destruct r as [r|]; [|done]. cbn. destruct (list_find _ l) as [ [i [k y] ]|] eqn:Hl; [|done]. cbn. intros [= <-]. apply list_find_Some in Hl as (Hl & _).
  exists k. by eapply list_elem_of_lookup_2.
Qed.

Lemma routes_stay c c' f : ext c c' → f < c_blockCount c → routes c f ≠ [] → routes c' f ≠ [].
Proof.
  intros X Hf Hne. destruct (routes c f) as [|[k x] l] eqn:Er; [done|]. assert (Hk : find_key k (routes c f) = Some x) by (rewrite Er; unfold find_key; cbn; by rewrite decide_True).
  pose proof (e_route _ _ X f k x Hf Hk) as Hk'. intros Hn. by rewrite Hn in Hk'.
Qed.

(** The part behind the label is closed. *)
Record fend (c c4 c5 c' : CState) (f : nat) : Prop := {
  fe_kept : kept c4 c5;
  fe_ext : ext c5 c';
  fe_wf : wf c';
  fe_follow : follow_ok (c_blockCount c) c5;
  fe_closes : reachable c5 = true → ∃ tb d1, closes_finally isVoid f c5 d1 c' tb
}.

Lemma finally_close c c3 cj c4 c5 c' f : wf c → grows none c c3 → fstart c c3 cj c4 f → c_blockCount c ≤ f → kept c4 c5 → closeScope isVoid c5 = inl (tt, c') →
  m_catchFinallyFollowBlock c = None → kept c c' ∧ fend c c4 c5 c' f.
Proof.
  intros W G F Hf K H Hfo. set (sid := c_scopeCount cj). pose proof (fs_label _ _ _ _ _ F) as L. pose proof (fs_inside _ _ _ _ _ F) as I.
  assert (W5 : wf c5) by apply K. assert (Hlt : sid < c_scopeCount c4) by (rewrite (lb_count _ _ _ _ _ _ _ _ L); unfold sid; lia).
  assert (Hst : c_scopeStack c5 = sid :: c_scopeStack c) by (rewrite (kp_stack _ _ _ K); apply I).
  destruct (fs_flags _ _ _ _ _ F) as (F1 & F2 & F3 & F4 & _). fold sid in F1, F2, F3, F4. rewrite <-(kp_scopes _ _ _ K _ Hlt) in F1, F2, F3, F4.
  destruct (lb_here _ _ _ _ _ _ _ _ L) as [Hh _]. assert (Hf4 : f < c_blockCount c4) by (rewrite <-Hh; apply (w_current isVoid), L).
  assert (Fo : follow_ok (c_blockCount c) c5) by (eapply follow_ok_ext; [apply (fs_follow _ _ _ _ _ F)|apply K|done|apply K]).
  pose proof (grows_count _ _ _ _ (kp_grows _ _ _ K)) as N45.
  destruct (close_finally_spec isVoid (c_blockCount c) c5 c' sid (c_scopeStack c) f H W5 Hst F1 F2 F3 F4) as (G' & Hst' & Hsc & Hfo' & O' & Hc); [lia|done| |].
  { intros b Hb. rewrite (kp_follow _ _ _ K) in Hb. eapply routes_stay; [apply K|done|]. by eapply (fs_routes _ _ _ _ _ F). }
  split; [|split; [done|apply G'|apply G'|done|done] ]. split.
  - assert (Gx : grows (λ x, (False ∨ (False ∨ x = f)) ∨ (False ∨ m_catchFinallyFollowBlock c5 = Some x)) c c').
    { eapply c_grows_trans; [eapply c_grows_trans; [exact G|apply L]|eapply c_grows_trans; [apply K|exact G'] ]. }
    eapply grows_weaken; [exact Gx|]. intros x [ [ []|[ []|Hx] ]|[ []|Hx] ] Hlx; [lia|]. destruct (Fo x Hx). lia.
  - apply O', (kp_open _ _ _ K).
  - done.
  - intros s Hs. pose proof (fs_count _ _ _ _ _ F). rewrite Hsc by (unfold sid; lia). rewrite (kp_scopes _ _ _ K) by (rewrite (lb_count _ _ _ _ _ _ _ _ L); lia).
    by apply (fs_scopes _ _ _ _ _ F).
  - by rewrite Hfo', Hfo.
Qed.

(** What is behind the label is done: on where the route leads. *)
Lemma finally_normal c c3 cj c4 c5 c' f hs k o w m m1 m2 : wf c → fstart c c3 cj c4 f → fend c c4 c5 c' f → ext c' fin → c_blockCount c ≤ c_blockCount c4 → f < c_blockCount c4 → around hs k c →
  fpending f c c4 hs o w m → steps P m m1 → k_route m1 = k_route m → k_ret m1 = k_ret m → steps P m1 m2 → pre hs c5 m2 → same_regs m1 m2 → post hs c c' false m o (k_world m2).
Proof.
  intros W F [K X5 W' Fo Hcl] X Hle Hf A [_ Hre _ _ _ Hsv Hrt] S1 R1 R1' S2 Hp [Rr Rt]. assert (W5 : wf c5) by apply K. assert (Xf : ext c5 fin) by (by eapply ext_trans).
  assert (X45 : ext c4 c5) by apply K. destruct (Hcl (pr_reach _ _ _ _ Hp)) as (tb & d1 & [ (Wd1 & Bd1 & Cd1) [Ht1 Ht2] Hend]). pose proof (w_current _ _ W5) as Hc5.
  assert (Sm : steps P m m2) by (by eapply steps_trans). eapply post_steps; [exact Sm|done|]. rewrite <-R1, <-Rr in Hrt.
  assert (Hfind : ∀ x, find_route (k_route m2) (routes c4 f) = Some x → find_route (k_route m2) (routes c5 f) = Some x).
  { intros x Hx. unfold find_route in *. destruct (k_route m2); [|done]. by apply (e_route _ _ X45). }
  assert (Hok : frame_ok fin m2) by (apply (frame_of_ok fin hs k c); [done|apply Hp]).
  destruct Hend as [ (Er & d2 & J & ->)|(Hcode & Hreach & Hfollow)].
  - rewrite Er in Hfind. assert (Hno : ∀ x, find_route (k_route m2) (routes c4 f) ≠ Some x) by (intros x Hx; apply Hfind in Hx; unfold find_route in Hx; by destruct (k_route m2)).
    destruct Hrt as [ (_ & b & _ & Hr)|[ (-> & Hr)|(t & b & T & Hch & _)] ]; [by destruct (Hno b)| |].
    + eapply (jump_throw isVoid fin Wfin hs d1 d2 c (pop d2) false tb m2 Wd1 J Ht1 ltac:(eapply ext_trans; [apply ext_pop, ext_refl|done])).
      destruct Hp as [H1 H2 H3 H4]. split; try done; [unfold at_end in *|unfold reachable in *]; by rewrite Cd1, Bd1.
    + cbn in Hch. destruct (fins c (Some t) (c_scopeStack c) ++ [b]) as [|y l] eqn:El; [by destruct (fins c (Some t) (c_scopeStack c))|]. by destruct (Hno y), Hch.
  - destruct (at_emits fin c5 c' m2 [ISwitch (routes c5 f) tb] (pr_at _ _ _ _ Hp) X ltac:(pose proof (e_count _ _ X5); lia) Hcode) as (rest & Hm & _).
    set (m3 := λ x, enter P x (set_code rest m2)).
    assert (Hstep : step P m2 = inl (m3 (default tb (find_route (k_route m2) (routes c5 f))))) by (unfold step; rewrite Hm; done).
    destruct Hrt as [ (-> & b & Hb & Hr)|[ (-> & Hr)|(t & b & T & Hch & Hl)] ].
    + rewrite (Hfind _ Hr) in Hstep. cbn in Hstep. rewrite <-(kp_follow _ _ _ K) in Hb. destruct (Hfollow b Hb) as [Hc1 Hc2]. destruct (Fo b Hb) as (_ & _ & Pb).
      destruct (find_route_in _ _ _ (Hfind _ Hr)) as [k' Hin]. apply (post_normal_enters isVoid fin hs b _ m2 (m3 b)).
      * split; try done; [by apply steps_one|apply Hp|apply Hp].
      * apply (enters_pre fin hs b (k_world m2) m2); [split; try done; [by apply steps_one|apply Hp|apply Hp]|by eapply plain_ext|done|done|by eapply Hreach].
    + rewrite Hr in Hstep. cbn in Hstep. eapply post_steps; [by apply steps_one|done|]. change (k_world m2) with (k_world (m3 tb)).
      eapply (dynamic_throw isVoid fin Wfin); [by apply (e_throw _ _ X)|done|apply Hp|apply Hp].
    + set (l := fins c (Some t) (c_scopeStack c)) in *. assert (Hh : find_route (k_route m2) (routes c4 f) = Some (hd b l) ∧ chain c4 (k_route m2) (l ++ [b])).
      { cbn in Hch. destruct l; exact Hch. }
      destruct Hh as [Hh Hch2]. rewrite (Hfind _ Hh) in Hstep. cbn in Hstep. assert (X4' : ext c4 c') by (by eapply ext_trans).
      assert (W4 : wf c4) by apply (fs_label _ _ _ _ _ F).
      eapply post_leaves; [by eapply target_ext|by apply steps_one| |done]. destruct (find_route_in _ _ _ (Hfind _ Hh)) as [k' Hin]. split; try done.
      * by eapply Hreach.
      * eapply chain_ext; [exact X4'| |exact Hch2]. intros x Hx. eapply target_chain_count; [exact W|exact W4|exact Hle|exact Hf|exact T|]. by right.
      * apply (e_landing_some _ _ X4'); [|done]. by apply (target_count isVoid _ _ _ _ _ W W4 Hle T).
      * apply Hp.
      * destruct o; try done. cbn in *. destruct isVoid; [done|congruence].
Qed.

Definition after_finally (o o2 : outcome) : outcome := match o2 with ONormal => o | o2 => o2 end.

Lemma finally_sim c c3 cj c4 c5 c' f s hs k fuel o w o2 w2 m : wf c → fstart c c3 cj c4 f → fend c c4 c5 c' f → ok s c4 c5 → ControlFlowSim.free s = true → ext c' fin →
  c_blockCount c ≤ c_blockCount c4 → around hs k c → fpending f c c4 hs o w m → eval isErrorCode fuel k s w = Some (o2, w2) → post hs c c' false m (after_finally o o2) w2.
Proof.
  intros W F Fe [K M] Hfree X Hle A Fp Hev. pose proof (fs_label _ _ _ _ _ F) as L. pose proof (fs_inside _ _ _ _ _ F) as I. pose proof (fe_ext _ _ _ _ _ Fe) as X5.
  assert (Xf : ext c5 fin) by (by eapply ext_trans). assert (X4 : ext c4 fin) by (eapply ext_trans; [apply K|done]). assert (W4 : wf c4) by apply L.
  destruct (lb_here _ _ _ _ _ _ _ _ L) as [Hh _]. assert (Hf4 : f < c_blockCount c4) by (rewrite <-Hh; apply (w_current _ _ W4)).
  destruct (label_enter isVoid fin none _ _ f c3 cj c4 hs m L X4) as (m1 & S1 & Hp1 & [R1 R1'] & Hw1); [by rewrite (in_frame _ _ _ I), (a_frame _ _ _ _ A)|apply (a_array _ _ _ _ A)|apply Fp..|].
  rewrite <-(fp_world _ _ _ _ _ _ _ Fp), <-Hw1 in Hev. pose proof (M _ _ _ _ _ _ Xf (inside_around _ _ _ _ _ _ I A) Hp1 Hev) as Hpost. rewrite Hfree in Hpost.
  destruct (is_normal o2) as [->|Hne].
  - apply post_normal_inv in Hpost as (m2 & S2 & Hp2 & Hr2 & <-). eapply (finally_normal c c3 cj c4 c5 c' f hs k o w m m1 m2); try done. by apply Hr2.
  - assert (after_finally o o2 = o2) as -> by (by destruct o2). eapply post_steps; [exact S1|done|].
    destruct (fs_flags _ _ _ _ _ F) as (_ & _ & _ & _ & B1 & B2).
    destruct (post_inside isVoid fin false hs c c4 c5 c' (c_scopeCount cj) true false m1 o2 w2) as [ (b & m2 & (n & _ & [ [_ Hc]|[_ Hc] ]) & _)|[Hq _] ]; try done; [by apply K|by eapply grows_count, K|by rewrite B1 in Hc|by rewrite B2 in Hc].
Qed.

(** ** Scopes *)

(** What handles a throw: a [try] without labels goes on. *)
Definition handler (isTry : bool) (s_catch : option stmt) : option stmt := match s_catch with Some h => Some h | None => if isTry then Some SSkip else None end.

Lemma eval_scope fuel k isTry s s_catch s_finally w o w' : eval isErrorCode (S fuel) k (SScope isTry s s_catch s_finally) w = Some (o, w') →
  ∃ o1 w1 o2 w2, eval isErrorCode fuel (k || bool_decide (is_Some (handler isTry s_catch))) s w = Some (o1, w1) ∧
    (match o1, handler isTry s_catch with OThrow, Some h => eval isErrorCode fuel k h w1 = Some (o2, w2) | _, _ => o2 = o1 ∧ w2 = w1 end) ∧
    match s_finally with None => o = o2 ∧ w' = w2 | Some h => ∃ o3, eval isErrorCode fuel k h w2 = Some (o3, w') ∧ o = after_finally o2 o3 end.
Proof.
  intros H. cbn in H. assert (k || isTry || bool_decide (is_Some s_catch) = k || bool_decide (is_Some (handler isTry s_catch))) as Ek.
  { rewrite <-orb_assoc. f_equal. unfold handler. by destruct s_catch, isTry. }
  rewrite Ek in H. destruct (eval _ _ (k || _) s w) as [ [o1 w1]|] eqn:H1; [|done]. cbn in H.
  assert (Hskip : ∀ w, eval isErrorCode fuel k SSkip w = Some (ONormal, w)) by (by destruct fuel). exists o1, w1.
  assert (∃ o2 w2, (match o1, handler isTry s_catch with OThrow, Some h => eval isErrorCode fuel k h w1 = Some (o2, w2) | _, _ => o2 = o1 ∧ w2 = w1 end) ∧
    match s_finally with None => Some (o2, w2) | Some h => r2 ← eval isErrorCode fuel k h w2; match r2 with (ONormal, w) => Some (o2, w) | r2 => Some r2 end end = Some (o, w')) as (o2 & w2 & H2 & H3).
  { unfold handler. destruct o1; cbn in H; try (do 2 eexists; split; [by split|exact H]). destruct s_catch as [h|].
    - destruct (eval isErrorCode fuel k h w1) as [ [o2 w2]|] eqn:He; [|done]. cbn in H. exists o2, w2. by split.
    - exists (if isTry then ONormal else OThrow), w1. split; [destruct isTry; [by rewrite Hskip|done]|exact H]. }
  exists o2, w2. split; [done|]. split; [done|]. destruct s_finally as [h|]; [|by injection H3 as <- <-].
  destruct (eval isErrorCode fuel k h w2) as [ [o3 w3]|] eqn:He; [|done]. cbn in H3. exists o3. by destruct o3; injection H3 as <- <-.
Qed.

Lemma guard_around hs h k c d sid af : guard c d sid af None → around hs k c → sc_frame (scope d sid) = Some (length hs) → m_sjljFrameArrayValue d = true → ext d fin →
  f_HasCatch (sc_flags (scope d sid)) = f_HasCatch (sc_flags (top c)) → around (hs ++ [h]) k d.
Proof.
  intros G [A1 A2 A3 A4] Hf Ha X Hc. assert (Et : top d = scope d sid) by (unfold top; by rewrite (gd_stack _ _ _ _ _ G)). split; rewrite ?Et.
  - by rewrite Hf, frame_of_snoc.
  - right. by apply (e_frames _ _ X).
  - congruence.
  - rewrite (gd_stack _ _ _ _ _ G). cbn. rewrite (gd_catch _ _ _ _ _ G). by rewrite (find_scope_same c d _ _ (gd_scopes _ _ _ _ _ G)).
Qed.

Lemma opened_region flags c sid d : openScope flags c = inl (sid, d) → wf c → c_scopeStack c ≠ [] → f_Try flags = false → f_CatchAhead flags = false → f_FinallyAhead flags = true →
  f_Finalizable flags = true → ∃ f hb, region c d sid f hb ∧ opens isVoid flags hb c d ∧ (reachable c = true → reached d f = true) ∧ sid = c_scopeCount c ∧
    scope d sid = mkScope (opened_flags flags c) None None None (Some f) (Some (next_frame (sc_frame (child c)))).
Proof.
  intros H W Hst H1 H2 H3 H4. destruct (openScope_finally_spec isVoid flags c sid d H W H1 H2 H3) as (hb & f & -> & Op & Hcode & Pb & Hr & Es & If & Hf).
  exists f, hb. split; [|done]. destruct (opened_flags_label flags c Hst) as (O1 & O2 & O3 & O4 & O5 & O6 & O7 & O8). pose proof (o_frame _ _ _ _ _ Op) as Fr.
  assert (Hnew : c_scopeCount c ∉ c_scopeStack c) by (intros Hin; pose proof (w_stack _ _ W _ Hin); lia).
  assert (Hn0 : c_scopeCount c ≠ 0). { destruct (c_scopeStack c) as [|x l] eqn:Ex; [done|]. pose proof (w_stack _ _ W x) as Hx. rewrite Ex in Hx. specialize (Hx ltac:(left)). lia. }
  assert (Hcount : c_scopeCount c < c_scopeCount d).
  { assert (Wd : wf d) by apply Fr. apply (w_stack _ _ Wd). rewrite (o_stack _ _ _ _ _ Op). left. }
  split; try done.
  - split; rewrite ?Es; try done; [apply Op|intros s Hs; apply (o_others _ _ _ _ _ Op), (w_stack _ _ W), Hs| |].
    + unfold ahead. rewrite Es. unfold scope_ahead. cbn [sc_flags]. by rewrite O5, H3.
    + cbn [sc_flags]. by rewrite O7, H4.
  - apply Fr.
  - apply Op.
  - by rewrite Hcode.
  - apply (sf_array _ _ _ _ _ Fr).
  - intros s [ [Hin Hb]|[_ Hb] ]; [|by apply (i_return _ _ If)]. rewrite (o_stack _ _ _ _ _ Op) in Hin. apply elem_of_cons in Hin as [->|Hin].
    + rewrite Es in Hb. cbn in Hb. naive_solver.
    + pose proof (w_stack _ _ W _ Hin) as Hlt. rewrite (o_others _ _ _ _ _ Op _ Hlt) in Hb. destruct (w_owns _ _ W s f) as [Hlt2 _]; [left; by split|]. lia.
Qed.

Lemma finally_part c d sid f hb c3 cj c4 c5 c' s : wf c → c_scopeStack c ≠ [] → m_catchFinallyFollowBlock c = None → region c d sid f hb → kept d c3 → fstart c c3 cj c4 f →
  good s → ControlFlowSim.free s = true → compile isVoid isErrorCode s c4 = inl (tt, c5) → closeScope isVoid c5 = inl (tt, c') → kept c c' ∧ fend c c4 c5 c' f ∧ ok s c4 c5.
Proof.
  intros W Hne Hfo R K F IH Hfree Hs Hclose. pose proof (fs_label _ _ _ _ _ F) as L. assert (W4 : wf c4) by apply L. destruct (lb_here _ _ _ _ _ _ _ _ L) as [Hh Hcode].
  pose proof (in_stack _ _ _ (fs_inside _ _ _ _ _ F)) as Hst.
  assert (Hok : ok s c4 c5).
  { apply IH; [done|done|apply empty_open; by rewrite Hh|by rewrite Hst|rewrite Hst; by destruct (c_scopeStack c)|by right]. }
  destruct (finally_close c c3 cj c4 c5 c' f) as [Kc Fe]; try done; [eapply grows_trans0; [apply R|apply K]|apply R|apply Hok].
Qed.

Lemma finally_good s sf : good s → good sf → ControlFlowSim.free sf = true → ∀ c c', compile isVoid isErrorCode (SScope false s None (Some sf)) c = inl (tt, c') → wf c → open c →
  c_scopeStack c ≠ [] → m_catchFinallyFollowBlock c = None → ok (SScope false s None (Some sf)) c c'.
Proof.
  intros IH IHf Hfree c c' H W O Hne Hfo. cbn in H. comp_step H. rename select (openScope _ _ = _) into Ho. rename select (compile _ _ s _ = _) into Hs. rename select (finallyLabel _ _ = _) into Hl.
  rename select (compile _ _ sf _ = _) into Hf. units.
  destruct (opened_region _ _ _ _ Ho W Hne eq_refl eq_refl eq_refl eq_refl) as (f & hb & R & Op & Hre & -> & Es). rename c3 into c4, c2 into c5, c1 into c3, c0 into d.
  assert (Wd : wf d) by apply R. pose proof (o_stack _ _ _ _ _ Op) as Hst. pose proof (o_frame _ _ _ _ _ Op) as Fr. set (sid := c_scopeCount c) in *.
  destruct (opened_flags_label (anchor_flags false None (Some sf)) c Hne) as (O1 & O2 & O3 & O4 & O5 & O6 & O7 & O8).
  change (f_HasCatch (anchor_flags false None (Some sf))) with false in O6. change (f_Try (anchor_flags _ _ _)) with false in O1. change (f_Catch (anchor_flags _ _ _)) with false in O2. change (f_Finally (anchor_flags _ _ _)) with false in O3.
  destruct (IH d c3 Hs Wd) as [K M]; [apply empty_open, (sf_code _ _ _ _ _ Fr)|by rewrite Hst|rewrite Hst; by destruct (c_scopeStack c)|by left; rewrite (o_follow _ _ _ _ _ Op)|].
  assert (Es3 : scope c3 sid = scope d sid) by (rewrite (kp_scopes _ _ _ K); [done|apply (rg_sid _ _ _ _ _ R)]).
  assert (Hst3 : c_scopeStack c3 = sid :: c_scopeStack c) by (by rewrite (kp_stack _ _ _ K)).
  apply (finallyLabel_inv isVoid _ _ sid (c_scopeStack c)) in Hl as (_ & _ & cx & cy & f' & cj & Hx & Hy & Hf' & Hj & Ec4); [|done]. rewrite Es3, Es in Hx. cbn [sc_flags] in Hx. rewrite O1 in Hx. subst cx.
  apply (close_labeled_pop _ _ sid (c_scopeStack c)) in Hy; [|done|rewrite Es3, Es; cbn [sc_flags]; by rewrite O2|rewrite Es3, Es; cbn [sc_flags]; by rewrite O3]. subst cy.
  change (scope (pop c3) sid) with (scope c3 sid) in Hf'. rewrite Es3, Es in Hf'. injection Hf' as <-. change (reachable (pop c3)) with (reachable c3) in Hj.
  assert (Hn3 : m_catchFinallyFollowBlock c3 = None) by (by rewrite (kp_follow _ _ _ K), (o_follow _ _ _ _ _ Op)).
  assert (F : fstart c c3 cj c4 f).
  { eapply finally_label; [done|done|exact R|done|by apply follow_ok_none| |exact Hj|exact Ec4]. intros b Hb. congruence. }
  destruct (finally_part _ _ _ _ _ _ _ _ _ _ sf W Hne Hfo R K F IHf Hfree Hf H) as (Kc & Fe & Okf). split; [done|].
  intros fuel k hs m o w X A Hp Hev. destruct fuel as [|fuel]; [done|]. apply eval_scope in Hev as (o1 & w1 & o2 & w2 & H1 & H2 & o3 & H3 & ->).
  rewrite orb_false_r in H1. assert (o2 = o1 ∧ w2 = w1) as [-> ->] by (by destruct o1). clear H2.
  assert (X4 : ext c4 fin) by (eapply ext_trans; [apply Okf|]; eapply ext_trans; [apply (fe_ext _ _ _ _ _ Fe)|done]).
  assert (X3 : ext c3 fin) by (eapply ext_trans; [apply (fs_label _ _ _ _ _ F)|done]). assert (Xd : ext d fin) by (eapply ext_trans; [apply K|done]).
  destruct (opens_enter isVoid fin _ hb c d hs k m Op W Hne Xd A Hp) as (m1 & S1 & Hp1 & _ & Hw1). rewrite <-Hw1 in H1.
  assert (Ad : around (hs ++ [hb]) k d).
  { eapply guard_around; [apply R|done| |apply (sf_array _ _ _ _ _ Fr)|done|].
    - rewrite Es. cbn [sc_frame]. rewrite child_frame, (a_frame _ _ _ _ A), next_frame_of by done. done.
    - rewrite Es. cbn [sc_flags]. by rewrite O6, orb_false_r. }
  pose proof (M _ _ _ _ _ _ X3 Ad Hp1 H1) as Hpost.
  destruct (region_pending _ _ _ _ _ _ _ _ _ _ _ _ _ W R K F X4 (Hre (pr_reach _ _ _ _ Hp)) Hpost) as (m2 & S2 & Fp).
  assert (ControlFlowSim.free (SScope false s None (Some sf)) = false) as -> by (cbn; by rewrite andb_false_r).
  eapply post_steps; [by eapply steps_trans|done|]. eapply finally_sim; try done. pose proof (grows_count _ _ _ _ (rg_grows _ _ _ _ _ R)). pose proof (grows_count _ _ _ _ (kp_grows _ _ _ K)).
  pose proof (grows_count _ _ _ _ (lb_grows _ _ _ _ _ _ _ _ (fs_label _ _ _ _ _ F))). lia.
Qed.
End finally.
