(* ===== verification/ControlFlowCatch.v ===== *)
(** * Control flow: [catch]

    The part behind a [catch] label, which comes after throws, with and without a [finally] label behind it. *)

From S2P Require Import Prelude ControlFlow ControlFlowRun ControlFlowInv ControlFlowOps ControlFlowScope ControlFlowRoute ControlFlowLabels ControlFlowSim ControlFlowLeaf ControlFlowStmt ControlFlowLoop ControlFlowTry ControlFlowFinally.

Open Scope nat_scope.

#[local] Strategy 1000 [mbind Comp_bind mret Comp_ret].

Section catch.
Context `{E : Effects} (isVoid isErrorCode : bool) (fin : CState) (Wfin : wf isVoid fin).

#[local] Abbreviation grows := (grows isVoid).
#[local] Abbreviation wf := (wf isVoid).
#[local] Abbreviation none := (λ _ : nat, False).
#[local] Abbreviation P := (finalizeFunction fin).
#[local] Abbreviation fa := (m_sjljFrameArrayValue fin).
#[local] Abbreviation kept := (kept isVoid).
#[local] Abbreviation held := (held isVoid).
#[local] Abbreviation post := (post isVoid fin).
#[local] Abbreviation pre := (pre fin).
#[local] Abbreviation around := (around fin).
#[local] Abbreviation ok := (ok isVoid isErrorCode fin).
#[local] Abbreviation good := (good isVoid isErrorCode fin).
#[local] Abbreviation region := (region isVoid).
#[local] Abbreviation fstart := (fstart isVoid).
#[local] Abbreviation fend := (fend isVoid).
#[local] Abbreviation fpending := (fpending isVoid fin).

(** ** Before the label *)

(** A scope with [catch] ahead, and maybe [finally]. *)
Record copen (c d : CState) (sid h : nat) (ff : option nat) : Prop := {
  cp_guard : guard c d sid ff (Some h);
  cp_grows : grows none c d;
  cp_scopes s : s < c_scopeCount c → scope d s = scope c s;
  cp_sid : c_scopeCount c ≤ sid < c_scopeCount d;
  cp_idle : idle d h;
  cp_new : c_blockCount c ≤ h;
  cp_array : m_sjljFrameArrayValue d = true;
  cp_ahead : h ∉ all_ahead d;
  cp_finally f : ff = Some f → idle d f ∧ c_blockCount c ≤ f ∧ f ≠ h ∧ ∀ s, ¬ owns d s f
}.

Lemma opened_catch flags c sid d : openScope flags c = inl (sid, d) → wf c → c_scopeStack c ≠ [] → f_Try flags || f_CatchAhead flags = true → f_Finalizable flags = f_FinallyAhead flags →
  ∃ h ff, copen c d sid h ff ∧ opens isVoid flags h c d ∧ sid = c_scopeCount c ∧ f_FinallyAhead flags = bool_decide (is_Some ff) ∧
    scope d sid = mkScope (opened_flags flags c) None None (Some h) ff (Some (next_frame (sc_frame (child c)))).
Proof.
  intros H W Hst H1 H4. destruct (openScope_catch_spec isVoid flags c sid d H W H1) as (h & ff & -> & Op & Ih & Es & Hff).
  exists h, ff. destruct (opened_flags_label flags c Hst) as (O1 & O2 & O3 & O4 & O5 & O6 & O7 & O8). pose proof (o_frame _ _ _ _ _ Op) as Fr.
  assert (Hnew : c_scopeCount c ∉ c_scopeStack c) by (intros Hin; pose proof (w_stack _ _ W _ Hin); lia).
  assert (Hn0 : c_scopeCount c ≠ 0). { destruct (c_scopeStack c) as [|x l] eqn:Ex; [done|]. pose proof (w_stack _ _ W x) as Hx. rewrite Ex in Hx. specialize (Hx ltac:(left)). lia. }
  assert (Wd : wf d) by apply Fr. assert (Hcount : c_scopeCount c < c_scopeCount d) by (apply (w_stack _ _ Wd); rewrite (o_stack _ _ _ _ _ Op); left).
  assert (Ef : f_FinallyAhead flags = bool_decide (is_Some ff)) by (destruct (f_FinallyAhead flags); [by destruct Hff as (f & -> & _)|by subst]).
  assert (Ha : ahead d (c_scopeCount c) = ff) by (unfold ahead; rewrite Es; unfold scope_ahead; cbn [sc_flags sc_finallyBlock]; rewrite O5, Ef; by destruct ff).
  split; [|by split_and!]. split; try done.
  - split; rewrite ?Es; try done; [apply Op|intros s Hs; apply (o_others _ _ _ _ _ Op), (w_stack _ _ W), Hs|]. cbn [sc_flags]. by rewrite O7, H4, Ef.
  - apply Fr.
  - apply Op.
  - apply (o_new _ _ _ _ _ Op).
  - apply (sf_array _ _ _ _ _ Fr).
  - intros (s & Hs & Hx)%elem_all_ahead. rewrite (o_stack _ _ _ _ _ Op) in Hs. apply elem_of_cons in Hs as [->|Hs].
    + fold (ahead d (c_scopeCount c)) in Hx. rewrite Ha in Hx. destruct (f_FinallyAhead flags); [|congruence]. destruct Hff as (f & -> & _ & _ & Hne). congruence.
    + rewrite (o_others _ _ _ _ _ Op) in Hx by (by apply (w_stack _ _ W)). destruct (w_ahead _ _ W h); [apply elem_all_ahead; by exists s|]. pose proof (o_new _ _ _ _ _ Op). lia.
  - intros f ->. destruct (f_FinallyAhead flags); [|done]. destruct Hff as (f' & [= <-] & If & Hf & Hne). split; [done|]. split; [done|]. split; [done|].
    intros s [ [Hin Hb]|[_ Hb] ]; [|by apply (i_return _ _ If)]. rewrite (o_stack _ _ _ _ _ Op) in Hin. apply elem_of_cons in Hin as [->|Hin].
    + rewrite Es in Hb. cbn in Hb. naive_solver.
    + pose proof (w_stack _ _ W _ Hin) as Hlt. rewrite (o_others _ _ _ _ _ Op _ Hlt) in Hb. destruct (w_owns _ _ W s f) as [Hlt2 _]; [left; by split|]. lia.
Qed.

(** Flags of the scope change before the label. *)
Record reflag (s : nat) (c c' : CState) : Prop := {
  rf_grows : grows none c c';
  rf_blocks : c_blocks c' = c_blocks c;
  rf_current : m_currentBlock c' = m_currentBlock c;
  rf_stack : c_scopeStack c' = c_scopeStack c;
  rf_count : c_scopeCount c' = c_scopeCount c;
  rf_other x : x ≠ s → scope c' x = scope c x;
  rf_static : static (scope c' s) = static (scope c s);
  rf_follow : m_catchFinallyFollowBlock c' = m_catchFinallyFollowBlock c
}.

Lemma reflag_refl s c : wf c → reflag s c c.
Proof. intros W. split; try done; by apply c_grows_refl. Qed.

Lemma reflag_upd s f c c1 : reflag s c c1 → static (f (scope c1 s)) = static (scope c1 s) → reflag s c (upd_scp s f c1).
Proof.
  intros [G B C S N O T F] H. split; try done.
  - by apply grows_upd_flags.
  - intros x Hx. rewrite scope_upd, decide_False by (by apply not_eq_sym). by apply O.
  - by rewrite scope_upd, decide_True, H.
Qed.

(** ** At the label *)

(** Past the label, without a [finally] label behind it. *)
Lemma catch_skip n k cr cj : let b := c_blockCount cr in
  jump b None (emitted (ISetFrame k) (set_followBlock (Some b) (create false (pop cr)))) = inl (tt, cj) → wf cr → n ≤ b →
  grows none cr cj ∧ ext (pop cr) cj ∧ same (set_followBlock (Some b) (pop cr)) cj ∧ follow_ok n cj ∧
  code cj (m_currentBlock cr) = code cr (m_currentBlock cr) ++ [ISetFrame k; IBr b] ∧ (reachable cr = true → reached cj b = true).
Proof.
  intros b H W Hn. set (d0 := create false (pop cr)) in *. set (d1 := set_followBlock (Some b) d0) in *. set (d2 := emitted (ISetFrame k) d1) in *.
  assert (Wp : wf (pop cr)) by (by apply wf_pop). destruct (blank_new isVoid (pop cr) false Wp) as [Ib Lb Pb]. change (c_blockCount (pop cr)) with b in Ib, Lb, Pb. fold d0 in Ib, Lb, Pb.
  assert (G : ∀ a, grows none a (pop cr) → grows none a d2) by (intros a Ga; by apply grows_emit, grows_followBlock, grows_create).
  assert (Ib2 : idle d2 b) by (apply idle_emit; [by apply idle_followBlock|by apply not_eq_sym, (i_current _ _ Ib)]).
  assert (J : jumps isVoid (IBr b) [b] None d2 cj).
  { apply jump_spec; [exact H|apply (G (pop cr)), c_grows_refl, Wp|apply (i_count _ _ Ib2)|by apply idle_not_unreachable|done]. }
  assert (Gj : ∀ a, grows none a (pop cr) → grows none a cj) by (intros a Ga; eapply grows_trans0; [by apply G|by apply (jumps_grows isVoid (IBr b) [b])]).
  assert (Gcr : grows none cr (pop cr)) by (by apply grows_pop, c_grows_refl).
  pose proof (w_current _ _ W) as Hc. assert (Hcode : code d2 (m_currentBlock cr) = code cr (m_currentBlock cr) ++ [ISetFrame k] ∧ reached d2 (m_currentBlock cr) = reached cr (m_currentBlock cr)).
  { change (m_currentBlock cr) with (m_currentBlock d1). unfold d2. rewrite emitted_current. cbn. change (blk d1 (m_currentBlock cr)) with (blk (create false (pop cr)) (m_currentBlock cr)).
    rewrite blk_create, decide_False; [done|]. change (c_blockCount (pop cr)) with b. unfold b. lia. }
  destruct Hcode as [Hcode Hre]. split; [by apply Gj|]. split; [apply (g_ext isVoid none), Gj, c_grows_refl, Wp|]. split; [eapply c_same_trans; [|apply J]; done|].
  split; [|split].
  - intros x Hx. rewrite (s_follow _ _ (j_same _ _ _ _ _ _ J)) in Hx. injection Hx as <-. split; [done|]. split.
    + apply (grows_idle _ _ _ _ (jumps_grows _ _ _ _ _ J) Ib2).
    + eapply plain_ext; [|apply (j_grows _ _ _ _ _ _ J)]. eapply (plain_ext d0); [split; [apply (i_count _ _ Ib)|done|done]|]. by apply ext_emit, ext_followBlock, ext_refl.
  - change (m_currentBlock cr) with (m_currentBlock d2). rewrite (j_emits _ _ _ _ _ _ J). change (m_currentBlock d2) with (m_currentBlock cr). by rewrite Hcode, <-app_assoc.
  - intros Hr. apply (j_reached _ _ _ _ _ _ J); [|left]. change (reached d2 (m_currentBlock cr) = true). by rewrite Hre.
Qed.

(** The scope behind a label. *)
Lemma label_scope X fl g h c1 c cj c2 : label_open isVoid X fl g h c1 cj c2 → wf c → c_scopeStack c ≠ [] → c_scopeStack cj = c_scopeStack c → c_scopeCount c ≤ c_scopeCount cj →
  (∀ s, s < c_scopeCount c → scope cj s = scope c s) →
  ∃ f, scope c2 (c_scopeCount cj) = g (new_scope f (sc_frame (top c))) ∧ f = opened_flags fl cj ∧ f_Try f = f_Try fl ∧ f_Catch f = f_Catch fl ∧ f_Finally f = f_Finally fl ∧
    f_CatchAhead f = f_CatchAhead fl ∧ f_FinallyAhead f = f_FinallyAhead fl ∧ f_HasCatch f = f_HasCatch (sc_flags (top c)) || f_HasCatch fl ∧
    f_Finalizable f = f_Finalizable (sc_flags (top c)) || f_Finalizable fl ∧
    c_scopeStack c2 = c_scopeCount cj :: c_scopeStack c ∧ (∀ s, s < c_scopeCount c → scope c2 s = scope c s) ∧ c_scopeCount cj ≠ 0 ∧ c_scopeCount cj ∉ c_scopeStack c.
Proof.
  intros L W Hne Hst Hn Hsc. pose proof (lb_scope _ _ _ _ _ _ _ _ L) as Hs. destruct (opened_flags_label fl cj) as (O1 & O2 & O3 & O4 & O5 & O6 & O7 & O8); [by rewrite Hst|].
  assert (Hx : ∃ x, x ∈ c_scopeStack c) by (destruct (c_scopeStack c) as [|x l]; [done|exists x; left]). destruct Hx as [x Hx]. pose proof (w_stack _ _ W _ Hx) as Hlt.
  assert (Ht : top cj = top c).
  { unfold top. rewrite Hst. apply Hsc. destruct (c_scopeStack c) as [|y l] eqn:Ey; [done|]. apply (w_stack _ _ W). rewrite Ey. left. }
  rewrite Ht in O6, O7. exists (opened_flags fl cj). rewrite child_frame, Ht in Hs by (by rewrite Hst). split_and!; try done.
  - by rewrite (lb_stack _ _ _ _ _ _ _ _ L), Hst.
  - intros s Hs'. rewrite (lb_scopes _ _ _ _ _ _ _ _ L) by lia. by apply Hsc.
  - lia.
  - intros Hin. pose proof (w_stack _ _ W _ Hin). lia.
Qed.

(** After the code before the label. *)
Record behind (c d cr : CState) (sid h : nat) (ff : option nat) : Prop := {
  bh_grows : grows none d cr;
  bh_stack : c_scopeStack cr = sid :: c_scopeStack c;
  bh_scopes s : s < c_scopeCount c → scope cr s = scope c s;
  bh_static : static (scope cr sid) = static (scope d sid);
  bh_idle : idle cr h;
  bh_pending : pending cr h ∧ ¬ pending (pop cr) h;
  bh_finally f : ff = Some f → idle cr f ∧ ahead cr sid = Some f ∧ pending cr f;
  bh_count : c_blockCount c ≤ c_blockCount cr ∧ c_scopeCount c ≤ c_scopeCount cr
}.

Lemma static_catch s s' : static s' = static s → sc_catchBlock s' = sc_catchBlock s ∧ sc_finallyBlock s' = sc_finallyBlock s ∧ sc_frame s' = sc_frame s ∧
  f_FinallyAhead (sc_flags s') = f_FinallyAhead (sc_flags s) ∧ f_Finalizable (sc_flags s') = f_Finalizable (sc_flags s) ∧ scope_ahead s' = scope_ahead s.
Proof. intros H. pose proof (static_blocks _ _ H) as [_ Ha]. unfold static in H. by simplify_eq. Qed.

Lemma catch_behind c d c1 c1' cr sid h ff : wf c → copen c d sid h ff → kept d c1 → reflag sid c1 c1' → grows none c1' cr → same c1' cr → behind c d cr sid h ff.
Proof.
  intros W Cp K R G Sc. pose proof (cp_sid _ _ _ _ _ Cp) as Hsid.
  assert (Gd : grows none d cr) by (eapply grows_trans0; [apply K|]; eapply grows_trans0; [apply R|done]). assert (Wr : wf cr) by apply Gd.
  assert (Hst : c_scopeStack cr = sid :: c_scopeStack c) by (rewrite (s_stack _ _ Sc), (rf_stack _ _ _ R), (kp_stack _ _ _ K); apply (cp_guard _ _ _ _ _ Cp)).
  assert (Es : static (scope cr sid) = static (scope d sid)) by (rewrite (same_scope _ _ _ Sc), (rf_static _ _ _ R), (kp_scopes _ _ _ K) by lia; done).
  destruct (static_catch _ _ Es) as (E1 & E2 & E3 & E4 & E5 & E6). assert (Ih : idle cr h) by apply (grows_idle _ _ _ _ Gd (cp_idle _ _ _ _ _ Cp)).
  assert (Ho : owns cr sid h). { left. rewrite Hst. split; [left|]. right; right. rewrite E1. apply (gd_catch _ _ _ _ _ (cp_guard _ _ _ _ _ Cp)). }
  pose proof (i_count _ _ (cp_idle _ _ _ _ _ Cp)) as Hh.
  split; try done.
  - intros s Hs. rewrite (same_scope _ _ _ Sc), (rf_other _ _ _ R), (kp_scopes _ _ _ K), (cp_scopes _ _ _ _ _ Cp) by lia. done.
  - split; [left; by exists sid|]. apply (popped_pending isVoid cr sid (c_scopeStack c)); [done|done|apply (cp_guard _ _ _ _ _ Cp)|left]. split; [done|].
    intros Hin. by apply (cp_ahead _ _ _ _ _ Cp), (e_ahead _ _ (g_ext _ _ _ _ Gd)).
  - intros f ->. destruct (cp_finally _ _ _ _ _ Cp f eq_refl) as (If & _). assert (Ha : ahead cr sid = Some f) by (unfold ahead; rewrite E6; apply (cp_guard _ _ _ _ _ Cp)).
    split; [apply (grows_idle _ _ _ _ Gd If)|]. split; [done|]. right. apply elem_all_ahead. exists sid. rewrite Hst. split; [left|done].
  - pose proof (grows_count _ _ _ _ Gd). pose proof (grows_count _ _ _ _ (cp_grows _ _ _ _ _ Cp)). pose proof (e_scount _ _ (g_ext _ _ _ _ Gd)). lia.
Qed.

(** The part behind the label, without [finally]. *)
Record cstart (c cr cj c2 : CState) (S : Scope) (h : nat) : Prop := {
  cs_label : label_open isVoid none Flag_Catch (catch_flags S) h cr cj c2;
  cs_inside : inside c c2 (c_scopeCount cj);
  cs_scopes s : s < c_scopeCount c → scope c2 s = scope c s;
  cs_count : c_scopeCount c ≤ c_scopeCount cj;
  cs_flags : let S := scope c2 (c_scopeCount cj) in
    f_Try (sc_flags S) = false ∧ f_Catch (sc_flags S) = true ∧ f_FinallyAhead (sc_flags S) = false ∧ sc_breakBlock S = None ∧ sc_continueBlock S = None;
  cs_follow : follow_ok (c_blockCount c) c2;
  cs_normal : reachable cr = true → ∃ b, m_catchFinallyFollowBlock c2 = Some b ∧ reached c2 b = true ∧
    code c2 (m_currentBlock cr) = code cr (m_currentBlock cr) ++ [ISetFrame (sc_frame (top c)); IBr b]
}.

Lemma catch_label c d cr sid h c2 cj : wf c → c_scopeStack c ≠ [] → copen c d sid h None → behind c d cr sid h None → let S := scope cr sid in
  m_catchFinallyFollowBlock cr = None → f_FinallyAhead (sc_flags S) = false → sc_frame S = Some (next_frame (sc_frame (top c))) →
  (if reachable cr then ∃ k, sc_frame S = Some k ∧ jump (c_blockCount cr) None (emitted (ISetFrame (prev_frame k)) (set_followBlock (Some (c_blockCount cr)) (create false (pop cr)))) = inl (tt, cj)
   else cj = pop cr) →
  c2 = labeled Flag_Catch (catch_flags S) h cj → cstart c cr cj c2 S h.
Proof.
  intros W Hne Cp [Gd Hst Hsc Es Ih [Hp Hnp] _ [Hn1 Hn2] ] S Hfo Hfa Hfr Hj ->. assert (Wr : wf cr) by apply Gd. pose proof (i_count _ _ Ih) as Hh.
  assert (Hflow : grows none cr cj ∧ ext (pop cr) cj ∧ c_scopeStack cj = c_scopeStack c ∧ c_scopeCount cj = c_scopeCount cr ∧ c_scopes cj = c_scopes cr ∧ follow_ok (c_blockCount c) cj ∧
    (∀ b, m_catchFinallyFollowBlock cj = Some b → b ≠ h) ∧
    (reachable cr = true → ∃ b, m_catchFinallyFollowBlock cj = Some b ∧ reached cj b = true ∧ code cj (m_currentBlock cr) = code cr (m_currentBlock cr) ++ [ISetFrame (sc_frame (top c)); IBr b])).
  { destruct (reachable cr) eqn:Hr.
    - destruct Hj as (k & Hk & Hj). assert (k = next_frame (sc_frame (top c))) as -> by congruence. destruct (catch_skip (c_blockCount c) _ _ _ Hj Wr Hn1) as (G & X & Sj & F & Hc & Hre).
      pose proof (s_follow _ _ Sj) as Ef. cbn in Ef. split; [done|]. split; [done|]. split; [rewrite (s_stack _ _ Sj); cbn; by rewrite Hst|]. split; [apply Sj|]. split; [apply Sj|]. split; [done|].
      split; [intros b Hb; rewrite Ef in Hb; injection Hb as <-; lia|]. intros _. exists (c_blockCount cr). split; [done|]. split; [by apply Hre|]. rewrite Hc. do 3 f_equal. by destruct (sc_frame (top c)).
    - subst cj. split; [by apply grows_pop, c_grows_refl|]. split; [apply ext_refl|]. split; [cbn; by rewrite Hst|]. split; [done|]. split; [done|]. split; [by apply follow_ok_none|]. split; [|done].
      intros b Hb. change (m_catchFinallyFollowBlock cr = Some b) in Hb. congruence. }
  destruct Hflow as (G & X & Hst2 & Hcnt & Hscs & F & Bh & Hnorm). assert (Hsc2 : ∀ s, s < c_scopeCount c → scope cj s = scope c s) by (intros s Hs; unfold scope at 1; rewrite Hscs; by apply Hsc).
  assert (L : label_open isVoid none Flag_Catch (catch_flags S) h cr cj (labeled Flag_Catch (catch_flags S) h cj)).
  { apply labeled_open; try done; [by apply (grows_idle _ _ _ _ G)|intros Hx; apply Hnp; eapply ext_pending; [exact X|done|done]|].
    intros s. split; [done|]. intros H1 H2. unfold scope_ahead, catch_flags. cbn. rewrite H1. by destruct (f_FinallyAhead _ || _). }
  destruct (label_scope _ _ _ _ _ _ _ _ L W Hne Hst2 ltac:(lia) Hsc2) as (f & Es2 & Ef & O1 & O2 & O3 & O4 & O5 & O6 & O7 & St2 & Sc2 & N1 & N2).
  assert (Hfin : f_Finalizable (sc_flags S) = f_Finalizable (sc_flags (top c))).
  { destruct (static_catch _ _ Es) as (_ & _ & _ & _ & E5 & _). unfold S. rewrite E5, (gd_finalizable _ _ _ _ _ (cp_guard _ _ _ _ _ Cp)). by rewrite orb_false_r. }
  set (c2 := labeled Flag_Catch (catch_flags S) h cj) in *. split; try done.
  - split; rewrite ?Es2; try done.
    + intros s Hs. by apply Sc2, (w_stack _ _ W).
    + cbn. by rewrite O6, !orb_false_r.
    + cbn. rewrite O7, Hfin. by destruct (f_Finalizable (sc_flags (top c))).
    + unfold ahead. rewrite Es2. unfold scope_ahead. cbn. by rewrite O5, Hfa.
  - lia.
  - cbv zeta. rewrite Es2. cbn. rewrite O1, O2, O5, Hfa. done.
  - intros b Hb. rewrite (lb_follow _ _ _ _ _ _ _ _ L) in Hb. destruct (F b Hb) as (Q1 & Q2 & Q3). pose proof (Bh b Hb). split; [done|].
    split; [by apply (lb_idle _ _ _ _ _ _ _ _ L)|by apply (lb_plain _ _ _ _ _ _ _ _ L)].
  - intros Hr. destruct (Hnorm Hr) as (b & H1 & H2 & H3). exists b. by rewrite (lb_follow _ _ _ _ _ _ _ _ L), (lb_reached _ _ _ _ _ _ _ _ L), (lb_code _ _ _ _ _ _ _ _ L).
Qed.

(** ** Behind the label *)

Lemma reflag_pre hs s c c' m : reflag s c c' → pre hs c m → pre hs c' m.
Proof. intros R. apply same_pre; apply R. Qed.

Lemma reflag_open s c c' : reflag s c c' → open c → open c'.
Proof. intros R O. unfold open, reachable, blk in *. by rewrite (rf_current _ _ _ R), (rf_blocks _ _ _ R). Qed.

(** The part behind the label is closed: the code goes on behind. *)
Lemma catch_end c cr cj c2 S h c3 c3x d3 : wf c → grows none c cr → cstart c cr cj c2 S h → c_blockCount c ≤ h → kept c2 c3 → reflag (c_scopeCount cj) c3 c3x → finalizeCatchScope c3x = inl (tt, d3) →
  m_catchFinallyFollowBlock c = None → kept c (pop d3) ∧ ext c3 (pop d3) ∧
  (∀ b, m_catchFinallyFollowBlock c2 = Some b → m_currentBlock d3 = b ∧ code d3 b = [] ∧ plain d3 b) ∧
  (ext (pop d3) fin → ∀ hs m, pre hs c3 m → ∃ m', steps P m m' ∧ same_regs m m' ∧ k_world m' = k_world m ∧ pre hs (pop d3) m').
Proof.
  intros W G F Hh K R H Hfo. pose proof (cs_label _ _ _ _ _ _ F) as L. assert (W2 : wf c2) by apply L. assert (G3x : grows none c2 c3x) by (eapply grows_trans0; [apply K|apply R]).
  assert (Wx : wf c3x) by apply G3x. assert (Ox : open c3x) by (eapply reflag_open; [exact R|apply K]).
  assert (Efo : m_catchFinallyFollowBlock c3x = m_catchFinallyFollowBlock c2) by (by rewrite (rf_follow _ _ _ R), (kp_follow _ _ _ K)).
  assert (Fo : follow_ok (c_blockCount c) c3x) by (eapply follow_ok_ext; [apply (cs_follow _ _ _ _ _ _ F)|exact G3x|done|exact Efo]).
  assert (Hd : grows (λ x, m_catchFinallyFollowBlock c3x = Some x) c3x d3 ∧ c_scopeStack d3 = c_scopeStack c3x ∧ c_scopes d3 = c_scopes c3x ∧ open d3 ∧ m_catchFinallyFollowBlock d3 = None ∧
    (∀ b, m_catchFinallyFollowBlock c2 = Some b → m_currentBlock d3 = b ∧ code d3 b = [] ∧ plain d3 b) ∧
    (ext (pop d3) fin → ∀ hs m, pre hs c3 m → ∃ m', steps P m m' ∧ same_regs m m' ∧ k_world m' = k_world m ∧ pre hs (pop d3) m')).
  { apply finalizeCatch_inv in H. rewrite Efo in H. destruct (m_catchFinallyFollowBlock c2) as [b|].
    - destruct H as (d & Hf & ->). destruct (Fo b Efo) as (Hb & Ib & Pb). destruct (follow_spec isVoid _ _ _ Hf Wx Ib) as (Gf & Sf & Hc & Hcode & Of & _).
      assert (Pd : plain d b) by (eapply plain_ext; [exact Pb|apply Gf]).
      split; [apply grows_followBlock; eapply grows_weaken; [exact Gf|by intros x ->]|]. split; [apply Sf|]. split; [apply Sf|]. split; [done|]. split; [done|]. split; [intros b' [= <-]; split; [done|]; split; [done|]; eapply plain_ext; [exact Pd|by apply ext_followBlock, ext_refl]|].
      intros X hs m Hp. assert (Xd : ext d fin) by (eapply ext_trans; [|exact X]; by apply ext_pop, ext_followBlock, ext_refl).
      destruct (follow_pre isVoid fin hs b c3x d m Hf Wx Ox Ib Xd ltac:(by eapply plain_ext) ltac:(by eapply reflag_pre)) as (m' & En & Hp').
      exists m'. split; [apply En|]. split; [apply En|]. split; [apply En|]. by eapply same_pre; [..|exact Hp'].
    - subst d3. split; [by apply c_grows_refl|]. split; [done|]. split; [done|]. split; [done|]. split; [done|]. split; [done|]. intros _ hs m Hp. exists m. split; [apply rtc_refl|]. split; [done|]. split; [done|].
      eapply same_pre; [..|eapply reflag_pre; [exact R|exact Hp] ]; done. }
  destruct Hd as (Gd & St & Sc & Od & Fd & Hb & Hp). split; [|split; [|done] ].
  - split; [|exact Od| | |].
    + apply grows_pop. assert (Gx : grows (λ x, (False ∨ (False ∨ x = h)) ∨ (False ∨ m_catchFinallyFollowBlock c3x = Some x)) c d3).
      { eapply c_grows_trans; [eapply c_grows_trans; [exact G|apply L]|eapply c_grows_trans; [exact G3x|exact Gd] ]. }
      eapply grows_weaken; [exact Gx|]. intros x [ [ []|[ []|Hx] ]|[ []|Hx] ] Hlx; [lia|]. destruct (Fo x Hx). lia.
    + cbn. rewrite St, (rf_stack _ _ _ R), (kp_stack _ _ _ K), (in_stack _ _ _ (cs_inside _ _ _ _ _ _ F)). done.
    + intros s Hs. pose proof (cs_count _ _ _ _ _ _ F). change (scope (pop d3) s) with (scope d3 s). unfold scope at 1. rewrite Sc. fold (scope c3x s). rewrite (rf_other _ _ _ R) by lia.
      rewrite (kp_scopes _ _ _ K) by (rewrite (lb_count _ _ _ _ _ _ _ _ L); lia). by apply (cs_scopes _ _ _ _ _ _ F).
    + change (m_catchFinallyFollowBlock d3 = m_catchFinallyFollowBlock c). by rewrite Fd, Hfo.
  - apply ext_pop. eapply ext_trans; [apply R|apply Gd].
Qed.

(** ** A scope with [catch] *)

Lemma catch_around hs k c d e sid h ff : copen c d sid h ff → c_scopeStack e = sid :: c_scopeStack c → static (scope e sid) = static (scope d sid) → m_sjljFrameArrayValue e = true →
  around hs k c → sc_frame (scope d sid) = Some (length hs) → f_HasCatch (sc_flags (scope d sid)) = true → ext e fin → around (hs ++ [h]) true e.
Proof.
  intros Cp St Es Ha [A1 A2 A3 A4] Hf Hc X. destruct (static_catch _ _ Es) as (E1 & E2 & E3 & _). assert (Eh : f_HasCatch (sc_flags (scope e sid)) = f_HasCatch (sc_flags (scope d sid))).
  { unfold static in Es. by simplify_eq. }
  assert (Et : top e = scope e sid) by (unfold top; by rewrite St). split; rewrite ?Et.
  - by rewrite E3, Hf, frame_of_snoc.
  - right. by apply (e_frames _ _ X).
  - congruence.
  - rewrite St. cbn. rewrite E1, (gd_catch _ _ _ _ _ (cp_guard _ _ _ _ _ Cp)). by eexists.
Qed.

Lemma guard_static c d e sid ff hc : guard c d sid ff hc → c_scopeStack e = sid :: c_scopeStack c → (∀ s, s ∈ c_scopeStack c → scope e s = scope c s) → static (scope e sid) = static (scope d sid) → guard c e sid ff hc.
Proof.
  intros [G1 G2 G3 [G4 G4'] G5 G6 G7] St Sc Es. destruct (static_catch _ _ Es) as (E1 & E2 & E3 & E4 & E5 & E6). assert (E7 : sc_breakBlock (scope e sid) = None ∧ sc_continueBlock (scope e sid) = None).
  { unfold static in Es. injection Es as B1 B2 _. by rewrite B1, B2. }
  split; try done; [by rewrite E1|unfold ahead; by rewrite E6|by rewrite E5].
Qed.

(** The machine skips the part behind the label. *)
Lemma skip_run hs h b c cr c2 d3 m : wf cr → ext cr c2 → ext c2 (pop d3) → ext (pop d3) fin → pre (hs ++ [h]) cr m → sc_frame (top c) = frame_of hs →
  code c2 (m_currentBlock cr) = code cr (m_currentBlock cr) ++ [ISetFrame (sc_frame (top c)); IBr b] → reached c2 b = true → b < c_blockCount c2 →
  m_currentBlock d3 = b → code d3 b = [] → plain d3 b → ∃ m', steps P m m' ∧ pre hs (pop d3) m' ∧ k_world m' = k_world m.
Proof.
  intros W X X2 X3 Hp Hf Hc Hre Hb Hd1 Hd2 Pd. pose proof (w_current _ _ W). pose proof (e_count _ _ X).
  destruct (at_emits fin cr c2 m [ISetFrame (sc_frame (top c)); IBr b] (pr_at _ _ _ _ Hp)) as (rest & Hm & _); [by eapply ext_trans|lia|done|].
  exists (enter P b (set_code rest (set_frame (sc_frame (top c)) (set_code (IBr b :: rest) m)))). split; [|split; [|done] ].
  - eapply step_steps; [unfold step; rewrite Hm; reflexivity|]. by apply steps_one.
  - split.
    + unfold at_end. change (m_currentBlock (pop d3)) with (m_currentBlock d3). rewrite Hd1. change (code (pop d3) b) with (code d3 b). rewrite Hd2. cbn.
      symmetry. apply (code_of_plain fin (pop d3)); [|done]. eapply plain_ext; [exact Pd|]. apply ext_pop, ext_refl.
    + unfold reachable. change (m_currentBlock (pop d3)) with (m_currentBlock d3). rewrite Hd1. by apply (e_reach _ _ X2).
    + cbn. by rewrite Hf.
    + eapply jmp_ok_prefix, (pr_jmp _ _ _ _ Hp).
Qed.

(** How a statement with [catch] ends: in the scope of a function, it may return. *)
Definition catch_post (hs : list nat) (c c' : CState) (m : Mach) (o : outcome) (w : world) : Prop :=
  post hs c c' false m o w ∨ (o = ONormal ∧ c_scopeStack c = [0] ∧ post hs c c' false m (OReturn None) w).

Lemma leaves_post hs h c c' m o w : leaves isVoid fin hs h None (Some h) c c' m o w → o ≠ OThrow → post hs c c' false m o w.
Proof.
  intros [ (-> & _)|[ (t & b & m1 & T & _ & S1 & A)|(v & -> & _ & F & En)] ] Ho; [done| |by apply post_returns]. by eapply post_leaves.
Qed.

(** The body of a scope with [catch], what becomes of its flags, the part behind the label, and its end. *)
Record catch_code (c d c1 c1' cr cj c2 c3 c3x d3 : CState) (sid h : nat) (s sh : stmt) : Prop := {
  cc_wf : wf c;
  cc_stack : c_scopeStack c ≠ [];
  cc_open : copen c d sid h None;
  cc_reach : reachable c = true → reached d h = true;
  cc_frame : sc_frame (scope d sid) = Some (next_frame (sc_frame (top c)));
  cc_hasCatch : f_HasCatch (sc_flags (scope d sid)) = true;
  cc_body : ok s d c1;
  cc_reflag : reflag sid c1 c1';
  cc_function : f_Function (sc_flags (scope c1' sid)) = bool_decide (c_scopeStack c = [0]);
  cc_return : if f_Function (sc_flags (scope c1' sid)) then checkReturn isVoid c1' = inl (tt, cr) else cr = c1';
  cc_behind : grows none c1' cr ∧ behind c d cr sid h None;
  cc_start : cstart c cr cj c2 (scope cr sid) h;
  cc_handler : ok sh c2 c3;
  cc_free : ControlFlowSim.free sh = true;
  cc_ext : ext c3 (pop d3);
  cc_follow b : m_catchFinallyFollowBlock c2 = Some b → m_currentBlock d3 = b ∧ code d3 b = [] ∧ plain d3 b;
  cc_end hs m : ext (pop d3) fin → pre hs c3 m → ∃ m', steps P m m' ∧ same_regs m m' ∧ k_world m' = k_world m ∧ pre hs (pop d3) m'
}.

(** The body ends, or returns at the end of a function. *)
Lemma catch_skip_sim c d c1 c1' cr cj c2 c3 c3x d3 sid h s sh hs k m w : catch_code c d c1 c1' cr cj c2 c3 c3x d3 sid h s sh → ext (pop d3) fin → around hs k c →
  post (hs ++ [h]) d c1 (ControlFlowSim.free s) m ONormal w → catch_post hs c (pop d3) m ONormal w.
Proof.
  intros [W Hne Cp _ Hf Hhc [K _] R Hfun Hret [Gr Bh] F [Kh _] _ X3 Hfo _] X A Hp. apply post_normal_inv in Hp as (m1 & S1 & Hp1 & _ & <-). pose proof (cs_label _ _ _ _ _ _ F) as L.
  assert (X2 : ext c2 (pop d3)) by (eapply ext_trans; [apply Kh|done]). assert (Xr : ext cr (pop d3)) by (eapply ext_trans; [apply L|done]).
  assert (Wr : wf cr) by apply Gr. pose proof (reflag_pre _ _ _ _ _ R Hp1) as Hp1'. assert (W1 : wf c1') by apply R. assert (W2 : wf c2) by apply L.
  assert (Hrun : pre (hs ++ [h]) cr m1 → catch_post hs c (pop d3) m ONormal (k_world m1)).
  { intros Hpr. left. destruct (cs_normal _ _ _ _ _ _ F (pr_reach _ _ _ _ Hpr)) as (b & Hb & Hre & Hc). destruct (Hfo b Hb) as (D1 & D2 & D3).
    destruct (skip_run hs h b c cr c2 d3 m1) as (m2 & S2 & Hp2 & <-); try done; [apply L|apply (a_frame _ _ _ _ A)| |].
    - destruct (cs_follow _ _ _ _ _ _ F b Hb) as (_ & Ib & _). apply (i_count _ _ Ib).
    - apply post_normal; [by eapply steps_trans|done|done]. }
  destruct (f_Function (sc_flags (scope c1' sid))) eqn:Ef; [|subst cr; by apply Hrun]. symmetry in Hfun. apply bool_decide_eq_true in Hfun.
  destruct (checkReturn_spec isVoid _ _ Hret W1 (reflag_open _ _ _ R (kp_open _ _ _ K))) as [ (_ & Hv & Hr)|(Hr & _)]; [|pose proof (pr_reach _ _ _ _ Hp1'); congruence].
  right. split; [done|]. split; [done|]. pose proof (catch_behind c d c1 c1' c1' sid h None W Cp K R (c_grows_refl _ _ _ W1) (c_same_refl _)) as B1.
  assert (Gd : ext d c1') by (eapply ext_trans; [apply K|apply R]).
  assert (A1 : around (hs ++ [h]) true c1').
  { apply (catch_around hs k c d c1' sid h None Cp (bh_stack _ _ _ _ _ _ B1) (bh_static _ _ _ _ _ _ B1)); try done.
    - by apply (e_frames _ _ Gd), (cp_array _ _ _ _ _ Cp).
    - by rewrite Hf, (a_frame _ _ _ _ A), next_frame_of.
    - eapply ext_trans; [apply Gr|by eapply ext_trans]. }
  pose proof (ret_post isVoid fin (hs ++ [h]) true false None c1' cr m1 Hr W1 ltac:(by eapply ext_trans) A1 Hp1') as Hpost.
  eapply post_steps; [exact S1|done|]. eapply leaves_post; [|done]. eapply guard_leaves; [|by right|exact W1|exact Wr|by eapply grows_count|exact Xr|done|exact Hpost].
  eapply guard_static; [apply (cp_guard _ _ _ _ _ Cp)|apply (bh_stack _ _ _ _ _ _ B1)| |apply (bh_static _ _ _ _ _ _ B1)]. intros x Hx. by apply (bh_scopes _ _ _ _ _ _ B1), (w_stack _ _ W).
Qed.

Lemma catch_sim c d c1 c1' cr cj c2 c3 c3x d3 sid h s sh flags fuel hs k o1 w1 o2 w2 m : catch_code c d c1 c1' cr cj c2 c3 c3x d3 sid h s sh → opens isVoid flags h c d → ext (pop d3) fin → around hs k c →
  pre hs c m → eval isErrorCode fuel true s (k_world m) = Some (o1, w1) → (match o1 with OThrow => eval isErrorCode fuel k sh w1 = Some (o2, w2) | _ => o2 = o1 ∧ w2 = w1 end) →
  catch_post hs c (pop d3) m o2 w2.
Proof.
  intros C Op X A Hp H1 H2. pose proof C as [W Hne Cp Hre Hf Hhc [K M] R Hfun Hret [Gr Bh] F [Kh Mh] Hfree X3 Hfo Hend]. pose proof (cs_label _ _ _ _ _ _ F) as L.
  assert (X2 : ext c2 (pop d3)) by (eapply ext_trans; [apply Kh|done]). assert (Xr : ext cr (pop d3)) by (eapply ext_trans; [apply L|done]).
  assert (X1 : ext c1 (pop d3)) by (eapply ext_trans; [apply R|]; eapply ext_trans; [apply Gr|done]). assert (Xd : ext d (pop d3)) by (eapply ext_trans; [apply K|done]).
  assert (Wd : wf d) by apply (cp_grows _ _ _ _ _ Cp). assert (W1 : wf c1) by apply K. assert (W2 : wf c2) by apply L. assert (W3 : wf c3) by apply Kh.
  destruct (opens_enter isVoid fin flags h c d hs k m Op W Hne ltac:(by eapply ext_trans) A Hp) as (m1 & S1 & Hp1 & _ & Hw1). rewrite <-Hw1 in H1.
  assert (Ad : around (hs ++ [h]) true d).
  { apply (catch_around hs k c d d sid h None Cp (gd_stack _ _ _ _ _ (cp_guard _ _ _ _ _ Cp)) eq_refl (cp_array _ _ _ _ _ Cp) A); [|done|by eapply ext_trans].
    by rewrite Hf, (a_frame _ _ _ _ A), next_frame_of. }
  pose proof (M _ _ _ _ _ _ ltac:(by eapply ext_trans) Ad Hp1 H1) as Hpost.
  assert (Hsteps : ∀ o w, catch_post hs c (pop d3) m1 o w → catch_post hs c (pop d3) m o w).
  { intros o w [Hq|(-> & Hst & Hq)]; [left|right; split; [done|]; split; [done|] ]; by eapply post_steps. }
  apply Hsteps. destruct (is_normal o1) as [->|Hno].
  { destruct H2 as [-> ->]. by eapply catch_skip_sim. }
  pose proof (guard_leaves isVoid fin hs h _ c d sid None (Some h) c1 (pop d3) m1 o1 w1 (cp_guard _ _ _ _ _ Cp) ltac:(by right) Wd W1 ltac:(by eapply grows_count, K) X1 Hno Hpost) as Hl.
  left. destruct o1; lazymatch type of H2 with _ ∧ _ => destruct H2 as [-> ->]; by eapply leaves_post | _ => idtac end.
  destruct Hl as [ (_ & m2 & S2 & Hc & J & Hw)|[ (t & b & m2 & _ & Hn & _)|(v & [=] & _)] ]; [|by specialize (Hn eq_refl)].
  pose proof (cs_inside _ _ _ _ _ _ F) as I.
  destruct (label_enter isVoid fin none _ _ h cr cj c2 hs m2 L) as (m3 & S3 & Hp3 & _ & Hw3); [by eapply ext_trans|by rewrite (in_frame _ _ _ I), (a_frame _ _ _ _ A)|apply (a_array _ _ _ _ A)|done| |done| |].
  { apply (frame_ok_array fin d); [apply (cp_array _ _ _ _ _ Cp)|by eapply ext_trans]. }
  { apply (e_reach _ _ (ext_trans _ _ _ (g_ext _ _ _ _ (bh_grows _ _ _ _ _ _ Bh)) (g_ext _ _ _ _ (lb_grows _ _ _ _ _ _ _ _ L)))); [apply (i_count _ _ (cp_idle _ _ _ _ _ Cp))|apply Hre, (pr_reach _ _ _ _ Hp)]. }
  eapply post_steps; [by eapply steps_trans|done|]. rewrite <-Hw, <-Hw3 in H2.
  pose proof (Mh _ _ _ _ _ _ ltac:(by eapply ext_trans) (inside_around _ _ _ _ _ _ I A) Hp3 H2) as Hpost2.
  destruct (cs_flags _ _ _ _ _ _ F) as (_ & _ & _ & B1 & B2). destruct (is_normal o2) as [->|Hno2].
  - apply post_normal_inv in Hpost2 as (m4 & S4 & Hp4 & _ & <-). destruct (Hend hs m4 X Hp4) as (m5 & S5 & _ & <- & Hp5). apply post_normal; [by eapply steps_trans|done|done].
  - destruct (post_inside isVoid fin false hs c c2 c3 (pop d3) (c_scopeCount cj) (ControlFlowSim.free sh) false m3 o2 w2) as [ (b & m4 & (n & _ & [ [_ Hb]|[_ Hb] ]) & _)|[Hq _] ]; try done;
      [by eapply grows_count, Kh|by rewrite B1 in Hb|by rewrite B2 in Hb].
Qed.

Lemma catch_label_part flags c d c1 c1' c2 sid h : wf c → c_scopeStack c ≠ [] → m_catchFinallyFollowBlock c = None → copen c d sid h None → opens isVoid flags h c d → kept d c1 → reflag sid c1 c1' →
  let S := scope c1' sid in f_Catch (sc_flags S) = false → f_FinallyAhead (sc_flags S) = false → sc_frame (scope d sid) = Some (next_frame (sc_frame (top c))) → catchLabel isVoid c1' = inl (tt, c2) →
  ∃ cr cj, (if f_Function (sc_flags S) then checkReturn isVoid c1' = inl (tt, cr) else cr = c1') ∧ grows none c1' cr ∧ behind c d cr sid h None ∧ cstart c cr cj c2 (scope cr sid) h.
Proof.
  intros W Hne Hfo Cp Op K R S Hca Hfa Hf H. assert (W1 : wf c1') by apply R. assert (O1 : open c1') by (eapply reflag_open; [exact R|apply K]).
  pose proof (catch_behind c d c1 c1' c1' sid h None W Cp K R (c_grows_refl _ _ _ W1) (c_same_refl _)) as B1.
  destruct (catchLabel_inv isVoid c1' c2 sid (c_scopeStack c) H W1 O1 (bh_stack _ _ _ _ _ _ B1) Hca) as (cr & cj & h' & Hahead & Hh & Hcr & Hj & Hc2). fold S in Hh, Hcr, Hj, Hc2. rewrite Hfa in Hcr, Hj, Hc2.
  destruct (static_catch _ _ (bh_static _ _ _ _ _ _ B1)) as (E1 & _). fold S in E1. rewrite E1, (gd_catch _ _ _ _ _ (cp_guard _ _ _ _ _ Cp)) in Hh. injection Hh as <-. cbn [negb] in Hcr. rewrite andb_true_r in Hcr.
  exists cr, cj. split; [done|]. assert (Hs : grows none c1' cr ∧ same c1' cr).
  { destruct (f_Function _); [|subst cr; split; [by apply c_grows_refl|done] ]. destruct (checkReturn_same isVoid _ _ Hcr W1 O1) as (G & Sm & _). by split. }
  destruct Hs as [Gr Sm]. split; [done|]. pose proof (catch_behind c d c1 c1' cr sid h None W Cp K R Gr Sm) as B. split; [done|].
  assert (Es : scope cr sid = S) by (by rewrite (same_scope _ _ _ Sm)).
  eapply catch_label; [done|done|exact Cp|exact B| |by rewrite Es| |rewrite Es; exact Hj|rewrite Es; exact Hc2].
  - by rewrite (s_follow _ _ Sm), (rf_follow _ _ _ R), (kp_follow _ _ _ K), (o_follow _ _ _ _ _ Op).
  - destruct (static_catch _ _ (bh_static _ _ _ _ _ _ B)) as (_ & _ & E3 & _). by rewrite E3.
Qed.

(** What is common to [catch] labels and [try] without labels. *)
Lemma catch_part flags c d c1 c1' c2 c3 c' sid h s sh : wf c → c_scopeStack c ≠ [] → m_catchFinallyFollowBlock c = None → copen c d sid h None → opens isVoid flags h c d →
  sid = c_scopeCount c → sc_frame (scope d sid) = Some (next_frame (sc_frame (child c))) → f_HasCatch (sc_flags (scope d sid)) = true → good s → compile isVoid isErrorCode s d = inl (tt, c1) →
  (kept d c1 → reflag sid c1 c1') →
  f_Function (sc_flags (scope d sid)) = bool_decide (c_scopeStack c = [0]) →
  (scope c1 sid = scope d sid → f_Catch (sc_flags (scope c1' sid)) = false ∧ f_FinallyAhead (sc_flags (scope c1' sid)) = false ∧ f_Function (sc_flags (scope c1' sid)) = f_Function (sc_flags (scope d sid))) →
  catchLabel isVoid c1' = inl (tt, c2) → good sh → ControlFlowSim.free sh = true → compile isVoid isErrorCode sh c2 = inl (tt, c3) →
  (∀ sid2, c_scopeStack c3 = sid2 :: c_scopeStack c → f_Try (sc_flags (scope c3 sid2)) = false → f_Catch (sc_flags (scope c3 sid2)) = true → f_FinallyAhead (sc_flags (scope c3 sid2)) = false → wf c3 →
    ∃ c3x d3, c' = pop d3 ∧ reflag sid2 c3 c3x ∧ finalizeCatchScope c3x = inl (tt, d3)) →
  ∃ cr cj c3x d3, c' = pop d3 ∧ kept c (pop d3) ∧ catch_code c d c1 c1' cr cj c2 c3 c3x d3 sid h s sh.
Proof.
  intros W Hne Hfo Cp Op Esid Hf Hhc IH Hs HR Hfun Hfl Hl IHh Hfree Hh Hend. pose proof (o_frame _ _ _ _ _ Op) as Fr. pose proof (o_stack _ _ _ _ _ Op) as Hst. assert (Wd : wf d) by apply Fr.
  assert (Hok : ok s d c1).
  { apply IH; [done|done|apply empty_open, (sf_code _ _ _ _ _ Fr)|by rewrite Hst|rewrite Hst; by destruct (c_scopeStack c)|left; by rewrite (o_follow _ _ _ _ _ Op)]. }
  pose proof Hok as [K _]. specialize (HR K). assert (Es1 : scope c1 sid = scope d sid) by (apply (kp_scopes _ _ _ K), (cp_sid _ _ _ _ _ Cp)).
  destruct (Hfl Es1) as (Fl1 & Fl2 & Fl3). rewrite child_frame in Hf by done.
  destruct (catch_label_part flags c d c1 c1' c2 sid h W Hne Hfo Cp Op K HR Fl1 Fl2 Hf Hl) as (cr & cj & Hret & Gr & B & F).
  pose proof (cs_label _ _ _ _ _ _ F) as L. assert (W2 : wf c2) by apply L. destruct (lb_here _ _ _ _ _ _ _ _ L) as [Hc Hcode]. pose proof (in_stack _ _ _ (cs_inside _ _ _ _ _ _ F)) as St2.
  assert (Hokh : ok sh c2 c3).
  { apply IHh; [done|done|apply empty_open; by rewrite Hc|by rewrite St2|rewrite St2; by destruct (c_scopeStack c)|by right]. }
  pose proof Hokh as [Kh _]. assert (Es3 : scope c3 (c_scopeCount cj) = scope c2 (c_scopeCount cj)) by (apply (kp_scopes _ _ _ Kh); rewrite (lb_count _ _ _ _ _ _ _ _ L); lia).
  destruct (cs_flags _ _ _ _ _ _ F) as (C1 & C2 & C3 & _). rewrite <-Es3 in C1, C2, C3.
  destruct (Hend (c_scopeCount cj)) as (c3x & d3 & -> & R3 & Hfin); [by rewrite (kp_stack _ _ _ Kh), St2|done|done|done|apply Kh|].
  assert (Gc : grows none c cr) by (eapply grows_trans0; [apply (cp_grows _ _ _ _ _ Cp)|apply (bh_grows _ _ _ _ _ _ B)]).
  destruct (catch_end c cr cj c2 (scope cr sid) h c3 c3x d3 W Gc F (cp_new _ _ _ _ _ Cp) Kh R3 Hfin Hfo) as (Kc & X3 & Hb & Hp).
  exists cr, cj, c3x, d3. split; [done|]. split; [done|]. split; try done; [intros Hr; by apply (sf_reached _ _ _ _ _ Fr)|by rewrite Fl3|].
  intros hs m X Hpre. by apply Hp.
Qed.

Definition scope_ok (s : stmt) (c c' : CState) : Prop := kept c c' ∧ ∀ fuel k hs m o w, ext c' fin → around hs k c → pre hs c m →
  eval isErrorCode fuel k s (k_world m) = Some (o, w) → catch_post hs c c' m o w.

Lemma catch_scope_ok flags isTry s s_catch sh c d c1 c1' cr cj c2 c3 c3x d3 sid h : handler isTry s_catch = Some sh → kept c (pop d3) → catch_code c d c1 c1' cr cj c2 c3 c3x d3 sid h s sh →
  opens isVoid flags h c d → scope_ok (SScope isTry s s_catch None) c (pop d3).
Proof.
  intros Hh K C Op. split; [done|]. intros fuel k hs m o w X A Hp Hev. destruct fuel as [|fuel]; [done|].
  apply eval_scope in Hev as (o1 & w1 & o2 & w2 & H1 & H2 & -> & ->). rewrite Hh in H1, H2. rewrite bool_decide_eq_true_2, orb_true_r in H1 by (by eexists).
  eapply (catch_sim c d c1 c1' cr cj c2 c3 c3x d3 sid h s sh flags fuel hs k o1 w1 o2 w2 m); done.
Qed.

Lemma catch_good isTry s sh : good s → good sh → ControlFlowSim.free sh = true → ∀ c c', compile isVoid isErrorCode (SScope isTry s (Some sh) None) c = inl (tt, c') → wf c →
  c_scopeStack c ≠ [] → m_catchFinallyFollowBlock c = None → scope_ok (SScope isTry s (Some sh) None) c c'.
Proof.
  intros IH IHh Hfree c c' H W Hne Hfo. cbn in H. comp_step H. rename select (openScope _ _ = _) into Ho. rename select (compile _ _ s _ = _) into Hs. rename select (catchLabel _ _ = _) into Hl.
  rename select (compile _ _ sh _ = _) into Hh. units.
  rename c0 into d, c3 into c4; rename c2 into c3; rename c4 into c2. set (flags := anchor_flags isTry (Some sh) None) in *.
  destruct (opened_catch flags c _ d Ho W Hne) as (h & ff & Cp & Op & -> & Hff & Es); [by destruct isTry|done|]. destruct ff; [done|].
  destruct (opened_flags_label flags c Hne) as (O1 & O2 & O3 & O4 & O5 & O6 & O7 & O8). change (f_Catch flags) with false in O2. change (f_FinallyAhead flags) with false in O5. change (f_Function flags) with false in O8.
  destruct (catch_part flags c d c1 c1 c2 c3 c' _ h s sh W Hne Hfo Cp Op eq_refl) as (cr & cj & c3x & d3 & -> & K & C); try done.
  - by rewrite Es.
  - rewrite Es. cbn [sc_flags]. rewrite O6. unfold flags, anchor_flags. cbn. by destruct isTry; rewrite orb_true_r.
  - intros K. apply reflag_refl, K.
  - rewrite Es. exact O8.
  - intros ->. by rewrite Es.
  - intros sid2 St F1 F2 F3 W3. destruct (closeScope_catch_inv isVoid c3 c' sid2 _ H St F1 F2 F3) as (d3 & Hd & ->). eexists _, d3. split; [done|]. split; [|exact Hd].
    apply reflag_upd; [by apply reflag_refl|done].
  - by eapply catch_scope_ok.
Qed.

Lemma static_ahead x : static (catch_ahead x) = static x.
Proof. unfold catch_ahead, static. cbn. by rewrite !orb_false_r. Qed.

(** A [try] without labels. *)
Lemma try_good s : good s → good SSkip → ∀ c c', compile isVoid isErrorCode (SScope true s None None) c = inl (tt, c') → wf c →
  c_scopeStack c ≠ [] → m_catchFinallyFollowBlock c = None → scope_ok (SScope true s None None) c c'.
Proof.
  intros IH IHh c c' H W Hne Hfo. cbn in H. comp_step H. rename select (openScope _ _ = _) into Ho. rename select (compile _ _ s _ = _) into Hs. units. rename c0 into d.
  set (flags := anchor_flags true None None) in *. destruct (opened_catch flags c _ d Ho W Hne eq_refl eq_refl) as (h & ff & Cp & Op & -> & Hff & Es). destruct ff; [done|].
  destruct (opened_flags_label flags c Hne) as (O1 & O2 & O3 & O4 & O5 & O6 & O7 & O8).
  change (f_Try flags) with true in O1. change (f_Catch flags) with false in O2. change (f_CatchAhead flags) with false in O4. change (f_FinallyAhead flags) with false in O5. change (f_Function flags) with false in O8. change (f_HasCatch flags) with true in O6.
  pose proof (o_stack _ _ _ _ _ Op) as Hst. set (sid := c_scopeCount c) in *. assert (Wd : wf d) by apply (o_frame _ _ _ _ _ Op).
  destruct (IH d c1 Hs Wd) as [K _]; [apply empty_open, (sf_code _ _ _ _ _ (o_frame _ _ _ _ _ Op))|by rewrite Hst|rewrite Hst; by destruct (c_scopeStack c)|left; by rewrite (o_follow _ _ _ _ _ Op)|].
  assert (Es1 : scope c1 sid = scope d sid) by (apply (kp_scopes _ _ _ K), (cp_sid _ _ _ _ _ Cp)).
  destruct (closeScope_try_inv isVoid c1 c' sid (c_scopeStack c) H) as (c2 & d3 & Hl & Hd & ->); [by rewrite (kp_stack _ _ _ K)|by rewrite Es1, Es..|].
  set (c1' := upd_scp sid catch_ahead (upd_scp sid clear_try c1)) in *.
  destruct (catch_part flags c d c1 c1' c2 c2 (pop d3) sid h s SSkip W Hne Hfo Cp Op eq_refl) as (cr & cj & c3x & d3' & Ed & K' & C); try done.
  - by rewrite Es.
  - rewrite Es. cbn [sc_flags]. by rewrite O6, orb_true_r.
  - intros _. apply reflag_upd; [apply reflag_upd; [apply reflag_refl, K|done]|apply static_ahead].
  - rewrite Es. exact O8.
  - intros _. unfold c1'. rewrite !scope_upd, !decide_True by done. rewrite Es1, Es. set (fl := opened_flags flags c) in *. clearbody fl. cbn. rewrite O2, O5, !orb_false_r. done.
  - intros sid2 St _ _ _ W2. exists c2, d3. split; [done|]. split; [by apply reflag_refl|done].
  - rewrite Ed. by eapply catch_scope_ok.
Qed.
End catch.
