(* ===== verification/ControlFlowTryFinally.v ===== *)
(** * Control flow: [catch] with [finally]

    A scope with both labels: the part behind [catch] is itself before the [finally] label, with a frame of its own. *)

From S2P Require Import Prelude ControlFlow ControlFlowRun ControlFlowInv ControlFlowOps ControlFlowScope ControlFlowRoute ControlFlowLabels ControlFlowSim ControlFlowLeaf ControlFlowStmt ControlFlowLoop ControlFlowTry ControlFlowFinally ControlFlowCatch.

Open Scope nat_scope.

#[local] Strategy 1000 [mbind Comp_bind mret Comp_ret].

Section both.
Context `{E : Effects} (isVoid isErrorCode : bool) (fin : CState) (Wfin : wf isVoid fin).

#[local] Abbreviation grows := (grows isVoid).
#[local] Abbreviation wf := (wf isVoid).
#[local] Abbreviation none := (λ _ : nat, False).
#[local] Abbreviation P := (finalizeFunction fin).
#[local] Abbreviation fa := (m_sjljFrameArrayValue fin).
#[local] Abbreviation kept := (kept isVoid).
#[local] Abbreviation post := (post isVoid fin).
#[local] Abbreviation pre := (pre fin).
#[local] Abbreviation around := (around fin).
#[local] Abbreviation ok := (ok isVoid isErrorCode fin).
#[local] Abbreviation good := (good isVoid isErrorCode fin).
#[local] Abbreviation region := (region isVoid).
#[local] Abbreviation fstart := (fstart isVoid).
#[local] Abbreviation fend := (fend isVoid).
#[local] Abbreviation fpending := (fpending isVoid fin).
#[local] Abbreviation copen := (copen isVoid).
#[local] Abbreviation behind := (behind isVoid).
#[local] Abbreviation past := (past isVoid).

(** ** Behind [catch], before [finally] *)

Record cfstart (c c1 c2 : CState) (sid h f hb : nat) : Prop := {
  ct_region : region c c2 sid f hb;
  ct_grows : grows (λ x, x = h) c1 c2;
  ct_scope : let S := scope c2 sid in f_Try (sc_flags S) = false ∧ f_Finally (sc_flags S) = false ∧ f_FinallyAhead (sc_flags S) = true ∧
    f_HasCatch (sc_flags S) = f_HasCatch (sc_flags (top c)) ∧ sc_finallyBlock S = Some f ∧ sc_frame S = Some (next_frame (sc_frame (top c)));
  ct_follow : follow_ok (c_blockCount c) c2;
  ct_routes b : m_catchFinallyFollowBlock c2 = Some b → routes c2 f ≠ [];
  ct_normal : reachable c1 = true → reached c2 f = true ∧ ∃ r b rest, code c2 (m_currentBlock c1) = code c1 (m_currentBlock c1) ++ [IStoreRoute (Some r); IBr f] ++ rest ∧
    m_catchFinallyFollowBlock c2 = Some b ∧ find_key r (routes c2 f) = Some b;
  ct_reach : reached c1 h = true → reached c2 f = true ∧ reachable c2 = true;
  ct_landing : landing c2 h = Some sid ∧ ¬ pending c2 h;
  ct_code : code c2 h = [ISetFrame (Some (next_frame (sc_frame (top c)))); ISetJmpBr (next_frame (sc_frame (top c))) hb (m_currentBlock c2)];
  ct_here : code c2 (m_currentBlock c2) = [] ∧ plain c2 (m_currentBlock c2)
}.

(** The label, up to the frame. *)
Lemma catch_finally_open c d cr sid h f cj : wf c → c_scopeStack c ≠ [] → copen c d sid h (Some f) → behind c d cr sid h (Some f) → past c cr cj f → m_catchFinallyFollowBlock cr = None →
  let S := scope cr sid in f_FinallyAhead (sc_flags S) = true → let cl := labeled Flag_Catch (catch_flags S) h cj in let sid2 := c_scopeCount cj in
  let k := next_frame (sc_frame (top c)) in let cx := upd_scp sid2 (λ x, sc_set_frame (Some k) (sc_set_finally (Some f) x)) cl in
  label_open isVoid none Flag_Catch (catch_flags S) h cr cj cl ∧ grows (λ x, x = h) cr cx ∧ idle cx f ∧ follow_ok (c_blockCount c) cx ∧ (landing cx h = Some sid2 ∧ ¬ pending cx h) ∧
  (∃ fl, scope cx sid2 = mkScope fl None None None (Some f) (Some k) ∧ f_Try fl = false ∧ f_Finally fl = false ∧ f_FinallyAhead fl = true ∧
    f_HasCatch fl = f_HasCatch (sc_flags (top c)) ∧ f_Finalizable fl = true) ∧
  sc_frame (scope cl sid2) = sc_frame (top c) ∧ c_scopeStack cx = sid2 :: c_scopeStack c ∧ (∀ s, s < c_scopeCount c → scope cx s = scope c s) ∧ (sid2 ≠ 0 ∧ sid2 ∉ c_scopeStack c).
Proof.
  intros W Hne Cp [Gd Hst Hsc Es Ih [Hp Hnp] Hff [Hn1 Hn2] ] [G X Hst2 Hcnt Hsc2 Fj Bj Nj Rj If Hkeep _] Hfo S Hfa cl sid2 k cx. assert (Wr : wf cr) by apply Gd. pose proof (i_count _ _ Ih) as Hh.
  destruct (Hff f eq_refl) as (Ifr & Ha & Hpf). destruct (cp_finally _ _ _ _ _ _ Cp f eq_refl) as (_ & Hfn & Hfh & _).
  assert (L : label_open isVoid none Flag_Catch (catch_flags S) h cr cj cl).
  { apply labeled_open; try done; [by apply (grows_idle _ _ _ _ G)|intros Hx; apply Hnp; eapply ext_pending; [exact X|done|done]|].
    intros s. split; [done|]. intros H1 H2. unfold scope_ahead, catch_flags. cbn. rewrite H1. by destruct (f_FinallyAhead _ || _). }
  destruct (label_scope isVoid _ _ _ _ _ _ _ _ L W Hne Hst2 ltac:(lia) Hsc2) as (fl & Es2 & Ef & O1 & O2 & O3 & O4 & O5 & O6 & O7 & St2 & Sc2 & N1 & N2). fold sid2 in Es2, St2, N1, N2. clear Ef.
  assert (Hfin : f_Finalizable (sc_flags S) = true).
  { destruct (static_catch _ _ Es) as (_ & _ & _ & _ & E5 & _). unfold S. rewrite E5, (gd_finalizable _ _ _ _ _ (cp_guard _ _ _ _ _ _ Cp)). by rewrite orb_true_r. }
  set (g := λ x, sc_set_frame (Some k) (sc_set_finally (Some f) x)) in *.
  assert (Hg1 : ∀ x, has_block (g (scope cl sid2)) x ↔ has_block (scope cl sid2) x) by done.
  assert (Hg2 : scope_ahead (scope cl sid2) = None) by (rewrite Es2; unfold scope_ahead; cbn; by case_match).
  assert (Hg3 : scope_ahead (g (scope cl sid2)) = Some f) by (rewrite Es2; unfold scope_ahead; cbn; by rewrite Hfa, orb_true_r).
  assert (Hnb : ∀ b, ¬ has_block (scope cl sid2) b) by (intros b; rewrite Es2; intros Hx; by destruct Hx as [|[] ]).
  assert (Ifl : idle cl f) by (by apply (lb_idle _ _ _ _ _ _ _ _ L)).
  assert (Hnah : f ∉ all_ahead cl).
  { intros (s & Hs & Hx)%elem_all_ahead. rewrite St2 in Hs. apply elem_of_cons in Hs as [->|Hs]; [congruence|]. rewrite Sc2 in Hx by (by apply (w_stack _ _ W)).
    destruct (w_ahead _ _ W f); [apply elem_all_ahead; by exists s|]. lia. }
  assert (Gx : grows (λ x, x = h) cr cx).
  { unfold cx. eapply grows_upd_scp; [eapply grows_weaken; [apply L|by intros x [ []|Hx] _]|exact St2|lia| | | |].
    - intros b Hb. by left.
    - intros b Hb. by destruct (Hnb b).
    - right. split; [done|]. exists f. split; [done|]. split; [apply (i_count _ _ Ifl)|]. split; [apply (i_special _ _ Ifl)|done].
    - intros b Hb. rewrite Hg3 in Hb. injection Hb as <-. right. apply elem_all_ahead. exists sid. rewrite Hst. split; [left|exact Ha]. }
  assert (Hgp : ∀ b, b ≠ f → ∀ x, scope_ahead (g (scope cl sid2)) = Some x → x ≠ b ∨ scope_ahead (scope cl sid2) = Some x) by (intros b Hb x Hx; left; congruence).
  split; [done|]. split; [done|]. split; [by apply idle_upd_scp|]. split; [|split; [|split; [|split; [|split; [|split] ] ] ] ].
  - intros b Hb. change (m_catchFinallyFollowBlock cl = Some b) in Hb. rewrite (lb_follow _ _ _ _ _ _ _ _ L) in Hb. destruct (Fj b Hb) as (Q1 & Q2 & Q3). pose proof (Bj b Hb). pose proof (Nj b Hfo Hb).
    split; [done|]. split; [apply idle_upd_scp, (lb_idle _ _ _ _ _ _ _ _ L); [done|lia]|]. apply plain_upd_scp; [apply (lb_plain _ _ _ _ _ _ _ _ L); [done|lia]|done|by apply Hgp].
  - split; [apply (lb_landing _ _ _ _ _ _ _ _ L)|]. intros Hx. apply (lb_pending _ _ _ _ _ _ _ _ L). eapply pending_upd_scp; [|apply Hgp|exact Hx]; done.
  - eexists. split; [unfold cx; rewrite scope_upd, decide_True by done; rewrite Es2; reflexivity|]. cbn. rewrite O1, O3, O6, O7, Hfa, Hfin, !orb_true_r, !orb_false_r. done.
  - by rewrite Es2.
  - done.
  - intros s Hs. unfold cx. rewrite scope_upd, decide_False by (unfold sid2; lia). by apply Sc2.
  - done.
Qed.

Lemma catch_finally_label c d cr sid h f cj c2 : wf c → c_scopeStack c ≠ [] → copen c d sid h (Some f) → behind c d cr sid h (Some f) → past c cr cj f → m_catchFinallyFollowBlock cr = None →
  let S := scope cr sid in f_FinallyAhead (sc_flags S) = true → let cl := labeled Flag_Catch (catch_flags S) h cj in let sid2 := c_scopeCount cj in
  (let k := next_frame (sc_frame (scope cl sid2)) in setJmpFinally f k (upd_scp sid2 (λ x, sc_set_frame (Some k) (sc_set_finally (Some f) x)) cl) = inl (tt, c2)) →
  ∃ hb, cfstart c cr c2 sid2 h f hb.
Proof.
  intros W Hne Cp B Ps Hfo S Hfa cl sid2 H. destruct (catch_finally_open c d cr sid h f cj W Hne Cp B Ps Hfo Hfa) as (L & Gx & Ix & Fx & [Hl Hnp] & (fl & Es & O1 & O3 & O5 & O6 & O7) & Hfr & St & Sc & N1 & N2).
  fold S cl in L, Gx, Ix, Fx, Hl, Hnp, Es, Hfr, St, Sc. fold sid2 in Hl, Es, Hfr, N1, N2. cbv zeta in H. fold sid2 in Hfr. rewrite Hfr in H. set (k := next_frame (sc_frame (top c))) in *. fold sid2 in Gx, Ix, Fx, Hl, Hnp, Es, St, Sc.
  set (cx := upd_scp sid2 _ cl) in *. assert (Wx : wf cx) by apply Gx. destruct (setJmpFinally_spec isVoid f k cx c2 H Wx Ix) as (Sm & hb & Fr & Hhb & Hcode & Phb & Hre).
  pose proof (sf_grows _ _ _ _ _ Fr) as G2. assert (X2 : ext cx c2) by apply G2. destruct (cp_finally _ _ _ _ _ _ Cp f eq_refl) as (Ifd & Hfn & Hfh & Hown).
  pose proof (bh_count _ _ _ _ _ _ _ B) as [Hn1 Hn2]. pose proof (ps_count _ _ _ _ _ Ps) as Hcnt. pose proof (i_count _ _ Ix) as Hf. pose proof (i_count _ _ (bh_idle _ _ _ _ _ _ _ B)) as Hh.
  assert (Hhx : h < c_blockCount cx) by (pose proof (grows_count _ _ _ _ Gx); lia). destruct (lb_here _ _ _ _ _ _ _ _ L) as [Hc1 Hc2].
  assert (Esc : scope c2 sid2 = scope cx sid2) by (by apply same_scope). assert (G : grows (λ x, x = h) cr c2) by (eapply grows_weaken; [eapply c_grows_trans; [exact Gx|exact G2]|by intros x [Hx|[] ] _]).
  exists hb. split.
  - split.
    + split; rewrite ?Esc, ?Es; try done.
      * by rewrite (s_stack _ _ Sm), St.
      * intros s Hs. rewrite (same_scope _ _ _ Sm). by apply Sc, (w_stack _ _ W).
      * unfold ahead. rewrite Esc, Es. unfold scope_ahead. cbn. by rewrite O5.
      * cbn. by rewrite O7, orb_true_r.
    + assert (Gc : grows (λ x, False ∨ (False ∨ x = h)) c c2) by (eapply c_grows_trans; [apply (cp_grows _ _ _ _ _ _ Cp)|eapply c_grows_trans; [apply (bh_grows _ _ _ _ _ _ _ B)|exact G] ]).
      eapply grows_weaken; [exact Gc|]. intros x [ []|[ []| ->] ] Hx. pose proof (cp_new _ _ _ _ _ _ Cp). lia.
    + intros s Hs. rewrite (same_scope _ _ _ Sm). by apply Sc.
    + split; [unfold sid2; lia|]. rewrite (s_count _ _ Sm). change (c_scopeCount cx) with (c_scopeCount cl). rewrite (lb_count _ _ _ _ _ _ _ _ L). unfold sid2. lia.
    + by apply (grows_idle _ _ _ _ G2).
    + done.
    + done.
    + by rewrite Hcode.
    + apply (sf_array _ _ _ _ _ Fr).
    + intros s Ho. apply (Hown s). apply (e_owns _ _ (ext_trans _ _ _ (g_ext _ _ _ _ (bh_grows _ _ _ _ _ _ _ B)) (g_ext _ _ _ _ G))); [apply (i_count _ _ Ifd)|done].
  - done.
  - cbv zeta. rewrite Esc, Es. done.
  - eapply follow_ok_ext; [exact Fx|exact G2|done|apply Sm].
  - intros b Hb. rewrite (s_follow _ _ Sm) in Hb. change (m_catchFinallyFollowBlock cl = Some b) in Hb. rewrite (lb_follow _ _ _ _ _ _ _ _ L) in Hb. rewrite (sf_routes _ _ _ _ _ Fr) by done.
    change (routes cl f ≠ []). rewrite (lb_routes _ _ _ _ _ _ _ _ L). by eapply (ps_routes _ _ _ _ _ Ps).
  - intros Hr. destruct (ps_normal _ _ _ _ _ Ps Hr) as (R1 & r & b & R2 & R3 & R4). split.
    + apply (e_reach _ _ X2); [done|]. change (reached cl f = true). by rewrite (lb_reached _ _ _ _ _ _ _ _ L).
    + assert (Hcur : m_currentBlock cr < c_blockCount cx) by (pose proof (w_current _ _ (g_wf _ _ _ _ (bh_grows _ _ _ _ _ _ _ B))); pose proof (grows_count _ _ _ _ Gx); lia).
      destruct (e_code _ _ X2 _ Hcur) as [rest Hrest]. change (code cx (m_currentBlock cr)) with (code cl (m_currentBlock cr)) in Hrest. rewrite (lb_code _ _ _ _ _ _ _ _ L), R2, <-app_assoc in Hrest.
      exists r, b, rest. split; [done|]. split; [rewrite (s_follow _ _ Sm); change (m_catchFinallyFollowBlock cl = Some b); by rewrite (lb_follow _ _ _ _ _ _ _ _ L)|].
      rewrite (sf_routes _ _ _ _ _ Fr) by done. change (find_key r (routes cl f) = Some b). by rewrite (lb_routes _ _ _ _ _ _ _ _ L).
  - intros Hr. assert (Hrx : reachable cx = true) by (unfold reachable; change (m_currentBlock cx) with (m_currentBlock cl); rewrite Hc1; by apply (e_reach _ _ (g_ext _ _ _ _ Gx))).
    split; [by apply Hre|by apply (sf_reached _ _ _ _ _ Fr)].
  - split; [by rewrite (e_landing _ _ X2)|]. intros Hx. apply Hnp. by eapply ext_pending.
  - pose proof (sf_emits _ _ _ _ _ Fr) as Em. change (m_currentBlock cx) with (m_currentBlock cl) in Em. rewrite Hc1 in Em. rewrite Em. change (code cx h) with (code cl h). by rewrite Hc2.
  - split; [apply (sf_code _ _ _ _ _ Fr)|apply (sf_plain _ _ _ _ _ Fr)].
Qed.

(** A throw comes to the part behind [catch]. *)
Lemma catch_enter c cr c2 sid h f hb hs m : cfstart c cr c2 sid h f hb → ext c2 fin → h < c_blockCount c2 → sc_frame (top c) = frame_of hs → k_code m = code_of P h → jmp_ok hs m → reachable c2 = true →
  ∃ m', steps P m m' ∧ pre (hs ++ [hb]) c2 m' ∧ k_world m' = k_world m.
Proof.
  intros F X Hh Hf Hc J Hr. destruct (ct_landing _ _ _ _ _ _ _ F) as [Hl Hnp]. destruct (ct_scope _ _ _ _ _ _ _ F) as (_ & _ & _ & _ & _ & Hfr). destruct (ct_here _ _ _ _ _ _ _ F) as [Hc2 P2].
  pose proof (ct_region _ _ _ _ _ _ _ F) as R. assert (Ha : fa = true) by (by apply (e_frames _ _ X), (rg_array _ _ _ _ _ _ R)).
  rewrite Hf, next_frame_of in Hfr. pose proof (ct_code _ _ _ _ _ _ _ F) as Hcode. rewrite Hf, next_frame_of in Hcode. destruct (e_code _ _ X h Hh) as [rest Hrest]. rewrite Hcode in Hrest.
  assert (Hfs : sc_frame (scope fin sid) = Some (length hs)) by (rewrite <-Hfr; apply static_frame, (e_scope _ _ X), (rg_sid _ _ _ _ _ _ R)).
  rewrite code_of_fin in Hc. unfold landing_code in Hc. rewrite (e_landing _ _ X), Hl, Ha, Hfs, Hrest in Hc by done. cbn in Hc.
  set (m1 := set_frame (Some (length hs)) (set_code (ISetFrame (Some (length hs)) :: ISetJmpBr (length hs) hb (m_currentBlock c2) :: rest) m)).
  set (m2 := set_frame (Some (length hs)) (set_code (ISetJmpBr (length hs) hb (m_currentBlock c2) :: rest) m1)).
  exists (enter P (m_currentBlock c2) (set_jmp (<[length hs := hb]> (k_jmp m2)) (set_code rest m2))). split; [|split; [|done] ].
  - eapply step_steps; [unfold step; rewrite Hc; reflexivity|]. eapply step_steps; [reflexivity|]. by apply steps_one.
  - split; [|done|cbn; by rewrite frame_of_snoc|eapply jmp_ok_snoc; [exact J|done] ]. unfold at_end. rewrite Hc2. cbn. by rewrite (code_of_plain fin c2).
Qed.

(** ** A scope with both labels *)

Record both_code (c d c1 c1' c2 c3 cj c4 c5 c' : CState) (sid h f hb sid2 : nat) (s sh sf : stmt) : Prop := {
  bc_wf : wf c;
  bc_stack : c_scopeStack c ≠ [];
  bc_open : copen c d sid h (Some f);
  bc_reach : reachable c = true → reached d h = true;
  bc_frame : sc_frame (scope d sid) = Some (next_frame (sc_frame (top c)));
  bc_hasCatch : f_HasCatch (sc_flags (scope d sid)) = true;
  bc_body : ok s d c1;
  bc_reflag : reflag isVoid sid c1 c1';
  bc_start : cfstart c c1' c2 sid2 h f hb;
  bc_handler : ok sh c2 c3;
  bc_finally : fstart c c3 cj c4 f;
  bc_part : ok sf c4 c5;
  bc_free : ControlFlowSim.free sf = true;
  bc_end : fend c c4 c5 c' f
}.

(** How the body is left, the machine comes to the [finally] block. *)
Lemma both_pending c d c1 c1' c2 c3 cj c4 c5 c' sid h f hb sid2 s sh sf fuel hs k m o1 w1 o2 w2 : both_code c d c1 c1' c2 c3 cj c4 c5 c' sid h f hb sid2 s sh sf → ext c' fin → around hs k c →
  reachable c = true → post (hs ++ [h]) d c1 (ControlFlowSim.free s) m o1 w1 → (match o1 with OThrow => eval isErrorCode fuel k sh w1 = Some (o2, w2) | _ => o2 = o1 ∧ w2 = w1 end) →
  ∃ m', steps P m m' ∧ fpending f c c4 hs o2 w2 m'.
Proof.
  intros [W Hne Cp Hre Hf Hhc [K _] R F [Kh Mh] Fs [Kf _] _ Fe] X A Hr Hpost H2. pose proof (ct_region _ _ _ _ _ _ _ F) as Rg.
  assert (X4 : ext c4 fin) by (eapply ext_trans; [apply Kf|]; eapply ext_trans; [apply (fe_ext _ _ _ _ _ _ Fe)|done]).
  assert (X34 : ext c3 c4) by apply (fs_label _ _ _ _ _ _ Fs). assert (X24 : ext c2 c4) by (eapply ext_trans; [apply Kh|done]). assert (X12 : ext c1' c2) by apply (ct_grows _ _ _ _ _ _ _ F).
  assert (X14 : ext c1 c4) by (eapply ext_trans; [apply R|by eapply ext_trans]). assert (Xd4 : ext d c4) by (eapply ext_trans; [apply K|done]).
  assert (Wd : wf d) by apply (cp_grows _ _ _ _ _ _ Cp). assert (W1 : wf c1) by apply K. assert (W2 : wf c2) by apply (ct_grows _ _ _ _ _ _ _ F).
  assert (Hok : ∀ m, frame_ok fin m) by (intros m1; apply (frame_ok_array fin d); [apply (cp_array _ _ _ _ _ _ Cp)|by eapply ext_trans]).
  assert (Hh2 : reached c1' h = true). { apply (e_reach _ _ (ext_trans _ _ _ (g_ext _ _ _ _ (kp_grows _ _ _ K)) (g_ext _ _ _ _ (rf_grows _ _ _ _ R)))); [apply (i_count _ _ (cp_idle _ _ _ _ _ _ Cp))|by apply Hre]. }
  destruct (ct_reach _ _ _ _ _ _ _ F Hh2) as [Hrf Hr2]. pose proof (i_count _ _ (rg_idle _ _ _ _ _ _ Rg)) as Hf2.
  destruct (is_normal o1) as [->|Hno].
  - destruct H2 as [-> ->]. apply post_normal_inv in Hpost as (m1 & S1 & Hp1 & _ & <-). pose proof (reflag_pre _ _ _ _ _ _ _ R Hp1) as Hp1'.
    destruct (ct_normal _ _ _ _ _ _ _ F (pr_reach _ _ _ _ Hp1')) as (_ & r & b & rest0 & Hc & Hb & Hk).
    destruct (at_emits fin c1' c2 m1 _ (pr_at _ _ _ _ Hp1') ltac:(by eapply ext_trans) ltac:(pose proof (w_current _ _ (g_wf _ _ _ _ (rf_grows _ _ _ _ R))); pose proof (e_count _ _ X12); lia) Hc) as (rest & Hm & _). cbn in Hm.
    exists (enter P f (set_code (rest0 ++ rest) (set_route (Some r) (set_code (IBr f :: rest0 ++ rest) m1)))). split.
    + eapply steps_trans; [exact S1|]. eapply step_steps; [unfold step; rewrite Hm; reflexivity|]. by apply steps_one.
    + apply (fpending_ext isVoid fin f c c2 c4); [done|done|by eapply grows_count, (rg_grows _ _ _ _ _ _ Rg)|done|done| |].
      * intros b' Hb'. apply (fs_keeps _ _ _ _ _ _ Fs). by rewrite (kp_follow _ _ _ Kh).
      * split; try done; [eapply jmp_ok_prefix, (pr_jmp _ _ _ _ Hp1)|]. left. split; [done|]. by exists b.
  - destruct (guard_leaves isVoid fin hs h _ c d sid (Some f) (Some h) c1 c4 m o1 w1 (cp_guard _ _ _ _ _ _ Cp) ltac:(by right) Wd W1 ltac:(by eapply grows_count, K) X14 Hno Hpost) as
      [ (-> & m2 & S2 & Hc & J & Hw)|[ (t & b & m2 & T & Hn & S2 & [A1 A2 A3 A4 A5 A6 A7 A8])|(v & _ & [=] & _)] ].
    + destruct (catch_enter c c1' c2 sid2 h f hb hs m2 F ltac:(by eapply ext_trans)) as (m3 & S3 & Hp3 & Hw3); [|apply (a_frame _ _ _ _ A)|done|done|done|].
      { pose proof (i_count _ _ (cp_idle _ _ _ _ _ _ Cp)). pose proof (e_count _ _ X12). pose proof (grows_count _ _ _ _ (kp_grows _ _ _ K)). pose proof (grows_count _ _ _ _ (rf_grows _ _ _ _ R)). lia. }
      rewrite <-Hw, <-Hw3 in H2. destruct (ct_scope _ _ _ _ _ _ _ F) as (_ & _ & _ & G1 & _ & G2).
      assert (A2 : around (hs ++ [hb]) k c2).
      { eapply guard_around; [apply (rg_guard _ _ _ _ _ _ Rg)|done|by rewrite G2, (a_frame _ _ _ _ A), next_frame_of|apply (rg_array _ _ _ _ _ _ Rg)|by eapply ext_trans|done]. }
      pose proof (Mh _ _ _ _ _ _ ltac:(by eapply ext_trans) A2 Hp3 H2) as Hpost2.
      destruct (region_pending isVoid fin c c2 sid2 f hb c3 cj c4 _ hs m3 o2 w2 W Rg Kh Fs X4 Hrf Hpost2) as (m4 & S4 & Fp). exists m4. split; [|done].
      eapply steps_trans; [exact S2|by eapply steps_trans].
    + assert (o2 = o1 ∧ w2 = w1) as [-> ->] by (destruct o1; try done; by specialize (Hn eq_refl)). exists m2. split; [done|]. split; try done. right; right. by exists t, b.
Qed.

Lemma both_sim c d c1 c1' c2 c3 cj c4 c5 c' sid h f hb sid2 s sh sf flags fuel hs k m o1 w1 o2 w2 o3 w : both_code c d c1 c1' c2 c3 cj c4 c5 c' sid h f hb sid2 s sh sf → opens isVoid flags h c d →
  ext c' fin → around hs k c → pre hs c m → eval isErrorCode fuel true s (k_world m) = Some (o1, w1) →
  (match o1 with OThrow => eval isErrorCode fuel k sh w1 = Some (o2, w2) | _ => o2 = o1 ∧ w2 = w1 end) → eval isErrorCode fuel k sf w2 = Some (o3, w) → post hs c c' false m (after_finally o2 o3) w.
Proof.
  intros C Op X A Hp H1 H2 H3. pose proof C as [W Hne Cp Hre Hf Hhc [K M] R F Hokh Fs Hokf Hfree Fe].
  assert (X1 : ext c1 fin).
  { eapply ext_trans; [apply R|]. eapply ext_trans; [apply (ct_grows _ _ _ _ _ _ _ F)|]. eapply ext_trans; [apply Hokh|]. eapply ext_trans; [apply (fs_label _ _ _ _ _ _ Fs)|]. eapply ext_trans; [apply Hokf|].
    eapply ext_trans; [apply (fe_ext _ _ _ _ _ _ Fe)|done]. }
  assert (Xd : ext d fin) by (eapply ext_trans; [apply K|done]).
  destruct (opens_enter isVoid fin flags h c d hs k m Op W Hne Xd A Hp) as (m1 & S1 & Hp1 & _ & Hw1). rewrite <-Hw1 in H1.
  assert (Ad : around (hs ++ [h]) true d).
  { apply (catch_around isVoid fin hs k c d d sid h (Some f) Cp (gd_stack _ _ _ _ _ (cp_guard _ _ _ _ _ _ Cp)) eq_refl (cp_array _ _ _ _ _ _ Cp) A); [|done|done]. by rewrite Hf, (a_frame _ _ _ _ A), next_frame_of. }
  pose proof (M _ _ _ _ _ _ X1 Ad Hp1 H1) as Hpost.
  destruct (both_pending _ _ _ _ _ _ _ _ _ _ _ _ _ _ _ _ _ _ _ hs k _ _ _ _ _ C X A (pr_reach _ _ _ _ Hp) Hpost H2) as (m2 & S2 & Fp).
  eapply post_steps; [by eapply steps_trans|done|]. eapply finally_sim; try done. pose proof (grows_count _ _ _ _ (rg_grows _ _ _ _ _ _ (ct_region _ _ _ _ _ _ _ F))).
  pose proof (grows_count _ _ _ _ (kp_grows _ _ _ (proj1 Hokh))). pose proof (grows_count _ _ _ _ (lb_grows _ _ _ _ _ _ _ _ (fs_label _ _ _ _ _ _ Fs))). lia.
Qed.

Lemma both_part flags c d c1 c1' c2 c3 c4 c5 c' sid h f s sh sf : wf c → c_scopeStack c ≠ [] → m_catchFinallyFollowBlock c = None → copen c d sid h (Some f) → opens isVoid flags h c d →
  sid = c_scopeCount c → sc_frame (scope d sid) = Some (next_frame (sc_frame (child c))) → f_HasCatch (sc_flags (scope d sid)) = true → good s → compile isVoid isErrorCode s d = inl (tt, c1) →
  (kept d c1 → reflag isVoid sid c1 c1') → (scope c1 sid = scope d sid → f_Catch (sc_flags (scope c1' sid)) = false ∧ f_FinallyAhead (sc_flags (scope c1' sid)) = true) →
  catchLabel isVoid c1' = inl (tt, c2) → good sh → ControlFlowSim.free sh = true → compile isVoid isErrorCode sh c2 = inl (tt, c3) →
  (∀ sid2, c_scopeStack c3 = sid2 :: c_scopeStack c → f_Try (sc_flags (scope c3 sid2)) = false → f_Finally (sc_flags (scope c3 sid2)) = false → f_FinallyAhead (sc_flags (scope c3 sid2)) = true →
    sc_finallyBlock (scope c3 sid2) = Some f → sc_finallyBlock (scope c3 sid) = Some f → c_scopeStack c1 = sid :: c_scopeStack c →
    ∃ cj, (if reachable c3 then normalFinallyFlow f (pop c3) = inl (tt, cj) else cj = pop c3) ∧ c4 = labeled Flag_Finally (sc_set_finally (Some f)) f cj) →
  good sf → ControlFlowSim.free sf = true → compile isVoid isErrorCode sf c4 = inl (tt, c5) → closeScope isVoid c5 = inl (tt, c') →
  kept c c' ∧ ∃ cj hb sid2, both_code c d c1 c1' c2 c3 cj c4 c5 c' sid h f hb sid2 s sh sf.
Proof.
  intros W Hne Hfo Cp Op Esid Hf Hhc IH Hs HR Hfl Hl IHh Hfreeh Hh Hend IHf Hfree Hsf Hclose. pose proof (o_frame _ _ _ _ _ Op) as Fr. pose proof (o_stack _ _ _ _ _ Op) as Hst. assert (Wd : wf d) by apply Fr.
  assert (Hok : ok s d c1).
  { apply IH; [done|done|apply empty_open, (sf_code _ _ _ _ _ Fr)|by rewrite Hst|rewrite Hst; by destruct (c_scopeStack c)|left; by rewrite (o_follow _ _ _ _ _ Op)]. }
  pose proof Hok as [K _]. specialize (HR K). assert (Es1 : scope c1 sid = scope d sid) by (apply (kp_scopes _ _ _ K), (cp_sid _ _ _ _ _ _ Cp)).
  destruct (Hfl Es1) as [Fl1 Fl2]. rewrite child_frame in Hf by done. assert (W1' : wf c1') by apply HR. assert (O1 : open c1') by (eapply reflag_open; [exact HR|apply K]).
  pose proof (catch_behind isVoid c d c1 c1' c1' sid h (Some f) W Cp K HR (c_grows_refl _ _ _ W1') (c_same_refl _)) as B.
  destruct (catchLabel_inv isVoid c1' c2 sid (c_scopeStack c) Hl W1' O1 (bh_stack _ _ _ _ _ _ _ B) Fl1) as (cr & cj0 & h' & _ & Hhb & Hcr & Hj & Hc2). rewrite Fl2, andb_false_r in Hcr. subst cr. rewrite Fl2 in Hj, Hc2.
  destruct (static_catch _ _ (bh_static _ _ _ _ _ _ _ B)) as (E1 & E2 & E3 & E4 & E5 & E6). rewrite E1, (gd_catch _ _ _ _ _ (cp_guard _ _ _ _ _ _ Cp)) in Hhb. injection Hhb as <-.
  assert (Ef : sc_finallyBlock (scope c1' sid) = Some f).
  { pose proof (gd_ahead _ _ _ _ _ (cp_guard _ _ _ _ _ _ Cp)) as Ha. unfold ahead, scope_ahead in Ha. rewrite <-E4, Fl2 in Ha. by rewrite E2. }
  destruct (bh_finally _ _ _ _ _ _ _ B f eq_refl) as (If1 & Ha1 & _).
  assert (Hn1 : m_catchFinallyFollowBlock c1' = None) by (by rewrite (rf_follow _ _ _ _ HR), (kp_follow _ _ _ K), (o_follow _ _ _ _ _ Op)).
  assert (Ps : past c c1' cj0 f).
  { apply (past_intro isVoid c sid); try done; [apply B|intros s0; apply (bh_scopes _ _ _ _ _ _ _ B)|apply (bh_count _ _ _ _ _ _ _ B)|by apply follow_ok_none|intros b Hb; congruence|].
    destruct (reachable c1'); [|done]. destruct Hj as (f' & Hf' & Hj). by assert (f' = f) as -> by congruence. }
  destruct Hc2 as (f' & Hf' & Hc2). assert (f' = f) as -> by congruence. clear Hf'.
  destruct (catch_finally_label c d c1' sid h f cj0 c2 W Hne Cp B Ps Hn1 Fl2 Hc2) as (hb & F). set (sid2 := c_scopeCount cj0) in *. pose proof (ct_region _ _ _ _ _ _ _ F) as Rg.
  assert (W2 : wf c2) by apply (ct_grows _ _ _ _ _ _ _ F). pose proof (gd_stack _ _ _ _ _ (rg_guard _ _ _ _ _ _ Rg)) as St2. destruct (ct_here _ _ _ _ _ _ _ F) as [Hc2e _].
  assert (Hokh : ok sh c2 c3).
  { apply IHh; [done|done|by apply empty_open|by rewrite St2|rewrite St2; by destruct (c_scopeStack c)|by right]. }
  pose proof Hokh as [Kh _]. assert (Es3 : scope c3 sid2 = scope c2 sid2) by (apply (kp_scopes _ _ _ Kh), (rg_sid _ _ _ _ _ _ Rg)).
  destruct (ct_scope _ _ _ _ _ _ _ F) as (T1 & T2 & T3 & T4 & T5 & T6). rewrite <-Es3 in T1, T2, T3, T5.
  destruct (Hend sid2) as (cj & Hjj & Hc4); try done.
  { by rewrite (kp_stack _ _ _ Kh). }
  { assert (Hlt : sid < c_scopeCount c1').
    { pose proof (cp_sid _ _ _ _ _ _ Cp). pose proof (e_scount _ _ (g_ext _ _ _ _ (bh_grows _ _ _ _ _ _ _ B))). lia. }
    assert (X13 : ext c1' c3) by (eapply ext_trans; [apply (ct_grows _ _ _ _ _ _ _ F)|apply Kh]).
    pose proof (e_scope _ _ X13 sid Hlt) as Hstat. destruct (static_catch _ _ Hstat) as (_ & -> & _). exact Ef. }
  { rewrite <-(rf_stack _ _ _ _ HR). apply (bh_stack _ _ _ _ _ _ _ B). }
  assert (Fs : fstart c c3 cj c4 f).
  { eapply (finally_label isVoid c c2 sid2 f hb); try done.
    - eapply follow_ok_ext; [apply (ct_follow _ _ _ _ _ _ _ F)|apply Kh|done|apply Kh].
    - intros b Hb. rewrite (kp_follow _ _ _ Kh) in Hb. eapply routes_stay; [apply Kh|apply (i_count _ _ (rg_idle _ _ _ _ _ _ Rg))|by eapply (ct_routes _ _ _ _ _ _ _ F)]. }
  destruct (finally_part isVoid isErrorCode fin _ _ _ _ _ _ _ _ _ _ sf W Hne Hfo Rg Kh Fs IHf Hfree Hsf Hclose) as (Kc & Fe & Okf).
  split; [done|]. exists cj, hb, sid2. split; try done. intros Hr. by apply (sf_reached _ _ _ _ _ Fr).
Qed.

Lemma both_ok flags isTry s s_catch sh sf c d c1 c1' c2 c3 cj c4 c5 c' sid h f hb sid2 : handler isTry s_catch = Some sh → kept c c' → both_code c d c1 c1' c2 c3 cj c4 c5 c' sid h f hb sid2 s sh sf →
  opens isVoid flags h c d → ok (SScope isTry s s_catch (Some sf)) c c'.
Proof.
  intros Hh K C Op. split; [done|]. intros fuel k hs m o w X A Hp Hev. destruct fuel as [|fuel]; [done|].
  assert (ControlFlowSim.free (SScope isTry s s_catch (Some sf)) = false) as -> by (cbn; destruct s_catch; by rewrite andb_false_r).
  apply eval_scope in Hev as (o1 & w1 & o2 & w2 & H1 & H2 & o3 & H3 & ->). rewrite Hh in H1, H2. rewrite bool_decide_eq_true_2, orb_true_r in H1 by (by eexists).
  eapply (both_sim c d c1 c1' c2 c3 cj c4 c5 c' sid h f hb sid2 s sh sf flags fuel hs k m o1 w1 o2 w2 o3 w); done.
Qed.

Lemma catch_finally_good isTry s sh sf : good s → good sh → ControlFlowSim.free sh = true → good sf → ControlFlowSim.free sf = true → ∀ c c',
  compile isVoid isErrorCode (SScope isTry s (Some sh) (Some sf)) c = inl (tt, c') → wf c → c_scopeStack c ≠ [] → m_catchFinallyFollowBlock c = None → ok (SScope isTry s (Some sh) (Some sf)) c c'.
Proof.
  intros IH IHh Hfreeh IHf Hfree c c' H W Hne Hfo. cbn in H. comp_step H. rename select (openScope _ _ = _) into Ho. rename select (compile _ _ s _ = _) into Hs. rename select (catchLabel _ _ = _) into Hl.
  rename select (compile _ _ sh _ = _) into Hh. rename select (finallyLabel _ _ = _) into Hfl. rename select (compile _ _ sf _ = _) into Hf. units.
  set (flags := anchor_flags isTry (Some sh) (Some sf)) in *.
  match type of Hs with compile _ _ _ ?d = inl (_, ?c1) => rename d into d0, c1 into e1 end. match type of Hh with compile _ _ _ ?x = inl (_, ?y) => rename x into e2, y into e3 end.
  match type of Hf with compile _ _ _ ?x = inl (_, ?y) => rename x into e4, y into e5 end.
  destruct (opened_catch isVoid flags c _ d0 Ho W Hne) as (h & ff & Cp & Op & -> & Hff & Es); [by destruct isTry|done|]. destruct ff as [f|]; [|done].
  destruct (opened_flags_label flags c Hne) as (O1 & O2 & O3 & O4 & O5 & O6 & O7 & O8). change (f_Catch flags) with false in O2. change (f_FinallyAhead flags) with true in O5.
  destruct (both_part flags c d0 e1 e1 e2 e3 e4 e5 c' _ h f s sh sf W Hne Hfo Cp Op eq_refl) as (K & cj & hb & sid2 & C); try done.
  - by rewrite Es.
  - rewrite Es. cbn [sc_flags]. rewrite O6. unfold flags, anchor_flags. cbn. by destruct isTry; rewrite orb_true_r.
  - intros K. apply reflag_refl, K.
  - intros ->. by rewrite Es.
  - intros sid2 St F1 F2 F3 F4 _ _. destruct (finallyLabel_inv isVoid e3 e4 sid2 _ Hfl St) as (_ & _ & cx & cy & f' & cj & Hx & Hy & Hf' & Hj & ->). rewrite F1 in Hx. subst cx.
    apply (close_labeled_pop _ _ sid2 (c_scopeStack c)) in Hy; [|done|by rewrite F3, andb_false_r|done]. subst cy. change (scope (pop e3) sid2) with (scope e3 sid2) in Hf'. assert (f' = f) as -> by congruence.
    by exists cj.
  - by eapply both_ok.
Qed.

(** [try] with [finally], without [catch]. *)
Lemma try_finally_good s sf : good s → good SSkip → good sf → ControlFlowSim.free sf = true → ∀ c c',
  compile isVoid isErrorCode (SScope true s None (Some sf)) c = inl (tt, c') → wf c → c_scopeStack c ≠ [] → m_catchFinallyFollowBlock c = None → ok (SScope true s None (Some sf)) c c'.
Proof.
  intros IH IHh IHf Hfree c c' H W Hne Hfo. cbn in H. comp_step H. rename select (openScope _ _ = _) into Ho. rename select (compile _ _ s _ = _) into Hs.
  rename select (finallyLabel _ _ = _) into Hfl. rename select (compile _ _ sf _ = _) into Hf. units. set (flags := anchor_flags true None (Some sf)) in *.
  match type of Hs with compile _ _ _ ?d = inl (_, ?c1) => rename d into d0, c1 into e1 end. match type of Hf with compile _ _ _ ?x = inl (_, ?y) => rename x into e4, y into e5 end.
  destruct (opened_catch isVoid flags c _ d0 Ho W Hne eq_refl eq_refl) as (h & ff & Cp & Op & -> & Hff & Es). destruct ff as [f|]; [|done].
  destruct (opened_flags_label flags c Hne) as (O1 & O2 & O3 & O4 & O5 & O6 & O7 & O8). change (f_Try flags) with true in O1. change (f_Catch flags) with false in O2. change (f_FinallyAhead flags) with true in O5. change (f_HasCatch flags) with true in O6.
  pose proof (o_stack _ _ _ _ _ Op) as Hst. set (sid := c_scopeCount c) in *. assert (Wd : wf d0) by apply (o_frame _ _ _ _ _ Op).
  destruct (IH d0 e1 Hs Wd) as [K _]; [apply empty_open, (sf_code _ _ _ _ _ (o_frame _ _ _ _ _ Op))|by rewrite Hst|rewrite Hst; by destruct (c_scopeStack c)|left; by rewrite (o_follow _ _ _ _ _ Op)|].
  assert (Es1 : scope e1 sid = scope d0 sid) by (apply (kp_scopes _ _ _ K), (cp_sid _ _ _ _ _ _ Cp)). set (e1' := upd_scp sid catch_ahead e1) in *.
  destruct (finallyLabel_inv isVoid e1 e4 sid (c_scopeStack c) Hfl) as (_ & _ & e2 & cy & f' & cj & Hx & Hy & Hf' & Hj & He4); [by rewrite (kp_stack _ _ _ K)|]. rewrite Es1, Es in Hx. cbn [sc_flags] in Hx. rewrite O1 in Hx. fold e1' in Hx.
  destruct (both_part flags c d0 e1 e1' e2 e2 e4 e5 c' sid h f s SSkip sf W Hne Hfo Cp Op eq_refl) as (K' & cj' & hb & sid2 & C); try done.
  - by rewrite Es.
  - rewrite Es. cbn [sc_flags]. by rewrite O6, orb_true_r.
  - intros _. apply reflag_upd; [apply reflag_refl, K|apply static_ahead].
  - intros _. unfold e1'. rewrite scope_upd, decide_True by done. rewrite Es1, Es. set (fl := opened_flags flags c) in *. clearbody fl. cbn. by rewrite O2, O5.
  - intros sid2 St F1 F2 F3 F4 F5 _. apply (close_labeled_pop _ _ sid2 (c_scopeStack c)) in Hy; [|done|by rewrite F3, andb_false_r|done]. subst cy. change (scope (pop e2) sid) with (scope e2 sid) in Hf'.
    assert (f' = f) as -> by congruence. by exists cj.
  - by eapply both_ok.
Qed.
End both.
