(* ===== verification/ControlFlowProps.v ===== *)
(** * Control flow: the properties

    Compiled functions do what their statements mean; what becomes of labels in the parts behind labels. *)

From S2P Require Import Prelude ControlFlow ControlFlowRun ControlFlowInv ControlFlowOps ControlFlowScope ControlFlowRoute ControlFlowLabels ControlFlowSim ControlFlowLeaf ControlFlowStmt ControlFlowLoop ControlFlowTry ControlFlowFinally ControlFlowCatch ControlFlowTryFinally.

Open Scope nat_scope.

#[local] Strategy 1000 [mbind Comp_bind mret Comp_ret].

Lemma free_flat : ∀ s, ControlFlowSim.free s = true → flat s = true.
Proof.
  fix IH 1. intros [| |s1 s2|c s1 [s2|]|c s|s c| | | | | |[] s [hc|] [hf|] ]; cbn; try done; rewrite ?andb_true_iff, ?andb_false_r; intros H; try done; naive_solver.
Qed.

Section statements.
Context `{E : Effects} (isVoid isErrorCode : bool) (fin : CState) (Wfin : wf isVoid fin).

#[local] Abbreviation ok := (ok isVoid isErrorCode fin).
#[local] Abbreviation good := (good isVoid isErrorCode fin).
#[local] Abbreviation scope_ok := (scope_ok isVoid isErrorCode fin).

Lemma scope_ok_ok s c c' : scope_ok s c c' → ControlFlowSim.free s = false → c_scopeStack c ≠ [0] → ok s c c'.
Proof.
  intros [K M] Hf Hst. split; [done|]. intros fuel k hs m o w X A Hp Hev. rewrite Hf. by destruct (M fuel k hs m o w X A Hp Hev) as [H|(_ & H & _)].
Qed.

Lemma ok_scope_ok s c c' : ok s c c' → scope_ok s c c'.
Proof.
  intros [K M]. split; [done|]. intros fuel k hs m o w X A Hp Hev. left. pose proof (M fuel k hs m o w X A Hp Hev) as H. destruct H; [by apply post_normal|by eapply post_leaves|by apply post_returns|by eapply post_throws|by apply post_thrown].
Qed.

Lemma plain_scope_ok s c c' : good s → compile isVoid isErrorCode (SScope false s None None) c = inl (tt, c') → wf isVoid c → open c → c_scopeStack c ≠ [] →
  m_catchFinallyFollowBlock c = None ∨ ControlFlowSim.free s = true → ok (SScope false s None None) c c'.
Proof.
  intros IH H W O Hst Hf. cbn in H. comp_step H. rename select (openScope _ _ = _) into Ho. rename select (compile _ _ s _ = _) into Hs. units. apply openScope_plain_inv in Ho as [-> ->]; [|done..].
  destruct (inner_ok isVoid isErrorCode fin s c _ c' IH W O Hst Hf Hs H) as [K M]. split; [done|]. intros fuel k hs m o w X A Hp Hev. destruct fuel as [|fuel]; [done|].
  apply eval_scope in Hev as (o1 & w1 & o2 & w2 & H1 & H2 & -> & ->). rewrite orb_false_r in H1. assert (o2 = o1 ∧ w2 = w1) as [-> ->] by (by destruct o1).
  assert (ControlFlowSim.free (SScope false s None None) = ControlFlowSim.free s) as -> by (cbn; by rewrite andb_true_r). by eapply M.
Qed.

(** The scope of a function, too. *)
Lemma scope_statement isTry s hc hf c c' : good s → good SSkip → (∀ h, hc = Some h → good h) → (∀ h, hf = Some h → good h) → flat (SScope isTry s hc hf) = true →
  compile isVoid isErrorCode (SScope isTry s hc hf) c = inl (tt, c') → wf isVoid c → open c → c_scopeStack c ≠ [] →
  m_catchFinallyFollowBlock c = None ∨ ControlFlowSim.free (SScope isTry s hc hf) = true → scope_ok (SScope isTry s hc hf) c c' ∧ (c_scopeStack c ≠ [0] → ok (SScope isTry s hc hf) c c').
Proof.
  intros IH IHs IHc IHf Hflat H W O Hst Hfo.
  assert (Hok : ok (SScope isTry s hc hf) c c' → scope_ok (SScope isTry s hc hf) c c' ∧ (c_scopeStack c ≠ [0] → ok (SScope isTry s hc hf) c c')) by (intros Hk; split; [by apply ok_scope_ok|done]).
  assert (Hsc : ControlFlowSim.free (SScope isTry s hc hf) = false → scope_ok (SScope isTry s hc hf) c c' → scope_ok (SScope isTry s hc hf) c c' ∧ (c_scopeStack c ≠ [0] → ok (SScope isTry s hc hf) c c')).
  { intros Hf Hk. split; [done|]. by apply scope_ok_ok. }
  cbn in Hflat. apply andb_true_iff in Hflat as [Hflat Hff]. apply andb_true_iff in Hflat as [_ Hfc].
  assert (Hn : ControlFlowSim.free (SScope isTry s hc hf) = false → m_catchFinallyFollowBlock c = None) by (intros Hf; destruct Hfo as [Hfo|Hfo]; [done|congruence]).
  destruct hc as [h|], hf as [f|].
  - apply Hok. eapply catch_finally_good; eauto. apply Hn. cbn. by rewrite andb_false_r.
  - assert (Hf : ControlFlowSim.free (SScope isTry s (Some h) None) = false) by (cbn; by rewrite andb_false_r). apply Hsc; [done|]. eapply catch_good; eauto.
  - assert (Hf : ControlFlowSim.free (SScope isTry s None (Some f)) = false) by (cbn; by rewrite andb_false_r). apply Hok. destruct isTry; [eapply try_finally_good|eapply finally_good]; eauto.
  - destruct isTry; [apply Hsc; [done|]; eapply try_good; eauto|]. apply Hok, plain_scope_ok; try done. destruct Hfo as [Hfo|Hfo]; [by left|right]. cbn in Hfo. by rewrite andb_true_r in Hfo.
Qed.

Lemma compile_good : ∀ s, flat s = true → good s.
Proof.
  fix IH 1. intros s Hs. pose proof (λ c c' (H : compile isVoid isErrorCode SSkip c = inl (tt, c')) W O, match comp_ret_inv _ _ _ _ H with conj _ Hc => eq_rect_r (λ c', ok SSkip c c') (skip_ok isVoid isErrorCode fin c W O) Hc end) as Hskip.
  assert (Gskip : good SSkip) by (intros c c' H W O _ _ _; by apply Hskip). destruct s as [|n|s1 s2|c s1 s2|c s|s c|l|l|v| |c|isTry s hc hf].
  - done.
  - intros c c' H W O _ _ _. by apply act_ok.
  - cbn in Hs. apply andb_true_iff in Hs as [H1 H2]. by apply seq_good; apply IH.
  - cbn in Hs. apply andb_true_iff in Hs as [H1 H2]. destruct s2 as [s2|]; [by apply if_else_good; apply IH|by apply if_then_good, IH].
  - by apply while_good, IH.
  - by apply do_good, IH.
  - intros c c' H W O _ _ _. by apply break_ok.
  - intros c c' H W O _ _ _. by apply continue_ok.
  - intros c c' H W O _ _ _. by apply return_ok.
  - intros c c' H W O _ _ _. by apply throw_ok.
  - intros c0 c' H W O _ _ _. by apply check_ok.
  - intros c c' H W O Hst Hst0 Hfo. pose proof Hs as Hs'. cbn in Hs'. apply andb_true_iff in Hs' as [Hs' Hf]. apply andb_true_iff in Hs' as [Hb Hc].
    assert (Gc : ∀ h, hc = Some h → good h) by (destruct hc as [h|]; [|done]; intros h' [= <-]; by apply IH, free_flat).
    assert (Gf : ∀ h, hf = Some h → good h) by (destruct hf as [h|]; [|done]; intros h' [= <-]; by apply IH, free_flat).
    by apply (scope_statement isTry s hc hf c c' (IH s Hb) Gskip Gc Gf Hs H W O Hst Hfo).
Qed.
End statements.

(** ** Functions *)

(** The state where the body of a function begins. *)
Definition begun : CState := match prologue initial with inl (_, c) => c | inr _ => initial end.

Lemma prologue_begun : prologue initial = inl (tt, begun).
Proof. reflexivity. Qed.

Record at_body (c : CState) : Prop := {
  ab_blocks : blk c 0 = mkBlock [IBr 1] true false 0 None [] ∧ blk c 1 = mkBlock [IBr 2] true false 0 None [] ∧ blk c 2 = mkBlock [] true false 0 None [];
  ab_scope : scope c 0 = new_scope Flag_Function None;
  ab_stack : c_scopeStack c = [0];
  ab_count : c_blockCount c = 3 ∧ c_scopeCount c = 1;
  ab_current : m_currentBlock c = 2;
  ab_return : m_returnBlock c = None;
  ab_follow : m_catchFinallyFollowBlock c = None
}.

Lemma begun_body : at_body begun.
Proof. by split. Qed.

Lemma wf_first isVoid : wf isVoid (create true initial).
Proof.
  assert (Hb : ∀ b, blk (create true initial) b = if decide (0 = b) then new_block true else new_block false) by (intros b; apply blk_create).
  assert (Ho : ∀ s b, ¬ owns (create true initial) s b) by (intros s b [ [H _]|[_ H] ]; [by apply not_elem_of_nil in H|done]).
  split; try done.
  - cbn. lia.
  - intros s b H. by destruct (Ho s b).
  - intros s1 s2 b H. by destruct (Ho s1 b).
  - intros s b H. by destruct (Ho s b).
  - intros s H. by apply not_elem_of_nil in H.
  - constructor.
  - intros b H. by apply not_elem_of_nil in H.
  - constructor.
  - intros b k x. rewrite Hb. case_decide; intros H2; by apply not_elem_of_nil in H2.
  - intros b k x. rewrite Hb. case_decide; intros H2; by apply not_elem_of_nil in H2.
Qed.

Lemma wf_begun isVoid : wf isVoid begun.
Proof.
  pose proof prologue_begun as H. unfold prologue in H. comp_step H. units. rename select (openScope _ _ = _) into Ho. apply openScope_plain_inv in Ho as [-> ->]; [|done..].
  pose proof (wf_first isVoid) as W1. assert (W2 : wf isVoid (create true (create true initial))) by (by apply wf_create).
  destruct (blank_new isVoid _ true W1) as [I1 _ _]. change (c_blockCount (create true initial)) with 1 in I1.
  rename select (jump _ _ (set_currentBlock _ _) = _) into Hj. set (d := set_currentBlock _ _) in *. assert (Wd : wf isVoid d) by (apply wf_currentBlock; [done|cbn; lia]).
  assert (Id : idle d 1) by (by apply idle_currentBlock).
  pose proof (jump_spec isVoid 1 (Some 1) d _ Hj Wd (i_count _ _ Id) (idle_not_unreachable _ _ Id) ltac:(by intros x [= <-])) as J.
  match type of J with jumps _ _ _ _ _ ?e => set (e0 := e) in * end. assert (We : wf isVoid e0) by apply J. pose proof (q_silent _ _ _ (opened_silent isVoid no_flags e0 We)) as Go. assert (Wo : wf isVoid (opened no_flags e0)) by apply Go.
  destruct (blank_new isVoid _ false Wo) as [I2 _ _]. assert (W3 : wf isVoid (create false (opened no_flags e0))) by (by apply wf_create).
  pose proof (jump_spec isVoid _ (Some (c_blockCount (opened no_flags e0))) _ _ H W3 (i_count _ _ I2) (idle_not_unreachable _ _ I2) ltac:(by intros x [= <-])) as J2. apply J2.
Qed.

Lemma return_ends `{E : Effects} isVoid fin c c' fr m v w : wf isVoid fin → wf isVoid c' → ext c' fin → c_scopeStack c = [0] → sc_frame (scope fin 0) = None →
  post isVoid fin [] c c' fr m (OReturn v) w → ends (finalizeFunction fin) m (Returned v w None).
Proof.
  intros Wfin W' X Hst Hf Hp. inversion Hp as [|o w' t b m' T S [A1 A2 A3 A4 A5 A6 A7 A8] _|v' w' _ En| |]; subst; [|done]. destruct T as [-> Hb].
  assert (El : fins c (Some 0) (c_scopeStack c) = []) by (rewrite Hst; cbn; by rewrite decide_True). rewrite El in A1. cbn [hd] in A1.
  assert (Hbf : m_returnBlock fin = Some b) by (by apply (e_return _ _ X)). destruct (w_owns _ _ W' 0 b) as [Hlt _]; [by right|].
  assert (Hl : landing fin b = Some 0).
  { pose proof (e_landing_some _ _ X b Hlt A4) as Hn. destruct (w_landing _ _ Wfin 0 b) as [Hl|Hl]; [by right|congruence|done]. }
  destruct (w_return _ _ Wfin b Hbf) as [rest Hr]. rewrite code_of_fin in A1. unfold landing_code in A1. rewrite Hl, Hf, Hr in A1.
  assert (∃ m2, steps (finalizeFunction fin) m' m2 ∧ k_code m2 = return_instr isVoid :: rest ∧ k_frame m2 = None ∧ k_ret m2 = k_ret m' ∧ k_world m2 = k_world m') as (m2 & S2 & H1 & H2 & H3 & H4).
  { destruct (m_sjljFrameArrayValue fin) eqn:Ha.
    - exists (set_frame None (set_code (return_instr isVoid :: rest) m')). split; [|done]. apply steps_one. unfold step. by rewrite A1.
    - exists m'. split; [apply rtc_refl|]. split; [done|]. split; [by apply A6|done]. }
  apply (steps_ends fin m m2); [by eapply steps_trans|]. exists m2. split; [apply rtc_refl|]. unfold step. rewrite H1. unfold return_instr. cbn in A8. destruct isVoid; cbn; by rewrite H2, ?H3, H4, ?A8.
Qed.

Lemma body_kept isVoid c c1 : at_body c → kept isVoid c c1 → c_scopeStack c1 = [0] ∧ scope c1 0 = new_scope Flag_Function None.
Proof. intros B K. split; [by rewrite (kp_stack _ _ _ K), (ab_stack _ B)|]. rewrite (kp_scopes _ _ _ K); [apply B|]. rewrite (proj2 (ab_count _ B)). lia. Qed.

(** The machine comes to the body. *)
Lemma start_body `{E : Effects} isVoid fin c w : at_body c → wf isVoid c → wf isVoid fin → ext c fin → ∃ m, steps (finalizeFunction fin) (start (finalizeFunction fin) w) m ∧ pre fin [] c m ∧ k_world m = w.
Proof.
  intros [ (B0 & B1 & B2) Bs Bst [Bn _] Bc Br _] W Wfin X.
  assert (Hp : ∀ x, x < 3 → code_of (finalizeFunction fin) x = code fin x).
  { intros x Hx. rewrite code_of_fin. unfold landing_code. rewrite (e_landing _ _ X); [|by rewrite Bn|].
    - destruct x as [|[|[|x] ] ]; [by rewrite B0|by rewrite B1|by rewrite B2|lia].
    - intros [ [s [ [Hs Hb]|[_ Hb] ] ]|(s & Hs & Ha)%elem_all_ahead]; [|congruence|]; rewrite Bst in Hs; apply list_elem_of_singleton in Hs as ->; rewrite Bs in *; [|done]. by destruct Hb as [Hb|[Hb|Hb] ]. }
  destruct (e_code _ _ X 0) as [l0 H0]; [rewrite Bn; lia|]. destruct (e_code _ _ X 1) as [l1 H1]; [rewrite Bn; lia|]. rewrite B0 in H0. rewrite B1 in H1. cbn in H0, H1.
  set (m0 := start (finalizeFunction fin) w). assert (E0 : k_code m0 = IBr 1 :: l0) by (unfold m0, start; cbn [k_code enter set_code]; rewrite Hp by lia; done).
  set (m1 := enter (finalizeFunction fin) 1 (set_code l0 m0)). assert (E1 : k_code m1 = IBr 2 :: l1) by (unfold m1; cbn [k_code enter set_code]; rewrite Hp by lia; done).
  exists (enter (finalizeFunction fin) 2 (set_code l1 m1)). split; [|split; [|done] ].
  - eapply step_steps; [unfold step; rewrite E0; reflexivity|]. fold m1. apply steps_one. unfold step. by rewrite E1.
  - split; [|unfold reachable; by rewrite Bc, B2|done|done]. unfold at_end. rewrite Bc, B2. cbn [b_code app k_code enter set_code]. symmetry. apply Hp. lia.
Qed.

Lemma epilogue_inv isVoid c c' : epilogue isVoid c = inl (tt, c') → c_scopeStack c = [0] → scope c 0 = new_scope Flag_Function None → wf isVoid c → open c → ∃ cr, checkReturn isVoid c = inl (tt, cr) ∧ c' = pop cr.
Proof.
  intros H Hst Hs W O. unfold epilogue in H. comp_step H. units. eexists. split; [done|]. rename select (checkReturn _ _ = _) into Hr. destruct (checkReturn_same isVoid _ _ Hr W O) as (G & S & _).
  eapply (closeScope_pop isVoid _ _ 0 []); [exact H|by rewrite (s_stack _ _ S)|by rewrite (same_scope _ _ _ S), Hs..].
Qed.

(** What the whole function does, from the state at its body. *)
Lemma body_ends `{E : Effects} isVoid isErrorCode body s_catch s_finally c0 c1 c3 fuel w o w' : let s := SScope false body s_catch s_finally in flat s = true → at_body c0 → wf isVoid c0 →
  compile isVoid isErrorCode s c0 = inl (tt, c1) → epilogue isVoid c1 = inl (tt, c3) → let P := finalizeFunction c3 in eval isErrorCode fuel false s w = Some (o, w') → ends P (start P w) (function_ending o w').
Proof.
  intros s Hflat B W0 Hs He P Hev. unfold P. clear P.
  assert (Hflat' := Hflat). cbn in Hflat'. apply andb_true_iff in Hflat' as [Hflat' Hff]. apply andb_true_iff in Hflat' as [Hfb Hfc]. pose proof (ab_scope _ B) as B3. pose proof (ab_stack _ B) as B4.
  assert (Hgood : ∀ fin, wf isVoid fin → scope_ok isVoid isErrorCode fin s c0 c1).
  { intros fin Wf. assert (G : ∀ s, flat s = true → good isVoid isErrorCode fin s) by (intros s'; by apply compile_good).
    assert (Gc : ∀ h, s_catch = Some h → good isVoid isErrorCode fin h) by (intros h ->; by apply G, free_flat). assert (Gf : ∀ h, s_finally = Some h → good isVoid isErrorCode fin h) by (intros h ->; by apply G, free_flat).
    apply (scope_statement isVoid isErrorCode fin Wf false body s_catch s_finally c0 c1 (G body Hfb) (G SSkip eq_refl) Gc Gf Hflat Hs W0); [|by rewrite B4|left; apply B].
    apply empty_open. rewrite (ab_current _ B). by destruct (ab_blocks _ B) as (_ & _ & ->). }
  destruct (Hgood c0 W0) as [K _]. destruct (body_kept _ _ _ B K) as [St1 Sc1]. assert (W1 : wf isVoid c1) by apply K.
  destruct (epilogue_inv _ _ _ He St1 Sc1 W1 (kp_open _ _ _ K)) as (cr & Hr & ->). destruct (checkReturn_same isVoid _ _ Hr W1 (kp_open _ _ _ K)) as (Gr & Sr & _).
  set (fin := pop cr) in *. assert (Wr : wf isVoid cr) by apply Gr. assert (Wfin : wf isVoid fin) by (by apply wf_pop). assert (Xr : ext cr fin) by apply ext_pop, ext_refl.
  assert (X1 : ext c1 fin) by (eapply ext_trans; [apply Gr|done]). destruct (Hgood fin Wfin) as [_ M].
  assert (Hf0 : sc_frame (scope fin 0) = None) by (change (scope fin 0) with (scope cr 0); by rewrite (same_scope _ _ _ Sr), Sc1).
  destruct (start_body isVoid fin c0 w B W0 Wfin ltac:(eapply ext_trans; [apply K|done])) as (m & S & Hpre & <-).
  assert (A : ∀ c, c_scopeStack c = [0] → scope c 0 = new_scope Flag_Function None → around fin [] false c).
  { intros c Hst Hsc. split; unfold top; rewrite ?Hst; cbn [hd]; rewrite ?Hsc; try done; [by left|]. cbn. by rewrite Hsc. }
  apply (steps_ends fin _ m); [done|].
  assert (Hret : ∀ m c c' fr v w, wf isVoid c' → ext c' fin → c_scopeStack c = [0] → post isVoid fin [] c c' fr m (OReturn v) w → ends (finalizeFunction fin) m (Returned v w None)).
  { intros m1 c c' fr v w1 W' X' Hst. by apply return_ends. }
  destruct (M fuel false [] m o w' X1 (A _ B4 B3) Hpre Hev) as [Hpost|(-> & _ & Hpost)]; [|exact (Hret _ _ _ _ _ _ W1 X1 B4 Hpost)].
  assert (Hno : ∀ f n b, find_scope c0 f n (c_scopeStack c0) = Some b → f (new_scope Flag_Function None) ≠ None).
  { intros f n b (Hin & Hs')%find_scope_spec. rewrite B4 in Hin. apply list_elem_of_singleton in Hin as ->. rewrite B3 in Hs'. destruct Hs' as [y Hy]. by rewrite Hy. }
  destruct o as [|n|n|v|]; cbn [function_ending].
  - apply post_normal_inv in Hpost as (m1 & S1 & Hp1 & _ & <-). destruct (checkReturn_spec isVoid _ _ Hr W1 (kp_open _ _ _ K)) as [ (_ & Hv & Hret2)|(Hd & _)]; [|pose proof (pr_reach _ _ _ _ Hp1); congruence].
    apply (steps_ends fin _ m1); [done|]. apply (Hret m1 c1 cr false None (k_world m1) Wr Xr St1). apply (ret_post isVoid fin [] false); [done|done|done|by apply A|done].
  - inversion Hpost as [|? ? t b m' T| | |]; subst. destruct T as [T _]. by destruct (Hno _ _ _ T).
  - inversion Hpost as [|? ? t b m' T| | |]; subst. destruct T as [T _]. by destruct (Hno _ _ _ T).
  - exact (Hret _ _ _ _ _ _ W1 X1 B4 Hpost).
  - inversion Hpost as [|? ? t b m' T| | |]; subst; [|done|done]. destruct T as [T _]. by destruct (Hno _ _ _ T).
Qed.

Lemma run_ends `{E : Effects} P m e : ends P m e → ∃ n, run_machine P n m = Some e.
Proof.
  intros (m' & St & He). revert He. induction St as [m|m m1 m' H1 St IH]; intros He; [exists 1; cbn; by rewrite He|]. destruct (IH He) as [n Hn]. exists (S n). cbn. by rewrite H1.
Qed.

(** ** The properties *)

(** C2: A function, compiled, does what its statements mean: when a run of the statements ends, the machine that runs its blocks ends, with the actions and the outcome of the statements. What leaves a scope goes through the [finally] parts in
    between, once each and from the inside out, exceptions come to the [catch] part of the scope they leave, and when the function returns, the frame of its caller is the current one. This is so for all
    functions whose [catch] and [finally] parts have no labels in them; the compiler accepts others, and does not compile them right ([nested_labels_lost]). *)
Theorem compile_correct `{E : Effects} isVoid isErrorCode body s_catch s_finally P fuel w o w' : flat (SScope false body s_catch s_finally) = true →
  compile_function isVoid isErrorCode body s_catch s_finally = inl P → eval isErrorCode fuel false (SScope false body s_catch s_finally) w = Some (o, w') →
  ∃ n, run_machine P n (start P w) = Some (function_ending o w').
Proof.
  intros Hflat HP Hev. unfold compile_function in HP. destruct ((_ ← prologue; _) initial) as [ [u c3]|] eqn:Hc; [|done]. injection HP as <-. comp_step Hc. units.
  rename select (prologue _ = _) into Hp. rewrite prologue_begun in Hp. injection Hp as <-. apply run_ends. eapply body_ends; [done|exact begun_body|apply wf_begun|done|done|done].
Qed.

(** A loop whose body may throw, and leaves through a [finally] part with [break] and [return]. *)
Definition sample : stmt :=
  SSeq (SWhile 5 (SScope false (SSeq (SAct 100) (SSeq (SIf 6 (SBreak 1) None) (SIf 7 (SReturn None) None))) (Some (SAct 1)) (Some (SAct 2)))) (SAct 9).

Definition sample_choices : list bool := [true; false; false; false; true; true; true; false; true].

Definition sample_code : gmap nat (list instr) := match compile_function true false sample None None with inl P => P | inr _ => ∅ end.

Lemma compile_correct_witness : ∃ n, run_machine (E := script_effects) sample_code n (start (E := script_effects) sample_code (mkScript sample_choices [])) =
  Some (Returned (E := script_effects) None (mkScript [] [5; 100; 6; 7; 2; 5; 100; 1; 2; 5; 100; 6; 2; 9]) None).
Proof.
  apply (compile_correct (E := script_effects) true false sample None None sample_code 50 (mkScript sample_choices []) ONormal (mkScript [] [5; 100; 6; 7; 2; 5; 100; 1; 2; 5; 100; 6; 2; 9])).
  - reflexivity.
  - vm_compute. reflexivity.
  - lazy. reflexivity.
Defined.

(** C40: The compiler keeps its state in order. A statement whose [catch] and [finally] parts have no labels in them leaves the scopes as they were, nothing waits for the part behind labels, only the end of the code of a block grows, and, if the code
    behind the statement may be reached, the current block has no terminator yet. The blocks a scope jumps to are its own, no route leads to the unreachable block, and no two scopes share a [finally] block. *)
Theorem compile_keeps isVoid isErrorCode s c c' : flat s = true → compile isVoid isErrorCode s c = inl (tt, c') → wf isVoid c → open c → c_scopeStack c ≠ [] → c_scopeStack c ≠ [0] →
  m_catchFinallyFollowBlock c = None → wf isVoid c' ∧ open c' ∧ m_catchFinallyFollowBlock c' = None ∧ c_scopeStack c' = c_scopeStack c ∧
  (∀ x, x < c_scopeCount c → scope c' x = scope c x) ∧ (∀ b, b < c_blockCount c → code c b `prefix_of` code c' b).
Proof.
  intros Hflat H W O Hst Hst0 Hfo. destruct (compile_good (E := script_effects) isVoid isErrorCode c W s Hflat c c' H W O Hst Hst0 (or_introl Hfo)) as [ [G O' S V F] _].
  split; [apply G|]. split; [done|]. split; [by rewrite F|]. split; [done|]. split; [done|]. apply G.
Qed.

(** The body of a function is in a scope. *)
Definition in_body : CState := opened no_flags begun.
Definition after_sample : CState := match compile true false sample in_body with inl (_, c) => c | inr _ => in_body end.

Lemma compile_keeps_witness : c_blockCount after_sample = 19 ∧ wf true after_sample.
Proof.
  split; [vm_compute; reflexivity|].
  apply (compile_keeps true false sample in_body after_sample); [reflexivity|vm_compute; reflexivity| |by apply empty_open|done|done|done].
  exact (g_wf _ _ _ _ (q_silent _ _ _ (opened_silent true no_flags begun (wf_begun true)))).
Defined.

(** A [catch] in a [catch], and a [finally] in a [finally]. *)
Definition nested_catch : stmt := SSeq (SScope false (SAct 0) (Some (SScope false (SAct 1) (Some (SAct 2)) None)) None) (SAct 9).
Definition nested_finally : stmt := SSeq (SScope false (SAct 0) None (Some (SSeq (SAct 1) (SScope false (SAct 2) None (Some (SAct 3)))))) (SAct 9).

(** How a run ends, and what it did. *)
Inductive result := DidReturn (log : list nat) | DidThrow (log : list nat) | GotStuck | NoResult.

Definition result_of (e : option (ending (E := script_effects))) : result :=
  match e with Some (Returned _ w _) => DidReturn (s_log w) | Some (Thrown w) => DidThrow (s_log w) | Some Stuck => GotStuck | None => NoResult end.

(** Labels in the parts behind labels take the block that waits behind the outer labels. With a [catch] in a [catch] part, the jump past the outer [catch] part goes to a block that never gets
    code; with a [finally] in a [finally] part, the outer one does not know its way out and throws. *)
Example nested_labels_lost : flat nested_catch = false ∧ flat nested_finally = false ∧
  result_of (run_compiled true false nested_catch None None []) = GotStuck ∧ result_of (run_source false nested_catch None None []) = DidReturn [0; 9] ∧
  result_of (run_compiled true false nested_finally None None []) = DidThrow [0; 1; 2; 3] ∧ result_of (run_source false nested_finally None None []) = DidReturn [0; 1; 2; 3; 9].
Proof. split_and!; vm_compute; reflexivity. Qed.

(** The compiler at the part behind [finally], when what is before it always throws. *)
Definition thrown_finally : CState + cerror :=
  match (_ ← prologue; _ ← openScope (anchor_flags false None (Some SSkip)); _ ← throwException true false None; finallyLabel true) initial with
  | inl (_, c) => inl c
  | inr e => inr e
  end.

(** When what is before a [finally] label always throws, its part may be reached, but has no route to anywhere: the end of the scope is at the assertion that there is a route. *)
Example finally_without_routes : match thrown_finally with
  | inl c => reachable c = true ∧ sc_finallyBlock (scope c (hd 0 (c_scopeStack c))) = Some (m_currentBlock c) ∧ b_finallyRouteMap (blk c (m_currentBlock c)) = []
  | inr _ => False
  end.
Proof. vm_compute. split_and!; reflexivity. Qed.
